(* ===== verification/_CoqProject ===== *)
-Q . S2P
Prelude.v
RustStr.v
HashMap.v
SipUri.v
SipMessage.v
SipVia.v
SipParser.v
SipTransaction.v
SipDialog.v
SipStack.v
Types.v
Channel.v
Dialplan.v
F64.v
Expression.v
Substitute.v
PbxApps.v
PbxExec.v
PbxStack.v
Bytes.v
SrtpWindow.v
Srtp.v
SrtpGcm.v
NetAddr.v
Acl.v
RateLimit.v
Translate.v
G711.v
Adpcm.v
Codecs.v
JitterBuffer.v
Sdp.v
SdpNegotiate.v
SipAuth.v
SipRegistrar.v
Utf8.v
Stun.v
Ice.v
PbxConfig.v
Path.v
Config.v
Bridge.v
Cdr.v
CdrBackends.v
AmiProtocol.v
Ami.v
AmiServer.v
CallQueue.v
QueueApp.v
Rtp.v
ConfMix.v
ConfProfile.v
ConfBridge.v
