(* ===== verification/Prelude.v ===== *)
(** * A verification library for the telephony core

    The program is a rewrite of the Asterisk PBX in Rust.  This library models
    what decides the fate of a call, SIP signalling and the dialplan, with the
    protections around it and the media path between, and proves what makes them
    correct.  Definitions are executable
    and follow the Rust code function by function, under the names of the code.

    ** Parts, and the files that model them

    All paths are under [src/crates/].

    - Foundations.  [Prelude.v]: results, panics, machine integers, tactics.
      [RustStr.v]: strings as lists of Unicode scalar values with UTF-8 byte
      offsets; a slice off a character boundary is a panic.  [HashMap.v]: a
      [HashMap] is a [gmap]; its iteration order is the interface [HashOrder].
      [F64.v]: binary64 numbers with their parsing and printing.
    - SIP messages ([asterisk-sip/src/parser/mod.rs]).  [SipUri.v]: methods and
      URIs.  [SipMessage.v]: messages, accessors, [Display], header helpers.
      [SipVia.v]: [received]/[rport] stamping.  [SipParser.v]: [parse_message].
    - SIP transactions ([asterisk-sip/src/transaction/mod.rs]):
      [SipTransaction.v], a Module per machine, and the timer tasks.
    - SIP dialogs ([asterisk-sip/src/dialog/mod.rs]): [SipDialog.v].
    - The SIP stack ([asterisk-sip/src/stack.rs]): [SipStack.v], the transaction
      layer and the handlers of requests, responses, CANCEL, ACK, timers and of
      the application's sends, composed into a transition system.
    - Channels ([asterisk-types/src/], [asterisk-core/src/channel/]): [Types.v]
      and [Channel.v] (state, hangup, queues, DTMF emulation).
    - Bridges ([asterisk-core/src/bridge/]): [Bridge.v], membership, technologies,
      DTMF features and the event loops of a two-party call.
    - Call queues ([asterisk-apps/src/queue.rs]): [CallQueue.v] (members,
      strategies, callers, announcements, log) and [QueueApp.v] (the registry of
      queues and the application Queue).
    - Conferences ([asterisk-apps/src/]): [ConfMix.v] (the mixing core of
      [asterisk-core/src/bridge/softmix.rs] and the mixers of confbridge_mix.rs),
      [ConfProfile.v] (profiles, menus, settings and video descriptions of
      confbridge.rs) and [ConfBridge.v] (the conferences and the calls in them).
    - Call detail records ([asterisk-cdr/src/]): [Cdr.v] (lib.rs, engine.rs: the
      records of the engine) and [CdrBackends.v] (the CSV backend, its calendar,
      the custom and syslog templates).
    - The manager interface ([asterisk-ami/src/]): [AmiProtocol.v] (protocol.rs,
      events.rs: messages, categories), [Ami.v] (auth.rs, rate_limit.rs,
      session.rs, actions.rs: users, login, authority, dispatch) and
      [AmiServer.v] (server.rs: the loop of a connection, the slots before
      login).
    - The dialplan ([asterisk-core/src/pbx/]): [Dialplan.v] (mod.rs: patterns,
      contexts, includes), [PbxConfig.v] (pbx_config.rs: the loader of
      [extensions.conf]), [Expression.v] (expression.rs), [Substitute.v]
      (substitute.rs), [PbxApps.v] (four applications of [asterisk-apps/src/]
      and the registry interface), [PbxExec.v] (exec.rs: the execution loop) and
      [PbxStack.v] (stack.rs, if_.rs, while_.rs of [asterisk-apps/src/]:
      subroutines and conditional jumps).
    - Configuration: [Path.v] (paths of Rust's library) and [Config.v]
      ([asterisk-config/src/lib.rs]: files, templates, includes).
    - Session descriptions ([asterisk-sip/src/sdp/mod.rs]): [Sdp.v] (parser and
      [Display]) and [SdpNegotiate.v] (codecs, offer and answer, ICE attributes,
      advertised addresses).
    - Access ([asterisk-sip/src/]): [SipAuth.v] (auth/mod.rs, authenticator.rs:
      digest authentication, both ends), [SipRegistrar.v] (registrar.rs), [NetAddr.v] (the address parser of Rust's
      library), [Acl.v] (acl.rs) and [RateLimit.v] (rate_limit.rs).
    - Connectivity: [Utf8.v] (text as octets), [Stun.v] ([asterisk-sip/src/stun.rs]:
      messages, integrity, fingerprint) and [Ice.v] (ice.rs and
      rtp/ice_transport.rs: candidates, check lists, the agent, its transport).
    - Media: [Bytes.v] (octet strings), [SrtpWindow.v], [Srtp.v], [SrtpGcm.v]
      ([asterisk-sip/src/srtp.rs]: replay window, AES-CM and AES-GCM contexts),
      [Rtp.v] and [JitterBuffer.v] ([asterisk-sip/src/rtp/]: mod.rs,
      jitter_buffer.rs), and of
      [asterisk-codecs/src/] [Translate.v] (translate.rs), [G711.v] (the tables),
      [Adpcm.v] (adpcm.rs) and [Codecs.v] (the built-in translators).

    The parts meet as in the code: the stack parses with [SipParser], keeps
    [SipTransaction] machines in maps by branch, builds [SipDialog]s for new
    calls and emits events; the execution loop looks a channel's location up in
    the [Dialplan], substitutes with [Substitute] (which evaluates with
    [Expression]), and runs an application of the registry on the [Channel].
    The engine of [Cdr] hears of the events of channels and hands records to its
    backends; a connection of [AmiServer] cuts its octets into the actions of
    [AmiProtocol] and passes them to the dispatcher of [Ami].  The translators of
    [Codecs], made of the functions of [G711] and [Adpcm], are
    what the matrix of [Translate] finds its paths between.  The transport of [Ice]
    sends and receives the messages of [Stun] as octets.

    ** What the theorems show

    - Robustness: nothing received from the network makes the SIP text code
      panic; messages, headers and bodies are bounded.
    - Round trips: URIs, messages and session descriptions survive printing and
      parsing; two parties that exchange an offer and an answer as text agree on
      the codecs both have.
    - State machines: the client transactions agree with an abstract machine
      that looks only at the first final response; the stack keeps its
      transactions well formed in every reachable state, answers a repetition of
      any request on file with the stored response and tells the application
      nothing, keeps final responses, cancels exactly pending calls, and reaps every
      expired transaction; the dialogs of the two ends agree and accept exactly
      what is theirs and in turn.
    - The dialplan: what is written in [extensions.conf] is what is loaded;
      patterns and the search through includes equal their
      declarative readings; expressions respect the grammar of their parser (which
      takes [:] for a match only outside the branches of a ternary);
      substitution is the denotation of templates, given as a relation of its own
      ([means]); the main loop always ends
      and executes straight-line extensions as written; every run that returns
      leaves the channel down with the right cause.
    - Configuration files hold what is written in them and include only files
      below their directory.
    - A two-party call carries what each side says to the other, in order, where
      what is said is described without the code's filters ([to_hear]); bridges
      stay consistent, and their loops end with a hangup frame only.
    - A queue rings exactly whom its strategy prefers among the ready; round robin
      passes nobody over; callers stand in a numbered line; a call of the
      application leaves the queue clean, and ends when a limit is set.
    - In a conference everybody hears the sum of all the others, clamped, and what a
      party says is said once and in order (a deaf party hears silence, one without
      a known codec nothing); the mixer refines a meeting of [Attendee]s; users, counts, bridges, registry and
      mixers stay consistent whatever calls and administrators do, and nothing is
      left when all calls are over.
    - Every call has its record, made of its own events; it bills from the answer
      to the end; and the CSV file reads back as the log of calls.
    - The manager interface runs an action only for a session that may run it; a
      session gets its rights from credentials only; the wrong guesses of a source are
      bounded by what is configured and by the number of its connections, which the
      limiter lets through together;
      actions sent as octets are served in order, each once; memory and
      connections before login are bounded.
    - Channels are hung up once; digit ends never outnumber digit begins.
      Balanced subroutine calls return; GotoIfTime goes by the calendar.
    - Access: a challenged request that is sent again is accepted when realm and
      password agree (and only then, unless a hash collides); a list allows exactly the addresses whose first matching network
      says so; no source gets more INVITEs through than the limit in any second.
    - The registrar is a location service that keeps its limits.  STUN messages
      survive printing, parsing and both checks; what is appended to them is
      accepted too.  Two ICE agents order the pairs alike, their checks end, and
      the order of the checks decides whether both complete.
    - Media: what one end of a negotiated session says, voice and digits, the other
      hears, in order, whatever strangers send in between; a session accepts one
      source only; an SRTP stream is delivered once each packet whatever the order; the
      fixed jitter buffer refines an abstract buffer; the translation matrix finds
      the cheapest path; the G.711 codes are the nearest (mu-law to half a step)
      and monotone, ADPCM follows its signal, and a chain of translators
      re-encodes every octet.
    - Where the code does not do what it says, a theorem states what it does:
      the CANCEL path and the cache of final responses, transactions without a
      timer, overlap dialling, the choice between patterns, short digits,
      [softhangup] and the queue limit, integer division, substrings of
      multi-byte values, lost hangup causes, digits repeated without voice between, the unlimited hangup extension,
      GoSub that repeats, GCM nonces used twice, lost ICE nominations, checks that
      time out and never fail, the adaptive jitter buffer that
      never measures jitter, conferences ended by a call that had been kicked, paths through codecs that only fail, authorizations
      that never expire.

    ** Bounds and fuel

    Recursion that is not structural takes fuel, and a theorem shows it is
    enough: [timer_loop] eleven turns ([client_timer_task_ends]); the search of
    contexts one more than there are contexts ([dialplan_search_correct]); the
    expression parser by the length of the text ([evaluate_always_returns]); the
    scan of a text by its length ([substitute_expands_template]; the recursion
    has the code's own limit of 15); the main loop of [pbx_run] 10 001 turns
    ([pbx_loop_bounded]); key derivation and the cipher stream the length of what
    they fill; the search for paths two turns more than there are translators
    ([build_path_cheapest]); included files the depth of 16 of the code
    ([includes_stay_inside]); the year of a date one turn more than the days have
    years ([days_to_date_spec]); a connection one turn more than the stream has
    octets ([stream_is_served]); the loop of a queue two turns more than retries fit
    into its limit ([queue_wait_ends], [queue_wait_never_ends] without one).  The sums of
    a mixer do not overflow with at most 65536 joins ([mixer_is_mix_minus]).  The hangup extension has no bound in the code; its
    fuel is an argument, and [hangup_extension_termination] says when it ends.

    ** Reading choices

    - Instants are integers in milliseconds, given to each operation as [now].
    - A handler of the stack is one atomic step.  The code takes the lock of the
      transaction layer once or several times per handler, and all of them run
      on one task except the application's sends, which take it once.
    - Fresh identifiers (UUIDs) are arguments.  A failed send is a flag.
    - Integer arithmetic wraps, as in a release build, where Rust checks it only
      in debug builds; operations that panic in every build are [Panic].
    - Parameters: Unicode case mapping outside ASCII, the [regex] crate, the
      iteration order of hash maps and of equal entries of a [BinaryHeap], AES,
      HMAC, GCM, CRC-32, MD5 and SHA-256, dialplan functions, applications.

    ** Not modelled

    Transports, TURN, DTLS, comfort noise, the bodies of SIP sessions beyond their
    signalling fields, PRACK, presence; the event queue between stack and
    application (its backpressure delays, never drops); [DialogManager], which
    nothing reads; hooks, generators and drivers of channels; the other
    applications; native and basic bridges; the sounds, listings and video transport
    of conferences; call detail records in databases; the manager
    actions that drive channels, queues, conferences and endpoints (an argument of
    the model), its listener, registry of sessions and forwarding of events;
    channel event logging, ARI, AGI, codecs that wrap libraries or process signals
    in floating point, the command line.  These are I/O around the parts that are
    modelled, or parts of their own that nothing here relies on. *)

From stdpp Require Export base tactics option list numbers.
From stdpp Require Export gmap.
From stdpp Require Import relations.

(** ** Outcomes of Rust code

    [result E A] is Rust's [Result<A, E>].  [outcome A] adds the possibility of
    a panic to a computation: an out-of-range or off-boundary string slice, an
    arithmetic overflow that Rust always checks, an [unreachable!()].  A
    function that can both fail and panic returns [outcome (result E A)]. *)

Inductive result (E A : Type) : Type :=
  | Ok (a : A)
  | Err (e : E).
Arguments Ok {E A} a.
Arguments Err {E A} e.

Inductive outcome (A : Type) : Type :=
  | Done (a : A)
  | Panic.
Arguments Done {A} a.
Arguments Panic {A}.

Definition result_bind {E A B} (m : result E A) (k : A → result E B) : result E B :=
  match m with Ok a => k a | Err e => Err e end.

Definition outcome_bind {A B} (m : outcome A) (k : A → outcome B) : outcome B :=
  match m with Done a => k a | Panic => Panic end.

(** The [?] operator inside code that may panic. *)
Definition try_bind {E A B} (m : outcome (result E A)) (k : A → outcome (result E B))
    : outcome (result E B) :=
  outcome_bind m (λ r, match r with Ok a => k a | Err e => Done (Err e) end).

Declare Scope rust_scope.
Delimit Scope rust_scope with rust.
Open Scope rust_scope.

Notation "'let!' x ':=' m 'in' k" := (outcome_bind m (λ x, k))
  (at level 10, x pattern, m at level 100, k at level 200) : rust_scope.
Notation "'let?' x ':=' m 'in' k" := (result_bind m (λ x, k))
  (at level 10, x pattern, m at level 100, k at level 200) : rust_scope.
Notation "'let!?' x ':=' m 'in' k" := (try_bind m (λ x, k))
  (at level 10, x pattern, m at level 100, k at level 200) : rust_scope.

(** A computation that does not panic. *)
Definition returns {A} (m : outcome A) : Prop := ∃ a, m = Done a.

Definition result_ok {E A} (r : result E A) : option A :=
  match r with Ok a => Some a | Err _ => None end.

#[export] Instance result_eq_dec {E A} `{EqDecision E, EqDecision A} :
  EqDecision (result E A).
Proof. solve_decision. Defined.
#[export] Instance outcome_eq_dec {A} `{EqDecision A} : EqDecision (outcome A).
Proof. solve_decision. Defined.

Create HintDb rust.
Create Rewrite HintDb rust.

Lemma returns_Done {A} (a : A) : returns (Done a).
Proof. by exists a. Qed.
#[export] Hint Resolve returns_Done : rust.

Lemma returns_bind {A B} (m : outcome A) (k : A → outcome B) :
  returns m → (∀ a, m = Done a → returns (k a)) → returns (outcome_bind m k).
Proof. intros [a ->] Hk. simpl. by apply Hk. Qed.

Lemma returns_try {E A B} (m : outcome (result E A)) (k : A → outcome (result E B)) :
  returns m → (∀ a, m = Done (Ok a) → returns (k a)) → returns (try_bind m k).
Proof. intros [[a|e] ->] Hk; simpl; [by apply Hk | eauto with rust]. Qed.

Lemma outcome_bind_Done {A B} (m : outcome A) (k : A → outcome B) b :
  outcome_bind m k = Done b ↔ ∃ a, m = Done a ∧ k a = Done b.
Proof. destruct m; simpl; naive_solver. Qed.

Lemma try_bind_Ok {E A B} (m : outcome (result E A)) (k : A → outcome (result E B)) b :
  try_bind m k = Done (Ok b) ↔ ∃ a, m = Done (Ok a) ∧ k a = Done (Ok b).
Proof. destruct m as [[a|e]|]; unfold try_bind; simpl; naive_solver. Qed.

Lemma result_bind_Ok {E A B} (m : result E A) (k : A → result E B) b :
  result_bind m k = Ok b ↔ ∃ a, m = Ok a ∧ k a = Ok b.
Proof. destruct m; simpl; naive_solver. Qed.

(** ** Machine integers *)

Definition wrap_u32 (n : Z) : Z := (n mod 2 ^ 32)%Z.
Definition wrap_u64 (n : Z) : Z := (n mod 2 ^ 64)%Z.
Definition wrap_i32 (n : Z) : Z := ((n + 2 ^ 31) mod 2 ^ 32 - 2 ^ 31)%Z.
Definition u32_max : Z := (2 ^ 32 - 1)%Z.
Definition i32_max : Z := (2 ^ 31 - 1)%Z.
Definition is_u32 (n : Z) : Prop := (0 ≤ n ≤ u32_max)%Z.

Lemma wrap_u32_range n : is_u32 (wrap_u32 n).
Proof. unfold is_u32, wrap_u32, u32_max. pose proof (Z.mod_pos_bound n (2 ^ 32)). lia. Qed.

Lemma wrap_u32_id n : is_u32 n → wrap_u32 n = n.
Proof. unfold is_u32, wrap_u32, u32_max. intros. apply Z.mod_small. lia. Qed.

Lemma wrap_i32_id n : (- 2 ^ 31 ≤ n < 2 ^ 31)%Z → wrap_i32 n = n.
Proof. intros. unfold wrap_i32. rewrite Z.mod_small by lia. lia. Qed.

(** Only the last of several wraps counts. *)
Lemma wrap_i32_add a b : wrap_i32 (wrap_i32 a + b) = wrap_i32 (a + b).
Proof.
  unfold wrap_i32. f_equal. replace ((a + 2 ^ 31) mod 2 ^ 32 - 2 ^ 31 + b + 2 ^ 31)%Z with ((a + 2 ^ 31) mod 2 ^ 32 + b)%Z by lia.
  rewrite Z.add_mod_idemp_l by lia. f_equal. lia.
Qed.

(** ** Tactics *)

(** Case analysis on the scrutinee of the next [match] or [if], keeping the
    equation. *)
Ltac case_step :=
  match goal with
  | |- context [match ?x with _ => _ end] =>
      lazymatch x with
      | context [match _ with _ => _ end] => fail
      | _ => destruct x eqn:?
      end
  end.

Ltac case_hyp H :=
  match type of H with
  | context [match ?x with _ => _ end] =>
      lazymatch x with
      | context [match _ with _ => _ end] => fail
      | _ => destruct x eqn:?
      end
  end.

(** Split every boolean conjunction/disjunction test of the context. *)
Ltac split_bools :=
  repeat match goal with
  | H : (_ && _)%bool = true |- _ => apply andb_true_iff in H; destruct H
  | H : (_ || _)%bool = false |- _ => apply orb_false_iff in H; destruct H
  | H : negb _ = true |- _ => apply negb_true_iff in H
  | H : negb _ = false |- _ => apply negb_false_iff in H
  end.
