(* ===== verification/RustStr.v ===== *)
(** * Rust strings

    A [str] is the list of its Unicode scalar values.  Byte lengths and byte
    offsets are those of its UTF-8 encoding, as [str::len], [str::find] and the
    slicing operators use them: a slice whose bound is not a character boundary
    is [Panic].  The functions here model the standard-library methods that
    the modelled code calls; their names are those of the methods. *)

From Stdlib Require Import NArith Ascii String.
From S2P Require Import Prelude.
Local Open Scope N_scope.
Local Open Scope list_scope.

#[global] Arguments N.eqb !_ !_ : simpl nomatch.
#[global] Arguments N.leb !_ !_ : simpl nomatch.
#[global] Arguments N.ltb !_ !_ : simpl nomatch.

Abbreviation char := N.
Abbreviation str := (list N).

(** Literals: [lit "abc"] is a list of code points, [chr "a"] a code point; both
    are computed when the term is read. *)
Definition str_of_string (x : string) : str := N_of_ascii <$> list_ascii_of_string x.
Abbreviation lit x := (ltac:(let v := eval vm_compute in (str_of_string x%string) in exact v))
  (only parsing).
Abbreviation chr x := (ltac:(let v := eval vm_compute in (N_of_ascii x%char) in exact v))
  (only parsing).

(** ** Characters *)

Definition len_utf8 (ch : char) : N :=
  if ch <? 128 then 1 else if ch <? 2048 then 2 else if ch <? 65536 then 3 else 4.

Definition is_ascii_digit (ch : char) : bool := (48 <=? ch) && (ch <=? 57).
Definition is_ascii_upper (ch : char) : bool := (65 <=? ch) && (ch <=? 90).
Definition to_ascii_lower (ch : char) : char :=
  if is_ascii_upper ch then ch + 32 else ch.

(** [char::is_whitespace]: the Unicode White_Space property. *)
Definition is_whitespace (ch : char) : bool :=
  ((9 <=? ch) && (ch <=? 13)) || (ch =? 32) || (ch =? 133) || (ch =? 160)
  || (ch =? 5760) || ((8192 <=? ch) && (ch <=? 8202)) || (ch =? 8232)
  || (ch =? 8233) || (ch =? 8239) || (ch =? 8287) || (ch =? 12288).

(** ** Length, slicing *)

Fixpoint len (x : str) : N :=
  match x with [] => 0 | ch :: x' => len_utf8 ch + len x' end.

(** The pieces before and after byte offset [i]; [None] when [i] is past the
    end or inside a character. *)
Fixpoint split_at (x : str) (i : N) : option (str * str) :=
  if i =? 0 then Some ([], x) else
  match x with
  | [] => None
  | ch :: x' =>
      if len_utf8 ch <=? i then
        '(a, b) ← split_at x' (i - len_utf8 ch); Some (ch :: a, b)
      else None
  end.

(** [&x[..i]], [&x[i..]], [&x[i..j]] and [x.get(..i)]. *)
Definition slice_to (x : str) (i : N) : outcome str :=
  match split_at x i with Some (a, _) => Done a | None => Panic end.
Definition slice_from (x : str) (i : N) : outcome str :=
  match split_at x i with Some (_, b) => Done b | None => Panic end.
Definition slice (x : str) (i j : N) : outcome str :=
  if j <? i then Panic else
  let! x' := slice_to x j in slice_from x' i.
Definition get_to (x : str) (i : N) : option str := fst <$> split_at x i.

(** ** Searching *)

Definition str_eqb (x y : str) : bool := bool_decide (x = y).

Fixpoint strip_prefix (p x : str) : option str :=
  match p, x with
  | [], _ => Some x
  | ch :: p', ch' :: x' => if ch =? ch' then strip_prefix p' x' else None
  | _ :: _, [] => None
  end.
Definition starts_with (p x : str) : bool := bool_decide (is_Some (strip_prefix p x)).
Definition strip_suffix (p x : str) : option str :=
  reverse <$> strip_prefix (reverse p) (reverse x).

(** [x.find(pat)]: the byte offset of the first occurrence of [pat]. *)
Fixpoint find (pat x : str) : option N :=
  if starts_with pat x then Some 0 else
  match x with
  | [] => None
  | ch :: x' => N.add (len_utf8 ch) <$> find pat x'
  end.

Fixpoint find_char (ch : char) (x : str) : option N :=
  match x with
  | [] => None
  | ch' :: x' => if ch' =? ch then Some 0 else N.add (len_utf8 ch') <$> find_char ch x'
  end.

Definition contains_char (ch : char) (x : str) : bool := existsb (N.eqb ch) x.
Definition contains (pat x : str) : bool := bool_decide (is_Some (find pat x)).

(** ** Splitting on a character *)

Fixpoint split_once (ch : char) (x : str) : option (str * str) :=
  match x with
  | [] => None
  | ch' :: x' =>
      if ch' =? ch then Some ([], x')
      else '(a, b) ← split_once ch x'; Some (ch' :: a, b)
  end.

Fixpoint rsplit_once (ch : char) (x : str) : option (str * str) :=
  match x with
  | [] => None
  | ch' :: x' =>
      match rsplit_once ch x' with
      | Some (a, b) => Some (ch' :: a, b)
      | None => if ch' =? ch then Some ([], x') else None
      end
  end.

(** [x.split(ch)] yields at least one piece. *)
Fixpoint split (ch : char) (x : str) : list str :=
  match x with
  | [] => [[]]
  | ch' :: x' =>
      if ch' =? ch then [] :: split ch x'
      else match split ch x' with
           | [] => [[ch']]
           | p :: ps => (ch' :: p) :: ps
           end
  end.

(** [x.splitn(n, ch)]: at most [n] pieces, the last one unsplit. *)
Fixpoint splitn (n : nat) (ch : char) (x : str) : list str :=
  match n with
  | 0%nat => []
  | 1%nat => [x]
  | S n' => match split_once ch x with
            | None => [x]
            | Some (a, b) => a :: splitn n' ch b
            end
  end.

(** ** Trimming *)

Fixpoint trim_start_by (f : char → bool) (x : str) : str :=
  match x with
  | [] => []
  | ch :: x' => if f ch then trim_start_by f x' else x
  end.
Definition trim_end_by (f : char → bool) (x : str) : str :=
  reverse (trim_start_by f (reverse x)).
Definition trim_start : str → str := trim_start_by is_whitespace.
Definition trim_end : str → str := trim_end_by is_whitespace.
Definition trim (x : str) : str := trim_end (trim_start x).
Definition trim_end_char (ch : char) : str → str := trim_end_by (N.eqb ch).

Fixpoint split_whitespace_aux (cur : str) (x : str) : list str :=
  match x with
  | [] => match cur with [] => [] | _ => [reverse cur] end
  | ch :: x' =>
      if is_whitespace ch then
        match cur with
        | [] => split_whitespace_aux [] x'
        | _ => reverse cur :: split_whitespace_aux [] x'
        end
      else split_whitespace_aux (ch :: cur) x'
  end.
Definition split_whitespace : str → list str := split_whitespace_aux [].

(** [str::lines]: a line ends with a line feed, or a carriage return and a line
    feed; nothing follows the last line end. *)
Fixpoint line_pieces (ps : list str) : list str :=
  match ps with
  | [] => []
  | [p] => match p with [] => [] | _ => [p] end
  | p :: ps' => default p (strip_suffix [13] p) :: line_pieces ps'
  end.
Definition lines (x : str) : list str := line_pieces (split 10 x).

(** ** Case *)

Definition to_ascii_upper (ch : char) : char :=
  if (97 <=? ch) && (ch <=? 122) then ch - 32 else ch.
Definition to_ascii_lowercase : str → str := fmap to_ascii_lower.
Definition eq_ignore_ascii_case (x y : str) : bool :=
  str_eqb (to_ascii_lowercase x) (to_ascii_lowercase y).

Definition is_ascii (x : str) : bool := forallb (λ ch, ch <? 128) x.

(** [str::to_lowercase] on ASCII strings is the ASCII mapping; on other strings
    it follows the Unicode tables, which are a parameter. *)
Class UnicodeCase := unicode_lowercase : str → str.
Definition to_lowercase `{UnicodeCase} (x : str) : str :=
  if is_ascii x then to_ascii_lowercase x else unicode_lowercase x.

(** [str::to_uppercase], in the same way. *)
Class UnicodeUpper := unicode_uppercase : str → str.
Definition to_uppercase `{UnicodeUpper} (x : str) : str :=
  if is_ascii x then to_ascii_upper <$> x else unicode_uppercase x.

(** ** Integers *)

Fixpoint parse_digits (acc : Z) (x : str) : option Z :=
  match x with
  | [] => Some acc
  | ch :: x' =>
      if is_ascii_digit ch then parse_digits (acc * 10 + (Z.of_N ch - 48))%Z x' else None
  end.

Definition parse_nonempty (x : str) : option Z :=
  match x with [] => None | _ => parse_digits 0%Z x end.

(** [x.parse::<uN>()]: an optional [+], then digits, within range. *)
Definition parse_unsigned (bits : Z) (x : str) : option Z :=
  let body := match strip_prefix (lit "+") x with Some x' => x' | None => x end in
  n ← parse_nonempty body;
  if (n <? 2 ^ bits)%Z then Some n else None.
Definition parse_u16 : str → option Z := parse_unsigned 16.
Definition parse_u32 : str → option Z := parse_unsigned 32.
Definition parse_usize : str → option Z := parse_unsigned 64.

Definition parse_i32 (x : str) : option Z :=
  n ← match strip_prefix (lit "-") x with
      | Some x' => Z.opp <$> parse_nonempty x'
      | None => parse_nonempty (default x (strip_prefix (lit "+") x))
      end;
  if ((- 2 ^ 31 <=? n) && (n <? 2 ^ 31))%Z then Some n else None.

(** [n.to_string()] for an integer. *)
Fixpoint show_digits (fuel : nat) (n : Z) (acc : str) : str :=
  match fuel with
  | 0%nat => acc
  | S fuel' =>
      let acc' := Z.to_N (48 + n mod 10) :: acc in
      if (n <? 10)%Z then acc' else show_digits fuel' (n / 10)%Z acc'
  end.
Definition show_nonneg (n : Z) : str := show_digits (S (Z.to_nat (Z.log2 n))) n [].
Definition show_int (n : Z) : str :=
  if (n <? 0)%Z then chr "-" :: show_nonneg (- n) else show_nonneg n.

Lemma str_eqb_true x y : str_eqb x y = true ↔ x = y.
Proof. apply bool_decide_eq_true. Qed.
Lemma str_eqb_false x y : str_eqb x y = false ↔ x ≠ y.
Proof. apply bool_decide_eq_false. Qed.
Lemma str_eqb_spec x y : reflect (x = y) (str_eqb x y).
Proof. apply bool_decide_reflect. Qed.
Lemma str_eqb_refl x : str_eqb x x = true.
Proof. by apply str_eqb_true. Qed.

(** ** Lengths and slices *)

Lemma len_utf8_pos ch : 0 < len_utf8 ch.
Proof. unfold len_utf8. repeat case_match; lia. Qed.

Lemma len_app x y : len (x ++ y) = len x + len y.
Proof. induction x; simpl; lia. Qed.

Lemma len_ge_length x : N.of_nat (length x) <= len x.
Proof. induction x as [|ch x IH]; simpl; [lia|]. pose proof (len_utf8_pos ch). lia. Qed.

Lemma len_ascii x : is_ascii x = true → len x = N.of_nat (length x).
Proof.
  induction x as [|ch x IH]; simpl; [done|]. intros [H1 H2]%andb_true_iff.
  rewrite IH by done. unfold len_utf8. rewrite H1. lia.
Qed.

Lemma split_at_app a b : split_at (a ++ b) (len a) = Some (a, b).
Proof.
  induction a as [|ch a IH]; simpl; [by destruct b|].
  pose proof (len_utf8_pos ch).
  destruct (N.eqb_spec (len_utf8 ch + len a) 0); [lia|].
  destruct (N.leb_spec (len_utf8 ch) (len_utf8 ch + len a)); [|lia].
  replace (len_utf8 ch + len a - len_utf8 ch) with (len a) by lia. by rewrite IH.
Qed.

Lemma split_at_Some x i a b : split_at x i = Some (a, b) → x = a ++ b ∧ len a = i.
Proof.
  revert i a; induction x as [|ch x IH]; intros i a; simpl;
    destruct (N.eqb_spec i 0) as [->|]; try naive_solver.
  destruct (N.leb_spec (len_utf8 ch) i); [|done].
  destruct (split_at x _) as [[a' b']|] eqn:E; simpl; [|done].
  intros [= <- <-]. apply IH in E as [-> E]. simpl. split; [done|lia].
Qed.

Lemma slice_to_app a b : slice_to (a ++ b) (len a) = Done a.
Proof. unfold slice_to. by rewrite split_at_app. Qed.
Lemma slice_from_app a b : slice_from (a ++ b) (len a) = Done b.
Proof. unfold slice_from. by rewrite split_at_app. Qed.

Lemma slice_app a b z : slice (a ++ b ++ z) (len a) (len a + len b) = Done b.
Proof.
  unfold slice. destruct (N.ltb_spec (len a + len b) (len a)); [lia|].
  rewrite app_assoc, <-len_app, slice_to_app. simpl. apply slice_from_app.
Qed.

#[export] Hint Rewrite len_app slice_to_app slice_from_app slice_app : rust.

(** ** Searching *)

Lemma strip_prefix_Some p x y : strip_prefix p x = Some y ↔ x = p ++ y.
Proof.
  revert x; induction p as [|ch p IH]; intros x; simpl; [naive_solver|].
  destruct x as [|ch' x]; [naive_solver|].
  destruct (N.eqb_spec ch ch') as [->|]; [rewrite IH; naive_solver|naive_solver].
Qed.

Lemma strip_prefix_app p x : strip_prefix p (p ++ x) = Some x.
Proof. by apply strip_prefix_Some. Qed.

Lemma strip_suffix_app p x : strip_suffix p (x ++ p) = Some x.
Proof.
  unfold strip_suffix. rewrite reverse_app, strip_prefix_app. cbn. by rewrite reverse_involutive.
Qed.

Lemma starts_with_true p x : starts_with p x = true ↔ ∃ y, x = p ++ y.
Proof.
  unfold starts_with. rewrite bool_decide_eq_true. unfold is_Some.
  by setoid_rewrite strip_prefix_Some.
Qed.

Lemma find_Some pat x i :
  find pat x = Some i → ∃ a b, x = a ++ pat ++ b ∧ len a = i.
Proof.
  revert i; induction x as [|ch x IH]; intros i; simpl;
    destruct (starts_with pat _) eqn:E.
  - intros [= <-]. apply starts_with_true in E as [y ->]. by exists [], y.
  - done.
  - intros [= <-]. apply starts_with_true in E as [y ->]. by exists [], y.
  - intros (j & Hj & ->)%fmap_Some. apply IH in Hj as (a & b & -> & <-).
    by exists (ch :: a), b.
Qed.

Lemma find_char_Some ch x i :
  find_char ch x = Some i ↔ ∃ a b, x = a ++ ch :: b ∧ len a = i ∧ ch ∉ a.
Proof.
  revert i; induction x as [|ch' x IH]; intros i; simpl.
  { split; [done|]. intros (a & b & Ha & _); by destruct a. }
  destruct (N.eqb_spec ch' ch) as [->|Hne].
  - split.
    + intros [= <-]. exists [], x. set_solver.
    + intros (a & b & Ha & <- & Hin). destruct a; simplify_eq/=; [done|set_solver].
  - rewrite fmap_Some. split.
    + intros (j & Hj & ->). apply IH in Hj as (a & b & -> & <- & Hin).
      exists (ch' :: a), b. set_solver.
    + intros (a & b & Ha & <- & Hin). destruct a as [|ch2 a]; simplify_eq/=.
      exists (len a). split; [|done]. apply IH. exists a, b. set_solver.
Qed.

Lemma find_char_None ch x : find_char ch x = None ↔ ch ∉ x.
Proof.
  induction x as [|ch' x IH]; simpl; [set_solver|].
  destruct (N.eqb_spec ch' ch) as [->|]; [set_solver|].
  rewrite fmap_None, IH. set_solver.
Qed.

(** ** Splitting *)

Lemma split_once_Some ch x a b :
  split_once ch x = Some (a, b) ↔ x = a ++ ch :: b ∧ ch ∉ a.
Proof.
  revert a; induction x as [|ch' x IH]; intros a; simpl.
  { split; [done|]. intros [? _]; by destruct a. }
  destruct (N.eqb_spec ch' ch) as [->|Hne].
  - split.
    + intros [= <- <-]. set_solver.
    + intros [Ha Hin]. destruct a; simplify_eq/=; [done|set_solver].
  - specialize (IH (tail a)).
    destruct (split_once ch x) as [[a' b']|] eqn:E; simpl; split.
    + intros [= <- <-]. simpl in IH. destruct (proj1 IH eq_refl). set_solver.
    + intros [Ha Hin]. destruct a as [|ch2 a]; simplify_eq/=.
      assert (Some (a', b') = Some (a, b)) as [= -> ->] by (apply IH; set_solver). done.
    + done.
    + intros [Ha Hin]. destruct a as [|ch2 a]; simplify_eq/=.
      exfalso. assert (None = Some (a, b)) by (apply IH; set_solver). done.
Qed.

Lemma split_once_None ch x : split_once ch x = None ↔ ch ∉ x.
Proof.
  split.
  - induction x as [|ch' x IH]; simpl; [set_solver|].
    destruct (N.eqb_spec ch' ch); [done|].
    destruct (split_once ch x) as [[]|]; [done|]. set_solver.
  - intros Hin. destruct (split_once ch x) as [[a b]|] eqn:E; [|done].
    apply split_once_Some in E as [-> _]. set_solver.
Qed.

Lemma rsplit_once_None ch x : rsplit_once ch x = None ↔ ch ∉ x.
Proof.
  induction x as [|ch' x IH]; simpl; [set_solver|].
  destruct (rsplit_once ch x) as [[a b]|]; [set_solver|].
  destruct (N.eqb_spec ch' ch); set_solver.
Qed.

Lemma rsplit_once_app ch a b : ch ∉ b → rsplit_once ch (a ++ ch :: b) = Some (a, b).
Proof.
  intros Hb. induction a as [|ch' a IH]; simpl.
  - rewrite (proj2 (rsplit_once_None ch b) Hb). by rewrite N.eqb_refl.
  - by rewrite IH.
Qed.

Lemma split_nonempty ch x : split ch x ≠ [].
Proof. induction x; simpl; repeat case_match; done. Qed.

Lemma split_no_sep ch x : ch ∉ x → split ch x = [x].
Proof.
  induction x as [|ch' x IH]; simpl; [done|]. intros Hin.
  destruct (N.eqb_spec ch' ch); [set_solver|]. rewrite IH by set_solver. done.
Qed.

Lemma split_app ch a x : ch ∉ a → split ch (a ++ ch :: x) = a :: split ch x.
Proof.
  induction a as [|ch' a IH]; simpl; intros Hin; [by rewrite N.eqb_refl|].
  destruct (N.eqb_spec ch' ch); [set_solver|]. by rewrite IH by set_solver.
Qed.

Lemma splitn_3 ch a b x :
  ch ∉ a → ch ∉ b → splitn 3 ch (a ++ ch :: b ++ ch :: x) = [a; b; x].
Proof.
  intros Ha Hb. simpl.
  rewrite (proj2 (split_once_Some ch _ a (b ++ ch :: x))) by done.
  by rewrite (proj2 (split_once_Some ch _ b x)) by done.
Qed.

(** Slicing around a one-byte character found by [find_char]. *)
Lemma find_char_slices ch x i :
  find_char ch x = Some i → len_utf8 ch = 1 →
  ∃ a b, (x = a ++ ch :: b) ∧ (ch ∉ a) ∧ (i = len a) ∧
         slice_to x i = Done a ∧ slice_from x (i + 1) = Done b.
Proof.
  intros (a & b & -> & <- & Hin)%find_char_Some Hch. exists a, b.
  split_and!; [done|done|done|apply slice_to_app|].
  replace (a ++ ch :: b) with ((a ++ [ch]) ++ b) by (by rewrite <-app_assoc).
  replace (len a + 1) with (len (a ++ [ch])) by (rewrite len_app; simpl; lia).
  apply slice_from_app.
Qed.

(** Slicing from after a one-character prefix [p] up to [ch]. *)
Lemma slice_between p ch a b :
  len_utf8 p = 1 → slice (p :: a ++ ch :: b) 1 (1 + len a) = Done a.
Proof.
  intros Hp. pose proof (slice_app [p] a (ch :: b)) as E. simpl in E.
  rewrite Hp, N.add_0_r in E. exact E.
Qed.

(** ** Trimming *)

Lemma trim_start_by_id f ch x : f ch = false → trim_start_by f (ch :: x) = ch :: x.
Proof. simpl. by intros ->. Qed.

Lemma trim_end_by_snoc f x ch : f ch = false → trim_end_by f (x ++ [ch]) = x ++ [ch].
Proof.
  intros Hf. unfold trim_end_by. rewrite reverse_snoc, trim_start_by_id by done.
  by rewrite reverse_cons, reverse_involutive.
Qed.

Lemma trim_start_by_app f a x : forallb f a = true → trim_start_by f (a ++ x) = trim_start_by f x.
Proof. induction a as [|ch a IH]; simpl; [done|]. intros [-> ?]%andb_true_iff. auto. Qed.

Lemma trim_end_by_app f x a : forallb f a = true → trim_end_by f (x ++ a) = trim_end_by f x.
Proof.
  intros Ha. unfold trim_end_by. rewrite reverse_app, trim_start_by_app; [done|].
  rewrite forallb_forall in Ha |- *. intros ch Hch. apply Ha.
  by apply list_elem_of_In, elem_of_reverse, list_elem_of_In.
Qed.

Lemma trim_start_by_split f x :
  ∃ a, x = a ++ trim_start_by f x ∧ forallb f a = true ∧
       (∀ ch y, trim_start_by f x = ch :: y → f ch = false).
Proof.
  induction x as [|ch x (a & E & Ha & Hn)]; simpl; [by exists []|].
  destruct (f ch) eqn:Hf.
  - exists (ch :: a). simpl. rewrite Hf, Ha. split_and!; [by f_equal|done|done].
  - exists []. split_and!; [done|done|]. by intros ? ? [= <- <-].
Qed.

Lemma trim_end_by_split f x :
  ∃ a, x = trim_end_by f x ++ a ∧ forallb f a = true ∧
       (∀ y ch, trim_end_by f x = y ++ [ch] → f ch = false).
Proof.
  destruct (trim_start_by_split f (reverse x)) as (a & E & Ha & Hn).
  exists (reverse a). unfold trim_end_by. split_and!.
  - by rewrite <-reverse_app, <-E, reverse_involutive.
  - rewrite forallb_forall in Ha |- *. intros ch Hch. apply Ha.
    by apply list_elem_of_In, elem_of_reverse, list_elem_of_In.
  - intros y ch Hy. apply (Hn ch (reverse y)).
    by rewrite <-(reverse_involutive (trim_start_by f _)), Hy, reverse_snoc.
Qed.

(** A string without surrounding white space. *)
Definition trimmed (x : str) : bool :=
  match x with
  | [] => true
  | ch :: _ => negb (is_whitespace ch) &&
               match last x with Some ch' => negb (is_whitespace ch') | None => true end
  end.

Lemma last_inv {A} (x : list A) a : last x = Some a → ∃ y, x = y ++ [a].
Proof. apply last_Some. Qed.

Lemma trim_trimmed x : trimmed x = true → trim x = x.
Proof.
  destruct x as [|ch x]; [done|]. unfold trimmed, trim, trim_start, trim_end.
  intros [H1%negb_true_iff H2]%andb_true_iff. rewrite trim_start_by_id by done.
  destruct (last (ch :: x)) as [ch'|] eqn:E.
  - apply last_inv in E as [y Hy]. rewrite Hy.
    apply trim_end_by_snoc. by apply negb_true_iff.
  - by apply last_None in E.
Qed.

Lemma trimmed_trim x : trimmed (trim x) = true.
Proof.
  unfold trim, trim_start, trim_end.
  destruct (trim_start_by_split is_whitespace x) as (p & Ep & _ & Hp).
  set (y := trim_start_by is_whitespace x) in *.
  destruct (trim_end_by_split is_whitespace y) as (q & Eq & _ & Hq).
  set (z := trim_end_by is_whitespace y) in *.
  destruct z as [|ch z'] eqn:Ez; [done|]. unfold trimmed.
  apply andb_true_iff; split.
  - apply negb_true_iff, (Hp ch (z' ++ q)). by rewrite Eq.
  - destruct (last (ch :: z')) as [ch'|] eqn:E; [|done].
    apply last_inv in E as [w Hw]. apply negb_true_iff, (Hq w). exact Hw.
Qed.

(** What [trim] removes. *)
Lemma trim_split x :
  ∃ a b, x = a ++ trim x ++ b ∧ forallb is_whitespace a = true ∧ forallb is_whitespace b = true.
Proof.
  unfold trim, trim_start, trim_end. destruct (trim_start_by_split is_whitespace x) as (a & Ea & Ha & _).
  destruct (trim_end_by_split is_whitespace (trim_start_by is_whitespace x)) as (b & Eb & Hb & _).
  exists a, b. rewrite <-Eb. done.
Qed.

Lemma trim_idemp x : trim (trim x) = trim x.
Proof. apply trim_trimmed, trimmed_trim. Qed.

Lemma elem_of_trim ch x : ch ∈ trim x → ch ∈ x.
Proof.
  unfold trim, trim_start, trim_end.
  destruct (trim_start_by_split is_whitespace x) as (p & Ep & _).
  destruct (trim_end_by_split is_whitespace (trim_start_by is_whitespace x)) as (q & Eq & _).
  intros Hin. rewrite Ep, Eq. set_solver.
Qed.

Lemma trim_padded a x b :
  forallb is_whitespace a = true → forallb is_whitespace b = true →
  trimmed x = true → trim (a ++ x ++ b) = x.
Proof.
  intros Ha Hb Hx. unfold trim, trim_start. rewrite trim_start_by_app by done.
  destruct x as [|ch x].
  - simpl. destruct (trim_start_by_split is_whitespace b) as (p & Ep & _ & Hn).
    destruct (trim_start_by is_whitespace b) as [|ch y]; [done|].
    specialize (Hn _ _ eq_refl). rewrite Ep, forallb_app in Hb. simpl in Hb.
    rewrite Hn in Hb. by rewrite andb_false_r in Hb.
  - pose proof Hx as Hx'. unfold trimmed in Hx'.
    apply andb_true_iff in Hx' as [H1%negb_true_iff _].
    simpl. rewrite H1. change (ch :: x ++ b) with ((ch :: x) ++ b).
    unfold trim_end. rewrite trim_end_by_app by done.
    pose proof (trim_trimmed _ Hx) as E. unfold trim, trim_start in E.
    by rewrite trim_start_by_id in E by done.
Qed.

(** ** Numbers *)

Lemma parse_digits_app acc x y :
  parse_digits acc (x ++ y) = n ← parse_digits acc x; parse_digits n y.
Proof.
  revert acc; induction x as [|ch x IH]; intros acc; simpl; [done|].
  destruct (is_ascii_digit ch); [apply IH|done].
Qed.

Lemma is_ascii_digit_of (d : Z) : (0 ≤ d < 10)%Z → is_ascii_digit (Z.to_N (48 + d)) = true.
Proof. unfold is_ascii_digit. intros. apply andb_true_iff. rewrite !N.leb_le. lia. Qed.

Lemma show_digits_spec fuel n acc m :
  (0 ≤ n < 10 ^ Z.of_nat fuel)%Z → fuel ≠ 0%nat →
  ∃ ds, show_digits fuel n acc = ds ++ acc ∧ ds ≠ [] ∧
        forallb is_ascii_digit ds = true ∧
        parse_digits m ds = Some (m * 10 ^ Z.of_nat (length ds) + n)%Z.
Proof.
  revert n acc; induction fuel as [|fuel IH]; intros n acc Hn Hf; [done|].
  simpl. pose proof (Z.mod_pos_bound n 10). pose proof (is_ascii_digit_of (n mod 10)).
  destruct (Z.ltb_spec n 10).
  - exists [Z.to_N (48 + n mod 10)]. simpl. rewrite H0 by lia.
    split_and!; [done|done|done|]. f_equal. rewrite Z.mod_small by lia. lia.
  - destruct (IH (n / 10)%Z (Z.to_N (48 + n mod 10) :: acc)) as (ds & E & Hne & Hd & Hp).
    { rewrite Nat2Z.inj_succ, Z.pow_succ_r in Hn by lia.
      split; [apply Z.div_pos; lia|apply Z.div_lt_upper_bound; lia]. }
    { intros ->. simpl in Hn. lia. }
    exists (ds ++ [Z.to_N (48 + n mod 10)]). split_and!.
    + rewrite E. by rewrite <-app_assoc.
    + by destruct ds.
    + rewrite forallb_app, Hd. simpl. by rewrite H0 by lia.
    + rewrite parse_digits_app, Hp. simpl. rewrite H0 by lia. f_equal.
      rewrite length_app, Nat2Z.inj_add, Z.pow_add_r by lia. simpl.
      pose proof (Z.div_mod n 10). lia.
Qed.

Lemma show_nonneg_spec n :
  (0 ≤ n)%Z → ∃ d ds, show_nonneg n = d :: ds ∧
     forallb is_ascii_digit (d :: ds) = true ∧ parse_digits 0%Z (d :: ds) = Some n.
Proof.
  intros Hn. destruct (show_digits_spec (S (Z.to_nat (Z.log2 n))) n [] 0%Z) as (ds & E & Hne & Hd & Hp).
  - split; [done|]. rewrite Nat2Z.inj_succ, Z2Nat.id by apply Z.log2_nonneg.
    destruct (Z.eq_dec n 0%Z) as [->|]; [done|].
    eapply Z.lt_le_trans; [apply Z.log2_spec; lia|].
    apply Z.pow_le_mono_l. lia.
  - done.
  - rewrite app_nil_r in E. destruct ds as [|d ds]; [done|].
    exists d, ds. unfold show_nonneg. split_and!; [done|done|]. by rewrite Hp.
Qed.

Lemma show_int_inj (m n : Z) : (0 ≤ m → 0 ≤ n → show_int m = show_int n → m = n)%Z.
Proof.
  intros Hm Hn. unfold show_int. destruct (Z.ltb_spec m 0), (Z.ltb_spec n 0); [lia..|].
  destruct (show_nonneg_spec m Hm) as (d & ds & -> & _ & Em).
  destruct (show_nonneg_spec n Hn) as (d' & ds' & -> & _ & En). congruence.
Qed.

Lemma show_int_digits n : (0 ≤ n)%Z → forallb is_ascii_digit (show_int n) = true.
Proof.
  intros Hn. unfold show_int. destruct (Z.ltb_spec n 0); [lia|].
  destruct (show_nonneg_spec n Hn) as (d & ds & -> & Hd & _). exact Hd.
Qed.

Lemma parse_unsigned_show bits n :
  (0 ≤ n < 2 ^ bits)%Z → parse_unsigned bits (show_int n) = Some n.
Proof.
  intros [Hn Hb]. unfold show_int. destruct (Z.ltb_spec n 0); [lia|].
  destruct (show_nonneg_spec n Hn) as (d & ds & -> & Hd & Hp).
  unfold parse_unsigned. simpl in Hd.
  change (strip_prefix (lit "+") (d :: ds)) with (if 43 =? d then Some ds else None).
  destruct (N.eqb_spec 43 d) as [<-|]; [done|].
  cbv beta iota. change (parse_nonempty (d :: ds)) with (parse_digits 0%Z (d :: ds)). rewrite Hp. simpl.
  destruct (Z.ltb_spec n (2 ^ bits)); [done|lia].
Qed.

Lemma parse_i32_show n : (0 ≤ n < 2 ^ 31)%Z → parse_i32 (show_int n) = Some n.
Proof.
  intros [Hn Hb]. unfold show_int. destruct (Z.ltb_spec n 0); [lia|].
  destruct (show_nonneg_spec n Hn) as (d & ds & -> & Hd & Hp).
  unfold parse_i32. simpl in Hd.
  change (strip_prefix (lit "-") (d :: ds)) with (if 45 =? d then Some ds else None).
  change (strip_prefix (lit "+") (d :: ds)) with (if 43 =? d then Some ds else None).
  destruct (N.eqb_spec 45 d) as [<-|]; [done|]. destruct (N.eqb_spec 43 d) as [<-|]; [done|].
  cbv beta iota. simpl default.
  change (parse_nonempty (d :: ds)) with (parse_digits 0%Z (d :: ds)). rewrite Hp. simpl.
  destruct (Z.leb_spec (- 2 ^ 31) n), (Z.ltb_spec n (2 ^ 31)); [done|lia..].
Qed.

Lemma parse_digits_nonneg acc x n : (0 ≤ acc)%Z → parse_digits acc x = Some n → (0 ≤ n)%Z.
Proof.
  revert acc. induction x as [|ch x IH]; intros acc Ha; simpl; [intros; simplify_eq; done|].
  destruct (is_ascii_digit ch) eqn:E; [|done]. intros H. eapply IH, H.
  unfold is_ascii_digit in E. split_bools. apply N.leb_le in H0. lia.
Qed.

Lemma parse_unsigned_range bits x n :
  parse_unsigned bits x = Some n → (0 ≤ n < 2 ^ bits)%Z.
Proof.
  unfold parse_unsigned. intros H. apply bind_Some in H as (k & Hk & H).
  destruct (Z.ltb_spec k (2 ^ bits)); simplify_eq. split; [|done].
  unfold parse_nonempty in Hk. case_match; [done|]. by eapply parse_digits_nonneg, Hk.
Qed.

Lemma parse_u32_range x n : parse_u32 x = Some n → is_u32 n.
Proof. intros H%parse_unsigned_range. unfold is_u32, u32_max. lia. Qed.

Lemma elem_of_show_int n ch : (0 ≤ n)%Z → ch ∈ show_int n → is_ascii_digit ch = true.
Proof.
  intros Hn Hin. pose proof (show_int_digits n Hn) as Hd.
  rewrite forallb_forall in Hd. by apply Hd, list_elem_of_In.
Qed.

Lemma digit_bounds ch : is_ascii_digit ch = true → 48 <= ch <= 57.
Proof. unfold is_ascii_digit. rewrite andb_true_iff, !N.leb_le. done. Qed.

Lemma show_int_no_sep n ch :
  (0 ≤ n)%Z → is_ascii_digit ch = false → ch ∉ show_int n.
Proof. intros Hn Hd Hin. by rewrite (elem_of_show_int n ch Hn Hin) in Hd. Qed.

Lemma digit_not_whitespace ch : is_ascii_digit ch = true → is_whitespace ch = false.
Proof.
  intros Hd%digit_bounds. destruct (is_whitespace ch) eqn:Hc; [|done]. unfold is_whitespace in Hc.
  repeat (apply orb_true_iff in Hc as [Hc|Hc]);
    rewrite ?andb_true_iff, ?N.leb_le, ?N.eqb_eq in Hc; lia.
Qed.

(** ** Joining *)

Fixpoint join (ch : char) (ps : list str) : str :=
  match ps with
  | [] => []
  | [p] => p
  | p :: ps' => p ++ ch :: join ch ps'
  end.

Lemma join_cons ch p q ps : join ch (p :: q :: ps) = p ++ ch :: join ch (q :: ps).
Proof. done. Qed.

Lemma split_join ch ps : ps ≠ [] → Forall (λ p, ch ∉ p) ps → split ch (join ch ps) = ps.
Proof.
  induction ps as [|p [|q ps] IH]; intros Hne Hps; [done| |].
  - inversion Hps; subst. by apply split_no_sep.
  - inversion Hps; subst. rewrite join_cons, split_app by done. by rewrite IH.
Qed.

Lemma join_split ch x : join ch (split ch x) = x.
Proof.
  induction x as [|ch' x IH]; [done|]. simpl.
  pose proof (split_nonempty ch x).
  destruct (N.eqb_spec ch' ch) as [->|]; destruct (split ch x) as [|p ps] eqn:E;
    try done; rewrite <-IH; [done|]. by destruct ps.
Qed.

Lemma concat_sep {A} (f : A → str) ch (l : list A) :
  concat ((λ a, ch :: f a) <$> l) = match l with [] => [] | _ => ch :: join ch (f <$> l) end.
Proof.
  induction l as [|a [|b l] IH]; [done| |].
  - simpl. by rewrite app_nil_r.
  - change (concat ((λ a0, ch :: f a0) <$> (a :: b :: l)))
      with (ch :: f a ++ concat ((λ a0, ch :: f a0) <$> (b :: l))).
    by rewrite IH.
Qed.

Lemma elem_of_join ch ch' ps : ch' ∈ join ch ps → ch' = ch ∨ ∃ p, p ∈ ps ∧ ch' ∈ p.
Proof.
  induction ps as [|p [|q ps] IH]; [set_solver|set_solver|].
  rewrite join_cons, elem_of_app, elem_of_cons. intros [|[|Hj]]; [set_solver|by left|].
  destruct (IH Hj) as [|(r & ? & ?)]; [by left|]. right. exists r. set_solver.
Qed.

Lemma elem_of_split ch x p ch' : p ∈ split ch x → ch' ∈ p → ch' ∈ x ∧ ch' ≠ ch.
Proof.
  revert p; induction x as [|ch2 x IH]; intros p; simpl.
  { intros ->%list_elem_of_singleton Hin. by apply not_elem_of_nil in Hin. }
  destruct (N.eqb_spec ch2 ch) as [->|].
  - rewrite elem_of_cons. intros [->|Hp] Hin; [set_solver|].
    destruct (IH _ Hp Hin). set_solver.
  - destruct (split ch x) as [|q qs] eqn:E; [by apply split_nonempty in E|].
    rewrite elem_of_cons. intros [->|Hp] Hin.
    + apply elem_of_cons in Hin as [->|Hin]; [set_solver|].
      destruct (IH q ltac:(set_solver) Hin). set_solver.
    + destruct (IH p ltac:(set_solver) Hin). set_solver.
Qed.

Lemma trim_end_char_id ch x : ch ∉ x → trim_end_char ch x = x.
Proof.
  intros Hin. destruct x as [|ch' x _] using rev_ind; [done|].
  apply trim_end_by_snoc, N.eqb_neq. set_solver.
Qed.

(** A string all of whose characters satisfy [f]. *)
Lemma forallb_elem (f : char → bool) x : forallb f x = true ↔ ∀ ch, ch ∈ x → f ch = true.
Proof. rewrite forallb_forall. by setoid_rewrite list_elem_of_In. Qed.

Lemma trimmed_no_ws x : (∀ ch, ch ∈ x → is_whitespace ch = false) → trimmed x = true.
Proof.
  destruct x as [|ch x]; [done|]. intros Hx. unfold trimmed.
  rewrite (Hx ch) by set_solver. simpl.
  destruct (last (ch :: x)) as [ch'|] eqn:E; [|done].
  rewrite (Hx ch'); [done|]. apply last_inv in E as [y ->]. set_solver.
Qed.

Lemma trimmed_app a x b :
  a ≠ [] → b ≠ [] → trimmed a = true → trimmed b = true → trimmed (a ++ x ++ b) = true.
Proof.
  intros Ha Hb Hta Htb. destruct a as [|ch a]; [done|].
  unfold trimmed in Hta. apply andb_true_iff in Hta as [Hch _].
  change ((ch :: a) ++ x ++ b) with (ch :: (a ++ x ++ b)). unfold trimmed. rewrite Hch. simpl.
  destruct b as [|b0 b _] using rev_ind; [done|].
  change (ch :: a ++ x ++ b ++ [b0]) with ((ch :: a) ++ x ++ b ++ [b0]).
  rewrite !app_assoc, last_snoc.
  destruct (b ++ [b0]) as [|b1 b'] eqn:E; [by destruct b|]. unfold trimmed in Htb.
  rewrite <-E, last_snoc in Htb. by apply andb_true_iff in Htb as [_ Htb].
Qed.

(** Lines that are written one after the other are the lines that are read. *)
Lemma lines_of_render ls :
  Forall (λ l, (10%N ∉ l) ∧ last l ≠ Some 13%N) ls → lines (concat ((λ l, l ++ [10%N]) <$> ls)) = ls.
Proof.
  unfold lines. induction 1 as [|l ls [Hl Hr] _ IH]; [done|]. rewrite fmap_cons. cbn [concat].
  rewrite <-app_assoc. cbn [Datatypes.app]. rewrite split_app by done.
  destruct (split 10 (concat ((λ l, l ++ [10%N]) <$> ls))) as [|p ps] eqn:E; [by apply split_nonempty in E|].
  change (line_pieces (l :: p :: ps)) with (default l (strip_suffix [13%N] l) :: line_pieces (p :: ps)).
  rewrite IH. f_equal. unfold strip_suffix. change (reverse [13%N]) with [13%N].
  destruct l as [|ch l _] using rev_ind; [done|]. rewrite reverse_app. cbn.
  destruct (N.eqb_spec 13 ch) as [<-|]; [|done]. by rewrite last_snoc in Hr.
Qed.
