(* ===== verification/HashMap.v ===== *)
(** * Rust [HashMap] with string keys

    The contents of a [HashMap<String, V>] are a [gmap str V].  Its iteration
    order is unspecified, so code that iterates is modelled against the
    interface [HashOrder]: some enumeration of the entries, each exactly once. *)

From Stdlib Require Import NArith.
From S2P Require Import Prelude RustStr.

Class HashOrder := {
  hash_iter {V : Type} : gmap str V → list (str * V);
  hash_iter_perm {V : Type} (m : gmap str V) : hash_iter m ≡ₚ map_to_list m;
}.

(** One possible order, used to evaluate examples. *)
Definition key_order : HashOrder :=
  {| hash_iter V m := map_to_list m; hash_iter_perm V m := reflexivity _ |}.

(** Another one. *)
Lemma reverse_map_to_list_perm {V} (m : gmap str V) : reverse (map_to_list m) ≡ₚ map_to_list m.
Proof. apply reverse_Permutation. Qed.

Definition reverse_key_order : HashOrder :=
  {| hash_iter V m := reverse (map_to_list m); hash_iter_perm V m := reverse_map_to_list_perm m |}.

Definition hash_values `{HashOrder} {V} (m : gmap str V) : list V := (hash_iter m).*2.

Section hash_order.
Context `{HashOrder} {V : Type}.
Implicit Types m : gmap str V.

Lemma elem_of_hash_iter m k v : (k, v) ∈ hash_iter m ↔ m !! k = Some v.
Proof. rewrite hash_iter_perm. apply elem_of_map_to_list. Qed.

Lemma elem_of_hash_values m v : v ∈ hash_values m ↔ ∃ k, m !! k = Some v.
Proof.
  unfold hash_values. rewrite list_elem_of_fmap. split.
  - intros ([k v'] & -> & Hk). exists k. by apply elem_of_hash_iter.
  - intros [k Hk]. exists (k, v). split; [done|]. by apply elem_of_hash_iter.
Qed.

Lemma hash_iter_NoDup m : NoDup (hash_iter m).*1.
Proof. rewrite hash_iter_perm. apply NoDup_fst_map_to_list. Qed.

Lemma hash_iter_to_map m : list_to_map (hash_iter m) = m.
Proof.
  transitivity (list_to_map (map_to_list m) : gmap str V).
  - apply list_to_map_proper; [apply hash_iter_NoDup|apply hash_iter_perm].
  - apply list_to_map_to_list.
Qed.
End hash_order.

(** Inserting distinct keys one after the other gives the map of the list. *)
Lemma foldl_insert_to_map {V} (l : list (str * V)) :
  NoDup l.*1 → foldl (λ m kv, <[kv.1 := kv.2]> m) ∅ l = (list_to_map l : gmap str V).
Proof.
  intros Hl. transitivity (list_to_map (reverse l) : gmap str V).
  - clear Hl. induction l as [|kv l IH] using rev_ind; [done|].
    by rewrite foldl_snoc, reverse_snoc, IH.
  - apply list_to_map_proper; [|apply reverse_Permutation].
    rewrite fmap_reverse. by rewrite (reverse_Permutation l.*1).
Qed.
