(* ===== verification/SipUri.v ===== *)
(** * SIP methods and URIs ([asterisk-sip/src/parser/mod.rs])

    [SipMethod] with its name table, [SipUri::parse], its accessors and its
    [Display] implementation. *)

From Stdlib Require Import NArith Ascii String.
From S2P Require Import Prelude RustStr HashMap.
Local Open Scope N_scope.
Local Open Scope list_scope.

(** The error of every parsing function. *)
Inductive ParseError : Type := mkParseError (msg : str).

#[export] Instance ParseError_eq_dec : EqDecision ParseError.
Proof. solve_decision. Defined.

Inductive SipMethod : Type :=
  | Invite | Ack | Bye | Cancel | Register | Options | Subscribe | Notify
  | Refer | Info | Update | Message | Prack | Publish.

#[export] Instance SipMethod_eq_dec : EqDecision SipMethod.
Proof. solve_decision. Defined.

Definition from_name (x : str) : option SipMethod :=
  if eq_ignore_ascii_case x (lit "INVITE") then Some Invite
  else if eq_ignore_ascii_case x (lit "ACK") then Some Ack
  else if eq_ignore_ascii_case x (lit "BYE") then Some Bye
  else if eq_ignore_ascii_case x (lit "CANCEL") then Some Cancel
  else if eq_ignore_ascii_case x (lit "REGISTER") then Some Register
  else if eq_ignore_ascii_case x (lit "OPTIONS") then Some Options
  else if eq_ignore_ascii_case x (lit "SUBSCRIBE") then Some Subscribe
  else if eq_ignore_ascii_case x (lit "NOTIFY") then Some Notify
  else if eq_ignore_ascii_case x (lit "REFER") then Some Refer
  else if eq_ignore_ascii_case x (lit "INFO") then Some Info
  else if eq_ignore_ascii_case x (lit "UPDATE") then Some Update
  else if eq_ignore_ascii_case x (lit "MESSAGE") then Some Message
  else if eq_ignore_ascii_case x (lit "PRACK") then Some Prack
  else if eq_ignore_ascii_case x (lit "PUBLISH") then Some Publish
  else None.

Definition method_str (m : SipMethod) : str :=
  match m with
  | Invite => lit "INVITE"
  | Ack => lit "ACK"
  | Bye => lit "BYE"
  | Cancel => lit "CANCEL"
  | Register => lit "REGISTER"
  | Options => lit "OPTIONS"
  | Subscribe => lit "SUBSCRIBE"
  | Notify => lit "NOTIFY"
  | Refer => lit "REFER"
  | Info => lit "INFO"
  | Update => lit "UPDATE"
  | Message => lit "MESSAGE"
  | Prack => lit "PRACK"
  | Publish => lit "PUBLISH"
  end.

(** ** URIs: [scheme:user:password@host:port;parameters?headers] *)

Record SipUri : Type := mkSipUri {
  scheme : str;
  user : option str;
  password : option str;
  host : str;
  port : option Z;
  parameters : gmap str (option str);
  uri_headers : gmap str str;
}.

#[export] Instance SipUri_eq_dec : EqDecision SipUri.
Proof. solve_decision. Defined.

(** The final [match s.rsplit_once(':')]: without brackets, a last piece that is
    not a port belongs to the host. *)
Definition parse_host_port_plain (x : str) : str * option Z :=
  match rsplit_once (chr ":") x with
  | Some (h, port_str) =>
      match parse_u16 port_str with
      | Some p => (h, Some p)
      | None => (x, None)
      end
  | None => (x, None)
  end.

Definition parse_host_port (x : str) : outcome (result ParseError (str * option Z)) :=
  if starts_with (lit "[") x then
    match find_char (chr "]") x with
    | Some end_bracket =>
        let! h := slice x 1 end_bracket in
        let! rest := slice_from x (end_bracket + 1) in
        match strip_prefix (lit ":") rest with
        | Some port_str =>
            match parse_u16 port_str with
            | Some p => Done (Ok (h, Some p))
            | None => Done (Err (mkParseError (lit "Invalid port: " ++ port_str)))
            end
        | None => Done (Ok (h, None))
        end
    | None => Done (Ok (parse_host_port_plain x))
    end
  else Done (Ok (parse_host_port_plain x)).

Definition parse_scheme (scheme_raw : str) : result ParseError str :=
  if eq_ignore_ascii_case scheme_raw (lit "sip") then Ok (lit "sip")
  else if eq_ignore_ascii_case scheme_raw (lit "sips") then Ok (lit "sips")
  else if eq_ignore_ascii_case scheme_raw (lit "tel") then Ok (lit "tel")
  else Err (mkParseError (lit "Unknown URI scheme: " ++ scheme_raw)).

(** [match x.split_once(ch) { Some((b, h)) => (b, Some(h)), None => (x, None) }] *)
Definition split_tail (ch : char) (x : str) : str * option str :=
  match split_once ch x with
  | Some (b, h) => (b, Some h)
  | None => (x, None)
  end.

Section uri.
Context `{UnicodeCase}.

Definition insert_param (acc : gmap str (option str)) (param : str)
    : gmap str (option str) :=
  match param with
  | [] => acc
  | _ => match split_once (chr "=") param with
         | Some (k, v) => <[to_lowercase k := Some v]> acc
         | None => <[to_lowercase param := None]> acc
         end
  end.

Definition parse_params (params_str : option str) : gmap str (option str) :=
  match params_str with
  | Some params => foldl insert_param ∅ (split (chr ";") params)
  | None => ∅
  end.

Definition insert_header (acc : gmap str str) (hdr : str) : gmap str str :=
  match split_once (chr "=") hdr with
  | Some (k, v) => <[k := v]> acc
  | None => acc
  end.

Definition parse_uri_headers (headers_str : option str) : gmap str str :=
  match headers_str with
  | Some hdrs => foldl insert_header ∅ (split (chr "&") hdrs)
  | None => ∅
  end.

Definition parse_userinfo (userinfo : str) : option str * option str :=
  match split_once (chr ":") userinfo with
  | Some (u, p) => (Some u, Some p)
  | None => (Some userinfo, None)
  end.

(** [SipUri::parse] *)
Definition uri_parse (input : str) : outcome (result ParseError SipUri) :=
  let input := trim input in
  match split_once (chr ":") input with
  | None => Done (Err (mkParseError (lit "Missing scheme in URI")))
  | Some (scheme_raw, rest) =>
      let!? scheme := Done (parse_scheme scheme_raw) in
      let (before_headers, headers_str) := split_tail (chr "?") rest in
      let (before_params, params_str) := split_tail (chr ";") before_headers in
      let!? (user, password, host, port) :=
        match split_once (chr "@") before_params with
        | Some (userinfo, hostport) =>
            let (user, password) := parse_userinfo userinfo in
            let!? (host, port) := parse_host_port hostport in
            Done (Ok (user, password, host, port))
        | None =>
            let!? (host, port) := parse_host_port before_params in
            Done (Ok (None, None, host, port))
        end in
      Done (Ok (mkSipUri scheme user password host port
                  (parse_params params_str) (parse_uri_headers headers_str)))
  end.

(** [SipUri::get_param], [transport], [is_ipv6_host], [host_display] *)
Definition get_param (u : SipUri) (name : str) : option str :=
  v ← parameters u !! to_lowercase name; v.
Definition transport (u : SipUri) : option str := get_param u (lit "transport").
End uri.

Definition is_ipv6_host (u : SipUri) : bool := contains_char (chr ":") (host u).
Definition host_display (u : SipUri) : str :=
  if is_ipv6_host u then lit "[" ++ host u ++ lit "]" else host u.

(** [impl Display for SipUri]; parameters and headers come in the maps'
    iteration order. *)
Section display.
Context `{HashOrder}.

Definition show_param (kv : str * option str) : str :=
  match kv with
  | (k, Some v) => lit ";" ++ k ++ lit "=" ++ v
  | (k, None) => lit ";" ++ k
  end.

Fixpoint show_headers (first_hdr : bool) (hs : list (str * str)) : str :=
  match hs with
  | [] => []
  | (k, v) :: hs' =>
      (if first_hdr then lit "?" else lit "&") ++ k ++ lit "=" ++ v
      ++ show_headers false hs'
  end.

Definition uri_display (u : SipUri) : str :=
  scheme u ++ lit ":"
  ++ match user u with
     | Some usr =>
         usr ++ match password u with Some pass => lit ":" ++ pass | None => [] end
         ++ lit "@"
     | None => []
     end
  ++ host_display u
  ++ match port u with Some p => lit ":" ++ show_int p | None => [] end
  ++ concat (show_param <$> hash_iter (parameters u))
  ++ show_headers true (hash_iter (uri_headers u)).
End display.

(** ** Methods *)

Lemma from_name_method_str m : from_name (method_str m) = Some m.
Proof. by destruct m. Qed.

(** ** No panic *)

Lemma parse_host_port_returns x : returns (parse_host_port x).
Proof.
  unfold parse_host_port. destruct (starts_with (lit "[") x) eqn:Hb; [|eauto with rust].
  apply starts_with_true in Hb as [y ->].
  destruct (find_char (chr "]") (lit "[" ++ y)) as [i|] eqn:Hf; [|eauto with rust].
  apply find_char_slices in Hf as (a & b & E & Hin & -> & _ & Hs); [|done].
  rewrite Hs. rewrite E. destruct a as [|p a]; simplify_eq/=.
  rewrite (slice_between _ (chr "]")) by done. simpl.
  repeat case_match; eauto with rust.
Qed.

Lemma uri_parse_returns `{UnicodeCase} x : returns (uri_parse x).
Proof.
  unfold uri_parse. destruct (split_once _ _) as [[scheme_raw rest]|]; [|eauto with rust].
  apply returns_try; [eauto with rust|]. intros sch _.
  destruct (split_tail _ rest) as [bh hs]. destruct (split_tail _ bh) as [bp ps].
  apply returns_try.
  - destruct (split_once _ bp) as [[ui hp]|]; [destruct (parse_userinfo ui)|];
      (apply returns_try; [apply parse_host_port_returns|intros []; eauto with rust]).
  - intros [[[??]?]?] _. eauto with rust.
Qed.
#[export] Hint Resolve parse_host_port_returns uri_parse_returns : rust.

(** ** Round trip

    [uri_wf] holds of the URIs whose parts do not contain the delimiters the
    parser cuts at, nor white space, and whose parameter names are lower case. *)

Definition plain (forbidden : str) (x : str) : bool :=
  forallb (λ ch, negb (is_whitespace ch) && negb (contains_char ch forbidden)) x.

Definition opt_all (f : str → bool) (x : option str) : bool :=
  match x with Some y => f y | None => true end.

Definition param_wf `{UnicodeCase} (kv : str * option str) : bool :=
  negb (str_eqb kv.1 []) && str_eqb (to_lowercase kv.1) kv.1
  && plain (lit ";?=") kv.1 && opt_all (plain (lit ";?")) kv.2.

Definition uri_header_wf (kv : str * str) : bool :=
  plain (lit "&=") kv.1 && plain (lit "&") kv.2.

Definition uri_wf `{UnicodeCase} (u : SipUri) : bool :=
  existsb (str_eqb (scheme u)) [lit "sip"; lit "sips"; lit "tel"]
  && opt_all (plain (lit "@:;?")) (user u)
  && opt_all (plain (lit "@;?")) (password u)
  && (bool_decide (is_Some (user u)) || bool_decide (password u = None))
  && plain (lit "@;?[]") (host u)
  && match port u with Some p => (0 <=? p)%Z && (p <? 65536)%Z | None => true end
  && forallb param_wf (map_to_list (parameters u))
  && forallb uri_header_wf (map_to_list (uri_headers u)).

Lemma plain_spec forbidden x ch :
  plain forbidden x = true → ch ∈ x → is_whitespace ch = false ∧ ch ∉ forbidden.
Proof.
  intros Hp Hin. unfold plain in Hp. rewrite forallb_elem in Hp. specialize (Hp _ Hin).
  apply andb_true_iff in Hp as [H1%negb_true_iff H2%negb_true_iff]. split; [done|].
  intros Hf%list_elem_of_In. unfold contains_char in H2.
  rewrite <-not_true_iff_false in H2. apply H2. apply existsb_exists.
  exists ch. split; [done|apply N.eqb_refl].
Qed.

Lemma plain_not_in forbidden x ch : plain forbidden x = true → ch ∈ forbidden → ch ∉ x.
Proof. intros Hp Hf Hin. by apply (plain_spec _ _ _ Hp Hin). Qed.

Lemma plain_no_ws forbidden x ch : plain forbidden x = true → ch ∈ x → is_whitespace ch = false.
Proof. intros Hp Hin. by apply (plain_spec _ _ _ Hp Hin). Qed.

(** Membership of a character of the delimiter literals, by evaluation. *)
Ltac in_lit :=
  match goal with |- ?P => exact (bool_decide_unpack P ltac:(vm_compute; exact I)) end.

Definition tail_str (ch : char) (t : option str) : str :=
  match t with Some y => ch :: y | None => [] end.

Lemma split_tail_app ch a t : ch ∉ a → split_tail ch (a ++ tail_str ch t) = (a, t).
Proof.
  intros Ha. unfold split_tail. destruct t as [y|]; simpl.
  - by rewrite (proj2 (split_once_Some ch _ a y)).
  - rewrite app_nil_r. by rewrite (proj2 (split_once_None ch a)).
Qed.

Definition port_text (p : option Z) : str :=
  match p with Some p => lit ":" ++ show_int p | None => [] end.

Lemma parse_host_port_plain_display h p :
  chr ":" ∉ h → (∀ q, p = Some q → (0 ≤ q < 65536)%Z) →
  parse_host_port_plain (h ++ port_text p) = (h, p).
Proof.
  intros Hh Hp. unfold parse_host_port_plain. destruct p as [p|]; simpl.
  - specialize (Hp p eq_refl). change 58 with (chr ":").
    rewrite rsplit_once_app by (apply show_int_no_sep; [lia|done]).
    unfold parse_u16. rewrite parse_unsigned_show by lia. done.
  - rewrite app_nil_r. by rewrite (proj2 (rsplit_once_None _ h)).
Qed.

Lemma parse_host_port_display u :
  plain (lit "@;?[]") (host u) = true →
  (∀ q, port u = Some q → (0 ≤ q < 65536)%Z) →
  parse_host_port (host_display u ++ port_text (port u)) = Done (Ok (host u, port u)).
Proof.
  intros Hh Hp. unfold host_display, is_ipv6_host. destruct (contains_char _ _) eqn:Hc.
  - unfold parse_host_port. rewrite (proj2 (starts_with_true _ _)) by (by eexists).
    assert (Hb : chr "]" ∉ chr "[" :: host u).
    { apply not_elem_of_cons. split; [done|]. by apply (plain_not_in _ _ _ Hh); in_lit. }
    assert (Hf : find_char (chr "]") ((lit "[" ++ host u ++ lit "]") ++ port_text (port u))
                 = Some (1 + len (host u))).
    { apply find_char_Some. exists (chr "[" :: host u), (port_text (port u)).
      split_and!; [by rewrite <-!app_assoc|done|done]. }
    rewrite Hf.
    replace ((lit "[" ++ host u ++ lit "]") ++ port_text (port u))
      with (chr "[" :: host u ++ chr "]" :: port_text (port u)) by (by rewrite <-!app_assoc).
    rewrite slice_between by done. cbn [outcome_bind].
    replace (1 + len (host u) + 1) with (len (chr "[" :: host u ++ [chr "]"])).
    2:{ change (len (chr "[" :: host u ++ [chr "]"])) with (1 + len (host u ++ [chr "]"])).
        rewrite len_app. change (len [chr "]"]) with 1. lia. }
    replace (chr "[" :: host u ++ chr "]" :: port_text (port u))
      with ((chr "[" :: host u ++ [chr "]"]) ++ port_text (port u))
      by (by rewrite <-app_comm_cons, <-app_assoc).
    rewrite slice_from_app. cbn [outcome_bind].
    destruct (port u) as [p|]; [|done]. unfold port_text. rewrite strip_prefix_app.
    specialize (Hp p eq_refl). unfold parse_u16. by rewrite parse_unsigned_show by lia.
  - assert (Hcol : chr ":" ∉ host u).
    { intros Hin%list_elem_of_In. apply not_true_iff_false in Hc. apply Hc.
      apply existsb_exists. by exists (chr ":"). }
    unfold parse_host_port. destruct (starts_with _ _) eqn:Hs.
    + apply starts_with_true in Hs as [y Hy]. exfalso.
      destruct (host u) as [|ch h'] eqn:Eh.
      * destruct (port u); done.
      * by simplify_eq/=.
    + by rewrite parse_host_port_plain_display.
Qed.

Definition param_text (kv : str * option str) : str :=
  match kv with (k, Some v) => k ++ lit "=" ++ v | (k, None) => k end.
Definition uri_header_text (kv : str * str) : str := kv.1 ++ lit "=" ++ kv.2.

(** The text of a non-empty enumeration, as a tail. *)
Definition joined {A} (f : A → str) (ch : char) (l : list A) : option str :=
  match l with [] => None | _ => Some (join ch (f <$> l)) end.

Lemma elem_of_joined {A} (f : A → str) ch (l : list A) y ch' :
  joined f ch l = Some y → ch' ∈ y → ch' = ch ∨ ∃ a, a ∈ l ∧ ch' ∈ f a.
Proof.
  unfold joined. destruct l as [|a l]; [done|]. intros Hy Hin.
  assert (y = join ch (f <$> a :: l)) as -> by congruence.
  apply elem_of_join in Hin as [|(p & Hp & Hin)]; [by left|right].
  apply list_elem_of_fmap in Hp as (b & -> & Hb). by exists b.
Qed.

Lemma show_params_eq l :
  concat (show_param <$> l) = tail_str (chr ";") (joined param_text (chr ";") l).
Proof.
  transitivity (concat ((λ kv, chr ";" :: param_text kv) <$> l)).
  - f_equal. apply list_fmap_ext. intros i [k [v|]] _; reflexivity.
  - rewrite concat_sep. by destruct l.
Qed.

Lemma show_headers_false_eq l :
  show_headers false l = concat ((λ kv, chr "&" :: uri_header_text kv) <$> l).
Proof.
  induction l as [|[k v] l IH]; [done|]. simpl. rewrite IH. f_equal.
  unfold uri_header_text. simpl. by rewrite <-app_assoc.
Qed.

Lemma show_headers_eq l :
  show_headers true l = tail_str (chr "?") (joined uri_header_text (chr "&") l).
Proof.
  destruct l as [|[k v] l]; [done|]. simpl show_headers. rewrite show_headers_false_eq, concat_sep.
  unfold joined, tail_str. f_equal. destruct l as [|kv l]; simpl.
  - by rewrite app_nil_r.
  - change (uri_header_text (k, v)) with (k ++ lit "=" ++ v). by rewrite <-!app_assoc.
Qed.

Section parse_tails.
Context `{UnicodeCase}.

Lemma insert_param_text acc kv :
  param_wf kv = true → insert_param acc (param_text kv) = <[kv.1 := kv.2]> acc.
Proof.
  destruct kv as [k v]. unfold param_wf. simpl.
  intros [[[Hne%negb_true_iff Hlow]%andb_true_iff Hk]%andb_true_iff Hv]%andb_true_iff.
  apply bool_decide_eq_false in Hne. apply bool_decide_eq_true in Hlow.
  assert (Heq : chr "=" ∉ k) by (apply (plain_not_in _ _ _ Hk); in_lit).
  unfold insert_param. destruct k as [|ch k]; [done|]. destruct v as [v|]; cbn [param_text].
  - change ((ch :: k) ++ lit "=" ++ v) with (ch :: (k ++ chr "=" :: v)).
    cbn match. rewrite (proj2 (split_once_Some _ _ (ch :: k) v)) by done. by rewrite Hlow.
  - rewrite (proj2 (split_once_None _ _)) by done. by rewrite Hlow.
Qed.

Lemma insert_header_text acc kv :
  uri_header_wf kv = true → insert_header acc (uri_header_text kv) = <[kv.1 := kv.2]> acc.
Proof.
  intros [Hk Hv]%andb_true_iff. unfold insert_header, uri_header_text.
  rewrite (proj2 (split_once_Some _ _ kv.1 kv.2)); [done|].
  split; [done|]. apply (plain_not_in _ _ _ Hk); in_lit.
Qed.

Lemma foldl_text {V} (ins : gmap str V → str → gmap str V) (text : str * V → str)
    (wf : str * V → bool) (l : list (str * V)) acc :
  (∀ m kv, wf kv = true → ins m (text kv) = <[kv.1 := kv.2]> m) →
  forallb wf l = true →
  foldl ins acc (text <$> l) = foldl (λ m kv, <[kv.1 := kv.2]> m) acc l.
Proof.
  intros Hins. revert acc. induction l as [|kv l IH]; intros acc Hl; [done|]. simpl in *.
  apply andb_true_iff in Hl as [H1 H2]. rewrite Hins by done. by apply IH.
Qed.

Lemma parse_params_joined l :
  NoDup l.*1 → forallb param_wf l = true →
  parse_params (joined param_text (chr ";") l) = list_to_map l.
Proof.
  intros Hnd Hwf. destruct l as [|kv l]; [done|]. unfold parse_params, joined.
  rewrite split_join; [|done|].
  - rewrite (foldl_text insert_param param_text param_wf) by eauto using insert_param_text.
    by apply foldl_insert_to_map.
  - apply Forall_fmap, Forall_forall. intros [k v] Hin.
    rewrite forallb_forall in Hwf. specialize (Hwf _ (proj1 (list_elem_of_In _ _) Hin)).
    unfold param_wf in Hwf. split_bools. simpl in *.
    assert (chr ";" ∉ k) by (eapply plain_not_in; [done|in_lit]).
    destruct v as [v|]; simpl in *; [|done].
    rewrite not_elem_of_app, not_elem_of_cons. split_and!; [done|done|].
    eapply plain_not_in; [done|in_lit].
Qed.
End parse_tails.

Lemma parse_uri_headers_joined l :
  NoDup l.*1 → forallb uri_header_wf l = true →
  parse_uri_headers (joined uri_header_text (chr "&") l) = list_to_map l.
Proof.
  intros Hnd Hwf. destruct l as [|kv l]; [done|]. unfold parse_uri_headers, joined.
  rewrite split_join; [|done|].
  - rewrite (foldl_text insert_header uri_header_text uri_header_wf)
      by eauto using insert_header_text.
    by apply foldl_insert_to_map.
  - apply Forall_fmap, Forall_forall. intros [k v] Hin.
    rewrite forallb_forall in Hwf. specialize (Hwf _ (proj1 (list_elem_of_In _ _) Hin)).
    apply andb_true_iff in Hwf as [Hk Hv]. unfold uri_header_text. simpl in *.
    rewrite not_elem_of_app, not_elem_of_cons. split_and!; [|done|];
      (eapply plain_not_in; [done|in_lit]).
Qed.

Section roundtrip.
Context `{UnicodeCase, HashOrder}.

Definition userinfo_text (u : SipUri) : str :=
  match user u with
  | Some usr =>
      usr ++ match password u with Some pass => lit ":" ++ pass | None => [] end ++ lit "@"
  | None => []
  end.

Definition authority_text (u : SipUri) : str :=
  userinfo_text u ++ host_display u ++ port_text (port u).

Definition params_tail (u : SipUri) : option str :=
  joined param_text (chr ";") (hash_iter (parameters u)).
Definition headers_tail (u : SipUri) : option str :=
  joined uri_header_text (chr "&") (hash_iter (uri_headers u)).

Lemma uri_display_eq u :
  uri_display u = scheme u ++ chr ":" :: ((authority_text u
    ++ tail_str (chr ";") (params_tail u)) ++ tail_str (chr "?") (headers_tail u)).
Proof.
  unfold uri_display, authority_text, userinfo_text.
  rewrite show_params_eq, show_headers_eq. unfold params_tail, headers_tail.
  rewrite <-!app_assoc. reflexivity.
Qed.

(** What [uri_wf] says about each part. *)
Record uri_parts (u : SipUri) : Prop := {
  up_scheme : scheme u ∈ [lit "sip"; lit "sips"; lit "tel"];
  up_user : ∀ x, user u = Some x → plain (lit "@:;?") x = true;
  up_password : ∀ x, password u = Some x → plain (lit "@;?") x = true ∧ is_Some (user u);
  up_host : plain (lit "@;?[]") (host u) = true;
  up_port : ∀ p, port u = Some p → (0 ≤ p < 65536)%Z;
  up_params : forallb param_wf (hash_iter (parameters u)) = true;
  up_headers : forallb uri_header_wf (hash_iter (uri_headers u)) = true;
}.

Lemma forallb_hash_iter {V} (f : str * V → bool) (m : gmap str V) :
  forallb f (map_to_list m) = true → forallb f (hash_iter m) = true.
Proof.
  rewrite !forallb_forall. setoid_rewrite <-list_elem_of_In.
  intros Hf kv. rewrite hash_iter_perm. apply Hf.
Qed.

Lemma uri_wf_parts u : uri_wf u = true → uri_parts u.
Proof.
  unfold uri_wf. intros Hwf. split_bools.
  split; try by apply forallb_hash_iter.
  - rename select (existsb _ _ = true) into Hs. apply existsb_exists in Hs as (x & Hx & E).
    apply bool_decide_eq_true in E as ->. by apply list_elem_of_In.
  - intros x Hx. rename select (opt_all _ (user u) = true) into Hu. by rewrite Hx in Hu.
  - intros x Hx. rename select (opt_all _ (password u) = true) into Hu.
    rewrite Hx in Hu. split; [done|].
    rename select (_ || _ = true) into Ho. apply orb_true_iff in Ho as [Ho|Ho];
      apply bool_decide_eq_true in Ho; congruence.
  - done.
  - intros p Hp. rewrite Hp in *. split_bools. lia.
Qed.

Lemma port_text_chars p ch :
  (∀ q, p = Some q → (0 ≤ q < 65536)%Z) → ch ∈ port_text p →
  ch = chr ":" ∨ is_ascii_digit ch = true.
Proof.
  intros Hp. destruct p as [p|]; [|by intros ?%not_elem_of_nil].
  specialize (Hp p eq_refl). intros [->|Hin]%elem_of_cons; [by left|right].
  eapply elem_of_show_int; [|done]. lia.
Qed.

Lemma host_display_chars u ch :
  ch ∈ host_display u → ch ∈ host u ∨ ch = chr "[" ∨ ch = chr "]".
Proof. unfold host_display. case_match; rewrite ?elem_of_app, ?list_elem_of_singleton; tauto. Qed.

(** A delimiter or white-space character outside the grammar of the authority. *)
Lemma authority_not_in u ch :
  uri_parts u → ch ∈ lit ";?" ∨ is_whitespace ch = true → ch ∉ authority_text u.
Proof.
  intros Hu Hch. unfold authority_text, userinfo_text.
  assert (Hpl : ∀ fb x, plain fb x = true → (∀ z, z ∈ lit ";?" → z ∈ fb) → ch ∉ x).
  { intros fb x Hx Hsub Hin. destruct (plain_spec _ _ _ Hx Hin) as [Hw Hf].
    destruct Hch as [Hc|Hc]; [by apply Hf, Hsub|congruence]. }
  assert (Hl : ∀ x, x ∈ lit ":@[]" → ch ≠ x).
  { intros x Hx ->. destruct Hch as [Hc|Hc]; set_unfold; destruct_or!; subst; done. }
  rewrite !not_elem_of_app. split_and!.
  - destruct (user u) as [usr|] eqn:Eu; [|by apply not_elem_of_nil].
    rewrite !not_elem_of_app. split_and!.
    + apply (Hpl _ _ (up_user _ Hu _ Eu)). set_solver.
    + destruct (password u) as [pass|] eqn:Ep; [|by apply not_elem_of_nil].
      apply not_elem_of_cons; split; [apply Hl; set_solver|].
      apply (Hpl _ _ (proj1 (up_password _ Hu _ Ep))). set_solver.
    + apply not_elem_of_cons; split; [apply Hl; set_solver|apply not_elem_of_nil].
  - intros [Hin|[Hin|Hin]]%host_display_chars.
    + revert Hin. apply (Hpl _ _ (up_host _ Hu)). set_solver.
    + revert Hin. apply Hl. set_solver.
    + revert Hin. apply Hl. set_solver.
  - intros Hin. destruct (port_text_chars _ _ (up_port _ Hu) Hin) as [Hin'|Hin']; clear Hin;
      rename Hin' into Hin.
    + revert Hin. apply Hl. set_solver.
    + destruct Hch as [Hc|Hc]; [set_unfold; destruct_or!; subst; done|].
      apply digit_not_whitespace in Hin. congruence.
Qed.

Lemma params_tail_chars u y ch :
  uri_parts u → params_tail u = Some y → ch ∈ y →
  is_whitespace ch = false ∧ ch ≠ chr "?".
Proof.
  intros Hu Hy Hch. pose proof (up_params _ Hu) as Hps.
  apply (elem_of_joined _ _ _ _ _ Hy) in Hch as [->|([k v] & Hkv%list_elem_of_In & Hin)];
    [done|].
  rewrite forallb_forall in Hps. specialize (Hps _ Hkv). unfold param_wf in Hps.
  split_bools. simpl in *.
  assert (Hk : ch ∈ k → is_whitespace ch = false ∧ ch ≠ chr "?").
  { intros Hc. split; [by eapply plain_no_ws|]. intros ->. revert Hc.
    eapply plain_not_in; [done|in_lit]. }
  destruct v as [v|]; simpl in *; [|by apply Hk].
  apply elem_of_app in Hin as [Hin|[->|Hin]%elem_of_cons]; [by apply Hk|done|].
  split; [by eapply plain_no_ws|]. intros ->. revert Hin.
  eapply plain_not_in; [done|in_lit].
Qed.

Lemma headers_tail_chars u y ch :
  uri_parts u → headers_tail u = Some y → ch ∈ y → is_whitespace ch = false.
Proof.
  intros Hu Hy Hch. pose proof (up_headers _ Hu) as Hhs.
  apply (elem_of_joined _ _ _ _ _ Hy) in Hch as [->|([k v] & Hkv%list_elem_of_In & Hin)];
    [done|].
  rewrite forallb_forall in Hhs. specialize (Hhs _ Hkv).
  apply andb_true_iff in Hhs as [Hk Hv]. unfold uri_header_text in Hin. simpl in *.
  apply elem_of_app in Hin as [Hin|[->|Hin]%elem_of_cons].
  - exact (plain_no_ws _ _ _ Hk Hin).
  - done.
  - exact (plain_no_ws _ _ _ Hv Hin).
Qed.

Lemma uri_display_no_ws u ch :
  uri_parts u → ch ∈ uri_display u → is_whitespace ch = false.
Proof.
  intros Hu. rewrite uri_display_eq. intros Hin. apply not_true_iff_false. intros Hw.
  apply elem_of_app in Hin as [Hin|[->|Hin]%elem_of_cons]; [|done|].
  - pose proof (up_scheme _ Hu) as Hs. set_unfold.
    destruct Hs as [Hs|[Hs|[Hs|[]]]]; rewrite Hs in Hin; set_unfold;
      destruct_or!; subst; done.
  - apply elem_of_app in Hin as [[Hin|Hin]%elem_of_app|Hin].
    + exact (authority_not_in _ _ Hu (or_intror Hw) Hin).
    + destruct (params_tail u) as [y|] eqn:Ey; [|by apply not_elem_of_nil in Hin].
      apply elem_of_cons in Hin as [->|Hin]; [done|].
      by rewrite (proj1 (params_tail_chars _ _ _ Hu Ey Hin)) in Hw.
    + destruct (headers_tail u) as [y|] eqn:Ey; [|by apply not_elem_of_nil in Hin].
      apply elem_of_cons in Hin as [->|Hin]; [done|].
      by rewrite (headers_tail_chars _ _ _ Hu Ey Hin) in Hw.
Qed.

Lemma parse_scheme_parts u : uri_parts u →
  parse_scheme (scheme u) = Ok (scheme u) ∧ chr ":" ∉ scheme u.
Proof.
  intros Hu. pose proof (up_scheme _ Hu) as Hs. set_unfold.
  destruct Hs as [Hs|[Hs|[Hs|[]]]]; rewrite Hs; (split; [done|set_solver]).
Qed.

Lemma hostport_no_at u : uri_parts u → chr "@" ∉ host_display u ++ port_text (port u).
Proof.
  intros Hu. rewrite not_elem_of_app. split.
  - intros [Hin|[Hin|Hin]]%host_display_chars; [|done|done].
    revert Hin. apply (plain_not_in _ _ _ (up_host _ Hu)). in_lit.
  - intros Hin. by destruct (port_text_chars _ _ (up_port _ Hu) Hin).
Qed.

(** The userinfo part, when there is one, is everything before the first [@]. *)
Lemma authority_user u usr : uri_parts u → user u = Some usr →
  ∃ ui, (chr "@" ∉ ui) ∧ (parse_userinfo ui = (user u, password u)) ∧
    authority_text u = ui ++ chr "@" :: (host_display u ++ port_text (port u)).
Proof.
  intros Hu Eu. unfold authority_text, userinfo_text. rewrite Eu.
  pose proof (up_user _ Hu _ Eu) as Hp.
  assert (Hat : chr "@" ∉ usr) by (apply (plain_not_in _ _ _ Hp); in_lit).
  assert (Hcol : chr ":" ∉ usr) by (apply (plain_not_in _ _ _ Hp); in_lit).
  destruct (password u) as [pass|] eqn:Ep.
  - destruct (up_password _ Hu _ Ep) as [Hpass _].
    exists (usr ++ chr ":" :: pass). split_and!.
    + rewrite not_elem_of_app, not_elem_of_cons. split_and!; [done|done|].
      apply (plain_not_in _ _ _ Hpass). in_lit.
    + unfold parse_userinfo. by rewrite (proj2 (split_once_Some _ _ usr pass)).
    + by rewrite <-!app_assoc.
  - exists usr. split_and!; [done| |].
    + unfold parse_userinfo. by rewrite (proj2 (split_once_None _ usr)).
    + by rewrite <-!app_assoc.
Qed.

Lemma uri_parse_display_parts u : uri_parts u → uri_parse (uri_display u) = Done (Ok u).
Proof.
  intros Hu. unfold uri_parse.
  rewrite trim_trimmed by (by apply trimmed_no_ws; intros; eapply uri_display_no_ws).
  rewrite uri_display_eq. destruct (parse_scheme_parts _ Hu) as [Hps Hcol].
  rewrite (proj2 (split_once_Some _ _ (scheme u) _)) by done. rewrite Hps.
  cbn [try_bind outcome_bind]. rewrite split_tail_app.
  2:{ rewrite not_elem_of_app. split.
      - apply authority_not_in; [done|left; set_solver].
      - destruct (params_tail u) as [y|] eqn:Ey; [|apply not_elem_of_nil].
        apply not_elem_of_cons; split; [done|]. intros Hin.
        by destruct (params_tail_chars _ _ _ Hu Ey Hin). }
  rewrite split_tail_app by (apply authority_not_in; [done|left; set_solver]).
  unfold params_tail, headers_tail.
  rewrite parse_params_joined, parse_uri_headers_joined, !hash_iter_to_map
    by first [apply hash_iter_NoDup|apply Hu].
  pose proof (parse_host_port_display u (up_host _ Hu) (up_port _ Hu)) as Hhp.
  destruct (user u) as [usr|] eqn:Eu.
  - destruct (authority_user _ _ Hu Eu) as (ui & Hat & Hui & ->).
    rewrite (proj2 (split_once_Some _ _ ui _)) by done. rewrite Hui, Hhp. simpl.
    by destruct u; simpl in *; subst.
  - assert (Hpw : password u = None).
    { destruct (password u) eqn:Ep; [|done].
      destruct (up_password _ Hu _ Ep) as [_ [? ?]]. congruence. }
    unfold authority_text, userinfo_text. rewrite Eu. cbn [app].
    rewrite (proj2 (split_once_None _ _)) by (by apply hostport_no_at).
    rewrite Hhp. simpl. by destruct u; simpl in *; subst.
Qed.
End roundtrip.

(** ** Properties *)

#[local] Instance ascii_only : UnicodeCase := λ x, x.

(** [SipUri::parse] inverts [Display for SipUri]: a URI whose parts are free
    of the grammar's delimiters and white space, with lower-case parameter
    names and a 16-bit port, is read back exactly, whatever order the hash maps
    are printed in (IPv6 hosts, passwords, flag parameters and headers
    included). *)
Theorem uri_parse_display `{UnicodeCase, HashOrder} (u : SipUri) :
  uri_wf u = true → uri_parse (uri_display u) = Done (Ok u).
Proof. intros Hu. by apply uri_parse_display_parts, uri_wf_parts. Qed.

Definition example_uri : SipUri :=
  mkSipUri (lit "sips") (Some (lit "alice")) (Some (lit "pw:1")) (lit "2001:db8::1") (Some 5061%Z)
    {[ lit "transport" := Some (lit "tls"); lit "lr" := None ]}
    {[ lit "subject" := lit "project%20x"; lit "priority" := lit "urgent" ]}.

Lemma uri_parse_display_witness :
  uri_wf example_uri = true ∧
  @uri_parse ascii_only (@uri_display key_order example_uri) = Done (Ok example_uri).
Proof.
  split; [vm_compute; reflexivity|].
  apply (@uri_parse_display ascii_only key_order). vm_compute. reflexivity.
Defined.
