(* ===== verification/SipMessage.v ===== *)
(** * SIP messages ([asterisk-sip/src/parser/mod.rs])

    Start lines, headers, the accessors and constructors of [SipMessage], its
    [Display] implementation and the header-value helpers ([extract_tag],
    [extract_uri], [parse_via], [RetryAfter]).  The theorems: the helpers, which
    slice untrusted text, never panic. *)

From Stdlib Require Import NArith Ascii String.
From S2P Require Import Prelude RustStr HashMap SipUri.
Local Open Scope N_scope.
Local Open Scope list_scope.

Record RequestLine := mkRequestLine {
  rl_method : SipMethod; rl_uri : SipUri; rl_version : str }.

Record StatusLine := mkStatusLine {
  sl_version : str; sl_status_code : Z; sl_reason_phrase : str }.

Inductive StartLine :=
  | Request (r : RequestLine)
  | Response (r : StatusLine).

Record SipHeader := mkSipHeader { hname : str; hvalue : str }.

Record SipMessage := mkSipMessage {
  start_line : StartLine; headers : list SipHeader; body : str }.

#[export] Instance RequestLine_eq_dec : EqDecision RequestLine.
Proof. solve_decision. Defined.
#[export] Instance StatusLine_eq_dec : EqDecision StatusLine.
Proof. solve_decision. Defined.
#[export] Instance StartLine_eq_dec : EqDecision StartLine.
Proof. solve_decision. Defined.
#[export] Instance SipHeader_eq_dec : EqDecision SipHeader.
Proof. solve_decision. Defined.
#[export] Instance SipMessage_eq_dec : EqDecision SipMessage.
Proof. solve_decision. Defined.

(** [mod header_names] *)
Definition VIA : str := lit "Via".
Definition FROM : str := lit "From".
Definition TO : str := lit "To".
Definition CALL_ID : str := lit "Call-ID".
Definition CSEQ : str := lit "CSeq".
Definition CONTACT : str := lit "Contact".
Definition CONTENT_TYPE : str := lit "Content-Type".
Definition CONTENT_LENGTH : str := lit "Content-Length".
Definition ROUTE : str := lit "Route".
Definition RECORD_ROUTE : str := lit "Record-Route".
Definition SUPPORTED : str := lit "Supported".
Definition RETRY_AFTER : str := lit "Retry-After".

(** Compact header names (RFC 3261 section 7.3.3). *)
Definition expand_compact_header (name : str) : str :=
  match name with
  | [b] =>
      let b' := to_ascii_lower b in
      if b' =? chr "i" then CALL_ID
      else if b' =? chr "m" then CONTACT
      else if b' =? chr "e" then lit "Content-Encoding"
      else if b' =? chr "l" then CONTENT_LENGTH
      else if b' =? chr "c" then CONTENT_TYPE
      else if b' =? chr "f" then FROM
      else if b' =? chr "s" then lit "Subject"
      else if b' =? chr "k" then SUPPORTED
      else if b' =? chr "t" then TO
      else if b' =? chr "v" then VIA
      else name
  | _ => name
  end.

(** ** Accessors *)

Definition has_name (name : str) (h : SipHeader) : bool :=
  eq_ignore_ascii_case (hname h) name.

Definition get_header (m : SipMessage) (name : str) : option str :=
  hvalue <$> List.find (has_name name) (headers m).

Definition get_headers (m : SipMessage) (name : str) : list str :=
  hvalue <$> List.filter (has_name name) (headers m).

Definition call_id (m : SipMessage) : option str := get_header m CALL_ID.
Definition cseq (m : SipMessage) : option str := get_header m CSEQ.
Definition from_header (m : SipMessage) : option str := get_header m FROM.
Definition to_header (m : SipMessage) : option str := get_header m TO.

Definition is_request (m : SipMessage) : bool :=
  match start_line m with Request _ => true | Response _ => false end.
Definition is_response (m : SipMessage) : bool :=
  match start_line m with Response _ => true | Request _ => false end.

Definition method (m : SipMessage) : option SipMethod :=
  match start_line m with Request r => Some (rl_method r) | _ => None end.
Definition status_code (m : SipMessage) : option Z :=
  match start_line m with Response r => Some (sl_status_code r) | _ => None end.

(** ** Construction *)

Definition SIP_2_0 : str := lit "SIP/2.0".

Definition new_request `{UnicodeCase} (meth : SipMethod) (uri : str) : outcome SipMessage :=
  let! parsed := uri_parse uri in
  let parsed_uri := match parsed with
                    | Ok u => u
                    | Err _ => mkSipUri (lit "sip") None None uri None ∅ ∅
                    end in
  Done (mkSipMessage (Request (mkRequestLine meth parsed_uri SIP_2_0)) [] []).

Definition new_response (code : Z) (reason : str) : SipMessage :=
  mkSipMessage (Response (mkStatusLine SIP_2_0 code reason)) [] [].

Definition add_header (m : SipMessage) (name value : str) : SipMessage :=
  mkSipMessage (start_line m) (headers m ++ [mkSipHeader name value]) (body m).

(** The headers a response copies from its request, in this order. *)
Definition copied_headers (m : SipMessage) : list SipHeader :=
  concat ((λ name, mkSipHeader name <$> get_headers m name)
            <$> [VIA; FROM; TO; CALL_ID; CSEQ]).

Definition create_response (m : SipMessage) (code : Z) (reason : str)
    : result ParseError SipMessage :=
  if negb (is_request m) then
    Err (mkParseError (lit "Cannot create response to a response"))
  else
    Ok (mkSipMessage (Response (mkStatusLine SIP_2_0 code reason))
          (copied_headers m ++ [mkSipHeader CONTENT_LENGTH (lit "0")]) []).

(** ** Display *)

Definition CRLF : str := [13; 10].

Definition start_line_display `{HashOrder} (l : StartLine) : str :=
  match l with
  | Request r =>
      method_str (rl_method r) ++ lit " " ++ uri_display (rl_uri r) ++ lit " " ++ rl_version r
  | Response r =>
      sl_version r ++ lit " " ++ show_int (sl_status_code r) ++ lit " " ++ sl_reason_phrase r
  end.

Definition header_display (h : SipHeader) : str := hname h ++ lit ": " ++ hvalue h.

Definition display `{HashOrder} (m : SipMessage) : str :=
  start_line_display (start_line m) ++ CRLF
  ++ concat ((λ h, header_display h ++ CRLF) <$> headers m)
  ++ CRLF ++ body m.

(** ** Header-value helpers *)

Fixpoint first_tag (parts : list str) : option str :=
  match parts with
  | [] => None
  | part :: parts' =>
      match strip_prefix (lit "tag=") (trim part) with
      | Some tag => Some tag
      | None => first_tag parts'
      end
  end.

Definition extract_tag (header_value : str) : option str :=
  first_tag (split (chr ";") header_value).

Definition bare_uri (header_value : str) : option str :=
  trim <$> head (split (chr ";") header_value).

Definition extract_uri (header_value : str) : outcome (option str) :=
  match find_char (chr "<") header_value with
  | Some start =>
      match find_char (chr ">") header_value with
      | Some e =>
          if start <? e then
            let! u := slice header_value (start + 1) e in Done (Some u)
          else Done (bare_uri header_value)
      | None => Done (bare_uri header_value)
      end
  | None => Done (bare_uri header_value)
  end.

(** The last [branch=] parameter wins. *)
Definition via_branch (params : option str) : option str :=
  match params with
  | None => None
  | Some ps =>
      foldl (λ branch param,
               match strip_prefix (lit "branch=") (trim param) with
               | Some b => Some b
               | None => branch
               end) None (split (chr ";") ps)
  end.

Definition parse_via (value : str) : outcome (str * str * option Z * option str) :=
  let parts := splitn 2 (chr " ") value in
  let transport := default (lit "SIP/2.0/UDP") (parts !! 0%nat) in
  let rest := default [] (parts !! 1%nat) in
  let host_and_params := splitn 2 (chr ";") rest in
  match host_and_params !! 0%nat with
  | None => Panic
  | Some hp =>
      let! hostport := parse_host_port hp in
      let (host, port) := default ([], None) (result_ok hostport) in
      Done (transport, host, port, via_branch (host_and_params !! 1%nat))
  end.

(** ** Retry-After (RFC 3261 section 20.33) *)

Record RetryAfter := mkRetryAfter {
  seconds : Z; comment : option str; duration : option Z }.

Fixpoint take_digits (x : str) : str :=
  match x with
  | [] => []
  | ch :: x' => if is_ascii_digit ch then ch :: take_digits x' else []
  end.

Definition retry_duration (rest : str) : option Z :=
  foldl (λ d part,
           match strip_prefix (lit "duration=") (trim part) with
           | Some val => parse_u32 (trim val)
           | None => d
           end) None (split (chr ";") rest).

Definition retry_comment (rest : str) : outcome (option str * str) :=
  if starts_with (lit "(") rest then
    match find_char (chr ")") rest with
    | Some end_paren =>
        let! cm := slice rest 1 end_paren in
        let! rest' := slice_from rest (end_paren + 1) in
        Done (Some cm, trim_start rest')
    | None => Done (None, rest)
    end
  else Done (None, rest).

Definition retry_after_parse (value : str) : outcome (option RetryAfter) :=
  let value := trim value in
  if str_eqb value [] then Done None else
  let seconds_str := take_digits value in
  match parse_u32 seconds_str with
  | None => Done None
  | Some secs =>
      let! rest := slice_from value (len seconds_str) in
      let! (cm, rest) := retry_comment (trim_start rest) in
      Done (Some (mkRetryAfter secs cm (retry_duration rest)))
  end.

Definition retry_after_from_message (m : SipMessage) : outcome (option RetryAfter) :=
  match get_header m RETRY_AFTER with
  | None => Done None
  | Some value => retry_after_parse value
  end.

(** ** The headers of a response *)

Lemma copied_header_name m h : h ∈ copied_headers m → hname h ∈ [VIA; FROM; TO; CALL_ID; CSEQ].
Proof.
  unfold copied_headers. intros Hh. apply list_elem_of_In, in_concat in Hh as (l & Hl & Hin).
  apply list_elem_of_In in Hl, Hin. apply list_elem_of_fmap in Hl as (n & -> & Hn).
  by apply list_elem_of_fmap in Hin as (v & -> & _).
Qed.

(** A response has no header of any other name but the content length. *)
Lemma response_header_other m name h :
  Forall (λ n, eq_ignore_ascii_case n name = false) [VIA; FROM; TO; CALL_ID; CSEQ; CONTENT_LENGTH] →
  h ∈ copied_headers m ++ [mkSipHeader CONTENT_LENGTH (lit "0")] → has_name name h = false.
Proof.
  intros Hall Hh. rewrite Forall_forall in Hall. apply Hall. apply elem_of_app in Hh as [Hh|Hh%list_elem_of_singleton].
  - apply copied_header_name in Hh. set_solver.
  - subst h. set_solver.
Qed.

(** ** The helpers never panic *)

Lemma extract_uri_returns v : returns (extract_uri v).
Proof.
  unfold extract_uri. destruct (find_char (chr "<") v) as [i|] eqn:Ei; [|eauto with rust].
  destruct (find_char (chr ">") v) as [j|] eqn:Ej; [|eauto with rust].
  destruct (N.ltb_spec i j) as [Hlt|]; [|eauto with rust].
  apply find_char_Some in Ei as (a & b & -> & <- & Ha).
  apply find_char_Some in Ej as (a' & b' & E & <- & Ha').
  (* the '>' comes after the '<', so it is inside [b] *)
  assert (∃ m, a' = a ++ chr "<" :: m ∧ b = m ++ chr ">" :: b') as (m & -> & ->).
  { apply app_eq_inv in E as [(k & -> & E)|(k & -> & E)].
    - destruct k as [|ch k]; simplify_eq/=. rewrite len_app in Hlt. lia.
    - destruct k as [|ch k]; simplify_eq/=. by exists k. }
  pose proof (slice_app (a ++ lit "<") m (chr ">" :: b')) as Hs.
  rewrite <-app_assoc in Hs.
  replace (len (a ++ chr "<" :: m)) with (len (a ++ lit "<") + len m)
    by (rewrite !len_app; simpl; lia).
  replace (len a + 1) with (len (a ++ lit "<")) by (rewrite len_app; reflexivity).
  change (a ++ chr "<" :: m ++ chr ">" :: b') with (a ++ lit "<" ++ m ++ chr ">" :: b').
  rewrite Hs. eauto with rust.
Qed.

Lemma splitn_2_head ch x : ∃ y, splitn 2 ch x !! 0%nat = Some y.
Proof. simpl. destruct (split_once ch x) as [[a b]|]; eauto. Qed.

Lemma parse_via_returns v : returns (parse_via v).
Proof.
  unfold parse_via. destruct (splitn_2_head (chr ";") (default [] (splitn 2 (chr " ") v !! 1%nat)))
    as [y ->].
  apply returns_bind; [eauto with rust|]. intros hp _. destruct (default _ _). eauto with rust.
Qed.

Lemma take_digits_prefix x : ∃ y, x = take_digits x ++ y.
Proof.
  induction x as [|ch x [y IH]]; simpl; [by exists []|].
  destruct (is_ascii_digit ch); [exists y; by rewrite IH at 1|by exists (ch :: x)].
Qed.

Lemma retry_comment_returns x : returns (retry_comment x).
Proof.
  unfold retry_comment. destruct (starts_with (lit "(") x) eqn:Hs; [|eauto with rust].
  apply starts_with_true in Hs as [y ->].
  destruct (find_char (chr ")") (lit "(" ++ y)) as [i|] eqn:Ei; [|eauto with rust].
  apply find_char_slices in Ei as (a & b & E & Hin & -> & _ & Hf); [|done].
  rewrite Hf, E. destruct a as [|ch a]; simplify_eq/=.
  rewrite (slice_between _ (chr ")")) by done. eauto with rust.
Qed.

Lemma retry_after_parse_returns v : returns (retry_after_parse v).
Proof.
  unfold retry_after_parse. destruct (str_eqb _ _); [eauto with rust|].
  destruct (parse_u32 _); [|eauto with rust].
  destruct (take_digits_prefix (trim v)) as [y Hy]. rewrite Hy at 1.
  rewrite slice_from_app. cbn [outcome_bind].
  apply returns_bind; [apply retry_comment_returns|]. intros [cm rest] _. eauto with rust.
Qed.
