(* ===== verification/SipVia.v ===== *)
(** * Via stamping ([asterisk-sip/src/parser/mod.rs])

    [SipMessage::stamp_via_received_rport] and [rewrite_top_via_entry].  The
    theorems: stamping never panics, it is idempotent, and it leaves everything
    but the first [Via] value unchanged. *)

From Stdlib Require Import NArith Ascii String.
From S2P Require Import Prelude RustStr HashMap SipUri SipMessage.
Local Open Scope N_scope.
Local Open Scope list_scope.

(** ** Via stamping (RFC 3261 section 18.2.1, RFC 3581 section 4) *)

(** A [SocketAddr], with its IP address in textual form. *)
Record SocketAddr := mkSocketAddr { ip : str; sa_port : Z }.

Definition parse_via_param (p : str) : option (str * option str) :=
  match trim p with
  | [] => None
  | p' => Some match split_once (chr "=") p' with
               | Some (k, v) => (trim k, Some (trim v))
               | None => (p', None)
               end
  end.

Definition show_via_param (kv : str * option str) : str :=
  match kv with
  | (k, Some v) => lit ";" ++ k ++ lit "=" ++ v
  | (k, None) => lit ";" ++ k
  end.

Definition key_is (name : str) (kv : str * option str) : bool :=
  eq_ignore_ascii_case kv.1 name.

(** Fill in a bare [rport]: only the first [rport] parameter is looked at. *)
Fixpoint fill_rport (src_port : str) (params : list (str * option str))
    : list (str * option str) :=
  match params with
  | [] => []
  | kv :: params' =>
      if key_is (lit "rport") kv then
        match kv.2 with None => (kv.1, Some src_port) | Some _ => kv end :: params'
      else kv :: fill_rport src_port params'
  end.

Definition sent_by_host_of (head : str) : str :=
  let sent_by := trim match rsplit_once (chr " ") head with
                      | Some (_, w) => w
                      | None => head
                      end in
  match rsplit_once (chr ":") sent_by with
  | Some (h, p) =>
      if negb (str_eqb p []) && forallb is_ascii_digit p then h else sent_by
  | None => sent_by
  end.

(** [let (head, params_str) = match entry.find(';') { .. }] *)
Definition split_via_entry (entry : str) : outcome (str * str) :=
  match find_char (chr ";") entry with
  | Some i =>
      let! head := slice_to entry i in
      let! params_str := slice_from entry (i + 1) in
      Done (trim_end head, params_str)
  | None => Done (entry, [])
  end.

(** From [let has_received = ..] to the [params.push]. *)
Definition stamp_params (sent_by_host : str) (src : SocketAddr)
    (params : list (str * option str)) : list (str * option str) :=
  let src_ip := ip src in
  let has_received := existsb (key_is (lit "received")) params in
  let client_wants_rport := existsb (key_is (lit "rport")) params in
  let params := fill_rport (show_int (sa_port src)) params in
  let need_received := client_wants_rport || negb (str_eqb sent_by_host src_ip) in
  if need_received && negb has_received
  then params ++ [(lit "received", Some src_ip)] else params.

Definition rewrite_top_via_entry (entry : str) (src : SocketAddr) : outcome str :=
  let entry := trim entry in
  let! (head, params_str) := split_via_entry entry in
  let sent_by_host := sent_by_host_of head in
  let params := omap parse_via_param (split (chr ";") params_str) in
  let params := stamp_params sent_by_host src params in
  Done (head ++ concat (show_via_param <$> params)).

Definition stamp_via_value (v : str) (src : SocketAddr) : outcome str :=
  match split_once (chr ",") v with
  | Some (top, rest) =>
      let! top' := rewrite_top_via_entry top src in
      Done (top' ++ lit "," ++ rest)
  | None => rewrite_top_via_entry v src
  end.

(** Rewrites the value of the first [Via] header in place. *)
Fixpoint stamp_headers (hs : list SipHeader) (src : SocketAddr) : outcome (list SipHeader) :=
  match hs with
  | [] => Done []
  | h :: hs' =>
      if has_name VIA h then
        let! v := stamp_via_value (hvalue h) src in
        Done (mkSipHeader (hname h) v :: hs')
      else
        let! hs'' := stamp_headers hs' src in Done (h :: hs'')
  end.

Definition stamp_via_received_rport (m : SipMessage) (src : SocketAddr) : outcome SipMessage :=
  let! hs := stamp_headers (headers m) src in
  Done (mkSipMessage (start_line m) hs (body m)).

(** ** Parameters in canonical form

    What the parameter parser produces, and what it reads back unchanged. *)

Definition via_param_text (kv : str * option str) : str :=
  match kv with (k, Some v) => k ++ lit "=" ++ v | (k, None) => k end.

Record param_canon (kv : str * option str) : Prop := {
  pc_key : trimmed kv.1 = true;
  pc_key_eq : chr "=" ∉ kv.1;
  pc_sep : chr ";" ∉ via_param_text kv;
  pc_val : ∀ v, kv.2 = Some v → trimmed v = true;
  pc_bare : kv.2 = None → kv.1 ≠ [];
}.

Lemma trimmed_mid a ch b :
  trimmed a = true → trimmed b = true → is_whitespace ch = false →
  trimmed (a ++ ch :: b) = true.
Proof.
  intros Ha Hb Hch. assert (Hc : trimmed [ch] = true) by (simpl; by rewrite Hch).
  destruct a as [|a0 a]; destruct b as [|b0 b]; try done.
  - by apply (trimmed_app [ch] [] (b0 :: b)).
  - by apply (trimmed_app (a0 :: a) [] [ch]).
  - by apply (trimmed_app (a0 :: a) [ch] (b0 :: b)).
Qed.

Lemma parse_via_param_eq p :
  parse_via_param p =
    if str_eqb (trim p) [] then None
    else Some match split_once (chr "=") (trim p) with
              | Some (k, v) => (trim k, Some (trim v))
              | None => (trim p, None)
              end.
Proof. unfold parse_via_param. by destruct (trim p). Qed.

Lemma parse_via_param_canon kv : param_canon kv → parse_via_param (via_param_text kv) = Some kv.
Proof.
  destruct kv as [k [v|]]; intros [Hk Heq Hsep Hv Hb]; rewrite parse_via_param_eq; simpl in *.
  - specialize (Hv v eq_refl). rewrite trim_trimmed by (by apply trimmed_mid).
    rewrite (proj2 (str_eqb_false _ _)) by (by destruct k).
    rewrite (proj2 (split_once_Some _ _ k v)) by done.
    by rewrite !trim_trimmed.
  - specialize (Hb eq_refl). rewrite trim_trimmed by done.
    rewrite (proj2 (str_eqb_false _ _)) by done. by rewrite (proj2 (split_once_None _ _)).
Qed.

Lemma parse_via_param_Some p kv : parse_via_param p = Some kv →
  chr ";" ∉ p → param_canon kv ∧ ∀ ch, ch ∈ via_param_text kv → ch ∈ p.
Proof.
  rewrite parse_via_param_eq. intros E Hp.
  assert (Hsub : ∀ ch, ch ∈ trim p → ch ∈ p) by (intros; by apply elem_of_trim).
  pose proof (trimmed_trim p) as Ht.
  destruct (str_eqb (trim p) []) eqn:Hne; [done|]. apply str_eqb_false in Hne.
  destruct (split_once (chr "=") (trim p)) as [[k v]|] eqn:Es; injection E as <-.
  - apply split_once_Some in Es as [Es Hk].
    assert (Hc : ∀ ch, ch ∈ via_param_text (trim k, Some (trim v)) → ch ∈ p).
    { simpl. intros ch. rewrite elem_of_app, elem_of_cons.
      intros [?%elem_of_trim|[->|?%elem_of_trim]]; apply Hsub; rewrite Es; set_solver. }
    split; [|done]. split; simpl in *.
    + apply trimmed_trim.
    + by intros ?%elem_of_trim.
    + intros Hin. by apply Hp, Hc.
    + intros ? [= <-]. apply trimmed_trim.
    + done.
  - apply split_once_None in Es. split; [|done]. split; simpl; try done.
    intros Hin. by apply Hp, Hsub.
Qed.

(** ** Stamping the parameter list *)

Section stamp.
Variable src : SocketAddr.
Let p := show_int (sa_port src).

Lemma existsb_key_fill name ps :
  existsb (key_is name) (fill_rport p ps) = existsb (key_is name) ps.
Proof.
  induction ps as [|kv ps IH]; [done|]. simpl. destruct (key_is (lit "rport") kv).
  - simpl. f_equal. by destruct kv as [k [v|]].
  - simpl. by rewrite IH.
Qed.

Lemma fill_rport_app_received ps v :
  fill_rport p (fill_rport p ps ++ [(lit "received", v)]) = fill_rport p ps ++ [(lit "received", v)].
Proof.
  induction ps as [|kv ps IH]; [done|]. simpl. destruct (key_is (lit "rport") kv) eqn:Hk.
  - simpl. by destruct kv as [k [w|]]; unfold key_is in *; simpl in *; rewrite Hk.
  - simpl. by rewrite Hk, IH.
Qed.

Lemma fill_rport_idemp ps : fill_rport p (fill_rport p ps) = fill_rport p ps.
Proof.
  induction ps as [|kv ps IH]; [done|]. simpl. destruct (key_is (lit "rport") kv) eqn:Hk.
  - simpl. by destruct kv as [k [w|]]; unfold key_is in *; simpl in *; rewrite Hk.
  - simpl. by rewrite Hk, IH.
Qed.

Lemma stamp_params_idemp h ps : stamp_params h src (stamp_params h src ps) = stamp_params h src ps.
Proof.
  unfold stamp_params. fold p.
  destruct (existsb (key_is (lit "rport")) ps || negb (str_eqb h (ip src))) eqn:Hneed;
    destruct (existsb (key_is (lit "received")) ps) eqn:Hrec; cbn [andb negb];
    rewrite ?existsb_app, ?existsb_key_fill, ?Hrec, ?orb_true_r, ?andb_false_r, ?Hneed;
    cbn [andb negb existsb]; rewrite ?andb_false_r; auto using fill_rport_idemp.
  apply fill_rport_app_received.
Qed.

(** Properties of the parameters preserved by stamping. *)
Lemma stamp_params_Forall (P : str * option str → Prop) h ps :
  (∀ k, P (k, None) → P (k, Some p)) → P (lit "received", Some (ip src)) →
  Forall P ps → Forall P (stamp_params h src ps).
Proof.
  intros Hfill Hrec Hps. unfold stamp_params. fold p.
  assert (Hf : Forall P (fill_rport p ps)).
  { induction Hps as [|[k v] ps Hk Hps IH]; simpl; [done|].
    destruct (key_is _ _); constructor; auto. destruct v; simpl; auto. }
  case_match; [|done]. apply Forall_app. auto using Forall_nil, Forall_cons.
Qed.
End stamp.

(** ** Entries *)

Definition via_entry (head : str) (ps : list (str * option str)) : str :=
  head ++ concat (show_via_param <$> ps).

Lemma show_via_params_eq ps :
  concat (show_via_param <$> ps)
  = match ps with [] => [] | _ => chr ";" :: join (chr ";") (via_param_text <$> ps) end.
Proof.
  rewrite <-(concat_sep via_param_text). f_equal. apply list_fmap_ext.
  intros i [k [v|]] _; reflexivity.
Qed.

Definition head_ok (h : str) : Prop := trimmed h = true ∧ chr ";" ∉ h.

Lemma split_via_entry_parse head ps :
  head_ok head → Forall param_canon ps →
  ∃ params_str, split_via_entry (via_entry head ps) = Done (head, params_str) ∧
    omap parse_via_param (split (chr ";") params_str) = ps.
Proof.
  intros [Ht Hsep] Hps. unfold via_entry, split_via_entry. rewrite show_via_params_eq.
  destruct ps as [|kv ps].
  - rewrite app_nil_r. rewrite (proj2 (find_char_None _ _)) by done. by exists [].
  - set (J := join (chr ";") (via_param_text <$> kv :: ps)). exists J.
    assert (Hf : find_char (chr ";") (head ++ chr ";" :: J) = Some (len head)).
    { apply find_char_Some. by exists head, J. }
    rewrite Hf. apply find_char_slices in Hf as (a & b & E & Ha & El & _ & Hb); [|done].
    rewrite Hb, slice_to_app. cbn [outcome_bind].
    assert (trim_end head = head) as ->.
    { destruct head as [|ch h _] using rev_ind; [done|]. apply trim_end_by_snoc.
      destruct (h ++ [ch]) as [|c0 h'] eqn:Eh; [by destruct h|]. unfold trimmed in Ht.
      rewrite <-Eh, last_snoc in Ht. apply andb_true_iff in Ht as [_ Ht].
      by apply negb_true_iff. }
    assert (b = J) as ->.
    { assert (Some (head, J) = Some (a, b)) as [= _ <-]; [|done].
      rewrite <-(proj2 (split_once_Some (chr ";") (head ++ chr ";" :: J) head J)) by done.
      by apply split_once_Some. }
    split; [done|]. unfold J. rewrite split_join; [|done|].
    + clear -Hps. induction Hps as [|kv' ps' Hk Hps IH]; [done|]. rewrite fmap_cons. cbn.
      rewrite (parse_via_param_canon _ Hk). f_equal. exact IH.
    + apply Forall_fmap. eapply Forall_impl; [exact Hps|]. intros kv' Hk. apply Hk.
Qed.

Lemma via_entry_trimmed head ps :
  head_ok head → Forall param_canon ps → trim (via_entry head ps) = via_entry head ps.
Proof.
  intros [Ht Hsep] Hps. apply trim_trimmed. unfold via_entry.
  induction ps as [|kv ps IH] using rev_ind; [by rewrite app_nil_r|].
  apply Forall_app in Hps as [Hps Hk].
  apply (proj1 (Forall_singleton _ _)) in Hk. specialize (IH Hps).
  rewrite fmap_app, concat_app. simpl. rewrite app_nil_r, app_assoc.
  assert (Hshow : show_via_param kv = chr ";" :: via_param_text kv) by (by destruct kv as [k [v|]]).
  rewrite Hshow. apply trimmed_mid; [done| |done].
  destruct kv as [k [v|]]; destruct Hk as [H1 H2 H3 H4 H5]; simpl in *; [|done].
  apply trimmed_mid; auto.
Qed.

(** ** Stamping is total and idempotent *)

(** An address text that cannot be confused with the entry's delimiters. *)
Definition addr_ok (src : SocketAddr) : bool :=
  plain (lit ";,=") (ip src) && (0 <=? sa_port src)%Z.

Lemma stamped_canon src k :
  addr_ok src = true → param_canon (k, None) → param_canon (k, Some (show_int (sa_port src))).
Proof.
  unfold addr_ok. intros Ha [H1 H2 H3 _ H5]. split_bools. assert (0 ≤ sa_port src)%Z by lia.
  split; simpl in *; try done.
  - rewrite not_elem_of_app, not_elem_of_cons. split_and!; [done|done|].
    by apply show_int_no_sep.
  - intros v [= <-]. apply trimmed_no_ws. intros ch Hin%elem_of_show_int%digit_bounds; [|done].
    unfold is_whitespace. apply not_true_iff_false. intros Hc.
    repeat (apply orb_true_iff in Hc as [Hc|Hc]);
      rewrite ?andb_true_iff, ?N.leb_le, ?N.eqb_eq in Hc; lia.
Qed.

Lemma received_canon src :
  addr_ok src = true → param_canon (lit "received", Some (ip src)).
Proof.
  unfold addr_ok. intros Ha. split_bools. split; simpl; try done.
  - in_lit.
  - rewrite !not_elem_of_cons. split_and!; try done. eapply plain_not_in; [done|in_lit].
  - intros v [= <-]. apply trimmed_no_ws. intros ch. by apply plain_no_ws with (lit ";,=").
Qed.

Lemma rewrite_entry_form entry src e' :
  addr_ok src = true → rewrite_top_via_entry entry src = Done e' →
  ∃ head ps, e' = via_entry head (stamp_params (sent_by_host_of head) src ps) ∧
    head_ok head ∧ Forall param_canon ps ∧
    (∀ ch, ch ∈ head → ch ∈ entry) ∧
    Forall (λ kv, ∀ ch, ch ∈ via_param_text kv → ch ∈ entry) ps.
Proof.
  intros Ha. unfold rewrite_top_via_entry.
  destruct (split_via_entry (trim entry)) as [[head params_str]|] eqn:Es; [|done].
  cbn [outcome_bind]. intros [= <-].
  set (ps := omap parse_via_param (split (chr ";") params_str)). exists head, ps.
  assert (Hsub : ∀ ch, ch ∈ trim entry → ch ∈ entry) by (intros; by apply elem_of_trim).
  assert (Hform : head_ok head ∧ (∀ ch, ch ∈ head → ch ∈ trim entry) ∧
                  (∀ ch, ch ∈ params_str → ch ∈ trim entry)).
  { unfold split_via_entry in Es. destruct (find_char _ _) as [i|] eqn:Ef.
    - apply find_char_slices in Ef as (a & b & E & Hin & -> & E1 & E2); [|done].
      rewrite E1, E2 in Es. simpl in Es. injection Es as <- <-.
      destruct (trim_end_by_split is_whitespace a) as (w & Ew & _ & Hw).
      change (trim_end_by is_whitespace a) with (trim_end a) in Ew, Hw.
      split_and!; [split| |].
      + pose proof (trimmed_trim entry) as Ht. rewrite E in Ht. rewrite Ew in Ht.
        destruct (trim_end a) as [|c0 h] eqn:Eh; [done|]. unfold trimmed in Ht |- *.
        rewrite <-!app_comm_cons in Ht. apply andb_true_iff in Ht as [-> _]. simpl.
        destruct (last (c0 :: h)) as [ch'|] eqn:El; [|done].
        apply last_inv in El as [y Ey]. apply negb_true_iff. by apply (Hw y).
      + intros Hc. apply Hin. rewrite Ew. set_solver.
      + intros ch Hc. rewrite E, Ew. set_solver.
      + intros ch Hc. rewrite E. set_solver.
    - injection Es as <- <-. apply find_char_None in Ef.
      split_and!; [split; [apply trimmed_trim|done]|done|by intros ? ?%not_elem_of_nil]. }
  destruct Hform as (Hh & Hhs & Hpstr).
  assert (Hpieces : Forall (λ kv, param_canon kv ∧ ∀ ch, ch ∈ via_param_text kv → ch ∈ entry) ps).
  { apply Forall_forall. intros kv (q & Hq & Hp)%list_elem_of_omap.
    apply parse_via_param_Some in Hp as [Hc Hin].
    - split; [done|]. intros ch Hch. by apply Hsub, Hpstr, (elem_of_split _ _ _ _ Hq), Hin.
    - intros Hs. by destruct (elem_of_split _ _ _ _ Hq Hs). }
  apply Forall_and in Hpieces as [Hc Hin]. split_and!; auto.
Qed.

Lemma rewrite_entry_again head ps src :
  addr_ok src = true → head_ok head → Forall param_canon ps →
  let e := via_entry head (stamp_params (sent_by_host_of head) src ps) in
  rewrite_top_via_entry e src = Done e.
Proof.
  intros Ha Hh Hps e.
  assert (Hst : Forall param_canon (stamp_params (sent_by_host_of head) src ps)).
  { apply stamp_params_Forall; [|by apply received_canon|done].
    intros k. by apply stamped_canon. }
  unfold rewrite_top_via_entry, e. rewrite via_entry_trimmed by done.
  destruct (split_via_entry_parse head _ Hh Hst) as (pstr & -> & Hom).
  cbn [outcome_bind]. rewrite Hom, stamp_params_idemp. done.
Qed.

Lemma rewrite_entry_no_comma entry src e' :
  addr_ok src = true → rewrite_top_via_entry entry src = Done e' →
  chr "," ∉ entry → chr "," ∉ e'.
Proof.
  intros Ha He Hc. destruct (rewrite_entry_form _ _ _ Ha He) as (head & ps & -> & _ & _ & Hh & Hps).
  assert (Hst : Forall (λ kv, chr "," ∉ via_param_text kv)
                       (stamp_params (sent_by_host_of head) src ps)).
  { unfold addr_ok in Ha. split_bools. apply stamp_params_Forall.
    - intros k Hk. simpl in *. rewrite not_elem_of_app, not_elem_of_cons. split_and!; [done|done|].
      apply show_int_no_sep; [lia|done].
    - simpl. rewrite !not_elem_of_cons. split_and!; try done. eapply plain_not_in; [done|in_lit].
    - eapply Forall_impl; [exact Hps|]. simpl. intros kv Hk Hin. by apply Hc, Hk. }
  unfold via_entry. rewrite show_via_params_eq, not_elem_of_app. split; [by intros ?%Hh|].
  destruct (stamp_params _ _ _) as [|kv l]; [apply not_elem_of_nil|].
  rewrite not_elem_of_cons. split; [done|].
  intros [?|(q & Hq & Hin)]%elem_of_join; [done|].
  apply list_elem_of_fmap in Hq as (kv' & -> & Hkv). rewrite Forall_forall in Hst.
  by apply (Hst _ Hkv).
Qed.

Lemma rewrite_entry_returns entry src : returns (rewrite_top_via_entry entry src).
Proof.
  unfold rewrite_top_via_entry. apply returns_bind; [|intros []; eauto with rust].
  unfold split_via_entry. destruct (find_char _ _) as [i|] eqn:Ef; [|eauto with rust].
  apply find_char_slices in Ef as (a & b & _ & _ & -> & -> & ->); [|done]. eauto with rust.
Qed.

Lemma stamp_value_idemp v src v' :
  addr_ok src = true → stamp_via_value v src = Done v' → stamp_via_value v' src = Done v'.
Proof.
  intros Ha. unfold stamp_via_value at 1.
  assert (Hagain : ∀ e e', rewrite_top_via_entry e src = Done e' →
                           rewrite_top_via_entry e' src = Done e').
  { intros e e' (head & ps & -> & Hh & Hps & _)%rewrite_entry_form; [|done].
    by apply rewrite_entry_again. }
  destruct (split_once _ v) as [[top rest]|] eqn:Es.
  - apply split_once_Some in Es as [-> Htop].
    rewrite outcome_bind_Done. intros (top' & Ht & [= <-]).
    unfold stamp_via_value. rewrite (proj2 (split_once_Some _ _ top' rest)).
    + by rewrite (Hagain _ _ Ht).
    + split; [done|]. by eapply rewrite_entry_no_comma.
  - apply split_once_None in Es. intros Hv. unfold stamp_via_value.
    rewrite (proj2 (split_once_None _ _)) by by eapply rewrite_entry_no_comma.
    by eapply Hagain.
Qed.

Lemma stamp_headers_returns hs src : returns (stamp_headers hs src).
Proof.
  induction hs as [|h hs [hs' E]]; simpl; [eauto with rust|]. destruct (has_name VIA h).
  - apply returns_bind; [|eauto with rust]. unfold stamp_via_value.
    destruct (split_once _ _) as [[top rest]|]; [|apply rewrite_entry_returns].
    apply returns_bind; [apply rewrite_entry_returns|eauto with rust].
  - rewrite E. simpl. eauto with rust.
Qed.

Lemma stamp_headers_idemp hs src hs' :
  addr_ok src = true → stamp_headers hs src = Done hs' → stamp_headers hs' src = Done hs'.
Proof.
  intros Ha. revert hs'; induction hs as [|h hs IH]; intros hs'; simpl; [by intros [= <-]|].
  destruct (has_name VIA h) eqn:Hn; rewrite outcome_bind_Done.
  - intros (v & Hv & [= <-]). simpl. change (has_name VIA (mkSipHeader (hname h) v)) with (has_name VIA h).
    by rewrite Hn, (stamp_value_idemp _ _ _ Ha Hv).
  - intros (hs1 & Hh & [= <-]). simpl. by rewrite Hn, (IH _ Hh).
Qed.

(** Stamping keeps the header names, every header that is not a [Via], and every
    [Via] after the first. *)
Lemma stamp_headers_frame hs src hs' :
  stamp_headers hs src = Done hs' →
  hname <$> hs' = hname <$> hs ∧
  List.filter (λ h, negb (has_name VIA h)) hs' = List.filter (λ h, negb (has_name VIA h)) hs ∧
  tail (hvalue <$> List.filter (has_name VIA) hs') = tail (hvalue <$> List.filter (has_name VIA) hs).
Proof.
  revert hs'; induction hs as [|h hs IH]; intros hs'; simpl; [by intros [= <-]|].
  destruct (has_name VIA h) eqn:Hn; rewrite outcome_bind_Done.
  - intros (v & Hv & [= <-]). simpl.
    change (has_name VIA (mkSipHeader (hname h) v)) with (has_name VIA h). by rewrite Hn.
  - intros (hs1 & Hh & [= <-]). simpl. rewrite Hn. simpl.
    destruct (IH _ Hh) as (H1 & H2 & H3).
    split_and!; [by f_equal|by f_equal|done].
Qed.

(** ** Properties *)

(** [stamp_via_received_rport] always returns, changes nothing but the
    values of headers (in fact of the first [Via]), and is idempotent: applying it again with the
    same source address changes nothing, as its comment promises. *)
Theorem stamp_via_idempotent (m : SipMessage) (src : SocketAddr) :
  addr_ok src = true →
  ∃ m', stamp_via_received_rport m src = Done m' ∧
        stamp_via_received_rport m' src = Done m' ∧
        start_line m' = start_line m ∧ body m' = body m ∧
        hname <$> headers m' = hname <$> headers m ∧
        List.filter (λ h, negb (has_name VIA h)) (headers m')
          = List.filter (λ h, negb (has_name VIA h)) (headers m) ∧
        tail (get_headers m' VIA) = tail (get_headers m VIA).
Proof.
  intros Ha. destruct (stamp_headers_returns (headers m) src) as [hs Hs].
  exists (mkSipMessage (start_line m) hs (body m)).
  unfold stamp_via_received_rport. rewrite Hs. simpl.
  rewrite (stamp_headers_idemp _ _ _ Ha Hs). destruct (stamp_headers_frame _ _ _ Hs) as (H1 & H2 & H3).
  split_and!; done.
Qed.

Definition example_via : SipMessage :=
  add_header (add_header (new_response 200 (lit "OK"))
    (lit "v") (lit "SIP/2.0/UDP pc33.atlanta.com;rport;branch=z9hG4bK776,SIP/2.0/UDP second"))
    (lit "Via") (lit "SIP/2.0/UDP third").

Lemma stamp_via_idempotent_witness :
  let src := mkSocketAddr (lit "192.0.2.4") 5061%Z in
  addr_ok src = true ∧
  ∃ m', stamp_via_received_rport example_via src = Done m' ∧
        stamp_via_received_rport m' src = Done m' ∧ start_line m' = start_line example_via.
Proof.
  split; [vm_compute; reflexivity|].
  destruct (stamp_via_idempotent example_via (mkSocketAddr (lit "192.0.2.4") 5061%Z))
    as (m' & H1 & H2 & H3 & _); [vm_compute; reflexivity|]. by exists m'.
Defined.
