(* ===== verification/SipParser.v ===== *)
(** * The SIP message parser ([asterisk-sip/src/parser/mod.rs])

    [parse_message], [parse_start_line] and the size limits.  The theorems: the
    parser never panics, its result respects the limits, and it inverts
    [SipMessage.display] on well-formed messages. *)

From Stdlib Require Import NArith Ascii String.
From S2P Require Import Prelude RustStr HashMap SipUri SipMessage SipVia.
Local Open Scope N_scope.
Local Open Scope list_scope.

Definition MAX_CONTENT_LENGTH : Z := 65536.
Definition MAX_HEADER_COUNT : nat := 256.
Definition MAX_HEADER_VALUE_LEN : N := 8192.

Section parser.
Context `{UnicodeCase}.

Definition parse_start_line (line : str) : outcome (result ParseError StartLine) :=
  if starts_with (lit "SIP/") line then
    match splitn 3 (chr " ") line with
    | [version; code; reason] =>
        match parse_u16 code with
        | Some status_code =>
            Done (Ok (Response (mkStatusLine version status_code reason)))
        | None => Done (Err (mkParseError (lit "Invalid status code: " ++ code)))
        end
    | _ => Done (Err (mkParseError (lit "Invalid status line: " ++ line)))
    end
  else
    match splitn 3 (chr " ") line with
    | [meth; uri; version] =>
        match from_name meth with
        | None => Done (Err (mkParseError (lit "Unknown SIP method: " ++ meth)))
        | Some m =>
            let!? u := uri_parse uri in
            Done (Ok (Request (mkRequestLine m u version)))
        end
    | _ => Done (Err (mkParseError (lit "Invalid request line: " ++ line)))
    end.

Definition header_too_long (name : str) : ParseError :=
  mkParseError (lit "Header '" ++ name ++ lit "' value exceeds maximum length ("
                ++ show_int (Z.of_N MAX_HEADER_VALUE_LEN) ++ lit ")").

(** Folding: append a continuation line to the last header, if there is one. *)
Definition fold_header (hs : list SipHeader) (line : str)
    : result ParseError (list SipHeader) :=
  match last hs with
  | None => Ok hs
  | Some h =>
      let v := hvalue h ++ lit " " ++ trim line in
      if MAX_HEADER_VALUE_LEN <? len v then Err (header_too_long (hname h))
      else Ok (removelast hs ++ [mkSipHeader (hname h) v])
  end.

Definition push_header (hs : list SipHeader) (line : str)
    : result ParseError (list SipHeader) :=
  match split_once (chr ":") line with
  | None => Ok hs
  | Some (name, value) =>
      let name := expand_compact_header (trim name) in
      let value := trim value in
      if MAX_HEADER_VALUE_LEN <? len value then Err (header_too_long name)
      else Ok (hs ++ [mkSipHeader name value])
  end.

Definition is_folded (line : str) : bool :=
  starts_with (lit " ") line || starts_with [9] line.

(** The header loop, over the lines after the start line. *)
Fixpoint parse_headers (hs : list SipHeader) (lines : list str)
    : result ParseError (list SipHeader) :=
  match lines with
  | [] => Ok hs
  | raw :: lines' =>
      let line := trim_end_char 13 raw in
      match line with
      | [] => Ok hs
      | _ =>
          if is_folded line then
            let? hs' := fold_header hs line in parse_headers hs' lines'
          else if (MAX_HEADER_COUNT <=? length hs)%nat then
            Err (mkParseError (lit "Too many headers (max "
                               ++ show_int (Z.of_nat MAX_HEADER_COUNT) ++ lit ")"))
          else
            let? hs' := push_header hs line in parse_headers hs' lines'
      end
  end.

(** Headers from body: at the first blank line, CRLF first, then LF. *)
Definition split_body (text : str) : outcome (str * str) :=
  match find (CRLF ++ CRLF) text with
  | Some pos =>
      let! h := slice_to text pos in
      let! b := slice_from text (pos + 4) in Done (h, b)
  | None =>
      match find [10; 10] text with
      | Some pos =>
          let! h := slice_to text pos in
          let! b := slice_from text (pos + 2) in Done (h, b)
      | None => Done (text, [])
      end
  end.

Definition content_length (hs : list SipHeader) : option Z :=
  h ← List.find (has_name (lit "content-length")) hs; parse_usize (trim (hvalue h)).

Definition extract_body (hs : list SipHeader) (b : str) : result ParseError str :=
  match content_length hs with
  | None => Ok b
  | Some cl =>
      if (MAX_CONTENT_LENGTH <? cl)%Z then
        Err (mkParseError (lit "Content-Length " ++ show_int cl
               ++ lit " exceeds maximum allowed (" ++ show_int MAX_CONTENT_LENGTH ++ lit ")"))
      else if ((0 <? cl) && (cl <=? Z.of_N (len b)))%Z then
        match get_to b (Z.to_N cl) with
        | Some truncated => Ok truncated
        | None => Ok b
        end
      else Ok b
  end.

Definition parse_message (text : str) : outcome (result ParseError SipMessage) :=
  let! (header_section, b) := split_body text in
  match split 10 header_section with
  | [] => Done (Err (mkParseError (lit "Empty message")))
  | first :: rest =>
      let first_line := trim (trim_end_char 13 first) in
      match first_line with
      | [] => Done (Err (mkParseError (lit "Empty start line")))
      | _ =>
          let!? sl := parse_start_line first_line in
          let!? hs := Done (parse_headers [] rest) in
          let!? b' := Done (extract_body hs b) in
          Done (Ok (mkSipMessage sl hs b'))
      end
  end.
End parser.

(** ** The parser never panics *)

Lemma slices_around_find pat x i :
  find pat x = Some i →
  ∃ a b, x = a ++ pat ++ b ∧ slice_to x i = Done a ∧ slice_from x (i + len pat) = Done b.
Proof.
  intros (a & b & -> & <-)%find_Some. exists a, b. split_and!; [done|apply slice_to_app|].
  rewrite app_assoc, <-len_app. apply slice_from_app.
Qed.

Lemma split_body_returns text : returns (split_body text).
Proof.
  unfold split_body. destruct (find (CRLF ++ CRLF) text) as [pos|] eqn:E.
  - apply slices_around_find in E as (a & b & _ & -> & Hb). cbn [outcome_bind].
    change (len (CRLF ++ CRLF)) with 4 in Hb. rewrite Hb. eauto with rust.
  - destruct (find [10; 10] text) as [pos|] eqn:E'; [|eauto with rust].
    apply slices_around_find in E' as (a & b & _ & -> & Hb). cbn [outcome_bind].
    change (len [10; 10]) with 2 in Hb. rewrite Hb. eauto with rust.
Qed.

Lemma parse_start_line_returns `{UnicodeCase} line : returns (parse_start_line line).
Proof.
  unfold parse_start_line. repeat case_match; eauto with rust.
  apply returns_try; eauto with rust.
Qed.
#[export] Hint Resolve split_body_returns parse_start_line_returns : rust.

Lemma parse_message_returns `{UnicodeCase} text : returns (parse_message text).
Proof.
  unfold parse_message. apply returns_bind; [eauto with rust|]. intros [hdrs b] _.
  repeat case_match; eauto with rust.
  apply returns_try; [eauto with rust|]. intros sl _.
  apply returns_try; [eauto with rust|]. intros hs _.
  apply returns_try; eauto with rust.
Qed.

(** ** Size limits *)

Definition headers_bounded (hs : list SipHeader) : Prop :=
  (length hs ≤ MAX_HEADER_COUNT)%nat ∧
  Forall (λ h, len (hvalue h) ≤ MAX_HEADER_VALUE_LEN) hs.

Lemma fold_header_bounded hs line hs' :
  headers_bounded hs → fold_header hs line = Ok hs' → headers_bounded hs'.
Proof.
  unfold fold_header. intros Hb. destruct (last hs) as [h|] eqn:El; [|by intros [= <-]].
  case_match eqn:Hlen; [done|]. intros [= <-]. apply last_inv in El as [hs0 ->].
  rewrite removelast_last. destruct Hb as [Hc Hv]. apply Forall_app in Hv as [Hv _].
  split; [by rewrite length_app in *|].
  apply Forall_app; split; [done|]. apply Forall_singleton. simpl.
  by apply N.ltb_ge in Hlen.
Qed.

Lemma push_header_bounded hs line hs' :
  headers_bounded hs → (length hs < MAX_HEADER_COUNT)%nat →
  push_header hs line = Ok hs' → headers_bounded hs'.
Proof.
  unfold push_header. intros [Hc Hv] Hlt. destruct (split_once _ line) as [[name value]|].
  - case_match eqn:Hlen; [done|]. intros [= <-]. split.
    + rewrite length_app. simpl. lia.
    + apply Forall_app; split; [done|]. apply Forall_singleton. by apply N.ltb_ge in Hlen.
  - intros [= <-]. done.
Qed.

Lemma parse_headers_bounded lines hs hs' :
  headers_bounded hs → parse_headers hs lines = Ok hs' → headers_bounded hs'.
Proof.
  revert hs; induction lines as [|raw lines IH]; intros hs Hb; cbn [parse_headers]; [by intros [= <-]|].
  destruct (trim_end_char 13 raw) as [|ch line] eqn:Hl; [by intros [= <-]|].
  destruct (is_folded _).
  - rewrite result_bind_Ok. intros (hs1 & H1 & H2). eauto using fold_header_bounded.
  - destruct (Nat.leb_spec MAX_HEADER_COUNT (length hs)); [done|].
    rewrite result_bind_Ok. intros (hs1 & H1 & H2). eauto using push_header_bounded.
Qed.

Lemma get_to_len x i y : get_to x i = Some y → len y = i.
Proof.
  unfold get_to. destruct (split_at x i) as [[a b]|] eqn:E; simpl; [|done].
  intros [= <-]. by apply split_at_Some in E as [_ ?].
Qed.

(** ** Round trip *)

Definition no_crlf (x : str) : bool :=
  negb (contains_char 13 x) && negb (contains_char 10 x).

Definition header_wf (h : SipHeader) : bool :=
  negb (str_eqb (hname h) []) && trimmed (hname h) && negb (contains_char (chr ":") (hname h))
  && no_crlf (hname h) && str_eqb (expand_compact_header (hname h)) (hname h)
  && trimmed (hvalue h) && no_crlf (hvalue h) && (len (hvalue h) <=? MAX_HEADER_VALUE_LEN).

Definition start_line_wf `{UnicodeCase} (l : StartLine) : bool :=
  match l with
  | Request r =>
      uri_wf (rl_uri r) && negb (str_eqb (rl_version r) []) && trimmed (rl_version r)
      && no_crlf (rl_version r)
  | Response r =>
      starts_with (lit "SIP/") (sl_version r) && negb (contains_char (chr " ") (sl_version r))
      && no_crlf (sl_version r)
      && (0 <=? sl_status_code r)%Z && (sl_status_code r <? 65536)%Z
      && negb (str_eqb (sl_reason_phrase r) []) && trimmed (sl_reason_phrase r)
      && no_crlf (sl_reason_phrase r)
  end.

Definition body_wf (hs : list SipHeader) (b : str) : bool :=
  match content_length hs with
  | None => true
  | Some cl => (cl =? Z.of_N (len b))%Z && (cl <=? MAX_CONTENT_LENGTH)%Z
  end.

Definition message_wf `{UnicodeCase} (m : SipMessage) : bool :=
  start_line_wf (start_line m) && forallb header_wf (headers m)
  && (length (headers m) <=? MAX_HEADER_COUNT)%nat && body_wf (headers m) (body m).

Lemma no_crlf_spec x : no_crlf x = true → ((13 : char) ∉ x) ∧ ((10 : char) ∉ x).
Proof.
  unfold no_crlf, contains_char. intros [H1 H2]%andb_true_iff. split; intros Hin%list_elem_of_In.
  - apply negb_true_iff, not_true_iff_false in H1. apply H1, existsb_exists. by eexists.
  - apply negb_true_iff, not_true_iff_false in H2. apply H2, existsb_exists. by eexists.
Qed.

Lemma contains_char_false ch x : negb (contains_char ch x) = true → ch ∉ x.
Proof.
  unfold contains_char. intros H%negb_true_iff Hin%list_elem_of_In.
  apply not_true_iff_false in H. apply H, existsb_exists. exists ch.
  split; [done|apply N.eqb_refl].
Qed.

Lemma starts_with_cons_ne p pat ch x : p ≠ ch → starts_with (p :: pat) (ch :: x) = false.
Proof.
  intros Hne. unfold starts_with. apply bool_decide_eq_false. simpl.
  destruct (N.eqb_spec p ch); [done|]. by intros [? ?].
Qed.

Lemma find_skip p pat a x :
  p ∉ a → find (p :: pat) (a ++ x) = N.add (len a) <$> find (p :: pat) x.
Proof.
  induction a as [|ch a IH]; intros Hp.
  - simpl. by destruct (find _ x).
  - cbn [app find]. rewrite starts_with_cons_ne by set_solver.
    rewrite IH by set_solver. destruct (find _ x); simpl; [f_equal; lia|done].
Qed.

(** Lines ended by CRLF, and the same lines separated by CRLF. *)
Definition crlf_lines (ls : list str) : str := concat ((λ l, l ++ CRLF) <$> ls).
Fixpoint crlf_join (ls : list str) : str :=
  match ls with [] => [] | [l] => l | l :: ls' => l ++ CRLF ++ crlf_join ls' end.

Lemma crlf_lines_join l ls : crlf_lines (l :: ls) = crlf_join (l :: ls) ++ CRLF.
Proof.
  revert l; induction ls as [|l' ls IH]; intros l; [by rewrite <-app_nil_r|].
  change (crlf_lines (l :: l' :: ls)) with ((l ++ CRLF) ++ crlf_lines (l' :: ls)).
  rewrite IH. change (crlf_join (l :: l' :: ls)) with (l ++ CRLF ++ crlf_join (l' :: ls)).
  by rewrite <-!app_assoc.
Qed.

Definition line_ok (l : str) : Prop := l ≠ [] ∧ ((13 : char) ∉ l) ∧ ((10 : char) ∉ l).

Lemma find_blank_line l ls b :
  Forall line_ok (l :: ls) →
  find (CRLF ++ CRLF) (crlf_lines (l :: ls) ++ CRLF ++ b) = Some (len (crlf_join (l :: ls))).
Proof.
  revert l; induction ls as [|l' ls IH]; intros l Hok;
    apply Forall_cons in Hok as [(Hne & H13 & H10) Hok].
  - change (crlf_lines [l]) with ((l ++ CRLF) ++ []). rewrite app_nil_r, <-app_assoc.
    change (CRLF ++ CRLF) with (13 :: ([10; 13; 10] : str)).
    rewrite find_skip by done. simpl. f_equal. lia.
  - change (crlf_lines (l :: l' :: ls)) with ((l ++ CRLF) ++ crlf_lines (l' :: ls)).
    rewrite <-!app_assoc. change (CRLF ++ CRLF) with (13 :: ([10; 13; 10] : str)).
    rewrite find_skip by done.
    specialize (IH l' Hok). apply Forall_cons in Hok as [(Hne' & H13' & _) _].
    assert (Hcr : ∀ y, find (13 :: [10; 13; 10]) (CRLF ++ (l' ++ y))
                       = N.add 2 <$> find (13 :: [10; 13; 10]) (l' ++ y)).
    { intros y. destruct l' as [|ch l']; [done|]. cbn [app CRLF find].
      rewrite (starts_with_cons_ne 13 _ 10) by done.
      replace (starts_with [13; 10; 13; 10] (13 :: 10 :: ch :: l' ++ y)) with false.
      2:{ symmetry. apply bool_decide_eq_false. simpl.
          destruct (N.eqb_spec 13 ch) as [<-|]; [set_solver|]. by intros [? ?]. }
      change (if starts_with [13; 10; 13; 10] (ch :: l' ++ y) then Some 0
              else N.add (len_utf8 ch) <$> find [13; 10; 13; 10] (l' ++ y))
        with (find (13 :: [10; 13; 10]) (ch :: l' ++ y)).
      change (len_utf8 13) with 1. change (len_utf8 10) with 1.
      destruct (find _ (ch :: l' ++ y)) as [n|]; [|done]. apply (f_equal Some). lia. }
    change (crlf_lines (l' :: ls)) with ((l' ++ CRLF) ++ crlf_lines ls) in IH |- *.
    rewrite <-!app_assoc in IH |- *. rewrite Hcr.
    change (CRLF ++ CRLF) with (13 :: ([10; 13; 10] : str)) in IH. rewrite IH.
    change (crlf_join (l :: l' :: ls)) with (l ++ CRLF ++ crlf_join (l' :: ls)).
    apply (f_equal Some). rewrite !len_app. change (len CRLF) with 2. lia.
Qed.

Lemma trim_end_char_cr l : ((13 : char) ∉ l) → trim_end_char 13 l = l ∧ trim_end_char 13 (l ++ [13]) = l.
Proof.
  intros Hl%trim_end_char_id. split; [done|]. unfold trim_end_char in *.
  by rewrite trim_end_by_app.
Qed.

Lemma split_crlf_join l ls :
  Forall line_ok (l :: ls) → trim_end_char 13 <$> split 10 (crlf_join (l :: ls)) = l :: ls.
Proof.
  revert l; induction ls as [|l' ls IH]; intros l Hok;
    apply Forall_cons in Hok as [(Hne & H13 & H10) Hok].
  - simpl crlf_join. rewrite split_no_sep by done. simpl. by rewrite (proj1 (trim_end_char_cr l H13)).
  - change (crlf_join (l :: l' :: ls)) with (l ++ [13] ++ 10 :: crlf_join (l' :: ls)).
    rewrite app_assoc, split_app by set_solver. rewrite fmap_cons, IH by done.
    by rewrite (proj2 (trim_end_char_cr l H13)).
Qed.

Lemma parse_headers_trimmed hs raws :
  Forall (λ l, (13 : char) ∉ l) (trim_end_char 13 <$> raws) →
  parse_headers hs raws = parse_headers hs (trim_end_char 13 <$> raws).
Proof.
  revert hs; induction raws as [|raw raws IH]; intros hs Hr; [done|].
  rewrite fmap_cons in Hr |- *. apply Forall_cons in Hr as [H13 Hr].
  cbn [parse_headers]. rewrite (proj1 (trim_end_char_cr _ H13)).
  destruct (trim_end_char 13 raw); [done|].
  destruct (is_folded _); [destruct (fold_header _ _)|
    destruct (_ <=? _)%nat; [done|destruct (push_header _ _)]]; simpl; auto.
Qed.

Lemma header_wf_push hs h :
  header_wf h = true → push_header hs (header_display h) = Ok (hs ++ [h]).
Proof.
  unfold header_wf. intros Hwf. split_bools.
  assert (Hc : chr ":" ∉ hname h) by (by apply contains_char_false, negb_true_iff).
  unfold push_header, header_display.
  rewrite (proj2 (split_once_Some _ _ (hname h) (lit " " ++ hvalue h))) by done.
  rewrite (trim_trimmed (hname h)) by done.
  rewrite (bool_decide_eq_true_1 (expand_compact_header (hname h) = hname h)) by done.
  rewrite <-(app_nil_r (hvalue h)), (trim_padded (lit " ") (hvalue h) []) by done.
  rename select ((_ <=? _) = true) into Hl. apply N.leb_le in Hl.
  destruct (N.ltb_spec MAX_HEADER_VALUE_LEN (len (hvalue h))); [lia|].
  by destruct h.
Qed.

Lemma header_wf_line h : header_wf h = true →
  line_ok (header_display h) ∧ is_folded (header_display h) = false ∧
  ∃ ch l, header_display h = ch :: l.
Proof.
  unfold header_wf. intros Hwf. split_bools.
  destruct (no_crlf_spec (hname h)); [done|]. destruct (no_crlf_spec (hvalue h)); [done|].
  assert (Hw : ∃ ch n, hname h = ch :: n ∧ is_whitespace ch = false).
  { destruct (hname h) as [|ch n]; [done|]. exists ch, n. split; [done|].
    rename select (trimmed (ch :: n) = true) into Ht. unfold trimmed in Ht.
    apply andb_true_iff in Ht as [Ht _]. by apply negb_true_iff. }
  destruct Hw as (ch & n & En & Hch). unfold header_display. split_and!.
  - split_and!; [by rewrite En|set_solver..].
  - rewrite En. unfold is_folded. cbn [app].
    rewrite !starts_with_cons_ne; [done|by intros <-..].
  - rewrite En. by eexists _, _.
Qed.

Lemma parse_headers_display hs hs' :
  forallb header_wf hs' = true → (length hs + length hs' ≤ MAX_HEADER_COUNT)%nat →
  parse_headers hs (header_display <$> hs') = Ok (hs ++ hs').
Proof.
  revert hs; induction hs' as [|h hs' IH]; intros hs Hwf Hc; [by rewrite app_nil_r|].
  simpl in Hwf. apply andb_true_iff in Hwf as [Hh Hwf].
  destruct (header_wf_line h Hh) as ((_ & H13 & _) & Hf & ch & l & El).
  rewrite fmap_cons. cbn [parse_headers]. rewrite (proj1 (trim_end_char_cr _ H13)).
  rewrite El, <-El, Hf. simpl in Hc.
  destruct (Nat.leb_spec MAX_HEADER_COUNT (length hs)); [lia|].
  rewrite header_wf_push by done. cbn [result_bind]. rewrite IH; [by rewrite <-app_assoc|done|].
  rewrite length_app. simpl. lia.
Qed.

Section message_roundtrip.
Context `{UnicodeCase, HashOrder}.

Lemma method_str_line m ch : ch ∈ method_str m → (65 <= ch)%N.
Proof. destruct m; simpl; intros Hin; set_unfold; destruct_or!; subst; done. Qed.

Lemma request_line_wf r :
  start_line_wf (Request r) = true →
  let l := start_line_display (Request r) in
  trimmed l = true ∧ line_ok l ∧ parse_start_line l = Done (Ok (Request r)).
Proof.
  unfold start_line_wf. intros Hwf. split_bools.
  rename select (uri_wf _ = true) into Hu. apply uri_wf_parts in Hu.
  destruct (no_crlf_spec (rl_version r)) as [Hv13 Hv10]; [done|].
  assert (Hne : rl_version r ≠ []) by (by apply str_eqb_false).
  assert (Hm : ∀ ch, (ch < 65)%N → ch ∉ method_str (rl_method r)).
  { intros ch Hlt Hin. apply method_str_line in Hin. lia. }
  assert (Huc : ∀ ch, is_whitespace ch = true → ch ∉ uri_display (rl_uri r)).
  { intros ch Hw Hin. by rewrite (uri_display_no_ws _ _ Hu Hin) in Hw. }
  assert (Hst : trimmed (method_str (rl_method r)) = true) by (by destruct (rl_method r)).
  unfold start_line_display. cbv zeta. split_and!.
  - rewrite (app_assoc (uri_display _)), (app_assoc (lit " ")), (app_assoc (lit " ")).
    apply trimmed_app; [by destruct (rl_method r)|done..].
  - split; [by destruct (rl_method r)|]. rewrite !not_elem_of_app.
    split_and!; first [assumption|by apply Hm|by apply Huc|in_lit].
  - unfold parse_start_line. replace (starts_with (lit "SIP/") _) with false
      by (by destruct (rl_method r)).
    change (method_str (rl_method r) ++ lit " " ++ uri_display (rl_uri r) ++ lit " " ++ rl_version r)
      with (method_str (rl_method r) ++ chr " " :: uri_display (rl_uri r) ++ chr " " :: rl_version r).
    rewrite splitn_3 by (by first [apply Hm|apply Huc]).
    rewrite from_name_method_str, uri_parse_display_parts by done. simpl. by destruct r.
Qed.

Lemma status_line_wf r :
  start_line_wf (Response r) = true →
  let l := start_line_display (Response r) in
  trimmed l = true ∧ line_ok l ∧ parse_start_line l = Done (Ok (Response r)).
Proof.
  unfold start_line_wf. intros Hwf. split_bools.
  destruct (no_crlf_spec (sl_version r)) as [Hv13 Hv10]; [done|].
  destruct (no_crlf_spec (sl_reason_phrase r)) as [Hr13 Hr10]; [done|].
  assert (Hne : sl_reason_phrase r ≠ []) by (by apply str_eqb_false).
  assert (Hsp : chr " " ∉ sl_version r) by (by apply contains_char_false, negb_true_iff).
  rename select (starts_with _ _ = true) into Hs. pose proof Hs as (v & Ev)%starts_with_true.
  assert (Hcode : ∀ ch, is_ascii_digit ch = false → ch ∉ show_int (sl_status_code r)).
  { intros ch. apply show_int_no_sep. lia. }
  unfold start_line_display. cbv zeta. split_and!.
  - rewrite Ev. change (lit "SIP/" ++ v) with ([83] ++ lit "IP/" ++ v).
    rewrite <-app_assoc.
    set (b := sl_reason_phrase r) in *. 
    replace ((lit "IP/" ++ v) ++ lit " " ++ show_int (sl_status_code r) ++ lit " " ++ b)
      with (((lit "IP/" ++ v) ++ lit " " ++ show_int (sl_status_code r) ++ lit " ") ++ b)
      by (by rewrite <-!app_assoc).
    by apply trimmed_app.
  - split; [by rewrite Ev|]. rewrite !not_elem_of_app.
    split_and!; first [assumption|by apply Hcode|in_lit].
  - unfold parse_start_line.
    replace (starts_with (lit "SIP/") _) with true.
    2:{ symmetry. apply starts_with_true. rewrite Ev. rewrite <-app_assoc. by eexists. }
    change (sl_version r ++ lit " " ++ show_int (sl_status_code r) ++ lit " " ++ sl_reason_phrase r)
      with (sl_version r ++ chr " " :: show_int (sl_status_code r) ++ chr " " :: sl_reason_phrase r).
    rewrite splitn_3 by (by first [done|apply Hcode]).
    unfold parse_u16. rewrite parse_unsigned_show by lia. by destruct r.
Qed.

Lemma start_line_wf_parse l :
  start_line_wf l = true →
  trimmed (start_line_display l) = true ∧ line_ok (start_line_display l) ∧
  parse_start_line (start_line_display l) = Done (Ok l).
Proof. destruct l; [apply request_line_wf|apply status_line_wf]. Qed.

Lemma body_wf_extract hs b : body_wf hs b = true → extract_body hs b = Ok b.
Proof.
  unfold body_wf, extract_body. destruct (content_length hs) as [cl|]; [|done].
  intros Hwf. split_bools. assert (cl = Z.of_N (len b)) as -> by lia.
  destruct (Z.ltb_spec MAX_CONTENT_LENGTH (Z.of_N (len b))); [lia|].
  case_match; [|done]. unfold get_to. rewrite N2Z.id, <-(app_nil_r b) at 1.
  by rewrite split_at_app.
Qed.

Lemma parse_message_display_wf m :
  message_wf m = true → parse_message (display m) = Done (Ok m).
Proof.
  unfold message_wf. intros Hwf. split_bools.
  destruct (start_line_wf_parse (start_line m)) as (Ht & Hl & Hp); [done|].
  assert (Hc : (length (headers m) ≤ MAX_HEADER_COUNT)%nat) by (by apply Nat.leb_le).
  set (sl := start_line_display (start_line m)) in *.
  set (hl := header_display <$> headers m).
  assert (Hlines : Forall line_ok (sl :: hl)).
  { apply Forall_cons; split; [done|]. apply Forall_fmap, Forall_forall.
    intros h Hin%list_elem_of_In. apply header_wf_line.
    rename select (forallb _ _ = true) into Hf. rewrite forallb_forall in Hf. by apply Hf. }
  assert (Hd : display m = crlf_lines (sl :: hl) ++ CRLF ++ body m).
  { unfold display, crlf_lines, hl. rewrite fmap_cons, <-list_fmap_compose. simpl.
    by rewrite <-!app_assoc. }
  unfold parse_message, split_body. rewrite Hd, find_blank_line by done.
  rewrite crlf_lines_join, <-app_assoc, slice_to_app. cbn [outcome_bind].
  replace (len (crlf_join (sl :: hl)) + 4) with (len (crlf_join (sl :: hl) ++ CRLF ++ CRLF))
    by (rewrite len_app; reflexivity).
  replace (crlf_join (sl :: hl) ++ CRLF ++ CRLF ++ body m)
    with ((crlf_join (sl :: hl) ++ CRLF ++ CRLF) ++ body m) by (by rewrite <-!app_assoc).
  rewrite slice_from_app. cbn [outcome_bind].
  pose proof (split_crlf_join sl hl Hlines) as Hsp.
  destruct (split 10 (crlf_join (sl :: hl))) as [|raw raws]; [done|].
  rewrite fmap_cons in Hsp. injection Hsp as Hraw Hraws.
  rewrite Hraw, trim_trimmed by done. destruct Hl as (Hne & _).
  destruct sl as [|ch sl'] eqn:Esl; [done|]. rewrite Hp. cbn [try_bind outcome_bind].
  rewrite parse_headers_trimmed; rewrite Hraws; unfold hl.
  - rewrite parse_headers_display by done. cbn [outcome_bind app].
    rewrite body_wf_extract by done. simpl. by destruct m.
  - eapply Forall_impl; [exact (proj2 (proj1 (Forall_cons _ _ _) Hlines))|]. by intros ? (? & ? & ?).
Qed.
End message_roundtrip.

(** ** Examples *)

#[local] Instance ascii_case : UnicodeCase := λ x, x.

Definition crlf_text (ls : list string) : str := concat ((λ l, str_of_string l ++ CRLF) <$> ls).

Example parse_example :
  (parse_message (crlf_text ["INVITE sip:bob@biloxi.com:5060;lr SIP/2.0";
                             "v: SIP/2.0/UDP pc33.atlanta.com;branch=z9hG4bK776asdhds";
                             "Call-ID: a84b4c76e66710"; "Subject: a"; " folded"; ""]%string
                  ++ lit "body")
   : outcome (result ParseError SipMessage))
  = Done (Ok (mkSipMessage
      (Request (mkRequestLine Invite
         (mkSipUri (lit "sip") (Some (lit "bob")) None (lit "biloxi.com") (Some 5060%Z)
            {[ lit "lr" := None ]} ∅) (lit "SIP/2.0")))
      [mkSipHeader (lit "Via") (lit "SIP/2.0/UDP pc33.atlanta.com;branch=z9hG4bK776asdhds");
       mkSipHeader (lit "Call-ID") (lit "a84b4c76e66710");
       mkSipHeader (lit "Subject") (lit "a folded")]
      (lit "body"))).
Proof. vm_compute. reflexivity. Qed.

(** ** Properties *)

(** C1.  Untrusted SIP text never makes the parser panic: for every input,
    [parse_message], [extract_uri], [parse_via], [RetryAfter::parse] and
    [rewrite_top_via_entry] return (a value or an error), although all of them
    slice the text at byte offsets. *)
Theorem sip_text_never_panics `{UnicodeCase} (text : str) :
  returns (parse_message text) ∧ returns (extract_uri text) ∧ returns (parse_via text) ∧
  returns (retry_after_parse text) ∧ ∀ src, returns (rewrite_top_via_entry text src).
Proof.
  auto using parse_message_returns, extract_uri_returns, parse_via_returns,
    retry_after_parse_returns, rewrite_entry_returns.
Qed.

(** The limits hold of every message the parser accepts: at most 256 headers,
    no header value above 8192 bytes (folded lines included), a declared
    Content-Length of at most 65536, and a body that is the text after the
    blank line, cut to the declared length whenever the cut falls on a
    character boundary. *)
Theorem parse_message_limits `{UnicodeCase} (text : str) (m : SipMessage) :
  parse_message text = Done (Ok m) →
  headers_bounded (headers m) ∧
  (∀ cl, content_length (headers m) = Some cl → (cl ≤ MAX_CONTENT_LENGTH)%Z) ∧
  ∃ hdrs b, split_body text = Done (hdrs, b) ∧
    (body m = b ∨ ∃ cl, content_length (headers m) = Some cl ∧ get_to b (Z.to_N cl) = Some (body m)).
Proof.
  unfold parse_message. rewrite outcome_bind_Done. intros ([hdrs b] & Hs & Hp).
  case_match; [done|]. case_match; [done|].
  apply try_bind_Ok in Hp as (sl & Hsl & Hp).
  apply try_bind_Ok in Hp as (hs & [= Hhs] & Hp).
  apply try_bind_Ok in Hp as (b' & [= Hb] & [= <-]). simpl.
  split; [|split].
  - eapply parse_headers_bounded; [|done]. split; simpl; [lia|done].
  - intros cl Hcl. unfold extract_body in Hb. rewrite Hcl in Hb.
    case_match eqn:Hle; [done|]. lia.
  - exists hdrs, b. split; [done|]. unfold extract_body in Hb.
    destruct (content_length hs) as [cl|]; [|injection Hb; auto].
    case_match; [done|]. case_match; [|injection Hb; auto].
    destruct (get_to b (Z.to_N cl)) eqn:Hg; injection Hb as <-; eauto.
Qed.

Lemma parse_message_limits_witness :
  ∃ m, parse_message (lit "SIP/2.0 200 OK" ++ CRLF ++ lit "l: 2" ++ CRLF ++ CRLF ++ lit "abcd") = Done (Ok m) ∧
       headers_bounded (headers m) ∧ body m = lit "ab".
Proof.
  eexists. split; [vm_compute; reflexivity|].
  split; [|reflexivity].
  eapply (parse_message_limits (lit "SIP/2.0 200 OK" ++ CRLF ++ lit "l: 2" ++ CRLF ++ CRLF ++ lit "abcd")).
  vm_compute. reflexivity.
Defined.

(** C2.  [parse_message] inverts [Display for SipMessage]: every well-formed
    request or response (trimmed header names and values without line breaks,
    at most 256 of them, a Content-Length that is absent or that of the body)
    is read back exactly. *)
Theorem parse_message_display `{UnicodeCase, HashOrder} (m : SipMessage) :
  message_wf m = true → parse_message (display m) = Done (Ok m).
Proof. apply parse_message_display_wf. Qed.

Definition example_request : SipMessage :=
  mkSipMessage (Request (mkRequestLine Invite example_uri SIP_2_0))
    [mkSipHeader VIA (lit "SIP/2.0/UDP pc33.atlanta.com;branch=z9hG4bK776");
     mkSipHeader (lit "Call-ID") (lit "a84b4c76e66710");
     mkSipHeader (lit "Content-Length") (lit "4")] (lit "v=0" ++ [10]).

Lemma parse_message_display_witness :
  message_wf example_request = true ∧
  @parse_message ascii_case (@display key_order example_request) = Done (Ok example_request).
Proof.
  split; [vm_compute; reflexivity|].
  apply (@parse_message_display ascii_case key_order). vm_compute. reflexivity.
Defined.

(** A response with an empty reason phrase, which RFC 3261 allows and
    [SipMessage::new_response] builds, is printed as a status line that the
    parser rejects: the line is trimmed before it is cut at its spaces. *)
Theorem empty_reason_rejected `{UnicodeCase, HashOrder} (code : Z) :
  (0 ≤ code)%Z →
  parse_message (display (new_response code []))
    = Done (Err (mkParseError (lit "Invalid status line: " ++ SIP_2_0 ++ lit " " ++ show_int code))).
Proof.
  intros Hc. set (line := SIP_2_0 ++ lit " " ++ show_int code).
  assert (Hd : ∀ ch, is_ascii_digit ch = false → ch ∉ show_int code).
  { intros ch. by apply show_int_no_sep. }
  assert (Hl : line_ok (line ++ lit " ")).
  { unfold line. split; [done|]. rewrite !not_elem_of_app.
    split_and!; first [by apply Hd|in_lit]. }
  assert (Ht : trim (line ++ lit " ") = line).
  { apply (trim_padded [] line (lit " ")); [done|done|]. unfold line.
    destruct (show_nonneg_spec code Hc) as (d & ds & E & Hds & _).
    assert (show_int code = d :: ds) as ->.
    { unfold show_int. destruct (Z.ltb_spec code 0); [lia|done]. }
    apply (trimmed_app SIP_2_0 (lit " ") (d :: ds)); try done.
    apply trimmed_no_ws. intros ch Hch. apply not_true_iff_false. intros Hw.
    rewrite forallb_elem in Hds. specialize (Hds _ Hch). apply digit_bounds in Hds.
    unfold is_whitespace in Hw. repeat (apply orb_true_iff in Hw as [Hw|Hw]);
      rewrite ?andb_true_iff, ?N.leb_le, ?N.eqb_eq in Hw; lia. }
  unfold parse_message, split_body.
  assert (display (new_response code []) = crlf_lines [line ++ lit " "] ++ CRLF ++ []) as ->.
  { unfold display, line. simpl. by rewrite <-!app_assoc. }
  rewrite find_blank_line by (by repeat constructor; apply Hl).
  change (crlf_join [line ++ lit " "]) with (line ++ lit " ").
  change (crlf_lines [line ++ lit " "]) with (((line ++ lit " ") ++ CRLF) ++ []).
  rewrite app_nil_r, <-app_assoc, slice_to_app. cbn [outcome_bind].
  replace (len (line ++ lit " ") + 4) with (len ((line ++ lit " ") ++ CRLF ++ CRLF))
    by (rewrite len_app; reflexivity).
  replace ((line ++ lit " ") ++ CRLF ++ CRLF ++ [])
    with (((line ++ lit " ") ++ CRLF ++ CRLF) ++ []) by (by rewrite !app_nil_r).
  rewrite slice_from_app. cbn [outcome_bind].
  rewrite split_no_sep by apply Hl. rewrite (proj1 (trim_end_char_cr _ (proj1 (proj2 Hl)))), Ht.
  unfold parse_start_line. change (starts_with (lit "SIP/") line) with true.
  unfold line, SIP_2_0. 
  change (splitn 3 (chr " ") (lit "SIP/2.0" ++ lit " " ++ show_int code))
    with (lit "SIP/2.0" :: splitn 2 (chr " ") (show_int code)).
  simpl splitn. by rewrite (proj2 (split_once_None _ _)) by by apply Hd.
Qed.

Lemma empty_reason_rejected_witness :
  (0 ≤ 486)%Z ∧
  @parse_message ascii_case (@display key_order (new_response 486 [])) =
    Done (Err (mkParseError (lit "Invalid status line: SIP/2.0 486"))).
Proof. split; [lia|]. apply (@empty_reason_rejected ascii_case key_order 486). lia. Defined.
