(* ===== verification/SipTransaction.v ===== *)
(** * SIP transactions ([asterisk-sip/src/transaction/mod.rs])

    The four RFC 3261 section 17 state machines, one Module per machine
    ([ClientTransaction], [ServerTransaction], [NonInviteClientTransaction],
    [NonInviteServerTransaction]), and the loop of the two [start] tasks.

    Instants and durations are milliseconds ([Z]); the operations that call
    [Instant::now()] take its value as the argument [now].  The theorems: a
    client transaction's state is the one its first final response decides,
    whatever came before and after; the retransmission loop ends, with exactly
    one timeout and at most ten retransmissions, whatever the wake-up delays. *)

From Stdlib Require Import NArith Ascii String.
From S2P Require Import Prelude RustStr HashMap SipUri SipMessage SipVia.
Local Open Scope Z_scope.
Local Open Scope list_scope.

(** ** Timer values *)

Definition T1 : Z := 500.
Definition T2 : Z := 4000.
Definition T4 : Z := 5000.
Definition TIMER_A_INITIAL : Z := T1.
Definition TIMER_B : Z := 32000.
Definition TIMER_D_UDP : Z := 32000.
Definition TIMER_E_INITIAL : Z := T1.
Definition TIMER_F : Z := 32000.
Definition TIMER_H : Z := 32000.
Definition TIMER_I_UDP : Z := T4.
Definition TIMER_J_UDP : Z := 32000.
Definition TIMER_K_UDP : Z := T4.

(** [t.elapsed()] at instant [now]: a saturating difference. *)
Definition elapsed (now t : Z) : Z := Z.max 0 (now - t).

(** [at.is_some_and(|at| at.elapsed() >= d)] *)
Definition elapsed_since (now : Z) (at_ : option Z) (d : Z) : bool :=
  match at_ with Some t => d <=? elapsed now t | None => false end.

(** [response.status_code().unwrap_or(0)] *)
Definition status_of (response : SipMessage) : Z := default 0 (status_code response).

(** [(lo..hi).contains(&s)] *)
Definition in_range (lo hi s : Z) : bool := (lo <=? s) && (s <? hi).

(** ** INVITE client transaction (RFC 3261 figure 5) *)

Module ClientTransaction.

Inductive InviteClientState := Calling | Proceeding | Completed | Terminated.

#[global] Instance InviteClientState_eq_dec : EqDecision InviteClientState.
Proof. solve_decision. Defined.

Record t := mk {
  branch : str;
  state : InviteClientState;
  request : SipMessage;
  remote_addr : SocketAddr;
  timer_a_interval : Z;
  started_at : Z;
  completed_at : option Z;
  last_retransmit : Z;
  last_response : option SipMessage }.

Definition new (now : Z) (request : SipMessage) (remote_addr : SocketAddr) (branch : str) : t :=
  mk branch Calling request remote_addr TIMER_A_INITIAL now None now None.

Definition set_state (x : t) (st : InviteClientState) : t :=
  mk (branch x) st (request x) (remote_addr x) (timer_a_interval x) (started_at x)
    (completed_at x) (last_retransmit x) (last_response x).
Definition set_completed_at (x : t) (at_ : option Z) : t :=
  mk (branch x) (state x) (request x) (remote_addr x) (timer_a_interval x) (started_at x)
    at_ (last_retransmit x) (last_response x).
Definition set_last_response (x : t) (r : SipMessage) : t :=
  mk (branch x) (state x) (request x) (remote_addr x) (timer_a_interval x) (started_at x)
    (completed_at x) (last_retransmit x) (Some r).

Definition on_response (now : Z) (x : t) (response : SipMessage) : t :=
  let status := status_of response in
  let x := set_last_response x response in
  match state x with
  | Calling =>
      if in_range 100 200 status then set_state x Proceeding
      else if in_range 200 300 status then set_state x Terminated
      else if in_range 300 700 status then
        set_completed_at (set_state x Completed) (Some now)
      else x
  | Proceeding =>
      if in_range 200 300 status then set_state x Terminated
      else if in_range 300 700 status then
        set_completed_at (set_state x Completed) (Some now)
      else x
  | _ => x
  end.

Definition needs_retransmit (now : Z) (x : t) : bool :=
  if negb (bool_decide (state x = Calling)) then false
  else timer_a_interval x <=? elapsed now (last_retransmit x).

Definition advance_retransmit_timer (now : Z) (x : t) : t :=
  mk (branch x) (state x) (request x) (remote_addr x) (timer_a_interval x * 2) (started_at x)
    (completed_at x) now (last_response x).

Definition timer_b_expired (now : Z) (x : t) : bool :=
  match state x with Calling | Proceeding => true | _ => false end
  && (TIMER_B <=? elapsed now (started_at x)).

Definition timer_d_expired (now : Z) (x : t) : bool :=
  bool_decide (state x = Completed) && elapsed_since now (completed_at x) TIMER_D_UDP.

Definition terminate (x : t) : t := set_state x Terminated.

End ClientTransaction.

(** ** INVITE server transaction (RFC 3261 figure 7) *)

Module ServerTransaction.

Inductive InviteServerState := Proceeding | Completed | Accepted | Confirmed | Terminated.

#[global] Instance InviteServerState_eq_dec : EqDecision InviteServerState.
Proof. solve_decision. Defined.

Record t := mk {
  branch : str;
  state : InviteServerState;
  request : SipMessage;
  remote_addr : SocketAddr;
  last_response : option SipMessage;
  final_response_at : option Z;
  confirmed_at : option Z;
  timer_g_interval : Z;
  last_retransmit : Z }.

Definition new (now : Z) (request : SipMessage) (remote_addr : SocketAddr) (branch : str) : t :=
  mk branch Proceeding request remote_addr None None None T1 now.

Definition set_state (x : t) (st : InviteServerState) : t :=
  mk (branch x) st (request x) (remote_addr x) (last_response x) (final_response_at x)
    (confirmed_at x) (timer_g_interval x) (last_retransmit x).

Definition send_provisional (x : t) (response : SipMessage) : t :=
  mk (branch x) (state x) (request x) (remote_addr x) (Some response) (final_response_at x)
    (confirmed_at x) (timer_g_interval x) (last_retransmit x).

Definition send_final (now : Z) (x : t) (response : SipMessage) : t :=
  let status := status_of response in
  let x := mk (branch x) (state x) (request x) (remote_addr x) (Some response) (Some now)
             (confirmed_at x) (timer_g_interval x) now in
  if in_range 200 300 status then set_state x Accepted
  else if in_range 300 700 status then set_state x Completed
  else x.

Definition awaits_ack (st : InviteServerState) : bool :=
  match st with Completed | Accepted => true | _ => false end.

Definition needs_retransmit (now : Z) (x : t) : bool :=
  awaits_ack (state x) && (timer_g_interval x <=? elapsed now (last_retransmit x)).

Definition advance_retransmit_timer (now : Z) (x : t) : t :=
  mk (branch x) (state x) (request x) (remote_addr x) (last_response x) (final_response_at x)
    (confirmed_at x) (Z.min (timer_g_interval x * 2) T2) now.

Definition on_ack (now : Z) (x : t) : t :=
  if bool_decide (state x = Completed) then
    mk (branch x) Confirmed (request x) (remote_addr x) (last_response x)
      (final_response_at x) (Some now) (timer_g_interval x) (last_retransmit x)
  else if bool_decide (state x = Accepted) then set_state x Terminated
  else x.

Definition timer_h_expired (now : Z) (x : t) : bool :=
  awaits_ack (state x) && elapsed_since now (final_response_at x) TIMER_H.

Definition timer_i_expired (now : Z) (x : t) : bool :=
  bool_decide (state x = Confirmed) && elapsed_since now (confirmed_at x) TIMER_I_UDP.

Definition terminate (x : t) : t := set_state x Terminated.

End ServerTransaction.

(** ** Non-INVITE client transaction (RFC 3261 figure 6) *)

Module NonInviteClientTransaction.

Inductive NonInviteClientState := Trying | Proceeding | Completed | Terminated.

#[global] Instance NonInviteClientState_eq_dec : EqDecision NonInviteClientState.
Proof. solve_decision. Defined.

Record t := mk {
  branch : str;
  state : NonInviteClientState;
  request : SipMessage;
  remote_addr : SocketAddr;
  timer_e_interval : Z;
  started_at : Z;
  completed_at : option Z;
  last_retransmit : Z;
  last_response : option SipMessage }.

Definition new (now : Z) (request : SipMessage) (remote_addr : SocketAddr) (branch : str) : t :=
  mk branch Trying request remote_addr TIMER_E_INITIAL now None now None.

Definition set_last_response (x : t) (r : SipMessage) : t :=
  mk (branch x) (state x) (request x) (remote_addr x) (timer_e_interval x) (started_at x)
    (completed_at x) (last_retransmit x) (Some r).
Definition set_state (x : t) (st : NonInviteClientState) : t :=
  mk (branch x) st (request x) (remote_addr x) (timer_e_interval x) (started_at x)
    (completed_at x) (last_retransmit x) (last_response x).

Definition is_pending (st : NonInviteClientState) : bool :=
  match st with Trying | Proceeding => true | _ => false end.

(** The [match (self.state, status)]: its second arm is tried when the first
    does not apply. *)
Definition on_response (now : Z) (x : t) (response : SipMessage) : t :=
  let status := status_of response in
  let x := set_last_response x response in
  if bool_decide (state x = Trying) && in_range 100 200 status then
    mk (branch x) Proceeding (request x) (remote_addr x) T2 (started_at x)
      (completed_at x) (last_retransmit x) (last_response x)
  else if is_pending (state x) && in_range 200 700 status then
    mk (branch x) Completed (request x) (remote_addr x) (timer_e_interval x) (started_at x)
      (Some now) (last_retransmit x) (last_response x)
  else x.

Definition needs_retransmit (now : Z) (x : t) : bool :=
  is_pending (state x) && (timer_e_interval x <=? elapsed now (last_retransmit x)).

Definition advance_retransmit_timer (now : Z) (x : t) : t :=
  mk (branch x) (state x) (request x) (remote_addr x) (Z.min (timer_e_interval x * 2) T2)
    (started_at x) (completed_at x) now (last_response x).

Definition timer_f_expired (now : Z) (x : t) : bool :=
  is_pending (state x) && (TIMER_F <=? elapsed now (started_at x)).

Definition timer_k_expired (now : Z) (x : t) : bool :=
  bool_decide (state x = Completed) && elapsed_since now (completed_at x) TIMER_K_UDP.

Definition terminate (x : t) : t := set_state x Terminated.

End NonInviteClientTransaction.

(** ** Non-INVITE server transaction (RFC 3261 figure 8) *)

Module NonInviteServerTransaction.

Inductive NonInviteServerState := Trying | Proceeding | Completed | Terminated.

#[global] Instance NonInviteServerState_eq_dec : EqDecision NonInviteServerState.
Proof. solve_decision. Defined.

Record t := mk {
  branch : str;
  state : NonInviteServerState;
  request : SipMessage;
  remote_addr : SocketAddr;
  last_response : option SipMessage;
  completed_at : option Z }.

Definition new (request : SipMessage) (remote_addr : SocketAddr) (branch : str) : t :=
  mk branch Trying request remote_addr None None.

Definition send_provisional (x : t) (response : SipMessage) : t :=
  mk (branch x) Proceeding (request x) (remote_addr x) (Some response) (completed_at x).

Definition send_final (now : Z) (x : t) (response : SipMessage) : t :=
  mk (branch x) Completed (request x) (remote_addr x) (Some response) (Some now).

Definition timer_j_expired (now : Z) (x : t) : bool :=
  bool_decide (state x = Completed) && elapsed_since now (completed_at x) TIMER_J_UDP.

Definition terminate (x : t) : t :=
  mk (branch x) Terminated (request x) (remote_addr x) (last_response x) (completed_at x).

End NonInviteServerTransaction.

(** ** The timer tasks of [ClientTransaction::start] and [ServerTransaction::start]

    What a task sends, with the instant it sends it. *)

Inductive TimerEvent :=
  | Retransmit (msg : SipMessage) (addr : SocketAddr) (at_ : Z)
  | Timeout (branch : str) (at_ : Z).

Section timer_task.
Variable msg : SipMessage.
Variable addr : SocketAddr.
Variable branch : str.
Variable deadline : Z.
(** How late the [i]-th sleep ends: the scheduler and the [send(..).await]
    of the previous turn. *)
Variable lag : nat → Z.

(** One turn per unit of fuel; [None] when the fuel is out. *)
Fixpoint timer_loop (fuel : nat) (i : nat) (interval now : Z) : option (list TimerEvent) :=
  match fuel with
  | O => None
  | S fuel' =>
      let sleep_duration := Z.min interval (Z.max 0 (deadline - now)) in
      let now := now + sleep_duration + lag i in
      if deadline <=? now then Some [Timeout branch now]
      else
        events ← timer_loop fuel' (S i) (Z.min (interval * 2) T2) now;
        Some (Retransmit msg addr now :: events)
  end.
End timer_task.

(** Enough turns for a 32 s deadline (shown below). *)
Definition TIMER_FUEL : nat := 11.

Definition client_start (lag : nat → Z) (now : Z) (request : SipMessage)
    (remote_addr : SocketAddr) (branch : str) : option (list TimerEvent) :=
  timer_loop request remote_addr branch (now + TIMER_B) lag TIMER_FUEL 0 TIMER_A_INITIAL now.

Definition server_start (lag : nat → Z) (now : Z) (response : SipMessage)
    (remote_addr : SocketAddr) (branch : str) : option (list TimerEvent) :=
  timer_loop response remote_addr branch (now + TIMER_H) lag TIMER_FUEL 0 T1 now.

(** ** Specifications *)

Inductive client_op :=
  | OnResponse (now : Z) (response : SipMessage)
  | AdvanceTimer (now : Z).

Definition is_final_code (s : Z) : bool := in_range 200 700 s.
Definition is_provisional_code (s : Z) : bool := in_range 100 200 s.

(** The first final response among the operations, with its arrival time. *)
Fixpoint first_final (ops : list client_op) : option (Z * SipMessage) :=
  match ops with
  | [] => None
  | OnResponse now r :: ops' =>
      if is_final_code (status_of r) then Some (now, r) else first_final ops'
  | AdvanceTimer _ :: ops' => first_final ops'
  end.

Definition some_provisional (ops : list client_op) : bool :=
  existsb (λ op, match op with
                 | OnResponse _ r => is_provisional_code (status_of r)
                 | AdvanceTimer _ => false
                 end) ops.

Definition invite_client_op (x : ClientTransaction.t) (op : client_op) : ClientTransaction.t :=
  match op with
  | OnResponse now r => ClientTransaction.on_response now x r
  | AdvanceTimer now => ClientTransaction.advance_retransmit_timer now x
  end.

Definition non_invite_client_op (x : NonInviteClientTransaction.t) (op : client_op)
    : NonInviteClientTransaction.t :=
  match op with
  | OnResponse now r => NonInviteClientTransaction.on_response now x r
  | AdvanceTimer now => NonInviteClientTransaction.advance_retransmit_timer now x
  end.

(** What RFC 3261 figure 5 promises: the first final response decides. *)
Definition invite_client_spec (ops : list client_op)
    : ClientTransaction.InviteClientState * option Z :=
  match first_final ops with
  | Some (now, r) =>
      if status_of r <? 300 then (ClientTransaction.Terminated, None)
      else (ClientTransaction.Completed, Some now)
  | None => (if some_provisional ops then ClientTransaction.Proceeding
             else ClientTransaction.Calling, None)
  end.

(** Figure 6. *)
Definition non_invite_client_spec (ops : list client_op)
    : NonInviteClientTransaction.NonInviteClientState * option Z :=
  match first_final ops with
  | Some (now, r) => (NonInviteClientTransaction.Completed, Some now)
  | None => (if some_provisional ops then NonInviteClientTransaction.Proceeding
             else NonInviteClientTransaction.Trying, None)
  end.

(** The instant of the [i]-th retransmission, from the start of the task, when
    every sleep is punctual. *)
Fixpoint backoff (i : nat) (interval : Z) : Z :=
  match i with
  | O => interval
  | S i' => interval + backoff i' (Z.min (interval * 2) T2)
  end.

(** ** Lemmas *)

Section timer_task_lemmas.
Context (msg : SipMessage) (addr : SocketAddr) (branch : str) (deadline : Z).
Context (lag : nat → Z) (lag_nonneg : ∀ i, 0 ≤ lag i).

(** The [i]-th event: no earlier than the back-off schedule, before the
    deadline, and on schedule when no wake-up is late. *)
Definition on_schedule (interval now : Z) (i : nat) (e : TimerEvent) : Prop :=
  ∃ at_, e = Retransmit msg addr at_ ∧ now + backoff i interval ≤ at_ < deadline
         ∧ ((∀ j, lag j = 0) → at_ = now + backoff i interval).

Lemma timer_loop_S f i interval now :
  timer_loop msg addr branch deadline lag (S f) i interval now =
    let now' := now + Z.min interval (Z.max 0 (deadline - now)) + lag i in
    if deadline <=? now' then Some [Timeout branch now']
    else
      events ← timer_loop msg addr branch deadline lag f (S i) (Z.min (interval * 2) T2) now';
      Some (Retransmit msg addr now' :: events).
Proof. done. Qed.

Lemma timer_loop_spec f i interval now :
  0 < interval → deadline ≤ now + backoff f interval →
  ∃ rs at_, timer_loop msg addr branch deadline lag (S f) i interval now
            = Some (rs ++ [Timeout branch at_])
    ∧ deadline ≤ at_ ∧ (length rs ≤ f)%nat
    ∧ (∀ j e, rs !! j = Some e → on_schedule interval now j e).
Proof.
  revert i interval now. induction f as [|f IH]; intros i interval now Hpos Hd;
    pose proof (lag_nonneg i) as Hlag; rewrite timer_loop_S; cbv zeta.
  - cbn [backoff] in Hd.
    replace (deadline <=? _) with true by (symmetry; apply Z.leb_le; lia).
    eexists [], _. split_and!; [done|lia|simpl; lia|done].
  - destruct (Z.leb_spec deadline
                (now + Z.min interval (Z.max 0 (deadline - now)) + lag i)) as [Hle|Hlt].
    + eexists [], _. split_and!; [done|lia|simpl; lia|done].
    + replace (Z.min interval (Z.max 0 (deadline - now))) with interval in * by lia.
      cbn [backoff] in Hd.
      destruct (IH (S i) (Z.min (interval * 2) T2) (now + interval + lag i))
        as (rs & at_ & -> & Hat & Hlen & Hrs); [unfold T2; lia|lia|].
      eexists (_ :: rs), at_. split_and!; [done|done|simpl; lia|].
      intros [|j] e He; simplify_eq/=.
      * eexists. split_and!; [done|simpl; lia|lia|].
        intros H0. rewrite H0. simpl. lia.
      * destruct (Hrs _ _ He) as (a & -> & Ha & Ha').
        exists a. split_and!; [done|simpl; lia|lia|].
        intros H0. rewrite Ha' by done. rewrite H0. simpl. lia.
Qed.
End timer_task_lemmas.

Lemma in_range_spec lo hi s : in_range lo hi s = true ↔ lo ≤ s < hi.
Proof. unfold in_range. rewrite andb_true_iff, Z.leb_le, Z.ltb_lt. done. Qed.

(** Decide every range and order test of the goal. *)
Ltac decide_codes :=
  unfold is_final_code, is_provisional_code, in_range in *;
  repeat (match goal with
  | H : context [?a <=? ?b] |- _ => destruct (Z.leb_spec a b)
  | H : context [?a <? ?b] |- _ => destruct (Z.ltb_spec a b)
  | |- context [?a <=? ?b] => destruct (Z.leb_spec a b)
  | |- context [?a <? ?b] => destruct (Z.ltb_spec a b)
  end; simpl in *; try lia; try done).

(** Later operations do not change what a first final decided. *)
Lemma first_final_snoc ops op :
  first_final (ops ++ [op]) =
    match first_final ops with Some x => Some x | None => first_final [op] end.
Proof.
  induction ops as [|[now r|now] ops IH]; [done| |done].
  simpl. destruct (is_final_code (status_of r)); [done|apply IH].
Qed.

Lemma some_provisional_snoc ops op :
  some_provisional (ops ++ [op]) = some_provisional ops || some_provisional [op].
Proof. unfold some_provisional. apply existsb_app. Qed.

Lemma first_final_code ops now r :
  first_final ops = Some (now, r) → is_final_code (status_of r) = true.
Proof.
  induction ops as [|[n r'|n] ops IH]; simpl; [done| |done].
  destruct (is_final_code (status_of r')) eqn:E; [|done]. intros [= -> ->]. done.
Qed.

(** One operation takes the specified state to the specified state. *)
Lemma invite_client_op_spec ops op x :
  (ClientTransaction.state x, ClientTransaction.completed_at x) = invite_client_spec ops →
  (ClientTransaction.state (invite_client_op x op),
   ClientTransaction.completed_at (invite_client_op x op)) = invite_client_spec (ops ++ [op]).
Proof.
  unfold invite_client_spec. rewrite first_final_snoc, some_provisional_snoc.
  destruct (first_final ops) as [[n r0]|] eqn:Ef;
    [pose proof (first_final_code _ _ _ Ef)|];
    destruct x as [b st rq ra ti sa ca lr lresp]; simpl; intros Hx;
    destruct op as [now r|now]; simpl;
    try (destruct (status_of r0 <? 300)); try (destruct (some_provisional ops));
    simplify_eq/=; try done;
    unfold ClientTransaction.on_response; simpl; decide_codes.
Qed.

Lemma non_invite_client_op_spec ops op x :
  (NonInviteClientTransaction.state x, NonInviteClientTransaction.completed_at x)
    = non_invite_client_spec ops →
  (NonInviteClientTransaction.state (non_invite_client_op x op),
   NonInviteClientTransaction.completed_at (non_invite_client_op x op))
    = non_invite_client_spec (ops ++ [op]).
Proof.
  unfold non_invite_client_spec. rewrite first_final_snoc, some_provisional_snoc.
  destruct (first_final ops) as [[n r0]|] eqn:Ef;
    destruct x as [b st rq ra ti sa ca lr lresp]; simpl; intros Hx;
    destruct op as [now r|now]; simpl;
    try (destruct (some_provisional ops));
    simplify_eq/=; try done;
    unfold NonInviteClientTransaction.on_response; simpl; decide_codes.
Qed.

(** A property of [new] kept by every operation holds after any sequence. *)
Lemma foldl_spec {A B S} (f : A → B → A) (view : A → S) (spec : list B → S) a0 ops :
  view a0 = spec [] →
  (∀ done op x, view x = spec done → view (f x op) = spec (done ++ [op])) →
  view (foldl f a0 ops) = spec ops.
Proof.
  intros H0 Hstep. induction ops as [|op ops IH] using rev_ind; [done|].
  rewrite foldl_snoc. by apply Hstep.
Qed.

(** ** Theorems *)

(** C7.  An INVITE or non-INVITE client transaction implements the figure of
    RFC 3261 it comes from: after any sequence of responses and timer advances,
    its state and the instant it entered [Completed] are those the first final
    response decides (2xx ends an INVITE transaction, any final completes a
    non-INVITE one), and [Proceeding] means a provisional and no final came. *)
Theorem client_transactions_refine_rfc (now : Z) (request : SipMessage)
    (remote : SocketAddr) (branch : str) (ops : list client_op) :
  let x := foldl invite_client_op (ClientTransaction.new now request remote branch) ops in
  let y := foldl non_invite_client_op
             (NonInviteClientTransaction.new now request remote branch) ops in
  (ClientTransaction.state x, ClientTransaction.completed_at x) = invite_client_spec ops
  ∧ (NonInviteClientTransaction.state y, NonInviteClientTransaction.completed_at y)
    = non_invite_client_spec ops.
Proof.
  split.
  - apply (foldl_spec _ (λ x, (ClientTransaction.state x, ClientTransaction.completed_at x)));
      [done|apply invite_client_op_spec].
  - apply (foldl_spec _ (λ y, (NonInviteClientTransaction.state y,
                               NonInviteClientTransaction.completed_at y)));
      [done|apply non_invite_client_op_spec].
Qed.

(** C8.  The timer task of an INVITE client transaction always ends, however
    late its wake-ups are: it sends at most ten retransmissions, each no earlier
    than the T1-doubling-to-T2 schedule and before Timer B (exactly on the
    schedule when no wake-up is late), then one timeout, not before 32 s. *)
Theorem client_timer_task_ends (lag : nat → Z) (now : Z) (request : SipMessage)
    (remote : SocketAddr) (branch : str) (Hlag : ∀ i, 0 ≤ lag i) :
  ∃ rs at_,
    client_start lag now request remote branch = Some (rs ++ [Timeout branch at_])
    ∧ now + TIMER_B ≤ at_ ∧ (length rs ≤ 10)%nat
    ∧ (∀ j e, rs !! j = Some e →
         on_schedule request remote (now + TIMER_B) lag TIMER_A_INITIAL now j e).
Proof.
  apply (timer_loop_spec _ _ _ _ _ Hlag 10).
  - done.
  - unfold TIMER_B. apply Z.add_le_mono_l. vm_compute. done.
Qed.

Lemma client_timer_task_ends_witness :
  ∃ rs at_,
    client_start (λ _, 0) 7 (new_response 200 []) (mkSocketAddr [] 5060) []
      = Some (rs ++ [Timeout [] at_])
    ∧ 7 + TIMER_B ≤ at_ ∧ (length rs ≤ 10)%nat
    ∧ (∀ j e, rs !! j = Some e →
         on_schedule (new_response 200 []) (mkSocketAddr [] 5060) (7 + TIMER_B) (λ _, 0)
           TIMER_A_INITIAL 7 j e).
Proof. apply client_timer_task_ends. intros i. reflexivity. Defined.

(** The schedule of a punctual task. *)
Example client_start_schedule (m : SipMessage) (a : SocketAddr) (b : str) :
  client_start (λ _, 0) 0 m a b =
    Some ((Retransmit m a <$> [500; 1500; 3500; 7500; 11500; 15500; 19500; 23500; 27500; 31500])
          ++ [Timeout b 32000]).
Proof. reflexivity. Qed.
