(* ===== verification/SipDialog.v ===== *)
(** * SIP dialogs ([asterisk-sip/src/dialog/mod.rs])

    Creation of a dialog on either side of an INVITE, its sequence numbers and
    the validation of in-dialog requests and responses.  The theorems: a
    rejected request changes nothing and an accepted one only the remote
    sequence number; the CSeqs a dialog accepts strictly increase, so a replay
    is rejected; the dialogs of the two parties mirror each other, and the
    next request of the one is accepted by the other. *)

From Stdlib Require Import NArith Ascii String Sorting.Sorted.
From S2P Require Import Prelude RustStr HashMap SipUri SipMessage.
Local Open Scope Z_scope.
Local Open Scope list_scope.

Module Dialog.

Inductive DialogValidationError := ECallId | ELocalTag | ERemoteTag | ERouteSet | ECSeq.

Inductive DialogState := Early | Confirmed | Terminated.

#[global] Instance DialogValidationError_eq_dec : EqDecision DialogValidationError.
Proof. solve_decision. Defined.
#[global] Instance DialogState_eq_dec : EqDecision DialogState.
Proof. solve_decision. Defined.

Record t := mk {
  call_id : str;
  local_tag : str;
  remote_tag : str;
  local_seq : Z;
  remote_seq : option Z;
  local_uri : str;
  remote_uri : str;
  remote_target : str;
  route_set : list str;
  state : DialogState;
  is_uac : bool }.

#[global] Instance dialog_eq_dec : EqDecision t.
Proof. solve_decision. Defined.

(** [header.and_then(extract_uri).unwrap_or_default()] *)
Definition uri_or_default (header : option str) : outcome str :=
  match header with
  | None => Done []
  | Some v => let! u := extract_uri v in Done (default [] u)
  end.

(** [cs.split_whitespace().next()] and [n.parse::<u32>().ok()] *)
Definition cseq_number (m : SipMessage) : option Z :=
  cs ← SipMessage.cseq m; n ← head (split_whitespace cs); parse_u32 n.

Definition tag_of (header : option str) : option str := header ≫= extract_tag.

Definition from_uac_response (request response : SipMessage) : outcome (option t) :=
  match SipMessage.call_id request, from_header request ≫= extract_tag, to_header response with
  | Some cid, Some ltag, Some to_hdr =>
      match extract_tag to_hdr with
      | None => Done None
      | Some rtag =>
          let! rtarget := uri_or_default (get_header response CONTACT) in
          let! luri := uri_or_default (get_header request CONTACT) in
          let! ruri := uri_or_default (Some to_hdr) in
          let routes := reverse (get_headers response RECORD_ROUTE) in
          let lseq := default 1 (cseq_number request) in
          let code := default 0 (status_code response) in
          if (200 <=? code) && (code <? 300) then
            Done (Some (mk cid ltag rtag lseq None luri ruri rtarget routes Confirmed true))
          else if (100 <=? code) && (code <? 200) then
            Done (Some (mk cid ltag rtag lseq None luri ruri rtarget routes Early true))
          else Done None
      end
  | _, _, _ => Done None
  end.

Definition from_uas_request (request : SipMessage) (ltag : str) : outcome (option t) :=
  match SipMessage.call_id request, from_header request with
  | Some cid, Some from_hdr =>
      let rtag := default [] (extract_tag from_hdr) in
      let! ruri := uri_or_default (Some from_hdr) in
      let! rtarget := uri_or_default (get_header request CONTACT) in
      let routes := get_headers request RECORD_ROUTE in
      Done (Some (mk cid ltag rtag 0 (cseq_number request) [] ruri rtarget routes Early false))
  | _, _ => Done None
  end.

Definition set_remote_seq (d : t) (n : Z) : t :=
  mk (call_id d) (local_tag d) (remote_tag d) (local_seq d) (Some n) (local_uri d)
    (remote_uri d) (remote_target d) (route_set d) (state d) (is_uac d).
Definition set_state (d : t) (s : DialogState) : t :=
  mk (call_id d) (local_tag d) (remote_tag d) (local_seq d) (remote_seq d) (local_uri d)
    (remote_uri d) (remote_target d) (route_set d) s (is_uac d).

(** [self.local_seq += 1] on [u32]: the value of a build without overflow
    checks. *)
Definition next_cseq (d : t) : Z * t :=
  let n := wrap_u32 (local_seq d + 1) in
  (n, mk (call_id d) (local_tag d) (remote_tag d) n (remote_seq d) (local_uri d)
        (remote_uri d) (remote_target d) (route_set d) (state d) (is_uac d)).

Definition matches (d : t) (cid ltag rtag : str) : bool :=
  str_eqb (call_id d) cid && str_eqb (local_tag d) ltag && str_eqb (remote_tag d) rtag.

Definition normalize_route (route : str) : str :=
  to_ascii_lowercase (concat (split_whitespace route)).

Definition normalized_headers (m : SipMessage) (name : str) : list str :=
  normalize_route <$> get_headers m name.
Definition normalized_route_set (routes : list str) : list str := normalize_route <$> routes.

(** The comparison [cseq > previous] of [is_none_or]. *)
Definition advances (previous : option Z) (cseq : Z) : bool :=
  match previous with None => true | Some p => p <? cseq end.

(** The error leaves [self] as it was; the success gives the new [self]. *)
Definition validate_remote_request (d : t) (request : SipMessage)
    : result DialogValidationError t :=
  if negb (bool_decide (SipMessage.call_id request = Some (call_id d))) then Err ECallId
  else if negb (bool_decide (tag_of (to_header request) = Some (local_tag d))) then Err ELocalTag
  else if negb (bool_decide (tag_of (from_header request) = Some (remote_tag d)))
  then Err ERemoteTag
  else
    let routes := normalized_headers request ROUTE in
    if negb (bool_decide (routes = []))
       && negb (bool_decide (routes = normalized_route_set (route_set d))) then Err ERouteSet
    else
      match cseq_number request with
      | None => Err ECSeq
      | Some cseq =>
          match method request with
          | Some Ack =>
              if bool_decide (remote_seq d = Some cseq) then Ok d else Err ECSeq
          | Some _ =>
              if advances (remote_seq d) cseq then Ok (set_remote_seq d cseq) else Err ECSeq
          | None => Err ECSeq
          end
      end.

Definition validate_remote_response (d : t) (response : SipMessage) (expected_cseq : Z)
    : result DialogValidationError unit :=
  if negb (bool_decide (SipMessage.call_id response = Some (call_id d))) then Err ECallId
  else if negb (bool_decide (tag_of (from_header response) = Some (local_tag d)))
  then Err ELocalTag
  else if negb (bool_decide (tag_of (to_header response) = Some (remote_tag d)))
  then Err ERemoteTag
  else if negb (bool_decide (cseq_number response = Some expected_cseq)) then Err ECSeq
  else
    let record_routes := normalized_headers response RECORD_ROUTE in
    if negb (bool_decide (record_routes = [])) then
      let record_routes := if is_uac d then reverse record_routes else record_routes in
      if negb (bool_decide (record_routes = normalized_route_set (route_set d)))
      then Err ERouteSet else Ok tt
    else Ok tt.

Definition confirm (d : t) : t := set_state d Confirmed.
Definition terminate (d : t) : t := set_state d Terminated.
Definition is_confirmed (d : t) : bool := bool_decide (state d = Confirmed).

Definition update_remote_target (d : t) (contact_uri : str) : t :=
  mk (call_id d) (local_tag d) (remote_tag d) (local_seq d) (remote_seq d) (local_uri d)
    (remote_uri d) contact_uri (route_set d) (state d) (is_uac d).

(** ** Sequences of requests *)

(** The dialog after a sequence of requests, and those it accepted. *)
Fixpoint receive_all (d : t) (requests : list SipMessage) : t * list SipMessage :=
  match requests with
  | [] => (d, [])
  | r :: rs =>
      match validate_remote_request d r with
      | Ok d' => let (d'', acc) := receive_all d' rs in (d'', r :: acc)
      | Err _ => receive_all d rs
      end
  end.

Definition is_ack (r : SipMessage) : bool := bool_decide (method r = Some Ack).

(** The CSeq numbers of the requests that take a new one. *)
Definition new_numbers (rs : list SipMessage) : list Z := omap cseq_number (filter (λ r, is_ack r = false) rs).

(** A request of the other party of the dialog: its Call-ID, its tags, and its routes if
    it names any. *)
Record belongs (d : t) (r : SipMessage) : Prop := {
  bel_call_id : SipMessage.call_id r = Some (call_id d);
  bel_to : tag_of (to_header r) = Some (local_tag d);
  bel_from : tag_of (from_header r) = Some (remote_tag d);
  bel_routes : normalized_headers r ROUTE = [] ∨ normalized_headers r ROUTE = normalized_route_set (route_set d);
}.

(** The number a request may carry after the numbers [ns]: an ACK the last one, another
    request a greater one. *)
Definition in_turn (ns : list Z) (r : SipMessage) : Prop :=
  is_request r = true ∧ ∃ n, cseq_number r = Some n ∧
    if is_ack r then last ns = Some n else ∀ p, last ns = Some p → p < n.

(** The identity an in-dialog request of [d]'s owner carries. *)
Record in_dialog (d : t) (request : SipMessage) : Prop := {
  id_call_id : SipMessage.call_id request = Some (call_id d);
  id_from : tag_of (from_header request) = Some (local_tag d);
  id_to : tag_of (to_header request) = Some (remote_tag d);
}.

(** ** Lemmas *)

Lemma uri_or_default_returns h : returns (uri_or_default h).
Proof.
  destruct h as [v|]; simpl; [|eauto with rust].
  apply returns_bind; [apply extract_uri_returns|eauto with rust].
Qed.

Lemma from_uas_request_returns r tag : returns (from_uas_request r tag).
Proof.
  unfold from_uas_request. repeat case_step; eauto with rust.
  apply returns_bind; [apply uri_or_default_returns|]. intros ? _.
  apply returns_bind; [apply uri_or_default_returns|]. eauto with rust.
Qed.

Lemma from_uac_response_returns q r : returns (from_uac_response q r).
Proof.
  unfold from_uac_response. do 4 (case_step; [|eauto with rust]).
  do 3 (apply returns_bind; [apply uri_or_default_returns|]; intros ? _).
  repeat case_step; eauto with rust.
Qed.

(** Acceptance, inverted. *)
Lemma validate_Ok d r d' :
  validate_remote_request d r = Ok d' ↔
    in_dialog (mk (call_id d) (remote_tag d) (local_tag d) (local_seq d) (remote_seq d)
                 (local_uri d) (remote_uri d) (remote_target d) (route_set d) (state d)
                 (is_uac d)) r
    ∧ (normalized_headers r ROUTE = []
       ∨ normalized_headers r ROUTE = normalized_route_set (route_set d))
    ∧ ∃ n, cseq_number r = Some n ∧
        ((method r = Some Ack ∧ remote_seq d = Some n ∧ d' = d)
         ∨ (is_request r = true ∧ method r ≠ Some Ack ∧ advances (remote_seq d) n = true
            ∧ d' = set_remote_seq d n)).
Proof.
  unfold validate_remote_request. split.
  - intros H. repeat (case_hyp H; try done); split_bools;
      repeat match goal with
      | H : bool_decide _ = true |- _ => apply bool_decide_eq_true in H
      end; simplify_eq;
      (split; [by split|split;
        [try (by left); try (by right);
         match goal with H : _ && _ = false |- _ => apply andb_false_iff in H as [H|H] end;
         split_bools; apply bool_decide_eq_true in Heqb2; auto
        | eexists; split; [done|]]]);
      try (by left); right;
      (split; [unfold is_request, method in *; by destruct (start_line r)|naive_solver]).
  - intros ([H1 H2 H3] & Hr & n & Hn & Hcase). simpl in *.
    rewrite !bool_decide_eq_true_2 by done. simpl.
    replace (negb (bool_decide (normalized_headers r ROUTE = []))
             && negb (bool_decide (normalized_headers r ROUTE
                                     = normalized_route_set (route_set d)))) with false.
    2:{ symmetry. apply andb_false_iff.
        destruct Hr as [Hr|Hr]; [left|right]; apply negb_false_iff;
          by apply bool_decide_eq_true_2. }
    rewrite Hn. destruct Hcase as [(-> & Hs & ->)|(Hq & Hm & Ha & ->)].
    + by rewrite bool_decide_eq_true_2.
    + unfold is_request, method in *. destruct (start_line r) as [q|]; [|done].
      destruct (rl_method q); rewrite ?Ha; done.
Qed.

(** Everything but the remote sequence number. *)
Definition same_but_seq (d d' : t) : Prop :=
  ∃ n, d' = d ∨ d' = set_remote_seq d n.

(** The dialogs the two parties create from one exchange. *)
Lemma dialogs_mirror invite resp invite' ltag d1 d2 :
  from_uac_response invite resp = Done (Some d1) →
  from_uas_request invite' ltag = Done (Some d2) →
  SipMessage.call_id invite' = SipMessage.call_id invite →
  from_header invite' = from_header invite →
  cseq_number invite' = cseq_number invite →
  tag_of (to_header resp) = Some ltag →
  call_id d2 = call_id d1 ∧ local_tag d2 = remote_tag d1 ∧ remote_tag d2 = local_tag d1
  ∧ local_seq d1 = default 1 (remote_seq d2).
Proof.
  unfold from_uac_response, from_uas_request, tag_of. intros H1 H2 Hc Hf Hn Ht.
  rewrite Hc, Hf, Hn in H2. destruct (SipMessage.call_id invite); [|done].
  destruct (from_header invite) as [f|]; [|done]. simpl in *.
  destruct (extract_tag f); [|done]. simpl in *.
  destruct (to_header resp) as [th|]; [|done]. simpl in *. rewrite Ht in H1.
  repeat (apply outcome_bind_Done in H1 as (? & ? & H1)).
  repeat (apply outcome_bind_Done in H2 as (? & ? & H2)).
  repeat case_hyp H1; by simplify_eq.
Qed.

(** ** Theorems *)

Definition valid_next (d : t) (r : SipMessage) : bool := match validate_remote_request d r with Ok _ => true | Err _ => false end.

(** Acceptance, by the number that was accepted last. *)
Lemma accepts_iff d r : valid_next d r = true ↔ belongs d r ∧ in_turn (option_list (remote_seq d)) r.
Proof.
  assert (Hlast : last (option_list (remote_seq d)) = remote_seq d) by by destruct (remote_seq d).
  unfold in_turn, is_ack, valid_next. rewrite Hlast. split.
  - destruct (validate_remote_request d r) as [d'|] eqn:E; [|done]. intros _.
    apply validate_Ok in E as ([H1 H2 H3] & Hr & n & Hn & [(Hm & Hs & _)|(Hq & Hm & Ha & _)]); split; try by split.
    + split; [unfold is_request, method in *; by destruct (start_line r)|]. exists n. by rewrite bool_decide_eq_true_2.
    + split; [done|]. exists n. split; [done|]. rewrite bool_decide_eq_false_2 by done. intros p Hp.
      rewrite Hp in Ha. unfold advances in Ha. lia.
  - intros ([H1 H2 H3 H4] & Hq & n & Hn & Hc).
    destruct (decide (method r = Some Ack)) as [Hm|Hm].
    + rewrite bool_decide_eq_true_2 in Hc by done. rewrite (proj2 (validate_Ok d r d)); [done|].
      split; [by split|]. split; [done|]. exists n. split; [done|]. by left.
    + rewrite bool_decide_eq_false_2 in Hc by done. rewrite (proj2 (validate_Ok d r (set_remote_seq d n))); [done|].
      split; [by split|]. split; [done|]. exists n. split; [done|]. right. split_and!; [done|done| |done].
      unfold advances. destruct (remote_seq d) as [p|]; [|done]. apply Z.ltb_lt. by apply Hc.
Qed.

Lemma receive_all_app d xs ys :
  receive_all d (xs ++ ys) = let '(d1, acc1) := receive_all d xs in let '(d2, acc2) := receive_all d1 ys in (d2, acc1 ++ acc2).
Proof.
  revert d. induction xs as [|x xs IH]; intros d; cbn [app receive_all]; [by destruct (receive_all d ys)|].
  destruct (validate_remote_request d x) as [d'|]; [|apply IH]. rewrite IH. destruct (receive_all d' xs) as [d1 acc1].
  by destruct (receive_all d1 ys).
Qed.

Lemma new_numbers_app xs ys : new_numbers (xs ++ ys) = new_numbers xs ++ new_numbers ys.
Proof. unfold new_numbers. by rewrite filter_app, omap_app. Qed.

(** What holds of the requests that were accepted so far. *)
Record log_ok (d d' : t) (acc : list SipMessage) : Prop := {
  log_sorted : StronglySorted Z.lt (option_list (remote_seq d) ++ new_numbers acc);
  log_last : remote_seq d' = last (option_list (remote_seq d) ++ new_numbers acc);
  log_same : same_but_seq d d';
  log_turn : ∀ pre r post, acc = pre ++ r :: post → belongs d r ∧ in_turn (option_list (remote_seq d) ++ new_numbers pre) r;
}.

Lemma sorted_snoc l n : StronglySorted Z.lt l → (∀ p, last l = Some p → p < n) → StronglySorted Z.lt (l ++ [n]).
Proof.
  induction l as [|x l IH]; intros Hs Hn; [repeat constructor|]. apply StronglySorted_inv in Hs as [Hs Hf]. cbn [app].
  assert (Hlast : ∀ p, last l = Some p → p < n) by (intros p Hp; apply Hn; rewrite last_cons; by rewrite Hp).
  constructor; [by apply IH|]. apply Forall_app. split; [done|]. constructor; [|done].
  destruct (last l) as [p|] eqn:E; [|apply Hn; by rewrite last_cons, E]. 
  apply last_Some in E as [l' ->]. apply Forall_app in Hf as [_ Hf]. inversion_clear Hf. specialize (Hlast p eq_refl). lia.
Qed.

Lemma belongs_same d d' r : same_but_seq d d' → belongs d' r ↔ belongs d r.
Proof. intros [m [-> | ->]]; [done|]. split; intros [H1 H2 H3 H4]; by split. Qed.

Lemma last_in_turn l l' r : last l = last l' → in_turn l r ↔ in_turn l' r.
Proof. unfold in_turn. intros ->. done. Qed.

Lemma log_step d d1 acc r d2 : log_ok d d1 acc → validate_remote_request d1 r = Ok d2 → log_ok d d2 (acc ++ [r]).
Proof.
  intros [L1 L2 L3 L4] E. assert (Hacc : valid_next d1 r = true) by (unfold valid_next; by rewrite E).
  apply accepts_iff in Hacc as [Hb Ht]. apply (belongs_same d d1 r L3) in Hb.
  assert (Ht' : in_turn (option_list (remote_seq d) ++ new_numbers acc) r).
  { eapply last_in_turn; [|exact Ht]. rewrite <-L2. by destruct (remote_seq d1). }
  assert (Hn : new_numbers [r] = if is_ack r then [] else option_list (cseq_number r)).
  { unfold new_numbers. rewrite filter_cons. destruct (is_ack r) eqn:Ea; [rewrite decide_False by done; done|].
    rewrite decide_True by done. cbn. by destruct (cseq_number r). }
  apply validate_Ok in E as (_ & _ & n & En & Hc). rewrite En in Hn.
  split.
  - rewrite new_numbers_app, app_assoc, Hn. destruct (is_ack r) eqn:Ea; [by rewrite app_nil_r|]. apply sorted_snoc; [done|].
    destruct Ht' as (_ & n' & En' & Hlt). rewrite Ea in Hlt. by simplify_eq.
  - rewrite new_numbers_app, app_assoc, Hn. unfold is_ack. destruct Hc as [(Hm & Hs & ->)|(_ & Hm & _ & ->)].
    + rewrite bool_decide_eq_true_2 by done. by rewrite app_nil_r.
    + rewrite bool_decide_eq_false_2 by done. change (option_list (Some n)) with [n]. by rewrite last_snoc.
  - destruct Hc as [(_ & _ & ->)|(_ & _ & _ & ->)]; [done|]. destruct L3 as [m [-> | ->]]; exists n; by right.
  - intros pre x post Heq. destruct post as [|y post] using rev_ind.
    + apply app_inj_tail in Heq as [-> ->]. done.
    + clear IHpost. rewrite app_comm_cons, app_assoc in Heq. apply app_inj_tail in Heq as [-> _]. by eapply L4.
Qed.

Lemma receive_all_log d requests : log_ok d (receive_all d requests).1 (receive_all d requests).2.
Proof.
  induction requests as [|r rs IH] using rev_ind.
  - cbn. split; cbn [new_numbers]; [|by rewrite app_nil_r; destruct (remote_seq d)|exists 0; by left|by intros [|] ? ? ?].
    unfold new_numbers. cbn. rewrite app_nil_r. destruct (remote_seq d); repeat constructor.
  - rewrite receive_all_app. destruct (receive_all d rs) as [d1 acc]. cbn [receive_all fst snd] in *.
    destruct (validate_remote_request d1 r) as [d2|] eqn:E; cbn [fst snd]; [by eapply log_step|by rewrite app_nil_r].
Qed.

(** C9. Replay protection.  Over any sequence of requests: the CSeq numbers of those a
    dialog accepts strictly increase from the one it starts with, an accepted ACK repeats
    the last one, every accepted request is of the other party of the dialog, the dialog
    holds the last number, and nothing else of it changes.  And nothing else is refused:
    what comes next is accepted exactly when it belongs to the dialog and carries a number
    that is in turn. *)
Theorem accepted_cseqs_increase (d : t) (requests : list SipMessage) (d' : t) (acc : list SipMessage)
    (Hrun : receive_all d requests = (d', acc)) :
  let ns := option_list (remote_seq d) ++ new_numbers acc in
  StronglySorted Z.lt ns ∧ remote_seq d' = last ns ∧ same_but_seq d d' ∧ acc `sublist_of` requests
  ∧ (∀ pre ack post, acc = pre ++ ack :: post → is_ack ack = true →
       ∃ n, cseq_number ack = Some n ∧ last (option_list (remote_seq d) ++ new_numbers pre) = Some n)
  ∧ Forall (belongs d) acc
  ∧ ∀ r, ((receive_all d (requests ++ [r])).2 = acc ++ [r] ↔ belongs d r ∧ in_turn ns r)
         ∧ (¬ (belongs d r ∧ in_turn ns r) → receive_all d (requests ++ [r]) = (d', acc)).
Proof.
  intros ns. pose proof (receive_all_log d requests) as Hlog. rewrite Hrun in Hlog. cbn [fst snd] in Hlog. destruct Hlog as [L1 L2 L3 L4].
  split_and!; [done|done|done|..].
  - clear -Hrun. revert d acc d' Hrun. induction requests as [|r rs IH]; intros d acc d' Hrun; cbn in Hrun; [by simplify_eq|].
    destruct (validate_remote_request d r) as [d1|]; [|by apply sublist_cons, (IH d acc d')].
    destruct (receive_all d1 rs) as [d2 acc2] eqn:E. simplify_eq. by eapply sublist_skip, IH.
  - intros pre ack post Heq Ha. destruct (L4 _ _ _ Heq) as (_ & _ & n & Hn & Hl). rewrite Ha in Hl. by exists n.
  - apply Forall_forall. intros x (pre & post & Heq)%list_elem_of_split. by eapply L4.
  - intros r. assert (Hacc : valid_next d' r = true ↔ belongs d r ∧ in_turn ns r).
    { rewrite accepts_iff, (belongs_same d d' r L3). rewrite (last_in_turn (option_list (remote_seq d')) ns r); [done|].
      unfold ns. rewrite <-L2. by destruct (remote_seq d'). }
    unfold valid_next in Hacc. rewrite <-Hacc, receive_all_app, Hrun. cbn [receive_all]. destruct (validate_remote_request d' r) as [d2|] eqn:E; cbn [snd].
    + done.
    + rewrite app_nil_r. split; [|done]. split; [|done]. intros Hl. apply (f_equal length) in Hl. rewrite length_app in Hl. cbn in Hl. lia.
Qed.

(** An INVITE, a re-INVITE replayed, and an out-of-order request. *)
Definition example_request (m : SipMethod) (cseq : str) (to_hdr : str) : SipMessage :=
  mkSipMessage
    (SipMessage.Request (mkRequestLine m
       (mkSipUri (lit "sip") None None (lit "h") None ∅ ∅) SIP_2_0))
    [mkSipHeader FROM (lit "<sip:a@x>;tag=aa"); mkSipHeader TO to_hdr;
     mkSipHeader CALL_ID (lit "id1"); mkSipHeader CSEQ cseq] [].

Definition example_dialog : t :=
  mk (lit "id1") (lit "bb") (lit "aa") 0 (Some 7) [] [] [] [] Early false.

Lemma accepted_cseqs_increase_witness :
  let to_hdr := lit "<sip:b@y>;tag=bb" in
  let rs := [example_request Invite (lit "8 INVITE") to_hdr;
             example_request Ack (lit "8 ACK") to_hdr;
             example_request Invite (lit "8 INVITE") to_hdr;
             example_request Ack (lit "9 ACK") to_hdr;
             example_request Bye (lit "5 BYE") to_hdr;
             example_request Bye (lit "12 BYE") to_hdr] in
  let st := receive_all example_dialog rs in
  omap cseq_number st.2 = [8; 8; 12] ∧ StronglySorted Z.lt [7; 8; 12] ∧ remote_seq st.1 = Some 12
  ∧ Forall (belongs example_dialog) st.2.
Proof.
  intros to_hdr rs st. assert (Hrun : receive_all example_dialog rs = (st.1, st.2)) by apply surjective_pairing.
  destruct (accepted_cseqs_increase example_dialog rs st.1 st.2 Hrun) as (Hs & Hl & _ & _ & _ & Hf & _).
  split; [vm_compute; reflexivity|]. split; [exact Hs|]. split; [exact Hl|exact Hf].
Defined.

(** The two ends of a call agree: from the INVITE and a response carrying
    the callee's tag, the caller's and the callee's dialogs are mirror images;
    the caller's next request (it identifies the dialog, takes [next_cseq] and
    has no Route) is accepted by the callee, its replay is rejected with a CSeq
    error, and the ACK of the INVITE is accepted without a change. *)
Theorem next_request_accepted (invite resp invite' r ack : SipMessage) (ltag : str) (d1 d2 : t)
    (Huac : from_uac_response invite resp = Done (Some d1))
    (Huas : from_uas_request invite' ltag = Done (Some d2))
    (Hcall : SipMessage.call_id invite' = SipMessage.call_id invite)
    (Hfrom : from_header invite' = from_header invite)
    (Hcseq : cseq_number invite' = cseq_number invite)
    (Htag : tag_of (to_header resp) = Some ltag)
    (Hrange : local_seq d1 < u32_max)
    (Hr : in_dialog d1 r) (Hrq : is_request r = true) (Hrm : method r ≠ Some Ack)
    (Hrn : cseq_number r = Some (next_cseq d1).1) (Hrr : get_headers r ROUTE = [])
    (Ha : in_dialog d1 ack) (Ham : method ack = Some Ack)
    (Han : cseq_number ack = cseq_number invite') (Hai : is_Some (cseq_number invite'))
    (Har : get_headers ack ROUTE = []) :
  let n := (next_cseq d1).1 in
  validate_remote_request d2 ack = Ok d2
  ∧ validate_remote_request d2 r = Ok (set_remote_seq d2 n)
  ∧ validate_remote_request (set_remote_seq d2 n) r = Err ECSeq.
Proof.
  destruct (dialogs_mirror _ _ _ _ _ _ Huac Huas Hcall Hfrom Hcseq Htag) as (Ec & El & Er & Es).
  assert (Hseq : remote_seq d2 = cseq_number invite').
  { clear -Huas. unfold from_uas_request in Huas. repeat case_hyp Huas; try done.
    repeat (apply outcome_bind_Done in Huas as (? & ? & Huas)). by simplify_eq. }
  destruct Hai as [k Hk]. rewrite Hseq, Hk in Es. simpl in Es. rewrite Hk in Han.
  assert (Hk0 : 0 ≤ k).
  { clear -Hk. unfold cseq_number in Hk.
    apply bind_Some in Hk as (cs & _ & Hk). apply bind_Some in Hk as (x & _ & Hk).
    by apply parse_u32_range in Hk as [??]. }
  assert (Hn : (next_cseq d1).1 = k + 1).
  { simpl. rewrite wrap_u32_id; [lia|]. unfold is_u32. lia. }
  rewrite Hn in *. cbv zeta. split_and!.
  - apply validate_Ok. split_and!; [by split; simpl; rewrite ?Ec, ?El, ?Er; apply Ha| |].
    + left. unfold normalized_headers. by rewrite Har.
    + exists k. split; [done|]. left. by rewrite Hseq.
  - apply validate_Ok. split_and!; [by split; simpl; rewrite ?Ec, ?El, ?Er; apply Hr| |].
    + left. unfold normalized_headers. by rewrite Hrr.
    + exists (k + 1). split; [done|]. right. rewrite Hseq, Hk. simpl.
      split_and!; [done|done|apply Z.ltb_lt; lia|done].
  - unfold validate_remote_request. simpl.
    destruct Hr as [H1 H2 H3]. rewrite Ec, El, Er.
    rewrite !bool_decide_eq_true_2 by done. simpl.
    unfold normalized_headers. rewrite Hrr. simpl. rewrite Hrn.
    unfold is_request, method in *. destruct (start_line r) as [q|]; [|done].
    assert (Hlt : (k + 1 <? k + 1) = false) by apply Z.ltb_irrefl.
    destruct (rl_method q); rewrite ?Hlt; done.
Qed.

Definition example_response : SipMessage :=
  mkSipMessage (SipMessage.Response (mkStatusLine SIP_2_0 200 (lit "OK")))
    [mkSipHeader FROM (lit "<sip:a@x>;tag=aa"); mkSipHeader TO (lit "<sip:b@y>;tag=bb");
     mkSipHeader CALL_ID (lit "id1"); mkSipHeader CSEQ (lit "41 INVITE")] [].

Lemma next_request_accepted_witness :
  let invite := example_request Invite (lit "41 INVITE") (lit "<sip:b@y>") in
  let to_hdr := lit "<sip:b@y>;tag=bb" in
  let r := example_request Bye (lit "42 BYE") to_hdr in
  let ack := example_request Ack (lit "41 ACK") to_hdr in
  let d2 := mk (lit "id1") (lit "bb") (lit "aa") 0 (Some 41) [] (lit "sip:a@x") [] [] Early false in
  validate_remote_request d2 ack = Ok d2
  ∧ validate_remote_request d2 r = Ok (set_remote_seq d2 42)
  ∧ validate_remote_request (set_remote_seq d2 42) r = Err ECSeq.
Proof.
  eapply (next_request_accepted
            (example_request Invite (lit "41 INVITE") (lit "<sip:b@y>")) example_response
            (example_request Invite (lit "41 INVITE") (lit "<sip:b@y>"))
            _ _ (lit "bb")
            (mk (lit "id1") (lit "aa") (lit "bb") 41 None [] (lit "sip:b@y") [] [] Confirmed true));
    try (vm_compute; reflexivity); try (split; vm_compute; reflexivity); try done.
Defined.

End Dialog.
