(* ===== verification/SipStack.v ===== *)
(** * The SIP stack coordinator ([asterisk-sip/src/stack.rs])

    [TransactionLayer], the four transaction maps and the cache of INVITE
    finals, and the handlers of [SipStack] that route messages and timer ticks
    through it.  A handler is a function from the layer to the layer and the
    list of its effects, in order: datagrams ([Send]) and events for the
    application ([Emit]).  The handlers run to completion on one instant [now];
    random identifiers and the outcome of a send are arguments.

    The [SdpSession], RTP and authentication fields of a session are left out. *)

From Stdlib Require Import NArith Ascii String.
From S2P Require Import Prelude RustStr HashMap SipUri SipMessage SipVia SipTransaction SipDialog.
Local Open Scope Z_scope.
Local Open Scope list_scope.

#[export] Instance SocketAddr_eq_dec : EqDecision SocketAddr.
Proof. solve_decision. Defined.

Definition cseq_number (msg : SipMessage) : option str :=
  v ← get_header msg CSEQ; head (split_whitespace v).

Definition cseq_method (msg : SipMessage) : option str :=
  v ← get_header msg CSEQ; split_whitespace v !! 1%nat.

Definition from_tag (msg : SipMessage) : option str := from_header msg ≫= extract_tag.
Definition to_tag (msg : SipMessage) : option str := to_header msg ≫= extract_tag.

Definition request_identity_matches (original retransmission : SipMessage) : bool :=
  bool_decide (call_id original = call_id retransmission)
  && bool_decide (cseq_number original = cseq_number retransmission)
  && bool_decide (from_tag original = from_tag retransmission).

Definition MAX_FORWARDS : str := lit "Max-Forwards".

(** The headers of the INVITE an ACK repeats. *)
Definition ack_header (h : SipHeader) : bool :=
  has_name VIA h || has_name MAX_FORWARDS h || has_name FROM h || has_name CALL_ID h
  || has_name ROUTE h.

Definition build_non_2xx_ack (invite response : SipMessage) : option SipMessage :=
  match start_line invite with
  | Response _ => None
  | Request line =>
      cseq ← cseq_number invite;
      to ← to_header response;
      Some (mkSipMessage (Request (mkRequestLine Ack (rl_uri line) (rl_version line)))
              (List.filter ack_header (headers invite)
               ++ [mkSipHeader TO to; mkSipHeader CSEQ (cseq ++ lit " ACK");
                   mkSipHeader CONTENT_LENGTH (lit "0")]) [])
  end.

(** ** Sessions ([session/mod.rs], the signalling fields) *)

Inductive SessionState :=
  | SsInitiated | SsEarly | SsEstablished | SsTerminating | SsTerminated.

Record SipSession := mkSipSession {
  ses_id : str;
  ses_state : SessionState;
  ses_dialog : option Dialog.t;
  ses_local_addr : SocketAddr;
  ses_remote_addr : SocketAddr;
  ses_invite : option SipMessage;
  ses_is_outbound : bool;
  ses_call_id : str;
  ses_local_tag : str }.

(** [id] is a fresh UUID, [tag] the first eight characters of another. *)
Definition new_inbound (id tag : str) (invite : SipMessage) (local_addr remote_addr : SocketAddr)
    : outcome (option SipSession) :=
  match call_id invite with
  | None => Done None
  | Some cid =>
      let! dialog := Dialog.from_uas_request invite tag in
      Done (Some (mkSipSession id SsInitiated dialog local_addr remote_addr (Some invite)
                    false cid tag))
  end.

(** ** Events and effects *)

Inductive SipEvent :=
  | IncomingInvite (session : SipSession) (request : SipMessage) (remote_addr : SocketAddr)
  | EvResponse (response : SipMessage) (remote_addr : SocketAddr)
  | IncomingBye (cid : str) (request : SipMessage) (remote_addr : SocketAddr)
  | IncomingCancel (cid : str) (request : SipMessage) (remote_addr : SocketAddr)
  | IncomingAck (cid : str) (request : SipMessage) (remote_addr : SocketAddr)
  | InviteAckTimeout (cid : str)
  | IncomingRequest (request : SipMessage) (remote_addr : SocketAddr)
  | TransactionTimeout (branch : str) (cid : option str) (meth : option SipMethod)
      (client : bool).

Inductive effect :=
  | Send (msg : SipMessage) (addr : SocketAddr)
  | Emit (event : SipEvent).

(** ** The transaction layer *)

Record CachedInviteFinal := mkCached {
  cf_request : SipMessage;
  cf_remote_addr : SocketAddr;
  cf_response : SipMessage;
  cf_expires_at : Z }.

Record TransactionTimeoutEvent := mkTimeout {
  te_branch : str;
  te_call_id : option str;
  te_method : option SipMethod;
  te_client : bool;
  te_invite_ack_call_id : option str }.

Record MatchedResponse := mkMatched {
  mr_branch : str;
  mr_transaction_ack : option (SipMessage * SocketAddr) }.

Record TransactionLayer := mkLayer {
  invite_client_txns : gmap str ClientTransaction.t;
  invite_server_txns : gmap str ServerTransaction.t;
  non_invite_client_txns : gmap str NonInviteClientTransaction.t;
  non_invite_server_txns : gmap str NonInviteServerTransaction.t;
  invite_final_cache : gmap str CachedInviteFinal }.

Definition new_layer : TransactionLayer := mkLayer ∅ ∅ ∅ ∅ ∅.

Definition set_invite_client (l : TransactionLayer) m : TransactionLayer :=
  mkLayer m (invite_server_txns l) (non_invite_client_txns l) (non_invite_server_txns l)
    (invite_final_cache l).
Definition set_invite_server (l : TransactionLayer) m : TransactionLayer :=
  mkLayer (invite_client_txns l) m (non_invite_client_txns l) (non_invite_server_txns l)
    (invite_final_cache l).
Definition set_non_invite_client (l : TransactionLayer) m : TransactionLayer :=
  mkLayer (invite_client_txns l) (invite_server_txns l) m (non_invite_server_txns l)
    (invite_final_cache l).
Definition set_non_invite_server (l : TransactionLayer) m : TransactionLayer :=
  mkLayer (invite_client_txns l) (invite_server_txns l) (non_invite_client_txns l) m
    (invite_final_cache l).
Definition set_final_cache (l : TransactionLayer) m : TransactionLayer :=
  mkLayer (invite_client_txns l) (invite_server_txns l) (non_invite_client_txns l)
    (non_invite_server_txns l) m.

(** The first [branch=] parameter of the top Via. *)
Fixpoint first_branch (params : list str) : option str :=
  match params with
  | [] => None
  | p :: ps =>
      match strip_prefix (lit "branch=") (trim p) with
      | Some v => Some v
      | None => first_branch ps
      end
  end.

Definition extract_branch (msg : SipMessage) : option str :=
  via ← get_header msg VIA; first_branch (split (chr ";") via).

Definition process_response (now : Z) (l : TransactionLayer) (response : SipMessage)
    (src : SocketAddr) : TransactionLayer * option MatchedResponse :=
  match extract_branch response with
  | None => (l, None)
  | Some branch =>
      let is_invite := match cseq_method response with
                       | Some m => eq_ignore_ascii_case m (lit "INVITE")
                       | None => false
                       end in
      match (if is_invite then invite_client_txns l !! branch else None) with
      | Some txn =>
          if negb (bool_decide (ClientTransaction.remote_addr txn = src)) then (l, None)
          else
            let ack := if in_range 300 700 (status_of response)
                       then build_non_2xx_ack (ClientTransaction.request txn) response
                       else None in
            (set_invite_client l
               (<[branch := ClientTransaction.on_response now txn response]>
                  (invite_client_txns l)),
             Some (mkMatched branch
                     ((λ a, (a, ClientTransaction.remote_addr txn)) <$> ack)))
      | None =>
          match non_invite_client_txns l !! branch with
          | None => (l, None)
          | Some txn =>
              if negb (bool_decide (NonInviteClientTransaction.remote_addr txn = src))
              then (l, None)
              else
                match cseq_method response,
                      method_str <$> method (NonInviteClientTransaction.request txn) with
                | Some rm, Some qm =>
                    if eq_ignore_ascii_case rm qm then
                      (set_non_invite_client l
                         (<[branch := NonInviteClientTransaction.on_response now txn response]>
                            (non_invite_client_txns l)),
                       Some (mkMatched branch None))
                    else (l, None)
                | _, _ => (l, None)
                end
          end
      end
  end.

Definition matches_server (txn_request : SipMessage) (txn_addr : SocketAddr)
    (request : SipMessage) (src : SocketAddr) : bool :=
  bool_decide (method txn_request = method request)
  && request_identity_matches txn_request request
  && bool_decide (txn_addr = src).

(** The three sources [matched_retransmission] tries, in order. *)
Definition replay_invite (l : TransactionLayer) (branch : str) (request : SipMessage)
    (src : SocketAddr) : option (option SipMessage) :=
  txn ← invite_server_txns l !! branch;
  if matches_server (ServerTransaction.request txn) (ServerTransaction.remote_addr txn)
       request src
  then Some (ServerTransaction.last_response txn) else None.

Definition replay_non_invite (l : TransactionLayer) (branch : str) (request : SipMessage)
    (src : SocketAddr) : option (option SipMessage) :=
  txn ← non_invite_server_txns l !! branch;
  if matches_server (NonInviteServerTransaction.request txn)
       (NonInviteServerTransaction.remote_addr txn) request src
  then Some (NonInviteServerTransaction.last_response txn) else None.

Definition replay_cached (now : Z) (l : TransactionLayer) (branch : str) (request : SipMessage)
    (src : SocketAddr) : option (option SipMessage) :=
  if bool_decide (method request = Some Invite) then
    cached ← invite_final_cache l !! branch;
    if (now <? cf_expires_at cached)
       && bool_decide (cf_remote_addr cached = src)
       && request_identity_matches (cf_request cached) request
    then Some (Some (cf_response cached)) else None
  else None.

Definition replay_any (now : Z) (l : TransactionLayer) (branch : str) (request : SipMessage)
    (src : SocketAddr) : option (option SipMessage) :=
  match replay_invite l branch request src with
  | Some replay => Some replay
  | None =>
      match replay_non_invite l branch request src with
      | Some replay => Some replay
      | None => replay_cached now l branch request src
      end
  end.

Definition matched_retransmission (now : Z) (l : TransactionLayer) (request : SipMessage)
    (src : SocketAddr) : option (option SipMessage) :=
  branch ← extract_branch request;
  _ ← method request;
  replay_any now l branch request src.

Definition record_non_invite_response (now : Z) (l : TransactionLayer) (response : SipMessage)
    (remote : SocketAddr) : TransactionLayer :=
  match extract_branch response, status_code response with
  | Some branch, Some status =>
      match non_invite_server_txns l !! branch with
      | None => l
      | Some txn =>
          if negb (bool_decide (NonInviteServerTransaction.remote_addr txn = remote))
             || negb (bool_decide (call_id (NonInviteServerTransaction.request txn)
                                     = call_id response))
             || negb (bool_decide (cseq_number (NonInviteServerTransaction.request txn)
                                     = cseq_number response))
             || negb (bool_decide (from_tag (NonInviteServerTransaction.request txn)
                                     = from_tag response))
          then l
          else
            let txn' := if status <? 200
                        then NonInviteServerTransaction.send_provisional txn response
                        else NonInviteServerTransaction.send_final now txn response in
            set_non_invite_server l (<[branch := txn']> (non_invite_server_txns l))
      end
  | _, _ => l
  end.

(** The test of one transaction of the loop in [accepted_ack_branch]. *)
Definition accepts_ack (cid from_tag' to_tag' ack_cseq : str) (txn : ServerTransaction.t) : bool :=
  bool_decide (ServerTransaction.state txn = ServerTransaction.Accepted)
  && bool_decide (call_id (ServerTransaction.request txn) = Some cid)
  && bool_decide (from_tag (ServerTransaction.request txn) = Some from_tag')
  && bool_decide (cseq_number (ServerTransaction.request txn) = Some ack_cseq)
  && bool_decide (ServerTransaction.last_response txn ≫= to_tag = Some to_tag').

Definition accepted_ack_branch `{HashOrder} (l : TransactionLayer) (ack : SipMessage)
    : option str :=
  cid ← call_id ack;
  ft ← from_tag ack;
  tt ← to_tag ack;
  n ← cseq_number ack;
  fst <$> List.find (λ bt, accepts_ack cid ft tt n bt.2) (hash_iter (invite_server_txns l)).

(** [expire_timers], one transaction at a time: the transaction afterwards and
    the timeout to report. *)
Definition timeout_of (branch : str) (request : SipMessage) (client : bool)
    (ack_call_id : option str) : TransactionTimeoutEvent :=
  mkTimeout branch (call_id request) (method request) client ack_call_id.

Definition expire_invite_client (now : Z) (branch : str) (txn : ClientTransaction.t)
    : ClientTransaction.t * option TransactionTimeoutEvent :=
  if ClientTransaction.timer_b_expired now txn then
    (ClientTransaction.terminate txn,
     Some (timeout_of branch (ClientTransaction.request txn) true None))
  else if ClientTransaction.timer_d_expired now txn then (ClientTransaction.terminate txn, None)
  else (txn, None).

Definition expire_non_invite_client (now : Z) (branch : str) (txn : NonInviteClientTransaction.t)
    : NonInviteClientTransaction.t * option TransactionTimeoutEvent :=
  if NonInviteClientTransaction.timer_f_expired now txn then
    (NonInviteClientTransaction.terminate txn,
     Some (timeout_of branch (NonInviteClientTransaction.request txn) true None))
  else if NonInviteClientTransaction.timer_k_expired now txn
  then (NonInviteClientTransaction.terminate txn, None)
  else (txn, None).

Definition expire_invite_server (now : Z) (branch : str) (txn : ServerTransaction.t)
    : ServerTransaction.t * option TransactionTimeoutEvent :=
  if ServerTransaction.timer_h_expired now txn then
    let invite_ack_call_id :=
      if bool_decide (ServerTransaction.state txn = ServerTransaction.Accepted)
      then call_id (ServerTransaction.request txn) else None in
    (ServerTransaction.terminate txn,
     Some (timeout_of branch (ServerTransaction.request txn) false invite_ack_call_id))
  else if ServerTransaction.timer_i_expired now txn then (ServerTransaction.terminate txn, None)
  else (txn, None).

Definition expire_non_invite_server (now : Z) (txn : NonInviteServerTransaction.t)
    : NonInviteServerTransaction.t :=
  if NonInviteServerTransaction.timer_j_expired now txn
  then NonInviteServerTransaction.terminate txn else txn.

Definition expire_timers `{HashOrder} (now : Z) (l : TransactionLayer)
    : TransactionLayer * list TransactionTimeoutEvent :=
  (mkLayer
     (map_imap (λ b t, Some (expire_invite_client now b t).1) (invite_client_txns l))
     (map_imap (λ b t, Some (expire_invite_server now b t).1) (invite_server_txns l))
     (map_imap (λ b t, Some (expire_non_invite_client now b t).1) (non_invite_client_txns l))
     (expire_non_invite_server now <$> non_invite_server_txns l)
     (invite_final_cache l),
   omap (λ bt, (expire_invite_client now bt.1 bt.2).2) (hash_iter (invite_client_txns l))
   ++ omap (λ bt, (expire_non_invite_client now bt.1 bt.2).2)
        (hash_iter (non_invite_client_txns l))
   ++ omap (λ bt, (expire_invite_server now bt.1 bt.2).2) (hash_iter (invite_server_txns l))).

(** ** The handlers of [SipStack] *)

(** A fresh UUID, its branch form, and its first eight characters. *)
Record Fresh := mkFresh { fr_branch : str; fr_id : str; fr_tag : str }.

Definition branch_of (fresh : Fresh) (request : SipMessage) : str :=
  default (fr_branch fresh) (extract_branch request).

(** [sent] is the outcome of [transport.send]. *)
Definition send_invite (now : Z) (fresh : Fresh) (sent : bool) (l : TransactionLayer)
    (request : SipMessage) (remote : SocketAddr) : TransactionLayer * list effect :=
  let branch := branch_of fresh request in
  let txn := ClientTransaction.new now request remote branch in
  let m := <[branch := txn]> (invite_client_txns l) in
  if sent then (set_invite_client l m, [Send request remote])
  else (set_invite_client l (delete branch m), []).

Definition send_request (now : Z) (fresh : Fresh) (sent : bool) (l : TransactionLayer)
    (request : SipMessage) (remote : SocketAddr) : TransactionLayer * list effect :=
  let branch := branch_of fresh request in
  let txn := NonInviteClientTransaction.new now request remote branch in
  let m := <[branch := txn]> (non_invite_client_txns l) in
  if sent then (set_non_invite_client l m, [Send request remote])
  else (set_non_invite_client l (delete branch m), []).

Definition send_response (now : Z) (l : TransactionLayer) (response : SipMessage)
    (remote : SocketAddr) : TransactionLayer * list effect :=
  (record_non_invite_response now l response remote, [Send response remote]).

(** The answer says whether the caller may send [response]. *)
Definition record_invite_final (now : Z) (l : TransactionLayer) (request response : SipMessage)
    : TransactionLayer * bool :=
  match extract_branch request with
  | None => (l, true)
  | Some branch =>
      match invite_server_txns l !! branch with
      | None => (l, true)
      | Some txn =>
          if bool_decide (ServerTransaction.state txn = ServerTransaction.Proceeding) then
            let cached := mkCached (ServerTransaction.request txn)
                            (ServerTransaction.remote_addr txn) response (now + TIMER_H) in
            (set_final_cache
               (set_invite_server l
                  (<[branch := ServerTransaction.send_final now txn response]>
                     (invite_server_txns l)))
               (<[branch := cached]> (invite_final_cache l)), true)
          else (l, false)
      end
  end.

Definition handle_response (now : Z) (l : TransactionLayer) (response : SipMessage)
    (src : SocketAddr) : TransactionLayer * list effect :=
  let (l', matched) := process_response now l response src in
  let acks := match matched with
              | Some m => match mr_transaction_ack m with
                          | Some (ack, addr) => [Send ack addr]
                          | None => []
                          end
              | None => []
              end in
  (l', acks ++ [Emit (EvResponse response src)]).

Definition cancel_identity_matches (invite cancel : SipMessage) : bool :=
  bool_decide (call_id invite = call_id cancel)
  && bool_decide (cseq_number invite = cseq_number cancel)
  && bool_decide (from_tag invite = from_tag cancel).

Definition REQUEST_TERMINATED : str := lit "Request Terminated".
Definition DOES_NOT_EXIST : str := lit "Call/Transaction Does Not Exist".

(** The part under the lock that concerns the INVITE: the layer, the answer to
    the CANCEL, the answer to the INVITE, the Call-ID to report. *)
Definition cancel_invite (now : Z) (l : TransactionLayer) (branch : str) (request : SipMessage)
    : TransactionLayer * option SipMessage * option SipMessage * option str :=
  let matched :=
    txn ← invite_server_txns l !! branch;
    if cancel_identity_matches (ServerTransaction.request txn) request then Some txn else None in
  match matched with
  | Some txn =>
      let ok := result_ok (create_response request 200 (lit "OK")) in
      if bool_decide (ServerTransaction.state txn = ServerTransaction.Proceeding) then
        match create_response (ServerTransaction.request txn) 487 REQUEST_TERMINATED with
        | Ok resp =>
            (set_invite_server l
               (<[branch := ServerTransaction.send_final now txn resp]> (invite_server_txns l)),
             ok, Some resp, call_id request)
        | Err _ => (l, ok, None, call_id request)
        end
      else (l, ok, None, None)
  | None => (l, result_ok (create_response request 481 DOES_NOT_EXIST), None, None)
  end.

Definition handle_cancel_request (now : Z) (fresh : Fresh) (l : TransactionLayer)
    (request : SipMessage) (src : SocketAddr) : TransactionLayer * list effect :=
  let branch := branch_of fresh request in
  let '(l, cancel_response, invite_response, cancelled_call_id) :=
    cancel_invite now l branch request in
  let txn := NonInviteServerTransaction.new request src branch in
  let txn := match cancel_response with
             | Some resp => NonInviteServerTransaction.send_final now txn resp
             | None => txn
             end in
  (set_non_invite_server l (<[branch := txn]> (non_invite_server_txns l)),
   match cancel_response with Some resp => [Send resp src] | None => [] end
   ++ match invite_response with Some resp => [Send resp src] | None => [] end
   ++ match cancelled_call_id with
      | Some cid => [Emit (IncomingCancel cid request src)]
      | None => []
      end).

Definition handle_ack `{HashOrder} (now : Z) (l : TransactionLayer) (request : SipMessage)
    (src : SocketAddr) : TransactionLayer * list effect :=
  match accepted_ack_branch l request with
  | Some branch =>
      (set_invite_server l (alter (ServerTransaction.on_ack now) branch (invite_server_txns l)),
       [Emit (IncomingAck (default [] (call_id request)) request src)])
  | None =>
      match extract_branch request with
      | None => (l, [])
      | Some branch =>
          match invite_server_txns l !! branch with
          | None => (l, [])
          | Some txn =>
              if bool_decide (ServerTransaction.remote_addr txn = src)
                 && bool_decide (call_id (ServerTransaction.request txn) = call_id request)
                 && bool_decide (cseq_number (ServerTransaction.request txn)
                                   = cseq_number request)
              then (set_invite_server l
                      (<[branch := ServerTransaction.on_ack now txn]> (invite_server_txns l)),
                    [])
              else (l, [])
          end
      end
  end.

Definition new_non_invite (fresh : Fresh) (l : TransactionLayer) (request : SipMessage)
    (src : SocketAddr) : TransactionLayer :=
  let branch := branch_of fresh request in
  set_non_invite_server l
    (<[branch := NonInviteServerTransaction.new request src branch]> (non_invite_server_txns l)).

Definition handle_invite (now : Z) (fresh : Fresh) (local_addr : SocketAddr)
    (l : TransactionLayer) (request : SipMessage) (src : SocketAddr)
    : outcome (TransactionLayer * list effect) :=
  let branch := branch_of fresh request in
  let txn := ServerTransaction.new now request src branch in
  let l := set_invite_server l (<[branch := txn]> (invite_server_txns l)) in
  let! session := new_inbound (fr_id fresh) (fr_tag fresh) request local_addr src in
  Done (l, match session with
           | Some ses => [Emit (IncomingInvite ses request src)]
           | None => []
           end).

Definition handle_request `{HashOrder} (now : Z) (fresh : Fresh) (local_addr : SocketAddr)
    (l : TransactionLayer) (request : SipMessage) (src : SocketAddr)
    : outcome (TransactionLayer * list effect) :=
  match method request with
  | None => Done (l, [])
  | Some meth =>
      let! request := stamp_via_received_rport request src in
      match matched_retransmission now l request src with
      | Some maybe_resp =>
          Done (l, match maybe_resp with Some resp => [Send resp src] | None => [] end)
      | None =>
          match meth with
          | Invite => handle_invite now fresh local_addr l request src
          | Ack => Done (handle_ack now l request src)
          | Cancel => Done (handle_cancel_request now fresh l request src)
          | Bye =>
              Done (new_non_invite fresh l request src,
                    [Emit (IncomingBye (default [] (call_id request)) request src)])
          | _ =>
              Done (new_non_invite fresh l request src, [Emit (IncomingRequest request src)])
          end
      end
  end.

Definition handle_incoming `{HashOrder} (now : Z) (fresh : Fresh) (local_addr : SocketAddr)
    (l : TransactionLayer) (msg : SipMessage) (src : SocketAddr)
    : outcome (TransactionLayer * list effect) :=
  if is_response msg then Done (handle_response now l msg src)
  else handle_request now fresh local_addr l msg src.

(** [handle_timers]: retransmissions, expiry, clean-up. *)

Definition retransmit_clients `{HashOrder} (now : Z) (l : TransactionLayer)
    : TransactionLayer * list effect :=
  let invites := List.filter (λ bt, ClientTransaction.needs_retransmit now bt.2)
                   (hash_iter (invite_client_txns l)) in
  let others := List.filter (λ bt, NonInviteClientTransaction.needs_retransmit now bt.2)
                  (hash_iter (non_invite_client_txns l)) in
  (set_non_invite_client
     (set_invite_client l
        (foldl (λ m bt, alter (ClientTransaction.advance_retransmit_timer now) bt.1 m)
           (invite_client_txns l) invites))
     (foldl (λ m bt, alter (NonInviteClientTransaction.advance_retransmit_timer now) bt.1 m)
        (non_invite_client_txns l) others),
   ((λ bt, Send (ClientTransaction.request bt.2) (ClientTransaction.remote_addr bt.2)) <$> invites)
   ++ ((λ bt, Send (NonInviteClientTransaction.request bt.2)
                (NonInviteClientTransaction.remote_addr bt.2)) <$> others)).

Definition retransmit_servers `{HashOrder} (now : Z) (l : TransactionLayer)
    : TransactionLayer * list effect :=
  let candidates :=
    omap (λ bt, resp ← ServerTransaction.last_response bt.2;
                Some (resp, ServerTransaction.remote_addr bt.2, bt.1))
      (List.filter (λ bt, ServerTransaction.needs_retransmit now bt.2)
         (hash_iter (invite_server_txns l))) in
  (set_invite_server l
     (foldl (λ m c, alter (ServerTransaction.advance_retransmit_timer now) c.2 m)
        (invite_server_txns l) candidates),
   (λ c, Send c.1.1 c.1.2) <$> candidates).

Definition timeout_events (te : TransactionTimeoutEvent) : list effect :=
  Emit (TransactionTimeout (te_branch te) (te_call_id te) (te_method te) (te_client te))
  :: match te_invite_ack_call_id te with
     | Some cid => [Emit (InviteAckTimeout cid)]
     | None => []
     end.

Definition reap (now : Z) (l : TransactionLayer) : TransactionLayer :=
  mkLayer
    (filter (λ bt, ClientTransaction.state bt.2 ≠ ClientTransaction.Terminated)
       (invite_client_txns l))
    (filter (λ bt, ServerTransaction.state bt.2 ≠ ServerTransaction.Terminated)
       (invite_server_txns l))
    (filter (λ bt, NonInviteClientTransaction.state bt.2 ≠ NonInviteClientTransaction.Terminated)
       (non_invite_client_txns l))
    (filter (λ bt, NonInviteServerTransaction.state bt.2 ≠ NonInviteServerTransaction.Terminated)
       (non_invite_server_txns l))
    (filter (λ bc, now < cf_expires_at bc.2) (invite_final_cache l)).

Definition handle_timers `{HashOrder} (now : Z) (l : TransactionLayer)
    : TransactionLayer * list effect :=
  let (l, sends) := retransmit_clients now l in
  let (l, replies) := retransmit_servers now l in
  let (l, timed_out) := expire_timers now l in
  (reap now l, sends ++ replies ++ concat (timeout_events <$> timed_out)).

(** ** The stack as a transition system *)

Inductive input :=
  | Receive (fresh : Fresh) (msg : SipMessage) (src : SocketAddr)
  | Tick
  | SendInvite (fresh : Fresh) (sent : bool) (request : SipMessage) (remote : SocketAddr)
  | SendRequest (fresh : Fresh) (sent : bool) (request : SipMessage) (remote : SocketAddr)
  | SendResponse (response : SipMessage) (remote : SocketAddr)
  | RecordFinal (request response : SipMessage).

Definition step `{HashOrder} (local_addr : SocketAddr) (now : Z) (l : TransactionLayer)
    (i : input) : outcome (TransactionLayer * list effect) :=
  match i with
  | Receive fresh msg src => handle_incoming now fresh local_addr l msg src
  | Tick => Done (handle_timers now l)
  | SendInvite fresh sent request remote => Done (send_invite now fresh sent l request remote)
  | SendRequest fresh sent request remote => Done (send_request now fresh sent l request remote)
  | SendResponse response remote => Done (send_response now l response remote)
  | RecordFinal request response => Done ((record_invite_final now l request response).1, [])
  end.

Fixpoint run `{HashOrder} (local_addr : SocketAddr) (l : TransactionLayer)
    (inputs : list (Z * input)) : outcome (TransactionLayer * list effect) :=
  match inputs with
  | [] => Done (l, [])
  | (now, i) :: inputs' =>
      let! (l', out) := step local_addr now l i in
      let! (l'', out') := run local_addr l' inputs' in
      Done (l'', out ++ out')
  end.

(** Layers the stack can be in at instant [now], from an empty start, when the
    clock does not go back. *)
Inductive reachable `{HashOrder} (local_addr : SocketAddr) : Z → TransactionLayer → Prop :=
  | reach_new now : reachable local_addr now new_layer
  | reach_step now now' l i l' out :
      reachable local_addr now l → now ≤ now' →
      step local_addr now' l i = Done (l', out) →
      reachable local_addr now' l'.

(** ** One tick, one transaction at a time *)

Definition alive_client (x : ClientTransaction.t) : option ClientTransaction.t :=
  if bool_decide (ClientTransaction.state x = ClientTransaction.Terminated)
  then None else Some x.
Definition alive_server (x : ServerTransaction.t) : option ServerTransaction.t :=
  if bool_decide (ServerTransaction.state x = ServerTransaction.Terminated)
  then None else Some x.
Definition alive_non_invite_client (x : NonInviteClientTransaction.t)
    : option NonInviteClientTransaction.t :=
  if bool_decide (NonInviteClientTransaction.state x = NonInviteClientTransaction.Terminated)
  then None else Some x.
Definition alive_non_invite_server (x : NonInviteServerTransaction.t)
    : option NonInviteServerTransaction.t :=
  if bool_decide (NonInviteServerTransaction.state x = NonInviteServerTransaction.Terminated)
  then None else Some x.

Definition tick_client (now : Z) (b : str) (x : ClientTransaction.t)
    : option ClientTransaction.t :=
  let x := if ClientTransaction.needs_retransmit now x
           then ClientTransaction.advance_retransmit_timer now x else x in
  alive_client (expire_invite_client now b x).1.

Definition tick_server (now : Z) (b : str) (x : ServerTransaction.t)
    : option ServerTransaction.t :=
  let x := if ServerTransaction.needs_retransmit now x
              && bool_decide (is_Some (ServerTransaction.last_response x))
           then ServerTransaction.advance_retransmit_timer now x else x in
  alive_server (expire_invite_server now b x).1.

Definition tick_non_invite_client (now : Z) (b : str) (x : NonInviteClientTransaction.t)
    : option NonInviteClientTransaction.t :=
  let x := if NonInviteClientTransaction.needs_retransmit now x
           then NonInviteClientTransaction.advance_retransmit_timer now x else x in
  alive_non_invite_client (expire_non_invite_client now b x).1.

Definition tick_non_invite_server (now : Z) (x : NonInviteServerTransaction.t)
    : option NonInviteServerTransaction.t :=
  alive_non_invite_server (expire_non_invite_server now x).

(** Altering the keys of the candidates selected from the map's own entries. *)
Section alter_candidates.
Context `{HashOrder} {V C : Type} (g : str * V → option C) (key : C → str) (f : V → V).
Context (g_key : ∀ bt c, g bt = Some c → key c = bt.1).

Lemma lookup_foldl_alter (l : list (str * V)) (m : gmap str V) b :
  NoDup l.*1 →
  foldl (λ m c, alter f (key c) m) m (omap g l) !! b
    = match (list_to_map l : gmap str V) !! b with
      | Some x => if bool_decide (is_Some (g (b, x))) then f <$> m !! b else m !! b
      | None => m !! b
      end.
Proof.
  revert m. induction l as [|[k x] l IH]; intros m Hnd; simpl; [by rewrite lookup_empty|].
  apply NoDup_cons in Hnd as [Hk Hnd].
  assert (Hlm : (list_to_map l : gmap str V) !! k = None)
    by (by apply not_elem_of_list_to_map_1).
  destruct (decide (b = k)) as [->|Hne].
  - rewrite lookup_insert_eq. destruct (g (k, x)) as [c|] eqn:E; simpl.
    + rewrite IH, Hlm by done. rewrite (g_key _ _ E). simpl.
      by rewrite lookup_alter_eq.
    + by rewrite IH, Hlm by done.
  - rewrite lookup_insert_ne by done. destruct (g (k, x)) as [c|] eqn:E; simpl.
    + rewrite IH by done. rewrite (g_key _ _ E). simpl. by rewrite lookup_alter_ne.
    + by rewrite IH by done.
Qed.

Lemma lookup_alter_candidates (m : gmap str V) b :
  foldl (λ m c, alter f (key c) m) m (omap g (hash_iter m)) !! b
    = (λ x, if bool_decide (is_Some (g (b, x))) then f x else x) <$> m !! b.
Proof.
  rewrite lookup_foldl_alter by apply hash_iter_NoDup. rewrite hash_iter_to_map.
  destruct (m !! b) as [x|]; simpl; [|done]. by case_bool_decide.
Qed.
End alter_candidates.

Lemma filter_omap {A} (p : A → bool) (l : list A) :
  List.filter p l = omap (λ x, if p x then Some x else None) l.
Proof. induction l as [|x l IH]; simpl; [done|]. rewrite IH. by destruct (p x). Qed.

Lemma omap_filter {A B} (p : A → bool) (g : A → option B) (l : list A) :
  omap g (List.filter p l) = omap (λ x, if p x then g x else None) l.
Proof. induction l as [|x l IH]; simpl; [done|]. destruct (p x); simpl; [|apply IH]. destruct (g x); [f_equal|]; apply IH. Qed.

Section tick_lookup.
Context `{HashOrder} (now : Z) (l : TransactionLayer) (b : str).

Lemma handle_timers_client :
  invite_client_txns (handle_timers now l).1 !! b
    = invite_client_txns l !! b ≫= tick_client now b.
Proof.
  unfold handle_timers, retransmit_clients, retransmit_servers, expire_timers, reap.
  cbn -[omap List.filter foldl hash_iter filter lookup alter map_imap].
  rewrite map_lookup_filter, map_lookup_imap, filter_omap.
  rewrite (lookup_alter_candidates _ fst) by (intros ? ? ?; by case_match; simplify_eq).
  destruct (invite_client_txns l !! b) as [x|]; simpl; [|done].
  unfold tick_client, alive_client.
  destruct (ClientTransaction.needs_retransmit now x); simpl;
    rewrite ?bool_decide_eq_true_2 by done;
    case_bool_decide; by repeat case_guard.
Qed.

Lemma handle_timers_non_invite_client :
  non_invite_client_txns (handle_timers now l).1 !! b
    = non_invite_client_txns l !! b ≫= tick_non_invite_client now b.
Proof.
  unfold handle_timers, retransmit_clients, retransmit_servers, expire_timers, reap.
  cbn -[omap List.filter foldl hash_iter filter lookup alter map_imap].
  rewrite map_lookup_filter, map_lookup_imap, filter_omap.
  rewrite (lookup_alter_candidates _ fst) by (intros ? ? ?; by case_match; simplify_eq).
  destruct (non_invite_client_txns l !! b) as [x|]; simpl; [|done].
  unfold tick_non_invite_client, alive_non_invite_client.
  destruct (NonInviteClientTransaction.needs_retransmit now x); simpl;
    rewrite ?bool_decide_eq_true_2 by done;
    case_bool_decide; by repeat case_guard.
Qed.

Lemma handle_timers_server :
  invite_server_txns (handle_timers now l).1 !! b
    = invite_server_txns l !! b ≫= tick_server now b.
Proof.
  unfold handle_timers, retransmit_clients, retransmit_servers, expire_timers, reap.
  cbn -[omap List.filter foldl hash_iter filter lookup alter map_imap].
  rewrite map_lookup_filter, map_lookup_imap, omap_filter.
  rewrite (lookup_alter_candidates _ snd).
  2:{ intros [k y] c Hc. case_match; [|done]. simpl in Hc.
      apply bind_Some in Hc as (r & _ & Hc). by simplify_eq. }
  destruct (invite_server_txns l !! b) as [x|]; simpl; [|done].
  unfold tick_server, alive_server.
  destruct (ServerTransaction.needs_retransmit now x); simpl;
    destruct (ServerTransaction.last_response x); simpl;
    repeat (case_bool_decide || case_guard); naive_solver.
Qed.

Lemma handle_timers_non_invite_server :
  non_invite_server_txns (handle_timers now l).1 !! b
    = non_invite_server_txns l !! b ≫= tick_non_invite_server now.
Proof.
  unfold handle_timers, retransmit_clients, retransmit_servers, expire_timers, reap.
  cbn -[omap List.filter foldl hash_iter filter lookup alter map_imap].
  rewrite map_lookup_filter, lookup_fmap.
  destruct (non_invite_server_txns l !! b) as [x|]; simpl; [|done].
  unfold tick_non_invite_server, alive_non_invite_server.
  case_bool_decide; by repeat case_guard.
Qed.

Lemma handle_timers_cache :
  invite_final_cache (handle_timers now l).1
    = filter (λ bc, now < cf_expires_at bc.2) (invite_final_cache l).
Proof. done. Qed.
End tick_lookup.

(** ** Well-formed layers *)

(** The interval of Timer A is bounded by the time since the start. *)
Record client_ok (b : str) (x : ClientTransaction.t) : Prop := {
  ck_branch : ClientTransaction.branch x = b;
  ck_completed : ClientTransaction.state x = ClientTransaction.Completed →
                 is_Some (ClientTransaction.completed_at x);
  ck_only : is_Some (ClientTransaction.completed_at x) →
            ClientTransaction.state x = ClientTransaction.Completed;
  ck_interval : T1 ≤ ClientTransaction.timer_a_interval x
                ≤ ClientTransaction.last_retransmit x - ClientTransaction.started_at x + T1;
  ck_last : ClientTransaction.last_retransmit x - ClientTransaction.started_at x < TIMER_B;
}.

Definition has_final (st : ServerTransaction.InviteServerState) : bool :=
  match st with
  | ServerTransaction.Completed | ServerTransaction.Accepted | ServerTransaction.Confirmed => true
  | _ => false
  end.

Record server_ok (b : str) (x : ServerTransaction.t) : Prop := {
  sk_branch : ServerTransaction.branch x = b;
  sk_method : method (ServerTransaction.request x) = Some Invite;
  sk_final : has_final (ServerTransaction.state x) = true →
             is_Some (ServerTransaction.final_response_at x)
             ∧ is_Some (ServerTransaction.last_response x);
  sk_confirmed : ServerTransaction.state x = ServerTransaction.Confirmed →
                 is_Some (ServerTransaction.confirmed_at x);
  sk_only : is_Some (ServerTransaction.confirmed_at x) →
            ServerTransaction.state x = ServerTransaction.Confirmed;
}.

Record non_invite_client_ok (b : str) (x : NonInviteClientTransaction.t) : Prop := {
  nck_branch : NonInviteClientTransaction.branch x = b;
  nck_completed : NonInviteClientTransaction.state x = NonInviteClientTransaction.Completed →
                  is_Some (NonInviteClientTransaction.completed_at x);
  nck_only : is_Some (NonInviteClientTransaction.completed_at x) →
             NonInviteClientTransaction.state x = NonInviteClientTransaction.Completed;
  nck_interval : T1 ≤ NonInviteClientTransaction.timer_e_interval x ≤ T2;
}.

Record non_invite_server_ok (b : str) (x : NonInviteServerTransaction.t) : Prop := {
  nsk_branch : NonInviteServerTransaction.branch x = b;
  nsk_method : ∃ m, method (NonInviteServerTransaction.request x) = Some m
                    ∧ m ≠ Invite ∧ m ≠ Ack;
  nsk_completed : NonInviteServerTransaction.state x = NonInviteServerTransaction.Completed →
                  is_Some (NonInviteServerTransaction.completed_at x)
                  ∧ is_Some (NonInviteServerTransaction.last_response x);
}.

Record layer_ok (l : TransactionLayer) : Prop := {
  lk_clients : map_Forall client_ok (invite_client_txns l);
  lk_servers : map_Forall server_ok (invite_server_txns l);
  lk_non_invite_clients : map_Forall non_invite_client_ok (non_invite_client_txns l);
  lk_non_invite_servers : map_Forall non_invite_server_ok (non_invite_server_txns l);
}.
#[local] Hint Constructors layer_ok : core.

Lemma layer_ok_new : layer_ok new_layer.
Proof. split; apply map_Forall_empty. Qed.

(** *** Each operation on one transaction *)

Create HintDb timers.
#[local] Hint Unfold T1 T2 TIMER_A_INITIAL TIMER_E_INITIAL TIMER_B TIMER_D_UDP TIMER_F TIMER_H
  TIMER_I_UDP TIMER_J_UDP TIMER_K_UDP T4 : timers.

(** The fields of an updated transaction. *)
Ltac entry_ok :=
  split; simpl; intros; simplify_eq/=; try done; try congruence; eauto; try (by intuition auto);
  try (autounfold with timers in *; lia).

Lemma client_ok_new now req addr b : client_ok b (ClientTransaction.new now req addr b).
Proof. entry_ok. Qed.

Lemma client_ok_response now b x r :
  client_ok b x → client_ok b (ClientTransaction.on_response now x r).
Proof.
  intros [H1 H2 H3 H4]. unfold ClientTransaction.on_response. simpl.
  destruct (ClientTransaction.state x) eqn:E; repeat case_match; entry_ok.
Qed.

Lemma client_ok_tick now b x x' : client_ok b x → tick_client now b x = Some x' → client_ok b x'.
Proof.
  intros [H1 H2 H3 H4]. unfold tick_client, alive_client, expire_invite_client.
  unfold ClientTransaction.timer_b_expired, ClientTransaction.timer_d_expired,
    ClientTransaction.needs_retransmit, elapsed.
  destruct (ClientTransaction.state x) eqn:E; simpl; rewrite ?E; simpl;
    repeat (case_match; simpl); intros; simplify_eq/=; split_bools; entry_ok.
Qed.

Lemma server_ok_new now req addr b :
  method req = Some Invite → server_ok b (ServerTransaction.new now req addr b).
Proof. intros. entry_ok. Qed.

Lemma server_ok_final now b x r :
  bool_decide (ServerTransaction.state x = ServerTransaction.Proceeding) = true →
  server_ok b x → server_ok b (ServerTransaction.send_final now x r).
Proof.
  intros Hp%bool_decide_eq_true [H1 H2 H3 H4 H5].
  assert (Hc : ¬ is_Some (ServerTransaction.confirmed_at x)) by (intros Hc; specialize (H5 Hc); congruence).
  unfold ServerTransaction.send_final. repeat case_match; entry_ok.
Qed.

Lemma server_ok_ack now b x : server_ok b x → server_ok b (ServerTransaction.on_ack now x).
Proof.
  intros [H1 H2 H3 H4 H5]. unfold ServerTransaction.on_ack.
  destruct x as [b' st rq ra lr fa ca g la]; simpl in *; destruct st; simpl in *; entry_ok.
Qed.

Lemma server_ok_tick now b x x' : server_ok b x → tick_server now b x = Some x' → server_ok b x'.
Proof.
  intros [H1 H2 H3 H4]. unfold tick_server, alive_server, expire_invite_server.
  destruct (ServerTransaction.needs_retransmit now x && _); simpl; repeat (case_match; simpl); intros; simplify_eq/=; entry_ok.
Qed.

Lemma non_invite_client_ok_new now req addr b :
  non_invite_client_ok b (NonInviteClientTransaction.new now req addr b).
Proof. intros. entry_ok. Qed.

Lemma non_invite_client_ok_response now b x r :
  non_invite_client_ok b x →
  non_invite_client_ok b (NonInviteClientTransaction.on_response now x r).
Proof.
  intros [H1 H2 H3 H4]. unfold NonInviteClientTransaction.on_response. simpl.
  destruct (NonInviteClientTransaction.state x) eqn:E; simpl; repeat case_match; entry_ok.
  all: specialize (H3 ltac:(done)); congruence.
Qed.

Lemma non_invite_client_ok_tick now b x x' :
  non_invite_client_ok b x → tick_non_invite_client now b x = Some x' →
  non_invite_client_ok b x'.
Proof.
  intros [H1 H2 H3]. unfold tick_non_invite_client, alive_non_invite_client,
    expire_non_invite_client.
  repeat (case_match; simpl); intros; simplify_eq/=; entry_ok.
Qed.

Lemma non_invite_server_ok_new req addr b m :
  method req = Some m → m ≠ Invite → m ≠ Ack →
  non_invite_server_ok b (NonInviteServerTransaction.new req addr b).
Proof. intros. entry_ok. Qed.

Lemma non_invite_server_ok_tick now b x x' :
  non_invite_server_ok b x → tick_non_invite_server now x = Some x' → non_invite_server_ok b x'.
Proof.
  intros [H1 H2 H3]. unfold tick_non_invite_server, alive_non_invite_server,
    expire_non_invite_server.
  repeat (case_match; simpl); intros; simplify_eq/=; entry_ok.
Qed.

(** *** The layer *)

Lemma stamp_returns m src : returns (stamp_via_received_rport m src).
Proof.
  unfold stamp_via_received_rport. apply returns_bind; [apply stamp_headers_returns|].
  eauto with rust.
Qed.

Lemma stamp_start_line m src m' :
  stamp_via_received_rport m src = Done m' → start_line m' = start_line m.
Proof.
  unfold stamp_via_received_rport. intros H. apply outcome_bind_Done in H as (hs & _ & H).
  by simplify_eq.
Qed.

Lemma stamp_method m src m' : stamp_via_received_rport m src = Done m' → method m' = method m.
Proof. intros H%stamp_start_line. unfold method. by rewrite H. Qed.

Lemma new_inbound_returns id tag m la ra : returns (new_inbound id tag m la ra).
Proof.
  unfold new_inbound. destruct (call_id m); [|eauto with rust].
  apply returns_bind; [apply Dialog.from_uas_request_returns|eauto with rust].
Qed.

Lemma txns_insert {V} (P : str → V → Prop) (m : gmap str V) b x :
  P b x → map_Forall P m → map_Forall P (<[b := x]> m).
Proof. intros. by apply map_Forall_insert_2. Qed.

Lemma txns_delete {V} (P : str → V → Prop) (m : gmap str V) b :
  map_Forall P m → map_Forall P (delete b m).
Proof. intros. by apply map_Forall_delete. Qed.

(** Replacing one map of a well-formed layer. *)
Section set_maps.
Context (l : TransactionLayer) (Hl : layer_ok l).

Lemma set_invite_client_ok m :
  map_Forall client_ok m → layer_ok (set_invite_client l m).
Proof. destruct Hl; by split. Qed.
Lemma set_invite_server_ok m :
  map_Forall server_ok m → layer_ok (set_invite_server l m).
Proof. destruct Hl; by split. Qed.
Lemma set_non_invite_client_ok m :
  map_Forall non_invite_client_ok m → layer_ok (set_non_invite_client l m).
Proof. destruct Hl; by split. Qed.
Lemma set_non_invite_server_ok m :
  map_Forall non_invite_server_ok m → layer_ok (set_non_invite_server l m).
Proof. destruct Hl; by split. Qed.
Lemma set_final_cache_ok m : layer_ok (set_final_cache l m).
Proof. destruct Hl; by split. Qed.

Lemma client_lookup_ok b x : invite_client_txns l !! b = Some x → client_ok b x.
Proof. apply Hl. Qed.
Lemma server_lookup_ok b x : invite_server_txns l !! b = Some x → server_ok b x.
Proof. apply Hl. Qed.
Lemma non_invite_client_lookup_ok b x :
  non_invite_client_txns l !! b = Some x → non_invite_client_ok b x.
Proof. apply Hl. Qed.
Lemma non_invite_server_lookup_ok b x :
  non_invite_server_txns l !! b = Some x → non_invite_server_ok b x.
Proof. apply Hl. Qed.
End set_maps.
Create HintDb layer.
#[local] Hint Resolve set_invite_client_ok set_invite_server_ok set_non_invite_client_ok
  set_non_invite_server_ok set_final_cache_ok
  client_ok_new client_ok_response server_ok_new server_ok_final server_ok_ack
  non_invite_client_ok_new non_invite_client_ok_response
  client_lookup_ok server_lookup_ok non_invite_client_lookup_ok non_invite_server_lookup_ok : layer.
#[local] Hint Extern 1 (map_Forall _ (<[_ := _]> _)) => apply txns_insert : layer.
#[local] Hint Extern 1 (map_Forall _ (delete _ _)) => apply txns_delete : layer.
#[local] Hint Extern 1 (map_Forall _ (invite_client_txns _)) => apply lk_clients : layer.
#[local] Hint Extern 1 (map_Forall _ (invite_server_txns _)) => apply lk_servers : layer.
#[local] Hint Extern 1 (map_Forall _ (non_invite_client_txns _)) =>
  apply lk_non_invite_clients : layer.
#[local] Hint Extern 1 (map_Forall _ (non_invite_server_txns _)) =>
  apply lk_non_invite_servers : layer.

Lemma process_response_ok now l r src : layer_ok l → layer_ok (process_response now l r src).1.
Proof. intros Hl. unfold process_response. repeat (case_match; simpl; auto); simplify_eq/=; eauto 9 with layer. Qed.

Lemma non_invite_server_ok_record b x r (final : bool) now :
  non_invite_server_ok b x →
  non_invite_server_ok b (if final then NonInviteServerTransaction.send_provisional x r
                          else NonInviteServerTransaction.send_final now x r).
Proof. intros [H1 H2 H3]. destruct final; entry_ok. Qed.

Lemma record_non_invite_ok now l r addr :
  layer_ok l → layer_ok (record_non_invite_response now l r addr).
Proof.
  intros Hl. unfold record_non_invite_response. repeat (case_match; simpl; auto).
  - eapply set_non_invite_server_ok, txns_insert; [done| |by apply Hl].
    apply (non_invite_server_ok_record _ _ _ true now). eauto with layer.
  - eapply set_non_invite_server_ok, txns_insert; [done| |by apply Hl].
    apply (non_invite_server_ok_record _ _ _ false now). eauto with layer.
Qed.

Lemma record_invite_final_ok now l q r : layer_ok l → layer_ok (record_invite_final now l q r).1.
Proof. intros Hl. unfold record_invite_final. repeat (case_match; simpl; auto); simplify_eq/=; eauto 9 with layer. Qed.

Lemma handle_ack_ok `{HashOrder} now l q src : layer_ok l → layer_ok (handle_ack now l q src).1.
Proof.
  intros Hl. unfold handle_ack. repeat (case_match; simpl; auto); simplify_eq/=; eauto 9 with layer.
  apply set_invite_server_ok; [done|]. intros b x Hx.
  rewrite lookup_alter in Hx. case_decide; [subst b|by apply Hl].
  apply fmap_Some in Hx as (y & Hy & ->). apply server_ok_ack. by apply Hl.
Qed.

Lemma cancel_invite_ok now l b q : layer_ok l → layer_ok (cancel_invite now l b q).1.1.1.
Proof.
  intros Hl. unfold cancel_invite.
  destruct (invite_server_txns l !! b) as [x|] eqn:E; simpl; [|done].
  repeat (case_match; simpl; auto); simplify_eq/=; eauto 9 with layer.
Qed.

Lemma handle_cancel_ok now fresh l q src :
  method q = Some Cancel → layer_ok l → layer_ok (handle_cancel_request now fresh l q src).1.
Proof.
  intros Hm Hl. unfold handle_cancel_request.
  pose proof (cancel_invite_ok now l (branch_of fresh q) q Hl) as Hc.
  destruct (cancel_invite _ _ _ _) as [[[l' cr] ir] cc]. simpl in *.
  apply set_non_invite_server_ok; [done|]. apply txns_insert; [|by apply Hc].
  assert (Hn := non_invite_server_ok_new q src (branch_of fresh q) Cancel Hm).
  destruct cr as [r|]; [|by apply Hn].
  by apply (non_invite_server_ok_record _ _ _ false now), Hn.
Qed.

Lemma new_non_invite_ok fresh l q src m :
  method q = Some m → m ≠ Invite → m ≠ Ack → layer_ok l → layer_ok (new_non_invite fresh l q src).
Proof.
  intros Hm H1 H2 Hl. unfold new_non_invite. apply set_non_invite_server_ok; [done|].
  apply txns_insert; [|by apply Hl]. by eapply non_invite_server_ok_new.
Qed.

Lemma handle_timers_ok `{HashOrder} now l : layer_ok l → layer_ok (handle_timers now l).1.
Proof.
  intros Hl. split; intros b x Hx.
  - rewrite handle_timers_client in Hx. apply bind_Some in Hx as (y & Hy & Hx).
    eapply client_ok_tick, Hx. by apply Hl.
  - rewrite handle_timers_server in Hx. apply bind_Some in Hx as (y & Hy & Hx).
    eapply server_ok_tick, Hx. by apply Hl.
  - rewrite handle_timers_non_invite_client in Hx. apply bind_Some in Hx as (y & Hy & Hx).
    eapply non_invite_client_ok_tick, Hx. by apply Hl.
  - rewrite handle_timers_non_invite_server in Hx. apply bind_Some in Hx as (y & Hy & Hx).
    eapply non_invite_server_ok_tick, Hx. by apply Hl.
Qed.

(** A handler of requests returns, and leaves a well-formed layer. *)
Lemma handle_request_ok `{HashOrder} now fresh la l q src :
  layer_ok l →
  ∃ l' out, handle_request now fresh la l q src = Done (l', out) ∧ layer_ok l'.
Proof.
  intros Hl. unfold handle_request. destruct (method q) as [m|] eqn:Hm; [|eauto].
  destruct (stamp_returns q src) as [q' Hq]. rewrite Hq. cbn [outcome_bind].
  pose proof (stamp_method _ _ _ Hq) as Hm'. rewrite Hm in Hm'.
  destruct (matched_retransmission now l q' src); [eauto|].
  assert (Hni : m ≠ Invite → m ≠ Ack → layer_ok (new_non_invite fresh l q' src)).
  { intros. by eapply new_non_invite_ok. }
  destruct m; try (eexists _, _; split; [reflexivity|]; by apply Hni).
  - unfold handle_invite.
    destruct (new_inbound_returns (fr_id fresh) (fr_tag fresh) q' la src) as [ses Hs].
    rewrite Hs. cbn [outcome_bind]. eexists _, _; split; [reflexivity|]. eauto with layer.
  - pose proof (handle_ack_ok now l q' src Hl). destruct (handle_ack _ _ _ _). eauto.
  - pose proof (handle_cancel_ok now fresh l q' src Hm' Hl).
    destruct (handle_cancel_request _ _ _ _ _). eauto.
Qed.

Lemma step_ok `{HashOrder} la now l i :
  layer_ok l → ∃ l' out, step la now l i = Done (l', out) ∧ layer_ok l'.
Proof.
  intros Hl. destruct i; simpl.
  - unfold handle_incoming. destruct (is_response msg).
    + unfold handle_response. pose proof (process_response_ok now l msg src Hl) as Hp.
      destruct (process_response _ _ _ _). eauto.
    + by apply handle_request_ok.
  - pose proof (handle_timers_ok now l Hl). destruct (handle_timers now l). eauto.
  - unfold send_invite. destruct sent; eexists _, _; (split; [reflexivity|]); eauto 9 with layer.
  - unfold send_request. destruct sent; eexists _, _; (split; [reflexivity|]); eauto 9 with layer.
  - eexists _, _; split; [reflexivity|]. by apply record_non_invite_ok.
  - eexists _, _; split; [reflexivity|]. by apply record_invite_final_ok.
Qed.

Lemma reachable_ok `{HashOrder} la now l : reachable la now l → layer_ok l.
Proof.
  induction 1 as [|now now' l i l' out _ IH _ Hs]; [apply layer_ok_new|].
  destruct (step_ok la now' l i IH) as (l2 & out2 & Hs2 & Hl2). rewrite Hs in Hs2. by simplify_eq.
Qed.

(** ** What a tick leaves *)

(** A transaction that is still there after a tick at [now] is within the
    lifetime of its state. *)
Definition client_alive (now : Z) (x : ClientTransaction.t) : Prop :=
  match ClientTransaction.state x with
  | ClientTransaction.Calling | ClientTransaction.Proceeding =>
      elapsed now (ClientTransaction.started_at x) < TIMER_B
  | ClientTransaction.Completed =>
      ∃ t, ClientTransaction.completed_at x = Some t ∧ elapsed now t < TIMER_D_UDP
  | ClientTransaction.Terminated => False
  end.

Definition server_alive (now : Z) (x : ServerTransaction.t) : Prop :=
  match ServerTransaction.state x with
  | ServerTransaction.Proceeding => True
  | ServerTransaction.Completed | ServerTransaction.Accepted =>
      ∃ t, ServerTransaction.final_response_at x = Some t ∧ elapsed now t < TIMER_H
  | ServerTransaction.Confirmed =>
      ∃ t, ServerTransaction.confirmed_at x = Some t ∧ elapsed now t < TIMER_I_UDP
  | ServerTransaction.Terminated => False
  end.

Definition non_invite_client_alive (now : Z) (x : NonInviteClientTransaction.t) : Prop :=
  match NonInviteClientTransaction.state x with
  | NonInviteClientTransaction.Trying | NonInviteClientTransaction.Proceeding =>
      elapsed now (NonInviteClientTransaction.started_at x) < TIMER_F
  | NonInviteClientTransaction.Completed =>
      ∃ t, NonInviteClientTransaction.completed_at x = Some t ∧ elapsed now t < TIMER_K_UDP
  | NonInviteClientTransaction.Terminated => False
  end.

Definition non_invite_server_alive (now : Z) (x : NonInviteServerTransaction.t) : Prop :=
  match NonInviteServerTransaction.state x with
  | NonInviteServerTransaction.Trying | NonInviteServerTransaction.Proceeding => True
  | NonInviteServerTransaction.Completed =>
      ∃ t, NonInviteServerTransaction.completed_at x = Some t ∧ elapsed now t < TIMER_J_UDP
  | NonInviteServerTransaction.Terminated => False
  end.

Lemma elapsed_since_false now o d :
  is_Some o → elapsed_since now o d = false → ∃ t, o = Some t ∧ elapsed now t < d.
Proof. intros [t ->]. simpl. intros H%Z.leb_gt. eauto. Qed.

Lemma tick_client_alive now b x x' :
  client_ok b x → tick_client now b x = Some x' → client_alive now x'.
Proof.
  intros [_ Hc _ _]. unfold tick_client, alive_client, expire_invite_client, client_alive.
  destruct (ClientTransaction.needs_retransmit now x); destruct x as [b' st q a i s c lr r];
    unfold ClientTransaction.timer_b_expired, ClientTransaction.timer_d_expired;
    destruct st; simpl in *; try (destruct (elapsed_since now c TIMER_D_UDP) eqn:E);
    try (destruct (Z.leb_spec TIMER_B (elapsed now s))); simpl; intros; simplify_eq/=;
    try done; by apply elapsed_since_false, E; apply Hc.
Qed.

Lemma tick_server_alive now b x x' :
  server_ok b x → tick_server now b x = Some x' → server_alive now x'.
Proof.
  intros [_ _ Hf Hc]. unfold tick_server, alive_server, expire_invite_server, server_alive.
  destruct (ServerTransaction.needs_retransmit now x && _);
    destruct x as [b' st q a r f c g lr];
    unfold ServerTransaction.timer_h_expired, ServerTransaction.timer_i_expired;
    destruct st; simpl in *; try (destruct (elapsed_since now f TIMER_H) eqn:E);
    try (destruct (elapsed_since now c TIMER_I_UDP) eqn:E'); simpl; intros; simplify_eq/=;
    try done; try (by apply elapsed_since_false, E; apply Hf);
    by apply elapsed_since_false, E'; apply Hc.
Qed.

Lemma tick_non_invite_client_alive now b x x' :
  non_invite_client_ok b x → tick_non_invite_client now b x = Some x' →
  non_invite_client_alive now x'.
Proof.
  intros [_ Hc _]. unfold tick_non_invite_client, alive_non_invite_client,
    expire_non_invite_client, non_invite_client_alive.
  destruct (NonInviteClientTransaction.needs_retransmit now x);
    destruct x as [b' st q a i s c lr r];
    unfold NonInviteClientTransaction.timer_f_expired, NonInviteClientTransaction.timer_k_expired;
    destruct st; simpl in *; try (destruct (elapsed_since now c TIMER_K_UDP) eqn:E);
    try (destruct (Z.leb_spec TIMER_F (elapsed now s))); simpl; intros; simplify_eq/=;
    try done; by apply elapsed_since_false, E; apply Hc.
Qed.

Lemma tick_non_invite_server_alive now b x x' :
  non_invite_server_ok b x → tick_non_invite_server now x = Some x' →
  non_invite_server_alive now x'.
Proof.
  intros [_ _ Hc]. unfold tick_non_invite_server, alive_non_invite_server,
    expire_non_invite_server, non_invite_server_alive, NonInviteServerTransaction.timer_j_expired.
  destruct x as [b' st q a r c]; destruct st; simpl in *;
    try (destruct (elapsed_since now c TIMER_J_UDP) eqn:E); simpl; intros; simplify_eq/=;
    try done; by apply elapsed_since_false, E; apply Hc.
Qed.

(** ** Theorems *)

(** C11. Whatever the network and the application do, the stack never panics and its
    layer stays well formed.  Every transaction is filed under its own branch.  INVITE
    server transactions hold INVITEs, the other server transactions requests that are
    neither INVITE nor ACK.  A server transaction whose state comes after its final
    response has that response and its instant; one of an INVITE has the instant of the ACK
    when it is Confirmed and only then; a client transaction has the instant of its final
    response when it is Completed and only then.  Timer A is between T1 and 32.5 s, Timer E
    between T1 and T2.  And every step, at whatever time, keeps all this. *)
Theorem stack_invariant `{HashOrder} (la : SocketAddr) (now now' : Z) (l : TransactionLayer)
    (i : input) (Hl : reachable la now l) :
  layer_ok l
  ∧ (∃ l' out, step la now' l i = Done (l', out) ∧ layer_ok l')
  ∧ (∀ b x, invite_client_txns l !! b = Some x →
       T1 ≤ ClientTransaction.timer_a_interval x < TIMER_B + T1).
Proof.
  apply reachable_ok in Hl. split_and!; [done| |].
  - destruct (step_ok la now' l i Hl) as (l' & out & Hs & Hok). eauto.
  - intros b x Hx. destruct (client_lookup_ok _ Hl _ _ Hx) as [_ _ _ Hi Hlast]. lia.
Qed.

(** Transactions do not live forever: after a timer tick, every client
    transaction, every server transaction that has its final response and every
    cached final is within the lifetime of its state (timers B, D, F, H, I, J, K
    and the cache's expiry), measured at the instant of the tick.  Only a server
    transaction the application has not answered is kept without a limit. *)
Theorem tick_reaps_expired `{HashOrder} (la : SocketAddr) (now now' : Z) (l : TransactionLayer)
    (Hl : reachable la now l) :
  let l' := (handle_timers now' l).1 in
  (∀ b x, invite_client_txns l' !! b = Some x → client_alive now' x)
  ∧ (∀ b x, invite_server_txns l' !! b = Some x → server_alive now' x)
  ∧ (∀ b x, non_invite_client_txns l' !! b = Some x → non_invite_client_alive now' x)
  ∧ (∀ b x, non_invite_server_txns l' !! b = Some x → non_invite_server_alive now' x)
  ∧ (∀ b c, invite_final_cache l' !! b = Some c → now' < cf_expires_at c).
Proof.
  apply reachable_ok in Hl. cbv zeta. split_and!; intros b x Hx.
  - rewrite handle_timers_client in Hx. apply bind_Some in Hx as (y & Hy & Hx).
    eapply tick_client_alive, Hx. by apply Hl.
  - rewrite handle_timers_server in Hx. apply bind_Some in Hx as (y & Hy & Hx).
    eapply tick_server_alive, Hx. by apply Hl.
  - rewrite handle_timers_non_invite_client in Hx. apply bind_Some in Hx as (y & Hy & Hx).
    eapply tick_non_invite_client_alive, Hx. by apply Hl.
  - rewrite handle_timers_non_invite_server in Hx. apply bind_Some in Hx as (y & Hy & Hx).
    eapply tick_non_invite_server_alive, Hx. by apply Hl.
  - rewrite handle_timers_cache in Hx. by apply map_lookup_filter_Some in Hx as [_ Hx].
Qed.

(** *** Example traffic *)

Definition ex_addr : SocketAddr := mkSocketAddr (lit "10.0.0.9") 5060.
Definition ex_peer : SocketAddr := mkSocketAddr (lit "10.0.0.1") 5060.
Definition ex_fresh : Fresh := mkFresh (lit "z9hG4bKfresh") (lit "uuid") (lit "tag12345").

Definition ex_request (m : SipMethod) (cseq to_hdr : str) : SipMessage :=
  mkSipMessage
    (Request (mkRequestLine m (mkSipUri (lit "sip") None None (lit "h") None ∅ ∅) SIP_2_0))
    [mkSipHeader VIA (lit "SIP/2.0/UDP 10.0.0.1:5060;branch=z9hG4bK77");
     mkSipHeader FROM (lit "<sip:a@x>;tag=aa"); mkSipHeader TO to_hdr;
     mkSipHeader CALL_ID (lit "id1"); mkSipHeader CSEQ cseq] [].

Definition ex_invite : SipMessage := ex_request Invite (lit "1 INVITE") (lit "<sip:b@y>").
Definition ex_cancel : SipMessage := ex_request Cancel (lit "1 CANCEL") (lit "<sip:b@y>").
Definition ex_ack : SipMessage := ex_request Ack (lit "1 ACK") (lit "<sip:b@y>").

Definition is_incoming_invite (e : effect) : bool :=
  match e with Emit (IncomingInvite _ _ _) => true | _ => false end.

(** The calls a run announces to the application. *)
Definition calls_announced (r : outcome (TransactionLayer * list effect)) : option nat :=
  match r with
  | Done (_, out) => Some (length (List.filter is_incoming_invite out))
  | Panic => None
  end.

Lemma tick_reaps_expired_witness :
  let _ := key_order in
  let l := (send_invite 0 ex_fresh true new_layer ex_invite ex_peer).1 in
  let l' := (handle_timers 40000 l).1 in
  (∀ b x, invite_client_txns l' !! b = Some x → client_alive 40000 x)
  ∧ (∀ b x, invite_server_txns l' !! b = Some x → server_alive 40000 x)
  ∧ (∀ b x, non_invite_client_txns l' !! b = Some x → non_invite_client_alive 40000 x)
  ∧ (∀ b x, non_invite_server_txns l' !! b = Some x → non_invite_server_alive 40000 x)
  ∧ (∀ b c, invite_final_cache l' !! b = Some c → 40000 < cf_expires_at c).
Proof.
  intros ord. apply (tick_reaps_expired (H := key_order) ex_addr 0).
  eapply (reach_step ex_addr 0 0 new_layer (SendInvite ex_fresh true ex_invite ex_peer));
    [constructor|lia|reflexivity].
Defined.

(** *** Duplicates *)

Definition replay_effect (src : SocketAddr) (r : option SipMessage) : list effect :=
  match r with Some resp => [Send resp src] | None => [] end.

Lemma matches_server_refl q src : matches_server q src q src = true.
Proof.
  unfold matches_server, request_identity_matches. by rewrite !bool_decide_eq_true_2.
Qed.

(** The part of [handle_request] after the stamping. *)
Definition route_request `{HashOrder} (now : Z) (fresh : Fresh) (la : SocketAddr)
    (l : TransactionLayer) (q : SipMessage) (src : SocketAddr) (m : SipMethod)
    : outcome (TransactionLayer * list effect) :=
  match m with
  | Invite => handle_invite now fresh la l q src
  | Ack => Done (handle_ack now l q src)
  | Cancel => Done (handle_cancel_request now fresh l q src)
  | Bye => Done (new_non_invite fresh l q src,
                 [Emit (IncomingBye (default [] (call_id q)) q src)])
  | _ => Done (new_non_invite fresh l q src, [Emit (IncomingRequest q src)])
  end.

Lemma handle_request_eq `{HashOrder} now fresh la l q src q' m b :
  method q = Some m → stamp_via_received_rport q src = Done q' → extract_branch q' = Some b →
  handle_request now fresh la l q src =
    match replay_any now l b q' src with
    | Some r => Done (l, replay_effect src r)
    | None => route_request now fresh la l q' src m
    end.
Proof.
  intros Hm Hq Hb. unfold handle_request. rewrite Hm, Hq. simpl.
  unfold matched_retransmission. rewrite Hb, (stamp_method _ _ _ Hq), Hm. simpl.
  by destruct (replay_any now l b q' src).
Qed.

Lemma response_keeps_servers now l r src :
  invite_server_txns (process_response now l r src).1 = invite_server_txns l.
Proof. unfold process_response. repeat (case_match; simpl; try done). Qed.

Lemma record_response_keeps_servers now l r addr :
  invite_server_txns (record_non_invite_response now l r addr) = invite_server_txns l.
Proof. unfold record_non_invite_response. repeat (case_match; simpl; try done). Qed.

Lemma response_keeps_others now l r src :
  non_invite_server_txns (process_response now l r src).1 = non_invite_server_txns l.
Proof. unfold process_response. repeat (case_match; simpl; try done). Qed.

(** *** Requests on file *)

(** The server transaction of the request [q] from [src], under the branch [b]; [r] is the
    response it has stored. *)
Definition on_file (l : TransactionLayer) (b : str) (q : SipMessage) (src : SocketAddr) (r : option SipMessage) : Prop :=
  if decide (method q = Some Invite) then
    ∃ x, invite_server_txns l !! b = Some x ∧ ServerTransaction.request x = q
         ∧ ServerTransaction.remote_addr x = src ∧ ServerTransaction.last_response x = r
  else
    ∃ x, non_invite_server_txns l !! b = Some x ∧ NonInviteServerTransaction.request x = q
         ∧ NonInviteServerTransaction.remote_addr x = src ∧ NonInviteServerTransaction.last_response x = r.

(** The inputs that give the request a response: the application's, and the CANCEL that
    ends an INVITE. *)
Inductive gives (q : SipMessage) (b : str) (src : SocketAddr) : input → list effect → SipMessage → Prop :=
  | gives_response resp out : extract_branch resp = Some b → gives q b src (SendResponse resp src) out resp
  | gives_final q2 resp out : extract_branch q2 = Some b → gives q b src (RecordFinal q2 resp) out resp
  | gives_cancel fresh c csrc out resp : method c = Some Cancel →
      create_response q 487 REQUEST_TERMINATED = Ok resp → Send resp csrc ∈ out →
      gives q b src (Receive fresh c csrc) out resp.

(** Another request takes the branch over. *)
Definition branch_taken (b : str) (q : SipMessage) (src : SocketAddr) (i : input) : Prop :=
  ∃ fresh q2 src2 q2', i = Receive fresh q2 src2 ∧ stamp_via_received_rport q2 src2 = Done q2'
    ∧ branch_of fresh q2' = b ∧ method q2 ≠ Some Ack
    ∧ (extract_branch q2' = Some b → matches_server q src q2' src2 = false).

(** What may become of a transaction on file in a step. *)
Definition file_step (b : str) (q : SipMessage) (src : SocketAddr) (r : option SipMessage) (i : input)
    (l' : TransactionLayer) (out : list effect) : Prop :=
  on_file l' b q src r
  ∨ (∃ resp, on_file l' b q src (Some resp) ∧ gives q b src i out resp)
  ∨ (i = Tick ∧ ∀ r', ¬ on_file l' b q src r')
  ∨ branch_taken b q src i.

Lemma on_file_invite l b q src r : method q = Some Invite →
  on_file l b q src r ↔ ∃ x, invite_server_txns l !! b = Some x ∧ ServerTransaction.request x = q
         ∧ ServerTransaction.remote_addr x = src ∧ ServerTransaction.last_response x = r.
Proof. intros Hm. unfold on_file. by rewrite decide_True. Qed.

Lemma on_file_other l b q src r : method q ≠ Some Invite →
  on_file l b q src r ↔ ∃ x, non_invite_server_txns l !! b = Some x ∧ NonInviteServerTransaction.request x = q
         ∧ NonInviteServerTransaction.remote_addr x = src ∧ NonInviteServerTransaction.last_response x = r.
Proof. intros Hm. unfold on_file. by rewrite decide_False. Qed.

(** Whatever keeps the maps of server transactions keeps the file. *)
Lemma on_file_same l l' b q src r :
  invite_server_txns l' = invite_server_txns l → non_invite_server_txns l' = non_invite_server_txns l →
  on_file l b q src r → on_file l' b q src r.
Proof. unfold on_file. intros -> ->. done. Qed.

Lemma on_ack_keeps now x :
  ServerTransaction.request (ServerTransaction.on_ack now x) = ServerTransaction.request x
  ∧ ServerTransaction.remote_addr (ServerTransaction.on_ack now x) = ServerTransaction.remote_addr x
  ∧ ServerTransaction.last_response (ServerTransaction.on_ack now x) = ServerTransaction.last_response x.
Proof. unfold ServerTransaction.on_ack. by repeat case_bool_decide. Qed.

Lemma send_final_keeps now x resp :
  ServerTransaction.request (ServerTransaction.send_final now x resp) = ServerTransaction.request x
  ∧ ServerTransaction.remote_addr (ServerTransaction.send_final now x resp) = ServerTransaction.remote_addr x
  ∧ ServerTransaction.last_response (ServerTransaction.send_final now x resp) = Some resp.
Proof. unfold ServerTransaction.send_final. by repeat case_match. Qed.

Lemma on_file_insert l b b2 q src r x x' :
  on_file l b q src r → invite_server_txns l !! b2 = Some x →
  ServerTransaction.request x' = ServerTransaction.request x →
  ServerTransaction.remote_addr x' = ServerTransaction.remote_addr x →
  ServerTransaction.last_response x' = ServerTransaction.last_response x →
  on_file (set_invite_server l (<[b2 := x']> (invite_server_txns l))) b q src r.
Proof.
  intros Hf Hx H1 H2 H3. destruct (decide (method q = Some Invite)) as [Hm|Hm].
  - apply on_file_invite in Hf as (y & Hy & Hq & Hs & Hr); [|done]. apply on_file_invite; [done|]. simpl.
    destruct (decide (b2 = b)) as [->|Hne].
    + exists x'. rewrite lookup_insert_eq. rewrite Hx in Hy. injection Hy as <-. split_and!; congruence.
    + exists y. by rewrite lookup_insert_ne.
  - apply on_file_other; [done|]. by apply on_file_other in Hf.
Qed.

Lemma file_ack `{HashOrder} now l b q src r c csrc : on_file l b q src r → on_file (handle_ack now l c csrc).1 b q src r.
Proof.
  intros Hf. unfold handle_ack. destruct (accepted_ack_branch l c) as [b2|]; simpl.
  - destruct (invite_server_txns l !! b2) as [x|] eqn:Ex.
    + assert (E : alter (ServerTransaction.on_ack now) b2 (invite_server_txns l)
                  = <[b2 := ServerTransaction.on_ack now x]> (invite_server_txns l)).
      { apply map_eq. intros k. rewrite lookup_alter. case_decide; subst; [by rewrite Ex, lookup_insert_eq|by rewrite lookup_insert_ne]. }
      rewrite E. eapply on_file_insert; [done|done|apply on_ack_keeps..].
    + apply (on_file_same l); [|done|exact Hf]. simpl. apply map_eq. intros k. rewrite lookup_alter. case_decide; subst; by rewrite ?Ex.
  - destruct (extract_branch c) as [b2|]; [|done]. destruct (invite_server_txns l !! b2) as [x|] eqn:Ex; [|done].
    destruct (_ && _ && _); [|done]. eapply on_file_insert; [done|done|apply on_ack_keeps..].
Qed.

(** An INVITE transaction gets a final response. *)
Lemma file_final now l b b2 q src r x resp :
  on_file l b q src r → invite_server_txns l !! b2 = Some x →
  let l' := set_invite_server l (<[b2 := ServerTransaction.send_final now x resp]> (invite_server_txns l)) in
  on_file l' b q src r ∨ b2 = b ∧ ServerTransaction.request x = q ∧ on_file l' b q src (Some resp).
Proof.
  intros Hf Hx l'. destruct (decide (method q = Some Invite)) as [Hm|Hm].
  - pose proof Hf as Hf'. apply on_file_invite in Hf as (y & Hy & Hq & Hs & Hr); [|done].
    destruct (decide (b2 = b)) as [->|Hne].
    + right. rewrite Hx in Hy. injection Hy as <-. split_and!; [done..|]. apply on_file_invite; [done|].
      exists (ServerTransaction.send_final now x resp). unfold l'. simpl. rewrite lookup_insert_eq.
      destruct (send_final_keeps now x resp) as (-> & -> & ->). done.
    + left. apply on_file_invite; [done|]. exists y. unfold l'. simpl. by rewrite lookup_insert_ne.
  - left. apply on_file_other; [done|]. by apply on_file_other in Hf.
Qed.

(** A non-INVITE transaction is filed. *)
Lemma file_insert_other l b b2 q src r x' :
  on_file l b q src r → method q = Some Invite ∨ b2 ≠ b →
  on_file (set_non_invite_server l (<[b2 := x']> (non_invite_server_txns l))) b q src r.
Proof.
  intros Hf Hc. destruct (decide (method q = Some Invite)) as [Hm|Hm].
  - apply on_file_invite; [done|]. by apply on_file_invite in Hf.
  - destruct Hc as [?|Hne]; [done|]. apply on_file_other in Hf as (x & Hx & Hrest); [|done]. apply on_file_other; [done|].
    exists x. simpl. by rewrite lookup_insert_ne.
Qed.

Lemma file_cancel now fresh l b q src r c csrc l' out :
  on_file l b q src r → method c = Some Cancel → handle_cancel_request now fresh l c csrc = (l', out) →
  method q = Some Invite ∨ branch_of fresh c ≠ b →
  on_file l' b q src r
  ∨ ∃ resp, on_file l' b q src (Some resp) ∧ create_response q 487 REQUEST_TERMINATED = Ok resp ∧ Send resp csrc ∈ out.
Proof.
  intros Hf Hm Hh Hc. unfold handle_cancel_request in Hh.
  assert (Hl : on_file (cancel_invite now l (branch_of fresh c) c).1.1.1 b q src r
    ∨ ∃ resp, on_file (cancel_invite now l (branch_of fresh c) c).1.1.1 b q src (Some resp)
       ∧ create_response q 487 REQUEST_TERMINATED = Ok resp ∧ (cancel_invite now l (branch_of fresh c) c).1.2 = Some resp).
  { unfold cancel_invite. destruct (invite_server_txns l !! branch_of fresh c) as [x|] eqn:Ex; simpl; [|by left].
    destruct (cancel_identity_matches _ _); simpl; [|by left]. case_bool_decide; simpl; [|by left].
    destruct (create_response (ServerTransaction.request x) 487 REQUEST_TERMINATED) as [resp|] eqn:Er; simpl; [|by left].
    destruct (file_final now l b (branch_of fresh c) q src r x resp Hf Ex) as [?|(_ & Hq & ?)]; [by left|right].
    exists resp. split_and!; [done|by rewrite <-Hq|done]. }
  destruct (cancel_invite now l (branch_of fresh c) c) as [[[l2 cr] ir] cc]. simpl in *. injection Hh as <- <-.
  destruct Hl as [Hl|(resp & Hl & Hr & ->)]; [left; by apply file_insert_other|right].
  exists resp. split_and!; [by apply file_insert_other|done|]. set_solver.
Qed.

Lemma matched_none `{HashOrder} now l q2 q2' src2 b q src r :
  on_file l b q src r → matched_retransmission now l q2' src2 = None → method q2' = method q2 → is_Some (method q2) →
  extract_branch q2' = Some b → matches_server q src q2' src2 = false.
Proof.
  intros Hf Hn Hm [m Hm2] Hb. unfold matched_retransmission in Hn. rewrite Hb, Hm, Hm2 in Hn. cbn [mbind option_bind] in Hn.
  unfold replay_any in Hn. destruct (replay_invite l b q2' src2) eqn:E1; [done|]. destruct (replay_non_invite l b q2' src2) eqn:E2; [done|].
  unfold on_file in Hf. destruct (decide _).
  - destruct Hf as (x & Hx & <- & <- & _). unfold replay_invite in E1. rewrite Hx in E1. simpl in E1. by destruct (matches_server _ _ _ _).
  - destruct Hf as (x & Hx & <- & <- & _). unfold replay_non_invite in E2. rewrite Hx in E2. simpl in E2. by destruct (matches_server _ _ _ _).
Qed.

Lemma file_request `{HashOrder} now fresh la l b q src r q2 src2 l' out :
  on_file l b q src r → handle_request now fresh la l q2 src2 = Done (l', out) → file_step b q src r (Receive fresh q2 src2) l' out.
Proof.
  intros Hf. unfold handle_request. destruct (method q2) as [m|] eqn:Hm; [|intros [= <- _]; by left].
  destruct (stamp_returns q2 src2) as [q2' Hq]. rewrite Hq. cbn [outcome_bind].
  destruct (matched_retransmission now l q2' src2) as [rr|] eqn:Er; [intros [= <- _]; by left|].
  pose proof (stamp_method _ _ _ Hq) as Hm'.
  assert (Htaken : m ≠ Ack → branch_of fresh q2' = b → branch_taken b q src (Receive fresh q2 src2)).
  { intros Hack Hb. exists fresh, q2, src2, q2'. split_and!; [done..|congruence|]. intros He.
    eapply matched_none; [done|done|done|by rewrite Hm|done]. }
  assert (Hni : m ≠ Ack → file_step b q src r (Receive fresh q2 src2) (new_non_invite fresh l q2' src2) out).
  { intros Hack. destruct (decide (branch_of fresh q2' = b)) as [Hb|Hb]; [by do 3 right; apply Htaken|left].
    apply file_insert_other; auto. }
  destruct m; try (intros [= <- _]; by apply Hni).
  - unfold handle_invite. intros Hh. apply outcome_bind_Done in Hh as (ses & _ & [= <- _]).
    destruct (decide (branch_of fresh q2' = b)) as [Hb|Hb]; [by do 3 right; apply Htaken|left].
    unfold on_file in *. destruct (decide _); [|done]. destruct Hf as (x & Hx & Hrest). exists x. simpl. by rewrite lookup_insert_ne.
  - intros [= Hh]. left. pose proof (file_ack now l b q src r q2' src2 Hf) as Hk. by rewrite Hh in Hk.
  - intros [= Hh]. destruct (decide (branch_of fresh q2' = b)) as [Hb|Hb].
    + destruct (decide (method q = Some Invite)) as [Hi|Hi]; [|by do 3 right; apply Htaken].
      destruct (file_cancel now fresh l b q src r q2' src2 l' out Hf ltac:(congruence) Hh (or_introl Hi)) as [?|(resp & ? & ? & ?)]; [by left|].
      right. left. exists resp. split; [done|]. by apply gives_cancel.
    + destruct (file_cancel now fresh l b q src r q2' src2 l' out Hf ltac:(congruence) Hh (or_intror Hb)) as [?|(resp & ? & ? & ?)]; [by left|].
      right. left. exists resp. split; [done|]. by apply gives_cancel.
Qed.

Lemma tick_server_keeps now b x x' : tick_server now b x = Some x' →
  ServerTransaction.request x' = ServerTransaction.request x ∧ ServerTransaction.remote_addr x' = ServerTransaction.remote_addr x
  ∧ ServerTransaction.last_response x' = ServerTransaction.last_response x.
Proof.
  unfold tick_server, alive_server, expire_invite_server.
  destruct (ServerTransaction.needs_retransmit now x && _); repeat (case_match; simpl); intros; simplify_eq/=; done.
Qed.

Lemma tick_non_invite_server_keeps now x x' : tick_non_invite_server now x = Some x' → x' = x.
Proof.
  unfold tick_non_invite_server, alive_non_invite_server, expire_non_invite_server.
  repeat (case_match; simpl); intros; simplify_eq/=; done.
Qed.

Lemma file_tick `{HashOrder} now l b q src r :
  on_file l b q src r → on_file (handle_timers now l).1 b q src r ∨ ∀ r', ¬ on_file (handle_timers now l).1 b q src r'.
Proof.
  intros Hf. unfold on_file in *. destruct (decide _).
  - destruct Hf as (x & Hx & H1 & H2 & H3). rewrite handle_timers_server, Hx. cbn [mbind option_bind].
    destruct (tick_server now b x) as [x'|] eqn:E; [left|right; by intros r' (? & ? & _)].
    apply tick_server_keeps in E as (E1 & E2 & E3). exists x'. split_and!; [done|congruence..].
  - destruct Hf as (x & Hx & H1 & H2 & H3). rewrite handle_timers_non_invite_server, Hx. cbn [mbind option_bind].
    destruct (tick_non_invite_server now x) as [x'|] eqn:E; [left|right; by intros r' (? & ? & _)].
    apply tick_non_invite_server_keeps in E as ->. by exists x.
Qed.

Lemma file_response now l b q src r resp addr :
  on_file l b q src r → file_step b q src r (SendResponse resp addr) (record_non_invite_response now l resp addr) [Send resp addr].
Proof.
  intros Hf. unfold record_non_invite_response. destruct (extract_branch resp) as [b2|] eqn:Hb; [|by left].
  destruct (status_code resp) as [st|]; [|by left]. destruct (non_invite_server_txns l !! b2) as [x|] eqn:Ex; [|by left].
  repeat case_bool_decide; simpl; try by left.
  destruct (decide (method q = Some Invite)) as [Hm|Hm]; [left; by apply file_insert_other; auto|].
  destruct (decide (b2 = b)) as [->|Hne]; [|left; by apply file_insert_other; auto].
  right. left. apply on_file_other in Hf as (y & Hy & Hq & Hs & _); [|done]. rewrite Ex in Hy. injection Hy as <-.
  exists resp. split; [|subst addr; rewrite Hs; by apply gives_response]. apply on_file_other; [done|].
  eexists. simpl. rewrite lookup_insert_eq. split; [done|]. destruct (st <? 200); done.
Qed.

Lemma file_record now l b q src r q2 resp :
  on_file l b q src r → file_step b q src r (RecordFinal q2 resp) (record_invite_final now l q2 resp).1 [].
Proof.
  intros Hf. unfold record_invite_final. destruct (extract_branch q2) as [b2|] eqn:Hb; [|by left].
  destruct (invite_server_txns l !! b2) as [x|] eqn:Ex; [|by left]. case_bool_decide; [|by left]. cbn [fst].
  destruct (file_final now l b b2 q src r x resp Hf Ex) as [Hk|(-> & Hq & Hk)]; [left|right; left; exists resp; split].
  - eapply on_file_same; [| |exact Hk]; done.
  - eapply on_file_same; [| |exact Hk]; done.
  - by apply gives_final.
Qed.

Lemma file_step_any `{HashOrder} la now l b q src r i l' out :
  on_file l b q src r → step la now l i = Done (l', out) → file_step b q src r i l' out.
Proof.
  intros Hf. destruct i; simpl.
  - unfold handle_incoming. destruct (is_response msg); [|by apply file_request].
    unfold handle_response. pose proof (response_keeps_servers now l msg src0) as H1. pose proof (response_keeps_others now l msg src0) as H2.
    destruct (process_response now l msg src0) as [l2 m]. intros [= <- _]. left. by apply (on_file_same l).
  - intros Hs'. assert (Hs : handle_timers now l = (l', out)) by congruence.
    pose proof (file_tick now l b q src r Hf) as Ht. rewrite Hs in Ht. destruct Ht; [by left|right; right; by left].
  - unfold send_invite. intros Hs. left. destruct sent; simplify_eq/=; by apply (on_file_same l).
  - unfold send_request. intros Hs. left. destruct sent; simplify_eq/=; by apply (on_file_same l).
  - unfold send_response. intros [= <- <-]. by apply file_response.
  - intros [= <- <-]. by apply file_record.
Qed.

(** A request that is on file is answered from the file. *)
Lemma file_answers `{HashOrder} now l b q src r : layer_ok l → is_Some (method q) → on_file l b q src r → replay_any now l b q src = Some r.
Proof.
  intros Hl [m Hm] Hf. unfold replay_any, on_file in *. destruct (decide _) as [Hi|Hi].
  - destruct Hf as (x & Hx & Hq & Hs & Hr). unfold replay_invite. rewrite Hx. cbn [mbind option_bind]. by rewrite Hq, Hs, matches_server_refl, Hr.
  - destruct Hf as (x & Hx & Hq & Hs & Hr). unfold replay_invite. destruct (invite_server_txns l !! b) as [y|] eqn:Ey; cbn [mbind option_bind].
    + assert (E : matches_server (ServerTransaction.request y) (ServerTransaction.remote_addr y) q src = false).
      { unfold matches_server. rewrite (sk_method _ _ (server_lookup_ok _ Hl _ _ Ey)). rewrite bool_decide_eq_false_2 by congruence. done. }
      rewrite E. unfold replay_non_invite. rewrite Hx. cbn [mbind option_bind]. by rewrite Hq, Hs, matches_server_refl, Hr.
    + unfold replay_non_invite. rewrite Hx. cbn [mbind option_bind]. by rewrite Hq, Hs, matches_server_refl, Hr.
Qed.

(** What handling puts on file. *)
Lemma route_files `{HashOrder} now fresh la l q src m b l1 out :
  method q = Some m → m ≠ Ack → branch_of fresh q = b →
  route_request now fresh la l q src m = Done (l1, out) →
  ∃ r, on_file l1 b q src r ∧ ∀ resp, r = Some resp → Send resp src ∈ out.
Proof.
  intros Hm Hne Hb. assert (Hnew : m ≠ Invite → ∃ r, on_file (new_non_invite fresh l q src) b q src r ∧ ∀ resp, r = Some resp → Send resp src ∈ out).
  { intros Hi. exists None. split; [|done]. apply on_file_other; [congruence|]. unfold new_non_invite. rewrite Hb. eexists. simpl.
    by rewrite lookup_insert_eq. }
  unfold route_request. destruct m; try done; try (intros [= <- _]; by apply Hnew).
  - unfold handle_invite. intros Hh. apply outcome_bind_Done in Hh as (ses & _ & [= <- _]). exists None. split; [|done].
    apply on_file_invite; [done|]. rewrite Hb. eexists. simpl. by rewrite lookup_insert_eq.
  - intros [= Hh]. unfold handle_cancel_request in Hh. destruct (cancel_invite _ _ _ _) as [[[l' cr] ir] cc]. injection Hh as <- <-.
    exists cr. split; [|intros resp ->; set_solver]. apply on_file_other; [congruence|]. rewrite Hb. eexists. simpl. rewrite lookup_insert_eq.
    split; [done|]. by destruct cr.
Qed.


Definition layer_after (r : outcome (TransactionLayer * list effect)) : TransactionLayer :=
  match r with Done (l, _) => l | Panic => new_layer end.

(** An INVITE that rings is repeated 90 ms later; a BYE that was answered is repeated, and
    the answer is sent again. *)
Definition ex_bye : SipMessage := ex_request Bye (lit "2 BYE") (lit "<sip:b@y>;tag=bb").
Definition ex_reply (code : Z) : SipMessage :=
  match create_response ex_bye code [] with Ok r => r | Err _ => ex_bye end.
Definition ex_stamped (q : SipMessage) : SipMessage :=
  match stamp_via_received_rport q ex_peer with Done q' => q' | Panic => q end.
Definition ex_branch : str := lit "z9hG4bK77".

(** A BYE answered with 200: without a late 100 it is reaped after 32 s. *)
Definition ex_answered : TransactionLayer :=
  let _ := key_order in
  layer_after (run ex_addr new_layer
                 [(0, Receive ex_fresh ex_bye ex_peer); (5, SendResponse (ex_reply 200) ex_peer)]).

Lemma ex_answered_reachable : reachable (H := key_order) ex_addr 5 ex_answered.
Proof.
  destruct (step (H := key_order) ex_addr 0 new_layer (Receive ex_fresh ex_bye ex_peer)) as [[l out]|] eqn:E;
    [|exfalso; revert E; vm_compute; discriminate].
  eapply (reach_step ex_addr 0 5 l (SendResponse (ex_reply 200) ex_peer)); [|lia|].
  - eapply (reach_step ex_addr 0 0 new_layer); [constructor|lia|exact E].
  - unfold ex_answered. cbn [run]. rewrite E. reflexivity.
Qed.

(** An INVITE of ours, then a BYE of the peer and its answer. *)
Definition ex_busy : TransactionLayer :=
  let _ := key_order in
  layer_after (run ex_addr new_layer
                 [(0, SendInvite ex_fresh true ex_invite ex_peer); (0, Receive ex_fresh ex_bye ex_peer);
                  (5, SendResponse (ex_reply 200) ex_peer)]).

Lemma stack_invariant_witness :
  (size (invite_client_txns ex_busy) = 1%nat ∧ size (non_invite_server_txns ex_busy) = 1%nat)
  ∧ layer_ok ex_busy
  ∧ (∃ l' out, step (H := key_order) ex_addr 600 ex_busy Tick = Done (l', out) ∧ layer_ok l')
  ∧ (∀ b x, invite_client_txns ex_busy !! b = Some x →
       T1 ≤ ClientTransaction.timer_a_interval x < TIMER_B + T1).
Proof.
  split; [vm_compute; split; reflexivity|].
  assert (reachable (H := key_order) ex_addr 5 ex_busy) as Hr.
  { destruct (step (H := key_order) ex_addr 0 new_layer (SendInvite ex_fresh true ex_invite ex_peer)) as [[l1 out1]|] eqn:E1;
      [|vm_compute in E1; discriminate].
    destruct (step (H := key_order) ex_addr 0 l1 (Receive ex_fresh ex_bye ex_peer)) as [[l2 out2]|] eqn:E2;
      [|exfalso; revert E2; vm_compute in E1; injection E1 as <- <-; vm_compute; discriminate].
    eapply (reach_step ex_addr 0 5 l2 (SendResponse (ex_reply 200) ex_peer)); [|lia|].
    - eapply (reach_step ex_addr 0 0 l1); [eapply (reach_step ex_addr 0 0 new_layer); [constructor|lia|exact E1]|lia|exact E2].
    - unfold ex_busy. cbn [run]. rewrite E1. cbn [outcome_bind]. rewrite E2. reflexivity. }
  exact (stack_invariant (H := key_order) ex_addr 5 600 ex_busy Tick Hr).
Defined.


(** *** One final response per INVITE *)

(** The INVITE server transaction has its final response, and it is [r]. *)
Definition settled (x : ServerTransaction.t) : Prop :=
  ServerTransaction.state x ≠ ServerTransaction.Proceeding.

Definition same_final (x x' : ServerTransaction.t) : Prop :=
  settled x' ∧ ServerTransaction.last_response x' = ServerTransaction.last_response x
  ∧ ServerTransaction.request x' = ServerTransaction.request x
  ∧ ServerTransaction.remote_addr x' = ServerTransaction.remote_addr x.

Lemma same_final_refl x : settled x → same_final x x.
Proof. by split. Qed.

Lemma on_ack_same_final now x : settled x → same_final x (ServerTransaction.on_ack now x).
Proof.
  unfold settled, ServerTransaction.on_ack, same_final. intros Hs.
  repeat (case_bool_decide; simpl); split_and!; try done; unfold settled; simpl; congruence.
Qed.

Lemma tick_server_same_final now b x x' :
  settled x → tick_server now b x = Some x' → same_final x x'.
Proof.
  unfold settled, same_final, tick_server, alive_server, expire_invite_server. intros Hs.
  destruct (ServerTransaction.needs_retransmit now x && _); repeat (case_match; simpl);
    intros; simplify_eq/=; done.
Qed.

(** What can become of a settled transaction in the map. *)
Definition kept (b : str) (x : ServerTransaction.t) (l' : TransactionLayer) : Prop :=
  ∃ x', invite_server_txns l' !! b = Some x' ∧ same_final x x'.

Section kept.
Context (b : str) (x : ServerTransaction.t) (l : TransactionLayer).
Context (Hx : invite_server_txns l !! b = Some x) (Hs : settled x).

Lemma kept_same l' : invite_server_txns l' = invite_server_txns l → kept b x l'.
Proof. intros E. exists x. rewrite E. split; [done|by apply same_final_refl]. Qed.

(** Updating another transaction, or this one to the same final. *)
Lemma kept_insert b' y x' :
  invite_server_txns l !! b' = Some y → (settled y → same_final y x') →
  kept b x (set_invite_server l (<[b' := x']> (invite_server_txns l))).
Proof.
  intros Hy Hf. unfold kept. simpl. destruct (decide (b' = b)) as [->|Hne].
  - exists x'. rewrite lookup_insert_eq. simplify_eq. auto.
  - exists x. rewrite lookup_insert_ne by done. split; [done|by apply same_final_refl].
Qed.

Lemma kept_ack `{HashOrder} now q src : kept b x (handle_ack now l q src).1.
Proof.
  unfold handle_ack. repeat (case_match; simpl); simplify_eq; try by apply kept_same.
  - unfold kept. simpl. rewrite lookup_alter. case_decide; subst.
    + rewrite Hx. eexists; split; [done|]. by apply on_ack_same_final.
    + exists x. split; [done|by apply same_final_refl].
  - eapply kept_insert; [done|]. apply on_ack_same_final.
Qed.

Lemma kept_cancel now fresh q src : kept b x (handle_cancel_request now fresh l q src).1.
Proof.
  unfold handle_cancel_request.
  assert (Hc : kept b x (cancel_invite now l (branch_of fresh q) q).1.1.1).
  { unfold cancel_invite.
    destruct (invite_server_txns l !! branch_of fresh q) as [y|] eqn:Ey; simpl;
      [|by apply kept_same].
    destruct (cancel_identity_matches _ _); [|by apply kept_same].
    case_bool_decide; [|by apply kept_same].
    destruct (create_response _ _ _); [|by apply kept_same].
    eapply kept_insert; [done|]. intros Hsy. by exfalso. }
  by destruct (cancel_invite _ _ _ _) as [[[l' cr] ir] cc].
Qed.

Lemma kept_record now q r : kept b x (record_invite_final now l q r).1.
Proof.
  unfold record_invite_final. repeat (case_match; simpl); try by apply kept_same.
  pose proof (kept_insert l0 t (ServerTransaction.send_final now t r)) as Hk.
  destruct Hk as (x' & Hx' & Hf); [done| |by exists x'].
  intros Hst. case_bool_decide; by exfalso.
Qed.
End kept.

(** A new INVITE that reuses the branch but is no retransmission of [x]. *)
Definition overwritten (b : str) (x : ServerTransaction.t) (i : input) : Prop :=
  ∃ fresh q src q', i = Receive fresh q src ∧ stamp_via_received_rport q src = Done q'
    ∧ method q = Some Invite ∧ branch_of fresh q' = b
    ∧ (extract_branch q' = Some b →
       matches_server (ServerTransaction.request x) (ServerTransaction.remote_addr x) q' src
         = false).

Lemma kept_request `{HashOrder} now fresh la l q src b x l' out :
  invite_server_txns l !! b = Some x → settled x →
  handle_request now fresh la l q src = Done (l', out) →
  kept b x l' ∨ overwritten b x (Receive fresh q src).
Proof.
  intros Hx Hs. unfold handle_request.
  destruct (method q) as [m|] eqn:Hm; [|intros [= <- _]; left; by eapply kept_same].
  destruct (stamp_returns q src) as [q' Hq]. rewrite Hq. cbn [outcome_bind].
  destruct (matched_retransmission now l q' src) as [r|] eqn:Er;
    [intros [= <- _]; left; by eapply kept_same|].
  destruct m; try (intros [= <- _]; left; by eapply kept_same).
  - unfold handle_invite. intros Hh. apply outcome_bind_Done in Hh as (ses & _ & [= <- _]).
    destruct (decide (branch_of fresh q' = b)) as [Hb|Hb].
    + right. exists fresh, q, src, q'. split_and!; try done. intros Hb'.
      destruct (matches_server _ _ _ _) eqn:E; [|done]. exfalso.
      unfold matched_retransmission, replay_any, replay_invite in Er.
      rewrite Hb', (stamp_method _ _ _ Hq), Hm in Er. simpl in Er. rewrite Hx in Er.
      simpl in Er. by rewrite E in Er.
    + left. exists x. simpl. rewrite lookup_insert_ne by done.
      split; [done|by apply same_final_refl].
  - intros [= Hh]. left. pose proof (kept_ack b x l Hx Hs now q' src) as Hk. by rewrite Hh in Hk.
  - intros [= Hh]. left. pose proof (kept_cancel b x l Hx Hs now fresh q' src) as Hk.
    by rewrite Hh in Hk.
Qed.

(** C14.  One final response per INVITE: once an INVITE server transaction has
    left [Proceeding], no message, timer or call of the application replaces
    its recorded response; a later attempt to record another final is refused.
    The transaction goes away only in a timer tick, or when a different INVITE
    takes its branch over. *)
Theorem invite_final_is_kept `{HashOrder} (la : SocketAddr) (now : Z) (l l' : TransactionLayer)
    (i : input) (out : list effect) (b : str) (x : ServerTransaction.t)
    (Hx : invite_server_txns l !! b = Some x)
    (Hs : ServerTransaction.state x ≠ ServerTransaction.Proceeding)
    (Hstep : step la now l i = Done (l', out)) :
  (kept b x l'
   ∨ i = Tick ∧ invite_server_txns l' !! b = None
   ∨ overwritten b x i)
  ∧ (∀ q r, extract_branch q = Some b → record_invite_final now l q r = (l, false)).
Proof.
  split.
  2:{ intros q r Hq. unfold record_invite_final. rewrite Hq, Hx.
      by rewrite bool_decide_eq_false_2. }
  destruct i; simpl in Hstep.
  - unfold handle_incoming in Hstep. destruct (is_response msg).
    + left. unfold handle_response in Hstep.
      pose proof (response_keeps_servers now l msg src) as Hk.
      destruct (process_response _ _ _ _). simplify_eq/=. by eapply kept_same.
    + apply (kept_request _ _ _ _ _ _ b x) in Hstep as [?|?]; auto.
  - destruct (invite_server_txns l' !! b) as [x'|] eqn:E; [left|by auto].
    exists x'. split; [done|].
    assert (Hh : handle_timers now l = (l', out)) by congruence.
    pose proof (handle_timers_server now l b) as Ht. rewrite Hh in Ht. simpl in Ht.
    rewrite E, Hx in Ht. by eapply tick_server_same_final.
  - left. unfold send_invite in Hstep. destruct sent; simplify_eq/=; by eapply kept_same.
  - left. unfold send_request in Hstep. destruct sent; simplify_eq/=; by eapply kept_same.
  - left. unfold send_response in Hstep. simplify_eq/=.
    eapply kept_same; [done|done|]. apply record_response_keeps_servers.
  - left. simplify_eq/=. by apply kept_record.
Qed.

(** The application's 200 loses against the CANCEL's 487. *)
Definition ex_cancelled : TransactionLayer :=
  let _ := key_order in
  layer_after (run ex_addr new_layer
                 [(0, Receive ex_fresh ex_invite ex_peer); (50, Receive ex_fresh ex_cancel ex_peer)]).

Definition ex_invite_txn (l : TransactionLayer) : ServerTransaction.t :=
  default (ServerTransaction.new 0 ex_invite ex_peer ex_branch)
    (invite_server_txns l !! ex_branch).

Lemma invite_final_is_kept_witness :
  let _ := key_order in
  let i := RecordFinal ex_invite (new_response 200 (lit "OK")) in
  let l' := layer_after (step ex_addr 60 ex_cancelled i) in
  (kept ex_branch (ex_invite_txn ex_cancelled) l'
   ∨ i = Tick ∧ invite_server_txns l' !! ex_branch = None
   ∨ overwritten ex_branch (ex_invite_txn ex_cancelled) i)
  ∧ (∀ q r, extract_branch q = Some ex_branch →
       record_invite_final 60 ex_cancelled q r = (ex_cancelled, false)).
Proof.
  intros ord i l'.
  apply (invite_final_is_kept (H := key_order) ex_addr 60 ex_cancelled l' i []);
    try (vm_compute; reflexivity).
  vm_compute. discriminate.
Defined.

(** A CANCEL ends the INVITE it matches: if the INVITE has no final yet,
    the caller gets [200] for the CANCEL and then [487] for the INVITE (echoing
    the INVITE's own headers), the application is told once, and from then on
    its own final for that INVITE is refused. *)
Theorem cancel_terminates_invite `{HashOrder} (la : SocketAddr) (now : Z) (fresh : Fresh)
    (l : TransactionLayer) (q q' : SipMessage) (src : SocketAddr) (b cid : str)
    (x : ServerTransaction.t)
    (Hl : layer_ok l) (Hq : method q = Some Cancel)
    (Hstamp : stamp_via_received_rport q src = Done q') (Hb : extract_branch q' = Some b)
    (Hcid : call_id q' = Some cid)
    (Hnew : matched_retransmission now l q' src = None)
    (Hx : invite_server_txns l !! b = Some x)
    (Hp : ServerTransaction.state x = ServerTransaction.Proceeding)
    (Hid : cancel_identity_matches (ServerTransaction.request x) q' = true) :
  ∃ l' ok terminated,
    create_response q' 200 (lit "OK") = Ok ok
    ∧ create_response (ServerTransaction.request x) 487 REQUEST_TERMINATED = Ok terminated
    ∧ handle_incoming now fresh la l q src =
        Done (l', [Send ok src; Send terminated src; Emit (IncomingCancel cid q' src)])
    ∧ (∃ x', invite_server_txns l' !! b = Some x'
             ∧ ServerTransaction.state x' = ServerTransaction.Completed
             ∧ ServerTransaction.last_response x' = Some terminated)
    ∧ (∀ now' q2 r, extract_branch q2 = Some b → record_invite_final now' l' q2 r = (l', false)).
Proof.
  pose proof (sk_method _ _ (server_lookup_ok _ Hl _ _ Hx)) as Hinv.
  assert (Hreq : ∀ m k, method m = Some k → is_request m = true)
    by (intros m k; unfold method, is_request; by destruct (start_line m)).
  assert (Hcreate : ∀ m k c t, method m = Some k → ∃ r, create_response m c t = Ok r
            ∧ status_of r = c).
  { intros m k c t Hm. unfold create_response. rewrite (Hreq _ _ Hm). simpl. eauto. }
  pose proof (stamp_method _ _ _ Hstamp) as Hm'. rewrite Hq in Hm'.
  destruct (Hcreate q' Cancel 200 (lit "OK") Hm') as (ok & Hok & _).
  destruct (Hcreate _ Invite 487 REQUEST_TERMINATED Hinv) as (term & Hterm & Hstatus).
  assert (Hbf : branch_of fresh q' = b) by (unfold branch_of; by rewrite Hb).
  assert (Hfin : ServerTransaction.state (ServerTransaction.send_final now x term)
                 = ServerTransaction.Completed ∧
                 ServerTransaction.last_response (ServerTransaction.send_final now x term)
                 = Some term).
  { unfold ServerTransaction.send_final. by rewrite Hstatus. }
  eexists _, ok, term. split_and!; [done|done| | |].
  - unfold handle_incoming. replace (is_response q) with false.
    2:{ apply Hreq in Hq. unfold is_request, is_response in *. by destruct (start_line q). }
    unfold handle_request. rewrite Hq, Hstamp. cbn [outcome_bind]. rewrite Hnew.
    unfold handle_cancel_request, cancel_invite. rewrite Hbf, Hx. cbn [mbind option_bind].
    rewrite Hid, bool_decide_eq_true_2, Hterm, Hok, Hcid by done. reflexivity.
  - destruct Hfin. eexists. split; [apply lookup_insert_eq|done].
  - intros now' q2 r Hq2. unfold record_invite_final. rewrite Hq2.
    cbn [set_non_invite_server set_invite_server invite_server_txns].
    rewrite lookup_insert_eq, bool_decide_eq_false_2; [done|]. by rewrite (proj1 Hfin).
Qed.

Definition ex_ringing : TransactionLayer :=
  let _ := key_order in
  layer_after (step ex_addr 0 new_layer (Receive ex_fresh ex_invite ex_peer)).

Lemma cancel_terminates_invite_witness :
  let _ := key_order in
  ∃ l' ok terminated,
    create_response (ex_stamped ex_cancel) 200 (lit "OK") = Ok ok
    ∧ create_response (ex_stamped ex_invite) 487 REQUEST_TERMINATED = Ok terminated
    ∧ handle_incoming 50 ex_fresh ex_addr ex_ringing ex_cancel ex_peer =
        Done (l', [Send ok ex_peer; Send terminated ex_peer;
                   Emit (IncomingCancel (lit "id1") (ex_stamped ex_cancel) ex_peer)])
    ∧ (∃ x', invite_server_txns l' !! ex_branch = Some x'
             ∧ ServerTransaction.state x' = ServerTransaction.Completed
             ∧ ServerTransaction.last_response x' = Some terminated)
    ∧ (∀ now' q2 r, extract_branch q2 = Some ex_branch →
         record_invite_final now' l' q2 r = (l', false)).
Proof.
  intros ord.
  apply (cancel_terminates_invite (H := key_order) ex_addr 50 ex_fresh ex_ringing ex_cancel
           (ex_stamped ex_cancel) ex_peer ex_branch (lit "id1") (ex_invite_txn ex_ringing));
    try (vm_compute; reflexivity).
  destruct (step_ok (H := key_order) ex_addr 0 new_layer (Receive ex_fresh ex_invite ex_peer)
              layer_ok_new) as (l' & out & Hs & Hl).
  unfold ex_ringing. cbv zeta. rewrite Hs. exact Hl.
Defined.

(** *** Two behaviours that the code's comments rule out *)

(** The cache of INVITE finals is filled by [record_invite_final] but not
    by the CANCEL path: after [INVITE, CANCEL, ACK] and the absorption time, a
    late retransmission of the INVITE announces the call a second time, while
    after [INVITE, 487 from the application, ACK] it does not. *)
Theorem late_invite_after_cancel :
  let _ := key_order in
  let invite := Receive ex_fresh ex_invite ex_peer in
  let cancel := Receive ex_fresh ex_cancel ex_peer in
  let ack := Receive ex_fresh ex_ack ex_peer in
  let reject := RecordFinal ex_invite (new_response 487 REQUEST_TERMINATED) in
  calls_announced (run ex_addr new_layer
    [(0, invite); (100, cancel); (200, ack); (5250, Tick); (5300, invite)]) = Some 2%nat
  ∧ calls_announced (run ex_addr new_layer
    [(0, invite); (100, reject); (200, ack); (5250, Tick); (5300, invite)]) = Some 1%nat.
Proof. vm_compute. split; reflexivity. Qed.

(** A non-INVITE server transaction that is sent a provisional response
    after its final falls back from [Completed] to [Proceeding], which no timer
    leaves: whatever ticks follow, the transaction stays in the layer for ever. *)
Theorem provisional_after_final_never_expires `{HashOrder} (b : str)
    (x : NonInviteServerTransaction.t) (r : SipMessage) (now : Z) (l : TransactionLayer)
    (ticks : list Z)
    (Hx : non_invite_server_txns l !! b = Some x)
    (Hb : extract_branch r = Some b) (Hr : status_code r = Some 100)
    (Ha : NonInviteServerTransaction.remote_addr x = ex_peer)
    (Hc : call_id (NonInviteServerTransaction.request x) = call_id r)
    (Hn : cseq_number (NonInviteServerTransaction.request x) = cseq_number r)
    (Hf : from_tag (NonInviteServerTransaction.request x) = from_tag r) :
  let l' := (send_response now l r ex_peer).1 in
  non_invite_server_txns (foldl (λ l t, (handle_timers t l).1) l' ticks) !! b
    = Some (NonInviteServerTransaction.send_provisional x r).
Proof.
  cbv zeta. induction ticks as [|t ticks IH] using rev_ind.
  - unfold send_response, record_non_invite_response. simpl.
    rewrite Hb, Hr, Hx, !bool_decide_eq_true_2 by done. apply lookup_insert_eq.
  - rewrite foldl_snoc, handle_timers_non_invite_server, IH. reflexivity.
Qed.

Definition ex_bye_txn : NonInviteServerTransaction.t :=
  default (NonInviteServerTransaction.new ex_bye ex_peer ex_branch)
    (non_invite_server_txns ex_answered !! ex_branch).

Example answered_bye_is_reaped :
  let _ := key_order in
  non_invite_server_txns (handle_timers 32005 ex_answered).1 = ∅.
Proof. vm_compute. reflexivity. Qed.

Lemma provisional_after_final_never_expires_witness :
  let _ := key_order in
  let l' := (send_response 9 ex_answered (ex_reply 100) ex_peer).1 in
  non_invite_server_txns (foldl (λ l t, (handle_timers t l).1) l' [32005; 64000000]) !! ex_branch
    = Some (NonInviteServerTransaction.send_provisional ex_bye_txn (ex_reply 100)).
Proof.
  intros ord. apply (provisional_after_final_never_expires (H := key_order));
    vm_compute; reflexivity.
Defined.
