(* ===== verification/Types.v ===== *)
(** * Shared types ([asterisk-types/src])

    [HangupCause], [ChannelState], [ControlFrame] and [FrameType] with their
    wire numbers and names, and [Frame].  The theorems: the numbers that go on
    the wire tell the constructors apart. *)

From Stdlib Require Import NArith Ascii String.
From S2P Require Import Prelude RustStr.
Local Open Scope Z_scope.
Local Open Scope list_scope.

(** ** Hangup causes (Q.931) *)

Inductive HangupCause :=
  | HcNotDefined | HcUnallocatedNumber | HcNoRouteTransitNet | HcNoRouteDestination
  | HcChannelUnacceptable | HcNormalClearing | HcUserBusy | HcNoUserResponse | HcNoAnswer
  | HcSubscriberAbsent | HcCallRejected | HcNumberChanged | HcDestinationOutOfOrder
  | HcInvalidNumberFormat | HcNormalUnspecified | HcNormalCircuitCongestion
  | HcNetworkOutOfOrder | HcNormalTemporaryFailure | HcSwitchCongestion
  | HcBearerCapNotAvail | HcBearerCapNotImplemented | HcFacilityNotImplemented
  | HcInterworking | HcFailure | HcNoSuchDriver.

#[export] Instance HangupCause_eq_dec : EqDecision HangupCause.
Proof. solve_decision. Defined.

Definition hangup_cause_code (x : HangupCause) : Z :=
  match x with
  | HcNotDefined => 0 | HcUnallocatedNumber => 1 | HcNoRouteTransitNet => 2
  | HcNoRouteDestination => 3 | HcChannelUnacceptable => 6 | HcNormalClearing => 16
  | HcUserBusy => 17 | HcNoUserResponse => 18 | HcNoAnswer => 19 | HcSubscriberAbsent => 20
  | HcCallRejected => 21 | HcNumberChanged => 22 | HcDestinationOutOfOrder => 27
  | HcInvalidNumberFormat => 28 | HcNormalUnspecified => 31
  | HcNormalCircuitCongestion => 34 | HcNetworkOutOfOrder => 38
  | HcNormalTemporaryFailure => 41 | HcSwitchCongestion => 42 | HcBearerCapNotAvail => 58
  | HcBearerCapNotImplemented => 65 | HcFacilityNotImplemented => 69
  | HcInterworking => 127 | HcFailure => 200 | HcNoSuchDriver => 201
  end.

(** The derived [Debug], which [Display] prints. *)
Definition hangup_cause_display (x : HangupCause) : str :=
  match x with
  | HcNotDefined => lit "NotDefined" | HcUnallocatedNumber => lit "UnallocatedNumber"
  | HcNoRouteTransitNet => lit "NoRouteTransitNet"
  | HcNoRouteDestination => lit "NoRouteDestination"
  | HcChannelUnacceptable => lit "ChannelUnacceptable"
  | HcNormalClearing => lit "NormalClearing" | HcUserBusy => lit "UserBusy"
  | HcNoUserResponse => lit "NoUserResponse" | HcNoAnswer => lit "NoAnswer"
  | HcSubscriberAbsent => lit "SubscriberAbsent" | HcCallRejected => lit "CallRejected"
  | HcNumberChanged => lit "NumberChanged"
  | HcDestinationOutOfOrder => lit "DestinationOutOfOrder"
  | HcInvalidNumberFormat => lit "InvalidNumberFormat"
  | HcNormalUnspecified => lit "NormalUnspecified"
  | HcNormalCircuitCongestion => lit "NormalCircuitCongestion"
  | HcNetworkOutOfOrder => lit "NetworkOutOfOrder"
  | HcNormalTemporaryFailure => lit "NormalTemporaryFailure"
  | HcSwitchCongestion => lit "SwitchCongestion"
  | HcBearerCapNotAvail => lit "BearerCapNotAvail"
  | HcBearerCapNotImplemented => lit "BearerCapNotImplemented"
  | HcFacilityNotImplemented => lit "FacilityNotImplemented"
  | HcInterworking => lit "Interworking" | HcFailure => lit "Failure"
  | HcNoSuchDriver => lit "NoSuchDriver"
  end.

(** ** Channel states *)

Inductive ChannelState :=
  | CsDown | CsReserved | CsOffHook | CsDialing | CsRing | CsRinging | CsUp | CsBusy
  | CsDialingOffHook | CsPreRing | CsMute.

#[export] Instance ChannelState_eq_dec : EqDecision ChannelState.
Proof. solve_decision. Defined.

Definition channel_state_code (x : ChannelState) : Z :=
  match x with
  | CsDown => 0 | CsReserved => 1 | CsOffHook => 2 | CsDialing => 3 | CsRing => 4
  | CsRinging => 5 | CsUp => 6 | CsBusy => 7 | CsDialingOffHook => 8 | CsPreRing => 9
  | CsMute => 10
  end.

Definition channel_state_display (x : ChannelState) : str :=
  match x with
  | CsDown => lit "Down" | CsReserved => lit "Reserved" | CsOffHook => lit "OffHook"
  | CsDialing => lit "Dialing" | CsRing => lit "Ring" | CsRinging => lit "Ringing"
  | CsUp => lit "Up" | CsBusy => lit "Busy" | CsDialingOffHook => lit "DialingOffHook"
  | CsPreRing => lit "PreRing" | CsMute => lit "Mute"
  end.

(** ** Control frames *)

Inductive ControlFrame :=
  | CfHangup | CfRing | CfRinging | CfAnswer | CfBusy | CfTakeOffHook | CfOffHook
  | CfCongestion | CfFlash | CfWink | CfOption | CfRadioKey | CfRadioUnkey | CfProgress
  | CfProceeding | CfHold | CfUnhold | CfVidUpdate | CfSrcUpdate | CfTransfer
  | CfConnectedLine | CfRedirecting | CfT38Parameters | CfCc | CfSrcChange | CfReadAction
  | CfAoc | CfEndOfQ | CfIncomplete | CfMcid | CfUpdateRtpPeer | CfPvtCauseCode
  | CfMasqueradeNotify | CfStreamTopologyRequestChange | CfStreamTopologyChanged
  | CfStreamTopologySourceChanged | CfStreamStop | CfStreamSuspend | CfStreamRestart
  | CfStreamReverse | CfStreamForward | CfPlaybackBegin | CfRecordCancel | CfRecordStop
  | CfRecordSuspend | CfRecordMute.

#[export] Instance ControlFrame_eq_dec : EqDecision ControlFrame.
Proof. solve_decision. Defined.

Definition control_frame_code (x : ControlFrame) : Z :=
  match x with
  | CfHangup => 1 | CfRing => 2 | CfRinging => 3 | CfAnswer => 4 | CfBusy => 5
  | CfTakeOffHook => 6 | CfOffHook => 7 | CfCongestion => 8 | CfFlash => 9 | CfWink => 10
  | CfOption => 11 | CfRadioKey => 12 | CfRadioUnkey => 13 | CfProgress => 14
  | CfProceeding => 15 | CfHold => 16 | CfUnhold => 17 | CfVidUpdate => 18
  | CfSrcUpdate => 20 | CfTransfer => 21 | CfConnectedLine => 22 | CfRedirecting => 23
  | CfT38Parameters => 24 | CfCc => 25 | CfSrcChange => 26 | CfReadAction => 27
  | CfAoc => 28 | CfEndOfQ => 29 | CfIncomplete => 30 | CfMcid => 31
  | CfUpdateRtpPeer => 32 | CfPvtCauseCode => 33 | CfMasqueradeNotify => 34
  | CfStreamTopologyRequestChange => 35 | CfStreamTopologyChanged => 36
  | CfStreamTopologySourceChanged => 37 | CfStreamStop => 1000 | CfStreamSuspend => 1001
  | CfStreamRestart => 1002 | CfStreamReverse => 1003 | CfStreamForward => 1004
  | CfPlaybackBegin => 1005 | CfRecordCancel => 1100 | CfRecordStop => 1101
  | CfRecordSuspend => 1102 | CfRecordMute => 1103
  end.

Definition control_frame_display (x : ControlFrame) : str :=
  match x with
  | CfHangup => lit "Hangup" | CfRing => lit "Ring" | CfRinging => lit "Ringing"
  | CfAnswer => lit "Answer" | CfBusy => lit "Busy" | CfTakeOffHook => lit "TakeOffHook"
  | CfOffHook => lit "OffHook" | CfCongestion => lit "Congestion" | CfFlash => lit "Flash"
  | CfWink => lit "Wink" | CfOption => lit "Option" | CfRadioKey => lit "RadioKey"
  | CfRadioUnkey => lit "RadioUnkey" | CfProgress => lit "Progress"
  | CfProceeding => lit "Proceeding" | CfHold => lit "Hold" | CfUnhold => lit "Unhold"
  | CfVidUpdate => lit "VidUpdate" | CfSrcUpdate => lit "SrcUpdate"
  | CfTransfer => lit "Transfer" | CfConnectedLine => lit "ConnectedLine"
  | CfRedirecting => lit "Redirecting" | CfT38Parameters => lit "T38Parameters"
  | CfCc => lit "CC" | CfSrcChange => lit "SrcChange" | CfReadAction => lit "ReadAction"
  | CfAoc => lit "AOC" | CfEndOfQ => lit "EndOfQ" | CfIncomplete => lit "Incomplete"
  | CfMcid => lit "MCID" | CfUpdateRtpPeer => lit "UpdateRtpPeer"
  | CfPvtCauseCode => lit "PvtCauseCode" | CfMasqueradeNotify => lit "MasqueradeNotify"
  | CfStreamTopologyRequestChange => lit "StreamTopologyRequestChange"
  | CfStreamTopologyChanged => lit "StreamTopologyChanged"
  | CfStreamTopologySourceChanged => lit "StreamTopologySourceChanged"
  | CfStreamStop => lit "StreamStop" | CfStreamSuspend => lit "StreamSuspend"
  | CfStreamRestart => lit "StreamRestart" | CfStreamReverse => lit "StreamReverse"
  | CfStreamForward => lit "StreamForward" | CfPlaybackBegin => lit "PlaybackBegin"
  | CfRecordCancel => lit "RecordCancel" | CfRecordStop => lit "RecordStop"
  | CfRecordSuspend => lit "RecordSuspend" | CfRecordMute => lit "RecordMute"
  end.

(** ** Frame types *)

Inductive FrameType :=
  | FtDtmfEnd | FtVoice | FtVideo | FtControl | FtNull | FtIax | FtText | FtImage | FtHtml
  | FtCng | FtModem | FtDtmfBegin | FtBridgeAction | FtBridgeActionSync | FtRtcp
  | FtTextData.

#[export] Instance FrameType_eq_dec : EqDecision FrameType.
Proof. solve_decision. Defined.

Definition frame_type_code (x : FrameType) : Z :=
  match x with
  | FtDtmfEnd => 1 | FtVoice => 2 | FtVideo => 3 | FtControl => 4 | FtNull => 5
  | FtIax => 6 | FtText => 7 | FtImage => 8 | FtHtml => 9 | FtCng => 10 | FtModem => 11
  | FtDtmfBegin => 12 | FtBridgeAction => 13 | FtBridgeActionSync => 14 | FtRtcp => 15
  | FtTextData => 16
  end.

Definition frame_type_display (x : FrameType) : str :=
  match x with
  | FtDtmfEnd => lit "DTMF End" | FtVoice => lit "Voice" | FtVideo => lit "Video"
  | FtControl => lit "Control" | FtNull => lit "Null" | FtIax => lit "IAX"
  | FtText => lit "Text" | FtImage => lit "Image" | FtHtml => lit "HTML"
  | FtCng => lit "CNG" | FtModem => lit "Modem" | FtDtmfBegin => lit "DTMF Begin"
  | FtBridgeAction => lit "Bridge Action" | FtBridgeActionSync => lit "Bridge Action Sync"
  | FtRtcp => lit "RTCP" | FtTextData => lit "Text Data"
  end.

(** ** Frames

    Payloads ([Bytes]) are lists of octets. *)

Record RtpTiming := mkRtpTiming { rt_sequence : Z; rt_timestamp : Z }.

Record VoiceFrame := mkVoice {
  v_codec_id : Z; v_samples : Z; v_data : list Z; v_timestamp_ms : Z; v_seqno : Z;
  v_stream_num : Z; v_rtp_timing : option RtpTiming }.

Record VideoFrame := mkVideo {
  vid_codec_id : Z; vid_data : list Z; vid_timestamp_ms : Z; vid_seqno : Z;
  vid_frame_ending : bool; vid_stream_num : Z }.

Inductive Frame :=
  | FVoice (v : VoiceFrame)
  | FVideo (v : VideoFrame)
  | FDtmfBegin (digit : char)
  | FDtmfEnd (digit : char) (duration_ms : Z)
  | FControl (control : ControlFrame) (data : list Z)
  | FNull
  | FText (text : str)
  | FImage (data : list Z)
  | FHtml (subclass : Z) (data : list Z)
  | FCng (level : Z)
  | FModem (subclass : Z) (data : list Z)
  | FRtcp (data : list Z)
  | FBridgeAction (data : list Z).

#[export] Instance RtpTiming_eq_dec : EqDecision RtpTiming.
Proof. solve_decision. Defined.
#[export] Instance VoiceFrame_eq_dec : EqDecision VoiceFrame.
Proof. solve_decision. Defined.
#[export] Instance VideoFrame_eq_dec : EqDecision VideoFrame.
Proof. solve_decision. Defined.
#[export] Instance Frame_eq_dec : EqDecision Frame.
Proof. solve_decision. Defined.

Definition frame_type (f : Frame) : FrameType :=
  match f with
  | FVoice _ => FtVoice
  | FVideo _ => FtVideo
  | FDtmfBegin _ => FtDtmfBegin
  | FDtmfEnd _ _ => FtDtmfEnd
  | FControl _ _ => FtControl
  | FNull => FtNull
  | FText _ => FtText
  | FImage _ => FtImage
  | FHtml _ _ => FtHtml
  | FCng _ => FtCng
  | FModem _ _ => FtModem
  | FRtcp _ => FtRtcp
  | FBridgeAction _ => FtBridgeAction
  end.

Definition frame_voice (codec_id samples : Z) (data : list Z) : Frame :=
  FVoice (mkVoice codec_id samples data 0 (-1) 0 None).
Definition voice_with_rtp_timing (codec_id samples : Z) (data : list Z) (sequence timestamp : Z)
    : Frame :=
  FVoice (mkVoice codec_id samples data 0 sequence 0 (Some (mkRtpTiming sequence timestamp))).
Definition is_voice (f : Frame) : bool := match f with FVoice _ => true | _ => false end.
Definition is_video (f : Frame) : bool := match f with FVideo _ => true | _ => false end.
Definition is_control (f : Frame) : bool := match f with FControl _ _ => true | _ => false end.
Definition is_dtmf (f : Frame) : bool :=
  match f with FDtmfBegin _ | FDtmfEnd _ _ => true | _ => false end.

(** ** Theorems *)

(** The wire numbers of the four enumerations are pairwise distinct, so
    each determines its constructor, and every channel state and frame type
    fits the [u8]/[u16] it is declared with. *)
Theorem wire_numbers_injective :
  Inj (=) (=) hangup_cause_code ∧ Inj (=) (=) channel_state_code
  ∧ Inj (=) (=) control_frame_code ∧ Inj (=) (=) frame_type_code
  ∧ (∀ s, 0 ≤ channel_state_code s < 2 ^ 8) ∧ (∀ t, 0 ≤ frame_type_code t < 2 ^ 16).
Proof.
  split_and!; try (intros x y; destruct x; destruct y; try done; intros H; discriminate);
    intros x; destruct x; simpl; lia.
Qed.
