(* ===== verification/Channel.v ===== *)
(** * Channels ([asterisk-core/src/channel/mod.rs], [softhangup.rs], [dtmf.rs]) and
    the DTMF stage of the read pipeline ([readwrite.rs])

    The channel record with the fields the dialplan and the queues use (parties
    are reduced to the caller's number and name; driver data, hooks, the audio
    generator and its formats are left out).  Callbacks and AMI events are the
    list of [ChannelEvent]s an operation emits.  The theorems: a channel is hung
    up once; the frame queue is bounded except for [softhangup]; the pipeline
    never delivers more digit ends than digit begins. *)

From Stdlib Require Import NArith Ascii String.
From S2P Require Import Prelude RustStr HashMap Types.
Local Open Scope Z_scope.
Local Open Scope list_scope.

(** ** DTMF emulation

    Instants are milliseconds; [u32] truncations are written [wrap_u32]. *)

Definition AST_MIN_DTMF_GAP_MS : Z := 45.
Definition AST_MIN_DTMF_DURATION_MS : Z := 80.
Definition AST_DEFAULT_DTMF_DURATION_MS : Z := 100.

Record DtmfState := mkDtmf {
  in_dtmf : bool;
  emulating : bool;
  dt_digit : char;
  begin_time : option Z;
  emulate_duration_ms : Z;
  last_end_time : option Z }.

Definition dtmf_new : DtmfState := mkDtmf false false 0%N None 0 None.

(** [t.elapsed().as_millis() as u32] *)
Definition elapsed_ms (now t : Z) : Z := wrap_u32 (Z.max 0 (now - t)).

Definition should_suppress_begin (now : Z) (d : DtmfState) : bool :=
  if emulating d then true
  else match last_end_time d with
       | Some last_end => elapsed_ms now last_end <? AST_MIN_DTMF_GAP_MS
       | None => false
       end.

Definition on_begin (now : Z) (d : DtmfState) (digit : char) : DtmfState * bool :=
  if should_suppress_begin now d then (d, false)
  else (mkDtmf true (emulating d) digit (Some now) (emulate_duration_ms d) (last_end_time d), true).

Inductive DtmfEndAction :=
  | Passthrough (duration_ms : Z)
  | EmulateBeginFirst (emulate_ms : Z)
  | EmulateRemaining (remaining_ms : Z)
  | Defer.

Definition on_end (now : Z) (d : DtmfState) (digit : char) (driver_duration_ms : Z)
    : DtmfState * DtmfEndAction :=
  if in_dtmf d then
    let actual_ms := match begin_time d with
                     | Some t => elapsed_ms now t
                     | None => driver_duration_ms
                     end in
    let duration := if 0 <? driver_duration_ms then driver_duration_ms else actual_ms in
    if duration <? AST_MIN_DTMF_DURATION_MS then
      let remaining := Z.max 0 (AST_MIN_DTMF_DURATION_MS - duration) in
      (mkDtmf false true digit (begin_time d) remaining (last_end_time d),
       EmulateRemaining remaining)
    else
      (mkDtmf false (emulating d) (dt_digit d) (begin_time d) (emulate_duration_ms d) (Some now),
       Passthrough (Z.max duration AST_MIN_DTMF_DURATION_MS))
  else if match last_end_time d with
          | Some last_end => elapsed_ms now last_end <? AST_MIN_DTMF_GAP_MS
          | None => false
          end
  then (d, Defer)
  else
    let emulate_dur := if AST_MIN_DTMF_DURATION_MS <? driver_duration_ms
                       then driver_duration_ms else AST_DEFAULT_DTMF_DURATION_MS in
    (mkDtmf (in_dtmf d) true digit (Some now) emulate_dur (last_end_time d),
     EmulateBeginFirst emulate_dur).

Definition check_emulation_tick (now : Z) (d : DtmfState) : DtmfState * option (char * Z) :=
  if negb (emulating d) then (d, None)
  else if emulate_duration_ms d =? 0 then
    (mkDtmf (in_dtmf d) false 0%N (begin_time d) (emulate_duration_ms d) (last_end_time d), None)
  else
    let elapsed := match begin_time d with Some t => elapsed_ms now t | None => 0 end in
    if emulate_duration_ms d <=? elapsed then
      (mkDtmf (in_dtmf d) (emulating d) (dt_digit d) (begin_time d) 0 (Some now),
       Some (dt_digit d, elapsed))
    else (d, None).

(** ** The channel *)

Record Channel := mkChannel {
  unique_id : str;
  chan_name : str;
  chan_state : ChannelState;
  caller_number : str;
  caller_name : str;
  context : str;
  exten : str;
  chan_priority : Z;
  variables : gmap str str;
  hangup_cause : HangupCause;
  frame_queue : list Frame;
  linkedid : str;
  softhangup_flags : Z;
  dtmf_state : DtmfState;
  write_queue : list Frame }.

(** [id] is the fresh UUID of [ChannelId::new]. *)
Definition channel_new (id name : str) : Channel :=
  mkChannel id name CsDown [] [] (lit "default") (lit "s") 1 ∅ HcNotDefined [] id 0 dtmf_new [].

Definition set_location (c : Channel) (ctx ext : str) (prio : Z) : Channel :=
  mkChannel (unique_id c) (chan_name c) (chan_state c) (caller_number c) (caller_name c)
    ctx ext prio (variables c) (hangup_cause c) (frame_queue c) (linkedid c)
    (softhangup_flags c) (dtmf_state c) (write_queue c).
Definition set_exten (c : Channel) (ext : str) (prio : Z) : Channel :=
  set_location c (context c) ext prio.
Definition set_variables (c : Channel) (vs : gmap str str) : Channel :=
  mkChannel (unique_id c) (chan_name c) (chan_state c) (caller_number c) (caller_name c)
    (context c) (exten c) (chan_priority c) vs (hangup_cause c) (frame_queue c) (linkedid c)
    (softhangup_flags c) (dtmf_state c) (write_queue c).
Definition set_frame_queue (c : Channel) (q : list Frame) : Channel :=
  mkChannel (unique_id c) (chan_name c) (chan_state c) (caller_number c) (caller_name c)
    (context c) (exten c) (chan_priority c) (variables c) (hangup_cause c) q (linkedid c)
    (softhangup_flags c) (dtmf_state c) (write_queue c).
Definition set_write_queue (c : Channel) (q : list Frame) : Channel :=
  mkChannel (unique_id c) (chan_name c) (chan_state c) (caller_number c) (caller_name c)
    (context c) (exten c) (chan_priority c) (variables c) (hangup_cause c) (frame_queue c)
    (linkedid c) (softhangup_flags c) (dtmf_state c) q.
Definition set_softhangup_flags (c : Channel) (flags : Z) : Channel :=
  mkChannel (unique_id c) (chan_name c) (chan_state c) (caller_number c) (caller_name c)
    (context c) (exten c) (chan_priority c) (variables c) (hangup_cause c) (frame_queue c)
    (linkedid c) flags (dtmf_state c) (write_queue c).
Definition set_dtmf_state (c : Channel) (d : DtmfState) : Channel :=
  mkChannel (unique_id c) (chan_name c) (chan_state c) (caller_number c) (caller_name c)
    (context c) (exten c) (chan_priority c) (variables c) (hangup_cause c) (frame_queue c)
    (linkedid c) (softhangup_flags c) d (write_queue c).
Definition set_status (c : Channel) (st : ChannelState) (cause : HangupCause) : Channel :=
  mkChannel (unique_id c) (chan_name c) st (caller_number c) (caller_name c)
    (context c) (exten c) (chan_priority c) (variables c) cause (frame_queue c)
    (linkedid c) (softhangup_flags c) (dtmf_state c) (write_queue c).

(** Callbacks fired and events published, in order. *)
Inductive ChannelEvent :=
  | Newstate (uid : str) (st : ChannelState)
  | AnswerCallbacks (uid : str)
  | HangupCallbacks (uid : str) (cause : HangupCause)
  | HangupEvent (uid : str) (cause : HangupCause)
  | VarSet (uid name value : str).

Definition set_state (c : Channel) (st : ChannelState) : Channel * list ChannelEvent :=
  (set_status c st (hangup_cause c), [Newstate (unique_id c) st]).

Definition answer (c : Channel) : Channel * list ChannelEvent :=
  let (c', ev) := set_state c CsUp in (c', ev ++ [AnswerCallbacks (unique_id c)]).

Definition hangup (c : Channel) (cause : HangupCause) : Channel * list ChannelEvent :=
  if bool_decide (chan_state c = CsDown) then (c, [])
  else
    let c := set_status c (chan_state c) cause in
    let (c, ev) := set_state c CsDown in
    (c, ev ++ [HangupCallbacks (unique_id c) (hangup_cause c);
               HangupEvent (unique_id c) (hangup_cause c)]).

Definition AST_SOFTHANGUP_DEV : Z := Z.shiftl 1 0.
Definition AST_SOFTHANGUP_ASYNCGOTO : Z := Z.shiftl 1 1.
Definition AST_SOFTHANGUP_SHUTDOWN : Z := Z.shiftl 1 2.
Definition AST_SOFTHANGUP_TIMEOUT : Z := Z.shiftl 1 3.
Definition AST_SOFTHANGUP_APPUNLOAD : Z := Z.shiftl 1 4.
Definition AST_SOFTHANGUP_EXPLICIT : Z := Z.shiftl 1 5.
Definition AST_SOFTHANGUP_HANGUP_EXEC : Z := Z.shiftl 1 7.
Definition AST_SOFTHANGUP_ALL : Z := u32_max.

(** Without the cancellation of a bridge the channel is in. *)
Definition softhangup (c : Channel) (cause : Z) : Channel :=
  set_frame_queue (set_softhangup_flags c (Z.lor (softhangup_flags c) cause))
    (frame_queue c ++ [FNull]).

Definition check_hangup (c : Channel) : bool := negb (softhangup_flags c =? 0).

Definition clear_softhangup (c : Channel) (flag : Z) : Channel :=
  set_softhangup_flags c (Z.land (softhangup_flags c) (Z.lxor flag u32_max)).

Definition get_variable (c : Channel) (name : str) : option str := variables c !! name.
Definition set_variable (c : Channel) (name value : str) : Channel * list ChannelEvent :=
  (set_variables c (<[name := value]> (variables c)), [VarSet (unique_id c) name value]).

Definition MAX_FRAME_QUEUE_SIZE : nat := 1000.

(** [push_back] after dropping the oldest frame of a full queue. *)
Definition push_bounded (q : list Frame) (f : Frame) : list Frame :=
  (if (MAX_FRAME_QUEUE_SIZE <=? length q)%nat then tail q else q) ++ [f].

Definition queue_frame (c : Channel) (f : Frame) : Channel :=
  set_frame_queue c (push_bounded (frame_queue c) f).
Definition dequeue_frame (c : Channel) : option Frame * Channel :=
  (head (frame_queue c), set_frame_queue c (tail (frame_queue c))).
Definition queue_write_frame (c : Channel) (f : Frame) : Channel :=
  set_write_queue c (push_bounded (write_queue c) f).
Definition dequeue_write_frame (c : Channel) : option Frame * Channel :=
  (head (write_queue c), set_write_queue c (tail (write_queue c))).

(** ** The DTMF stage of [process_read_frame] *)

Definition dtmf_stage (now : Z) (c : Channel) (frame : Frame) : Channel * Frame :=
  match frame with
  | FDtmfBegin digit =>
      let (d, pass) := on_begin now (dtmf_state c) digit in
      (set_dtmf_state c d, if pass then FDtmfBegin digit else FNull)
  | FDtmfEnd digit duration_ms =>
      let (d, action) := on_end now (dtmf_state c) digit duration_ms in
      let c := set_dtmf_state c d in
      match action with
      | Passthrough dur => (c, FDtmfEnd digit dur)
      | EmulateBeginFirst _ => (c, FDtmfBegin digit)
      | EmulateRemaining _ => (c, FNull)
      | Defer => (queue_frame c (FDtmfEnd digit duration_ms), FNull)
      end
  | FNull =>
      let (d, ended) := check_emulation_tick now (dtmf_state c) in
      (set_dtmf_state c d, match ended with Some (digit, dur) => FDtmfEnd digit dur | None => FNull end)
  | FVoice v =>
      let (d, ended) := check_emulation_tick now (dtmf_state c) in
      (set_dtmf_state c d,
       match ended with
       | Some (digit, dur) => FDtmfEnd digit dur
       | None => if emulating d then FNull else FVoice v
       end)
  | other => (c, other)
  end.

(** [channel_read] up to that stage: the hangup check, the queued frames before
    the driver's frame.  [None]: the channel is hanging up. *)
Definition channel_read (now : Z) (c : Channel) (driver : Frame) : Channel * option Frame :=
  if check_hangup c then (c, None)
  else
    let (queued, c) := match dequeue_frame c with
                       | (Some f, c') => (f, c')
                       | (None, _) => (driver, c)
                       end in
    let (c', f) := dtmf_stage now c queued in (c', Some f).

(** The frames delivered over a sequence of reads. *)
Fixpoint read_all (c : Channel) (reads : list (Z * Frame)) : Channel * list Frame :=
  match reads with
  | [] => (c, [])
  | (now, driver) :: reads' =>
      let (c', f) := channel_read now c driver in
      let (c'', fs) := read_all c' reads' in
      (c'', option_list f ++ fs)
  end.

(** ** Specifications *)

Definition is_begin (f : Frame) : bool := match f with FDtmfBegin _ => true | _ => false end.
Definition is_end (f : Frame) : bool := match f with FDtmfEnd _ _ => true | _ => false end.
Definition count (p : Frame → bool) (fs : list Frame) : nat := length (List.filter p fs).

(** The digit whose end is still to come. *)
Definition credit (d : DtmfState) : nat :=
  if in_dtmf d || (emulating d && negb (emulate_duration_ms d =? 0)) then 1%nat else 0%nat.

(** A digit is not received and emulated at the same time. *)
Definition dtmf_ok (d : DtmfState) : Prop := in_dtmf d = true → emulating d = false.

Fixpoint hangup_all (c : Channel) (causes : list HangupCause) : Channel * list ChannelEvent :=
  match causes with
  | [] => (c, [])
  | cause :: causes' =>
      let (c', ev) := hangup c cause in
      let (c'', ev') := hangup_all c' causes' in
      (c'', ev ++ ev')
  end.

(** ** Lemmas *)

Ltac destruct_dtmf d :=
  let i := fresh "i" in let e := fresh "e" in let g := fresh "g" in
  let b := fresh "b" in let m := fresh "m" in let l := fresh "l" in
  destruct d as [i e g b m l].

Lemma on_begin_credit now d digit d' pass :
  dtmf_ok d → on_begin now d digit = (d', pass) →
  dtmf_ok d' ∧ (credit d' ≤ (if pass then 1 else 0) + credit d)%nat.
Proof.
  unfold dtmf_ok, on_begin, should_suppress_begin, credit. intros Hok.
  destruct (emulating d) eqn:E; [intros [= <- <-]; rewrite E; split; [done|lia]|].
  case_match; intros; simplify_eq/=; rewrite ?E; split; auto; lia.
Qed.

Lemma on_end_credit now d digit dur d' a :
  dtmf_ok d → on_end now d digit dur = (d', a) →
  dtmf_ok d' ∧
  match a with
  | Passthrough _ => (1 + credit d' ≤ credit d)%nat
  | EmulateBeginFirst _ => (credit d' ≤ 1 + credit d)%nat
  | EmulateRemaining _ => (credit d' ≤ credit d)%nat
  | Defer => d' = d
  end.
Proof.
  unfold dtmf_ok, on_end, credit. intros Hok. destruct (in_dtmf d) eqn:E.
  - specialize (Hok eq_refl). rewrite Hok. repeat case_match; intros; simplify_eq/=;
      split; auto; rewrite ?Hok; simpl; lia.
  - repeat case_match; intros; simplify_eq/=; rewrite ?E; split; auto; lia.
Qed.

Lemma tick_credit now d d' r :
  dtmf_ok d → check_emulation_tick now d = (d', r) →
  dtmf_ok d' ∧ (match r with Some _ => 1 | None => 0 end + credit d' ≤ credit d)%nat.
Proof.
  unfold dtmf_ok, check_emulation_tick, credit. intros Hok.
  destruct (emulating d) eqn:E; simpl.
  - assert (Hi : in_dtmf d = false) by (destruct (in_dtmf d); [by specialize (Hok eq_refl)|done]).
    rewrite Hi. destruct (emulate_duration_ms d =? 0) eqn:Ez.
    + intros [= <- <-]. simpl. rewrite ?Hi. split; [done|lia].
    + case_match; intros; simplify_eq/=; rewrite ?Hi, ?E, ?Ez; simpl; split; auto.
  - intros [= <- <-]. rewrite E. split; [auto|]. destruct (in_dtmf d); simpl; lia.
Qed.

(** Every frame the stage delivers is paid for. *)
Lemma dtmf_stage_credit now c f c' f' :
  dtmf_ok (dtmf_state c) → dtmf_stage now c f = (c', f') →
  dtmf_ok (dtmf_state c')
  ∧ (count is_end [f'] + credit (dtmf_state c') ≤ count is_begin [f'] + credit (dtmf_state c))%nat.
Proof.
  unfold dtmf_stage. intros Hok Hs. destruct f; try (by simplify_eq).
  - destruct (check_emulation_tick _ _) as [d r] eqn:E. apply tick_credit in E as [??]; [|done].
    destruct r as [[??]|]; [|destruct (emulating d)]; simplify_eq/=; split; auto; simpl in *; lia.
  - destruct (on_begin _ _ _) as [d pass] eqn:E. apply on_begin_credit in E as [??]; [|done].
    destruct pass; simplify_eq/=; split; auto.
  - destruct (on_end _ _ _ _) as [d a] eqn:E. apply on_end_credit in E as [??]; [|done].
    destruct a; simplify_eq/=; split; auto; simpl in *; lia.
  - destruct (check_emulation_tick _ _) as [d r] eqn:E. apply tick_credit in E as [??]; [|done].
    destruct r as [[??]|]; simplify_eq/=; split; auto.
Qed.

Lemma count_app p fs fs' : count p (fs ++ fs') = (count p fs + count p fs')%nat.
Proof. unfold count. by rewrite List.filter_app, length_app. Qed.

Lemma channel_read_credit now c driver c' f :
  dtmf_ok (dtmf_state c) → channel_read now c driver = (c', f) →
  dtmf_ok (dtmf_state c')
  ∧ (count is_end (option_list f) + credit (dtmf_state c')
     ≤ count is_begin (option_list f) + credit (dtmf_state c))%nat.
Proof.
  unfold channel_read, dequeue_frame. intros Hok. destruct (check_hangup c); [intros; by simplify_eq/=|].
  destruct (frame_queue c) as [|q qs]; simpl;
    destruct (dtmf_stage _ _ _) as [c1 f1] eqn:E; intros; simplify_eq/=;
    by apply dtmf_stage_credit in E.
Qed.

Lemma read_all_credit c reads c' fs :
  dtmf_ok (dtmf_state c) → read_all c reads = (c', fs) →
  (count is_end fs + credit (dtmf_state c') ≤ count is_begin fs + credit (dtmf_state c))%nat.
Proof.
  revert c c' fs. induction reads as [|[now driver] reads IH]; intros c c' fs Hok; simpl.
  - intros; simplify_eq/=. lia.
  - destruct (channel_read _ _ _) as [c1 f] eqn:Er. destruct (read_all c1 reads) as [c2 fs'] eqn:Ea.
    intros; simplify_eq. apply channel_read_credit in Er as [Hok1 H1]; [|done].
    specialize (IH _ _ _ Hok1 Ea). rewrite !count_app. lia.
Qed.

Lemma push_bounded_length q f :
  (length q ≤ MAX_FRAME_QUEUE_SIZE)%nat → (length (push_bounded q f) ≤ MAX_FRAME_QUEUE_SIZE)%nat.
Proof.
  unfold push_bounded. intros Hq. destruct (Nat.leb_spec MAX_FRAME_QUEUE_SIZE (length q)) as [H|H];
    rewrite length_app; simpl.
  - destruct q as [|x q]; simpl in *; unfold MAX_FRAME_QUEUE_SIZE in *; lia.
  - unfold MAX_FRAME_QUEUE_SIZE in *. lia.
Qed.

(** ** Theorems *)

(** However the driver's begin, end, voice and null frames arrive, and
    whatever the clock says, the read pipeline of a new channel never delivers
    more digit ends than digit begins: no end comes without its begin. *)
Theorem dtmf_ends_have_begins (c : Channel) (reads : list (Z * Frame)) (c' : Channel)
    (fs : list Frame)
    (Hnew : dtmf_state c = dtmf_new) (Hrun : read_all c reads = (c', fs)) :
  (count is_end fs ≤ count is_begin fs)%nat.
Proof.
  apply read_all_credit in Hrun; rewrite Hnew in *; [|done].
  change (credit dtmf_new) with 0%nat in Hrun. lia.
Qed.

Definition ex_channel : Channel := channel_new (lit "id") (lit "SIP/a-1").

Lemma dtmf_ends_have_begins_witness :
  let fs := [FDtmfBegin (chr "5"); FDtmfEnd (chr "5") 120; FDtmfBegin (chr "7"); FNull;
             FDtmfEnd (chr "7") 100] in
  (count is_end fs ≤ count is_begin fs)%nat.
Proof.
  apply (dtmf_ends_have_begins ex_channel
           [(0, FDtmfBegin (chr "5")); (120, FDtmfEnd (chr "5") 0); (200, FDtmfEnd (chr "7") 0);
            (250, FNull); (300, FNull)]
           (read_all ex_channel
              [(0, FDtmfBegin (chr "5")); (120, FDtmfEnd (chr "5") 0);
               (200, FDtmfEnd (chr "7") 0); (250, FNull); (300, FNull)]).1);
    [reflexivity|vm_compute; reflexivity].
Defined.

(** A digit that was too short is not stretched: for a digit of 40 to 79
    ms, [on_end] arms the emulation with what is missing to 80 ms, but the tick
    compares it with the time since the digit {e began}, so the end is emitted
    at once, with a duration under the minimum the module enforces. *)
Theorem short_digit_not_stretched (t d : Z) (digit : char) (Hd : 40 ≤ d < 80) :
  let held := (on_begin t dtmf_new digit).1 in
  let released := (on_end (t + d) held digit 0).1 in
  (on_end (t + d) held digit 0).2 = EmulateRemaining (80 - d)
  ∧ (check_emulation_tick (t + d) released).2 = Some (digit, d)
  ∧ d < AST_MIN_DTMF_DURATION_MS.
Proof.
  cbn [on_begin should_suppress_begin dtmf_new emulating last_end_time fst].
  assert (He : elapsed_ms (t + d) t = d).
  { unfold elapsed_ms. rewrite wrap_u32_id; [lia|]. unfold is_u32, u32_max. lia. }
  unfold on_end. simpl. rewrite He.
  destruct (Z.ltb_spec d AST_MIN_DTMF_DURATION_MS) as [Hlt|Hge];
    unfold AST_MIN_DTMF_DURATION_MS in *; [|lia]. simpl.
  rewrite Z.max_r by lia. unfold check_emulation_tick. simpl.
  destruct (Z.eqb_spec (80 - d) 0); [lia|]. rewrite He.
  destruct (Z.leb_spec (80 - d) d); [|lia]. done.
Qed.

Lemma short_digit_not_stretched_witness :
  let held := (on_begin 1000 dtmf_new (chr "9")).1 in
  let released := (on_end (1000 + 60) held (chr "9") 0).1 in
  (on_end (1000 + 60) held (chr "9") 0).2 = EmulateRemaining (80 - 60)
  ∧ (check_emulation_tick (1000 + 60) released).2 = Some (chr "9", 60)
  ∧ 60 < AST_MIN_DTMF_DURATION_MS.
Proof. apply short_digit_not_stretched. lia. Defined.

(** The frame queue of a channel is bounded against [queue_frame], which
    keeps the newest frames, but not against [softhangup], which pushes its
    wake-up frame past the limit: a queue of any length can be reached. *)
Theorem frame_queue_bound (c : Channel) (f : Frame) (n : nat) :
  ((length (frame_queue c) ≤ MAX_FRAME_QUEUE_SIZE)%nat →
   (length (frame_queue (queue_frame c f)) ≤ MAX_FRAME_QUEUE_SIZE)%nat
   ∧ last (frame_queue (queue_frame c f)) = Some f)
  ∧ length (frame_queue (Nat.iter n (λ c, softhangup c AST_SOFTHANGUP_DEV) c))
    = (length (frame_queue c) + n)%nat.
Proof.
  split.
  - intros Hq. split; [by apply push_bounded_length|].
    unfold queue_frame, push_bounded. simpl. by rewrite last_snoc.
  - induction n as [|n IH]; [simpl; lia|]. rewrite Nat.iter_succ.
    unfold softhangup at 1. simpl. rewrite length_app, IH. simpl. lia.
Qed.

(** A channel hangs up once: of any sequence of hang-ups only the first
    one has an effect; its cause is the one the callbacks see, they fire
    exactly once, and the channel stays down with that cause. *)
Theorem hangup_fires_once (c : Channel) (cause : HangupCause) (causes : list HangupCause)
    (Hup : chan_state c ≠ CsDown) :
  hangup_all c (cause :: causes) =
    (set_status c CsDown cause,
     [Newstate (unique_id c) CsDown; HangupCallbacks (unique_id c) cause;
      HangupEvent (unique_id c) cause]).
Proof.
  assert (Hdown : hangup_all (set_status c CsDown cause) causes = (set_status c CsDown cause, [])).
  { induction causes as [|k ks IH]; [done|]. simpl. by rewrite IH. }
  assert (Hh : hangup c cause =
    (set_status c CsDown cause,
     [Newstate (unique_id c) CsDown; HangupCallbacks (unique_id c) cause;
      HangupEvent (unique_id c) cause])).
  { unfold hangup. by rewrite bool_decide_eq_false_2. }
  cbn [hangup_all]. by rewrite Hh, Hdown.
Qed.

Lemma hangup_fires_once_witness :
  let c := (set_state ex_channel CsUp).1 in
  hangup_all c [HcUserBusy; HcNormalClearing] =
    (set_status c CsDown HcUserBusy,
     [Newstate (lit "id") CsDown; HangupCallbacks (lit "id") HcUserBusy;
      HangupEvent (lit "id") HcUserBusy]).
Proof. apply (hangup_fires_once (set_state ex_channel CsUp).1). discriminate. Defined.
