(* ===== verification/Dialplan.v ===== *)
(** * The dialplan ([asterisk-core/src/pbx/mod.rs])

    Priorities, extensions with their patterns, contexts with their includes,
    and the recursive search of a dialplan.  The iteration order of the
    [HashMap]s is the parameter [HashOrder].  The theorems: the pattern matcher
    is the declarative reading of a pattern; the choice among the extensions of
    a context is sound, complete and ordered as documented; the search through
    the includes terminates on every dialplan, cyclic ones too, and finds an
    extension exactly when a context it can reach has one. *)

From Stdlib Require Import NArith Ascii String.
From S2P Require Import Prelude RustStr HashMap.
Local Open Scope N_scope.
Local Open Scope list_scope.

Inductive PbxResult := PbxSuccess | PbxFailed | PbxIncomplete.

#[export] Instance PbxResult_eq_dec : EqDecision PbxResult.
Proof. solve_decision. Defined.

Record Priority := mkPriority {
  priority : Z; app : str; app_data : str; label : option str }.

Record Extension := mkExtension {
  ext_name : str; cidmatch : option str; priorities : gmap Z Priority }.

Record Context := mkContext {
  ctx_name : str; extensions : gmap str Extension; includes : list str }.

Record Dialplan := mkDialplan { contexts : gmap str Context }.

(** ** Patterns *)

(** One turn of the inner loop over a character class: [class_matches],
    [prev_char] and [in_range] after the pattern character [c]. *)
Definition class_step (ic : char) (st : bool * option char * bool) (c : char)
    : bool * option char * bool :=
  let '(class_matches, prev_char, in_range) := st in
  if (c =? chr "-") && bool_decide (is_Some prev_char) then (class_matches, prev_char, true)
  else if in_range then
    (match prev_char with
     | Some start => class_matches || ((start <=? ic) && (ic <=? c))
     | None => class_matches
     end, Some c, false)
  else (class_matches || (c =? ic), Some c, false).

(** The inner loop, to the closing bracket or the end of the pattern; [k] goes
    on with the rest of the pattern if the class matched. *)
Definition class_loop (k : str → bool) (ic : char) : str → bool * option char * bool → bool :=
  fix loop (pat : str) (st : bool * option char * bool) : bool :=
    match pat with
    | [] => if st.1.1 then k pat else false
    | c :: pat' =>
        if c =? chr "]" then (if st.1.1 then k pat' else false)
        else loop pat' (class_step ic st c)
    end.

Fixpoint pattern_matches (pattern input : str) : bool :=
  match pattern with
  | [] => match input with [] => true | _ => false end
  | pc :: pat =>
      if pc =? chr "." then match input with [] => false | _ => true end
      else if pc =? chr "!" then true
      else
        match input with
        | [] => false
        | ic :: inp =>
            if pc =? chr "[" then
              class_loop (λ pat', pattern_matches pat' inp) ic pat (false, None, false)
            else
              let matched :=
                if pc =? chr "X" then is_ascii_digit ic
                else if pc =? chr "Z" then is_ascii_digit ic && negb (ic =? chr "0")
                else if pc =? chr "N" then
                  is_ascii_digit ic && negb (ic =? chr "0") && negb (ic =? chr "1")
                else pc =? ic in
              if matched then pattern_matches pat inp else false
        end
  end.

(** [name.strip_prefix('_')] *)
Definition pattern_of (name : str) : option str := strip_prefix (lit "_") name.

Definition name_matches (name x : str) : bool :=
  if str_eqb name x then true
  else match pattern_of name with Some p => pattern_matches p x | None => false end.

(** ** Extensions *)

Definition ext_new (name : str) : Extension := mkExtension name None ∅.
Definition ext_new_with_cid (name cid : str) : Extension := mkExtension name (Some cid) ∅.

Definition add_priority (e : Extension) (p : Priority) : Extension :=
  mkExtension (ext_name e) (cidmatch e) (<[priority p := p]> (priorities e)).

Definition get_priority (e : Extension) (n : Z) : option Priority := priorities e !! n.

(** [i32] addition in a build without overflow checks. *)
Definition i32_succ (n : Z) : Z := ((n + 1 + 2 ^ 31) mod 2 ^ 32 - 2 ^ 31)%Z.

Definition next_priority (e : Extension) (current : Z) : option Priority :=
  priorities e !! i32_succ current.

Definition matches_with_cid (e : Extension) (exten : str) (callerid : option str) : bool :=
  if negb (name_matches (ext_name e) exten) then false
  else match cidmatch e, callerid with
       | None, _ => true
       | Some _, None => false
       | Some cid_pattern, Some cid => name_matches cid_pattern cid
       end.

Definition matches (e : Extension) (exten : str) : bool := matches_with_cid e exten None.

(** ** Contexts *)

Definition ctx_new (name : str) : Context := mkContext name ∅ [].

Definition ctx_add_extension (c : Context) (e : Extension) : Context :=
  mkContext (ctx_name c) (<[ext_name e := e]> (extensions c)) (includes c).
Definition add_include (c : Context) (name : str) : Context :=
  mkContext (ctx_name c) (extensions c) (includes c ++ [name]).

(** The body of the loop of [Context::could_match]. *)
Definition name_could_match (name exten : str) : bool :=
  (negb (starts_with (lit "_") name) && (len exten <? len name) && starts_with exten name)
  || match pattern_of name with Some p => len exten <? len p | None => false end.

Definition ctx_could_match `{HashOrder} (c : Context) (exten : str) : bool :=
  existsb (λ e, name_could_match (ext_name e) exten) (hash_values (extensions c)).

(** The loop of [find_extension_with_cid]. *)
Fixpoint best_match (exten : str) (callerid : option str) (best : option Extension)
    (es : list Extension) : option Extension :=
  match es with
  | [] => best
  | e :: es' =>
      if matches_with_cid e exten callerid then
        if bool_decide (is_Some (cidmatch e)) then Some e
        else best_match exten callerid (match best with None => Some e | Some _ => best end) es'
      else best_match exten callerid best es'
  end.

Definition find_extension_with_cid `{HashOrder} (c : Context) (exten : str)
    (callerid : option str) : option Extension :=
  let exact := e ← extensions c !! exten;
               if matches_with_cid e exten callerid then Some e else None in
  match exact with
  | Some e => Some e
  | None => best_match exten callerid None (hash_values (extensions c))
  end.

Definition ctx_find_extension `{HashOrder} (c : Context) (exten : str) : option Extension :=
  find_extension_with_cid c exten None.

(** ** The dialplan *)

Definition dp_new : Dialplan := mkDialplan ∅.
Definition add_context (dp : Dialplan) (c : Context) : Dialplan :=
  mkDialplan (<[ctx_name c := c]> (contexts dp)).
Definition get_context (dp : Dialplan) (name : str) : option Context := contexts dp !! name.

Definition add_extension (dp : Dialplan) (name : str) (e : Extension) : Dialplan :=
  mkDialplan (<[name := ctx_add_extension (default (ctx_new name) (contexts dp !! name)) e]>
                (contexts dp)).

(** The common shape of [find_extension_recursive] and [could_match_recursive]:
    visit a context once, test it, then its includes in order.  The result is
    [None] when the fuel is out; otherwise what the test found, and [visited]. *)
Section search.
Context {A : Type} (dp : Dialplan) (test : Context → option A).

Fixpoint search_includes (rec : str → list str → option (option A * list str))
    (incs : list str) (visited : list str) : option (option A * list str) :=
  match incs with
  | [] => Some (None, visited)
  | inc :: incs' =>
      r ← rec inc visited;
      match r with
      | (Some a, visited') => Some (Some a, visited')
      | (None, visited') => search_includes rec incs' visited'
      end
  end.

Fixpoint search (fuel : nat) (name : str) (visited : list str)
    : option (option A * list str) :=
  match fuel with
  | O => None
  | S fuel' =>
      if bool_decide (name ∈ visited) then Some (None, visited)
      else
        let visited := visited ++ [name] in
        match contexts dp !! name with
        | None => Some (None, visited)
        | Some ctx =>
            match test ctx with
            | Some a => Some (Some a, visited)
            | None => search_includes (search fuel') (includes ctx) visited
            end
        end
  end.
End search.

(** Each level of the recursion but the last enters a context not entered
    before, so this is enough (shown below). *)
Definition search_fuel (dp : Dialplan) : nat := S (size (contexts dp)).

Definition find_extension_recursive `{HashOrder} (dp : Dialplan) (name exten : str)
    : option (option (Context * Extension) * list str) :=
  search dp (λ c, e ← ctx_find_extension c exten; Some (c, e)) (search_fuel dp) name [].

Definition find_extension `{HashOrder} (dp : Dialplan) (name exten : str)
    : option (Context * Extension) :=
  r ← find_extension_recursive dp name exten; r.1.

Definition could_match_recursive `{HashOrder} (dp : Dialplan) (name exten : str)
    : option (option unit * list str) :=
  search dp (λ c, if ctx_could_match c exten then Some tt else None) (search_fuel dp) name [].

Definition could_match `{HashOrder} (dp : Dialplan) (name exten : str) : bool :=
  match could_match_recursive dp name exten with Some (Some _, _) => true | _ => false end.

(** ** The declarative reading of a pattern

    A pattern is a sequence of character sets, each a list of ranges, followed
    by what it asks of the rest of the input. *)

Inductive pattern_tail := TailEnd | TailDot | TailBang.

Definition ranges := list (char * char).

Fixpoint class_ranges (prev : option char) (in_range : bool) (pat : str) : ranges * str :=
  match pat with
  | [] => ([], [])
  | c :: pat' =>
      if c =? chr "]" then ([], pat')
      else if (c =? chr "-") && bool_decide (is_Some prev) then class_ranges prev true pat'
      else
        let (rs, rest) := class_ranges (Some c) false pat' in
        (match prev with
         | Some start => if in_range then [(start, c)] else [(c, c)]
         | None => if in_range then [] else [(c, c)]
         end ++ rs, rest)
  end.

Fixpoint pattern_spec (fuel : nat) (pattern : str) : list ranges * pattern_tail :=
  match fuel, pattern with
  | S fuel', pc :: pat =>
      if pc =? chr "." then ([], TailDot)
      else if pc =? chr "!" then ([], TailBang)
      else
        let (rs, rest) :=
          if pc =? chr "[" then class_ranges None false pat
          else ((if pc =? chr "X" then [(chr "0", chr "9")]
                 else if pc =? chr "Z" then [(chr "1", chr "9")]
                 else if pc =? chr "N" then [(chr "2", chr "9")]
                 else [(pc, pc)]), pat) in
        let (sets, tail) := pattern_spec fuel' rest in (rs :: sets, tail)
  | _, _ => ([], TailEnd)
  end.

Definition in_ranges (ch : char) (rs : ranges) : Prop :=
  Exists (λ r : char * char, r.1 <= ch <= r.2) rs.

Definition tail_accepts (t : pattern_tail) (rest : str) : Prop :=
  match t with TailEnd => rest = [] | TailDot => rest ≠ [] | TailBang => True end.

Definition pattern_accepts (pattern input : str) : Prop :=
  let (sets, tail) := pattern_spec (length pattern) pattern in
  ∃ front rest, input = front ++ rest ∧ Forall2 in_ranges front sets ∧ tail_accepts tail rest.

(** ** Lemmas on patterns *)

Lemma class_ranges_length prev r pat : (length (class_ranges prev r pat).2 ≤ length pat)%nat.
Proof.
  revert prev r. induction pat as [|c pat IH]; intros prev r; simpl; [done|].
  destruct (c =? _); simpl; [lia|]. destruct (_ && _).
  - specialize (IH prev true). lia.
  - specialize (IH (Some c) false). destruct (class_ranges (Some c) false pat). simpl in *. lia.
Qed.

Lemma pattern_spec_fuel fuel fuel' pat :
  (length pat ≤ fuel)%nat → (length pat ≤ fuel')%nat →
  pattern_spec fuel pat = pattern_spec fuel' pat.
Proof.
  revert fuel' pat. induction fuel as [|fuel IH]; intros [|fuel'] [|pc pat] H1 H2;
    simpl in *; try done; try lia.
  destruct (pc =? chr "."); [done|]. destruct (pc =? chr "!"); [done|].
  destruct (pc =? chr "[").
  - pose proof (class_ranges_length None false pat).
    destruct (class_ranges None false pat) as [rs rest]. simpl in *.
    rewrite (IH fuel') by lia. done.
  - rewrite (IH fuel') by lia. done.
Qed.

Definition in_rangesb (ch : char) (rs : ranges) : bool :=
  existsb (λ r : char * char, (r.1 <=? ch) && (ch <=? r.2)) rs.

Lemma in_rangesb_spec ch rs : in_rangesb ch rs = true ↔ in_ranges ch rs.
Proof.
  unfold in_rangesb, in_ranges. rewrite existsb_exists, Exists_exists.
  split; intros (r & Hr & H); exists r; (split; [by apply list_elem_of_In|]).
  - apply andb_true_iff in H as [?%N.leb_le ?%N.leb_le]. done.
  - destruct H. apply andb_true_iff. by rewrite !N.leb_le.
Qed.

(** The scan of a class decides membership in its ranges. *)
Lemma class_loop_spec k ic pat cm prev r :
  class_loop k ic pat (cm, prev, r) =
    let (rs, rest) := class_ranges prev r pat in
    if cm || in_rangesb ic rs then k rest else false.
Proof.
  revert cm prev r. induction pat as [|c pat IH]; intros cm prev r; simpl.
  - by rewrite orb_false_r.
  - destruct (c =? chr "]"); [by rewrite orb_false_r|].
    destruct ((c =? chr "-") && bool_decide (is_Some prev)) eqn:E; [apply IH|].
    assert (Hcc : (c <=? ic) && (ic <=? c) = (c =? ic)).
    { destruct (N.eqb_spec c ic), (N.leb_spec c ic), (N.leb_spec ic c); simpl; lia || done. }
    destruct r, prev as [p|]; rewrite IH; destruct (class_ranges (Some c) false pat) as [rs rest];
      simpl; by rewrite ?Hcc, ?orb_assoc.
Qed.

(** One character against one set. *)
Lemma simple_set_spec pc ic :
  (if pc =? chr "X" then is_ascii_digit ic
   else if pc =? chr "Z" then is_ascii_digit ic && negb (ic =? chr "0")
   else if pc =? chr "N" then is_ascii_digit ic && negb (ic =? chr "0") && negb (ic =? chr "1")
   else pc =? ic)
  = in_rangesb ic (if pc =? chr "X" then [(chr "0", chr "9")]
                   else if pc =? chr "Z" then [(chr "1", chr "9")]
                   else if pc =? chr "N" then [(chr "2", chr "9")]
                   else [(pc, pc)]).
Proof.
  unfold is_ascii_digit, in_rangesb.
  destruct (pc =? chr "X"), (pc =? chr "Z"), (pc =? chr "N"); simpl; apply eq_true_iff_eq;
    rewrite ?orb_false_r, ?andb_true_iff, ?negb_true_iff, ?N.leb_le, ?N.eqb_eq, ?N.eqb_neq; lia.
Qed.

Definition accepts_spec (spec : list ranges * pattern_tail) (input : str) : Prop :=
  ∃ front rest, input = front ++ rest ∧ Forall2 in_ranges front spec.1 ∧ tail_accepts spec.2 rest.

Lemma accepts_spec_cons rs spec ch input :
  accepts_spec (rs :: spec.1, spec.2) (ch :: input) ↔ in_ranges ch rs ∧ accepts_spec spec input.
Proof.
  split.
  - intros (front & rest & E & Hf & Ht). simpl in *. inversion Hf; simplify_eq/=.
    split; [done|]. by eexists _, _.
  - intros (Hch & front & rest & -> & Hf & Ht). exists (ch :: front), rest. simpl.
    split_and!; [done|by constructor|done].
Qed.

Lemma accepts_spec_cons_nil rs spec : ¬ accepts_spec (rs :: spec.1, spec.2) [].
Proof. intros (front & rest & E & Hf & _). simpl in *. inversion Hf. by simplify_eq. Qed.

Lemma accepts_spec_nil t input : accepts_spec ([], t) input ↔ tail_accepts t input.
Proof.
  split.
  - intros (front & rest & -> & Hf & Ht). simpl in *. by inversion Hf.
  - intros Ht. by exists [], input.
Qed.

Lemma pattern_matches_spec fuel pattern input :
  (length pattern ≤ fuel)%nat →
  pattern_matches pattern input = true ↔ accepts_spec (pattern_spec fuel pattern) input.
Proof.
  revert pattern input. induction fuel as [|fuel IH]; intros [|pc pat] input Hlen;
    try (simpl in Hlen; lia);
    try (cbn [pattern_matches pattern_spec]; rewrite accepts_spec_nil; by destruct input).
  simpl in Hlen. cbn [pattern_matches pattern_spec].
  destruct (pc =? chr "."); [rewrite accepts_spec_nil; destruct input; naive_solver|].
  destruct (pc =? chr "!"); [by rewrite accepts_spec_nil|].
  assert (Hset : ∀ rs rest, (length rest ≤ length pat)%nat →
    (match input with
     | [] => false
     | ic :: inp => if in_rangesb ic rs then pattern_matches rest inp else false
     end = true ↔
     accepts_spec (let (sets, tail) := pattern_spec fuel rest in (rs :: sets, tail)) input)).
  { intros rs rest Hrest. specialize (IH rest).
    rewrite (surjective_pairing (pattern_spec fuel rest)).
    destruct input as [|ic inp].
    - split; [done|]. intros H. by apply accepts_spec_cons_nil in H.
    - rewrite accepts_spec_cons, <-IH, <-in_rangesb_spec by lia. destruct (in_rangesb ic rs); naive_solver. }
  destruct (pc =? chr "[").
  - pose proof (class_ranges_length None false pat) as Hl.
    destruct (class_ranges None false pat) as [rs rest] eqn:E. rewrite <-Hset by done.
    destruct input as [|ic inp]; [done|]. by rewrite class_loop_spec, E.
  - rewrite <-Hset by done. destruct input as [|ic inp]; [done|].
    by rewrite <-simple_set_spec.
Qed.

(** ** Lemmas on the choice of an extension *)

Section choice.
Context `{HashOrder} (exten : str) (callerid : option str).

Lemma best_match_Some best es e :
  best_match exten callerid best es = Some e →
  (e ∈ es ∧ matches_with_cid e exten callerid = true) ∨ best = Some e.
Proof.
  revert best. induction es as [|e' es IH]; intros best; simpl; [by right|].
  destruct (matches_with_cid e' exten callerid) eqn:Em.
  - case_bool_decide.
    + intros [= <-]. left. split; [by left|done].
    + intros [[??]|?]%IH; [left; split; [by right|done]|].
      destruct best; simplify_eq; [by right|]. left. split; [by left|done].
  - intros [[??]|?]%IH; [|by right]. left. split; [by right|done].
Qed.

Lemma best_match_is_Some best es :
  is_Some best → is_Some (best_match exten callerid best es).
Proof.
  revert best. induction es as [|e' es IH]; intros best Hb; simpl; [done|].
  destruct (matches_with_cid e' exten callerid); [|by apply IH].
  case_bool_decide; [eauto|]. apply IH. by destruct best.
Qed.

Lemma best_match_None best es :
  best_match exten callerid best es = None →
  best = None ∧ Forall (λ e, matches_with_cid e exten callerid = false) es.
Proof.
  revert best. induction es as [|e' es IH]; intros best; simpl; [by auto|].
  destruct (matches_with_cid e' exten callerid) eqn:Em.
  - case_bool_decide; [done|]. intros Hn. exfalso.
    destruct (best_match_is_Some (match best with Some _ => best | None => Some e' end) es)
      as [y Hy]; [by destruct best|]. destruct best; by rewrite Hy in Hn.
  - intros [-> Hf]%IH. by split; [|constructor].
Qed.

(** A match on the caller ID wins over the ones without. *)
Lemma best_match_cid best es e e' :
  e ∈ es → matches_with_cid e exten callerid = true → is_Some (cidmatch e) →
  best_match exten callerid best es = Some e' → is_Some (cidmatch e').
Proof.
  revert best. induction es as [|y es IH]; intros best He Hm Hc; simpl;
    [by apply not_elem_of_nil in He|].
  apply elem_of_cons in He as [<-|He].
  - rewrite Hm, bool_decide_eq_true_2 by done. by intros [= <-].
  - destruct (matches_with_cid y exten callerid); [|by apply IH].
    case_bool_decide; [by intros [= <-]|by apply IH].
Qed.
End choice.

(** ** Lemmas on the search *)

Section search_lemmas.
Context {A : Type} (dp : Dialplan) (test : Context → option A).

(** The contexts the search may still enter. *)
Definition unvisited (visited : list str) : gset str :=
  filter (λ n, n ∉ visited) (dom (contexts dp)).

Lemma unvisited_mono v v' : v ⊆ v' → unvisited v' ⊆ unvisited v.
Proof. unfold unvisited. set_solver. Qed.

Lemma unvisited_enter v name ctx :
  contexts dp !! name = Some ctx → name ∉ v →
  (size (unvisited (v ++ [name])) < size (unvisited v))%nat.
Proof.
  intros Hc Hn. apply subset_size. split; [apply unvisited_mono; set_solver|].
  intros Hsub. assert (Hin : name ∈ unvisited v).
  { apply elem_of_filter. split; [done|]. by apply elem_of_dom_2 in Hc. }
  apply Hsub, elem_of_filter in Hin as [Hnot _]. set_solver.
Qed.

(** A visited context without a result, all of whose includes are visited. *)
Definition closed_in (v' : list str) (n : str) : Prop :=
  match contexts dp !! n with
  | None => True
  | Some ctx => test ctx = None ∧ includes ctx ⊆ v'
  end.

Lemma closed_in_mono v v' n : v ⊆ v' → closed_in v n → closed_in v' n.
Proof. unfold closed_in. intros Hv. destruct (contexts dp !! n); [|done]. set_solver. Qed.

(** One context includes another. *)
Definition includes_rel (n n' : str) : Prop :=
  ∃ ctx, contexts dp !! n = Some ctx ∧ n' ∈ includes ctx.

Definition found (name : str) (a : A) : Prop :=
  ∃ n ctx, rtc includes_rel name n ∧ contexts dp !! n = Some ctx ∧ test ctx = Some a.

(** What a search from [names] with [visited] answers. *)
Definition search_post (names : list str) (v : list str) (r : option A * list str) : Prop :=
  v ⊆ r.2 ∧
  match r.1 with
  | Some a => ∃ name, name ∈ names ∧ found name a
  | None => names ⊆ r.2 ∧ ∀ n, n ∈ r.2 → n ∉ v → closed_in r.2 n
  end.

Lemma search_includes_spec rec incs v :
  (∀ inc v', inc ∈ incs → v ⊆ v' → ∃ r, rec inc v' = Some r ∧ search_post [inc] v' r) →
  ∃ r, search_includes rec incs v = Some r ∧ search_post incs v r.
Proof.
  revert v. induction incs as [|inc incs IH]; intros v Hrec; simpl.
  - eexists; split; [done|]. unfold search_post. simpl. set_solver.
  - destruct (Hrec inc v) as ([[a|] v1] & -> & Hv1 & Hpost); [set_solver|done| |];
      simpl in *.
    + eexists; split; [done|]. split; [done|]. simpl. set_solver.
    + destruct Hpost as [Hin Hcl].
      destruct (IH v1) as ([[a|] v2] & -> & Hv2 & Hpost2); [set_solver| |]; simpl in *;
        (eexists; split; [done|]; split; simpl; [set_solver|]).
      * set_solver.
      * destruct Hpost2 as [Hin2 Hcl2]. split; [set_solver|].
        intros n Hn Hnv. destruct (decide (n ∈ v1)) as [Hn1|Hn1]; [|by apply Hcl2].
        apply (closed_in_mono v1); [done|]. by apply Hcl.
Qed.

Lemma search_spec fuel name v :
  (size (unvisited v) < fuel)%nat →
  ∃ r, search dp test fuel name v = Some r ∧ search_post [name] v r.
Proof.
  revert name v. induction fuel as [|fuel IH]; intros name v Hfuel; [lia|].
  cbn [search]. case_bool_decide as Hv.
  - eexists; split; [done|]. split; simpl; set_solver.
  - destruct (contexts dp !! name) as [ctx|] eqn:Ec.
    2:{ eexists; split; [done|]. split; simpl; [set_solver|]. split; [set_solver|].
        intros n Hn Hnv. assert (n = name) as -> by set_solver. unfold closed_in. by rewrite Ec. }
    destruct (test ctx) as [a|] eqn:Et.
    { eexists; split; [done|]. split; simpl; [set_solver|]. exists name.
      split; [set_solver|]. exists name, ctx. by split; [apply rtc_refl|]. }
    pose proof (unvisited_enter v name ctx Ec Hv) as Hlt.
    destruct (search_includes_spec (search dp test fuel) (includes ctx) (v ++ [name]))
      as ([[a|] v'] & -> & Hv' & Hpost).
    { intros inc v' _ Hsub. apply IH. pose proof (subseteq_size _ _ (unvisited_mono _ _ Hsub)).
      lia. }
    + eexists; split; [done|]. split; simpl in *; [set_solver|].
      destruct Hpost as (inc & Hinc & n & c & Hr & Hc & Ha). exists name. split; [set_solver|].
      exists n, c. split; [|done]. eapply rtc_l; [|done]. by exists ctx.
    + eexists; split; [done|]. split; simpl in *; [set_solver|]. destruct Hpost as [Hin Hcl].
      split; [set_solver|]. intros n Hn Hnv.
      destruct (decide (n = name)) as [->|Hne]; [unfold closed_in; by rewrite Ec|].
      apply Hcl; set_solver.
Qed.

(** The search decides whether a reachable context passes the test. *)
Lemma search_complete name :
  ∃ r v, search dp test (search_fuel dp) name [] = Some (r, v) ∧
    match r with
    | Some a => found name a
    | None => ∀ n ctx, rtc includes_rel name n → contexts dp !! n = Some ctx → test ctx = None
    end.
Proof.
  destruct (search_spec (search_fuel dp) name []) as ([[a|] v] & -> & Hv & Hpost).
  { unfold search_fuel. apply Nat.lt_succ_r. rewrite <-size_dom. apply subseteq_size.
    intros n. unfold unvisited. by intros [_ ?]%elem_of_filter. }
  - exists (Some a), v. split; [done|]. simpl in Hpost.
    destruct Hpost as (n & Hn & Hf). by apply list_elem_of_singleton in Hn as ->.
  - exists None, v. split; [done|]. simpl in *. destruct Hpost as [Hin Hcl].
    intros n ctx Hr Hc. assert (Hnv : n ∈ v).
    { clear Hc. revert n Hr. apply rtc_ind_r; [set_solver|].
      intros m k _ (cm & Hcm & Hk) Hm. specialize (Hcl m Hm). unfold closed_in in Hcl.
      rewrite Hcm in Hcl. destruct Hcl as [_ Hsub]; set_solver. }
    specialize (Hcl n Hnv). unfold closed_in in Hcl. rewrite Hc in Hcl.
    destruct Hcl; [set_solver|done].
Qed.
End search_lemmas.

(** Soundness of the choice, and the search in full. *)
Lemma find_extension_sound `{HashOrder} c exten callerid e :
  find_extension_with_cid c exten callerid = Some e →
  (∃ k, extensions c !! k = Some e) ∧ matches_with_cid e exten callerid = true.
Proof.
  unfold find_extension_with_cid.
  destruct (e ← extensions c !! exten; if matches_with_cid e exten callerid then Some e else None)
    as [e0|] eqn:E.
  - apply bind_Some in E as (e1 & He & E).
    destruct (matches_with_cid e1 exten callerid) eqn:Em; simplify_eq. naive_solver.
  - intros He. apply best_match_Some in He as [[Hin Hm]|]; [|done].
    apply elem_of_hash_values in Hin. done.
Qed.

Lemma find_extension_search `{HashOrder} dp name exten :
  is_Some (find_extension_recursive dp name exten)
  ∧ (∀ c e, find_extension dp name exten = Some (c, e) →
       ∃ n, rtc (includes_rel dp) name n ∧ contexts dp !! n = Some c
            ∧ ctx_find_extension c exten = Some e)
  ∧ (find_extension dp name exten = None →
       ∀ n c, rtc (includes_rel dp) name n → contexts dp !! n = Some c →
              ctx_find_extension c exten = None).
Proof.
  unfold find_extension, find_extension_recursive.
  destruct (search_complete dp (λ c, e ← ctx_find_extension c exten; Some (c, e)) name)
    as (r & v & -> & Hr).
  simpl. split_and!; [by eexists| |].
  - intros c e ->. destruct Hr as (n & ctx & Hn & Hc & Ht).
    apply bind_Some in Ht as (e' & He & Ht). simplify_eq. eauto.
  - intros -> n c Hn Hc. specialize (Hr n c Hn Hc). simpl in Hr.
    by destruct (ctx_find_extension c exten).
Qed.

Lemma could_match_search `{HashOrder} dp name exten :
  is_Some (could_match_recursive dp name exten)
  ∧ (could_match dp name exten = true ↔
       ∃ n c, rtc (includes_rel dp) name n ∧ contexts dp !! n = Some c
              ∧ ctx_could_match c exten = true).
Proof.
  unfold could_match, could_match_recursive.
  destruct (search_complete dp (λ c, if ctx_could_match c exten then Some tt else None) name)
    as (r & v & -> & Hr).
  split; [by eexists|]. destruct r as [[]|].
  - destruct Hr as (n & ctx & Hn & Hc & Ht). split; [|done]. intros _.
    exists n, ctx. split_and!; [done..|]. by destruct (ctx_could_match ctx exten).
  - split; [done|]. intros (n & c & Hn & Hc & Ht). specialize (Hr n c Hn Hc).
    simpl in Hr. by rewrite Ht in Hr.
Qed.

(** ** Theorems *)

(** C18.  The pattern matcher implements the declarative reading of patterns:
    X, Z, N, classes and literals each take one character of their set, a final
    [.] takes one or more remaining characters and a final [!] any rest. *)
Theorem pattern_matches_correct (pattern input : str) :
  pattern_matches pattern input = true ↔ pattern_accepts pattern input.
Proof.
  rewrite (pattern_matches_spec (length pattern)) by done. unfold pattern_accepts, accepts_spec.
  by destruct (pattern_spec (length pattern) pattern).
Qed.

Example pattern_examples :
  pattern_matches (lit "NXX[1-3a]") (lit "9002") = true
  ∧ pattern_matches (lit "NXX[1-3a]") (lit "900a") = true
  ∧ pattern_matches (lit "NXX[1-3a]") (lit "9004") = false
  ∧ pattern_matches (lit "9.") (lit "9") = false
  ∧ pattern_matches (lit "9!") (lit "9") = true.
Proof. vm_compute. done. Qed.

(** In every iteration order of the extensions, [find_extension_with_cid]
    returns an extension of the context that matches the number and the caller
    ID, and none only when none matches; the extension of that very name goes
    first, and otherwise one that matches the caller ID before one that asks
    for no caller ID. *)
Theorem find_extension_with_cid_correct `{HashOrder} (c : Context) (exten : str)
    (callerid : option str) :
  let found := find_extension_with_cid c exten callerid in
  (∀ e, found = Some e →
     (∃ k, extensions c !! k = Some e) ∧ matches_with_cid e exten callerid = true)
  ∧ (found = None →
     ∀ k e, extensions c !! k = Some e → matches_with_cid e exten callerid = false)
  ∧ (∀ e, extensions c !! exten = Some e → matches_with_cid e exten callerid = true →
     found = Some e)
  ∧ (∀ k e e', extensions c !! k = Some e → matches_with_cid e exten callerid = true →
     is_Some (cidmatch e) → found = Some e' →
     extensions c !! exten = Some e' ∨ is_Some (cidmatch e')).
Proof.
  cbv zeta. split_and!.
  - intros e. apply find_extension_sound.
  - unfold find_extension_with_cid. intros Hn k e Hk. case_match; [done|].
    apply best_match_None in Hn as [_ Hall]. rewrite Forall_forall in Hall.
    apply Hall, elem_of_hash_values. eauto.
  - intros e He Hm. unfold find_extension_with_cid. rewrite He. simpl. by rewrite Hm.
  - intros k e e' Hk Hm Hc. unfold find_extension_with_cid.
    destruct (extensions c !! exten) as [e0|] eqn:E0; simpl;
      [destruct (matches_with_cid e0 exten callerid); [intros [= <-]; by left|]|];
      intros Hb; right; (eapply best_match_cid; [|done|done|done]);
      apply elem_of_hash_values; eauto.
Qed.

(** C20.  The search through the includes ends on every dialplan, whatever its
    cycles; what it finds is what a context reachable through includes finds,
    and it finds nothing only when no reachable context does.  The same holds
    for [could_match]. *)
Theorem dialplan_search_correct `{HashOrder} (dp : Dialplan) (name exten : str) :
  is_Some (find_extension_recursive dp name exten)
  ∧ is_Some (could_match_recursive dp name exten)
  ∧ (∀ c e, find_extension dp name exten = Some (c, e) →
       ∃ n, rtc (includes_rel dp) name n ∧ contexts dp !! n = Some c
            ∧ ctx_find_extension c exten = Some e)
  ∧ (find_extension dp name exten = None →
       ∀ n c, rtc (includes_rel dp) name n → contexts dp !! n = Some c →
              ctx_find_extension c exten = None)
  ∧ (could_match dp name exten = true ↔
       ∃ n c, rtc (includes_rel dp) name n ∧ contexts dp !! n = Some c
              ∧ ctx_could_match c exten = true).
Proof.
  destruct (find_extension_search dp name exten) as (H1 & H2 & H3).
  destruct (could_match_search dp name exten) as [H4 H5]. by split_and!.
Qed.

(** A cycle of two contexts. *)
Definition example_dialplan : Dialplan :=
  add_context (add_context dp_new
    (add_include (ctx_add_extension (ctx_new (lit "a")) (ext_new (lit "_2X"))) (lit "b")))
    (add_include (ctx_add_extension (ctx_new (lit "b")) (ext_new (lit "_X."))) (lit "a")).

Example cyclic_search :
  let _ := key_order in
  (λ ce : Context * Extension, ext_name ce.2) <$> find_extension example_dialplan (lit "a") (lit "99")
    = Some (lit "_X.")
  ∧ find_extension example_dialplan (lit "a") (lit "*9") = None.
Proof. vm_compute. done. Qed.

(** [could_match] promises a number that could still match with more
    digits; for a pattern it compares only the lengths.  With the single
    pattern [_2X], the number [1] "could match" although no continuation of it
    is ever found. *)
Theorem could_match_without_continuation `{HashOrder} (suffix : str) :
  let dp := add_context dp_new (ctx_add_extension (ctx_new (lit "c")) (ext_new (lit "_2X"))) in
  could_match dp (lit "c") (lit "1") = true
  ∧ find_extension dp (lit "c") (lit "1" ++ suffix) = None.
Proof.
  intros dp.
  assert (Hdp : contexts dp = {[lit "c" := ctx_add_extension (ctx_new (lit "c"))
                                             (ext_new (lit "_2X"))]}) by reflexivity.
  split.
  - apply could_match_search. exists (lit "c"). eexists.
    split_and!; [apply rtc_refl|reflexivity|].
    apply existsb_exists. exists (ext_new (lit "_2X")). split; [|reflexivity].
    apply list_elem_of_In, elem_of_hash_values. exists (lit "_2X"). reflexivity.
  - destruct (find_extension dp (lit "c") (lit "1" ++ suffix)) as [[c e]|] eqn:E; [|done].
    exfalso. apply find_extension_search in E as (n & _ & Hc & He).
    rewrite Hdp in Hc. apply lookup_singleton_Some in Hc as [_ <-].
    apply find_extension_sound in He as [(k & Hk) Hm].
    change (extensions _) with ({[lit "_2X" := ext_new (lit "_2X")]} : gmap str Extension) in Hk.
    apply lookup_singleton_Some in Hk as [_ <-]. discriminate.
Qed.

(** Two patterns of one context that match the same number are not
    ordered: which one is found depends on the iteration order of the
    [HashMap], which Rust randomises per process. *)
Theorem pattern_choice_depends_on_order :
  let c := ctx_add_extension (ctx_add_extension (ctx_new (lit "c")) (ext_new (lit "_1XX")))
             (ext_new (lit "_X.")) in
  ext_name <$> @ctx_find_extension reverse_key_order c (lit "123") = Some (lit "_1XX")
  ∧ ext_name <$> @ctx_find_extension key_order c (lit "123") = Some (lit "_X.").
Proof. vm_compute. split; reflexivity. Qed.
