(* ===== verification/F64.v ===== *)
(** * Binary64 floating point

    What the expression evaluator uses of Rust's [f64]: IEEE 754 arithmetic
    (the Standard Library's [SpecFloat] at precision 53), comparison, [trunc],
    [clamp], the saturating [as i64], [%], [str::parse::<f64>()] and
    [Display]. *)

From Stdlib Require Import ZArith NArith Ascii String Floats.SpecFloat.
From S2P Require Import Prelude RustStr.
Local Open Scope Z_scope.
Local Open Scope list_scope.

Abbreviation f64 := spec_float.
Abbreviation prec := 53.
Abbreviation emax := 1024.

Definition f64_of_Z (n : Z) : f64 := binary_normalize prec emax n 0 false.
Definition f64_zero : f64 := S754_zero false.
Definition f64_one : f64 := f64_of_Z 1.

Definition f64_add : f64 → f64 → f64 := SFadd prec emax.
Definition f64_sub : f64 → f64 → f64 := SFsub prec emax.
Definition f64_mul : f64 → f64 → f64 := SFmul prec emax.
Definition f64_div : f64 → f64 → f64 := SFdiv prec emax.
Definition f64_neg : f64 → f64 := SFopp.

Definition f64_eqb : f64 → f64 → bool := SFeqb.
Definition f64_ltb : f64 → f64 → bool := SFltb.
Definition f64_leb : f64 → f64 → bool := SFleb.

Definition is_finite (x : f64) : bool :=
  match x with S754_zero _ | S754_finite _ _ _ => true | _ => false end.

Definition signed (s : bool) (n : Z) : Z := if s then - n else n.

(** The integer part, for a finite number. *)
Definition integer_part (x : f64) : Z :=
  match x with
  | S754_finite s m e => signed s (if 0 <=? e then Z.pos m * 2 ^ e else Z.pos m / 2 ^ (- e))
  | _ => 0
  end.

Definition trunc (x : f64) : f64 :=
  match x with
  | S754_finite s m e => if 0 <=? e then x else binary_normalize prec emax (integer_part x) 0 s
  | _ => x
  end.

Definition clamp (x lo hi : f64) : f64 :=
  if f64_ltb x lo then lo else if f64_ltb hi x then hi else x.

Definition i64_min : Z := - 2 ^ 63.
Definition i64_max : Z := 2 ^ 63 - 1.

(** [x as i64]: saturating, NaN to 0. *)
Definition as_i64 (x : f64) : Z :=
  match x with
  | S754_nan => 0
  | S754_infinity s => if s then i64_min else i64_max
  | _ => Z.max i64_min (Z.min i64_max (integer_part x))
  end.

(** [x % y]: the exact remainder, with the sign of [x]. *)
Definition f64_rem (x y : f64) : f64 :=
  match x, y with
  | S754_nan, _ | _, S754_nan | S754_infinity _, _ | _, S754_zero _ => S754_nan
  | _, S754_infinity _ => x
  | S754_zero _, _ => x
  | S754_finite s m e, S754_finite _ m' e' =>
      let e0 := Z.min e e' in
      let r := (Z.pos m * 2 ^ (e - e0)) mod (Z.pos m' * 2 ^ (e' - e0)) in
      if r =? 0 then S754_zero s else binary_normalize prec emax (signed s r) e0 s
  end.

(** ** Parsing *)

(** Digits, and the value so far. *)
Fixpoint scan_digits (acc : Z) (x : str) : Z * str :=
  match x with
  | ch :: x' => if is_ascii_digit ch then scan_digits (acc * 10 + (Z.of_N ch - 48)) x' else (acc, x)
  | [] => (acc, x)
  end.

(** The sign of a number and the rest. *)
Definition scan_sign (x : str) : bool * str :=
  match x with
  | ch :: x' => if (ch =? chr "-")%N then (true, x')
                else if (ch =? chr "+")%N then (false, x') else (false, x)
  | [] => (false, x)
  end.

(** The exponent part: absent, or [e] with at least one digit. *)
Definition scan_exponent (x : str) : option Z :=
  match x with
  | [] => Some 0
  | ch :: x' =>
      if (to_ascii_lower ch =? chr "e")%N then
        let (neg, digits) := scan_sign x' in
        let (n, rest) := scan_digits 0 digits in
        match digits, rest with
        | _ :: _, [] => Some (signed neg n)
        | _, _ => None
        end
      else None
  end.

(** The number nearest to [m * 10 ^ e]; beyond [10 ^ 400] and below
    [10 ^ -400] every number is infinite or zero. *)
Definition f64_of_decimal (neg : bool) (m e : Z) : f64 :=
  if m =? 0 then S754_zero neg
  else
    let magnitude := Z.log2 m * 3 / 10 + e in
    if 400 <? magnitude then S754_infinity neg
    else if magnitude <? -400 then S754_zero neg
    else if 0 <=? e then binary_normalize prec emax (signed neg (m * 10 ^ e)) 0 neg
    else SFdiv prec emax (S754_finite neg (Z.to_pos m) 0) (S754_finite false (Z.to_pos (10 ^ (- e))) 0).

(** [Digit+ | Digit+ '.' Digit* | Digit* '.' Digit+], then the exponent. *)
Definition parse_decimal (neg : bool) (x : str) : option f64 :=
  let (n, rest) := scan_digits 0 x in
  let int_digits := Z.of_nat (length x - length rest) in
  match rest with
  | ch :: rest' =>
      if (ch =? chr ".")%N then
        let (m, rest'') := scan_digits n rest' in
        let frac_digits := Z.of_nat (length rest' - length rest'') in
        if int_digits + frac_digits =? 0 then None
        else e ← scan_exponent rest''; Some (f64_of_decimal neg m (e - frac_digits))
      else if int_digits =? 0 then None
      else e ← scan_exponent rest; Some (f64_of_decimal neg n e)
  | [] => if int_digits =? 0 then None else Some (f64_of_decimal neg n 0)
  end.

Definition parse_f64 (x : str) : option f64 :=
  let (neg, body) := scan_sign x in
  if eq_ignore_ascii_case body (lit "inf") || eq_ignore_ascii_case body (lit "infinity")
  then Some (S754_infinity neg)
  else if eq_ignore_ascii_case body (lit "nan") then Some S754_nan
  else parse_decimal neg body.

(** ** Printing *)

(** [floor (log10 (m * 2^e))] for a positive number, from an estimate. *)
Definition ratio_ge (m e k : Z) : bool :=
  (* 10^k <= m * 2^e *)
  (10 ^ Z.max k 0 * 2 ^ Z.max (- e) 0 <=? m * 2 ^ Z.max e 0 * 10 ^ Z.max (- k) 0).

Definition log10_floor (m e : Z) : Z :=
  let k := (Z.log2 m + e) * 30103 / 100000 in
  if ratio_ge m e (k + 1) then k + 1 else if ratio_ge m e k then k else k - 1.

(** The multiple of [10^-p] nearest to [m * 2^e], ties to even. *)
Definition round_decimal (m e p : Z) : Z :=
  let num := m * 2 ^ Z.max e 0 * 10 ^ Z.max p 0 in
  let den := 2 ^ Z.max (- e) 0 * 10 ^ Z.max (- p) 0 in
  let q := num / den in
  match Z.compare (2 * (num - q * den)) den with
  | Lt => q
  | Gt => q + 1
  | Eq => if Z.even q then q else q + 1
  end.

(** The shortest decimal that reads back as the number: digits and scale. *)
Fixpoint shortest (fuel : nat) (n : Z) (x : f64) (m e : Z) : Z * Z :=
  let p := n - 1 - log10_floor m e in
  let d := round_decimal m e p in
  let (d, p) := if d =? 10 ^ n then (d / 10, p - 1) else (d, p) in
  match fuel with
  | O => (d, p)
  | S fuel' =>
      if f64_eqb (f64_of_decimal false d (- p)) x then (d, p) else shortest fuel' (n + 1) x m e
  end.

(** [d * 10^-p] without an exponent. *)
Definition show_decimal (d p : Z) : str :=
  if p <=? 0 then show_int (d * 10 ^ (- p))
  else
    let frac := show_int (d mod 10 ^ p) in
    show_int (d / 10 ^ p) ++ lit "."
    ++ replicate (Z.to_nat (p - Z.of_nat (length frac))) (chr "0") ++ frac.

Definition show_f64 (x : f64) : str :=
  match x with
  | S754_nan => lit "NaN"
  | S754_infinity s => if s then lit "-inf" else lit "inf"
  | S754_zero s => if s then lit "-0" else lit "0"
  | S754_finite s m e =>
      let (d, p) := shortest 17 1 (S754_finite false m e) (Z.pos m) e in
      (if s then lit "-" else []) ++ show_decimal d p
  end.

Example parse_show_examples :
  (show_f64 <$> parse_f64 (lit "0.1")) = Some (lit "0.1")
  ∧ (show_f64 <$> parse_f64 (lit "-12.500e1")) = Some (lit "-125")
  ∧ (show_f64 <$> parse_f64 (lit "3.14159")) = Some (lit "3.14159")
  ∧ (show_f64 <$> (x ← parse_f64 (lit "1"); y ← parse_f64 (lit "3"); Some (f64_div x y)))
    = Some (lit "0.3333333333333333")
  ∧ (show_f64 <$> (x ← parse_f64 (lit "0.1"); y ← parse_f64 (lit "0.2"); Some (f64_add x y)))
    = Some (lit "0.30000000000000004")
  ∧ (show_f64 <$> parse_f64 (lit "1e-7")) = Some (lit "0.0000001")
  ∧ (show_f64 <$> parse_f64 (lit "5e-324")) = Some (lit "0." ++ replicate 323 (chr "0") ++ lit "5")
  ∧ parse_f64 (lit ".") = None ∧ parse_f64 (lit "1e") = None ∧ parse_f64 (lit "5.") = parse_f64 (lit "5")
  ∧ (as_i64 <$> parse_f64 (lit "1e30")) = Some i64_max
  ∧ (f64_eqb f64_one <$> (x ← parse_f64 (lit "5.5"); y ← parse_f64 (lit "1.5"); Some (f64_rem x y)))
    = Some true.
Proof. vm_compute. repeat split; reflexivity. Qed.
