(* ===== verification/Expression.v ===== *)
(** * Dialplan expressions ([asterisk-core/src/pbx/expression.rs])

    The values, the lexer and the recursive-descent evaluator of [$[...]].
    Numbers are [F64.f64]; the regular-expression engine (the [regex] crate) is
    the parameter [RegexEngine].  The recursion of the parser is bounded by the
    number of tokens: running out of this fuel is a separate error, shown not
    to occur.  The text of an error is kept as the tokens it mentions. *)

From Stdlib Require Import ZArith NArith Ascii String Floats.SpecFloat.
From S2P Require Import Prelude RustStr F64.
Local Open Scope N_scope.
Local Open Scope list_scope.

(** ** Values *)

Inductive Value :=
  | VNumber (n : f64)
  | VStr (x : str).

Definition as_number (v : Value) : option f64 :=
  match v with
  | VNumber n => Some n
  | VStr x =>
      let x := trim x in
      if str_eqb x [] then None else parse_f64 x
  end.

(** Integers without a decimal point, saturated to [i64]. *)
Definition format_number (n : f64) : str :=
  if f64_eqb n (trunc n) && is_finite n then
    show_int (as_i64 (clamp n (f64_of_Z i64_min) (f64_of_Z i64_max)))
  else show_f64 n.

Definition as_string (v : Value) : str :=
  match v with VNumber n => format_number n | VStr x => x end.

Definition is_zero_or_null (v : Value) : bool :=
  match v with
  | VNumber n => f64_eqb n f64_zero
  | VStr x =>
      let x := RustStr.trim x in
      if str_eqb x [] then true
      else match parse_f64 x with Some n => f64_eqb n f64_zero | None => false end
  end.

Definition to_number (v : Value) : f64 := default f64_zero (as_number v).

Definition both_numeric (a b : Value) : bool :=
  bool_decide (is_Some (as_number a)) && bool_decide (is_Some (as_number b)).

(** ** Tokens *)

Inductive Token :=
  | TValue (x : str)
  | TOr | TAnd | TEq | TNe | TLt | TGt | TLe | TGe | TPlus | TMinus | TMult | TDiv | TMod
  | TNot | TEqTilde | TColon | TLParen | TRParen | TQuestion | TEof.

#[export] Instance Token_eq_dec : EqDecision Token.
Proof. solve_decision. Defined.

(** What an [UnexpectedToken] message mentions. *)
Inductive TokenError :=
  | BadChar (ch : char)
  | Expected (want got : Token)
  | NoPrimary (got : Token)
  | Trailing (got : Token).

Inductive ExprError :=
  | UnexpectedEnd
  | UnexpectedToken (t : TokenError)
  | DivisionByZero
  | InvalidRegex (pattern message : str).

(** An error of the code, or the end of the fuel of the model. *)
Inductive failure :=
  | Failed (e : ExprError)
  | OutOfFuel.

(** ** The lexer *)

Fixpoint skip_whitespace (x : str) : str :=
  match x with
  | ch :: x' => if is_whitespace ch then skip_whitespace x' else x
  | [] => []
  end.

(** The quoted string after its opening quote, and the rest. *)
Fixpoint scan_quoted (acc x : str) : str * str :=
  match x with
  | [] => (acc, [])
  | ch :: x' =>
      if ch =? 34 then (acc, x')
      else if ch =? chr "\" then
        match x' with
        | [] => (acc, [])
        | esc :: x'' => scan_quoted (acc ++ [esc]) x''
        end
      else scan_quoted (acc ++ [ch]) x'
  end.

(** The characters that end an unquoted token. *)
Definition is_operator_char (ch : char) : bool :=
  contains_char ch (lit "()|&+*/%?:!=<>") || (ch =? 34).

Fixpoint scan_word (acc x : str) : str * str :=
  match x with
  | [] => (acc, [])
  | ch :: x' =>
      if is_operator_char ch then (acc, x)
      else if (ch =? chr "-") && negb (str_eqb acc []) then (acc, x)
      else if is_whitespace ch then (acc, x)
      else scan_word (acc ++ [ch]) x'
  end.

(** [if self.peek_char() == Some(second)] after the first character. *)
Definition two_chars (second : char) (long short : Token) (x : str) : Token * str :=
  match x with
  | ch :: x' => if ch =? second then (long, x') else (short, x)
  | [] => (short, x)
  end.

Definition next_token (x : str) : result failure (Token * str) :=
  match skip_whitespace x with
  | [] => Ok (TEof, [])
  | c :: x' =>
      if c =? chr "(" then Ok (TLParen, x')
      else if c =? chr ")" then Ok (TRParen, x')
      else if c =? chr "|" then Ok (TOr, x')
      else if c =? chr "&" then Ok (TAnd, x')
      else if c =? chr "+" then Ok (TPlus, x')
      else if c =? chr "-" then Ok (TMinus, x')
      else if c =? chr "*" then Ok (TMult, x')
      else if c =? chr "/" then Ok (TDiv, x')
      else if c =? chr "%" then Ok (TMod, x')
      else if c =? chr "?" then Ok (TQuestion, x')
      else if c =? chr ":" then Ok (TColon, x')
      else if c =? chr "!" then Ok (two_chars (chr "=") TNe TNot x')
      else if c =? chr "=" then Ok (two_chars (chr "~") TEqTilde TEq x')
      else if c =? chr "<" then Ok (two_chars (chr "=") TLe TLt x')
      else if c =? chr ">" then Ok (two_chars (chr "=") TGe TGt x')
      else if c =? 34 then let (w, rest) := scan_quoted [] x' in Ok (TValue w, rest)
      else
        let (w, rest) := scan_word [] (c :: x') in
        if str_eqb w [] then Err (Failed (UnexpectedToken (BadChar c)))
        else Ok (TValue w, rest)
  end.

(** [Parser::new]: every token up to [Eof], which is kept. *)
Fixpoint tokenize (fuel : nat) (x : str) : result failure (list Token) :=
  match fuel with
  | O => Err OutOfFuel
  | S fuel' =>
      let? (tok, rest) := next_token x in
      if bool_decide (tok = TEof) then Ok [tok]
      else let? toks := tokenize fuel' rest in Ok (tok :: toks)
  end.

(** ** The evaluator *)

(** [Regex::new(pattern)] and [captures(subject)]: the message of an invalid
    pattern; no match; or the capture groups, the whole match first. *)
Class RegexEngine :=
  regex_captures : str → str → result str (option (list (option str))).

(** A step of the parser: a value and the tokens left. *)
Definition parsed : Type := outcome (result failure (Value * list Token)).

Definition fail (e : ExprError) {A} : outcome (result failure A) := Done (Err (Failed e)).
Definition out_of_fuel {A} : outcome (result failure A) := Done (Err OutOfFuel).
Definition ret {A} (a : A) : outcome (result failure A) := Done (Ok a).

Definition peek (toks : list Token) : Token := default TEof (head toks).

Definition number_of_bool (b : bool) : Value := VNumber (if b then f64_one else f64_zero).

Definition or_value (left right : Value) : Value :=
  if negb (is_zero_or_null left) then left
  else if negb (is_zero_or_null right) then right
  else VNumber f64_zero.

Definition and_value (left right : Value) : Value :=
  if negb (is_zero_or_null left) && negb (is_zero_or_null right) then left
  else VNumber f64_zero.

(** Lexicographic order of strings (by bytes, which for UTF-8 is by code point). *)
Fixpoint str_ltb (x y : str) : bool :=
  match x, y with
  | _, [] => false
  | [], _ :: _ => true
  | a :: x', b :: y' => (a <? b) || ((a =? b) && str_ltb x' y')
  end.

Definition compare_values (op : Token) (left right : Value) : option bool :=
  if both_numeric left right then
    let l := to_number left in
    let r := to_number right in
    match op with
    | TEq => Some (f64_eqb l r)
    | TNe => Some (negb (f64_eqb l r))
    | TLt => Some (f64_ltb l r)
    | TGt => Some (f64_ltb r l)
    | TLe => Some (f64_leb l r)
    | TGe => Some (f64_leb r l)
    | _ => None
    end
  else
    let l := as_string left in
    let r := as_string right in
    match op with
    | TEq => Some (str_eqb l r)
    | TNe => Some (negb (str_eqb l r))
    | TLt => Some (str_ltb l r)
    | TGt => Some (str_ltb r l)
    | TLe => Some (negb (str_ltb r l))
    | TGe => Some (negb (str_ltb l r))
    | _ => None
    end.

(** [l as i64 / r as i64] and [%]: [i64::MIN] by [-1] overflows and panics, in
    every build. *)
Definition i64_div (l r : Z) : outcome Z :=
  if (r =? 0)%Z || ((l =? i64_min)%Z && (r =? -1)%Z) then Panic else Done (Z.quot l r).
Definition i64_rem (l r : Z) : outcome Z :=
  if (r =? 0)%Z || ((l =? i64_min)%Z && (r =? -1)%Z) then Panic else Done (Z.rem l r).

Definition both_integral (l r : f64) : bool :=
  f64_eqb l (F64.trunc l) && f64_eqb r (F64.trunc r).

Definition multiply_values (op : Token) (left right : Value) : outcome (result failure Value) :=
  let l := to_number left in
  let r := to_number right in
  match op with
  | TMult => ret (VNumber (f64_mul l r))
  | TDiv =>
      if f64_eqb r f64_zero then fail DivisionByZero
      else if both_integral l r then
        let! q := i64_div (as_i64 l) (as_i64 r) in ret (VNumber (f64_of_Z q))
      else ret (VNumber (f64_div l r))
  | TMod =>
      if f64_eqb r f64_zero then fail DivisionByZero
      else if both_integral l r then
        let! q := i64_rem (as_i64 l) (as_i64 r) in ret (VNumber (f64_of_Z q))
      else ret (VNumber (f64_rem l r))
  | _ => Panic
  end.

Definition add_values (op : Token) (left right : Value) : outcome (result failure Value) :=
  let l := to_number left in
  let r := to_number right in
  match op with
  | TPlus => ret (VNumber (f64_add l r))
  | TMinus => ret (VNumber (f64_sub l r))
  | _ => Panic
  end.

Definition comparison_value (op : Token) (left right : Value) : outcome (result failure Value) :=
  match compare_values op left right with
  | Some b => ret (number_of_bool b)
  | None => Panic
  end.

Definition regex_value `{RegexEngine} (colon : bool) (left right : Value)
    : outcome (result failure Value) :=
  let subject := as_string left in
  let pattern := as_string right in
  let pattern_str := if colon then lit "^(?:" ++ pattern ++ lit ")" else pattern in
  match regex_captures pattern_str subject with
  | Err e => fail (InvalidRegex pattern e)
  | Ok (Some captures) =>
      if (1 <? length captures)%nat then
        ret (VStr (default [] (mjoin (captures !! 1%nat))))
      else
        match mjoin (captures !! 0%nat) with
        | Some m => ret (VNumber (f64_of_Z (Z.of_N (len m))))
        | None => Panic
        end
  | Ok None =>
      if contains_char (chr "(") pattern && negb (starts_with (lit "\(") pattern)
      then ret (VStr [])
      else ret (VNumber f64_zero)
  end.

Definition is_comparison (t : Token) : bool :=
  match t with TEq | TNe | TLt | TGt | TLe | TGe => true | _ => false end.
Definition is_additive (t : Token) : bool :=
  match t with TPlus | TMinus => true | _ => false end.
Definition is_multiplicative (t : Token) : bool :=
  match t with TMult | TDiv | TMod => true | _ => false end.

Section parser.
Context `{RegexEngine}.

(** The loop of every left-associative level: while the next token is one of
    its operators, parse an operand with [sub] and combine. *)
Section left_assoc.
Variable is_op : Token → bool.
Variable sub : list Token → parsed.
Variable combine : Token → Value → Value → outcome (result failure Value).

Fixpoint loop (fuel : nat) (left : Value) (toks : list Token) : parsed :=
  match toks with
  | op :: rest =>
      if is_op op then
        match fuel with
        | O => out_of_fuel
        | S fuel' =>
            let!? (operand, rest') := sub rest in
            let!? left' := combine op left operand in
            loop fuel' left' rest'
        end
      else ret (left, toks)
  | [] => ret (left, toks)
  end.

Definition left_assoc (toks : list Token) : parsed :=
  let!? (first, rest) := sub toks in loop (length rest) first rest.
End left_assoc.

Section levels.
(** [parse_expr] of the next recursion, and [self.ternary_depth]. *)
Variable parse_expr : nat → list Token → parsed.
Variable depth : nat.

Definition parse_primary (toks : list Token) : parsed :=
  match toks with
  | TLParen :: rest =>
      let!? (val, rest') := parse_expr depth rest in
      match rest' with
      | TRParen :: rest'' => ret (val, rest'')
      | _ => fail (UnexpectedToken (Expected TRParen (peek rest')))
      end
  | TValue x :: rest =>
      ret (match parse_f64 x with Some n => VNumber n | None => VStr x end, rest)
  | TEof :: _ | [] => fail UnexpectedEnd
  | other :: _ => fail (UnexpectedToken (NoPrimary other))
  end.

Fixpoint parse_unary (toks : list Token) : parsed :=
  match toks with
  | TNot :: rest =>
      let!? (val, rest') := parse_unary rest in
      ret (number_of_bool (is_zero_or_null val), rest')
  | TMinus :: rest =>
      let!? (val, rest') := parse_unary rest in
      ret (VNumber (f64_neg (to_number val)), rest')
  | _ => parse_primary toks
  end.

Definition parse_regex (toks : list Token) : parsed :=
  let!? (subject, rest) := parse_unary toks in
  let op := match rest with
            | TEqTilde :: _ => Some false
            | TColon :: _ => if (depth =? 0)%nat then Some true else None
            | _ => None
            end in
  match op with
  | None => ret (subject, rest)
  | Some colon =>
      let!? (pattern, rest') := parse_unary (tail rest) in
      let!? v := regex_value colon subject pattern in
      ret (v, rest')
  end.

Definition parse_multiplication : list Token → parsed :=
  left_assoc is_multiplicative parse_regex multiply_values.
Definition parse_addition : list Token → parsed :=
  left_assoc is_additive parse_multiplication add_values.
Definition parse_comparison : list Token → parsed :=
  left_assoc is_comparison parse_addition comparison_value.
Definition parse_and : list Token → parsed :=
  left_assoc (λ t, bool_decide (t = TAnd)) parse_comparison (λ _ l r, ret (and_value l r)).
Definition parse_or : list Token → parsed :=
  left_assoc (λ t, bool_decide (t = TOr)) parse_and (λ _ l r, ret (or_value l r)).
End levels.

(** Both branches are evaluated. *)
Fixpoint parse_ternary (fuel : nat) (depth : nat) (toks : list Token) : parsed :=
  match fuel with
  | O => out_of_fuel
  | S fuel' =>
      let!? (cond, rest) := parse_or (parse_ternary fuel') depth toks in
      match rest with
      | TQuestion :: rest1 =>
          let!? (true_val, rest2) := parse_ternary fuel' (S depth) rest1 in
          match rest2 with
          | TColon :: rest3 =>
              let!? (false_val, rest4) := parse_ternary fuel' (S depth) rest3 in
              ret (if negb (is_zero_or_null cond) then true_val else false_val, rest4)
          | _ => fail (UnexpectedToken (Expected TColon (peek rest2)))
          end
      | _ => ret (cond, rest)
      end
  end.

Definition evaluate (expr : str) : outcome (result failure str) :=
  let expr := RustStr.trim expr in
  if str_eqb expr [] then ret (lit "0")
  else
    match tokenize (S (length expr)) expr with
    | Err e => Done (Err e)
    | Ok toks =>
        let!? (v, rest) := parse_ternary (S (length toks)) 0 toks in
        if negb (bool_decide (peek rest = TEof)) then
          fail (UnexpectedToken (Trailing (peek rest)))
        else ret (as_string v)
    end.
End parser.

(** The result of the code; [None] would be the end of the fuel. *)
Definition evaluate_expression `{RegexEngine} (expr : str)
    : option (outcome (result ExprError str)) :=
  match evaluate expr with
  | Done (Ok v) => Some (Done (Ok v))
  | Done (Err (Failed e)) => Some (Done (Err e))
  | Done (Err OutOfFuel) => None
  | Panic => Some Panic
  end.

(** An engine for examples: patterns are literal prefixes, as with [:]. *)
Definition literal_engine : RegexEngine := λ pattern subject,
  let p := default pattern (p ← strip_prefix (lit "^(?:") pattern; strip_suffix (lit ")") p) in
  Ok (if starts_with p subject then Some [Some p] else None).

Definition eval_text (x : str) : option (outcome (result ExprError str)) :=
  @evaluate_expression literal_engine x.
Definition gives (v : str) : option (outcome (result ExprError str)) := Some (Done (Ok v)).

Example evaluate_examples :
  eval_text (lit "1 + 2 * 3") = gives (lit "7")
  ∧ eval_text (lit "(1 + 2) * 3 = 9 & 7 / 2 = 3") = gives (lit "1")
  ∧ eval_text (lit "10 - 2 - 3") = gives (lit "5")
  ∧ eval_text (lit "abc : ab") = gives (lit "2")
  ∧ eval_text (lit "0 ? yes : no") = gives (lit "no")
  ∧ eval_text (lit "7.5 % 2") = gives (lit "1.5")
  ∧ eval_text (lit "1 / 0") = Some (Done (Err DivisionByZero))
  ∧ eval_text (lit "1 +") = Some (Done (Err UnexpectedEnd)).
Proof. vm_compute. repeat split; reflexivity. Qed.

(** ** The lexer never fails and always advances *)

Lemma skip_whitespace_spec x :
  (length (skip_whitespace x) ≤ length x)%nat
  ∧ match skip_whitespace x with [] => True | c :: _ => is_whitespace c = false end.
Proof.
  induction x as [|c x IH]; simpl; [done|]. destruct (is_whitespace c) eqn:E; simpl; [|by rewrite E].
  destruct IH. split; [lia|done].
Qed.

Lemma scan_quoted_length acc x : (length (scan_quoted acc x).2 ≤ length x)%nat.
Proof.
  remember (length x) as n eqn:Hn. revert x acc Hn.
  induction (lt_wf n) as [n _ IH]; intros [|c x] acc ->; simpl; [done|].
  destruct (c =? 34); [simpl; lia|]. destruct (c =? chr "\").
  - destruct x as [|d x]; simpl; [lia|].
    specialize (IH (length x) ltac:(simpl; lia) x (acc ++ [d]) eq_refl). simpl in *. lia.
  - specialize (IH (length x) ltac:(simpl; lia) x (acc ++ [c]) eq_refl). simpl in *. lia.
Qed.

Lemma scan_word_length acc x : (length (scan_word acc x).2 ≤ length x)%nat.
Proof.
  revert acc. induction x as [|c x IH]; intros acc; simpl; [done|].
  destruct (is_operator_char c); [done|]. destruct (_ && _); [done|].
  destruct (is_whitespace c); [done|]. specialize (IH (acc ++ [c])). lia.
Qed.

Lemma scan_word_acc acc x : acc ≠ [] → (scan_word acc x).1 ≠ [].
Proof.
  revert acc. induction x as [|c x IH]; intros acc Ha; simpl; [done|].
  destruct (is_operator_char c); [done|]. destruct (_ && _); [done|].
  destruct (is_whitespace c); [done|]. apply IH. by destruct acc.
Qed.

Lemma two_chars_length k a b x : (length (two_chars k a b x).2 ≤ length x)%nat.
Proof. destruct x as [|c x]; simpl; [done|]. destruct (c =? k); simpl; lia. Qed.

Lemma two_chars_token k a b x : a ≠ TEof → b ≠ TEof → (two_chars k a b x).1 ≠ TEof.
Proof. destruct x as [|c x]; simpl; [done|]. by destruct (c =? k). Qed.

(** A character no case of [next_token] names starts a word. *)
Lemma scan_word_start c x :
  is_operator_char c = false → is_whitespace c = false →
  (scan_word [] (c :: x)).1 ≠ [] ∧ (length (scan_word [] (c :: x)).2 ≤ length x)%nat.
Proof.
  intros Ho Hw. cbn [scan_word]. rewrite Ho, Hw.
  replace ((c =? chr "-") && negb (str_eqb [] [])) with false by (by rewrite andb_false_r).
  split; [by apply scan_word_acc|apply scan_word_length].
Qed.

Lemma next_token_spec x :
  ∃ tok rest, next_token x = Ok (tok, rest)
    ∧ (tok = TEof ∨ (tok ≠ TEof ∧ (length rest < length x)%nat)).
Proof.
  unfold next_token. destruct (skip_whitespace_spec x) as [Hl Hw].
  destruct (skip_whitespace x) as [|c y]; [eexists _, _; split; [done|by left]|]. simpl in Hl.
  assert (Hone : ∀ tok, tok ≠ TEof → ∃ t rest, @Ok failure _ (tok, y) = Ok (t, rest)
            ∧ (t = TEof ∨ (t ≠ TEof ∧ (length rest < length x)%nat))).
  { intros tok Ht. eexists _, _. split; [done|right]. split; [done|lia]. }
  assert (Htwo : ∀ k a b, a ≠ TEof → b ≠ TEof →
            ∃ t rest, @Ok failure _ (two_chars k a b y) = Ok (t, rest)
            ∧ (t = TEof ∨ (t ≠ TEof ∧ (length rest < length x)%nat))).
  { intros k a b Ha Hb. pose proof (two_chars_length k a b y). pose proof (two_chars_token k a b y Ha Hb).
    destruct (two_chars k a b y) as [t rest]. eexists _, _. split; [done|right].
    split; [done|]. simpl in *. lia. }
  repeat match goal with
  | |- context [if ?c =? ?k then Ok (_, _) else _] => destruct (N.eqb_spec c k); [by apply Hone|]
  | |- context [if ?c =? ?k then Ok (two_chars _ _ _ _) else _] =>
      destruct (N.eqb_spec c k); [by apply Htwo|]
  end.
  destruct (N.eqb_spec c 34).
  - pose proof (scan_quoted_length [] y) as Hq. destruct (scan_quoted [] y) as [w rest].
    eexists _, _. split; [done|right]. split; [done|]. simpl in *. lia.
  - assert (Ho : is_operator_char c = false).
    { unfold is_operator_char, contains_char. simpl.
      repeat match goal with H : c ≠ ?k |- _ =>
        rewrite (proj2 (N.eqb_neq c k) H) || clear H end. done. }
    destruct (scan_word_start c y Ho Hw) as [Hne Hlen].
    destruct (scan_word [] (c :: y)) as [w rest]. simpl in *.
    rewrite (proj2 (str_eqb_false _ _)) by done.
    eexists _, _. split; [done|right]. split; [done|lia].
Qed.

Lemma tokenize_spec fuel x :
  (length x < fuel)%nat →
  ∃ toks, tokenize fuel x = Ok (toks ++ [TEof]) ∧ TEof ∉ toks.
Proof.
  revert x. induction fuel as [|fuel IH]; intros x Hx; [lia|]. cbn [tokenize].
  destruct (next_token_spec x) as (tok & rest & -> & [->|[Hne Hlt]]); simpl.
  - exists []. split; [done|apply not_elem_of_nil].
  - rewrite bool_decide_eq_false_2 by done.
    destruct (IH rest) as (toks & -> & Hnot); [lia|]. simpl. exists (tok :: toks).
    split; [done|]. apply not_elem_of_cons. auto.
Qed.

(** ** The parser always has fuel *)

(** A result that is not the end of the fuel and, on success, consumed tokens. *)
Definition progress (toks : list Token) (p : parsed) : Prop :=
  p ≠ out_of_fuel ∧ ∀ v rest, p = ret (v, rest) → (length rest < length toks)%nat.

(** The same, allowing no consumption. *)
Definition no_growth (toks : list Token) (p : parsed) : Prop :=
  p ≠ out_of_fuel ∧ ∀ v rest, p = ret (v, rest) → (length rest ≤ length toks)%nat.

Lemma progress_fail toks e : progress toks (fail e).
Proof. by split. Qed.
Lemma progress_panic toks : progress toks Panic.
Proof. by split. Qed.
Lemma progress_ret toks v rest : (length rest < length toks)%nat → progress toks (ret (v, rest)).
Proof. intros. split; [done|]. intros. unfold ret in *. by simplify_eq. Qed.
#[local] Hint Resolve progress_fail progress_panic : core.

(** Sequencing after a parser that consumed. *)
Lemma progress_bind toks toks' (p : parsed) k :
  progress toks p → (length toks ≤ length toks')%nat →
  (∀ v rest, p = ret (v, rest) → (length rest < length toks)%nat → progress toks' (k (v, rest))) →
  progress toks' (try_bind p k).
Proof.
  intros [Hf Hp] Hle Hk. destruct p as [[[v rest]|[e|]]|]; simpl; try done.
  apply Hk; [done|]. by apply (Hp v).
Qed.

(** A combination of values either succeeds, fails or panics. *)
Definition has_fuel {A} (m : outcome (result failure A)) : Prop := m ≠ out_of_fuel.

Lemma progress_value {A} toks (m : outcome (result failure A)) k :
  has_fuel m → (∀ a, progress toks (k a)) → progress toks (try_bind m k).
Proof. intros Hm Hk. destruct m as [[a|[e|]]|]; simpl; first [apply Hk|done]. Qed.

Lemma multiply_values_fuel op l r : has_fuel (multiply_values op l r).
Proof.
  unfold has_fuel, multiply_values, i64_div, i64_rem. destruct op; try done; repeat case_match; done.
Qed.
Lemma add_values_fuel op l r : has_fuel (add_values op l r).
Proof. unfold has_fuel, add_values. by destruct op. Qed.
Lemma comparison_value_fuel op l r : has_fuel (comparison_value op l r).
Proof. unfold has_fuel, comparison_value. by case_match. Qed.
Lemma regex_value_fuel `{RegexEngine} c l r : has_fuel (regex_value c l r).
Proof. unfold has_fuel, regex_value. repeat case_match; done. Qed.
#[local] Hint Resolve multiply_values_fuel add_values_fuel comparison_value_fuel
  regex_value_fuel : core.

Section left_assoc_progress.
Context (is_op : Token → bool) (sub : list Token → parsed).
Context (combine : Token → Value → Value → outcome (result failure Value)).
Context (combine_fuel : ∀ op l r, has_fuel (combine op l r)).

Lemma loop_no_growth bound fuel v toks :
  (∀ toks', (length toks' ≤ bound)%nat → progress toks' (sub toks')) →
  (length toks ≤ bound)%nat → (length toks ≤ fuel)%nat →
  no_growth toks (loop is_op sub combine fuel v toks).
Proof.
  intros Hsub. revert v toks. induction fuel as [|fuel IH]; intros v [|op toks] Hb Hf;
    simpl in *; try lia; try (split; [done|]; intros; unfold ret in *; by simplify_eq/=).
  destruct (is_op op); [|split; [done|]; intros; unfold ret in *; by simplify_eq/=].
  destruct (Hsub toks) as [Hne Hlt]; [lia|].
  destruct (sub toks) as [[[w rest]|[e|]]|]; simpl; try done.
  specialize (Hlt w rest eq_refl).
  pose proof (combine_fuel op v w) as Hc.
  destruct (combine op v w) as [[u|[e|]]|]; simpl; try done.
  destruct (IH u rest) as [H1 H2]; [lia|lia|]. split; [done|].
  intros v' rest' E. specialize (H2 _ _ E). simpl. lia.
Qed.

Lemma left_assoc_progress bound toks :
  (∀ toks', (length toks' ≤ bound)%nat → progress toks' (sub toks')) →
  (length toks ≤ bound)%nat → progress toks (left_assoc is_op sub combine toks).
Proof.
  intros Hsub Hb. unfold left_assoc. apply (progress_bind toks); [by apply Hsub|done|].
  intros v rest _ Hlt. destruct (loop_no_growth bound (length rest) v rest Hsub) as [H1 H2];
    [lia|lia|]. split; [done|]. intros v' rest' E. specialize (H2 _ _ E). lia.
Qed.
End left_assoc_progress.

Section parser_progress.
Context `{RegexEngine} (rec : nat → list Token → parsed) (bound : nat).
Context (rec_progress : ∀ d toks, (length toks < bound)%nat → progress toks (rec d toks)).

Lemma parse_primary_progress d toks :
  (length toks ≤ bound)%nat → progress toks (parse_primary rec d toks).
Proof.
  intros Hb. destruct toks as [|t rest]; simpl in *; [done|].
  destruct t; try done; [by apply progress_ret; simpl; lia|].
  apply (progress_bind rest); [apply rec_progress; lia|simpl; lia|].
  intros v [|t rest'] _ Hlt; [done|]. destruct t; try done. apply progress_ret. simpl in *. lia.
Qed.

Lemma parse_unary_progress d toks :
  (length toks ≤ bound)%nat → progress toks (parse_unary rec d toks).
Proof.
  induction toks as [|t rest IH]; intros Hb; [by apply parse_primary_progress|].
  simpl in Hb.
  destruct t; try (by apply (parse_primary_progress d)); simpl;
    (apply (progress_bind rest); [apply IH; lia|simpl; lia|]);
    intros v rest' _ Hlt; apply progress_ret; simpl; lia.
Qed.

Lemma parse_regex_progress d toks :
  (length toks ≤ bound)%nat → progress toks (parse_regex rec d toks).
Proof.
  intros Hb. unfold parse_regex. apply (progress_bind toks); [by apply parse_unary_progress|done|].
  intros v rest _ Hlt. case_match; [|by apply progress_ret].
  assert (Ht : (length (tail rest) ≤ length rest)%nat) by (destruct rest; simpl; lia).
  apply (progress_bind (tail rest)); [apply parse_unary_progress; lia|lia|].
  intros w rest' _ Hlt'. apply progress_value; [auto|]. intros a. apply progress_ret. lia.
Qed.

Lemma parse_or_progress d toks :
  (length toks ≤ bound)%nat → progress toks (parse_or rec d toks).
Proof.
  intros Hb. unfold parse_or, parse_and, parse_comparison, parse_addition, parse_multiplication.
  repeat (eapply left_assoc_progress; [auto|intros ? ?|done]);
    try done; try (by apply parse_regex_progress); done.
Qed.
End parser_progress.

Lemma parse_ternary_progress `{RegexEngine} fuel d toks :
  (length toks < fuel)%nat → progress toks (parse_ternary fuel d toks).
Proof.
  revert d toks. induction fuel as [|fuel IH]; intros d toks Hf; [lia|]. cbn [parse_ternary].
  apply (progress_bind toks); [apply (parse_or_progress _ (length toks)); [|done]|done|].
  { intros d' toks' Hlt. apply IH. lia. }
  intros v [|t rest] _ Hlt; [by apply progress_ret|]. simpl in Hlt.
  destruct t; try (apply progress_ret; simpl; lia).
  apply (progress_bind rest); [apply IH; lia|lia|].
  intros v2 [|t rest2] _ Hlt2; [done|]. simpl in Hlt2. destruct t; try done.
  apply (progress_bind rest2); [apply IH; lia|lia|].
  intros v3 rest3 _ Hlt3. apply progress_ret. lia.
Qed.

Lemma evaluate_fuel `{RegexEngine} x : evaluate x ≠ out_of_fuel.
Proof.
  unfold evaluate. destruct (str_eqb _ _); [done|].
  destruct (tokenize_spec (S (length (RustStr.trim x))) (RustStr.trim x)) as (toks & -> & _); [lia|].
  destruct (parse_ternary_progress (S (length (toks ++ [TEof]))) 0 (toks ++ [TEof])) as [Hne _];
    [lia|].
  destruct (parse_ternary _ _ _) as [[[v rest]|[e|]]|]; simpl; try done. by case_match.
Qed.

(** ** The grammar: abstract syntax, its value, its tokens *)

Inductive Expr :=
  | ELit (x : str)
  | ENot (e : Expr)
  | ENeg (e : Expr)
  | ERegex (colon : bool) (l r : Expr)
  | EOp (op : Token) (l r : Expr)
  | ETernary (c a b : Expr).

(** The levels of the grammar, lowest precedence first. *)
Definition op_level (t : Token) : nat :=
  match t with
  | TOr => 1
  | TAnd => 2
  | TEq | TNe | TLt | TGt | TLe | TGe => 3
  | TPlus | TMinus => 4
  | TMult | TDiv | TMod => 5
  | _ => 0
  end.

Definition level (e : Expr) : nat :=
  match e with
  | ETernary _ _ _ => 0
  | EOp op _ _ => op_level op
  | ERegex _ _ _ => 6
  | ENot _ | ENeg _ => 7
  | ELit _ => 8
  end.

(** The tokens of an expression, with the parentheses precedence asks for. *)
Fixpoint print (e : Expr) : list Token :=
  let paren k e' := if (level e' <? k)%nat then TLParen :: print e' ++ [TRParen] else print e' in
  match e with
  | ELit x => [TValue x]
  | ENot e' => TNot :: paren 7%nat e'
  | ENeg e' => TMinus :: paren 7%nat e'
  | ERegex colon l r => paren 7%nat l ++ (if colon then TColon else TEqTilde) :: paren 7%nat r
  | EOp op l r => paren (op_level op) l ++ op :: paren (S (op_level op)) r
  | ETernary c a b => paren 1%nat c ++ TQuestion :: print a ++ TColon :: print b
  end.

Definition paren (k : nat) (e : Expr) : list Token :=
  if (level e <? k)%nat then TLParen :: print e ++ [TRParen] else print e.

(** Operators are operators, and [:] matches only outside a ternary. *)
Fixpoint expr_ok (d : nat) (e : Expr) : Prop :=
  match e with
  | ELit _ => True
  | ENot e' | ENeg e' => expr_ok d e'
  | ERegex colon l r => (colon = true → d = 0%nat) ∧ expr_ok d l ∧ expr_ok d r
  | EOp op l r => (1 ≤ op_level op)%nat ∧ expr_ok d l ∧ expr_ok d r
  | ETernary c a b => expr_ok d c ∧ expr_ok (S d) a ∧ expr_ok (S d) b
  end.

Section grammar.
Context `{RegexEngine}.

Definition level_is_op (k : nat) : Token → bool :=
  match k with
  | 1 => λ t, bool_decide (t = TOr)
  | 2 => λ t, bool_decide (t = TAnd)
  | 3 => is_comparison
  | 4 => is_additive
  | _ => is_multiplicative
  end%nat.

Definition level_combine (k : nat) : Token → Value → Value → outcome (result failure Value) :=
  match k with
  | 1 => λ _ l r, ret (or_value l r)
  | 2 => λ _ l r, ret (and_value l r)
  | 3 => comparison_value
  | 4 => add_values
  | _ => multiply_values
  end%nat.

Fixpoint eval (e : Expr) : outcome (result failure Value) :=
  match e with
  | ELit x => ret (match parse_f64 x with Some n => VNumber n | None => VStr x end)
  | ENot e' => let!? v := eval e' in ret (number_of_bool (is_zero_or_null v))
  | ENeg e' => let!? v := eval e' in ret (VNumber (f64_neg (to_number v)))
  | ERegex colon l r => let!? v := eval l in let!? w := eval r in regex_value colon v w
  | EOp op l r =>
      let!? v := eval l in let!? w := eval r in level_combine (op_level op) op v w
  | ETernary c a b =>
      let!? v := eval c in
      let!? va := eval a in
      let!? vb := eval b in
      ret (if negb (is_zero_or_null v) then va else vb)
  end.

Definition level_parser (rec : nat → list Token → parsed) (d k : nat) : list Token → parsed :=
  match k with
  | 0 | 1 => parse_or rec d
  | 2 => parse_and rec d
  | 3 => parse_comparison rec d
  | 4 => parse_addition rec d
  | 5 => parse_multiplication rec d
  | 6 => parse_regex rec d
  | _ => parse_unary rec d
  end%nat.

Definition level_loop (rec : nat → list Token → parsed) (d k : nat)
    : nat → Value → list Token → parsed :=
  loop (level_is_op k) (level_parser rec d (S k)) (level_combine k).

(** What may follow an operand of level [k]. *)
Definition quiet (d k : nat) (rest : list Token) : Prop :=
  match rest with
  | [] => True
  | t :: _ =>
      (7 ≤ k)%nat ∨ ((op_level t < k)%nat ∧ t ≠ TEqTilde ∧ (t = TColon → d ≠ 0%nat))
  end.

Lemma quiet_mono d k k' rest : (k ≤ k')%nat → quiet d k rest → quiet d k' rest.
Proof.
  destruct rest; simpl; [done|]. intros ? [?|(? & ? & ?)]; [left; lia|].
  right. split_and!; [lia|done|done].
Qed.

Lemma level_parser_eq rec d k :
  (1 ≤ k ≤ 5)%nat →
  level_parser rec d k
    = left_assoc (level_is_op k) (level_parser rec d (S k)) (level_combine k).
Proof. intros ?. do 6 (destruct k as [|k]; [lia || done|]). lia. Qed.

Lemma level_is_op_eq k t : (1 ≤ k ≤ 5)%nat → level_is_op k t = (op_level t =? k)%nat.
Proof. intros ?. do 6 (destruct k as [|k]; [lia || by destruct t|]). lia. Qed.

Lemma level_combine_fuel k op l r : has_fuel (level_combine k op l r).
Proof. do 5 (destruct k as [|k]; simpl; auto; try done). Qed.

(** The fuel of a loop does not matter once it covers the tokens. *)
Lemma loop_fuel is_op sub combine bound f1 f2 v toks :
  (∀ toks', (length toks' ≤ bound)%nat → progress toks' (sub toks')) →
  (length toks ≤ bound)%nat → (length toks ≤ f1)%nat → (length toks ≤ f2)%nat →
  loop is_op sub combine f1 v toks = loop is_op sub combine f2 v toks.
Proof.
  intros Hsub. revert f2 v toks. induction f1 as [|f1 IH]; intros [|f2] v [|op toks] Hb H1 H2;
    simpl in *; try done; try lia.
  destruct (is_op op); [|done]. destruct (Hsub toks) as [_ Hlt]; [lia|].
  destruct (sub toks) as [[[w rest]|e]|]; simpl; try done. specialize (Hlt w rest eq_refl).
  destruct (combine op v w) as [[u|e]|]; simpl; try done. apply IH; lia.
Qed.

(** A loop stops at once before a quiet token. *)
Lemma level_loop_quiet rec d k f v rest :
  (1 ≤ k ≤ 5)%nat → quiet d k rest → level_loop rec d k f v rest = ret (v, rest).
Proof.
  intros Hk Hq. unfold level_loop. destruct rest as [|t rest]; [by destruct f|].
  assert (Hop : level_is_op k t = false).
  { rewrite level_is_op_eq by done. apply Nat.eqb_neq. destruct Hq as [?|[? _]]; lia. }
  destruct f; simpl; by rewrite Hop.
Qed.

(** [T] parses at level [k] to the value of [m]; at the levels with a loop,
    also before operators of that level. *)
Definition exact (f d k : nat) (T : list Token) (m : outcome (result failure Value)) : Prop :=
  ∀ rest, quiet d k rest → (length (T ++ rest) ≤ f)%nat →
  level_parser (parse_ternary f) d k (T ++ rest) = try_bind m (λ v, ret (v, rest)).

Definition enters (f d k : nat) (T : list Token) (m : outcome (result failure Value)) : Prop :=
  ∀ rest, quiet d (S k) rest → (length (T ++ rest) ≤ f)%nat →
  level_parser (parse_ternary f) d k (T ++ rest)
    = try_bind m (λ v, level_loop (parse_ternary f) d k (length rest) v rest).

Lemma try_bind_assoc {A B C} (m : outcome (result failure A))
    (k : A → outcome (result failure B)) (k' : B → outcome (result failure C)) :
  try_bind (try_bind m k) k' = try_bind m (λ a, try_bind (k a) k').
Proof. by destruct m as [[?|?]|]. Qed.

Lemma try_bind_ext {A B} (m : outcome (result failure A)) (k k' : A → outcome (result failure B)) :
  (∀ a, k a = k' a) → try_bind m k = try_bind m k'.
Proof. intros Hk. destruct m as [[?|?]|]; unfold try_bind; simpl; auto. Qed.

Lemma enters_exact f d k T m : (1 ≤ k ≤ 5)%nat → enters f d k T m → exact f d k T m.
Proof.
  intros Hk He rest Hq Hl. rewrite He by (eauto using quiet_mono).
  apply try_bind_ext. intros v. by apply level_loop_quiet.
Qed.

Lemma exact_enters f d k T m : (1 ≤ k ≤ 5)%nat → exact f d (S k) T m → enters f d k T m.
Proof.
  intros Hk He rest Hq Hl. rewrite level_parser_eq by done. unfold left_assoc.
  rewrite He, try_bind_assoc by done. by apply try_bind_ext.
Qed.

Lemma exact_7_6 f d T m : exact f d 7 T m → exact f d 6 T m.
Proof.
  intros He rest Hq Hl. cbn [level_parser]. unfold parse_regex.
  change (parse_unary (parse_ternary f) d) with (level_parser (parse_ternary f) d 7).
  rewrite He by (eauto using quiet_mono). rewrite try_bind_assoc. apply try_bind_ext.
  intros v. destruct rest as [|t rest]; [done|]. destruct Hq as [?|(_ & H1 & H2)]; [lia|].
  destruct t; try done. simpl. destruct d; [by specialize (H2 eq_refl)|done].
Qed.

(** From one level down to all the lower ones. *)
Lemma exact_down f d k k' T m :
  (1 ≤ k')%nat → (k' ≤ k ≤ 7)%nat → exact f d k T m → exact f d k' T m.
Proof.
  intros Hk' [Hle Hk7] He. revert Hk7 He. induction Hle as [|k Hle IH]; [done|].
  intros Hk7 He. apply IH; [lia|]. destruct (decide (k = 6%nat)) as [->|];
    [by apply exact_7_6|].
  apply enters_exact; [lia|]. apply exact_enters; [lia|done].
Qed.

Lemma level_parser_progress f d k toks :
  (1 ≤ k)%nat → (length toks ≤ f)%nat →
  progress toks (level_parser (parse_ternary f) d k toks).
Proof.
  intros Hk Hl.
  assert (Hrec : ∀ d toks, (length toks < f)%nat → progress toks (parse_ternary f d toks))
    by (intros; by apply parse_ternary_progress).
  pose proof (λ t H, parse_regex_progress _ f Hrec d t H) as Hr.
  pose proof (λ t H, parse_unary_progress _ f Hrec d t H) as Hu.
  do 7 (destruct k as [|k]; [simpl; try lia; auto;
    unfold parse_or, parse_and, parse_comparison, parse_addition, parse_multiplication;
    repeat (eapply left_assoc_progress; [auto|intros ? ?|done]); try done; auto|]).
  by apply Hu.
Qed.

(** A binary operation enters at its own level. *)
Lemma enters_op f d op L R m m' :
  (1 ≤ op_level op)%nat →
  enters f d (op_level op) L m → exact f d (S (op_level op)) R m' →
  enters f d (op_level op) (L ++ op :: R)
    (let!? v := m in let!? w := m' in level_combine (op_level op) op v w).
Proof.
  intros Hop HL HR rest Hq Hl. rewrite <-app_assoc. simpl.
  rewrite <-app_assoc in Hl. simpl in Hl. rewrite length_app in Hl. simpl in Hl.
  assert (Hk : (1 ≤ op_level op ≤ 5)%nat) by (split; [done|destruct op; simpl; lia]).
  assert (Hq' : quiet d (S (op_level op)) (op :: R ++ rest)).
  { right. split_and!; [lia|intros ->; simpl in Hop; lia|intros ->; simpl in Hop; lia]. }
  rewrite HL; [|done|by rewrite length_app; simpl].
  rewrite try_bind_assoc. apply try_bind_ext. intros v. unfold level_loop. simpl.
  rewrite level_is_op_eq, Nat.eqb_refl by done. rewrite HR; [|done|lia].
  rewrite !try_bind_assoc. apply try_bind_ext. intros w. simpl.
  apply try_bind_ext. intros u. apply (loop_fuel _ _ _ f).
  - intros toks Ht. apply (level_parser_progress f d (S (op_level op))); [lia|done].
  - rewrite length_app in Hl. lia.
  - rewrite length_app. lia.
  - done.
Qed.

(** The whole expression, from the top. *)
Definition parses (e : Expr) : Prop :=
  ∀ f d rest, expr_ok d e → quiet d 1 rest → head rest ≠ Some TQuestion →
  (length (print e ++ rest) ≤ f)%nat →
  parse_ternary (S f) d (print e ++ rest) = try_bind (eval e) (λ v, ret (v, rest)).

Definition own (e : Expr) : Prop :=
  ∀ f d, expr_ok d e →
  (level e = 0%nat ∨ (1 ≤ level e ≤ 5)%nat ∧ enters f d (level e) (print e) (eval e)
   ∨ (6 ≤ level e)%nat ∧ exact f d (Nat.min 7 (level e)) (print e) (eval e)).

Lemma own_exact e f d k :
  own e → expr_ok d e → (1 ≤ k)%nat → (k ≤ 7)%nat → (k ≤ level e)%nat →
  exact f d k (print e) (eval e) ∧ ((k ≤ 5)%nat → enters f d k (print e) (eval e)).
Proof.
  intros Ho Hok H1 H7 Hk. destruct (Ho f d Hok) as [H0|[[Hl He]|[Hl He]]]; [lia| |].
  - pose proof (enters_exact _ _ _ _ _ Hl He) as Hx. split.
    + by apply (exact_down f d (level e)); [|lia|].
    + intros _. destruct (decide (k = level e)) as [->|]; [done|].
      apply exact_enters; [lia|]. by apply (exact_down f d (level e)); [lia|lia|].
  - split; [by apply (exact_down f d (Nat.min 7 (level e))); [|lia|]|].
    intros H5. apply exact_enters; [lia|].
    by apply (exact_down f d (Nat.min 7 (level e))); [lia|lia|].
Qed.

Lemma own_parses e : own e → level e ≠ 0%nat → parses e.
Proof.
  intros Ho Hl f d rest Hok Hq Hh Hf. cbn [parse_ternary].
  destruct (own_exact e f d 1 Ho Hok) as [Hx _]; [lia|lia|lia|].
  change (parse_or (parse_ternary f) d) with (level_parser (parse_ternary f) d 1).
  rewrite Hx by done. rewrite try_bind_assoc. apply try_bind_ext. intros v. simpl.
  destruct rest as [|[] rest]; try done.
Qed.

Lemma exact_parenthesised e f d :
  parses e → expr_ok d e → exact f d 7 (TLParen :: print e ++ [TRParen]) (eval e).
Proof.
  intros Hp Hok rest _ Hl. simpl in *. rewrite <-app_assoc in *. simpl in *.
  destruct f as [|f]; [lia|].
  rewrite Hp; [|done|right; simpl; split_and!; [lia|done|done]|done|].
  - rewrite try_bind_assoc. by apply try_bind_ext.
  - rewrite length_app in *. simpl in *. lia.
Qed.

(** An operand at any level. *)
Lemma operand e f d k :
  own e → parses e → expr_ok d e → (1 ≤ k ≤ 7)%nat →
  exact f d k (paren k e) (eval e) ∧ ((k ≤ 5)%nat → enters f d k (paren k e) (eval e)).
Proof.
  intros Ho Hp Hok Hk. unfold paren. destruct (Nat.ltb_spec (level e) k) as [Hlt|Hge].
  - pose proof (exact_parenthesised e f d Hp Hok) as Hx. split.
    + by apply (exact_down f d 7); [lia|lia|].
    + intros H5. apply exact_enters; [lia|]. by apply (exact_down f d 7); [lia|lia|].
  - apply own_exact; try done; lia.
Qed.

Lemma parse_unary_exact f d T m rest :
  exact f d 7 T m → (length (T ++ rest) ≤ f)%nat →
  parse_unary (parse_ternary f) d (T ++ rest) = try_bind m (λ v, ret (v, rest)).
Proof. intros He Hl. apply (He rest); [|done]. destruct rest; [done|left; lia]. Qed.

Lemma own_unary (neg : bool) e :
  own e → parses e → own (if neg then ENeg e else ENot e).
Proof.
  intros Ho Hp f d Hok. right. right.
  assert (Hok' : expr_ok d e) by (by destruct neg).
  destruct (operand e f d 7 Ho Hp Hok') as [Hx _]; [lia|].
  destruct neg; (split; [simpl; lia|]); intros rest Hq Hl;
    simpl in *; fold (paren 7 e) in *;
    rewrite (parse_unary_exact _ _ _ _ _ Hx) by lia;
    rewrite !try_bind_assoc; by apply try_bind_ext.
Qed.

Lemma own_regex colon l r :
  own l → parses l → own r → parses r → own (ERegex colon l r).
Proof.
  intros Hol Hpl Hor Hpr f d (Hd & Hokl & Hokr). right. right. split; [simpl; lia|].
  intros rest Hq Hl. simpl in *. fold (paren 7 l) (paren 7 r) in *.
  destruct (operand l f d 7 Hol Hpl Hokl) as [Hxl _]; [lia|].
  destruct (operand r f d 7 Hor Hpr Hokr) as [Hxr _]; [lia|].
  rewrite <-app_assoc in *. simpl in *. unfold parse_regex.
  rewrite (parse_unary_exact _ _ _ _ _ Hxl) by done.
  rewrite !try_bind_assoc. apply try_bind_ext. intros v. simpl.
  rewrite length_app in Hl. simpl in Hl.
  assert (Hop : (match (if colon then TColon else TEqTilde) with
                 | TEqTilde => Some false
                 | TColon => if (d =? 0)%nat then Some true else None
                 | _ => None
                 end) = Some colon).
  { destruct colon; [|done]. by rewrite (Hd eq_refl). }
  destruct colon; simpl in *; try rewrite Hop;
    rewrite (parse_unary_exact _ _ _ _ _ Hxr) by lia;
    rewrite !try_bind_assoc; by apply try_bind_ext.
Qed.

Lemma own_op op l r :
  own l → parses l → own r → parses r → own (EOp op l r).
Proof.
  intros Hol Hpl Hor Hpr f d (Hop & Hokl & Hokr). right. left. simpl.
  assert (Hk : (1 ≤ op_level op ≤ 5)%nat) by (split; [done|destruct op; simpl; lia]).
  split; [done|]. fold (paren (op_level op) l) (paren (S (op_level op)) r).
  apply enters_op; [done| |].
  - apply (operand l f d (op_level op)); try done; lia.
  - apply (operand r f d (S (op_level op))); try done; lia.
Qed.

Lemma parses_ternary c a b :
  own c → parses c → parses a → parses b → parses (ETernary c a b).
Proof.
  intros Hoc Hpc Hpa Hpb f d rest (Hc & Ha & Hb) Hq Hh Hl.
  simpl in *. fold (paren 1 c) in *. rewrite <-!app_assoc in *. simpl in *.
  rewrite <-app_assoc in *. simpl in *.
  destruct (operand c f d 1 Hoc Hpc Hc) as [Hx _]; [lia|].
  change (parse_or (parse_ternary f) d) with (level_parser (parse_ternary f) d 1).
  rewrite Hx; [|right; simpl; split_and!; [lia|done|done]|done].
  rewrite !try_bind_assoc. apply try_bind_ext. intros v. simpl.
  rewrite !length_app in Hl. simpl in Hl. rewrite !length_app in Hl. simpl in Hl.
  destruct f as [|f]; [lia|].
  rewrite Hpa; [|done|right; simpl; split_and!; [lia|done|done]|done
               |rewrite length_app; simpl; lia].
  rewrite !try_bind_assoc. apply try_bind_ext. intros va. cbn -[parse_ternary].
  rewrite Hpb; [|done| |done|lia].
  - rewrite !try_bind_assoc. by apply try_bind_ext.
  - destruct rest; [done|]. destruct Hq as [?|(? & ? & ?)]; [by left|right]. by split_and!.
Qed.

Lemma grammar_own e : own e ∧ parses e.
Proof.
  induction e as [x|e [IHo IHp]|e [IHo IHp]|colon l [IHlo IHlp] r [IHro IHrp]
                 |op l [IHlo IHlp] r [IHro IHrp]|c [IHco IHcp] a [_ IHap] b [_ IHbp]].
  - assert (Ho : own (ELit x)).
    { intros f d _. right. right. split; [simpl; lia|]. intros rest _ _. reflexivity. }
    split; [done|]. by apply own_parses.
  - pose proof (own_unary false e IHo IHp) as Ho. split; [done|]. by apply own_parses.
  - pose proof (own_unary true e IHo IHp) as Ho. split; [done|]. by apply own_parses.
  - pose proof (own_regex colon l r IHlo IHlp IHro IHrp) as Ho. split; [done|].
    by apply own_parses.
  - pose proof (own_op op l r IHlo IHlp IHro IHrp) as Ho. split; [done|].
    intros f d rest Hok. eapply own_parses; [done| |done]. simpl in *. destruct Hok. lia.
  - split; [intros f d _; by left|]. by apply parses_ternary.
Qed.
End grammar.

(** ** From the text of an expression *)

Fixpoint escape (x : str) : str :=
  match x with
  | [] => []
  | ch :: x' =>
      if (ch =? 34) || (ch =? chr "\") then chr "\" :: ch :: escape x' else ch :: escape x'
  end.

Definition show_token (t : Token) : str :=
  match t with
  | TValue x => 34 :: escape x ++ [34]
  | TOr => lit "|" | TAnd => lit "&" | TEq => lit "=" | TNe => lit "!=" | TLt => lit "<"
  | TGt => lit ">" | TLe => lit "<=" | TGe => lit ">=" | TPlus => lit "+" | TMinus => lit "-"
  | TMult => lit "*" | TDiv => lit "/" | TMod => lit "%" | TNot => lit "!"
  | TEqTilde => lit "=~" | TColon => lit ":" | TLParen => lit "(" | TRParen => lit ")"
  | TQuestion => lit "?" | TEof => []
  end.

(** Tokens separated by spaces, values quoted. *)
Fixpoint show_tokens (ts : list Token) : str :=
  match ts with
  | [] => []
  | [t] => show_token t
  | t :: ts' => show_token t ++ lit " " ++ show_tokens ts'
  end.

Definition expr_text (e : Expr) : str := show_tokens (print e).

Lemma scan_quoted_escape acc x rest :
  scan_quoted acc (escape x ++ 34 :: rest) = (acc ++ x, rest).
Proof.
  revert acc. induction x as [|c x IH]; intros acc; simpl; [by rewrite app_nil_r|].
  destruct (N.eqb_spec c 34) as [->|H1]; simpl; [by rewrite IH, <-app_assoc|].
  destruct (N.eqb_spec c (chr "\")) as [->|H2]; simpl; [by rewrite IH, <-app_assoc|].
  rewrite (proj2 (N.eqb_neq c 34)) by done. rewrite (proj2 (N.eqb_neq c (chr "\"))) by done.
  by rewrite IH, <-app_assoc.
Qed.

(** A separator: the end of the text or a space. *)
Definition separated (rest : str) : Prop := rest = [] ∨ ∃ r, rest = lit " " ++ r.

Lemma next_token_show t rest :
  t ≠ TEof → separated rest → next_token (show_token t ++ rest) = Ok (t, rest).
Proof.
  intros Ht Hs. destruct t; try done;
    try (by destruct Hs as [->|[r ->]]).
  unfold next_token. simpl. rewrite <-app_assoc. simpl. by rewrite scan_quoted_escape.
Qed.

Lemma next_token_space x : next_token (lit " " ++ x) = next_token x.
Proof. reflexivity. Qed.

Lemma show_token_nonempty t : t ≠ TEof → (1 ≤ length (show_token t))%nat.
Proof. destruct t; simpl; intros; try done; lia. Qed.

Lemma tokenize_show fuel ts x :
  TEof ∉ ts → (length (show_tokens ts) < fuel)%nat → x = [] ∨ x = lit " " →
  tokenize fuel (x ++ show_tokens ts) = Ok (ts ++ [TEof]).
Proof.
  revert fuel x. induction ts as [|t ts IH]; intros [|fuel] x Hn Hf Hx; simpl in Hf; try lia.
  - by destruct Hx as [->| ->].
  - apply not_elem_of_cons in Hn as [Ht Hn].
    assert (Hnt : next_token (x ++ show_tokens (t :: ts))
                  = Ok (t, match ts with [] => [] | _ => lit " " ++ show_tokens ts end)).
    { transitivity (next_token (show_tokens (t :: ts))).
      { destruct Hx as [->| ->]; [done|apply next_token_space]. }
      destruct ts as [|t' ts']; simpl.
      - rewrite <-(app_nil_r (show_token t)). apply next_token_show; [done|by left].
      - apply next_token_show; [done|right; by eexists]. }
    cbn [tokenize]. rewrite Hnt. cbn [result_bind]. rewrite bool_decide_eq_false_2 by done.
    pose proof (show_token_nonempty t (not_eq_sym Ht)).
    assert (Hrec : tokenize fuel (match ts with [] => [] | _ => lit " " ++ show_tokens ts end)
                   = Ok (ts ++ [TEof])).
    { destruct ts as [|t' ts'].
      - by destruct fuel; [lia|].
      - apply (IH fuel (lit " ")); [done| |by right].
        rewrite !length_app in Hf. simpl in Hf |- *. lia. }
    by rewrite Hrec.
Qed.

Lemma print_no_eof d e : expr_ok d e → (TEof ∉ print e) ∧ print e ≠ [].
Proof.
  assert (Hparen : ∀ k e, (TEof ∉ print e) ∧ print e ≠ [] → (TEof ∉ paren k e) ∧ paren k e ≠ []).
  { intros k e' [H1 H2]. unfold paren. case_match; [|done]. split; [|done].
    rewrite not_elem_of_cons, not_elem_of_app, list_elem_of_singleton. by split_and!. }
  revert d. induction e as [x|e IH|e IH|colon l IHl r IHr|op l IHl r IHr|c IHc a IHa b IHb];
    intros d; cbn [expr_ok print];
    try (change (if (level ?e <? ?k)%nat then TLParen :: print ?e ++ [TRParen] else print ?e)
           with (paren k e)).
  - intros _. split; [set_solver|done].
  - intros Hok. destruct (Hparen 7%nat e (IH d Hok)) as [H1 _]. unfold paren in H1.
    split; [|done]. by apply not_elem_of_cons.
  - intros Hok. destruct (Hparen 7%nat e (IH d Hok)) as [H1 _]. unfold paren in H1.
    split; [|done]. by apply not_elem_of_cons.
  - intros (_ & Hl & Hr). destruct (Hparen 7%nat l (IHl d Hl)) as [H1 H2].
    destruct (Hparen 7%nat r (IHr d Hr)) as [H3 _]. unfold paren in H1, H2, H3.
    split; [|by intros [_ ?]%app_eq_nil].
    rewrite not_elem_of_app, not_elem_of_cons. split_and!; [done|by destruct colon|done].
  - intros (Hop & Hl & Hr). destruct (Hparen (op_level op) l (IHl d Hl)) as [H1 H2].
    destruct (Hparen (S (op_level op)) r (IHr d Hr)) as [H3 _]. unfold paren in H1, H2, H3.
    split; [|by intros [_ ?]%app_eq_nil].
    rewrite not_elem_of_app, not_elem_of_cons.
    split_and!; [done|intros <-; simpl in Hop; lia|done].
  - intros (Hc & Ha & Hb). destruct (Hparen 1%nat c (IHc d Hc)) as [H1 H2].
    destruct (IHa _ Ha) as [H3 _], (IHb _ Hb) as [H4 _]. unfold paren in H1, H2.
    split; [|by intros [_ ?]%app_eq_nil].
    rewrite not_elem_of_app, not_elem_of_cons, not_elem_of_app, not_elem_of_cons. by split_and!.
Qed.

Lemma show_token_trimmed t : trimmed (show_token t) = true.
Proof.
  destruct t; try reflexivity.
  change (show_token (TValue x)) with ([34] ++ escape x ++ [34]). by apply trimmed_app.
Qed.

Lemma show_tokens_trimmed ts :
  TEof ∉ ts → trimmed (show_tokens ts) = true ∧ (ts ≠ [] → show_tokens ts ≠ []).
Proof.
  induction ts as [|t ts IH]; intros Hn; [done|]. apply not_elem_of_cons in Hn as [Ht Hn].
  pose proof (show_token_nonempty t (not_eq_sym Ht)) as Hlen.
  assert (Hne : show_token t ≠ []) by (by destruct (show_token t); simpl in Hlen; [lia|]).
  destruct ts as [|t' ts']; [split; [apply show_token_trimmed|done]|].
  destruct (IH Hn) as [Htr Hne']. cbn [show_tokens] in *. split.
  - apply trimmed_app; [done|by apply Hne'|apply show_token_trimmed|done].
  - intros _ E. by apply app_eq_nil in E as [? _].
Qed.

Lemma evaluate_text `{RegexEngine} e :
  expr_ok 0 e → evaluate (expr_text e) = (let!? v := eval e in ret (as_string v)).
Proof.
  intros Hok. destruct (print_no_eof 0 e Hok) as [Hn Hne].
  destruct (show_tokens_trimmed (print e) Hn) as [Ht Hne'].
  unfold evaluate, expr_text. rewrite (RustStr.trim_trimmed _ Ht).
  rewrite (proj2 (str_eqb_false _ _)) by (by apply Hne').
  assert (Htok : tokenize (S (length (show_tokens (print e)))) (show_tokens (print e))
                 = Ok (print e ++ [TEof])) by (apply (tokenize_show _ _ []); [done|lia|by left]).
  rewrite Htok.
  destruct (grammar_own e) as [_ Hp]. rewrite Hp; [|done|right; simpl; split_and!; [lia|done|done]|done|done].
  rewrite try_bind_assoc. apply try_bind_ext. intros v. reflexivity.
Qed.

(** ** Theorems *)

(** C28.  The evaluator implements the grammar of its parser: the text of an expression of
    the abstract syntax (operators, ternaries and parentheses where the precedences of
    that grammar ask for them, every token separated by a space) evaluates to the value
    the abstract syntax gives it, errors and panics included.  One thing of the grammar is
    left out, since the parser does not implement it: the operator [:] within the branches
    of a ternary, in parentheses or not ([expression_pitfalls]); it may be used everywhere
    else, and [=~] everywhere.  The unary operators bind tighter than the match operators,
    as the grammar of the parser says and the list at the head of the module does not
    ([match_binds_weaker]). *)
Theorem evaluate_respects_grammar `{RegexEngine} (e : Expr) (Hok : expr_ok 0 e) :
  evaluate_expression (expr_text e) =
    match eval e with
    | Done (Ok v) => Some (Done (Ok (as_string v)))
    | Done (Err (Failed err)) => Some (Done (Err err))
    | Done (Err OutOfFuel) => None
    | Panic => Some Panic
    end.
Proof.
  unfold evaluate_expression. rewrite evaluate_text by done.
  by destruct (eval e) as [[v|[err|]]|].
Qed.

(** [(1 + 2) * 3 - -x = 9 ? "a b" : 7] *)
Definition example_expr : Expr :=
  ETernary (EOp TEq (EOp TMinus (EOp TMult (EOp TPlus (ELit (lit "1")) (ELit (lit "2")))
                                   (ELit (lit "3"))) (ENeg (ELit (lit "x")))) (ELit (lit "9")))
    (ELit (lit "a b")) (ELit (lit "7")).

Lemma evaluate_respects_grammar_witness :
  @evaluate_expression literal_engine (expr_text example_expr) = gives (lit "a b").
Proof.
  etransitivity; [apply (@evaluate_respects_grammar literal_engine example_expr)|].
  - simpl. repeat split; lia.
  - vm_compute. reflexivity.
Defined.

(** Every text is evaluated: the lexer never reports an error, the
    recursion always has the fuel it needs, so a result, an error of the grammar
    or a panic comes out. *)
Theorem evaluate_always_returns `{RegexEngine} (x : str) :
  is_Some (evaluate_expression x)
  ∧ ∃ toks, tokenize (S (length x)) x = Ok toks ∧ last toks = Some TEof.
Proof.
  split.
  - unfold evaluate_expression. pose proof (evaluate_fuel x) as Hf.
    destruct (evaluate x) as [[v|[e|]]|]; [by eexists|by eexists|done|by eexists].
  - destruct (tokenize_spec (S (length x)) x) as (toks & Ht & _); [lia|].
    eexists. split; [done|]. apply last_snoc.
Qed.

(** What [as i64] gives for a number that is not zero and has no fraction. *)
Lemma as_i64_nonzero r : f64_eqb r f64_zero = false → f64_eqb r (F64.trunc r) = true → as_i64 r ≠ 0%Z.
Proof.
  destruct r as [s|s| |s m e]; try done; [by destruct s|]. intros H0 Ht.
  assert (Hi : integer_part (S754_finite s m e) ≠ 0%Z).
  { intros Hi. unfold F64.trunc in Ht. rewrite Hi in Ht. destruct (0 <=? e)%Z eqn:He.
    - simpl in Hi. rewrite He in Hi. apply Z.leb_le in He.
      assert (0 < 2 ^ e)%Z by (apply Z.pow_pos_nonneg; lia). destruct s; simpl in Hi; nia.
    - by destruct s. }
  unfold as_i64, i64_min, i64_max. lia.
Qed.

(** Integer division and remainder panic for exactly one pair of operands:
    [i64::MIN] (or anything that saturates to it) by [-1]; a zero divisor is an
    error.  No other operation of the evaluator panics on values. *)
Theorem multiply_panics_iff (op : Token) (l r : Value)
    (Hop : is_multiplicative op = true) :
  multiply_values op l r = Panic ↔
    op ≠ TMult ∧ both_integral (to_number l) (to_number r) = true
    ∧ as_i64 (to_number l) = i64_min ∧ as_i64 (to_number r) = (-1)%Z.
Proof.
  assert (Hdiv : ∀ (f : Z → Z) a b, b ≠ 0%Z →
    (if (b =? 0)%Z || ((a =? i64_min)%Z && (b =? -1)%Z) then Panic else Done (f a)) = Panic
    ↔ a = i64_min ∧ b = (-1)%Z).
  { intros f a b Hb. rewrite (proj2 (Z.eqb_neq b 0)) by done. simpl.
    destruct (Z.eqb_spec a i64_min), (Z.eqb_spec b (-1)); simpl; naive_solver. }
  destruct op; try done; unfold multiply_values; [naive_solver| |];
    (destruct (f64_eqb (to_number r) f64_zero) eqn:E0;
      [split; [done|]; intros (_ & Hb & _ & Hr); exfalso;
       destruct (to_number r) as [[]|[]| |[] ? ?]; try done; by vm_compute in E0|]);
    (destruct (both_integral _ _) eqn:Eb; [|split; [done|naive_solver]]);
    pose proof Eb as Eb'; unfold both_integral in Eb'; split_bools;
    pose proof (as_i64_nonzero _ E0 ltac:(eassumption)) as Hr.
  - unfold i64_div.
    destruct ((as_i64 (to_number r) =? 0)%Z || _) eqn:E; simpl;
      (split; [|]); try done.
    + intros _. specialize (Hdiv id (as_i64 (to_number l)) _ Hr). rewrite E in Hdiv. naive_solver.
    + specialize (Hdiv id (as_i64 (to_number l)) _ Hr). rewrite E in Hdiv. naive_solver.
  - unfold i64_rem.
    destruct ((as_i64 (to_number r) =? 0)%Z || _) eqn:E; simpl;
      (split; [|]); try done.
    + intros _. specialize (Hdiv id (as_i64 (to_number l)) _ Hr). rewrite E in Hdiv. naive_solver.
    + specialize (Hdiv id (as_i64 (to_number l)) _ Hr). rewrite E in Hdiv. naive_solver.
Qed.

Lemma multiply_panics_iff_witness :
  multiply_values TDiv (VStr (lit "-9223372036854775808")) (VStr (lit "-1")) = Panic ↔
    TDiv ≠ TMult
    ∧ both_integral (to_number (VStr (lit "-9223372036854775808"))) (to_number (VStr (lit "-1")))
      = true
    ∧ as_i64 (to_number (VStr (lit "-9223372036854775808"))) = i64_min
    ∧ as_i64 (to_number (VStr (lit "-1"))) = (-1)%Z.
Proof. apply multiply_panics_iff. reflexivity. Defined.

(** The list of precedences at the head of the module would have the first read as the
    second. *)
Example match_binds_weaker :
  eval_text (lit "-5 : 5") = gives (lit "0") ∧ eval_text (lit "-(5 : 5)") = gives (lit "-1").
Proof. by vm_compute. Qed.

(** Three expressions that go wrong: dividing [i64::MIN] by [-1] panics
    (and so does the remainder); the quotient of two integers beyond [i64] is
    that of the saturated operands; and inside a ternary even a parenthesised
    [:] match is taken for the separator and the expression is rejected. *)
Theorem expression_pitfalls :
  eval_text (lit "-9223372036854775808 / -1") = Some Panic
  ∧ eval_text (lit "-9223372036854775808 % -1") = Some Panic
  ∧ eval_text (lit "1e30 / 1e10") = gives (lit "922337203")
  ∧ eval_text (lit "(abc : a)") = gives (lit "1")
  ∧ eval_text (lit "1 ? (abc : a) : 0")
    = Some (Done (Err (UnexpectedToken (Expected TRParen TColon)))).
Proof. vm_compute. repeat split; reflexivity. Qed.
