(* ===== verification/Substitute.v ===== *)
(** * Variable substitution ([asterisk-core/src/pbx/substitute.rs])

    [substitute_variables]: [${name:offset:length}], [${FUNC(args)}], nested
    references and [$[expr]].  The dialplan functions of the registry are the
    parameter [FuncRegistry].  The recursion is bounded by the code's own depth
    limit; the scan of a text is bounded by its length.  The theorems: text
    without [$] is kept; the value of a variable is inserted as it is, never
    scanned again; substrings of ASCII values are what the comment says, and
    on other values a substring can panic.  [means] is the reading of templates that
    [substitute_expands_template] compares with: a relation that does not call the
    code's lookup of values, brackets or substrings. *)

From Stdlib Require Import ZArith NArith Ascii String.
From S2P Require Import Prelude RustStr HashMap Types Channel F64 Expression.
Local Open Scope N_scope.
Local Open Scope list_scope.

(** [FUNC_REGISTRY.find(name)], then [try_call_function_sync]. *)
Class FuncRegistry := find_function : str → option (Channel → str → option str).

Definition MAX_SUBSTITUTE_DEPTH : nat := 15.

(** ** Finding the end of a reference *)

(** The content up to the matching [}], and the text after it. *)
Fixpoint find_matching_brace (brackets : nat) (acc x : str) : option (str * str) :=
  match x with
  | [] => None
  | c :: x' =>
      match x' with
      | c2 :: x'' =>
          if (c =? chr "$") && (c2 =? chr "{") then
            find_matching_brace (S brackets) (acc ++ [c; c2]) x''
          else if (c =? chr "$") && (c2 =? chr "[") then
            find_matching_brace brackets (acc ++ [c; c2]) x''
          else if c =? chr "}" then
            match brackets with
            | S (S b) => find_matching_brace (S b) (acc ++ [c]) x'
            | _ => Some (acc, x')
            end
          else find_matching_brace brackets (acc ++ [c]) x'
      | [] =>
          if c =? chr "}" then
            match brackets with S (S _) => None | _ => Some (acc, []) end
          else None
      end
  end.

Fixpoint find_matching_bracket (brackets : nat) (in_quotes : bool) (acc x : str)
    : option (str * str) :=
  match x with
  | [] => None
  | c :: x' =>
      if c =? 34 then find_matching_bracket brackets (negb in_quotes) (acc ++ [c]) x'
      else if in_quotes then find_matching_bracket brackets in_quotes (acc ++ [c]) x'
      else
        match x' with
        | c2 :: x'' =>
            if (c =? chr "$") && (c2 =? chr "[") then
              find_matching_bracket (S brackets) in_quotes (acc ++ [c; c2]) x''
            else if (c =? chr "$") && (c2 =? chr "{") then
              find_matching_bracket brackets in_quotes (acc ++ [c; c2]) x''
            else if c =? chr "]" then
              match brackets with
              | S (S b) => find_matching_bracket (S b) in_quotes (acc ++ [c]) x'
              | _ => Some (acc, x')
              end
            else find_matching_bracket brackets in_quotes (acc ++ [c]) x'
        | [] =>
            if c =? chr "]" then
              match brackets with S (S _) => None | _ => Some (acc, []) end
            else None
        end
  end.

(** ** Names and substrings *)

(** The first colon outside parentheses. *)
Fixpoint split_name (parens : nat) (acc x : str) : option (str * str) :=
  match x with
  | [] => None
  | c :: x' =>
      if c =? chr "(" then split_name (S parens) (acc ++ [c]) x'
      else if c =? chr ")" then split_name (pred parens) (acc ++ [c]) x'
      else if (c =? chr ":") && (parens =? 0)%nat then Some (acc, x')
      else split_name parens (acc ++ [c]) x'
  end.

Definition parse_variable_name_with_substring (input : str) : str * option Z * option Z :=
  match split_name 0 [] input with
  | Some (var_name, substr_spec) =>
      let parts := splitn 2 (chr ":") substr_spec in
      (var_name, head parts ≫= parse_i32, parts !! 1%nat ≫= parse_i32)
  | None => (input, None, None)
  end.

Definition paren_depth (name : str) : Z :=
  foldl (λ depth ch, if ch =? chr "(" then (depth + 1)%Z
                     else if ch =? chr ")" then (depth - 1)%Z else depth) 0%Z name.

Definition is_function_call (name : str) : bool :=
  contains_char (chr "(") name && (paren_depth name =? 0)%Z.

Definition split_function_call (name : str) : option (str * str) :=
  '(func_name, rest) ← split_once (chr "(") name;
  args ← strip_suffix (lit ")") rest;
  Some (func_name, args).

Definition apply_substring (value : str) (offset length : Z) : outcome str :=
  let lr := wrap_i32 (Z.of_N (len value)) in
  if ((offset =? 0) && (lr <=? length))%Z then Done value
  else
    let offset := if (offset <? 0)%Z then Z.max 0 (lr + offset) else offset in
    if (lr <=? offset)%Z then Done []
    else
      let start := Z.to_N offset in
      let remaining := (lr - offset)%Z in
      if ((0 <=? length) && (length <? remaining))%Z then
        slice value start (start + Z.to_N length)
      else if (length <? 0)%Z then
        let effective_len := (remaining + length)%Z in
        if (0 <? effective_len)%Z then slice value start (start + Z.to_N effective_len)
        else Done []
      else slice_from value start.

(** ** Looking a name up *)

(** The built-in names of a channel. *)
Definition builtin_variable (ch : Channel) (name : str) : option str :=
  if str_eqb name (lit "EXTEN") then Some (exten ch)
  else if str_eqb name (lit "CONTEXT") then Some (context ch)
  else if str_eqb name (lit "PRIORITY") then Some (show_int (chan_priority ch))
  else if str_eqb name (lit "CHANNEL") then Some (chan_name ch)
  else if str_eqb name (lit "UNIQUEID") then Some (unique_id ch)
  else if str_eqb name (lit "HANGUPCAUSE") then
    Some (show_int (hangup_cause_code (hangup_cause ch)))
  else if str_eqb name (lit "CALLERID(num)") || str_eqb name (lit "CALLERID(number)") then
    Some (caller_number ch)
  else if str_eqb name (lit "CALLERID(name)") then Some (caller_name ch)
  else if str_eqb name (lit "CALLERID(all)") then
    Some (if str_eqb (caller_name ch) [] then caller_number ch
          else [34] ++ caller_name ch ++ [34] ++ lit " <" ++ caller_number ch ++ lit ">")
  else None.

Definition call_function `{FuncRegistry} (channel : option Channel) (name : str) : str :=
  match split_function_call name with
  | None => []
  | Some (func_name, args) =>
      match find_function func_name, channel with
      | Some func, Some ch => default [] (func ch args)
      | _, _ => []
      end
  end.

Definition lookup_variable `{FuncRegistry} (channel : option Channel)
    (headp : option (gmap str str)) (name : str) : str :=
  let from_channel :=
    ch ← channel;
    match builtin_variable ch name with
    | Some v => Some v
    | None => variables ch !! name
    end in
  match from_channel with
  | Some v => v
  | None =>
      match headp ≫= λ vars, vars !! name with
      | Some v => v
      | None => if is_function_call name then call_function channel name else []
      end
  end.

(** ** Substitution *)

Definition needs_substitution (content : str) : bool :=
  contains (lit "${") content || contains (lit "$[") content.

Section substitute.
Context `{FuncRegistry, RegexEngine}.
Variable channel : option Channel.
Variable headp : option (gmap str str).

(** The value of [${content}], [content] already resolved. *)
Definition variable_value (content : str) : outcome str :=
  let '(var_name, offset, length) := parse_variable_name_with_substring content in
  let value := lookup_variable channel headp var_name in
  match offset, length with
  | None, None => Done value
  | _, _ => apply_substring value (default 0%Z offset) (default i32_max length)
  end.

(** The value of [$[content]]; an error counts as [0]. *)
Definition expression_value (content : str) : outcome str :=
  match evaluate_expression content with
  | Some (Done (Ok v)) => Done v
  | Some (Done (Err _)) => Done (lit "0")
  | Some Panic | None => Panic
  end.

(** One level of [substitute_recursive]: [inner] is the next level, used for
    the contents that need it. *)
Section scan.
Variable inner : str → outcome str.

Definition resolve (content : str) : outcome str :=
  if needs_substitution content then inner content else Done content.

Fixpoint scan (fuel : nat) (x : str) : outcome str :=
  match fuel, x with
  | _, [] => Done []
  | O, _ => Done []
  | S fuel', c :: x' =>
      if negb (c =? chr "$") then let! r := scan fuel' x' in Done (c :: r)
      else
        match x' with
        | [] => Done [c]
        | c2 :: x'' =>
            if c2 =? chr "{" then
              match find_matching_brace 1 [] x'' with
              | Some (content, rest) =>
                  let! resolved := resolve content in
                  let! value := variable_value resolved in
                  let! r := scan fuel' rest in
                  Done (value ++ r)
              | None => let! r := scan fuel' x'' in Done (c :: c2 :: r)
              end
            else if c2 =? chr "[" then
              match find_matching_bracket 1 false [] x'' with
              | Some (content, rest) =>
                  let! resolved := resolve content in
                  let! value := expression_value resolved in
                  let! r := scan fuel' rest in
                  Done (value ++ r)
              | None => let! r := scan fuel' x'' in Done (c :: c2 :: r)
              end
            else if c2 =? chr "$" then let! r := scan fuel' x'' in Done (c :: r)
            else let! r := scan fuel' x' in Done (c :: r)
        end
  end.
End scan.

(** [levels] is [MAX_SUBSTITUTE_DEPTH - depth]. *)
Fixpoint substitute_recursive (levels : nat) (input : str) : outcome str :=
  match levels with
  | O => Done []
  | S levels' => scan (substitute_recursive levels') (length input) input
  end.

Definition substitute_variables_full (input : str) : outcome str :=
  substitute_recursive MAX_SUBSTITUTE_DEPTH input.
End substitute.

Definition substitute_variables `{FuncRegistry, RegexEngine} (channel : Channel) (input : str)
    : outcome str :=
  substitute_variables_full (Some channel) None input.

(** No functions, for examples. *)
Definition no_functions : FuncRegistry := λ _, None.

Definition ex_vars : gmap str str :=
  {[ lit "A" := lit "12345"; lit "B" := lit "A"; lit "C" := lit "${A}" ]}.
Definition subst_text (x : str) : outcome str :=
  @substitute_variables_full no_functions literal_engine None (Some ex_vars) x.

Example substitute_examples :
  subst_text (lit "x${A}y") = Done (lit "x12345y")
  ∧ subst_text (lit "${A:1:2}-${A:-2}-${A:0:-1}") = Done (lit "23-45-1234")
  ∧ subst_text (lit "${${B}}") = Done (lit "12345")
  ∧ subst_text (lit "${C}") = Done (lit "${A}")
  ∧ subst_text (lit "$[${A} + 1]") = Done (lit "12346")
  ∧ subst_text (lit "$$${A") = Done (lit "$${A")
  ∧ subst_text (lit "$[1 +]") = Done (lit "0").
Proof. vm_compute. repeat split; reflexivity. Qed.

(** ** Templates

    A dialplan argument as its author means it: characters, references
    [${...}] and expressions [$[...]], nested to any depth. *)

Inductive template : Type :=
  | TNil
  | TChar (c : char) (rest : template)
  | TVar (content rest : template)
  | TExpr (content rest : template).

(** The text of a template. *)
Fixpoint render (t : template) : str :=
  match t with
  | TNil => []
  | TChar c r => c :: render r
  | TVar a r => lit "${" ++ render a ++ chr "}" :: render r
  | TExpr a r => lit "$[" ++ render a ++ chr "]" :: render r
  end.

(** The work of the code, over the tree instead of its text. *)
Fixpoint expand `{FuncRegistry, RegexEngine} (channel : option Channel)
    (headp : option (gmap str str)) (t : template) : outcome str :=
  match t with
  | TNil => Done []
  | TChar c r => let! y := expand channel headp r in Done (c :: y)
  | TVar a r =>
      let! name := expand channel headp a in
      let! v := variable_value channel headp name in
      let! y := expand channel headp r in Done (v ++ y)
  | TExpr a r =>
      let! e := expand channel headp a in
      let! v := expression_value e in
      let! y := expand channel headp r in Done (v ++ y)
  end.

(** How deep references are nested; 0 is a text without any. *)
Fixpoint depth (t : template) : nat :=
  match t with
  | TNil => 0
  | TChar _ r => depth r
  | TVar a r | TExpr a r => S (depth a) `max` depth r
  end.

(** No character [}] is written in the content of a [${]. *)
Fixpoint brace_ok (t : template) : bool :=
  match t with
  | TNil => true
  | TChar c r => negb (c =? chr "}") && brace_ok r
  | TVar a r | TExpr a r => brace_ok a && brace_ok r
  end.

(** Reads a template with the double quotes of an expression: whether one is open at the
    end, from whether one is at the beginning.  Outside quotes no closing bracket is written, and the
    content of a nested expression closes what it opens. *)
Fixpoint quotes (q : bool) (t : template) : option bool :=
  match t with
  | TNil => Some q
  | TChar c r =>
      if c =? 34 then quotes (negb q) r
      else if negb q && (c =? chr "]") then None else quotes q r
  | TVar a r => q' ← quotes q a; quotes q' r
  | TExpr a r => q' ← quotes q a; if Bool.eqb q' q then quotes q r else None
  end.

(** A template that can be written: no [$] but those of references; no [}] in a [${]; and
    in a [$[], quotes in pairs and no closing bracket outside them. *)
Fixpoint template_ok (t : template) : bool :=
  match t with
  | TNil => true
  | TChar c r => negb (c =? chr "$") && template_ok r
  | TVar a r => brace_ok a && template_ok a && template_ok r
  | TExpr a r => bool_decide (quotes false a = Some false) && template_ok a && template_ok r
  end.

(** A content is read to its own closing character. *)
Lemma find_matching_brace_step k acc c x :
  x ≠ [] → (c =? chr "$") = false → (c =? chr "}") = false →
  find_matching_brace (S k) acc (c :: x) = find_matching_brace (S k) (acc ++ [c]) x.
Proof. destruct x as [|c2 x]; [done|]. intros _ Hd Hb. simpl. by rewrite Hd, Hb. Qed.

Lemma find_matching_brace_close k acc x :
  x ≠ [] →
  find_matching_brace (S (S k)) acc (chr "}" :: x)
  = find_matching_brace (S k) (acc ++ [chr "}"]) x.
Proof. by destruct x. Qed.

Lemma render_app_ne a x : x ≠ [] → render a ++ x ≠ [].
Proof. intros Hx [_ ?]%app_eq_nil. done. Qed.

Lemma find_matching_brace_app a k acc x :
  template_ok a = true → brace_ok a = true → x ≠ [] →
  find_matching_brace (S k) acc (render a ++ x)
  = find_matching_brace (S k) (acc ++ render a) x.
Proof.
  revert k acc x.
  induction a as [|c r IH|a IHa r IH|a IHa r IH]; intros k acc x Ha Hb Hx; simpl in Ha, Hb;
    split_bools; cbn [render app].
  - by rewrite app_nil_r.
  - rewrite find_matching_brace_step by auto using render_app_ne.
    by rewrite IH, <-(assoc_L app) by done.
  - cbn [find_matching_brace N.eqb Pos.eqb andb]. rewrite <-(assoc_L app), IHa by done.
    cbn [app]. rewrite find_matching_brace_close by auto using render_app_ne.
    by rewrite IH, <-!(assoc_L app) by done.
  - cbn [find_matching_brace N.eqb Pos.eqb andb]. rewrite <-(assoc_L app), IHa by done.
    cbn [app]. rewrite find_matching_brace_step by auto using render_app_ne.
    by rewrite IH, <-!(assoc_L app) by done.
Qed.

Lemma find_matching_brace_render a x :
  template_ok a = true → brace_ok a = true →
  find_matching_brace 1 [] (render a ++ chr "}" :: x) = Some (render a, x).
Proof.
  intros Ha Hb. rewrite find_matching_brace_app by done. by destruct x.
Qed.

Lemma find_matching_bracket_step k acc c x :
  x ≠ [] → (c =? chr "$") = false → (c =? chr "]") = false → (c =? 34) = false →
  find_matching_bracket (S k) false acc (c :: x)
  = find_matching_bracket (S k) false (acc ++ [c]) x.
Proof. destruct x as [|c2 x]; [done|]. intros _ Hd Hb Hq. simpl. by rewrite Hq, Hd, Hb. Qed.

Lemma find_matching_bracket_quoted k acc c x :
  (c =? 34) = false → find_matching_bracket k true acc (c :: x) = find_matching_bracket k true (acc ++ [c]) x.
Proof. intros Hc. simpl. by rewrite Hc. Qed.

Lemma find_matching_bracket_close k acc x :
  x ≠ [] →
  find_matching_bracket (S (S k)) false acc (chr "]" :: x)
  = find_matching_bracket (S k) false (acc ++ [chr "]"]) x.
Proof. by destruct x. Qed.

(** An ordinary character outside or inside quotes. *)
Lemma find_matching_bracket_char k q acc c x :
  x ≠ [] → (c =? chr "$") = false → negb q && (c =? chr "]") = false → (c =? 34) = false →
  find_matching_bracket (S k) q acc (c :: x) = find_matching_bracket (S k) q (acc ++ [c]) x.
Proof.
  intros Hx Hd Hb Hq. destruct q; [by apply find_matching_bracket_quoted|by apply find_matching_bracket_step].
Qed.

(** The two characters that open a reference. *)
Lemma find_matching_bracket_open_var k q acc x :
  find_matching_bracket (S k) q acc (lit "${" ++ x) = find_matching_bracket (S k) q (acc ++ lit "${") x.
Proof.
  destruct q; cbn [app]; [|done]. rewrite !find_matching_bracket_quoted by done. by rewrite <-(assoc_L app).
Qed.

Lemma find_matching_bracket_open_expr k q acc x :
  find_matching_bracket (S k) q acc (lit "$[" ++ x)
  = find_matching_bracket (if q then S k else S (S k)) q (acc ++ lit "$[") x.
Proof.
  destruct q; cbn [app]; [|done]. rewrite !find_matching_bracket_quoted by done. by rewrite <-(assoc_L app).
Qed.

Lemma find_matching_bracket_app a k q q' acc x :
  template_ok a = true → quotes q a = Some q' → x ≠ [] →
  find_matching_bracket (S k) q acc (render a ++ x)
  = find_matching_bracket (S k) q' (acc ++ render a) x.
Proof.
  revert k q q' acc x.
  induction a as [|c r IH|a IHa r IH|a IHa r IH]; intros k q q' acc x Ha Hq Hx; simpl in Ha, Hq;
    split_bools; cbn [render].
  - injection Hq as <-. by rewrite app_nil_r.
  - cbn [app]. destruct (N.eqb_spec c 34) as [->|Hc].
    + cbn [find_matching_bracket N.eqb Pos.eqb]. by rewrite (IH k (negb q) q'), <-(assoc_L app) by done.
    + apply N.eqb_neq in Hc. destruct (negb q && _) eqn:Hb; [done|].
      rewrite find_matching_bracket_char by auto using render_app_ne.
      by rewrite (IH k q q'), <-(assoc_L app) by done.
  - apply bind_Some in Hq as (q1 & Hq1 & Hq). rewrite <-(assoc_L app), find_matching_bracket_open_var, <-(assoc_L app).
    rewrite (IHa k q q1) by done. cbn [app].
    rewrite find_matching_bracket_char; [|by apply render_app_ne|done|by rewrite andb_false_r|done].
    by rewrite (IH k q1 q'), <-!(assoc_L app) by done.
  - apply bind_Some in Hq as (q1 & Hq1 & Hq). destruct (Bool.eqb_spec q1 q) as [->|]; [|done].
    rewrite <-(assoc_L app), find_matching_bracket_open_expr, <-(assoc_L app).
    destruct q.
    + rewrite (IHa k true true) by done. cbn [app]. rewrite find_matching_bracket_quoted by done.
      by rewrite (IH k true q'), <-!(assoc_L app) by done.
    + rewrite (IHa (S k) false false) by done. cbn [app].
      rewrite find_matching_bracket_close by auto using render_app_ne.
      by rewrite (IH k false q'), <-!(assoc_L app) by done.
Qed.

Lemma find_matching_bracket_render a x :
  template_ok a = true → quotes false a = Some false →
  find_matching_bracket 1 false [] (render a ++ chr "]" :: x) = Some (render a, x).
Proof.
  intros Ha Hq. rewrite (find_matching_bracket_app a 0 false false) by done. by destruct x.
Qed.

(** The test for nested references is exact on templates. *)
Lemma contains_true pat x : contains pat x = true ↔ is_Some (find pat x).
Proof. apply bool_decide_eq_true. Qed.

Lemma contains_app pat x y : contains pat y = true → contains pat (x ++ y) = true.
Proof.
  rewrite !contains_true. intros [i Hi]. induction x as [|c x [j Hj]]; simpl; [by exists i|].
  destruct (starts_with _ _); [by eexists|]. by rewrite Hj; eexists.
Qed.

Lemma contains_prefix pat y : contains pat (pat ++ y) = true.
Proof.
  apply contains_true. assert (starts_with pat (pat ++ y) = true) as E.
  { apply starts_with_true. by exists y. }
  destruct (pat ++ y); simpl; rewrite E; by eexists.
Qed.

Lemma needs_substitution_app x y :
  needs_substitution y = true → needs_substitution (x ++ y) = true.
Proof.
  unfold needs_substitution. rewrite !orb_true_iff.
  intros [H|H]; [left|right]; by apply contains_app.
Qed.

Lemma needs_substitution_render t :
  template_ok t = true → needs_substitution (render t) = negb (depth t =? 0)%nat.
Proof.
  intros Hok. destruct (Nat.eqb_spec (depth t) 0) as [E|E]; simpl.
  - assert (∀ ch, ch ∈ render t → ch ≠ chr "$") as Hd.
    { revert Hok E. induction t as [|c r IH|a _ r _|a _ r _]; simpl; intros Hok E ch Hin.
      - by apply not_elem_of_nil in Hin.
      - split_bools. apply elem_of_cons in Hin as [->|Hin]; [by apply N.eqb_neq|by apply IH].
      - lia.
      - lia. }
    apply orb_false_iff; split; apply bool_decide_eq_false; intros [i Hi];
      apply find_Some in Hi as (p & q & Hpq & _); apply (Hd (chr "$")); try done;
      rewrite Hpq; set_solver.
  - revert E. clear Hok. induction t as [|c r IH|a _ r _|a _ r _]; simpl; intros E; [done| | |].
    + by apply (needs_substitution_app [c]), IH.
    + apply orb_true_iff. left. apply (contains_prefix (lit "${")).
    + apply orb_true_iff. right. apply (contains_prefix (lit "$[")).
Qed.

Section template_proofs.
Context `{FuncRegistry, RegexEngine}.
Variable channel : option Channel.
Variable headp : option (gmap str str).

Lemma substitute_recursive_S levels x :
  substitute_recursive channel headp (S levels) x
  = scan channel headp (substitute_recursive channel headp levels) (length x) x.
Proof. done. Qed.

Lemma expand_flat t : depth t = 0%nat → expand channel headp t = Done (render t).
Proof.
  induction t as [|c r IH|a _ r _|a _ r _]; simpl; intros E; [done| |lia|lia].
  by rewrite IH.
Qed.

(** One level of the scan expands a template whose depth it allows. *)
Lemma scan_render levels fuel t :
  template_ok t = true → (depth t ≤ S levels)%nat → (length (render t) ≤ fuel)%nat →
  scan channel headp (substitute_recursive channel headp levels) fuel (render t)
  = expand channel headp t.
Proof.
  revert levels fuel.
  assert (Hresolve : ∀ levels a,
    (∀ levels fuel, template_ok a = true → (depth a ≤ S levels)%nat →
       (length (render a) ≤ fuel)%nat →
       scan channel headp (substitute_recursive channel headp levels) fuel (render a)
       = expand channel headp a) →
    template_ok a = true → (depth a ≤ levels)%nat →
    resolve (substitute_recursive channel headp levels) (render a)
    = expand channel headp a).
  { intros levels a IH Ha Hd. unfold resolve. rewrite needs_substitution_render by done.
    destruct (Nat.eqb_spec (depth a) 0) as [E|E]; simpl; [by rewrite expand_flat|].
    destruct levels as [|levels]; [lia|]. simpl. apply IH; [done|lia|lia]. }
  induction t as [|c r IH|a IHa r IH|a IHa r IH]; intros levels fuel Hok Hd Hf;
    simpl in Hok, Hd, Hf; split_bools.
  - by destruct fuel.
  - destruct fuel as [|fuel]; [lia|]. simpl. rewrite H1. simpl. by rewrite IH by (done || lia).
  - rewrite length_app in Hf. simpl in Hf. destruct fuel as [|fuel]; [lia|].
    simpl. rewrite find_matching_brace_render by done.
    rewrite Hresolve by (done || lia). by rewrite IH by (done || lia).
  - rewrite length_app in Hf. simpl in Hf. destruct fuel as [|fuel]; [lia|].
    match goal with Hb : bool_decide _ = true |- _ => apply bool_decide_eq_true in Hb end.
    simpl. rewrite find_matching_bracket_render by done.
    rewrite Hresolve by (done || lia). by rewrite IH by (done || lia).
Qed.
End template_proofs.

(** Text without a [$] is kept. *)
Fixpoint plain_template (x : str) : template :=
  match x with [] => TNil | c :: x' => TChar c (plain_template x') end.

Lemma plain_template_spec x :
  chr "$" ∉ x → render (plain_template x) = x ∧ template_ok (plain_template x) = true ∧ depth (plain_template x) = 0%nat.
Proof.
  induction x as [|c x IH]; simpl; intros Hx; [done|].
  destruct IH as (-> & -> & ->); [set_solver|]. split_and!; [done| |done].
  destruct (N.eqb_spec c (chr "$")); [set_solver|done].
Qed.

Lemma substitute_plain `{FuncRegistry, RegexEngine} channel headp x :
  chr "$" ∉ x → substitute_variables_full channel headp x = Done x.
Proof.
  intros Hx. apply plain_template_spec in Hx as (Hr & Hok & Hd). rewrite <-Hr at 1.
  unfold substitute_variables_full, MAX_SUBSTITUTE_DEPTH. rewrite substitute_recursive_S.
  rewrite scan_render by (done || lia). rewrite expand_flat by done. by rewrite Hr.
Qed.

(** ** Substrings *)

(** What the comment promises, on the characters of the value: from [offset]
    (counted from the end when negative), [length] characters (when negative,
    up to that many before the end). *)
Definition substring_spec (value : str) (offset length : Z) : str :=
  let n := Z.of_nat (List.length value) in
  let start := if (offset <? 0)%Z then Z.max 0 (n + offset) else Z.min n offset in
  let stop := if (length <? 0)%Z then (n + length)%Z else Z.min n (start + length) in
  take (Z.to_nat (stop - start)) (drop (Z.to_nat start) value).

Lemma is_ascii_app x y : is_ascii (x ++ y) = is_ascii x && is_ascii y.
Proof. apply forallb_app. Qed.

Lemma is_ascii_take n x : is_ascii x = true → is_ascii (take n x) = true.
Proof. rewrite <-(take_drop n x) at 1. rewrite is_ascii_app. by intros [-> _]%andb_true_iff. Qed.

Lemma is_ascii_drop n x : is_ascii x = true → is_ascii (drop n x) = true.
Proof. rewrite <-(take_drop n x) at 1. rewrite is_ascii_app. by intros [_ ->]%andb_true_iff. Qed.

Lemma len_ascii_take n x :
  is_ascii x = true → (n ≤ length x)%nat → len (take n x) = N.of_nat n.
Proof. intros Hx Hn. rewrite len_ascii by by apply is_ascii_take. rewrite length_take. lia. Qed.

Lemma slice_ascii x i n :
  is_ascii x = true → (i + n ≤ length x)%nat →
  slice x (N.of_nat i) (N.of_nat i + N.of_nat n) = Done (take n (drop i x)).
Proof.
  intros Hx Hn.
  assert (E : x = take i x ++ take n (drop i x) ++ drop n (drop i x))
    by by rewrite !take_drop.
  pose proof (slice_app (take i x) (take n (drop i x)) (drop n (drop i x))) as S.
  rewrite <-E, !len_ascii_take in S; rewrite ?length_drop; auto using is_ascii_drop; lia.
Qed.

Lemma slice_from_ascii x i :
  is_ascii x = true → (i ≤ length x)%nat → slice_from x (N.of_nat i) = Done (drop i x).
Proof.
  intros Hx Hn. pose proof (slice_from_app (take i x) (drop i x)) as S.
  by rewrite take_drop, len_ascii_take in S by done.
Qed.

Lemma slice_ascii_Z x (s k : Z) :
  is_ascii x = true → (0 ≤ s)%Z → (0 ≤ k)%Z → (s + k ≤ Z.of_nat (length x))%Z →
  slice x (Z.to_N s) (Z.to_N s + Z.to_N k) = Done (take (Z.to_nat k) (drop (Z.to_nat s) x)).
Proof.
  intros Hx Hs Hk Hn. rewrite <-(slice_ascii x (Z.to_nat s) (Z.to_nat k)) by (done || lia).
  f_equal; lia.
Qed.

Lemma slice_from_ascii_Z x (s : Z) :
  is_ascii x = true → (0 ≤ s ≤ Z.of_nat (length x))%Z →
  slice_from x (Z.to_N s) = Done (drop (Z.to_nat s) x).
Proof.
  intros Hx Hs. rewrite <-(slice_from_ascii x (Z.to_nat s)) by (done || lia). f_equal; lia.
Qed.

(** [${name:offset:length}].  On an ASCII value of at most 2^31-1 bytes
    and for every pair of [i32]s, [apply_substring] returns exactly the
    characters the offset and the length name, negative ones counted from the
    end, out-of-range ones clamped, without a panic or an overflow; but a value
    that begins with a multi-byte character makes [:0:1] panic, because the
    bounds are byte offsets. *)
Theorem apply_substring_correct (value : str) (offset length : Z) :
  is_ascii value = true → (Z.of_nat (List.length value) ≤ i32_max)%Z →
  (- 2 ^ 31 ≤ offset ≤ i32_max)%Z → (- 2 ^ 31 ≤ length ≤ i32_max)%Z →
  apply_substring value offset length = Done (substring_spec value offset length)
  ∧ ∀ c x, 128 <= c → (Z.of_N (len (c :: x)) ≤ i32_max)%Z →
      apply_substring (c :: x) 0 1 = Panic.
Proof.
  unfold i32_max. intros Hv Hn Ho Hl. split.
  - unfold apply_substring, substring_spec. rewrite len_ascii, wrap_i32_id by (done || lia).
    set (n := Z.of_nat (List.length value)) in *.
    assert (Z.of_N (N.of_nat (List.length value)) = n) as -> by lia.
    destruct ((offset =? 0) && (n <=? length))%Z eqn:Eq.
    { split_bools. apply Z.eqb_eq in H as ->. apply Z.leb_le in H0. simpl.
      replace (length <? 0)%Z with false by lia.
      replace (Z.to_nat (n `min` 0)) with 0%nat by lia.
      by rewrite drop_0, take_ge by lia. }
    clear Eq.
    set (o := if (offset <? 0)%Z then Z.max 0 (n + offset) else offset).
    assert ((if (offset <? 0)%Z then Z.max 0 (n + offset) else Z.min n offset) = Z.min n o)%Z
      as -> by (subst o; case_match; lia).
    assert (0 ≤ o)%Z by (subst o; case_match; lia). clearbody o.
    destruct (Z.leb_spec n o).
    { by rewrite drop_ge, take_nil by lia. }
    rewrite (Z.min_r n o) by lia.
    destruct (Z.ltb_spec length 0), (Z.leb_spec 0 length); try lia; simpl.
    + destruct (Z.ltb_spec 0 (n - o + length)).
      * rewrite slice_ascii_Z by (done || lia). do 3 f_equal. lia.
      * by replace (Z.to_nat (n + length - o)) with 0%nat by lia.
    + destruct (Z.ltb_spec length (n - o)).
      * rewrite slice_ascii_Z by (done || lia). do 3 f_equal. lia.
      * rewrite slice_from_ascii_Z by (done || lia).
        rewrite take_ge; [done|]. rewrite length_drop. lia.
  - intros c x Hc Hx. unfold apply_substring. simpl len in *.
    rewrite wrap_i32_id by lia.
    assert (2 <= len_utf8 c).
    { unfold len_utf8. destruct (N.ltb_spec c 128); [lia|]. repeat case_match; lia. }
    change (0 =? 0)%Z with true. change (0 <? 0)%Z with false. cbv iota.
    destruct (Z.leb_spec (Z.of_N (len_utf8 c + len x)) 1); [lia|]. cbn [andb].
    destruct (Z.leb_spec (Z.of_N (len_utf8 c + len x)) 0); [lia|].
    destruct (Z.ltb_spec 1 (Z.of_N (len_utf8 c + len x) - 0)); [|lia].
    unfold slice, slice_to. simpl. change (0 + 1) with 1.
    by destruct (N.leb_spec (len_utf8 c) 1); [lia|].
Qed.

(** ** What a reference means

    Independently of the code: the names of the channel, then its variables, then those
    given beside it, then the dialplan functions. *)

(** The values a channel has of its own. *)
Definition own_values (ch : Channel) : list (str * str) :=
  [(lit "EXTEN", exten ch); (lit "CONTEXT", context ch); (lit "PRIORITY", show_int (chan_priority ch));
   (lit "CHANNEL", chan_name ch); (lit "UNIQUEID", unique_id ch);
   (lit "HANGUPCAUSE", show_int (hangup_cause_code (hangup_cause ch)));
   (lit "CALLERID(num)", caller_number ch); (lit "CALLERID(number)", caller_number ch);
   (lit "CALLERID(name)", caller_name ch);
   (lit "CALLERID(all)", if decide (caller_name ch = []) then caller_number ch
                         else [34] ++ caller_name ch ++ [34] ++ lit " <" ++ caller_number ch ++ lit ">")].

(** The first that is there. *)
Definition or_else (a b : option str) : option str := match a with Some _ => a | None => b end.

Definition set_value (channel : option Channel) (headp : option (gmap str str)) (name : str) : option str :=
  or_else (ch ← channel; or_else ((list_to_map (own_values ch) : gmap str str) !! name) (variables ch !! name))
    (vars ← headp; vars !! name).

(** A name without parentheses and colons. *)
Definition plain_name (x : str) : Prop := Forall (λ c, c ≠ chr "(" ∧ c ≠ chr ")" ∧ c ≠ chr ":") x.

(** What can be written between parentheses: any text with its parentheses in pairs. *)
Inductive paired : str → Prop :=
  | paired_nil : paired []
  | paired_char c x : c ≠ chr "(" → c ≠ chr ")" → paired x → paired (c :: x)
  | paired_group x y : paired x → paired y → paired (chr "(" :: x ++ chr ")" :: y).

(** The value of a name; a name nothing is known of is empty. *)
Inductive name_means `{FuncRegistry} (channel : option Channel) (headp : option (gmap str str)) : str → str → Prop :=
  | named_value name v :
      plain_name name → set_value channel headp name = Some v → name_means channel headp name v
  | named_unknown name :
      plain_name name → set_value channel headp name = None → name_means channel headp name []
  | named_call_value f args v :
      plain_name f → paired args → set_value channel headp (f ++ lit "(" ++ args ++ lit ")") = Some v →
      name_means channel headp (f ++ lit "(" ++ args ++ lit ")") v
  | named_call f args v :
      plain_name f → paired args → set_value channel headp (f ++ lit "(" ++ args ++ lit ")") = None →
      v = default [] (ch ← channel; g ← find_function f; g ch args) →
      name_means channel headp (f ++ lit "(" ++ args ++ lit ")") v.

Definition i32_ok (n : Z) : Prop := (- 2 ^ 31 ≤ n < 2 ^ 31)%Z.

(** What a text between [${] and its brace means: a name, and perhaps which part of its
    value; the value as it is, or that part. *)
Inductive var_means `{FuncRegistry} (channel : option Channel) (headp : option (gmap str str)) : str → str → Prop :=
  | means_whole name v : name_means channel headp name v → var_means channel headp name v
  | means_from name v o :
      name_means channel headp name v → is_ascii v = true → (Z.of_nat (length v) ≤ i32_max)%Z → i32_ok o →
      var_means channel headp (name ++ lit ":" ++ show_int o) (substring_spec v o (Z.of_nat (length v)))
  | means_part name v o l :
      name_means channel headp name v → is_ascii v = true → (Z.of_nat (length v) ≤ i32_max)%Z → i32_ok o → i32_ok l →
      var_means channel headp (name ++ lit ":" ++ show_int o ++ lit ":" ++ show_int l) (substring_spec v o l).

(** What a text between [$[] and its bracket means: the value of the expression; an
    expression in error is [0]. *)
Inductive expr_means `{RegexEngine} : str → str → Prop :=
  | means_result x v : evaluate_expression x = Some (Done (Ok v)) → expr_means x v
  | means_error x e : evaluate_expression x = Some (Done (Err e)) → expr_means x (lit "0").

(** What a template means: contents first, then what they mean, in place and as it is. *)
Inductive means `{FuncRegistry, RegexEngine} (channel : option Channel) (headp : option (gmap str str))
    : template → str → Prop :=
  | means_nil : means channel headp TNil []
  | means_char c r y : means channel headp r y → means channel headp (TChar c r) (c :: y)
  | means_var a r name v y :
      means channel headp a name → var_means channel headp name v → means channel headp r y →
      means channel headp (TVar a r) (v ++ y)
  | means_expr a r x v y :
      means channel headp a x → expr_means x v → means channel headp r y →
      means channel headp (TExpr a r) (v ++ y).

(** *** The code finds it *)

Lemma split_name_plain x rest acc :
  plain_name x → split_name 0 acc (x ++ rest) = split_name 0 (acc ++ x) rest.
Proof.
  intros Hx. revert acc. induction Hx as [|c x (H1 & H2 & H3) _ IH]; intros acc; [by rewrite app_nil_r|].
  cbn [app split_name]. rewrite !(proj2 (N.eqb_neq _ _)) by done. cbn [andb]. by rewrite IH, <-(assoc_L app).
Qed.

Lemma split_name_paired x rest acc d :
  paired x → split_name (S d) acc (x ++ rest) = split_name (S d) (acc ++ x) rest.
Proof.
  intros Hx. revert rest acc d. induction Hx as [|c x H1 H2 _ IH|x y _ IHx _ IHy]; intros rest acc d.
  - by rewrite app_nil_r.
  - cbn [app split_name]. rewrite !(proj2 (N.eqb_neq _ _)) by done. rewrite andb_false_r. by rewrite IH, <-(assoc_L app).
  - cbn [app]. rewrite <-(assoc_L app). cbn [split_name app N.eqb Pos.eqb]. rewrite IHx. cbn [split_name N.eqb Pos.eqb pred].
    rewrite IHy. by rewrite <-!(assoc_L app).
Qed.

Lemma split_name_named `{FuncRegistry} channel headp name v rest acc :
  name_means channel headp name v → split_name 0 acc (name ++ rest) = split_name 0 (acc ++ name) rest.
Proof.
  assert (∀ f args acc, plain_name f → paired args →
    split_name 0 acc ((f ++ lit "(" ++ args ++ lit ")") ++ rest) = split_name 0 (acc ++ f ++ lit "(" ++ args ++ lit ")") rest) as Hcall.
  { intros f args acc' Hf Ha. rewrite <-(assoc_L app), split_name_plain by done. rewrite <-!(assoc_L app). cbn [app split_name N.eqb Pos.eqb].
    rewrite split_name_paired by done. cbn [split_name N.eqb Pos.eqb pred]. by rewrite <-!(assoc_L app). }
  intros Hn. destruct Hn; [by apply split_name_plain|by apply split_name_plain|by apply Hcall|by apply Hcall].
Qed.

Lemma lookup_set `{FuncRegistry} channel headp name :
  lookup_variable channel headp name
  = match set_value channel headp name with
    | Some v => v
    | None => if is_function_call name then call_function channel name else []
    end.
Proof.
  assert (∀ ch, builtin_variable ch name = (list_to_map (own_values ch) : gmap str str) !! name) as Hb.
  { intros ch. unfold own_values, builtin_variable. cbn [list_to_map foldr].
    assert (∀ k v (m : gmap str str) o, o = m !! name → (if str_eqb name k then Some v else o) = <[k := v]> m !! name) as Hins.
    { intros k v m o ->. destruct (str_eqb name k) eqn:E.
      - apply str_eqb_true in E as ->. by rewrite lookup_insert_eq.
      - apply str_eqb_false in E. by rewrite lookup_insert_ne. }
    do 6 apply Hins. destruct (str_eqb name (lit "CALLERID(num)")) eqn:E1.
    { apply str_eqb_true in E1 as ->. by rewrite lookup_insert_eq. }
    apply str_eqb_false in E1. rewrite lookup_insert_ne by done. cbn [orb].
    do 2 apply Hins. assert ((if str_eqb (caller_name ch) [] then caller_number ch
      else [34] ++ caller_name ch ++ [34] ++ lit " <" ++ caller_number ch ++ lit ">")
      = if decide (caller_name ch = []) then caller_number ch
        else [34] ++ caller_name ch ++ [34] ++ lit " <" ++ caller_number ch ++ lit ">") as ->.
    { unfold str_eqb. case_bool_decide; case_decide; done. }
    apply Hins. by rewrite lookup_empty. }
  unfold lookup_variable, set_value, or_else. destruct channel as [ch|]; cbn [mbind option_bind].
  - rewrite Hb. destruct (_ !! name); [done|]. destruct (variables ch !! name); [done|]. by destruct headp.
  - by destruct headp.
Qed.

Lemma paren_depth_paired x d : paired x →
  foldl (λ depth ch, if ch =? chr "(" then (depth + 1)%Z else if ch =? chr ")" then (depth - 1)%Z else depth) d x = d.
Proof.
  intros Hx. revert d. induction Hx as [|c x H1 H2 _ IH|x y _ IHx _ IHy]; intros d; [done| |].
  - cbn [foldl]. rewrite !(proj2 (N.eqb_neq _ _)) by done. apply IH.
  - cbn [foldl N.eqb Pos.eqb]. rewrite foldl_app, IHx. cbn [foldl N.eqb Pos.eqb]. rewrite IHy. lia.
Qed.

Lemma plain_paired x : plain_name x → paired x.
Proof. induction 1 as [|c x (? & ? & _) _ IH]; by constructor. Qed.

Lemma contains_char_elem ch x : contains_char ch x = true ↔ ch ∈ x.
Proof.
  unfold contains_char. rewrite existsb_exists. split.
  - intros (c & Hc & ->%N.eqb_eq). by apply list_elem_of_In.
  - intros Hin. exists ch. split; [by apply list_elem_of_In|by apply N.eqb_eq].
Qed.

Lemma lookup_named `{FuncRegistry} channel headp name v :
  name_means channel headp name v → lookup_variable channel headp name = v.
Proof.
  intros Hn. rewrite lookup_set. destruct Hn as [name v Hp Hv|name Hp Hv|f args v Hf Ha Hv|f args v Hf Ha Hv ->]; rewrite Hv; [done| |done|].
  - unfold is_function_call. assert (contains_char (chr "(") name = false) as ->; [|done].
    apply not_true_is_false. intros Hin%contains_char_elem. unfold plain_name in Hp. rewrite Forall_forall in Hp. by destruct (Hp _ Hin).
  - unfold is_function_call, paren_depth. rewrite foldl_app, (paren_depth_paired f) by by apply plain_paired.
    cbn [app foldl N.eqb Pos.eqb]. rewrite foldl_app, (paren_depth_paired args) by done. cbn [foldl N.eqb Pos.eqb].
    change (chr "(" :: args ++ lit ")") with (lit "(" ++ args ++ lit ")").
    assert (contains_char (chr "(") (f ++ lit "(" ++ args ++ lit ")") = true) as ->
      by (apply contains_char_elem; set_solver).
    change (0 + 1 - 1 =? 0)%Z with true. cbn [andb]. unfold call_function, split_function_call.
    assert (split_once (chr "(") (f ++ lit "(" ++ args ++ lit ")") = Some (f, args ++ lit ")")) as ->.
    { apply split_once_Some. split; [done|]. intros Hin. unfold plain_name in Hf. rewrite Forall_forall in Hf. by destruct (Hf _ Hin). }
    cbn [mbind option_bind]. rewrite strip_suffix_app. cbn [mbind option_bind].
    destruct channel as [ch|], (find_function f) as [g|]; done.
Qed.

Lemma parse_i32_show_all n : i32_ok n → parse_i32 (show_int n) = Some n.
Proof.
  intros Hn. unfold i32_ok in Hn. destruct (Z.ltb_spec n 0); [|apply parse_i32_show; lia].
  unfold show_int. rewrite (proj2 (Z.ltb_lt n 0)) by done. unfold parse_i32.
  change (chr "-" :: show_nonneg (- n)) with (lit "-" ++ show_nonneg (- n)). rewrite strip_prefix_app.
  destruct (show_nonneg_spec (- n)) as (d & ds & E & _ & Hp); [lia|]. rewrite E.
  change (parse_nonempty (d :: ds)) with (parse_digits 0%Z (d :: ds)). rewrite Hp. cbn [fmap option_fmap option_map mbind option_bind].
  rewrite (proj2 (Z.leb_le _ _)), (proj2 (Z.ltb_lt _ _)) by lia. cbn [andb]. f_equal. lia.
Qed.

Lemma show_int_no_colon n : chr ":" ∉ show_int n.
Proof.
  unfold show_int. destruct (Z.ltb_spec n 0).
  - intros [Hc|Hin]%elem_of_cons; [done|]. assert (0 ≤ - n)%Z as Hn by lia.
    assert (show_nonneg (- n) = show_int (- n)) as E by (unfold show_int; by rewrite (proj2 (Z.ltb_ge _ _))).
    rewrite E in Hin. by apply elem_of_show_int in Hin.
  - intros Hin. assert (show_nonneg n = show_int n) as E by (unfold show_int; by rewrite (proj2 (Z.ltb_ge _ _))).
    rewrite E in Hin. by apply elem_of_show_int in Hin.
Qed.

Lemma substring_rest v o :
  substring_spec v o i32_max = substring_spec v o (Z.of_nat (length v)) ∨ (i32_max < Z.of_nat (length v))%Z.
Proof.
  unfold substring_spec. destruct (Z.ltb_spec i32_max (Z.of_nat (length v))); [by right|left].
  assert (0 ≤ i32_max)%Z by done.
  rewrite (proj2 (Z.ltb_ge i32_max 0)) by lia. set (n := Z.of_nat (length v)) in *.
  assert (0 ≤ n)%Z by lia. rewrite (proj2 (Z.ltb_ge n 0)) by lia.
  destruct (Z.ltb_spec o 0); do 2 f_equal; lia.
Qed.

Lemma variable_value_means `{FuncRegistry} channel headp x v :
  var_means channel headp x v → variable_value channel headp x = Done v.
Proof.
  intros Hm. unfold variable_value, parse_variable_name_with_substring. destruct Hm as [name v Hn|name v o Hn Ha Hlen Ho|name v o l Hn Ha Hlen Ho Hl].
  - pose proof (split_name_named channel headp name v [] [] Hn) as E. rewrite app_nil_r in E. rewrite E. cbn [split_name].
    by rewrite (lookup_named _ _ _ _ Hn).
  - rewrite (split_name_named channel headp name v _ _ Hn). cbn [app split_name N.eqb Pos.eqb andb Nat.eqb].
    assert (splitn 2 (chr ":") (show_int o) = [show_int o]) as ->.
    { cbn [splitn]. destruct (split_once _ _) as [[a b]|] eqn:E; [|done]. apply split_once_Some in E as [E _].
      destruct (show_int_no_colon o). rewrite E. set_solver. }
    cbn [head mbind option_bind lookup list_lookup]. rewrite parse_i32_show_all by done. cbn [default from_option].
    rewrite (lookup_named _ _ _ _ Hn). unfold Datatypes.id. unfold i32_ok in Ho.
    destruct (apply_substring_correct v o i32_max Ha Hlen) as [-> _]; [unfold i32_max; lia|done|].
    destruct (substring_rest v o) as [->|]; [done|lia].
  - rewrite (split_name_named channel headp name v _ _ Hn). cbn [app split_name N.eqb Pos.eqb andb Nat.eqb].
    assert (splitn 2 (chr ":") (show_int o ++ chr ":" :: show_int l) = [show_int o; show_int l]) as ->.
    { cbn [splitn]. rewrite (proj2 (split_once_Some (chr ":") _ (show_int o) (show_int l))); [done|].
      split; [done|apply show_int_no_colon]. }
    cbn [head mbind option_bind lookup list_lookup]. rewrite !parse_i32_show_all by done. cbn [default from_option].
    rewrite (lookup_named _ _ _ _ Hn). unfold Datatypes.id. unfold i32_ok in *.
    destruct (apply_substring_correct v o l Ha Hlen) as [-> _]; [unfold i32_max; lia|unfold i32_max; lia|done].
Qed.

Lemma expression_value_means `{RegexEngine} x v : expr_means x v → expression_value x = Done v.
Proof. unfold expression_value. by destruct 1 as [x v ->|x e ->]. Qed.

Lemma expand_means `{FuncRegistry, RegexEngine} channel headp t y :
  means channel headp t y → expand channel headp t = Done y.
Proof.
  induction 1 as [|c r y _ IH|a r name v y _ IHa Hv _ IH|a r x v y _ IHa Hv _ IH]; cbn [expand]; [done| | |].
  - by rewrite IH.
  - rewrite IHa. cbn [outcome_bind]. rewrite (variable_value_means _ _ _ _ Hv). cbn [outcome_bind]. by rewrite IH.
  - rewrite IHa. cbn [outcome_bind]. rewrite (expression_value_means _ _ Hv). cbn [outcome_bind]. by rewrite IH.
Qed.

(** C32: substitution gives a template its meaning.  A template is text, references and
    expressions nested at most [MAX_SUBSTITUTE_DEPTH] deep: no [$] in it but that of a
    reference or expression, no brace in a reference but that of another, and in an
    expression double quotes in pairs, and brackets only in quotes.  Whatever the
    channel, the variables, the dialplan functions and the regex engine, substituting into
    the text of a template yields what it means: text is kept; contents come first; a
    reference is the value set for its name, by the channel before its variables before
    those given beside it, or else what the dialplan function of that name returns, or else
    empty; with an offset and a length, that part of an ASCII value; an expression is its
    result, or [0] when it is in error; and all of these are inserted verbatim, never read
    again. *)
Theorem substitute_expands_template `{FuncRegistry, RegexEngine} channel headp t y :
  template_ok t = true → (depth t ≤ MAX_SUBSTITUTE_DEPTH)%nat → means channel headp t y →
  substitute_variables_full channel headp (render t) = Done y.
Proof.
  intros Hok Hd Hm. rewrite <-(expand_means _ _ _ _ Hm). unfold substitute_variables_full, MAX_SUBSTITUTE_DEPTH in *.
  rewrite substitute_recursive_S. by apply scan_render.
Qed.

(** Text, then a template. *)
Definition text (x : str) (t : template) : template := foldr TChar t x.

Lemma means_text `{FuncRegistry, RegexEngine} channel headp x t y :
  means channel headp t y → means channel headp (text x t) (x ++ y).
Proof. intros Ht. induction x as [|c x IH]; [done|]. by constructor. Qed.

Lemma means_just `{FuncRegistry, RegexEngine} channel headp x : means channel headp (text x TNil) x.
Proof. rewrite <-(app_nil_r x) at 2. apply means_text. constructor. Qed.

(** As in a GotoIf, and then a name in a variable, a part of a value, and a value that
    looks like a reference. *)
Definition ex_template : template :=
  TExpr (text [34] (TVar (text (lit "A") TNil) (text ([34] ++ lit " = " ++ [34] ++ lit "12]45" ++ [34]) TNil)))
    (text (lit "?10:20 ") (TVar (TVar (text (lit "B") TNil) (text (lit ":-3:2") TNil))
      (text (lit "}") (TVar (text (lit "C") TNil) (TVar (text (lit "UNSET(a:b)") TNil) TNil))))).

Lemma substitute_expands_template_witness :
  render ex_template = lit "$[" ++ [34] ++ lit "${A}" ++ [34] ++ lit " = " ++ [34] ++ lit "12]45" ++ [34]
                         ++ lit "]?10:20 ${${B}:-3:2}}${C}${UNSET(a:b)}"
  ∧ @substitute_variables_full no_functions literal_engine None (Some ex_vars) (render ex_template)
    = Done (lit "0?10:20 34}${A}").
Proof.
  split; [vm_compute; reflexivity|].
  assert (∀ x v, plain_name x → ex_vars !! x = Some v → @name_means no_functions None (Some ex_vars) x v) as Hset.
  { intros x v Hx Hv. apply named_value; [exact Hx|exact Hv]. }
  assert (@name_means no_functions None (Some ex_vars) (lit "A") (lit "12345")) as HA
    by (apply Hset; [repeat constructor; vm_compute; discriminate|vm_compute; reflexivity]).
  assert (@name_means no_functions None (Some ex_vars) (lit "B") (lit "A")) as HB
    by (apply Hset; [repeat constructor; vm_compute; discriminate|vm_compute; reflexivity]).
  assert (@name_means no_functions None (Some ex_vars) (lit "C") (lit "${A}")) as HC
    by (apply Hset; [repeat constructor; vm_compute; discriminate|vm_compute; reflexivity]).
  assert (@name_means no_functions None (Some ex_vars) (lit "UNSET(a:b)") []) as HU.
  { apply (@named_call no_functions None (Some ex_vars) (lit "UNSET") (lit "a:b") []);
      [repeat constructor; vm_compute; discriminate|repeat constructor; vm_compute; discriminate
      |vm_compute; reflexivity|reflexivity]. }
  assert (@means no_functions literal_engine None (Some ex_vars) ex_template (lit "0?10:20 34}${A}")) as Hm.
  { apply (@means_expr no_functions literal_engine None (Some ex_vars) _ _
      ([34] ++ lit "12345" ++ [34] ++ lit " = " ++ [34] ++ lit "12]45" ++ [34]) (lit "0") (lit "?10:20 34}${A}")).
    - apply means_text. apply (@means_var no_functions literal_engine None (Some ex_vars) _ _ (lit "A") (lit "12345"));
        [apply means_just|by apply means_whole|apply means_just].
    - apply means_result. vm_compute. reflexivity.
    - apply (means_text None (Some ex_vars) (lit "?10:20 ") _ (lit "34}${A}")).
      apply (@means_var no_functions literal_engine None (Some ex_vars) _ _ (lit "A:-3:2") (lit "34") (lit "}${A}")).
      + apply (@means_var no_functions literal_engine None (Some ex_vars) _ _ (lit "B") (lit "A") (lit ":-3:2"));
          [apply means_just|by apply means_whole|apply means_just].
      + apply (@means_part no_functions None (Some ex_vars) (lit "A") (lit "12345") (-3) 2 HA);
          [reflexivity|vm_compute; discriminate|split; [vm_compute; discriminate|vm_compute; reflexivity]..].
      + apply (means_text None (Some ex_vars) (lit "}") _ (lit "${A}")).
        apply (@means_var no_functions literal_engine None (Some ex_vars) _ _ (lit "C") (lit "${A}") []);
          [apply means_just|by apply means_whole|].
        apply (@means_var no_functions literal_engine None (Some ex_vars) _ _ (lit "UNSET(a:b)") [] []);
          [apply means_just|by apply means_whole|constructor]. }
  exact (@substitute_expands_template no_functions literal_engine None (Some ex_vars) ex_template _
    eq_refl ltac:(vm_compute; lia) Hm).
Defined.

Lemma apply_substring_correct_witness :
  (is_ascii (lit "12345") = true ∧ substring_spec (lit "12345") (-3) 2 = lit "34")
  ∧ apply_substring (lit "12345") (-3) 2 = Done (substring_spec (lit "12345") (-3) 2)
  ∧ apply_substring [233; 116; 233] 0 1 = Panic.
Proof.
  split; [by vm_compute|].
  assert (H := apply_substring_correct (lit "12345") (-3) 2).
  destruct H as [H1 H2]; [reflexivity|vm_compute; discriminate|split; vm_compute; discriminate|
    split; vm_compute; discriminate|].
  split; [exact H1|]. apply (H2 233 [116; 233]); vm_compute; discriminate.
Defined.
