(* ===== verification/PbxApps.v ===== *)
(** * Dialplan applications ([asterisk-apps]: [goto.rs], [hangup.rs], [set.rs],
    the result mapping of [adapter.rs]; [asterisk-core/src/pbx/app_registry.rs])

    The registry is the interface [AppRegistry]: an application is a function of
    a world (whatever state the applications share), the channel and the
    argument text.  [core_apps] registers the applications modelled here. *)

From Stdlib Require Import ZArith NArith Ascii String.
From S2P Require Import Prelude RustStr Types Channel Dialplan.
Local Open Scope N_scope.
Local Open Scope list_scope.

Inductive PbxExecResult := ExecSuccess | ExecFailed | ExecHangup.

Definition map_result (r : PbxExecResult) : PbxResult :=
  match r with
  | ExecSuccess => PbxSuccess
  | ExecFailed => PbxFailed
  | ExecHangup => PbxFailed
  end.

Definition app_fn (W : Type) : Type :=
  W → Channel → str → W * Channel * list ChannelEvent * PbxResult.

(** [APP_REGISTRY.find(name)] *)
Class AppRegistry (W : Type) := find_app : str → option (app_fn W).

(** ** Goto *)

Record GotoTarget := mkGoto {
  gt_context : option str; gt_extension : option str; gt_priority : str }.

Definition goto_parse (args : str) : option GotoTarget :=
  match trim <$> split (chr ",") args with
  | [p] => Some (mkGoto None None p)
  | [e; p] => Some (mkGoto None (Some e) p)
  | [c; e; p] => Some (mkGoto (Some c) (Some e) p)
  | _ => None
  end.

Definition goto_exec (c : Channel) (args : str) : Channel * list ChannelEvent * PbxExecResult :=
  match goto_parse args with
  | None => (c, [], ExecFailed)
  | Some target =>
      let prio :=
        match parse_i32 (gt_priority target) with
        | Some p => p
        | None =>
            if eq_ignore_ascii_case (gt_priority target) (lit "n")
            then i32_succ (chan_priority c) else 1%Z
        end in
      (set_location c (default (context c) (gt_context target))
         (default (exten c) (gt_extension target)) prio, [], ExecSuccess)
  end.

(** ** Hangup *)

Definition hangup_cause_from_code (code : Z) : HangupCause :=
  match code with
  | 0 => HcNotDefined | 1 => HcUnallocatedNumber | 2 => HcNoRouteTransitNet
  | 3 => HcNoRouteDestination | 6 => HcChannelUnacceptable | 16 => HcNormalClearing
  | 17 => HcUserBusy | 18 => HcNoUserResponse | 19 => HcNoAnswer | 20 => HcSubscriberAbsent
  | 21 => HcCallRejected | 22 => HcNumberChanged | 27 => HcDestinationOutOfOrder
  | 28 => HcInvalidNumberFormat | 31 => HcNormalUnspecified | 34 => HcNormalCircuitCongestion
  | 38 => HcNetworkOutOfOrder | 41 => HcNormalTemporaryFailure | 42 => HcSwitchCongestion
  | 127 => HcInterworking
  | _ => HcNormalClearing
  end%Z.

Definition hangup_exec (c : Channel) (args : str) : Channel * list ChannelEvent * PbxExecResult :=
  let cause := match args with
               | [] => HcNormalClearing
               | _ => match parse_u32 (trim args) with
                      | Some code => hangup_cause_from_code code
                      | None => HcNormalClearing
                      end
               end in
  (softhangup (set_status c (chan_state c) cause) AST_SOFTHANGUP_EXPLICIT, [], ExecSuccess).

(** ** Set and MSet *)

Definition set_exec (c : Channel) (args : str) : Channel * list ChannelEvent * PbxExecResult :=
  match trim args with
  | [] => (c, [], ExecFailed)
  | _ =>
      match split_once (chr "=") args with
      | Some (n, v) => let (c', ev) := set_variable c (trim n) (trim v) in (c', ev, ExecSuccess)
      | None => (c, [], ExecFailed)
      end
  end.

(** One turn of the loop over the assignments. *)
Definition mset_assign (cev : Channel * list ChannelEvent) (assignment : str)
    : Channel * list ChannelEvent :=
  match trim assignment with
  | [] => cev
  | a =>
      match split_once (chr "=") a with
      | Some (n, v) =>
          let (c', ev) := set_variable cev.1 (trim n) (trim v) in (c', cev.2 ++ ev)
      | None => cev
      end
  end.

Definition mset_exec (c : Channel) (args : str) : Channel * list ChannelEvent * PbxExecResult :=
  match trim args with
  | [] => (c, [], ExecFailed)
  | _ =>
      let (c', ev) := foldl mset_assign (c, []) (split (chr ",") args) in
      (c', ev, ExecSuccess)
  end.

(** ** The registry with these applications *)

(** The adapter around an [exec] function. *)
Definition adapt {W} (f : Channel → str → Channel * list ChannelEvent * PbxExecResult)
    : app_fn W :=
  λ w c args, let '(c', ev, r) := f c args in (w, c', ev, map_result r).

Definition core_apps {W} : AppRegistry W := λ name,
  if str_eqb name (lit "Goto") then Some (adapt goto_exec)
  else if str_eqb name (lit "Hangup") then Some (adapt hangup_exec)
  else if str_eqb name (lit "Set") then Some (adapt set_exec)
  else if str_eqb name (lit "MSet") then Some (adapt mset_exec)
  else None.

(** The causes an explicit [Hangup(n)] cannot give. *)
Definition hangup_cause_settable (x : HangupCause) : bool :=
  match x with
  | HcBearerCapNotAvail | HcBearerCapNotImplemented | HcFacilityNotImplemented
  | HcFailure | HcNoSuchDriver => false
  | _ => true
  end.

Lemma hangup_cause_code_range x : (0 ≤ hangup_cause_code x < 2 ^ 32)%Z.
Proof. destruct x; simpl; lia. Qed.
