(* ===== verification/PbxExec.v ===== *)
(** * The dialplan execution loop ([asterisk-core/src/pbx/exec.rs])

    [pbx_run]: the main loop with its iteration limit, the special extensions
    [i], [t] and [e], the hangup extension [h] and the final hangup.  The
    applications are those of an [AppRegistry]; nothing but them changes the
    channel while the loop runs.  [priority += 1] wraps, as in a release build.
    What happens is recorded in a trace.

    The theorems: the main loop always ends, within 10 000 priorities, whatever
    the applications do; a straight-line extension executes its priorities in
    order; the special extensions are tried in the documented order; the run
    ends with the channel down and the cause an application set; the hangup
    extension ends when its applications keep the location, and can run for ever
    when one does not. *)

From Stdlib Require Import ZArith NArith Ascii String.
From S2P Require Import Prelude RustStr HashMap Types Channel Dialplan Expression Substitute PbxApps.
Local Open Scope Z_scope.
Local Open Scope list_scope.

Inductive PbxRunResult := RunSuccess | RunFailed | RunCallLimit.

Definition PBX_MAX_ITERATIONS : Z := 10000.

(** What a run does, in order. *)
Inductive PbxEvent :=
  | Newexten (uid ctx ext : str) (prio : Z) (app data : str)
  | Execute (app data : str)
  | Emitted (e : ChannelEvent).

Record Run (W : Type) := mkRun {
  world : W;
  chan : Channel;
  found : bool;
  error : bool;
  iterations : Z;
  trace : list PbxEvent }.
Arguments mkRun {W}.
Arguments world {W}.
Arguments chan {W}.
Arguments found {W}.
Arguments error {W}.
Arguments iterations {W}.
Arguments trace {W}.

Section setters.
Context {W : Type}.
Implicit Types s : Run W.

Definition set_chan s (c : Channel) : Run W :=
  mkRun (world s) c (found s) (error s) (iterations s) (trace s).
Definition set_found s : Run W :=
  mkRun (world s) (chan s) true (error s) (iterations s) (trace s).
Definition set_error s : Run W :=
  mkRun (world s) (chan s) (found s) true (iterations s) (trace s).
Definition count_iteration s : Run W :=
  mkRun (world s) (chan s) (found s) (error s) (iterations s + 1) (trace s).
Definition log s (es : list PbxEvent) : Run W :=
  mkRun (world s) (chan s) (found s) (error s) (iterations s) (trace s ++ es).
End setters.

(** How a turn of the inner loop ends. *)
Inductive flow := Continue | Break | BreakOuter.

Definition incr_priority (c : Channel) : Channel :=
  set_exten c (exten c) (i32_succ (chan_priority c)).

Definition location (c : Channel) : str * str * Z := (context c, exten c, chan_priority c).

Section exec.
Context {W : Type} `{AppRegistry W, FuncRegistry, RegexEngine, HashOrder}.
Variable dialplan : Dialplan.
Implicit Types s : Run W.

Definition has_extension (ctx ext : str) : bool :=
  bool_decide (is_Some (find_extension dialplan ctx ext)).

Definition execute (app : app_fn W) (name data : str) (s : Run W) : PbxResult * Run W :=
  let '(w, c, evs, r) := app (world s) (chan s) data in
  (r, mkRun w c (found s) (error s) (iterations s)
        (trace s ++ Execute name data :: (Emitted <$> evs))).

(** The end of a turn: what the result of the application leads to. *)
Definition after_execute (ctx ext : str) (prio : Z) (r : PbxResult) (s : Run W)
    : flow * Run W :=
  match r with
  | PbxSuccess =>
      if check_hangup (chan s) then
        if negb (Z.land (softhangup_flags (chan s)) AST_SOFTHANGUP_ASYNCGOTO =? 0) then
          (Continue, set_chan s (clear_softhangup (chan s) AST_SOFTHANGUP_ASYNCGOTO))
        else (BreakOuter, s)
      else if negb (bool_decide (location (chan s) = (ctx, ext, prio))) then (Continue, s)
      else (Continue, set_chan s (incr_priority (chan s)))
  | PbxFailed =>
      if negb (str_eqb ext (lit "e")) && has_extension ctx (lit "e") then
        (Continue, set_chan s (set_exten (chan s) (lit "e") 1))
      else (Break, set_error s)
  | PbxIncomplete => (Break, s)
  end.

Definition lookup_priority (ctx ext : str) (prio : Z) : option Priority :=
  '(_, e) ← find_extension dialplan ctx ext; get_priority e prio.

(** One turn of the inner loop. *)
Definition iteration (s : Run W) : outcome (flow * Run W) :=
  let s := count_iteration s in
  if PBX_MAX_ITERATIONS <? iterations s then Done (BreakOuter, set_error s)
  else
    let c := chan s in
    let '(ctx, ext, prio) := location c in
    match lookup_priority ctx ext prio with
    | None => Done (Break, s)
    | Some p =>
        let s := log (set_found s)
                   [Newexten (unique_id c) ctx ext prio (app p) (app_data p)] in
        let! data := substitute_variables (chan s) (app_data p) in
        match find_app (app p) with
        | None => Done (Break, set_error s)
        | Some f =>
            let (r, s) := execute f (app p) data s in
            Done (after_execute ctx ext prio r s)
        end
    end.

(** The block after the inner loop; [Some]: go round the outer loop again. *)
Definition special_extension (s : Run W) : option (Run W) :=
  let ctx := context (chan s) in
  let ext := exten (chan s) in
  if negb (found s) && negb (error s) then
    if has_extension ctx (lit "i") then
      let (c, evs) := set_variable (chan s) (lit "INVALID_EXTEN") ext in
      Some (set_chan (log s (Emitted <$> evs)) (set_exten c (lit "i") 1))
    else if has_extension ctx (lit "t") then
      Some (set_chan s (set_exten (chan s) (lit "t") 1))
    else None
  else None.

(** The two nested loops; [None] when the fuel is out. *)
Fixpoint loop (fuel : nat) (s : Run W) : option (outcome (Run W)) :=
  match fuel with
  | O => None
  | S fuel' =>
      match iteration s with
      | Panic => Some Panic
      | Done (Continue, s') => loop fuel' s'
      | Done (BreakOuter, s') => Some (Done s')
      | Done (Break, s') =>
          match special_extension s' with
          | Some s'' => loop fuel' s''
          | None => Some (Done s')
          end
      end
  end.

Definition LOOP_FUEL : nat := S (Z.to_nat PBX_MAX_ITERATIONS).

(** One turn of the loop of [run_hangup_extension]; [None]: it breaks. *)
Definition hangup_iteration (s : Run W) : option (outcome (Run W)) :=
  let c := chan s in
  p ← lookup_priority (context c) (lit "h") (chan_priority c);
  Some (
    let! data := substitute_variables c (app_data p) in
    let s := match find_app (app p) with
             | Some f => snd (execute f (app p) data s)
             | None => s
             end in
    Done (set_chan s (incr_priority (chan s)))).

Fixpoint hangup_loop (fuel : nat) (s : Run W) : option (outcome (Run W)) :=
  match fuel with
  | O => None
  | S fuel' =>
      match hangup_iteration s with
      | None => Some (Done s)
      | Some Panic => Some Panic
      | Some (Done s') => hangup_loop fuel' s'
      end
  end.

Definition run_hangup_extension (fuel : nat) (s : Run W) : option (outcome (Run W)) :=
  if has_extension (context (chan s)) (lit "h")
  then hangup_loop fuel (set_chan s (set_exten (chan s) (lit "h") 1))
  else Some (Done s).

Definition final_hangup (s : Run W) : Run W :=
  let cause := if bool_decide (hangup_cause (chan s) = HcNotDefined) then HcNormalClearing
               else hangup_cause (chan s) in
  let (c, evs) := hangup (chan s) cause in
  set_chan (log s (Emitted <$> evs)) c.

Definition pbx_start (w : W) (c : Channel) : Run W :=
  let c := if str_eqb (exten c) [] then set_exten c (lit "s") 1 else c in
  mkRun w c false false 0 [].

(** [fuel] bounds the hangup extension, the only loop without a limit. *)
Definition pbx_run (fuel : nat) (w : W) (c : Channel)
    : option (outcome (PbxRunResult * Run W)) :=
  o ← loop LOOP_FUEL (pbx_start w c);
  match o with
  | Panic => Some Panic
  | Done s =>
      o' ← run_hangup_extension fuel s;
      Some (let! s' := o' in
            Done (if found s || error s then RunSuccess else RunFailed, final_hangup s'))
  end.

Definition pbx_exec_application (w : W) (c : Channel) (app_name app_args : str)
    : outcome (W * Channel * list ChannelEvent * PbxResult) :=
  let! args := substitute_variables c app_args in
  Done (match find_app app_name with
        | Some f => f w c args
        | None => (w, c, [], PbxFailed)
        end).
End exec.

(** ** Specifications *)

Definition is_newexten (e : PbxEvent) : bool := match e with Newexten _ _ _ _ _ _ => true | _ => false end.
Definition is_execute (e : PbxEvent) : bool := match e with Execute _ _ => true | _ => false end.
Definition count_events (p : PbxEvent → bool) (tr : list PbxEvent) : nat :=
  length (List.filter p tr).

(** A straight-line extension as its author reads it: every application in
    turn, on the channel the previous one left. *)
Section straight_line.
Context {W : Type} `{AppRegistry W, FuncRegistry, RegexEngine}.

Fixpoint run_priorities (ps : list Priority) (w : W) (c : Channel)
    : option (W * Channel * list PbxEvent) :=
  match ps with
  | [] => Some (w, c, [])
  | p :: ps' =>
      match substitute_variables c (app_data p), find_app (app p) with
      | Done data, Some f =>
          let '(w', c', evs, r) := f w c data in
          if bool_decide (r = PbxSuccess) && negb (check_hangup c')
             && bool_decide (location c' = location c)
          then
            '(w'', c'', tr) ← run_priorities ps' w' (incr_priority c');
            Some (w'', c'',
              Newexten (unique_id c) (context c) (exten c) (chan_priority c) (app p) (app_data p)
              :: Execute (app p) data :: (Emitted <$> evs) ++ tr)
          else None
      | _, _ => None
      end
  end.
End straight_line.

(** ** Lemmas *)

Lemma count_events_app p tr tr' :
  count_events p (tr ++ tr') = (count_events p tr + count_events p tr')%nat.
Proof. unfold count_events. by rewrite List.filter_app, length_app. Qed.

Lemma count_events_emitted p evs :
  (∀ e, p (Emitted e) = false) → count_events p (Emitted <$> evs) = 0%nat.
Proof. intros Hp. unfold count_events. induction evs as [|e evs IH]; simpl; [done|]. by rewrite Hp. Qed.

Section exec_proofs.
Context {W : Type} `{AppRegistry W, FuncRegistry, RegexEngine, HashOrder}.
Variable dialplan : Dialplan.
Implicit Types s : Run W.

(** The priorities entered and the applications executed so far. *)
Definition bounded s : Prop :=
  Z.of_nat (count_events is_newexten (trace s)) ≤ iterations s `min` PBX_MAX_ITERATIONS
  ∧ (count_events is_execute (trace s) ≤ count_events is_newexten (trace s))%nat.

Lemma after_execute_fields ctx ext prio r s :
  iterations (after_execute dialplan ctx ext prio r s).2 = iterations s
  ∧ trace (after_execute dialplan ctx ext prio r s).2 = trace s.
Proof. unfold after_execute. repeat case_match; done. Qed.

Lemma special_extension_fields s s' :
  special_extension dialplan s = Some s' →
  iterations s' = iterations s ∧ (bounded s → bounded s').
Proof.
  unfold special_extension, bounded. intros Hs. repeat case_match; simplify_eq/=; split; auto.
  rewrite !count_events_app, !count_events_emitted by done. lia.
Qed.

Lemma iteration_bounded s fl s' :
  iteration dialplan s = Done (fl, s') → bounded s → 0 ≤ iterations s →
  bounded s' ∧ iterations s' = iterations s + 1
  ∧ (PBX_MAX_ITERATIONS < iterations s' → fl = BreakOuter ∧ error s' = true).
Proof.
  unfold iteration. simpl. intros Hi [Hb1 Hb2] Hn.
  destruct (Z.ltb_spec PBX_MAX_ITERATIONS (iterations s + 1)).
  { simplify_eq/=. unfold bounded. simpl. split_and!; auto; lia. }
  destruct (lookup_priority _ _ _ _) as [p|]; [|simplify_eq/=; unfold bounded; simpl; split_and!; intros; lia].
  apply outcome_bind_Done in Hi as (data & _ & Hi).
  destruct (find_app (app p)) as [f|].
  2: { simplify_eq/=. unfold bounded. simpl. rewrite !count_events_app.
       unfold count_events at 2 4 6. simpl. split_and!; intros; lia. }
  unfold execute in Hi. simpl in Hi.
  destruct (f (world s) (chan s) data) as [[[w c] evs] r].
  injection Hi as Hi. apply (f_equal snd) in Hi as Hs. simpl in Hs.
  pose proof (after_execute_fields (context (chan s)) (exten (chan s)) (chan_priority (chan s))
    r (mkRun w c true (error s) (iterations s + 1)
      ((trace s ++ [Newexten (unique_id (chan s)) (context (chan s)) (exten (chan s))
                      (chan_priority (chan s)) (app p) (app_data p)])
        ++ Execute (app p) data :: (Emitted <$> evs)))) as [E1 E2].
  rewrite Hs in E1, E2. unfold bounded. rewrite E1, E2. simpl.
  rewrite !count_events_app.
  change (count_events is_newexten (Execute (app p) data :: (Emitted <$> evs)))
    with (count_events is_newexten (Emitted <$> evs)).
  change (count_events is_execute (Execute (app p) data :: (Emitted <$> evs)))
    with (S (count_events is_execute (Emitted <$> evs))).
  rewrite !count_events_emitted by done.
  unfold count_events at 2 4 6. simpl. split_and!; intros; lia.
Qed.

Lemma loop_bounded fuel s :
  bounded s → 0 ≤ iterations s → PBX_MAX_ITERATIONS < iterations s + Z.of_nat fuel →
  iterations s ≤ PBX_MAX_ITERATIONS →
  ∃ o, (∀ fuel', (fuel ≤ fuel')%nat → loop dialplan fuel' s = Some o)
       ∧ ∀ s', o = Done s' → bounded s' ∧ (PBX_MAX_ITERATIONS < iterations s' → error s' = true).
Proof.
  revert s. induction fuel as [|fuel IH]; intros s Hb Hn Hf Hm; [lia|].
  destruct (iteration dialplan s) as [[fl s']|] eqn:Ei.
  2: { exists Panic. split; [|done]. intros [|fuel'] ?; [lia|]. simpl. by rewrite Ei. }
  pose proof (iteration_bounded _ _ _ Ei Hb Hn) as (Hb' & Hn' & Hm').
  assert (Hstop : fl = BreakOuter ∨ iterations s' ≤ PBX_MAX_ITERATIONS).
  { destruct (Z.le_gt_cases (iterations s') PBX_MAX_ITERATIONS); [by right|].
    left. by apply Hm'. }
  destruct fl.
  - destruct Hstop as [|Hstop]; [done|].
    destruct (IH s' Hb') as (o & Ho & Hs); [lia..|]. exists o. split; [|done].
    intros [|fuel'] ?; [lia|]. simpl. rewrite Ei. apply Ho. lia.
  - destruct Hstop as [|Hstop]; [done|].
    destruct (special_extension dialplan s') as [s''|] eqn:Es.
    + apply special_extension_fields in Es as E. destruct E as [E1 E2].
      destruct (IH s'') as (o & Ho & Hs); [auto|lia..|]. exists o. split; [|done].
      intros [|fuel'] ?; [lia|]. simpl. rewrite Ei, Es. apply Ho. lia.
    + exists (Done s'). split.
      * intros [|fuel'] ?; [lia|]. simpl. by rewrite Ei, Es.
      * intros ? [= <-]. split; [done|lia].
  - exists (Done s'). split.
    + intros [|fuel'] ?; [lia|]. simpl. by rewrite Ei.
    + intros ? [= <-]. split; [done|]. intros. by apply Hm'.
Qed.
End exec_proofs.

(** The main loop of [pbx_run] always ends.  For every dialplan, every set
    of applications whatever they do to the channel (jumps in circles
    included), every channel and world: the loop returns (or a substitution
    panics), the limit of 10 000 turns is enough whatever larger fuel it is
    given, at most 10 000 priorities are entered, at most as many applications
    are executed, and running into the limit is reported as an error. *)
Theorem pbx_loop_bounded {W} `{AppRegistry W, FuncRegistry, RegexEngine, HashOrder}
    (dialplan : Dialplan) (w : W) (c : Channel) :
  ∃ o, loop dialplan LOOP_FUEL (pbx_start w c) = Some o
    ∧ (∀ fuel, (LOOP_FUEL ≤ fuel)%nat → loop dialplan fuel (pbx_start w c) = Some o)
    ∧ ∀ s, o = Done s →
        Z.of_nat (count_events is_newexten (trace s)) ≤ PBX_MAX_ITERATIONS
        ∧ (count_events is_execute (trace s) ≤ count_events is_newexten (trace s))%nat
        ∧ (PBX_MAX_ITERATIONS < iterations s → error s = true).
Proof.
  destruct (loop_bounded dialplan LOOP_FUEL (pbx_start w c)) as (o & Ho & Hs).
  - split; [by vm_compute|done].
  - done.
  - unfold LOOP_FUEL. simpl iterations. rewrite Nat2Z.inj_succ, Z2Nat.id by done. lia.
  - unfold PBX_MAX_ITERATIONS. simpl. lia.
  - exists o. split_and!; [by apply Ho|done|]. intros s Es.
    destruct (Hs s Es) as [[Hb1 Hb2] He]. split_and!; [lia|done|done].
Qed.

Lemma i32_succ_id n : - 2 ^ 31 ≤ n < 2 ^ 31 - 1 → i32_succ n = n + 1.
Proof. intros. unfold i32_succ. rewrite Z.mod_small by lia. lia. Qed.

Section straight_proofs.
Context {W : Type} `{AppRegistry W, FuncRegistry, RegexEngine, HashOrder}.
Variable dialplan : Dialplan.

Lemma loop_straight ctx ext cx e ps fuel w c w' c' tr tr0 fnd it k :
  find_extension dialplan ctx ext = Some (cx, e) →
  location c = (ctx, ext, k) → 0 < k →
  (∀ j, get_priority e (k + Z.of_nat j) = ps !! j) →
  k + Z.of_nat (length ps) ≤ PBX_MAX_ITERATIONS →
  it + 1 + Z.of_nat (length ps) ≤ PBX_MAX_ITERATIONS → (length ps < fuel)%nat →
  fnd = true ∨ ps ≠ [] →
  run_priorities ps w c = Some (w', c', tr) →
  loop dialplan fuel (mkRun w c fnd false it tr0)
  = Some (Done (mkRun w' c' true false (it + 1 + Z.of_nat (length ps)) (tr0 ++ tr))).
Proof.
  intros Hfind. revert fuel w c tr tr0 fnd it k.
  induction ps as [|p ps IH]; intros fuel w c tr tr0 fnd it k Hloc Hk Hps Hmax Hit Hfuel Hne Hrun;
    (destruct fuel as [|fuel]; [simpl in Hfuel; lia|]); simpl loop; unfold iteration; simpl chan;
    simpl iterations; rewrite Hloc; unfold lookup_priority; rewrite Hfind; simpl;
    pose proof (Hps 0%nat) as Hp0; rewrite Z.add_0_r in Hp0; rewrite Hp0; simpl in Hmax, Hit |- *.
  - destruct (Z.ltb_spec PBX_MAX_ITERATIONS (it + 1)); [lia|].
    destruct Hne as [->|]; [|done]. unfold special_extension. simpl in *. simplify_eq/=.
    rewrite app_nil_r. unfold count_iteration. simpl. do 3 f_equal. lia.
  - destruct (Z.ltb_spec PBX_MAX_ITERATIONS (it + 1)); [lia|].
    simpl in Hrun. destruct (substitute_variables c (app_data p)) as [data|]; [|done].
    destruct (find_app (app p)) as [f|]; [|done]. simpl. unfold execute. simpl.
    destruct (f w c data) as [[[w1 c1] evs] r].
    destruct (_ && _) eqn:Eb in Hrun; [|done].
    apply andb_true_iff in Eb as [[Er Eh]%andb_true_iff El].
    apply bool_decide_eq_true in Er, El. apply negb_true_iff in Eh. subst r.
    destruct (run_priorities ps w1 (incr_priority c1)) as [[[w2 c2] tr2]|] eqn:Er; [|done].
    simpl in Hrun. injection Hrun as <- <- <-. rewrite Hloc in El.
    simpl. rewrite Eh, bool_decide_eq_true_2 by done. simpl.
    assert (chan_priority c1 = k ∧ exten c1 = ext ∧ context c1 = ctx) as (Ek & Ee & Ec)
      by (unfold location in El; by simplify_eq).
    unfold set_chan. simpl.
    erewrite (IH fuel w1 (incr_priority c1) tr2 _ true (it + 1) (k + 1)); [..|exact Er].
    + unfold location in Hloc. injection Hloc as <- <- <-.
      rewrite <-!(assoc_L (++)). simpl. do 3 f_equal. lia.
    + unfold location, incr_priority. simpl.
      rewrite Ek, Ec, Ee, i32_succ_id by (unfold PBX_MAX_ITERATIONS in *; lia). done.
    + lia.
    + intros j. change (ps !! j) with ((p :: ps) !! S j). rewrite <-Hps. f_equal. lia.
    + lia.
    + lia.
    + simpl in Hfuel. lia.
    + by left.
Qed.
End straight_proofs.

(** A straight-line extension runs as written.  If the channel starts at
    priority 1 of an extension whose priorities are exactly [1..n] ([n] positive
    and below the limit), and each application succeeds without moving the
    channel or requesting a hangup, then the loop executes exactly these
    applications, in order, each with its data substituted on the channel the
    previous one left; nothing else happens, and without an [h] extension the
    run then hangs up and reports success. *)
Theorem straight_line_extension {W} `{AppRegistry W, FuncRegistry, RegexEngine, HashOrder}
    (dialplan : Dialplan) ctx ext cx e ps (w : W) c w' c' tr fuel :
  find_extension dialplan ctx ext = Some (cx, e) → ext ≠ [] →
  location c = (ctx, ext, 1) →
  (∀ j, get_priority e (1 + Z.of_nat j) = ps !! j) →
  0 < Z.of_nat (length ps) < PBX_MAX_ITERATIONS →
  run_priorities ps w c = Some (w', c', tr) →
  let s := mkRun w' c' true false (1 + Z.of_nat (length ps)) tr in
  loop dialplan LOOP_FUEL (pbx_start w c) = Some (Done s)
  ∧ (has_extension dialplan (context c') (lit "h") = false →
     pbx_run dialplan fuel w c = Some (Done (RunSuccess, final_hangup s))).
Proof.
  intros Hfind Hext Hloc Hps Hn Hrun. cbv zeta.
  assert (Hl : loop dialplan LOOP_FUEL (pbx_start w c)
    = Some (Done (mkRun w' c' true false (1 + Z.of_nat (length ps)) tr))).
  { unfold pbx_start.
    assert (exten c = ext) as Ee by (unfold location in Hloc; by simplify_eq).
    rewrite (proj2 (str_eqb_false (exten c) [])) by by rewrite Ee.
    rewrite (loop_straight dialplan ctx ext cx e ps LOOP_FUEL w c w' c' tr [] false 0 1); try done.
    - lia.
    - lia.
    - unfold LOOP_FUEL. lia.
    - right. intros ->. simpl in Hn. lia. }
  split; [done|]. intros Hh. unfold pbx_run. rewrite Hl. simpl.
  unfold run_hangup_extension. simpl. by rewrite Hh.
Qed.

(** A context with one extension [1] of the priorities [ps]. *)
Definition ex_extension (ps : list Priority) : Extension :=
  foldl add_priority (ext_new (lit "1")) ps.
Definition ex_dialplan (ps : list Priority) : Dialplan :=
  add_context dp_new (ctx_add_extension (ctx_new (lit "default")) (ex_extension ps)).
Definition ex_up : Channel :=
  set_status (set_exten (channel_new (lit "id") (lit "SIP/a-1")) (lit "1") 1) CsUp HcNotDefined.

Definition ex_sets : list Priority :=
  [mkPriority 1 (lit "Set") (lit "A=12") None; mkPriority 2 (lit "Set") (lit "B=${A}3") None].

Lemma ex_sets_priorities j :
  get_priority (ex_extension ex_sets) (1 + Z.of_nat j) = ex_sets !! j.
Proof.
  destruct j as [|[|j]]; [reflexivity..|].
  unfold get_priority. simpl. by rewrite !lookup_insert_ne by lia.
Qed.

Lemma straight_line_extension_witness :
  match @run_priorities unit core_apps no_functions literal_engine ex_sets tt ex_up with
  | Some (w', c', tr) =>
      variables c' !! lit "B" = Some (lit "123")
      ∧ @loop unit core_apps no_functions literal_engine key_order
          (ex_dialplan ex_sets) LOOP_FUEL (pbx_start tt ex_up)
        = Some (Done (mkRun w' c' true false 3 tr))
  | None => False
  end.
Proof.
  assert (E : ∃ cx, @find_extension key_order (ex_dialplan ex_sets) (lit "default") (lit "1")
                = Some (cx, ex_extension ex_sets)) by (eexists; vm_compute; reflexivity).
  destruct E as [cx Hcx].
  destruct (@run_priorities unit core_apps no_functions literal_engine ex_sets tt ex_up)
    as [[[w' c'] tr]|] eqn:Er; [|by vm_compute in Er].
  split; [by vm_compute in Er; simplify_eq|].
  refine (proj1 (@straight_line_extension unit core_apps no_functions literal_engine key_order
    (ex_dialplan ex_sets) (lit "default") (lit "1") cx (ex_extension ex_sets) ex_sets tt ex_up
    w' c' tr 0 Hcx _ _ ex_sets_priorities _ Er));
    [discriminate|reflexivity|split; reflexivity].
Defined.

Lemma LOOP_FUEL_S : ∃ n, LOOP_FUEL = S n ∧ Z.of_nat n = PBX_MAX_ITERATIONS.
Proof. exists (Z.to_nat PBX_MAX_ITERATIONS). split; [done|]. by rewrite Z2Nat.id. Qed.

(** The channel as it enters the [i] extension. *)
Definition to_invalid (c : Channel) : Channel :=
  set_exten (set_variable c (lit "INVALID_EXTEN") (exten c)).1 (lit "i") 1.

(** A number without a priority to run.  When the dialplan has nothing at
    the channel's location, the [i] extension runs, in place of it and with
    [INVALID_EXTEN] set to the number dialled; when the context has no [i], the
    [t] extension runs; when it has neither, no application is executed and
    the run fails. *)
Theorem special_extensions_in_order {W} `{AppRegistry W, FuncRegistry, RegexEngine, HashOrder}
    (dialplan : Dialplan) ctx ext prio (w : W) c :
  location c = (ctx, ext, prio) → ext ≠ [] → lookup_priority dialplan ctx ext prio = None →
  let straight x cx e ps :=
    find_extension dialplan ctx x = Some (cx, e)
    ∧ (∀ j, get_priority e (1 + Z.of_nat j) = ps !! j)
    ∧ 0 < Z.of_nat (length ps) < PBX_MAX_ITERATIONS - 1 in
  (∀ cx e ps w' c' tr,
     straight (lit "i") cx e ps → run_priorities ps w (to_invalid c) = Some (w', c', tr) →
     loop dialplan LOOP_FUEL (pbx_start w c)
     = Some (Done (mkRun w' c' true false (2 + Z.of_nat (length ps))
                     (Emitted (VarSet (unique_id c) (lit "INVALID_EXTEN") ext) :: tr))))
  ∧ (∀ cx e ps w' c' tr,
     has_extension dialplan ctx (lit "i") = false → straight (lit "t") cx e ps →
     run_priorities ps w (set_exten c (lit "t") 1) = Some (w', c', tr) →
     loop dialplan LOOP_FUEL (pbx_start w c)
     = Some (Done (mkRun w' c' true false (2 + Z.of_nat (length ps)) tr)))
  ∧ (has_extension dialplan ctx (lit "i") = false → has_extension dialplan ctx (lit "t") = false →
     loop dialplan LOOP_FUEL (pbx_start w c) = Some (Done (mkRun w c false false 1 []))
     ∧ (has_extension dialplan ctx (lit "h") = false → ∀ fuel,
        pbx_run dialplan fuel w c
        = Some (Done (RunFailed, final_hangup (mkRun w c false false 1 []))))).
Proof.
  intros Hloc Hext Hnone straight.
  assert (exten c = ext ∧ context c = ctx) as [Ee Ec] by (unfold location in Hloc; by simplify_eq).
  destruct LOOP_FUEL_S as (n & Hfuel & Hfn).
  assert (Hs : pbx_start w c = mkRun w c false false 0 []).
  { unfold pbx_start. by rewrite (proj2 (str_eqb_false (exten c) [])) by by rewrite Ee. }
  assert (Hi : iteration dialplan (pbx_start w c) = Done (Break, mkRun w c false false 1 [])).
  { rewrite Hs. unfold iteration. simpl chan. simpl iterations. rewrite Hloc, Hnone. done. }
  assert (Hhas : ∀ x cx e, find_extension dialplan ctx x = Some (cx, e) →
                 has_extension dialplan ctx x = true).
  { intros x cx e Hx. apply bool_decide_eq_true. by rewrite Hx. }
  split_and!.
  - intros cx e ps w' c' tr (Hf & Hps & Hn) Hrun. rewrite Hfuel. simpl. rewrite Hi.
    unfold special_extension. simpl. rewrite Ec, (Hhas _ _ _ Hf). simpl.
    unfold set_chan, log. simpl.
    rewrite (loop_straight dialplan ctx (lit "i") cx e ps _ w _ w' c' tr _ false 1 1);
      try done; try lia; rewrite ?Ee; try done.
    + unfold location. simpl. by rewrite Ec.
    + right. intros ->. simpl in Hn. lia.
  - intros cx e ps w' c' tr Hni (Hf & Hps & Hn) Hrun. rewrite Hfuel. simpl. rewrite Hi.
    unfold special_extension. simpl. rewrite Ec, Hni, (Hhas _ _ _ Hf). unfold set_chan. simpl.
    rewrite (loop_straight dialplan ctx (lit "t") cx e ps _ w _ w' c' tr _ false 1 1);
      try done; try lia.
    + unfold location. simpl. by rewrite Ec.
    + right. intros ->. simpl in Hn. lia.
  - intros Hni Hnt.
    assert (Hl : loop dialplan LOOP_FUEL (pbx_start w c)
                 = Some (Done (mkRun w c false false 1 []))).
    { rewrite Hfuel. simpl. rewrite Hi. unfold special_extension. simpl. by rewrite Ec, Hni, Hnt. }
    split; [done|]. intros Hh fuel. unfold pbx_run. rewrite Hl. simpl.
    unfold run_hangup_extension. simpl. by rewrite Ec, Hh.
Qed.

Definition ex_invalid_dialplan : Dialplan :=
  add_context dp_new (ctx_add_extension (ctx_new (lit "default"))
    (add_priority (ext_new (lit "i")) (mkPriority 1 (lit "Set") (lit "B=${INVALID_EXTEN}") None))).

Lemma special_extensions_in_order_witness :
  match @run_priorities unit core_apps no_functions literal_engine
          [mkPriority 1 (lit "Set") (lit "B=${INVALID_EXTEN}") None] tt (to_invalid ex_up) with
  | Some (w', c', tr) =>
      variables c' !! lit "B" = Some (lit "1")
      ∧ @loop unit core_apps no_functions literal_engine key_order
          ex_invalid_dialplan LOOP_FUEL (pbx_start tt ex_up)
        = Some (Done (mkRun w' c' true false 3
            (Emitted (VarSet (lit "id") (lit "INVALID_EXTEN") (lit "1")) :: tr)))
  | None => False
  end.
Proof.
  assert (E : ∃ cx e, @find_extension key_order ex_invalid_dialplan (lit "default") (lit "i")
                = Some (cx, e) ∧ e = add_priority (ext_new (lit "i"))
                    (mkPriority 1 (lit "Set") (lit "B=${INVALID_EXTEN}") None))
    by (do 2 eexists; split; vm_compute; reflexivity).
  destruct E as (cx & e & Hcx & ->).
  destruct (@run_priorities unit core_apps no_functions literal_engine _ tt (to_invalid ex_up))
    as [[[w' c'] tr]|] eqn:Er; [|by vm_compute in Er].
  split; [by vm_compute in Er; simplify_eq|].
  refine (proj1 (@special_extensions_in_order unit core_apps no_functions literal_engine key_order
    ex_invalid_dialplan (lit "default") (lit "1") 1 tt ex_up eq_refl _ eq_refl)
    cx _ _ w' c' tr (conj Hcx (conj _ _)) Er); [discriminate| |split; reflexivity].
  intros [|j]; [reflexivity|]. unfold get_priority. simpl. by rewrite !lookup_insert_ne by lia.
Defined.

(** ** The end of a run *)

Lemma final_hangup_down {W} (s : Run W) :
  chan_state (chan s) = CsDown → final_hangup s = s.
Proof.
  intros Hd. unfold final_hangup, hangup. rewrite Hd. simpl. destruct s. unfold set_chan, log. simpl.
  by rewrite app_nil_r.
Qed.

Definition final_cause (x : HangupCause) : HangupCause :=
  if bool_decide (x = HcNotDefined) then HcNormalClearing else x.

Lemma final_hangup_up {W} (s : Run W) :
  chan_state (chan s) ≠ CsDown →
  let cause := final_cause (hangup_cause (chan s)) in
  let uid := unique_id (chan s) in
  chan_state (chan (final_hangup s)) = CsDown
  ∧ hangup_cause (chan (final_hangup s)) = cause
  ∧ trace (final_hangup s)
    = trace s ++ (Emitted <$> [Newstate uid CsDown; HangupCallbacks uid cause; HangupEvent uid cause]).
Proof.
  intros Hd cause uid. unfold final_hangup, hangup, set_state.
  rewrite bool_decide_eq_false_2 by done. by split_and!.
Qed.

(** A run that returns leaves the channel down.  It returns through the
    end of the main loop and of the hangup extension.  If the channel was still
    up then, it is hung up with the cause an application set, or normal clearing
    if none did, and the hangup is announced exactly once, last; if an
    application had hung it up already, nothing more happens.  The result is a
    success exactly when a priority was found or an error met, never the call
    limit. *)
Theorem pbx_run_ends_down {W} `{AppRegistry W, FuncRegistry, RegexEngine, HashOrder}
    (dialplan : Dialplan) fuel (w : W) c r s :
  pbx_run dialplan fuel w c = Some (Done (r, s)) →
  chan_state (chan s) = CsDown
  ∧ ∃ s1 s2,
      loop dialplan LOOP_FUEL (pbx_start w c) = Some (Done s1)
      ∧ run_hangup_extension dialplan fuel s1 = Some (Done s2)
      ∧ r = (if found s1 || error s1 then RunSuccess else RunFailed)
      ∧ match chan_state (chan s2) with
        | CsDown => s = s2
        | _ =>
            let cause := if bool_decide (hangup_cause (chan s2) = HcNotDefined)
                         then HcNormalClearing else hangup_cause (chan s2) in
            let uid := unique_id (chan s2) in
            hangup_cause (chan s) = cause
            ∧ trace s = trace s2 ++ (Emitted <$>
                [Newstate uid CsDown; HangupCallbacks uid cause; HangupEvent uid cause])
        end.
Proof.
  unfold pbx_run. intros Hr.
  apply bind_Some in Hr as ([s1|] & Hl & Hr); [|done].
  apply bind_Some in Hr as ([s2|] & Hh & Hr); [|done]. simpl in Hr. simplify_eq.
  destruct (decide (chan_state (chan s2) = CsDown)) as [Hd|Hd].
  - rewrite final_hangup_down by done. split; [done|]. exists s1, s2. by rewrite Hd.
  - destruct (final_hangup_up s2 Hd) as (E1 & E2 & E3). split; [done|].
    exists s1, s2. split_and!; [done..|]. destruct (chan_state (chan s2)); done.
Qed.

Definition ex_hangup_dialplan (data : str) : Dialplan :=
  ex_dialplan [mkPriority 1 (lit "Hangup") data None].

Lemma pbx_run_ends_down_witness :
  ∃ s, @pbx_run unit core_apps no_functions literal_engine key_order
         (ex_hangup_dialplan (lit "17")) 1 tt ex_up = Some (Done (RunSuccess, s))
       ∧ hangup_cause (chan s) = HcUserBusy ∧ chan_state (chan s) = CsDown.
Proof.
  assert (Hr : ∃ s, @pbx_run unit core_apps no_functions literal_engine key_order
         (ex_hangup_dialplan (lit "17")) 1 tt ex_up = Some (Done (RunSuccess, s))
         ∧ hangup_cause (chan s) = HcUserBusy)
    by (eexists; split; vm_compute; reflexivity).
  destruct Hr as (s & Hr & Hc). exists s. split; [exact Hr|]. split; [exact Hc|].
  exact (proj1 (@pbx_run_ends_down unit core_apps no_functions literal_engine key_order
    _ _ _ _ _ _ Hr)).
Defined.

(** Executing a registered application of [PbxApps]. *)
Lemma execute_adapt {W} (f : Channel → str → Channel * list ChannelEvent * PbxExecResult)
    name data (s : Run W) c evs r :
  f (chan s) data = (c, evs, r) →
  execute (adapt f) name data s
  = (map_result r, mkRun (world s) c (found s) (error s) (iterations s)
                     (trace s ++ Execute name data :: (Emitted <$> evs))).
Proof. unfold execute, adapt. by intros ->. Qed.

Lemma core_apps_registered :
  @find_app unit core_apps (lit "Hangup") = Some (adapt hangup_exec)
  ∧ @find_app unit core_apps (lit "Set") = Some (adapt set_exec)
  ∧ @find_app unit core_apps (lit "Goto") = Some (adapt goto_exec).
Proof. done. Qed.

Lemma hangup_exec_code c x :
  hangup_exec c (show_int (hangup_cause_code x))
  = (softhangup (set_status c (chan_state c)
       (if hangup_cause_settable x then x else HcNormalClearing)) AST_SOFTHANGUP_EXPLICIT,
     [], ExecSuccess).
Proof. by destruct x. Qed.

Lemma hangup_code_plain x : chr "$" ∉ show_int (hangup_cause_code x).
Proof.
  intros Hin%elem_of_show_int; [done|]. pose proof (hangup_cause_code_range x). lia.
Qed.

(** [Hangup(n)] with the number of a cause ends the call with that cause.
    From the substitution of the argument through the application, the loop and
    the final hangup, the channel ends down, after a successful run, with the
    cause whose Q.850 number was given; but the causes 58, 65, 69, 200 and 201,
    which [HangupCause] has, end as normal clearing, as cause 0 does. *)
Theorem explicit_hangup_cause `{FuncRegistry, RegexEngine, HashOrder}
    (dialplan : Dialplan) ctx ext prio cx e lbl x c fuel :
  find_extension dialplan ctx ext = Some (cx, e) → ext ≠ [] →
  get_priority e prio = Some (mkPriority prio (lit "Hangup") (show_int (hangup_cause_code x)) lbl) →
  has_extension dialplan ctx (lit "h") = false →
  location c = (ctx, ext, prio) → chan_state c ≠ CsDown → softhangup_flags c = 0 →
  ∃ s, pbx_run (H := core_apps) dialplan fuel tt c = Some (Done (RunSuccess, s))
    ∧ chan_state (chan s) = CsDown
    ∧ hangup_cause (chan s)
      = if hangup_cause_settable x && negb (bool_decide (x = HcNotDefined)) then x
        else HcNormalClearing.
Proof.
  intros Hfind Hext Hp Hh Hloc Hup Hfl.
  assert (exten c = ext ∧ context c = ctx) as [Ee Ec] by (unfold location in Hloc; by simplify_eq).
  pose proof (hangup_exec_code c x) as Hx. pose proof (hangup_code_plain x) as Hpl.
  set (d := show_int (hangup_cause_code x)) in *. clearbody d.
  set (c1 := softhangup (set_status c (chan_state c)
       (if hangup_cause_settable x then x else HcNormalClearing)) AST_SOFTHANGUP_EXPLICIT).
  assert (Hi : ∃ s1, iteration (H := core_apps) dialplan (pbx_start tt c) = Done (BreakOuter, s1)
                     ∧ chan s1 = c1 ∧ found s1 = true).
  { unfold pbx_start. rewrite (proj2 (str_eqb_false (exten c) [])) by by rewrite Ee.
    unfold iteration. simpl chan. simpl iterations. rewrite Hloc.
    unfold lookup_priority. rewrite Hfind. simpl mbind. rewrite Hp. cbn [app app_data].
    unfold substitute_variables. rewrite substitute_plain by done. cbn [outcome_bind].
    rewrite (proj1 core_apps_registered). cbv beta iota.
    erewrite execute_adapt by exact Hx.
    unfold after_execute, check_hangup. simpl. rewrite Hfl. simpl. by eexists. }
  destruct Hi as (s1 & Hi & Hc1 & Hf1). destruct LOOP_FUEL_S as (n & Hn & _).
  exists (final_hangup s1).
  assert (Hup1 : chan_state (chan s1) ≠ CsDown) by by rewrite Hc1.
  destruct (final_hangup_up s1 Hup1) as (E1 & E2 & _). split_and!.
  - unfold pbx_run. rewrite Hn. simpl. rewrite Hi. simpl. unfold run_hangup_extension.
    rewrite Hc1. simpl. rewrite Ec, Hh. simpl. by rewrite Hf1.
  - done.
  - rewrite E2, Hc1. by destruct x.
Qed.

Lemma explicit_hangup_cause_witness :
  ∃ s, @pbx_run unit core_apps no_functions literal_engine key_order
         (ex_hangup_dialplan (lit "58")) 1 tt ex_up = Some (Done (RunSuccess, s))
       ∧ chan_state (chan s) = CsDown ∧ hangup_cause (chan s) = HcNormalClearing.
Proof.
  assert (E : ∃ cx e, @find_extension key_order (ex_hangup_dialplan (lit "58"))
                (lit "default") (lit "1") = Some (cx, e)
              ∧ get_priority e 1 = Some (mkPriority 1 (lit "Hangup") (lit "58") None))
    by (do 2 eexists; split; vm_compute; reflexivity).
  destruct E as (cx & e & Hcx & He).
  exact (@explicit_hangup_cause no_functions literal_engine key_order
    (ex_hangup_dialplan (lit "58")) (lit "default") (lit "1") 1 cx e None HcBearerCapNotAvail
    ex_up 1 Hcx ltac:(discriminate) He eq_refl eq_refl ltac:(discriminate) eq_refl).
Defined.

(** ** The hangup extension *)

Section hangup_proofs.
Context {W : Type} `{AppRegistry W, FuncRegistry, RegexEngine, HashOrder}.
Variable dialplan : Dialplan.

(** The applications leave the context and the priority alone. *)
Definition apps_stay : Prop :=
  ∀ name f, find_app name = Some f → ∀ w c data,
    context (f w c data).1.1.2 = context c
    ∧ chan_priority (f w c data).1.1.2 = chan_priority c.

Lemma hangup_iteration_stays s s' :
  apps_stay → hangup_iteration dialplan s = Some (Done s') →
  context (chan s') = context (chan s)
  ∧ chan_priority (chan s') = i32_succ (chan_priority (chan s))
  ∧ is_Some (lookup_priority dialplan (context (chan s)) (lit "h") (chan_priority (chan s))).
Proof.
  intros Hstay. unfold hangup_iteration. intros Hi. apply bind_Some in Hi as (p & Hp & Hi).
  injection Hi as Hi. apply outcome_bind_Done in Hi as (data & _ & Hi). rewrite Hp.
  destruct (find_app (app p)) as [f|] eqn:Ef; simplify_eq/=; [|by eauto].
  destruct (Hstay _ _ Ef (world s) (chan s) data) as [E1 E2]. unfold execute in *.
  destruct (f (world s) (chan s) data) as [[[w c] evs] r]. simpl in *.
  by rewrite E1, E2.
Qed.

(** A loop that has counted from 1 has met as many priorities. *)
Lemma hangup_loop_ends ctx cx e fuel s :
  apps_stay → find_extension dialplan ctx (lit "h") = Some (cx, e) →
  Z.of_nat (size (priorities e)) < 2 ^ 31 - 2 →
  context (chan s) = ctx → 0 < chan_priority (chan s) ≤ 2 ^ 31 - 1 →
  (∀ k, 0 < k < chan_priority (chan s) → is_Some (priorities e !! k)) →
  Z.of_nat (size (priorities e)) + 1 < chan_priority (chan s) + Z.of_nat fuel →
  is_Some (hangup_loop dialplan fuel s).
Proof.
  intros Hstay Hfind Hsz. revert s. induction fuel as [|fuel IH]; intros s Hc Hp Hk Hf.
  all: assert (Hle : chan_priority (chan s) - 1 ≤ Z.of_nat (size (priorities e))).
  all: try (set (n := chan_priority (chan s)) in *;
    transitivity (Z.of_nat (size (list_to_set (seqZ 1 (n - 1)) : gset Z)));
    [rewrite size_list_to_set by apply NoDup_seqZ; rewrite length_seqZ; lia|];
    rewrite <-(size_dom (priorities e)); apply Nat2Z.inj_le, subseteq_size;
    intros k Hin%elem_of_list_to_set%elem_of_seqZ; apply elem_of_dom, Hk; lia).
  - lia.
  - simpl. destruct (hangup_iteration dialplan s) as [[s'|]|] eqn:Ei; [|by eauto..].
    apply hangup_iteration_stays in Ei as (E1 & E2 & E3); [|done].
    rewrite i32_succ_id in E2 by lia. apply IH.
    + by rewrite E1.
    + lia.
    + rewrite E2. intros k Hk'.
      destruct (decide (k = chan_priority (chan s))) as [->|]; [|apply Hk; lia].
      unfold lookup_priority in E3. rewrite Hc, Hfind in E3. done.
    + lia.
Qed.
End hangup_proofs.

(** [h,1,Set(x=1)] and [h,2,Goto(h,1)]. *)
Definition circle_dialplan : Dialplan :=
  add_context dp_new (ctx_add_extension (ctx_new (lit "default"))
    (add_priority (add_priority (ext_new (lit "h"))
      (mkPriority 1 (lit "Set") (lit "x=1") None))
      (mkPriority 2 (lit "Goto") (lit "h,1") None))).

Lemma circle_turn `{FuncRegistry, RegexEngine, HashOrder} (s : Run unit) :
  context (chan s) = lit "default" → chan_priority (chan s) ∈ [1; 2] →
  ∃ s', hangup_iteration (H := core_apps) circle_dialplan s = Some (Done s')
        ∧ context (chan s') = lit "default" ∧ chan_priority (chan s') ∈ [1; 2].
Proof.
  intros Hc Hp. assert (Hx : ∀ x, In x [lit "x=1"; lit "h,1"] →
    substitute_variables (chan s) x = Done x).
  { intros x Hin. apply substitute_plain. destruct Hin as [<-|[<-|[]]]; apply (bool_decide_unpack _); by vm_compute. }
  unfold hangup_iteration. rewrite Hc.
  destruct core_apps_registered as (_ & Hset & Hgoto).
  apply elem_of_cons in Hp as [Hp|Hp%list_elem_of_singleton]; rewrite Hp.
  - change (lookup_priority _ _ _ _) with (Some (mkPriority 1 (lit "Set") (lit "x=1") None)).
    cbn [mbind option_bind app app_data]. rewrite (Hx (lit "x=1")) by (simpl; auto).
    cbn [outcome_bind]. rewrite Hset. cbv beta iota. erewrite execute_adapt by reflexivity.
    eexists. split; [reflexivity|]. cbn. rewrite Hc, Hp. split; [done|]. set_solver.
  - change (lookup_priority _ _ _ _) with (Some (mkPriority 2 (lit "Goto") (lit "h,1") None)).
    cbn [mbind option_bind app app_data]. rewrite (Hx (lit "h,1")) by (simpl; auto).
    cbn [outcome_bind]. rewrite Hgoto. cbv beta iota. erewrite execute_adapt by reflexivity.
    eexists. split; [reflexivity|]. cbn. rewrite Hc. split; [done|]. set_solver.
Qed.

(** The hangup extension.  It ends if no application it meets moves the
    channel, within one turn per priority of [h] and one more; but the limit of
    the main loop does not cover it: with a [Goto(h,1)] at its second priority it
    never ends, however long one waits, so the channel is never hung up. *)
Theorem hangup_extension_termination {W} `{AppRegistry W, FuncRegistry, RegexEngine, HashOrder}
    (dialplan : Dialplan) (s : Run W) cx e fuel :
  apps_stay (W := W) → find_extension dialplan (context (chan s)) (lit "h") = Some (cx, e) →
  Z.of_nat (size (priorities e)) < 2 ^ 31 - 2 → (size (priorities e) < fuel)%nat →
  is_Some (run_hangup_extension dialplan fuel s)
  ∧ ∀ fuel' (s' : Run unit), context (chan s') = lit "default" →
      run_hangup_extension (H := core_apps) circle_dialplan fuel' s' = None.
Proof.
  intros Hstay Hfind Hsz Hfuel. split.
  - unfold run_hangup_extension. case_match; [|by eexists].
    apply (hangup_loop_ends dialplan (context (chan s)) cx e); simpl; try done; lia.
  - intros fuel' s' Hc. unfold run_hangup_extension. rewrite Hc.
    change (has_extension circle_dialplan _ _) with true.
    assert (Hp : chan_priority (chan (set_chan s' (set_exten (chan s') (lit "h") 1))) ∈ [1; 2])
      by by left.
    assert (Hc' : context (chan (set_chan s' (set_exten (chan s') (lit "h") 1))) = lit "default")
      by done.
    revert Hc' Hp. generalize (set_chan s' (set_exten (chan s') (lit "h") 1)).
    induction fuel' as [|fuel' IH]; intros r Hr Hp; [done|].
    destruct (circle_turn r Hr Hp) as (r' & Et & Hr' & Hp'). simpl. rewrite Et. by apply IH.
Qed.

(** [h,1,Set(x=1)] alone. *)
Definition h_dialplan : Dialplan :=
  add_context dp_new (ctx_add_extension (ctx_new (lit "default"))
    (add_priority (ext_new (lit "h")) (mkPriority 1 (lit "Set") (lit "x=1") None))).

(** [Set] alone leaves the location. *)
Definition set_only : AppRegistry unit := λ name,
  if str_eqb name (lit "Set") then Some (adapt set_exec) else None.

Lemma hangup_extension_termination_witness :
  is_Some (@run_hangup_extension unit set_only no_functions literal_engine key_order
             h_dialplan 2 (pbx_start tt ex_up))
  ∧ @run_hangup_extension unit core_apps no_functions literal_engine key_order
      circle_dialplan 50 (pbx_start tt ex_up) = None.
Proof.
  assert (E : ∃ cx, @find_extension key_order h_dialplan (lit "default") (lit "h")
                = Some (cx, add_priority (ext_new (lit "h"))
                    (mkPriority 1 (lit "Set") (lit "x=1") None)))
    by (eexists; vm_compute; reflexivity).
  destruct E as [cx Hcx].
  assert (Hstay : @apps_stay unit set_only).
  { intros name f Hf w c data. unfold find_app, set_only in Hf.
    destruct (str_eqb name (lit "Set")); [|done]. simplify_eq. unfold adapt, set_exec.
    destruct (trim data); [done|]. by destruct (split_once (chr "=") data) as [[]|]. }
  destruct (@hangup_extension_termination unit set_only no_functions literal_engine key_order
    h_dialplan (pbx_start tt ex_up) cx _ 2 Hstay Hcx) as [H1 H2].
  - by vm_compute.
  - vm_compute. lia.
  - split; [exact H1|]. apply (H2 50%nat (pbx_start tt ex_up)). reflexivity.
Defined.
