(* ===== verification/PbxStack.v ===== *)
(** * Subroutines and conditional jumps ([asterisk-apps/src/stack.rs], [if_.rs],
    [while_.rs])

    GoSub, Return, StackPop and GoSubIf with the call stack of a channel; GotoIf
    and GotoIfTime with the evaluation of time specifications; the block
    applications (If, While and theirs), which only log.  The stack lives in the
    channel's datastores: the world of these applications is that datastore
    entry, [None] before the first call.

    The theorems: balanced calls return where they were called and leave the
    stack as it was, within the depth limit; in the execution loop, where the
    saved priority is that of the GoSub itself, a subroutine that returns is
    called again for ever; GotoIfTime reads the clock as the Gregorian calendar
    does and takes the branch its specification denotes. *)

From Stdlib Require Import ZArith NArith Ascii String.
From S2P Require Import Prelude RustStr HashMap Types Channel Dialplan Expression Substitute PbxApps PbxExec.
Local Open Scope Z_scope.
Local Open Scope list_scope.

(** ** The call stack *)

Record GoSubFrame := mkFrame {
  fr_context : str;
  fr_exten : str;
  fr_priority : Z;
  local_variables : gmap str str;
  saved_variables : gmap str (option str);
  fr_arguments : list str }.

Definition MAX_GOSUB_DEPTH : nat := 128.

(** The most recent frame is at the end. *)
Record GoSubStack := mkStack { frames : list GoSubFrame }.

Definition stack_new : GoSubStack := mkStack [].
Definition stack_push (s : GoSubStack) (f : GoSubFrame) : GoSubStack := mkStack (frames s ++ [f]).
Definition stack_pop (s : GoSubStack) : option GoSubFrame * GoSubStack :=
  (last (frames s), mkStack (removelast (frames s))).
Definition stack_depth (s : GoSubStack) : nat := length (frames s).

(** The entry of [channel.datastores] under [GOSUB_STACK_KEY]. *)
Definition Datastore : Type := option GoSubStack.

Definition get_or_create_stack (w : Datastore) : GoSubStack := default stack_new w.
Definition save_stack (s : GoSubStack) : Datastore := Some s.

(** ** Destinations *)

Record GoSubDest := mkDest {
  ds_context : option str; ds_exten : option str; ds_priority : Z; ds_arguments : list str }.

Definition parse_priority (x : str) : option Z :=
  if eq_ignore_ascii_case x (lit "n") then Some (-1) else parse_i32 x.

Definition nonempty (x : str) : option str := match x with [] => None | _ => Some x end.

(** [find] and the slices around the parenthesis, a one-byte character, are
    [split_once] ([RustStr.find_char_slices]). *)
Definition dest_parse (args : str) : option GoSubDest :=
  match trim args with
  | [] => None
  | a =>
      let '(loc, arguments) :=
        match split_once (chr "(") a with
        | Some (l, r) => (l, trim <$> split (chr ",") (trim_end_char (chr ")") r))
        | None => (a, [])
        end in
      match split (chr ",") loc with
      | [p] => n ← parse_priority (trim p); Some (mkDest None None n arguments)
      | [e; p] => n ← parse_priority (trim p); Some (mkDest None (Some (trim e)) n arguments)
      | [c; e; p] =>
          n ← parse_priority (trim p);
          Some (mkDest (nonempty (trim c)) (nonempty (trim e)) n arguments)
      | _ => None
      end
  end.

(** ** The applications

    Each maps the datastore and the channel to new ones, the events and the
    result. *)

Definition stack_app : Type :=
  Datastore → Channel → str → Datastore * Channel * list ChannelEvent * PbxExecResult.

(** [ARGn] for the arguments from the [i]-th on. *)
Fixpoint set_arguments (i : Z) (args : list str) (c : Channel) : Channel * list ChannelEvent :=
  match args with
  | [] => (c, [])
  | a :: args' =>
      let (c1, ev) := set_variable c (lit "ARG" ++ show_int (i + 1)) a in
      let (c2, ev') := set_arguments (i + 1) args' c1 in
      (c2, ev ++ ev')
  end.

Definition gosub_exec : stack_app := λ w c args,
  match dest_parse args with
  | None => (w, c, [], ExecFailed)
  | Some dest =>
      let frame := mkFrame (context c) (exten c) (chan_priority c) ∅ ∅ (ds_arguments dest) in
      let stack := get_or_create_stack w in
      if (MAX_GOSUB_DEPTH <=? stack_depth stack)%nat then (w, c, [], ExecFailed)
      else
        let stack := stack_push stack frame in
        let (c, ev) := set_variable c (lit "ARGC")
                         (show_int (Z.of_nat (length (ds_arguments dest)))) in
        let (c, ev') := set_arguments 0 (ds_arguments dest) c in
        let c := set_location c (default (context c) (ds_context dest))
                   (default (exten c) (ds_exten dest)) (ds_priority dest) in
        (save_stack stack, c, ev ++ ev', ExecSuccess)
  end.

(** One turn of the loop over the variables saved by [LOCAL]. *)
Definition restore_variable (cev : Channel * list ChannelEvent) (kv : str * option str)
    : Channel * list ChannelEvent :=
  match kv.2 with
  | Some v => let (c, ev) := set_variable cev.1 kv.1 v in (c, cev.2 ++ ev)
  | None => (set_variables cev.1 (delete kv.1 (variables cev.1)), cev.2)
  end.

Definition return_exec `{HashOrder} : stack_app := λ w c args,
  let (top, stack) := stack_pop (get_or_create_stack w) in
  match top with
  | None => (w, c, [], ExecFailed)
  | Some frame =>
      let cev := match trim args with
                 | [] => (c, [])
                 | v => set_variable c (lit "GOSUB_RETVAL") v
                 end in
      let (c, ev) := foldl restore_variable cev (hash_iter (saved_variables frame)) in
      let c := set_location c (fr_context frame) (fr_exten frame) (fr_priority frame) in
      (save_stack stack, c, ev, ExecSuccess)
  end.

Definition stackpop_exec : stack_app := λ w c _,
  (save_stack (stack_pop (get_or_create_stack w)).2, c, [], ExecSuccess).

(** A condition is true when it is neither empty nor [0]. *)
Definition condition_true (x : str) : bool :=
  negb (str_eqb x []) && negb (str_eqb x (lit "0")).

Definition gosubif_exec : stack_app := λ w c args,
  match split_once (chr "?") args with
  | None => (w, c, [], ExecFailed)
  | Some (cond, destinations) =>
      let target :=
        if condition_true (trim cond) then
          Some match split_once (chr ":") destinations with
               | Some (t, _) => t
               | None => destinations
               end
        else snd <$> split_once (chr ":") destinations in
      match trim <$> target with
      | None | Some [] => (w, c, [], ExecSuccess)
      | Some t => gosub_exec w c t
      end
  end.

(** ** The clock of GotoIfTime

    [secs] is the Unix time, a [u64]. *)

Definition is_leap_year (y : Z) : bool :=
  ((y mod 4 =? 0) && negb (y mod 100 =? 0)) || (y mod 400 =? 0).

Definition days_in_year (y : Z) : Z := if is_leap_year y then 366 else 365.

(** The loop over the years; [None] when the fuel is out. *)
Fixpoint year_loop (fuel : nat) (year remaining : Z) : option (Z * Z) :=
  match fuel with
  | O => None
  | S fuel' =>
      if remaining <? days_in_year year then Some (year, remaining)
      else year_loop fuel' (wrap_u32 (year + 1)) (remaining - days_in_year year)
  end.

Definition month_days (leap : bool) : list Z :=
  [31; if leap then 29 else 28; 31; 30; 31; 30; 31; 31; 30; 31; 30; 31].

Fixpoint month_loop (month : Z) (lengths : list Z) (remaining : Z) : Z * Z :=
  match lengths with
  | [] => (12, remaining + 1)
  | md :: lengths' =>
      if remaining <? md then (month, remaining + 1)
      else month_loop (month + 1) lengths' (remaining - md)
  end.

(** A year has at least 365 days, so this fuel is enough ([year_loop_date]). *)
Definition YEAR_FUEL (days : Z) : nat := S (Z.to_nat (days / 365)).

Definition approximate_month_day (secs : Z) : Z * Z :=
  let days := wrap_u32 (secs / 86400) in
  match year_loop (YEAR_FUEL days) 1970 days with
  | Some (year, remaining) => month_loop 1 (month_days (is_leap_year year)) remaining
  | None => (12, 1)
  end.

Definition parse_time_of_day (x : str) : option Z :=
  '(h, m) ← split_once (chr ":") x;
  h ← parse_i32 (trim h);
  m ← parse_i32 (trim m);
  Some (wrap_i32 (h * 60 + m)).

Section time_spec.
Context `{UnicodeCase}.

(** A name of a table of [(short, long)] names, by its position from [i]. *)
Fixpoint name_index (i : Z) (names : list (str * str)) (x : str) : option Z :=
  match names with
  | [] => None
  | (short, long) :: names' =>
      if str_eqb x short || str_eqb x long then Some i else name_index (i + 1) names' x
  end.

Definition weekday_names : list (str * str) :=
  [(lit "mon", lit "monday"); (lit "tue", lit "tuesday"); (lit "wed", lit "wednesday");
   (lit "thu", lit "thursday"); (lit "fri", lit "friday"); (lit "sat", lit "saturday");
   (lit "sun", lit "sunday")].

Definition month_names : list (str * str) :=
  [(lit "jan", lit "january"); (lit "feb", lit "february"); (lit "mar", lit "march");
   (lit "apr", lit "april"); (lit "may", lit "may"); (lit "jun", lit "june");
   (lit "jul", lit "july"); (lit "aug", lit "august"); (lit "sep", lit "september");
   (lit "oct", lit "october"); (lit "nov", lit "november"); (lit "dec", lit "december")].

Definition weekday_to_num (name : str) : option Z := name_index 0 weekday_names (to_lowercase name).

Definition month_to_num (name : str) : option Z :=
  match name_index 1 month_names (to_lowercase name) with
  | Some n => Some n
  | None => parse_u32 name
  end.

(** Membership in a range that may wrap around. *)
Definition cyclic_in (s e n : Z) : bool :=
  if s <=? e then (s <=? n) && (n <=? e) else (s <=? n) || (n <=? e).

(** [weekday_range_matches] and [month_range_matches], which differ in the
    reading of a name. *)
Definition range_matches (to_num : str → option Z) (spec : str) (n : Z) : bool :=
  let single := match to_num (trim spec) with Some d => n =? d | None => true end in
  match split_once (chr "-") spec with
  | Some (a, b) =>
      match to_num (trim a), to_num (trim b) with
      | Some s, Some e => cyclic_in s e n
      | _, _ => single
      end
  | None => single
  end.

Definition weekday_range_matches : str → Z → bool := range_matches weekday_to_num.
Definition month_range_matches : str → Z → bool := range_matches month_to_num.

Definition parse_int_range (spec : str) : option (Z * Z) :=
  match split_once (chr "-") spec with
  | Some (a, b) => s ← parse_u32 (trim a); e ← parse_u32 (trim b); Some (s, e)
  | None => v ← parse_u32 (trim spec); Some (v, v)
  end.

(** Whether the time of day is within the range of the first field. *)
Definition time_range_matches (spec : str) (now_mins : Z) : bool :=
  match split_once (chr "-") spec with
  | Some (a, b) =>
      match parse_time_of_day a, parse_time_of_day b with
      | Some s, Some e =>
          if s <=? e then negb ((now_mins <? s) || (e <? now_mins))
          else negb ((now_mins <? s) && (e <? now_mins))
      | _, _ => true
      end
  | None => true
  end.

Definition mday_matches (spec : str) (mday : Z) : bool :=
  match parse_int_range spec with
  | Some (s, e) => negb ((mday <? s) || (e <? mday))
  | None => true
  end.

Definition field_matches (matches : str → Z → bool) (spec : str) (n : Z) : bool :=
  str_eqb spec (lit "*") || matches spec n.

Definition evaluate_time_spec (secs : Z) (spec : str) : bool :=
  match trim <$> split (chr ",") spec with
  | times :: weekdays :: mdays :: months :: _ =>
      let secs_in_day := secs mod 86400 in
      let now_mins := secs_in_day / 3600 * 60 + secs_in_day mod 3600 / 60 in
      let weekday := (secs / 86400 + 3) mod 7 in
      let '(month, mday) := approximate_month_day secs in
      field_matches time_range_matches times now_mins
      && field_matches weekday_range_matches weekdays weekday
      && field_matches mday_matches mdays mday
      && field_matches month_range_matches months month
  | _ => true
  end.

(** ** GotoIf and GotoIfTime *)

(** The jump to a parsed label, which is that of [Goto]. *)
Definition jump (c : Channel) (target : GotoTarget) : Channel :=
  let prio :=
    match parse_i32 (gt_priority target) with
    | Some p => p
    | None =>
        if eq_ignore_ascii_case (gt_priority target) (lit "n")
        then i32_succ (chan_priority c) else 1
    end in
  set_location c (default (context c) (gt_context target))
    (default (exten c) (gt_extension target)) prio.

(** The labels [true[:false]]; an empty one is none. *)
Definition branch_labels (branches : str) : option str * option str :=
  match split_once (chr ":") branches with
  | Some (t, f) => (nonempty (trim t), nonempty (trim f))
  | None => (nonempty (trim branches), None)
  end.

Definition gotoif_exec (c : Channel) (args : str)
    : Channel * list ChannelEvent * PbxExecResult :=
  match split_once (chr "?") args with
  | None => (c, [], ExecFailed)
  | Some (cond, branches) =>
      let (true_label, false_label) := branch_labels branches in
      match if condition_true (trim cond) then true_label else false_label with
      | Some label =>
          match goto_parse label with
          | Some target => (jump c target, [], ExecSuccess)
          | None => (c, [], ExecFailed)
          end
      | None => (c, [], ExecSuccess)
      end
  end.

(** The clock is the argument [secs]. *)
Definition gotoiftime_exec (secs : Z) (c : Channel) (args : str)
    : Channel * list ChannelEvent * PbxExecResult :=
  match split_once (chr "?") args with
  | None => (c, [], ExecFailed)
  | Some (time_spec, branches) =>
      let (true_label, false_label) := branch_labels branches in
      match if evaluate_time_spec secs (trim time_spec) then true_label else false_label with
      | Some label =>
          match goto_parse label with
          | Some target => (jump c target, [], ExecSuccess)
          | None => (c, [], ExecSuccess)
          end
      | None => (c, [], ExecSuccess)
      end
  end.
End time_spec.

(** ** If, ElseIf, Else, EndIf, While, EndWhile, ExitWhile, ContinueWhile

    All of them log their condition and succeed: the jumps of the blocks are not
    implemented. *)
Definition block_exec (c : Channel) (_ : str) : Channel * list ChannelEvent * PbxExecResult :=
  (c, [], ExecSuccess).

Definition block_names : list str :=
  [lit "If"; lit "ElseIf"; lit "Else"; lit "EndIf";
   lit "While"; lit "EndWhile"; lit "ExitWhile"; lit "ContinueWhile"].

(** ** The registry with all of them *)

(** The adapter around an application of the stack. *)
Definition adapt_stack (f : stack_app) : app_fn Datastore := λ w c args,
  let '(w', c', ev, r) := f w c args in (w', c', ev, map_result r).

Definition stack_apps `{HashOrder, UnicodeCase} (secs : Z) : AppRegistry Datastore := λ name,
  if str_eqb name (lit "GoSub") then Some (adapt_stack gosub_exec)
  else if str_eqb name (lit "GoSubIf") then Some (adapt_stack gosubif_exec)
  else if str_eqb name (lit "Return") then Some (adapt_stack return_exec)
  else if str_eqb name (lit "StackPop") then Some (adapt_stack stackpop_exec)
  else if str_eqb name (lit "GotoIf") then Some (adapt gotoif_exec)
  else if str_eqb name (lit "GotoIfTime") then Some (adapt (gotoiftime_exec secs))
  else if bool_decide (name ∈ block_names) then Some (adapt block_exec)
  else core_apps name.

(** ** Specifications *)

(** A dialplan fragment: jumps, and subroutine calls with the argument text of
    the GoSub, the subroutine, and the argument text of its Return. *)
Inductive fragment :=
  | Stop
  | Jump (ctx ext : str) (prio : Z) (rest : fragment)
  | Call (args : str) (body : fragment) (retval : str) (rest : fragment).

(** Running it, one application after the other; [None]: one of them failed. *)
Fixpoint run_fragment `{HashOrder} (p : fragment) (w : Datastore) (c : Channel)
    : option (Datastore * Channel) :=
  match p with
  | Stop => Some (w, c)
  | Jump ctx ext prio rest => run_fragment rest w (set_location c ctx ext prio)
  | Call args body retval rest =>
      match gosub_exec w c args with
      | (w1, c1, _, ExecSuccess) =>
          '(w2, c2) ← run_fragment body w1 c1;
          match return_exec w2 c2 retval with
          | (w3, c3, _, ExecSuccess) => run_fragment rest w3 c3
          | _ => None
          end
      | _ => None
      end
  end.

(** Where it ends, as its author reads it: a call comes back. *)
Fixpoint final_place (p : fragment) (l : str * str * Z) : str * str * Z :=
  match p with
  | Stop => l
  | Jump ctx ext prio rest => final_place rest (ctx, ext, prio)
  | Call _ _ _ rest => final_place rest l
  end.

(** The value of its last call that returned one. *)
Fixpoint final_value (p : fragment) (v : option str) : option str :=
  match p with
  | Stop => v
  | Jump _ _ _ rest => final_value rest v
  | Call _ body retval rest =>
      final_value rest (match nonempty (trim retval) with
                        | Some r => Some r
                        | None => final_value body v
                        end)
  end.

Fixpoint nesting (p : fragment) : nat :=
  match p with
  | Stop => 0
  | Jump _ _ _ rest => nesting rest
  | Call _ body _ rest => Nat.max (S (nesting body)) (nesting rest)
  end.

Fixpoint calls_parse (p : fragment) : bool :=
  match p with
  | Stop => true
  | Jump _ _ _ rest => calls_parse rest
  | Call args body _ rest =>
      bool_decide (is_Some (dest_parse args)) && calls_parse body && calls_parse rest
  end.

(** ** Lemmas on the stack *)

Definition depth (w : Datastore) : nat := stack_depth (get_or_create_stack w).
Definition stack_of (w : Datastore) : list GoSubFrame := frames (get_or_create_stack w).

(** The location GoSub moves to. *)
Definition dest_location (c : Channel) (d : GoSubDest) : str * str * Z :=
  (default (context c) (ds_context d), default (exten c) (ds_exten d), ds_priority d).

Definition call_frame (c : Channel) (d : GoSubDest) : GoSubFrame :=
  mkFrame (context c) (exten c) (chan_priority c) ∅ ∅ (ds_arguments d).

(** What the applications leave of a channel besides location and variables. *)
Definition same_call (c c' : Channel) : Prop :=
  chan_state c' = chan_state c ∧ softhangup_flags c' = softhangup_flags c
  ∧ hangup_cause c' = hangup_cause c ∧ unique_id c' = unique_id c.

Lemma show_int_head n : 0 ≤ n → ∃ ch x, show_int n = ch :: x.
Proof.
  intros Hn. unfold show_int. destruct (Z.ltb_spec n 0); [lia|].
  destruct (show_nonneg_spec n Hn) as (d & ds & -> & _). eauto.
Qed.

Lemma set_arguments_fields i args c :
  let c' := (set_arguments i args c).1 in
  location c' = location c ∧ same_call c c'.
Proof.
  revert i c. induction args as [|a args IH]; intros i c; simpl; [by split_and!|].
  specialize (IH (i + 1) (set_variable c (lit "ARG" ++ show_int (i + 1)) a).1). simpl in IH.
  destruct (set_arguments _ _ _) as [c2 ev]. exact IH.
Qed.

(** [GOSUB_RETVAL] and [ARGC] are not arguments. *)
Definition not_argument (name : str) : Prop := ∀ n, 0 ≤ n → name ≠ lit "ARG" ++ show_int n.

Lemma GOSUB_RETVAL_not_argument : not_argument (lit "GOSUB_RETVAL").
Proof. by intros n Hn. Qed.

Lemma ARGC_not_argument : not_argument (lit "ARGC").
Proof.
  intros n Hn E. assert (Hin : chr "C" ∈ show_int n) by (simpl in E; injection E as <-; by left).
  by apply elem_of_show_int in Hin.
Qed.

Lemma set_arguments_other i args c name :
  (∀ n, i < n ≤ i + Z.of_nat (length args) → name ≠ lit "ARG" ++ show_int n) →
  variables (set_arguments i args c).1 !! name = variables c !! name.
Proof.
  revert i c. induction args as [|a args IH]; intros i c Hn; simpl in *; [done|].
  specialize (IH (i + 1) (set_variable c (lit "ARG" ++ show_int (i + 1)) a).1).
  destruct (set_arguments _ _ _) as [c2 ev]. simpl in *.
  rewrite IH by (intros n ?; apply Hn; lia).
  apply lookup_insert_ne. apply not_eq_sym, Hn. lia.
Qed.

(** [ARG1], [ARG2], ... hold the arguments. *)
Lemma set_arguments_lookup i args c k a :
  0 ≤ i → args !! k = Some a →
  variables (set_arguments i args c).1 !! (lit "ARG" ++ show_int (i + Z.of_nat k + 1)) = Some a.
Proof.
  revert i c k. induction args as [|b args IH]; intros i c k Hi Hk; [done|].
  specialize (IH (i + 1) (set_variable c (lit "ARG" ++ show_int (i + 1)) b).1).
  pose proof (set_arguments_other (i + 1) args (set_variable c (lit "ARG" ++ show_int (i + 1)) b).1
    (lit "ARG" ++ show_int (i + 1))) as Ho.
  simpl set_arguments. destruct (set_arguments (i + 1) args _) as [c2 ev]. simpl fst in *.
  destruct k as [|k].
  - injection Hk as ->. rewrite Z.add_0_r, Ho; [apply lookup_insert_eq|].
    intros n Hn Eq. simpl in Eq. injection Eq as Eq. apply show_int_inj in Eq; lia.
  - rewrite <-(IH k) by (done || lia). do 3 f_equal. lia.
Qed.

Lemma gosub_exec_ok w c args d :
  dest_parse args = Some d → (depth w < MAX_GOSUB_DEPTH)%nat →
  ∃ w' c' ev, gosub_exec w c args = (w', c', ev, ExecSuccess)
    ∧ stack_of w' = stack_of w ++ [call_frame c d]
    ∧ location c' = dest_location c d ∧ same_call c c'
    ∧ variables c' = variables (set_arguments 0 (ds_arguments d)
        (set_variable c (lit "ARGC") (show_int (Z.of_nat (length (ds_arguments d))))).1).1.
Proof.
  intros Hd Hw. unfold gosub_exec. rewrite Hd.
  change (stack_depth (get_or_create_stack w)) with (depth w).
  destruct (Nat.leb_spec MAX_GOSUB_DEPTH (depth w)); [lia|].
  destruct (set_variable c _ _) as [c1 ev0] eqn:E1. cbn [fst].
  assert (Hc1 : location c1 = location c ∧ same_call c c1)
    by (unfold set_variable in E1; simplify_eq; by split_and!).
  pose proof (set_arguments_fields 0 (ds_arguments d) c1) as Hf.
  destruct (set_arguments 0 (ds_arguments d) c1) as [c2 ev] eqn:E. simpl in Hf |- *.
  destruct Hf as [Hl (? & ? & ? & ?)], Hc1 as [Hl1 (? & ? & ? & ?)].
  rewrite Hl1 in Hl. unfold location in Hl. injection Hl as Hc He _.
  do 3 eexists. split; [reflexivity|]. split_and!; [done| |split_and!; simpl; congruence|done].
  unfold location, dest_location. simpl. by rewrite Hc, He.
Qed.

Lemma gosub_exec_full w c args :
  (MAX_GOSUB_DEPTH ≤ depth w)%nat → gosub_exec w c args = (w, c, [], ExecFailed).
Proof.
  intros Hw. unfold gosub_exec. destruct (dest_parse args); [|done].
  change (stack_depth (get_or_create_stack w)) with (depth w).
  by destruct (Nat.leb_spec MAX_GOSUB_DEPTH (depth w)); [|lia].
Qed.

Section return_proofs.
Context `{HashOrder}.

Lemma return_exec_ok w c args fs f :
  stack_of w = fs ++ [f] → saved_variables f = ∅ →
  ∃ w' c' ev, return_exec w c args = (w', c', ev, ExecSuccess)
    ∧ stack_of w' = fs ∧ location c' = (fr_context f, fr_exten f, fr_priority f)
    ∧ same_call c c'
    ∧ variables c' = match nonempty (trim args) with
                     | Some v => <[lit "GOSUB_RETVAL" := v]> (variables c)
                     | None => variables c
                     end.
Proof.
  intros Hw Hs. unfold return_exec, stack_pop. unfold stack_of in Hw. rewrite Hw, last_snoc.
  rewrite Hs. replace (hash_iter ∅) with (@nil (str * option str)).
  2: { symmetry. apply Permutation_nil_r. by rewrite hash_iter_perm, map_to_list_empty. }
  simpl foldl. destruct (trim args) as [|ch v]; simpl.
  all: do 3 eexists; split; [reflexivity|]; split_and!; try done.
  all: unfold stack_of; simpl; by rewrite removelast_last.
Qed.

(** The outcome of a fragment that starts at depth [n]. *)
Definition fragment_ok (p : fragment) (w : Datastore) (c : Channel) : Prop :=
  ∃ w' c', run_fragment p w c = Some (w', c')
    ∧ stack_of w' = stack_of w
    ∧ location c' = final_place p (location c)
    ∧ get_variable c' (lit "GOSUB_RETVAL")
      = final_value p (get_variable c (lit "GOSUB_RETVAL")).

Lemma depth_stack_of w : depth w = length (stack_of w).
Proof. done. Qed.

Lemma gosub_keeps_retval c d :
  variables (set_arguments 0 (ds_arguments d)
    (set_variable c (lit "ARGC") (show_int (Z.of_nat (length (ds_arguments d))))).1).1
    !! lit "GOSUB_RETVAL" = variables c !! lit "GOSUB_RETVAL".
Proof.
  rewrite set_arguments_other by done. simpl. by rewrite lookup_insert_ne.
Qed.

Lemma run_fragment_ok p : ∀ w c,
  calls_parse p = true → (depth w + nesting p ≤ MAX_GOSUB_DEPTH)%nat → fragment_ok p w c.
Proof.
  induction p as [|ctx ext prio p IH|args body IHb retval p IH]; intros w c Hp Hn; simpl in *.
  - by exists w, c.
  - apply (IH w (set_location c ctx ext prio)); [done|lia].
  - apply andb_true_iff in Hp as [[Ha Hb]%andb_true_iff Hp].
    apply bool_decide_eq_true in Ha as [d Hd].
    destruct (gosub_exec_ok w c args d Hd) as (w1 & c1 & ev1 & E1 & Hs1 & _ & _ & Hv1); [lia|].
    destruct (IHb w1 c1 Hb) as (w2 & c2 & E2 & Hs2 & _ & Hv2).
    { rewrite depth_stack_of, Hs1, length_app, <-depth_stack_of. simpl. lia. }
    destruct (return_exec_ok w2 c2 retval (stack_of w) (call_frame c d))
      as (w3 & c3 & ev3 & E3 & Hs3 & Hl3 & _ & Hv3); [congruence|done|].
    destruct (IH w3 c3 Hp) as (w4 & c4 & E4 & Hs4 & Hl4 & Hv4).
    { rewrite depth_stack_of, Hs3, <-depth_stack_of. lia. }
    exists w4, c4. simpl. rewrite E1. simpl. rewrite E2. simpl. rewrite E3.
    split_and!; [done|congruence|by rewrite Hl4, Hl3|].
    rewrite Hv4. simpl. f_equal. unfold get_variable in *. rewrite Hv3.
    destruct (nonempty (trim retval)); [apply lookup_insert_eq|].
    rewrite Hv2. f_equal. rewrite Hv1. apply gosub_keeps_retval.
Qed.

Lemma run_fragment_too_deep p : ∀ w c,
  (depth w ≤ MAX_GOSUB_DEPTH)%nat → calls_parse p = true →
  (MAX_GOSUB_DEPTH < depth w + nesting p)%nat → run_fragment p w c = None.
Proof.
  induction p as [|ctx ext prio p IH|args body IHb retval p IH]; intros w c Hw Hp Hn; simpl in *.
  - lia.
  - by apply IH.
  - apply andb_true_iff in Hp as [[Ha Hb]%andb_true_iff Hp].
    apply bool_decide_eq_true in Ha as [d Hd].
    destruct (decide (depth w = MAX_GOSUB_DEPTH)) as [Heq|Hne].
    { by rewrite gosub_exec_full by lia. }
    destruct (gosub_exec_ok w c args d Hd) as (w1 & c1 & ev1 & -> & Hs1 & _ & _ & _); [lia|].
    assert (Hd1 : depth w1 = S (depth w))
      by (rewrite !depth_stack_of, Hs1, length_app; simpl; lia).
    destruct (decide (depth w1 + nesting body ≤ MAX_GOSUB_DEPTH)%nat) as [Hok|Hdeep].
    2: { rewrite (IHb w1 c1); [done|lia|done|lia]. }
    destruct (run_fragment_ok body w1 c1 Hb Hok) as (w2 & c2 & -> & Hs2 & _). simpl.
    destruct (return_exec_ok w2 c2 retval (stack_of w) (call_frame c d))
      as (w3 & c3 & ev3 & -> & Hs3 & _); [congruence|done|].
    assert (Hd3 : depth w3 = depth w) by by rewrite !depth_stack_of, Hs3.
    apply IH; [lia|done|lia].
Qed.
End return_proofs.

(** Subroutine calls nest.  For every fragment of jumps and balanced calls
    whose destinations parse, run on a channel whose stack has [n] frames: if its
    nesting fits within the limit of 128 frames, every GoSub and Return
    succeeds, the stack is as before, the channel is where the fragment's jumps
    outside the subroutines put it (every call came back to its place), and
    [GOSUB_RETVAL] holds the last value returned; if it does not fit, a GoSub
    fails. *)
Theorem balanced_calls_return `{HashOrder} (p : fragment) (w : Datastore) (c : Channel) :
  calls_parse p = true → (depth w ≤ MAX_GOSUB_DEPTH)%nat →
  if (depth w + nesting p <=? MAX_GOSUB_DEPTH)%nat then
    ∃ w' c', run_fragment p w c = Some (w', c')
      ∧ stack_of w' = stack_of w
      ∧ location c' = final_place p (location c)
      ∧ get_variable c' (lit "GOSUB_RETVAL")
        = final_value p (get_variable c (lit "GOSUB_RETVAL"))
  else run_fragment p w c = None.
Proof.
  intros Hp Hw. destruct (Nat.leb_spec (depth w + nesting p) MAX_GOSUB_DEPTH).
  - by apply run_fragment_ok.
  - by apply run_fragment_too_deep.
Qed.

(** A call of [check,1] that calls [log,1], jumps, and returns 42. *)
Definition ex_fragment : fragment :=
  Jump (lit "default") (lit "1") 7
    (Call (lit "check,1(a,b)")
       (Call (lit "log,1") Stop [] (Jump (lit "x") (lit "y") 9 Stop)) (lit " 42 ") Stop).

Lemma balanced_calls_return_witness :
  ∃ w' c', @run_fragment key_order ex_fragment None ex_up = Some (w', c')
    ∧ stack_of w' = [] ∧ location c' = (lit "default", lit "1", 7)
    ∧ get_variable c' (lit "GOSUB_RETVAL") = Some (lit "42").
Proof.
  exact (@balanced_calls_return key_order ex_fragment None ex_up eq_refl
           ltac:(vm_compute; lia)).
Defined.

(** ** GoSub in the execution loop *)

Definition executes (name : str) (e : PbxEvent) : bool :=
  match e with Execute n _ => str_eqb n name | _ => false end.

Section gosub_loop.
Context `{FuncRegistry, RegexEngine, HashOrder, UnicodeCase}.
Variable secs : Z.
Variable dialplan : Dialplan.
Implicit Types s : Run Datastore.

#[local] Instance apps : AppRegistry Datastore := stack_apps secs.

Lemma stack_apps_registered :
  find_app (lit "GoSub") = Some (adapt_stack gosub_exec)
  ∧ find_app (lit "Return") = Some (adapt_stack return_exec).
Proof. done. Qed.

(** A turn that executes an application of the stack, which succeeds and moves
    the channel. *)
Lemma iteration_moves s name data lbl f w' c' evs ctx ext prio :
  location (chan s) = (ctx, ext, prio) →
  lookup_priority dialplan ctx ext prio = Some (mkPriority prio name data lbl) →
  chr "$" ∉ data → find_app name = Some (adapt_stack f) →
  f (world s) (chan s) data = (w', c', evs, ExecSuccess) →
  iterations s + 1 ≤ PBX_MAX_ITERATIONS →
  softhangup_flags c' = 0 → location c' ≠ (ctx, ext, prio) →
  iteration dialplan s
  = Done (Continue, mkRun w' c' true (error s) (iterations s + 1)
      (trace s ++ Newexten (unique_id (chan s)) ctx ext prio name data
         :: Execute name data :: (Emitted <$> evs))).
Proof.
  intros Hl Hp Hd Hn Hf Hi Hs Hm. unfold iteration. simpl.
  destruct (Z.ltb_spec PBX_MAX_ITERATIONS (iterations s + 1)); [lia|].
  unfold location in Hl. injection Hl as Hc He Hpr. rewrite Hc, He, Hpr, Hp. simpl.
  unfold substitute_variables. rewrite substitute_plain by done. simpl. rewrite Hn.
  unfold execute, adapt_stack. simpl. rewrite Hf. simpl.
  unfold check_hangup. rewrite Hs. simpl. rewrite bool_decide_eq_false_2 by done. simpl.
  by rewrite <-(assoc_L (++)).
Qed.

Variables (ctx ext data data' : str) (prio : Z) (lbl lbl' : option str) (dest : GoSubDest).
Variables (ctx' ext' : str) (prio' : Z).
Hypothesis Hgosub : lookup_priority dialplan ctx ext prio = Some (mkPriority prio (lit "GoSub") data lbl).
Hypothesis Hreturn : lookup_priority dialplan ctx' ext' prio' = Some (mkPriority prio' (lit "Return") data' lbl').
Hypothesis Hdata : chr "$" ∉ data.
Hypothesis Hdata' : chr "$" ∉ data'.
Hypothesis Hdest : dest_parse data = Some dest.
Hypothesis Htarget : ∀ c, location c = (ctx, ext, prio) → dest_location c dest = (ctx', ext', prio').

(** The channel is at the GoSub, with [n] frames on its stack. *)
Definition at_gosub s : Prop :=
  location (chan s) = (ctx, ext, prio) ∧ softhangup_flags (chan s) = 0
  ∧ (depth (world s) < MAX_GOSUB_DEPTH)%nat.

Lemma gosub_return_differ : (ctx', ext', prio') ≠ (ctx, ext, prio).
Proof. intros [= -> -> ->]. rewrite Hgosub in Hreturn. discriminate. Qed.

Definition round_events (uid : str) (evs evs' : list ChannelEvent) : list PbxEvent :=
  (Newexten uid ctx ext prio (lit "GoSub") data :: Execute (lit "GoSub") data :: (Emitted <$> evs))
  ++ (Newexten uid ctx' ext' prio' (lit "Return") data' :: Execute (lit "Return") data'
        :: (Emitted <$> evs')).

(** Two turns, and the channel is at the GoSub again. *)
Lemma gosub_round s fuel :
  at_gosub s → iterations s + 2 ≤ PBX_MAX_ITERATIONS →
  ∃ s' evs evs', loop dialplan (S (S fuel)) s = loop dialplan fuel s'
    ∧ at_gosub s' ∧ iterations s' = iterations s + 2 ∧ error s' = error s
    ∧ trace s' = trace s ++ round_events (unique_id (chan s)) evs evs'.
Proof.
  intros (Hl & Hf & Hd) Hi.
  destruct (gosub_exec_ok _ (chan s) data dest Hdest Hd)
    as (w1 & c1 & ev1 & E1 & Hs1 & Hl1 & (_ & Hf1 & _ & Hu1) & _).
  rewrite Htarget in Hl1 by done.
  pose proof gosub_return_differ as Hdiff.
  assert (I1 := iteration_moves s (lit "GoSub") data lbl _ w1 c1 ev1 ctx ext prio Hl Hgosub Hdata
    (proj1 stack_apps_registered) E1 ltac:(lia) ltac:(congruence) ltac:(congruence)).
  destruct (return_exec_ok w1 c1 data' (stack_of (world s)) (call_frame (chan s) dest) Hs1 eq_refl)
    as (w2 & c2 & ev2 & E2 & Hs2 & Hl2 & (_ & Hf2 & _ & Hu2) & _).
  set (s1 := mkRun w1 c1 true (error s) (iterations s + 1) _) in I1.
  unfold location in Hl. injection Hl as Hc He Hp. simpl in Hl2. rewrite Hc, He, Hp in Hl2.
  assert (I2 := iteration_moves s1 (lit "Return") data' lbl' _ w2 c2 ev2 ctx' ext' prio' Hl1 Hreturn
    Hdata' (proj2 stack_apps_registered) E2 ltac:(simpl; lia) ltac:(congruence) ltac:(congruence)).
  eexists _, ev1, ev2. split; [|split_and!].
  - simpl loop at 1. rewrite I1, I2. reflexivity.
  - split_and!; simpl; [done|congruence|]. by rewrite depth_stack_of, Hs2.
  - simpl. lia.
  - done.
  - unfold round_events. simpl. rewrite Hu1. by rewrite <-(assoc_L (++)).
Qed.

Lemma count_round p uid evs evs' :
  (∀ e, p (Emitted e) = false) → (∀ u c e n a d, p (Newexten u c e n a d) = false) →
  count_events p (round_events uid evs evs')
  = ((if p (Execute (lit "GoSub") data) then 1 else 0)
     + (if p (Execute (lit "Return") data') then 1 else 0))%nat.
Proof.
  intros Hp Hn. unfold round_events. rewrite count_events_app.
  pose proof (count_events_emitted p evs Hp) as E1.
  pose proof (count_events_emitted p evs' Hp) as E2. unfold count_events in *. simpl.
  rewrite !Hn. repeat case_match; simpl; by rewrite E1, E2.
Qed.

(** Executions of GoSub, of Return, of anything. *)
Definition counts (tr : list PbxEvent) : nat * nat * nat :=
  (count_events (executes (lit "GoSub")) tr, count_events (executes (lit "Return")) tr,
   count_events is_execute tr).

Definition add_counts (k : nat * nat * nat) (n : nat) : nat * nat * nat :=
  let '(g, r, a) := k in (g + n, r + n, a + 2 * n)%nat.

Lemma gosub_rounds n : ∀ s fuel,
  at_gosub s → iterations s + 2 * Z.of_nat n = PBX_MAX_ITERATIONS →
  ∃ s', loop dialplan (2 * n + S fuel) s = Some (Done s')
    ∧ iterations s' = PBX_MAX_ITERATIONS + 1 ∧ error s' = true
    ∧ location (chan s') = (ctx, ext, prio)
    ∧ counts (trace s') = add_counts (counts (trace s)) n.
Proof.
  induction n as [|n IH]; intros s fuel Hs Hi.
  - exists (set_error (count_iteration s)). simpl. unfold iteration. simpl.
    destruct (Z.ltb_spec PBX_MAX_ITERATIONS (iterations s + 1)); [|lia].
    destruct Hs as (Hl & _). split_and!; [done|lia|done|done|].
    unfold counts. simpl. f_equal; [f_equal|]; lia.
  - destruct (gosub_round s (2 * n + S fuel) Hs) as (s1 & evs & evs' & E & Hs1 & Hi1 & _ & Ht); [lia|].
    destruct (IH s1 fuel Hs1) as (s2 & E2 & Hi2 & He2 & Hl2 & Hc2); [lia|].
    exists s2. split_and!; [|done..|].
    + replace (2 * S n + S fuel)%nat with (S (S (2 * n + S fuel))) by lia. by rewrite E.
    + rewrite Hc2. unfold counts. rewrite Ht, !count_events_app, !count_round by done.
      simpl. f_equal; [f_equal|]; lia.
Qed.
End gosub_loop.

(** A subroutine that returns is called again, for ever.  GoSub saves the
    priority it is executed at, Return restores it, and the loop takes the
    restored location for a jump: the call is executed again and the next
    priority is never reached.  For every dialplan with a GoSub at the channel's
    location whose destination holds a Return, the run executes the two in turn,
    5000 times each and nothing else, until the limit of 10 000 iterations stops
    it with an error, which is reported as a success. *)
Theorem gosub_return_repeats `{FuncRegistry, RegexEngine, HashOrder, UnicodeCase}
    secs (dialplan : Dialplan) ctx ext prio lbl data dest ctx' ext' prio' lbl' data'
    (w : Datastore) (c : Channel) fuel :
  let _ := stack_apps secs in
  let rounds := Z.to_nat 5000 in
  lookup_priority dialplan ctx ext prio = Some (mkPriority prio (lit "GoSub") data lbl) →
  lookup_priority dialplan ctx' ext' prio' = Some (mkPriority prio' (lit "Return") data' lbl') →
  chr "$" ∉ data → chr "$" ∉ data' → dest_parse data = Some dest →
  location c = (ctx, ext, prio) → dest_location c dest = (ctx', ext', prio') →
  ext ≠ [] → softhangup_flags c = 0 → (depth w < MAX_GOSUB_DEPTH)%nat →
  ∃ s, loop dialplan LOOP_FUEL (pbx_start w c) = Some (Done s)
    ∧ iterations s = PBX_MAX_ITERATIONS + 1 ∧ error s = true
    ∧ location (chan s) = (ctx, ext, prio)
    ∧ count_events (executes (lit "GoSub")) (trace s) = rounds
    ∧ count_events (executes (lit "Return")) (trace s) = rounds
    ∧ count_events is_execute (trace s) = (2 * rounds)%nat
    ∧ (has_extension dialplan ctx (lit "h") = false →
       pbx_run dialplan fuel w c = Some (Done (RunSuccess, final_hangup s))).
Proof.
  intros apps0 rounds Hg Hr Hd Hd' Hdest Hl Ht Hext Hf Hw.
  assert (exten c = ext ∧ context c = ctx) as [Ee Ec] by (unfold location in Hl; by simplify_eq).
  assert (Hst : pbx_start w c = mkRun w c false false 0 []).
  { unfold pbx_start. by rewrite (proj2 (str_eqb_false (exten c) [])) by by rewrite Ee. }
  assert (Hfuel : (2 * rounds + 1)%nat = LOOP_FUEL)
    by (unfold LOOP_FUEL, PBX_MAX_ITERATIONS, rounds; lia).
  destruct (gosub_rounds secs dialplan ctx ext data data' prio lbl lbl' dest ctx' ext' prio' Hg Hr Hd Hd'
    Hdest) with (n := rounds) (s := mkRun w c false false 0 []) (fuel := 0%nat)
    as (s & E & Hi & He & Hls & Hc).
  - intros c' Hl'. rewrite <-Ht. unfold dest_location, location in *. congruence.
  - by split_and!.
  - unfold PBX_MAX_ITERATIONS, rounds. simpl. lia.
  - exists s. clearbody rounds. unfold counts in Hc. simpl in Hc. injection Hc as Hc1 Hc2 Hc3.
    rewrite Hfuel in E. unfold apps in E. subst apps0.
    split_and!; [by rewrite Hst|done..|].
    intros Hh. unfold pbx_run. rewrite Hst, E. simpl. unfold run_hangup_extension.
    unfold location in Hls. injection Hls as -> _ _. rewrite Hh. simpl. by rewrite He, orb_true_r.
Qed.

(** [1,1,GoSub(sub,s,1)], [1,2,Hangup()] and [sub]: [s,1,Return()]. *)
Definition ex_gosub_dialplan : Dialplan :=
  add_context (ex_dialplan [mkPriority 1 (lit "GoSub") (lit "sub,s,1") None;
                            mkPriority 2 (lit "Hangup") [] None])
    (ctx_add_extension (ctx_new (lit "sub"))
       (add_priority (ext_new (lit "s")) (mkPriority 1 (lit "Return") [] None))).

(** Text without upper case outside ASCII. *)
Definition ascii_text : UnicodeCase := λ x, x.

Lemma gosub_return_repeats_witness :
  ∃ s, @pbx_run Datastore (@stack_apps key_order ascii_text 0) no_functions literal_engine key_order
         ex_gosub_dialplan 0 None ex_up = Some (Done (RunSuccess, final_hangup s))
    ∧ count_events (executes (lit "Hangup")) (trace s) = 0%nat ∧ error s = true.
Proof.
  destruct (@gosub_return_repeats no_functions literal_engine key_order ascii_text 0
    ex_gosub_dialplan (lit "default") (lit "1") 1 None (lit "sub,s,1")
    (mkDest (Some (lit "sub")) (Some (lit "s")) 1 []) (lit "sub") (lit "s") 1 None [] None ex_up 0)
    as (s & _ & _ & He & _ & Hg & Hr & Ha & Hrun).
  1,2,5,6,7,9: by vm_compute.
  - apply (bool_decide_unpack _). by vm_compute.
  - set_solver.
  - discriminate.
  - vm_compute. lia.
  - exists s. split; [apply Hrun; by vm_compute|]. split; [|exact He].
    assert (Hsum : ∀ tr, (count_events (executes (lit "GoSub")) tr
      + count_events (executes (lit "Return")) tr + count_events (executes (lit "Hangup")) tr
      ≤ count_events is_execute tr)%nat).
    { unfold count_events. induction tr as [|[u x y z a d|n d|e] tr IH]; simpl in *; [lia|exact IH| |exact IH].
      destruct (str_eqb n (lit "GoSub")) eqn:E1; simpl;
        [apply str_eqb_true in E1; subst; simpl; lia|].
      destruct (str_eqb n (lit "Return")) eqn:E2; simpl;
        [apply str_eqb_true in E2; subst; simpl; lia|].
      destruct (str_eqb n (lit "Hangup")); simpl; lia. }
    specialize (Hsum (trace s)). lia.
Defined.

(** ** Calling convention *)

(** The destination as written in the dialplan. *)
Definition dest_text (d : GoSubDest) : str :=
  join (chr ",") (option_list (ds_context d) ++ option_list (ds_exten d)
                  ++ [show_int (ds_priority d)])
  ++ match ds_arguments d with
     | [] => []
     | args => chr "(" :: join (chr ",") args ++ [chr ")"]
     end.

(** Characters with a meaning in a destination. *)
Definition plain_piece (x : str) : Prop :=
  trimmed x = true ∧ (chr "," ∉ x) ∧ (chr "(" ∉ x) ∧ (chr ")" ∉ x).

Definition dest_wf (d : GoSubDest) : Prop :=
  (∀ x, ds_context d = Some x → plain_piece x ∧ (x ≠ []) ∧ is_Some (ds_exten d))
  ∧ (∀ x, ds_exten d = Some x → plain_piece x ∧ (x ≠ []))
  ∧ 0 ≤ ds_priority d < 2 ^ 31
  ∧ Forall plain_piece (ds_arguments d).

Lemma digits_plain n : 0 ≤ n → plain_piece (show_int n) ∧ (show_int n ≠ []).
Proof.
  intros Hn. assert (Hd : ∀ ch, ch ∈ show_int n → is_ascii_digit ch = true)
    by (intros ch; by apply elem_of_show_int).
  split; [split_and!|].
  - apply trimmed_no_ws. intros ch Hin%Hd. by apply digit_not_whitespace.
  - by intros Hin%Hd.
  - by intros Hin%Hd.
  - by intros Hin%Hd.
  - destruct (show_int_head n Hn) as (ch & x & ->). done.
Qed.

Lemma eq_ignore_case_digits n : 0 ≤ n → eq_ignore_ascii_case (show_int n) (lit "n") = false.
Proof.
  intros Hn. apply str_eqb_false. intros E.
  destruct (show_int_head n Hn) as (ch & x & Hs). rewrite Hs in E. simpl in E. injection E as E _.
  assert (Hd : is_ascii_digit ch = true) by (apply (elem_of_show_int n); [done|]; rewrite Hs; by left).
  apply digit_bounds in Hd. unfold to_ascii_lower in E.
  destruct (is_ascii_upper ch) eqn:Eu; [|vm_compute (if is_ascii_upper 110 then _ else _) in E; lia].
  unfold is_ascii_upper in Eu. apply andb_true_iff in Eu as [Eu%N.leb_le _]. lia.
Qed.

Lemma parse_priority_show n : 0 ≤ n < 2 ^ 31 → parse_priority (show_int n) = Some n.
Proof.
  intros Hn. unfold parse_priority. rewrite eq_ignore_case_digits by lia. by apply parse_i32_show.
Qed.

Lemma join_pieces ps :
  ps ≠ [] → Forall (λ x, plain_piece x ∧ x ≠ []) ps →
  trimmed (join (chr ",") ps) = true ∧ (join (chr ",") ps ≠ []) ∧ (chr "(" ∉ join (chr ",") ps).
Proof.
  induction ps as [|p [|q ps] IH]; intros Hne Hps; [done| |].
  - apply Forall_cons in Hps as [((Ht & _ & Ho & _) & Hp) _]. by split_and!.
  - apply Forall_cons in Hps as [((Ht & _ & Ho & _) & Hp) Hps].
    destruct (IH ltac:(done) Hps) as (Ht' & Hne' & Ho'). rewrite join_cons. split_and!.
    + by apply (trimmed_app p [chr ","] (join (chr ",") (q :: ps))).
    + by destruct p.
    + set_solver.
Qed.

Lemma nonempty_id x : x ≠ [] → nonempty x = Some x.
Proof. by destruct x. Qed.

Lemma plain_piece_trim x : plain_piece x → trim x = x.
Proof. intros [H _]. by apply trim_trimmed. Qed.

(** The arguments between the parentheses. *)
Lemma parse_arguments args :
  args ≠ [] → Forall plain_piece args →
  trim <$> split (chr ",") (trim_end_char (chr ")") (join (chr ",") args ++ [chr ")"])) = args.
Proof.
  intros Hne Ha. unfold trim_end_char. rewrite trim_end_by_app by done.
  change (trim_end_by (N.eqb (chr ")"))) with (trim_end_char (chr ")")).
  rewrite trim_end_char_id.
  - rewrite split_join; [|done|].
    + rewrite <-(list_fmap_id args) at 2. apply list_fmap_ext. intros i x Hx.
      apply plain_piece_trim. by apply (Forall_lookup_1 _ _ _ _ Ha Hx).
    + eapply Forall_impl; [exact Ha|]. by intros x (_ & H & _).
  - intros [|(q & Hq & Hin)]%elem_of_join; [done|].
    rewrite Forall_forall in Ha. by destruct (Ha q Hq) as (_ & _ & _ & H).
Qed.

(** [dest_parse] on a text without surrounding white space. *)
Lemma dest_parse_trimmed a :
  trimmed a = true → a ≠ [] →
  dest_parse a =
    let '(loc, arguments) :=
      match split_once (chr "(") a with
      | Some (l, r) => (l, trim <$> split (chr ",") (trim_end_char (chr ")") r))
      | None => (a, [])
      end in
    match split (chr ",") loc with
    | [p] => n ← parse_priority (trim p); Some (mkDest None None n arguments)
    | [e; p] => n ← parse_priority (trim p); Some (mkDest None (Some (trim e)) n arguments)
    | [c; e; p] =>
        n ← parse_priority (trim p);
        Some (mkDest (nonempty (trim c)) (nonempty (trim e)) n arguments)
    | _ => None
    end.
Proof. intros Ht Hne. unfold dest_parse. rewrite trim_trimmed by done. by destruct a. Qed.

Lemma dest_parse_text d : dest_wf d → dest_parse (dest_text d) = Some d.
Proof.
  intros (Hc & He & Hp & Ha). destruct (digits_plain (ds_priority d)) as [Hd Hdne]; [lia|].
  set (ps := option_list (ds_context d) ++ option_list (ds_exten d) ++ [show_int (ds_priority d)]).
  assert (Hps : Forall (λ x, plain_piece x ∧ x ≠ []) ps).
  { subst ps. rewrite !Forall_app. split_and!; [| |by constructor].
    - destruct (ds_context d) as [x|]; constructor; [|done]. destruct (Hc x eq_refl) as (? & ? & _). done.
    - destruct (ds_exten d) as [x|]; constructor; [|done]. by apply He. }
  destruct (join_pieces ps) as (Ht & Hne & Ho); [|done|].
  { subst ps. by destruct (ds_context d), (ds_exten d). }
  assert (Hsplit : split (chr ",") (join (chr ",") ps) = ps).
  { apply split_join; [subst ps; by destruct (ds_context d), (ds_exten d)|].
    eapply Forall_impl; [exact Hps|]. by intros x ((_ & H & _) & _). }
  assert (Hloc : match ps with
    | [p] => n ← parse_priority (trim p); Some (mkDest None None n (ds_arguments d))
    | [e; p] => n ← parse_priority (trim p); Some (mkDest None (Some (trim e)) n (ds_arguments d))
    | [c; e; p] =>
        n ← parse_priority (trim p);
        Some (mkDest (nonempty (trim c)) (nonempty (trim e)) n (ds_arguments d))
    | _ => None
    end = Some d).
  { subst ps. destruct d as [oc oe n args]. simpl in *.
    destruct oc as [c|]; [destruct (Hc c eq_refl) as (Pc & Nc & [e ->])|destruct oe as [e|]];
      try destruct (He e eq_refl) as [Pe Ne]; simpl;
      rewrite ?(plain_piece_trim (show_int n)), parse_priority_show by done; simpl; f_equal;
      rewrite ?plain_piece_trim, ?nonempty_id by done; done. }
  unfold dest_text. fold ps. rewrite dest_parse_trimmed.
  - destruct (ds_arguments d) as [|a args] eqn:Ea.
    + by rewrite app_nil_r, (proj2 (split_once_None (chr "(") _) Ho), Hsplit.
    + by rewrite (proj2 (split_once_Some (chr "(") _ (join (chr ",") ps)
        (join (chr ",") (a :: args) ++ [chr ")"])) (conj eq_refl Ho)), Hsplit, parse_arguments by done.
  - destruct (ds_arguments d) as [|a args]; [by rewrite app_nil_r|].
    by apply (trimmed_app _ (chr "(" :: join (chr ",") (a :: args)) [chr ")"]).
  - by destruct (join (chr ",") ps).
Qed.

(** The calling convention of GoSub.  For every destination with plain
    names and arguments, written in the dialplan as [context,exten,priority]
    with the arguments in parentheses (parts left out included), and a stack
    that is not full: GoSub parses the text back, moves the channel there
    (keeping its context and extension where none is given), pushes the location
    of the call, sets [ARGC] to the number of arguments and [ARG1], [ARG2], ...
    to the arguments in order, and touches no other variable. *)
Theorem gosub_passes_arguments (w : Datastore) (c : Channel) (d : GoSubDest) :
  dest_wf d → (depth w < MAX_GOSUB_DEPTH)%nat →
  ∃ w' c' evs,
    gosub_exec w c (dest_text d) = (w', c', evs, ExecSuccess)
    ∧ location c' = dest_location c d
    ∧ stack_of w' = stack_of w ++ [call_frame c d]
    ∧ get_variable c' (lit "ARGC") = Some (show_int (Z.of_nat (length (ds_arguments d))))
    ∧ (∀ k a, ds_arguments d !! k = Some a →
         get_variable c' (lit "ARG" ++ show_int (Z.of_nat k + 1)) = Some a)
    ∧ (∀ name, name ≠ lit "ARGC" →
         (∀ n, 0 < n ≤ Z.of_nat (length (ds_arguments d)) → name ≠ lit "ARG" ++ show_int n) →
         get_variable c' name = get_variable c name).
Proof.
  intros Hd Hw.
  destruct (gosub_exec_ok w c _ d (dest_parse_text d Hd) Hw) as (w' & c' & ev & E & Hs & Hl & _ & Hv).
  exists w', c', ev. unfold get_variable. rewrite Hv. split_and!; [done..| | |].
  - rewrite set_arguments_other; [apply lookup_insert_eq|].
    intros n Hn. apply ARGC_not_argument. lia.
  - intros k a Hk. by apply (set_arguments_lookup 0).
  - intros name Hne Hn. rewrite set_arguments_other by (intros; apply Hn; lia).
    by apply lookup_insert_ne.
Qed.

Lemma gosub_passes_arguments_witness :
  ∃ w' c' evs,
    gosub_exec None ex_up (lit "sub,s,1(x,y z)") = (w', c', evs, ExecSuccess)
    ∧ location c' = (lit "sub", lit "s", 1) ∧ get_variable c' (lit "ARG2") = Some (lit "y z").
Proof.
  destruct (gosub_passes_arguments None ex_up
    (mkDest (Some (lit "sub")) (Some (lit "s")) 1 [lit "x"; lit "y z"]))
    as (w' & c' & ev & E & Hl & _ & _ & Ha & _).
  - split_and!; [intros x [= <-]|intros x [= <-]|done|done|]; repeat constructor;
      try done; try (by eexists); apply (bool_decide_unpack _); by vm_compute.
  - vm_compute. lia.
  - exists w', c', ev. split; [exact E|]. split; [exact Hl|]. exact (Ha 1%nat _ eq_refl).
Defined.

(** ** The calendar *)

(** Days from 1 January 1970 to 1 January of a year, and within a year to the
    first of a month. *)
Definition days_before_year (y : Z) : Z :=
  365 * (y - 1970) + ((y - 1) / 4 - (y - 1) / 100 + (y - 1) / 400 - 477).
Definition days_before_month (y m : Z) : Z :=
  foldr Z.add 0 (take (Z.to_nat (m - 1)) (month_days (is_leap_year y))).

(** The day [days] after 1 January 1970 is the [d]-th of month [m] of year [y]. *)
Definition is_date (days y m d : Z) : Prop :=
  1970 ≤ y ∧ 1 ≤ m ≤ 12
  ∧ (∃ len, month_days (is_leap_year y) !! Z.to_nat (m - 1) = Some len ∧ 1 ≤ d ≤ len)
  ∧ days = days_before_year y + days_before_month y m + (d - 1).

Lemma days_before_year_succ y : days_before_year (y + 1) = days_before_year y + days_in_year y.
Proof.
  unfold days_before_year, days_in_year, is_leap_year. rewrite Z.add_simpl_r.
  destruct (Z.eqb_spec (y mod 4) 0), (Z.eqb_spec (y mod 100) 0), (Z.eqb_spec (y mod 400) 0);
    simpl; Z.to_euclidean_division_equations; lia.
Qed.

Lemma days_in_year_bounds y : 365 ≤ days_in_year y ≤ 366.
Proof. unfold days_in_year. destruct (is_leap_year y); lia. Qed.

Lemma year_loop_date fuel year remaining :
  0 ≤ remaining < 365 * Z.of_nat fuel → 0 ≤ year → year + Z.of_nat fuel < 2 ^ 32 →
  ∃ y r, year_loop fuel year remaining = Some (y, r)
    ∧ year ≤ y ∧ 0 ≤ r < days_in_year y
    ∧ days_before_year year + remaining = days_before_year y + r.
Proof.
  revert year remaining. induction fuel as [|fuel IH]; intros year remaining Hr Hy Hf; [lia|].
  simpl. pose proof (days_in_year_bounds year).
  destruct (Z.ltb_spec remaining (days_in_year year)).
  - exists year, remaining. split_and!; try done; lia.
  - rewrite wrap_u32_id by (unfold is_u32, u32_max; lia).
    destruct (IH (year + 1) (remaining - days_in_year year)) as (y & r & E & Hyy & Hrr & Hd); [lia..|].
    exists y, r. split_and!; [done|lia|lia|lia|]. rewrite days_before_year_succ in Hd. lia.
Qed.

Lemma month_loop_date month lengths r :
  0 ≤ r < foldr Z.add 0 lengths → Forall (λ n, 0 < n) lengths →
  ∃ k len, month_loop month lengths r
           = (month + Z.of_nat k, r - foldr Z.add 0 (take k lengths) + 1)
    ∧ lengths !! k = Some len ∧ 0 ≤ r - foldr Z.add 0 (take k lengths) < len.
Proof.
  revert month r. induction lengths as [|n lengths IH]; intros month r Hr Hl; simpl in *; [lia|].
  apply Forall_cons in Hl as [Hn Hl]. destruct (Z.ltb_spec r n).
  - exists 0%nat, n. simpl. split_and!; try done; try lia. f_equal; lia.
  - destruct (IH (month + 1) (r - n)) as (k & len & E & Hk & Hb); [lia|done|].
    exists (S k), len. simpl. rewrite E. split_and!; [f_equal; lia|done|lia|lia].
Qed.

Lemma approximate_month_day_date secs :
  0 ≤ secs < 2 ^ 32 * 86400 →
  ∃ y, is_date (secs / 86400) y (approximate_month_day secs).1 (approximate_month_day secs).2.
Proof.
  intros Hs. unfold approximate_month_day.
  assert (Hd : 0 ≤ secs / 86400 < 2 ^ 32)
    by (split; [apply Z.div_pos; lia|apply Z.div_lt_upper_bound; lia]).
  rewrite wrap_u32_id by (unfold is_u32, u32_max; lia). set (days := secs / 86400) in *.
  clearbody days.
  destruct (year_loop_date (YEAR_FUEL days) 1970 days) as (y & r & E & Hy & Hr & Hdays).
  - unfold YEAR_FUEL. Z.to_euclidean_division_equations. lia.
  - lia.
  - unfold YEAR_FUEL. Z.to_euclidean_division_equations. lia.
  - rewrite E. change (days_before_year 1970) with 0 in Hdays.
    destruct (month_loop_date 1 (month_days (is_leap_year y)) r) as (k & len & Em & Hk & Hb).
    + unfold days_in_year in Hr. by destruct (is_leap_year y).
    + by destruct (is_leap_year y); repeat constructor.
    + rewrite Em. exists y. simpl.
      assert (Hk12 : (k < 12)%nat)
        by (apply lookup_lt_Some in Hk; by destruct (is_leap_year y)).
      unfold is_date, days_before_month.
      replace (Z.to_nat (1 + Z.of_nat k - 1)) with k by lia.
      split_and!; [done|lia|lia|exists len; split; [done|lia]|lia].
Qed.

(** A day has one date. *)
Lemma days_before_year_mono y y' :
  y < y' → days_before_year y + days_in_year y ≤ days_before_year y'.
Proof.
  intros Hy. replace y' with (y + 1 + (y' - y - 1)) by lia.
  assert (Hk : 0 ≤ y' - y - 1) by lia. revert Hk. generalize (y' - y - 1) as k.
  apply natlike_ind.
  - rewrite Z.add_0_r, days_before_year_succ. lia.
  - intros k Hk IH. replace (y + 1 + Z.succ k) with (y + 1 + k + 1) by lia.
    rewrite days_before_year_succ. pose proof (days_in_year_bounds (y + 1 + k)). lia.
Qed.

Lemma month_loop_take month lengths k len x :
  Forall (λ n, 0 < n) lengths → lengths !! k = Some len → 0 ≤ x < len →
  month_loop month lengths (foldr Z.add 0 (take k lengths) + x) = (month + Z.of_nat k, x + 1)
  ∧ 0 ≤ foldr Z.add 0 (take k lengths) + x < foldr Z.add 0 lengths.
Proof.
  intros Hl. revert month k. induction Hl as [|n lengths Hn Hl IH]; intros month k Hk Hx; [done|].
  assert (Hpos : 0 ≤ foldr Z.add 0 lengths) by (clear -Hl; induction Hl; simpl in *; lia).
  destruct k as [|k]; simpl in Hk |- *.
  - simplify_eq. rewrite Z.add_0_r, Z.add_0_l. destruct (Z.ltb_spec x len); [split; [done|lia]|lia].
  - destruct (IH (month + 1) k Hk Hx) as [E Hb].
    destruct (Z.ltb_spec (n + foldr Z.add 0 (take k lengths) + x) n); [lia|].
    replace (n + foldr Z.add 0 (take k lengths) + x - n)
      with (foldr Z.add 0 (take k lengths) + x) by lia.
    rewrite E. split; [f_equal; lia|lia].
Qed.

Lemma is_date_in_year days y m d :
  is_date days y m d →
  ∃ r, days = days_before_year y + r ∧ 0 ≤ r < days_in_year y
    ∧ month_loop 1 (month_days (is_leap_year y)) r = (m, d).
Proof.
  intros (Hy & Hm & (len & Hlen & Hd) & ->). exists (days_before_month y m + (d - 1)).
  assert (Hpos : Forall (λ n, 0 < n) (month_days (is_leap_year y)))
    by by destruct (is_leap_year y); repeat constructor.
  destruct (month_loop_take 1 _ _ len (d - 1) Hpos Hlen) as [E Hb]; [lia|].
  unfold days_before_month. rewrite E. split_and!; [lia|lia| |f_equal; lia].
  eapply Z.lt_le_trans; [apply Hb|]. unfold days_in_year. by destruct (is_leap_year y).
Qed.

Lemma is_date_unique days y m d y' m' d' :
  is_date days y m d → is_date days y' m' d' → y = y' ∧ m = m' ∧ d = d'.
Proof.
  intros (r & E & Hr & Hm)%is_date_in_year (r' & E' & Hr' & Hm')%is_date_in_year.
  assert (y = y') as ->.
  { destruct (Z.lt_trichotomy y y') as [H|[H|H]]; [|done|];
      pose proof (days_before_year_mono _ _ H); lia. }
  assert (r = r') as -> by lia. rewrite Hm in Hm'. by simplify_eq.
Qed.

(** ** Time specifications *)

(** The four fields; [None] is [*].  Times are [(hour, minute)], weekdays count
    from Monday as 0, months from January as 1. *)
Record TimeSpec := mkTimeSpec {
  ts_times : option ((Z * Z) * (Z * Z));
  ts_weekdays : option (Z * Z);
  ts_mdays : option (Z * Z);
  ts_months : option (Z * Z) }.

Definition time_text (hm : Z * Z) : str := show_int hm.1 ++ chr ":" :: show_int hm.2.
Definition weekday_text (n : Z) : str := default [] (fst <$> weekday_names !! Z.to_nat n).
Definition month_text (n : Z) : str := default [] (fst <$> month_names !! Z.to_nat (n - 1)).

Definition range_text {A} (text : A → str) (r : option (A * A)) : str :=
  match r with Some (a, b) => text a ++ chr "-" :: text b | None => lit "*" end.

Definition timespec_text (ts : TimeSpec) : str :=
  join (chr ",") [range_text time_text (ts_times ts); range_text weekday_text (ts_weekdays ts);
                  range_text show_int (ts_mdays ts); range_text month_text (ts_months ts)].

Definition range_wf {A} (P : A → Prop) (r : option (A * A)) : Prop :=
  ∀ a b, r = Some (a, b) → P a ∧ P b.

Definition timespec_wf (ts : TimeSpec) : Prop :=
  range_wf (λ hm, 0 ≤ hm.1 < 24 ∧ 0 ≤ hm.2 < 60) (ts_times ts)
  ∧ range_wf (λ n, 0 ≤ n < 7) (ts_weekdays ts)
  ∧ range_wf (λ n, 1 ≤ n ≤ 31) (ts_mdays ts)
  ∧ range_wf (λ n, 1 ≤ n ≤ 12) (ts_months ts).

Definition range_holds {A} (within : A → A → bool) (r : option (A * A)) : bool :=
  match r with Some (a, b) => within a b | None => true end.

(** What it means: times, weekdays and months may wrap around (Friday to
    Monday), days of the month may not. *)
Definition timespec_holds (ts : TimeSpec) (minute weekday mday month : Z) : bool :=
  range_holds (λ s e, cyclic_in (s.1 * 60 + s.2) (e.1 * 60 + e.2) minute) (ts_times ts)
  && range_holds (λ s e, cyclic_in s e weekday) (ts_weekdays ts)
  && range_holds (λ s e, (s <=? mday) && (mday <=? e)) (ts_mdays ts)
  && range_holds (λ s e, cyclic_in s e month) (ts_months ts).

(** A text that can stand on one side of a range. *)
Definition bound_text (x : str) : Prop :=
  ∀ ch, ch ∈ x → is_whitespace ch = false ∧ (ch ≠ chr ",") ∧ (ch ≠ chr "?") ∧ (ch ≠ chr "-").

Lemma bound_text_trim x : bound_text x → trim x = x.
Proof. intros Hx. apply trim_trimmed, trimmed_no_ws. intros ch Hin. apply (Hx _ Hin). Qed.

Lemma bound_text_app x y : bound_text x → bound_text y → bound_text (x ++ y).
Proof. intros Hx Hy ch [?|?]%elem_of_app; auto. Qed.

Lemma bound_text_digits n : 0 ≤ n → bound_text (show_int n).
Proof.
  intros Hn ch Hin%elem_of_show_int; [|done].
  split_and!; [by apply digit_not_whitespace|by intros ->..].
Qed.

Lemma bound_text_closed x :
  forallb (λ ch, negb (is_whitespace ch) && negb (ch =? chr ",")%N && negb (ch =? chr "?")%N
                && negb (ch =? chr "-")%N) x = true →
  bound_text x.
Proof.
  intros Hx ch Hin. rewrite forallb_elem in Hx. specialize (Hx ch Hin). split_bools.
  split_and!; [done|by apply N.eqb_neq..].
Qed.

Lemma bound_text_time hm : 0 ≤ hm.1 → 0 ≤ hm.2 → bound_text (time_text hm).
Proof.
  intros. unfold time_text. apply bound_text_app; [by apply bound_text_digits|].
  apply (bound_text_app [chr ":"]); [by apply bound_text_closed|by apply bound_text_digits].
Qed.

Lemma range_not_star (a b : str) : str_eqb (a ++ chr "-" :: b) (lit "*") = false.
Proof.
  apply str_eqb_false. intros E.
  assert (Hin : chr "-" ∈ lit "*") by (rewrite <-E; set_solver).
  by apply list_elem_of_singleton in Hin.
Qed.

(** The field of a range, split at its dash. *)
Lemma range_split a b :
  bound_text a → split_once (chr "-") (a ++ chr "-" :: b) = Some (a, b).
Proof. intros Ha. apply split_once_Some. split; [done|]. intros Hin. by destruct (Ha _ Hin) as (_ & _ & _ & ?). Qed.

(** A whole field. *)
Definition field_text (x : str) : Prop :=
  ∀ ch, ch ∈ x → is_whitespace ch = false ∧ (ch ≠ chr ",") ∧ (ch ≠ chr "?").

Lemma range_field {A} (P : A → Prop) text (r : option (A * A)) :
  (∀ a, P a → bound_text (text a)) → range_wf P r → field_text (range_text text r).
Proof.
  intros Ht Hr. destruct r as [[a b]|]; simpl; [|by intros ch ->%list_elem_of_singleton].
  destruct (Hr a b eq_refl) as [Ha Hb]. apply Ht in Ha, Hb.
  intros ch [Hin|[->|Hin]%elem_of_cons]%elem_of_app; [|done|];
    [destruct (Ha _ Hin)|destruct (Hb _ Hin)]; tauto.
Qed.

Lemma parse_time_text hm :
  0 ≤ hm.1 < 24 → 0 ≤ hm.2 < 60 → parse_time_of_day (time_text hm) = Some (hm.1 * 60 + hm.2).
Proof.
  intros Hh Hm. unfold parse_time_of_day, time_text.
  rewrite (proj2 (split_once_Some (chr ":") _ (show_int hm.1) (show_int hm.2)))
    by (split; [done|by apply show_int_no_sep; [lia|]]).
  simpl. rewrite !bound_text_trim by (apply bound_text_digits; lia).
  rewrite !parse_i32_show by lia. simpl.
  unfold wrap_i32. rewrite Z.mod_small by lia. f_equal. lia.
Qed.

Section time_spec_proofs.
Context `{UnicodeCase}.

(** The range of a weekday or month field. *)
Lemma range_matches_text (P : Z → Prop) to_num text r n :
  (∀ a, P a → bound_text (text a) ∧ to_num (text a) = Some a) → range_wf P r →
  field_matches (range_matches to_num) (range_text text r) n
  = range_holds (λ s e, cyclic_in s e n) r.
Proof.
  intros Ht Hr. unfold field_matches. destruct r as [[a b]|]; [|done].
  destruct (Hr a b eq_refl) as [[Ha Ea]%Ht [Hb Eb]%Ht]. simpl.
  rewrite range_not_star. simpl. unfold range_matches. 
  rewrite range_split, !bound_text_trim by done. by rewrite Ea, Eb.
Qed.

Lemma time_field r now :
  range_wf (λ hm, 0 ≤ hm.1 < 24 ∧ 0 ≤ hm.2 < 60) r →
  field_matches time_range_matches (range_text time_text r) now
  = range_holds (λ s e, cyclic_in (s.1 * 60 + s.2) (e.1 * 60 + e.2) now) r.
Proof.
  intros Hr. unfold field_matches. destruct r as [[a b]|]; [|done].
  destruct (Hr a b eq_refl) as [[Ha1 Ha2] [Hb1 Hb2]]. simpl.
  rewrite range_not_star. simpl. unfold time_range_matches.
  rewrite range_split by (apply bound_text_time; lia). rewrite !parse_time_text by done.
  unfold cyclic_in. destruct (_ <=? _) eqn:?; lia.
Qed.

Lemma mday_field r mday :
  range_wf (λ n, 1 ≤ n ≤ 31) r →
  field_matches mday_matches (range_text show_int r) mday
  = range_holds (λ s e, (s <=? mday) && (mday <=? e)) r.
Proof.
  intros Hr. unfold field_matches. destruct r as [[a b]|]; [|done].
  destruct (Hr a b eq_refl) as [Ha Hb]. simpl. rewrite range_not_star. simpl.
  unfold mday_matches, parse_int_range, parse_u32.
  rewrite range_split by (apply bound_text_digits; lia).
  rewrite !bound_text_trim by (apply bound_text_digits; lia).
  rewrite !parse_unsigned_show by lia. simpl. lia.
Qed.

Lemma weekday_name n :
  0 ≤ n < 7 → bound_text (weekday_text n) ∧ weekday_to_num (weekday_text n) = Some n.
Proof.
  intros Hn. assert (n ∈ [0; 1; 2; 3; 4; 5; 6]) as Hin by (rewrite !elem_of_cons; lia).
  repeat (apply elem_of_cons in Hin as [->|Hin]; [split; [by apply bound_text_closed|done]|]).
  by apply not_elem_of_nil in Hin.
Qed.

Lemma month_name n :
  1 ≤ n ≤ 12 → bound_text (month_text n) ∧ month_to_num (month_text n) = Some n.
Proof.
  intros Hn. assert (n ∈ [1; 2; 3; 4; 5; 6; 7; 8; 9; 10; 11; 12]) as Hin by (rewrite !elem_of_cons; lia).
  repeat (apply elem_of_cons in Hin as [->|Hin]; [split; [by apply bound_text_closed|done]|]).
  by apply not_elem_of_nil in Hin.
Qed.

Lemma timespec_fields ts :
  timespec_wf ts →
  Forall field_text [range_text time_text (ts_times ts); range_text weekday_text (ts_weekdays ts);
                     range_text show_int (ts_mdays ts); range_text month_text (ts_months ts)].
Proof.
  intros (Ht & Hw & Hd & Hm). repeat apply List.Forall_cons; [..|constructor].
  - apply (λ H1, range_field _ time_text _ H1 Ht). intros hm [??]. apply bound_text_time; lia.
  - apply (λ H1, range_field _ weekday_text _ H1 Hw). intros n Hn. by apply weekday_name.
  - apply (λ H1, range_field _ show_int _ H1 Hd). intros n Hn. apply bound_text_digits. lia.
  - apply (λ H1, range_field _ month_text _ H1 Hm). intros n Hn. by apply month_name.
Qed.

Lemma timespec_split ts :
  timespec_wf ts →
  trim <$> split (chr ",") (timespec_text ts)
  = [range_text time_text (ts_times ts); range_text weekday_text (ts_weekdays ts);
     range_text show_int (ts_mdays ts); range_text month_text (ts_months ts)].
Proof.
  intros Hts%timespec_fields. unfold timespec_text. rewrite split_join; [|done|].
  - set (fs := [_; _; _; _]) in *. clearbody fs.
    induction Hts as [|x fs Hx _ IH]; [done|]. rewrite fmap_cons, IH. f_equal.
    apply trim_trimmed, trimmed_no_ws. intros ch Hin. apply (Hx ch Hin).
  - eapply Forall_impl; [exact Hts|]. intros x Hx Hin. by destruct (Hx _ Hin) as (_ & ? & _).
Qed.

Lemma timespec_text_chars ts :
  timespec_wf ts → trim (timespec_text ts) = timespec_text ts ∧ (chr "?" ∉ timespec_text ts).
Proof.
  intros Hts%timespec_fields. rewrite Forall_forall in Hts.
  assert (Hc : ∀ ch, ch ∈ timespec_text ts → is_whitespace ch = false ∧ (ch ≠ chr "?")).
  { intros ch [->|(x & Hx & Hin)]%elem_of_join; [done|]. destruct (Hts x Hx ch Hin); tauto. }
  split; [apply trim_trimmed, trimmed_no_ws; by intros ch [? _]%Hc|].
  intros Hin. by destruct (Hc _ Hin).
Qed.

Lemma evaluate_timespec secs ts :
  timespec_wf ts →
  evaluate_time_spec secs (timespec_text ts)
  = timespec_holds ts (secs mod 86400 / 60) ((secs / 86400 + 3) mod 7)
      (approximate_month_day secs).2 (approximate_month_day secs).1.
Proof.
  intros Hts. unfold evaluate_time_spec. rewrite timespec_split by done.
  destruct (approximate_month_day secs) as [month mday]. simpl. unfold timespec_holds.
  destruct Hts as (Ht & Hw & Hd & Hm).
  replace (secs mod 86400 / 3600 * 60 + secs mod 86400 mod 3600 / 60) with (secs mod 86400 / 60)
    by (Z.to_euclidean_division_equations; lia).
  rewrite time_field, mday_field by done.
  unfold weekday_range_matches, month_range_matches.
  by rewrite (range_matches_text _ _ _ _ _ weekday_name Hw), (range_matches_text _ _ _ _ _ month_name Hm).
Qed.
End time_spec_proofs.

(** GotoIfTime goes by the calendar.  For every well-formed specification
    (each field a range or [*]), written in the dialplan's syntax, and every
    instant whose day number fits in 32 bits: the month and day the code computes
    are those of the Gregorian calendar, and the jump to the label is taken
    exactly when the minute of the day, the weekday (1 January 1970 was a
    Thursday) and the month lie in their ranges, which may wrap around, and the
    day of the month lies in its range, which may not; otherwise the channel
    stays. *)
Theorem gotoiftime_goes_by_calendar `{UnicodeCase} secs ts label target c :
  timespec_wf ts → 0 ≤ secs < 2 ^ 32 * 86400 →
  trimmed label = true → label ≠ [] → chr ":" ∉ label → goto_parse label = Some target →
  (∃ y m d, is_date (secs / 86400) y m d)
  ∧ ∀ y m d, is_date (secs / 86400) y m d →
      gotoiftime_exec secs c (timespec_text ts ++ chr "?" :: label)
      = ((if timespec_holds ts (secs mod 86400 / 60) ((secs / 86400 + 3) mod 7) d m
          then jump c target else c), [], ExecSuccess).
Proof.
  intros Hts Hs Hl Hne Hcol Hg. destruct (approximate_month_day_date secs Hs) as [y Hy].
  split; [by eauto|]. intros y' m d Hd. destruct (is_date_unique _ _ _ _ _ _ _ Hy Hd) as (_ & <- & <-).
  destruct (timespec_text_chars ts Hts) as [Htrim Hq]. unfold gotoiftime_exec.
  rewrite (proj2 (split_once_Some (chr "?") _ (timespec_text ts) label)) by done.
  rewrite Htrim, evaluate_timespec by done. unfold branch_labels.
  rewrite (proj2 (split_once_None (chr ":") label) Hcol), trim_trimmed, nonempty_id by done.
  simpl. destruct (timespec_holds _ _ _ _ _); [by rewrite Hg|done].
Qed.

(** Nine to five, Monday to Friday, not in summer. *)
Definition ex_hours : TimeSpec :=
  mkTimeSpec (Some ((9, 0), (17, 0))) (Some (0, 4)) None (Some (9, 5)).

(** Noon of 29 February 2024, a Thursday. *)
Lemma gotoiftime_goes_by_calendar_witness :
  timespec_text ex_hours = lit "9:0-17:0,mon-fri,*,sep-may"
  ∧ gotoiftime_exec (H := ascii_text) 1709208000 ex_up (timespec_text ex_hours ++ lit "?open,s,1")
    = (set_location ex_up (lit "open") (lit "s") 1, [], ExecSuccess).
Proof.
  split; [by vm_compute|].
  refine (proj2 (@gotoiftime_goes_by_calendar ascii_text 1709208000 ex_hours (lit "open,s,1")
    (mkGoto (Some (lit "open")) (Some (lit "s")) (lit "1")) ex_up _ _ _ _ _ _) 2024 2 29 _).
  - split_and!; intros a b E; try discriminate E; injection E as <- <-; simpl; lia.
  - lia.
  - by vm_compute.
  - done.
  - apply (bool_decide_unpack _). by vm_compute.
  - by vm_compute.
  - split_and!; try done. exists 29. by split.
Defined.
