(* ===== verification/Bytes.v ===== *)
(** * Byte strings ([Vec<u8>], [&[u8]])

    A byte is a [Z] from 0 to 255.  Indexing and slicing out of range panic, as
    in Rust; big-endian integers are the arrays of [to_be_bytes] and
    [from_be_bytes]. *)

From Stdlib Require Import ZArith.
From S2P Require Import Prelude.
Local Open Scope Z_scope.
Local Open Scope list_scope.

Abbreviation bytes := (list Z).

Definition is_byte (b : Z) : Prop := 0 ≤ b < 256.

(** [p[i]] *)
Definition byte_at (p : bytes) (i : nat) : outcome Z :=
  match p !! i with Some b => Done b | None => Panic end.

(** [&p[..i]], [&p[i..]], [&p[i..j]] *)
Definition bytes_to (p : bytes) (i : nat) : outcome bytes :=
  if (i <=? length p)%nat then Done (take i p) else Panic.
Definition bytes_from (p : bytes) (i : nat) : outcome bytes :=
  if (i <=? length p)%nat then Done (drop i p) else Panic.
Definition bytes_range (p : bytes) (i j : nat) : outcome bytes :=
  if ((i <=? j) && (j <=? length p))%nat then Done (take (j - i) (drop i p)) else Panic.

(** [uN::from_be_bytes] and [to_be_bytes] of [n] bytes. *)
Definition be_of (bs : bytes) : Z := foldl (λ acc b, acc * 256 + b) 0 bs.
Fixpoint be_bytes (n : nat) (x : Z) : bytes :=
  match n with
  | O => []
  | S n' => be_bytes n' (x / 256) ++ [x mod 256]
  end.

(** [a[k] ^= b[k]] for every [k] *)
Definition xor_bytes (a b : bytes) : bytes := zip_with Z.lxor a b.

(** [iv[i + k] ^= b[k]] for every [k] *)
Definition xor_at (i : nat) (b iv : bytes) : bytes :=
  take i iv ++ xor_bytes (take (length b) (drop i iv)) b ++ drop (i + length b) iv.

(** ** Lemmas *)

Lemma byte_at_Some p i b : p !! i = Some b → byte_at p i = Done b.
Proof. unfold byte_at. by intros ->. Qed.

Lemma byte_at_returns p i : (i < length p)%nat → returns (byte_at p i).
Proof. intros [b Hb]%lookup_lt_is_Some. exists b. by apply byte_at_Some. Qed.

Lemma byte_at_app p q i : (i < length p)%nat → byte_at (p ++ q) i = byte_at p i.
Proof. intros Hi. unfold byte_at. by rewrite lookup_app_l. Qed.

Lemma bytes_to_returns p i : (i ≤ length p)%nat → returns (bytes_to p i).
Proof. intros Hi. unfold bytes_to. destruct (Nat.leb_spec i (length p)); [by eexists|lia]. Qed.

Lemma bytes_from_returns p i : (i ≤ length p)%nat → returns (bytes_from p i).
Proof. intros Hi. unfold bytes_from. destruct (Nat.leb_spec i (length p)); [by eexists|lia]. Qed.

Lemma bytes_to_app p q : bytes_to (p ++ q) (length p) = Done p.
Proof.
  unfold bytes_to. rewrite length_app. destruct (Nat.leb_spec (length p) (length p + length q)); [|lia].
  by rewrite take_app_length.
Qed.

Lemma bytes_from_app p q : bytes_from (p ++ q) (length p) = Done q.
Proof.
  unfold bytes_from. rewrite length_app. destruct (Nat.leb_spec (length p) (length p + length q)); [|lia].
  by rewrite drop_app_length.
Qed.

Lemma bytes_range_app p q r :
  bytes_range (p ++ q ++ r) (length p) (length p + length q) = Done q.
Proof.
  unfold bytes_range. rewrite !length_app.
  destruct (Nat.leb_spec (length p) (length p + length q)); [|lia].
  destruct (Nat.leb_spec (length p + length q) (length p + (length q + length r))); [|lia].
  simpl. rewrite drop_app_length. replace (_ - _)%nat with (length q) by lia.
  by rewrite take_app_length.
Qed.

#[export] Hint Resolve byte_at_returns bytes_to_returns bytes_from_returns : rust.

Lemma length_be_bytes n x : length (be_bytes n x) = n.
Proof. revert x. induction n as [|n IH]; intros x; simpl; [done|]. rewrite length_app, IH. simpl. lia. Qed.

Lemma be_of_snoc bs b : be_of (bs ++ [b]) = be_of bs * 256 + b.
Proof. unfold be_of. by rewrite foldl_app. Qed.

Lemma be_bytes_of n x : 0 ≤ x < 256 ^ Z.of_nat n → be_of (be_bytes n x) = x.
Proof.
  revert x. induction n as [|n IH]; intros x Hx; [simpl in *; unfold be_of; simpl; lia|].
  simpl be_bytes. rewrite be_of_snoc. rewrite Nat2Z.inj_succ, Z.pow_succ_r in Hx by lia.
  rewrite IH; [pose proof (Z.div_mod x 256); lia|].
  split; [apply Z.div_pos; lia|apply Z.div_lt_upper_bound; lia].
Qed.

Lemma be_bytes_inj n x y :
  0 ≤ x < 256 ^ Z.of_nat n → 0 ≤ y < 256 ^ Z.of_nat n → be_bytes n x = be_bytes n y → x = y.
Proof. intros Hx Hy E. by rewrite <-(be_bytes_of n x Hx), <-(be_bytes_of n y Hy), E. Qed.

Lemma be_bytes_is_byte n x : Forall is_byte (be_bytes n x).
Proof.
  revert x. induction n as [|n IH]; intros x; simpl; [constructor|].
  apply Forall_app. split; [apply IH|]. constructor; [|constructor].
  unfold is_byte. apply Z.mod_pos_bound. lia.
Qed.

Lemma length_xor_bytes a b : length (xor_bytes a b) = Nat.min (length a) (length b).
Proof. apply length_zip_with. Qed.

(** Adding a key stream twice gives the text back. *)
Lemma xor_bytes_involutive a b : (length a ≤ length b)%nat → xor_bytes (xor_bytes a b) b = a.
Proof.
  revert b. induction a as [|x a IH]; intros [|y b] Hl; simpl in *; [done|done|lia|].
  f_equal; [|apply IH; lia]. by rewrite Z.lxor_assoc, Z.lxor_nilpotent, Z.lxor_0_r.
Qed.

Lemma xor_bytes_inj a b c :
  length a = length c → length b = length c → xor_bytes c a = xor_bytes c b → a = b.
Proof.
  revert b c. induction a as [|x a IH]; intros [|y b] [|z c] Ha Hb E; simpl in *; try done.
  injection E as E1 E2. f_equal; [|by apply (IH b c); [lia|lia|]].
  apply (f_equal (Z.lxor z)) in E1.
  by rewrite <-!Z.lxor_assoc, Z.lxor_nilpotent, !Z.lxor_0_l in E1.
Qed.

Lemma length_xor_at i b iv : (i + length b ≤ length iv)%nat → length (xor_at i b iv) = length iv.
Proof.
  intros Hl. unfold xor_at. rewrite !length_app, length_xor_bytes, !length_take, !length_drop. lia.
Qed.

(** ** Bit operations as arithmetic *)

Lemma lor_shiftl_add a b n : 0 ≤ n → 0 ≤ b < 2 ^ n → Z.lor (Z.shiftl a n) b = a * 2 ^ n + b.
Proof.
  intros Hn Hb. rewrite <-Z.shiftl_mul_pow2 by done.
  assert (Hl : Z.land (Z.shiftl a n) b = 0).
  { apply Z.bits_inj'. intros k Hk. rewrite Z.land_spec, Z.testbit_0_l.
    destruct (Z.lt_ge_cases k n); [by rewrite Z.shiftl_spec_low|].
    by rewrite <-(Z.mod_small b (2 ^ n)), Z.mod_pow2_bits_high, andb_false_r by lia. }
  by rewrite <-Z.lxor_lor, Z.add_nocarry_lxor.
Qed.

Lemma lxor_range n a b : 0 ≤ n → 0 ≤ a < 2 ^ n → 0 ≤ b < 2 ^ n → 0 ≤ Z.lxor a b < 2 ^ n.
Proof.
  intros Hn Ha Hb. assert (H0 : 0 ≤ Z.lxor a b) by (apply Z.lxor_nonneg; lia). split; [done|].
  destruct (Z.eq_dec (Z.lxor a b) 0) as [->|Hne]; [apply Z.pow_pos_nonneg; lia|].
  apply Z.log2_lt_pow2; [lia|]. eapply Z.le_lt_trans; [apply Z.log2_lxor; lia|].
  apply Z.max_lub_lt.
  - destruct (Z.eq_dec a 0) as [->|]; [|apply Z.log2_lt_pow2; lia]. destruct (Z.eq_dec n 0) as [->|]; [|cbn; lia].
    change (2 ^ 0) with 1 in *. assert (b = 0) as -> by lia. done.
  - destruct (Z.eq_dec b 0) as [->|]; [|apply Z.log2_lt_pow2; lia]. destruct (Z.eq_dec n 0) as [->|]; [|cbn; lia].
    change (2 ^ 0) with 1 in *. assert (a = 0) as -> by lia. done.
Qed.
