(* ===== verification/SrtpWindow.v ===== *)
(** * The SRTP replay window ([asterisk-sip/src/srtp.rs], [ReplayWindow])

    A 128-bit bitmap below the highest index received, against its
    specification: the set of indices accepted so far. *)

From Stdlib Require Import ZArith.
From S2P Require Import Prelude.
Local Open Scope Z_scope.
Local Open Scope list_scope.

Record ReplayWindow := mkWindow { highest : Z; bitmap : Z; initialized : bool }.

Definition window_new : ReplayWindow := mkWindow 0 0 false.

Definition WINDOW : Z := 128.
Definition u128 (n : Z) : Z := n mod 2 ^ WINDOW.

Definition check (w : ReplayWindow) (index : Z) : bool :=
  if negb (initialized w) then true
  else if highest w <? index then true
  else
    let delta := highest w - index in
    if WINDOW <=? delta then false
    else Z.land (bitmap w) (Z.shiftl 1 delta) =? 0.

Definition update (w : ReplayWindow) (index : Z) : ReplayWindow :=
  if negb (initialized w) then mkWindow index 1 true
  else if highest w <? index then
    let shift := index - highest w in
    mkWindow index
      (if WINDOW <=? shift then 1 else Z.lor (u128 (Z.shiftl (bitmap w) shift)) 1) true
  else
    let delta := highest w - index in
    if delta <? WINDOW
    then mkWindow (highest w) (Z.lor (bitmap w) (Z.shiftl 1 delta)) true
    else w.

(** What the receivers do with an index that is authentic. *)
Definition offer (w : ReplayWindow) (index : Z) : bool * ReplayWindow :=
  if check w index then (true, update w index) else (false, w).

Fixpoint offer_all (w : ReplayWindow) (ids : list Z) : list bool * ReplayWindow :=
  match ids with
  | [] => ([], w)
  | i :: ids' =>
      let (b, w) := offer w i in
      let (bs, w) := offer_all w ids' in (b :: bs, w)
  end.

(** ** Specification

    The indices accepted so far. *)

Definition top (seen : list Z) : Z := foldr Z.max 0 seen.

(** An index is accepted when it is new and not 128 or more below the highest. *)
Definition acceptable (seen : list Z) (i : Z) : bool :=
  bool_decide (seen = []) || (bool_decide (i ∉ seen) && (top seen - i <? WINDOW)).

Definition spec_offer (seen : list Z) (i : Z) : bool * list Z :=
  if acceptable seen i then (true, i :: seen) else (false, seen).

Fixpoint spec_offer_all (seen : list Z) (ids : list Z) : list bool * list Z :=
  match ids with
  | [] => ([], seen)
  | i :: ids' =>
      let (b, seen) := spec_offer seen i in
      let (bs, seen) := spec_offer_all seen ids' in (b :: bs, seen)
  end.

(** The window holds the set. *)
Record tracks (w : ReplayWindow) (seen : list Z) : Prop := {
  tr_init : initialized w = bool_decide (seen ≠ []);
  tr_nonneg : Forall (λ i, 0 ≤ i) seen;
  tr_top : seen ≠ [] → highest w = top seen;
  tr_bits : seen ≠ [] → ∀ d, 0 ≤ d < WINDOW →
            Z.testbit (bitmap w) d = bool_decide (top seen - d ∈ seen);
  tr_nodup : NoDup seen }.

(** ** Lemmas *)

Lemma top_ge seen i : i ∈ seen → i ≤ top seen.
Proof. induction seen as [|j seen IH]; [by intros ?%not_elem_of_nil|]. simpl. intros [->|?%IH]%elem_of_cons; lia. Qed.

Lemma top_elem seen : Forall (λ i, 0 ≤ i) seen → seen ≠ [] → top seen ∈ seen.
Proof.
  induction seen as [|j seen IH]; [done|]. intros [Hj Hs]%Forall_cons _. simpl.
  destruct seen as [|k seen]; [simpl; rewrite Z.max_l by lia; by left|].
  specialize (IH Hs ltac:(done)).
  destruct (Z.max_spec j (top (k :: seen))) as [[_ ->]|[_ ->]]; [by right|by left].
Qed.

Lemma land_bit_zero n d :
  0 ≤ d → (Z.land n (Z.shiftl 1 d) =? 0) = negb (Z.testbit n d).
Proof.
  intros Hd. destruct (Z.testbit n d) eqn:E; simpl.
  - apply Z.eqb_neq. intros H. apply (f_equal (λ x, Z.testbit x d)) in H.
    rewrite Z.land_spec, E, Z.shiftl_1_l, Z.pow2_bits_true, Z.testbit_0_l in H by lia. done.
  - apply Z.eqb_eq, Z.bits_inj'. intros k Hk.
    rewrite Z.land_spec, Z.shiftl_1_l, Z.testbit_0_l.
    destruct (Z.eq_dec k d) as [->|]; [by rewrite E|].
    by rewrite Z.pow2_bits_false, andb_false_r.
Qed.

Lemma testbit_1 d : Z.testbit 1 d = bool_decide (d = 0).
Proof. change 1 with (2 ^ 0). destruct (decide (d = 0)) as [->|].
  - by rewrite Z.pow2_bits_true.
  - rewrite bool_decide_eq_false_2 by done. apply Z.pow2_bits_false. lia.
Qed.

Lemma tracks_new : tracks window_new [].
Proof. split; (done || constructor). Qed.

Lemma tracks_check w seen i : tracks w seen → check w i = acceptable seen i.
Proof.
  intros [Hi Hn Ht Hb _]. unfold check, acceptable. rewrite Hi.
  destruct (decide (seen = [])) as [->|Hne]; [done|].
  rewrite (bool_decide_eq_true_2 (seen ≠ [])), (bool_decide_eq_false_2 (seen = [])) by done. simpl.
  rewrite (Ht Hne). destruct (Z.ltb_spec (top seen) i).
  - rewrite bool_decide_eq_true_2 by (intros ?%top_ge; lia). simpl. symmetry. apply Z.ltb_lt.
    unfold WINDOW. lia.
  - destruct (Z.leb_spec WINDOW (top seen - i)) as [Hd|Hd].
    + destruct (Z.ltb_spec (top seen - i) WINDOW); [lia|]. by rewrite andb_false_r.
    + destruct (Z.ltb_spec (top seen - i) WINDOW); [|lia]. rewrite andb_true_r.
      rewrite land_bit_zero, (Hb Hne) by lia. replace (top seen - (top seen - i)) with i by lia.
      by rewrite bool_decide_not.
Qed.

Lemma tracks_update w seen i :
  tracks w seen → 0 ≤ i → i ∉ seen → acceptable seen i = true → tracks (update w i) (i :: seen).
Proof.
  intros [Hi Hn Ht Hb Hnd] Hi0 Hin Ha. unfold update. rewrite Hi.
  destruct (decide (seen = [])) as [->|Hne].
  { split; simpl; intros; try done; [by constructor|lia| |by constructor].
    rewrite testbit_1, Z.max_l by lia. apply bool_decide_ext. rewrite list_elem_of_singleton. lia. }
  rewrite (bool_decide_eq_true_2 (seen ≠ [])) by done. simpl. specialize (Ht Hne). specialize (Hb Hne).
  unfold acceptable in Ha. rewrite bool_decide_eq_false_2 in Ha by done. simpl in Ha.
  apply andb_true_iff in Ha as [_ Ha%Z.ltb_lt].
  rewrite Ht. destruct (Z.ltb_spec (top seen) i) as [Hlt|Hge].
  - split; simpl; try done; [by constructor|lia| |by constructor].
    intros _ d Hd. rewrite Z.max_l by lia.
    destruct (Z.leb_spec WINDOW (i - top seen)) as [Hw|Hw].
    + rewrite testbit_1. apply bool_decide_ext. rewrite elem_of_cons.
      split; [lia|]. intros [|Hx%top_ge]; lia.
    + unfold u128. rewrite Z.lor_spec, testbit_1, Z.mod_pow2_bits_low, Z.shiftl_spec by lia.
      destruct (Z.lt_ge_cases (d - (i - top seen)) 0) as [Hneg|Hpos].
      * rewrite Z.testbit_neg_r by done. simpl. apply bool_decide_ext. rewrite elem_of_cons.
        split; [lia|]. intros [|Hx%top_ge]; lia.
      * rewrite Hb by lia. replace (top seen - (d - (i - top seen))) with (i - d) by lia.
        rewrite (bool_decide_eq_false_2 (d = 0)), orb_false_r by lia.
        apply bool_decide_ext. rewrite elem_of_cons. split; [by right|]. intros [|]; [lia|done].
  - destruct (Z.ltb_spec (top seen - i) WINDOW); [|lia].
    split; simpl; try done; [by constructor|lia| |by constructor].
    intros _ d Hd. rewrite Z.max_r by lia. rewrite Z.lor_spec, Z.shiftl_1_l, Hb by done.
    destruct (decide (d = top seen - i)) as [->|Hdi].
    + rewrite Z.pow2_bits_true, orb_true_r by lia. symmetry. apply bool_decide_eq_true.
      apply elem_of_cons. left. lia.
    + rewrite Z.pow2_bits_false, orb_false_r by lia. apply bool_decide_ext. rewrite elem_of_cons.
      split; [by right|]. intros [|]; [lia|done].
Qed.

Lemma acceptable_new seen i : acceptable seen i = true → i ∉ seen.
Proof.
  unfold acceptable. intros [Hs%bool_decide_eq_true|Ha]%orb_true_iff; [subst; apply not_elem_of_nil|].
  apply andb_true_iff in Ha as [Ha%bool_decide_eq_true _]. done.
Qed.

(** One index offered, by the window and by its specification. *)
Lemma tracks_offer w seen i :
  tracks w seen → 0 ≤ i →
  (offer w i).1 = (spec_offer seen i).1 ∧ tracks (offer w i).2 (spec_offer seen i).2.
Proof.
  intros Ht Hi. unfold offer, spec_offer. rewrite (tracks_check w seen i Ht).
  destruct (acceptable seen i) eqn:Ea; [|done]. split; [done|].
  apply tracks_update; [done..| |done]. by apply acceptable_new.
Qed.

(** The bitmap stays a [u128]. *)
Lemma update_bitmap w i :
  0 ≤ bitmap w < 2 ^ WINDOW → 0 ≤ bitmap (update w i) < 2 ^ WINDOW.
Proof.
  intros Hb. assert (H1 : ∀ n, 0 ≤ n < 2 ^ WINDOW ↔ 0 ≤ n ∧ ∀ k, WINDOW ≤ k → Z.testbit n k = false).
  { intros n. split.
    - intros [Hn Hlt]. split; [done|]. intros k Hk. destruct (Z.eq_dec n 0) as [->|]; [apply Z.testbit_0_l|].
      apply Z.bits_above_log2; [done|]. apply Z.log2_lt_pow2; [lia|].
      eapply Z.lt_le_trans; [exact Hlt|]. apply Z.pow_le_mono_r; lia.
    - intros [Hn Hk]. split; [done|]. destruct (Z.eq_dec n 0) as [->|]; [by vm_compute|].
      apply Z.log2_lt_pow2; [lia|]. destruct (Z.lt_ge_cases (Z.log2 n) WINDOW); [done|].
      specialize (Hk (Z.log2 n) ltac:(done)). rewrite Z.bit_log2 in Hk by lia. done. }
  unfold update. repeat case_match; simpl; try done; try (split; [done|by vm_compute]).
  - apply H1. assert (Hu : 0 ≤ u128 (Z.shiftl (bitmap w) (i - highest w)) < 2 ^ WINDOW)
      by (apply Z.mod_pos_bound; done).
    apply H1 in Hu as [Hu Hu2]. split; [apply Z.lor_nonneg; lia|].
    intros k Hk. rewrite Z.lor_spec, Hu2, testbit_1 by done. unfold WINDOW in Hk.
    by rewrite bool_decide_eq_false_2 by lia.
  - apply H1 in Hb as [Hb Hb2]. apply H1.
    split; [apply Z.lor_nonneg; split; [done|apply Z.shiftl_nonneg; lia]|].
    intros k Hk. rewrite Z.lor_spec, Hb2, Z.shiftl_1_l by done.
    apply Z.pow2_bits_false. rewrite Z.ltb_lt in *. lia.
Qed.
