(* ===== verification/Srtp.v ===== *)
(** * SRTP with AES-CM and HMAC-SHA1 ([asterisk-sip/src/srtp.rs], [PureRustSrtp])

    Crypto suites and key material, key derivation, counter mode, the estimation
    of packet indices, protection and unprotection of RTP and RTCP.  The block
    cipher and the MAC are parameters (the [aes] and [hmac] crates).

    The theorems: the replay window accepts exactly what the set of accepted
    indices allows; a stream that is protected at one end is recovered at the
    other under loss, reordering and duplication, each packet once; no index is
    accepted twice whatever arrives. *)

From Stdlib Require Import ZArith Ascii String.
From S2P Require Import Prelude RustStr Bytes SrtpWindow.
Local Open Scope Z_scope.
Local Open Scope list_scope.

(** ** Suites, key material, errors *)

Inductive SrtpCryptoSuite :=
  | AesCm128HmacSha1_80 | AesCm128HmacSha1_32
  | Aes256CmHmacSha1_80 | Aes256CmHmacSha1_32
  | AeadAes128Gcm | AeadAes256Gcm.

Definition key_length (s : SrtpCryptoSuite) : nat :=
  match s with
  | AesCm128HmacSha1_80 | AesCm128HmacSha1_32 | AeadAes128Gcm => 16
  | Aes256CmHmacSha1_80 | Aes256CmHmacSha1_32 | AeadAes256Gcm => 32
  end.
Definition salt_length (s : SrtpCryptoSuite) : nat :=
  match s with AeadAes128Gcm | AeadAes256Gcm => 12 | _ => 14 end.
Definition auth_tag_length (s : SrtpCryptoSuite) : nat :=
  match s with
  | AesCm128HmacSha1_80 | Aes256CmHmacSha1_80 => 10
  | AesCm128HmacSha1_32 | Aes256CmHmacSha1_32 => 4
  | AeadAes128Gcm | AeadAes256Gcm => 16
  end.
Definition is_aead (s : SrtpCryptoSuite) : bool :=
  match s with AeadAes128Gcm | AeadAes256Gcm => true | _ => false end.

Record SrtpKeyMaterial := mkKeyMaterial { suite : SrtpCryptoSuite; km_key : bytes; km_salt : bytes }.

Inductive SrtpError :=
  | InvalidKeyLength (expected actual : nat)
  | InvalidSaltLength (expected actual : nat)
  | ProtectFailed
  | UnprotectFailed
  | ReplayDetected (index : Z)
  | AuthenticationFailed
  | PacketTooShort (min actual : nat).

Definition validate (m : SrtpKeyMaterial) : result SrtpError unit :=
  if negb (length (km_key m) =? key_length (suite m))%nat
  then Err (InvalidKeyLength (key_length (suite m)) (length (km_key m)))
  else if negb (length (km_salt m) =? salt_length (suite m))%nat
  then Err (InvalidSaltLength (salt_length (suite m)) (length (km_salt m)))
  else Ok tt.

Definition RTP_HEADER_MIN : nat := 12.
Definition RTCP_HEADER_MIN : nat := 8.

(** The crates: one AES-128 block under a key, and HMAC-SHA1. *)
Class SrtpPrimitives := {
  aes128_block : bytes → bytes → bytes;
  aes128_block_length : ∀ key block, length (aes128_block key block) = 16%nat;
  hmac_sha1 : bytes → bytes → bytes;
  hmac_sha1_length : ∀ key data, length (hmac_sha1 key data) = 20%nat;
}.

Definition u16 (n : Z) : Z := n mod 2 ^ 16.

(** The block counter in the last two bytes. *)
Definition counter_bytes (counter : Z) : bytes := be_bytes 2 counter.

Section srtp.
Context `{SrtpPrimitives}.

(** ** Key derivation *)

(** [Aes128::new(key.into())]: a cipher is its key; the conversion of the slice
    panics unless it has 16 bytes. *)
Definition aes128_new (key : bytes) : outcome bytes :=
  if (length key =? 16)%nat then Done key else Panic.

Fixpoint derive_blocks (fuel : nat) (key x : bytes) (counter : Z) (needed : nat) (output : bytes)
    : bytes :=
  match fuel with
  | O => output
  | S fuel' =>
      if (length output <? needed)%nat then
        let block := aes128_block key (x ++ counter_bytes counter) in
        derive_blocks fuel' key x (u16 (counter + 1)) needed
          (output ++ take (Nat.min (needed - length output) 16) block)
      else output
  end.

Definition derive_session_key (master_key master_salt : bytes) (label : Z) (needed_len : nat)
    : outcome bytes :=
  let x := take 14 (take 14 master_salt ++ replicate 14 0) in
  let x := xor_at 7 [label] x in
  let! cipher := aes128_new master_key in
  Done (derive_blocks needed_len cipher x 0 needed_len []).

Definition LABEL_CIPHER_KEY : Z := 0.
Definition LABEL_AUTH_KEY : Z := 1.
Definition LABEL_SALT : Z := 2.
Definition LABEL_SRTCP_CIPHER_KEY : Z := 3.
Definition LABEL_SRTCP_AUTH_KEY : Z := 4.
Definition LABEL_SRTCP_SALT : Z := 5.

Record DerivedKeys := mkDerived {
  rtp_cipher : bytes;
  auth_key : bytes;
  dk_salt : bytes;
  rtcp_cipher : bytes;
  rtcp_auth_key : bytes;
  rtcp_salt : bytes }.

Definition derive (master_key master_salt : bytes) (key_len : nat) : outcome DerivedKeys :=
  let! cipher_key := derive_session_key master_key master_salt LABEL_CIPHER_KEY key_len in
  let! rtcp_cipher_key := derive_session_key master_key master_salt LABEL_SRTCP_CIPHER_KEY key_len in
  let! rtp_cipher := aes128_new cipher_key in
  let! rtcp_cipher := aes128_new rtcp_cipher_key in
  let! auth_key := derive_session_key master_key master_salt LABEL_AUTH_KEY 20 in
  let! salt := derive_session_key master_key master_salt LABEL_SALT 14 in
  let! rtcp_auth_key := derive_session_key master_key master_salt LABEL_SRTCP_AUTH_KEY 20 in
  let! rtcp_salt := derive_session_key master_key master_salt LABEL_SRTCP_SALT 14 in
  Done (mkDerived rtp_cipher auth_key salt rtcp_cipher rtcp_auth_key rtcp_salt).

(** ** Counter mode *)

(** The initial vector; the derived salt has 14 bytes. *)
Definition cm_iv (session_salt : bytes) (ssrc packet_index : Z) : bytes :=
  xor_at 8 (drop 2 (be_bytes 8 packet_index))
    (xor_at 4 (be_bytes 4 ssrc) (take 14 session_salt ++ [0; 0])).

Fixpoint cm_blocks (fuel : nat) (key iv : bytes) (counter : Z) (payload : bytes) : bytes :=
  match fuel with
  | O => payload
  | S fuel' =>
      match payload with
      | [] => []
      | _ =>
          let block := aes128_block key (take 14 iv ++ counter_bytes counter) in
          xor_bytes (take 16 payload) block
          ++ cm_blocks fuel' key iv (u16 (counter + 1)) (drop 16 payload)
      end
  end.

Definition aes_cm_encrypt_decrypt (key session_salt : bytes) (ssrc packet_index : Z) (payload : bytes)
    : bytes :=
  cm_blocks (length payload) key (cm_iv session_salt ssrc packet_index) 0 payload.

Definition compute_hmac_sha1 (auth_key data : bytes) (roc : Z) : bytes :=
  hmac_sha1 auth_key (data ++ be_bytes 4 roc).

(** The constant-time comparison of tags. *)
Definition tag_diff (received computed : bytes) : Z :=
  foldl Z.lor 0 (xor_bytes received computed).

(** ** The index of a packet

    Both backends estimate it with the same code, from the rollover counter and
    the last sequence number. *)

Record SeqState := mkSeq { roc : Z; last_seq : Z; seq_initialized : bool }.
Definition seq_new : SeqState := mkSeq 0 0 false.

Definition as_i16 (n : Z) : Z := if n <? 2 ^ 15 then n else n - 2 ^ 16.

Definition estimate_roc_standard (s : SeqState) (seq : Z) : Z :=
  let diff := as_i16 (u16 (seq - last_seq s)) in
  if 0 <? diff then
    if seq <? last_seq s then wrap_u32 (roc s + 1) else roc s
  else if diff <? 0 then
    if last_seq s <? seq then wrap_u32 (roc s - 1) else roc s
  else roc s.

Definition estimate_packet_index (s : SeqState) (seq : Z) : Z * Z :=
  if negb (seq_initialized s) then (seq, 0)
  else let v := estimate_roc_standard s seq in (Z.lor (Z.shiftl v 16) seq, v).

Definition update_roc (s : SeqState) (seq estimated_roc : Z) : SeqState :=
  if negb (seq_initialized s) then mkSeq 0 seq true
  else if (roc s <? estimated_roc) || ((estimated_roc =? roc s) && (last_seq s <? seq))
  then mkSeq estimated_roc seq true
  else s.

(** ** RTP headers *)

(** SSRC, sequence number and the length of the header without extension; read
    after the minimal length has been checked. *)
Definition rtp_fixed_header (packet : bytes) : outcome (Z * Z * nat) :=
  let! ssrc := bytes_range packet 8 12 in
  let! seq := bytes_range packet 2 4 in
  let! b0 := byte_at packet 0 in
  Done (be_of ssrc, be_of seq, (RTP_HEADER_MIN + Z.to_nat (Z.land b0 15) * 4)%nat).

Definition rtp_payload_offset (packet : bytes) (header_len : nat) : outcome nat :=
  let! b0 := byte_at packet 0 in
  if negb (Z.land b0 16 =? 0) && (header_len + 4 <=? length packet)%nat then
    let! ext := bytes_range packet (header_len + 2) (header_len + 4) in
    Done (header_len + 4 + Z.to_nat (be_of ext) * 4)%nat
  else Done header_len.

(** ** The context *)

Record PureRustSrtp := mkSrtp {
  key_material : SrtpKeyMaterial;
  derived : DerivedKeys;
  seq_state : SeqState;
  replay_window : ReplayWindow;
  srtcp_index : Z;
  srtcp_replay_window : ReplayWindow }.

Definition srtp_new (m : SrtpKeyMaterial) : outcome (result SrtpError PureRustSrtp) :=
  match validate m with
  | Err e => Done (Err e)
  | Ok _ =>
      let! d := derive (km_key m) (km_salt m) (key_length (suite m)) in
      Done (Ok (mkSrtp m d seq_new window_new 0 window_new))
  end.

Implicit Types s : PureRustSrtp.

Definition tag_len s : nat := auth_tag_length (suite (key_material s)).
Definition set_seq s (q : SeqState) : PureRustSrtp :=
  mkSrtp (key_material s) (derived s) q (replay_window s) (srtcp_index s) (srtcp_replay_window s).
Definition set_window s (w : ReplayWindow) : PureRustSrtp :=
  mkSrtp (key_material s) (derived s) (seq_state s) w (srtcp_index s) (srtcp_replay_window s).
Definition set_rtcp s (i : Z) (w : ReplayWindow) : PureRustSrtp :=
  mkSrtp (key_material s) (derived s) (seq_state s) (replay_window s) i w.

(** An operation on a packet in place: the packet or the error, and the context. *)
Definition srtp_result : Type := outcome (result SrtpError bytes * PureRustSrtp).

Definition protect_rtp s (packet : bytes) : srtp_result :=
  if (length packet <? RTP_HEADER_MIN)%nat
  then Done (Err (PacketTooShort RTP_HEADER_MIN (length packet)), s)
  else
    let! (ssrc, seq, header_len) := rtp_fixed_header packet in
    if (length packet <? header_len)%nat
    then Done (Err (PacketTooShort header_len (length packet)), s)
    else
      let! offset := rtp_payload_offset packet header_len in
      if (length packet <? offset)%nat then Done (Err (PacketTooShort offset (length packet)), s)
      else
        let (index, estimated_roc) := estimate_packet_index (seq_state s) seq in
        let! header := bytes_to packet offset in
        let! payload := bytes_from packet offset in
        let packet := header ++ aes_cm_encrypt_decrypt (rtp_cipher (derived s))
                                  (dk_salt (derived s)) ssrc index payload in
        let hmac := compute_hmac_sha1 (auth_key (derived s)) packet estimated_roc in
        let! tag := bytes_to hmac (tag_len s) in
        Done (Ok (packet ++ tag), set_seq s (update_roc (seq_state s) seq estimated_roc)).

(** [received_tag[..tag_len]] of a 10-byte array. *)
Definition tag_buffer (tag_len : nat) : outcome unit :=
  if (tag_len <=? 10)%nat then Done tt else Panic.

Definition unprotect_rtp s (packet : bytes) : srtp_result :=
  if (length packet <? RTP_HEADER_MIN + tag_len s)%nat
  then Done (Err (PacketTooShort (RTP_HEADER_MIN + tag_len s) (length packet)), s)
  else
    let! (ssrc, seq, header_len) := rtp_fixed_header packet in
    let! offset := rtp_payload_offset packet header_len in
    let (index, estimated_roc) := estimate_packet_index (seq_state s) seq in
    if negb (check (replay_window s) index) then Done (Err (ReplayDetected index), s)
    else
      let auth_portion_len := (length packet - tag_len s)%nat in
      let! _ := tag_buffer (tag_len s) in
      let! received_tag := bytes_from packet auth_portion_len in
      let! auth_portion := bytes_to packet auth_portion_len in
      let! computed_tag := bytes_to (compute_hmac_sha1 (auth_key (derived s)) auth_portion
                                       estimated_roc) (tag_len s) in
      if negb (tag_diff received_tag computed_tag =? 0) then Done (Err AuthenticationFailed, s)
      else
        let packet := auth_portion in
        let! packet :=
          if (offset <? length packet)%nat then
            let! header := bytes_to packet offset in
            let! payload := bytes_from packet offset in
            Done (header ++ aes_cm_encrypt_decrypt (rtp_cipher (derived s))
                              (dk_salt (derived s)) ssrc index payload)
          else Done packet in
        Done (Ok packet, set_seq (set_window s (update (replay_window s) index))
                           (update_roc (seq_state s) seq estimated_roc)).

Definition protect_rtcp s (packet : bytes) : srtp_result :=
  if (length packet <? RTCP_HEADER_MIN)%nat
  then Done (Err (PacketTooShort RTCP_HEADER_MIN (length packet)), s)
  else
    let! ssrc := bytes_range packet 4 8 in
    let index := srtcp_index s in
    let s := set_rtcp s (Z.land (wrap_u32 (index + 1)) (2 ^ 31 - 1)) (srtcp_replay_window s) in
    let! header := bytes_to packet RTCP_HEADER_MIN in
    let! payload := bytes_from packet RTCP_HEADER_MIN in
    let packet := header ++ aes_cm_encrypt_decrypt (rtcp_cipher (derived s))
                              (rtcp_salt (derived s)) (be_of ssrc) index payload in
    let packet := packet ++ be_bytes 4 (Z.lor (2 ^ 31) index) in
    let! tag := bytes_to (compute_hmac_sha1 (rtcp_auth_key (derived s)) packet 0) (tag_len s) in
    Done (Ok (packet ++ tag), s).

Definition unprotect_rtcp s (packet : bytes) : srtp_result :=
  let min_len := (RTCP_HEADER_MIN + 4 + tag_len s)%nat in
  if (length packet <? min_len)%nat then Done (Err (PacketTooShort min_len (length packet)), s)
  else
    let auth_tag_start := (length packet - tag_len s)%nat in
    let! _ := tag_buffer (tag_len s) in
    let! received_tag := bytes_from packet auth_tag_start in
    let e_index_start := (auth_tag_start - 4)%nat in
    let! e_index := bytes_range packet e_index_start (e_index_start + 4) in
    let e_index := be_of e_index in
    let is_encrypted := negb (Z.land e_index (2 ^ 31) =? 0) in
    let index := Z.land e_index (2 ^ 31 - 1) in
    let! auth_portion := bytes_to packet auth_tag_start in
    let! computed_tag := bytes_to (compute_hmac_sha1 (rtcp_auth_key (derived s)) auth_portion 0)
                           (tag_len s) in
    if negb (tag_diff received_tag computed_tag =? 0) then Done (Err AuthenticationFailed, s)
    else if negb (check (srtcp_replay_window s) index) then Done (Err (ReplayDetected index), s)
    else
      let s := set_rtcp s (srtcp_index s) (update (srtcp_replay_window s) index) in
      let! packet := bytes_to packet e_index_start in
      if is_encrypted && (RTCP_HEADER_MIN <? length packet)%nat then
        let! ssrc := bytes_range packet 4 8 in
        let! header := bytes_to packet RTCP_HEADER_MIN in
        let! payload := bytes_from packet RTCP_HEADER_MIN in
        Done (Ok (header ++ aes_cm_encrypt_decrypt (rtcp_cipher (derived s))
                              (rtcp_salt (derived s)) (be_of ssrc) index payload), s)
      else Done (Ok packet, s).
End srtp.

(** ** Lemmas: counter mode *)

Section srtp_lemmas.
Context `{SrtpPrimitives}.

Lemma cm_blocks_nil fuel key iv c : cm_blocks fuel key iv c [] = [].
Proof. by destruct fuel. Qed.

Lemma length_cm_blocks fuel key iv c p :
  (length p ≤ fuel)%nat → length (cm_blocks fuel key iv c p) = length p.
Proof.
  revert c p. induction fuel as [|fuel IH]; intros c p Hl; [done|].
  destruct p as [|x p]; [done|].
  change (cm_blocks (S fuel) key iv c (x :: p)) with
    (xor_bytes (take 16 (x :: p)) (aes128_block key (take 14 iv ++ counter_bytes c))
     ++ cm_blocks fuel key iv (u16 (c + 1)) (drop 16 (x :: p))).
  rewrite length_app, length_xor_bytes, aes128_block_length, length_take, IH
    by (rewrite length_drop; simpl in *; lia).
  rewrite length_drop. lia.
Qed.

(** Encrypting twice with the same initial vector gives the text back. *)
Lemma cm_blocks_involutive fuel key iv c p :
  (length p ≤ fuel)%nat → cm_blocks fuel key iv c (cm_blocks fuel key iv c p) = p.
Proof.
  revert c p. induction fuel as [|fuel IH]; intros c p Hl; [done|].
  destruct p as [|x p]; [done|]. set (q := x :: p) in *.
  set (block := aes128_block key (take 14 iv ++ counter_bytes c)).
  set (a := xor_bytes (take 16 q) block).
  set (b := cm_blocks fuel key iv (u16 (c + 1)) (drop 16 q)).
  change (cm_blocks (S fuel) key iv c q) with (a ++ b).
  assert (Hblock : length block = 16%nat) by apply aes128_block_length.
  assert (Ha : length a = Nat.min 16 (length q))
    by (unfold a; rewrite length_xor_bytes, length_take, Hblock; lia).
  assert (Hb : (16 ≤ length q)%nat ∨ b = []).
  { destruct (Nat.le_gt_cases 16 (length q)); [by left|]. right. unfold b.
    rewrite drop_ge by lia. apply cm_blocks_nil. }
  assert (Ht : take 16 (a ++ b) = a ∧ drop 16 (a ++ b) = b).
  { destruct Hb as [Hq| ->].
    - replace 16%nat with (length a) by lia. by rewrite take_app_length, drop_app_length.
    - rewrite app_nil_r. rewrite take_ge, drop_ge by lia. done. }
  assert (Hne : ∃ y z, a ++ b = y :: z).
  { destruct a as [|y a']; [simpl in Ha; unfold q in Ha; simpl in Ha; lia|]. by exists y, (a' ++ b). }
  destruct Hne as (y & z & E).
  assert (Hstep : cm_blocks (S fuel) key iv c (a ++ b)
    = xor_bytes (take 16 (a ++ b)) block ++ cm_blocks fuel key iv (u16 (c + 1)) (drop 16 (a ++ b)))
    by by rewrite E.
  rewrite Hstep. destruct Ht as [-> ->]. unfold b. rewrite IH by (rewrite length_drop; lia).
  unfold a. rewrite xor_bytes_involutive by (rewrite length_take; lia). apply take_drop.
Qed.

Lemma length_aes_cm key salt ssrc i p : length (aes_cm_encrypt_decrypt key salt ssrc i p) = length p.
Proof. by apply length_cm_blocks. Qed.

Lemma aes_cm_involutive key salt ssrc i p :
  aes_cm_encrypt_decrypt key salt ssrc i (aes_cm_encrypt_decrypt key salt ssrc i p) = p.
Proof.
  unfold aes_cm_encrypt_decrypt at 1. rewrite length_aes_cm. by apply cm_blocks_involutive.
Qed.

(** ** Lemmas: tags *)

Lemma foldl_lor_zero acc xs :
  0 ≤ acc → Forall (λ x, 0 ≤ x) xs → foldl Z.lor acc xs = 0 ↔ acc = 0 ∧ Forall (λ x, x = 0) xs.
Proof.
  intros Ha Hx. revert acc Ha. induction Hx as [|x xs Hx _ IH]; intros acc Ha; simpl.
  - split; [by intros ->|by intros [-> _]].
  - rewrite IH by (apply Z.lor_nonneg; done). rewrite Z.lor_eq_0_iff, Forall_cons. tauto.
Qed.

Lemma tag_diff_zero a b :
  length a = length b → Forall is_byte a → Forall is_byte b → tag_diff a b = 0 ↔ a = b.
Proof.
  intros Hl Ha Hb. unfold tag_diff. rewrite foldl_lor_zero; [|done|].
  - split; [|intros ->; split; [done|]].
    + intros [_ Hz]. clear Ha Hb. revert b Hl Hz. induction a as [|x a IH]; intros [|y b] Hl Hz; try done.
      simpl in Hz. apply Forall_cons in Hz as [Hxy%Z.lxor_eq Hz]. f_equal; [done|].
      apply IH; [by simpl in Hl; lia|done].
    + clear. induction b as [|y b IH]; constructor; [apply Z.lxor_nilpotent|apply IH].
  - clear Hl. revert b Hb. induction Ha as [|x a Hx _ IH]; intros [|y b] Hb; simpl; constructor.
    + apply Forall_cons in Hb as [Hy _]. unfold is_byte in *. apply Z.lxor_nonneg. lia.
    + apply IH. by apply Forall_cons in Hb as [_ Hb].
Qed.

Lemma tag_diff_refl a : tag_diff a a = 0.
Proof.
  unfold tag_diff. assert (Hz : ∀ x, foldl Z.lor x (xor_bytes a a) = x); [|apply Hz].
  induction a as [|y a IH]; intros x; [done|]. simpl. by rewrite Z.lxor_nilpotent, Z.lor_0_r, IH.
Qed.
End srtp_lemmas.

(** ** Lemmas: the index of a packet *)

(** The index a context has reached. *)
Definition seq_index (s : SeqState) : Z := roc s * 2 ^ 16 + last_seq s.

Definition seq_wf (s : SeqState) : Prop := 0 ≤ roc s < 2 ^ 32 ∧ 0 ≤ last_seq s < 2 ^ 16.

(** Within reach of the 16 bits a packet carries. *)
Definition near (h t : Z) : Prop := - 2 ^ 15 ≤ t - h < 2 ^ 15.

Lemma as_i16_u16 d : - 2 ^ 15 ≤ d < 2 ^ 15 → as_i16 (u16 d) = d.
Proof.
  intros Hd. unfold as_i16, u16. destruct (Z.lt_ge_cases d 0).
  - replace (d mod 2 ^ 16) with (d + 2 ^ 16)
      by (symmetry; rewrite <-(Z.mod_add d 1) by done; apply Z.mod_small; lia).
    destruct (Z.ltb_spec (d + 2 ^ 16) (2 ^ 15)); lia.
  - rewrite Z.mod_small by lia. by destruct (Z.ltb_spec d (2 ^ 15)); [|lia].
Qed.

(** The estimate is the one index with the packet's 16 bits within reach. *)
Lemma estimate_near s t :
  seq_initialized s = true → seq_wf s → near (seq_index s) t → 0 ≤ t < 2 ^ 48 →
  estimate_packet_index s (t mod 2 ^ 16) = (t, t / 2 ^ 16).
Proof.
  intros Hi [Hr Hl] Hn Ht. unfold estimate_packet_index. rewrite Hi. simpl negb. cbv iota.
  assert (Hv : estimate_roc_standard s (t mod 2 ^ 16) = t / 2 ^ 16).
  { unfold estimate_roc_standard, near, seq_index in *.
    pose proof (Z.div_mod t (2 ^ 16)). pose proof (Z.mod_pos_bound t (2 ^ 16)).
    replace (u16 (t mod 2 ^ 16 - last_seq s)) with (u16 (t - (roc s * 2 ^ 16 + last_seq s))).
    2: { unfold u16. replace (t - _) with (t mod 2 ^ 16 - last_seq s + (t / 2 ^ 16 - roc s) * 2 ^ 16) by lia.
         by rewrite Z.mod_add. }
    rewrite as_i16_u16 by done.
    assert (0 ≤ t / 2 ^ 16 < 2 ^ 32)
      by (split; [apply Z.div_pos; lia|apply Z.div_lt_upper_bound; lia]).
    repeat case_match; rewrite ?Z.ltb_lt, ?Z.ltb_ge in *; unfold wrap_u32;
      rewrite ?Z.mod_small by lia; lia. }
  rewrite Hv. f_equal. rewrite lor_shiftl_add by (try apply Z.mod_pos_bound; lia).
  pose proof (Z.div_mod t (2 ^ 16)). lia.
Qed.

(** The context reaches the highest index it has processed. *)
Lemma update_roc_index s t :
  seq_initialized s = true → seq_wf s → 0 ≤ t < 2 ^ 48 →
  let s' := update_roc s (t mod 2 ^ 16) (t / 2 ^ 16) in
  seq_initialized s' = true ∧ seq_wf s' ∧ seq_index s' = Z.max (seq_index s) t.
Proof.
  intros Hi [Hr Hl] Ht. unfold update_roc, seq_wf, seq_index. rewrite Hi. simpl negb. cbv iota.
  pose proof (Z.div_mod t (2 ^ 16)). pose proof (Z.mod_pos_bound t (2 ^ 16)).
  assert (0 ≤ t / 2 ^ 16 < 2 ^ 32)
    by (split; [apply Z.div_pos; lia|apply Z.div_lt_upper_bound; lia]).
  destruct (Z.ltb_spec (roc s) (t / 2 ^ 16)), (Z.eqb_spec (t / 2 ^ 16) (roc s)),
    (Z.ltb_spec (last_seq s) (t mod 2 ^ 16)); simpl; split_and!; try done; lia.
Qed.

(** ** Lemmas: headers *)

Lemma bytes_range_prefix h x y i j :
  (j ≤ length h)%nat → bytes_range (h ++ x) i j = bytes_range (h ++ y) i j.
Proof.
  intros Hj. unfold bytes_range. rewrite !length_app.
  destruct (Nat.leb_spec j (length h + length x)), (Nat.leb_spec j (length h + length y)); [|lia..].
  destruct (Nat.leb_spec i j); [|done]. simpl. f_equal.
  rewrite !drop_app_le by lia. rewrite !take_app_le by (rewrite length_drop; lia). done.
Qed.

Lemma fixed_header_prefix h x y :
  (12 ≤ length h)%nat → rtp_fixed_header (h ++ x) = rtp_fixed_header (h ++ y).
Proof.
  intros Hl. unfold rtp_fixed_header.
  rewrite !(bytes_range_prefix h x y) by lia. by rewrite !byte_at_app by lia.
Qed.

Lemma bytes_range_returns p i j : (i ≤ j ≤ length p)%nat → returns (bytes_range p i j).
Proof.
  intros. unfold bytes_range. destruct (Nat.leb_spec i j), (Nat.leb_spec j (length p)); [|lia..].
  by eexists.
Qed.

Lemma fixed_header_returns p :
  (12 ≤ length p)%nat → ∃ ssrc seq hl, rtp_fixed_header p = Done (ssrc, seq, hl) ∧ (12 ≤ hl)%nat.
Proof.
  intros Hl. unfold rtp_fixed_header.
  destruct (bytes_range_returns p 8 12) as [a ->]; [lia|].
  destruct (bytes_range_returns p 2 4) as [b ->]; [lia|].
  destruct (byte_at_returns p 0) as [b0 ->]; [lia|]. simpl.
  do 3 eexists. split; [done|]. unfold RTP_HEADER_MIN. lia.
Qed.

Lemma payload_offset_returns p hl :
  (12 ≤ length p)%nat → ∃ off, rtp_payload_offset p hl = Done off ∧ (hl ≤ off)%nat.
Proof.
  intros Hl. unfold rtp_payload_offset. destruct (byte_at_returns p 0) as [b0 ->]; [lia|]. simpl.
  destruct (negb _); simpl; [|by exists hl].
  destruct (Nat.leb_spec (hl + 4) (length p)); [|by exists hl].
  destruct (bytes_range_returns p (hl + 2) (hl + 4)) as [e ->]; [lia|]. simpl.
  eexists. split; [done|]. lia.
Qed.

(** A packet that is all there: its header and, when the X bit announces one,
    its extension. *)
Record rtp_packet (p : bytes) (ssrc seq : Z) (off : nat) : Prop := {
  rp_len : (12 ≤ off ≤ length p)%nat;
  rp_header : ∃ hl b0, rtp_fixed_header p = Done (ssrc, seq, hl) ∧ p !! 0%nat = Some b0
    ∧ (hl ≤ off)%nat ∧ rtp_payload_offset p hl = Done off
    ∧ (Z.land b0 16 ≠ 0 → (hl + 4 ≤ off)%nat) }.

(** What follows the header does not change how it is read. *)
Lemma rtp_packet_reread p ssrc seq off y :
  rtp_packet p ssrc seq off →
  ∃ hl, rtp_fixed_header p = Done (ssrc, seq, hl) ∧ (hl ≤ off)%nat
    ∧ rtp_payload_offset p hl = Done off
    ∧ rtp_fixed_header (take off p ++ y) = Done (ssrc, seq, hl)
    ∧ rtp_payload_offset (take off p ++ y) hl = Done off.
Proof.
  intros [Hlen (hl & b0 & Hf & H0 & Hle & Ho & Hx)]. exists hl.
  assert (Hp : p = take off p ++ drop off p) by by rewrite take_drop.
  assert (Hto : length (take off p) = off) by (rewrite length_take; lia).
  assert (Hb0 : ∀ z, byte_at (take off p ++ z) 0 = Done b0).
  { intros z. apply byte_at_Some. rewrite lookup_app_l by lia. rewrite lookup_take_lt by lia. done. }
  split_and!; [done..| |].
  - rewrite <-Hf. rewrite Hp at 2. apply fixed_header_prefix. lia.
  - rewrite Hp in Ho. unfold rtp_payload_offset in Ho |- *. rewrite Hb0 in Ho |- *. simpl in Ho |- *.
    destruct (Z.eqb_spec (Z.land b0 16) 0) as [E|E]; simpl in Ho |- *; [done|].
    specialize (Hx E). rewrite !length_app, Hto in *.
    destruct (Nat.leb_spec (hl + 4) (off + length (drop off p))); [|lia].
    destruct (Nat.leb_spec (hl + 4) (off + length y)); [|lia].
    by rewrite (bytes_range_prefix _ y (drop off p)) by lia.
Qed.

(** ** Lemmas: sealing and opening *)

Section srtp_proofs.
Context `{SrtpPrimitives}.

(** The protected form of a packet under an index. *)
Definition seal (m : SrtpKeyMaterial) (d : DerivedKeys) (ssrc t : Z) (off : nat) (p : bytes) : bytes :=
  let ct := take off p ++ aes_cm_encrypt_decrypt (rtp_cipher d) (dk_salt d) ssrc t (drop off p) in
  ct ++ take (auth_tag_length (suite m)) (compute_hmac_sha1 (auth_key d) ct (t / 2 ^ 16)).

Lemma tag_length_bound m : (auth_tag_length m ≤ 20)%nat.
Proof. destruct m; simpl; lia. Qed.

Lemma tag_of_hmac key data r n :
  (n ≤ 20)%nat → bytes_to (compute_hmac_sha1 key data r) n = Done (take n (compute_hmac_sha1 key data r))
  ∧ length (take n (compute_hmac_sha1 key data r)) = n.
Proof.
  intros Hn. unfold bytes_to, compute_hmac_sha1. rewrite length_take, hmac_sha1_length.
  destruct (Nat.leb_spec n 20); [|lia]. split; [done|lia].
Qed.

Lemma protect_seal s p ssrc seq off t :
  rtp_packet p ssrc seq off → estimate_packet_index (seq_state s) seq = (t, t / 2 ^ 16) →
  protect_rtp s p
  = Done (Ok (seal (key_material s) (derived s) ssrc t off p),
          set_seq s (update_roc (seq_state s) seq (t / 2 ^ 16))).
Proof.
  intros Hp He. destruct (rtp_packet_reread p ssrc seq off [] Hp) as (hl & Hf & Hhl & Ho & _).
  destruct Hp as [Hlen _]. unfold protect_rtp, RTP_HEADER_MIN.
  destruct (Nat.ltb_spec (length p) 12); [lia|]. rewrite Hf. cbn [outcome_bind].
  destruct (Nat.ltb_spec (length p) hl); [lia|]. rewrite Ho. cbn [outcome_bind].
  destruct (Nat.ltb_spec (length p) off); [lia|]. rewrite He.
  unfold bytes_to at 1, bytes_from at 1. destruct (Nat.leb_spec off (length p)); [|lia].
  cbn [outcome_bind].
  destruct (tag_of_hmac (auth_key (derived s)) (take off p ++ aes_cm_encrypt_decrypt
    (rtp_cipher (derived s)) (dk_salt (derived s)) ssrc t (drop off p)) (t / 2 ^ 16) (tag_len s)
    (tag_length_bound _)) as [-> _]. done.
Qed.

Lemma unprotect_seal s p ssrc seq off t :
  rtp_packet p ssrc seq off → estimate_packet_index (seq_state s) seq = (t, t / 2 ^ 16) →
  is_aead (suite (key_material s)) = false →
  unprotect_rtp s (seal (key_material s) (derived s) ssrc t off p)
  = if check (replay_window s) t
    then Done (Ok p, set_seq (set_window s (update (replay_window s) t))
                       (update_roc (seq_state s) seq (t / 2 ^ 16)))
    else Done (Err (ReplayDetected t), s).
Proof.
  intros Hp He Ha. unfold seal. set (body := aes_cm_encrypt_decrypt _ _ ssrc t (drop off p)).
  set (ct := take off p ++ body).
  destruct (tag_of_hmac (auth_key (derived s)) ct (t / 2 ^ 16) (tag_len s) (tag_length_bound _))
    as [Ht Htl]. unfold tag_len in Ht, Htl.
  set (tag := take (auth_tag_length _) (compute_hmac_sha1 _ ct _)) in *.
  destruct (rtp_packet_reread p ssrc seq off (body ++ tag) Hp) as (hl & _ & _ & _ & Hf & Ho).
  destruct Hp as [Hlen _].
  assert (Hbody : length body = (length p - off)%nat)
    by (unfold body; rewrite length_aes_cm, length_drop; lia).
  assert (Hct : length ct = length p)
    by (unfold ct; rewrite length_app, length_take, Hbody; lia).
  assert (Htag10 : (auth_tag_length (suite (key_material s)) ≤ 10)%nat)
    by (destruct (suite (key_material s)); simpl in *; done || lia).
  unfold unprotect_rtp, tag_len, RTP_HEADER_MIN. rewrite length_app, Htl, Hct.
  destruct (Nat.ltb_spec (length p + auth_tag_length (suite (key_material s)))
              (12 + auth_tag_length (suite (key_material s)))); [lia|].
  unfold ct at 1 2. rewrite <-(assoc_L (++)), Hf. cbn [outcome_bind]. rewrite Ho. cbn [outcome_bind].
  rewrite He. destruct (check (replay_window s) t); [|done]. cbn [negb]. cbv iota.
  unfold tag_buffer. destruct (Nat.leb_spec (auth_tag_length (suite (key_material s))) 10); [|lia].
  cbn [outcome_bind]. fold ct. rewrite Nat.add_sub.
  rewrite <-Hct, bytes_from_app, bytes_to_app. cbn [outcome_bind]. rewrite Ht. cbn [outcome_bind].
  rewrite tag_diff_refl. cbn [Z.eqb negb]. cbv iota.
  assert (Hopen : take off p ++ aes_cm_encrypt_decrypt (rtp_cipher (derived s)) (dk_salt (derived s))
            ssrc t body = p)
    by (unfold body; by rewrite aes_cm_involutive, take_drop).
  destruct (Nat.ltb_spec off (length ct)) as [Hlt|Hge].
  - assert (Hoff : length (take off p) = off) by (rewrite length_take; lia).
    assert (Hs1 : bytes_to ct off = Done (take off p)).
    { rewrite <-Hoff at 1. apply bytes_to_app. }
    assert (Hs2 : bytes_from ct off = Done body).
    { rewrite <-Hoff at 1. apply bytes_from_app. }
    rewrite Hs1, Hs2. cbn [outcome_bind]. by rewrite Hopen.
  - assert (body = []) as Hnil by (apply length_zero_iff_nil; lia).
    cbn [outcome_bind]. do 3 f_equal. unfold ct. rewrite Hnil in Hopen |- *. exact Hopen.
Qed.
End srtp_proofs.

(** ** Streams *)

(** A packet of a stream: its index (the sequence number extended by the
    rollovers), its bytes, and where its payload starts. *)
Record StreamPacket := mkPacket { sp_index : Z; sp_bytes : bytes; sp_ssrc : Z; sp_off : nat }.

Definition stream_packet (k : StreamPacket) : Prop :=
  rtp_packet (sp_bytes k) (sp_ssrc k) (sp_index k mod 2 ^ 16) (sp_off k) ∧ 0 ≤ sp_index k < 2 ^ 48.

(** A sender's stream: it starts before the first rollover, and its indices
    increase by less than 2^15. *)
Fixpoint increasing (h : Z) (ks : list StreamPacket) : Prop :=
  match ks with
  | [] => True
  | k :: ks' => 0 < sp_index k - h < 2 ^ 15 ∧ stream_packet k ∧ increasing (sp_index k) ks'
  end.
Definition stream_wf (ks : list StreamPacket) : Prop :=
  match ks with
  | [] => True
  | k :: ks' => sp_index k < 2 ^ 16 ∧ stream_packet k ∧ increasing (sp_index k) ks'
  end.

(** What arrives, in any order: each index within reach of the highest accepted
    before, the first one before the first rollover. *)
Fixpoint within_reach (seen : list Z) (ks : list StreamPacket) : Prop :=
  match ks with
  | [] => True
  | k :: ks' =>
      (if decide (seen = []) then sp_index k < 2 ^ 16 else near (top seen) (sp_index k))
      ∧ within_reach (spec_offer seen (sp_index k)).2 ks'
  end.

(** What the receiver makes of it: every packet once, unless it is too old. *)
Fixpoint expected (seen : list Z) (ks : list StreamPacket) : list (result SrtpError bytes) :=
  match ks with
  | [] => []
  | k :: ks' =>
      (if acceptable seen (sp_index k) then Ok (sp_bytes k) else Err (ReplayDetected (sp_index k)))
      :: expected (spec_offer seen (sp_index k)).2 ks'
  end.

Section streams.
Context `{SrtpPrimitives}.
Implicit Types s : PureRustSrtp.

(** An operation on packet after packet. *)
Fixpoint run_packets (f : PureRustSrtp → bytes → srtp_result) s (ps : list bytes)
    : outcome (list (result SrtpError bytes) * PureRustSrtp) :=
  match ps with
  | [] => Done ([], s)
  | p :: ps' =>
      let! (r, s) := f s p in
      let! (rs, s) := run_packets f s ps' in
      Done (r :: rs, s)
  end.

Definition seal_packet (m : SrtpKeyMaterial) (d : DerivedKeys) (k : StreamPacket) : bytes :=
  seal m d (sp_ssrc k) (sp_index k) (sp_off k) (sp_bytes k).

(** A context that has processed packets up to index [h]. *)
Definition reached s (m : SrtpKeyMaterial) (d : DerivedKeys) (h : Z) : Prop :=
  key_material s = m ∧ derived s = d
  ∧ seq_initialized (seq_state s) = true ∧ seq_wf (seq_state s) ∧ seq_index (seq_state s) = h.

Lemma first_estimate s t :
  seq_state s = seq_new → 0 ≤ t < 2 ^ 16 →
  estimate_packet_index (seq_state s) (t mod 2 ^ 16) = (t, t / 2 ^ 16)
  ∧ update_roc (seq_state s) (t mod 2 ^ 16) (t / 2 ^ 16) = mkSeq 0 t true.
Proof.
  intros -> Ht. unfold estimate_packet_index, update_roc. simpl.
  by rewrite Z.mod_small, Z.div_small.
Qed.

Lemma first_reached t : 0 ≤ t < 2 ^ 16 → seq_wf (mkSeq 0 t true) ∧ seq_index (mkSeq 0 t true) = t.
Proof. intros Ht. unfold seq_wf, seq_index. simpl. split; lia. Qed.

Lemma protect_increasing ks : ∀ s m d h,
  reached s m d h → increasing h ks →
  ∃ s', run_packets protect_rtp s (sp_bytes <$> ks) = Done (Ok <$> (seal_packet m d <$> ks), s').
Proof.
  induction ks as [|k ks IH]; intros s m d h Hs Hk; [by exists s|].
  destruct Hk as (Hd & [Hp Ht] & Hks). destruct Hs as (Hm & Hdk & Hi & Hwf & Hh).
  assert (Hnear : near (seq_index (seq_state s)) (sp_index k)) by (unfold near; lia).
  pose proof (estimate_near _ _ Hi Hwf Hnear Ht) as He.
  destruct (update_roc_index (seq_state s) (sp_index k) Hi Hwf Ht) as (Hi' & Hwf' & Hh').
  set (s1 := set_seq s (update_roc (seq_state s) (sp_index k mod 2 ^ 16) (sp_index k / 2 ^ 16))).
  destruct (IH s1 m d (sp_index k)) as [s' E]; [|done|].
  { split_and!; try done. simpl. rewrite Hh'. lia. }
  exists s'. rewrite !fmap_cons. cbn [run_packets]. rewrite (protect_seal s _ _ _ _ _ Hp He).
  cbn [outcome_bind]. fold s1. rewrite E. cbn [outcome_bind]. unfold seal_packet. by rewrite Hm, Hdk.
Qed.

Lemma protect_stream ks s m d :
  key_material s = m → derived s = d → seq_state s = seq_new → stream_wf ks →
  ∃ s', run_packets protect_rtp s (sp_bytes <$> ks) = Done (Ok <$> (seal_packet m d <$> ks), s').
Proof.
  intros Hm Hd Hs Hks. destruct ks as [|k ks]; [by exists s|].
  destruct Hks as (H16 & [Hp Ht] & Hks).
  destruct (first_estimate s (sp_index k) Hs) as [He Hu]; [lia|].
  destruct (first_reached (sp_index k)) as [Hwf Hh]; [lia|].
  destruct (protect_increasing ks (set_seq s (mkSeq 0 (sp_index k) true)) m d (sp_index k)) as [s' E];
    [by split_and!|done|].
  exists s'. rewrite !fmap_cons. cbn [run_packets].
  rewrite (protect_seal s _ _ _ _ _ Hp He), Hu. cbn [outcome_bind]. rewrite E. cbn [outcome_bind].
  unfold seal_packet. by rewrite Hm, Hd.
Qed.

(** A receiver that has accepted [seen]. *)
Definition received s (m : SrtpKeyMaterial) (d : DerivedKeys) (seen : list Z) : Prop :=
  key_material s = m ∧ derived s = d ∧ tracks (replay_window s) seen
  ∧ (if decide (seen = []) then seq_state s = seq_new
     else seq_initialized (seq_state s) = true ∧ seq_wf (seq_state s)
          ∧ seq_index (seq_state s) = top seen).

Lemma received_step s m d seen k :
  received s m d seen → is_aead (suite m) = false → stream_packet k →
  (if decide (seen = []) then sp_index k < 2 ^ 16 else near (top seen) (sp_index k)) →
  ∃ s', unprotect_rtp s (seal_packet m d k)
        = Done (if acceptable seen (sp_index k) then Ok (sp_bytes k)
                else Err (ReplayDetected (sp_index k)), s')
    ∧ received s' m d (spec_offer seen (sp_index k)).2.
Proof.
  intros (Hm & Hd & Htr & Hseq) Ha [Hp Ht] Hreach.
  assert (He : estimate_packet_index (seq_state s) (sp_index k mod 2 ^ 16)
               = (sp_index k, sp_index k / 2 ^ 16)
    ∧ let q := update_roc (seq_state s) (sp_index k mod 2 ^ 16) (sp_index k / 2 ^ 16) in
      seq_initialized q = true ∧ seq_wf q ∧ seq_index q = top (sp_index k :: seen)).
  { destruct (decide (seen = [])) as [->|Hne].
    - destruct (first_estimate s (sp_index k) Hseq) as [He Hu]; [lia|]. rewrite Hu.
      destruct (first_reached (sp_index k)) as [Hwf Hh]; [lia|].
      split; [done|]. cbv zeta. split_and!; [done..|]. rewrite Hh. simpl. lia.
    - destruct Hseq as (Hi & Hwf & Hh). rewrite <-Hh in Hreach.
      split; [by apply estimate_near|]. cbv zeta.
      destruct (update_roc_index _ (sp_index k) Hi Hwf Ht) as (Hi' & Hwf' & Hh').
      split_and!; [done..|]. rewrite Hh', Hh. simpl. lia. }
  destruct He as [He Hq]. unfold seal_packet. rewrite <-Hm, <-Hd.
  rewrite (unprotect_seal s _ _ _ _ _ Hp He) by by rewrite Hm.
  rewrite (tracks_check _ _ _ Htr). unfold spec_offer.
  destruct (acceptable seen (sp_index k)) eqn:Eacc.
  - eexists. split; [done|]. split_and!; [done..| |].
    + simpl. apply tracks_update; [done|lia|by apply acceptable_new|done].
    + rewrite decide_False by done. exact Hq.
  - eexists. split; [done|]. by split_and!.
Qed.

Lemma received_all ks : ∀ s m d seen,
  received s m d seen → is_aead (suite m) = false → Forall stream_packet ks → within_reach seen ks →
  ∃ s', run_packets unprotect_rtp s (seal_packet m d <$> ks) = Done (expected seen ks, s').
Proof.
  induction ks as [|k ks IH]; intros s m d seen Hs Ha Hks Hr; [by exists s|].
  apply Forall_cons in Hks as [Hk Hks]. destruct Hr as [Hr1 Hr].
  destruct (received_step s m d seen k Hs Ha Hk Hr1) as (s1 & E1 & Hs1).
  destruct (IH s1 m d _ Hs1 Ha Hks Hr) as [s2 E2].
  exists s2. rewrite fmap_cons. cbn [run_packets]. rewrite E1. cbn [outcome_bind]. by rewrite E2.
Qed.

Lemma increasing_packets h ks : increasing h ks → Forall stream_packet ks.
Proof. revert h. induction ks as [|k ks IH]; intros h; constructor; [|destruct H0 as (_ & _ & ?)]; naive_solver. Qed.

Lemma stream_packets ks : stream_wf ks → Forall stream_packet ks.
Proof. destruct ks as [|k ks]; [constructor|]. intros (_ & Hk & Hks). constructor; [done|by eapply increasing_packets]. Qed.
End streams.

(** ** Lemmas: no panic *)

Section no_panic.
Context `{SrtpPrimitives}.
Implicit Types s : PureRustSrtp.

Lemma length_derive_blocks fuel key x counter needed output :
  (length output ≤ needed ≤ length output + fuel)%nat →
  length (derive_blocks fuel key x counter needed output) = needed.
Proof.
  revert counter output. induction fuel as [|fuel IH]; intros counter output Hl; simpl; [lia|].
  destruct (Nat.ltb_spec (length output) needed); [|lia].
  apply IH. rewrite length_app, length_take, aes128_block_length. lia.
Qed.

Lemma derive_session_key_ok key salt label n :
  derive_session_key key salt label n = Panic ∧ length key ≠ 16%nat
  ∨ (∃ k, derive_session_key key salt label n = Done k ∧ length k = n) ∧ length key = 16%nat.
Proof.
  unfold derive_session_key, aes128_new. destruct (Nat.eqb_spec (length key) 16).
  - right. split; [|done]. eexists. split; [done|]. apply length_derive_blocks. simpl. lia.
  - by left.
Qed.

Lemma srtp_new_outcome m :
  match validate m with
  | Err e => srtp_new m = Done (Err e)
  | Ok _ =>
      if (key_length (suite m) =? 16)%nat
      then ∃ d, srtp_new m = Done (Ok (mkSrtp m d seq_new window_new 0 window_new))
      else srtp_new m = Panic
  end.
Proof.
  unfold srtp_new. destruct (validate m) as [[]|e] eqn:Ev; [|done].
  assert (Hk : length (km_key m) = key_length (suite m)).
  { unfold validate in Ev. destruct (Nat.eqb_spec (length (km_key m)) (key_length (suite m))); done. }
  unfold derive.
  destruct (derive_session_key_ok (km_key m) (km_salt m) LABEL_CIPHER_KEY (key_length (suite m)))
    as [[-> Hne]|[(k1 & -> & Hl1) H16]].
  - destruct (Nat.eqb_spec (key_length (suite m)) 16); [congruence|done].
  - rewrite <-Hk, H16. simpl.
    repeat match goal with
    | |- context [derive_session_key ?a ?b ?l ?n] =>
        let E := fresh "E" in let k := fresh "k" in let Hl := fresh "Hl" in
        destruct (derive_session_key_ok a b l n) as [[_ E]|[(k & E & Hl) _]]; [congruence|];
        rewrite E; cbn [outcome_bind]
    end.
    unfold aes128_new. rewrite Hl1, <-Hk, H16. cbn. rewrite Hl. cbn. by eexists.
Qed.

Lemma tag_buffer_returns n : (n ≤ 10)%nat → returns (tag_buffer n).
Proof. intros Hn. unfold tag_buffer. destruct (Nat.leb_spec n 10); [by eexists|lia]. Qed.

Lemma not_aead_tag m : is_aead m = false → (auth_tag_length m ≤ 10)%nat.
Proof. by destruct m; simpl; try lia. Qed.

Lemma hmac_tag_returns key data r n : (n ≤ 20)%nat → returns (bytes_to (compute_hmac_sha1 key data r) n).
Proof. intros Hn. apply bytes_to_returns. unfold compute_hmac_sha1. by rewrite hmac_sha1_length. Qed.

Lemma bytes_to_length p i q : bytes_to p i = Done q → length q = i.
Proof. unfold bytes_to. destruct (Nat.leb_spec i (length p)); [|done]. intros [= <-]. rewrite length_take. lia. Qed.

Lemma protect_rtp_returns s p : returns (protect_rtp s p).
Proof.
  unfold protect_rtp, RTP_HEADER_MIN. destruct (Nat.ltb_spec (length p) 12); [by eexists|].
  destruct (fixed_header_returns p) as (ssrc & seq & hl & -> & Hhl); [lia|]. cbn [outcome_bind].
  destruct (Nat.ltb_spec (length p) hl); [by eexists|].
  destruct (payload_offset_returns p hl) as (off & -> & Hoff); [lia|]. cbn [outcome_bind].
  destruct (Nat.ltb_spec (length p) off); [by eexists|].
  destruct (estimate_packet_index _ _) as [index est].
  apply returns_bind; [by apply bytes_to_returns|intros h _].
  apply returns_bind; [by apply bytes_from_returns|intros b _].
  apply returns_bind; [apply hmac_tag_returns, tag_length_bound|intros tag _]. by eexists.
Qed.

Lemma unprotect_rtp_returns s p :
  is_aead (suite (key_material s)) = false → returns (unprotect_rtp s p).
Proof.
  intros Ha%not_aead_tag. unfold unprotect_rtp, RTP_HEADER_MIN.
  destruct (Nat.ltb_spec (length p) (12 + tag_len s)); [by eexists|].
  destruct (fixed_header_returns p) as (ssrc & seq & hl & -> & Hhl); [lia|]. cbn [outcome_bind].
  destruct (payload_offset_returns p hl) as (off & -> & Hoff); [lia|]. cbn [outcome_bind].
  destruct (estimate_packet_index _ _) as [index est].
  destruct (check _ _); [|by eexists]. cbn [negb]. cbv iota.
  apply returns_bind; [by apply tag_buffer_returns|intros _ _].
  apply returns_bind; [apply bytes_from_returns; lia|intros tag _].
  apply returns_bind; [apply bytes_to_returns; lia|intros body _].
  apply returns_bind; [apply hmac_tag_returns, tag_length_bound|intros tag' _].
  destruct (negb _); [by eexists|].
  apply returns_bind; [|intros; by eexists].
  destruct (Nat.ltb_spec off (length body)); [|by eexists].
  apply returns_bind; [apply bytes_to_returns; lia|intros h' _].
  apply returns_bind; [apply bytes_from_returns; lia|intros b' _]. by eexists.
Qed.

Lemma protect_rtcp_returns s p : returns (protect_rtcp s p).
Proof.
  unfold protect_rtcp, RTCP_HEADER_MIN. destruct (Nat.ltb_spec (length p) 8); [by eexists|].
  apply returns_bind; [apply bytes_range_returns; lia|intros ssrc _].
  apply returns_bind; [by apply bytes_to_returns|intros h _].
  apply returns_bind; [by apply bytes_from_returns|intros b _].
  apply returns_bind; [apply hmac_tag_returns, tag_length_bound|intros tag _]. by eexists.
Qed.

Lemma unprotect_rtcp_returns s p :
  is_aead (suite (key_material s)) = false → returns (unprotect_rtcp s p).
Proof.
  intros Ha%not_aead_tag. unfold unprotect_rtcp, RTCP_HEADER_MIN. fold (tag_len s) in Ha.
  destruct (Nat.ltb_spec (length p) (8 + 4 + tag_len s)); [by eexists|].
  apply returns_bind; [by apply tag_buffer_returns|intros _ _].
  apply returns_bind; [apply bytes_from_returns; lia|intros tag _].
  apply returns_bind; [apply bytes_range_returns; lia|intros e _].
  apply returns_bind; [apply bytes_to_returns; lia|intros body _].
  apply returns_bind; [apply hmac_tag_returns, tag_length_bound|intros tag' _].
  destruct (negb _); [by eexists|]. destruct (negb _); [by eexists|].
  apply returns_bind; [apply bytes_to_returns; lia|intros q Hq%bytes_to_length].
  destruct (_ && _); [|by eexists].
  apply returns_bind; [apply bytes_range_returns; lia|intros ssrc _].
  apply returns_bind; [apply bytes_to_returns; lia|intros h' _].
  apply returns_bind; [apply bytes_from_returns; lia|intros b' _]. by eexists.
Qed.

(** The key material never changes. *)
Ltac material :=
  intros s p r s'; repeat match goal with
  | |- outcome_bind _ _ = Done _ → _ =>
      let E := fresh "E" in intros E; apply outcome_bind_Done in E as (? & _ & E); revert E
  | |- Done _ = Done _ → _ => by intros [= _ <-]
  | |- context [if ?b then _ else _] => destruct b
  | |- context [let (_, _) := ?x in _] => destruct x
  | |- context [match ?x with (_, _) => _ end] => destruct x
  end.

Lemma protect_rtp_material : ∀ s p r s', protect_rtp s p = Done (r, s') → key_material s' = key_material s.
Proof. unfold protect_rtp. material. Qed.
Lemma unprotect_rtp_material : ∀ s p r s', unprotect_rtp s p = Done (r, s') → key_material s' = key_material s.
Proof. unfold unprotect_rtp. material. Qed.
Lemma protect_rtcp_material : ∀ s p r s', protect_rtcp s p = Done (r, s') → key_material s' = key_material s.
Proof. unfold protect_rtcp. material. Qed.
Lemma unprotect_rtcp_material : ∀ s p r s', unprotect_rtcp s p = Done (r, s') → key_material s' = key_material s.
Proof. unfold unprotect_rtcp. material. Qed.
End no_panic.

(** ** Acceptance *)

Section acceptance.
Context `{SrtpPrimitives}.
Implicit Types s : PureRustSrtp.

(** The index under which a packet is processed. *)
Definition rtp_index s (q : bytes) : Z :=
  match rtp_fixed_header q with
  | Done (_, seq, _) => (estimate_packet_index (seq_state s) seq).1
  | Panic => 0
  end.
Definition rtcp_index s (q : bytes) : Z :=
  let e := take 4 (drop (length q - tag_len s - 4) q) in Z.land (be_of e) (2 ^ 31 - 1).

(** The indices of the packets an operation accepts, in order. *)
Fixpoint accepted (f : PureRustSrtp → bytes → srtp_result) (index : PureRustSrtp → bytes → Z)
    s (qs : list bytes) : list Z :=
  match qs with
  | [] => []
  | q :: qs' =>
      match f s q with
      | Done (Ok _, s') => index s q :: accepted f index s' qs'
      | Done (Err _, s') => accepted f index s' qs'
      | Panic => []
      end
  end.

(** An operation that checks and updates a window under its index. *)
Definition guarded (f : PureRustSrtp → bytes → srtp_result) (index : PureRustSrtp → bytes → Z)
    (window : PureRustSrtp → ReplayWindow) : Prop :=
  ∀ s q r s', seq_wf (seq_state s) → Forall is_byte q → f s q = Done (r, s') →
    seq_wf (seq_state s')
    ∧ match r with
      | Ok _ => 0 ≤ index s q ∧ check (window s) (index s q) = true
                ∧ window s' = update (window s) (index s q)
      | Err _ => window s' = window s
      end.

Lemma accepted_fresh f index window qs :
  guarded f index window → Forall (Forall is_byte) qs → ∀ s seen,
  seq_wf (seq_state s) → tracks (window s) seen →
  NoDup (accepted f index s qs) ∧ ∀ i, i ∈ accepted f index s qs → i ∉ seen.
Proof.
  intros Hg Hqs. induction Hqs as [|q qs Hq _ IH]; intros s seen Hwf Ht; simpl.
  { split; [constructor|]. by intros i ?%not_elem_of_nil. }
  destruct (f s q) as [[[p|e] s']|] eqn:E.
  3: { split; [constructor|]. by intros i ?%not_elem_of_nil. }
  - destruct (Hg s q _ s' Hwf Hq E) as (Hwf' & Hi & Hc & Hw).
    rewrite (tracks_check _ _ _ Ht) in Hc.
    assert (Ht' : tracks (window s') (index s q :: seen)).
    { rewrite Hw. apply tracks_update; [done..| |done]. by apply acceptable_new. }
    destruct (IH s' _ Hwf' Ht') as [Hnd Hfresh]. split.
    + constructor; [|done]. intros Hin%Hfresh. apply Hin. by left.
    + intros i [->|Hin]%elem_of_cons; [by apply acceptable_new|].
      intros Hseen. apply (Hfresh i Hin). by right.
  - destruct (Hg s q _ s' Hwf Hq E) as (Hwf' & Hw). rewrite <-Hw in Ht. by apply IH.
Qed.

Lemma be_of_range bs : Forall is_byte bs → 0 ≤ be_of bs < 256 ^ Z.of_nat (length bs).
Proof.
  induction bs as [|b bs IH] using rev_ind; intros Hb; [done|].
  apply Forall_app in Hb as [Hb [Hx _]%Forall_cons]. specialize (IH Hb).
  rewrite be_of_snoc, length_app, Nat2Z.inj_add, Z.pow_add_r by lia. simpl.
  unfold is_byte in Hx. change (256 ^ 1) with 256. lia.
Qed.

Lemma bytes_range_bytes p i j q :
  bytes_range p i j = Done q → Forall is_byte p → Forall is_byte q ∧ length q = (j - i)%nat.
Proof.
  unfold bytes_range. destruct (Nat.leb_spec i j), (Nat.leb_spec j (length p)); try done. simpl.
  intros [= <-] Hp. split; [by apply Forall_take, Forall_drop|].
  rewrite length_take, length_drop. lia.
Qed.

Lemma fixed_header_seq q ssrc seq hl :
  rtp_fixed_header q = Done (ssrc, seq, hl) → Forall is_byte q → 0 ≤ seq < 2 ^ 16.
Proof.
  unfold rtp_fixed_header. intros Hf Hq.
  apply outcome_bind_Done in Hf as (a & _ & Hf). apply outcome_bind_Done in Hf as (b & Hb & Hf).
  apply outcome_bind_Done in Hf as (c & _ & Hf). simplify_eq.
  apply bytes_range_bytes in Hb as [Hb Hl]; [|done]. apply be_of_range in Hb. by rewrite Hl in Hb.
Qed.

(** Whatever the sequence number, the estimate is an index and the context stays
    well formed. *)
Lemma estimate_range q seq :
  seq_wf q → 0 ≤ seq < 2 ^ 16 →
  0 ≤ (estimate_packet_index q seq).1
  ∧ seq_wf (update_roc q seq (estimate_packet_index q seq).2).
Proof.
  intros [Hr Hl] Hs. unfold estimate_packet_index, update_roc.
  destruct (seq_initialized q); simpl.
  2: { split; [lia|]. by split; simpl. }
  assert (Hv : 0 ≤ estimate_roc_standard q seq < 2 ^ 32).
  { unfold estimate_roc_standard. repeat case_match; try done;
      pose proof (wrap_u32_range (roc q + 1)); pose proof (wrap_u32_range (roc q - 1));
      unfold is_u32, u32_max in *; lia. }
  split; [rewrite lor_shiftl_add by lia; lia|].
  destruct (_ || _); by split.
Qed.

Lemma rtp_guarded : guarded unprotect_rtp rtp_index replay_window.
Proof.
  intros s q r s' Hwf Hq. unfold unprotect_rtp, rtp_index.
  destruct (_ <? _)%nat; [by intros [= <- <-]|]. intros E.
  apply outcome_bind_Done in E as ([[ssrc seq] hl] & Hf & E). rewrite Hf.
  apply outcome_bind_Done in E as (off & _ & E).
  pose proof (estimate_range (seq_state s) seq Hwf (fixed_header_seq _ _ _ _ Hf Hq)) as [Hi Hwf'].
  destruct (estimate_packet_index (seq_state s) seq) as [index est]. simpl in Hi, Hwf' |- *.
  destruct (check (replay_window s) index) eqn:Ec; [|by injection E as <- <-]. simpl in E.
  do 4 (apply outcome_bind_Done in E as (? & _ & E)).
  destruct (negb _); [by injection E as <- <-|].
  apply outcome_bind_Done in E as (? & _ & E). injection E as <- <-. by split_and!.
Qed.

Lemma rtcp_guarded : guarded unprotect_rtcp rtcp_index srtcp_replay_window.
Proof.
  intros s q r s' Hwf Hq. unfold unprotect_rtcp, rtcp_index.
  destruct (_ <? _)%nat eqn:El; [by intros [= <- <-]|]. apply Nat.ltb_ge in El.
  unfold RTCP_HEADER_MIN in El. intros E.
  do 2 (apply outcome_bind_Done in E as (? & _ & E)).
  apply outcome_bind_Done in E as (e & He & E).
  unfold bytes_range in He. destruct (_ && _) eqn:Eb in He; [|done].
  replace (_ + 4 - _)%nat with 4%nat in He by lia. injection He as He. rewrite He.
  do 2 (apply outcome_bind_Done in E as (? & _ & E)).
  destruct (negb _); [by injection E as <- <-|].
  destruct (check (srtcp_replay_window s) _) eqn:Ec; [|by injection E as <- <-]. simpl in E.
  apply outcome_bind_Done in E as (p & _ & E).
  assert (Hs : seq_wf (seq_state s') ∧ srtcp_replay_window s'
      = update (srtcp_replay_window s) (Z.land (be_of e) (2 ^ 31 - 1)) ∧ is_Some (result_ok r)).
  { destruct (_ && _) in E; [|by injection E as <- <-; split_and!; [| |eexists]].
    do 3 (apply outcome_bind_Done in E as (? & _ & E)). by injection E as <- <-; split_and!; [| |eexists]. }
  destruct Hs as (Hs1 & Hs2 & Hr). destruct r; [|by destruct Hr]. split_and!; try done.
  apply Z.land_nonneg. right. done.
Qed.
End acceptance.

(** ** Properties *)

(** The elements of a list at the given positions; those out of range are left
    out. *)
Definition at_positions {A} (l : list A) (ks : list nat) : list A := omap (l !!.) ks.

Lemma at_positions_fmap {A B} (f : A → B) l ks : at_positions (f <$> l) ks = f <$> at_positions l ks.
Proof.
  induction ks as [|k ks IH]; [done|]. unfold at_positions in *.
  change (omap (λ i, (f <$> l) !! i) (k :: ks))
    with (match (f <$> l) !! k with
          | Some y => y :: omap (λ i, (f <$> l) !! i) ks
          | None => omap (λ i, (f <$> l) !! i) ks
          end).
  change (omap (λ i, l !! i) (k :: ks))
    with (match l !! k with Some y => y :: omap (λ i, l !! i) ks | None => omap (λ i, l !! i) ks end).
  rewrite IH, list_lookup_fmap. by destruct (l !! k).
Qed.

Lemma at_positions_subset {A} (P : A → Prop) l ks : Forall P l → Forall P (at_positions l ks).
Proof.
  intros Hl. unfold at_positions. apply Forall_forall. intros x (k & _ & Hk)%list_elem_of_omap.
  by apply (Forall_lookup_1 _ _ _ _ Hl Hk).
Qed.

(** C6: a protected stream is delivered.  Two contexts are made from the same
    key material of an AES-CM suite.  One protects the packets of a stream, whose
    48-bit indices increase by less than 2^15, across any number of rollovers of
    the sequence number.  The protected packets then arrive in any order, with
    any losses and duplicates, each within reach of the highest accepted before
    (the first before the first rollover): the other end gives back every packet
    exactly as it was sent, the first time it arrives, unless it is 128 or more
    behind the highest; every other arrival is rejected as a replay. *)
Theorem srtp_stream_delivered `{SrtpPrimitives} (m : SrtpKeyMaterial) (s0 : PureRustSrtp)
    (sent : list StreamPacket) :
  srtp_new m = Done (Ok s0) → is_aead (suite m) = false → stream_wf sent →
  ∃ protected s1,
    run_packets protect_rtp s0 (sp_bytes <$> sent) = Done (Ok <$> protected, s1)
    ∧ length protected = length sent
    ∧ ∀ arrivals, within_reach [] (at_positions sent arrivals) →
        ∃ s2, run_packets unprotect_rtp s0 (at_positions protected arrivals)
              = Done (expected [] (at_positions sent arrivals), s2).
Proof.
  intros Hn Ha Hs.
  assert (Hs0 : ∃ d, s0 = mkSrtp m d seq_new window_new 0 window_new).
  { pose proof (srtp_new_outcome m) as Ho. destruct (validate m) as [|e]; [|congruence].
    destruct (_ =? _)%nat; [|congruence]. destruct Ho as [d Ho]. exists d. congruence. }
  destruct Hs0 as [d ->].
  destruct (protect_stream sent (mkSrtp m d seq_new window_new 0 window_new) m d) as [s1 E]; try done.
  exists (seal_packet m d <$> sent), s1. split_and!; [done|apply length_fmap|].
  intros arrivals Hr. rewrite at_positions_fmap.
  apply (received_all _ _ m d []); [|done| |done].
  - split_and!; [done..|apply tracks_new|by rewrite decide_True].
  - by apply at_positions_subset, stream_packets.
Qed.

(** Primitives to compute with. *)
Definition pad (n : nat) (x : bytes) : bytes := take n (x ++ replicate n 0).
Lemma length_pad n x : length (pad n x) = n.
Proof. unfold pad. rewrite length_take, length_app, length_replicate. lia. Qed.
Definition toy_crypto : SrtpPrimitives :=
  {| aes128_block key block := pad 16 (xor_bytes key block);
     aes128_block_length key block := length_pad 16 _;
     hmac_sha1 key data := pad 20 (reverse data);
     hmac_sha1_length key data := length_pad 20 _ |}.

Definition ex_material : SrtpKeyMaterial :=
  mkKeyMaterial AesCm128HmacSha1_80 (replicate 16 7) (replicate 14 9).

(** Sequence numbers 65535, 0 and 1: the counter rolls over. *)
Definition ex_packet (seq : Z) : bytes :=
  [128; 0] ++ be_bytes 2 seq ++ [0; 0; 0; 1; 0; 0; 0; 5] ++ [seq mod 256; 42; 43].
Definition ex_stream : list StreamPacket :=
  [mkPacket 65535 (ex_packet 65535) 5 12; mkPacket 65536 (ex_packet 0) 5 12;
   mkPacket 65537 (ex_packet 1) 5 12].

Lemma ex_stream_wf : stream_wf ex_stream.
Proof.
  assert (Hp : ∀ t, t ∈ [65535; 65536; 65537] → rtp_packet (ex_packet (t mod 2 ^ 16)) 5 (t mod 2 ^ 16) 12).
  { intros t Ht. repeat (apply elem_of_cons in Ht as [->|Ht];
      [split; [vm_compute; lia|exists 12%nat, 128; split_and!; [done..|vm_compute; lia|done|by intros []]]|]).
    by apply not_elem_of_nil in Ht. }
  assert (Hk : ∀ t, t ∈ [65535; 65536; 65537] →
    stream_packet (mkPacket t (ex_packet (t mod 2 ^ 16)) 5 12)).
  { intros t Ht. split; [by apply Hp|]. simpl. rewrite !elem_of_cons in Ht.
    destruct Ht as [->|[->|[->|[]%not_elem_of_nil]]]; lia. }
  split; [simpl; lia|]. split; [apply (Hk 65535); set_solver|].
  split; [simpl; lia|]. split; [apply (Hk 65536); set_solver|].
  split; [simpl; lia|]. split; [apply (Hk 65537); set_solver|]. done.
Qed.

(** The third packet arrives first, then the first, and both again. *)
Lemma srtp_stream_delivered_witness :
  ∃ s0 protected s1 s2,
    @srtp_new toy_crypto ex_material = Done (Ok s0)
    ∧ @run_packets (@protect_rtp toy_crypto) s0 (sp_bytes <$> ex_stream) = Done (Ok <$> protected, s1)
    ∧ @run_packets (@unprotect_rtp toy_crypto) s0 (at_positions protected [0; 2; 0; 1; 2]%nat)
      = Done ([Ok (ex_packet 65535); Ok (ex_packet 1); Err (ReplayDetected 65535);
               Ok (ex_packet 0); Err (ReplayDetected 65537)], s2).
Proof.
  assert (Hn : ∃ s0, @srtp_new toy_crypto ex_material = Done (Ok s0)) by (eexists; vm_compute; reflexivity).
  destruct Hn as [s0 Hn].
  destruct (@srtp_stream_delivered toy_crypto ex_material s0 ex_stream Hn eq_refl ex_stream_wf)
    as (protected & s1 & Hp & _ & Hd).
  destruct (Hd [0; 2; 0; 1; 2]%nat) as [s2 E].
  { unfold near. repeat split; vm_compute; done || lia. }
  exists s0, protected, s1, s2. split; [exact Hn|]. split; [exact Hp|]. exact E.
Defined.

(** C17: nothing is accepted twice.  Whatever packets arrive at a fresh context,
    forged, damaged, repeated or reordered, no two RTP packets that
    [unprotect_rtp] accepts have been processed under the same index, and no two
    RTCP packets that [unprotect_rtcp] accepts carry the same index. *)
Theorem srtp_accepts_once `{SrtpPrimitives} (m : SrtpKeyMaterial) (s0 : PureRustSrtp)
    (packets : list bytes) :
  srtp_new m = Done (Ok s0) → Forall (Forall is_byte) packets →
  NoDup (accepted unprotect_rtp rtp_index s0 packets)
  ∧ NoDup (accepted unprotect_rtcp rtcp_index s0 packets).
Proof.
  intros Hn Hp. pose proof (srtp_new_outcome m) as Ho.
  destruct (validate m) as [|e]; [|congruence]. destruct (_ =? _)%nat; [|congruence].
  destruct Ho as [d Ho]. rewrite Hn in Ho. injection Ho as ->.
  assert (Hwf : seq_wf seq_new) by (split; simpl; lia). split.
  - exact (proj1 (accepted_fresh _ _ _ _ rtp_guarded Hp (mkSrtp _ _ _ _ _ _) [] Hwf tracks_new)).
  - exact (proj1 (accepted_fresh _ _ _ _ rtcp_guarded Hp (mkSrtp _ _ _ _ _ _) [] Hwf tracks_new)).
Qed.

(** The protected form of a packet, twice, with a damaged copy in between. *)
Lemma srtp_accepts_once_witness :
  ∃ s0 q, @srtp_new toy_crypto ex_material = Done (Ok s0)
    ∧ @accepted (@unprotect_rtp toy_crypto) rtp_index s0 [q; 0 :: tail q; q] = [77]
    ∧ NoDup (@accepted (@unprotect_rtp toy_crypto) rtp_index s0 [q; 0 :: tail q; q]).
Proof.
  assert (Hn : ∃ s0 q, @srtp_new toy_crypto ex_material = Done (Ok s0)
    ∧ fst <$> (match @protect_rtp toy_crypto s0 (ex_packet 77) with Done r => Some r | Panic => None end)
      = Some (Ok q) ∧ Forall is_byte q
    ∧ @accepted (@unprotect_rtp toy_crypto) rtp_index s0 [q; 0 :: tail q; q] = [77]).
  { do 2 eexists. split; [vm_compute; reflexivity|]. split; [vm_compute; reflexivity|].
    split; [|vm_compute; reflexivity].
    repeat (apply List.Forall_cons; [split; vm_compute; done|]). constructor. }
  destruct Hn as (s0 & q & Hn & _ & Hq & Ha). exists s0, q. split; [exact Hn|]. split; [exact Ha|].
  refine (proj1 (@srtp_accepts_once toy_crypto ex_material s0 [q; 0 :: tail q; q] Hn _)).
  assert (Hq' : Forall is_byte (0 :: tail q)) by (constructor; [split; done|by apply Forall_tail]).
  repeat (constructor; [assumption|]). constructor.
Defined.

(** No packet makes an AES-CM context panic, but half of the suites cannot
    be used.  Making a context panics exactly for the two 256-bit suites, whose
    key of 32 bytes is given to AES-128; otherwise it succeeds or reports the
    wrong length.  Once made for an AES-CM suite, protecting and unprotecting RTP
    and RTCP return a result for every byte string, and keep the suite, so for
    every sequence of them. *)
Theorem srtp_panics_only_at_creation `{SrtpPrimitives} (m : SrtpKeyMaterial) :
  (srtp_new m = Panic ↔ validate m = Ok tt ∧ key_length (suite m) = 32%nat)
  ∧ ∀ (s : PureRustSrtp) (p : bytes), is_aead (suite (key_material s)) = false →
      Forall (λ f : PureRustSrtp → bytes → srtp_result,
          ∃ r s', f s p = Done (r, s') ∧ key_material s' = key_material s)
        [protect_rtp; unprotect_rtp; protect_rtcp; unprotect_rtcp].
Proof.
  split.
  - pose proof (srtp_new_outcome m) as Ho. destruct (validate m) as [[]|e].
    + destruct (Nat.eqb_spec (key_length (suite m)) 16) as [E|E].
      * destruct Ho as [d ->]. rewrite E. split; [done|]. by intros [_ ?].
      * rewrite Ho. split; [|done]. intros _. split; [done|]. by destruct (suite m).
    + rewrite Ho. split; [done|]. by intros [? _].
  - intros s p Ha. repeat constructor.
    + destruct (protect_rtp_returns s p) as [[r s'] E]. exists r, s'. split; [done|].
      by apply protect_rtp_material in E.
    + destruct (unprotect_rtp_returns s p Ha) as [[r s'] E]. exists r, s'. split; [done|].
      by apply unprotect_rtp_material in E.
    + destruct (protect_rtcp_returns s p) as [[r s'] E]. exists r, s'. split; [done|].
      by apply protect_rtcp_material in E.
    + destruct (unprotect_rtcp_returns s p Ha) as [[r s'] E]. exists r, s'. split; [done|].
      by apply unprotect_rtcp_material in E.
Qed.

Lemma srtp_panics_only_at_creation_witness :
  @srtp_new toy_crypto (mkKeyMaterial Aes256CmHmacSha1_80 (replicate 32 7) (replicate 14 9)) = Panic
  ∧ ∃ s, @srtp_new toy_crypto ex_material = Done (Ok s)
    ∧ ∃ r s', @unprotect_rtp toy_crypto s [1; 2; 3] = Done (r, s') ∧ key_material s' = key_material s.
Proof.
  split.
  - apply (proj1 (@srtp_panics_only_at_creation toy_crypto
      (mkKeyMaterial Aes256CmHmacSha1_80 (replicate 32 7) (replicate 14 9)))). done.
  - assert (Hn : ∃ s, @srtp_new toy_crypto ex_material = Done (Ok s)
      ∧ suite (key_material s) = AesCm128HmacSha1_80) by (eexists; split; vm_compute; reflexivity).
    destruct Hn as (s & Hn & Hs). exists s. split; [exact Hn|].
    pose proof (proj2 (@srtp_panics_only_at_creation toy_crypto ex_material) s [1; 2; 3]
      ltac:(by rewrite Hs)) as Hf.
    inversion Hf as [|? ? _ Hf']. inversion Hf' as [|? ? Hu _]. exact Hu.
Defined.
