(* ===== verification/SrtpGcm.v ===== *)
(** * SRTP with AES-GCM ([asterisk-sip/src/srtp.rs], [AeadGcmSrtp])

    The AEAD backend: initial vectors, protection and unprotection of RTP and
    RTCP, and the factory that chooses the backend.  The cipher is a parameter
    (the [aes-gcm] crate), with the behaviour of GCM: authenticated encryption
    that adds a key stream determined by key and nonce.

    The theorems: a packet that is opened under the index it was sealed with is
    recovered; RTP and RTCP packets of equal index share a nonce, which gives
    away the difference of their texts; an unauthenticated datagram makes
    [unprotect_rtp] panic. *)

From Stdlib Require Import ZArith.
From S2P Require Import Prelude Bytes SrtpWindow Srtp.
Local Open Scope Z_scope.
Local Open Scope list_scope.

Class GcmPrimitives := {
  (** Encryption and authentication: ciphertext and tag. *)
  gcm_encrypt : bytes → bytes → bytes → bytes → bytes * bytes;
  (** Verification and decryption. *)
  gcm_decrypt : bytes → bytes → bytes → bytes → bytes → option bytes;
  gcm_keystream : bytes → bytes → nat → bytes;
  gcm_keystream_length : ∀ key nonce n, length (gcm_keystream key nonce n) = n;
  gcm_keystream_prefix : ∀ key nonce m n, (m ≤ n)%nat →
    take m (gcm_keystream key nonce n) = gcm_keystream key nonce m;
  gcm_ciphertext : ∀ key nonce aad text,
    (gcm_encrypt key nonce aad text).1 = xor_bytes text (gcm_keystream key nonce (length text));
  gcm_tag_length : ∀ key nonce aad text, length (gcm_encrypt key nonce aad text).2 = 16%nat;
  gcm_decrypts : ∀ key nonce aad text,
    gcm_decrypt key nonce aad (gcm_encrypt key nonce aad text).1 (gcm_encrypt key nonce aad text).2
    = Some text;
}.

Record AeadGcmSrtp := mkGcm {
  gk_material : SrtpKeyMaterial;
  session_key : bytes;
  session_salt : bytes;
  gk_seq : SeqState;
  gk_window : ReplayWindow;
  gk_srtcp_index : Z;
  gk_srtcp_window : ReplayWindow }.

Definition gcm_new (m : SrtpKeyMaterial) : result SrtpError AeadGcmSrtp :=
  let? _ := validate m in
  if negb (is_aead (suite m)) then Err ProtectFailed
  else Ok (mkGcm m (km_key m) (km_salt m) seq_new window_new 0 window_new).

(** ** Initial vectors, from a salt of 12 bytes *)

Definition construct_rtp_iv (salt : bytes) (ssrc packet_index : Z) : bytes :=
  xor_at 6 (drop 2 (be_bytes 8 packet_index)) (xor_at 4 (be_bytes 4 ssrc) (take 12 salt)).

Definition construct_rtcp_iv (salt : bytes) (ssrc srtcp_index : Z) : bytes :=
  xor_at 8 (be_bytes 4 srtcp_index) (xor_at 4 (be_bytes 4 ssrc) (take 12 salt)).

Section gcm.
Context `{GcmPrimitives}.
Implicit Types s : AeadGcmSrtp.

Definition gset_seq s (q : SeqState) : AeadGcmSrtp :=
  mkGcm (gk_material s) (session_key s) (session_salt s) q (gk_window s) (gk_srtcp_index s)
    (gk_srtcp_window s).
Definition gset_window s (w : ReplayWindow) : AeadGcmSrtp :=
  mkGcm (gk_material s) (session_key s) (session_salt s) (gk_seq s) w (gk_srtcp_index s)
    (gk_srtcp_window s).
Definition gset_rtcp s (i : Z) (w : ReplayWindow) : AeadGcmSrtp :=
  mkGcm (gk_material s) (session_key s) (session_salt s) (gk_seq s) (gk_window s) i w.

Definition gcm_result : Type := outcome (result SrtpError bytes * AeadGcmSrtp).

(** The cipher of the suite; [None] when the suite is not GCM or the key does
    not fit it. *)
Definition gcm_key s : option bytes :=
  match suite (gk_material s) with
  | AeadAes128Gcm => if (length (session_key s) =? 16)%nat then Some (session_key s) else None
  | AeadAes256Gcm => if (length (session_key s) =? 32)%nat then Some (session_key s) else None
  | _ => None
  end.

Definition gcm_protect_rtp s (packet : bytes) : gcm_result :=
  if (length packet <? RTP_HEADER_MIN)%nat
  then Done (Err (PacketTooShort RTP_HEADER_MIN (length packet)), s)
  else
    let! (ssrc, seq, fixed_len) := rtp_fixed_header packet in
    let! header_len := rtp_payload_offset packet fixed_len in
    if (length packet <? header_len)%nat
    then Done (Err (PacketTooShort header_len (length packet)), s)
    else
      let (packet_index, estimated_roc) := estimate_packet_index (gk_seq s) seq in
      let iv := construct_rtp_iv (session_salt s) ssrc packet_index in
      let! aad := bytes_to packet header_len in
      let! payload := bytes_from packet header_len in
      match gcm_key s with
      | None => Done (Err ProtectFailed, s)
      | Some key =>
          let (payload, tag) := gcm_encrypt key iv aad payload in
          Done (Ok (aad ++ payload ++ tag), gset_seq s (update_roc (gk_seq s) seq estimated_roc))
      end.

Definition gcm_unprotect_rtp s (packet : bytes) : gcm_result :=
  if (length packet <? RTP_HEADER_MIN + 16)%nat
  then Done (Err (PacketTooShort (RTP_HEADER_MIN + 16) (length packet)), s)
  else
    let! (ssrc, seq, fixed_len) := rtp_fixed_header packet in
    let! header_len := rtp_payload_offset packet fixed_len in
    let (packet_index, estimated_roc) := estimate_packet_index (gk_seq s) seq in
    if negb (check (gk_window s) packet_index) then Done (Err (ReplayDetected packet_index), s)
    else
      let iv := construct_rtp_iv (session_salt s) ssrc packet_index in
      let! aad := bytes_to packet header_len in
      let tag_start := (length packet - 16)%nat in
      let! tag := bytes_from packet tag_start in
      let! ciphertext := bytes_range packet header_len tag_start in
      match gcm_key s with
      | None => Done (Err UnprotectFailed, s)
      | Some key =>
          match gcm_decrypt key iv aad ciphertext tag with
          | None => Done (Err AuthenticationFailed, s)
          | Some text =>
              Done (Ok (aad ++ text),
                    gset_seq (gset_window s (update (gk_window s) packet_index))
                      (update_roc (gk_seq s) seq estimated_roc))
          end
      end.

Definition gcm_protect_rtcp s (packet : bytes) : gcm_result :=
  if (length packet <? RTCP_HEADER_MIN)%nat
  then Done (Err (PacketTooShort RTCP_HEADER_MIN (length packet)), s)
  else
    let! ssrc := bytes_range packet 4 8 in
    let index := gk_srtcp_index s in
    let s := gset_rtcp s (Z.land (wrap_u32 (index + 1)) (2 ^ 31 - 1)) (gk_srtcp_window s) in
    let iv := construct_rtcp_iv (session_salt s) (be_of ssrc) index in
    let e_index := be_bytes 4 (Z.lor (2 ^ 31) index) in
    let! header := bytes_to packet RTCP_HEADER_MIN in
    let! payload := bytes_from packet RTCP_HEADER_MIN in
    match gcm_key s with
    | None => Done (Err ProtectFailed, s)
    | Some key =>
        let (payload, tag) := gcm_encrypt key iv (header ++ e_index) payload in
        Done (Ok (header ++ payload ++ e_index ++ tag), s)
    end.

Definition gcm_unprotect_rtcp s (packet : bytes) : gcm_result :=
  let min_len := (RTCP_HEADER_MIN + 4 + 16)%nat in
  if (length packet <? min_len)%nat then Done (Err (PacketTooShort min_len (length packet)), s)
  else
    let tag_start := (length packet - 16)%nat in
    let! tag := bytes_from packet tag_start in
    let e_index_start := (tag_start - 4)%nat in
    let! e_index := bytes_range packet e_index_start (e_index_start + 4) in
    let index := Z.land (be_of e_index) (2 ^ 31 - 1) in
    if negb (check (gk_srtcp_window s) index) then Done (Err (ReplayDetected index), s)
    else
      let! ssrc := bytes_range packet 4 8 in
      let iv := construct_rtcp_iv (session_salt s) (be_of ssrc) index in
      let! header := bytes_to packet RTCP_HEADER_MIN in
      let! ciphertext := bytes_range packet RTCP_HEADER_MIN e_index_start in
      match gcm_key s with
      | None => Done (Err UnprotectFailed, s)
      | Some key =>
          match gcm_decrypt key iv (header ++ be_bytes 4 (be_of e_index)) ciphertext tag with
          | None => Done (Err AuthenticationFailed, s)
          | Some text =>
              Done (Ok (header ++ text),
                    gset_rtcp s (gk_srtcp_index s) (update (gk_srtcp_window s) index))
          end
      end.
End gcm.

(** ** The factory *)

Inductive SrtpBackend := Gcm (g : AeadGcmSrtp) | PureRust (p : PureRustSrtp).

Definition create_srtp_crypto `{SrtpPrimitives} (m : SrtpKeyMaterial)
    : outcome (result SrtpError SrtpBackend) :=
  if is_aead (suite m) then Done (let? g := gcm_new m in Ok (Gcm g))
  else let!? p := srtp_new m in Done (Ok (PureRust p)).

(** ** Lemmas *)

Lemma be_bytes_add a b x :
  be_bytes (a + b) x = be_bytes a (x / 256 ^ Z.of_nat b) ++ be_bytes b x.
Proof.
  revert x. induction b as [|b IH]; intros x.
  - rewrite Nat.add_0_r, Z.div_1_r. simpl. by rewrite app_nil_r.
  - rewrite Nat.add_succ_r. simpl. rewrite IH, <-(assoc_L (++)). do 2 f_equal.
    rewrite Zdiv.Zdiv_Zdiv by lia. f_equal. rewrite Nat2Z.inj_succ, Z.pow_succ_r by lia. done.
Qed.

(** Xor-ing zeros in front of the bytes. *)
Lemma xor_at_zeros b0 b1 b2 b3 iv :
  length iv = 12%nat → xor_at 6 [0; 0; b0; b1; b2; b3] iv = xor_at 8 [b0; b1; b2; b3] iv.
Proof.
  intros Hl. do 12 (destruct iv as [|? iv]; [done|]). destruct iv; [|done].
  unfold xor_at, xor_bytes. simpl. by rewrite !Z.lxor_0_r.
Qed.

Lemma length_be_4 x : ∃ b0 b1 b2 b3, be_bytes 4 x = [b0; b1; b2; b3].
Proof. simpl. eauto. Qed.

(** The two initial vectors coincide below 2^32. *)
Lemma shared_iv salt ssrc i :
  (12 ≤ length salt)%nat → 0 ≤ i < 2 ^ 32 →
  construct_rtp_iv salt ssrc i = construct_rtcp_iv salt ssrc i.
Proof.
  intros Hs Hi. unfold construct_rtp_iv, construct_rtcp_iv.
  assert (Hd : drop 2 (be_bytes 8 i) = [0; 0] ++ be_bytes 4 i).
  { change 8%nat with (2 + (2 + 4))%nat. rewrite (be_bytes_add 2 (2 + 4)).
    rewrite drop_app_length', (be_bytes_add 2 4) by done. f_equal.
    by rewrite Z.div_small. }
  rewrite Hd. destruct (length_be_4 i) as (b0 & b1 & b2 & b3 & ->). apply xor_at_zeros.
  rewrite length_xor_at; rewrite ?length_be_bytes, length_take; lia.
Qed.

Lemma xor_bytes_take n a k : take n (xor_bytes a k) = xor_bytes (take n a) (take n k).
Proof. apply zip_with_take. Qed.

(** Two texts under one key stream. *)
Lemma xor_bytes_cancel a b k :
  length a = length b → (length a ≤ length k)%nat →
  xor_bytes (xor_bytes a k) (xor_bytes b k) = xor_bytes a b.
Proof.
  revert b k. induction a as [|x a IH]; intros [|y b] [|z k] Hl Hk; simpl in *; try done; [lia|].
  f_equal; [|apply IH; lia].
  rewrite (Z.lxor_comm y z), Z.lxor_assoc, <-(Z.lxor_assoc z z y), Z.lxor_nilpotent.
  by rewrite Z.lxor_0_l.
Qed.

Section gcm_proofs.
Context `{GcmPrimitives}.
Implicit Types s : AeadGcmSrtp.

(** What is shared of two key streams under one nonce. *)
Lemma keystream_reused key nonce aad1 aad2 a b n :
  (n ≤ length a)%nat → (n ≤ length b)%nat →
  xor_bytes (take n (gcm_encrypt key nonce aad1 a).1) (take n (gcm_encrypt key nonce aad2 b).1)
  = xor_bytes (take n a) (take n b).
Proof.
  intros Ha Hb. rewrite !gcm_ciphertext, !xor_bytes_take, !gcm_keystream_prefix by done.
  apply xor_bytes_cancel; rewrite ?length_take, ?gcm_keystream_length; lia.
Qed.

Lemma length_gcm_ciphertext key nonce aad a : length (gcm_encrypt key nonce aad a).1 = length a.
Proof. rewrite gcm_ciphertext, length_xor_bytes, gcm_keystream_length. lia. Qed.

Definition gcm_seal key salt ssrc index off (p : bytes) : bytes :=
  let e := gcm_encrypt key (construct_rtp_iv salt ssrc index) (take off p) (drop off p) in
  take off p ++ e.1 ++ e.2.

Lemma gcm_protect_seal s p ssrc seq off t est key :
  rtp_packet p ssrc seq off → estimate_packet_index (gk_seq s) seq = (t, est) → gcm_key s = Some key →
  gcm_protect_rtp s p
  = Done (Ok (gcm_seal key (session_salt s) ssrc t off p), gset_seq s (update_roc (gk_seq s) seq est)).
Proof.
  intros Hp He Hk. destruct (rtp_packet_reread p ssrc seq off [] Hp) as (hl & Hf & Hhl & Ho & _).
  destruct Hp as [Hlen _]. unfold gcm_protect_rtp, RTP_HEADER_MIN.
  destruct (Nat.ltb_spec (length p) 12); [lia|]. rewrite Hf. cbn [outcome_bind]. rewrite Ho.
  cbn [outcome_bind]. destruct (Nat.ltb_spec (length p) off); [lia|]. rewrite He, Hk.
  unfold bytes_to, bytes_from. destruct (Nat.leb_spec off (length p)); [|lia]. cbn [outcome_bind].
  unfold gcm_seal. by destruct (gcm_encrypt _ _ _ _).
Qed.

Lemma gcm_unprotect_seal s p ssrc seq off t est key :
  rtp_packet p ssrc seq off → estimate_packet_index (gk_seq s) seq = (t, est) → gcm_key s = Some key →
  gcm_unprotect_rtp s (gcm_seal key (session_salt s) ssrc t off p)
  = if check (gk_window s) t
    then Done (Ok p, gset_seq (gset_window s (update (gk_window s) t)) (update_roc (gk_seq s) seq est))
    else Done (Err (ReplayDetected t), s).
Proof.
  intros Hp He Hk. unfold gcm_seal.
  set (e := gcm_encrypt key (construct_rtp_iv (session_salt s) ssrc t) (take off p) (drop off p)).
  destruct (rtp_packet_reread p ssrc seq off (e.1 ++ e.2) Hp) as (hl & _ & _ & _ & Hf & Ho).
  destruct Hp as [Hlen _].
  assert (Hoff : length (take off p) = off) by (rewrite length_take; lia).
  assert (Hct : length e.1 = (length p - off)%nat)
    by (unfold e; by rewrite length_gcm_ciphertext, length_drop).
  assert (Htag : length e.2 = 16%nat) by apply gcm_tag_length.
  unfold gcm_unprotect_rtp, RTP_HEADER_MIN. rewrite !length_app, Hoff, Hct, Htag.
  destruct (Nat.ltb_spec (off + (length p - off + 16)) (12 + 16)); [lia|].
  rewrite Hf. cbn [outcome_bind]. rewrite Ho. cbn [outcome_bind]. rewrite He.
  destruct (check (gk_window s) t); [|done]. cbn [negb]. cbv iota.
  assert (E1 : bytes_to (take off p ++ e.1 ++ e.2) off = Done (take off p))
    by (rewrite <-Hoff at 2; apply bytes_to_app).
  assert (E2 : bytes_from (take off p ++ e.1 ++ e.2) (off + (length p - off + 16) - 16) = Done e.2).
  { replace (off + (length p - off + 16) - 16)%nat with (length (take off p ++ e.1))
      by (rewrite length_app; lia). rewrite (assoc_L (++)). apply bytes_from_app. }
  assert (E3 : bytes_range (take off p ++ e.1 ++ e.2) off (off + (length p - off + 16) - 16) = Done e.1).
  { replace (off + (length p - off + 16) - 16)%nat with (length (take off p) + length e.1)%nat by lia.
    rewrite <-Hoff at 2. apply bytes_range_app. }
  rewrite E1, E2, E3. cbn [outcome_bind]. rewrite Hk. unfold e. rewrite gcm_decrypts.
  by rewrite take_drop.
Qed.
End gcm_proofs.

(** ** Theorems *)

Section gcm_theorems.
Context `{GcmPrimitives}.
Implicit Types s : AeadGcmSrtp.

Lemma gcm_protect_rtcp_seal s q x key :
  (RTCP_HEADER_MIN ≤ length q)%nat → bytes_range q 4 8 = Done x → gcm_key s = Some key →
  let iv := construct_rtcp_iv (session_salt s) (be_of x) (gk_srtcp_index s) in
  let e := be_bytes 4 (Z.lor (2 ^ 31) (gk_srtcp_index s)) in
  ∃ s', gcm_protect_rtcp s q
    = Done (Ok (take 8 q ++ (gcm_encrypt key iv (take 8 q ++ e) (drop 8 q)).1 ++ e
                ++ (gcm_encrypt key iv (take 8 q ++ e) (drop 8 q)).2), s').
Proof.
  intros Hq Hx Hk iv e. unfold gcm_protect_rtcp.
  destruct (Nat.ltb_spec (length q) RTCP_HEADER_MIN); [lia|]. rewrite Hx. cbn [outcome_bind].
  unfold bytes_to, bytes_from. destruct (Nat.leb_spec RTCP_HEADER_MIN (length q)); [|lia].
  cbn [outcome_bind]. change (gcm_key (gset_rtcp s _ _)) with (gcm_key s). rewrite Hk.
  eexists. fold e. change (session_salt (gset_rtcp s _ _)) with (session_salt s). fold iv.
  unfold RTCP_HEADER_MIN. by destruct (gcm_encrypt _ _ _ _).
Qed.

(** What a protected packet shows after its header. *)
Lemma drop_take_mid k h (c r : bytes) n :
  length h = k → (n ≤ length c)%nat → take n (drop k (h ++ c ++ r)) = take n c.
Proof. intros <- Hn. by rewrite drop_app_length, take_app_le. Qed.

(** RTP and RTCP share their nonces.  Both directions use one key and one
    salt, and the initial vector of the RTP packet of index [i] is that of the
    RTCP packet numbered [i].  So whenever a context protects an RTP packet whose
    index is the current RTCP index, for the same SSRC, the two ciphertexts give
    away, byte for byte, the difference of the two plaintexts. *)
Theorem gcm_nonce_shared s key p q ssrc seq off est x :
  gcm_key s = Some key → (12 ≤ length (session_salt s))%nat → 0 ≤ gk_srtcp_index s < 2 ^ 31 →
  rtp_packet p ssrc seq off → estimate_packet_index (gk_seq s) seq = (gk_srtcp_index s, est) →
  (8 ≤ length q)%nat → bytes_range q 4 8 = Done x → be_of x = ssrc →
  ∃ c1 c2 s1 s2,
    gcm_protect_rtp s p = Done (Ok c1, s1) ∧ gcm_protect_rtcp s q = Done (Ok c2, s2)
    ∧ ∀ n, (n ≤ length (drop off p))%nat → (n ≤ length (drop 8 q))%nat →
        xor_bytes (take n (drop off c1)) (take n (drop 8 c2))
        = xor_bytes (take n (drop off p)) (take n (drop 8 q)).
Proof.
  intros Hk Hs Hi Hp He Hq Hx <-. pose proof (rp_len _ _ _ _ Hp).
  destruct (gcm_protect_rtcp_seal s q x key Hq Hx Hk) as [s' E].
  do 4 eexists. split; [by eapply gcm_protect_seal|]. split; [exact E|].
  intros n Hn1 Hn2. unfold gcm_seal. set (iv1 := construct_rtp_iv _ _ _).
  rewrite !drop_take_mid by (rewrite ?length_gcm_ciphertext, ?length_take; lia).
  unfold iv1. rewrite shared_iv by lia. by apply keystream_reused.
Qed.

Lemma gcm_new_window m s : gcm_new m = Ok s → Some (gk_window s) = Some window_new.
Proof. unfold gcm_new. destruct (validate m); cbn; [|done]. by destruct (negb _); intros [= <-]. Qed.

Lemma bytes_range_panics p i j : (j < i)%nat → bytes_range p i j = Panic.
Proof. intros Hj. unfold bytes_range. destruct (Nat.leb_spec i j); [lia|done]. Qed.

Definition overlong_header s p : Prop :=
  (28 ≤ length p)%nat ∧ ∃ ssrc seq hl off,
    rtp_fixed_header p = Done (ssrc, seq, hl) ∧ rtp_payload_offset p hl = Done off
    ∧ check (gk_window s) (estimate_packet_index (gk_seq s) seq).1 = true
    ∧ (length p < off + 16)%nat.

Lemma gcm_unprotect_overlong s p : gcm_unprotect_rtp s p = Panic ↔ overlong_header s p.
Proof.
  unfold gcm_unprotect_rtp, overlong_header, RTP_HEADER_MIN.
  destruct (Nat.ltb_spec (length p) (12 + 16)) as [Hl|Hl].
  { split; [done|]. intros [? _]. lia. }
  destruct (fixed_header_returns p) as (ssrc & seq & hl & Hf & Hhl); [lia|].
  destruct (payload_offset_returns p hl) as (off & Ho & Hoff); [lia|].
  rewrite Hf. cbn [outcome_bind]. rewrite Ho. cbn [outcome_bind].
  destruct (estimate_packet_index (gk_seq s) seq) as [t est] eqn:Ht.
  destruct (check (gk_window s) t) eqn:Hc; cbn [negb]; cbv iota.
  - destruct (decide (length p < off + 16)%nat) as [Hs|Hs].
    + split; intros _.
      * split; [lia|]. exists ssrc, seq, hl, off. by rewrite Ht.
      * unfold bytes_to. destruct (Nat.leb_spec off (length p)); [|done]. cbn [outcome_bind].
        destruct (bytes_from_returns p (length p - 16)) as [tag ->]; [lia|]. cbn [outcome_bind].
        by rewrite bytes_range_panics by lia.
    + destruct (bytes_to_returns p off) as [aad ->]; [lia|]. cbn [outcome_bind].
      destruct (bytes_from_returns p (length p - 16)) as [tag ->]; [lia|]. cbn [outcome_bind].
      destruct (bytes_range_returns p off (length p - 16)) as [ct ->]; [lia|]. cbn [outcome_bind].
      split; [by destruct (gcm_key s) as [key|]; [destruct (gcm_decrypt _ _ _ _ _)|]|].
      intros (_ & ? & ? & ? & ? & [= <- <- <-] & E2 & _ & ?).
      rewrite Ho in E2. injection E2 as <-. lia.
  - split; [done|]. intros (_ & ? & ? & ? & ? & [= <- <- <-] & _ & E3 & _).
    rewrite Ht in E3. cbn [fst] in E3. congruence.
Qed.

(** An unauthenticated packet can make the GCM receiver panic.  The header
    length computed from the packet is never compared with its size: whenever it
    reaches into the last 16 bytes of a packet that is long enough and not
    replayed, slicing out the ciphertext panics before the tag is looked at, and
    these are the only panics.  At a fresh context, every datagram of 28 bytes
    that announces 15 contributing sources does it. *)
Theorem gcm_unprotect_panics s p :
  (gcm_unprotect_rtp s p = Panic ↔ overlong_header s p)
  ∧ ∀ m b0 p', gcm_new m = Ok s → p = b0 :: p' → length p = 28%nat → Z.land b0 15 = 15 →
      gcm_unprotect_rtp s p = Panic.
Proof.
  split; [apply gcm_unprotect_overlong|]. intros m b0 p' Hn -> Hl Hcc.
  apply gcm_unprotect_overlong. split; [lia|].
  destruct (fixed_header_returns (b0 :: p')) as (ssrc & seq & hl & Hf & Hhl); [lia|].
  destruct (payload_offset_returns (b0 :: p') hl) as (off & Ho & Hoff); [lia|].
  exists ssrc, seq, hl, off. split_and!; [done..| |].
  - injection (gcm_new_window m s Hn) as ->. done.
  - enough (hl = 72%nat) by lia.
    revert Hf. unfold rtp_fixed_header, RTP_HEADER_MIN.
    destruct (bytes_range_returns (b0 :: p') 8 12) as [? ->]; [lia|].
    destruct (bytes_range_returns (b0 :: p') 2 4) as [? ->]; [lia|].
    cbn. rewrite Hcc. intros [= _ _ <-]. done.
Qed.
End gcm_theorems.

(** ** Witnesses *)

(** A cipher to compute with: the key stream is a constant byte, the tag is
    zero. *)
Lemma toy_prefix m n : (m ≤ n)%nat → take m (replicate n 90) = replicate m 90.
Proof. intros Hm. rewrite take_replicate. f_equal. lia. Qed.
Lemma toy_decrypts text :
  Some (xor_bytes (xor_bytes text (replicate (length text) 90))
          (replicate (length (xor_bytes text (replicate (length text) 90))) 90)) = Some text.
Proof.
  f_equal. rewrite length_xor_bytes, length_replicate, Nat.min_id.
  apply xor_bytes_involutive. rewrite length_replicate. lia.
Qed.
Definition toy_gcm : GcmPrimitives :=
  {| gcm_encrypt _ _ _ text := (xor_bytes text (replicate (length text) 90), replicate 16 0);
     gcm_decrypt _ _ _ c _ := Some (xor_bytes c (replicate (length c) 90));
     gcm_keystream _ _ n := replicate n 90;
     gcm_keystream_length _ _ n := length_replicate n 90;
     gcm_keystream_prefix _ _ m n := toy_prefix m n;
     gcm_ciphertext _ _ _ _ := eq_refl;
     gcm_tag_length _ _ _ _ := length_replicate 16 0;
     gcm_decrypts _ _ _ := toy_decrypts |}.

Definition ex_gcm : AeadGcmSrtp :=
  mkGcm (mkKeyMaterial AeadAes128Gcm (replicate 16 7) (replicate 12 9)) (replicate 16 7)
    (replicate 12 9) seq_new window_new 0 window_new.

(** The first packet of a stream, with sequence number 0, and the first RTCP
    report: 7 and 43 in the third place differ by 44. *)
Definition ex_report : bytes := [128; 200; 0; 1; 0; 0; 0; 5; 11; 12; 7].

Lemma gcm_nonce_shared_witness :
  ∃ c1 c2 s1 s2,
    @gcm_protect_rtp toy_gcm ex_gcm (ex_packet 0) = Done (Ok c1, s1)
    ∧ @gcm_protect_rtcp toy_gcm ex_gcm ex_report = Done (Ok c2, s2)
    ∧ xor_bytes (take 3 (drop 12 c1)) (take 3 (drop 8 c2)) = [11; 38; 44].
Proof.
  assert (Hp : rtp_packet (ex_packet 0) 5 0 12).
  { split; [vm_compute; lia|]. exists 12%nat, 128. split_and!; [done..|vm_compute; lia|done|by intros []]. }
  destruct (@gcm_nonce_shared toy_gcm ex_gcm (replicate 16 7) (ex_packet 0) ex_report 5 0 12 0
    [0; 0; 0; 5] eq_refl) as (c1 & c2 & s1 & s2 & E1 & E2 & Hx);
    [vm_compute; lia|vm_compute; done|exact Hp|reflexivity|vm_compute; lia|reflexivity|reflexivity|].
  exists c1, c2, s1, s2. split; [exact E1|]. split; [exact E2|].
  rewrite Hx; [reflexivity|vm_compute; lia..].
Defined.

Lemma gcm_unprotect_panics_witness :
  ∃ s, gcm_new (gk_material ex_gcm) = Ok s
    ∧ @gcm_unprotect_rtp toy_gcm s (143 :: replicate 27 0) = Panic.
Proof.
  exists ex_gcm. split; [reflexivity|].
  refine (proj2 (@gcm_unprotect_panics toy_gcm ex_gcm (143 :: replicate 27 0))
            (gk_material ex_gcm) 143 (replicate 27 0) _ eq_refl _ _); reflexivity.
Defined.
