(* ===== verification/NetAddr.v ===== *)
(** * IP addresses ([std::net::IpAddr])

    Addresses as integers of 32 and 128 bits, and their text form as the
    Standard Library of Rust parses it ([FromStr for IpAddr]): dotted decimal
    without leading zeros, and IPv6 groups with one [::] and a trailing IPv4
    part.  Shared by the access lists and the rate limiter. *)

From Stdlib Require Import ZArith NArith Ascii String.
From S2P Require Import Prelude RustStr.
Local Open Scope Z_scope.
Local Open Scope list_scope.

Inductive IpAddr := V4 (bits : Z) | V6 (bits : Z).

#[export] Instance IpAddr_eq_dec : EqDecision IpAddr.
Proof. solve_decision. Defined.

Definition ip_encode (a : IpAddr) : Z + Z := match a with V4 b => inl b | V6 b => inr b end.
Definition ip_decode (e : Z + Z) : IpAddr := match e with inl b => V4 b | inr b => V6 b end.
Lemma ip_decode_encode a : ip_decode (ip_encode a) = a.
Proof. by destruct a. Qed.
#[export] Instance IpAddr_countable : Countable IpAddr :=
  inj_countable' ip_encode ip_decode ip_decode_encode.

Definition ip_wf (a : IpAddr) : Prop :=
  match a with V4 b => 0 ≤ b < 2 ^ 32 | V6 b => 0 ≤ b < 2 ^ 128 end.

(** ** Parser combinators: the value and the rest of the text *)

Definition parser (A : Type) : Type := str → option (A * str).

(** [char::to_digit(radix)], for radix 10 and 16. *)
Definition to_digit (radix : Z) (ch : char) : option Z :=
  let c := Z.of_N ch in
  let d := if (48 <=? c) && (c <=? 57) then c - 48
           else if (97 <=? c) && (c <=? 102) then c - 87
           else if (65 <=? c) && (c <=? 70) then c - 55
           else radix in
  if d <? radix then Some d else None.

(** The run of digits at the start; [None] when it is longer than [max]. *)
Fixpoint read_digits (radix : Z) (max : nat) (acc : Z) (count : nat) (x : str)
    : option (Z * nat * str) :=
  match x with
  | ch :: x' =>
      match to_digit radix ch with
      | Some d =>
          if (max <? S count)%nat then None
          else read_digits radix max (acc * radix + d) (S count) x'
      | None => Some (acc, count, x)
      end
  | [] => Some (acc, count, [])
  end.

Definition read_number (radix : Z) (max : nat) (bits : Z) (zero_prefix : bool) : parser Z := λ x,
  match read_digits radix max 0 0 x with
  | Some (n, count, x') =>
      if (count =? 0)%nat then None
      else if negb zero_prefix && bool_decide (head x = Some (chr "0")) && (1 <? count)%nat then None
      else if n <? 2 ^ bits then Some (n, x') else None
  | None => None
  end.

Definition read_given_char (ch : char) (x : str) : option str :=
  match x with ch' :: x' => if N.eqb ch' ch then Some x' else None | [] => None end.

(** A separator before every element but the first. *)
Definition read_separator {A} (sep : char) (first : bool) (p : parser A) : parser A := λ x,
  if first then p x else match read_given_char sep x with Some x' => p x' | None => None end.

Definition read_octet (first : bool) : parser Z :=
  read_separator (chr ".") first (read_number 10 3 8 false).

Definition read_ipv4_addr : parser Z := λ x,
  '(a, x) ← read_octet true x;
  '(b, x) ← read_octet false x;
  '(c, x) ← read_octet false x;
  '(d, x) ← read_octet false x;
  Some (((a * 256 + b) * 256 + c) * 256 + d, x).

(** At most [limit] groups of 16 bits; a trailing IPv4 address counts for two.
    The groups, whether they end in an IPv4 address, and the rest. *)
Fixpoint read_groups (limit : nat) (first : bool) (x : str) : list Z * bool * str :=
  match limit with
  | O => ([], false, x)
  | S limit' =>
      match (if (0 <? limit')%nat then read_separator (chr ":") first read_ipv4_addr x else None) with
      | Some (v4, x') => ([v4 / 2 ^ 16; v4 mod 2 ^ 16], true, x')
      | None =>
          match read_separator (chr ":") first (read_number 16 4 16 true) x with
          | Some (g, x') =>
              let '(gs, v4, x'') := read_groups limit' false x' in (g :: gs, v4, x'')
          | None => ([], false, x)
          end
      end
  end.

Definition of_groups (gs : list Z) : Z := foldl (λ acc g, acc * 2 ^ 16 + g) 0 gs.

Definition read_ipv6_addr : parser Z := λ x,
  let '(front, front_v4, x) := read_groups 8 true x in
  if (length front =? 8)%nat then Some (of_groups front, x)
  else if front_v4 then None
  else
    x ← read_given_char (chr ":") x;
    x ← read_given_char (chr ":") x;
    let '(back, _, x) := read_groups (7 - length front) true x in
    Some (of_groups (front ++ replicate (8 - length front - length back) 0 ++ back), x).

(** [s.parse::<IpAddr>()] and [s.parse::<Ipv4Addr>()] *)
Definition all_read {A} (r : option (A * str)) : option A :=
  match r with Some (a, []) => Some a | _ => None end.
Definition parse_ipv4 (x : str) : option Z := all_read (read_ipv4_addr x).
Definition parse_ip (x : str) : option IpAddr :=
  all_read (match read_ipv4_addr x with
            | Some (b, x') => Some (V4 b, x')
            | None => match read_ipv6_addr x with Some (b, x') => Some (V6 b, x') | None => None end
            end).

(** [Ipv4Addr]'s [Display]. *)
Definition show_ipv4 (b : Z) : str :=
  show_int (b / 2 ^ 24) ++ chr "." :: show_int (b / 2 ^ 16 mod 256) ++ chr "."
    :: show_int (b / 2 ^ 8 mod 256) ++ chr "." :: show_int (b mod 256).

Example parse_examples :
  parse_ip (lit "192.168.1.10") = Some (V4 3232235786)
  ∧ parse_ip (lit "192.168.01.10") = None
  ∧ parse_ip (lit "::1") = Some (V6 1)
  ∧ parse_ip (lit "::ffff:10.0.0.1") = Some (V6 (65535 * 2 ^ 32 + 167772161))
  ∧ parse_ip (lit "1:2:3:4:5:6:7:8") = Some (V6 (of_groups [1; 2; 3; 4; 5; 6; 7; 8]))
  ∧ parse_ip (lit "1:2:3:4:5:6:7::") = Some (V6 (of_groups [1; 2; 3; 4; 5; 6; 7; 0]))
  ∧ parse_ip (lit "1::2::3") = None ∧ parse_ip (lit "256.0.0.1") = None.
Proof. by vm_compute. Qed.

(** [{:x}] *)
Definition hex_digit (d : Z) : char := Z.to_N (if d <? 10 then 48 + d else 87 + d).
Fixpoint show_hex_aux (fuel : nat) (n : Z) (acc : str) : str :=
  match fuel with
  | O => acc
  | S fuel' =>
      let acc' := hex_digit (n mod 16) :: acc in
      if n <? 16 then acc' else show_hex_aux fuel' (n / 16) acc'
  end.
Definition show_hex (n : Z) : str := show_hex_aux 16 n [].

Definition groups_of (b : Z) : list Z :=
  (λ i : nat, Z.shiftr b (112 - 16 * Z.of_nat i) mod 2 ^ 16) <$> seq 0 8.

(** The longest run of zero groups, the first of those: its start and length. *)
Fixpoint zero_span (i : nat) (cur best : nat * nat) (gs : list Z) : nat * nat :=
  match gs with
  | [] => best
  | g :: gs' =>
      if g =? 0 then
        let cur := if (cur.2 =? 0)%nat then (i, 1)%nat else (cur.1, S cur.2) in
        zero_span (S i) cur (if (best.2 <? cur.2)%nat then cur else best) gs'
      else zero_span (S i) (0, 0)%nat best gs'
  end.

Fixpoint colon_hex (gs : list Z) : str :=
  match gs with
  | [] => []
  | [g] => show_hex g
  | g :: gs' => show_hex g ++ chr ":" :: colon_hex gs'
  end.

(** [Display] of an [Ipv6Addr] and of an [IpAddr]. *)
Definition show_ipv6 (b : Z) : str :=
  if Z.shiftr b 32 =? 65535 then lit "::ffff:" ++ show_ipv4 (b mod 2 ^ 32)
  else
    let gs := groups_of b in
    let '(start, n) := zero_span 0 (0, 0)%nat (0, 0)%nat gs in
    if (1 <? n)%nat then colon_hex (take start gs) ++ lit "::" ++ colon_hex (drop (start + n) gs)
    else colon_hex gs.
Definition show_ip (a : IpAddr) : str := match a with V4 b => show_ipv4 b | V6 b => show_ipv6 b end.

Example show_ipv6_examples :
  show_ipv6 0 = lit "::" ∧ show_ipv6 1 = lit "::1"
  ∧ (b ← parse_ip (lit "2001:db8:0:0:1:0:0:1"); Some (show_ip b)) = Some (lit "2001:db8::1:0:0:1")
  ∧ (b ← parse_ip (lit "fe80::a:0:1"); Some (show_ip b)) = Some (lit "fe80::a:0:1")
  ∧ (b ← parse_ip (lit "::ffff:10.0.0.1"); Some (show_ip b)) = Some (lit "::ffff:10.0.0.1").
Proof. vm_compute. done. Qed.

(** ** Lemmas *)

(** A text at which a decimal number ends. *)
Definition stops (x : str) : Prop := match x with ch :: _ => to_digit 10 ch = None | [] => True end.

Lemma read_digits_app max acc count ds n k x :
  read_digits 10 max acc count ds = Some (n, k, []) → stops x →
  read_digits 10 max acc count (ds ++ x) = Some (n, k, x).
Proof.
  revert acc count. induction ds as [|d ds IH]; intros acc count Hr Hx; cbn in *.
  - injection Hr as <- <-. destruct x as [|ch x]; cbn in *; [done|by rewrite Hx].
  - destruct (to_digit 10 d) as [v|]; [|done]. destruct (max <=? count)%nat; [done|]. by apply IH.
Qed.

Lemma octets_check :
  forallb (λ n, match read_digits 10 3 0 0 (show_int (Z.of_nat n)) with
                | Some (m, k, []) =>
                    (m =? Z.of_nat n) && negb (k =? 0)%nat
                    && negb (bool_decide (head (show_int (Z.of_nat n)) = Some (chr "0")) && (1 <? k)%nat)
                    && bool_decide (show_int (Z.of_nat n) ≠ [])
                | _ => false end) (seq 0 256) = true.
Proof. vm_compute. reflexivity. Qed.

(** The decimal form of an octet is read back. *)
Lemma read_octet_show n x :
  0 ≤ n < 256 → stops x → read_number 10 3 8 false (show_int n ++ x) = Some (n, x).
Proof.
  intros Hn Hx. pose proof octets_check as Hc. rewrite forallb_forall in Hc.
  specialize (Hc (Z.to_nat n)). rewrite Z2Nat.id in Hc by lia.
  specialize (Hc ltac:(apply in_seq; lia)).
  destruct (read_digits 10 3 0 0 (show_int n)) as [[[m k] [|]]|] eqn:E; [|done..].
  split_bools. unfold read_number. rewrite (read_digits_app _ _ _ _ _ _ x E Hx).
  apply Z.eqb_eq in H as ->. rewrite H2. rewrite bool_decide_eq_true in H0.
  destruct (show_int n) as [|c ds]; [done|]. cbn [head app] in H1 |- *. cbn [negb andb]. rewrite H1.
  destruct (Z.ltb_spec n (2 ^ 8)); [done|lia].
Qed.

Lemma stops_dot x : stops (chr "." :: x).
Proof. done. Qed.

Lemma read_ipv4_show b x :
  0 ≤ b < 2 ^ 32 → stops x → read_ipv4_addr (show_ipv4 b ++ x) = Some (b, x).
Proof.
  intros Hb Hx. unfold read_ipv4_addr, read_octet, show_ipv4, read_separator.
  assert (0 ≤ b / 2 ^ 24 < 256) by (split; [apply Z.div_pos|apply Z.div_lt_upper_bound]; lia).
  rewrite <-app_assoc. rewrite read_octet_show by (done || apply stops_dot). cbn.
  rewrite <-app_assoc. cbn [app].
  assert (Hm : ∀ y, 0 ≤ y mod 256 < 256) by (intros; apply Z.mod_pos_bound; lia).
  rewrite read_octet_show by (apply Hm || apply stops_dot). cbn.
  rewrite <-app_assoc. cbn [app].
  rewrite read_octet_show by (apply Hm || apply stops_dot). cbn.
  rewrite read_octet_show by (apply Hm || done). cbn. do 2 f_equal.
  change (2 ^ 24) with (256 * 256 * 256).
  change (2 ^ 16) with (256 * 256). change (2 ^ 8) with 256.
  rewrite <-!Z.div_div by lia.
  pose proof (Z.div_mod b 256). pose proof (Z.div_mod (b / 256) 256).
  pose proof (Z.div_mod (b / 256 / 256) 256). lia.
Qed.

(** Printing an IPv4 address and parsing it gives the address back. *)
Lemma parse_ip_show b : 0 ≤ b < 2 ^ 32 → parse_ip (show_ipv4 b) = Some (V4 b).
Proof.
  intros Hb. unfold parse_ip. rewrite <-(app_nil_r (show_ipv4 b)). by rewrite read_ipv4_show.
Qed.
Lemma parse_ipv4_show b : 0 ≤ b < 2 ^ 32 → parse_ipv4 (show_ipv4 b) = Some b.
Proof.
  intros Hb. unfold parse_ipv4. rewrite <-(app_nil_r (show_ipv4 b)). by rewrite read_ipv4_show.
Qed.

Lemma elem_of_show_ipv4 b ch :
  0 ≤ b → ch ∈ show_ipv4 b → ch = chr "." ∨ is_ascii_digit ch = true.
Proof.
  intros Hb. unfold show_ipv4.
  assert (Hs : ∀ y, 0 ≤ y → ch ∈ show_int y → is_ascii_digit ch = true)
    by (intros; by eapply elem_of_show_int).
  assert (Hm : ∀ y, 0 ≤ y mod 256) by (intros; apply Z.mod_pos_bound; lia).
  assert (0 ≤ b / 2 ^ 24) by (apply Z.div_pos; lia).
  rewrite !elem_of_app, !elem_of_cons, !elem_of_app, !elem_of_cons, !elem_of_app, !elem_of_cons.
  naive_solver.
Qed.
