(* ===== verification/Acl.v ===== *)
(** * Access control lists ([asterisk-sip/src/acl.rs])

    Rules in CIDR or netmask notation, their evaluation in order, and the check
    of a message by source address and by the addresses in its Contact headers.

    The theorems: the networks written in a configuration decide as the first
    one that contains the address says, and allow what none contains, IPv6
    sources among it; the contact check sees one literal address per header. *)

From Stdlib Require Import ZArith NArith Ascii String.
From S2P Require Import Prelude RustStr HashMap SipUri SipMessage NetAddr.
Local Open Scope Z_scope.
Local Open Scope list_scope.

Inductive AclAction := Permit | Deny.
#[export] Instance AclAction_eq_dec : EqDecision AclAction.
Proof. solve_decision. Defined.

Record AclRule := mkRule { rule_action : AclAction; rule_address : IpAddr; prefix_len : Z }.

(** [u32::leading_ones] *)
Fixpoint leading_ones (n : nat) (bits : Z) : nat :=
  match n with
  | O => 0
  | S n' => if Z.testbit bits (Z.of_nat n') then S (leading_ones n' bits) else 0
  end.

(** [uN::MAX << (N - p)], for [0 < p < N]. *)
Definition prefix_mask (width p : Z) : Z :=
  Z.land (Z.shiftl (2 ^ width - 1) (width - p)) (2 ^ width - 1).

Definition netmask_to_prefix (mask : str) : option Z :=
  bits ← parse_ipv4 mask;
  let leading := Z.of_nat (leading_ones 32 bits) in
  let expected := if leading =? 32 then 2 ^ 32 - 1
                  else if leading =? 0 then 0 else prefix_mask 32 leading in
  if negb (bits =? expected) then None else Some leading.

Definition rule_parse (action : AclAction) (cidr : str) : option AclRule :=
  let cidr := trim cidr in
  let (addr_str, mask_str) := match split_once (chr "/") cidr with
                              | Some (a, m) => (a, Some m) | None => (cidr, None) end in
  address ← parse_ip addr_str;
  p ← match mask_str with
      | Some m => match parse_unsigned 8 m with Some p => Some p | None => netmask_to_prefix m end
      | None => match address with V4 _ => Some 32 | V6 _ => Some 128 end
      end;
  Some (mkRule action address p).

(** Equality under the mask, in either width. *)
Definition same_prefix (width p net check : Z) : bool :=
  if p =? 0 then true
  else if width <=? p then net =? check
  else Z.land net (prefix_mask width p) =? Z.land check (prefix_mask width p).

Definition rule_matches (r : AclRule) (addr : IpAddr) : bool :=
  match rule_address r, addr with
  | V4 net, V4 check => same_prefix 32 (prefix_len r) net check
  | V6 net, V6 check => same_prefix 128 (prefix_len r) net check
  | _, _ => false
  end.

Record Acl := mkAcl { acl_name : str; rules : list AclRule }.
Definition acl_new (name : str) : Acl := mkAcl name [].

(** [Acl::permit] and [Acl::deny]; an invalid rule is logged and left out. *)
Definition acl_add (a : Acl) (action : AclAction) (cidr : str) : Acl :=
  match rule_parse action cidr with
  | Some r => mkAcl (acl_name a) (rules a ++ [r])
  | None => a
  end.

Fixpoint check_rules (rs : list AclRule) (addr : IpAddr) : bool :=
  match rs with
  | [] => true
  | r :: rs' => if rule_matches r addr then bool_decide (rule_action r = Permit) else check_rules rs' addr
  end.
Definition acl_check (a : Acl) (addr : IpAddr) : bool := check_rules (rules a) addr.
Definition acl_is_empty (a : Acl) : bool := bool_decide (rules a = []).

Record SipAcl := mkSipAcl { ip_acl : Acl; contact_acl : Acl }.
Definition sip_acl_new (name : str) : SipAcl :=
  mkSipAcl (acl_new (name ++ lit "-ip")) (acl_new (name ++ lit "-contact")).

Definition extract_ip_from_uri `{UnicodeCase} (uri_str : str) : outcome (option IpAddr) :=
  let! u := uri_parse uri_str in
  Done (match u with Ok u => parse_ip (host u) | Err _ => None end).

Fixpoint check_contacts `{UnicodeCase} (a : Acl) (contacts : list str) : outcome bool :=
  match contacts with
  | [] => Done true
  | contact_hdr :: contacts' =>
      if str_eqb (trim contact_hdr) (lit "*") then check_contacts a contacts'
      else
        let! uri := extract_uri contact_hdr in
        match uri with
        | None => check_contacts a contacts'
        | Some uri_str =>
            let! ip := extract_ip_from_uri uri_str in
            match ip with
            | None => check_contacts a contacts'
            | Some ip => if negb (acl_check a ip) then Done false else check_contacts a contacts'
            end
        end
  end.

Definition check_message `{UnicodeCase} (a : SipAcl) (source : IpAddr) (msg : SipMessage) : outcome bool :=
  if negb (acl_is_empty (ip_acl a)) && negb (acl_check (ip_acl a) source) then Done false
  else if negb (acl_is_empty (contact_acl a))
  then check_contacts (contact_acl a) (get_headers msg CONTACT)
  else Done true.

(** ** Specification: networks *)

(** An IPv4 network as a configuration writes it. *)
Inductive NetText :=
  | Cidr (net p : Z)
  | Netmask (net p : Z)
  | Host (net : Z).

Definition net_text (n : NetText) : str :=
  match n with
  | Cidr net p => show_ipv4 net ++ chr "/" :: show_int p
  | Netmask net p => show_ipv4 net ++ chr "/" :: show_ipv4 (2 ^ 32 - 2 ^ (32 - p))
  | Host net => show_ipv4 net
  end.
Definition net_wf (n : NetText) : Prop :=
  match n with
  | Cidr net p | Netmask net p => 0 ≤ net < 2 ^ 32 ∧ 0 ≤ p ≤ 32
  | Host net => 0 ≤ net < 2 ^ 32
  end.

(** The addresses that share the first [p] bits. *)
Definition net_contains (n : NetText) (addr : Z) : bool :=
  match n with
  | Cidr net p | Netmask net p => addr / 2 ^ (32 - p) =? net / 2 ^ (32 - p)
  | Host net => addr =? net
  end.

(** The first network that contains the address decides. *)
Fixpoint decides (lines : list (AclAction * NetText)) (addr : Z) : bool :=
  match lines with
  | [] => true
  | (a, n) :: lines' => if net_contains n addr then bool_decide (a = Permit) else decides lines' addr
  end.

(** ** Lemmas *)

Lemma testbit_above x w i : 0 ≤ x < 2 ^ w → w ≤ i → Z.testbit x i = false.
Proof.
  intros Hx Hi. destruct (decide (x = 0)) as [->|]; [apply Z.bits_0|].
  apply Z.bits_above_log2; [lia|]. apply Z.log2_lt_pow2; [lia|].
  apply Z.lt_le_trans with (2 ^ w); [lia|]. by apply Z.pow_le_mono_r.
Qed.

(** The mask keeps the bits from [w - p] on. *)
Lemma land_prefix_mask w p x :
  0 < p < w → 0 ≤ x < 2 ^ w →
  Z.land x (prefix_mask w p) = Z.shiftl (Z.shiftr x (w - p)) (w - p).
Proof.
  intros Hp Hx. unfold prefix_mask. rewrite Z.sub_1_r, <-Z.ones_equiv. apply Z.bits_inj'.
  intros i Hi. rewrite !Z.land_spec, !Z.shiftl_spec by lia.
  destruct (decide (i < w - p)).
  - rewrite (Z.testbit_neg_r _ (i - (w - p))) by lia.
    rewrite (Z.testbit_neg_r (Z.shiftr _ _)) by lia. by rewrite !andb_false_r.
  - rewrite Z.shiftr_spec by lia. replace (i - (w - p) + (w - p)) with i by lia.
    destruct (decide (i < w)).
    + rewrite !Z.ones_spec_low by lia. by rewrite !andb_true_r.
    + by rewrite (testbit_above x w i) by lia.
Qed.

(** Comparison under the mask is comparison of the first [p] bits. *)
Lemma same_prefix_div w p net check :
  0 ≤ p → 0 ≤ net < 2 ^ w → 0 ≤ check < 2 ^ w →
  same_prefix w p net check = if w <=? p then check =? net
                              else check / 2 ^ (w - p) =? net / 2 ^ (w - p).
Proof.
  intros Hp Hn Hc. unfold same_prefix. destruct (Z.eqb_spec p 0) as [->|].
  - destruct (Z.leb_spec w 0).
    + assert (2 ^ w ≤ 1) by (destruct (decide (w = 0)) as [->|]; [lia|rewrite Z.pow_neg_r; lia]).
      symmetry. apply Z.eqb_eq. lia.
    + rewrite Z.sub_0_r, !Z.div_small by lia. done.
  - destruct (Z.leb_spec w p); [by rewrite Z.eqb_sym|].
    rewrite !land_prefix_mask by lia. rewrite !Z.shiftl_mul_pow2, !Z.shiftr_div_pow2 by lia.
    rewrite Z.eqb_sym. apply eq_bool_prop_intro. rewrite !Is_true_true, !Z.eqb_eq.
    pose proof (Z.pow_pos_nonneg 2 (w - p)). split; [|by intros ->]. intros. nia.
Qed.

Lemma netmask_check :
  forallb (λ n, let p := Z.of_nat n in
     bool_decide (netmask_to_prefix (show_ipv4 (2 ^ 32 - 2 ^ (32 - p))) = Some p)
     && bool_decide (parse_unsigned 8 (show_ipv4 (2 ^ 32 - 2 ^ (32 - p))) = None)) (seq 0 33) = true.
Proof. vm_compute. reflexivity. Qed.

Lemma netmask_prefix p :
  0 ≤ p ≤ 32 →
  netmask_to_prefix (show_ipv4 (2 ^ 32 - 2 ^ (32 - p))) = Some p
  ∧ parse_unsigned 8 (show_ipv4 (2 ^ 32 - 2 ^ (32 - p))) = None.
Proof.
  intros Hp. pose proof netmask_check as Hc. rewrite forallb_forall in Hc.
  specialize (Hc (Z.to_nat p)). rewrite Z2Nat.id in Hc by lia.
  specialize (Hc ltac:(apply in_seq; lia)). apply andb_true_iff in Hc as [H1 H2].
  by rewrite bool_decide_eq_true in H1; rewrite bool_decide_eq_true in H2.
Qed.

(** What a network is parsed to. *)
Definition net_rule (a : AclAction) (n : NetText) : AclRule :=
  match n with
  | Cidr net p | Netmask net p => mkRule a (V4 net) p
  | Host net => mkRule a (V4 net) 32
  end.

Lemma show_ipv4_trimmed b y :
  0 ≤ b → (∀ ch, ch ∈ y → is_whitespace ch = false) → trimmed (show_ipv4 b ++ y) = true.
Proof.
  intros Hb Hy. apply trimmed_no_ws. intros ch [Hin|Hin]%elem_of_app; [|by apply Hy].
  apply elem_of_show_ipv4 in Hin as [->|Hd]; [done| |done]. by apply digit_not_whitespace.
Qed.

Lemma show_ipv4_no_slash b : 0 ≤ b → (chr "/" ∉ show_ipv4 b).
Proof. intros Hb [?|?]%elem_of_show_ipv4; done. Qed.

Lemma mask_range p : 0 ≤ p ≤ 32 → 0 ≤ 2 ^ 32 - 2 ^ (32 - p).
Proof. intros. pose proof (Z.pow_le_mono_r 2 (32 - p) 32). lia. Qed.

Lemma rule_parse_text a n l r :
  net_wf n → forallb is_whitespace l = true → forallb is_whitespace r = true →
  rule_parse a (l ++ net_text n ++ r) = Some (net_rule a n).
Proof.
  intros Hn Hl Hr. unfold rule_parse.
  assert (Hsplit : ∀ net m, 0 ≤ net → split_once (chr "/") (show_ipv4 net ++ chr "/" :: m)
    = Some (show_ipv4 net, m)).
  { intros net m Hnet. apply split_once_Some. split; [done|]. by apply show_ipv4_no_slash. }
  destruct n as [net p|net p|net]; cbn [net_text net_wf net_rule] in *.
  - destruct Hn as [Hn Hp]. rewrite trim_padded; [|done..|].
    + rewrite Hsplit by lia. rewrite parse_ip_show by done. cbn [mbind option_bind].
      rewrite parse_unsigned_show by (change (2 ^ 8) with 256; lia). done.
    + apply show_ipv4_trimmed; [lia|]. intros ch [->|Hin]%elem_of_cons; [done|].
      apply digit_not_whitespace. apply elem_of_show_int in Hin; [done|lia].
  - destruct Hn as [Hn Hp]. rewrite trim_padded; [|done..|].
    + rewrite Hsplit by lia. rewrite parse_ip_show by done. cbn [mbind option_bind].
      destruct (netmask_prefix p Hp) as [-> ->]. done.
    + apply show_ipv4_trimmed; [lia|]. intros ch [->|Hin]%elem_of_cons; [done|].
      apply elem_of_show_ipv4 in Hin as [->|Hd]; [done| |by apply mask_range].
      by apply digit_not_whitespace.
  - rewrite trim_padded; [|done..|].
    + assert (E : split_once (chr "/") (show_ipv4 net) = None)
        by (apply split_once_None, show_ipv4_no_slash; lia).
      rewrite E, parse_ip_show by done. done.
    + rewrite <-(app_nil_r (show_ipv4 net)). apply show_ipv4_trimmed; [lia|].
      by intros ch ?%elem_of_nil.
Qed.

Lemma rule_matches_net a n addr :
  net_wf n → 0 ≤ addr < 2 ^ 32 → rule_matches (net_rule a n) (V4 addr) = net_contains n addr.
Proof.
  intros Hn Ha. unfold rule_matches. destruct n as [net p|net p|net];
    cbn [net_rule rule_address prefix_len net_wf net_contains] in *; rewrite same_prefix_div by lia; [| |done].
  all: destruct (Z.leb_spec 32 p); [|done]; replace p with 32 by lia; by rewrite !Z.div_1_r.
Qed.

(** An access list read from a configuration: its lines with their padding. *)
Definition acl_of (name : str) (lines : list (AclAction * str)) : Acl :=
  foldl (λ acl l, acl_add acl l.1 l.2) (acl_new name) lines.

Lemma acl_add_rules lines : ∀ acl,
  rules (foldl (λ acl l, acl_add acl l.1 l.2) acl lines)
  = rules acl ++ omap (λ l, rule_parse l.1 l.2) lines.
Proof.
  induction lines as [|[a t] lines IH]; intros acl; cbn; [by rewrite app_nil_r|].
  rewrite IH. unfold acl_add. destruct (rule_parse a t); cbn; [by rewrite <-app_assoc|done].
Qed.

Lemma check_rules_nets lines addr :
  Forall (net_wf ∘ snd) lines → 0 ≤ addr < 2 ^ 32 →
  check_rules ((λ l, net_rule l.1 l.2) <$> lines) (V4 addr) = decides lines addr.
Proof.
  intros Hl Ha. induction Hl as [|[a n] lines Hn _ IH]; [done|]. rewrite fmap_cons. cbn [check_rules].
  cbn in Hn. cbn [fst snd decides]. rewrite rule_matches_net, IH by done. by destruct n.
Qed.

Lemma check_rules_v6 (lines : list (AclAction * NetText)) addr :
  check_rules ((λ l, net_rule l.1 l.2) <$> lines) (V6 addr) = true.
Proof. induction lines as [|[a n] lines IH]; [done|]. rewrite fmap_cons. by destruct n. Qed.

(** ** Theorems *)

(** The configuration decides.  Build an access list from IPv4 networks
    written as CIDR, with a netmask or as a bare address, padded at will: an IPv4
    source is allowed exactly when the first network whose leading bits it shares
    is permitted, or when there is none.  Such rules never stop an IPv6 source,
    an IPv4-mapped one included. *)
Theorem acl_follows_networks (name : str) (nets : list (AclAction * NetText)) (texts : list str) :
  Forall (net_wf ∘ snd) nets →
  Forall2 (λ n t, ∃ l r, forallb is_whitespace l = true ∧ forallb is_whitespace r = true
                         ∧ t = l ++ net_text n.2 ++ r) nets texts →
  let acl := acl_of name (zip nets.*1 texts) in
  (∀ addr, 0 ≤ addr < 2 ^ 32 → acl_check acl (V4 addr) = decides nets addr)
  ∧ ∀ addr, acl_check acl (V6 addr) = true.
Proof.
  intros Hw Ht acl.
  assert (Hr : rules acl = (λ l, net_rule l.1 l.2) <$> nets).
  { unfold acl, acl_of. rewrite acl_add_rules. cbn [acl_new rules app]. clear acl.
    induction Ht as [|[a n] t nets texts (l & r & Hl & Hr & ->) _ IH]; [done|].
    inversion_clear Hw as [|? ? Hn Hw']. rewrite !fmap_cons. cbn [zip_with omap list_omap fst snd].
    rewrite rule_parse_text by done. f_equal. by apply IH. }
  unfold acl_check. rewrite Hr. split; [|intros; apply check_rules_v6].
  intros addr Ha. by apply check_rules_nets.
Qed.

(** A laptop of an office network that is allowed, in a private range that is
    not. *)
Definition ex_nets : list (AclAction * NetText) :=
  [(Permit, Cidr 3232235776 24); (Deny, Netmask 3232235520 16); (Deny, Host 134744072)].
Definition ex_texts : list str :=
  [lit "192.168.1.0/24"; lit "  192.168.0.0/255.255.0.0 "; lit "8.8.8.8"].

Lemma acl_follows_networks_witness :
  ex_texts !! 0%nat = Some (net_text (Cidr 3232235776 24))
  ∧ let acl := acl_of (lit "office") (zip ex_nets.*1 ex_texts) in
    acl_check acl (V4 3232235786) = true ∧ acl_check acl (V4 3232236037) = false
    ∧ acl_check acl (V4 134744072) = false ∧ acl_check acl (V4 16843009) = true
    ∧ acl_check acl (V6 (65535 * 2 ^ 32 + 3232236037)) = true.
Proof.
  split; [vm_compute; reflexivity|].
  destruct (acl_follows_networks (lit "office") ex_nets ex_texts) as [H4 H6].
  - repeat (apply List.Forall_cons; [cbn; lia|]). by apply Forall_nil.
  - repeat apply List.Forall2_cons; [| | |apply List.Forall2_nil].
    + exists [], []. split_and!; vm_compute; reflexivity.
    + exists (lit "  "), (lit " "). split_and!; vm_compute; reflexivity.
    + exists [], []. split_and!; vm_compute; reflexivity.
  - cbv zeta. rewrite !H4 by lia. rewrite H6.
    split_and!; vm_compute; reflexivity.
Defined.

Section messages.
Context `{UnicodeCase} {HO : HashOrder}.

(** The address a Contact header is judged by. *)
Definition contact_address (contact_hdr : str) : outcome (option IpAddr) :=
  if str_eqb (trim contact_hdr) (lit "*") then Done None
  else
    let! uri := extract_uri contact_hdr in
    match uri with Some u => extract_ip_from_uri u | None => Done None end.

Definition contact_allowed (a : Acl) (contact_hdr : str) : bool :=
  match contact_address contact_hdr with
  | Done (Some ip) => acl_check a ip
  | _ => true
  end.

Lemma extract_ip_returns u : returns (extract_ip_from_uri u).
Proof. unfold extract_ip_from_uri. destruct (uri_parse_returns u) as [r ->]. by eexists. Qed.

Lemma check_contacts_all a contacts :
  check_contacts a contacts = Done (forallb (contact_allowed a) contacts).
Proof.
  induction contacts as [|c cs IH]; [done|]. cbn [check_contacts forallb].
  unfold contact_allowed at 1, contact_address. destruct (str_eqb _ _); [done|].
  destruct (extract_uri_returns c) as [[u|] ->]; cbn [outcome_bind]; [|done].
  destruct (extract_ip_returns u) as [[ip|] ->]; cbn [outcome_bind]; [|done].
  destruct (acl_check a ip); cbn; [done|done].
Qed.

Lemma empty_acl_allows acl : acl_is_empty acl = true →
  (∀ addr, acl_check acl addr = true) ∧ ∀ cs, forallb (contact_allowed acl) cs = true.
Proof.
  intros E%bool_decide_eq_true. assert (Hc : ∀ addr, acl_check acl addr = true)
    by (intros; unfold acl_check; by rewrite E).
  split; [done|]. intros cs. apply forallb_forall. intros c _. unfold contact_allowed.
  destruct (contact_address c) as [[ip|]|]; [apply Hc|done|done].
Qed.

(** Everything after the first bracketed URI of a header is out of sight. *)
Lemma extract_uri_bracketed pre u rest :
  (chr "<" ∉ pre) → (chr ">" ∉ pre) → (chr ">" ∉ u) →
  extract_uri (pre ++ chr "<" :: u ++ chr ">" :: rest) = Done (Some u).
Proof.
  intros H1 H2 H3. unfold extract_uri.
  assert (E1 : find_char (chr "<") (pre ++ chr "<" :: u ++ chr ">" :: rest) = Some (len pre))
    by (apply find_char_Some; by exists pre, (u ++ chr ">" :: rest)).
  assert (E2 : find_char (chr ">") (pre ++ chr "<" :: u ++ chr ">" :: rest)
    = Some (len (pre ++ chr "<" :: u))).
  { apply find_char_Some. exists (pre ++ chr "<" :: u), rest. rewrite <-app_assoc. split_and!; [done..|].
    set_solver. }
  rewrite E1, E2.
  assert (El : len (pre ++ chr "<" :: u) = (len pre + 1 + len u)%N) 
    by (rewrite len_app; cbn [len]; change (len_utf8 (chr "<")) with 1%N; lia).
  rewrite El. destruct (N.ltb_spec (len pre) (len pre + 1 + len u)%N); [|lia].
  pose proof (slice_app (pre ++ lit "<") u (chr ">" :: rest)) as Hs.
  rewrite <-app_assoc, len_app in Hs. change (len (lit "<")) with 1%N in Hs.
  cbn [app] in Hs. by rewrite Hs.
Qed.

Lemma not_star x ch : ch ∈ x → is_whitespace ch = false → ch ≠ chr "*" → str_eqb (trim x) (lit "*") = false.
Proof.
  intros Hin Hw Hs. apply str_eqb_false. intros E. destruct (trim_split x) as (a & b & Hx & Ha & Hb).
  rewrite E in Hx. rewrite forallb_elem in Ha, Hb. rewrite Hx in Hin.
  apply elem_of_app in Hin as [Hin|[Hin|Hin]%elem_of_app].
  - rewrite Ha in Hw; done.
  - by apply list_elem_of_singleton in Hin.
  - rewrite Hb in Hw; done.
Qed.

Lemma ws_without ch x : is_whitespace ch = false → forallb is_whitespace x = true → ch ∉ x.
Proof. intros Hc Hx Hin. rewrite forallb_elem in Hx. specialize (Hx _ Hin). congruence. Qed.

(** The URI a Contact header shows: the first one in brackets; without brackets, what
    stands before the first semicolon. *)
Inductive contact_text : str → str → Prop :=
  | Bracketed pre u rest : (chr "<" ∉ pre) → (chr ">" ∉ pre) → (chr ">" ∉ u) →
      contact_text (pre ++ chr "<" :: u ++ chr ">" :: rest) u
  | Bare l u r rest : forallb is_whitespace l = true → forallb is_whitespace r = true → trimmed u = true →
      (chr ";" ∉ u) → (chr "<" ∉ l ++ u ++ r ++ rest) → rest = [] ∨ (∃ ps, rest = chr ";" :: ps) →
      contact_text (l ++ u ++ r ++ rest) u.

Lemma extract_uri_text x u : contact_text x u → extract_uri x = Done (Some u).
Proof.
  intros [pre v rest H1 H2 H3|l v r rest Hl Hr Ht Hs Hb Hrest]; [by apply extract_uri_bracketed|].
  unfold extract_uri. rewrite (proj2 (find_char_None _ _) Hb). unfold bare_uri.
  assert (Hno : chr ";" ∉ l ++ v ++ r).
  { intros [Hin|[Hin|Hin]%elem_of_app]%elem_of_app; [|done|]; by eapply (ws_without (chr ";")) in Hin. }
  replace (l ++ v ++ r ++ rest) with ((l ++ v ++ r) ++ rest) by by rewrite <-!app_assoc.
  assert (E : head (split (chr ";") ((l ++ v ++ r) ++ rest)) = Some (l ++ v ++ r)).
  { destruct Hrest as [->|[ps ->]]; [by rewrite app_nil_r, split_no_sep|by rewrite split_app]. }
  rewrite E. cbn [fmap option_fmap option_map]. by rewrite trim_padded.
Qed.

Lemma contact_text_elem x u ch : contact_text x u → ch ∈ u → ch ∈ x.
Proof. intros [pre v rest _ _ _|l v r rest _ _ _ _ _ _] Hin; set_solver. Qed.

(** The verdict on a header that shows a URI is that on the literal address of the URI's
    host; a host that is none is let pass. *)
Lemma contact_allowed_text acl x u v :
  contact_text x u → chr ":" ∈ u → uri_parse u = Done v →
  contact_allowed acl x = match v with
                          | Ok uri => match parse_ip (host uri) with Some ip => acl_check acl ip | None => true end
                          | Err _ => true
                          end.
Proof.
  intros Hx Hc Hv. unfold contact_allowed, contact_address.
  rewrite (not_star x (chr ":")) by (done || by eapply contact_text_elem).
  rewrite (extract_uri_text x u Hx). cbn [outcome_bind]. unfold extract_ip_from_uri. rewrite Hv.
  destruct v as [uri|e]; cbn [outcome_bind]; [|done]. by destruct (parse_ip (host uri)).
Qed.

Lemma uri_display_colon u : chr ":" ∈ uri_display u.
Proof. unfold uri_display. set_solver. Qed.

(** C5. One literal address per Contact header.  The check of a message returns for
    every message, and allows it exactly when the source is allowed and so is every
    Contact header.  The star is; a header that shows the URI [u] - the first one in
    brackets or, without brackets, the text before the first semicolon - is, exactly when
    the host of [u] is no literal address, or it is the literal of an address, of either
    family, that the list allows.  So a contact that follows another in the same header is
    not looked at, and host names pass every list. *)
Theorem check_message_decides (a : SipAcl) (source : IpAddr) (msg : SipMessage) :
  check_message a source msg
  = Done (acl_check (ip_acl a) source
          && forallb (contact_allowed (contact_acl a)) (get_headers msg CONTACT))
  ∧ ∀ acl x, (trim x = lit "*" → contact_allowed acl x = true)
      ∧ (∀ u, uri_wf u = true → contact_text x (uri_display u) →
           contact_allowed acl x = match parse_ip (host u) with Some ip => acl_check acl ip | None => true end)
      ∧ ∀ t e, contact_text x t → chr ":" ∈ t → uri_parse t = Done (Err e) → contact_allowed acl x = true.
Proof.
  split_and!.
  - unfold check_message. rewrite check_contacts_all.
    destruct (acl_is_empty (ip_acl a)) eqn:E1; cbn [negb andb].
    + rewrite (proj1 (empty_acl_allows _ E1)). destruct (acl_is_empty (contact_acl a)) eqn:E2; [|done].
      by rewrite (proj2 (empty_acl_allows _ E2)).
    + destruct (acl_check (ip_acl a) source); cbn [negb andb]; [|done].
      destruct (acl_is_empty (contact_acl a)) eqn:E2; [|done]. by rewrite (proj2 (empty_acl_allows _ E2)).
  - intros acl x. split_and!.
    + intros E. unfold contact_allowed, contact_address. by rewrite E.
    + intros u Hu Hx. by rewrite (contact_allowed_text acl x _ _ Hx (uri_display_colon u) (uri_parse_display u Hu)).
    + intros t e Hx Hc He. by rewrite (contact_allowed_text acl x _ _ Hx Hc He).
Qed.
End messages.

(** A list that denies everything, and a Contact header with two URIs. *)
Definition ex_fold : UnicodeCase := λ x, x.
Definition deny_all : Acl := acl_add (acl_new (lit "none")) Deny (lit "0.0.0.0/0").

Definition phone : SipUri := mkSipUri (lit "sip") (Some (lit "a")) None (lit "phone.example") None ∅ ∅.
Definition loopback : SipUri := mkSipUri (lit "sips") (Some (lit "b")) None (lit "::1") (Some 5061) ∅ ∅.
Definition deny_loopback : Acl := acl_add (acl_new (lit "none")) Deny (lit "::1/128").

Lemma check_message_decides_witness :
  acl_check deny_all (V4 3232235786) = false
  ∧ @contact_allowed ex_fold deny_all (lit "<sip:a@phone.example>, <sip:b@192.168.1.10>") = true
  ∧ @contact_allowed ex_fold deny_all (lit "<sip:b@192.168.1.10>") = false
  ∧ @contact_allowed ex_fold deny_loopback (lit " sips:b@[::1]:5061 ;expires=60") = false.
Proof.
  destruct (@check_message_decides ex_fold key_order (sip_acl_new (lit "x")) (V4 0)
    (mkSipMessage (Response (mkStatusLine (lit "SIP/2.0") 200 (lit "OK"))) [] [])) as (_ & Hc).
  split; [vm_compute; reflexivity|]. split; [|split; [vm_compute; reflexivity|]].
  - destruct (Hc deny_all (lit "<sip:a@phone.example>, <sip:b@192.168.1.10>")) as (_ & Hu & _).
    rewrite (Hu phone); [vm_compute; reflexivity|vm_compute; reflexivity|].
    apply (Bracketed [] (@uri_display key_order phone) (lit ", <sip:b@192.168.1.10>"));
      apply (bool_decide_eq_true_1 _); vm_compute; reflexivity.
  - destruct (Hc deny_loopback (lit " sips:b@[::1]:5061 ;expires=60")) as (_ & Hu & _).
    rewrite (Hu loopback); [vm_compute; reflexivity|vm_compute; reflexivity|].
    apply (Bare (lit " ") (@uri_display key_order loopback) (lit " ") (lit ";expires=60"));
      [vm_compute; reflexivity|vm_compute; reflexivity|vm_compute; reflexivity|apply (bool_decide_eq_true_1 _); vm_compute; reflexivity
      |apply (bool_decide_eq_true_1 _); vm_compute; reflexivity|right; by eexists].
Defined.
