(* ===== verification/RateLimit.v ===== *)
(** * Rate limiting ([asterisk-sip/src/rate_limit.rs])

    Counting of INVITE, REGISTER and OPTIONS requests per source address, and
    the blocking of addresses.  Every method of [SipRateLimiter] is one step; it
    reads the monotonic clock ([Instant]) and the wall clock ([SystemTime]) once.
    Times are in nanoseconds.

    The theorems: however requests, cleanups and manual blocks arrive, no source
    gets more INVITEs through in any second than the limit; the scanner detection
    counts runs of one method, at any pace, so that a slow keep-alive is blocked
    and an alternating scan is not. *)

From Stdlib Require Import ZArith NArith Ascii String.
From S2P Require Import Prelude RustStr HashMap SipUri SipMessage NetAddr.
Local Open Scope Z_scope.
Local Open Scope list_scope.

Definition SECOND : Z := 10 ^ 9.
Definition IP_TRACKING_TTL_SECS : Z := 60.

Record RateLimitConfig := mkConfig {
  invite_rate_limit : Z;
  scanner_threshold : Z;
  block_duration_secs : Z;
  enabled : bool }.

Definition config_default : RateLimitConfig := mkConfig 50 100 300 true.

(** ** One address *)

Record IpTrackingData := mkTracking {
  invite_timestamps : list Z;
  sequential_scanner_requests : Z;
  last_activity : Z;
  last_method : option SipMethod }.

Definition tracking_new (now : Z) : IpTrackingData := mkTracking [] 0 now None.

(** [pop_front] while the front is before the cutoff. *)
Fixpoint pop_before (cutoff : Z) (q : list Z) : list Z :=
  match q with
  | front :: q' => if front <? cutoff then pop_before cutoff q' else q
  | [] => []
  end.
Definition clean_old_invites (now : Z) (q : list Z) : list Z := pop_before (now - SECOND) q.

Definition record_invite (t : IpTrackingData) (now : Z) : Z * IpTrackingData :=
  let q := clean_old_invites now (invite_timestamps t) ++ [now] in
  (wrap_u32 (Z.of_nat (length q)), mkTracking q 0 now (Some Invite)).

Definition record_scanner_request (t : IpTrackingData) (m : SipMethod) (now : Z) : Z * IpTrackingData :=
  let n := if bool_decide (last_method t = Some m)
           then wrap_u32 (sequential_scanner_requests t + 1) else 1 in
  (n, mkTracking (invite_timestamps t) n now (Some m)).

Definition reset_scanner_detection (t : IpTrackingData) (m : SipMethod) (now : Z) : IpTrackingData :=
  mkTracking (invite_timestamps t) 0 now (Some m).

(** [duration_since] saturates at zero. *)
Definition is_stale (t : IpTrackingData) (now : Z) : bool :=
  IP_TRACKING_TTL_SECS * SECOND <? Z.max 0 (now - last_activity t).

Record BlockedIp := mkBlocked { blocked_at : Z; block_duration : Z; block_reason : str }.

(** [SystemTime::elapsed]: an error when the clock went back. *)
Definition elapsed (b : BlockedIp) (sys : Z) : option Z :=
  if blocked_at b <=? sys then Some (sys - blocked_at b) else None.
Definition is_expired (b : BlockedIp) (sys : Z) : bool :=
  match elapsed b sys with Some e => block_duration b <=? e | None => true end.
Definition time_remaining (b : BlockedIp) (sys : Z) : option Z :=
  e ← elapsed b sys; if e <=? block_duration b then Some (block_duration b - e) else None.

(** ** The limiter *)

Record RateStats := mkStats {
  total_requests : Z; blocked_requests : Z; rate_limited_requests : Z; scanner_detections : Z }.

Record SipRateLimiter := mkLimiter {
  config : RateLimitConfig;
  ip_tracking : gmap IpAddr IpTrackingData;
  blocked_ips : gmap IpAddr BlockedIp;
  stats : RateStats }.

Definition limiter_new (c : RateLimitConfig) : SipRateLimiter := mkLimiter c ∅ ∅ (mkStats 0 0 0 0).

(** The readings of the two clocks. *)
Record Clock := mkClock { instant : Z; system : Z }.

Definition set_tracking (s : SipRateLimiter) (m : gmap IpAddr IpTrackingData) : SipRateLimiter :=
  mkLimiter (config s) m (blocked_ips s) (stats s).
Definition set_blocked (s : SipRateLimiter) (m : gmap IpAddr BlockedIp) : SipRateLimiter :=
  mkLimiter (config s) (ip_tracking s) m (stats s).
Definition set_stats (s : SipRateLimiter) (st : RateStats) : SipRateLimiter :=
  mkLimiter (config s) (ip_tracking s) (blocked_ips s) st.

(** [fetch_add(1)] on an [AtomicU64] wraps around. *)
Definition succ_u64 (n : Z) : Z := (n + 1) mod 2 ^ 64.
Definition count_total (s : SipRateLimiter) : SipRateLimiter :=
  let st := stats s in
  set_stats s (mkStats (succ_u64 (total_requests st)) (blocked_requests st)
                 (rate_limited_requests st) (scanner_detections st)).
Definition count_blocked (s : SipRateLimiter) : SipRateLimiter :=
  let st := stats s in
  set_stats s (mkStats (total_requests st) (succ_u64 (blocked_requests st))
                 (rate_limited_requests st) (scanner_detections st)).
Definition count_limited (s : SipRateLimiter) : SipRateLimiter :=
  let st := stats s in
  set_stats s (mkStats (total_requests st) (blocked_requests st)
                 (succ_u64 (rate_limited_requests st)) (scanner_detections st)).
Definition count_scanner (s : SipRateLimiter) : SipRateLimiter :=
  let st := stats s in
  set_stats s (mkStats (total_requests st) (blocked_requests st)
                 (rate_limited_requests st) (succ_u64 (scanner_detections st))).

Definition update_config (s : SipRateLimiter) (c : RateLimitConfig) : SipRateLimiter :=
  mkLimiter c (ip_tracking s) (blocked_ips s) (stats s).

Definition block_ip (s : SipRateLimiter) (sys : Z) (ip : IpAddr) (reason : str) (secs : Z) : SipRateLimiter :=
  mkLimiter (config s) (delete ip (ip_tracking s))
    (<[ip := mkBlocked sys (secs * SECOND) reason]> (blocked_ips s)) (stats s).

Definition blocked_text (b : BlockedIp) (sys : Z) : str :=
  match time_remaining b sys with
  | Some r => lit "IP blocked for " ++ block_reason b ++ lit " (" ++ show_int (r / SECOND)
              ++ lit "s remaining)"
  | None => lit "IP blocked for " ++ block_reason b
  end.

(** The counting part of [check_message], for an address that is not blocked. *)
Definition track (s : SipRateLimiter) (now : Z) (ip : IpAddr) (m : option SipMethod)
    : option str * SipRateLimiter :=
  let t := default (tracking_new now) (ip_tracking s !! ip) in
  let put t' := set_tracking s (<[ip := t']> (ip_tracking s)) in
  match m with
  | Some Invite =>
      let (rate, t') := record_invite t now in
      if invite_rate_limit (config s) <? rate
      then (Some (lit "INVITE rate limit exceeded: " ++ show_int rate ++ lit "/s"),
            count_limited (put t'))
      else (None, put t')
  | Some (Register as m) | Some (Options as m) =>
      let (n, t') := record_scanner_request t m now in
      if scanner_threshold (config s) <=? n
      then (Some (lit "Scanner detected: " ++ show_int n ++ lit " sequential " ++ method_str m
                  ++ lit " requests"),
            count_scanner (put t'))
      else (None, put t')
  | Some m => (None, put (reset_scanner_detection t m now))
  | None => (None, put t)
  end.

Definition check_message (s : SipRateLimiter) (k : Clock) (m : option SipMethod) (ip : IpAddr)
    : result str unit * SipRateLimiter :=
  let s := count_total s in
  let cfg := config s in
  if negb (enabled cfg) then (Ok tt, s)
  else
    let checked s :=
      match track s (instant k) ip m with
      | (Some reason, s) =>
          (Err reason, block_ip s (system k) ip reason (block_duration_secs cfg))
      | (None, s) => (Ok tt, s)
      end in
    match blocked_ips s !! ip with
    | Some b =>
        if is_expired b (system k) then checked (set_blocked s (delete ip (blocked_ips s)))
        else (Err (blocked_text b (system k)), count_blocked s)
    | None => checked s
    end.

Definition unblock_ip (s : SipRateLimiter) (ip : IpAddr) : bool * SipRateLimiter :=
  match blocked_ips s !! ip with
  | Some _ => (true, set_blocked s (delete ip (blocked_ips s)))
  | None => (false, s)
  end.

Definition is_blocked (s : SipRateLimiter) (sys : Z) (ip : IpAddr) : bool * SipRateLimiter :=
  match blocked_ips s !! ip with
  | Some b => if is_expired b sys then (false, set_blocked s (delete ip (blocked_ips s))) else (true, s)
  | None => (false, s)
  end.

(** Expired blocks are removed in passing. *)
Definition live_blocks (sys : Z) (m : gmap IpAddr BlockedIp) : gmap IpAddr BlockedIp :=
  filter (λ kv, is_expired kv.2 sys = false) m.
Definition get_blocked_ips (s : SipRateLimiter) (sys : Z)
    : gmap IpAddr (str * option Z) * SipRateLimiter :=
  let live := live_blocks sys (blocked_ips s) in
  ((λ b, (block_reason b, time_remaining b sys)) <$> live, set_blocked s live).

Definition cleanup_stale_data (s : SipRateLimiter) (k : Clock) : SipRateLimiter :=
  mkLimiter (config s) (filter (λ kv, is_stale kv.2 (instant k) = false) (ip_tracking s))
    (live_blocks (system k) (blocked_ips s)) (stats s).

Definition clear_all_blocks (s : SipRateLimiter) : SipRateLimiter := set_blocked s ∅.
Definition reset_stats (s : SipRateLimiter) : SipRateLimiter := set_stats s (mkStats 0 0 0 0).

(** ** Histories *)

Inductive event :=
  | Received (m : option SipMethod) (ip : IpAddr)
  | Cleanup
  | Block (ip : IpAddr) (reason : str) (secs : Z)
  | AskBlocked (ip : IpAddr)
  | ListBlocked.

(** The answer to a request, and the state after it. *)
Definition step (s : SipRateLimiter) (k : Clock) (e : event) : option (result str unit) * SipRateLimiter :=
  match e with
  | Received m ip => let (r, s) := check_message s k m ip in (Some r, s)
  | Cleanup => (None, cleanup_stale_data s k)
  | Block ip reason secs => (None, block_ip s (system k) ip reason secs)
  | AskBlocked ip => (None, (is_blocked s (system k) ip).2)
  | ListBlocked => (None, (get_blocked_ips s (system k)).2)
  end.

Fixpoint run (s : SipRateLimiter) (es : list (Clock * event))
    : list (option (result str unit)) * SipRateLimiter :=
  match es with
  | [] => ([], s)
  | (k, e) :: es' =>
      let (r, s) := step s k e in
      let (rs, s) := run s es' in (r :: rs, s)
  end.

(** The instants of the INVITEs of an address that were let through. *)
Definition accepted_invite (ip : IpAddr) (x : Clock * event * option (result str unit)) : option Z :=
  match x with
  | (k, Received (Some Invite) ip', Some (Ok _)) => if bool_decide (ip = ip') then Some (instant k) else None
  | _ => None
  end.
Definition accepted_invites (s : SipRateLimiter) (ip : IpAddr) (es : list (Clock * event)) : list Z :=
  omap (accepted_invite ip) (zip es (run s es).1).

(** How many of the instants lie in the second that ends at [t], and how many
    after [c]. *)
Definition window (t : Z) (l : list Z) : nat := length (filter (λ a, t - SECOND < a ≤ t) l).
Definition since (c : Z) (l : list Z) : nat := length (filter (λ a, c < a) l).

(** Time does not run backwards, the two clocks go at the same pace, and manual
    blocks last a second at least. *)
Fixpoint timely (off T : Z) (es : list (Clock * event)) : Prop :=
  match es with
  | [] => True
  | (k, e) :: es' =>
      T ≤ instant k ∧ system k = instant k + off
      ∧ (match e with Block _ _ secs => 1 ≤ secs | _ => True end)
      ∧ timely off (instant k) es'
  end.

(** ** Lemmas *)

Lemma since_cons c a l : since c (a :: l) = ((if decide (c < a)%Z then 1 else 0) + since c l)%nat.
Proof. unfold since. rewrite filter_cons. by destruct (decide (c < a)). Qed.
Lemma since_app c l l' : since c (l ++ l') = (since c l + since c l')%nat.
Proof. unfold since. by rewrite filter_app, length_app. Qed.
Lemma since_le_length c l : (since c l ≤ length l)%nat.
Proof. apply length_filter. Qed.
Lemma since_none c l : Forall (λ a, a ≤ c) l → since c l = 0%nat.
Proof. induction 1 as [|a l Ha _ IH]; [done|]. rewrite since_cons, decide_False by lia. done. Qed.

Lemma window_cons t a l :
  window t (a :: l) = ((if decide (t - SECOND < a ≤ t)%Z then 1 else 0) + window t l)%nat.
Proof. unfold window. rewrite filter_cons. by destruct (decide _). Qed.
Lemma window_since t l : (window t l ≤ since (t - SECOND) l)%nat.
Proof.
  induction l as [|a l IH]; [done|]. rewrite window_cons, since_cons.
  destruct (decide (_ < a ≤ t)), (decide (_ < a)); lia.
Qed.

(** Popping old timestamps loses none of the last second. *)
Lemma since_clean now q c : now - SECOND ≤ c → since c (clean_old_invites now q) = since c q.
Proof.
  intros Hc. unfold clean_old_invites. induction q as [|a q IH]; [done|]. cbn [pop_before].
  destruct (Z.ltb_spec a (now - SECOND)); [|done]. rewrite IH, since_cons, decide_False by lia. done.
Qed.
Lemma clean_sublist now q : (length (clean_old_invites now q) ≤ length q)%nat
  ∧ ∀ a, a ∈ clean_old_invites now q → a ∈ q.
Proof.
  unfold clean_old_invites. induction q as [|a q [IH1 IH2]]; [done|]. cbn [pop_before].
  destruct (a <? _); [|done]. split; [simpl; lia|]. set_solver.
Qed.

(** ** The invariant of one address *)

Section limit.
Variables (cfg : RateLimitConfig) (off : Z) (ip : IpAddr).
Hypothesis Henabled : enabled cfg = true.
Hypothesis Hlimit : 0 ≤ invite_rate_limit cfg < u32_max.
Hypothesis Hblock : 1 ≤ block_duration_secs cfg.

(** What is remembered of the address covers the INVITEs let through in the last
    second; or the address is blocked since the last of them, for a second or
    more. *)
Definition timestamps_of (s : SipRateLimiter) : list Z :=
  match ip_tracking s !! ip with Some t => invite_timestamps t | None => [] end.

Record limited (T : Z) (A : list Z) (s : SipRateLimiter) : Prop := {
  li_config : config s = cfg;
  li_past : Forall (λ a, a ≤ T) A;
  li_window : ∀ t, Z.of_nat (window t A) ≤ invite_rate_limit cfg;
  li_tracking : ∀ t, ip_tracking s !! ip = Some t →
    last_activity t ≤ T ∧ Forall (λ a, a ≤ last_activity t) (invite_timestamps t)
    ∧ Z.of_nat (length (invite_timestamps t)) ≤ invite_rate_limit cfg;
  li_covered : match blocked_ips s !! ip with
    | Some b => ip_tracking s !! ip = None ∧ SECOND ≤ block_duration b ∧ blocked_at b ≤ T + off
                ∧ Forall (λ a, a + off ≤ blocked_at b) A
    | None => ∀ c, T - SECOND ≤ c → (since c A ≤ since c (timestamps_of s))%nat
    end }.

Lemma limited_new T : limited T [] (limiter_new cfg).
Proof.
  split; cbn [limiter_new config ip_tracking blocked_ips]; rewrite ?lookup_empty.
  - done.
  - by apply Forall_nil.
  - intros t. change (window t []) with 0%nat. lia.
  - done.
  - intros c _. change (since c []) with 0%nat. lia.
Qed.

(** Time passes. *)
Lemma limited_later T T' A s : T ≤ T' → limited T A s → limited T' A s.
Proof.
  intros HT [? Hp ? Ht Hc]. split; [done| |done| |].
  - eapply Forall_impl; [exact Hp|]. cbn. lia.
  - intros t (? & ? & ?)%Ht. split_and!; [lia|done|done].
  - destruct (blocked_ips s !! ip); [|intros c ?; apply Hc; lia].
    destruct Hc as (? & ? & ? & ?). split_and!; [done|done|lia|done].
Qed.

(** Once a block has run out, nothing of the last second is left. *)
Lemma limited_unblock T A s b :
  limited T A s → blocked_ips s !! ip = Some b → is_expired b (T + off) = true →
  limited T A (set_blocked s (delete ip (blocked_ips s))).
Proof.
  intros [? Hp ? Ht Hc] Hb He. rewrite Hb in Hc. destruct Hc as (Hn & Hd & Hs & Ha).
  split; cbn; [done..|]. rewrite lookup_delete_eq. intros c Hc. rewrite since_none; [lia|].
  unfold is_expired, elapsed in He. destruct (Z.leb_spec (blocked_at b) (T + off)); [|lia].
  apply Z.leb_le in He. eapply Forall_impl; [exact Ha|]. cbn. lia.
Qed.

(** Changes that concern other addresses, or nothing that counts. *)
Lemma limited_same T A s s' :
  config s' = config s → ip_tracking s' !! ip = ip_tracking s !! ip →
  blocked_ips s' !! ip = blocked_ips s !! ip → limited T A s → limited T A s'.
Proof.
  intros E1 E2 E3 [? ? ? Ht Hc]. split; [congruence|done|done|by rewrite E2|].
  rewrite E3. unfold timestamps_of. rewrite E2. exact Hc.
Qed.

(** The address is blocked. *)
Lemma limited_block T A s s' reason secs :
  1 ≤ secs → limited T A s → config s' = config s → limited T A (block_ip s' (T + off) ip reason secs).
Proof.
  intros Hs [? Hp ? Ht Hc] E. split; cbn; [congruence|done..| |].
  - intros t. by rewrite lookup_delete_eq.
  - rewrite lookup_insert_eq, lookup_delete_eq. cbn. split_and!; [done|unfold SECOND; lia|lia|].
    eapply Forall_impl; [exact Hp|]. cbn. lia.
Qed.

(** Other data of the address is recorded, with the same or fewer timestamps to
    remember. *)
Lemma limited_put T A s t x n m :
  limited T A s → blocked_ips s !! ip = None → t = default (tracking_new T) (ip_tracking s !! ip) →
  last_activity t ≤ x ≤ T →
  limited T A (set_tracking s (<[ip := mkTracking (invite_timestamps t) n x m]> (ip_tracking s))).
Proof.
  intros [? Hp ? Ht Hc] Hb -> Hx. rewrite Hb in Hc.
  assert (E : invite_timestamps (default (tracking_new T) (ip_tracking s !! ip)) = timestamps_of s)
    by (unfold timestamps_of; by destruct (ip_tracking s !! ip)).
  split; cbn; [done..| |].
  - intros t. rewrite lookup_insert_eq. intros [= <-]. cbn. rewrite E. unfold timestamps_of.
    split; [lia|]. destruct (ip_tracking s !! ip) as [t|] eqn:Et; [|split; [by apply Forall_nil|cbn; lia]].
    destruct (Ht t eq_refl) as (? & Hq & ?). split; [|done].
    eapply Forall_impl; [exact Hq|]. cbn in *. lia.
  - rewrite Hb. unfold timestamps_of at 1. cbn. rewrite lookup_insert_eq. cbn. by rewrite E.
Qed.

(** An INVITE is let through. *)
Lemma limited_accept T A s t :
  limited T A s → blocked_ips s !! ip = None → t = default (tracking_new T) (ip_tracking s !! ip) →
  (record_invite t T).1 ≤ invite_rate_limit cfg →
  limited T (T :: A) (set_tracking s (<[ip := (record_invite t T).2]> (ip_tracking s))).
Proof.
  intros [? Hp Hw Ht Hc] Hb -> Hr. rewrite Hb in Hc.
  assert (E : invite_timestamps (default (tracking_new T) (ip_tracking s !! ip)) = timestamps_of s)
    by (unfold timestamps_of; by destruct (ip_tracking s !! ip)).
  unfold record_invite in Hr |- *. rewrite E in Hr |- *. cbn [fst snd] in Hr |- *.
  assert (Hq : Forall (λ a, a ≤ T) (timestamps_of s)
    ∧ Z.of_nat (length (timestamps_of s)) ≤ invite_rate_limit cfg).
  { unfold timestamps_of. destruct (ip_tracking s !! ip) as [t|] eqn:Et; [|split; [by apply Forall_nil|cbn; lia]].
    destruct (Ht t eq_refl) as (? & Hq & ?). split; [|done]. eapply Forall_impl; [exact Hq|]. cbn. lia. }
  destruct Hq as [Hq1 Hq2]. destruct (clean_sublist T (timestamps_of s)) as [Hl Hin].
  set (q := clean_old_invites T (timestamps_of s) ++ [T]) in *.
  assert (Hlen : Z.of_nat (length q) ≤ invite_rate_limit cfg).
  { rewrite wrap_u32_id in Hr; [done|]. unfold q. rewrite length_app. cbn. unfold is_u32, u32_max in *. lia. }
  assert (Hcov : ∀ c, T - SECOND ≤ c → (since c (T :: A) ≤ since c q)%nat).
  { intros c Hc'. unfold q. rewrite since_app, since_clean, !since_cons by done. specialize (Hc c Hc').
    change (since c []) with 0%nat. lia. }
  split; cbn [set_tracking config ip_tracking blocked_ips]; [done|by constructor| | |].
  - intros u. destruct (decide (T ≤ u)) as [Hu|Hu].
    + pose proof (window_since u (T :: A)). pose proof (Hcov (u - SECOND) ltac:(lia)).
      pose proof (since_le_length (u - SECOND) q). lia.
    + rewrite window_cons, decide_False by lia. apply Hw.
  - intros t. rewrite lookup_insert_eq. intros [= <-]. cbn. split_and!; [lia| |done].
    unfold q. apply Forall_app. split; [|by repeat constructor].
    apply Forall_forall. intros a Ha%Hin. by rewrite Forall_forall in Hq1; apply Hq1.
  - rewrite Hb. unfold timestamps_of. cbn. rewrite lookup_insert_eq. cbn. exact Hcov.
Qed.

Lemma limited_stats T A s st : limited T A s → limited T A (set_stats s st).
Proof. by apply limited_same. Qed.

(** A request of the address itself, when it is not blocked. *)
Lemma limited_track T A s m :
  limited T A s → blocked_ips s !! ip = None →
  config (track s T ip m).2 = cfg
  ∧ ((track s T ip m).1 = None →
       limited T (if bool_decide (m = Some Invite) then T :: A else A) (track s T ip m).2).
Proof.
  intros Hl Hb. pose proof (li_config _ _ _ Hl) as Hc. unfold track.
  assert (Ha : last_activity (default (tracking_new T) (ip_tracking s !! ip)) ≤ T).
  { pose proof (li_tracking _ _ _ Hl) as Ht. destruct (ip_tracking s !! ip) as [t|]; cbn; [|lia].
    by destruct (Ht t eq_refl). }
  set (t := default (tracking_new T) (ip_tracking s !! ip)) in *.
  assert (Hput : ∀ x n m', last_activity t ≤ x ≤ T → limited T A
    (set_tracking s (<[ip := mkTracking (invite_timestamps t) n x m']> (ip_tracking s))))
    by (intros; by apply limited_put).
  destruct m as [[]|]; try by split; [exact Hc|intros _; apply Hput; lia].
  - destruct (record_invite t T) as [rate t'] eqn:Er. destruct (Z.ltb_spec (invite_rate_limit (config s)) rate).
    + by split.
    + split; [exact Hc|]. intros _. cbn [snd]. rewrite bool_decide_true by done.
      replace t' with (record_invite t T).2 by (by rewrite Er). apply limited_accept; [done..|].
      rewrite Er. cbn [fst]. rewrite Hc in *. lia.
  - unfold record_scanner_request. destruct (_ <=? _); split; [done..|exact Hc|]. intros _. apply Hput; lia.
  - unfold record_scanner_request. destruct (_ <=? _); split; [done..|exact Hc|]. intros _. apply Hput; lia.
  - split; [exact Hc|]. intros _. cbn [snd]. specialize (Hput (last_activity t)
      (sequential_scanner_requests t) (last_method t) ltac:(lia)). by destruct t.
Qed.

(** A request of another address. *)
Lemma track_other s now ip' m :
  ip ≠ ip' → config (track s now ip' m).2 = config s
  ∧ ip_tracking (track s now ip' m).2 !! ip = ip_tracking s !! ip
  ∧ blocked_ips (track s now ip' m).2 = blocked_ips s.
Proof.
  intros Hne. unfold track, record_scanner_request, record_invite.
  destruct m as [[]|]; try destruct (_ <? _); try destruct (_ <=? _); cbn;
    rewrite ?lookup_insert_ne by done; done.
Qed.

Lemma track_blocked s now ip' m : blocked_ips (track s now ip' m).2 = blocked_ips s.
Proof.
  unfold track, record_scanner_request, record_invite.
  by destruct m as [[]|]; try destruct (_ <? _); try destruct (_ <=? _).
Qed.

Lemma limited_checked T A s m ip' :
  limited T A s → blocked_ips s !! ip' = None →
  let '(r, s') := match track s T ip' m with
    | (Some reason, s) => (Err reason, block_ip s (T + off) ip' reason (block_duration_secs cfg))
    | (None, s) => (Ok tt, s)
    end in
  limited T (if bool_decide (m = Some Invite ∧ ip = ip' ∧ r = Ok tt) then T :: A else A) s'.
Proof.
  intros Hl Hb. destruct (decide (ip = ip')) as [<-|Hne].
  - destruct (limited_track T A s m Hl Hb) as [Ec Ht].
    destruct (track s T ip m) as [[reason|] s2]; cbn [fst snd] in *.
    + rewrite bool_decide_false by naive_solver. apply (limited_block _ _ s); [done..|].
      by rewrite Ec, (li_config _ _ _ Hl).
    + specialize (Ht eq_refl). erewrite bool_decide_ext; [exact Ht|]. naive_solver.
  - destruct (track_other s T ip' m Hne) as (E1 & E2 & E3).
    destruct (track s T ip' m) as [[reason|] s2]; cbn [fst snd] in *;
      rewrite bool_decide_false by naive_solver.
    + apply (limited_same _ _ s); cbn; [done| | |done].
      * by rewrite lookup_delete_ne.
      * by rewrite lookup_insert_ne, E3.
    + apply (limited_same _ _ s); [done|done|by rewrite E3|done].
Qed.

Lemma limited_message T A s m ip' :
  limited T A s →
  let '(r, s') := check_message s (mkClock T (T + off)) m ip' in
  limited T (if bool_decide (m = Some Invite ∧ ip = ip' ∧ r = Ok tt) then T :: A else A) s'.
Proof.
  intros Hl. unfold check_message. set (s0 := count_total s).
  assert (H0 : limited T A s0) by by apply limited_stats.
  rewrite !(li_config _ _ _ H0), Henabled. cbn [negb instant system].
  destruct (blocked_ips s0 !! ip') as [b|] eqn:Hb; [|by apply limited_checked].
  destruct (is_expired b (T + off)) eqn:He.
  - apply limited_checked; [|apply lookup_delete_eq].
    destruct (decide (ip = ip')) as [<-|Hne]; [by eapply limited_unblock|].
    apply (limited_same _ _ s0); [done|done| |done]. cbn. by rewrite lookup_delete_ne.
  - rewrite bool_decide_false by naive_solver. by apply limited_stats.
Qed.

Lemma limited_live T A s s' :
  limited T A s → config s' = config s → ip_tracking s' !! ip = ip_tracking s !! ip →
  blocked_ips s' !! ip = live_blocks (T + off) (blocked_ips s) !! ip → limited T A s'.
Proof.
  intros Hl E1 E2 E3. unfold live_blocks in E3.
  destruct (blocked_ips s !! ip) as [b|] eqn:Hb.
  - destruct (is_expired b (T + off)) eqn:He.
    + apply (limited_same _ _ (set_blocked s (delete ip (blocked_ips s)))); [done|done| |by eapply limited_unblock].
      rewrite E3. cbn. rewrite lookup_delete_eq. apply map_lookup_filter_None. right.
      intros b' Hb'. cbn. congruence.
    + apply (limited_same _ _ s); [done|done| |done]. rewrite E3, Hb. by apply map_lookup_filter_Some.
  - apply (limited_same _ _ s); [done|done| |done]. rewrite E3, Hb. apply map_lookup_filter_None. by left.
Qed.

(** Data older than a minute has no timestamp of the last second. *)
Lemma limited_stale T A s :
  limited T A s → limited T A (set_tracking s (filter (λ kv, is_stale kv.2 T = false) (ip_tracking s))).
Proof.
  intros Hl. destruct (ip_tracking s !! ip) as [t|] eqn:Et.
  2: { apply (limited_same _ _ s); [done| |done|done]. cbn. rewrite Et. apply map_lookup_filter_None. by left. }
  destruct (is_stale t T) eqn:Hs.
  2: { apply (limited_same _ _ s); [done| |done|done]. cbn. rewrite Et. by apply map_lookup_filter_Some. }
  assert (En : filter (λ kv, is_stale kv.2 T = false) (ip_tracking s) !! ip = None).
  { apply map_lookup_filter_None. right. intros t' Ht'. cbn. congruence. }
  destruct Hl as [? Hp ? Ht Hc]. split; cbn [set_tracking config ip_tracking blocked_ips]; [done..| |].
  - by rewrite En.
  - destruct (blocked_ips s !! ip); [naive_solver|]. intros c Hc'. specialize (Hc c Hc').
    destruct (Ht t Et) as (_ & Hq & _). unfold timestamps_of in Hc. rewrite Et in Hc.
    rewrite (since_none c (invite_timestamps t)) in Hc; [lia|]. eapply Forall_impl; [exact Hq|].
    unfold is_stale in Hs. apply Z.ltb_lt in Hs. unfold IP_TRACKING_TTL_SECS, SECOND in *. cbn. lia.
Qed.

Lemma limited_step T T' A s e :
  T ≤ T' → match e with Block _ _ secs => 1 ≤ secs | _ => True end → limited T A s →
  let '(r, s') := step s (mkClock T' (T' + off)) e in
  limited T' (match accepted_invite ip (mkClock T' (T' + off), e, r) with
              | Some a => a :: A | None => A end) s'.
Proof.
  intros HT He Hl%(limited_later _ T'); [|done]. destruct e as [m ip'| |ip' reason secs|ip'|]; cbn [step].
  - pose proof (limited_message T' A s m ip' Hl) as Hm.
    destruct (check_message _ _ _ _) as [r s']. cbn [accepted_invite instant].
    destruct m as [[]|]; try by rewrite bool_decide_false in Hm by naive_solver.
    destruct r as [[]|]; [|by rewrite bool_decide_false in Hm by naive_solver].
    case_bool_decide; case_bool_decide; naive_solver.
  - apply (limited_live _ _ (set_tracking s (filter (λ kv, is_stale kv.2 T' = false) (ip_tracking s))));
      [by apply limited_stale|done..].
  - cbn. destruct (decide (ip = ip')) as [<-|Hne]; [by apply (limited_block _ _ s)|].
    apply (limited_same _ _ s); cbn; [done| | |done].
    + by rewrite lookup_delete_ne.
    + by rewrite lookup_insert_ne.
  - unfold is_blocked. cbn. destruct (blocked_ips s !! ip') as [b|] eqn:Hb; [|done].
    destruct (is_expired b (T' + off)) eqn:Hx; [|done]. cbn.
    destruct (decide (ip = ip')) as [<-|Hne]; [by eapply limited_unblock|].
    apply (limited_same _ _ s); cbn; [done|done| |done]. by rewrite lookup_delete_ne.
  - apply (limited_live _ _ s); done.
Qed.

Lemma limited_run es : ∀ T A s,
  limited T A s → timely off T es →
  ∀ t, Z.of_nat (window t (accepted_invites s ip es) + window t A) ≤ invite_rate_limit cfg.
Proof.
  induction es as [|[k e] es IH]; intros T A s Hl Ht t.
  { apply (li_window _ _ _ Hl). }
  cbn [timely] in Ht. destruct Ht as (HT & Hsync & He & Ht).
  destruct k as [now sys]. cbn in HT, Hsync, Ht. subst sys.
  pose proof (limited_step T now A s e HT He Hl) as Hs.
  unfold accepted_invites. cbn [run]. destruct (step s _ e) as [r s'].
  specialize (IH _ _ _ Hs Ht t). unfold accepted_invites in IH.
  destruct (run s' es) as [rs s'']. cbn [fst zip_with omap list_omap] in *.
  destruct (accepted_invite ip _) as [a|]; [|done]. rewrite window_cons in IH |- *. lia.
Qed.
End limit.

(** ** Theorems *)

(** C16: the INVITE limit holds.  Whatever requests, cleanups, queries and
    manual blocks reach a limiter, in any order and from any number of sources,
    in no second are more INVITEs of one source let through than the limit; the
    blocks have to last a second at least, and the two clocks to agree. *)
Theorem invite_limit_holds (cfg : RateLimitConfig) (off : Z) (es : list (Clock * event)) (ip : IpAddr) :
  enabled cfg = true → 0 ≤ invite_rate_limit cfg < u32_max → 1 ≤ block_duration_secs cfg →
  timely off 0 es →
  ∀ t, Z.of_nat (window t (accepted_invites (limiter_new cfg) ip es)) ≤ invite_rate_limit cfg.
Proof.
  intros He Hl Hb Ht t.
  pose proof (limited_run cfg off ip He Hl Hb es 0 [] _ (limited_new cfg off ip Hl 0) Ht t). lia.
Qed.

(** A limit of two: the third INVITE within a second is refused, and so is the
    next one, until the block of a second has run out. *)
Definition ex_config : RateLimitConfig := mkConfig 2 3 1 true.
Definition ex_ip : IpAddr := V4 3232235786.
Definition ex_clock (ms : Z) : Clock := mkClock (ms * 10 ^ 6) (ms * 10 ^ 6 + 7).
Definition ex_invites : list (Clock * event) :=
  (λ ms, (ex_clock ms, Received (Some Invite) ex_ip)) <$> [0; 400; 800; 1700; 1801].

Lemma invite_limit_holds_witness :
  accepted_invites (limiter_new ex_config) ex_ip ex_invites = [0; 400 * 10 ^ 6; 1801 * 10 ^ 6]
  ∧ ∀ t, Z.of_nat (window t (accepted_invites (limiter_new ex_config) ex_ip ex_invites)) ≤ 2.
Proof.
  split; [vm_compute; reflexivity|].
  refine (invite_limit_holds ex_config 7 ex_invites ex_ip eq_refl _ _ _).
  - vm_compute. by split.
  - vm_compute. done.
  - vm_compute. repeat split; done.
Defined.

(** ** Scanner detection *)

Definition is_scanner (m : SipMethod) : bool := bool_decide (m = Register ∨ m = Options).

(** Requests of one method from one address, none more than a minute after the
    one before, with cleanups in between. *)
Fixpoint steady (ip : IpAddr) (m : SipMethod) (T : Z) (es : list (Clock * event)) : Prop :=
  match es with
  | [] => True
  | (k, e) :: es' =>
      T ≤ instant k ≤ T + IP_TRACKING_TTL_SECS * SECOND
      ∧ match e with
        | Received m' ip' => m' = Some m ∧ ip' = ip ∧ steady ip m (instant k) es'
        | Cleanup => steady ip m T es'
        | _ => False
        end
  end.

Definition is_request (ke : Clock * event) : bool :=
  match ke.2 with Received _ _ => true | _ => false end.
Definition requests (es : list (Clock * event)) : Z := Z.of_nat (length (List.filter is_request es)).
Definition let_through (ke : Clock * event) : option (result str unit) :=
  if is_request ke then Some (Ok tt) else None.

Section scanner.
Variables (cfg : RateLimitConfig) (ip : IpAddr).
Hypothesis Henabled : enabled cfg = true.
Hypothesis Hthreshold : 1 < scanner_threshold cfg ≤ u32_max.

(** The state of a run of [n] requests of one method, the last at [T]. *)
Definition in_run (s : SipRateLimiter) (m : SipMethod) (n T : Z) : Prop :=
  config s = cfg ∧ blocked_ips s !! ip = None
  ∧ ∃ t, ip_tracking s !! ip = Some t ∧ sequential_scanner_requests t = n
         ∧ last_method t = Some m ∧ last_activity t = T.

(** Where the next request of method [m] leads. *)
Lemma scanner_request s k m n :
  is_scanner m = true → config s = cfg → blocked_ips s !! ip = None →
  (match ip_tracking s !! ip with
   | Some t => if bool_decide (last_method t = Some m) then wrap_u32 (sequential_scanner_requests t + 1) else 1
   | None => 1
   end) = n →
  ∃ r s', check_message s k (Some m) ip = (r, s')
    ∧ if scanner_threshold cfg <=? n then (∃ reason, r = Err reason)
      else r = Ok tt ∧ in_run s' m n (instant k).
Proof.
  intros Hm Hc Hb Hn. unfold check_message, count_total. cbn [set_stats config blocked_ips].
  rewrite Hc, Henabled, Hb. cbn [negb].
  assert (E : track (set_stats s (mkStats (succ_u64 (total_requests (stats s))) (blocked_requests (stats s))
                 (rate_limited_requests (stats s)) (scanner_detections (stats s)))) (instant k) ip (Some m)
    = let s1 := set_stats s (mkStats (succ_u64 (total_requests (stats s))) (blocked_requests (stats s))
                 (rate_limited_requests (stats s)) (scanner_detections (stats s))) in
      let t := default (tracking_new (instant k)) (ip_tracking s !! ip) in
      let s2 := set_tracking s1 (<[ip := mkTracking (invite_timestamps t) n (instant k) (Some m)]> (ip_tracking s)) in
      if scanner_threshold cfg <=? n
      then (Some (lit "Scanner detected: " ++ show_int n ++ lit " sequential " ++ method_str m
                  ++ lit " requests"), count_scanner s2)
      else (None, s2)).
  { unfold track, record_scanner_request. cbn [set_stats ip_tracking config]. rewrite Hc.
    apply bool_decide_eq_true in Hm as [-> | ->]; subst n; by destruct (ip_tracking s !! ip). }
  rewrite E. cbv zeta. destruct (scanner_threshold cfg <=? n); do 2 eexists; (split; [done|]); [by eexists|].
  split; [done|]. split; [done|]. split; [done|]. cbn. rewrite lookup_insert_eq. by eexists.
Qed.

(** A cleanup within the minute forgets nothing. *)
Lemma run_cleanup s k m n T :
  T ≤ instant k ≤ T + IP_TRACKING_TTL_SECS * SECOND → in_run s m n T → in_run (cleanup_stale_data s k) m n T.
Proof.
  intros Hk (Hc & Hb & t & Ht & Hn & Hm & HT). split; [done|]. split.
  - cbn. apply map_lookup_filter_None. by left.
  - exists t. split; [|done]. cbn. apply map_lookup_filter_Some. split; [done|]. cbn. unfold is_stale.
    apply Z.ltb_ge. lia.
Qed.

Lemma steady_run m es : is_scanner m = true → ∀ s n T,
  in_run s m n T → 1 ≤ n → steady ip m T es → n + requests es < scanner_threshold cfg →
  ∃ s', run s es = (let_through <$> es, s') ∧ ∃ T', in_run s' m (n + requests es) T'.
Proof.
  intros Hm. induction es as [|[k e] es IH]; intros s n T Hr Hn Hs Hlt.
  { exists s. split; [done|]. exists T. unfold requests. cbn. by rewrite Z.add_0_r. }
  cbn [steady] in Hs. destruct Hs as [Hk Hs].
  destruct e as [m' ip'| | | |]; try done.
  - destruct Hs as (-> & -> & Hs). unfold requests in *. cbn [List.filter is_request snd length] in *.
    destruct Hr as (Hc & Hb & t & Ht & Hn' & Hm' & HT).
    destruct (scanner_request s k m (n + 1) Hm Hc Hb) as (r & s1 & E & Hr).
    { rewrite Ht, Hm', bool_decide_true by done. rewrite Hn'. apply wrap_u32_id. unfold is_u32. lia. }
    destruct (Z.leb_spec (scanner_threshold cfg) (n + 1)); [lia|]. destruct Hr as [-> Hr].
    destruct (IH _ _ _ Hr ltac:(lia) Hs ltac:(lia)) as (s' & E' & T' & Hr').
    exists s'. cbn [run step]. rewrite E, E', fmap_cons. split; [done|]. exists T'.
    replace (n + Z.of_nat (S _)) with (n + 1 + Z.of_nat (length (List.filter is_request es))) by lia.
    done.
  - unfold requests in *. cbn [List.filter is_request snd] in *.
    destruct (IH (cleanup_stale_data s k) n T (run_cleanup _ _ _ _ _ Hk Hr) Hn Hs Hlt) as (s' & E' & T' & Hr').
    exists s'. cbn [run step]. rewrite E', fmap_cons. split; [done|]. by exists T'.
Qed.

Lemma run_snoc es : ∀ s k e,
  run s (es ++ [(k, e)]) = ((run s es).1 ++ [(step (run s es).2 k e).1], (step (run s es).2 k e).2).
Proof.
  induction es as [|[k0 e0] es IH]; intros s k e; cbn [run app].
  - cbn [fst snd app]. by destruct (step s k e).
  - destruct (step s k0 e0) as [r s1]. rewrite IH. by destruct (run s1 es).
Qed.

Definition other (m : SipMethod) : SipMethod := if bool_decide (m = Register) then Options else Register.

(** REGISTER and OPTIONS in turn. *)
Fixpoint alternate (m : SipMethod) (ks : list Clock) : list (Clock * event) :=
  match ks with
  | [] => []
  | k :: ks' => (k, Received (Some m) ip) :: alternate (other m) ks'
  end.

Lemma alternate_run ks : ∀ m s,
  is_scanner m = true → config s = cfg → blocked_ips s !! ip = None →
  (∀ t, ip_tracking s !! ip = Some t → last_method t ≠ Some m) →
  (run s (alternate m ks)).1 = replicate (length ks) (Some (Ok tt)).
Proof.
  induction ks as [|k ks IH]; intros m s Hm Hc Hb Ht; [done|]. cbn [alternate run step].
  destruct (scanner_request s k m 1 Hm Hc Hb) as (r & s1 & E & Hr).
  { destruct (ip_tracking s !! ip) as [t|]; [|done]. by rewrite bool_decide_false by (by apply Ht). }
  destruct (Z.leb_spec (scanner_threshold cfg) 1); [lia|]. destruct Hr as [-> (Hc1 & Hb1 & t & Et & _ & Hl & _)].
  rewrite E. specialize (IH (other m) s1). destruct (run s1 _) as [rs s2]. cbn in *. f_equal.
  apply bool_decide_eq_true in Hm as [-> | ->]; apply IH; try done; intros t' Et'; simplify_eq; by rewrite Hl.
Qed.
End scanner.

(** The scanner detection counts runs of one method, at any pace.  A
    source that sends nothing but REGISTERs, or nothing but OPTIONS, is let
    through until the request that makes the threshold full, which is refused,
    even if there is a minute between any two of them and cleanups in between: a
    keep-alive is blocked in the end.  A source that sends REGISTERs and OPTIONS
    in turn is never refused, at any rate. *)
Theorem scanner_counts_runs (cfg : RateLimitConfig) (ip : IpAddr) (m : SipMethod) :
  enabled cfg = true → 1 < scanner_threshold cfg ≤ u32_max → is_scanner m = true →
  (∀ k0 es k,
     steady ip m (instant k0) es →
     requests es = scanner_threshold cfg - 2 →
     ∃ reason, (run (limiter_new cfg) ((k0, Received (Some m) ip) :: es ++ [(k, Received (Some m) ip)])).1
       = Some (Ok tt) :: (let_through <$> es) ++ [Some (Err reason)])
  ∧ ∀ ks, (run (limiter_new cfg) (alternate ip m ks)).1 = replicate (length ks) (Some (Ok tt)).
Proof.
  intros He Ht Hm. split.
  - intros k0 es k Hs Hn.
    destruct (scanner_request cfg ip He (limiter_new cfg) k0 m 1 Hm eq_refl) as (r & s1 & E & Hr);
      [done..|].
    destruct (Z.leb_spec (scanner_threshold cfg) 1); [lia|]. destruct Hr as [-> Hr].
    destruct (steady_run cfg ip He Ht m es Hm s1 1 _ Hr ltac:(lia) Hs ltac:(lia)) as (s2 & E2 & T & Hr2).
    destruct Hr2 as (Hc2 & Hb2 & t & Et & Hn2 & Hm2 & _).
    destruct (scanner_request cfg ip He s2 k m (scanner_threshold cfg) Hm Hc2 Hb2) as (r & s3 & E3 & Hr3).
    { rewrite Et, Hm2, bool_decide_true, Hn2, wrap_u32_id by (done || unfold is_u32; lia). lia. }
    rewrite Z.leb_refl in Hr3. destruct Hr3 as [reason ->]. exists reason.
    cbn [run step]. rewrite E, run_snoc, E2. cbn [fst snd step]. by rewrite E3.
  - intros ks. apply (alternate_run cfg); done.
Qed.

(** An OPTIONS every 50 seconds, with a threshold of three. *)
Lemma scanner_counts_runs_witness :
  (∃ reason, (run (limiter_new ex_config)
     [(ex_clock 0, Received (Some Options) ex_ip); (ex_clock 50000, Received (Some Options) ex_ip);
      (ex_clock 90000, Cleanup); (ex_clock 100000, Received (Some Options) ex_ip)]).1
     = [Some (Ok tt); Some (Ok tt); None; Some (Err reason)])
  ∧ (run (limiter_new ex_config) (alternate ex_ip Register (ex_clock <$> [0; 1; 2; 3; 4; 5]))).1
    = replicate 6 (Some (Ok tt)).
Proof.
  destruct (scanner_counts_runs ex_config ex_ip Options eq_refl) as [Ha _];
    [vm_compute; by split|reflexivity|].
  destruct (scanner_counts_runs ex_config ex_ip Register eq_refl) as [_ Hb];
    [vm_compute; by split|reflexivity|].
  split; [|exact (Hb (ex_clock <$> [0; 1; 2; 3; 4; 5]))].
  refine (Ha (ex_clock 0) [(ex_clock 50000, Received (Some Options) ex_ip); (ex_clock 90000, Cleanup)]
            (ex_clock 100000) _ eq_refl).
  vm_compute. repeat split; done.
Defined.
