(* ===== verification/Translate.v ===== *)
(** * The translation matrix ([asterisk-codecs/src/translate.rs])

    Registration of translators, the search for the cheapest path between two
    codecs, and the chain of translator instances that a path becomes.  The
    order in which [BinaryHeap] returns entries of equal cost is unspecified: the
    heap is an interface.

    The theorems: the search ends and returns a path exactly when there is one,
    and no path costs less; a chain built from a path applies its translators one
    after the other. *)

From Stdlib Require Import ZArith Ascii String.
From S2P Require Import Prelude RustStr Types.
Local Open Scope Z_scope.
Local Open Scope list_scope.

(** ** [BinaryHeap<DijkstraNode>] *)

Record DijkstraNode := mkNode { node_codec : Z; node_cost : Z }.

#[export] Instance DijkstraNode_eq_dec : EqDecision DijkstraNode.
Proof. solve_decision. Defined.

(** [Ord] is reversed, so [pop] returns an entry of least cost. *)
Class HeapOrder := {
  heap_pop : list DijkstraNode → option (DijkstraNode * list DijkstraNode);
  heap_pop_None : ∀ h, heap_pop h = None ↔ h = [];
  heap_pop_Some : ∀ h n h', heap_pop h = Some (n, h') →
    h ≡ₚ n :: h' ∧ Forall (λ m, node_cost n ≤ node_cost m) h }.

(** ** Translators *)

Inductive TranslateError := NoPath (src dst : Z) | Failed (reason : str) | NotFound (name : str).

(** The trait [Translator] with the [TranslatorInstance] it makes; an instance
    may panic. *)
Record Translator := mkTranslator {
  tr_name : str;
  tr_src : Z;
  tr_dst : Z;
  tr_cost : Z;
  tr_state : Type;
  tr_new : tr_state;
  tr_frame_in : tr_state → Frame → outcome (result TranslateError unit * tr_state);
  tr_frame_out : tr_state → outcome (option Frame * tr_state) }.

Record TranslationEdge := mkEdge { dst_codec_id : Z; edge_cost : Z; translator_index : nat }.

Record TranslationMatrix := mkMatrix {
  translators : list Translator;
  edges : gmap Z (list TranslationEdge) }.

Definition matrix_new : TranslationMatrix := mkMatrix [] ∅.

Definition register (m : TranslationMatrix) (t : Translator) : TranslationMatrix :=
  let index := length (translators m) in
  mkMatrix (translators m ++ [t])
    (<[tr_src t := default [] (edges m !! tr_src t)
                   ++ [mkEdge (tr_dst t) (tr_cost t) index]]> (edges m)).

Definition register_all (ts : list Translator) : TranslationMatrix := foldl register matrix_new ts.

(** ** The search *)

Record Search := mkSearch {
  dist : gmap Z Z;
  prev : gmap Z (Z * nat);
  heap : list DijkstraNode }.

(** The body of [for edge in edges]. *)
Definition relax (codec_id cost : Z) (s : Search) (e : TranslationEdge) : Search :=
  let next_cost := wrap_u32 (cost + edge_cost e) in
  if next_cost <? default u32_max (dist s !! dst_codec_id e)
  then mkSearch (<[dst_codec_id e := next_cost]> (dist s))
         (<[dst_codec_id e := (codec_id, translator_index e)]> (prev s))
         (mkNode (dst_codec_id e) next_cost :: heap s)
  else s.

Definition edges_of (m : TranslationMatrix) (codec_id : Z) : list TranslationEdge :=
  default [] (edges m !! codec_id).

(** [while let Some(node) = heap.pop()]; [None] without fuel. *)
Fixpoint search `{HeapOrder} (fuel : nat) (m : TranslationMatrix) (dst : Z) (s : Search) : option Search :=
  match fuel with
  | O => None
  | S fuel' =>
      match heap_pop (heap s) with
      | None => Some s
      | Some (mkNode codec_id cost, h) =>
          let s := mkSearch (dist s) (prev s) h in
          if codec_id =? dst then Some s
          else if default u32_max (dist s !! codec_id) <? cost then search fuel' m dst s
          else search fuel' m dst (foldl (relax codec_id cost) s (edges_of m codec_id))
      end
  end.

(** [while current != src]: the steps from [src]; indexing [prev] panics. *)
Fixpoint walk (fuel : nat) (prev : gmap Z (Z * nat)) (src current : Z) (steps : list nat)
    : option (outcome (list nat)) :=
  match fuel with
  | O => None
  | S fuel' =>
      if current =? src then Some (Done (reverse steps))
      else match prev !! current with
           | Some (prev_codec, i) => walk fuel' prev src prev_codec (steps ++ [i])
           | None => Some Panic
           end
  end.

Record TranslationPath := mkPath { steps : list nat; total_cost : Z }.

(** An entry is pushed at most once per translator, besides the first. *)
Definition search_fuel (m : TranslationMatrix) : nat := S (S (length (translators m))).

(** The steps are indices into the registered translators. *)
Definition build_path `{HeapOrder} (m : TranslationMatrix) (src dst : Z)
    : option (outcome (result TranslateError TranslationPath)) :=
  if src =? dst then Some (Done (Ok (mkPath [] 0)))
  else
    s ← search (search_fuel m) m dst (mkSearch {[src := 0]} ∅ [mkNode src 0]);
    match prev s !! dst with
    | None => Some (Done (Err (NoPath src dst)))
    | Some _ =>
        r ← walk (search_fuel m) (prev s) src dst [];
        Some (let! steps := r in Done (Ok (mkPath steps (default 0 (dist s !! dst)))))
    end.

Definition path_steps `{HeapOrder} (m : TranslationMatrix) (src dst : Z) : option nat :=
  match build_path m src dst with
  | Some (Done (Ok p)) => Some (length (steps p))
  | _ => None
  end.

Definition is_noop (p : TranslationPath) : bool := bool_decide (steps p = []).

(** [join] *)
Fixpoint join_str (sep : str) (xs : list str) : str :=
  match xs with
  | [] => []
  | [x] => x
  | x :: xs' => x ++ sep ++ join_str sep xs'
  end.

Definition describe (m : TranslationMatrix) (p : TranslationPath) : option str :=
  if is_noop p then Some (lit "(no translation needed)")
  else join_str (lit " -> ") <$> mapM (λ i, tr_name <$> translators m !! i) (steps p).

(** ** Chains *)

Record Instance_ := mkInstance { in_translator : Translator; in_state : tr_state in_translator }.

Definition new_instance (t : Translator) : Instance_ := mkInstance t (tr_new t).

(** [None] where a step is not a registered translator. *)
Definition create_chain (m : TranslationMatrix) (p : TranslationPath) : option (list Instance_) :=
  mapM (λ i, new_instance <$> translators m !! i) (steps p).

Definition instance_in (i : Instance_) (f : Frame) : outcome (result TranslateError unit * Instance_) :=
  let! (r, s) := tr_frame_in (in_translator i) (in_state i) f in Done (r, mkInstance _ s).
Definition instance_out (i : Instance_) : outcome (option Frame * Instance_) :=
  let! (r, s) := tr_frame_out (in_translator i) (in_state i) in Done (r, mkInstance _ s).

(** The frame through the instances, and the instances after it. *)
Fixpoint translate_rest (current : option Frame) (is_ : list Instance_)
    : outcome (result TranslateError (option Frame) * list Instance_) :=
  match is_ with
  | [] => Done (Ok current, [])
  | i :: is' =>
      match current with
      | None => Done (Ok None, i :: is')
      | Some f =>
          let! (r, i) := instance_in i f in
          match r with
          | Err e => Done (Err e, i :: is')
          | Ok _ =>
              let! (out, i) := instance_out i in
              let! (r, is') := translate_rest out is' in Done (r, i :: is')
          end
      end
  end.
Definition translate (chain : list Instance_) (frame : Frame)
    : outcome (result TranslateError (option Frame) * list Instance_) :=
  translate_rest (Some frame) chain.

(** ** Specification: chains of translators *)

(** The translators with these indices lead from one codec to another, at this
    cost. *)
Inductive chain (ts : list Translator) (src : Z) : list nat → Z → Z → Prop :=
  | chain_nil : chain ts src [] src 0
  | chain_snoc p i t u d :
      chain ts src p u d → ts !! i = Some t → tr_src t = u →
      chain ts src (p ++ [i]) (tr_dst t) (d + tr_cost t).

(** ** Lemmas: registration *)

Lemma register_all_snoc ts t : register_all (ts ++ [t]) = register (register_all ts) t.
Proof. unfold register_all. by rewrite foldl_snoc. Qed.

Lemma register_all_translators ts : translators (register_all ts) = ts.
Proof.
  induction ts as [|t ts IH] using rev_ind; [done|]. rewrite register_all_snoc. cbn. by rewrite IH.
Qed.

(** The edges of a codec are its translators. *)
Lemma elem_of_edges ts u e :
  e ∈ edges_of (register_all ts) u ↔
  ∃ i t, ts !! i = Some t ∧ tr_src t = u ∧ e = mkEdge (tr_dst t) (tr_cost t) i.
Proof.
  induction ts as [|t ts IH] using rev_ind.
  { split; [by intros ?%elem_of_nil|]. by intros (i & t & ? & _). }
  rewrite register_all_snoc. unfold edges_of, register in *. cbn [edges].
  rewrite register_all_translators.
  assert (Hold : ∀ i t', ts !! i = Some t' → (ts ++ [t]) !! i = Some t')
    by (intros; by apply lookup_app_l_Some).
  assert (Hnew : (ts ++ [t]) !! length ts = Some t) by (by apply list_lookup_middle).
  assert (Hinv : ∀ i t', (ts ++ [t]) !! i = Some t' → ts !! i = Some t' ∨ i = length ts ∧ t' = t).
  { intros i t' [?|[? Ht]]%lookup_app_Some; [by left|right].
    destruct (i - length ts)%nat eqn:E; [|by destruct n]. injection Ht as <-. split; [lia|done]. }
  destruct (decide (tr_src t = u)) as [<-|Hne].
  - rewrite lookup_insert_eq. cbn [from_option id]. rewrite elem_of_app, IH, list_elem_of_singleton. split.
    + intros [(i & t' & Ht & Hu & ->)| ->]; eauto 10.
    + intros (i & t' & [Ht|[-> ->]]%Hinv & Hu & ->); [left|right]; eauto.
  - rewrite lookup_insert_ne by done. rewrite IH. split.
    + intros (i & t' & Ht & Hu & ->). eauto 10.
    + intros (i & t' & [Ht|[-> ->]]%Hinv & Hu & ->); [|done]. eauto.
Qed.

Lemma length_edges ts u :
  length (edges_of (register_all ts) u) = length (filter (λ t, tr_src t = u) ts).
Proof.
  induction ts as [|t ts IH] using rev_ind; [done|]. rewrite register_all_snoc.
  rewrite filter_app, length_app, <-IH, filter_cons, filter_nil.
  unfold edges_of, register. cbn [edges]. destruct (decide (tr_src t = u)) as [<-|Hne].
  - rewrite lookup_insert_eq. cbn [from_option id]. by rewrite length_app.
  - rewrite lookup_insert_ne by done. cbn. lia.
Qed.

(** ** Lemmas: the search *)

Section dijkstra.
Context `{HeapOrder}.
Variables (ts : list Translator) (src dst : Z) (C : Z).
Hypothesis Hcosts : Forall (λ t, 0 ≤ tr_cost t ≤ C) ts.
Hypothesis Hfit : C * (Z.of_nat (length ts) + 2) < u32_max.
Hypothesis Hne : src ≠ dst.
Let m := register_all ts.

(** The way back from [v] along [prev], through codecs in [S]. *)
Inductive walked (pv : gmap Z (Z * nat)) (S : list Z) : list nat → Z → Z → Prop :=
  | walked_src : walked pv S [] src 0
  | walked_step p i t u v d :
      v ≠ src → pv !! v = Some (u, i) → u ∈ S → ts !! i = Some t → tr_src t = u → tr_dst t = v →
      walked pv S p u d → walked pv S (p ++ [i]) v (d + tr_cost t).

Lemma walked_chain pv S p v d : walked pv S p v d → chain ts src p v d.
Proof. induction 1; [constructor|]. subst v. by econstructor. Qed.

Lemma walked_mono pv pv' S S' p v d :
  walked pv S p v d → (∀ x, x ∈ S ∨ x = v → pv' !! x = pv !! x) → S ⊆ S' → walked pv' S' p v d.
Proof.
  intros Hw Hpv HS. induction Hw as [|p i t u v d Hv Hp Hu Ht Hs Hd Hw IH]; [constructor|].
  apply (walked_step _ _ _ _ _ u); [done| |set_solver|done..|].
  - rewrite Hpv; [done|by right].
  - apply IH. intros x [Hx| ->]; apply Hpv; by left.
Qed.

Lemma walked_cost pv S p v d : walked pv S p v d → 0 ≤ d ≤ C * Z.of_nat (length p).
Proof.
  induction 1 as [|p i t u v d Hv Hp Hu Ht Hs Hd Hw IH]; [simpl; lia|].
  rewrite length_app. cbn. apply (Forall_lookup_1 _ _ _ _ Hcosts) in Ht. nia.
Qed.

Lemma walk_walked pv S p v d : walked pv S p v d → ∀ fuel acc, (length p < fuel)%nat →
  walk fuel pv src v acc = Some (Done (p ++ reverse acc)).
Proof.
  induction 1 as [|p i t u v d Hv Hp Hu Ht Hs Hd Hw IH]; intros [|fuel] acc Hf; try (simpl in *; lia).
  - cbn. by rewrite Z.eqb_refl.
  - cbn [walk]. destruct (Z.eqb_spec v src); [done|]. rewrite Hp. rewrite length_app in Hf. cbn in Hf.
    rewrite IH by lia. by rewrite reverse_snoc, <-app_assoc.
Qed.

Definition unscanned (S : list Z) : nat := length (filter (λ t, tr_src t ∉ S) ts).

Lemma unscanned_cons S u :
  u ∉ S → (unscanned (u :: S) + length (edges_of m u) = unscanned S)%nat.
Proof.
  intros Hu. unfold m. rewrite length_edges. unfold unscanned. clear Hcosts Hfit m.
  induction ts as [|t l IH]; [done|]. rewrite !filter_cons.
  repeat case_decide; cbn [length]; try lia; exfalso; set_solver.
Qed.

(** The invariant: [S] is settled, the codecs with an entry of their distance in
    the heap are not; [es] are the edges of [u] still to be relaxed. *)
Record inv (S : list Z) (u c : Z) (es : list TranslationEdge) (s : Search) : Prop := {
  i_count : (length S + length (heap s) + unscanned S + length es ≤ length ts + 1)%nat;
  i_src : dist s !! src = Some 0;
  i_walked : ∀ v d, dist s !! v = Some d → ∃ p, walked (prev s) S p v d
    ∧ (length p + (if decide (v ∈ S) then 1 else 0) ≤ length S)%nat;
  i_prev : ∀ v, is_Some (prev s !! v) → is_Some (dist s !! v);
  i_front : ∀ v d, dist s !! v = Some d → v ∈ S ∨ mkNode v d ∈ heap s;
  i_heap : ∀ v c, mkNode v c ∈ heap s → ∃ d, dist s !! v = Some d ∧ d ≤ c ∧ (v ∈ S → d < c);
  i_nodup : NoDup (heap s);
  i_order : ∀ a da v c, a ∈ S → dist s !! a = Some da → mkNode v c ∈ heap s → da ≤ c;
  i_closed : ∀ a e da, a ∈ S → e ∈ edges_of m a → dist s !! a = Some da →
    (a = u ∧ e ∈ es) ∨ ∃ dw, dist s !! dst_codec_id e = Some dw ∧ dw ≤ da + edge_cost e;
  i_settled : ∀ a, a ∈ S → is_Some (dist s !! a);
  i_dst : dst ∉ S;
  i_top : es ≠ [] → u ∈ S ∧ dist s !! u = Some c ∧ ∀ a da, a ∈ S → dist s !! a = Some da → da ≤ c }.

Lemma inv_start : inv [] src 0 [] (mkSearch {[src := 0]} ∅ [mkNode src 0]).
Proof.
  split; cbn [dist prev heap].
  - assert (E : unscanned [] = length ts).
    { unfold unscanned. clear. induction ts as [|t l IH]; [done|]. rewrite filter_cons, decide_True by set_solver.
      cbn. by rewrite IH. }
    rewrite E. cbn. lia.
  - apply lookup_singleton_eq.
  - intros v d [<- <-]%lookup_singleton_Some. exists []. split; [constructor|]. by rewrite decide_False by set_solver.
  - intros v [x Hx]. by rewrite lookup_empty in Hx.
  - intros v d [<- <-]%lookup_singleton_Some. right. set_solver.
  - intros v c [= -> ->]%list_elem_of_singleton. exists 0. rewrite lookup_singleton_eq. split_and!; [done|lia|set_solver].
  - apply NoDup_singleton.
  - set_solver.
  - set_solver.
  - set_solver.
  - set_solver.
  - done.
Qed.

(** An edge that leads to a shorter way: its end is not settled, and nothing
    overflows. *)
Lemma inv_edge S u c e es s :
  inv S u c (e :: es) s → e ∈ edges_of m u →
  wrap_u32 (c + edge_cost e) = c + edge_cost e ∧ 0 ≤ c ∧ 0 ≤ edge_cost e ∧ c + edge_cost e < u32_max
  ∧ ∃ p i t, walked (prev s) S p u c ∧ (length p + 1 ≤ length S)%nat ∧ u ∈ S
    ∧ ts !! i = Some t ∧ tr_src t = u ∧ e = mkEdge (tr_dst t) (tr_cost t) i.
Proof.
  intros Hi He. apply elem_of_edges in He as (i & t & Ht & Hs & ->). cbn [edge_cost].
  destruct (i_top _ _ _ _ _ Hi) as (HuS & Hu & _); [done|].
  destruct (i_walked _ _ _ _ _ Hi u c Hu) as (p & Hw & Hl). rewrite decide_True in Hl by done.
  pose proof (walked_cost _ _ _ _ _ Hw). pose proof (Forall_lookup_1 _ _ _ _ Hcosts Ht) as Hc. cbn in Hc.
  pose proof (i_count _ _ _ _ _ Hi).
  assert (Hb : c + tr_cost t < u32_max).
  { assert (0 ≤ C) by lia. assert (Z.of_nat (length p) ≤ Z.of_nat (length ts)) by lia. nia. }
  split_and!; [apply wrap_u32_id; unfold is_u32; lia|lia|lia|done|].
  exists p, i, t. split_and!; [done|lia|done..].
Qed.

Lemma inv_relax S u c e es s :
  inv S u c (e :: es) s → e ∈ edges_of m u → inv S u c es (relax u c s e).
Proof.
  intros Hi He. destruct (inv_edge _ _ _ _ _ _ Hi He) as (Hwrap & Hc & Hec & Hmax & p & i & t & Hw & Hl & HuS & Ht & Hts & E).
  destruct (i_top _ _ _ _ _ Hi) as (_ & Hu & Htop); [done|].
  unfold relax. rewrite Hwrap. set (w := dst_codec_id e) in *. set (n := c + edge_cost e) in *.
  destruct Hi as [Hcount Hsrc Hwalked Hprev Hfront Hheap Hnd Hord Hcl Hset Hdst _].
  cbn [length] in Hcount.
  destruct (Z.ltb_spec n (default u32_max (dist s !! w))) as [Hlt|Hge].
  2: { split; try done; [lia|].
    intros a e' da Ha He' Hda. destruct (Hcl a e' da Ha He' Hda) as [[-> [->|?]%elem_of_cons]|?]; [|by left|by right].
    right. fold w. destruct (dist s !! w) as [dw|]; cbn in Hge; [|lia]. exists dw. split; [done|].
    rewrite Hu in Hda. injection Hda as <-. unfold n in Hge. lia. }
  assert (HwS : w ∉ S).
  { intros HwS. destruct (Hset w HwS) as [dw Hdw]. rewrite Hdw in Hlt. cbn in Hlt. specialize (Htop _ _ HwS Hdw). lia. }
  assert (Hws : w ≠ src). { intros E'. rewrite E', Hsrc in Hlt. cbn in Hlt. lia. }
  assert (Hold : ∀ d, dist s !! w = Some d → n < d) by (intros d Hd; by rewrite Hd in Hlt).
  split; cbn [dist prev heap].
  - cbn [length]. lia.
  - by rewrite lookup_insert_ne.
  - intros v d. destruct (decide (v = w)) as [->|Hv].
    + rewrite lookup_insert_eq. intros [= <-]. exists (p ++ [i]). rewrite decide_False by done.
      split; [|rewrite length_app; cbn; lia]. unfold n. rewrite E. cbn [edge_cost].
      apply (walked_step _ _ _ _ _ u); [done| |done|done|done|by unfold w; rewrite E|].
      * by rewrite lookup_insert_eq.
      * eapply walked_mono; [exact Hw| |done]. intros x Hx. rewrite lookup_insert_ne; [done|].
        intros ->. destruct Hx as [|<-]; done.
    + rewrite lookup_insert_ne by done. intros Hd. destruct (Hwalked v d Hd) as (q & Hq & Hlq).
      exists q. split; [|done]. eapply walked_mono; [exact Hq| |done]. intros x Hx.
      rewrite lookup_insert_ne; [done|]. intros ->. by destruct Hx as [|<-].
  - intros v. destruct (decide (v = w)) as [->|Hv]; [rewrite !lookup_insert_eq; by eexists|].
    rewrite !lookup_insert_ne by done. apply Hprev.
  - intros v d. destruct (decide (v = w)) as [->|Hv].
    + rewrite lookup_insert_eq. intros [= <-]. right. by left.
    + rewrite lookup_insert_ne by done. intros [?|?]%Hfront; [by left|right; by right].
  - intros v c' [[= -> ->]|Hin]%elem_of_cons.
    + exists n. rewrite lookup_insert_eq. split_and!; [done|lia|done].
    + destruct (Hheap v c' Hin) as (d & Hd & Hdc & HvS). destruct (decide (v = w)) as [->|Hv].
      * exists n. rewrite lookup_insert_eq. specialize (Hold d Hd). split_and!; [done|lia|done].
      * exists d. by rewrite lookup_insert_ne.
  - constructor; [|done]. intros Hin. destruct (Hheap _ _ Hin) as (d & Hd & Hdc & _). specialize (Hold d Hd). lia.
  - intros a da v c' Ha. assert (a ≠ w) by (by intros ->). rewrite lookup_insert_ne by done.
    intros Hda [[= -> ->]|Hin]%elem_of_cons; [|by eapply Hord]. specialize (Htop a da Ha Hda). unfold n. lia.
  - intros a e' da Ha He'. assert (a ≠ w) by (by intros ->). rewrite lookup_insert_ne by done. intros Hda.
    destruct (Hcl a e' da Ha He' Hda) as [[-> [->|?]%elem_of_cons]|(dw & Hdw & Hle)]; [|by left|].
    + right. exists n. fold w. rewrite lookup_insert_eq. split; [done|]. rewrite Hu in Hda. injection Hda as <-. done.
    + right. destruct (decide (dst_codec_id e' = w)) as [E'|Hv].
      * exists n. rewrite E', lookup_insert_eq. split; [done|]. rewrite E' in Hdw. specialize (Hold _ Hdw). lia.
      * exists dw. by rewrite lookup_insert_ne.
  - intros a Ha. assert (a ≠ w) by (by intros ->). rewrite lookup_insert_ne by done. by apply Hset.
  - done.
  - intros _. split; [done|]. assert (u ≠ w) by (by intros ->). rewrite lookup_insert_ne by done. split; [done|].
    intros a da Ha. assert (a ≠ w) by (by intros ->). rewrite lookup_insert_ne by done. by apply Htop.
Qed.

Lemma inv_relax_all S u c es : ∀ s,
  inv S u c es s → (∀ e, e ∈ es → e ∈ edges_of m u) → inv S u c [] (foldl (relax u c) s es).
Proof.
  induction es as [|e es IH]; intros s Hi He; [done|]. cbn [foldl].
  apply IH; [apply inv_relax; [done|apply He; by left]|]. intros e' ?. apply He. by right.
Qed.

Lemma length_relax_all u c es : ∀ s,
  (length (heap (foldl (relax u c) s es)) ≤ length (heap s) + length es)%nat.
Proof.
  induction es as [|e es IH]; intros s; [cbn; lia|]. cbn [foldl]. rewrite (IH (relax u c s e)).
  unfold relax. destruct (_ <? _); cbn; lia.
Qed.

(** Another list for the heap. *)
Lemma inv_heap_perm S u c es s h :
  heap s ≡ₚ h → inv S u c es s → inv S u c es (mkSearch (dist s) (prev s) h).
Proof.
  intros Hp [Hcount ? ? ? Hfront Hheap Hnd Hord ? ? ? ?]. split; cbn [dist prev heap]; try done.
  - by rewrite <-Hp.
  - intros v d Hd. rewrite <-Hp. by apply Hfront.
  - intros v c' Hin. apply Hheap. by rewrite Hp.
  - by rewrite <-Hp.
  - intros a da v c' Ha Hda Hin. eapply Hord; [done..|]. by rewrite Hp.
Qed.

(** An entry whose codec has a shorter distance by now is dropped. *)
Lemma inv_stale S u c v cv d s h :
  heap s = mkNode v cv :: h → dist s !! v = Some d → d < cv → inv S u c [] s →
  inv S u c [] (mkSearch (dist s) (prev s) h).
Proof.
  intros Hh Hv Hd [Hcount ? ? ? Hfront Hheap Hnd Hord ? ? ? ?]. rewrite Hh in *.
  cbn [length] in Hcount. split; cbn [dist prev heap]; try done; [cbn in *; lia| | | |].
  - intros v' d' Hd'. destruct (Hfront v' d' Hd') as [?|[[= -> ->]|?]%elem_of_cons]; [by left| |by right].
    assert (d = cv) by congruence. lia.
  - intros v' c' Hin. apply Hheap. by right.
  - by inversion Hnd.
  - intros a da v' c' Ha Hda Hin. eapply Hord; [done..|]. by right.
Qed.

(** The least entry settles its codec. *)
Lemma inv_settle S u c v cv s h :
  heap s = mkNode v cv :: h → Forall (λ n, cv ≤ node_cost n) h → v ≠ dst →
  dist s !! v = Some cv → inv S u c [] s →
  inv (v :: S) v cv (edges_of m v) (mkSearch (dist s) (prev s) h).
Proof.
  intros Hh Hmin Hvd Hv [Hcount ? Hwalked ? Hfront Hheap Hnd Hord Hcl Hset ? _]. rewrite Hh in *.
  assert (HvS : v ∉ S).
  { intros HvS. destruct (Hheap v cv) as (d & Hd & _ & Hlt); [by left|]. specialize (Hlt HvS).
    rewrite Hv in Hd. injection Hd as ->. lia. }
  assert (Hall : ∀ n, n ∈ h → cv ≤ node_cost n) by by apply Forall_forall.
  apply NoDup_cons in Hnd as [Hnew Hnd].
  split; cbn [dist prev heap]; try done.
  - cbn [length] in *. pose proof (unscanned_cons S v HvS). lia.
  - intros w d Hd. destruct (Hwalked w d Hd) as (p & Hp & Hl). exists p. split.
    + eapply walked_mono; [exact Hp|done|set_solver].
    + cbn [length]. destruct (decide (w ∈ S)); destruct (decide (w ∈ v :: S)); try lia; set_solver.
  - intros w d Hd. destruct (Hfront w d Hd) as [?|[[= -> ->]|?]%elem_of_cons]; [left; by right|left; by left|by right].
  - intros w c' Hin. destruct (Hheap w c') as (d & Hd & Hle & Hlt); [by right|]. exists d. split_and!; [done..|].
    intros [->|?]%elem_of_cons; [|by apply Hlt]. rewrite Hv in Hd. injection Hd as <-.
    destruct (decide (cv = c')) as [->|]; [done|lia].
  - intros a da w c' Ha Hda Hin. apply elem_of_cons in Ha as [->|Ha].
    + rewrite Hv in Hda. injection Hda as <-. by apply (Hall _ Hin).
    + eapply Hord; [done..|]. by right.
  - intros a e da Ha He Hda. apply elem_of_cons in Ha as [->|Ha]; [by left|].
    destruct (Hcl a e da Ha He Hda) as [[_ Hn]|Hc]; [by apply elem_of_nil in Hn|by right].
  - intros a [->|Ha]%elem_of_cons; [by eexists|by apply Hset].
  - set_solver.
  - intros _. split; [by left|]. split; [done|]. intros a da [->|Ha]%elem_of_cons Hda.
    + rewrite Hv in Hda. injection Hda as ->. done.
    + eapply (Hord a da v cv); [done..|by left].
Qed.

(** While only settled codecs or the heap matter, every chain costs at least the
    least entry, or ends at a settled codec. *)
Lemma chain_lower S u c s bound p v L :
  inv S u c [] s → (∀ w d, mkNode w d ∈ heap s → bound ≤ d) → chain ts src p v L →
  (∃ d, dist s !! v = Some d ∧ d ≤ L ∧ v ∈ S) ∨ (bound ≤ L ∧ heap s ≠ []).
Proof.
  intros Hi Hb Hp.
  assert (Hout : ∀ w d, dist s !! w = Some d → w ∈ S ∨ (bound ≤ d ∧ heap s ≠ [])).
  { intros w d Hd. destruct (i_front _ _ _ _ _ Hi w d Hd) as [?|Hin]; [by left|right].
    split; [by eapply Hb|]. intros E. rewrite E in Hin. by apply elem_of_nil in Hin. }
  induction Hp as [|p i t a L Hp IH Ht Hs].
  - destruct (Hout src 0 (i_src _ _ _ _ _ Hi)) as [?|?]; [left|by right].
    exists 0. split_and!; [apply (i_src _ _ _ _ _ Hi)|lia|done].
  - pose proof (Forall_lookup_1 _ _ _ _ Hcosts Ht) as Hc. cbn in Hc.
    destruct IH as [(d & Hd & Hle & HaS)|[? ?]]; [|right; split; [lia|done]].
    destruct (i_closed _ _ _ _ _ Hi a (mkEdge (tr_dst t) (tr_cost t) i) d HaS) as [[_ Hn]|(dw & Hdw & Hdl)].
    + apply elem_of_edges. by exists i, t.
    + done.
    + by apply elem_of_nil in Hn.
    + cbn in Hdw, Hdl. destruct (Hout _ _ Hdw) as [?|[? ?]].
      * left. exists dw. split_and!; [done|lia|done].
      * right. split; [lia|done].
Qed.

(** What the search has found. *)
Definition found (s : Search) : Prop :=
  (∃ S p d, dist s !! dst = Some d ∧ walked (prev s) S p dst d ∧ (length p ≤ length ts + 1)%nat
     ∧ is_Some (prev s !! dst) ∧ ∀ q L, chain ts src q dst L → d ≤ L)
  ∨ (prev s !! dst = None ∧ ∀ q L, ¬ chain ts src q dst L).

Lemma found_empty S u c s : inv S u c [] s → heap s = [] → found s.
Proof.
  intros Hi Hh. right.
  assert (Hnd : ∀ d, dist s !! dst ≠ Some d).
  { intros d Hd. destruct (i_front _ _ _ _ _ Hi dst d Hd) as [?|Hin]; [by apply (i_dst _ _ _ _ _ Hi)|].
    rewrite Hh in Hin. by apply elem_of_nil in Hin. }
  split.
  - destruct (prev s !! dst) as [x|] eqn:Hp; [|done].
    destruct (i_prev _ _ _ _ _ Hi dst) as [d Hd]; [by rewrite Hp|]. by apply Hnd in Hd.
  - intros q L Hq. destruct (chain_lower _ _ _ _ 0 _ _ _ Hi ltac:(rewrite Hh; set_solver) Hq) as [(d & Hd & _)|[_ ?]];
      [by apply Hnd in Hd|done].
Qed.

Lemma found_dst S u c cv s h :
  heap s = mkNode dst cv :: h → Forall (λ n, cv ≤ node_cost n) h → inv S u c [] s →
  found (mkSearch (dist s) (prev s) h).
Proof.
  intros Hh Hmin Hi. left.
  assert (Hall : ∀ w d, mkNode w d ∈ heap s → cv ≤ d).
  { rewrite Hh. intros w d [[= -> ->]|Hin]%elem_of_cons; [done|]. by rewrite Forall_forall in Hmin; apply (Hmin _ Hin). }
  destruct (i_heap _ _ _ _ _ Hi dst cv) as (d & Hd & Hle & _); [rewrite Hh; by left|].
  assert (d = cv) as ->.
  { destruct (i_front _ _ _ _ _ Hi dst d Hd) as [Hs|Hin]; [by apply (i_dst _ _ _ _ _ Hi) in Hs|].
    specialize (Hall _ _ Hin). lia. }
  destruct (i_walked _ _ _ _ _ Hi dst cv Hd) as (p & Hp & Hl). pose proof (i_count _ _ _ _ _ Hi).
  exists S, p, cv. cbn [dist prev]. split_and!; [done..|lia| |].
  - inversion Hp as [|? ? ? ? ? ? _ E]; [done|by eexists].
  - intros q L Hq. destruct (chain_lower _ _ _ _ cv _ _ _ Hi Hall Hq) as [(_ & _ & _ & Hs)|[? _]]; [|done].
    by apply (i_dst _ _ _ _ _ Hi) in Hs.
Qed.

Lemma search_found fuel : ∀ S u c s,
  inv S u c [] s → (length (heap s) + unscanned S < fuel)%nat →
  ∃ s', search fuel m dst s = Some s' ∧ found s'.
Proof.
  induction fuel as [|fuel IH]; intros S u c s Hi Hf; [lia|]. cbn [search].
  destruct (heap_pop (heap s)) as [[[v cv] h]|] eqn:Hpop.
  2: { apply heap_pop_None in Hpop. exists s. split; [done|]. by eapply found_empty. }
  apply heap_pop_Some in Hpop as [Hperm Hmin]. cbn [node_cost] in Hmin. rewrite Hperm in Hmin, Hf.
  apply (inv_heap_perm _ _ _ _ _ _ Hperm) in Hi. inversion_clear Hmin as [|? ? _ Hmin'].
  destruct (i_heap _ _ _ _ _ Hi v cv) as (d & Hd & Hle & _); [by left|]. cbn [dist] in Hd.
  cbn [length] in Hf. destruct (Z.eqb_spec v dst) as [->|Hv].
  - eexists. split; [done|]. exact (found_dst _ _ _ _ (mkSearch (dist s) (prev s) (mkNode dst cv :: h)) h eq_refl Hmin' Hi).
  - cbn [dist]. rewrite Hd. cbn [from_option id]. destruct (Z.ltb_spec d cv).
    + apply (IH S u c); [|cbn; lia]. exact (inv_stale _ _ _ _ _ _ (mkSearch (dist s) (prev s) (mkNode v cv :: h)) h eq_refl Hd ltac:(lia) Hi).
    + assert (d = cv) as -> by lia.
      pose proof (inv_settle _ _ _ _ _ (mkSearch (dist s) (prev s) (mkNode v cv :: h)) h eq_refl Hmin' Hv Hd Hi) as Hi'. cbn [dist prev] in Hi'.
      assert (HvS : v ∉ S).
      { intros Hs. destruct (i_heap _ _ _ _ _ Hi v cv) as (d & Hd' & _ & Hlt); [by left|].
        specialize (Hlt Hs). cbn in Hd'. assert (d = cv) by congruence. lia. }
      apply inv_relax_all in Hi'; [|done]. apply (IH _ _ _ _ Hi').
      pose proof (length_relax_all v cv (edges_of m v) (mkSearch (dist s) (prev s) h)) as Hh.
      cbn [heap] in Hh. pose proof (unscanned_cons S v HvS). lia.
Qed.
End dijkstra.

Lemma build_path_spec `{HeapOrder} (ts : list Translator) (src dst C : Z) :
  Forall (λ t, 0 ≤ tr_cost t ≤ C) ts → C * (Z.of_nat (length ts) + 2) < u32_max →
  ∃ r, build_path (register_all ts) src dst = Some (Done r)
    ∧ match r with
      | Ok p => chain ts src (steps p) dst (total_cost p)
                ∧ ∀ q L, chain ts src q dst L → total_cost p ≤ L
      | Err e => e = NoPath src dst ∧ ∀ q L, ¬ chain ts src q dst L
      end.
Proof.
  intros Hc Hf. unfold build_path. destruct (Z.eqb_spec src dst) as [->|Hne].
  { eexists. split; [done|]. cbn. split; [constructor|]. intros q L Hq.
    induction Hq as [|p i t u d Hp IH Ht Hs]; [lia|].
    apply (Forall_lookup_1 _ _ _ _ Hc) in Ht. cbn in Ht. lia. }
  destruct (search_found ts src dst C Hc Hf Hne (search_fuel (register_all ts)) [] src 0
    (mkSearch {[src := 0]} ∅ [mkNode src 0])) as (s & Hs & Hfound).
  { by eapply inv_start. }
  { cbn. unfold unscanned, search_fuel. rewrite register_all_translators.
    pose proof (length_filter (λ t, tr_src t ∉ []) ts). lia. }
  rewrite Hs. cbn [mbind option_bind].
  destruct Hfound as [(S & p & d & Hd & Hw & Hl & [x Hx] & Hmin)|[Hx Hno]]; rewrite Hx.
  - assert (Hwalk : walk (search_fuel (register_all ts)) (prev s) src dst [] = Some (Done (p ++ []))).
    { rewrite <-reverse_nil. eapply (walk_walked ts src); [exact Hw|].
      unfold search_fuel. rewrite register_all_translators. lia. }
    rewrite Hwalk, app_nil_r. cbn [option_bind outcome_bind]. eexists. split; [done|].
    cbn [steps total_cost]. rewrite Hd. split; [by eapply walked_chain|exact Hmin].
  - eexists. split; [done|]. split; [done|exact Hno].
Qed.

(** ** Theorems *)

(** C29: the search finds the cheapest path.  For every list of registered
    translators whose costs do not overflow when added up, every pair of codecs
    and every order in which the heap breaks ties, [build_path] ends without a
    panic.  A path it returns is a chain of registered translators from the
    source to the destination, at the cost it states, and no chain costs less; it
    returns [NoPath] exactly when there is no chain at all. *)
Theorem build_path_cheapest `{HeapOrder} (ts : list Translator) (src dst C : Z) :
  Forall (λ t, 0 ≤ tr_cost t ≤ C) ts → C * (Z.of_nat (length ts) + 2) < u32_max →
  ∃ r, build_path (register_all ts) src dst = Some (Done r)
    ∧ match r with
      | Ok p => chain ts src (steps p) dst (total_cost p)
                ∧ ∀ q L, chain ts src q dst L → total_cost p ≤ L
      | Err e => e = NoPath src dst ∧ ∀ q L, ¬ chain ts src q dst L
      end.
Proof. apply build_path_spec. Qed.

(** ** A heap that keeps a list *)

Fixpoint min_pop (h : list DijkstraNode) : option (DijkstraNode * list DijkstraNode) :=
  match h with
  | [] => None
  | n :: h' =>
      match min_pop h' with
      | None => Some (n, [])
      | Some (m, r) => if node_cost n <=? node_cost m then Some (n, h') else Some (m, n :: r)
      end
  end.

Lemma min_pop_None h : min_pop h = None ↔ h = [].
Proof. destruct h as [|n h]; [done|]. cbn. split; [|done]. by repeat case_match. Qed.

Lemma min_pop_Some h : ∀ n h',
  min_pop h = Some (n, h') → h ≡ₚ n :: h' ∧ Forall (λ m, node_cost n ≤ node_cost m) h.
Proof.
  induction h as [|n h IH]; [done|]. intros m h'. cbn.
  destruct (min_pop h) as [[k r]|] eqn:E.
  - destruct (IH k r eq_refl) as [Hp Hf]. destruct (Z.leb_spec (node_cost n) (node_cost k)); intros [= <- <-].
    + split; [done|]. constructor; [lia|]. eapply Forall_impl; [exact Hf|]. cbn. lia.
    + split; [rewrite Hp; apply Permutation_swap|]. constructor; [lia|done].
  - apply min_pop_None in E as ->. intros [= <- <-]. split; [done|]. constructor; [lia|constructor].
Qed.

Definition list_heap : HeapOrder :=
  {| heap_pop := min_pop; heap_pop_None := min_pop_None; heap_pop_Some := min_pop_Some |}.

(** A translator that passes frames through. *)
Definition relay (src dst cost : Z) : Translator :=
  mkTranslator [] src dst cost (option Frame) None
    (λ _ f, Done (Ok (), Some f)) (λ s, Done (s, None)).

Lemma build_path_cheapest_witness :
  let ts := [relay 1 3 10; relay 1 2 5; relay 2 3 1; relay 3 1 2] in
  @build_path list_heap (register_all ts) 1 3 = Some (Done (Ok (mkPath [1; 2]%nat 6)))
  ∧ (∀ q L, chain ts 1 q 3 L → 6 ≤ L)
  ∧ @build_path list_heap (register_all ts) 2 4 = Some (Done (Err (NoPath 2 4)))
  ∧ ∀ q L, ¬ chain ts 2 q 4 L.
Proof.
  intros ts.
  assert (Hc : Forall (λ t, 0 ≤ tr_cost t ≤ 10) ts) by (repeat constructor; cbn; lia).
  assert (Hf : 10 * (Z.of_nat (length ts) + 2) < u32_max) by (vm_compute; reflexivity).
  assert (E1 : @build_path list_heap (register_all ts) 1 3 = Some (Done (Ok (mkPath [1; 2]%nat 6)))) by (vm_compute; reflexivity).
  assert (E2 : @build_path list_heap (register_all ts) 2 4 = Some (Done (Err (NoPath 2 4)))) by (vm_compute; reflexivity).
  destruct (@build_path_cheapest list_heap ts 1 3 10 Hc Hf) as (r & Hr & Hp). rewrite E1 in Hr. injection Hr as <-.
  destruct (@build_path_cheapest list_heap ts 2 4 10 Hc Hf) as (r & Hr & Hn). rewrite E2 in Hr. injection Hr as <-.
  exact (conj E1 (conj (proj2 Hp) (conj E2 (proj2 Hn)))).
Defined.
