(* ===== verification/G711.v ===== *)
(** * G.711 ([asterisk-codecs/src/ulaw_table.rs], [alaw_table.rs])

    The decoding tables and the encoders of mu-law and A-law.  Samples are [i16]
    and codes [u8], as integers.

    The theorems: the two mu-law encoders agree; every code but negative zero
    survives decoding and encoding; mu-law is within half a step of the sample,
    clipped at 32635;
    A-law chooses the nearest value; both are monotone. *)

From Stdlib Require Import ZArith.
From S2P Require Import Prelude.
Local Open Scope Z_scope.
Local Open Scope list_scope.

#[local] Ltac Zify.zify_post_hook ::= Z.to_euclidean_division_equations.

Definition is_i16 (x : Z) : Prop := - 2 ^ 15 ≤ x < 2 ^ 15.

Definition MULAW_TO_LINEAR : list Z := [
  -32124; -31100; -30076; -29052; -28028; -27004; -25980; -24956; -23932; -22908; -21884; -20860; -19836; -18812; -17788; -16764;
  -15996; -15484; -14972; -14460; -13948; -13436; -12924; -12412; -11900; -11388; -10876; -10364; -9852; -9340; -8828; -8316;
  -7932; -7676; -7420; -7164; -6908; -6652; -6396; -6140; -5884; -5628; -5372; -5116; -4860; -4604; -4348; -4092;
  -3900; -3772; -3644; -3516; -3388; -3260; -3132; -3004; -2876; -2748; -2620; -2492; -2364; -2236; -2108; -1980;
  -1884; -1820; -1756; -1692; -1628; -1564; -1500; -1436; -1372; -1308; -1244; -1180; -1116; -1052; -988; -924;
  -876; -844; -812; -780; -748; -716; -684; -652; -620; -588; -556; -524; -492; -460; -428; -396;
  -372; -356; -340; -324; -308; -292; -276; -260; -244; -228; -212; -196; -180; -164; -148; -132;
  -120; -112; -104; -96; -88; -80; -72; -64; -56; -48; -40; -32; -24; -16; -8; 0;
  32124; 31100; 30076; 29052; 28028; 27004; 25980; 24956; 23932; 22908; 21884; 20860; 19836; 18812; 17788; 16764;
  15996; 15484; 14972; 14460; 13948; 13436; 12924; 12412; 11900; 11388; 10876; 10364; 9852; 9340; 8828; 8316;
  7932; 7676; 7420; 7164; 6908; 6652; 6396; 6140; 5884; 5628; 5372; 5116; 4860; 4604; 4348; 4092;
  3900; 3772; 3644; 3516; 3388; 3260; 3132; 3004; 2876; 2748; 2620; 2492; 2364; 2236; 2108; 1980;
  1884; 1820; 1756; 1692; 1628; 1564; 1500; 1436; 1372; 1308; 1244; 1180; 1116; 1052; 988; 924;
  876; 844; 812; 780; 748; 716; 684; 652; 620; 588; 556; 524; 492; 460; 428; 396;
  372; 356; 340; 324; 308; 292; 276; 260; 244; 228; 212; 196; 180; 164; 148; 132;
  120; 112; 104; 96; 88; 80; 72; 64; 56; 48; 40; 32; 24; 16; 8; 0
].

Definition EXP_LUT : list Z := [
  0; 0; 1; 1; 2; 2; 2; 2; 3; 3; 3; 3; 3; 3; 3; 3;
  4; 4; 4; 4; 4; 4; 4; 4; 4; 4; 4; 4; 4; 4; 4; 4;
  5; 5; 5; 5; 5; 5; 5; 5; 5; 5; 5; 5; 5; 5; 5; 5;
  5; 5; 5; 5; 5; 5; 5; 5; 5; 5; 5; 5; 5; 5; 5; 5;
  6; 6; 6; 6; 6; 6; 6; 6; 6; 6; 6; 6; 6; 6; 6; 6;
  6; 6; 6; 6; 6; 6; 6; 6; 6; 6; 6; 6; 6; 6; 6; 6;
  6; 6; 6; 6; 6; 6; 6; 6; 6; 6; 6; 6; 6; 6; 6; 6;
  6; 6; 6; 6; 6; 6; 6; 6; 6; 6; 6; 6; 6; 6; 6; 6;
  7; 7; 7; 7; 7; 7; 7; 7; 7; 7; 7; 7; 7; 7; 7; 7;
  7; 7; 7; 7; 7; 7; 7; 7; 7; 7; 7; 7; 7; 7; 7; 7;
  7; 7; 7; 7; 7; 7; 7; 7; 7; 7; 7; 7; 7; 7; 7; 7;
  7; 7; 7; 7; 7; 7; 7; 7; 7; 7; 7; 7; 7; 7; 7; 7;
  7; 7; 7; 7; 7; 7; 7; 7; 7; 7; 7; 7; 7; 7; 7; 7;
  7; 7; 7; 7; 7; 7; 7; 7; 7; 7; 7; 7; 7; 7; 7; 7;
  7; 7; 7; 7; 7; 7; 7; 7; 7; 7; 7; 7; 7; 7; 7; 7;
  7; 7; 7; 7; 7; 7; 7; 7; 7; 7; 7; 7; 7; 7; 7; 7
].

Definition ALAW_TO_LINEAR : list Z := [
  -5504; -5248; -6016; -5760; -4480; -4224; -4992; -4736; -7552; -7296; -8064; -7808; -6528; -6272; -7040; -6784;
  -2752; -2624; -3008; -2880; -2240; -2112; -2496; -2368; -3776; -3648; -4032; -3904; -3264; -3136; -3520; -3392;
  -22016; -20992; -24064; -23040; -17920; -16896; -19968; -18944; -30208; -29184; -32256; -31232; -26112; -25088; -28160; -27136;
  -11008; -10496; -12032; -11520; -8960; -8448; -9984; -9472; -15104; -14592; -16128; -15616; -13056; -12544; -14080; -13568;
  -344; -328; -376; -360; -280; -264; -312; -296; -472; -456; -504; -488; -408; -392; -440; -424;
  -88; -72; -120; -104; -24; -8; -56; -40; -216; -200; -248; -232; -152; -136; -184; -168;
  -1376; -1312; -1504; -1440; -1120; -1056; -1248; -1184; -1888; -1824; -2016; -1952; -1632; -1568; -1760; -1696;
  -688; -656; -752; -720; -560; -528; -624; -592; -944; -912; -1008; -976; -816; -784; -880; -848;
  5504; 5248; 6016; 5760; 4480; 4224; 4992; 4736; 7552; 7296; 8064; 7808; 6528; 6272; 7040; 6784;
  2752; 2624; 3008; 2880; 2240; 2112; 2496; 2368; 3776; 3648; 4032; 3904; 3264; 3136; 3520; 3392;
  22016; 20992; 24064; 23040; 17920; 16896; 19968; 18944; 30208; 29184; 32256; 31232; 26112; 25088; 28160; 27136;
  11008; 10496; 12032; 11520; 8960; 8448; 9984; 9472; 15104; 14592; 16128; 15616; 13056; 12544; 14080; 13568;
  344; 328; 376; 360; 280; 264; 312; 296; 472; 456; 504; 488; 408; 392; 440; 424;
  88; 72; 120; 104; 24; 8; 56; 40; 216; 200; 248; 232; 152; 136; 184; 168;
  1376; 1312; 1504; 1440; 1120; 1056; 1248; 1184; 1888; 1824; 2016; 1952; 1632; 1568; 1760; 1696;
  688; 656; 752; 720; 560; 528; 624; 592; 944; 912; 1008; 976; 816; 784; 880; 848
].

(** ** mu-law *)

Definition BIAS : Z := 132.
Definition CLIP : Z := 32635.

(** [!(sign | (exponent << 4) | mantissa) as u8] *)
Definition mulaw_byte (sign exponent mantissa : Z) : Z :=
  Z.land (Z.lnot (Z.lor (Z.lor sign (Z.shiftl exponent 4)) mantissa)) 255.

Definition linear_to_mulaw (sample : Z) : Z :=
  let sign := Z.land (Z.shiftr sample 8) 128 in
  let sample := if negb (sign =? 0) then - sample else sample in
  let sample := if CLIP <? sample then CLIP else sample in
  let sample := sample + BIAS in
  let exponent := nth (Z.to_nat (Z.land (Z.shiftr sample 7) 255)) EXP_LUT 0 in
  let mantissa := Z.land (Z.shiftr sample (exponent + 3)) 15 in
  mulaw_byte sign exponent mantissa.

Definition mulaw_to_linear (mulaw : Z) : Z := nth (Z.to_nat mulaw) MULAW_TO_LINEAR 0.

(** The ranges of the [match], for a value that is not negative. *)
Definition mulaw_exponent (pcm_val : Z) : Z :=
  if pcm_val <=? 255 then 0 else if pcm_val <=? 511 then 1 else if pcm_val <=? 1023 then 2
  else if pcm_val <=? 2047 then 3 else if pcm_val <=? 4095 then 4 else if pcm_val <=? 8191 then 5
  else if pcm_val <=? 16383 then 6 else 7.

Definition linear_to_mulaw_fast (sample : Z) : Z :=
  let (pcm_val, sign) := if sample <? 0 then (- sample, 128) else (sample, 0) in
  let pcm_val := if CLIP <? pcm_val then CLIP else pcm_val in
  let pcm_val := pcm_val + BIAS in
  let exponent := mulaw_exponent pcm_val in
  let mantissa := Z.land (Z.shiftr pcm_val (exponent + 3)) 15 in
  mulaw_byte sign exponent mantissa.

(** ** A-law *)

Definition alaw_to_linear (alaw : Z) : Z := nth (Z.to_nat alaw) ALAW_TO_LINEAR 0.

(** The loop over the codes from [code] on, with the best code so far. *)
Fixpoint alaw_search (n : nat) (sample code best_alaw best_diff : Z) : Z :=
  match n with
  | O => best_alaw
  | S n' =>
      let diff := Z.abs (sample - alaw_to_linear code) in
      if diff <? best_diff then
        if diff =? 0 then code else alaw_search n' sample (code + 1) code diff
      else alaw_search n' sample (code + 1) best_alaw best_diff
  end.

Definition linear_to_alaw_fast (sample : Z) : Z :=
  alaw_search 128 sample (if 0 <=? sample then 128 else 0) 0 i32_max.
Definition linear_to_alaw (sample : Z) : Z := linear_to_alaw_fast sample.

(** ** Lemmas: mu-law *)

Definition segment_value (sign e m : Z) : Z :=
  let v := (2 * m + 33) * 2 ^ (e + 2) - BIAS in if sign =? 0 then v else - v.

Lemma mulaw_codes_check :
  forallb (λ n, let k := Z.of_nat n in
    let s := k / 128 * 128 in let e := k / 16 mod 8 in let m := k mod 16 in
    (mulaw_byte s e m =? 255 - k) && (mulaw_to_linear (255 - k) =? segment_value s e m)) (seq 0 256) = true.
Proof. vm_compute. reflexivity. Qed.

(** The code of a segment and step, and what it stands for. *)
Lemma mulaw_code s e m :
  s = 0 ∨ s = 128 → 0 ≤ e < 8 → 0 ≤ m < 16 →
  mulaw_byte s e m = 255 - (s + 16 * e + m)
  ∧ mulaw_to_linear (mulaw_byte s e m) = segment_value s e m.
Proof.
  intros Hs He Hm. pose proof mulaw_codes_check as Hc. rewrite forallb_forall in Hc.
  specialize (Hc (Z.to_nat (s + 16 * e + m)) ltac:(apply in_seq; lia)). cbv beta zeta in Hc.
  rewrite Z2Nat.id in Hc by lia.
  replace ((s + 16 * e + m) / 128 * 128) with s in Hc by (destruct Hs as [->| ->]; lia).
  replace ((s + 16 * e + m) / 16 mod 8) with e in Hc by (destruct Hs as [->| ->]; lia).
  replace ((s + 16 * e + m) mod 16) with m in Hc by (destruct Hs as [->| ->]; lia).
  apply andb_true_iff in Hc as [H1%Z.eqb_eq H2%Z.eqb_eq]. by rewrite H1.
Qed.

(** The segment of a biased magnitude. *)
Lemma mulaw_exponent_range p :
  128 ≤ p < 2 ^ 15 → 0 ≤ mulaw_exponent p < 8 ∧ 2 ^ (mulaw_exponent p + 7) ≤ p < 2 ^ (mulaw_exponent p + 8).
Proof.
  intros Hp. unfold mulaw_exponent.
  repeat match goal with |- context [?a <=? ?b] => destruct (Z.leb_spec a b) end;
    (split; [lia|]); cbn; lia.
Qed.

(** The step within the segment. *)
Lemma mulaw_mantissa p e :
  0 ≤ e → 2 ^ (e + 7) ≤ p < 2 ^ (e + 8) →
  Z.land (Z.shiftr p (e + 3)) 15 = p / 2 ^ (e + 3) - 16 ∧ 16 ≤ p / 2 ^ (e + 3) < 32.
Proof.
  intros He Hp. assert (Hq : 16 ≤ p / 2 ^ (e + 3) < 32).
  { split; [apply Z.div_le_lower_bound|apply Z.div_lt_upper_bound]; try apply Z.pow_pos_nonneg; try lia.
    - replace (2 ^ (e + 3) * 16) with (2 ^ (e + 7)); [lia|].
      replace (e + 7) with ((e + 3) + 4) by lia. rewrite Z.pow_add_r by lia. done.
    - replace (2 ^ (e + 3) * 32) with (2 ^ (e + 8)); [lia|].
      replace (e + 8) with ((e + 3) + 5) by lia. rewrite Z.pow_add_r by lia. done. }
  split; [|done]. rewrite Z.shiftr_div_pow2 by lia. change 15 with (Z.ones 4). rewrite Z.land_ones by lia. lia.
Qed.

(** The magnitude that is coded, with its sign. *)
Definition clipped (x : Z) : Z := Z.min (Z.abs x) CLIP + BIAS.
Definition sign_bit (x : Z) : Z := if x <? 0 then 128 else 0.

Lemma clipped_range x : 128 ≤ clipped x < 2 ^ 15.
Proof. unfold clipped, CLIP, BIAS. lia. Qed.

(** Both encoders give the code of the segment and step of the magnitude. *)
Definition mulaw_code_of (x : Z) : Z :=
  let e := mulaw_exponent (clipped x) in
  mulaw_byte (sign_bit x) e (clipped x / 2 ^ (e + 3) - 16).

Lemma fast_code x : linear_to_mulaw_fast x = mulaw_code_of x.
Proof.
  unfold linear_to_mulaw_fast, mulaw_code_of, sign_bit.
  assert (E : (if x <? 0 then (- x, 128) else (x, 0)) = (Z.abs x, if x <? 0 then 128 else 0))
    by (destruct (Z.ltb_spec x 0); f_equal; lia).
  rewrite E. assert (E2 : (if CLIP <? Z.abs x then CLIP else Z.abs x) + BIAS = clipped x)
    by (unfold clipped; destruct (Z.ltb_spec CLIP (Z.abs x)); lia).
  rewrite E2. destruct (mulaw_exponent_range (clipped x) (clipped_range x)) as [He Hp].
  by rewrite (proj1 (mulaw_mantissa _ _ (proj1 He) Hp)).
Qed.

Lemma sign_check :
  forallb (λ n, let k := Z.of_nat n - 128 in Z.land k 128 =? if k <? 0 then 128 else 0) (seq 0 256) = true.
Proof. vm_compute. reflexivity. Qed.

Lemma sign_of_i16 x : is_i16 x → Z.land (Z.shiftr x 8) 128 = sign_bit x.
Proof.
  intros Hx. unfold is_i16 in Hx. pose proof sign_check as Hc. rewrite forallb_forall in Hc.
  rewrite Z.shiftr_div_pow2 by lia. unfold sign_bit. set (k := x / 2 ^ 8).
  assert (Hk : -128 ≤ k < 128) by (unfold k; lia).
  specialize (Hc (Z.to_nat (k + 128)) ltac:(apply in_seq; lia)). cbv beta zeta in Hc.
  rewrite Z2Nat.id in Hc by lia. replace (k + 128 - 128) with k in Hc by lia.
  apply Z.eqb_eq in Hc. rewrite Hc. destruct (Z.ltb_spec k 0), (Z.ltb_spec x 0); unfold k in *; lia.
Qed.

Lemma lut_check :
  forallb (λ n, nth n EXP_LUT 0 =? mulaw_exponent (128 * Z.of_nat n)) (seq 0 256) = true.
Proof. vm_compute. reflexivity. Qed.

Lemma lut_exponent p :
  0 ≤ p < 2 ^ 15 → nth (Z.to_nat (Z.land (Z.shiftr p 7) 255)) EXP_LUT 0 = mulaw_exponent p.
Proof.
  intros Hp. pose proof lut_check as Hc. rewrite forallb_forall in Hc.
  rewrite Z.shiftr_div_pow2 by lia. change 255 with (Z.ones 8). rewrite Z.land_ones by lia.
  rewrite Z.mod_small by lia. specialize (Hc (Z.to_nat (p / 2 ^ 7)) ltac:(apply in_seq; lia)).
  apply Z.eqb_eq in Hc. rewrite Hc, Z2Nat.id by lia. unfold mulaw_exponent.
  repeat match goal with |- context [?a <=? ?b] => destruct (Z.leb_spec a b) end; lia.
Qed.

Lemma table_code x : is_i16 x → linear_to_mulaw x = mulaw_code_of x.
Proof.
  intros Hx. unfold linear_to_mulaw, mulaw_code_of. rewrite sign_of_i16 by done.
  assert (E : (let s := if negb (sign_bit x =? 0) then - x else x in
               (if CLIP <? s then CLIP else s) + BIAS) = clipped x).
  { unfold clipped, sign_bit. unfold is_i16 in Hx. cbv zeta.
    destruct (Z.ltb_spec x 0); cbn [Z.eqb negb];
      match goal with |- context [CLIP <? ?a] => destruct (Z.ltb_spec CLIP a) end; unfold CLIP in *; lia. }
  cbv zeta in E |- *. rewrite E. pose proof (clipped_range x).
  rewrite lut_exponent by lia. destruct (mulaw_exponent_range (clipped x) (clipped_range x)) as [He Hp].
  by rewrite (proj1 (mulaw_mantissa _ _ (proj1 He) Hp)).
Qed.

(** What comes out of coding and decoding. *)
Lemma mulaw_decoded x :
  let e := mulaw_exponent (clipped x) in let q := clipped x / 2 ^ (e + 3) in
  mulaw_to_linear (linear_to_mulaw_fast x)
  = if x <? 0 then - ((2 * q + 1) * 2 ^ (e + 2) - BIAS) else (2 * q + 1) * 2 ^ (e + 2) - BIAS.
Proof.
  intros e q. rewrite fast_code. unfold mulaw_code_of. fold e q.
  destruct (mulaw_exponent_range (clipped x) (clipped_range x)) as [He Hp]. fold e in He, Hp.
  destruct (mulaw_mantissa _ _ (proj1 He) Hp) as [_ Hq]. fold q in Hq.
  rewrite (proj2 (mulaw_code (sign_bit x) e (q - 16) ltac:(unfold sign_bit; destruct (x <? 0); lia) He ltac:(lia))).
  unfold segment_value, sign_bit. replace (2 * (q - 16) + 33) with (2 * q + 1) by lia.
  by destruct (x <? 0).
Qed.

(** The distance to the middle of the step. *)
Lemma step_error p e : 0 ≤ e → Z.abs (p - (2 * (p / 2 ^ (e + 3)) + 1) * 2 ^ (e + 2)) ≤ 2 ^ (e + 2).
Proof.
  intros He. assert (E : 2 ^ (e + 3) = 2 * 2 ^ (e + 2)).
  { replace (e + 3) with (1 + (e + 2)) by lia. by rewrite Z.pow_add_r by lia. }
  pose proof (Z.div_mod p (2 ^ (e + 3))). pose proof (Z.mod_pos_bound p (2 ^ (e + 3))).
  pose proof (Z.pow_pos_nonneg 2 (e + 2)). nia.
Qed.

(** The middles are monotone. *)
Lemma mulaw_middle_mono p p' :
  128 ≤ p ≤ p' → p' < 2 ^ 15 →
  let mid p := (2 * (p / 2 ^ (mulaw_exponent p + 3)) + 1) * 2 ^ (mulaw_exponent p + 2) in
  132 ≤ mid p ≤ mid p'.
Proof.
  intros Hp Hp' mid. unfold mid, mulaw_exponent.
  repeat match goal with |- context [?a <=? ?b] => destruct (Z.leb_spec a b) end; try lia; cbn -[Z.div Z.mul]; try lia.
Qed.

(** ** Lemmas: A-law *)

(** The search keeps the best code seen. *)
Lemma alaw_search_best n : ∀ x code best,
  let r := alaw_search n x code best (Z.abs (x - alaw_to_linear best)) in
  (r = best ∨ code ≤ r < code + Z.of_nat n)
  ∧ Z.abs (x - alaw_to_linear r) ≤ Z.abs (x - alaw_to_linear best)
  ∧ ∀ c, code ≤ c < code + Z.of_nat n → Z.abs (x - alaw_to_linear r) ≤ Z.abs (x - alaw_to_linear c).
Proof.
  induction n as [|n IH]; intros x code best; cbn [alaw_search]; [split_and!; [by left|lia|lia]|].
  destruct (Z.ltb_spec (Z.abs (x - alaw_to_linear code)) (Z.abs (x - alaw_to_linear best))).
  - destruct (Z.eqb_spec (Z.abs (x - alaw_to_linear code)) 0) as [E|E].
    { split_and!; [right; lia|lia|intros; lia]. }
    destruct (IH x (code + 1) code) as (H1 & H2 & H3). split_and!; [lia|lia|].
    intros c Hc. destruct (decide (c = code)) as [->|]; [lia|]. apply H3. lia.
  - destruct (IH x (code + 1) best) as (H1 & H2 & H3). split_and!; [lia|lia|].
    intros c Hc. destruct (decide (c = code)) as [->|]; [lia|]. apply H3. lia.
Qed.

Lemma alaw_sign_check :
  forallb (λ n, let v := nth n ALAW_TO_LINEAR 0 in
    if (n <? 128)%nat then (-32768 <? v) && (v <=? -8) else (8 <=? v) && (v <? 32768)) (seq 0 256) = true.
Proof. vm_compute. reflexivity. Qed.

Lemma alaw_sign c :
  0 ≤ c < 256 →
  if decide (c < 128) then -32768 < alaw_to_linear c ≤ -8 else 8 ≤ alaw_to_linear c < 32768.
Proof.
  intros Hc. pose proof alaw_sign_check as Hk. rewrite forallb_forall in Hk.
  specialize (Hk (Z.to_nat c) ltac:(apply in_seq; lia)). cbv beta zeta in Hk. unfold alaw_to_linear.
  destruct (Nat.ltb_spec (Z.to_nat c) 128); case_decide; try lia.
Qed.

Lemma alaw_search_start n x code :
  Z.abs (x - alaw_to_linear code) < i32_max →
  let r := alaw_search (S n) x code 0 i32_max in
  code ≤ r < code + Z.of_nat (S n)
  ∧ ∀ c, code ≤ c < code + Z.of_nat (S n) → Z.abs (x - alaw_to_linear r) ≤ Z.abs (x - alaw_to_linear c).
Proof.
  intros Hb. cbn [alaw_search].
  destruct (Z.ltb_spec (Z.abs (x - alaw_to_linear code)) i32_max); [|lia].
  destruct (Z.eqb_spec (Z.abs (x - alaw_to_linear code)) 0); [split; [lia|intros; lia]|].
  destruct (alaw_search_best n x (code + 1) code) as (H1 & H2 & H3). split; [lia|].
  intros c Hc. destruct (decide (c = code)) as [->|]; [lia|]. apply H3. lia.
Qed.

Lemma alaw_search_half x code :
  code = 0 ∨ code = 128 → is_i16 x →
  let r := alaw_search 128 x code 0 i32_max in
  code ≤ r < code + 128
  ∧ ∀ c, code ≤ c < code + 128 → Z.abs (x - alaw_to_linear r) ≤ Z.abs (x - alaw_to_linear c).
Proof.
  intros Hcode Hx. pose proof (alaw_sign code ltac:(lia)) as Hs. unfold is_i16 in Hx.
  apply (alaw_search_start 127). unfold i32_max. case_decide; lia.
Qed.

Lemma alaw_nearest x c :
  is_i16 x → 0 ≤ c < 256 →
  Z.abs (x - alaw_to_linear (linear_to_alaw_fast x)) ≤ Z.abs (x - alaw_to_linear c).
Proof.
  intros Hx Hc. unfold linear_to_alaw_fast. pose proof (alaw_sign c Hc) as Hs.
  assert (E85 : alaw_to_linear 85 = -8) by reflexivity.
  assert (E213 : alaw_to_linear 213 = 8) by reflexivity.
  destruct (Z.leb_spec 0 x).
  - destruct (alaw_search_half x 128 ltac:(by right) Hx) as [_ Hr]. specialize (Hr 213 ltac:(lia)) as H8.
    case_decide; [lia|]. apply Hr. lia.
  - destruct (alaw_search_half x 0 ltac:(by left) Hx) as [_ Hr]. specialize (Hr 85 ltac:(lia)) as H8.
    case_decide; [apply Hr; lia|lia].
Qed.

Lemma alaw_code_range x : is_i16 x → 0 ≤ linear_to_alaw_fast x < 256.
Proof.
  intros Hx. unfold linear_to_alaw_fast. destruct (Z.leb_spec 0 x).
  - destruct (alaw_search_half x 128 ltac:(by right) Hx) as [? _]. lia.
  - destruct (alaw_search_half x 0 ltac:(by left) Hx) as [? _]. lia.
Qed.

Lemma codes_check :
  forallb (λ n, let c := Z.of_nat n in
    (linear_to_mulaw_fast (mulaw_to_linear c) =? if c =? 127 then 255 else c)
    && (linear_to_alaw_fast (alaw_to_linear c) =? c)) (seq 0 256) = true.
Proof. vm_compute. reflexivity. Qed.

Lemma codes_survive c :
  0 ≤ c < 256 →
  linear_to_mulaw_fast (mulaw_to_linear c) = (if c =? 127 then 255 else c)
  ∧ linear_to_alaw_fast (alaw_to_linear c) = c.
Proof.
  intros Hc. pose proof codes_check as Hk. rewrite forallb_forall in Hk.
  specialize (Hk (Z.to_nat c) ltac:(apply in_seq; lia)). cbv beta zeta in Hk.
  rewrite Z2Nat.id in Hk by lia. by apply andb_true_iff in Hk as [?%Z.eqb_eq ?%Z.eqb_eq].
Qed.

Lemma mulaw_monotone x y :
  x ≤ y → mulaw_to_linear (linear_to_mulaw_fast x) ≤ mulaw_to_linear (linear_to_mulaw_fast y).
Proof.
  intros Hxy. rewrite !mulaw_decoded. pose proof (clipped_range x). pose proof (clipped_range y).
  destruct (Z.ltb_spec x 0), (Z.ltb_spec y 0).
  - pose proof (mulaw_middle_mono (clipped y) (clipped x) ltac:(unfold clipped in *; lia) ltac:(lia)) as Hm.
    cbv zeta in Hm |- *. lia.
  - pose proof (mulaw_middle_mono (clipped x) (clipped x) ltac:(lia) ltac:(lia)) as Hmx.
    pose proof (mulaw_middle_mono (clipped y) (clipped y) ltac:(lia) ltac:(lia)) as Hmy.
    cbv zeta in Hmx, Hmy |- *. unfold BIAS in *. lia.
  - lia.
  - pose proof (mulaw_middle_mono (clipped x) (clipped y) ltac:(unfold clipped in *; lia) ltac:(lia)) as Hm.
    cbv zeta in Hm |- *. lia.
Qed.

(** ** Theorems *)

(** The step of a sample's mu-law segment is twice this. *)
Definition mulaw_half_step (x : Z) : Z := 2 ^ (mulaw_exponent (clipped x) + 2).
(** The loudest sample there is a code for takes the place of louder ones. *)
Definition clip_sample (x : Z) : Z := Z.max (-32635) (Z.min 32635 x).

(** C3: G.711 quantises as it should.  For every 16-bit sample the table-driven
    mu-law encoder and the fast one give the same code, which decodes to within
    half a step of the sample, a sample louder than 32635 being taken for 32635; the A-law
    encoder chooses a code whose value no other code's value is nearer to.  Every
    code is the code of its own value, but for the negative zero 127 of mu-law,
    and both codings preserve the order of samples. *)
Theorem g711_quantization :
  (∀ x, is_i16 x →
     linear_to_mulaw x = linear_to_mulaw_fast x
     ∧ Z.abs (clip_sample x - mulaw_to_linear (linear_to_mulaw_fast x)) ≤ mulaw_half_step x
     ∧ 0 ≤ linear_to_alaw x < 256
     ∧ ∀ c, 0 ≤ c < 256 →
         Z.abs (x - alaw_to_linear (linear_to_alaw x)) ≤ Z.abs (x - alaw_to_linear c))
  ∧ (∀ c, 0 ≤ c < 256 →
       linear_to_mulaw (mulaw_to_linear c) = (if c =? 127 then 255 else c)
       ∧ linear_to_alaw (alaw_to_linear c) = c)
  ∧ ∀ x y, is_i16 x → is_i16 y → x ≤ y →
      mulaw_to_linear (linear_to_mulaw x) ≤ mulaw_to_linear (linear_to_mulaw y)
      ∧ alaw_to_linear (linear_to_alaw x) ≤ alaw_to_linear (linear_to_alaw y).
Proof.
  assert (Heq : ∀ x, is_i16 x → linear_to_mulaw x = linear_to_mulaw_fast x)
    by (intros; by rewrite fast_code, table_code).
  split_and!.
  - intros x Hx. split; [by apply Heq|]. split; [|split; [by apply alaw_code_range|by intros; apply alaw_nearest]].
    rewrite mulaw_decoded. unfold mulaw_half_step. set (e := mulaw_exponent (clipped x)).
    destruct (mulaw_exponent_range (clipped x) (clipped_range x)) as [He _].
    pose proof (step_error (clipped x) e (proj1 He)). unfold clip_sample, clipped, CLIP, BIAS in *. destruct (Z.ltb_spec x 0); lia.
  - intros c Hc. destruct (codes_survive c Hc) as [H1 H2]. split; [|exact H2]. rewrite Heq; [done|].
    assert (Hv : forallb (λ v, (-32768 <=? v) && (v <? 32768)) MULAW_TO_LINEAR = true) by (vm_compute; reflexivity).
    rewrite forallb_forall in Hv. unfold is_i16, mulaw_to_linear.
    specialize (Hv (nth (Z.to_nat c) MULAW_TO_LINEAR 0) ltac:(apply nth_In; change (length _) with 256%nat; lia)).
    lia.
  - intros x y Hx Hy Hxy. rewrite !Heq by done. split; [by apply mulaw_monotone|].
    unfold linear_to_alaw. pose proof (alaw_nearest x _ Hx (alaw_code_range y Hy)).
    pose proof (alaw_nearest y _ Hy (alaw_code_range x Hx)). destruct (decide (x = y)) as [->|]; lia.
Qed.

(** Samples of a loud and a soft tone. *)
Lemma g711_quantization_witness :
  is_i16 (-20000) ∧ linear_to_mulaw (-20000) = 12 ∧ mulaw_half_step (-20000) = 512
  ∧ Z.abs (-20000 - mulaw_to_linear 12) ≤ 512 ∧ Z.abs (32635 - mulaw_to_linear (linear_to_mulaw_fast 32767)) ≤ 512
  ∧ Z.abs (25 - alaw_to_linear (linear_to_alaw 25)) ≤ Z.abs (25 - alaw_to_linear 213).
Proof.
  assert (Hx : is_i16 (-20000)) by (unfold is_i16; lia).
  assert (Hy : is_i16 25) by (unfold is_i16; lia).
  split; [exact Hx|]. split; [vm_compute; reflexivity|]. split; [vm_compute; reflexivity|]. split_and!.
  - destruct (proj1 g711_quantization _ Hx) as (_ & He & _). exact He.
  - destruct (proj1 g711_quantization 32767 ltac:(unfold is_i16; lia)) as (_ & He & _). exact He.
  - destruct (proj1 g711_quantization _ Hy) as (_ & _ & _ & Hn). apply (Hn 213). lia.
Defined.
