(* ===== verification/Adpcm.v ===== *)
(** * Dialogic ADPCM ([asterisk-codecs/src/adpcm.rs])

    The adaptive quantiser: a sample of 16 bits becomes a nibble, and encoder and
    decoder adapt their step in the same way.

    The theorem: from the initial state, for every sequence of samples, nothing
    panics, the decoder of the nibbles goes through the states of the encoder, and
    the signal is followed to within an eighth of the step as long as it does not
    change faster than two steps a sample. *)

From Stdlib Require Import ZArith.
From S2P Require Import Prelude G711.
Local Open Scope Z_scope.
Local Open Scope list_scope.

#[local] Ltac Zify.zify_post_hook ::= Z.to_euclidean_division_equations.

Definition INDEX_SHIFT : list Z := [-1; -1; -1; -1; 2; 4; 6; 8].

Definition STEP_SIZE : list Z :=
  [16; 17; 19; 21; 23; 25; 28; 31; 34; 37; 41; 45; 50; 55; 60; 66; 73;
   80; 88; 97; 107; 118; 130; 143; 157; 173; 190; 209; 230; 253; 279;
   307; 337; 371; 408; 449; 494; 544; 598; 658; 724; 796; 876; 963;
   1060; 1166; 1282; 1411; 1552].

Record AdpcmState := mkAdpcm { ssindex : Z; signal : Z; zero_count : Z; next_flag : Z }.
Definition adpcm_new : AdpcmState := mkAdpcm 0 0 0 0.

(** Indexing a table panics out of range. *)
Definition table_at (t : list Z) (i : Z) : outcome Z :=
  if i <? 0 then Panic else match t !! Z.to_nat i with Some v => Done v | None => Panic end.

Definition clamp (lo hi x : Z) : Z := Z.max lo (Z.min hi x).

(** [x as i16] *)
Definition wrap_i16 (x : Z) : Z := let u := x mod 2 ^ 16 in if u <? 2 ^ 15 then u else u - 2 ^ 16.

Definition set_bit (x b : Z) : bool := negb (Z.land x b =? 0).

(** The difference a nibble stands for. *)
Definition nibble_diff (step encoded : Z) : Z :=
  let sign := Z.land encoded 8 in
  let magnitude := Z.land encoded 7 in
  let diff := Z.shiftr step 3 in
  let diff := if set_bit magnitude 4 then diff + step else diff in
  let diff := if set_bit magnitude 2 then diff + Z.shiftr step 1 else diff in
  let diff := if set_bit magnitude 1 then diff + Z.shiftr step 2 else diff in
  let diff := if set_bit (Z.land (Z.shiftr magnitude 1) step) 1 then diff + 1 else diff in
  if negb (sign =? 0) then - diff else diff.

Definition adpcm_decode (encoded : Z) (s : AdpcmState) : outcome (Z * AdpcmState) :=
  let! step := table_at STEP_SIZE (ssindex s) in
  let diff := nibble_diff step encoded in
  let sig := if set_bit (next_flag s) 1 then signal s - 8
             else if set_bit (next_flag s) 2 then signal s + 8 else signal s in
  let sig := clamp (-2047) 2047 (sig + diff) in
  let! shift := table_at INDEX_SHIFT (Z.land encoded 7) in
  let i := clamp 0 48 (ssindex s + shift) in
  Done (wrap_i16 (Z.shiftl sig 4), mkAdpcm i sig (zero_count s) 0).

(** The nibble for a difference. *)
Definition diff_nibble (step diff : Z) : Z :=
  let (encoded, abs_diff) := if diff <? 0 then (8, - diff) else (0, diff) in
  let (encoded, abs_diff) := if step <=? abs_diff then (Z.lor encoded 4, abs_diff - step)
                             else (encoded, abs_diff) in
  let half_step := Z.shiftr step 1 in
  let (encoded, abs_diff) := if half_step <=? abs_diff then (Z.lor encoded 2, abs_diff - half_step)
                             else (encoded, abs_diff) in
  let quarter_step := Z.shiftr half_step 1 in
  if quarter_step <=? abs_diff then Z.lor encoded 1 else encoded.

Definition adpcm_encode (csig : Z) (s : AdpcmState) : outcome (Z * AdpcmState) :=
  let csig_scaled := Z.shiftr csig 4 in
  let! step := table_at STEP_SIZE (ssindex s) in
  let encoded := diff_nibble step (csig_scaled - signal s) in
  let! (_, s) := adpcm_decode encoded s in
  Done (encoded, s).

(** A sequence of samples or nibbles, with the states on the way. *)
Fixpoint adpcm_run (f : Z → AdpcmState → outcome (Z * AdpcmState)) (s : AdpcmState) (xs : list Z)
    : outcome (list (Z * AdpcmState)) :=
  match xs with
  | [] => Done []
  | x :: xs' =>
      let! (y, s) := f x s in
      let! ys := adpcm_run f s xs' in
      Done ((y, s) :: ys)
  end.

(** ** Lemmas *)

Record adpcm_wf (s : AdpcmState) : Prop := {
  wf_index : 0 ≤ ssindex s ≤ 48;
  wf_signal : -2047 ≤ signal s ≤ 2047;
  wf_flag : next_flag s = 0 }.

Lemma step_check : forallb (λ v, (16 <=? v) && (v <=? 1552)) STEP_SIZE = true.
Proof. vm_compute. reflexivity. Qed.

Lemma step_at s : adpcm_wf s → ∃ step, table_at STEP_SIZE (ssindex s) = Done step ∧ 16 ≤ step ≤ 1552.
Proof.
  intros [Hi _ _]. unfold table_at. destruct (Z.ltb_spec (ssindex s) 0); [lia|].
  destruct (lookup_lt_is_Some_2 STEP_SIZE (Z.to_nat (ssindex s))) as [v Hv].
  { change (length STEP_SIZE) with 49%nat. lia. }
  rewrite Hv. exists v. split; [done|]. pose proof step_check as Hc. rewrite forallb_forall in Hc.
  specialize (Hc v ltac:(by apply list_elem_of_In, (list_elem_of_lookup_2 _ _ _ Hv))). lia.
Qed.

Lemma shift_at e : returns (table_at INDEX_SHIFT (Z.land e 7)).
Proof.
  unfold table_at. change 7 with (Z.ones 3). rewrite Z.land_ones by lia.
  destruct (Z.ltb_spec (e mod 2 ^ 3) 0); [lia|].
  destruct (lookup_lt_is_Some_2 INDEX_SHIFT (Z.to_nat (e mod 2 ^ 3))) as [v Hv].
  { change (length INDEX_SHIFT) with 8%nat. lia. }
  rewrite Hv. by eexists.
Qed.

Lemma clamp_range lo hi x : lo ≤ hi → lo ≤ clamp lo hi x ≤ hi.
Proof. unfold clamp. lia. Qed.

Lemma wrap_i16_shift x : -2047 ≤ x ≤ 2047 → wrap_i16 (Z.shiftl x 4) = 16 * x.
Proof.
  intros Hx. rewrite Z.shiftl_mul_pow2 by lia. unfold wrap_i16.
  destruct (decide (0 ≤ x)).
  - rewrite Z.mod_small by lia. destruct (Z.ltb_spec (x * 2 ^ 4) (2 ^ 15)); lia.
  - replace ((x * 2 ^ 4) mod 2 ^ 16) with (x * 2 ^ 4 + 2 ^ 16) by lia.
    destruct (Z.ltb_spec (x * 2 ^ 4 + 2 ^ 16) (2 ^ 15)); lia.
Qed.

(** Decoding follows the difference and keeps the state well formed. *)
Lemma decode_wf e s :
  adpcm_wf s →
  ∃ step s', table_at STEP_SIZE (ssindex s) = Done step ∧ 16 ≤ step ≤ 1552
    ∧ adpcm_decode e s = Done (16 * signal s', s') ∧ adpcm_wf s'
    ∧ signal s' = clamp (-2047) 2047 (signal s + nibble_diff step e).
Proof.
  intros Hs. destruct (step_at s Hs) as (step & E & Hstep). destruct (shift_at e) as [sh Hsh].
  pose proof (clamp_range (-2047) 2047 (signal s + nibble_diff step e) ltac:(lia)) as Hc.
  exists step, (mkAdpcm (clamp 0 48 (ssindex s + sh)) (clamp (-2047) 2047 (signal s + nibble_diff step e))
                  (zero_count s) 0).
  unfold adpcm_decode. rewrite E, Hsh, (wf_flag s Hs).
  change (set_bit 0 1) with false. change (set_bit 0 2) with false. cbn [outcome_bind signal].
  rewrite (wrap_i16_shift _ Hc). split_and!; try done; try lia.
  split; cbn; [apply clamp_range; lia|exact Hc|done].
Qed.

Lemma land_bit k step : 0 ≤ step → Z.land (Z.land k step) 1 = if Z.odd k then step mod 2 else 0.
Proof.
  intros Hs. change 1 with (Z.ones 1). rewrite Z.land_ones by lia. change (2 ^ 1) with 2.
  rewrite !Zmod_odd, <-!Z.bit0_odd, Z.land_spec. by destruct (Z.testbit k 0).
Qed.

(** Evaluates the bits of the sixteen nibbles. *)
Ltac eval_bits :=
  repeat match goal with
  | |- context [Z.lor ?a ?b] => let v := eval vm_compute in (Z.lor a b) in change (Z.lor a b) with v
  | |- context [Z.land (Zpos ?a) ?b] =>
      let v := eval vm_compute in (Z.land (Zpos a) b) in change (Z.land (Zpos a) b) with v
  | |- context [Z.land Z0 ?b] => change (Z.land Z0 b) with Z0
  | |- context [Z.odd (?a / ?b)] =>
      let v := eval vm_compute in (Z.odd (a / b)) in change (Z.odd (a / b)) with v
  end; cbn -[Z.div Z.modulo Z.mul Z.add Z.sub Z.abs Z.opp Z.pow].

(** The nibble of a difference of less than two steps stands for it, to within
    an eighth of the step. *)
Lemma nibble_close step diff :
  16 ≤ step → Z.abs diff < 2 * step →
  Z.abs (diff - nibble_diff step (diff_nibble step diff)) ≤ step / 8 + 1.
Proof.
  intros Hstep Hd. unfold diff_nibble, nibble_diff, set_bit.
  repeat rewrite Z.shiftr_div_pow2 by lia. rewrite land_bit by lia.
  destruct (Z.ltb_spec diff 0);
    repeat match goal with |- context [?a <=? ?b] => destruct (Z.leb_spec a b) end;
    eval_bits; repeat match goal with |- context [?a =? 0] => destruct (Z.eqb_spec a 0) end;
    cbn [negb]; lia.
Qed.

Lemma nibble_range step diff : 0 ≤ diff_nibble step diff < 16.
Proof. unfold diff_nibble. repeat case_match; simplify_eq; vm_compute; split; congruence. Qed.

(** One sample: the nibble brings encoder and decoder to the same state, whose
    signal follows the sample. *)
Definition follows (x : Z) (s s' : AdpcmState) (n : Z) : Prop :=
  0 ≤ n < 16
  ∧ adpcm_encode x s = Done (n, s') ∧ adpcm_decode n s = Done (16 * signal s', s')
  ∧ ∀ step, table_at STEP_SIZE (ssindex s) = Done step →
      Z.abs (Z.shiftr x 4 - signal s) < 2 * step →
      Z.abs (x - 16 * signal s') ≤ 2 * step + 31.

Lemma encode_follows x s : is_i16 x → adpcm_wf s → ∃ n s', follows x s s' n ∧ adpcm_wf s'.
Proof.
  intros Hx Hs. destruct (step_at s Hs) as (step & E & Hstep).
  set (n := diff_nibble step (Z.shiftr x 4 - signal s)).
  destruct (decode_wf n s Hs) as (step' & s' & E' & _ & Hd & Hs' & Hsig).
  exists n, s'. split; [|done]. split_and!; try apply nibble_range; [..|done|].
  - unfold adpcm_encode. rewrite E. cbn [outcome_bind]. fold n. by rewrite Hd.
  - intros step'' E'' Hclose. replace step'' with step in * by congruence.
    pose proof (nibble_close step _ ltac:(lia) Hclose) as Hn. fold n in Hn.
    replace step' with step in * by congruence.
    rewrite Z.shiftr_div_pow2 in * by lia. unfold is_i16 in Hx. unfold clamp in Hsig. lia.
Qed.

Lemma run_follows xs s :
  Forall is_i16 xs → adpcm_wf s →
  ∃ ns, adpcm_run adpcm_encode s xs = Done ns
    ∧ adpcm_run adpcm_decode s ns.*1 = Done ((λ '(_, s'), (16 * signal s', s')) <$> ns)
    ∧ length ns = length xs
    ∧ ∀ i x s0 n s', xs !! i = Some x → (s :: ns.*2) !! i = Some s0 → ns !! i = Some (n, s') →
        follows x s0 s' n.
Proof.
  intros Hxs. revert s. induction Hxs as [|x xs Hx _ IH]; intros s Hs.
  { exists []. split_and!; [done..|]. by intros. }
  destruct (encode_follows x s Hx Hs) as (n & s' & Hf & Hs').
  destruct (IH s' Hs') as (ns & E & D & L & P). exists ((n, s') :: ns).
  pose proof Hf as (_ & He & Hd & _). cbn [adpcm_run fmap list_fmap fst snd].
  rewrite He. cbn [outcome_bind]. rewrite E. rewrite Hd. cbn [outcome_bind]. rewrite D.
  split_and!; [done..|cbn; lia|]. intros [|i] y s0 m t Hy Hs0 Hm; simplify_eq/=; [done|eauto].
Qed.

(** From the initial state, for every sequence of 16-bit samples: no
    index of a table is out of range; every sample gives a nibble; decoding the
    nibbles goes through exactly the encoder's states and puts out 16 times the
    signal estimate; and whenever a sample is within two steps of the estimate
    it meets, the decoded sample is within two steps (of the scale of 16-bit
    samples an eighth of [16 * step]) and 31 of it. *)
Theorem adpcm_tracks (xs : list Z) :
  Forall is_i16 xs →
  ∃ ns, adpcm_run adpcm_encode adpcm_new xs = Done ns
    ∧ length ns = length xs
    ∧ Forall (λ n, 0 ≤ n < 16) ns.*1
    ∧ adpcm_run adpcm_decode adpcm_new ns.*1
      = Done ((λ '(_, s'), (16 * signal s', s')) <$> ns)
    ∧ ∀ i x s step n s',
        xs !! i = Some x → (adpcm_new :: ns.*2) !! i = Some s → ns !! i = Some (n, s') →
        STEP_SIZE !! Z.to_nat (ssindex s) = Some step →
        Z.abs (Z.shiftr x 4 - signal s) < 2 * step →
        Z.abs (x - 16 * signal s') ≤ 2 * step + 31.
Proof.
  intros Hxs. destruct (run_follows xs adpcm_new Hxs) as (ns & E & D & L & P); [by split; cbn; lia|].
  exists ns. split_and!; try done.
  - apply Forall_lookup_2. intros i n (nd & -> & Hn)%list_lookup_fmap_Some.
    destruct nd as [n s'].
    destruct (lookup_lt_is_Some_2 xs i) as [x Hx]; [rewrite <-L; by eapply lookup_lt_Some|].
    destruct (lookup_lt_is_Some_2 (adpcm_new :: ns.*2) i) as [s Hs].
    { cbn. rewrite length_fmap. apply lookup_lt_Some in Hn. lia. }
    by destruct (P i x s n s' Hx Hs Hn).
  - intros i x s step n s' Hx Hs Hn Hstep. destruct (P i x s n s' Hx Hs Hn) as (_ & He & _ & Hc).
    apply Hc. revert He. unfold adpcm_encode, table_at. rewrite Hstep. by destruct (ssindex s <? 0).
Qed.

Lemma adpcm_tracks_witness :
  ∃ ns, adpcm_run adpcm_encode adpcm_new [0; 300; 700; 400; -200; -32768] = Done ns ∧ length ns = 6%nat.
Proof.
  destruct (adpcm_tracks [0; 300; 700; 400; -200; -32768]) as (ns & E & L & _).
  { repeat constructor; lia. }
  exists ns. exact (conj E L).
Defined.
