(* ===== verification/Codecs.v ===== *)
(** * The built-in translators ([asterisk-codecs/src])

    The translators of [builtin_translators.rs], [adpcm.rs], [resample.rs],
    [lpc10.rs] and [codec2.rs], in the order in which
    [register_builtin_translators] registers them.

    The theorems: between mu-law, A-law and ADPCM a call is translated through
    signed linear and through nothing else, and for mu-law to A-law and back every
    byte of every frame becomes the code of its sample, call after call; the
    translators of G.722, LPC-10 and Codec2 are offered by the matrix, and no chain
    through them ever gives a frame. *)

From Stdlib Require Import ZArith Ascii String Floats.SpecFloat.
From S2P Require Import Prelude RustStr Types F64 Translate G711 Adpcm.
Local Open Scope Z_scope.
Local Open Scope list_scope.

(** ** Codec identifiers and costs *)

Definition ID_ULAW : Z := 2.
Definition ID_ALAW : Z := 3.
Definition ID_ADPCM : Z := 7.
Definition ID_SLIN8 : Z := 8.
Definition ID_SLIN16 : Z := 10.
Definition ID_LPC10 : Z := 17.
Definition ID_G722 : Z := 23.
Definition ID_CODEC2 : Z := 26.

Definition LL_LY_ORIGSAMP : Z := 600000.
Definition LL_LL_UPSAMP : Z := 800000.
Definition LL_LL_DOWNSAMP : Z := 850000.
Definition LY_LL_ORIGSAMP : Z := 900000.

Definition SLIN_RATES : list (Z * Z) :=
  [(8000, 8); (12000, 9); (16000, 10); (24000, 11); (32000, 12); (44100, 13); (48000, 14);
   (96000, 15); (192000, 16)].

(** ** Samples and octets *)

Definition to_le_bytes (sample : Z) : list Z := [sample mod 256; sample / 256 mod 256].
Definition from_le_bytes (lo hi : Z) : Z := wrap_i16 (lo + 256 * hi).

(** [while i + 1 < data.len()] *)
Fixpoint le_samples (data : list Z) : list Z :=
  match data with
  | lo :: hi :: data' => from_le_bytes lo hi :: le_samples data'
  | _ => []
  end.

Definition even_len (data : list Z) : bool := Nat.even (length data).

(** ** Instances that buffer their output *)

Record OutBuf := mkOut { output_buf : list Z; samples : Z }.
Definition out_new : OutBuf := mkOut [] 0.

(** Appends the octets of [n] samples. *)
Definition out_push (o : OutBuf) (bytes : list Z) (n : nat) : OutBuf :=
  mkOut (output_buf o ++ bytes) (wrap_u32 (samples o + Z.of_nat n)).

Definition out_frame (codec_id : Z) (o : OutBuf) : option Frame * OutBuf :=
  match output_buf o with
  | [] => (None, o)
  | data => (Some (frame_voice codec_id (samples o) data), out_new)
  end.

Definition voice_data (f : Frame) : result TranslateError (list Z) :=
  match f with FVoice v => Ok (v_data v) | _ => Err (Failed (lit "expected a voice frame")) end.
Definition voice_data' (f : Frame) : result TranslateError (list Z) :=
  match f with FVoice v => Ok (v_data v) | _ => Err (Failed (lit "expected voice frame")) end.

(** A translator to signed linear, octet by octet. *)
Definition decode_in (table : Z → Z) (o : OutBuf) (f : Frame)
    : outcome (result TranslateError unit * OutBuf) :=
  Done match voice_data f with
  | Err e => (Err e, o)
  | Ok data => (Ok (), out_push o (data ≫= λ byte, to_le_bytes (table byte)) (length data))
  end.

(** A translator from signed linear, sample by sample. *)
Definition encode_in (code : Z → Z) (o : OutBuf) (f : Frame)
    : outcome (result TranslateError unit * OutBuf) :=
  Done match voice_data f with
  | Err e => (Err e, o)
  | Ok data =>
      if negb (even_len data) then (Err (Failed (lit "slin data length must be even")), o)
      else (Ok (), out_push o (code <$> le_samples data) (length (le_samples data)))
  end.

Definition table_translator (name : str) (src dst cost : Z)
    (frame_in : OutBuf → Frame → outcome (result TranslateError unit * OutBuf)) : Translator :=
  mkTranslator name src dst cost OutBuf out_new frame_in (λ o, Done (out_frame dst o)).

Definition UlawToSlinTranslator : Translator :=
  table_translator (lit "ulawtolin") ID_ULAW ID_SLIN8 LY_LL_ORIGSAMP (decode_in mulaw_to_linear).
Definition SlinToUlawTranslator : Translator :=
  table_translator (lit "lintoulaw") ID_SLIN8 ID_ULAW LL_LY_ORIGSAMP (encode_in linear_to_mulaw_fast).
Definition AlawToSlinTranslator : Translator :=
  table_translator (lit "alawtolin") ID_ALAW ID_SLIN8 LY_LL_ORIGSAMP (decode_in alaw_to_linear).
Definition SlinToAlawTranslator : Translator :=
  table_translator (lit "lintoalaw") ID_SLIN8 ID_ALAW LL_LY_ORIGSAMP (encode_in linear_to_alaw_fast).

(** ** Stubs: every frame is an error *)

Definition stub_translator (name : str) (src dst cost : Z)
    (frame_in : Frame → result TranslateError unit) : Translator :=
  mkTranslator name src dst cost unit () (λ s f, Done (frame_in f, s)) (λ s, Done (None, s)).

Definition G722ToSlin16Translator : Translator :=
  stub_translator (lit "g722tolin16") ID_G722 ID_SLIN16 LY_LL_ORIGSAMP
    (λ _, Err (Failed (lit "G.722 decoding not yet implemented"))).
Definition Slin16ToG722Translator : Translator :=
  stub_translator (lit "lin16tog722") ID_SLIN16 ID_G722 LL_LY_ORIGSAMP
    (λ _, Err (Failed (lit "G.722 encoding not yet implemented"))).

Definition lpc10_decode (data : list Z) : result TranslateError (list Z) :=
  Err (Failed (lit "LPC-10 decoding requires liblpc10 (not linked)")).
Definition lpc10_encode (samples : list Z) : result TranslateError (list Z) :=
  Err (Failed (lit "LPC-10 encoding requires liblpc10 (not linked)")).
Definition codec2_decode (data : list Z) : result TranslateError (list Z) :=
  Err (Failed (lit "Codec2 decoding requires libcodec2 (not linked)")).
Definition codec2_encode (samples : list Z) : result TranslateError (list Z) :=
  Err (Failed (lit "Codec2 encoding requires libcodec2 (not linked)")).

Definition vocoder_decode_in (decode : list Z → result TranslateError (list Z)) (f : Frame)
    : result TranslateError unit :=
  let? data := voice_data' f in let? _ := decode data in Ok ().
Definition vocoder_encode_in (encode : list Z → result TranslateError (list Z)) (f : Frame)
    : result TranslateError unit :=
  let? data := voice_data' f in
  if negb (even_len data) then Err (Failed (lit "slin data must have even length"))
  else let? _ := encode (le_samples data) in Ok ().

Definition Lpc10ToSlinTranslator : Translator :=
  stub_translator (lit "lpc10tolin") ID_LPC10 ID_SLIN8 LY_LL_ORIGSAMP (vocoder_decode_in lpc10_decode).
Definition SlinToLpc10Translator : Translator :=
  stub_translator (lit "lintolpc10") ID_SLIN8 ID_LPC10 LL_LY_ORIGSAMP (vocoder_encode_in lpc10_encode).
Definition Codec2ToSlinTranslator : Translator :=
  stub_translator (lit "codec2tolin") ID_CODEC2 ID_SLIN8 LY_LL_ORIGSAMP (vocoder_decode_in codec2_decode).
Definition SlinToCodec2Translator : Translator :=
  stub_translator (lit "lintocodec2") ID_SLIN8 ID_CODEC2 LL_LY_ORIGSAMP (vocoder_encode_in codec2_encode).

(** ** ADPCM *)

(** Octets to nibbles, high nibble first, and back. *)
Definition nibbles (byte : Z) : list Z := [Z.land (Z.shiftr byte 4) 15; Z.land byte 15].

Fixpoint adpcm_last (s : AdpcmState) (rs : list (Z * AdpcmState)) : AdpcmState :=
  match rs with [] => s | (_, s') :: rs' => adpcm_last s' rs' end.

Definition adpcm_decode_in (st : AdpcmState * OutBuf) (f : Frame)
    : outcome (result TranslateError unit * (AdpcmState * OutBuf)) :=
  let '(s, o) := st in
  match voice_data' f with
  | Err e => Done (Err e, st)
  | Ok data =>
      let! rs := adpcm_run adpcm_decode s (data ≫= nibbles) in
      Done (Ok (), (adpcm_last s rs, out_push o (rs.*1 ≫= to_le_bytes) (length rs)))
  end.

Definition AdpcmToSlinTranslator : Translator :=
  mkTranslator (lit "adpcmtolin") ID_ADPCM ID_SLIN8 LY_LL_ORIGSAMP
    (AdpcmState * OutBuf) (adpcm_new, out_new) adpcm_decode_in
    (λ '(s, o), let (f, o) := out_frame ID_SLIN8 o in Done (f, (s, o))).

(** The encoder keeps the samples it has not encoded yet. *)
Definition adpcm_encode_in (st : AdpcmState * list Z) (f : Frame)
    : outcome (result TranslateError unit * (AdpcmState * list Z)) :=
  let '(s, sample_buf) := st in
  Done match voice_data' f with
  | Err e => (Err e, st)
  | Ok data =>
      if negb (even_len data) then (Err (Failed (lit "slin data must have even length")), st)
      else (Ok (), (s, sample_buf ++ le_samples data))
  end.

(** [(hi << 4) | lo], as an octet. *)
Fixpoint pack_nibbles (ns : list Z) : list Z :=
  match ns with
  | hi :: lo :: ns' => Z.lor (Z.shiftl hi 4 mod 256) lo :: pack_nibbles ns'
  | _ => []
  end.

Definition adpcm_encode_out (st : AdpcmState * list Z)
    : outcome (option Frame * (AdpcmState * list Z)) :=
  let '(s, sample_buf) := st in
  if (length sample_buf <? 2)%nat then Done (None, st)
  else
    let consumed := (2 * (length sample_buf / 2))%nat in
    let! rs := adpcm_run adpcm_encode s (take consumed sample_buf) in
    Done (Some (frame_voice ID_ADPCM (wrap_u32 (Z.of_nat consumed)) (pack_nibbles rs.*1)),
          (adpcm_last s rs, drop consumed sample_buf)).

Definition SlinToAdpcmTranslator : Translator :=
  mkTranslator (lit "lintoadpcm") ID_SLIN8 ID_ADPCM LL_LY_ORIGSAMP
    (AdpcmState * list Z) (adpcm_new, []) adpcm_encode_in adpcm_encode_out.

(** ** The resampler *)

(** [x as usize], for what fits. *)
Definition as_usize (x : f64) : Z := Z.max 0 (as_i64 x).
(** [x.ceil() as usize] *)
Definition ceil_usize (x : f64) : Z :=
  match x with
  | S754_finite s m e => Z.max 0 (if 0 <=? e then signed s (Z.pos m * 2 ^ e)
                                  else - (- signed s (Z.pos m) / 2 ^ (- e)))
  | _ => as_usize x
  end.
(** [x.round()]: half away from zero. *)
Definition round_half_away (x : f64) : f64 :=
  match x with
  | S754_finite s m e =>
      if 0 <=? e then x
      else binary_normalize prec emax (signed s ((2 * Z.pos m + 2 ^ (- e)) / 2 ^ (1 - e))) 0 s
  | _ => x
  end.
(** [x as i16] *)
Definition as_i16 (x : f64) : Z := Z.max (- 2 ^ 15) (Z.min (2 ^ 15 - 1) (as_i64 x)).

Definition OUTBUF_SAMPLES : Z := 11520.

(** The output sample [i]; [None] ends the loop. *)
Definition resample_at (input : list Z) (ratio : f64) (i : Z) : option Z :=
  let src_pos := f64_mul (f64_of_Z i) ratio in
  let idx := as_usize src_pos in
  let frac := f64_sub src_pos (f64_of_Z idx) in
  match input !! Z.to_nat idx, input !! Z.to_nat (idx + 1) with
  | Some a, Some b =>
      let s0 := f64_of_Z a in
      let s1 := f64_of_Z b in
      let interpolated := f64_add s0 (f64_mul frac (f64_sub s1 s0)) in
      Some (as_i16 (F64.clamp (round_half_away interpolated) (f64_of_Z (-32768)) (f64_of_Z 32767)))
  | Some a, None => Some a
  | None, _ => None
  end.

Fixpoint resample_loop (input : list Z) (ratio : f64) (i n : nat) : list Z :=
  match n with
  | O => []
  | S n' =>
      match resample_at input ratio (Z.of_nat i) with
      | Some s => s :: resample_loop input ratio (S i) n'
      | None => []
      end
  end.

Definition resample_linear (input : list Z) (src_rate dst_rate : Z) : list Z :=
  if (src_rate =? dst_rate) || bool_decide (input = []) then input
  else
    let ratio := f64_div (f64_of_Z src_rate) (f64_of_Z dst_rate) in
    let out_len := ceil_usize (f64_div (f64_of_Z (Z.of_nat (length input))) ratio) in
    resample_loop input ratio 0 (Z.to_nat (Z.min out_len OUTBUF_SAMPLES)).

Definition resample_in (src_rate dst_rate : Z) (o : OutBuf) (f : Frame)
    : outcome (result TranslateError unit * OutBuf) :=
  Done match voice_data' f with
  | Err e => (Err e, o)
  | Ok [] => (Err (Failed (lit "empty frame data")), o)
  | Ok data =>
      if negb (even_len data) then (Err (Failed (lit "slin data must have even length")), o)
      else
        let resampled := resample_linear (le_samples data) src_rate dst_rate in
        (Ok (), out_push o (resampled ≫= to_le_bytes) (length resampled))
  end.

Definition ResampleTranslator (src dst : Z * Z) : Translator :=
  let (src_rate, src_id) := src in
  let (dst_rate, dst_id) := dst in
  table_translator
    (lit "slin " ++ show_int (src_rate / 1000) ++ lit "khz -> " ++ show_int (dst_rate / 1000) ++ lit "khz")
    src_id dst_id (if src_rate <? dst_rate then LL_LL_UPSAMP else LL_LL_DOWNSAMP)
    (resample_in src_rate dst_rate).

Definition all_resample_translators : list Translator :=
  src ← SLIN_RATES; dst ← SLIN_RATES;
  if src.1 =? dst.1 then [] else [ResampleTranslator src dst].

(** ** Registration *)

Definition builtin_translators : list Translator :=
  [UlawToSlinTranslator; SlinToUlawTranslator; AlawToSlinTranslator; SlinToAlawTranslator;
   G722ToSlin16Translator; Slin16ToG722Translator;
   AdpcmToSlinTranslator; SlinToAdpcmTranslator;
   Lpc10ToSlinTranslator; SlinToLpc10Translator;
   Codec2ToSlinTranslator; SlinToCodec2Translator] ++ all_resample_translators.

Definition register_builtin_translators (matrix : TranslationMatrix) : TranslationMatrix :=
  foldl register matrix builtin_translators.

(** ** A chain over the frames of a call *)

Fixpoint run_chain (chain : list Instance_) (fs : list Frame)
    : outcome (list (result TranslateError (option Frame))) :=
  match fs with
  | [] => Done []
  | f :: fs' =>
      let! (r, chain) := translate chain f in
      let! rs := run_chain chain fs' in Done (r :: rs)
  end.

Example resample_up : resample_linear [0; 1000; 2000] 8000 16000 = [0; 500; 1000; 1500; 2000; 2000].
Proof. vm_compute. reflexivity. Qed.
Example resample_down : resample_linear [0; 500; 1000; 1500; -2000] 44100 8000 = [0].
Proof. vm_compute. reflexivity. Qed.
Example resample_negative : resample_linear [-3; 0; 32767] 8000 24000 = [-3; -2; -1; 0; 10922; 21845; 32767; 32767; 32767].
Proof. vm_compute. reflexivity. Qed.

(** ** The table of the built-in translators *)

Definition triple (t : Translator) : Z * Z * Z := (tr_src t, tr_dst t, tr_cost t).
Definition builtin_table : list (Z * Z * Z) := Eval vm_compute in triple <$> builtin_translators.

Lemma builtin_table_ok : triple <$> builtin_translators = builtin_table.
Proof. vm_compute. reflexivity. Qed.

Lemma builtin_lookup i t :
  builtin_translators !! i = Some t → builtin_table !! i = Some (tr_src t, tr_dst t, tr_cost t).
Proof. intros Ht. by rewrite <-builtin_table_ok, list_lookup_fmap, Ht. Qed.

(** A check of every translator, with its index. *)
Definition each_translator (P : nat → Z → Z → Z → bool) : bool :=
  forallb (λ '(i, (u, v, d)), P i u v d) (zip (seq 0 84) builtin_table).

Lemma each_translator_spec P i t :
  each_translator P = true → builtin_translators !! i = Some t →
  P i (tr_src t) (tr_dst t) (tr_cost t) = true.
Proof.
  unfold each_translator. rewrite forallb_forall. intros HP Ht%builtin_lookup.
  apply (HP (i, (tr_src t, tr_dst t, tr_cost t))). apply list_elem_of_In, list_elem_of_lookup. exists i.
  apply lookup_zip_Some. split; [|done]. apply lookup_seq. split; [done|].
  apply lookup_lt_Some in Ht. exact Ht.
Qed.

Lemma chain_nil_inv ts x y d : chain ts x [] y d → y = x ∧ d = 0.
Proof. intros Hc. inversion Hc as [|q ? ? ? ? ? ? ? E]; [done|]. by destruct q. Qed.

(** The sum of a chain, computed. *)
Fixpoint chain_end (src cost : Z) (p : list nat) : option (Z * Z) :=
  match p with
  | [] => Some (src, cost)
  | i :: p' =>
      match builtin_table !! i with
      | Some (u, v, d) => if u =? src then chain_end v (cost + d) p' else None
      | None => None
      end
  end.

Lemma chain_end_app src cost p q :
  chain_end src cost (p ++ q)
  = match chain_end src cost p with Some (u, d) => chain_end u d q | None => None end.
Proof.
  revert src cost. induction p as [|i p IH]; intros src cost; [done|]. cbn.
  destruct (builtin_table !! i) as [[[u v] d]|]; [|done]. by destruct (u =? src).
Qed.

Lemma chain_end_spec src p u d :
  chain_end src 0 p = Some (u, d) ↔ chain builtin_translators src p u d.
Proof.
  split.
  - revert u d. induction p as [|i p IH] using rev_ind; intros v d.
    { intros [= -> <-]. constructor. }
    rewrite chain_end_app. destruct (chain_end src 0 p) as [[u' d']|] eqn:E; [|done]. cbn.
    destruct (builtin_table !! i) as [[[u'' v''] d'']|] eqn:Ei; [|done].
    destruct (Z.eqb_spec u'' u') as [->|]; [|done]. intros [= -> <-].
    rewrite <-builtin_table_ok, list_lookup_fmap in Ei. apply fmap_Some in Ei as (t & Ht & [= -> -> ->]).
    by eapply chain_snoc; [apply IH|..].
  - intros Hc. induction Hc as [|p i t u d Hp IH Ht Hs]; [done|].
    rewrite chain_end_app, IH. cbn. rewrite (builtin_lookup i t Ht), Hs, Z.eqb_refl. done.
Qed.

(** ** Paths between the built-in translators *)

(** The codecs that have a translator. *)
Definition translated_codecs : list Z := [2; 3; 7; 8; 9; 10; 11; 12; 13; 14; 15; 16; 17; 23; 26].

(** Translators from a codec to signed linear at 8 kHz, and back. *)
Definition to_hub (x : Z) : list nat :=
  if x =? ID_ULAW then [0%nat] else if x =? ID_ALAW then [2%nat]
  else if x =? ID_ADPCM then [6%nat] else if x =? ID_LPC10 then [8%nat]
  else if x =? ID_CODEC2 then [10%nat] else if x =? ID_G722 then [4%nat; 28%nat]
  else if x =? ID_SLIN8 then [] else [Z.to_nat (12 + 8 * (x - 8))].
Definition from_hub (y : Z) : list nat :=
  if y =? ID_ULAW then [1%nat] else if y =? ID_ALAW then [3%nat]
  else if y =? ID_ADPCM then [7%nat] else if y =? ID_LPC10 then [9%nat]
  else if y =? ID_CODEC2 then [11%nat] else if y =? ID_G722 then [13%nat; 5%nat]
  else if y =? ID_SLIN8 then [] else [Z.to_nat (11 + (y - 8))].

Definition hub_check : bool :=
  forallb (λ x, forallb (λ y,
    match chain_end x 0 (to_hub x ++ from_hub y) with Some (z, _) => z =? y | None => false end)
    translated_codecs) translated_codecs.

Lemma builtin_connected x y :
  x ∈ translated_codecs → y ∈ translated_codecs → ∃ p d, chain builtin_translators x p y d.
Proof.
  intros Hx%list_elem_of_In Hy%list_elem_of_In. assert (hub_check = true) as Hc by (vm_compute; reflexivity).
  unfold hub_check in Hc. rewrite forallb_forall in Hc. specialize (Hc _ Hx).
  rewrite forallb_forall in Hc. specialize (Hc _ Hy).
  destruct (chain_end x 0 (to_hub x ++ from_hub y)) as [[z d]|] eqn:E; [|done].
  apply Z.eqb_eq in Hc as ->. exists (to_hub x ++ from_hub y), d. by apply chain_end_spec.
Qed.

Definition codec_in (x : Z) : bool := bool_decide (x ∈ translated_codecs).

Lemma builtin_codecs i t :
  builtin_translators !! i = Some t →
  tr_src t ∈ translated_codecs ∧ tr_dst t ∈ translated_codecs ∧ 600000 ≤ tr_cost t ≤ 900000.
Proof.
  intros Ht. pose proof (each_translator_spec
    (λ _ u v d, codec_in u && codec_in v && (600000 <=? d) && (d <=? 900000)) i t
    ltac:(vm_compute; reflexivity) Ht) as Hc. unfold codec_in in Hc.
  rewrite !andb_true_iff, !bool_decide_eq_true, !Z.leb_le in Hc. tauto.
Qed.

Lemma chain_cost_nonneg x p y d :
  chain builtin_translators x p y d → 0 ≤ d ∧ (p ≠ [] → 600000 ≤ d ∧ x ∈ translated_codecs ∧ y ∈ translated_codecs).
Proof.
  intros Hc. induction Hc as [|p i t u d Hp [IH IH'] Ht Hs]; [done|].
  destruct (builtin_codecs i t Ht) as (Hin & Hout & Hd). split; [lia|]. intros _.
  split; [lia|]. split; [|done]. destruct (decide (p = [])) as [->|Hne]; [|by apply IH'].
  destruct (chain_nil_inv _ _ _ _ Hp) as [-> _]. by rewrite <-Hs.
Qed.

Section paths.
Context `{HeapOrder}.

Definition builtin_path (x y : Z) := build_path (register_builtin_translators matrix_new) x y.

Lemma builtin_path_spec x y :
  ∃ r, builtin_path x y = Some (Done r)
    ∧ match r with
      | Ok p => chain builtin_translators x (steps p) y (total_cost p)
                ∧ ∀ q L, chain builtin_translators x q y L → total_cost p ≤ L
      | Err e => e = NoPath x y ∧ ∀ q L, ¬ chain builtin_translators x q y L
      end.
Proof.
  apply (build_path_spec builtin_translators x y 900000).
  - apply Forall_lookup_2. intros i t Ht. destruct (builtin_codecs i t Ht) as (_ & _ & ?). lia.
  - vm_compute. reflexivity.
Qed.

(** There is a path exactly between codecs that have translators. *)
Lemma builtin_path_iff x y :
  (∃ p, builtin_path x y = Some (Done (Ok p))) ↔ x = y ∨ x ∈ translated_codecs ∧ y ∈ translated_codecs.
Proof.
  destruct (builtin_path_spec x y) as (r & -> & Hr). split.
  - intros (p & [= ->]). destruct Hr as [Hc _]. destruct (decide (steps p = [])) as [E|E].
    + left. rewrite E in Hc. by destruct (chain_nil_inv _ _ _ _ Hc) as [-> _].
    + right. by apply (chain_cost_nonneg _ _ _ _ Hc).
  - intros Hxy. destruct r as [p|e]; [by eexists|]. destruct Hr as [_ Hno].
    destruct Hxy as [->|[Hx Hy]].
    + by destruct (Hno [] 0); constructor.
    + destruct (builtin_connected x y Hx Hy) as (p & d & Hp). by destruct (Hno p d).
Qed.

(** ** Between the compressed codecs *)

Definition compressed (x : Z) : bool := (x =? ID_ULAW) || (x =? ID_ALAW) || (x =? ID_ADPCM).

Definition compressed_check (i : nat) (u v d : Z) : bool :=
  (negb (compressed v) || bool_decide ([i] = from_hub v) && (u =? ID_SLIN8) && (d =? 600000))
  && (negb (compressed u) || bool_decide ([i] = to_hub u) && (d =? 900000)).

(** The translators at the ends of a chain between compressed codecs. *)
Lemma compressed_ends i t :
  builtin_translators !! i = Some t →
  (compressed (tr_dst t) = true → [i] = from_hub (tr_dst t) ∧ tr_src t = ID_SLIN8 ∧ tr_cost t = 600000)
  ∧ (compressed (tr_src t) = true → [i] = to_hub (tr_src t) ∧ tr_cost t = 900000).
Proof.
  intros Ht. pose proof (each_translator_spec compressed_check i t ltac:(vm_compute; reflexivity) Ht) as Hf.
  unfold compressed_check in Hf.
  rewrite andb_true_iff, !orb_true_iff, !andb_true_iff, !negb_true_iff, !bool_decide_eq_true, !Z.eqb_eq in Hf.
  destruct Hf as [Hf1 Hf2]. split; intros E; rewrite E in *; naive_solver.
Qed.

Lemma chain_snoc_inv ts x p i y d :
  chain ts x (p ++ [i]) y d →
  ∃ t d', ts !! i = Some t ∧ y = tr_dst t ∧ d = d' + tr_cost t ∧ chain ts x p (tr_src t) d'.
Proof. intros Hc. inversion Hc; simplify_list_eq; [by destruct p|]. eauto 10. Qed.

Lemma compressed_chain x y p d :
  compressed x = true → compressed y = true → x ≠ y →
  chain builtin_translators x p y d → d ≤ 1500000 → p = to_hub x ++ from_hub y ∧ d = 1500000.
Proof.
  intros Hx Hy Hne Hc Hd. destruct p as [|i p _] using rev_ind; [by destruct (chain_nil_inv _ _ _ _ Hc) as [-> _]|].
  apply chain_snoc_inv in Hc as (t & d' & Ht & -> & -> & Hc).
  destruct (proj1 (compressed_ends i t Ht) Hy) as (<- & Hs & Hcost). rewrite Hs in Hc. clear Hy Ht Hne.
  destruct p as [|j p _] using rev_ind; [by destruct (chain_nil_inv _ _ _ _ Hc) as [<- _]|].
  apply chain_snoc_inv in Hc as (u & d'' & Hu & Hj & -> & Hc).
  destruct (chain_cost_nonneg _ _ _ _ Hc) as [H0 Hp].
  destruct (builtin_codecs j u Hu) as (_ & _ & Hcu).
  destruct (decide (p = [])) as [->|Hpne]; [|destruct (Hp Hpne); lia].
  destruct (chain_nil_inv _ _ _ _ Hc) as [Hxu ->].
  subst x. destruct (proj2 (compressed_ends j u Hu) Hx) as [<- ->]. split; [done|lia].
Qed.

Lemma compressed_path x y :
  compressed x = true → compressed y = true → x ≠ y →
  builtin_path x y = Some (Done (Ok (mkPath (to_hub x ++ from_hub y) 1500000))).
Proof.
  intros Hx Hy Hne. destruct (builtin_path_spec x y) as (r & -> & Hr).
  assert (chain builtin_translators x (to_hub x ++ from_hub y) y 1500000) as Hc.
  { apply chain_end_spec. unfold compressed in Hx, Hy. rewrite !orb_true_iff, !Z.eqb_eq in Hx, Hy.
    destruct Hx as [[->| ->]| ->], Hy as [[->| ->]| ->]; done || (vm_compute; reflexivity). }
  destruct r as [p|e].
  - destruct Hr as [Hp Hmin]. destruct p as [ps pd]. cbn in *.
    by destruct (compressed_chain x y ps pd Hx Hy Hne Hp (Hmin _ _ Hc)) as [-> ->].
  - destruct Hr as [_ Hno]. by destruct (Hno _ _ Hc).
Qed.
End paths.

(** ** Instances do not panic *)

(** An invariant of a translator's state under which no call panics. *)
Record tr_safe (t : Translator) (I : tr_state t → Prop) : Prop := {
  safe_in : ∀ s f, I s → ∃ r s', tr_frame_in t s f = Done (r, s') ∧ I s';
  safe_out : ∀ s, I s → ∃ r s', tr_frame_out t s = Done (r, s') ∧ I s' }.

Definition safe_translator (t : Translator) : Prop := ∃ I, tr_safe t I ∧ I (tr_new t).
Definition safe_instance (i : Instance_) : Prop :=
  ∃ I, tr_safe (in_translator i) I ∧ I (in_state i).

Lemma translate_rest_safe is_ : ∀ current,
  Forall safe_instance is_ →
  ∃ r is', translate_rest current is_ = Done (r, is') ∧ Forall safe_instance is'
    ∧ in_translator <$> is' = in_translator <$> is_.
Proof.
  induction is_ as [|i is_ IH]; intros current Hs; cbn [translate_rest]; [by do 2 eexists|].
  apply List.Forall_cons_iff in Hs as [Hi Hs]. destruct current as [f|]; [|by do 2 eexists; eauto].
  destruct i as [t s]. destruct Hi as (I & HI & Hs0). cbn in HI, Hs0. unfold instance_in. cbn [in_translator in_state].
  destruct (safe_in t I HI s f Hs0) as (r & s1 & -> & Hs1). cbn [outcome_bind].
  destruct r as [[]|e].
  - unfold instance_out. cbn [in_translator in_state].
    destruct (safe_out t I HI s1 Hs1) as (out & s2 & -> & Hs2). cbn [outcome_bind].
    destruct (IH out Hs) as (r & is' & -> & Hs' & E). cbn [outcome_bind]. do 2 eexists. split; [done|].
    split; [|by cbn; rewrite E]. constructor; [by exists I|done].
  - do 2 eexists. split; [done|]. split; [|done]. constructor; [by exists I|done].
Qed.

Lemma stateless_safe t :
  (∀ s f, returns (tr_frame_in t s f)) → (∀ s, returns (tr_frame_out t s)) → safe_translator t.
Proof.
  intros Hi Ho. exists (λ _, True). split; [|done]. split.
  - intros s f _. destruct (Hi s f) as [[r s'] E]. by exists r, s'.
  - intros s _. destruct (Ho s) as [[r s'] E]. by exists r, s'.
Qed.

Lemma decode_run_wf ns s :
  adpcm_wf s → ∃ rs, adpcm_run adpcm_decode s ns = Done rs ∧ adpcm_wf (adpcm_last s rs).
Proof.
  revert s. induction ns as [|n ns IH]; intros s Hs; [by exists []|]. cbn [adpcm_run].
  destruct (decode_wf n s Hs) as (_ & s' & _ & _ & -> & Hs' & _). cbn [outcome_bind].
  destruct (IH s' Hs') as (rs & -> & Hl). by eexists.
Qed.

Lemma encode_wf x s : adpcm_wf s → ∃ n s', adpcm_encode x s = Done (n, s') ∧ adpcm_wf s'.
Proof.
  intros Hs. unfold adpcm_encode. destruct (step_at s Hs) as (step & E & _). rewrite E. cbn [outcome_bind].
  destruct (decode_wf (diff_nibble step (Z.shiftr x 4 - signal s)) s Hs) as (_ & s' & _ & _ & -> & Hs' & _).
  by do 2 eexists.
Qed.

Lemma encode_run_wf xs s :
  adpcm_wf s → ∃ rs, adpcm_run adpcm_encode s xs = Done rs ∧ adpcm_wf (adpcm_last s rs).
Proof.
  revert s. induction xs as [|x xs IH]; intros s Hs; [by exists []|]. cbn [adpcm_run].
  destruct (encode_wf x s Hs) as (n & s' & -> & Hs'). cbn [outcome_bind]. destruct (IH s' Hs') as (rs & -> & Hl). by eexists.
Qed.

Lemma adpcm_new_wf : adpcm_wf adpcm_new.
Proof. by split; cbn; lia. Qed.

Lemma adpcm_decoder_safe : safe_translator AdpcmToSlinTranslator.
Proof.
  exists (λ '(s, _), adpcm_wf s). split; [|apply adpcm_new_wf]. split.
  - intros [s o] f Hs. cbn. destruct (voice_data' f) as [data|e]; [|by do 2 eexists].
    destruct (decode_run_wf (data ≫= nibbles) s Hs) as (rs & -> & Hl). by do 2 eexists.
  - intros [s o] Hs. cbn. destruct (out_frame ID_SLIN8 o). by do 2 eexists.
Qed.

Lemma adpcm_encoder_safe : safe_translator SlinToAdpcmTranslator.
Proof.
  exists (λ '(s, _), adpcm_wf s). split; [|apply adpcm_new_wf]. split.
  - intros [s buf] f Hs. cbn. destruct (voice_data' f) as [data|e]; [|by do 2 eexists].
    destruct (negb (even_len data)); by do 2 eexists.
  - intros [s buf] Hs. unfold SlinToAdpcmTranslator. cbn [tr_frame_out]. unfold adpcm_encode_out.
    case_match; [by do 2 eexists|]. cbv zeta.
    destruct (encode_run_wf (take (2 * (length buf / 2)) buf) s Hs) as (rs & -> & Hl). by do 2 eexists.
Qed.

Lemma builtin_safe i t : builtin_translators !! i = Some t → safe_translator t.
Proof.
  revert i t. enough (Forall safe_translator builtin_translators) as Hf
    by (intros i t; apply (Forall_lookup_1 _ _ _ _ Hf)).
  apply Forall_app. split.
  - repeat (apply List.Forall_cons || apply List.Forall_nil);
      try apply adpcm_decoder_safe; try apply adpcm_encoder_safe;
      apply stateless_safe; intros; by eexists.
  - apply Forall_forall. intros t. unfold all_resample_translators.
    intros (src & Ht & _)%list_elem_of_bind. apply list_elem_of_bind in Ht as (dst & Ht & _).
    case_match; [by apply elem_of_nil in Ht|]. apply list_elem_of_singleton in Ht as ->.
    unfold ResampleTranslator. destruct src, dst. apply stateless_safe; intros; by eexists.
Qed.

(** ** Translators that only fail *)

Definition mute (t : Translator) : Prop := ∀ s f, ∃ e, tr_frame_in t s f = Done (Err e, s).

Definition has_frame (r : result TranslateError (option Frame)) : bool :=
  match r with Ok (Some _) => true | _ => false end.

Lemma mute_rest is_ : ∀ current r is',
  Exists (λ i, mute (in_translator i)) is_ →
  translate_rest current is_ = Done (r, is') → has_frame r = false.
Proof.
  induction is_ as [|i is_ IH]; intros current r is' He; [by apply Exists_nil in He|].
  cbn [translate_rest]. destruct current as [f|]; [|by intros [= <- <-]].
  intros [[r1 i1] [Hin Hr]]%outcome_bind_Done. destruct r1 as [[]|e]; [|by injection Hr as <- <-].
  apply outcome_bind_Done in Hr as [[out i2] [Hout Hr]].
  apply outcome_bind_Done in Hr as [[r2 is2] [Hrest Hr]]. injection Hr as <- <-.
  apply Exists_cons in He as [Hm|He]; [|by eapply IH].
  destruct (Hm (in_state i) f) as [e E]. unfold instance_in in Hin. rewrite E in Hin. by injection Hin.
Qed.

(** A chain of built-in translators, over any frames. *)
Lemma run_chain_spec fs : ∀ c,
  Forall safe_instance c →
  ∃ rs, run_chain c fs = Done rs ∧ length rs = length fs
    ∧ (Exists mute (in_translator <$> c) → Forall (λ r, has_frame r = false) rs).
Proof.
  induction fs as [|f fs IH]; intros c Hc; cbn [run_chain]; [by exists []|].
  unfold translate. destruct (translate_rest_safe c (Some f) Hc) as (r & c' & Hr & Hc' & E). rewrite Hr.
  cbn [outcome_bind]. destruct (IH c' Hc') as (rs & -> & Hl & Hm). cbn [outcome_bind].
  eexists. split; [done|]. split; [cbn; by rewrite Hl|]. intros He. constructor.
  - eapply mute_rest, Hr. by rewrite Exists_fmap in He.
  - apply Hm. by rewrite E.
Qed.

Lemma create_chain_spec ps x y d :
  chain builtin_translators x ps y d → ∀ total,
  ∃ c, create_chain (register_builtin_translators matrix_new) (mkPath ps total) = Some c
    ∧ Forall safe_instance c
    ∧ ∀ i t, i ∈ ps → builtin_translators !! i = Some t → t ∈ in_translator <$> c.
Proof.
  intros Hc total. unfold create_chain, steps.
  replace (translators (register_builtin_translators matrix_new)) with builtin_translators
    by (symmetry; apply register_all_translators).
  induction Hc as [|p i t u d Hp (c & IH & Hs & Ht) Hi _]; [by exists []; split_and!; [..|set_solver]|].
  exists (c ++ [new_instance t]). split.
  { apply mapM_Some in IH. apply mapM_Some, Forall2_app; [done|]. constructor; [by rewrite Hi|constructor]. }
  split.
  - apply Forall_app. split; [done|]. apply Forall_singleton.
    destruct (builtin_safe i t Hi) as (I & HI & H0). by exists I.
  - intros j t' Hj Ht'. rewrite fmap_app. apply elem_of_app.
    apply elem_of_app in Hj as [Hj|Hj]; [left; by eapply Ht|right].
    apply list_elem_of_singleton in Hj as ->. cbn. apply list_elem_of_singleton. congruence.
Qed.

(** ** Chains through the stubs *)

Definition stub (x : Z) : bool := (x =? ID_G722) || (x =? ID_LPC10) || (x =? ID_CODEC2).

Lemma vocoder_decode_fails decode f :
  (∀ data, ∃ e, decode data = Err e) → ∃ e, vocoder_decode_in decode f = Err e.
Proof.
  intros Hd. unfold vocoder_decode_in. destruct (voice_data' f) as [data|e]; [|by eexists].
  destruct (Hd data) as [e E]. cbn. rewrite E. by eexists.
Qed.

Lemma vocoder_encode_fails encode f :
  (∀ data, ∃ e, encode data = Err e) → ∃ e, vocoder_encode_in encode f = Err e.
Proof.
  intros Hd. unfold vocoder_encode_in. destruct (voice_data' f) as [data|e]; [|by eexists]. cbn.
  case_match; [by eexists|]. destruct (Hd (le_samples data)) as [e E]. rewrite E. by eexists.
Qed.

Lemma stub_translator_mute name src dst cost frame_in :
  (∀ f, ∃ e, frame_in f = Err e) → mute (stub_translator name src dst cost frame_in).
Proof. intros Hf s f. destruct (Hf f) as [e E]. exists e. cbn. by rewrite E. Qed.

Lemma stub_mute i t :
  builtin_translators !! i = Some t → stub (tr_src t) || stub (tr_dst t) = true → mute t.
Proof.
  intros Ht Hs. pose proof (each_translator_spec
    (λ i u v _, negb (stub u || stub v) || existsb (Nat.eqb i) [4; 5; 8; 9; 10; 11]%nat) i t
    ltac:(vm_compute; reflexivity) Ht) as Hi. cbv beta in Hi. rewrite Hs in Hi. cbn [negb orb] in Hi.
  apply existsb_exists in Hi as (j & Hj & ->%Nat.eqb_eq).
  repeat (destruct Hj as [<-|Hj]; [injection Ht as <-; apply stub_translator_mute; intros f;
    first [by eexists | apply vocoder_decode_fails | apply vocoder_encode_fails]; by eexists|]).
  done.
Qed.

Lemma chain_stub x p y d :
  chain builtin_translators x p y d → x ≠ y → stub x || stub y = true →
  ∃ i t, i ∈ p ∧ builtin_translators !! i = Some t ∧ mute t.
Proof.
  intros Hc Hne Hs. apply orb_true_iff in Hs as [Hs|Hs].
  - apply chain_end_spec in Hc. destruct p as [|i p]; [by injection Hc|]. cbn in Hc.
    destruct (builtin_table !! i) as [[[u v] e]|] eqn:Ei; [|done].
    destruct (Z.eqb_spec u x) as [->|]; [|done].
    rewrite <-builtin_table_ok, list_lookup_fmap in Ei. apply fmap_Some in Ei as (t & Ht & [= Ex _ _]).
    exists i, t. split; [by left|]. split; [done|]. apply (stub_mute i t Ht). by rewrite <-Ex, Hs.
  - destruct p as [|i p _] using rev_ind; [by destruct (chain_nil_inv _ _ _ _ Hc)|].
    apply chain_snoc_inv in Hc as (t & d' & Ht & -> & _ & _). exists i, t.
    split; [apply elem_of_app; right; by left|]. split; [done|]. apply (stub_mute i t Ht). by rewrite Hs, orb_true_r.
Qed.

(** ** Frames between mu-law and A-law *)

Lemma le_bytes_roundtrip x : is_i16 x → from_le_bytes (x mod 256) (x / 256 mod 256) = x.
Proof.
  intros Hx. unfold is_i16 in Hx. unfold from_le_bytes, wrap_i16.
  replace ((x mod 256 + 256 * (x / 256 mod 256)) mod 2 ^ 16) with (x mod 2 ^ 16).
  - destruct (Z.ltb_spec (x mod 2 ^ 16) (2 ^ 15)); Z.to_euclidean_division_equations; lia.
  - Z.to_euclidean_division_equations; lia.
Qed.

Lemma le_samples_bind {A} (g : A → Z) (xs : list A) :
  (∀ x, is_i16 (g x)) → le_samples (xs ≫= λ x, to_le_bytes (g x)) = g <$> xs.
Proof.
  intros Hg. induction xs as [|x xs IH]; [done|]. cbn. rewrite le_bytes_roundtrip by done. f_equal. exact IH.
Qed.

Lemma even_len_bind {A} (g : A → Z) (xs : list A) : even_len (xs ≫= λ x, to_le_bytes (g x)) = true.
Proof. unfold even_len. induction xs as [|x xs IH]; [done|]. cbn. exact IH. Qed.

(** The frame that comes out for a frame [v]. *)
Definition recoded (code : Z → Z) (dst : Z) (v : VoiceFrame) : result TranslateError (option Frame) :=
  Ok match v_data v with
     | [] => None
     | data => Some (frame_voice dst (wrap_u32 (Z.of_nat (length data))) (code <$> data))
     end.

Section tables.
Context (name1 name2 : str) (x y c1 c2 : Z) (table code : Z → Z).
Context (Htable : ∀ b, is_i16 (table b)).

Definition table_chain : list Instance_ :=
  [new_instance (table_translator name1 x ID_SLIN8 c1 (decode_in table));
   new_instance (table_translator name2 ID_SLIN8 y c2 (encode_in code))].

Lemma translate_tables v :
  translate table_chain (FVoice v) = Done (recoded (λ b, code (table b)) y v, table_chain).
Proof.
  unfold translate, table_chain, recoded. destruct v as [? ? data ? ? ? ?]. cbn [v_data].
  destruct data as [|b data]; [done|].
  unfold new_instance. cbn [translate_rest]. unfold instance_in at 1.
  cbn [in_translator in_state table_translator tr_frame_in tr_new outcome_bind decode_in voice_data v_data].
  unfold instance_out at 1. cbn [in_translator in_state table_translator tr_frame_out].
  unfold out_push, out_frame. cbn [output_buf out_new app].
  destruct ((b :: data) ≫= λ b, to_le_bytes (table b)) as [|u us] eqn:E; [by destruct data|]. rewrite <-E.
  cbn [outcome_bind]. unfold instance_in.
  cbn [in_translator in_state table_translator tr_frame_in tr_new outcome_bind encode_in voice_data v_data frame_voice].
  rewrite even_len_bind, le_samples_bind by done. cbn [negb outcome_bind].
  unfold instance_out. cbn [in_translator in_state table_translator tr_frame_out].
  unfold out_push, out_frame. cbn [output_buf out_new app fmap list_fmap outcome_bind samples].
  rewrite <-list_fmap_compose. cbn [length]. by rewrite !length_fmap, Z.add_0_l.
Qed.

Lemma run_tables vs :
  run_chain table_chain (FVoice <$> vs) = Done (recoded (λ b, code (table b)) y <$> vs).
Proof.
  induction vs as [|v vs IH]; [done|]. cbn [fmap list_fmap run_chain].
  rewrite translate_tables. cbn [outcome_bind]. by rewrite IH.
Qed.
End tables.

Lemma create_pair i j t u total :
  builtin_translators !! i = Some t → builtin_translators !! j = Some u →
  create_chain (register_builtin_translators matrix_new) (mkPath [i; j] total)
  = Some [new_instance t; new_instance u].
Proof.
  intros Ht Hu. unfold create_chain, steps.
  replace (translators (register_builtin_translators matrix_new)) with builtin_translators
    by (symmetry; apply register_all_translators).
  apply mapM_Some. constructor; [by rewrite Ht|]. constructor; [by rewrite Hu|constructor].
Qed.

(** The code of an octet: mu-law to A-law, or back. *)
Definition recode (x b : Z) : Z :=
  if x =? ID_ULAW then linear_to_alaw_fast (mulaw_to_linear b) else linear_to_mulaw_fast (alaw_to_linear b).

Lemma table_i16 (tbl : list Z) b :
  forallb (λ v, (- 2 ^ 15 <=? v) && (v <? 2 ^ 15)) tbl = true → is_i16 (nth (Z.to_nat b) tbl 0).
Proof.
  intros Ht. rewrite forallb_forall in Ht. unfold is_i16.
  destruct (nth_in_or_default (Z.to_nat b) tbl 0) as [Hin| ->]; [|lia]. specialize (Ht _ Hin). lia.
Qed.

(** ** Theorems *)

(** Between mu-law, A-law and ADPCM the cheapest path is the one
    through signed linear at 8 kHz, whatever the heap does with ties.  The chain
    made from the path between mu-law and A-law takes every sequence of voice
    frames to the sequence of frames of the other codec with the same number of
    octets, each octet the code of its sample; an empty frame gives nothing.  No
    frame depends on the frames before it, and the timing of the input frame is
    lost. *)
Theorem builtin_transcoding `{HeapOrder} (x y : Z) :
  compressed x = true → compressed y = true → x ≠ y →
  builtin_path x y = Some (Done (Ok (mkPath (to_hub x ++ from_hub y) 1500000)))
  ∧ (x ≠ ID_ADPCM → y ≠ ID_ADPCM →
     ∃ c, create_chain (register_builtin_translators matrix_new)
            (mkPath (to_hub x ++ from_hub y) 1500000) = Some c
       ∧ ∀ vs, run_chain c (FVoice <$> vs) = Done (recoded (recode x) y <$> vs)).
Proof.
  intros Hx Hy Hne. split; [by apply compressed_path|]. intros Hxa Hya.
  unfold compressed in Hx, Hy. rewrite !orb_true_iff, !Z.eqb_eq in Hx, Hy.
  destruct Hx as [[->| ->]| ->], Hy as [[->| ->]| ->]; try done.
  - exists (table_chain (lit "ulawtolin") (lit "lintoalaw") ID_ULAW ID_ALAW LY_LL_ORIGSAMP LL_LY_ORIGSAMP
              mulaw_to_linear linear_to_alaw_fast).
    split; [exact (create_pair 0 3 UlawToSlinTranslator SlinToAlawTranslator _ eq_refl eq_refl)|].
    change (recode ID_ULAW) with (λ b, linear_to_alaw_fast (mulaw_to_linear b)).
    apply run_tables. intros b. apply table_i16. vm_compute. reflexivity.
  - exists (table_chain (lit "alawtolin") (lit "lintoulaw") ID_ALAW ID_ULAW LY_LL_ORIGSAMP LL_LY_ORIGSAMP
              alaw_to_linear linear_to_mulaw_fast).
    split; [exact (create_pair 2 1 AlawToSlinTranslator SlinToUlawTranslator _ eq_refl eq_refl)|].
    change (recode ID_ALAW) with (λ b, linear_to_mulaw_fast (alaw_to_linear b)).
    apply run_tables. intros b. apply table_i16. vm_compute. reflexivity.
Qed.

(** The matrix of the built-in translators has a path exactly between
    equal codecs and between any two of the fifteen codecs that have a translator.
    Every such path becomes a chain that takes any frames without a panic; when
    the path starts or ends at G.722, LPC-10 or Codec2, no frame ever comes out. *)
Theorem builtin_paths_mute `{HeapOrder} (x y : Z) :
  ((∃ p, builtin_path x y = Some (Done (Ok p)))
   ↔ x = y ∨ x ∈ translated_codecs ∧ y ∈ translated_codecs)
  ∧ ∀ p, builtin_path x y = Some (Done (Ok p)) →
      ∃ c, create_chain (register_builtin_translators matrix_new) p = Some c
        ∧ ∀ fs, ∃ rs, run_chain c fs = Done rs ∧ length rs = length fs
            ∧ (x ≠ y → stub x || stub y = true → Forall (λ r, has_frame r = false) rs).
Proof.
  split; [apply builtin_path_iff|]. intros [ps total] Hp.
  destruct (builtin_path_spec x y) as (r & Hr & Hc). rewrite Hp in Hr. injection Hr as <-.
  destruct Hc as [Hc _]. cbn in Hc. destruct (create_chain_spec ps x y total Hc total) as (c & Ec & Hs & Hin).
  exists c. split; [done|]. intros fs. destruct (run_chain_spec fs c Hs) as (rs & Er & Hl & Hm).
  exists rs. split_and!; [done..|]. intros Hne Hstub. apply Hm.
  destruct (chain_stub x ps y total Hc Hne Hstub) as (i & t & Hi & Ht & Hmute).
  apply Exists_exists. exists t. split; [by eapply Hin|done].
Qed.

Lemma builtin_transcoding_witness :
  ∃ c, create_chain (register_builtin_translators matrix_new) (mkPath [0; 3]%nat 1500000) = Some c
    ∧ run_chain c [frame_voice ID_ULAW 3 [0; 127; 200]; frame_voice ID_ULAW 0 []; frame_voice ID_ULAW 1 [16]]
      = Done [Ok (Some (frame_voice ID_ALAW 3 [42; 213; 224])); Ok None; Ok (Some (frame_voice ID_ALAW 1 [58]))].
Proof.
  destruct (proj2 (@builtin_transcoding list_heap ID_ULAW ID_ALAW eq_refl eq_refl ltac:(done)) ltac:(done) ltac:(done))
    as (c & Hc & Hr).
  exists c. split; [exact Hc|].
  refine (eq_trans (Hr [mkVoice ID_ULAW 3 [0; 127; 200] 0 (-1) 0 None; mkVoice ID_ULAW 0 [] 0 (-1) 0 None;
    mkVoice ID_ULAW 1 [16] 0 (-1) 0 None]) _).
  vm_compute. reflexivity.
Defined.

Lemma builtin_paths_mute_witness :
  ∃ p c, @builtin_path list_heap ID_ULAW ID_G722 = Some (Done (Ok p))
    ∧ create_chain (register_builtin_translators matrix_new) p = Some c
    ∧ ∃ r, run_chain c [frame_voice ID_ULAW 1 [16]] = Done [r] ∧ has_frame r = false.
Proof.
  pose proof (@builtin_paths_mute list_heap ID_ULAW ID_G722) as [[_ H] Hp].
  destruct (H (or_intror (conj (bool_decide_eq_true_1 _ (eq_refl : codec_in ID_ULAW = true))
      (bool_decide_eq_true_1 _ (eq_refl : codec_in ID_G722 = true))))) as [p E].
  destruct (Hp p E) as (c & Ec & Hrun). exists p, c. split; [exact E|]. split; [exact Ec|].
  destruct (Hrun [frame_voice ID_ULAW 1 [16]]) as ([|r [|]] & Er & Hl & Hm); [discriminate Hl| |discriminate Hl].
  exists r. split; [exact Er|]. exact (proj1 (proj1 (List.Forall_cons_iff _ _ _) (Hm ltac:(discriminate) eq_refl))).
Defined.
