(* ===== verification/JitterBuffer.v ===== *)
(** * RTP jitter buffers ([asterisk-sip/src/rtp/jitter_buffer.rs])

    The fixed, the adaptive and the enhanced jitter buffer.

    The theorems: away from the wrap of RTP timestamps the fixed buffer delivers
    exactly what an abstract buffer without order or capacity delivers: each
    frame at its playout time, when it arrived before.  A frame is never delivered
    at another time, and the buffers never hold more than 200 frames.  The
    adaptive buffer measures no jitter, and loses the frames of a stream while
    its delay is off the grid of the stream. *)

From Stdlib Require Import ZArith ZifyNat Sorting.Sorted.
From S2P Require Import Prelude RustStr Types F64.
Local Open Scope Z_scope.
Local Open Scope list_scope.

(** ** [BTreeMap<u32, Frame>]: entries in the order of the keys *)

Fixpoint bt_insert (k : Z) (f : Frame) (b : list (Z * Frame)) : list (Z * Frame) :=
  match b with
  | [] => [(k, f)]
  | (k', f') :: b' =>
      if k <? k' then (k, f) :: b
      else if k =? k' then (k, f) :: b'
      else (k', f') :: bt_insert k f b'
  end.

Fixpoint bt_get (k : Z) (b : list (Z * Frame)) : option Frame :=
  match b with
  | [] => None
  | (k', f) :: b' => if k =? k' then Some f else bt_get k b'
  end.

Fixpoint bt_remove (k : Z) (b : list (Z * Frame)) : list (Z * Frame) :=
  match b with
  | [] => []
  | (k', f) :: b' => if k =? k' then b' else (k', f) :: bt_remove k b'
  end.

(** ** Results *)

Inductive JitterBufferResult :=
  | JbOk (f : Frame)
  | JbPlcMarker
  | JbNotReady
  | JbEmpty.

Definition MAX_FRAMES : nat := 200.

(** [diff > 0 && diff < 0x8000_0000] for [playout_ts.wrapping_sub(ts)]. *)
Definition is_old (playout_ts ts : Z) : bool :=
  let diff := wrap_u32 (playout_ts - ts) in (0 <? diff) && (diff <? 2 ^ 31).

(** [take_while] and the removal of the keys it gives. *)
Fixpoint drop_old (playout_ts : Z) (b : list (Z * Frame)) : list (Z * Frame) :=
  match b with
  | [] => []
  | (ts, f) :: b' => if is_old playout_ts ts then drop_old playout_ts b' else b
  end.
Definition any_old (playout_ts : Z) (b : list (Z * Frame)) : bool :=
  match b with [] => false | (ts, _) :: _ => is_old playout_ts ts end.

(** The frame to play and the entries left, after the old ones are dropped. *)
Definition release (playout_ts : Z) (b : list (Z * Frame)) : option Frame * list (Z * Frame) :=
  match bt_get playout_ts b with
  | Some f => (Some f, bt_remove playout_ts b)
  | None =>
      match b with
      | (key, f) :: b' => if is_old playout_ts key then (Some f, b') else (None, b)
      | [] => (None, b)
      end
  end.

(** Making room for one more frame. *)
Definition evict (b : list (Z * Frame)) : list (Z * Frame) :=
  if (MAX_FRAMES <=? length b)%nat then match b with _ :: b' => b' | [] => [] end else b.

(** Past the first frame by more than the delay. *)
Definition overdue (first : option Z) (target_delay timestamp : Z) : bool :=
  match first with
  | Some first =>
      let elapsed := wrap_u32 (timestamp - first) in
      (target_delay <? elapsed) && (elapsed <? 2 ^ 31)
  | None => false
  end.

(** ** The fixed buffer *)

Record FixedJitterBuffer := mkFixed {
  fx_buffer : list (Z * Frame); fx_target_delay : Z; fx_delay_ms : Z; fx_first_timestamp : option Z }.

Definition delay_samples (ms sample_rate : Z) : Z := wrap_u32 (wrap_u32 ms * sample_rate) / 1000.

Definition fixed_new (delay_ms sample_rate : Z) : FixedJitterBuffer :=
  mkFixed [] (delay_samples delay_ms sample_rate) delay_ms None.

Definition first_or (first : option Z) (timestamp : Z) : option Z :=
  match first with Some _ => first | None => Some timestamp end.

Definition fixed_put (frame : Frame) (timestamp : Z) (j : FixedJitterBuffer) : FixedJitterBuffer :=
  mkFixed (bt_insert timestamp frame (evict (fx_buffer j))) (fx_target_delay j) (fx_delay_ms j)
    (first_or (fx_first_timestamp j) timestamp).

Definition fixed_get (timestamp : Z) (j : FixedJitterBuffer) : JitterBufferResult * FixedJitterBuffer :=
  match fx_buffer j with
  | [] => (JbEmpty, j)
  | b =>
      let playout_ts := wrap_u32 (timestamp - fx_target_delay j) in
      let (r, b) := release playout_ts (drop_old playout_ts b) in
      let j' := mkFixed b (fx_target_delay j) (fx_delay_ms j) (fx_first_timestamp j) in
      match r with
      | Some frame => (JbOk frame, j')
      | None =>
          (if overdue (fx_first_timestamp j) (fx_target_delay j) timestamp then JbPlcMarker else JbNotReady, j')
      end
  end.

Definition fixed_reset (j : FixedJitterBuffer) : FixedJitterBuffer :=
  mkFixed [] (fx_target_delay j) (fx_delay_ms j) None.
Definition fixed_target_delay_ms (j : FixedJitterBuffer) : Z := wrap_u32 (fx_delay_ms j).
Definition fixed_len (j : FixedJitterBuffer) : nat := length (fx_buffer j).

(** ** The adaptive buffer *)

Record AdaptiveJitterBuffer := mkAdaptive {
  ad_buffer : list (Z * Frame); min_delay : Z; target_delay : Z; max_delay : Z; sample_rate : Z;
  first_timestamp : option Z; last_arrival_ts : option Z; last_transit : option Z;
  jitter_estimate : f64; max_jitter : Z; frames_received : Z }.

Definition alpha : f64 := f64_div f64_one (f64_of_Z 16).

Definition adaptive_new (min_ms initial_ms max_ms rate : Z) : AdaptiveJitterBuffer :=
  mkAdaptive [] (delay_samples min_ms rate) (delay_samples initial_ms rate) (delay_samples max_ms rate)
    rate None None None f64_zero 0 0.

(** [x as u32] *)
Definition as_u32 (x : f64) : Z := Z.max 0 (Z.min u32_max (as_i64 x)).

Definition update_jitter (rtp_timestamp arrival_timestamp : Z) (j : AdaptiveJitterBuffer) : AdaptiveJitterBuffer :=
  let transit := wrap_u32 (arrival_timestamp - rtp_timestamp) in
  let (estimate, peak) :=
    match last_transit j with
    | Some last =>
        let d := f64_of_Z (Z.abs (transit - last)) in
        let estimate := f64_add (jitter_estimate j) (f64_mul alpha (f64_sub d (jitter_estimate j))) in
        (estimate, Z.max (max_jitter j) (as_u32 estimate))
    | None => (jitter_estimate j, max_jitter j)
    end in
  mkAdaptive (ad_buffer j) (min_delay j) (target_delay j) (max_delay j) (sample_rate j)
    (first_timestamp j) (last_arrival_ts j) (Some transit) estimate peak (frames_received j).

(** [Ord::clamp] panics when the bounds are the wrong way round. *)
Definition clamp_u32 (x lo hi : Z) : outcome Z :=
  if hi <? lo then Panic else Done (if x <? lo then lo else if hi <? x then hi else x).

Definition new_target (target new lo hi : Z) : Z :=
  if target <? new then Z.min (target + (new - target) / 2) hi
  else if new <? target then
    let reduction := (target - new) / 8 in Z.max (Z.max 0 (target - Z.max reduction 1)) lo
  else target.

Definition adapt_delay (j : AdaptiveJitterBuffer) : outcome AdaptiveJitterBuffer :=
  let desired := as_u32 (f64_mul (jitter_estimate j) (f64_of_Z 2)) in
  let! new := clamp_u32 desired (min_delay j) (max_delay j) in
  Done (mkAdaptive (ad_buffer j) (min_delay j)
          (new_target (target_delay j) new (min_delay j) (max_delay j))
          (max_delay j) (sample_rate j) (first_timestamp j) (last_arrival_ts j) (last_transit j)
          (jitter_estimate j) (max_jitter j) (frames_received j)).

Definition adaptive_put (frame : Frame) (timestamp : Z) (j : AdaptiveJitterBuffer) : outcome AdaptiveJitterBuffer :=
  let j := mkAdaptive (ad_buffer j) (min_delay j) (target_delay j) (max_delay j) (sample_rate j)
             (first_or (first_timestamp j) timestamp) (last_arrival_ts j) (last_transit j)
             (jitter_estimate j) (max_jitter j) (wrap_u64 (frames_received j + 1)) in
  let arrival_ts := timestamp in
  let j := match last_arrival_ts j with
           | Some _ => update_jitter timestamp arrival_ts j
           | None => j
           end in
  let j := mkAdaptive (ad_buffer j) (min_delay j) (target_delay j) (max_delay j) (sample_rate j)
             (first_timestamp j) (Some arrival_ts) (last_transit j)
             (jitter_estimate j) (max_jitter j) (frames_received j) in
  let! j := if frames_received j mod 10 =? 0 then adapt_delay j else Done j in
  Done (mkAdaptive (bt_insert timestamp frame (evict (ad_buffer j))) (min_delay j) (target_delay j)
          (max_delay j) (sample_rate j) (first_timestamp j) (last_arrival_ts j) (last_transit j)
          (jitter_estimate j) (max_jitter j) (frames_received j)).

Definition set_ad_buffer (b : list (Z * Frame)) (j : AdaptiveJitterBuffer) : AdaptiveJitterBuffer :=
  mkAdaptive b (min_delay j) (target_delay j) (max_delay j) (sample_rate j) (first_timestamp j)
    (last_arrival_ts j) (last_transit j) (jitter_estimate j) (max_jitter j) (frames_received j).

Definition adaptive_get (timestamp : Z) (j : AdaptiveJitterBuffer) : JitterBufferResult * AdaptiveJitterBuffer :=
  match ad_buffer j with
  | [] => (JbEmpty, j)
  | b =>
      let playout_ts := wrap_u32 (timestamp - target_delay j) in
      let (r, b') := release playout_ts (drop_old playout_ts b) in
      (match r with
       | Some frame => JbOk frame
       | None =>
           if any_old playout_ts b || overdue (first_timestamp j) (target_delay j) timestamp
           then JbPlcMarker else JbNotReady
       end, set_ad_buffer b' j)
  end.

Definition adaptive_reset (j : AdaptiveJitterBuffer) : AdaptiveJitterBuffer :=
  mkAdaptive [] (min_delay j) (target_delay j) (max_delay j) (sample_rate j) None None None f64_zero 0 0.
Definition adaptive_target_delay_ms (j : AdaptiveJitterBuffer) : Z :=
  if sample_rate j =? 0 then 0 else wrap_u32 (target_delay j * 1000) / sample_rate j.
Definition adaptive_len (j : AdaptiveJitterBuffer) : nat := length (ad_buffer j).

(** ** The enhanced buffer *)

Record JitterBufferStats := mkStats {
  jitter_ms : f64; st_frames_received : Z; frames_lost : Z; late_packets : Z; buffer_size : nat;
  st_target_delay_ms : Z; peak_jitter_ms : f64 }.

Record EnhancedJitterBuffer := mkEnhanced {
  inner : AdaptiveJitterBuffer; stats : JitterBufferStats; dtx_active : bool; consecutive_empty : Z;
  dtx_threshold : Z; plc_enabled : bool; max_delay_ms : Z; min_delay_ms : Z }.

Definition enhanced_new (min_ms initial_ms max_ms rate : Z) : EnhancedJitterBuffer :=
  mkEnhanced (adaptive_new min_ms initial_ms max_ms rate)
    (mkStats f64_zero 0 0 0 0 (wrap_u32 initial_ms) f64_zero) false 0 5 true (wrap_u32 max_ms) (wrap_u32 min_ms).

Definition set_plc_enabled (enabled : bool) (e : EnhancedJitterBuffer) : EnhancedJitterBuffer :=
  mkEnhanced (inner e) (stats e) (dtx_active e) (consecutive_empty e) (dtx_threshold e) enabled
    (max_delay_ms e) (min_delay_ms e).
Definition set_max_delay (ms : Z) (e : EnhancedJitterBuffer) : EnhancedJitterBuffer :=
  mkEnhanced (inner e) (stats e) (dtx_active e) (consecutive_empty e) (dtx_threshold e) (plc_enabled e)
    (wrap_u32 ms) (min_delay_ms e).
Definition set_min_delay (ms : Z) (e : EnhancedJitterBuffer) : EnhancedJitterBuffer :=
  mkEnhanced (inner e) (stats e) (dtx_active e) (consecutive_empty e) (dtx_threshold e) (plc_enabled e)
    (max_delay_ms e) (wrap_u32 ms).

Definition enhanced_put (frame : Frame) (timestamp : Z) (e : EnhancedJitterBuffer) : outcome EnhancedJitterBuffer :=
  let! i := adaptive_put frame timestamp (inner e) in
  let s := stats e in
  Done (mkEnhanced i
    (mkStats (jitter_ms s) (wrap_u64 (st_frames_received s + 1)) (frames_lost s) (late_packets s)
       (adaptive_len i) (st_target_delay_ms s) (peak_jitter_ms s))
    false 0 (dtx_threshold e) (plc_enabled e) (max_delay_ms e) (min_delay_ms e)).

(** [x * 1000.0 / sample_rate.max(1) as f64] *)
Definition in_ms (x : f64) (rate : Z) : f64 :=
  f64_div (f64_mul x (f64_of_Z 1000)) (f64_of_Z (Z.max rate 1)).

Definition enhanced_get (timestamp : Z) (e : EnhancedJitterBuffer) : JitterBufferResult * EnhancedJitterBuffer :=
  let (result, i) := adaptive_get timestamp (inner e) in
  let s := stats e in
  let '(dtx, empties, lost) :=
    match result with
    | JbOk _ => (false, 0, frames_lost s)
    | JbPlcMarker => (dtx_active e, consecutive_empty e, wrap_u64 (frames_lost s + 1))
    | JbEmpty =>
        let n := wrap_u32 (consecutive_empty e + 1) in
        (dtx_active e || (dtx_threshold e <=? n), n, frames_lost s)
    | JbNotReady => (dtx_active e, consecutive_empty e, frames_lost s)
    end in
  (result,
   mkEnhanced i
     (mkStats (in_ms (jitter_estimate i) (sample_rate i)) (st_frames_received s) lost (late_packets s)
        (adaptive_len i) (adaptive_target_delay_ms i) (in_ms (f64_of_Z (max_jitter i)) (sample_rate i)))
     dtx empties (dtx_threshold e) (plc_enabled e) (max_delay_ms e) (min_delay_ms e)).

Definition enhanced_reset (e : EnhancedJitterBuffer) : EnhancedJitterBuffer :=
  mkEnhanced (adaptive_reset (inner e)) (mkStats f64_zero 0 0 0 0 0 f64_zero) false 0 (dtx_threshold e)
    (plc_enabled e) (max_delay_ms e) (min_delay_ms e).

#[local] Ltac Zify.zify_post_hook ::= Z.to_euclidean_division_equations.

(** ** Running a buffer *)

Inductive JbOp := JbPut (frame : Frame) (timestamp : Z) | JbGet (timestamp : Z).

(** The results of the [get]s. *)
Fixpoint fixed_run (j : FixedJitterBuffer) (ops : list JbOp) : list JitterBufferResult * FixedJitterBuffer :=
  match ops with
  | [] => ([], j)
  | JbPut f ts :: ops' => fixed_run (fixed_put f ts j) ops'
  | JbGet ts :: ops' =>
      let (r, j) := fixed_get ts j in let (rs, j) := fixed_run j ops' in (r :: rs, j)
  end.

Fixpoint adaptive_run (j : AdaptiveJitterBuffer) (ops : list JbOp)
    : outcome (list JitterBufferResult * AdaptiveJitterBuffer) :=
  match ops with
  | [] => Done ([], j)
  | JbPut f ts :: ops' => let! j := adaptive_put f ts j in adaptive_run j ops'
  | JbGet ts :: ops' =>
      let (r, j) := adaptive_get ts j in
      let! (rs, j) := adaptive_run j ops' in Done (r :: rs, j)
  end.

(** ** The abstract buffer

    The frames that wait for their playout time, without order or capacity. *)

Record Waiting := mkWaiting { waiting : gmap Z Frame; first_seen : option Z }.

Definition wait_put (f : Frame) (ts : Z) (w : Waiting) : Waiting :=
  mkWaiting (<[ts := f]> (waiting w)) (first_or (first_seen w) ts).

Definition wait_get (playout : Z) (w : Waiting) : JitterBufferResult * Waiting :=
  (if bool_decide (waiting w = ∅) then JbEmpty
   else match waiting w !! playout with
        | Some f => JbOk f
        | None => match first_seen w with
                  | Some first => if first <? playout then JbPlcMarker else JbNotReady
                  | None => JbNotReady
                  end
        end,
   mkWaiting (filter (λ p, playout < p.1) (waiting w)) (first_seen w)).

Fixpoint wait_run (delay : Z) (w : Waiting) (ops : list JbOp) : list JitterBufferResult :=
  match ops with
  | [] => []
  | JbPut f ts :: ops' => wait_run delay (wait_put f ts w) ops'
  | JbGet ts :: ops' => let (r, w) := wait_get (ts - delay) w in r :: wait_run delay w ops'
  end.

(** Timestamps away from the wrap, and never 200 frames waiting at a [put]. *)
Fixpoint calm (delay : Z) (w : Waiting) (ops : list JbOp) : Prop :=
  match ops with
  | [] => True
  | JbPut f ts :: ops' =>
      0 ≤ ts < 2 ^ 31 ∧ (size (waiting w) < MAX_FRAMES)%nat ∧ calm delay (wait_put f ts w) ops'
  | JbGet ts :: ops' => delay ≤ ts < 2 ^ 31 ∧ calm delay (wait_get (ts - delay) w).2 ops'
  end.

(** ** Lemmas: ordered entries *)

Abbreviation keys b := (b.*1).
Definition bt_wf (b : list (Z * Frame)) : Prop := StronglySorted Z.lt (keys b).

Lemma bt_wf_cons k f b : bt_wf ((k, f) :: b) ↔ bt_wf b ∧ ∀ k', k' ∈ keys b → k < k'.
Proof.
  unfold bt_wf. cbn. split.
  - intros H. apply StronglySorted_inv in H as [Hs Hf]. split; [done|]. by apply Forall_forall.
  - intros [Hs Hf]. constructor; [done|]. by apply Forall_forall.
Qed.

Lemma bt_insert_keys k f b k' : k' ∈ keys (bt_insert k f b) ↔ k' = k ∨ k' ∈ keys b.
Proof.
  induction b as [|[i g] b IH]; cbn; [set_solver|]. destruct (Z.ltb_spec k i); [cbn; set_solver|].
  destruct (Z.eqb_spec k i) as [->|]; cbn; set_solver.
Qed.

Lemma bt_insert_wf k f b : bt_wf b → bt_wf (bt_insert k f b).
Proof.
  induction b as [|[i g] b IH]; intros Hb; cbn; [apply bt_wf_cons; cbn; set_solver|].
  pose proof Hb as [Hw Hlt]%bt_wf_cons. destruct (Z.ltb_spec k i).
  - apply bt_wf_cons. split; [done|]. cbn. intros k' [->|Hk]%elem_of_cons; [lia|]. specialize (Hlt k' Hk). lia.
  - destruct (Z.eqb_spec k i) as [->|]; [by apply bt_wf_cons|]. apply bt_wf_cons. split; [by apply IH|].
    intros k' [->|Hk]%bt_insert_keys; [lia|auto].
Qed.

Lemma bt_get_None k b : (∀ k', k' ∈ keys b → k < k') → bt_get k b = None.
Proof.
  induction b as [|[i g] b IH]; intros Hb; cbn; [done|].
  destruct (Z.eqb_spec k i) as [->|]; [specialize (Hb i); cbn in Hb; set_solver by lia|].
  apply IH. intros k' Hk. apply Hb. cbn. by right.
Qed.

Lemma bt_get_map k b : bt_get k b = list_to_map (M := gmap Z Frame) b !! k.
Proof.
  induction b as [|[i g] b IH]; cbn; [by rewrite lookup_empty|]. destruct (Z.eqb_spec k i) as [->|].
  - by rewrite lookup_insert_eq.
  - by rewrite lookup_insert_ne by done.
Qed.

Lemma bt_insert_map k f b :
  list_to_map (M := gmap Z Frame) (bt_insert k f b) = <[k := f]> (list_to_map b).
Proof.
  induction b as [|[i g] b IH]; cbn; [done|]. destruct (Z.ltb_spec k i); [done|].
  destruct (Z.eqb_spec k i) as [->|]; cbn.
  - by rewrite insert_insert_eq.
  - rewrite IH. by apply insert_insert_ne.
Qed.

Lemma bt_remove_wf k b :
  bt_wf b → bt_wf (bt_remove k b) ∧ ∀ i, i ∈ keys (bt_remove k b) → i ∈ keys b.
Proof.
  induction b as [|[i g] b IH]; intros Hb; [done|]. apply bt_wf_cons in Hb as [Hw Hlt]. cbn.
  destruct (Z.eqb_spec k i) as [->|]; [split; [done|cbn; set_solver]|].
  destruct (IH Hw) as [Hw' Hin]. split; [apply bt_wf_cons; split; [done|auto]|cbn; set_solver].
Qed.

Lemma drop_old_wf p b : bt_wf b → bt_wf (drop_old p b) ∧ ∀ i, i ∈ keys (drop_old p b) → i ∈ keys b.
Proof.
  induction b as [|[i g] b IH]; intros Hb; [done|]. cbn. destruct (is_old p i); [|done].
  apply bt_wf_cons in Hb as [Hw Hlt]. destruct (IH Hw) as [Hw' Hin]. split; [done|cbn; set_solver].
Qed.

Lemma bt_NoDup b : bt_wf b → NoDup (keys b).
Proof.
  induction b as [|[i g] b IH]; intros Hb; cbn; [constructor|]. apply bt_wf_cons in Hb as [Hw Hlt].
  constructor; [|by apply IH]. intros Hi. specialize (Hlt i Hi). lia.
Qed.

(** ** Lemmas: release *)

Lemma is_old_self p : is_old p p = false.
Proof. unfold is_old. by rewrite Z.sub_diag. Qed.

Lemma bt_get_drop_old p b : bt_get p (drop_old p b) = bt_get p b.
Proof.
  induction b as [|[i g] b IH]; [done|]. cbn. destruct (is_old p i) eqn:E; [|done].
  destruct (Z.eqb_spec p i) as [->|]; [by rewrite is_old_self in E|done].
Qed.

Lemma bt_remove_absent p b : bt_get p b = None → bt_remove p b = b.
Proof.
  induction b as [|[i g] b IH]; cbn; [done|]. destruct (Z.eqb_spec p i); [done|]. intros Hb. by rewrite IH.
Qed.

(** After the old entries are dropped no other frame is ready. *)
Lemma release_exact p b :
  release p (drop_old p b) = (bt_get p b, bt_remove p (drop_old p b)).
Proof.
  unfold release. rewrite bt_get_drop_old. destruct (bt_get p b) eqn:E; [done|].
  rewrite bt_remove_absent by by rewrite bt_get_drop_old.
  assert (any_old p (drop_old p b) = false) as Ha.
  { clear E. induction b as [|[i g] b IH]; [done|]. cbn. by destruct (is_old p i) eqn:E. }
  destruct (drop_old p b) as [|[i g] b']; [done|]. cbn in Ha. by rewrite Ha.
Qed.

Lemma is_old_calm p ts : 0 ≤ p < 2 ^ 31 → 0 ≤ ts < 2 ^ 31 → is_old p ts = (ts <? p).
Proof.
  intros Hp Hts. unfold is_old, wrap_u32. destruct (Z.ltb_spec ts p).
  - rewrite Z.mod_small by lia. apply andb_true_iff. lia.
  - destruct (decide (ts = p)) as [->|]; [by rewrite Z.sub_diag|].
    replace ((p - ts) mod 2 ^ 32) with (p - ts + 2 ^ 32) by (lia).
    apply andb_false_iff. lia.
Qed.

Lemma filter_keeps p b :
  (∀ k, k ∈ keys b → p < k) → filter (λ e : Z * Frame, p < e.1) (list_to_map (M := gmap Z Frame) b) = list_to_map b.
Proof.
  intros Hb. apply map_filter_id. intros k f Hk%elem_of_list_to_map_2. apply Hb.
  apply list_elem_of_fmap. by exists (k, f).
Qed.

Lemma release_map p b :
  0 ≤ p < 2 ^ 31 → bt_wf b → (∀ k, k ∈ keys b → 0 ≤ k < 2 ^ 31) →
  list_to_map (M := gmap Z Frame) (bt_remove p (drop_old p b))
  = filter (λ e : Z * Frame, p < e.1) (list_to_map b).
Proof.
  intros Hp. induction b as [|[i g] b IH]; intros Hw Hr; [symmetry; apply map_filter_empty|].
  pose proof Hw as [Hw' Hlt]%bt_wf_cons. cbn [drop_old list_to_map foldr uncurry fst snd].
  assert (Hi : 0 ≤ i < 2 ^ 31) by (apply Hr; cbn; by left).
  rewrite is_old_calm by done. destruct (Z.ltb_spec i p).
  - rewrite IH; [|done|intros k Hk; apply Hr; cbn; by right]. symmetry.
    apply map_filter_insert_not'; [cbn; lia|].
    intros x Hx. exfalso. apply elem_of_list_to_map_2 in Hx.
    specialize (Hlt i ltac:(apply list_elem_of_fmap; by exists (i, x))). lia.
  - cbn [bt_remove]. destruct (Z.eqb_spec p i) as [->|].
    + rewrite map_filter_insert_False by (cbn; lia). rewrite delete_id.
      * symmetry. apply filter_keeps. exact Hlt.
      * rewrite <-bt_get_map. apply bt_get_None, Hlt.
    + rewrite bt_remove_absent.
      * symmetry. apply (filter_keeps p ((i, g) :: b)).
        intros k [->|Hk]%elem_of_cons; cbn; [lia|]. specialize (Hlt k Hk). lia.
      * apply bt_get_None. intros k Hk. specialize (Hlt k Hk). lia.
Qed.

(** ** The fixed buffer refines the abstract one *)

Record represents (delay : Z) (w : Waiting) (j : FixedJitterBuffer) : Prop := {
  rp_delay : fx_target_delay j = delay ∧ 0 ≤ delay;
  rp_wf : bt_wf (fx_buffer j);
  rp_range : ∀ k, k ∈ keys (fx_buffer j) → 0 ≤ k < 2 ^ 31;
  rp_map : list_to_map (fx_buffer j) = waiting w;
  rp_first : fx_first_timestamp j = first_seen w;
  rp_first_range : ∀ first, first_seen w = Some first → 0 ≤ first < 2 ^ 31 }.

Lemma represents_size delay w j : represents delay w j → length (fx_buffer j) = size (waiting w).
Proof.
  intros Hj. rewrite <-(rp_map _ _ _ Hj), map_size_list_to_map; [done|]. by apply bt_NoDup, (rp_wf _ _ _ Hj).
Qed.

Lemma represents_put delay w j f ts :
  represents delay w j → 0 ≤ ts < 2 ^ 31 → (size (waiting w) < MAX_FRAMES)%nat →
  represents delay (wait_put f ts w) (fixed_put f ts j).
Proof.
  intros Hj Hts Hsize. pose proof (represents_size _ _ _ Hj) as Hl.
  assert (evict (fx_buffer j) = fx_buffer j) as He.
  { unfold evict. destruct (Nat.leb_spec MAX_FRAMES (length (fx_buffer j))); [lia|done]. }
  split; cbn; rewrite ?He.
  - apply Hj.
  - apply bt_insert_wf, Hj.
  - intros k [->|Hk]%bt_insert_keys; [done|by apply Hj].
  - by rewrite bt_insert_map, (rp_map _ _ _ Hj).
  - by rewrite (rp_first _ _ _ Hj).
  - intros first. destruct (first_seen w) eqn:E; cbn; intros [= <-]; [exact (rp_first_range _ _ _ Hj _ E)|done].
Qed.

Lemma overdue_calm first delay ts :
  0 ≤ first < 2 ^ 31 → 0 ≤ delay ≤ ts → ts < 2 ^ 31 →
  overdue (Some first) delay ts = (first <? ts - delay).
Proof.
  intros Hf Hd Hts. unfold overdue, wrap_u32. destruct (decide (first ≤ ts)).
  - rewrite Z.mod_small by lia. destruct (Z.ltb_spec first (ts - delay)); [apply andb_true_iff|apply andb_false_iff]; lia.
  - replace ((ts - first) mod 2 ^ 32) with (ts - first + 2 ^ 32) by (lia).
    destruct (Z.ltb_spec first (ts - delay)); [lia|]. apply andb_false_iff. lia.
Qed.

Lemma represents_get delay w j ts :
  represents delay w j → delay ≤ ts < 2 ^ 31 →
  (fixed_get ts j).1 = (wait_get (ts - delay) w).1
  ∧ represents delay (wait_get (ts - delay) w).2 (fixed_get ts j).2.
Proof.
  intros Hj Hts. destruct (rp_delay _ _ _ Hj) as [Hd Hd0]. pose proof (rp_map _ _ _ Hj) as Hm.
  unfold fixed_get, wait_get. destruct (fx_buffer j) as [|e b] eqn:Eb.
  { assert (waiting w = ∅) as Ew by by rewrite <-Hm. rewrite Ew.
    split; [by rewrite bool_decide_true|].
    split; cbn; rewrite ?Eb; try apply Hj; [constructor|by intros k Hk%elem_of_nil|by rewrite map_filter_empty]. }
  rewrite <-Eb in *. rewrite Hd. rewrite wrap_u32_id by (unfold is_u32, u32_max; lia).
  rewrite release_exact, bt_get_map, Hm. rewrite bool_decide_false.
  2: { intros Ew. apply (f_equal size) in Ew. rewrite <-(represents_size _ _ _ Hj), Eb in Ew. done. }
  pose proof (rp_first _ _ _ Hj) as Hf.
  assert (represents delay (mkWaiting (filter (λ p, ts - delay < p.1) (waiting w)) (first_seen w))
    (mkFixed (bt_remove (ts - delay) (drop_old (ts - delay) (fx_buffer j))) delay (fx_delay_ms j) (fx_first_timestamp j)))
    as Hrep.
  { destruct (drop_old_wf (ts - delay) _ (rp_wf _ _ _ Hj)) as [Hw Hin].
    destruct (bt_remove_wf (ts - delay) _ Hw) as [Hw' Hin'].
    split; cbn; try done; try apply Hj; [intros k Hk; apply Hj; auto|].
    rewrite <-Hm. apply release_map; [lia|apply Hj..]. }
  destruct (waiting w !! (ts - delay)); [done|]. split; [|done]. cbn. rewrite Hf.
  destruct (first_seen w) as [first|] eqn:E; [|done].
  rewrite overdue_calm; [done|by apply (rp_first_range _ _ _ Hj)|lia..].
Qed.

Lemma fixed_run_refines delay ops : ∀ w j,
  represents delay w j → calm delay w ops → (fixed_run j ops).1 = wait_run delay w ops.
Proof.
  induction ops as [|[f ts|ts] ops IH]; intros w j Hj Hc; cbn [fixed_run wait_run]; [done| |].
  - destruct Hc as (Hts & Hs & Hc). apply IH; [|done]. by apply represents_put.
  - destruct Hc as [Hts Hc]. destruct (represents_get delay w j ts Hj Hts) as [Hr Hrep].
    destruct (fixed_get ts j) as [r j'], (wait_get (ts - delay) w) as [r' w']. cbn in *. subst r'.
    specialize (IH w' j' Hrep Hc). destruct (fixed_run j' ops). cbn in *. by rewrite IH.
Qed.

(** ** The adaptive buffer measures no jitter *)

(** The delay after [n] adaptations to no jitter. *)
Definition shrunk (lo hi : Z) (n : nat) (t : Z) : Z := Nat.iter n (λ t, new_target t lo lo hi) t.

Lemma new_target_shrinks lo hi t :
  0 ≤ lo → lo ≤ t → lo ≤ new_target t lo lo hi ∧ new_target t lo lo hi ≤ Z.max lo (t - 1).
Proof.
  intros H0 Ht. unfold new_target. destruct (Z.ltb_spec t lo); [lia|].
  destruct (Z.ltb_spec lo t); lia.
Qed.

Lemma shrunk_bounds lo hi n t :
  0 ≤ lo → lo ≤ t → lo ≤ shrunk lo hi n t ∧ shrunk lo hi n t ≤ Z.max lo (t - Z.of_nat n).
Proof.
  intros H0 Ht. induction n as [|n [IH1 IH2]]; [cbn; lia|].
  change (shrunk lo hi (S n) t) with (new_target (shrunk lo hi n t) lo lo hi).
  pose proof (new_target_shrinks lo hi (shrunk lo hi n t) H0 IH1). lia.
Qed.

Definition is_put (o : JbOp) : bool := match o with JbPut _ _ => true | JbGet _ => false end.
Definition puts (ops : list JbOp) : nat := length (List.filter is_put ops).

(** The state after [n] puts. *)
Record no_jitter (lo hi t : Z) (n : nat) (j : AdaptiveJitterBuffer) : Prop := {
  nj_bounds : min_delay j = lo ∧ max_delay j = hi;
  nj_target : target_delay j = shrunk lo hi (n / 10) t;
  nj_count : frames_received j = Z.of_nat n;
  nj_transit : last_transit j = None ∨ last_transit j = Some 0;
  nj_estimate : jitter_estimate j = f64_zero ∧ max_jitter j = 0 }.

Lemma shrunk_S lo hi n t :
  shrunk lo hi (S n / 10) t
  = if (Z.of_nat (S n) mod 10 =? 0) then new_target (shrunk lo hi (n / 10) t) lo lo hi
    else shrunk lo hi (n / 10) t.
Proof.
  destruct (Z.eqb_spec (Z.of_nat (S n) mod 10) 0) as [E|E].
  - replace (S n / 10)%nat with (S (n / 10)) by lia. done.
  - replace (S n / 10)%nat with (n / 10)%nat by lia. done.
Qed.

Lemma no_jitter_put lo hi t n j f ts :
  0 ≤ lo ≤ hi → Z.of_nat (S n) < 2 ^ 64 → no_jitter lo hi t n j →
  ∃ j', adaptive_put f ts j = Done j' ∧ no_jitter lo hi t (S n) j'.
Proof.
  intros Hlo Hn [[Hmin Hmax] Ht Hc Htr [He Hm]].
  assert (Hw : wrap_u64 (frames_received j + 1) = Z.of_nat (S n)) by (unfold wrap_u64; rewrite Z.mod_small; lia).
  assert (Hu : ∀ j0, last_transit j0 = last_transit j → jitter_estimate j0 = f64_zero → max_jitter j0 = 0 →
    update_jitter ts ts j0 = mkAdaptive (ad_buffer j0) (min_delay j0) (target_delay j0) (max_delay j0) (sample_rate j0)
      (first_timestamp j0) (last_arrival_ts j0) (Some 0) f64_zero 0 (frames_received j0)).
  { intros j0 E1 E2 E3. unfold update_jitter. rewrite Z.sub_diag, E1, E2, E3. by destruct Htr as [->| ->]. }
  unfold adaptive_put. cbn [last_arrival_ts]. cbv zeta. rewrite Hw.
  set (j1 := match last_arrival_ts j with Some _ => _ | None => _ end).
  assert (Hj1 : ∃ tr, (tr = None ∨ tr = Some 0) ∧ j1 = mkAdaptive (ad_buffer j) lo (shrunk lo hi (n / 10) t) hi (sample_rate j)
    (first_or (first_timestamp j) ts) (last_arrival_ts j) tr f64_zero 0 (Z.of_nat (S n))).
  { unfold j1. rewrite <-Ht, <-Hmin, <-Hmax, He, Hm. destruct (last_arrival_ts j).
    - rewrite Hu by done. eexists. split; [by right|done].
    - exists (last_transit j). by split. }
  destruct Hj1 as (tr & Htr' & ->). cbn [ad_buffer min_delay target_delay max_delay sample_rate first_timestamp last_transit jitter_estimate max_jitter frames_received].
  pose proof (shrunk_S lo hi n t) as Hs. destruct (Z.of_nat (S n) mod 10 =? 0).
  - unfold adapt_delay. cbn [jitter_estimate min_delay max_delay target_delay].
    change (as_u32 (f64_mul f64_zero (f64_of_Z 2))) with 0. unfold clamp_u32.
    replace (hi <? lo) with false by (symmetry; apply Z.ltb_ge; lia).
    replace (if 0 <? lo then lo else if hi <? 0 then hi else 0) with lo
      by (destruct (Z.ltb_spec 0 lo); [done|destruct (Z.ltb_spec hi 0); lia]).
    cbn [outcome_bind]. eexists. split; [done|]. by split.
  - cbn [outcome_bind]. eexists. split; [done|]. by split.
Qed.

Lemma no_jitter_get lo hi t n j ts :
  no_jitter lo hi t n j → no_jitter lo hi t n (adaptive_get ts j).2.
Proof.
  intros Hj. unfold adaptive_get. destruct (ad_buffer j); [done|]. destruct (release _ _). cbn. by destruct Hj.
Qed.

Lemma adaptive_run_spec lo hi t ops : ∀ n j,
  0 ≤ lo ≤ hi → Z.of_nat (n + puts ops) < 2 ^ 64 → no_jitter lo hi t n j →
  ∃ rs j', adaptive_run j ops = Done (rs, j') ∧ no_jitter lo hi t (n + puts ops) j'.
Proof.
  induction ops as [|[f ts|ts] ops IH]; intros n j Hlo Hn Hj; cbn [adaptive_run].
  - do 2 eexists. split; [done|]. by rewrite Nat.add_0_r.
  - change (puts (JbPut f ts :: ops)) with (S (puts ops)) in *.
    destruct (no_jitter_put lo hi t n j f ts Hlo ltac:(lia) Hj) as (j' & -> & Hj'). cbn [outcome_bind].
    replace (n + S (puts ops))%nat with (S n + puts ops)%nat in * by lia. by apply IH.
  - change (puts (JbGet ts :: ops)) with (puts ops) in *. pose proof (no_jitter_get lo hi t n j ts Hj) as Hj'.
    destruct (adaptive_get ts j) as [r j']. destruct (IH n j' Hlo Hn Hj') as (rs & j'' & -> & Hj'').
    cbn. by do 2 eexists.
Qed.

Lemma delay_samples_nonneg ms rate : 0 ≤ delay_samples ms rate.
Proof. unfold delay_samples. pose proof (wrap_u32_range (wrap_u32 ms * rate)) as [H _]. lia. Qed.

(** One frame every 20 ms at 8 kHz, each asked for as it arrives. *)
Definition stream (frames : nat → Frame) (n : nat) : list JbOp :=
  flat_map (λ k, [JbPut (frames k) (160 * Z.of_nat k); JbGet (160 * Z.of_nat k)]) (seq 0 n).

Definition delivered (rs : list JitterBufferResult) : list Frame :=
  omap (λ r, match r with JbOk f => Some f | _ => None end) rs.

Lemma stream_delivered frames :
  match adaptive_run (adaptive_new 20 60 200 8000) (stream frames 459) with
  | Done (rs, _) => Some (delivered rs)
  | Panic => None
  end = Some (frames <$> (seq 0 6 ++ seq 388 70)).
Proof. vm_compute. reflexivity. Qed.

(** ** Theorems *)

(** Away from the wrap of the timestamps, and as long as fewer than 200
    frames wait at every [put], the fixed buffer gives for every sequence of [put]s
    and [get]s the results of the abstract buffer: a [get] plays the frame last put
    at its playout time and forgets what is not later; it reports a loss when
    nothing is there and the stream began before; and the buffer's order, its
    search for old frames and its capacity are not observable. *)
Theorem fixed_buffer_refines (delay_ms rate : Z) (ops : list JbOp) :
  calm (delay_samples delay_ms rate) (mkWaiting ∅ None) ops →
  (fixed_run (fixed_new delay_ms rate) ops).1
  = wait_run (delay_samples delay_ms rate) (mkWaiting ∅ None) ops.
Proof.
  intros Hc. apply fixed_run_refines; [|done]. split; cbn; try done.
  - split; [done|apply delay_samples_nonneg].
  - constructor.
  - by intros k Hk%elem_of_nil.
Qed.

(** Frames out of order, one too late, one lost. *)
Lemma fixed_buffer_refines_witness :
  let f k := frame_voice 2 160 [k] in
  let ops := [JbPut (f 1) 160; JbPut (f 0) 0; JbGet 480; JbPut (f 3) 480; JbGet 640; JbGet 800;
              JbPut (f 2) 320; JbGet 960; JbGet 1120] in
  calm 480 (mkWaiting ∅ None) ops
  ∧ (fixed_run (fixed_new 60 8000) ops).1
    = [JbOk (f 0); JbOk (f 1); JbPlcMarker; JbOk (f 3); JbEmpty]
  ∧ wait_run 480 (mkWaiting ∅ None) ops = [JbOk (f 0); JbOk (f 1); JbPlcMarker; JbOk (f 3); JbEmpty].
Proof.
  intros f ops.
  assert (Hc : calm 480 (mkWaiting ∅ None) ops).
  { cbn [calm ops]. repeat split; try lia; vm_compute; lia. }
  assert (Hw : wait_run 480 (mkWaiting ∅ None) ops = [JbOk (f 0); JbOk (f 1); JbPlcMarker; JbOk (f 3); JbEmpty])
    by (vm_compute; reflexivity).
  split; [exact Hc|]. split; [|exact Hw]. exact (eq_trans (fixed_buffer_refines 60 8000 ops Hc) Hw).
Defined.

(** Whatever arrives, and when, the adaptive buffer measures no
    jitter: it does not panic for bounds in order, its delay only falls, one
    adaptation every ten frames, from the initial to the least delay, and reaches
    it.  While the delay is off the grid of the stream nothing is played: of a
    perfect stream of frames of 20 ms, with a delay of 60 ms and a least delay of
    20 ms, the first six are played, then none until the 389th. *)
Theorem adaptive_measures_no_jitter (min_ms initial_ms max_ms rate : Z) (ops : list JbOp) :
  let lo := delay_samples min_ms rate in
  let hi := delay_samples max_ms rate in
  let t := delay_samples initial_ms rate in
  lo ≤ t ≤ hi → Z.of_nat (length ops) < 2 ^ 64 →
  (∃ rs j, adaptive_run (adaptive_new min_ms initial_ms max_ms rate) ops = Done (rs, j)
    ∧ jitter_estimate j = f64_zero ∧ max_jitter j = 0
    ∧ target_delay j = shrunk lo hi (puts ops / 10) t
    ∧ lo ≤ target_delay j ≤ t
    ∧ (t - lo ≤ Z.of_nat (puts ops / 10) → target_delay j = lo))
  ∧ ∀ frames, ∃ rs j, adaptive_run (adaptive_new 20 60 200 8000) (stream frames 459) = Done (rs, j)
    ∧ delivered rs = frames <$> (seq 0 6 ++ seq 388 70).
Proof.
  intros lo hi t Ht Hn. assert (H0 : 0 ≤ lo) by apply delay_samples_nonneg. split.
  - destruct (adaptive_run_spec lo hi t ops 0 (adaptive_new min_ms initial_ms max_ms rate)) as (rs & j & Hr & Hj).
    + lia.
    + cbn. unfold puts. pose proof (List.filter_length_le is_put ops). lia.
    + by split; [| | |left|].
    + exists rs, j. destruct Hj as [_ Htj _ _ [He Hm]]. cbn [Nat.add] in Htj. rewrite Htj.
      pose proof (shrunk_bounds lo hi (puts ops / 10) t H0 ltac:(lia)). split_and!; try done; lia.
  - intros frames.
    pose proof (stream_delivered frames) as E.
    destruct (adaptive_run (adaptive_new 20 60 200 8000) (stream frames 459)) as [[rs j]|]; [|done].
    exists rs, j. split; [done|]. by injection E.
Qed.

Lemma adaptive_measures_no_jitter_witness :
  let ops := [JbPut FNull 0; JbGet 3000; JbPut FNull 5000] in
  ∃ rs j, adaptive_run (adaptive_new 20 60 200 8000) ops = Done (rs, j) ∧ target_delay j = 480.
Proof.
  intros ops.
  destruct (proj1 (adaptive_measures_no_jitter 20 60 200 8000 ops ltac:(split; apply Z.leb_le; vm_compute; reflexivity)
    ltac:(vm_compute; reflexivity)))
    as (rs & j & Hr & _ & _ & Ht & _).
  exists rs, j. split; [exact Hr|exact Ht].
Defined.
