(* ===== verification/Sdp.v ===== *)
(** * Session descriptions ([asterisk-sip/src/sdp/mod.rs])

    Session and media descriptions (RFC 4566), their parser and their [Display],
    the DTLS attributes ([crypto.rs], [dtls.rs]) and ICE candidates ([ice.rs])
    that the parser reads.

    The theorem: printing a description whose parts are well formed and parsing
    the text gives the description back, with everything the parser derives from
    the attributes. *)

From Stdlib Require Import ZArith NArith Ascii String.
From S2P Require Import Prelude RustStr NetAddr.
Local Open Scope Z_scope.
Local Open Scope list_scope.

(** ** Data *)

Record Origin := mkOrigin {
  username : str; session_id : str; session_version : str; o_net_type : str; o_addr_type : str; o_addr : str }.
Definition origin_default : Origin :=
  mkOrigin (lit "-") (lit "0") (lit "0") (lit "IN") (lit "IP4") (lit "0.0.0.0").

Record ConnectionData := mkConn { c_net_type : str; c_addr_type : str; c_addr : str }.
Definition connection_default : ConnectionData := mkConn (lit "IN") (lit "IP4") (lit "0.0.0.0").

Inductive Bandwidth := ApplicationSpecific (kbps : Z) | TransportIndependent (bps : Z) | ConferenceTotal (kbps : Z).
Inductive MediaDirection := SendRecv | SendOnly | RecvOnly | Inactive.
Inductive FingerprintAlgorithm := Sha256 | Sha1.
Inductive DtlsRole := RoleActive | RolePassive | RoleActPass | RoleHoldConn.
Inductive CandidateType := CHost | CServerReflexive | CPeerReflexive | CRelay.

#[export] Instance MediaDirection_eq_dec : EqDecision MediaDirection.
Proof. solve_decision. Defined.
#[export] Instance DtlsRole_eq_dec : EqDecision DtlsRole.
Proof. solve_decision. Defined.

Record IceCandidate := mkCandidate {
  foundation : str; component_id : Z; transport : str; ic_priority : Z; ic_ip : IpAddr; ic_port : Z;
  candidate_type : CandidateType; related_address : option IpAddr; related_port : option Z }.

Definition Attribute : Type := str * option str.

Record MediaDescription := mkMedia {
  media_type : str; m_port : Z; protocol : str; formats : list Z; m_connection : option ConnectionData;
  m_attributes : list Attribute; direction : MediaDirection;
  fingerprint : option (FingerprintAlgorithm * str); setup : option DtlsRole; rtcp_mux : bool;
  ice_candidates : list IceCandidate; bandwidth : list Bandwidth }.

Record SessionDescription := mkSdp {
  version : Z; origin : Origin; session_name : str; connection : option ConnectionData; time : Z * Z;
  media_descriptions : list MediaDescription; attributes : list Attribute }.

Definition sdp_default : SessionDescription :=
  mkSdp 0 origin_default (lit "Asterisk") (Some connection_default) (0, 0) [] [].

(** ** Bandwidth *)

Definition bandwidth_parse (value : str) : option Bandwidth :=
  '(bw_type, bw_value) ← split_once (chr ":") value;
  let t := trim bw_type in
  let v := trim bw_value in
  if str_eqb t (lit "AS") then ApplicationSpecific <$> parse_u32 v
  else if str_eqb t (lit "TIAS") then TransportIndependent <$> parse_unsigned 64 v
  else if str_eqb t (lit "CT") then ConferenceTotal <$> parse_u32 v
  else None.

Definition as_bps (b : Bandwidth) : Z :=
  match b with
  | ApplicationSpecific kbps => kbps * 1000
  | TransportIndependent bps => bps
  | ConferenceTotal kbps => kbps * 1000
  end.

Definition show_bandwidth (b : Bandwidth) : str :=
  match b with
  | ApplicationSpecific kbps => lit "AS:" ++ show_int kbps
  | TransportIndependent bps => lit "TIAS:" ++ show_int bps
  | ConferenceTotal kbps => lit "CT:" ++ show_int kbps
  end.

(** ** DTLS attributes *)

Definition sdp_name (a : FingerprintAlgorithm) : str :=
  match a with Sha256 => lit "sha-256" | Sha1 => lit "sha-1" end.
Definition sdp_value (r : DtlsRole) : str :=
  match r with
  | RoleActive => lit "active" | RolePassive => lit "passive"
  | RoleActPass => lit "actpass" | RoleHoldConn => lit "holdconn"
  end.

Definition negotiate (our_role remote_role : DtlsRole) : option DtlsRole :=
  match our_role, remote_role with
  | RoleActive, RolePassive => Some RoleActive
  | RolePassive, RoleActive => Some RolePassive
  | RoleActPass, RoleActive => Some RolePassive
  | RoleActPass, RolePassive => Some RoleActive
  | RoleActive, RoleActPass => Some RoleActive
  | RolePassive, RoleActPass => Some RolePassive
  | RoleActPass, RoleActPass => Some RoleActive
  | _, _ => None
  end.

(** ** ICE candidates *)

Definition sdp_str (t : CandidateType) : str :=
  match t with
  | CHost => lit "host" | CServerReflexive => lit "srflx" | CPeerReflexive => lit "prflx" | CRelay => lit "relay"
  end.
Definition from_sdp_str (x : str) : option CandidateType :=
  if str_eqb x (lit "host") then Some CHost
  else if str_eqb x (lit "srflx") then Some CServerReflexive
  else if str_eqb x (lit "prflx") then Some CPeerReflexive
  else if str_eqb x (lit "relay") then Some CRelay
  else None.

(** The optional pairs after the type; two elements are needed to go on. *)
Fixpoint candidate_related (parts : list str) (raddr : option IpAddr) (rport : option Z)
    : option IpAddr * option Z :=
  match parts with
  | p :: ((q :: rest) as parts') =>
      if str_eqb p (lit "raddr") then candidate_related rest (parse_ip q) rport
      else if str_eqb p (lit "rport") then candidate_related rest raddr (parse_u16 q)
      else candidate_related parts' raddr rport
  | _ => (raddr, rport)
  end.

Definition to_sdp_attribute (c : IceCandidate) : str :=
  foundation c ++ chr " " :: show_int (component_id c) ++ chr " " :: transport c ++ chr " "
    :: show_int (ic_priority c) ++ chr " " :: show_ip (ic_ip c) ++ chr " " :: show_int (ic_port c)
    ++ lit " typ " ++ sdp_str (candidate_type c)
    ++ match related_address c, related_port c with
       | Some raddr, Some rport => lit " raddr " ++ show_ip raddr ++ lit " rport " ++ show_int rport
       | _, _ => []
       end.

Section parse.
Context `{UnicodeCase, UnicodeUpper}.

Definition from_sdp_name (name : str) : option FingerprintAlgorithm :=
  let l := to_lowercase name in
  if str_eqb l (lit "sha-256") then Some Sha256
  else if str_eqb l (lit "sha-1") then Some Sha1
  else None.

Definition from_sdp (value : str) : option DtlsRole :=
  let l := to_lowercase (trim value) in
  if str_eqb l (lit "active") then Some RoleActive
  else if str_eqb l (lit "passive") then Some RolePassive
  else if str_eqb l (lit "actpass") then Some RoleActPass
  else if str_eqb l (lit "holdconn") then Some RoleHoldConn
  else None.

Definition from_sdp_attribute (value : str) : option IceCandidate :=
  match split_whitespace value with
  | f :: c :: tr :: p :: a :: po :: typ :: ty :: rest =>
      component ← parse_u16 c;
      priority ← parse_u32 p;
      ip ← parse_ip a;
      port ← parse_u16 po;
      if negb (str_eqb typ (lit "typ")) then None
      else
        t ← from_sdp_str ty;
        let (raddr, rport) := candidate_related rest None None in
        Some (mkCandidate f component (to_uppercase tr) priority ip port t raddr rport)
  | _ => None
  end.

(** ** The parser *)

Definition direction_of (attr_name : str) : option MediaDirection :=
  if str_eqb attr_name (lit "sendrecv") then Some SendRecv
  else if str_eqb attr_name (lit "sendonly") then Some SendOnly
  else if str_eqb attr_name (lit "recvonly") then Some RecvOnly
  else if str_eqb attr_name (lit "inactive") then Some Inactive
  else None.

Definition fingerprint_of (value : option str) (old : option (FingerprintAlgorithm * str))
    : option (FingerprintAlgorithm * str) :=
  match value with
  | Some val =>
      match split_once (chr " ") val with
      | Some (alg_str, fp) => match from_sdp_name alg_str with Some alg => Some (alg, fp) | None => old end
      | None => old
      end
  | None => old
  end.

(** The [a=] line of a media description. *)
Definition media_attribute (m : MediaDescription) (a : Attribute) : MediaDescription :=
  let (name, value) := a in
  let is_named x := str_eqb name x in
  mkMedia (media_type m) (m_port m) (protocol m) (formats m) (m_connection m) (m_attributes m ++ [a])
    (default (direction m) (direction_of name))
    (if is_named (lit "fingerprint") then fingerprint_of value (fingerprint m) else fingerprint m)
    (if is_named (lit "setup") then match value with Some v => from_sdp v | None => setup m end else setup m)
    (rtcp_mux m || is_named (lit "rtcp-mux"))
    (if is_named (lit "candidate") then
       match value ≫= from_sdp_attribute with Some c => ice_candidates m ++ [c] | None => ice_candidates m end
     else ice_candidates m)
    (bandwidth m).

Definition media_new (media_type : str) (port : Z) (protocol : str) (formats : list Z) : MediaDescription :=
  mkMedia media_type port protocol formats None [] SendRecv None None false [] [].

(** The description so far, and the media description being read. *)
Definition ParseState : Type := SessionDescription * option MediaDescription.

Definition set_media_connection (c : ConnectionData) (m : MediaDescription) : MediaDescription :=
  mkMedia (media_type m) (m_port m) (protocol m) (formats m) (Some c) (m_attributes m) (direction m)
    (fingerprint m) (setup m) (rtcp_mux m) (ice_candidates m) (bandwidth m).
Definition add_bandwidth (b : Bandwidth) (m : MediaDescription) : MediaDescription :=
  mkMedia (media_type m) (m_port m) (protocol m) (formats m) (m_connection m) (m_attributes m) (direction m)
    (fingerprint m) (setup m) (rtcp_mux m) (ice_candidates m) (bandwidth m ++ [b]).

Definition set_version (n : Z) (d : SessionDescription) : SessionDescription :=
  mkSdp n (origin d) (session_name d) (connection d) (time d) (media_descriptions d) (attributes d).
Definition set_origin (o : Origin) (d : SessionDescription) : SessionDescription :=
  mkSdp (version d) o (session_name d) (connection d) (time d) (media_descriptions d) (attributes d).
Definition set_session_name (n : str) (d : SessionDescription) : SessionDescription :=
  mkSdp (version d) (origin d) n (connection d) (time d) (media_descriptions d) (attributes d).
Definition set_connection (c : ConnectionData) (d : SessionDescription) : SessionDescription :=
  mkSdp (version d) (origin d) (session_name d) (Some c) (time d) (media_descriptions d) (attributes d).
Definition set_time (t : Z * Z) (d : SessionDescription) : SessionDescription :=
  mkSdp (version d) (origin d) (session_name d) (connection d) t (media_descriptions d) (attributes d).
Definition push_media (m : option MediaDescription) (d : SessionDescription) : SessionDescription :=
  match m with
  | Some m => mkSdp (version d) (origin d) (session_name d) (connection d) (time d)
                (media_descriptions d ++ [m]) (attributes d)
  | None => d
  end.
Definition push_attribute (a : Attribute) (d : SessionDescription) : SessionDescription :=
  mkSdp (version d) (origin d) (session_name d) (connection d) (time d) (media_descriptions d) (attributes d ++ [a]).

Definition parse_attribute (value : str) : Attribute :=
  match split_once (chr ":") value with Some (n, v) => (n, Some v) | None => (value, None) end.

Definition parse_connection (value : str) : option ConnectionData :=
  match splitn 3 (chr " ") value with [n; t; a] => Some (mkConn n t a) | _ => None end.

Definition parse_time (value : str) : Z * Z :=
  let parts := splitn 2 (chr " ") value in
  (default 0 (head parts ≫= parse_unsigned 64), default 0 (parts !! 1%nat ≫= parse_unsigned 64)).

(** The match on the type of a line. *)
Definition parse_field (field_type : char) (value : str) (st : ParseState) : ParseState :=
  let '(sdp, current_media) := st in
  let is_type x := N.eqb field_type x in
  if is_type (chr "v") then (set_version (default 0 (parse_u32 value)) sdp, current_media)
  else if is_type (chr "o") then
    match splitn 6 (chr " ") value with
    | [u; i; v; n; t; a] => (set_origin (mkOrigin u i v n t a) sdp, current_media)
    | _ => st
    end
  else if is_type (chr "s") then (set_session_name value sdp, current_media)
  else if is_type (chr "c") then
    match parse_connection value with
    | Some conn =>
        match current_media with
        | Some m => (sdp, Some (set_media_connection conn m))
        | None => (set_connection conn sdp, None)
        end
    | None => st
    end
  else if is_type (chr "t") then (set_time (parse_time value) sdp, current_media)
  else if is_type (chr "m") then
    (push_media current_media sdp,
     match split_whitespace value with
     | t :: po :: pr :: fs =>
         Some (media_new t (default 0 (parse_u16 po)) pr (omap (parse_unsigned 8) fs))
     | _ => None
     end)
  else if is_type (chr "a") then
    let attr := parse_attribute value in
    match current_media with
    | Some m => (sdp, Some (media_attribute m attr))
    | None => (push_attribute attr sdp, None)
    end
  else if is_type (chr "b") then
    match bandwidth_parse value with
    | Some bw => (sdp, add_bandwidth bw <$> current_media)
    | None => st
    end
  else st.

(** A line whose second octet is [=]: its first octet is a whole character then. *)
Definition parse_line (st : ParseState) (raw : str) : ParseState :=
  match trim_end_char 13 raw with
  | c :: e :: value => if N.eqb e (chr "=") && N.ltb c 128 then parse_field c value st else st
  | _ => st
  end.

(** [SessionDescription::parse]; it never fails. *)
Definition sdp_parse (text : str) : SessionDescription :=
  let '(sdp, current_media) := foldl parse_line (sdp_default, None) (lines text) in
  push_media current_media sdp.
End parse.

(** ** [Display] *)

Definition show_attribute (a : Attribute) : str :=
  match a with
  | (name, Some v) => lit "a=" ++ name ++ chr ":" :: v
  | (name, None) => lit "a=" ++ name
  end.
Definition show_connection (c : ConnectionData) : str :=
  lit "c=" ++ c_net_type c ++ chr " " :: c_addr_type c ++ chr " " :: c_addr c.
Definition show_origin (o : Origin) : str :=
  lit "o=" ++ username o ++ chr " " :: session_id o ++ chr " " :: session_version o ++ chr " "
    :: o_net_type o ++ chr " " :: o_addr_type o ++ chr " " :: o_addr o.

(** The [m=] line. *)
Definition media_line (m : MediaDescription) : str :=
  lit "m=" ++ media_type m ++ chr " " :: show_int (m_port m) ++ chr " " :: protocol m ++ chr " "
    :: join (chr " ") (show_int <$> formats m).

Definition media_lines (m : MediaDescription) : list str :=
  [media_line m]
  ++ match m_connection m with Some c => [show_connection c] | None => [] end
  ++ ((λ b, lit "b=" ++ show_bandwidth b) <$> bandwidth m)
  ++ (show_attribute <$> m_attributes m).

Definition sdp_lines (d : SessionDescription) : list str :=
  [lit "v=" ++ show_int (version d); show_origin (origin d); lit "s=" ++ session_name d]
  ++ match connection d with Some c => [show_connection c] | None => [] end
  ++ [lit "t=" ++ show_int (time d).1 ++ chr " " :: show_int (time d).2]
  ++ (show_attribute <$> attributes d)
  ++ (media_descriptions d ≫= media_lines).

(** Each [write!] ends its line. *)
Definition sdp_display (d : SessionDescription) : str :=
  concat ((λ l, l ++ [13%N; 10%N]) <$> sdp_lines d).

(** ** Well-formed descriptions *)

(** No line end; no blank or line end; a non-empty word without white space. *)
Definition one_line (x : str) : Prop := (10%N ∉ x) ∧ (13%N ∉ x).
Definition word (x : str) : Prop := one_line x ∧ (chr " " ∉ x).
Definition token (x : str) : Prop := x ≠ [] ∧ ∀ ch, ch ∈ x → is_whitespace ch = false.

Definition attribute_wf (a : Attribute) : Prop :=
  one_line a.1 ∧ (chr ":" ∉ a.1) ∧ (match a.2 with Some v => one_line v | None => True end).
Definition connection_wf (c : ConnectionData) : Prop :=
  word (c_net_type c) ∧ word (c_addr_type c) ∧ one_line (c_addr c).
Definition bandwidth_wf (b : Bandwidth) : Prop :=
  match b with
  | ApplicationSpecific n | ConferenceTotal n => 0 ≤ n < 2 ^ 32
  | TransportIndependent n => 0 ≤ n < 2 ^ 64
  end.

Section wf.
Context `{UnicodeCase, UnicodeUpper}.

(** What the parser makes of the lines of a media description: direction,
    fingerprint, setup, rtcp-mux and candidates come from the attributes. *)
Definition reread (m : MediaDescription) : MediaDescription :=
  foldl media_attribute
    (mkMedia (media_type m) (m_port m) (protocol m) (formats m) (m_connection m) [] SendRecv None None false []
       (bandwidth m)) (m_attributes m).

Record media_wf (m : MediaDescription) : Prop := {
  mw_type : token (media_type m);
  mw_port : 0 ≤ m_port m < 2 ^ 16;
  mw_protocol : token (protocol m);
  mw_formats : Forall (λ f, 0 ≤ f < 2 ^ 8) (formats m);
  mw_connection : ∀ c, m_connection m = Some c → connection_wf c;
  mw_attributes : Forall attribute_wf (m_attributes m);
  mw_bandwidth : Forall bandwidth_wf (bandwidth m) }.

Record sdp_wf (d : SessionDescription) : Prop := {
  sw_version : 0 ≤ version d < 2 ^ 32;
  sw_origin : Forall word [username (origin d); session_id (origin d); session_version (origin d);
                           o_net_type (origin d); o_addr_type (origin d)];
  sw_addr : one_line (o_addr (origin d));
  sw_name : one_line (session_name d);
  sw_connection : ∃ c, connection d = Some c ∧ connection_wf c;
  sw_time : 0 ≤ (time d).1 < 2 ^ 64 ∧ 0 ≤ (time d).2 < 2 ^ 64;
  sw_media : Forall media_wf (media_descriptions d);
  sw_attributes : Forall attribute_wf (attributes d) }.
End wf.

(** ** Lemmas: text *)

Lemma lines_of_lines ls :
  Forall (λ l, 10%N ∉ l) ls → lines (concat ((λ l, l ++ [13%N; 10%N]) <$> ls)) = ls.
Proof.
  unfold lines. induction 1 as [|l ls Hl _ IH]; [done|].
  change (concat _) with ((l ++ [13%N; 10%N]) ++ concat ((λ l, l ++ [13%N; 10%N]) <$> ls)).
  rewrite <-app_assoc. change ([13%N; 10%N] ++ ?x) with ([13%N] ++ 10%N :: x). rewrite app_assoc.
  rewrite split_app by set_solver. pose proof (split_nonempty 10 (concat ((λ l, l ++ [13%N; 10%N]) <$> ls))).
  destruct (split 10 _) as [|q qs]; [done|].
  change (line_pieces ((l ++ [13%N]) :: q :: qs))
    with (default (l ++ [13%N]) (strip_suffix [13%N] (l ++ [13%N])) :: line_pieces (q :: qs)).
  by rewrite strip_suffix_app, IH.
Qed.

Lemma splitn_app n ch a b : ch ∉ a → splitn (S (S n)) ch (a ++ ch :: b) = a :: splitn (S n) ch b.
Proof.
  intros Ha. change (splitn (S (S n)) ch (a ++ ch :: b))
    with (match split_once ch (a ++ ch :: b) with None => [a ++ ch :: b] | Some (a, b) => a :: splitn (S n) ch b end).
  by rewrite (proj2 (split_once_Some ch _ a b)).
Qed.

Lemma splitn_join ch ps q :
  Forall (λ p, ch ∉ p) ps → splitn (S (length ps)) ch (join ch (ps ++ [q])) = ps ++ [q].
Proof.
  induction 1 as [|p ps Hp _ IH]; [done|].
  assert (Hj : join ch ((p :: ps) ++ [q]) = p ++ ch :: join ch (ps ++ [q])) by (by destruct ps).
  rewrite Hj. cbn [length]. by rewrite splitn_app, IH.
Qed.

Lemma split_whitespace_aux_app cur p x :
  (∀ ch, ch ∈ p → is_whitespace ch = false) →
  split_whitespace_aux cur (p ++ x) = split_whitespace_aux (reverse p ++ cur) x.
Proof.
  revert cur. induction p as [|ch p IH]; intros cur Hp; [done|].
  cbn [app split_whitespace_aux]. rewrite Hp by set_solver.
  rewrite IH by set_solver. by rewrite reverse_cons, <-app_assoc.
Qed.

Lemma split_whitespace_app p ch x :
  token p → is_whitespace ch = true → split_whitespace (p ++ ch :: x) = p :: split_whitespace x.
Proof.
  intros [Hne Hp] Hch. unfold split_whitespace. rewrite split_whitespace_aux_app by done.
  rewrite app_nil_r. cbn [split_whitespace_aux]. rewrite Hch. destruct (reverse p) as [|c r] eqn:E.
  - apply (f_equal reverse) in E. rewrite reverse_involutive in E. done.
  - by rewrite <-E, reverse_involutive.
Qed.

Lemma split_whitespace_join ps : Forall token ps → split_whitespace (join (chr " ") ps) = ps.
Proof.
  induction 1 as [|p ps Hp Hps IH]; [done|]. destruct ps as [|q ps].
  - destruct Hp as [Hne Hp]. cbn [join]. unfold split_whitespace. rewrite <-(app_nil_r p) at 1.
    rewrite split_whitespace_aux_app by done. rewrite app_nil_r. cbn [split_whitespace_aux]. destruct (reverse p) as [|c r] eqn:E.
    + apply (f_equal reverse) in E. by rewrite reverse_involutive in E.
    + by rewrite <-E, reverse_involutive.
  - rewrite join_cons, split_whitespace_app by done. by rewrite IH.
Qed.

Lemma show_int_token n : 0 ≤ n → token (show_int n).
Proof.
  intros Hn. split.
  - unfold show_int. destruct (Z.ltb_spec n 0); [lia|]. by destruct (show_nonneg_spec n Hn) as (d & ds & -> & _).
  - intros ch Hch. apply digit_not_whitespace. by eapply elem_of_show_int.
Qed.

Lemma token_word x : token x → word x.
Proof.
  intros [_ Hx]. split; [split|]; intros Hin; by specialize (Hx _ Hin).
Qed.

Lemma one_line_app x y : one_line x → one_line y → one_line (x ++ y).
Proof. unfold one_line. set_solver. Qed.
Lemma one_line_cons ch x : ch ≠ 10%N → ch ≠ 13%N → one_line x → one_line (ch :: x).
Proof. unfold one_line. set_solver. Qed.
Lemma one_line_show n : 0 ≤ n → one_line (show_int n).
Proof. intros Hn. by destruct (token_word _ (show_int_token n Hn)). Qed.
Create HintDb one_line.
#[export] Hint Resolve one_line_app one_line_cons one_line_show : one_line.
#[export] Hint Extern 1 (_ ≠ _) => done : one_line.
#[export] Hint Extern 1 (_ < _)%N => reflexivity : one_line.
#[export] Hint Extern 1 (_ ≤ _) => lia : one_line.

(** ** Lemmas: one line *)

Section text_lemmas.
Context `{UnicodeCase, UnicodeUpper}.

Lemma parse_line_field st c v :
  (c < 128)%N → one_line (c :: v) → parse_line st (c :: chr "=" :: v) = parse_field c v st.
Proof.
  intros Hc [_ Hv]. unfold parse_line. rewrite trim_end_char_id by set_solver.
  by rewrite (proj2 (N.ltb_lt _ _) Hc).
Qed.

Lemma parse_attribute_show a : attribute_wf a →
  ∃ v, show_attribute a = chr "a" :: chr "=" :: v ∧ one_line v ∧ parse_attribute v = a.
Proof.
  destruct a as [name [v|]]; intros ([? ?] & Hn & Hv); cbn in *.
  - eexists. split; [done|]. split; [apply one_line_app, one_line_cons; done|].
    unfold parse_attribute. by rewrite (proj2 (split_once_Some _ _ name v)).
  - eexists. split; [done|]. split; [done|]. unfold parse_attribute. by rewrite (proj2 (split_once_None _ _)).
Qed.

Lemma parse_connection_show c : connection_wf c →
  ∃ v, show_connection c = chr "c" :: chr "=" :: v ∧ one_line v ∧ parse_connection v = Some c.
Proof.
  intros ([Hn1 Hn2] & [Ht1 Ht2] & Ha). destruct c as [n t a]. cbn in *.
  exists (join (chr " ") ([n; t] ++ [a])). split; [done|]. split; [cbn; auto 10 with one_line|].
  unfold parse_connection. by rewrite (splitn_join _ [n; t] a) by (by repeat constructor).
Qed.

Lemma bandwidth_parse_show b : bandwidth_wf b →
  ∃ v, lit "b=" ++ show_bandwidth b = chr "b" :: chr "=" :: v ∧ one_line v ∧ bandwidth_parse v = Some b.
Proof.
  intros Hb. exists (show_bandwidth b). split; [done|].
  assert (Ht : ∀ n, 0 ≤ n → trim (show_int n) = show_int n).
  { intros n Hn. apply trim_trimmed, trimmed_no_ws, show_int_token, Hn. }
  assert (Hs : ∀ t n, (chr ":" ∉ t) → split_once (chr ":") (t ++ chr ":" :: show_int n) = Some (t, show_int n))
    by (intros t n Hin; by apply split_once_Some).
  unfold bandwidth_parse, parse_u32. destruct b as [n|n|n]; cbn in Hb; (split; [cbn; auto 10 with one_line|]).
  - change (show_bandwidth (ApplicationSpecific n)) with (lit "AS" ++ chr ":" :: show_int n).
    rewrite (Hs (lit "AS") n ltac:(set_solver)). cbn [mbind option_bind].
    change (trim (lit "AS")) with (lit "AS"). rewrite Ht by lia. cbn. by rewrite parse_unsigned_show.
  - change (show_bandwidth (TransportIndependent n)) with (lit "TIAS" ++ chr ":" :: show_int n).
    rewrite (Hs (lit "TIAS") n ltac:(set_solver)). cbn [mbind option_bind].
    change (trim (lit "TIAS")) with (lit "TIAS"). rewrite Ht by lia. cbn -[parse_unsigned]. rewrite (parse_unsigned_show 64 n Hb). done.
  - change (show_bandwidth (ConferenceTotal n)) with (lit "CT" ++ chr ":" :: show_int n).
    rewrite (Hs (lit "CT") n ltac:(set_solver)). cbn [mbind option_bind].
    change (trim (lit "CT")) with (lit "CT"). rewrite Ht by lia. cbn. by rewrite parse_unsigned_show.
Qed.

Lemma parse_time_show t : 0 ≤ t.1 < 2 ^ 64 → 0 ≤ t.2 < 2 ^ 64 →
  parse_time (show_int t.1 ++ chr " " :: show_int t.2) = t.
Proof.
  intros H1 H2. unfold parse_time. rewrite splitn_app.
  - cbn -[parse_unsigned]. rewrite !parse_unsigned_show by done. by destruct t.
  - apply show_int_no_sep; [lia|done].
Qed.

Lemma parse_fold_attributes sdp m attrs rest :
  Forall attribute_wf attrs →
  foldl parse_line (sdp, Some m) ((show_attribute <$> attrs) ++ rest)
  = foldl parse_line (sdp, Some (foldl media_attribute m attrs)) rest.
Proof.
  intros Ha. revert m. induction Ha as [|a attrs Ha _ IH]; intros m; [done|].
  destruct (parse_attribute_show a Ha) as (v & E & Hv & Hp). cbn [fmap list_fmap app foldl].
  rewrite E, parse_line_field by auto with one_line. unfold parse_field. cbn. rewrite Hp. apply IH.
Qed.

Lemma parse_fold_session_attributes sdp attrs rest :
  Forall attribute_wf attrs →
  foldl parse_line (sdp, None) ((show_attribute <$> attrs) ++ rest)
  = foldl parse_line (foldl (λ d a, push_attribute a d) sdp attrs, None) rest.
Proof.
  intros Ha. revert sdp. induction Ha as [|a attrs Ha _ IH]; intros sdp; [done|].
  destruct (parse_attribute_show a Ha) as (v & E & Hv & Hp). cbn [fmap list_fmap app foldl].
  rewrite E, parse_line_field by auto with one_line. unfold parse_field. cbn. rewrite Hp. apply IH.
Qed.

Lemma parse_fold_bandwidth sdp m bs rest :
  Forall bandwidth_wf bs →
  foldl parse_line (sdp, Some m) (((λ b, lit "b=" ++ show_bandwidth b) <$> bs) ++ rest)
  = foldl parse_line (sdp, Some (foldl (λ m b, add_bandwidth b m) m bs)) rest.
Proof.
  intros Hb. revert m. induction Hb as [|b bs Hb _ IH]; intros m; [done|].
  destruct (bandwidth_parse_show b Hb) as (v & E & Hv & Hp). rewrite fmap_cons, E. cbn [app foldl].
  rewrite parse_line_field by auto with one_line. unfold parse_field. cbn. rewrite Hp. apply IH.
Qed.

Lemma parse_fold_connection sdp m c rest :
  connection_wf c →
  foldl parse_line (sdp, Some m) (show_connection c :: rest)
  = foldl parse_line (sdp, Some (set_media_connection c m)) rest.
Proof.
  intros Hc. destruct (parse_connection_show c Hc) as (v & E & Hv & Hp). cbn [foldl].
  rewrite E, parse_line_field by auto with one_line. unfold parse_field. cbn. by rewrite Hp.
Qed.

Lemma push_attributes d attrs :
  foldl (λ d a, push_attribute a d) d attrs
  = mkSdp (version d) (origin d) (session_name d) (connection d) (time d) (media_descriptions d)
      (attributes d ++ attrs).
Proof.
  revert d. induction attrs as [|a attrs IH]; intros d; [by rewrite app_nil_r; destruct d|].
  cbn [foldl]. rewrite IH. cbn. by rewrite <-app_assoc.
Qed.

Lemma add_bandwidths m bs :
  foldl (λ m b, add_bandwidth b m) m bs
  = mkMedia (media_type m) (m_port m) (protocol m) (formats m) (m_connection m) (m_attributes m) (direction m)
      (fingerprint m) (setup m) (rtcp_mux m) (ice_candidates m) (bandwidth m ++ bs).
Proof.
  revert m. induction bs as [|b bs IH]; intros m; [by rewrite app_nil_r; destruct m|].
  cbn [foldl]. rewrite IH. cbn. by rewrite <-app_assoc.
Qed.

Lemma parse_formats fs : Forall (λ f, 0 ≤ f < 2 ^ 8) fs →
  split_whitespace (join (chr " ") (show_int <$> fs)) = show_int <$> fs
  ∧ omap (parse_unsigned 8) (show_int <$> fs) = fs ∧ one_line (join (chr " ") (show_int <$> fs)).
Proof.
  intros Hf. split_and!.
  - apply split_whitespace_join, Forall_fmap. eapply Forall_impl; [exact Hf|]. intros f [Hr _]. by apply show_int_token.
  - induction Hf as [|f fs Hr _ IH]; [done|]. cbn [fmap list_fmap]. cbn -[parse_unsigned].
    rewrite parse_unsigned_show by done. by f_equal.
  - split; intros [?|(p & Hp & Hin)]%elem_of_join; try done;
      apply list_elem_of_fmap in Hp as (f & -> & Hin');
      rewrite Forall_forall in Hf; specialize (Hf f Hin');
      apply (elem_of_show_int f _ ltac:(lia)) in Hin; done.
Qed.

Lemma parse_media_line sdp cur m :
  media_wf m →
  parse_line (sdp, cur) (media_line m)
  = (push_media cur sdp, Some (media_new (media_type m) (m_port m) (protocol m) (formats m))).
Proof.
  intros Hm. destruct (parse_formats (formats m) (mw_formats _ Hm)) as (Hs & Ho & Hl).
  pose proof (mw_type _ Hm) as Ht. pose proof (mw_protocol _ Hm) as Hp. pose proof (mw_port _ Hm) as Hport.
  destruct (token_word _ Ht) as [Ht1 _]. destruct (token_word _ Hp) as [Hp1 _].
  unfold media_line. change (lit "m=" ++ ?x) with (chr "m" :: chr "=" :: x).
  rewrite parse_line_field by auto 15 with one_line. unfold parse_field.
  cbn -[parse_unsigned split_whitespace join show_int].
  rewrite split_whitespace_app by done. rewrite split_whitespace_app by (done || by apply show_int_token; lia).
  rewrite split_whitespace_app by done. rewrite Hs, Ho. unfold parse_u16. by rewrite parse_unsigned_show.
Qed.

(** The lines of a media description. *)
Lemma parse_media_lines sdp cur m rest :
  media_wf m →
  foldl parse_line (sdp, cur) (media_lines m ++ rest)
  = foldl parse_line (push_media cur sdp, Some (reread m)) rest.
Proof.
  intros Hm. unfold media_lines. rewrite <-!app_assoc. change ([?x] ++ ?y) with (x :: y).
  cbn [foldl]. rewrite (parse_media_line sdp cur m Hm).
  unfold reread. pose proof (mw_connection _ Hm) as Hc. destruct (m_connection m) as [c|].
  - cbn [app]. rewrite parse_fold_connection by by apply Hc.
    rewrite parse_fold_bandwidth by apply Hm. rewrite parse_fold_attributes by apply Hm.
    by rewrite add_bandwidths.
  - cbn [app]. rewrite parse_fold_bandwidth by apply Hm. rewrite parse_fold_attributes by apply Hm.
    by rewrite add_bandwidths.
Qed.

Lemma parse_all_media sdp cur ms :
  Forall media_wf ms →
  (let '(sdp', cur') := foldl parse_line (sdp, cur) (ms ≫= media_lines) in push_media cur' sdp')
  = mkSdp (version sdp) (origin sdp) (session_name sdp) (connection sdp) (time sdp)
      (media_descriptions sdp ++ option_list cur ++ (reread <$> ms)) (attributes sdp).
Proof.
  intros Hms. revert sdp cur. induction Hms as [|m ms Hm _ IH]; intros sdp cur.
  - cbn. destruct cur; cbn; [done|]. rewrite app_nil_r. by destruct sdp.
  - change ((m :: ms) ≫= media_lines) with (media_lines m ++ (ms ≫= media_lines)).
    rewrite parse_media_lines, IH by done. by destruct cur; cbn; rewrite <-?app_assoc.
Qed.

(** The lines before the media descriptions. *)
Lemma parse_session_lines d rest :
  sdp_wf d →
  foldl parse_line (sdp_default, None)
    ([lit "v=" ++ show_int (version d); show_origin (origin d); lit "s=" ++ session_name d]
     ++ match connection d with Some c => [show_connection c] | None => [] end
     ++ [lit "t=" ++ show_int (time d).1 ++ chr " " :: show_int (time d).2]
     ++ (show_attribute <$> attributes d) ++ rest)
  = foldl parse_line (mkSdp (version d) (origin d) (session_name d) (connection d) (time d) [] (attributes d), None) rest.
Proof.
  intros Hd. pose proof (sw_version _ Hd) as Hv. destruct (sw_connection _ Hd) as (c & Ec & Hc).
  destruct (sw_time _ Hd) as [Ht1 Ht2]. pose proof (sw_name _ Hd) as Hn. pose proof (sw_addr _ Hd) as Ha.
  pose proof (sw_origin _ Hd) as Ho. rewrite Ec. destruct (origin d) as [u i v n t a] eqn:Eo. cbn in Ho, Ha.
  rewrite !List.Forall_cons_iff in Ho. destruct Ho as ([? ?] & [? ?] & [? ?] & [? ?] & [? ?] & _).
  destruct (parse_connection_show c Hc) as (cv & E & Hcv & Hcp). cbn [app foldl]. rewrite E.
  change (show_origin (mkOrigin u i v n t a)) with (chr "o" :: chr "=" :: join (chr " ") ([u; i; v; n; t] ++ [a])).
  rewrite !parse_line_field by (cbn; auto 20 with one_line).
  change (parse_field 118 (show_int (version d)) (sdp_default, None))
    with (set_version (default 0 (parse_u32 (show_int (version d)))) sdp_default, @None MediaDescription).
  unfold parse_u32. rewrite parse_unsigned_show by done. unfold parse_field at 4. cbn [N.eqb Pos.eqb].
  pose proof (splitn_join (chr " ") [u; i; v; n; t] a ltac:(by repeat constructor)) as Hs.
  cbn [length app] in Hs. cbn [app]. rewrite Hs.
  unfold parse_field at 3. cbn [N.eqb Pos.eqb]. unfold parse_field at 2. cbn [N.eqb Pos.eqb]. rewrite Hcp.
  unfold parse_field. cbn [N.eqb Pos.eqb]. rewrite parse_time_show by done.
  rewrite parse_fold_session_attributes by apply Hd. rewrite push_attributes. done.
Qed.

Lemma show_attribute_line a : attribute_wf a → one_line (show_attribute a).
Proof. intros Ha. destruct (parse_attribute_show a Ha) as (v & -> & Hv & _). auto with one_line. Qed.

Lemma show_connection_line c : connection_wf c → one_line (show_connection c).
Proof. intros Hc. destruct (parse_connection_show c Hc) as (v & -> & Hv & _). auto with one_line. Qed.

Lemma media_lines_clean m : media_wf m → Forall one_line (media_lines m).
Proof.
  intros Hm. unfold media_lines. rewrite !Forall_app. split_and!.
  - apply Forall_singleton. destruct (parse_formats _ (mw_formats _ Hm)) as (_ & _ & Hl).
    destruct (token_word _ (mw_type _ Hm)) as [? _], (token_word _ (mw_protocol _ Hm)) as [? _].
    pose proof (mw_port _ Hm). cbn. auto 20 with one_line.
  - pose proof (mw_connection _ Hm) as Hc. destruct (m_connection m) as [c|]; [|constructor].
    apply Forall_singleton, show_connection_line, Hc, eq_refl.
  - apply Forall_fmap. eapply Forall_impl; [apply (mw_bandwidth _ Hm)|]. intros b Hb. cbv beta.
    destruct (bandwidth_parse_show b Hb) as (v & E & Hv & _). cbn in E |- *. rewrite E. auto with one_line.
  - apply Forall_fmap. eapply Forall_impl; [apply (mw_attributes _ Hm)|]. intros a. apply show_attribute_line.
Qed.

Lemma sdp_lines_clean d : sdp_wf d → Forall one_line (sdp_lines d).
Proof.
  intros Hd. unfold sdp_lines. rewrite !Forall_app. split_and!.
  - pose proof (sw_version _ Hd). pose proof (sw_name _ Hd). pose proof (sw_addr _ Hd). pose proof (sw_origin _ Hd) as Ho.
    rewrite !List.Forall_cons_iff in Ho. destruct Ho as ([? ?] & [? ?] & [? ?] & [? ?] & [? ?] & _).
    rewrite !List.Forall_cons_iff. split_and!; [cbn; auto 20 with one_line..|constructor].
  - destruct (sw_connection _ Hd) as (c & -> & Hc). by apply Forall_singleton, show_connection_line.
  - destruct (sw_time _ Hd). apply Forall_singleton. cbn. auto 10 with one_line.
  - apply Forall_fmap. eapply Forall_impl; [apply (sw_attributes _ Hd)|]. intros a. apply show_attribute_line.
  - apply Forall_forall. intros l Hl. apply list_elem_of_bind in Hl as (m & Hl & Hm).
    pose proof (sw_media _ Hd) as Hms. rewrite Forall_forall in Hms.
    pose proof (media_lines_clean m (Hms m Hm)) as Hc. rewrite Forall_forall in Hc. by apply Hc.
Qed.

Lemma sdp_parse_display d :
  sdp_wf d →
  sdp_parse (sdp_display d)
  = mkSdp (version d) (origin d) (session_name d) (connection d) (time d) (reread <$> media_descriptions d) (attributes d).
Proof.
  intros Hd. unfold sdp_parse, sdp_display. rewrite lines_of_lines.
  - unfold sdp_lines. rewrite (parse_session_lines d _ Hd).
    by rewrite (parse_all_media _ None _ (sw_media _ Hd)).
  - eapply Forall_impl; [by apply sdp_lines_clean|]. by intros l [? _].
Qed.
End text_lemmas.

(** ** Theorems *)

(** Printing a session description and parsing the text gives it back:
    origin, name, connection, time and attributes of the session, and of each
    media description the [m=] line, its connection, bandwidths and attributes,
    with the direction, fingerprint, setup role, rtcp-mux flag and ICE candidates
    that its attributes stand for.  Descriptions whose fields are not what their
    attributes say come back as their attributes say.  The session must have a connection, since the
    parser begins with a default one. *)
Theorem sdp_display_parse `{UnicodeCase, UnicodeUpper} (d : SessionDescription) :
  sdp_wf d → Forall (λ m, reread m = m) (media_descriptions d) → sdp_parse (sdp_display d) = d.
Proof.
  intros Hd Hm. rewrite sdp_parse_display by done. rewrite (Forall_fmap_ext_1 reread id) by done.
  rewrite list_fmap_id. by destruct d.
Qed.

(** An audio stream on hold with its own connection, and a DTLS video stream. *)
Definition example_sdp : SessionDescription :=
  mkSdp 0 (mkOrigin (lit "-") (lit "42") (lit "43") (lit "IN") (lit "IP4") (lit "10.0.0.1")) (lit "a call")
    (Some (mkConn (lit "IN") (lit "IP4") (lit "10.0.0.1"))) (0, 0)
    [mkMedia (lit "audio") 4000 (lit "RTP/AVP") [0; 101] (Some (mkConn (lit "IN") (lit "IP6") (lit "::1")))
       [(lit "rtpmap", Some (lit "0 PCMU/8000")); (lit "sendonly", None)] SendOnly None None false []
       [ApplicationSpecific 64];
     mkMedia (lit "video") 4002 (lit "UDP/TLS/RTP/SAVPF") [] None
       [(lit "setup", Some (lit "actpass")); (lit "fingerprint", Some (lit "SHA-256 AB:CD")); (lit "rtcp-mux", None);
        (lit "candidate", Some (lit "1 1 udp 2130706431 10.0.0.1 4002 typ host"))]
       SendRecv (Some (Sha256, lit "AB:CD")) (Some RoleActPass) true
       [mkCandidate (lit "1") 1 (lit "UDP") 2130706431 (V4 167772161) 4002 CHost None None] []]
    [(lit "ice-lite", None)].

Ltac check_token :=
  split; [done|]; intros ch Hch;
  repeat (apply elem_of_cons in Hch as [->|Hch]; [reflexivity|]); by apply elem_of_nil in Hch.

Ltac check_text := repeat constructor; (by apply (bool_decide_unpack _); vm_compute) || lia.

Lemma example_sdp_wf : sdp_wf example_sdp.
Proof.
  split; cbn; try lia; try (split; by apply (bool_decide_unpack _); vm_compute).
  - check_text.
  - eexists. split; [done|]. check_text.
  - constructor; [|constructor; [|constructor]];
      (split; [check_token|cbn; lia|check_token|check_text|intros c [= <-]; check_text|check_text|check_text]).
  - check_text.
Qed.

Lemma sdp_display_parse_witness :
  sdp_wf example_sdp ∧ @sdp_parse id id (sdp_display example_sdp) = example_sdp.
Proof.
  split; [exact example_sdp_wf|]. refine (@sdp_display_parse id id _ example_sdp_wf _).
  repeat constructor; vm_compute; reflexivity.
Defined.
