(* ===== verification/SdpNegotiate.v ===== *)
(** * Offer and answer ([asterisk-sip/src/sdp/mod.rs])

    The codecs of a media description, the offer, the answer with the direction
    it takes, ICE attributes, and the address that is advertised.

    The theorems: the answer keeps the m-lines of the offer and accepts only the
    first audio stream with a common codec; what two parties agree on over the
    wire is what both support, in the order of the offer; an address behind a
    configured external address never leaks to a peer outside. *)

From Stdlib Require Import ZArith NArith Ascii String.
From S2P Require Import Prelude RustStr NetAddr Acl Sdp.
Local Open Scope Z_scope.
Local Open Scope list_scope.

(** ** Codecs *)

Record Codec := mkCodec { payload_type : Z; codec_name : str; sample_rate : Z; channels : Z }.

Definition codec_new (name : str) (payload_type sample_rate : Z) : Codec := mkCodec payload_type name sample_rate 1.

(** The first attribute with this name and such a value. *)
Fixpoint find_attribute (name : str) (f : str → bool) (attrs : list Attribute) : option str :=
  match attrs with
  | [] => None
  | (n, Some v) :: attrs' => if str_eqb n name && f v then Some v else find_attribute name f attrs'
  | (_, None) :: attrs' => find_attribute name f attrs'
  end.

Definition get_rtpmap (m : MediaDescription) (payload_type : Z) : option str :=
  let pt_str := show_int payload_type in
  find_attribute (lit "rtpmap")
    (λ val, starts_with (pt_str ++ lit " ") val || starts_with (pt_str ++ lit "/") val) (m_attributes m).
Definition get_fmtp (m : MediaDescription) (payload_type : Z) : option str :=
  find_attribute (lit "fmtp") (starts_with (show_int payload_type ++ lit " ")) (m_attributes m).

Definition static_codec (pt : Z) : Codec :=
  if pt =? 0 then codec_new (lit "PCMU") 0 8000
  else if pt =? 3 then codec_new (lit "GSM") 3 8000
  else if pt =? 4 then codec_new (lit "G723") 4 8000
  else if pt =? 8 then codec_new (lit "PCMA") 8 8000
  else if pt =? 9 then codec_new (lit "G722") 9 8000
  else if pt =? 18 then codec_new (lit "G729") 18 8000
  else codec_new (lit "unknown-" ++ show_int pt) pt 8000.

(** "codec_name/sample_rate[/channels]" *)
Definition codec_of_rtpmap (pt : Z) (info : str) : Codec :=
  let codec_info := split (chr "/") info in
  mkCodec pt (default [] (head codec_info))
    (default 8000 (codec_info !! 1%nat ≫= parse_u32))
    (default 1 (codec_info !! 2%nat ≫= parse_unsigned 8)).

Definition codec_of (m : MediaDescription) (pt : Z) : option Codec :=
  match get_rtpmap m pt with
  | Some rtpmap =>
      match splitn 2 (chr " ") rtpmap with
      | [_; info] => Some (codec_of_rtpmap pt info)
      | _ => None
      end
  | None => Some (static_codec pt)
  end.

Definition codecs (m : MediaDescription) : list Codec := omap (codec_of m) (formats m).

(** ** The offer *)

Definition rtpmap_attribute (c : Codec) : Attribute :=
  (lit "rtpmap",
   Some (show_int (payload_type c) ++ lit " " ++ codec_name c ++ lit "/" ++ show_int (sample_rate c))).

Definition addr_type_for (addr : str) : str := if contains_char (chr ":") addr then lit "IP6" else lit "IP4".

(** The session around the media descriptions; the session id is the clock. *)
Definition session_for (now_secs : Z) (addr : str) (media : list MediaDescription) : SessionDescription :=
  let session_id := show_int now_secs in
  let addr_type := addr_type_for addr in
  mkSdp 0 (mkOrigin (lit "-") session_id session_id (lit "IN") addr_type addr) (lit "Asterisk")
    (Some (mkConn (lit "IN") addr_type addr)) (0, 0) media [].

Definition create_offer (now_secs : Z) (addr : str) (port : Z) (cs : list Codec) : SessionDescription :=
  session_for now_secs addr
    [mkMedia (lit "audio") port (lit "RTP/AVP") (payload_type <$> cs) None
       ((rtpmap_attribute <$> cs) ++ [(lit "sendrecv", None)]) SendRecv None None false [] []].

(** ** The answer *)

Definition direction_attr (d : MediaDirection) : str :=
  match d with
  | SendRecv => lit "sendrecv" | SendOnly => lit "sendonly"
  | RecvOnly => lit "recvonly" | Inactive => lit "inactive"
  end.

Definition is_zeroed (c : ConnectionData) : bool :=
  str_eqb (c_addr c) (lit "0.0.0.0") || str_eqb (c_addr c) (lit "::").

Definition answer_direction (offer_media : MediaDescription) (session_connection : option ConnectionData)
    : MediaDirection :=
  let held := match m_connection offer_media with
              | Some conn => is_zeroed conn
              | None => from_option is_zeroed false session_connection
              end in
  match (if held then SendOnly else direction offer_media) with
  | SendRecv => SendRecv
  | SendOnly => RecvOnly
  | RecvOnly => SendOnly
  | Inactive => Inactive
  end.

Definition same_codec (oc sc : Codec) : bool :=
  eq_ignore_ascii_case (codec_name oc) (codec_name sc) && (sample_rate oc =? sample_rate sc).

(** The codecs of the offer that are supported, as the offer names them. *)
Definition common_codecs (offered supported : list Codec) : list Codec :=
  List.filter (λ oc, existsb (same_codec oc) supported) offered.

Definition is_audio (m : MediaDescription) : bool := eq_ignore_ascii_case (media_type m) (lit "audio").

Definition rejected (m : MediaDescription) : MediaDescription :=
  mkMedia (media_type m) 0 (protocol m) (formats m) None [] Inactive None None false [] [].

Definition answer_setup (r : DtlsRole) : DtlsRole :=
  match r with
  | RoleActive => RolePassive
  | RolePassive => RoleActive
  | RoleActPass => RoleActive
  | RoleHoldConn => RoleHoldConn
  end.

Definition accepted (port : Z) (session_connection : option ConnectionData) (common : list Codec)
    (m : MediaDescription) : MediaDescription :=
  let answer_dir := answer_direction m session_connection in
  mkMedia (media_type m) port (protocol m) (payload_type <$> common) None
    ((rtpmap_attribute <$> common) ++ [(direction_attr answer_dir, None)]) answer_dir
    (fingerprint m) (answer_setup <$> setup m) (rtcp_mux m) [] [].

(** The body of the loop over the m-lines of the offer. *)
Definition answer_step (port : Z) (session_connection : option ConnectionData) (supported : list Codec)
    (st : bool * list MediaDescription) (m : MediaDescription) : bool * list MediaDescription :=
  let (audio_accepted, media) := st in
  let common := common_codecs (codecs m) supported in
  if is_audio m && negb audio_accepted && negb (bool_decide (common = []))
  then (true, media ++ [accepted port session_connection common m])
  else (audio_accepted, media ++ [rejected m]).

Definition create_answer (now_secs : Z) (offer : SessionDescription) (addr : str) (port : Z)
    (supported_codecs : list Codec) : SessionDescription :=
  session_for now_secs addr
    (foldl (answer_step port (connection offer) supported_codecs) (false, []) (media_descriptions offer)).2.

(** ** Other constructors and attributes *)

Definition new_audio (port : Z) : MediaDescription :=
  mkMedia (lit "audio") port (lit "RTP/AVP") [0] None [] SendRecv None None false [] [].

Definition new_audio_dtls (port : Z) (alg : FingerprintAlgorithm) (fp : str) (role : DtlsRole) : MediaDescription :=
  mkMedia (lit "audio") port (lit "UDP/TLS/RTP/SAVPF") [0] None
    [(lit "fingerprint", Some (sdp_name alg ++ lit " " ++ fp)); (lit "setup", Some (sdp_value role));
     (lit "rtcp-mux", None)]
    SendRecv (Some (alg, fp)) (Some role) true [] [].

(** The value of the first attribute with this name. *)
Fixpoint first_named (name : str) (attrs : list Attribute) : option (option str) :=
  match attrs with
  | [] => None
  | (n, v) :: attrs' => if str_eqb n name then Some v else first_named name attrs'
  end.

Definition ice_ufrag (d : SessionDescription) : option str := mjoin (first_named (lit "ice-ufrag") (attributes d)).
Definition ice_pwd (d : SessionDescription) : option str := mjoin (first_named (lit "ice-pwd") (attributes d)).

Record IceOptions := mkIceOptions { trickle : bool; renomination : bool; tokens : list str }.
Definition ice_options_parse (value : str) : IceOptions :=
  let tokens := split_whitespace value in
  mkIceOptions (existsb (str_eqb (lit "trickle")) tokens) (existsb (str_eqb (lit "renomination")) tokens) tokens.
Definition ice_options_value (o : IceOptions) : str := join (chr " ") (tokens o).

Definition ice_options (d : SessionDescription) : option IceOptions :=
  ice_options_parse <$> find_attribute (lit "ice-options") (λ _, true) (attributes d).
Definition is_ice_lite (d : SessionDescription) : bool :=
  existsb (λ a : Attribute, str_eqb a.1 (lit "ice-lite")) (attributes d).

Definition set_attributes (d : SessionDescription) (attrs : list Attribute) : SessionDescription :=
  mkSdp (version d) (origin d) (session_name d) (connection d) (time d) (media_descriptions d) attrs.

Definition set_ice_credentials (d : SessionDescription) (ufrag pwd : str) : SessionDescription :=
  set_attributes d
    (List.filter (λ a : Attribute, negb (str_eqb a.1 (lit "ice-ufrag")) && negb (str_eqb a.1 (lit "ice-pwd")))
       (attributes d)
     ++ [(lit "ice-ufrag", Some ufrag); (lit "ice-pwd", Some pwd)]).
Definition set_ice_options (d : SessionDescription) (o : IceOptions) : SessionDescription :=
  let kept := List.filter (λ a : Attribute, negb (str_eqb a.1 (lit "ice-options"))) (attributes d) in
  set_attributes d
    (if bool_decide (tokens o = []) then kept else kept ++ [(lit "ice-options", Some (ice_options_value o))]).
Definition set_ice_lite (d : SessionDescription) : SessionDescription :=
  if is_ice_lite d then d else set_attributes d (attributes d ++ [(lit "ice-lite", None)]).

Definition add_candidate (m : MediaDescription) (c : IceCandidate) : MediaDescription :=
  mkMedia (media_type m) (m_port m) (protocol m) (formats m) (m_connection m)
    (m_attributes m ++ [(lit "candidate", Some (to_sdp_attribute c))]) (direction m)
    (fingerprint m) (setup m) (rtcp_mux m) (ice_candidates m ++ [c]) (bandwidth m).
Definition add_ice_candidates_to_media (d : SessionDescription) (media_idx : nat) (candidates : list IceCandidate)
    : SessionDescription :=
  mkSdp (version d) (origin d) (session_name d) (connection d) (time d)
    (alter (λ m, foldl add_candidate m candidates) media_idx (media_descriptions d)) (attributes d).

Definition media_named (name : str) (d : SessionDescription) (media_idx : nat) (session : option str) : option str :=
  match media_descriptions d !! media_idx ≫= λ m, first_named name (m_attributes m) with
  | Some value => value
  | None => session
  end.
Definition media_ice_ufrag (d : SessionDescription) (media_idx : nat) : option str :=
  media_named (lit "ice-ufrag") d media_idx (ice_ufrag d).
Definition media_ice_pwd (d : SessionDescription) (media_idx : nat) : option str :=
  media_named (lit "ice-pwd") d media_idx (ice_pwd d).

(** ** The advertised address *)

Definition SocketAddr : Type := IpAddr * Z.
Definition show_socket (a : SocketAddr) : str :=
  match a.1 with
  | V4 b => show_ipv4 b ++ chr ":" :: show_int a.2
  | V6 b => chr "[" :: show_ipv6 b ++ chr "]" :: chr ":" :: show_int a.2
  end.
Definition is_ipv4 (a : IpAddr) : bool := match a with V4 _ => true | V6 _ => false end.
Definition is_unspecified (a : IpAddr) : bool := match a with V4 b | V6 b => b =? 0 end.

Definition peer_is_local (local_net : list str) (remote : IpAddr) : bool :=
  existsb (λ cidr, from_option (λ rule, rule_matches rule remote) false (rule_parse Permit cidr)) local_net.

Definition format_hostport (host : str) (port : Z) : str :=
  if contains_char (chr ":") host && negb (starts_with (lit "[") host)
  then chr "[" :: host ++ chr "]" :: chr ":" :: show_int port
  else host ++ chr ":" :: show_int port.

(** A configured external address, for a peer outside the local networks. *)
Definition external_for (external : option str) (local_net : list str) (remote : IpAddr) : option str :=
  match external with
  | Some ext => if negb (bool_decide (ext = [])) && negb (peer_is_local local_net remote) then Some ext else None
  | None => None
  end.

Definition advertised_signaling_hostport_with (external : option str) (external_port : option Z)
    (local_net : list str) (local remote : SocketAddr) : str :=
  match external_for external local_net remote.1 with
  | Some ext => format_hostport ext (default local.2 external_port)
  | None => show_socket local
  end.

Section network.
(** Name resolution, [None] on a timeout, and the address the kernel would send
    from, [None] when there is no route. *)
Context (resolve : str → option (list SocketAddr)) (route : SocketAddr → option IpAddr).

Definition resolve_external_media_addr (ext : str) (remote : IpAddr) : option str :=
  match parse_ip ext with
  | Some ip => Some (show_ip ip)
  | None =>
      resolved ← resolve ext;
      pick ← match List.find (λ sa : SocketAddr, Bool.eqb (is_ipv4 sa.1) (is_ipv4 remote)) resolved with
             | Some sa => Some sa
             | None => head resolved
             end;
      Some (show_ip pick.1)
  end.

Definition advertised_media_ip_with (external : option str) (local_net : list str) (local remote : SocketAddr)
    : option str :=
  match external_for external local_net remote.1 with
  | Some ext => resolve_external_media_addr ext remote.1
  | None =>
      if negb (is_unspecified local.1) then Some (show_ip local.1)
      else match route remote with
           | Some ip => if is_unspecified ip then Some (show_ip local.1) else Some (show_ip ip)
           | None => Some (show_ip local.1)
           end
  end.
End network.

(** Where the configuration comes in: [None] when none was loaded. *)
Record TransportConfig := mkTransport {
  tc_name : str; tc_protocol : str; bind : SocketAddr; external_media_address : option str;
  external_signaling_address : option str; external_signaling_port : option Z;
  cert_file : option str; priv_key_file : option str; tc_local_net : list str }.

(** The transport whose bind covers the local address: exact, same host, wildcard. *)
Definition covering_transport (transports : list TransportConfig) (local : SocketAddr) : option TransportConfig :=
  match List.find (λ t, bool_decide (bind t = local)) transports with
  | Some t => Some t
  | None =>
      match List.find (λ t, bool_decide ((bind t).1 = local.1)) transports with
      | Some t => Some t
      | None => List.find (λ t, is_unspecified (bind t).1) transports
      end
  end.

Definition advertised_media_ip resolve route (cfg : option (list TransportConfig)) (local remote : SocketAddr)
    : option str :=
  match cfg ≫= λ ts, covering_transport ts local with
  | Some t => advertised_media_ip_with resolve route (external_media_address t) (tc_local_net t) local remote
  | None => advertised_media_ip_with resolve route None [] local remote
  end.

Definition advertised_signaling_hostport (cfg : option (list TransportConfig)) (local remote : SocketAddr) : str :=
  match cfg ≫= λ ts, covering_transport ts local with
  | Some t =>
      advertised_signaling_hostport_with (external_signaling_address t) (external_signaling_port t) (tc_local_net t)
        local remote
  | None => advertised_signaling_hostport_with None None [] local remote
  end.

(** ** Lemmas: the answer *)

(** A stream that can be accepted. *)
Definition acceptable (supported : list Codec) (m : MediaDescription) : Prop :=
  is_audio m = true ∧ common_codecs (codecs m) supported ≠ [].

#[export] Instance acceptable_dec supported m : Decision (acceptable supported m).
Proof. unfold acceptable. apply _. Defined.

(** The answer: the first acceptable stream is accepted. *)
Definition answer_media (port : Z) (sc : option ConnectionData) (supported : list Codec)
    (ms : list MediaDescription) : list MediaDescription :=
  match list_find (acceptable supported) ms with
  | Some (i, m) =>
      (rejected <$> take i ms) ++ accepted port sc (common_codecs (codecs m) supported) m
        :: (rejected <$> drop (S i) ms)
  | None => rejected <$> ms
  end.

Lemma answer_step_done port sc supported ms out :
  foldl (answer_step port sc supported) (true, out) ms = (true, out ++ (rejected <$> ms)).
Proof.
  revert out. induction ms as [|m ms IH]; intros out; [by rewrite app_nil_r|].
  cbn [foldl answer_step negb]. rewrite andb_false_r. cbn [andb]. rewrite IH. by rewrite <-app_assoc.
Qed.

Lemma answer_step_test port sc supported out m :
  answer_step port sc supported (false, out) m
  = if decide (acceptable supported m)
    then (true, out ++ [accepted port sc (common_codecs (codecs m) supported) m]) else (false, out ++ [rejected m]).
Proof.
  unfold answer_step. rewrite andb_true_r. destruct (decide (acceptable supported m)) as [[-> Hc]|Hn].
  - by rewrite bool_decide_false.
  - destruct (is_audio m) eqn:E; [|done]. case_bool_decide as Hc; [done|]. by destruct Hn.
Qed.

Lemma answer_step_none port sc supported ms out :
  Forall (λ m, ¬ acceptable supported m) ms →
  foldl (answer_step port sc supported) (false, out) ms = (false, out ++ (rejected <$> ms)).
Proof.
  intros Hms. revert out. induction Hms as [|m ms Hm _ IH]; intros out; [by rewrite app_nil_r|].
  cbn [foldl]. rewrite answer_step_test, decide_False by done. rewrite IH. by rewrite <-app_assoc.
Qed.

Lemma answer_step_all port sc supported ms :
  (foldl (answer_step port sc supported) (false, []) ms).2 = answer_media port sc supported ms.
Proof.
  unfold answer_media. destruct (list_find (acceptable supported) ms) as [[i m]|] eqn:E.
  - apply list_find_Some in E as (Hi & Ha & Hno). rewrite <-(take_drop_middle ms i m Hi) at 1.
    rewrite foldl_app, answer_step_none.
    + cbn [foldl app]. rewrite answer_step_test, decide_True by done. rewrite answer_step_done. cbn [snd].
      by rewrite <-app_assoc.
    + apply Forall_lookup_2. intros j m' Hj.
      apply lookup_take_Some in Hj as [Hj Hlt]. by eapply Hno.
  - apply list_find_None in E. by rewrite answer_step_none.
Qed.

(** ** Lemmas: codecs through the text *)

Lemma digits_then_sep x c y x' c' y' :
  forallb is_ascii_digit x = true → forallb is_ascii_digit x' = true →
  is_ascii_digit c = false → is_ascii_digit c' = false →
  x ++ c :: y = x' ++ c' :: y' → x = x' ∧ c = c' ∧ y = y'.
Proof.
  intros Hx Hx' Hc Hc'. revert x' Hx'. induction x as [|d x IH]; intros [|d' x'] Hx' E; cbn in *.
  - by simplify_eq.
  - simplify_eq. apply andb_true_iff in Hx' as [? _]. congruence.
  - simplify_eq. apply andb_true_iff in Hx as [? _]. congruence.
  - apply andb_true_iff in Hx as [_ Hx], Hx' as [_ Hx']. injection E as -> E.
    destruct (IH Hx x' Hx' E) as (-> & -> & ->). done.
Qed.

Record codec_wf (c : Codec) : Prop := {
  cw_type : 0 ≤ payload_type c < 2 ^ 8;
  cw_name : one_line (codec_name c) ∧ (chr "/" ∉ codec_name c);
  cw_rate : 0 ≤ sample_rate c < 2 ^ 32 }.

(** What the text of a codec keeps: the number of channels is not written. *)
Definition mono (c : Codec) : Codec := mkCodec (payload_type c) (codec_name c) (sample_rate c) 1.

(** The value of the attribute of a codec. *)
Definition rtpmap_value (c : Codec) : str :=
  show_int (payload_type c) ++ lit " " ++ codec_name c ++ lit "/" ++ show_int (sample_rate c).

Lemma rtpmap_value_starts pt sep c :
  0 ≤ pt < 2 ^ 8 → codec_wf c → is_ascii_digit sep = false →
  starts_with (show_int pt ++ [sep]) (rtpmap_value c) = bool_decide (pt = payload_type c ∧ sep = chr " ").
Proof.
  intros Hpt Hc Hsep. apply eq_true_iff_eq. rewrite starts_with_true, bool_decide_eq_true.
  pose proof (cw_type _ Hc) as Ht. split.
  - intros [y E]. unfold rtpmap_value in E. rewrite <-app_assoc in E. cbn [app] in E.
    apply digits_then_sep in E as (E & -> & _); [|by apply show_int_digits; lia|by apply show_int_digits; lia|done|done].
    split; [|done]. symmetry. apply show_int_inj; [apply Ht|apply Hpt|done].
  - intros [-> ->]. eexists. unfold rtpmap_value. by rewrite <-app_assoc.
Qed.

Lemma find_rtpmap pt cs rest :
  0 ≤ pt < 2 ^ 8 → Forall codec_wf cs → (∀ v, (lit "rtpmap", Some v) ∉ rest) →
  find_attribute (lit "rtpmap")
    (λ val, starts_with (show_int pt ++ lit " ") val || starts_with (show_int pt ++ lit "/") val)
    ((rtpmap_attribute <$> cs) ++ rest)
  = rtpmap_value <$> List.find (λ c, payload_type c =? pt) cs.
Proof.
  intros Hpt Hcs Hrest. induction Hcs as [|c cs Hc _ IH]; cbn [fmap list_fmap app List.find].
  - induction rest as [|[n [v|]] rest IH]; [done| |]; cbn.
    + destruct (str_eqb n (lit "rtpmap")) eqn:E; cbn.
      * apply str_eqb_true in E as ->. exfalso. apply (Hrest v). by left.
      * apply IH. intros v' Hv. apply (Hrest v'). by right.
    + apply IH. intros v' Hv. apply (Hrest v'). by right.
  - change (find_attribute ?n ?f (rtpmap_attribute c :: ?l))
      with (if str_eqb (lit "rtpmap") n && f (rtpmap_value c) then Some (rtpmap_value c) else find_attribute n f l).
    rewrite str_eqb_refl. cbn [andb].
    rewrite (rtpmap_value_starts pt (chr " ") c Hpt Hc eq_refl), (rtpmap_value_starts pt (chr "/") c Hpt Hc eq_refl).
    rewrite (bool_decide_false (_ ∧ chr "/" = chr " ")) by naive_solver. rewrite orb_false_r.
    destruct (Z.eqb_spec (payload_type c) pt) as [E|E].
    + by rewrite bool_decide_true by done.
    + rewrite bool_decide_false by naive_solver. exact IH.
Qed.

Lemma codec_of_value c :
  codec_wf c →
  match splitn 2 (chr " ") (rtpmap_value c) with
  | [_; info] => Some (codec_of_rtpmap (payload_type c) info)
  | _ => None
  end = Some (mono c).
Proof.
  intros [Ht [Hn Hslash] Hr]. unfold rtpmap_value. cbn [app].
  rewrite splitn_app by (apply show_int_no_sep; [lia|done]). cbn [splitn].
  unfold codec_of_rtpmap. change (codec_name c ++ 47%N :: ?x) with (codec_name c ++ chr "/" :: x).
  rewrite split_app by done. rewrite split_no_sep by (apply show_int_no_sep; [lia|done]).
  cbn -[parse_u32]. unfold parse_u32. by rewrite parse_unsigned_show.
Qed.

Lemma codecs_of_rtpmaps m cs rest :
  formats m = payload_type <$> cs → m_attributes m = (rtpmap_attribute <$> cs) ++ rest →
  (∀ v, (lit "rtpmap", Some v) ∉ rest) → Forall codec_wf cs → NoDup (payload_type <$> cs) →
  codecs m = mono <$> cs.
Proof.
  intros Hf Ha Hrest Hcs Hnd. unfold codecs. rewrite Hf.
  assert (Hall : Forall (λ c, codec_of m (payload_type c) = Some (mono c)) cs).
  { apply Forall_forall. intros c Hc. unfold codec_of, get_rtpmap. rewrite Ha.
    pose proof Hcs as Hw. rewrite Forall_forall in Hw. pose proof (Hw c Hc) as Hwc.
    rewrite find_rtpmap by (done || apply Hwc).
    assert (List.find (λ c', payload_type c' =? payload_type c) cs = Some c) as ->.
    { clear Ha Hf Hcs Hw. revert Hc Hnd. induction cs as [|c' cs IH]; [by intros ?%elem_of_nil|].
      cbn [fmap list_fmap]. intros Hc [Hnin Hnd]%NoDup_cons. cbn.
      destruct (Z.eqb_spec (payload_type c') (payload_type c)) as [E|E].
      - apply elem_of_cons in Hc as [->|Hc]; [done|]. destruct Hnin. rewrite E. by apply list_elem_of_fmap_2.
      - apply elem_of_cons in Hc as [->|Hc]; [done|]. by apply IH. }
    cbn [fmap option_fmap option_map]. by apply codec_of_value. }
  clear -Hall. induction Hall as [|c cs Hc _ IH]; [done|]. cbn [fmap list_fmap omap list_omap].
  rewrite Hc. by rewrite IH.
Qed.

(** ** Lemmas: descriptions through the text *)

Section wire.
Context `{UnicodeCase, UnicodeUpper}.

Definition with_attributes (m : MediaDescription) (attrs : list Attribute) (d : MediaDirection) : MediaDescription :=
  mkMedia (media_type m) (m_port m) (protocol m) (formats m) (m_connection m) attrs d
    (fingerprint m) (setup m) (rtcp_mux m) (ice_candidates m) (bandwidth m).

Lemma reread_rtpmaps m cs :
  foldl media_attribute m (rtpmap_attribute <$> cs)
  = with_attributes m (m_attributes m ++ (rtpmap_attribute <$> cs)) (direction m).
Proof.
  revert m. induction cs as [|c cs IH]; intros m; [by rewrite app_nil_r; destruct m|]. cbn [fmap list_fmap foldl].
  rewrite IH. unfold media_attribute, rtpmap_attribute. cbn [rtcp_mux m_attributes direction].
  rewrite orb_false_r. unfold with_attributes. cbn. by rewrite <-app_assoc, ?orb_false_r.
Qed.

Lemma reread_direction m d :
  media_attribute m (direction_attr d, None) = with_attributes m (m_attributes m ++ [(direction_attr d, None)]) d.
Proof. destruct m, d; cbn; by rewrite orb_false_r. Qed.

Lemma rtpmap_attribute_wf c : codec_wf c → attribute_wf (rtpmap_attribute c).
Proof.
  intros [Ht [Hn _] Hr]. split; [|split]; cbn; [by apply (bool_decide_unpack _); vm_compute..|].
  auto 10 with one_line.
Qed.

Lemma direction_attribute_wf d : attribute_wf (direction_attr d, None).
Proof. by destruct d; split; [|split|..|split]; try (by apply (bool_decide_unpack _); vm_compute). Qed.

Lemma session_for_wf now addr ms :
  0 ≤ now → one_line addr → Forall media_wf ms → sdp_wf (session_for now addr ms).
Proof.
  intros Hnow Haddr Hms. destruct (token_word _ (show_int_token now Hnow)) as [? ?].
  assert (Ht : word (addr_type_for addr))
    by (unfold addr_type_for; case_match; by apply (bool_decide_unpack _); vm_compute).
  split; cbn; try done; try lia.
  - assert (word (lit "-") ∧ word (lit "IN")) as [? ?]
      by (split; by apply (bool_decide_unpack _); vm_compute).
    do 5 (apply List.Forall_cons; [done|]). constructor.
  - by apply (bool_decide_unpack _); vm_compute.
  - eexists. split; [done|]. split; [by apply (bool_decide_unpack _); vm_compute|]. by split.
Qed.

(** A media description made of codecs and a direction. *)
Lemma codec_media_wf m cs d :
  token (media_type m) → 0 ≤ m_port m < 2 ^ 16 → token (protocol m) → formats m = payload_type <$> cs →
  m_connection m = None → bandwidth m = [] → Forall codec_wf cs →
  m_attributes m = (rtpmap_attribute <$> cs) ++ [(direction_attr d, None)] → media_wf m.
Proof.
  intros Ht Hp Hpr Hf Hc Hb Hcs Ha. split; try done.
  - rewrite Hf. apply Forall_fmap. eapply Forall_impl; [exact Hcs|]. intros c Hw. apply Hw.
  - rewrite Hc. done.
  - rewrite Ha. apply Forall_app. split; [|apply Forall_singleton, direction_attribute_wf].
    apply Forall_fmap. eapply Forall_impl; [exact Hcs|]. intros c. apply rtpmap_attribute_wf.
  - rewrite Hb. constructor.
Qed.

Lemma reread_codecs m cs d :
  m_attributes m = (rtpmap_attribute <$> cs) ++ [(direction_attr d, None)] →
  reread m = mkMedia (media_type m) (m_port m) (protocol m) (formats m) (m_connection m) (m_attributes m) d
               None None false [] (bandwidth m).
Proof.
  intros Ha. unfold reread. rewrite Ha, foldl_app, reread_rtpmaps. cbn [foldl]. by rewrite reread_direction.
Qed.

(** ** Lemmas: both sides *)

Lemma common_codecs_sub offered supported :
  Forall codec_wf offered → NoDup (payload_type <$> offered) →
  Forall codec_wf (common_codecs offered supported) ∧ NoDup (payload_type <$> common_codecs offered supported).
Proof.
  unfold common_codecs. intros Hw Hnd. split.
  - apply Forall_forall. intros c Hc. apply list_elem_of_In, filter_In in Hc as [Hc _].
    rewrite Forall_forall in Hw. by apply Hw, list_elem_of_In.
  - induction offered as [|c offered IH]; [constructor|]. apply List.Forall_cons_iff in Hw as [_ Hw].
    cbn [fmap list_fmap] in Hnd. apply NoDup_cons in Hnd as [Hnin Hnd]. cbn [List.filter].
    destruct (existsb (same_codec c) supported); [|by apply IH]. cbn [fmap list_fmap]. apply NoDup_cons.
    split; [|by apply IH]. intros (c' & Hp & Hc')%list_elem_of_fmap. apply Hnin. rewrite Hp.
    apply list_elem_of_fmap_2. by apply list_elem_of_In, filter_In in Hc' as [?%list_elem_of_In _].
Qed.

Lemma mono_wf cs : Forall codec_wf cs → Forall codec_wf (mono <$> cs).
Proof. intros Hw. apply Forall_fmap. eapply Forall_impl; [exact Hw|]. intros c [? ? ?]. by split. Qed.

Lemma mono_types (cs : list Codec) : payload_type <$> (mono <$> cs) = payload_type <$> cs.
Proof. rewrite <-list_fmap_compose. done. Qed.

Lemma common_mono cs supported : mono <$> common_codecs (mono <$> cs) supported = common_codecs (mono <$> cs) supported.
Proof.
  unfold common_codecs. induction cs as [|c cs IH]; [done|]. cbn [fmap list_fmap List.filter].
  destruct (existsb _ supported); [|exact IH]. cbn [fmap list_fmap]. by f_equal.
Qed.

(** ** Which codecs are agreed on

    Independently of the code: two names differ in the case of ASCII letters only, at
    the same sample rate. *)

Definition same_letter (a b : char) : Prop :=
  a = b ∨ (65 ≤ a ≤ 90 ∧ b = a + 32)%N ∨ (65 ≤ b ≤ 90 ∧ a = b + 32)%N.
#[local] Instance same_letter_dec a b : Decision (same_letter a b).
Proof. unfold same_letter. apply _. Defined.

Definition shared (theirs : list Codec) (c : Codec) : Prop :=
  Exists (λ d, Forall2 same_letter (codec_name c) (codec_name d) ∧ sample_rate c = sample_rate d) theirs.
#[local] Instance shared_dec theirs c : Decision (shared theirs c).
Proof. unfold shared. apply _. Defined.

Lemma to_ascii_lower_letter a b : to_ascii_lower a = to_ascii_lower b ↔ same_letter a b.
Proof.
  unfold to_ascii_lower, same_letter, is_ascii_upper.
  destruct (N.leb_spec 65 a), (N.leb_spec a 90), (N.leb_spec 65 b), (N.leb_spec b 90); cbn; lia.
Qed.

Lemma same_codec_spec c d :
  same_codec c d = true ↔ Forall2 same_letter (codec_name c) (codec_name d) ∧ sample_rate c = sample_rate d.
Proof.
  unfold same_codec, eq_ignore_ascii_case. rewrite andb_true_iff, str_eqb_true, Z.eqb_eq.
  assert (∀ x y, to_ascii_lowercase x = to_ascii_lowercase y ↔ Forall2 same_letter x y) as ->; [|done].
  unfold to_ascii_lowercase. intros x. induction x as [|a x IH]; intros [|b y]; cbn.
  { split; [by constructor|done]. }
  { split; [done|by intros []%Forall2_nil_cons_inv]. }
  { split; [done|by intros []%Forall2_cons_nil_inv]. }
  rewrite Forall2_cons, <-to_ascii_lower_letter, <-IH. split; [by intros [= -> ->]|by intros [-> ->]].
Qed.

Lemma common_codecs_spec cs theirs : common_codecs (mono <$> cs) theirs = mono <$> filter (shared theirs) cs.
Proof.
  unfold common_codecs. induction cs as [|c cs IH]; [done|]. cbn [fmap list_fmap List.filter].
  assert (existsb (same_codec (mono c)) theirs = true ↔ shared theirs c) as Hs.
  { unfold shared. rewrite existsb_exists, Exists_exists. setoid_rewrite list_elem_of_In. by setoid_rewrite same_codec_spec. }
  destruct (existsb _ theirs).
  - rewrite filter_cons_True by by apply Hs. cbn [fmap list_fmap]. by f_equal.
  - rewrite filter_cons_False by by intros Hf%Hs. exact IH.
Qed.

(** What the answerer reads of an offer. *)
Lemma offer_read now addr port cs :
  0 ≤ now → one_line addr → 0 ≤ port < 2 ^ 16 → Forall codec_wf cs → NoDup (payload_type <$> cs) →
  let offer := create_offer now addr port cs in
  sdp_parse (sdp_display offer) = offer ∧ ∀ m, m ∈ media_descriptions offer → codecs m = mono <$> cs.
Proof.
  intros Hnow Haddr Hport Hcs Hnd offer. split.
  - unfold offer, create_offer. rewrite sdp_parse_display.
    + unfold session_for. cbn [version origin session_name connection time media_descriptions attributes fmap list_fmap].
      by rewrite (reread_codecs _ cs SendRecv) by done.
    + apply session_for_wf; [done..|]. apply Forall_singleton.
      apply (codec_media_wf _ cs SendRecv); try done; check_token.
  - intros m ->%list_elem_of_singleton. apply (codecs_of_rtpmaps _ cs [(lit "sendrecv", None)]); try done.
    intros v Hv%list_elem_of_singleton. done.
Qed.

Lemma answer_read now addr port sc supported m cs :
  0 ≤ now → one_line addr → 0 ≤ port < 2 ^ 16 → token (media_type m) → token (protocol m) →
  Forall (λ f, 0 ≤ f < 2 ^ 8) (formats m) → Forall codec_wf cs → NoDup (payload_type <$> cs) →
  codecs m = mono <$> cs → is_audio m = true →
  let common := common_codecs (mono <$> cs) supported in
  let answer := sdp_parse (sdp_display (session_for now addr (answer_media port sc supported [m]))) in
  connection answer = Some (mkConn (lit "IN") (addr_type_for addr) addr)
  ∧ ∃ m', media_descriptions answer = [m']
    ∧ if decide (common = []) then m_port m' = 0
      else m_port m' = port ∧ codecs m' = common ∧ direction m' = answer_direction m sc.
Proof.
  intros Hnow Haddr Hport Ht Hp Hf Hcs Hnd Hcod Haud common answer.
  destruct (common_codecs_sub (mono <$> cs) supported) as [Hw Hnd']; [by apply mono_wf|by rewrite mono_types|].
  fold common in Hw, Hnd'.
  assert (Hlen : answer_media port sc supported [m]
    = [if decide (common = []) then rejected m else accepted port sc common m]).
  { unfold answer_media. cbn [list_find]. destruct (decide (acceptable supported m)) as [[_ Hne]|Hno].
    - cbn. rewrite Hcod in *. rewrite decide_False by done. done.
    - cbn. rewrite decide_True; [done|]. destruct (decide (common = [])) as [|Hne]; [done|].
      destruct Hno. split; [done|]. by rewrite Hcod. }
  unfold answer. rewrite Hlen. destruct (decide (common = [])) as [E|E].
  - rewrite sdp_parse_display; [split; [done|]; by eexists|].
    apply session_for_wf; [done..|]. apply Forall_singleton. split; cbn; try done; by constructor.
  - rewrite sdp_parse_display.
    + split; [done|]. cbn [media_descriptions session_for fmap list_fmap]. eexists. split; [done|].
      rewrite (reread_codecs _ common (answer_direction m sc)) by done. split; [done|]. split; [|done].
      rewrite (codecs_of_rtpmaps _ common [(direction_attr (answer_direction m sc), None)]); try done.
      * by apply common_mono.
      * intros v Hv%list_elem_of_singleton. by destruct (answer_direction m sc).
    + apply session_for_wf; [done..|]. apply Forall_singleton.
      by apply (codec_media_wf _ common (answer_direction m sc)).
Qed.
End wire.

Definition sends (d : MediaDirection) : bool := match d with SendRecv | SendOnly => true | _ => false end.
Definition receives (d : MediaDirection) : bool := match d with SendRecv | RecvOnly => true | _ => false end.

(** On hold by a zeroed connection address. *)
Definition held (m : MediaDescription) (sc : option ConnectionData) : bool :=
  match m_connection m with Some conn => is_zeroed conn | None => from_option is_zeroed false sc end.

(** ** Theorems *)

(** For every offer and every list of supported codecs the answer keeps
    the m-lines in their order; the first audio stream with a common codec is
    accepted, at the given port, with the common codecs in the order of the offer,
    and every other stream is rejected with port 0.  The answer sends only where
    the offer receives and is not on hold, and receives only where the offer sends
    or is on hold.  But no fingerprint, setup or rtcp-mux attribute is ever
    written, although the protocol of the offer is repeated. *)
Theorem answer_accepts_first_audio `{UnicodeCase, UnicodeUpper} (now : Z) (offer : SessionDescription) (addr : str) (port : Z) (supported : list Codec) :
  let ms := media_descriptions offer in
  let answer := create_answer now offer addr port supported in
  length (media_descriptions answer) = length ms
  ∧ media_descriptions answer
    = match list_find (acceptable supported) ms with
      | Some (i, m) =>
          (rejected <$> take i ms)
          ++ accepted port (connection offer) (common_codecs (codecs m) supported) m :: (rejected <$> drop (S i) ms)
      | None => rejected <$> ms
      end
  ∧ (∀ m, let d := answer_direction m (connection offer) in
       (sends d = true → receives (direction m) = true ∧ held m (connection offer) = false)
       ∧ (receives d = true → sends (direction m) = true ∨ held m (connection offer) = true))
  ∧ ∀ m, m ∈ media_descriptions answer →
      fingerprint (reread m) = None ∧ setup (reread m) = None ∧ rtcp_mux (reread m) = false.
Proof.
  intros ms answer.
  assert (Ha : media_descriptions answer = answer_media port (connection offer) supported ms)
    by (apply answer_step_all).
  rewrite Ha. split; [|split; [done|split]].
  - unfold answer_media. destruct (list_find (acceptable supported) ms) as [[i m]|] eqn:E; [|by rewrite length_fmap].
    apply list_find_Some in E as (Hi & _ & _). pose proof (take_drop_middle ms i m Hi) as Hms.
    rewrite <-Hms at 3. by rewrite !length_app, !length_fmap; cbn; rewrite !length_fmap.
  - intros m. unfold answer_direction, held. destruct (match m_connection m with Some _ => _ | None => _ end).
    + cbn. split; [done|by right].
    + by destruct (direction m); cbn; split; try done; intros _; left.
  - intros m Hm. assert (Hm' : (∃ m0, m = rejected m0) ∨ ∃ c m0, m = accepted port (connection offer) c m0).
    { unfold answer_media in Hm. destruct (list_find (acceptable supported) ms) as [[i m1]|].
      - apply elem_of_app in Hm as [Hm|Hm%elem_of_cons];
          [left; apply list_elem_of_fmap in Hm as (m0 & -> & _); by eexists|].
        destruct Hm as [->|(m0 & -> & _)%list_elem_of_fmap]; [right; by do 2 eexists|left; by eexists].
      - apply list_elem_of_fmap in Hm as (m0 & -> & _). left. by eexists. }
    destruct Hm' as [[m0 ->]|(c & m0 & ->)]; [done|].
    by rewrite (reread_codecs _ c (answer_direction m0 (connection offer))).
Qed.

(** C27. Two parties agree over the wire.  An offer is made, printed and parsed by the
    answerer, who makes, prints and sends back an answer, which the offerer parses: there
    is one stream, in both directions, at the answerer's address and port, and its codecs
    are those offered for which the answerer has one of the same name, but for the case of
    letters, and the same sample rate: in the order of the offer, with the names, payload
    types and sample rates of the offer.  The number of channels is not written, so every
    codec is read as mono, whatever was offered.  Without a shared codec the stream has
    port 0. *)
Theorem offer_answer_over_the_wire `{UnicodeCase, UnicodeUpper} (now1 now2 : Z) (addr1 addr2 : str) (port1 port2 : Z)
    (ours theirs : list Codec) :
  0 ≤ now1 → 0 ≤ now2 → one_line addr1 → one_line addr2 →
  addr1 ≠ lit "0.0.0.0" → addr1 ≠ lit "::" →
  0 ≤ port1 < 2 ^ 16 → 0 ≤ port2 < 2 ^ 16 →
  Forall codec_wf ours → NoDup (payload_type <$> ours) →
  let offer := sdp_parse (sdp_display (create_offer now1 addr1 port1 ours)) in
  let answer := sdp_parse (sdp_display (create_answer now2 offer addr2 port2 theirs)) in
  let agreed := filter (shared theirs) ours in
  connection answer = Some (mkConn (lit "IN") (addr_type_for addr2) addr2)
  ∧ ∃ m, media_descriptions answer = [m]
    ∧ if decide (agreed = []) then m_port m = 0
      else m_port m = port2 ∧ codecs m = mono <$> agreed ∧ direction m = SendRecv.
Proof.
  intros Hn1 Hn2 Ha1 Ha2 Hz1 Hz2 Hp1 Hp2 Hours Hnd offer answer agreed.
  destruct (offer_read now1 addr1 port1 ours Hn1 Ha1 Hp1 Hours Hnd) as [Hoffer Hcodecs].
  unfold answer, offer, create_answer. rewrite Hoffer, answer_step_all.
  specialize (Hcodecs _ (proj2 (list_elem_of_singleton _ _) eq_refl)).
  assert (Hf : Forall (λ f, 0 ≤ f < 2 ^ 8) (payload_type <$> ours))
    by (apply Forall_fmap; eapply Forall_impl; [exact Hours|]; intros c Hc; apply Hc).
  match type of Hcodecs with codecs ?M = _ =>
    destruct (answer_read now2 addr2 port2 (connection (create_offer now1 addr1 port1 ours)) theirs M ours
      Hn2 Ha2 Hp2 ltac:(check_token) ltac:(check_token) Hf Hours Hnd Hcodecs eq_refl) as (Hconn & m & Hm & Hres)
  end.
  split; [exact Hconn|]. exists m. split; [exact Hm|]. cbv zeta in Hres. rewrite common_codecs_spec in Hres.
  change (filter (shared theirs) ours) with agreed in Hres.
  destruct (decide (agreed = [])) as [E|E]; [by rewrite E in Hres|].
  rewrite decide_False in Hres by by intros ?%fmap_nil_inv.
  destruct Hres as (Hport & Hc & Hd). split; [done|]. split; [done|]. rewrite Hd. unfold answer_direction. cbn.
  unfold is_zeroed. cbn [c_addr]. by rewrite !(proj2 (str_eqb_false _ _)).
Qed.

(** The external address is the only thing a peer outside learns: neither the
    local address nor the routes matter. *)
Theorem advertised_media_fails_closed resolve route route' external local_net local local' remote ext :
  external_for external local_net remote.1 = Some ext →
  advertised_media_ip_with resolve route external local_net local remote
  = advertised_media_ip_with resolve route' external local_net local' remote.
Proof. intros E. unfold advertised_media_ip_with. by rewrite E. Qed.

Definition pcmu : Codec := codec_new (lit "PCMU") 0 8000.
Definition opus : Codec := mkCodec 111 (lit "opus") 48000 2.
Definition g729 : Codec := codec_new (lit "G729") 18 8000.
Definition wideband : Codec := codec_new (lit "speex") 97 16000.

Lemma offer_answer_over_the_wire_witness :
  let offer := @sdp_parse id id (sdp_display (create_offer 1700000000 (lit "10.0.0.1") 4000 [opus; pcmu; g729; wideband])) in
  let answer := @sdp_parse id id (sdp_display
    (create_answer 1700000001 offer (lit "2001:db8::1") 5000 [g729; codec_new (lit "OPUS") 96 48000; codec_new (lit "speex") 98 8000])) in
  connection answer = Some (mkConn (lit "IN") (lit "IP6") (lit "2001:db8::1"))
  ∧ ∃ m, media_descriptions answer = [m] ∧ m_port m = 5000
    ∧ codecs m = [codec_new (lit "opus") 111 48000; g729] ∧ direction m = SendRecv.
Proof.
  intros offer answer.
  destruct (@offer_answer_over_the_wire id id 1700000000 1700000001 (lit "10.0.0.1") (lit "2001:db8::1") 4000 5000
    [opus; pcmu; g729; wideband] [g729; codec_new (lit "OPUS") 96 48000; codec_new (lit "speex") 98 8000]) as (Hc & m & Hm & Hr);
    [lia|lia|split; by apply (bool_decide_unpack _); vm_compute|split; by apply (bool_decide_unpack _); vm_compute
    |done|done|lia|lia| | |].
  - repeat (apply List.Forall_cons;
      [split; cbn; [lia|split; [split|]; by apply (bool_decide_unpack _); vm_compute|lia]|]). constructor.
  - by apply (bool_decide_unpack _); vm_compute.
  - split; [exact Hc|]. exists m. split; [exact Hm|]. exact Hr.
Defined.
