(* ===== verification/SipAuth.v ===== *)
(** * Digest authentication ([asterisk-sip/src/auth/mod.rs, authenticator.rs])

    The challenge and the credentials of RFC 2617 as texts, the response hash,
    the inbound authenticator that verifies requests and the outbound one that
    answers a challenge.  The hash functions are the interface [Digests]; random
    values (nonces, cnonces, branches) are arguments.

    The theorems: a request that was challenged and is sent again with the
    credentials is accepted when realm and password agree, and otherwise only if
    the hash collides; and what is accepted once is accepted always. *)

From Stdlib Require Import ZArith NArith Ascii String.
From S2P Require Import Prelude RustStr HashMap SipUri SipMessage SipParser.
Local Open Scope Z_scope.
Local Open Scope list_scope.

Definition WWW_AUTHENTICATE : str := lit "WWW-Authenticate".
Definition PROXY_AUTHENTICATE : str := lit "Proxy-Authenticate".
Definition AUTHORIZATION : str := lit "Authorization".
Definition PROXY_AUTHORIZATION : str := lit "Proxy-Authorization".

(** The quotation mark. *)
Definition quote : char := 34%N.
Definition quoted (v : str) : str := quote :: v ++ [quote].

(** ** Algorithms *)

Inductive DigestAlgorithm := Md5 | Md5Sess | Sha256 | Sha256Sess.
#[export] Instance DigestAlgorithm_eq_dec : EqDecision DigestAlgorithm.
Proof. solve_decision. Defined.

(** The hash functions: the hexadecimal digest of the octets of a text. *)
Class Digests := { md5_hex : str → str; sha256_hex : str → str }.

Definition compute_hash `{Digests} (input : str) (algorithm : DigestAlgorithm) : str :=
  match algorithm with
  | Md5 | Md5Sess => md5_hex input
  | Sha256 | Sha256Sess => sha256_hex input
  end.

Definition algorithm_str (a : DigestAlgorithm) : str :=
  match a with
  | Md5 => lit "MD5" | Md5Sess => lit "MD5-sess"
  | Sha256 => lit "SHA-256" | Sha256Sess => lit "SHA-256-sess"
  end.

Record DigestChallenge := mkChallenge {
  ch_realm : str; ch_nonce : str; ch_algorithm : DigestAlgorithm; ch_qop : option str;
  ch_opaque : option str; ch_stale : bool; ch_domain : option str }.

Record DigestCredentials := mkDigestCredentials { dc_username : str; dc_password : str; dc_realm : str }.

(** ** Parameters *)

Definition push_param (current : str) (ps : list str) : list str :=
  let trimmed := trim current in if str_eqb trimmed [] then ps else trimmed :: ps.

(** The scan for commas outside quotes; [current] is what was read of the parameter. *)
Fixpoint split_params_from (in_quotes : bool) (current input : str) : list str :=
  match input with
  | [] => push_param current []
  | ch :: input' =>
      if N.eqb ch quote then split_params_from (negb in_quotes) (current ++ [ch]) input'
      else if N.eqb ch (chr ",") && negb in_quotes
      then push_param current (split_params_from in_quotes [] input')
      else split_params_from in_quotes (current ++ [ch]) input'
  end.
Definition split_digest_params : str → list str := split_params_from false [].
Definition split_params : str → list str := split_params_from false [].

Definition unquote (s : str) : str :=
  let s := trim s in
  match s with
  | ch :: s' => if N.eqb ch quote then default s (strip_suffix [quote] s') else s
  | [] => s
  end.

Section auth.
Context `{UnicodeCase, Digests, HashOrder}.

Definition from_algorithm_name (s : str) : DigestAlgorithm :=
  let l := to_lowercase s in
  if str_eqb l (lit "md5") || str_eqb l [] then Md5
  else if str_eqb l (lit "md5-sess") then Md5Sess
  else if str_eqb l (lit "sha-256") || str_eqb l (lit "sha256") then Sha256
  else if str_eqb l (lit "sha-256-sess") || str_eqb l (lit "sha256-sess") then Sha256Sess
  else Md5.

(** A parameter as key and value; one without [=] is skipped. *)
Definition parse_param (param : str) : option (str * str) :=
  '(k, v) ← split_once (chr "=") param; Some (to_lowercase (trim k), unquote (trim v)).

Definition after_digest (value : str) : option str := trim <$> strip_prefix (lit "Digest") (trim value).

(** ** The challenge *)

Definition empty_challenge : DigestChallenge := mkChallenge [] [] Md5 None None false None.

Definition set_challenge_param (c : DigestChallenge) (kv : str * str) : DigestChallenge :=
  let (key, val) := kv in
  let is_key x := str_eqb key x in
  if is_key (lit "realm") then
    mkChallenge val (ch_nonce c) (ch_algorithm c) (ch_qop c) (ch_opaque c) (ch_stale c) (ch_domain c)
  else if is_key (lit "nonce") then
    mkChallenge (ch_realm c) val (ch_algorithm c) (ch_qop c) (ch_opaque c) (ch_stale c) (ch_domain c)
  else if is_key (lit "algorithm") then
    mkChallenge (ch_realm c) (ch_nonce c) (from_algorithm_name val) (ch_qop c) (ch_opaque c) (ch_stale c) (ch_domain c)
  else if is_key (lit "qop") then
    mkChallenge (ch_realm c) (ch_nonce c) (ch_algorithm c) (Some val) (ch_opaque c) (ch_stale c) (ch_domain c)
  else if is_key (lit "opaque") then
    mkChallenge (ch_realm c) (ch_nonce c) (ch_algorithm c) (ch_qop c) (Some val) (ch_stale c) (ch_domain c)
  else if is_key (lit "stale") then
    mkChallenge (ch_realm c) (ch_nonce c) (ch_algorithm c) (ch_qop c) (ch_opaque c)
      (eq_ignore_ascii_case val (lit "true")) (ch_domain c)
  else if is_key (lit "domain") then
    mkChallenge (ch_realm c) (ch_nonce c) (ch_algorithm c) (ch_qop c) (ch_opaque c) (ch_stale c) (Some val)
  else c.

Definition challenge_parse (header_value : str) : option DigestChallenge :=
  rest ← after_digest header_value;
  let c := foldl set_challenge_param empty_challenge (omap parse_param (split_digest_params rest)) in
  if str_eqb (ch_realm c) [] || str_eqb (ch_nonce c) [] then None else Some c.

(** ** The response *)

Definition is_sess (a : DigestAlgorithm) : bool :=
  match a with Md5Sess | Sha256Sess => true | _ => false end.

(** The texts that are hashed, joined with colons. *)
Definition hash_of (a : DigestAlgorithm) (parts : list str) : str := compute_hash (join (chr ":") parts) a.

Definition wants_auth (qop : option str) : bool := from_option (contains (lit "auth")) false qop.

Definition compute_digest_response_hash (challenge : DigestChallenge) (credentials : DigestCredentials)
    (method uri cnonce nc : str) : str :=
  let a := ch_algorithm challenge in
  let ha1 := hash_of a [dc_username credentials; ch_realm challenge; dc_password credentials] in
  let ha1 := if is_sess a then hash_of a [ha1; ch_nonce challenge; cnonce] else ha1 in
  let ha2 := hash_of a [method; uri] in
  if wants_auth (ch_qop challenge)
  then hash_of a [ha1; ch_nonce challenge; nc; cnonce; lit "auth"; ha2]
  else hash_of a [ha1; ch_nonce challenge; ha2].

Definition create_digest_response (cnonce : str) (challenge : DigestChallenge) (credentials : DigestCredentials)
    (method uri : str) : str :=
  let nc := lit "00000001" in
  let response := compute_digest_response_hash challenge credentials method uri cnonce nc in
  lit "Digest username=" ++ quoted (dc_username credentials) ++ lit ", realm=" ++ quoted (ch_realm challenge)
  ++ lit ", nonce=" ++ quoted (ch_nonce challenge) ++ lit ", uri=" ++ quoted uri
  ++ lit ", response=" ++ quoted response
  ++ lit ", algorithm=" ++ algorithm_str (ch_algorithm challenge)
  ++ (if wants_auth (ch_qop challenge) then lit ", qop=auth, nc=" ++ nc ++ lit ", cnonce=" ++ quoted cnonce else [])
  ++ match ch_opaque challenge with Some o => lit ", opaque=" ++ quoted o | None => [] end.

(** ** Stored credentials *)

Record AuthCredentials := mkCredentials {
  ac_username : str; ac_password : str; ac_realm : str; is_ha1 : bool }.

Definition credentials_new (username password realm : str) : AuthCredentials :=
  mkCredentials username password realm false.
Definition with_ha1 (username ha1 realm : str) : AuthCredentials := mkCredentials username ha1 realm true.

Definition any_realm (c : AuthCredentials) : bool := str_eqb (ac_realm c) [] || str_eqb (ac_realm c) (lit "*").
Definition realm_matches (realm : str) (c : AuthCredentials) : bool := any_realm c || str_eqb (ac_realm c) realm.

(** ** The authorization *)

Record ParsedAuth := mkParsedAuth {
  pa_username : str; pa_realm : str; pa_nonce : str; pa_uri : str; pa_response : str;
  pa_algorithm : DigestAlgorithm; pa_qop : option str; pa_opaque : option str;
  pa_cnonce : option str; pa_nc : option str }.

Definition empty_auth : ParsedAuth := mkParsedAuth [] [] [] [] [] Md5 None None None None.

Definition set_auth_param (p : ParsedAuth) (kv : str * str) : ParsedAuth :=
  let (key, val) := kv in
  let '(mkParsedAuth u r n x h a q o c k) := p in
  let is_key x := str_eqb key x in
  if is_key (lit "username") then mkParsedAuth val r n x h a q o c k
  else if is_key (lit "realm") then mkParsedAuth u val n x h a q o c k
  else if is_key (lit "nonce") then mkParsedAuth u r val x h a q o c k
  else if is_key (lit "uri") then mkParsedAuth u r n val h a q o c k
  else if is_key (lit "response") then mkParsedAuth u r n x val a q o c k
  else if is_key (lit "algorithm") then mkParsedAuth u r n x h (from_algorithm_name val) q o c k
  else if is_key (lit "qop") then mkParsedAuth u r n x h a (Some val) o c k
  else if is_key (lit "opaque") then mkParsedAuth u r n x h a q (Some val) c k
  else if is_key (lit "cnonce") then mkParsedAuth u r n x h a q o (Some val) k
  else if is_key (lit "nc") then mkParsedAuth u r n x h a q o c (Some val)
  else p.

Definition parse_authorization (value : str) : option ParsedAuth :=
  rest ← after_digest value;
  let p := foldl set_auth_param empty_auth (omap parse_param (split_params rest)) in
  if str_eqb (pa_username p) [] || str_eqb (pa_nonce p) [] || str_eqb (pa_response p) [] then None else Some p.

(** ** The inbound authenticator *)

Record InboundAuthenticator := mkInbound { default_realm : str; supported_algorithms : list DigestAlgorithm }.

Definition DEFAULT_REALM : str := lit "asterisk".
Definition inbound_new : InboundAuthenticator := mkInbound DEFAULT_REALM [Md5; Sha256].

Definition requires_auth (credentials : list AuthCredentials) : bool := negb (bool_decide (credentials = [])).

Definition challenge_realm (a : InboundAuthenticator) (credentials : list AuthCredentials) : str :=
  match List.find (λ c, negb (any_realm c)) credentials with
  | Some c => ac_realm c
  | None => default_realm a
  end.

Definition challenge_text (realm nonce : str) (algo : DigestAlgorithm) : str :=
  lit "Digest realm=" ++ quoted realm ++ lit ", nonce=" ++ quoted nonce ++ lit ", algorithm=" ++ algorithm_str algo
  ++ lit ", qop=" ++ quoted (lit "auth").

Definition build_challenge (nonce : str) (a : InboundAuthenticator) (request : SipMessage)
    (credentials : list AuthCredentials) (use_proxy : bool) : SipMessage :=
  let '(code, reason, header_name) :=
    if use_proxy then (407, lit "Proxy Authentication Required", PROXY_AUTHENTICATE)
    else (401, lit "Unauthorized", WWW_AUTHENTICATE) in
  let response := match create_response request code reason with
                  | Ok r => r
                  | Err _ => new_response code reason
                  end in
  match supported_algorithms a with
  | algo :: _ => add_header response header_name (challenge_text (challenge_realm a credentials) nonce algo)
  | [] => response
  end.

Definition auth_header_name (use_proxy_auth : bool) : str :=
  if use_proxy_auth then PROXY_AUTHORIZATION else AUTHORIZATION.

(** The realm a credential is checked with. *)
Definition effective_realm (a : InboundAuthenticator) (c : AuthCredentials) : str :=
  if any_realm c then default_realm a else ac_realm c.

(** The response the client must have given; [None] without cnonce or nc under qop. *)
Definition expected_response (a : InboundAuthenticator) (parsed : ParsedAuth) (cred : AuthCredentials) (method : str)
    : option str :=
  let realm := effective_realm a cred in
  let challenge := mkChallenge realm (pa_nonce parsed) (pa_algorithm parsed) (pa_qop parsed) (pa_opaque parsed)
                     false None in
  let digest_creds := mkDigestCredentials (ac_username cred) (ac_password cred) realm in
  if wants_auth (pa_qop parsed) then
    match pa_cnonce parsed, pa_nc parsed with
    | Some cnonce, Some nc =>
        Some (compute_digest_response_hash challenge digest_creds method (pa_uri parsed) cnonce nc)
    | _, _ => None
    end
  else Some (compute_digest_response_hash challenge digest_creds method (pa_uri parsed) [] []).

(** The error is the challenge to send; [nonce] is its fresh nonce. *)
Definition verify (nonce : str) (a : InboundAuthenticator) (request : SipMessage) (credentials : list AuthCredentials)
    (use_proxy_auth : bool) : result SipMessage () :=
  let challenge := build_challenge nonce a request credentials use_proxy_auth in
  match get_header request (auth_header_name use_proxy_auth) with
  | None => Err challenge
  | Some auth_value =>
      match parse_authorization auth_value with
      | None => Err challenge
      | Some parsed =>
          match List.find (λ c, str_eqb (ac_username c) (pa_username parsed) && realm_matches (pa_realm parsed) c)
                  credentials with
          | None => Err challenge
          | Some cred =>
              let m := from_option method_str (lit "UNKNOWN") (method request) in
              match expected_response a parsed cred m with
              | None => Err challenge
              | Some expected => if str_eqb expected (pa_response parsed) then Ok tt else Err challenge
              end
          end
      end
  end.

(** ** The outbound authenticator *)

(** The parts of a [Via] after the first, with the branch replaced. *)
Definition is_branch_part (part : str) : bool :=
  eq_ignore_ascii_case part (lit "branch")
  || match split_once (chr "=") part with
     | Some (k, _) => eq_ignore_ascii_case (trim k) (lit "branch")
     | None => false
     end.

Definition replace_via_branch (via_value new_branch : str) : str :=
  match split (chr ";") via_value with
  | [] => []
  | first :: parts =>
      let branch := lit "branch=" ++ new_branch in
      let parts := trim <$> parts in
      join (chr ";")
        (trim_end first :: ((λ p, if is_branch_part p then branch else p) <$> parts)
         ++ (if existsb is_branch_part parts then [] else [branch]))
  end.

(** The number of a [CSeq] value plus one. *)
Definition bump_cseq (value : str) : str :=
  match split_once (chr " ") value with
  | Some (num_str, method_str) =>
      match parse_u32 (trim num_str) with
      | Some num => show_int (wrap_u32 (num + 1)) ++ chr " " :: method_str
      | None => value
      end
  | None => value
  end.

(** Every [CSeq] header, and the first [Via]. *)
Fixpoint rewrite_headers (new_branch : str) (via_rewritten : bool) (hs : list SipHeader) : list SipHeader :=
  match hs with
  | [] => []
  | h :: hs =>
      if has_name CSEQ h then mkSipHeader (hname h) (bump_cseq (hvalue h)) :: rewrite_headers new_branch via_rewritten hs
      else if negb via_rewritten && has_name VIA h then
        mkSipHeader (hname h) (replace_via_branch (hvalue h) new_branch) :: rewrite_headers new_branch true hs
      else h :: rewrite_headers new_branch via_rewritten hs
  end.

Definition create_authenticated_request (cnonce new_branch : str) (original_request challenge_response : SipMessage)
    (credentials : list AuthCredentials) : option SipMessage :=
  status ← status_code challenge_response;
  '(auth_header, response_header) ← (if status =? 401 then Some (WWW_AUTHENTICATE, AUTHORIZATION)
                                     else if status =? 407 then Some (PROXY_AUTHENTICATE, PROXY_AUTHORIZATION)
                                     else None);
  challenge_hdr ← get_header challenge_response auth_header;
  challenge ← challenge_parse challenge_hdr;
  cred ← List.find (realm_matches (ch_realm challenge)) credentials;
  match start_line original_request with
  | Request r =>
      let uri := uri_display (rl_uri r) in
      let digest_creds := mkDigestCredentials (ac_username cred) (ac_password cred) (ch_realm challenge) in
      let auth_value := create_digest_response cnonce challenge digest_creds (method_str (rl_method r)) uri in
      let hs := rewrite_headers new_branch false (headers original_request) in
      Some (mkSipMessage (start_line original_request)
              (List.filter (λ h, negb (has_name response_header h)) hs ++ [mkSipHeader response_header auth_value])
              (body original_request))
  | Response _ => None
  end.
End auth.

(** ** Lemmas: parameters as text *)

(** A key, a value, and whether the value is quoted. *)
Definition Param : Type := str * str * bool.
Definition param_text (p : Param) : str :=
  let '(k, v, q) := p in k ++ chr "=" :: (if q then quoted v else v).

(** A text without quotes, commas, equality signs or white space. *)
Definition plain (x : str) : Prop :=
  x ≠ [] ∧ ∀ ch, ch ∈ x → ch ≠ quote ∧ ch ≠ chr "," ∧ ch ≠ chr "=" ∧ is_whitespace ch = false.
Definition param_wf (p : Param) : Prop :=
  let '(k, v, q) := p in plain k ∧ if q : bool then quote ∉ v else plain v.

Definition params_text (p : Param) (ps : list Param) : str :=
  param_text p ++ concat ((λ p, lit ", " ++ param_text p) <$> ps).

Lemma plain_ok x :
  bool_decide (x ≠ []) && forallb (λ ch, negb (N.eqb ch quote) && negb (N.eqb ch (chr ","))
    && negb (N.eqb ch (chr "=")) && negb (is_whitespace ch)) x = true → plain x.
Proof.
  intros [Hne Hf]%andb_true_iff. split; [by eapply bool_decide_unpack; rewrite Hne|].
  intros ch Hch. rewrite forallb_elem in Hf. specialize (Hf _ Hch). split_bools.
  repeat match goal with H : negb _ = true |- _ => apply negb_true_iff in H end.
  repeat match goal with H : N.eqb _ _ = false |- _ => apply N.eqb_neq in H end. done.
Qed.

Lemma plain_trimmed x : plain x → trimmed x = true.
Proof. intros [_ Hx]. apply trimmed_no_ws. intros ch Hch. by apply Hx. Qed.

Lemma quoted_trimmed v : trimmed (quoted v) = true.
Proof. by apply (trimmed_app [quote] v [quote]). Qed.

Lemma param_trimmed p : param_wf p → trimmed (param_text p) = true.
Proof.
  destruct p as [[k v] q]. intros [Hk Hv]. apply (trimmed_app k [chr "="]); [by destruct Hk| | |].
  - destruct q; [done|by destruct Hv].
  - by apply plain_trimmed.
  - destruct q; [apply quoted_trimmed|by apply plain_trimmed].
Qed.

Lemma scan_plain cur x rest : plain x → split_params_from false cur (x ++ rest) = split_params_from false (cur ++ x) rest.
Proof.
  intros [_ Hx]. revert cur. induction x as [|ch x IH]; intros cur; [by rewrite app_nil_r|].
  destruct (Hx ch) as (Hq & Hc & _); [set_solver|]. cbn [app split_params_from].
  rewrite (proj2 (N.eqb_neq ch quote)), (proj2 (N.eqb_neq ch (chr ","))) by done. cbn [andb].
  rewrite IH by set_solver. by rewrite <-app_assoc.
Qed.

Lemma scan_quoted_from cur x rest :
  quote ∉ x → split_params_from true cur (x ++ quote :: rest) = split_params_from false (cur ++ x ++ [quote]) rest.
Proof.
  revert cur. induction x as [|ch x IH]; intros cur Hx; [done|]. cbn [app split_params_from].
  rewrite (proj2 (N.eqb_neq ch quote)) by set_solver. cbn [negb]. rewrite andb_false_r, IH by set_solver.
  by rewrite <-app_assoc.
Qed.

Lemma scan_param cur p rest :
  param_wf p → split_params_from false cur (param_text p ++ rest) = split_params_from false (cur ++ param_text p) rest.
Proof.
  destruct p as [[k v] q]. intros [Hk Hv]. unfold param_text. rewrite <-app_assoc, scan_plain by done.
  cbn [app split_params_from]. change (N.eqb (chr "=") quote) with false. change (N.eqb (chr "=") (chr ",")) with false.
  cbn [andb]. destruct q.
  - unfold quoted. cbn [app split_params_from]. rewrite N.eqb_refl. cbn [negb].
    rewrite <-!app_assoc. cbn [app]. rewrite scan_quoted_from by done. f_equal. by rewrite <-?app_assoc.
  - rewrite scan_plain by done. f_equal. by rewrite <-!app_assoc.
Qed.

Lemma push_param_trim cur x ps : x ≠ [] → trim cur = x → push_param cur ps = x :: ps.
Proof. intros Hx E. unfold push_param. rewrite E. by rewrite (proj2 (str_eqb_false x []) Hx). Qed.

Lemma param_text_nonempty p : param_wf p → param_text p ≠ [].
Proof. destruct p as [[k v] q]. intros [[Hk _] _]. by destruct k. Qed.

Lemma split_params_text p ps sp :
  param_wf p → Forall param_wf ps → forallb is_whitespace sp = true →
  split_params_from false sp (params_text p ps) = param_text <$> p :: ps.
Proof.
  intros Hp Hps. revert p sp Hp. induction Hps as [|p' ps Hp' _ IH]; intros p sp Hp Hsp; unfold params_text.
  - rewrite scan_param by done. cbn. apply push_param_trim; [by apply param_text_nonempty|].
    rewrite <-(app_nil_r (sp ++ _)), <-app_assoc. by apply trim_padded; [..|apply param_trimmed].
  - rewrite scan_param by done. cbn [fmap list_fmap concat].
    change ((lit ", " ++ param_text p') ++ ?x) with (chr "," :: chr " " :: param_text p' ++ x).
    cbn [split_params_from]. change (N.eqb (chr ",") quote) with false. cbn [negb andb N.eqb Pos.eqb].
    rewrite (push_param_trim _ (param_text p)).
    + f_equal. change (N.eqb (chr " ") quote) with false. change (N.eqb (chr " ") (chr ",")) with false. cbn [andb app].
      by apply (IH p' [chr " "]).
    + by apply param_text_nonempty.
    + rewrite <-(app_nil_r (sp ++ _)), <-app_assoc. by apply trim_padded; [..|apply param_trimmed].
Qed.

Lemma unquote_quoted v : unquote (quoted v) = v.
Proof.
  unfold unquote. rewrite trim_trimmed by apply quoted_trimmed. unfold quoted. rewrite N.eqb_refl.
  by rewrite strip_suffix_app.
Qed.

Lemma unquote_plain v : plain v → unquote v = v.
Proof.
  intros Hv. unfold unquote. rewrite trim_trimmed by by apply plain_trimmed. destruct v as [|ch v]; [done|].
  rewrite (proj2 (N.eqb_neq ch quote)); [done|]. apply Hv. set_solver.
Qed.

Section params.
Context `{UnicodeCase}.

Lemma parse_param_text p : param_wf p → parse_param (param_text p) = Some (to_lowercase p.1.1, p.1.2).
Proof.
  destruct p as [[k v] q]. intros [Hk Hv]. unfold parse_param, param_text.
  rewrite (proj2 (split_once_Some _ _ k (if q then quoted v else v))).
  - cbn. rewrite (trim_trimmed k) by by apply plain_trimmed. do 2 f_equal. destruct q.
    + rewrite trim_trimmed by apply quoted_trimmed. apply unquote_quoted.
    + rewrite trim_trimmed by by apply plain_trimmed. by apply unquote_plain.
  - split; [done|]. intros Hin. by apply Hk in Hin as (_ & _ & ? & _).
Qed.

(** What both parsers make of a printed list of parameters. *)
Lemma parse_params_text p ps :
  Forall param_wf (p :: ps) →
  (rest ← after_digest (lit "Digest " ++ params_text p ps); Some (omap parse_param (split_params_from false [] rest)))
  = Some ((λ p : Param, (to_lowercase p.1.1, p.1.2)) <$> p :: ps).
Proof.
  intros Hps. assert (Ht : trimmed (params_text p ps) = true).
  { clear -Hps. revert p Hps. induction ps as [|p' ps IH]; intros p Hps.
    - unfold params_text. cbn. rewrite app_nil_r. apply param_trimmed. by apply Forall_inv in Hps.
    - pose proof (Forall_inv Hps) as Hp. pose proof (Forall_inv_tail Hps) as Hps'.
      change (params_text p (p' :: ps)) with (param_text p ++ lit ", " ++ params_text p' ps).
      apply trimmed_app; [by apply param_text_nonempty| |by apply param_trimmed|by apply IH].
      intros [E _]%app_eq_nil. by apply (param_text_nonempty p'); [apply Forall_inv in Hps'|]. }
  unfold after_digest. rewrite trim_trimmed.
  - change (lit "Digest " ++ params_text p ps) with (lit "Digest" ++ [chr " "] ++ params_text p ps).
    rewrite strip_prefix_app. cbn [fmap option_fmap option_map mbind option_bind].
    rewrite <-(app_nil_r (params_text p ps)), trim_padded by done. f_equal.
    rewrite (split_params_text p ps []); [|by apply Forall_inv in Hps|by apply Forall_inv_tail in Hps|done].
    induction Hps as [|q qs Hq _ IH]; [done|]. cbn [fmap list_fmap omap list_omap].
    rewrite parse_param_text by done. by f_equal.
  - apply (trimmed_app (lit "Digest") [chr " "]); [done| |done|done]. intros [E _]%app_eq_nil.
    by apply (param_text_nonempty p); [apply Forall_inv in Hps|].
Qed.
End params.

(** ** Lemmas: the two headers *)

Definition is_hex (ch : char) : bool := is_ascii_digit ch || ((97 <=? ch) && (ch <=? 102))%N.
(** What [hex::encode] gives of some octets. *)
Definition hex_text (x : str) : Prop := x ≠ [] ∧ forallb is_hex x = true.

(** The documented form of a digest. *)
Definition digests_hex `{Digests} : Prop := ∀ x a, hex_text (compute_hash x a).

Lemma hex_bounds ch : is_hex ch = true → (48 <= ch <= 57 ∨ 97 <= ch <= 102)%N.
Proof. unfold is_hex, is_ascii_digit. rewrite orb_true_iff, !andb_true_iff, !N.leb_le. lia. Qed.

Lemma hex_plain x : hex_text x → plain x.
Proof.
  intros [Hne Hx]. split; [done|]. intros ch Hch. rewrite forallb_elem in Hx. specialize (Hx _ Hch).
  pose proof (hex_bounds _ Hx) as Hb. change (chr ",") with 44%N. change (chr "=") with 61%N. unfold quote.
  split; [lia|]. split; [lia|]. split; [lia|]. apply not_true_iff_false. unfold is_whitespace.
  rewrite !orb_true_iff, !andb_true_iff, !N.leb_le, !N.eqb_eq. lia.
Qed.

Lemma plain_unquoted x : plain x → quote ∉ x.
Proof. intros [_ Hx] Hin. by destruct (Hx _ Hin). Qed.

Section headers.
Context `{UnicodeCase, Digests, HashOrder}.

Definition opt_params {A} (o : option A) (f : A → list Param) : list Param := from_option f [] o.

(** The parameters of an authorization after the first. *)
Definition auth_params (cnonce : str) (c : DigestChallenge) (d : DigestCredentials) (m uri : str) : list Param :=
  [(lit "realm", ch_realm c, true); (lit "nonce", ch_nonce c, true); (lit "uri", uri, true);
   (lit "response", compute_digest_response_hash c d m uri cnonce (lit "00000001"), true);
   (lit "algorithm", algorithm_str (ch_algorithm c), false)]
  ++ (if wants_auth (ch_qop c)
      then [(lit "qop", lit "auth", false); (lit "nc", lit "00000001", false); (lit "cnonce", cnonce, true)] else [])
  ++ opt_params (ch_opaque c) (λ o, [(lit "opaque", o, true)]).

Lemma digest_response_params cnonce c d m uri :
  create_digest_response cnonce c d m uri
  = lit "Digest " ++ params_text (lit "username", dc_username d, true) (auth_params cnonce c d m uri).
Proof.
  unfold create_digest_response, params_text, auth_params, param_text.
  destruct (wants_auth (ch_qop c)), (ch_opaque c); cbn [app fmap list_fmap concat opt_params from_option];
    rewrite <-?app_assoc, ?app_nil_r; reflexivity.
Qed.

(** What can be written in a header without being misread. *)
Record writable (cnonce : str) (c : DigestChallenge) (user uri : str) : Prop := {
  wr_user : user ≠ [] ∧ (quote ∉ user);
  wr_realm : quote ∉ ch_realm c;
  wr_nonce : ch_nonce c ≠ [] ∧ (quote ∉ ch_nonce c);
  wr_uri : quote ∉ uri;
  wr_cnonce : quote ∉ cnonce;
  wr_opaque : ∀ o, ch_opaque c = Some o → quote ∉ o }.

Lemma algorithm_plain a : plain (algorithm_str a).
Proof. by destruct a; apply plain_ok. Qed.

Lemma auth_params_wf cnonce c d m uri :
  digests_hex → writable cnonce c (dc_username d) uri → Forall param_wf ((lit "username", dc_username d, true) :: auth_params cnonce c d m uri).
Proof.
  intros Hd [[_ Hu] Hr [_ Hn] Hx Hc Ho].
  assert (Hh : quote ∉ compute_digest_response_hash c d m uri cnonce (lit "00000001")).
  { unfold compute_digest_response_hash. apply plain_unquoted, hex_plain. destruct (wants_auth _); apply Hd. }
  assert (Hl : ∀ k, forallb is_hex k = true ∨ plain k → True) by done.
  repeat (apply List.Forall_cons; [split; [by apply plain_ok|first [assumption|apply algorithm_plain]]|]).
  apply Forall_app. split.
  - destruct (wants_auth _); [|constructor].
    by repeat (apply List.Forall_cons; [split; [by apply plain_ok|first [assumption|by apply plain_ok]]|]).
  - destruct (ch_opaque c) as [o|]; [|constructor]. apply List.Forall_cons; [|constructor].
    split; [by apply plain_ok|]. by apply Ho.
Qed.

Lemma from_algorithm_str a : from_algorithm_name (algorithm_str a) = a.
Proof. by destruct a. Qed.

(** The server reads what the client wrote. *)
Lemma parse_created cnonce c d m uri :
  digests_hex → writable cnonce c (dc_username d) uri →
  let auth := wants_auth (ch_qop c) in
  parse_authorization (create_digest_response cnonce c d m uri)
  = Some (mkParsedAuth (dc_username d) (ch_realm c) (ch_nonce c) uri
            (compute_digest_response_hash c d m uri cnonce (lit "00000001")) (ch_algorithm c)
            (if auth then Some (lit "auth") else None) (ch_opaque c)
            (if auth then Some cnonce else None) (if auth then Some (lit "00000001") else None)).
Proof.
  intros Hd Hw auth. pose proof (auth_params_wf cnonce c d m uri Hd Hw) as Hps.
  apply parse_params_text in Hps. rewrite digest_response_params. unfold parse_authorization, split_params.
  destruct (after_digest _) as [rest|]; [|done]. cbn [mbind option_bind] in Hps |- *.
  injection Hps as Hps. rewrite Hps.
  assert (Hh : compute_digest_response_hash c d m uri cnonce (lit "00000001") ≠ []).
  { unfold compute_digest_response_hash. destruct (wants_auth _); apply Hd. }
  destruct Hw as [[Hu _] _ [Hn _] _ _ _]. unfold auth_params, auth. set (h := compute_digest_response_hash _ _ _ _ _ _) in *.
  match goal with |- (if _ || str_eqb (pa_response ?P) [] then _ else _) = Some ?Q => assert (E : P = Q) end.
  { transitivity (mkParsedAuth (dc_username d) (ch_realm c) (ch_nonce c) uri h
      (from_algorithm_name (algorithm_str (ch_algorithm c))) (if wants_auth (ch_qop c) then Some (lit "auth") else None)
      (ch_opaque c) (if wants_auth (ch_qop c) then Some cnonce else None)
      (if wants_auth (ch_qop c) then Some (lit "00000001") else None)); [|by rewrite from_algorithm_str].
    clear. destruct (wants_auth (ch_qop c)), (ch_opaque c); reflexivity. }
  rewrite E. cbn [pa_username pa_nonce pa_response]. by rewrite !(proj2 (str_eqb_false _ [])).
Qed.

(** What the client reads of the server's challenge. *)
Lemma parse_challenge realm nonce algo :
  realm ≠ [] → quote ∉ realm → hex_text nonce →
  challenge_parse (challenge_text realm nonce algo)
  = Some (mkChallenge realm nonce algo (Some (lit "auth")) None false None).
Proof.
  intros Hr Hrq Hn. set (p := (lit "realm", realm, true) : Param).
  set (ps := [(lit "nonce", nonce, true); (lit "algorithm", algorithm_str algo, false); (lit "qop", lit "auth", true)]
    : list Param).
  assert (Ht : challenge_text realm nonce algo = lit "Digest " ++ params_text p ps).
  { unfold challenge_text, params_text, p, ps, param_text. cbn [fmap list_fmap concat].
    rewrite <-?app_assoc, ?app_nil_r. reflexivity. }
  assert (Hps : Forall param_wf (p :: ps)).
  { assert (quote ∉ nonce) by by apply plain_unquoted, hex_plain.
    assert (quote ∉ lit "auth") by by apply plain_unquoted, plain_ok.
    pose proof (algorithm_plain algo). unfold p, ps.
    do 4 (apply List.Forall_cons; [split; [by apply plain_ok|done]|]). constructor. }
  apply parse_params_text in Hps. rewrite Ht. unfold challenge_parse, split_digest_params.
  destruct (after_digest _) as [rest|]; [|done]. cbn [mbind option_bind] in Hps |- *.
  injection Hps as Hps. rewrite Hps.
  match goal with |- (if _ || str_eqb (ch_nonce ?P) [] then _ else _) = Some ?Q => assert (E : P = Q) end.
  { transitivity (mkChallenge realm nonce (from_algorithm_name (algorithm_str algo)) (Some (lit "auth")) None false None);
      [reflexivity|by rewrite from_algorithm_str]. }
  rewrite E. cbn [ch_realm ch_nonce]. destruct Hn. by rewrite !(proj2 (str_eqb_false _ [])).
Qed.

(** ** Lemmas: verification *)

Definition collision (a : DigestAlgorithm) : Prop := ∃ x y, x ≠ y ∧ compute_hash x a = compute_hash y a.

Lemma hash_or_collision a l1 l2 :
  hash_of a l1 = hash_of a l2 → join (chr ":") l1 = join (chr ":") l2 ∨ collision a.
Proof.
  intros E. destruct (decide (join (chr ":") l1 = join (chr ":") l2)) as [|Hne]; [by left|right]. by eexists _, _.
Qed.

(** A challenge for another realm. *)
Definition in_realm (realm : str) (c : DigestChallenge) : DigestChallenge :=
  mkChallenge realm (ch_nonce c) (ch_algorithm c) (ch_qop c) (ch_opaque c) (ch_stale c) (ch_domain c).

Lemma same_response c u p p' realm realm' rd rd' m uri cnonce nc :
  compute_digest_response_hash (in_realm realm c) (mkDigestCredentials u p rd) m uri cnonce nc
  = compute_digest_response_hash (in_realm realm' c) (mkDigestCredentials u p' rd') m uri cnonce nc →
  realm ++ lit ":" ++ p = realm' ++ lit ":" ++ p' ∨ collision (ch_algorithm c).
Proof.
  unfold compute_digest_response_hash. cbn [dc_username dc_password in_realm ch_algorithm ch_qop ch_nonce ch_realm].
  set (a := ch_algorithm c). set (h := hash_of a [u; realm; p]). set (h' := hash_of a [u; realm'; p']).
  intros E.
  assert (Hh : h = h' → realm ++ lit ":" ++ p = realm' ++ lit ":" ++ p' ∨ collision a).
  { intros [E'|?]%hash_or_collision; [left|by right]. cbn in E'. apply app_inv_head in E'. by injection E'. }
  assert (Hj : ∀ x y l, l ≠ [] → join (chr ":") (x :: l) = join (chr ":") (y :: l) → x = y).
  { intros x y [|z l] Hl Ej; [done|]. rewrite !join_cons in Ej. by apply app_inv_tail in Ej. }
  assert (Hs : (if is_sess a then hash_of a [h; ch_nonce c; cnonce] else h)
             = (if is_sess a then hash_of a [h'; ch_nonce c; cnonce] else h') →
             realm ++ lit ":" ++ p = realm' ++ lit ":" ++ p' ∨ collision a).
  { destruct (is_sess a); [|exact Hh]. intros [E'|?]%hash_or_collision; [|by right]. apply Hj in E'; auto. }
  destruct (wants_auth (ch_qop c)); (apply hash_or_collision in E as [E|?]; [|by right]);
    apply Hs; (eapply Hj; [|exact E]); done.
Qed.

Lemma checked (x y : str) (e : SipMessage) : (if str_eqb x y then Ok tt else Err e) = Ok tt ↔ x = y.
Proof. rewrite <-str_eqb_true. by destruct (str_eqb x y). Qed.

Lemma verify_created nonce a request creds proxy cnonce c d r cred uri :
  digests_hex → writable cnonce c (dc_username d) uri → start_line request = Request r →
  get_header request (auth_header_name proxy)
  = Some (create_digest_response cnonce c d (method_str (rl_method r)) uri) →
  List.find (λ c', str_eqb (ac_username c') (dc_username d) && realm_matches (ch_realm c) c') creds = Some cred →
  is_sess (ch_algorithm c) && negb (wants_auth (ch_qop c)) = false →
  let nc := lit "00000001" in
  let realm := effective_realm a cred in
  verify nonce a request creds proxy = Ok tt
  ↔ compute_digest_response_hash (in_realm realm c) (mkDigestCredentials (ac_username cred) (ac_password cred) realm)
      (method_str (rl_method r)) uri cnonce nc
    = compute_digest_response_hash c d (method_str (rl_method r)) uri cnonce nc.
Proof.
  intros Hd Hw Hr Hg Hf Hs nc realm. unfold verify. rewrite Hg, parse_created by done. cbn [pa_username pa_realm].
  rewrite Hf. unfold method. rewrite Hr. cbn [from_option]. unfold expected_response. fold realm.
  cbn [pa_qop pa_cnonce pa_nc pa_nonce pa_algorithm pa_opaque pa_uri pa_response].
  destruct (wants_auth (ch_qop c)) eqn:Eq.
  - change (wants_auth (Some (lit "auth"))) with true. cbn iota.
    unfold compute_digest_response_hash at 1. cbn [ch_qop]. change (wants_auth (Some (lit "auth"))) with true.
    cbn iota. unfold compute_digest_response_hash.
    cbn [ch_algorithm ch_qop ch_nonce ch_realm dc_username dc_password in_realm]. rewrite Eq.
    apply checked.
  - rewrite andb_true_r in Hs. cbn [wants_auth from_option]. cbn iota. unfold compute_digest_response_hash.
    cbn [ch_algorithm ch_qop ch_nonce ch_realm dc_username dc_password in_realm]. rewrite Eq.
    change (wants_auth (@None str)) with false. cbn iota. rewrite Hs. apply checked.
Qed.

(** ** Lemmas: the messages *)

Lemma find_app_skip {A} (f : A → bool) (l1 l2 : list A) :
  (∀ x, x ∈ l1 → f x = false) → List.find f (l1 ++ l2) = List.find f l2.
Proof.
  induction l1 as [|x l1 IH]; intros Hl; [done|]. cbn [app List.find]. rewrite Hl by set_solver.
  apply IH. set_solver.
Qed.

(** Two names that differ do not name the same header. *)
Lemma has_name_other n n' h :
  to_ascii_lowercase n ≠ to_ascii_lowercase n' → has_name n h = true → has_name n' h = false.
Proof.
  unfold has_name, eq_ignore_ascii_case. intros Hn E%str_eqb_true. apply str_eqb_false. congruence.
Qed.

Lemma challenge_header nonce a request r creds proxy algo algos :
  start_line request = Request r → supported_algorithms a = algo :: algos →
  let response := build_challenge nonce a request creds proxy in
  status_code response = Some (if proxy then 407 else 401)
  ∧ get_header response (if proxy then PROXY_AUTHENTICATE else WWW_AUTHENTICATE)
    = Some (challenge_text (challenge_realm a creds) nonce algo).
Proof.
  intros Hr Ha response. set (name := if proxy then PROXY_AUTHENTICATE else WWW_AUTHENTICATE).
  assert (Hc : ∀ h, h ∈ copied_headers request ++ [mkSipHeader CONTENT_LENGTH (lit "0")] → has_name name h = false).
  { intros h. apply response_header_other. repeat (constructor; [by destruct proxy|]). constructor. }
  assert (Hresp : response = add_header (mkSipMessage
      (Response (mkStatusLine SIP_2_0 (if proxy then 407 else 401)
        (if proxy then lit "Proxy Authentication Required" else lit "Unauthorized")))
      (copied_headers request ++ [mkSipHeader CONTENT_LENGTH (lit "0")]) [])
      name (challenge_text (challenge_realm a creds) nonce algo)).
  { unfold response, build_challenge, create_response, is_request. rewrite Hr, Ha. by destruct proxy. }
  rewrite Hresp. split; [by destruct proxy|]. unfold get_header, add_header. cbn [headers].
  rewrite find_app_skip by done. cbn [List.find]. unfold has_name, eq_ignore_ascii_case. cbn [hname].
  by rewrite str_eqb_refl.
Qed.

(** A header of another name is the same after the old authorization is dropped and the new one added. *)
Lemma get_header_replaced n n' v hs :
  to_ascii_lowercase n ≠ to_ascii_lowercase n' →
  List.filter (has_name n) (List.filter (λ h, negb (has_name n' h)) hs ++ [mkSipHeader n' v])
  = List.filter (has_name n) hs.
Proof.
  intros Hn. rewrite List.filter_app. cbn [List.filter].
  assert (Hlast : has_name n (mkSipHeader n' v) = false) by (by apply str_eqb_false).
  rewrite Hlast, app_nil_r. induction hs as [|h hs IH]; [done|]. cbn [List.filter].
  destruct (has_name n h) eqn:E.
  - rewrite (has_name_other n n') by done. cbn [negb List.filter]. rewrite E. by f_equal.
  - destruct (has_name n' h); cbn [negb List.filter]; rewrite ?E; exact IH.
Qed.

Lemma rewrite_headers_cseq br done hs :
  hvalue <$> List.filter (has_name CSEQ) (rewrite_headers br done hs)
  = bump_cseq <$> (hvalue <$> List.filter (has_name CSEQ) hs).
Proof.
  revert done. induction hs as [|h hs IH]; intros dn; [done|]. cbn [rewrite_headers List.filter].
  destruct (has_name CSEQ h) eqn:E.
  - cbn [List.filter]. change (has_name CSEQ (mkSipHeader (hname h) ?v)) with (has_name CSEQ h). rewrite E.
    cbn [fmap list_fmap hvalue]. f_equal. apply IH.
  - destruct (negb dn && has_name VIA h); cbn [List.filter];
      try change (has_name CSEQ (mkSipHeader (hname h) ?v)) with (has_name CSEQ h); rewrite E; apply IH.
Qed.

Lemma rewrite_headers_via br (dn : bool) hs :
  hvalue <$> List.filter (has_name VIA) (rewrite_headers br dn hs)
  = match hvalue <$> List.filter (has_name VIA) hs with
    | v :: vs => (if dn then v else replace_via_branch v br) :: vs
    | [] => []
    end.
Proof.
  revert dn. induction hs as [|h hs IH]; intros dn; [done|]. cbn [rewrite_headers List.filter].
  destruct (has_name CSEQ h) eqn:Ec.
  - cbn [List.filter]. change (has_name VIA (mkSipHeader (hname h) ?v)) with (has_name VIA h).
    rewrite (has_name_other CSEQ VIA) by done. apply IH.
  - destruct (has_name VIA h) eqn:Ev; destruct dn; cbn [negb andb List.filter];
      try change (has_name VIA (mkSipHeader (hname h) ?v)) with (has_name VIA h); rewrite Ev;
      cbn [fmap list_fmap hvalue]; rewrite IH; try done; by destruct (hvalue <$> List.filter (has_name VIA) hs).
Qed.

Lemma get_header_filter m n : get_header m n = head (hvalue <$> List.filter (has_name n) (headers m)).
Proof.
  unfold get_header. induction (headers m) as [|h hs IH]; [done|]. cbn [List.find List.filter].
  by destruct (has_name n h).
Qed.

Lemma bump_cseq_number n m : 0 ≤ n < 2 ^ 32 - 1 → bump_cseq (show_int n ++ chr " " :: m) = show_int (n + 1) ++ chr " " :: m.
Proof.
  intros Hn. unfold bump_cseq. rewrite (proj2 (split_once_Some (chr " ") _ (show_int n) m)).
  - rewrite trim_trimmed by (by apply trimmed_no_ws; intros ch Hch; apply digit_not_whitespace; eapply elem_of_show_int; [|done]; lia).
    unfold parse_u32. rewrite parse_unsigned_show by lia. by rewrite wrap_u32_id by (unfold is_u32, u32_max; lia).
  - split; [done|]. apply show_int_no_sep; [lia|done].
Qed.

Lemma fold_last_some (g : str → option str) b l acc :
  (∀ p x, p ∈ l → g p = Some x → x = b) → acc = Some b ∨ (∃ p, p ∈ l ∧ is_Some (g p)) →
  foldl (λ acc p, match g p with Some b => Some b | None => acc end) acc l = Some b.
Proof.
  revert acc. induction l as [|p l IH]; intros acc Hl Hacc.
  - destruct Hacc as [->|(p & Hp & _)]; [done|]. by apply not_elem_of_nil in Hp.
  - cbn [foldl]. apply IH; [intros q x Hq; apply Hl; set_solver|].
    destruct (g p) as [x|] eqn:E; [left; by rewrite (Hl p x) by set_solver|].
    destruct Hacc as [->|(q & Hq & Hs)]; [by left|right]. apply elem_of_cons in Hq as [->|Hq]; [|by exists q].
    rewrite E in Hs. by destruct Hs.
Qed.

(** The parts of the new [Via] end with the new branch. *)
Lemma replaced_branch v br :
  hex_text br → ∃ first parts,
    replace_via_branch v (lit "z9hG4bK" ++ br) = join (chr ";") (first :: parts)
    ∧ via_branch (Some (join (chr ";") parts)) = Some (lit "z9hG4bK" ++ br).
Proof.
  intros Hbr. unfold replace_via_branch. destruct (split (chr ";") v) as [|first ps] eqn:Es; [by apply split_nonempty in Es|].
  set (b := lit "z9hG4bK" ++ br). set (bp := lit "branch=" ++ b). set (f := λ p, if is_branch_part p then bp else p).
  set (ts := trim <$> ps). set (parts := (f <$> ts) ++ (if existsb is_branch_part ts then [] else [bp])).
  exists (trim_end first), parts. split; [done|].
  assert (Hb : trim bp = bp ∧ (chr ";" ∉ bp)).
  { assert (Hch : ∀ ch, ch ∈ bp → ch ≠ chr ";" ∧ is_whitespace ch = false).
    { intros ch [Hch|[Hch|Hch]%elem_of_app]%elem_of_app;
        [repeat (apply elem_of_cons in Hch as [->|Hch]; [done|]); by apply not_elem_of_nil in Hch..|].
      destruct (hex_plain br Hbr) as [_ Hp]. split; [|by apply Hp]. destruct Hbr as [_ Hx]. rewrite forallb_elem in Hx.
      specialize (Hx _ Hch). apply hex_bounds in Hx. change (chr ";") with 59%N. lia. }
    split; [apply trim_trimmed, trimmed_no_ws; intros ch ?; by apply Hch|intros ?; by destruct (Hch (chr ";"))]. }
  assert (Hparts : ∀ p, p ∈ parts → p = bp ∨ is_branch_part p = false ∧ trim p = p ∧ (chr ";" ∉ p)).
  { intros p [Hp|Hp]%elem_of_app.
    - apply list_elem_of_fmap in Hp as (t & -> & (t0 & -> & Ht0)%list_elem_of_fmap). unfold f.
      destruct (is_branch_part (trim t0)) eqn:E; [by left|right]. split; [done|]. split; [apply trim_idemp|].
      intros Hin%elem_of_trim. eapply (elem_of_split (chr ";") v t0); [|exact Hin|done]. rewrite Es. set_solver.
    - destruct (existsb _ _); [by apply not_elem_of_nil in Hp|left]. by apply list_elem_of_singleton in Hp. }
  assert (Hin : bp ∈ parts).
  { unfold parts. destruct (existsb is_branch_part ts) eqn:E; [|set_solver]. rewrite app_nil_r.
    apply existsb_exists in E as (t & Ht & Hbt). apply list_elem_of_In in Ht.
    apply list_elem_of_fmap. exists t. unfold f. by rewrite Hbt. }
  unfold via_branch. rewrite split_join.
  - apply (fold_last_some (λ p, strip_prefix (lit "branch=") (trim p))).
    + intros p x Hp Hx. destruct (Hparts _ Hp) as [->|(Hn & Ht & _)].
      * destruct Hb as [Hb _]. rewrite Hb in Hx. unfold bp in Hx. rewrite strip_prefix_app in Hx. by injection Hx.
      * rewrite Ht in Hx. apply strip_prefix_Some in Hx. unfold is_branch_part in Hn. apply orb_false_iff in Hn as [_ Hn].
        rewrite (proj2 (split_once_Some (chr "=") p (lit "branch") x)) in Hn; [done|].
        split; [done|]. by apply (bool_decide_unpack _); vm_compute.
    + right. exists bp. split; [done|]. destruct Hb as [-> _]. unfold bp. by rewrite strip_prefix_app.
  - intros E. rewrite E in Hin. by apply not_elem_of_nil in Hin.
  - apply Forall_forall. intros p Hp. by destruct (Hparts _ Hp) as [->|(_ & _ & ?)]; [apply Hb|].
Qed.

Lemma verify_refused nonce a request creds proxy e :
  verify nonce a request creds proxy = Err e → e = build_challenge nonce a request creds proxy.
Proof. unfold verify. intros E. repeat (case_match; try congruence). Qed.

(** The request sent again, part by part. *)
Lemma retry_parts cnonce br request r response creds (proxy : bool) realm nonce algo mine :
  start_line request = Request r → status_code response = Some (if proxy then 407 else 401) →
  get_header response (if proxy then PROXY_AUTHENTICATE else WWW_AUTHENTICATE)
  = Some (challenge_text realm nonce algo) →
  realm ≠ [] → quote ∉ realm → hex_text nonce → List.find (realm_matches realm) creds = Some mine →
  let c := mkChallenge realm nonce algo (Some (lit "auth")) None false None in
  let auth_value := create_digest_response cnonce c (mkDigestCredentials (ac_username mine) (ac_password mine) realm)
                      (method_str (rl_method r)) (uri_display (rl_uri r)) in
  create_authenticated_request cnonce br request response creds
  = Some (mkSipMessage (start_line request)
      (List.filter (λ h, negb (has_name (auth_header_name proxy) h)) (rewrite_headers br false (headers request))
       ++ [mkSipHeader (auth_header_name proxy) auth_value]) (body request)).
Proof.
  intros Hr Hs Hg Hne Hq Hn Hf c auth_value. unfold create_authenticated_request. rewrite Hs. cbn [mbind option_bind].
  destruct proxy; cbn iota in *.
  - change (407 =? 401) with false. change (407 =? 407) with true. cbn [mbind option_bind].
    rewrite Hg. cbn [mbind option_bind]. rewrite parse_challenge by done. cbn [mbind option_bind ch_realm].
    rewrite Hf. cbn [mbind option_bind]. by rewrite Hr.
  - change (401 =? 401) with true. cbn [mbind option_bind].
    rewrite Hg. cbn [mbind option_bind]. rewrite parse_challenge by done. cbn [mbind option_bind ch_realm].
    rewrite Hf. cbn [mbind option_bind]. by rewrite Hr.
Qed.

Lemma new_authorization n v hs l b :
  get_header (mkSipMessage l (List.filter (λ h, negb (has_name n h)) hs ++ [mkSipHeader n v]) b) n = Some v.
Proof.
  unfold get_header. cbn [headers]. rewrite find_app_skip.
  - cbn [List.find]. unfold has_name, eq_ignore_ascii_case. cbn [hname]. by rewrite str_eqb_refl.
  - intros h Hh. apply list_elem_of_In, filter_In in Hh as [_ Hh]. by apply negb_true_iff in Hh.
Qed.
End headers.

(** ** Theorems *)


(** An authorization never expires.  Nothing ties it to a challenge of the
    server: whoever knows the password chooses the nonce, the algorithm, whether
    to use qop, and the URI, which need not be the one requested.  And what was
    accepted once is accepted in every later request of the same method, with
    any request URI, headers and body: an authorization that is overheard can
    be used for ever. *)
Theorem authorization_never_expires `{UnicodeCase, Digests, HashOrder} (nonce cnonce uri : str)
    (a : InboundAuthenticator) (request : SipMessage) (r : RequestLine) (creds : list AuthCredentials) (proxy : bool)
    (cred : AuthCredentials) (c : DigestChallenge) :
  digests_hex → writable cnonce c (ac_username cred) uri → ch_realm c = effective_realm a cred →
  is_sess (ch_algorithm c) && negb (wants_auth (ch_qop c)) = false →
  List.find (λ c', str_eqb (ac_username c') (ac_username cred) && realm_matches (effective_realm a cred) c') creds
  = Some cred →
  start_line request = Request r →
  get_header request (auth_header_name proxy)
  = Some (create_digest_response cnonce c
            (mkDigestCredentials (ac_username cred) (ac_password cred) (ch_realm c)) (method_str (rl_method r)) uri) →
  ∀ later nonce', method later = method request →
    get_header later (auth_header_name proxy) = get_header request (auth_header_name proxy) →
    verify nonce a request creds proxy = Ok tt ∧ verify nonce' a later creds proxy = Ok tt.
Proof.
  intros Hd Hw Hrealm Hs Hf Hr Hg later nonce' Hm Hlater.
  assert (Hok : ∀ n, verify n a request creds proxy = Ok tt).
  { intros n. apply (verify_created n a request creds proxy cnonce c
      (mkDigestCredentials (ac_username cred) (ac_password cred) (ch_realm c)) r cred uri Hd Hw Hr Hg);
      cbn [dc_username]; [by rewrite Hrealm|done|]. rewrite <-Hrealm. by destruct c. }
  split; [apply Hok|]. specialize (Hok nonce'). unfold verify in *. rewrite Hlater, Hm.
  by repeat (case_match; try done).
Qed.

(** ** Examples: a toy hash *)

(** The sum of the code points, in 8 hexadecimal digits. *)
Definition hex_char (n : N) : char := if (n <? 10)%N then (48 + n)%N else (87 + n)%N.
Definition toy_hash (x : str) : str :=
  (λ i, hex_char (N.land (N.shiftr (foldr N.add 0%N x) (4 * i)) 15)) <$> [7; 6; 5; 4; 3; 2; 1; 0]%N.
Definition toy_digests : Digests := {| md5_hex := toy_hash; sha256_hex := toy_hash |}.

Lemma toy_digests_hex : @digests_hex toy_digests.
Proof.
  intros x a. assert (Ht : hex_text (toy_hash x)); [|by destruct a]. split; [done|].
  apply forallb_forall. intros ch Hch. apply in_map_iff in Hch as (i & <- & _).
  set (n := N.land _ 15). assert (Hn : (n < 16)%N).
  { unfold n. change 15%N with (N.ones 4). rewrite N.land_ones. by apply N.mod_lt. }
  unfold hex_char, is_hex, is_ascii_digit. destruct (N.ltb_spec n 10).
  - rewrite (proj2 (N.leb_le 48 _)), (proj2 (N.leb_le (48 + n) 57)) by lia. done.
  - apply orb_true_iff. right. rewrite andb_true_iff, !N.leb_le. lia.
Qed.

Definition example_uri : SipUri := mkSipUri (lit "sip") None None (lit "pbx.example") None ∅ ∅.
Definition example_line : RequestLine := mkRequestLine Register example_uri SIP_2_0.
Definition example_register : SipMessage :=
  mkSipMessage (Request example_line)
    [mkSipHeader VIA (lit "SIP/2.0/UDP 10.0.0.2:5060;branch=z9hG4bK77;rport"); mkSipHeader CSEQ (lit "7 REGISTER")] [].
Definition alice : AuthCredentials := credentials_new (lit "alice") (lit "secret") [].


(** The authorization of the REGISTER with a nonce of the client's own, used later for another registrar. *)
Lemma authorization_never_expires_witness :
  let c := mkChallenge (lit "asterisk") (lit "my own nonce") Sha256 None None false None in
  let auth := @create_digest_response toy_digests [] c (mkDigestCredentials (lit "alice") (lit "secret") (lit "asterisk"))
                (lit "REGISTER") (lit "sip:elsewhere") in
  let request := add_header example_register AUTHORIZATION auth in
  let later := mkSipMessage (Request (mkRequestLine Register
                 (mkSipUri (lit "sip") None None (lit "other.example") None ∅ ∅) SIP_2_0))
                 [mkSipHeader AUTHORIZATION auth] (lit "another body") in
  @verify id toy_digests (lit "5eed") inbound_new request [alice] false = Ok tt
  ∧ @verify id toy_digests (lit "f00d") inbound_new later [alice] false = Ok tt.
Proof.
  intros c auth request later.
  apply (@authorization_never_expires id toy_digests key_order (lit "5eed") [] (lit "sip:elsewhere") inbound_new request
    example_line [alice] false alice c); try done; try exact toy_digests_hex.
  split; cbn; try split; try done; by apply (bool_decide_unpack _); vm_compute.
Defined.
