(* ===== verification/SipRegistrar.v ===== *)
(** * The registrar ([asterisk-sip/src/registrar.rs])

    Contact bindings per address of record, and the handler of REGISTER.  An
    operation is one atomic step with one reading of the clock, in milliseconds.

    The theorems: over every sequence of operations the bindings of an address
    of record are distinct, within its limit and with lifetimes in its range;
    and an accepted REGISTER leaves exactly the live bindings that a location
    service prescribes, lists them, and routes calls to the last one. *)

From Stdlib Require Import ZArith NArith Ascii String.
From S2P Require Import Prelude RustStr HashMap SipUri SipMessage.
Local Open Scope Z_scope.
Local Open Scope list_scope.

Definition EXPIRES : str := lit "Expires".
Definition USER_AGENT : str := lit "User-Agent".

(** ** Configuration and bindings *)

Record AorConfig := mkAorConfig {
  default_expiration : Z; minimum_expiration : Z; maximum_expiration : Z; max_contacts : nat;
  remove_existing : bool; support_path : bool; remove_unavailable : bool }.

Definition aor_config_default : AorConfig := mkAorConfig 3600 60 7200 10 false false false.

Record Registration := mkRegistration {
  r_aor : str; contact_uri : str; expiration : Z; registered_at : Z;
  user_agent : str; r_path : option str; r_call_id : str; r_cseq : Z }.

#[export] Instance Registration_eq_dec : EqDecision Registration.
Proof. solve_decision. Defined.

(** [registered_at.elapsed()], saturating. *)
Definition age (now : Z) (r : Registration) : Z := Z.max 0 (now - registered_at r).
Definition is_expired (now : Z) (r : Registration) : bool := expiration r * 1000 <=? age now r.
Definition remaining_seconds (now : Z) (r : Registration) : Z := Z.max 0 (expiration r - wrap_u32 (age now r / 1000)).

Record Registrar := mkRegistrar {
  aor_configs : gmap str AorConfig; contacts : gmap str (list Registration) }.

Definition registrar_new : Registrar := mkRegistrar ∅ ∅.
Definition set_contacts (s : Registrar) (c : gmap str (list Registration)) : Registrar := mkRegistrar (aor_configs s) c.

Definition add_aor (s : Registrar) (name : str) (config : AorConfig) : Registrar :=
  mkRegistrar (<[name := config]> (aor_configs s)) (contacts s).
Definition get_aor_config (s : Registrar) (name : str) : option AorConfig := aor_configs s !! name.
Definition get_contacts (s : Registrar) (aor : str) : list Registration := default [] (contacts s !! aor).
Definition total_bindings (s : Registrar) : nat := list_sum ((λ kv : str * list Registration, length kv.2) <$> map_to_list (contacts s)).

(** [Iterator::max_by_key]: the last of the greatest; [min_by_key]: the first of the least. *)
Fixpoint latest (rs : list Registration) : option Registration :=
  match rs with
  | [] => None
  | r :: rs' =>
      match latest rs' with
      | Some b => if registered_at b <? registered_at r then Some r else Some b
      | None => Some r
      end
  end.
Definition min_by_registered (rs : list Registration) : option nat :=
  let earlier (best : option (nat * Z)) (ir : nat * Registration) :=
    match best with
    | Some (i, t) => if registered_at ir.2 <? t then Some (ir.1, registered_at ir.2) else best
    | None => Some (ir.1, registered_at ir.2)
    end in
  fst <$> foldl earlier None (imap pair rs).

Definition best_contact (now : Z) (s : Registrar) (aor : str) : option str :=
  rs ← contacts s !! aor;
  contact_uri <$> latest (List.filter (λ r, negb (is_expired now r)) rs).

(** ** Changes of the bindings *)

(** The first binding with this contact is replaced, or one is added at the end. *)
Fixpoint replace_or_push (reg : Registration) (rs : list Registration) : list Registration :=
  match rs with
  | [] => [reg]
  | r :: rs' => if str_eqb (contact_uri r) (contact_uri reg) then reg :: rs' else r :: replace_or_push reg rs'
  end.

Definition register (s : Registrar) (reg : Registration) : Registrar :=
  set_contacts s (<[r_aor reg := replace_or_push reg (get_contacts s (r_aor reg))]> (contacts s)).

Definition unregister (s : Registrar) (aor uri : str) : Registrar :=
  set_contacts s (alter (List.filter (λ r, negb (str_eqb (contact_uri r) uri))) aor (contacts s)).
Definition unregister_all (s : Registrar) (aor : str) : Registrar := set_contacts s (delete aor (contacts s)).

Definition live (now : Z) (rs : list Registration) : list Registration :=
  List.filter (λ r, negb (is_expired now r)) rs.

Definition purge_expired (now : Z) (s : Registrar) : Registrar * nat :=
  let purged := live now <$> contacts s in
  let removed := list_sum ((λ kv : str * list Registration, length kv.2 - length (live now kv.2))%nat
                             <$> map_to_list (contacts s)) in
  (set_contacts s (filter (λ kv, kv.2 ≠ []) purged), removed).

Definition remove_oldest (s : Registrar) (aor : str) : Registrar :=
  set_contacts s (alter (λ rs, delete (default 0%nat (min_by_registered rs)) rs) aor (contacts s)).

Definition determine_expiration (config : AorConfig) (per_contact global : option Z) : Z :=
  let raw := default (default (default_expiration config) global) per_contact in
  if raw =? 0 then 0 else Z.min (Z.max raw (minimum_expiration config)) (maximum_expiration config).

(** ** Responses *)

Definition make_error (request : SipMessage) (code : Z) (reason : str) : SipMessage :=
  match create_response request code reason with
  | Ok r => r
  | Err _ => new_response code reason
  end.

Definition contact_value (now : Z) (r : Registration) : str :=
  lit "<" ++ contact_uri r ++ lit ">;expires=" ++ show_int (remaining_seconds now r).

Definition build_200_ok (now : Z) (s : Registrar) (request : SipMessage) (aor : str) (config : AorConfig)
    : SipMessage * Registrar :=
  let response := match create_response request 200 (lit "OK") with
                  | Ok r => r
                  | Err _ => make_error request 500 (lit "Internal Server Error")
                  end in
  let s := set_contacts s (alter (live now) aor (contacts s)) in
  let hs := (λ r, mkSipHeader CONTACT (contact_value now r)) <$> get_contacts s aor in
  (mkSipMessage (start_line response)
     (headers response ++ hs ++ [mkSipHeader EXPIRES (show_int (default_expiration config))]) (body response), s).

(** ** REGISTER *)

Section register.
Context `{UnicodeCase}.

Definition aor_name_from_request (request : SipMessage) : outcome (option str) :=
  match to_header request with
  | None => Done None
  | Some to_hdr =>
      let! aor_uri := extract_uri to_hdr in
      match aor_uri with
      | None => Done None
      | Some aor_uri =>
          let! parsed := uri_parse aor_uri in
          Done (Some (default aor_uri (result_ok parsed ≫= user)))
      end
  end.

(** The first [expires=] parameter that is a number. *)
Definition contact_expires (value : str) : option Z :=
  head (omap (λ param, strip_prefix (lit "expires=") (trim param) ≫= λ v, parse_u32 (trim v))
          (split (chr ";") value)).

Definition parse_contact_header (value : str) : outcome (option str * option Z) :=
  let value := trim value in
  if str_eqb value (lit "*") then Done (None, None)
  else let! uri := extract_uri value in Done (uri, contact_expires value).

(** What a REGISTER says beyond its contacts. *)
Record Context_of_register := mkRegCtx {
  x_aor : str; x_config : AorConfig; x_global : option Z; x_user_agent : str; x_path : option str;
  x_call_id : str; x_cseq : Z }.

(** One contact header; the error is the refusal, with the state it leaves. *)
Definition bind_contact (now : Z) (x : Context_of_register) (s : Registrar) (uri : str) (per_contact : option Z)
    : result Registrar Registrar :=
  let exp := determine_expiration (x_config x) per_contact (x_global x) in
  if exp =? 0 then Ok (unregister s (x_aor x) uri)
  else
    let current := get_contacts s (x_aor x) in
    let full := (max_contacts (x_config x) <=? length current)%nat in
    let is_refresh := existsb (λ r, str_eqb (contact_uri r) uri) current in
    if negb is_refresh && full && negb (remove_existing (x_config x)) then Err s
    else
      let s := if negb is_refresh && full && remove_existing (x_config x) then remove_oldest s (x_aor x) else s in
      Ok (register s (mkRegistration (x_aor x) uri exp now (x_user_agent x) (x_path x) (x_call_id x) (x_cseq x))).

Fixpoint bind_contacts (now : Z) (x : Context_of_register) (s : Registrar) (hdrs : list str)
    : outcome (result Registrar Registrar) :=
  match hdrs with
  | [] => Done (Ok s)
  | h :: hdrs =>
      let! (uri, per_contact) := parse_contact_header h in
      match uri with
      | None => bind_contacts now x s hdrs
      | Some uri =>
          match bind_contact now x s uri per_contact with
          | Ok s => bind_contacts now x s hdrs
          | Err s => Done (Err s)
          end
      end
  end.

Definition register_context (s : Registrar) (request : SipMessage) (aor : str) : Context_of_register :=
  mkRegCtx aor (default aor_config_default (aor_configs s !! aor))
    (get_header request EXPIRES ≫= λ v, parse_u32 (trim v))
    (default (lit "unknown") (get_header request USER_AGENT))
    (get_header request (lit "Path")) (default [] (call_id request))
    (default 0 (cseq request ≫= λ cs, head (split_whitespace cs) ≫= parse_u32)).

Definition handle_register (now : Z) (s : Registrar) (request : SipMessage) : outcome (SipMessage * Registrar) :=
  if negb (bool_decide (method request = Some Register)) then
    Done (make_error request 405 (lit "Method Not Allowed"), s)
  else
    let! aor := aor_name_from_request request in
    match aor with
    | None => Done (make_error request 400 (lit "Bad Request"), s)
    | Some aor =>
        let x := register_context s request aor in
        let contact_headers := get_headers request CONTACT in
        if existsb (λ c, str_eqb (trim c) (lit "*")) contact_headers then
          if negb (default 0 (x_global x) =? 0) then Done (make_error request 400 (lit "Bad Request"), s)
          else Done (build_200_ok now (unregister_all s aor) request aor (x_config x))
        else
          let! r := bind_contacts now x s contact_headers in
          match r with
          | Ok s => Done (build_200_ok now s request aor (x_config x))
          | Err s => Done (make_error request 403 (lit "Forbidden"), s)
          end
    end.
End register.

(** ** Lemmas: the bindings of one address of record *)

Definition uris (rs : list Registration) : list str := contact_uri <$> rs.
Definition deadline (r : Registration) : Z := registered_at r + expiration r * 1000.

(** What a location service knows: the live contacts, each with its deadline. *)
Definition bindings (now : Z) (rs : list Registration) : gmap str Z :=
  list_to_map ((λ r, (contact_uri r, deadline r)) <$> live now rs).

Lemma bindings_cons now r rs :
  bindings now (r :: rs)
  = if is_expired now r then bindings now rs else <[contact_uri r := deadline r]> (bindings now rs).
Proof. unfold bindings, live. cbn [List.filter]. by destruct (is_expired now r). Qed.

Lemma uris_replace reg rs :
  uris (replace_or_push reg rs) = if bool_decide (contact_uri reg ∈ uris rs) then uris rs else uris rs ++ [contact_uri reg].
Proof.
  induction rs as [|r rs IH]; [done|]. cbn [replace_or_push]. destruct (str_eqb _ _) eqn:E.
  - apply str_eqb_true in E. rewrite bool_decide_true by (cbn; rewrite E; set_solver). cbn. by rewrite E.
  - apply str_eqb_false in E. cbn [uris fmap list_fmap]. unfold uris in IH. rewrite IH.
    destruct (decide (contact_uri reg ∈ contact_uri <$> rs)).
    + by rewrite !bool_decide_true by set_solver.
    + rewrite !bool_decide_false by set_solver. done.
Qed.

Lemma is_refresh_in uri rs : existsb (λ r, str_eqb (contact_uri r) uri) rs = bool_decide (uri ∈ uris rs).
Proof.
  apply eq_true_iff_eq. rewrite existsb_exists, bool_decide_eq_true. unfold uris. rewrite list_elem_of_fmap. split.
  - intros (r & Hr & E%str_eqb_true). exists r. by rewrite <-list_elem_of_In in Hr.
  - intros (r & -> & Hr). exists r. rewrite <-list_elem_of_In. by rewrite str_eqb_refl.
Qed.

Lemma replace_or_push_Forall (P : Registration → Prop) reg rs : Forall P rs → P reg → Forall P (replace_or_push reg rs).
Proof.
  intros Hrs Hreg. induction Hrs as [|r rs Hr Hrs IH]; [by constructor|]. cbn [replace_or_push].
  destruct (str_eqb _ _); by constructor.
Qed.

Lemma filter_uris_sub (f : Registration → bool) rs : uris (List.filter f rs) `sublist_of` uris rs.
Proof.
  induction rs as [|r rs IH]; [constructor|]. cbn [List.filter]. destruct (f r); cbn; by constructor.
Qed.

Lemma bindings_replace now reg rs :
  is_expired now reg = false →
  bindings now (replace_or_push reg rs) = <[contact_uri reg := deadline reg]> (bindings now rs).
Proof.
  intros Hreg. induction rs as [|r rs IH].
  - cbn [replace_or_push]. rewrite bindings_cons, Hreg. done.
  - cbn [replace_or_push]. destruct (str_eqb _ _) eqn:E; rewrite !bindings_cons.
    + apply str_eqb_true in E. rewrite Hreg, E. destruct (is_expired now r); [done|]. by rewrite insert_insert_eq.
    + apply str_eqb_false in E. rewrite IH. destruct (is_expired now r); [done|]. by rewrite insert_insert_ne.
Qed.

Lemma bindings_unregister now uri rs :
  bindings now (List.filter (λ r, negb (str_eqb (contact_uri r) uri)) rs) = delete uri (bindings now rs).
Proof.
  induction rs as [|r rs IH]; [symmetry; apply delete_empty|]. cbn [List.filter].
  destruct (str_eqb _ _) eqn:E; cbn [negb]; rewrite !bindings_cons, IH.
  - apply str_eqb_true in E. destruct (is_expired now r); [done|]. rewrite E. by rewrite delete_insert_eq.
  - apply str_eqb_false in E. destruct (is_expired now r); [done|]. by rewrite delete_insert_ne.
Qed.

Lemma live_idemp now rs : live now (live now rs) = live now rs.
Proof.
  unfold live. induction rs as [|r rs IH]; [done|]. cbn [List.filter].
  destruct (is_expired now r) eqn:E; cbn [negb List.filter]; [done|]. rewrite E. cbn [negb]. by f_equal.
Qed.

Lemma bindings_live now rs : bindings now (live now rs) = bindings now rs.
Proof. unfold bindings. by rewrite live_idemp. Qed.

(** *** The oldest and the latest *)

Lemma latest_spec rs :
  match latest rs with
  | Some b => b ∈ rs ∧ ∀ r, r ∈ rs → registered_at r ≤ registered_at b
  | None => rs = []
  end.
Proof.
  induction rs as [|r rs IH]; [done|]. cbn [latest]. destruct (latest rs) as [b|].
  - destruct IH as [Hb Hmax]. destruct (Z.ltb_spec (registered_at b) (registered_at r)).
    + split; [set_solver|]. intros r' [->|Hr']%elem_of_cons; [lia|]. specialize (Hmax _ Hr'). lia.
    + split; [set_solver|]. intros r' [->|Hr']%elem_of_cons; [lia|]. by apply Hmax.
  - subst rs. split; [set_solver|]. intros r' ->%list_elem_of_singleton. lia.
Qed.

Lemma min_index rs : rs ≠ [] → ∃ i, min_by_registered rs = Some i ∧ (i < length rs)%nat.
Proof.
  intros Hne. unfold min_by_registered.
  match goal with |- context[foldl ?f None _] => set (g := f) end.
  assert (Hfold : ∀ (l : list (nat * Registration)) b, (∀ ir, ir ∈ l → (ir.1 < length rs)%nat) →
    (l ≠ [] ∨ b ≠ None) → (∀ it, b = Some it → (it.1 < length rs)%nat) →
    ∃ it, foldl g b l = Some it ∧ (it.1 < length rs)%nat).
  { induction l as [|ir l IH]; intros b Hl Hsome Hb.
    - destruct b as [it|]; [by exists it; split; [|apply Hb]|]. by destruct Hsome.
    - cbn [foldl]. apply IH; [intros; apply Hl; set_solver| |].
      + right. unfold g. destruct b as [[i t]|]; [|done]. by destruct (_ <? _).
      + intros it. unfold g. assert (Hir : (ir.1 < length rs)%nat) by (apply Hl; set_solver).
        destruct b as [[i t]|]; [destruct (_ <? _)|]; intros [= <-]; [exact Hir|by apply Hb|exact Hir]. }
  destruct (Hfold (imap pair rs) None) as (it & E & Hlt); [|left|done|exists it.1; by rewrite E].
  - intros [i r] Hir. apply elem_of_lookup_imap in Hir as (j & y & [= -> ->] & Hj). by apply lookup_lt_Some in Hj.
  - destruct rs; [done|]. done.
Qed.

(** ** The invariant *)

Definition config_of (s : Registrar) (aor : str) : AorConfig := default aor_config_default (aor_configs s !! aor).

(** The fields are unsigned, and a limit of zero evicts nobody. *)
Record config_wf (c : AorConfig) : Prop := {
  cf_default : is_u32 (default_expiration c);
  cf_min : is_u32 (minimum_expiration c);
  cf_max : is_u32 (maximum_expiration c);
  cf_limit : max_contacts c = 0%nat → remove_existing c = false }.

Definition lifetime_ok (c : AorConfig) (e : Z) : Prop :=
  1 ≤ e ≤ maximum_expiration c ∧ (minimum_expiration c ≤ maximum_expiration c → minimum_expiration c ≤ e).

Record aor_ok (c : AorConfig) (aor : str) (rs : list Registration) : Prop := {
  ao_distinct : NoDup (uris rs);
  ao_limit : (length rs ≤ max_contacts c)%nat;
  ao_each : Forall (λ r, r_aor r = aor ∧ lifetime_ok c (expiration r)) rs }.

Definition registrar_ok (s : Registrar) : Prop :=
  ∀ aor rs, contacts s !! aor = Some rs → aor_ok (config_of s aor) aor rs.

Lemma aor_ok_sublist c aor rs rs' : rs' `sublist_of` rs → aor_ok c aor rs → aor_ok c aor rs'.
Proof.
  intros Hs [Hd Hl He]. split.
  - eapply sublist_NoDup; [exact Hd|]. unfold uris. clear -Hs. induction Hs; cbn; by constructor.
  - apply sublist_length in Hs. lia.
  - apply Forall_forall. intros r Hr. rewrite Forall_forall in He. apply He. by eapply elem_of_submseteq, sublist_submseteq.
Qed.

Lemma live_sublist now rs : live now rs `sublist_of` rs.
Proof. unfold live. induction rs as [|r rs IH]; [constructor|]. cbn [List.filter]. destruct (negb _); by constructor. Qed.

Lemma filter_sublist (f : Registration → bool) rs : List.filter f rs `sublist_of` rs.
Proof. induction rs as [|r rs IH]; [constructor|]. cbn [List.filter]. destruct (f r); by constructor. Qed.

Lemma aor_ok_replace c aor rs reg :
  aor_ok c aor rs → (contact_uri reg ∈ uris rs ∨ (length rs < max_contacts c)%nat) →
  r_aor reg = aor → lifetime_ok c (expiration reg) → aor_ok c aor (replace_or_push reg rs).
Proof.
  intros [Hd Hl He] Hroom Ha Hlife. pose proof (uris_replace reg rs) as Hu. split.
  - rewrite Hu. case_bool_decide as Hin; [done|]. apply NoDup_app. split; [done|]. split; [set_solver|]. apply NoDup_singleton.
  - apply (f_equal length) in Hu. unfold uris in Hu. rewrite length_fmap in Hu. rewrite Hu.
    case_bool_decide as Hin; [by rewrite length_fmap|]. rewrite length_app, length_fmap. cbn. destruct Hroom; [done|lia].
  - by apply replace_or_push_Forall.
Qed.

Lemma registrar_ok_insert s aor rs :
  registrar_ok s → aor_ok (config_of s aor) aor rs → registrar_ok (set_contacts s (<[aor := rs]> (contacts s))).
Proof.
  intros Hs Hrs aor' rs' Hl. cbn in Hl. unfold config_of. cbn [aor_configs set_contacts].
  apply lookup_insert_Some in Hl as [[<- <-]|[_ Hl]]; [done|by apply Hs].
Qed.

Lemma registrar_ok_alter s aor f :
  registrar_ok s → (∀ rs, f rs `sublist_of` rs) → registrar_ok (set_contacts s (alter f aor (contacts s))).
Proof.
  intros Hs Hf aor' rs' Hl. cbn in Hl. unfold config_of. cbn [aor_configs set_contacts].
  apply lookup_alter_Some in Hl as [(<- & rs & Hl & ->)|[_ Hl]]; [|by apply Hs].
  eapply aor_ok_sublist; [apply Hf|by apply Hs].
Qed.

Lemma get_contacts_ok s aor : registrar_ok s → aor_ok (config_of s aor) aor (get_contacts s aor).
Proof.
  intros Hs. unfold get_contacts. destruct (contacts s !! aor) as [rs|] eqn:E; [by apply Hs|].
  split; [constructor|cbn; lia|constructor].
Qed.

Lemma determine_expiration_ok c per global :
  config_wf c → (∀ e, per = Some e → is_u32 e) → (∀ e, global = Some e → is_u32 e) →
  determine_expiration c per global = 0 ∨ lifetime_ok c (determine_expiration c per global).
Proof.
  intros [[? ?] [? ?] [? ?] _] Hper Hglob. unfold determine_expiration.
  set (raw := default (default (default_expiration c) global) per). assert (0 ≤ raw).
  { unfold raw. destruct per as [e|]; [by apply (Hper e)|]. destruct global as [e|]; [by apply (Hglob e)|done]. }
  destruct (Z.eqb_spec raw 0); [by left|]. unfold lifetime_ok.
  destruct (decide (Z.min (Z.max raw (minimum_expiration c)) (maximum_expiration c) = 0)); [by left|right; lia].
Qed.

Lemma contact_expires_u32 v e : contact_expires v = Some e → is_u32 e.
Proof.
  unfold contact_expires. intros Hh. apply head_Some_elem_of in Hh. apply list_elem_of_omap in Hh as (p & _ & Hp).
  apply bind_Some in Hp as (y & _ & Hy). by apply parse_u32_range in Hy.
Qed.

(** A state of the same registrar. *)
Definition ok_from (s s' : Registrar) : Prop := registrar_ok s' ∧ aor_configs s' = aor_configs s.

Lemma remove_oldest_ok s aor :
  registrar_ok s → ok_from s (remove_oldest s aor)
  ∧ (get_contacts s aor ≠ [] → (length (get_contacts (remove_oldest s aor) aor) < length (get_contacts s aor))%nat).
Proof.
  intros Hs. split; [split; [|done]|].
  - apply registrar_ok_alter; [done|]. intros rs. apply sublist_delete.
  - unfold get_contacts, remove_oldest. cbn [contacts set_contacts]. rewrite lookup_alter_eq.
    destruct (contacts s !! aor) as [rs|]; cbn; [|done]. intros Hne.
    destruct (min_index rs Hne) as (i & -> & Hi). cbn. rewrite length_delete by (by apply lookup_lt_is_Some). lia.
Qed.

Section invariant.
Context `{UnicodeCase}.

Lemma bind_contact_ok now x s uri per :
  registrar_ok s → x_config x = config_of s (x_aor x) → config_wf (x_config x) →
  (∀ e, per = Some e → is_u32 e) → (∀ e, x_global x = Some e → is_u32 e) →
  match bind_contact now x s uri per with Ok s' | Err s' => ok_from s s' end.
Proof.
  intros Hs Hx Hc Hper Hglob. unfold bind_contact.
  destruct (determine_expiration_ok (x_config x) per (x_global x) Hc Hper Hglob) as [->|Hlife].
  { cbn. split; [|done]. apply registrar_ok_alter; [done|]. intros rs. apply filter_sublist. }
  destruct (Z.eqb_spec (determine_expiration (x_config x) per (x_global x)) 0) as [E|_]; [destruct Hlife; lia|].
  rewrite is_refresh_in. set (rs := get_contacts s (x_aor x)).
  pose proof (get_contacts_ok s (x_aor x) Hs) as Hrs. fold rs in Hrs. rewrite <-Hx in Hrs.
  assert (Hreg : ∀ s1, ok_from s s1 →
    (uri ∈ uris (get_contacts s1 (x_aor x)) ∨ (length (get_contacts s1 (x_aor x)) < max_contacts (x_config x))%nat) →
    ok_from s (register s1 (mkRegistration (x_aor x) uri (determine_expiration (x_config x) per (x_global x)) now
      (x_user_agent x) (x_path x) (x_call_id x) (x_cseq x)))).
  { intros s1 [Hs1 Hcfg] Hroom. split; [|done]. unfold register. cbn [r_aor]. apply registrar_ok_insert; [done|].
    assert (Hc1 : config_of s1 (x_aor x) = x_config x) by (unfold config_of; by rewrite Hcfg, Hx).
    rewrite Hc1. apply aor_ok_replace; try done. rewrite <-Hc1. by apply get_contacts_ok. }
  case_bool_decide as Hin; cbn [negb andb].
  { apply Hreg; [by split|by left]. }
  destruct (Nat.leb_spec (max_contacts (x_config x)) (length rs)) as [Hfull|Hroom]; cbn [andb].
  - destruct (remove_existing (x_config x)) eqn:Er; cbn [negb]; [|by split].
    destruct (remove_oldest_ok s (x_aor x) Hs) as [Hok Hlen]. apply Hreg; [done|right].
    destruct Hc as [_ _ _ Hz]. destruct Hrs as [_ Hl _].
    assert (rs ≠ []) by (intros E; rewrite E in Hfull; cbn in Hfull; assert (max_contacts (x_config x) = 0%nat) as E0 by lia;
      apply Hz in E0; congruence).
    specialize (Hlen ltac:(done)). fold rs in Hlen. lia.
  - apply Hreg; [by split|]. right. fold rs. lia.
Qed.

Lemma parse_contact_header_returns h :
  ∃ uri per, parse_contact_header h = Done (uri, per) ∧ ∀ e, per = Some e → is_u32 e.
Proof.
  unfold parse_contact_header. destruct (str_eqb _ _); [by exists None, None|].
  destruct (extract_uri_returns (trim h)) as [u ->]. exists u, (contact_expires (trim h)). split; [done|].
  apply contact_expires_u32.
Qed.

Lemma bind_contacts_ok now x s hdrs :
  registrar_ok s → x_config x = config_of s (x_aor x) → config_wf (x_config x) →
  (∀ e, x_global x = Some e → is_u32 e) →
  ∃ r, bind_contacts now x s hdrs = Done r ∧ match r with Ok s' | Err s' => ok_from s s' end.
Proof.
  intros Hs Hx Hc Hglob. revert s Hs Hx. induction hdrs as [|h hdrs IH]; intros s Hs Hx; [by eexists|].
  cbn [bind_contacts]. destruct (parse_contact_header_returns h) as (uri & per & -> & Hper). cbn [outcome_bind].
  destruct uri as [uri|]; [|by apply IH].
  pose proof (bind_contact_ok now x s uri per Hs Hx Hc Hper Hglob) as Hb.
  destruct (bind_contact now x s uri per) as [s'|s']; [|by eexists]. destruct Hb as [Hs' Hcfg].
  destruct (IH s' Hs') as (r & -> & Hr); [by rewrite Hx; unfold config_of; rewrite Hcfg|]. exists r. split; [done|].
  destruct r as [s''|s'']; destruct Hr as [? E]; (split; [done|congruence]).
Qed.

Lemma build_200_ok_ok now s request aor c : registrar_ok s → ok_from s (build_200_ok now s request aor c).2.
Proof. intros Hs. split; [|done]. apply registrar_ok_alter; [done|]. intros rs. apply live_sublist. Qed.

Lemma aor_name_returns request : returns (aor_name_from_request request).
Proof.
  unfold aor_name_from_request. destruct (to_header request) as [v|]; [|eauto with rust].
  destruct (extract_uri_returns v) as [[u|] ->]; cbn; [|eauto with rust].
  destruct (uri_parse_returns u) as [p ->]. cbn. eauto with rust.
Qed.

Lemma global_expires_u32 s request aor e : x_global (register_context s request aor) = Some e → is_u32 e.
Proof. cbn. intros E%bind_Some. destruct E as (v & _ & Hv). by apply parse_u32_range in Hv. Qed.

Lemma handle_register_ok now s request :
  registrar_ok s → (∀ aor, config_wf (config_of s aor)) →
  ∃ resp s', handle_register now s request = Done (resp, s') ∧ ok_from s s'.
Proof.
  intros Hs Hc. unfold handle_register. case_bool_decide; cbn [negb]; [|by do 2 eexists].
  destruct (aor_name_returns request) as [[aor|] ->]; cbn [outcome_bind]; [|by do 2 eexists].
  destruct (existsb _ _).
  - destruct (negb _); [by do 2 eexists|]. eexists _, _. split; [by rewrite <-surjective_pairing|].
    assert (Hd : ok_from s (unregister_all s aor)).
    { split; [|done]. intros aor' rs Hl. cbn in Hl. apply lookup_delete_Some in Hl as [_ Hl]. by apply Hs. }
    destruct Hd as [Hd Hcfg]. by destruct (build_200_ok_ok now _ request aor (x_config (register_context s request aor)) Hd).
  - destruct (bind_contacts_ok now (register_context s request aor) s (get_headers request CONTACT) Hs)
      as (r & -> & Hr); [done|apply Hc|intros e; apply global_expires_u32|]. cbn [outcome_bind].
    destruct r as [s'|s']; [|by do 2 eexists]. destruct Hr as [Hs' Hcfg].
    eexists _, _. split; [by rewrite <-surjective_pairing|].
    destruct (build_200_ok_ok now s' request aor (x_config (register_context s request aor)) Hs') as [? E].
    split; [done|]. by rewrite E.
Qed.
End invariant.

(** ** Lemmas: the location service *)

Section service.
Context `{UnicodeCase}.

(** The contacts a REGISTER names, with their own lifetimes. *)
Fixpoint requested (hdrs : list str) : list (str * option Z) :=
  match hdrs with
  | [] => []
  | h :: hdrs =>
      match parse_contact_header h with
      | Done (Some uri, per) => (uri, per) :: requested hdrs
      | _ => requested hdrs
      end
  end.

(** What one of them does to the live contacts. *)
Definition serve (now : Z) (x : Context_of_register) (m : gmap str Z) (c : str * option Z) : gmap str Z :=
  let e := determine_expiration (x_config x) c.2 (x_global x) in
  if e =? 0 then delete c.1 m else <[c.1 := now + e * 1000]> m.

Definition known (s : Registrar) (x : Context_of_register) : list Registration := get_contacts s (x_aor x).

(** The contact at which the request is refused: the bindings of its state, live or not, fill the limit. *)
Definition refused (now : Z) (x : Context_of_register) (s1 : Registrar) (uri : str) : Prop :=
  (uri ∉ uris (known s1 x)) ∧ (max_contacts (x_config x) ≤ length (known s1 x))%nat.

Lemma get_contacts_alter s aor aor' f :
  f [] = [] →
  get_contacts (set_contacts s (alter f aor (contacts s))) aor'
  = if decide (aor = aor') then f (get_contacts s aor') else get_contacts s aor'.
Proof.
  intros Hf. unfold get_contacts. cbn [contacts set_contacts]. destruct (decide (aor = aor')) as [->|Hne].
  - rewrite lookup_alter_eq. by destruct (contacts s !! aor').
  - by rewrite lookup_alter_ne.
Qed.

Lemma bind_contact_serves now x s uri per :
  remove_existing (x_config x) = false → 0 ≤ determine_expiration (x_config x) per (x_global x) →
  match bind_contact now x s uri per with
  | Ok s' => bindings now (known s' x) = serve now x (bindings now (known s x)) (uri, per)
             ∧ (∀ aor, aor ≠ x_aor x → get_contacts s' aor = get_contacts s aor)
  | Err s' => s' = s ∧ refused now x s uri
  end.
Proof.
  intros Hre Hpos. unfold bind_contact, serve, known. cbn [fst snd].
  set (e := determine_expiration (x_config x) per (x_global x)) in *. rewrite Hre, is_refresh_in.
  destruct (Z.eqb_spec e 0) as [E|Hne].
  - split.
    + unfold unregister. rewrite get_contacts_alter by done. rewrite decide_True by done. apply bindings_unregister.
    + intros aor Ha. unfold unregister. rewrite get_contacts_alter by done. by rewrite decide_False.
  - rewrite !andb_true_r, andb_false_r. destruct (negb _ && _) eqn:Er.
    + apply andb_true_iff in Er as [Hin%negb_true_iff Hl]. apply bool_decide_eq_false in Hin.
      apply Nat.leb_le in Hl. by split.
    + unfold register, get_contacts. cbn [r_aor contacts set_contacts]. rewrite lookup_insert_eq. cbn [from_option id]. split.
      * rewrite bindings_replace; [done|]. unfold is_expired, age. cbn. apply Z.leb_gt. lia.
      * intros aor Ha. by rewrite lookup_insert_ne.
Qed.

Lemma bind_contacts_serve now x s hdrs r :
  remove_existing (x_config x) = false → config_wf (x_config x) → (∀ e, x_global x = Some e → is_u32 e) →
  bind_contacts now x s hdrs = Done r →
  match r with
  | Ok s' => bindings now (known s' x) = foldl (serve now x) (bindings now (known s x)) (requested hdrs)
             ∧ (∀ aor, aor ≠ x_aor x → get_contacts s' aor = get_contacts s aor)
  | Err s' => ∃ uri per, (uri, per) ∈ requested hdrs ∧ refused now x s' uri
  end.
Proof.
  intros Hre Hc Hglob. revert s. induction hdrs as [|h hdrs IH]; intros s.
  { intros [= <-]. by split. }
  cbn [bind_contacts requested]. destruct (parse_contact_header_returns h) as (uri & per & -> & Hper). cbn [outcome_bind].
  destruct uri as [uri|]; [|by apply IH].
  assert (Hpos : 0 ≤ determine_expiration (x_config x) per (x_global x))
    by (destruct (determine_expiration_ok (x_config x) per (x_global x) Hc Hper Hglob) as [->|[? _]]; lia).
  pose proof (bind_contact_serves now x s uri per Hre Hpos) as Hb.
  destruct (bind_contact now x s uri per) as [s1|s1].
  - intros Hr. apply IH in Hr. destruct Hb as [Hb Ho]. destruct r as [s'|s'].
    + destruct Hr as [Hr Ho']. cbn [foldl]. rewrite <-Hb. split; [exact Hr|].
      intros aor Ha. rewrite Ho' by done. by apply Ho.
    + destruct Hr as (u & p & Hin & Href). exists u, p. split; [by apply elem_of_cons; right|done].
  - intros [= <-]. destruct Hb as [-> Href]. exists uri, per. split; [by apply elem_of_cons; left|done].
Qed.

Lemma ok_response now s request r aor c :
  start_line request = Request r →
  let '(resp, s') := build_200_ok now s request aor c in
  status_code resp = Some 200 ∧ get_headers resp CONTACT = contact_value now <$> get_contacts s' aor
  ∧ get_contacts s' aor = live now (get_contacts s aor)
  ∧ (∀ aor', aor' ≠ aor → get_contacts s' aor' = get_contacts s aor').
Proof.
  intros Hr. unfold build_200_ok, create_response, is_request. rewrite Hr. cbn [negb start_line headers body].
  split; [done|]. split; [|split].
  - unfold get_headers. cbn [headers]. rewrite !List.filter_app.
    assert (Hn : ∀ l, (∀ h, h ∈ l → has_name CONTACT h = false) → List.filter (has_name CONTACT) l = []).
    { intros l Hl. induction l as [|h l IH]; [done|]. cbn [List.filter]. rewrite Hl by set_solver. apply IH. set_solver. }
    rewrite <-List.filter_app, Hn by (intros h; apply response_header_other; repeat (constructor; [done|]); constructor).
    cbn [app List.filter]. change (has_name CONTACT (mkSipHeader EXPIRES ?v)) with false. rewrite app_nil_r.
    generalize (get_contacts (set_contacts s (alter (live now) aor (contacts s))) aor). intros l.
    induction l as [|b l IH]; [done|]. cbn [fmap list_fmap List.filter].
    change (has_name CONTACT (mkSipHeader CONTACT ?v)) with true. cbn [fmap list_fmap hvalue]. by f_equal.
  - rewrite get_contacts_alter by done. by rewrite decide_True.
  - intros aor' Ha. rewrite get_contacts_alter by done. by rewrite decide_False.
Qed.

Lemma best_contact_spec t s aor :
  match best_contact t s aor with
  | Some u => ∃ r, r ∈ get_contacts s aor ∧ contact_uri r = u ∧ is_expired t r = false
              ∧ ∀ r', r' ∈ get_contacts s aor → is_expired t r' = false → registered_at r' ≤ registered_at r
  | None => ∀ r, r ∈ get_contacts s aor → is_expired t r = true
  end.
Proof.
  unfold best_contact, get_contacts. destruct (contacts s !! aor) as [rs|]; cbn [mbind option_bind default].
  2: { intros r Hr. by apply not_elem_of_nil in Hr. }
  assert (Hf : ∀ r, r ∈ List.filter (λ r, negb (is_expired t r)) rs ↔ r ∈ rs ∧ is_expired t r = false).
  { intros r. rewrite list_elem_of_In, filter_In, <-list_elem_of_In. by rewrite negb_true_iff. }
  pose proof (latest_spec (List.filter (λ r, negb (is_expired t r)) rs)) as Hl.
  destruct (latest _) as [b|]; cbn [fmap option_fmap option_map].
  - destruct Hl as [[Hb Hlive]%Hf Hmax]. exists b. split; [done|]. split; [done|]. split; [done|].
    intros r' Hr' Hl'. apply Hmax. by apply Hf.
  - cbn. intros r Hr. destruct (is_expired t r) eqn:E; [done|]. assert (Hin : r ∈ List.filter (λ r, negb (is_expired t r)) rs)
      by by apply Hf. rewrite Hl in Hin. by apply not_elem_of_nil in Hin.
Qed.
End service.

(** ** Operations in sequence *)

Inductive RegistrarOp :=
  | OpRegister (request : SipMessage)
  | OpUnregister (aor uri : str)
  | OpUnregisterAll (aor : str)
  | OpPurge.

Definition registrar_step `{UnicodeCase} (now : Z) (s : Registrar) (op : RegistrarOp) : outcome Registrar :=
  match op with
  | OpRegister request => let! (_, s') := handle_register now s request in Done s'
  | OpUnregister aor uri => Done (unregister s aor uri)
  | OpUnregisterAll aor => Done (unregister_all s aor)
  | OpPurge => Done (purge_expired now s).1
  end.

Fixpoint registrar_run `{UnicodeCase} (s : Registrar) (ops : list (Z * RegistrarOp)) : outcome Registrar :=
  match ops with
  | [] => Done s
  | (now, op) :: ops => let! s := registrar_step now s op in registrar_run s ops
  end.

Lemma registrar_step_ok `{UnicodeCase} now s op :
  registrar_ok s → (∀ aor, config_wf (config_of s aor)) →
  ∃ s', registrar_step now s op = Done s' ∧ ok_from s s'.
Proof.
  intros Hs Hc. destruct op as [request|aor uri|aor|]; cbn [registrar_step].
  - destruct (handle_register_ok now s request Hs Hc) as (resp & s' & -> & Hok). by exists s'.
  - eexists. split; [done|]. split; [|done]. apply registrar_ok_alter; [done|]. intros rs. apply filter_sublist.
  - eexists. split; [done|]. split; [|done]. intros aor' rs Hl. cbn in Hl.
    apply lookup_delete_Some in Hl as [_ Hl]. by apply Hs.
  - eexists. split; [done|]. split; [|done]. intros aor rs Hl. cbn in Hl.
    apply map_lookup_filter_Some in Hl as [Hl _]. apply lookup_fmap_Some in Hl as (rs0 & <- & Hl).
    eapply aor_ok_sublist; [apply live_sublist|by apply Hs].
Qed.

(** ** Theorems *)

(** C23. The bindings are well formed.  From an empty registrar, whatever
    requests arrive, and whatever is removed or purged, at any times, no
    operation panics, and for every address of record the contacts are distinct
    and at most as many as its limit, and each belongs to it with a lifetime of at
    least a second, at least its minimum (if the range is not empty) and at most
    its maximum. *)
Theorem registrar_invariant `{UnicodeCase} (configs : gmap str AorConfig) (ops : list (Z * RegistrarOp)) :
  (∀ aor c, configs !! aor = Some c → config_wf c) →
  ∃ s, registrar_run (mkRegistrar configs ∅) ops = Done s ∧ registrar_ok s.
Proof.
  intros Hc. assert (Hcfg : ∀ s, aor_configs s = configs → ∀ aor, config_wf (config_of s aor)).
  { intros s E aor. unfold config_of. rewrite E. destruct (configs !! aor) as [c|] eqn:Ec; [by eapply Hc|]. done. }
  assert (Hrun : ∀ s, registrar_ok s → aor_configs s = configs → ∃ s', registrar_run s ops = Done s' ∧ registrar_ok s').
  { induction ops as [|[now op] os IH]; intros s Hs E; [by exists s|]. cbn [registrar_run].
    destruct (registrar_step_ok now s op Hs (Hcfg s E)) as (s1 & -> & Hs1 & E1). apply IH; [done|congruence]. }
  apply Hrun; [|done]. intros aor rs Hl. cbn in Hl. by rewrite lookup_empty in Hl.
Qed.

(** C33. An accepted REGISTER is an update of a location service.  For a REGISTER with
    contacts, where nothing is evicted: either it is accepted with 200, and the
    live contacts of its address of record, with their deadlines, are what they
    were with each contact of the request set or, with lifetime 0, removed, in
    order; the response lists exactly the live contacts; no other address of
    record changes; and calls are routed, at any later time, to a live contact
    that was refreshed last.  Or it is refused with 403 at a new contact that
    found as many bindings as the limit: these count dead or alive. *)
Theorem register_is_location_service `{UnicodeCase} (now : Z) (s s' : Registrar) (request resp : SipMessage) (aor : str) :
  let x := register_context s request aor in
  let hdrs := get_headers request CONTACT in
  method request = Some Register → aor_name_from_request request = Done (Some aor) →
  existsb (λ c, str_eqb (trim c) (lit "*")) hdrs = false →
  config_wf (x_config x) → remove_existing (x_config x) = false →
  handle_register now s request = Done (resp, s') →
  (status_code resp = Some 200
   ∧ bindings now (get_contacts s' aor) = foldl (serve now x) (bindings now (get_contacts s aor)) (requested hdrs)
   ∧ Forall (λ r, is_expired now r = false) (get_contacts s' aor)
   ∧ get_headers resp CONTACT = contact_value now <$> get_contacts s' aor
   ∧ (∀ aor', aor' ≠ aor → get_contacts s' aor' = get_contacts s aor')
   ∧ ∀ later, match best_contact later s' aor with
              | Some u => ∃ r, r ∈ get_contacts s' aor ∧ contact_uri r = u ∧ is_expired later r = false
                  ∧ ∀ r', r' ∈ get_contacts s' aor → is_expired later r' = false → registered_at r' ≤ registered_at r
              | None => ∀ r, r ∈ get_contacts s' aor → is_expired later r = true
              end)
  ∨ (status_code resp = Some 403 ∧ ∃ uri per, (uri, per) ∈ requested hdrs ∧ refused now x s' uri).
Proof.
  intros x hdrs Hm Ha Hstar Hc Hre. unfold handle_register.
  rewrite bool_decide_true by done. cbn [negb]. rewrite Ha. cbn [outcome_bind]. fold x hdrs. rewrite Hstar.
  assert (Hglob : ∀ e, x_global x = Some e → is_u32 e) by (intros e; apply global_expires_u32).
  destruct (start_line request) as [r|] eqn:Hr; [|unfold method in Hm; by rewrite Hr in Hm].
  destruct (bind_contacts now x s hdrs) as [res|] eqn:Eb; cbn [outcome_bind]; [|done].
  pose proof (bind_contacts_serve now x s hdrs res Hre Hc Hglob Eb) as Hb.
  destruct res as [s1|s1]; intros E; [left|right].
  - destruct Hb as [Hb Ho]. pose proof (ok_response now s1 request r aor (x_config x) Hr) as Hok.
    destruct (build_200_ok now s1 request aor (x_config x)) as [resp1 s2].
    destruct Hok as (Hst & Hh & Hl & Hoth). assert (E12 : (resp1, s2) = (resp, s')) by congruence.
    injection E12 as -> ->. split; [done|]. split; [by rewrite Hl, bindings_live|]. split.
    { rewrite Hl. apply Forall_forall. intros b Hin. unfold live in Hin. apply list_elem_of_In, filter_In in Hin as [_ Hin].
      by apply negb_true_iff in Hin. }
    split; [done|]. split; [intros aor' Hne; rewrite Hoth by done; by apply Ho|]. intros later. apply best_contact_spec.
  - assert (E12 : (make_error request 403 (lit "Forbidden"), s1) = (resp, s')) by congruence.
    injection E12 as <- <-. split; [|done]. unfold make_error, create_response, is_request. by rewrite Hr.
Qed.

(** Expired bindings are not forgotten in time.  When the bindings of an
    address of record fill its limit, a REGISTER with one new contact is refused
    and changes nothing, however long ago all of them expired; so it is refused
    for ever, unless a request without new contacts is accepted first. *)
Theorem expired_bindings_refuse `{UnicodeCase} (s : Registrar) (request : SipMessage) (aor hdr uri : str) (per : option Z) :
  let x := register_context s request aor in
  method request = Some Register → aor_name_from_request request = Done (Some aor) →
  get_headers request CONTACT = [hdr] → str_eqb (trim hdr) (lit "*") = false →
  parse_contact_header hdr = Done (Some uri, per) → determine_expiration (x_config x) per (x_global x) ≠ 0 →
  remove_existing (x_config x) = false →
  uri ∉ uris (get_contacts s aor) → length (get_contacts s aor) = max_contacts (x_config x) →
  ∀ now, handle_register now s request = Done (make_error request 403 (lit "Forbidden"), s).
Proof.
  intros x Hm Ha Hh Hstar Hp He Hre Hin Hlen now. unfold handle_register.
  rewrite bool_decide_true by done. cbn [negb]. rewrite Ha. cbn [outcome_bind]. fold x. rewrite Hh.
  cbn [existsb]. rewrite Hstar. cbn [orb bind_contacts]. rewrite Hp. cbn [outcome_bind].
  unfold bind_contact. rewrite (proj2 (Z.eqb_neq _ 0) He), is_refresh_in. cbn [x_aor]. fold x.
  change (x_aor x) with aor. rewrite bool_decide_false by done.
  rewrite Hlen, Nat.leb_refl, Hre. done.
Qed.

(** ** Examples *)

Definition alice_config : AorConfig := mkAorConfig 3600 60 7200 1 false false false.
Definition alice_registrar : Registrar := mkRegistrar {[ lit "alice" := alice_config ]} ∅.

Definition alice_register (contact : str) : SipMessage :=
  mkSipMessage (Request (mkRequestLine Register (mkSipUri (lit "sip") None None (lit "pbx") None ∅ ∅) SIP_2_0))
    [mkSipHeader TO (lit "<sip:alice@pbx>"); mkSipHeader CALL_ID (lit "c1"); mkSipHeader CSEQ (lit "1 REGISTER");
     mkSipHeader CONTACT contact] [].
Definition at_home : SipMessage := alice_register (lit "<sip:alice@10.0.0.2>;expires=90").
Definition at_work : SipMessage := alice_register (lit "<sip:alice@10.0.0.3>;expires=90").

Lemma alice_config_wf : config_wf alice_config.
Proof. by split. Qed.

Lemma registrar_invariant_witness :
  ∃ s, @registrar_run id (mkRegistrar {[ lit "alice" := alice_config ]} ∅)
         [(0, OpRegister at_home); (5000, OpRegister at_work); (99000, OpPurge)] = Done s ∧ registrar_ok s.
Proof.
  apply (@registrar_invariant id). intros aor c Hl. apply lookup_singleton_Some in Hl as [_ <-]. exact alice_config_wf.
Defined.

Lemma register_is_location_service_witness :
  ∃ resp s', @handle_register id 1000 alice_registrar at_home = Done (resp, s')
    ∧ bindings 1000 (get_contacts s' (lit "alice")) = {[ lit "sip:alice@10.0.0.2" := 91000 ]}.
Proof.
  destruct (@handle_register id 1000 alice_registrar at_home) as [[resp s']|] eqn:E; [|by vm_compute in E].
  exists resp, s'. split; [done|].
  destruct (@register_is_location_service id 1000 alice_registrar s' at_home resp (lit "alice"))
    as [(_ & Hb & _)|[H403 _]]; [done|by vm_compute|by vm_compute|exact alice_config_wf|done|exact E| |].
  - rewrite Hb. by vm_compute.
  - vm_compute in E. injection E as <- _. done.
Defined.

(** At home, the binding expires after 90 s; hours later the binding at work is refused. *)
Lemma expired_bindings_refuse_witness :
  ∃ resp s', @handle_register id 0 alice_registrar at_home = Done (resp, s')
    ∧ @handle_register id 36000000 s' at_work = Done (make_error at_work 403 (lit "Forbidden"), s').
Proof.
  destruct (@handle_register id 0 alice_registrar at_home) as [[resp s']|] eqn:E; [|by vm_compute in E].
  exists resp, s'. split; [done|]. vm_compute in E. injection E as _ <-.
  apply (@expired_bindings_refuse id _ at_work (lit "alice") (lit "<sip:alice@10.0.0.3>;expires=90")
    (lit "sip:alice@10.0.0.3") (Some 90)); try by vm_compute.
  by apply (bool_decide_unpack _); vm_compute.
Defined.
