(* ===== verification/Utf8.v ===== *)
(** * UTF-8 ([str::as_bytes], [String::from_utf8_lossy])

    The octets of a text and back.  Decoding replaces every maximal prefix of a
    malformed sequence by U+FFFD, as the Standard Library of Rust does. *)

From Stdlib Require Import ZArith NArith.
From S2P Require Import Prelude RustStr Bytes.
Local Open Scope Z_scope.
Local Open Scope list_scope.
#[local] Ltac Zify.zify_post_hook ::= Z.to_euclidean_division_equations.

(** A Unicode scalar value. *)
Definition is_scalar (ch : char) : Prop := (ch < 0xD800 ∨ 0xE000 <= ch < 0x110000)%N.

Definition encode_char (ch : char) : bytes :=
  let c := Z.of_N ch in
  if c <? 0x80 then [c]
  else if c <? 0x800 then [0xC0 + c / 64; 0x80 + c mod 64]
  else if c <? 0x10000 then [0xE0 + c / 4096; 0x80 + c / 64 mod 64; 0x80 + c mod 64]
  else [0xF0 + c / 262144; 0x80 + c / 4096 mod 64; 0x80 + c / 64 mod 64; 0x80 + c mod 64].

(** [str::as_bytes] *)
Definition as_bytes (x : str) : bytes := x ≫= encode_char.

Definition REPLACEMENT : char := 0xFFFD%N.

Definition between (a b x : Z) : bool := (a <=? x) && (x <=? b).
Definition continues (b : Z) : bool := between 0x80 0xBF b.

(** The second octet of a sequence of three or four. *)
Definition second_of_3 (b0 b1 : Z) : bool :=
  if b0 =? 0xE0 then between 0xA0 0xBF b1 else if b0 =? 0xED then between 0x80 0x9F b1 else continues b1.
Definition second_of_4 (b0 b1 : Z) : bool :=
  if b0 =? 0xF0 then between 0x90 0xBF b1 else if b0 =? 0xF4 then between 0x80 0x8F b1 else continues b1.

(** [String::from_utf8_lossy] *)
Fixpoint from_utf8_lossy (bs : bytes) : str :=
  match bs with
  | [] => []
  | b0 :: r0 =>
      if b0 <? 0x80 then Z.to_N b0 :: from_utf8_lossy r0
      else if between 0xC2 0xDF b0 then
        match r0 with
        | b1 :: r1 =>
            if continues b1 then Z.to_N ((b0 - 0xC0) * 64 + (b1 - 0x80)) :: from_utf8_lossy r1
            else REPLACEMENT :: from_utf8_lossy r0
        | [] => [REPLACEMENT]
        end
      else if between 0xE0 0xEF b0 then
        match r0 with
        | b1 :: r1 =>
            if second_of_3 b0 b1 then
              match r1 with
              | b2 :: r2 =>
                  if continues b2 then
                    Z.to_N ((b0 - 0xE0) * 4096 + (b1 - 0x80) * 64 + (b2 - 0x80)) :: from_utf8_lossy r2
                  else REPLACEMENT :: from_utf8_lossy r1
              | [] => [REPLACEMENT]
              end
            else REPLACEMENT :: from_utf8_lossy r0
        | [] => [REPLACEMENT]
        end
      else if between 0xF0 0xF4 b0 then
        match r0 with
        | b1 :: r1 =>
            if second_of_4 b0 b1 then
              match r1 with
              | b2 :: r2 =>
                  if continues b2 then
                    match r2 with
                    | b3 :: r3 =>
                        if continues b3 then
                          Z.to_N ((b0 - 0xF0) * 262144 + (b1 - 0x80) * 4096 + (b2 - 0x80) * 64 + (b3 - 0x80))
                            :: from_utf8_lossy r3
                        else REPLACEMENT :: from_utf8_lossy r2
                    | [] => [REPLACEMENT]
                    end
                  else REPLACEMENT :: from_utf8_lossy r1
              | [] => [REPLACEMENT]
              end
            else REPLACEMENT :: from_utf8_lossy r0
        | [] => [REPLACEMENT]
        end
      else REPLACEMENT :: from_utf8_lossy r0
  end.

(** ** Lemmas *)

Lemma between_true a b x : a ≤ x ≤ b → between a b x = true.
Proof. unfold between. rewrite andb_true_iff, !Z.leb_le. lia. Qed.
Lemma between_false a b x : x < a ∨ b < x → between a b x = false.
Proof. unfold between. rewrite andb_false_iff, !Z.leb_gt. lia. Qed.

Lemma encode_char_bytes ch : is_scalar ch → Forall is_byte (encode_char ch).
Proof.
  unfold is_scalar, encode_char, is_byte. intros Hs. set (c := Z.of_N ch).
  assert (0 ≤ c < 0x110000) by (unfold c; lia).
  destruct (Z.ltb_spec c 0x80); [repeat constructor; lia|]. destruct (Z.ltb_spec c 0x800); [repeat constructor; lia|].
  destruct (Z.ltb_spec c 0x10000); repeat constructor; lia.
Qed.

Lemma second_of_3_ok c : 0x800 ≤ c < 0xD800 ∨ 0xE000 ≤ c < 0x10000 →
  second_of_3 (0xE0 + c / 4096) (0x80 + c / 64 mod 64) = true.
Proof.
  intros Hc. unfold second_of_3, continues.
  destruct (Z.eqb_spec (0xE0 + c / 4096) 0xE0); [apply between_true; lia|].
  destruct (Z.eqb_spec (0xE0 + c / 4096) 0xED); apply between_true; lia.
Qed.

Lemma second_of_4_ok c : 0x10000 ≤ c < 0x110000 → second_of_4 (0xF0 + c / 262144) (0x80 + c / 4096 mod 64) = true.
Proof.
  intros Hc. unfold second_of_4, continues.
  destruct (Z.eqb_spec (0xF0 + c / 262144) 0xF0); [apply between_true; lia|].
  destruct (Z.eqb_spec (0xF0 + c / 262144) 0xF4); apply between_true; lia.
Qed.

Lemma decode_encode_char ch rest :
  is_scalar ch → from_utf8_lossy (encode_char ch ++ rest) = ch :: from_utf8_lossy rest.
Proof.
  intros Hs. unfold encode_char. set (c := Z.of_N ch).
  assert (Hc : 0 ≤ c < 0xD800 ∨ 0xE000 ≤ c < 0x110000) by (unfold is_scalar in Hs; unfold c; lia).
  assert (Hch : ∀ z, z = c → Z.to_N z = ch) by (intros z ->; unfold c; lia).
  destruct (Z.ltb_spec c 0x80) as [H1|H1]; [|destruct (Z.ltb_spec c 0x800) as [H2|H2];
    [|destruct (Z.ltb_spec c 0x10000) as [H3|H3]]]; cbn [app from_utf8_lossy].
  - rewrite (proj2 (Z.ltb_lt c 0x80)) by lia. by rewrite Hch.
  - rewrite (proj2 (Z.ltb_ge _ 0x80)), between_true by lia. unfold continues. rewrite between_true by lia.
    rewrite Hch by lia. done.
  - rewrite (proj2 (Z.ltb_ge _ 0x80)), between_false, between_true, second_of_3_ok by lia.
    unfold continues. rewrite between_true by lia. rewrite Hch by lia. done.
  - rewrite (proj2 (Z.ltb_ge _ 0x80)), !between_false, between_true, second_of_4_ok by lia.
    unfold continues. rewrite !between_true by lia. rewrite Hch by lia. done.
Qed.

Lemma utf8_roundtrip x : Forall is_scalar x → from_utf8_lossy (as_bytes x) = x.
Proof.
  induction 1 as [|ch x Hch _ IH]; [done|]. cbn [as_bytes mbind list_bind]. rewrite decode_encode_char by done.
  by f_equal.
Qed.

Lemma as_bytes_is_byte x : Forall is_scalar x → Forall is_byte (as_bytes x).
Proof. intros Hx. apply Forall_bind. eapply Forall_impl; [exact Hx|]. apply encode_char_bytes. Qed.

Lemma as_bytes_length x : (length (as_bytes x) ≤ 4 * length x)%nat.
Proof.
  induction x as [|ch x IH]; [done|]. change (as_bytes (ch :: x)) with (encode_char ch ++ as_bytes x).
  rewrite length_app. cbn [length]. assert (length (encode_char ch) ≤ 4)%nat; [|lia].
  unfold encode_char. repeat case_match; cbn; lia.
Qed.
