(* ===== verification/Stun.v ===== *)
(** * STUN messages ([asterisk-sip/src/stun.rs])

    The codec of STUN and TURN messages with MESSAGE-INTEGRITY and FINGERPRINT.
    HMAC-SHA1, CRC-32 and MD5 come from crates: they are the interface
    [StunCrypto].  The text of parse errors is left out.

    The theorems: what is built is parsed back and passes both checks; parsing
    returns on every octet string; and what is appended to an authenticated
    message is parsed while the integrity check still passes. *)

From Stdlib Require Import ZArith NArith Ascii String.
From S2P Require Import Prelude RustStr Bytes Utf8 NetAddr.
Local Open Scope Z_scope.
Local Open Scope list_scope.

Definition MAGIC_COOKIE : Z := 0x2112A442.
Definition HEADER_SIZE : nat := 20.
Definition FINGERPRINT_XOR : Z := 0x5354554e.
Definition MAX_MESSAGE_SIZE : nat := 2048.

Class StunCrypto := {
  hmac_sha1 : bytes → bytes → bytes;
  crc32 : bytes → Z;
  md5_digest : bytes → bytes }.

(** ** Message types *)

Inductive MessageClass := StunRequest | Indication | SuccessResponse | ErrorResponse.
Inductive Method := Binding | Allocate | Refresh | Send | DataMethod | CreatePermission | ChannelBind.

#[export] Instance MessageClass_eq_dec : EqDecision MessageClass.
Proof. solve_decision. Defined.
#[export] Instance Method_eq_dec : EqDecision Method.
Proof. solve_decision. Defined.

Definition method_u16 (m : Method) : Z :=
  match m with
  | Binding => 0x1 | Allocate => 0x3 | Refresh => 0x4 | Send => 0x6
  | DataMethod => 0x7 | CreatePermission => 0x8 | ChannelBind => 0x9
  end.

Definition method_from_u16 (v : Z) : option Method :=
  if v =? 0x1 then Some Binding else if v =? 0x3 then Some Allocate else if v =? 0x4 then Some Refresh
  else if v =? 0x6 then Some Send else if v =? 0x7 then Some DataMethod
  else if v =? 0x8 then Some CreatePermission else if v =? 0x9 then Some ChannelBind else None.

Definition encode_message_type (method : Method) (class : MessageClass) : Z :=
  let m := method_u16 method in
  let '(c0, c1) := match class with
                   | StunRequest => (0, 0) | Indication => (1, 0)
                   | SuccessResponse => (0, 1) | ErrorResponse => (1, 1)
                   end in
  let m_low := Z.land m 0x000F in
  let m_mid := Z.shiftl (Z.land m 0x0070) 1 in
  let m_high := Z.shiftl (Z.land m 0x0F80) 2 in
  let c_bits := Z.lor (Z.shiftl c0 4) (Z.shiftl c1 8) in
  Z.lor (Z.lor (Z.lor m_low m_mid) m_high) c_bits.

Definition decode_message_type (msg_type : Z) : option Method * MessageClass :=
  let c0 := Z.land (Z.shiftr msg_type 4) 1 in
  let c1 := Z.land (Z.shiftr msg_type 8) 1 in
  let class := if c1 =? 0 then (if c0 =? 0 then StunRequest else Indication)
               else (if c0 =? 0 then SuccessResponse else ErrorResponse) in
  let m_low := Z.land msg_type 0x000F in
  let m_mid := Z.land (Z.shiftr msg_type 1) 0x0070 in
  let m_high := Z.land (Z.shiftr msg_type 2) 0x0F80 in
  (method_from_u16 (Z.lor (Z.lor m_low m_mid) m_high), class).

(** ** Attribute types *)

Inductive AttrType :=
  | TMappedAddress | TUsername | TMessageIntegrity | TErrorCode | TUnknownAttributes | TRealm | TNonce
  | TXorMappedAddress | TChannelNumber | TLifetime | TXorPeerAddress | TData | TXorRelayedAddress
  | TRequestedTransport | TDontFragment | TPriority | TUseCandidate | TIceControlled | TIceControlling
  | TSoftware | TAlternateServer | TFingerprint.

#[export] Instance AttrType_eq_dec : EqDecision AttrType.
Proof. solve_decision. Defined.

Definition attr_u16 (t : AttrType) : Z :=
  match t with
  | TMappedAddress => 0x0001 | TUsername => 0x0006 | TMessageIntegrity => 0x0008 | TErrorCode => 0x0009
  | TUnknownAttributes => 0x000A | TRealm => 0x0014 | TNonce => 0x0015 | TXorMappedAddress => 0x0020
  | TChannelNumber => 0x000C | TLifetime => 0x000D | TXorPeerAddress => 0x0012 | TData => 0x0013
  | TXorRelayedAddress => 0x0016 | TRequestedTransport => 0x0019 | TDontFragment => 0x001A
  | TPriority => 0x0024 | TUseCandidate => 0x0025 | TIceControlled => 0x8029 | TIceControlling => 0x802A
  | TSoftware => 0x8022 | TAlternateServer => 0x8023 | TFingerprint => 0x8028
  end.

Definition attr_types : list AttrType :=
  [TMappedAddress; TUsername; TMessageIntegrity; TErrorCode; TUnknownAttributes; TChannelNumber; TLifetime;
   TXorPeerAddress; TData; TRealm; TNonce; TXorRelayedAddress; TRequestedTransport; TDontFragment; TXorMappedAddress;
   TPriority; TUseCandidate; TSoftware; TAlternateServer; TFingerprint; TIceControlled; TIceControlling].
Definition attr_from_u16 (v : Z) : option AttrType := List.find (λ t, attr_u16 t =? v) attr_types.

(** ** Errors *)

Inductive StunError :=
  | EIo | EParse | ETimeout | EErrorResponse (code : Z) (reason : str) | EIntegrityFailed | EFingerprintFailed.
Abbreviation StunResult A := (result StunError A).

(** ** Raw attributes *)

Record RawAttribute := mkRaw { attr_type : Z; value : bytes }.

(** [(n + 3) & !3] *)
Definition padded (n : nat) : nat := ((n + 3) / 4 * 4)%nat.

Definition raw_parse (data : bytes) : outcome (StunResult (RawAttribute * nat)) :=
  if (length data <? 4)%nat then Done (Err EParse)
  else
    let! a0 := byte_at data 0 in
    let! a1 := byte_at data 1 in
    let! l0 := byte_at data 2 in
    let! l1 := byte_at data 3 in
    let attr_len := Z.to_nat (be_of [l0; l1]) in
    if (length data <? 4 + attr_len)%nat then Done (Err EParse)
    else
      let! v := bytes_range data 4 (4 + attr_len) in
      Done (Ok (mkRaw (be_of [a0; a1]) v, (4 + Nat.min (padded attr_len) (length data - 4))%nat)).

Definition raw_to_bytes (r : RawAttribute) : bytes :=
  let attr_len := length (value r) in
  be_bytes 2 (attr_type r) ++ be_bytes 2 (Z.of_nat attr_len) ++ value r ++ replicate (padded attr_len - attr_len) 0.

(** ** Typed attributes *)

Definition StunAddr : Type := IpAddr * Z.

Inductive StunAttrValue :=
  | MappedAddress (a : StunAddr)
  | XorMappedAddress (a : StunAddr)
  | XorPeerAddress (a : StunAddr)
  | XorRelayedAddress (a : StunAddr)
  | Username (x : str)
  | MessageIntegrity (v : bytes)
  | Fingerprint (v : Z)
  | ErrorCode (code : Z) (reason : str)
  | Realm (x : str)
  | Nonce (x : str)
  | Software (x : str)
  | AlternateServer (a : StunAddr)
  | Priority (v : Z)
  | UseCandidate
  | IceControlling (v : Z)
  | IceControlled (v : Z)
  | ChannelNumber (v : Z)
  | Lifetime (v : Z)
  | RequestedTransport (v : Z)
  | DontFragment
  | Data (d : bytes)
  | UnknownAttr (t : Z) (v : bytes).

#[export] Instance StunAttrValue_eq_dec : EqDecision StunAttrValue.
Proof. solve_decision. Defined.

(** ** Addresses *)

Definition addr_family (a : StunAddr) : Z := match a.1 with V4 _ => 0x01 | V6 _ => 0x02 end.
Definition ip_octets (ip : IpAddr) : bytes := match ip with V4 b => be_bytes 4 b | V6 b => be_bytes 16 b end.

Definition encode_mapped_address (a : StunAddr) : bytes :=
  [0; addr_family a] ++ be_bytes 2 a.2 ++ ip_octets a.1.

Definition decode_mapped_address (data : bytes) : StunResult StunAddr :=
  match data with
  | _ :: family :: p0 :: p1 :: rest =>
      let port := be_of [p0; p1] in
      if family =? 0x01 then
        if (length data <? 8)%nat then Err EParse else Ok (V4 (be_of (take 4 rest)), port)
      else if family =? 0x02 then
        if (length data <? 20)%nat then Err EParse else Ok (V6 (be_of (take 16 rest)), port)
      else Err EParse
  | _ => Err EParse
  end.

(** The key of 128 bits: the cookie and the transaction id. *)
Definition cookie_bytes (tid : bytes) : bytes := be_bytes 4 MAGIC_COOKIE ++ tid.

Definition encode_xor_address (a : StunAddr) (tid : bytes) : bytes :=
  let xor_port := Z.lxor a.2 (Z.shiftr MAGIC_COOKIE 16) in
  [0; addr_family a] ++ be_bytes 2 xor_port
  ++ match a.1 with
     | V4 b => be_bytes 4 (Z.lxor b MAGIC_COOKIE)
     | V6 b => xor_bytes (be_bytes 16 b) (cookie_bytes tid)
     end.

Definition decode_xor_address (data : bytes) (tid : bytes) : StunResult StunAddr :=
  match data with
  | _ :: family :: p0 :: p1 :: rest =>
      let port := Z.lxor (be_of [p0; p1]) (Z.shiftr MAGIC_COOKIE 16) in
      if family =? 0x01 then
        if (length data <? 8)%nat then Err EParse else Ok (V4 (Z.lxor (be_of (take 4 rest)) MAGIC_COOKIE), port)
      else if family =? 0x02 then
        if (length data <? 20)%nat then Err EParse
        else Ok (V6 (be_of (xor_bytes (take 16 rest) (cookie_bytes tid))), port)
      else Err EParse
  | _ => Err EParse
  end.

(** Class and number are cut to eight bits. *)
Definition encode_error_code (code : Z) (reason : str) : bytes :=
  [0; 0; (code / 100) mod 256; (code mod 100) mod 256] ++ as_bytes reason.
Definition decode_error_code (data : bytes) : StunResult (Z * str) :=
  match data with
  | _ :: _ :: class :: number :: rest => Ok (class * 100 + number, from_utf8_lossy rest)
  | _ => Err EParse
  end.

Definition attr_value_to_raw (attr : StunAttrValue) (tid : bytes) : RawAttribute :=
  match attr with
  | MappedAddress a => mkRaw (attr_u16 TMappedAddress) (encode_mapped_address a)
  | XorMappedAddress a => mkRaw (attr_u16 TXorMappedAddress) (encode_xor_address a tid)
  | XorPeerAddress a => mkRaw (attr_u16 TXorPeerAddress) (encode_xor_address a tid)
  | XorRelayedAddress a => mkRaw (attr_u16 TXorRelayedAddress) (encode_xor_address a tid)
  | Username x => mkRaw (attr_u16 TUsername) (as_bytes x)
  | MessageIntegrity v => mkRaw (attr_u16 TMessageIntegrity) v
  | Fingerprint v => mkRaw (attr_u16 TFingerprint) (be_bytes 4 v)
  | ErrorCode code reason => mkRaw (attr_u16 TErrorCode) (encode_error_code code reason)
  | Realm x => mkRaw (attr_u16 TRealm) (as_bytes x)
  | Nonce x => mkRaw (attr_u16 TNonce) (as_bytes x)
  | Software x => mkRaw (attr_u16 TSoftware) (as_bytes x)
  | AlternateServer a => mkRaw (attr_u16 TAlternateServer) (encode_mapped_address a)
  | Priority v => mkRaw (attr_u16 TPriority) (be_bytes 4 v)
  | UseCandidate => mkRaw (attr_u16 TUseCandidate) []
  | IceControlling v => mkRaw (attr_u16 TIceControlling) (be_bytes 8 v)
  | IceControlled v => mkRaw (attr_u16 TIceControlled) (be_bytes 8 v)
  | ChannelNumber v => mkRaw (attr_u16 TChannelNumber) (be_bytes 2 v ++ [0; 0])
  | Lifetime v => mkRaw (attr_u16 TLifetime) (be_bytes 4 v)
  | RequestedTransport v => mkRaw (attr_u16 TRequestedTransport) (v :: [0; 0; 0])
  | DontFragment => mkRaw (attr_u16 TDontFragment) []
  | Data d => mkRaw (attr_u16 TData) d
  | UnknownAttr t v => mkRaw t v
  end.

Definition or_unknown {A} (raw : RawAttribute) (f : A → StunAttrValue) (r : StunResult A) : StunAttrValue :=
  match r with Ok a => f a | Err _ => UnknownAttr (attr_type raw) (value raw) end.

Definition raw_to_attr_value (raw : RawAttribute) (tid : bytes) : StunAttrValue :=
  let v := value raw in
  let unknown := UnknownAttr (attr_type raw) v in
  let of_len (n : nat) (f : Z → StunAttrValue) := if (length v =? n)%nat then f (be_of v) else unknown in
  match attr_from_u16 (attr_type raw) with
  | Some TMappedAddress => or_unknown raw MappedAddress (decode_mapped_address v)
  | Some TXorMappedAddress => or_unknown raw XorMappedAddress (decode_xor_address v tid)
  | Some TXorPeerAddress => or_unknown raw XorPeerAddress (decode_xor_address v tid)
  | Some TXorRelayedAddress => or_unknown raw XorRelayedAddress (decode_xor_address v tid)
  | Some TUsername => Username (from_utf8_lossy v)
  | Some TMessageIntegrity => if (length v =? 20)%nat then MessageIntegrity v else unknown
  | Some TFingerprint => of_len 4%nat Fingerprint
  | Some TErrorCode => or_unknown raw (λ cr, ErrorCode cr.1 cr.2) (decode_error_code v)
  | Some TRealm => Realm (from_utf8_lossy v)
  | Some TNonce => Nonce (from_utf8_lossy v)
  | Some TSoftware => Software (from_utf8_lossy v)
  | Some TAlternateServer => or_unknown raw AlternateServer (decode_mapped_address v)
  | Some TPriority => of_len 4%nat Priority
  | Some TUseCandidate => UseCandidate
  | Some TIceControlling => of_len 8%nat IceControlling
  | Some TIceControlled => of_len 8%nat IceControlled
  | Some TChannelNumber => match v with b0 :: b1 :: _ => ChannelNumber (be_of [b0; b1]) | _ => unknown end
  | Some TLifetime => of_len 4%nat Lifetime
  | Some TRequestedTransport => match v with b :: _ => RequestedTransport b | [] => unknown end
  | Some TDontFragment => DontFragment
  | Some TData => Data v
  | Some TUnknownAttributes | None => unknown
  end.

(** ** Messages *)

Record StunMessage := mkStun {
  s_method : Method; class : MessageClass; transaction_id : bytes; attributes : list StunAttrValue }.

(** [TransactionId::new] draws twelve octets: they are an argument. *)
Definition binding_request (tid : bytes) : StunMessage := mkStun Binding StunRequest tid [].
Definition binding_response (tid : bytes) (mapped_addr : StunAddr) : StunMessage :=
  mkStun Binding SuccessResponse tid [XorMappedAddress mapped_addr].
Definition binding_indication (tid : bytes) : StunMessage := mkStun Binding Indication tid [].
Definition binding_error (tid : bytes) (code : Z) (reason : str) : StunMessage :=
  mkStun Binding ErrorResponse tid [ErrorCode code reason].

(** The first attribute of a kind. *)
Definition first_of {A} (f : StunAttrValue → option A) (m : StunMessage) : option A := head (omap f (attributes m)).

Definition xor_mapped_address := first_of (λ a, match a with XorMappedAddress x => Some x | _ => None end).
Definition mapped_address := first_of (λ a, match a with MappedAddress x => Some x | _ => None end).
Definition get_mapped_address (m : StunMessage) : option StunAddr :=
  match xor_mapped_address m with Some a => Some a | None => mapped_address m end.
Definition stun_username := first_of (λ a, match a with Username x => Some x | _ => None end).
Definition stun_realm := first_of (λ a, match a with Realm x => Some x | _ => None end).
Definition stun_nonce := first_of (λ a, match a with Nonce x => Some x | _ => None end).
Definition error_code := first_of (λ a, match a with ErrorCode c r => Some (c, r) | _ => None end).
Definition lifetime := first_of (λ a, match a with Lifetime x => Some x | _ => None end).
Definition xor_relayed_address := first_of (λ a, match a with XorRelayedAddress x => Some x | _ => None end).
Definition has_use_candidate (m : StunMessage) : bool :=
  existsb (λ a, match a with UseCandidate => true | _ => false end) (attributes m).
Definition stun_priority := first_of (λ a, match a with Priority x => Some x | _ => None end).
Definition ice_controlling := first_of (λ a, match a with IceControlling x => Some x | _ => None end).
Definition ice_controlled := first_of (λ a, match a with IceControlled x => Some x | _ => None end).
Definition integrity_value := first_of (λ a, match a with MessageIntegrity x => Some x | _ => None end).
Definition fingerprint_value := first_of (λ a, match a with Fingerprint x => Some x | _ => None end).

Definition stun_body (m : StunMessage) : bytes :=
  attributes m ≫= λ a, raw_to_bytes (attr_value_to_raw a (transaction_id m)).

Definition to_bytes (m : StunMessage) : bytes :=
  let body := stun_body m in
  be_bytes 2 (encode_message_type (s_method m) (class m)) ++ be_bytes 2 (Z.of_nat (length body))
  ++ be_bytes 4 MAGIC_COOKIE ++ transaction_id m ++ body.

(** [buf[2..4].copy_from_slice(&len.to_be_bytes())] *)
Definition set_length (len : Z) (buf : bytes) : outcome bytes :=
  let! a := bytes_to buf 2 in
  let! _ := bytes_range buf 2 4 in
  let! b := bytes_from buf 4 in
  Done (a ++ be_bytes 2 len ++ b).

(** [buf.len() as u16 - HEADER_SIZE as u16] *)
Definition body_len (buf : bytes) : Z := (Z.of_nat (length buf) mod 65536 - 20) mod 65536.

Definition append_attribute (r : RawAttribute) (buf : bytes) : outcome bytes :=
  let buf := buf ++ raw_to_bytes r in set_length (body_len buf) buf.

Section crypto.
Context `{StunCrypto}.

Definition to_bytes_with_integrity (m : StunMessage) (key : bytes) : outcome bytes :=
  let buf := to_bytes m in
  let! buf := set_length ((body_len buf + 24) mod 65536) buf in
  append_attribute (mkRaw (attr_u16 TMessageIntegrity) (hmac_sha1 key buf)) buf.

Definition compute_fingerprint (data : bytes) : Z := Z.lxor (crc32 data) FINGERPRINT_XOR.

Definition append_fingerprint (buf : bytes) : outcome bytes :=
  let! buf := set_length ((body_len buf + 8) mod 65536) buf in
  append_attribute (mkRaw (attr_u16 TFingerprint) (be_bytes 4 (compute_fingerprint buf))) buf.

Definition to_bytes_with_integrity_and_fingerprint (m : StunMessage) (key : bytes) : outcome bytes :=
  let! buf := to_bytes_with_integrity m key in append_fingerprint buf.
Definition to_bytes_with_fingerprint (m : StunMessage) : outcome bytes := append_fingerprint (to_bytes m).

Definition compute_long_term_key (username realm password : str) : bytes :=
  md5_digest (as_bytes (username ++ lit ":" ++ realm ++ lit ":" ++ password)).
Definition to_bytes_with_long_term_integrity (m : StunMessage) (username realm password : str) : outcome bytes :=
  to_bytes_with_integrity_and_fingerprint m (compute_long_term_key username realm password).
End crypto.

(** ** Parsing *)

(** The loop over the attributes; [fuel] is the number of octets. *)
Fixpoint parse_attributes (fuel : nat) (tid : bytes) (data : bytes) : outcome (StunResult (list StunAttrValue)) :=
  match data, fuel with
  | [], _ => Done (Ok [])
  | _, O => Done (Err EParse)
  | _, S fuel' =>
      let! r := raw_parse data in
      match r with
      | Err e => Done (Err e)
      | Ok (raw, consumed) =>
          let! rest := bytes_from data consumed in
          let! attrs := parse_attributes fuel' tid rest in
          Done (result_bind attrs (λ attrs, Ok (raw_to_attr_value raw tid :: attrs)))
      end
  end.

Definition stun_parse (data : bytes) : outcome (StunResult StunMessage) :=
  if (length data <? HEADER_SIZE)%nat then Done (Err EParse)
  else
    let! d0 := byte_at data 0 in
    if negb (Z.land d0 0xC0 =? 0) then Done (Err EParse)
    else
      let! ty := bytes_range data 0 2 in
      let! le := bytes_range data 2 4 in
      let! co := bytes_range data 4 8 in
      let! tid := bytes_range data 8 20 in
      if negb (be_of co =? MAGIC_COOKIE) then Done (Err EParse)
      else
        let (method, class) := decode_message_type (be_of ty) in
        match method with
        | None => Done (Err EParse)
        | Some method =>
            let body_end := (HEADER_SIZE + Z.to_nat (be_of le))%nat in
            if (length data <? body_end)%nat then Done (Err EParse)
            else
              let! body := bytes_range data HEADER_SIZE body_end in
              let! attrs := parse_attributes (length body) tid body in
              Done (result_bind attrs (λ attrs, Ok (mkStun method class tid attrs)))
        end.

(** ** Verification *)

(** The loop of [find_attribute_offset]; the first octet looked at is at [offset]. *)
Fixpoint find_offset_from (fuel : nat) (data : bytes) (body_end offset : nat) (target : Z) : outcome (StunResult nat) :=
  if ((offset + 4 <=? body_end) && (offset + 4 <=? length data))%nat then
    match fuel with
    | O => Done (Err EParse)
    | S fuel' =>
        let! ty := bytes_range data offset (offset + 2) in
        if be_of ty =? target then Done (Ok offset)
        else
          let! le := bytes_range data (offset + 2) (offset + 4) in
          find_offset_from fuel' data body_end (offset + (4 + padded (Z.to_nat (be_of le))))%nat target
    end
  else Done (Err EParse).

Definition find_attribute_offset (data : bytes) (target : Z) : outcome (StunResult nat) :=
  let! le := bytes_range data 2 4 in
  find_offset_from (length data) data (HEADER_SIZE + Z.to_nat (be_of le))%nat HEADER_SIZE target.

Section verify.
Context `{StunCrypto}.

Definition verify_integrity (m : StunMessage) (data key : bytes) : outcome (StunResult ()) :=
  match integrity_value m with
  | None => Done (Err EParse)
  | Some expected =>
      let! off := find_attribute_offset data (attr_u16 TMessageIntegrity) in
      match off with
      | Err e => Done (Err e)
      | Ok mi_offset =>
          let! header := bytes_to data HEADER_SIZE in
          let! header := set_length (Z.of_nat (mi_offset - HEADER_SIZE + 24) mod 65536) header in
          let! body := bytes_range data HEADER_SIZE mi_offset in
          Done (if bool_decide (hmac_sha1 key (header ++ body) = expected) then Ok tt else Err EIntegrityFailed)
      end
  end.

Definition verify_fingerprint (m : StunMessage) (data : bytes) : outcome (StunResult ()) :=
  match fingerprint_value m with
  | None => Done (Err EParse)
  | Some expected =>
      let! off := find_attribute_offset data (attr_u16 TFingerprint) in
      match off with
      | Err e => Done (Err e)
      | Ok fp_offset =>
          let! hash_data := bytes_to data fp_offset in
          let! hash_data := set_length (Z.of_nat (fp_offset - HEADER_SIZE + 8) mod 65536) hash_data in
          Done (if compute_fingerprint hash_data =? expected then Ok tt else Err EFingerprintFailed)
      end
  end.
End verify.

Definition is_stun_message (data : bytes) : bool :=
  match data with
  | d0 :: _ =>
      (HEADER_SIZE <=? length data)%nat && (Z.land d0 0xC0 =? 0) && (be_of (take 4 (drop 4 data)) =? MAGIC_COOKIE)
  | [] => false
  end.

(** ** Lemmas: numbers and raw attributes *)

Lemma lxor_twice a b : Z.lxor (Z.lxor a b) b = a.
Proof. by rewrite Z.lxor_assoc, Z.lxor_nilpotent, Z.lxor_0_r. Qed.

Lemma padded_bounds n : (n ≤ padded n ≤ n + 3)%nat.
Proof.
  unfold padded. pose proof (Nat.div_mod_eq (n + 3) 4). pose proof (Nat.mod_upper_bound (n + 3) 4). lia.
Qed.

Lemma be_bytes_2 x : be_bytes 2 x = [x / 256 mod 256; x mod 256].
Proof. done. Qed.
Lemma be_of_2 x : 0 ≤ x < 65536 → be_of [x / 256 mod 256; x mod 256] = x.
Proof. intros Hx. rewrite <-be_bytes_2. apply be_bytes_of. done. Qed.

Definition raw_wf (r : RawAttribute) : Prop :=
  0 ≤ attr_type r < 65536 ∧ Z.of_nat (length (value r)) < 65536.

Lemma length_raw r : length (raw_to_bytes r) = (4 + padded (length (value r)))%nat.
Proof.
  unfold raw_to_bytes. rewrite !length_app, !length_be_bytes, length_replicate.
  pose proof (padded_bounds (length (value r))). lia.
Qed.

Lemma raw_roundtrip r rest :
  raw_wf r → raw_parse (raw_to_bytes r ++ rest) = Done (Ok (r, length (raw_to_bytes r))).
Proof.
  intros [Ht Hl]. rewrite length_raw. pose proof (padded_bounds (length (value r))) as Hp.
  set (n := length (value r)) in *. unfold raw_parse.
  assert (Hlen : length (raw_to_bytes r ++ rest) = (4 + padded n + length rest)%nat)
    by (rewrite length_app, length_raw; done).
  rewrite Hlen. destruct (Nat.ltb_spec (4 + padded n + length rest) 4); [lia|].
  unfold raw_to_bytes. fold n. rewrite !be_bytes_2. cbn [app byte_at lookup list_lookup outcome_bind].
  unfold byte_at. cbn [lookup list_lookup outcome_bind]. rewrite !be_of_2 by lia. rewrite Nat2Z.id.
  destruct (Nat.ltb_spec (4 + padded n + length rest) (4 + n)); [lia|].
  pose proof (bytes_range_app
    [attr_type r / 256 mod 256; attr_type r mod 256; Z.of_nat n / 256 mod 256; Z.of_nat n mod 256]
    (value r) (replicate (padded n - n) 0 ++ rest)) as E.
  cbn [length app] in E. rewrite <-app_assoc. fold n in E. rewrite E. cbn [outcome_bind].
  rewrite Nat.min_l by lia. by destruct r.
Qed.

(** ** Lemmas: attributes *)

Definition addr_wf (a : StunAddr) : Prop := ip_wf a.1 ∧ 0 ≤ a.2 < 65536.

Definition attr_wf (a : StunAttrValue) : Prop :=
  match a with
  | MappedAddress a | XorMappedAddress a | XorPeerAddress a | XorRelayedAddress a | AlternateServer a => addr_wf a
  | Username x | Realm x | Nonce x | Software x => Forall is_scalar x
  | MessageIntegrity v => length v = 20%nat
  | Fingerprint v | Priority v | Lifetime v => 0 ≤ v < 2 ^ 32
  | ErrorCode c r => 0 ≤ c < 25600 ∧ Forall is_scalar r
  | IceControlling v | IceControlled v => 0 ≤ v < 2 ^ 64
  | ChannelNumber v => 0 ≤ v < 65536
  | RequestedTransport v => is_byte v
  | UseCandidate | DontFragment | Data _ => True
  | UnknownAttr t _ => 0 ≤ t < 65536 ∧ (attr_from_u16 t = None ∨ attr_from_u16 t = Some TUnknownAttributes)
  end.

Lemma attr_type_roundtrip t : attr_from_u16 (attr_u16 t) = Some t.
Proof. by destruct t. Qed.

Lemma message_type_roundtrip m c : decode_message_type (encode_message_type m c) = (Some m, c).
Proof. by destruct m, c. Qed.

Lemma mapped_address_roundtrip a : addr_wf a → decode_mapped_address (encode_mapped_address a) = Ok a.
Proof.
  destruct a as [ip port]. intros [Hip Hport]. unfold encode_mapped_address, decode_mapped_address. cbn [fst snd].
  rewrite be_bytes_2. cbn [app]. rewrite be_of_2 by done. destruct ip as [b|b]; cbn [addr_family fst ip_octets] in *.
  - cbn [Z.eqb Pos.eqb length]. rewrite length_be_bytes. cbn [Nat.add Nat.ltb Nat.leb].
    rewrite take_ge by (by rewrite length_be_bytes). by rewrite be_bytes_of.
  - cbn [Z.eqb Pos.eqb length]. rewrite length_be_bytes. cbn [Nat.add Nat.ltb Nat.leb].
    rewrite take_ge by (by rewrite length_be_bytes). by rewrite be_bytes_of.
Qed.

Lemma xor_address_roundtrip a tid :
  addr_wf a → length tid = 12%nat → decode_xor_address (encode_xor_address a tid) tid = Ok a.
Proof.
  destruct a as [ip port]. intros [Hip Hport] Htid. unfold encode_xor_address, decode_xor_address. cbn [fst snd].
  assert (Hx : 0 ≤ Z.lxor port (Z.shiftr MAGIC_COOKIE 16) < 65536) by (apply (lxor_range 16); [lia|done|done]).
  rewrite be_bytes_2. cbn [app]. rewrite be_of_2 by done. rewrite lxor_twice.
  assert (Hk : length (cookie_bytes tid) = 16%nat) by (unfold cookie_bytes; rewrite length_app, length_be_bytes; lia).
  destruct ip as [b|b]; cbn [addr_family fst] in *; cbn [Z.eqb Pos.eqb length].
  - rewrite length_be_bytes. cbn [Nat.add Nat.ltb Nat.leb]. rewrite take_ge by (by rewrite length_be_bytes).
    rewrite be_bytes_of by (apply (lxor_range 32); [lia|done|done]). by rewrite lxor_twice.
  - rewrite length_xor_bytes, length_be_bytes, Hk. cbn [Nat.min Nat.add Nat.ltb Nat.leb].
    rewrite take_ge by (rewrite length_xor_bytes, length_be_bytes, Hk; done).
    rewrite xor_bytes_involutive by (rewrite length_be_bytes, Hk; done). by rewrite be_bytes_of.
Qed.

Lemma error_code_roundtrip c r :
  0 ≤ c < 25600 → Forall is_scalar r → decode_error_code (encode_error_code c r) = Ok (c, r).
Proof.
  intros Hc Hr. unfold encode_error_code, decode_error_code. cbn [app]. rewrite utf8_roundtrip by done.
  pose proof (Z.mod_pos_bound c 100 ltac:(done)). pose proof (Z.div_mod c 100 ltac:(done)).
  assert (0 ≤ c / 100 < 256) by (split; [apply Z.div_pos; lia|apply Z.div_lt_upper_bound; lia]).
  rewrite (Z.mod_small (c / 100)), (Z.mod_small (c mod 100)) by lia. do 2 f_equal. lia.
Qed.

Lemma attribute_roundtrip a tid :
  attr_wf a → length tid = 12%nat → raw_to_attr_value (attr_value_to_raw a tid) tid = a.
Proof.
  intros Hw Htid. unfold raw_to_attr_value.
  destruct a; cbn [attr_value_to_raw attr_type value attr_wf] in *; rewrite ?attr_type_roundtrip;
    rewrite ?mapped_address_roundtrip, ?xor_address_roundtrip, ?utf8_roundtrip by done; try done.
  - by rewrite Hw.
  - by rewrite length_be_bytes, be_bytes_of.
  - destruct Hw. by rewrite error_code_roundtrip.
  - by rewrite length_be_bytes, be_bytes_of.
  - by rewrite length_be_bytes, be_bytes_of.
  - by rewrite length_be_bytes, be_bytes_of.
  - rewrite be_bytes_2. cbn [app]. by rewrite be_of_2.
  - by rewrite length_be_bytes, be_bytes_of.
  - by destruct Hw as [_ [-> | ->]].
Qed.

Lemma attr_raw_type a tid : attr_wf a → 0 ≤ attr_type (attr_value_to_raw a tid) < 65536.
Proof. intros Hw. destruct a; cbn [attr_value_to_raw attr_type attr_u16]; try lia. by destruct Hw. Qed.

(** ** Lemmas: the message as header and body *)

Definition frame (ty len : Z) (tid body : bytes) : bytes :=
  be_bytes 2 ty ++ be_bytes 2 len ++ be_bytes 4 MAGIC_COOKIE ++ tid ++ body.

Lemma length_frame ty len tid body : length tid = 12%nat → length (frame ty len tid body) = (20 + length body)%nat.
Proof. intros Ht. unfold frame. rewrite !length_app, !length_be_bytes, Ht. lia. Qed.

Lemma frame_app ty len tid a b : frame ty len tid (a ++ b) = frame ty len tid a ++ b.
Proof. unfold frame. by rewrite <-!app_assoc. Qed.

Lemma frame_split ty len tid body : frame ty len tid body = frame ty len tid [] ++ body.
Proof. by rewrite <-frame_app. Qed.

Lemma to_bytes_frame m :
  to_bytes m = frame (encode_message_type (s_method m) (class m)) (Z.of_nat (length (stun_body m))) (transaction_id m)
                 (stun_body m).
Proof. done. Qed.

Lemma set_length_frame len' ty len tid body : set_length len' (frame ty len tid body) = Done (frame ty len' tid body).
Proof.
  unfold set_length, frame. rewrite !be_bytes_2. cbn [app].
  set (rest := be_bytes 4 MAGIC_COOKIE ++ tid ++ body).
  pose proof (bytes_to_app [ty / 256 mod 256; ty mod 256] (len / 256 mod 256 :: len mod 256 :: rest)) as E1.
  pose proof (bytes_from_app [ty / 256 mod 256; ty mod 256; len / 256 mod 256; len mod 256] rest) as E2.
  pose proof (bytes_range_app [ty / 256 mod 256; ty mod 256] [len / 256 mod 256; len mod 256] rest) as E3.
  cbn [length app Nat.add] in E1, E2, E3. by rewrite E1, E3, E2.
Qed.

Lemma body_len_frame ty len tid body :
  length tid = 12%nat → Z.of_nat (length body) < 65536 → body_len (frame ty len tid body) = Z.of_nat (length body).
Proof.
  intros Ht Hb. unfold body_len. rewrite length_frame by done. rewrite Zminus_mod_idemp_l.
  rewrite Z.mod_small by lia. lia.
Qed.

Lemma append_attribute_frame r ty len tid body :
  length tid = 12%nat → Z.of_nat (length (body ++ raw_to_bytes r)) < 65536 →
  append_attribute r (frame ty len tid body)
  = Done (frame ty (Z.of_nat (length (body ++ raw_to_bytes r))) tid (body ++ raw_to_bytes r)).
Proof.
  intros Ht Hl. unfold append_attribute. rewrite <-frame_app, set_length_frame. by rewrite body_len_frame.
Qed.

Definition raws_bytes (rs : list RawAttribute) : bytes := rs ≫= raw_to_bytes.

Lemma raws_bytes_app a b : raws_bytes (a ++ b) = raws_bytes a ++ raws_bytes b.
Proof. apply bind_app. Qed.
Lemma raws_bytes_cons r rs : raws_bytes (r :: rs) = raw_to_bytes r ++ raws_bytes rs.
Proof. done. Qed.
Lemma raws_bytes_one r : raws_bytes [r] = raw_to_bytes r.
Proof. rewrite raws_bytes_cons. apply app_nil_r. Qed.

Lemma parse_attributes_raws tid rs fuel :
  Forall raw_wf rs → (length (raws_bytes rs) ≤ fuel)%nat →
  parse_attributes fuel tid (raws_bytes rs) = Done (Ok ((λ r, raw_to_attr_value r tid) <$> rs)).
Proof.
  intros Hrs. revert fuel. induction Hrs as [|r rs Hr _ IH]; intros fuel Hf; [by destruct fuel|].
  change (raws_bytes (r :: rs)) with (raw_to_bytes r ++ raws_bytes rs) in *. rewrite length_app in Hf.
  pose proof (length_raw r) as Hlr. destruct fuel as [|fuel]; [lia|].
  assert (Hne : raw_to_bytes r ++ raws_bytes rs ≠ []) by (destruct (raw_to_bytes r) eqn:E; [cbn in Hlr; lia|done]).
  cbn [parse_attributes]. pose proof (raw_roundtrip r (raws_bytes rs) Hr) as Hp.
  destruct (raw_to_bytes r ++ raws_bytes rs) as [|b bs] eqn:Eb; [done|]. rewrite Hp. cbn [outcome_bind].
  rewrite <-Eb, bytes_from_app. cbn [outcome_bind]. rewrite IH by lia. done.
Qed.

Lemma stun_parse_frame m c tid rs :
  length tid = 12%nat → Forall raw_wf rs → Z.of_nat (length (raws_bytes rs)) < 65536 →
  stun_parse (frame (encode_message_type m c) (Z.of_nat (length (raws_bytes rs))) tid (raws_bytes rs))
  = Done (Ok (mkStun m c tid ((λ r, raw_to_attr_value r tid) <$> rs))).
Proof.
  intros Ht Hrs Hl. set (body := raws_bytes rs) in *. set (len := Z.of_nat (length body)).
  set (ty := encode_message_type m c). unfold stun_parse.
  rewrite length_frame by done. change (20 + length body <? HEADER_SIZE)%nat with false.
  unfold frame. change (be_bytes 4 MAGIC_COOKIE) with [33; 18; 164; 66]. rewrite !be_bytes_2.
  unfold byte_at. cbn [app lookup list_lookup outcome_bind].
  assert (H0 : Z.land (ty / 256 mod 256) 0xC0 = 0) by (by destruct m, c). rewrite H0. cbn [Z.eqb negb].
  pose proof (bytes_range_app [] [ty / 256 mod 256; ty mod 256]
    (len / 256 mod 256 :: len mod 256 :: [33; 18; 164; 66] ++ tid ++ body)) as E1.
  pose proof (bytes_range_app [ty / 256 mod 256; ty mod 256] [len / 256 mod 256; len mod 256]
    ([33; 18; 164; 66] ++ tid ++ body)) as E2.
  pose proof (bytes_range_app [ty / 256 mod 256; ty mod 256; len / 256 mod 256; len mod 256] [33; 18; 164; 66]
    (tid ++ body)) as E3.
  pose proof (bytes_range_app [ty / 256 mod 256; ty mod 256; len / 256 mod 256; len mod 256; 33; 18; 164; 66] tid body) as E4.
  pose proof (bytes_range_app ([ty / 256 mod 256; ty mod 256; len / 256 mod 256; len mod 256; 33; 18; 164; 66] ++ tid) body []) as E5.
  rewrite app_nil_r, length_app in E5. rewrite Ht in E4, E5. cbn [length app Nat.add] in E1, E2, E3, E4, E5.
  rewrite E1. cbn [outcome_bind]. rewrite E2. cbn [outcome_bind]. rewrite E3. cbn [outcome_bind]. rewrite E4. cbn [outcome_bind].
  change (be_of [33; 18; 164; 66] =? MAGIC_COOKIE) with true. cbn [negb].
  rewrite (be_of_2 ty) by (by destruct m, c).
  rewrite (be_of_2 len) by (unfold len; lia). unfold ty at 1. rewrite message_type_roundtrip.
  assert (El : Z.to_nat len = length body) by apply Nat2Z.id. rewrite El, Nat.ltb_irrefl.
  etransitivity; [apply f_equal2; [exact E5|reflexivity]|]. cbn [outcome_bind]. unfold body.
  by rewrite parse_attributes_raws.
Qed.

(** ** Lemmas: verification *)

(** The type and the length field at the start of an attribute. *)
Lemma read_header p r rest :
  raw_wf r → let data := p ++ raw_to_bytes r ++ rest in
  bytes_range data (length p) (length p + 2) = Done (be_bytes 2 (attr_type r))
  ∧ bytes_range data (length p + 2) (length p + 4) = Done (be_bytes 2 (Z.of_nat (length (value r))))
  ∧ be_of (be_bytes 2 (attr_type r)) = attr_type r ∧ be_of (be_bytes 2 (Z.of_nat (length (value r)))) = Z.of_nat (length (value r)).
Proof.
  intros [Ht Hl] data. unfold data, raw_to_bytes. set (n := Z.of_nat (length (value r))) in *.
  set (tail := value r ++ _). rewrite <-!app_assoc. split; [|split; [|split]].
  - pose proof (bytes_range_app p (be_bytes 2 (attr_type r)) (be_bytes 2 n ++ tail ++ rest)) as E.
    rewrite length_be_bytes in E. exact E.
  - pose proof (bytes_range_app (p ++ be_bytes 2 (attr_type r)) (be_bytes 2 n) (tail ++ rest)) as E.
    rewrite length_app, !length_be_bytes, <-app_assoc, <-Nat.add_assoc in E. exact E.
  - by apply be_bytes_of.
  - apply be_bytes_of. cbn. lia.
Qed.

Lemma find_offset_raws fuel p rs r rest body_end target :
  Forall raw_wf rs → raw_wf r → Forall (λ r', attr_type r' ≠ target) rs → attr_type r = target →
  (length (p ++ raws_bytes rs ++ raw_to_bytes r) ≤ body_end)%nat → (length rs < fuel)%nat →
  find_offset_from fuel (p ++ raws_bytes rs ++ raw_to_bytes r ++ rest) body_end (length p) target
  = Done (Ok (length (p ++ raws_bytes rs))).
Proof.
  intros Hrs Hr Hno Ht. revert fuel p. induction Hrs as [|r' rs Hr' _ IH]; intros fuel p Hend Hfuel.
  - destruct fuel as [|fuel]; [cbn in Hfuel; lia|]. cbn [raws_bytes mbind list_bind app] in *. rewrite !app_nil_r.
    pose proof (length_raw r). rewrite length_app in Hend. cbn [find_offset_from].
    rewrite (proj2 (Nat.leb_le _ body_end)) by lia.
    rewrite (proj2 (Nat.leb_le _ (length _))) by (rewrite !length_app; lia). cbn [andb].
    destruct (read_header p r rest Hr) as (-> & _ & E & _). cbn [outcome_bind]. by rewrite E, Ht, Z.eqb_refl.
  - destruct fuel as [|fuel]; [cbn in Hfuel; lia|]. apply Forall_cons in Hno as [Hne Hno].
    change (raws_bytes (r' :: rs)) with (raw_to_bytes r' ++ raws_bytes rs) in *.
    pose proof (length_raw r'). rewrite !length_app in Hend. cbn [find_offset_from].
    rewrite (proj2 (Nat.leb_le _ body_end)) by lia.
    rewrite (proj2 (Nat.leb_le _ (length _))) by (rewrite !length_app; lia). cbn [andb].
    rewrite <-(app_assoc (raw_to_bytes r')).
    destruct (read_header p r' (raws_bytes rs ++ raw_to_bytes r ++ rest) Hr') as (-> & E2 & E3 & E4).
    cbn [outcome_bind]. rewrite E3, (proj2 (Z.eqb_neq _ _) Hne), E2. cbn [outcome_bind]. rewrite E4, Nat2Z.id.
    specialize (IH Hno fuel (p ++ raw_to_bytes r')). rewrite !length_app, <-!app_assoc, H in IH. rewrite IH.
    + rewrite !length_app. do 2 f_equal. lia.
    + lia.
    + cbn in Hfuel. lia.
Qed.

Lemma find_attribute_frame ty tid rs r rest :
  length tid = 12%nat → Forall raw_wf rs → raw_wf r → Forall (λ r', attr_type r' ≠ attr_type r) rs →
  let body := raws_bytes rs ++ raw_to_bytes r ++ rest in
  Z.of_nat (length body) < 65536 →
  find_attribute_offset (frame ty (Z.of_nat (length body)) tid body) (attr_type r)
  = Done (Ok (20 + length (raws_bytes rs))%nat).
Proof.
  intros Ht Hrs Hr Hno body Hl. unfold find_attribute_offset. set (len := Z.of_nat (length body)) in *.
  pose proof (bytes_range_app (be_bytes 2 ty) (be_bytes 2 len) (be_bytes 4 MAGIC_COOKIE ++ tid ++ body)) as E.
  rewrite !length_be_bytes in E. unfold frame at 1. etransitivity; [apply f_equal2; [exact E|reflexivity]|].
  cbn [outcome_bind]. rewrite be_bytes_of by (change (256 ^ Z.of_nat 2) with 65536; lia).
  assert (Elen : Z.to_nat len = length body) by apply Nat2Z.id. rewrite Elen.
  rewrite length_frame by done. rewrite frame_split. unfold body at 2.
  assert (Hh : length (frame ty len tid []) = HEADER_SIZE) by (rewrite length_frame; done).
  rewrite <-Hh. rewrite (find_offset_raws _ (frame ty len tid []) rs r rest); try done.
  - by rewrite length_app, Hh.
  - unfold body. rewrite !length_app. lia.
  - unfold body. rewrite !length_app. assert (length rs ≤ length (raws_bytes rs))%nat; [|lia]. clear. induction rs as [|r rs IH]; [done|].
    change (raws_bytes (r :: rs)) with (raw_to_bytes r ++ raws_bytes rs). rewrite length_app, length_raw. cbn. lia.
Qed.

(** The octets before an attribute, with the length field a check puts there. *)
Lemma header_of_frame ty len tid body :
  length tid = 12%nat →
  bytes_to (frame ty len tid body) HEADER_SIZE = Done (frame ty len tid [])
  ∧ ∀ rest, bytes_range (frame ty len tid (body ++ rest)) HEADER_SIZE (20 + length body) = Done body
    ∧ bytes_to (frame ty len tid (body ++ rest)) (20 + length body) = Done (frame ty len tid body).
Proof.
  intros Ht. assert (Hh : length (frame ty len tid []) = HEADER_SIZE) by (rewrite length_frame; done). split.
  - rewrite frame_split. rewrite <-Hh. apply bytes_to_app.
  - intros rest. split.
    + rewrite frame_split. pose proof (bytes_range_app (frame ty len tid []) body rest) as E. rewrite Hh in E. exact E.
    + rewrite frame_app. rewrite <-(length_frame ty len tid body) by done. apply bytes_to_app.
Qed.

Section checks.
Context `{StunCrypto}.

(** The documented shape of the results of the crates. *)
Definition crypto_wf : Prop :=
  (∀ k d, length (hmac_sha1 k d) = 20%nat) ∧ ∀ d, 0 ≤ crc32 d < 2 ^ 32.

Definition integrity_raw (key : bytes) (ty : Z) (tid body : bytes) : RawAttribute :=
  mkRaw (attr_u16 TMessageIntegrity) (hmac_sha1 key (frame ty (Z.of_nat (length body) + 24) tid body)).
Definition fingerprint_raw (ty : Z) (tid body : bytes) : RawAttribute :=
  mkRaw (attr_u16 TFingerprint) (be_bytes 4 (compute_fingerprint (frame ty (Z.of_nat (length body) + 8) tid body))).

Lemma integrity_raw_wf key ty tid body : crypto_wf → raw_wf (integrity_raw key ty tid body).
Proof. intros [Hh _]. split; [by cbn|]. cbn [integrity_raw value]. by rewrite Hh. Qed.
Lemma fingerprint_raw_wf ty tid body : raw_wf (fingerprint_raw ty tid body).
Proof. by split; cbn. Qed.

Lemma integrity_attr key ty tid body :
  crypto_wf →
  raw_to_attr_value (integrity_raw key ty tid body) tid = MessageIntegrity (value (integrity_raw key ty tid body)).
Proof.
  intros [Hh _]. unfold raw_to_attr_value, integrity_raw. cbn [attr_type value]. by rewrite attr_type_roundtrip, Hh.
Qed.
Lemma fingerprint_attr ty tid body :
  raw_to_attr_value (fingerprint_raw ty tid body) tid = Fingerprint (be_of (value (fingerprint_raw ty tid body))).
Proof.
  unfold raw_to_attr_value, fingerprint_raw. cbn [attr_type value]. by rewrite attr_type_roundtrip, length_be_bytes.
Qed.

Lemma with_integrity_frame m key :
  crypto_wf → length (transaction_id m) = 12%nat → Z.of_nat (length (stun_body m)) + 24 < 65536 →
  let ty := encode_message_type (s_method m) (class m) in
  let tid := transaction_id m in
  let body := stun_body m ++ raw_to_bytes (integrity_raw key ty tid (stun_body m)) in
  to_bytes_with_integrity m key = Done (frame ty (Z.of_nat (length body)) tid body)
  ∧ Z.of_nat (length body) = Z.of_nat (length (stun_body m)) + 24.
Proof.
  intros [Hh Hcrc] Ht Hl ty tid body. unfold to_bytes_with_integrity. rewrite to_bytes_frame. fold ty tid.
  rewrite body_len_frame by (done || lia). rewrite Z.mod_small by lia. rewrite set_length_frame. cbn [outcome_bind].
  assert (Hlen : Z.of_nat (length body) = Z.of_nat (length (stun_body m)) + 24).
  { unfold body. rewrite length_app, length_raw. cbn [integrity_raw value]. rewrite Hh. change (padded 20) with 20%nat. lia. }
  split; [|done]. fold (integrity_raw key ty tid (stun_body m)). rewrite append_attribute_frame; [done|done|].
  fold body. rewrite Hlen. lia.
Qed.

Lemma append_fingerprint_frame ty len tid body :
  length tid = 12%nat → Z.of_nat (length body) + 8 < 65536 →
  let body' := body ++ raw_to_bytes (fingerprint_raw ty tid body) in
  append_fingerprint (frame ty len tid body) = Done (frame ty (Z.of_nat (length body')) tid body')
  ∧ Z.of_nat (length body') = Z.of_nat (length body) + 8.
Proof.
  intros Ht Hl body'. unfold append_fingerprint. rewrite body_len_frame by (done || lia).
  rewrite Z.mod_small by lia. rewrite set_length_frame. cbn [outcome_bind].
  assert (Hlen : Z.of_nat (length body') = Z.of_nat (length body) + 8).
  { unfold body'. rewrite length_app, length_raw. cbn [fingerprint_raw value]. rewrite length_be_bytes. change (padded 4) with 4%nat. lia. }
  split; [|done]. fold (fingerprint_raw ty tid body). rewrite append_attribute_frame; [done|done|].
  fold body'. rewrite Hlen. lia.
Qed.

Lemma verify_integrity_frame m key ty tid rs rest :
  crypto_wf → length tid = 12%nat → Forall raw_wf rs → Forall (λ r, attr_type r ≠ attr_u16 TMessageIntegrity) rs →
  let mi := integrity_raw key ty tid (raws_bytes rs) in
  let body := raws_bytes rs ++ raw_to_bytes mi ++ rest in
  Z.of_nat (length body) < 65536 → integrity_value m = Some (value mi) →
  verify_integrity m (frame ty (Z.of_nat (length body)) tid body) key = Done (Ok tt).
Proof.
  intros Hw Ht Hrs Hno mi body Hl Hv. unfold verify_integrity. rewrite Hv.
  change (attr_u16 TMessageIntegrity) with (attr_type mi).
  pose proof (find_attribute_frame ty tid rs mi rest Ht Hrs (integrity_raw_wf key ty tid _ Hw) Hno Hl) as Ef.
  fold body in Ef. rewrite Ef. cbn [outcome_bind].
  destruct (header_of_frame ty (Z.of_nat (length body)) tid body Ht) as [-> _]. cbn [outcome_bind].
  rewrite set_length_frame. cbn [outcome_bind].
  destruct (header_of_frame ty (Z.of_nat (length body)) tid (raws_bytes rs) Ht) as [_ Hb].
  destruct (Hb (raw_to_bytes mi ++ rest)) as [E _]. fold body in E. rewrite E. cbn [outcome_bind].
  rewrite bool_decide_true; [done|]. unfold mi. cbn [integrity_raw value]. f_equal. rewrite <-frame_split.
  f_equal. pose proof (length_raw mi) as Hm. unfold body in Hl. rewrite !length_app, Hm in Hl.
  destruct Hw as [Hh _]. cbn [mi integrity_raw value] in Hl. rewrite Hh in Hl. change (padded 20) with 20%nat in Hl.
  unfold HEADER_SIZE. rewrite Z.mod_small; lia.
Qed.

Lemma verify_fingerprint_frame m ty tid rs rest :
  crypto_wf → length tid = 12%nat → Forall raw_wf rs → Forall (λ r, attr_type r ≠ attr_u16 TFingerprint) rs →
  let fp := fingerprint_raw ty tid (raws_bytes rs) in
  let body := raws_bytes rs ++ raw_to_bytes fp ++ rest in
  Z.of_nat (length body) < 65536 → fingerprint_value m = Some (be_of (value fp)) →
  verify_fingerprint m (frame ty (Z.of_nat (length body)) tid body) = Done (Ok tt).
Proof.
  intros [_ Hcrc] Ht Hrs Hno fp body Hl Hv. unfold verify_fingerprint. rewrite Hv.
  change (attr_u16 TFingerprint) with (attr_type fp).
  pose proof (find_attribute_frame ty tid rs fp rest Ht Hrs (fingerprint_raw_wf ty tid _) Hno Hl) as Ef.
  fold body in Ef. rewrite Ef. cbn [outcome_bind].
  destruct (header_of_frame ty (Z.of_nat (length body)) tid (raws_bytes rs) Ht) as [_ Hb].
  destruct (Hb (raw_to_bytes fp ++ rest)) as [_ E]. fold body in E. rewrite E. cbn [outcome_bind].
  rewrite set_length_frame. cbn [outcome_bind]. unfold fp. cbn [fingerprint_raw value].
  pose proof (length_raw fp) as Hm. unfold body in Hl. rewrite !length_app, Hm in Hl.
  cbn [fp fingerprint_raw value] in Hl. rewrite length_be_bytes in Hl. change (padded 4) with 4%nat in Hl.
  unfold HEADER_SIZE. rewrite Z.mod_small by lia.
  replace (Z.of_nat (20 + length (raws_bytes rs) - 20 + 8)) with (Z.of_nat (length (raws_bytes rs)) + 8) by lia.
  rewrite be_bytes_of; [by rewrite Z.eqb_refl|]. apply (lxor_range 32); [lia|apply Hcrc|done].
Qed.
End checks.

(** ** Lemmas: whole messages *)

Definition raws_of (m : StunMessage) : list RawAttribute := (λ a, attr_value_to_raw a (transaction_id m)) <$> attributes m.

Lemma stun_body_raws m : stun_body m = raws_bytes (raws_of m).
Proof.
  unfold stun_body, raws_bytes, raws_of. induction (attributes m) as [|a l IH]; [done|].
  rewrite fmap_cons. cbn [mbind list_bind]. by f_equal.
Qed.

(** Not one of the two attributes that are put after the others. *)
Definition ordinary (a : StunAttrValue) : Prop :=
  match a with MessageIntegrity _ | Fingerprint _ => False | _ => True end.

Record stun_wf (m : StunMessage) : Prop := {
  sw_tid : length (transaction_id m) = 12%nat;
  sw_attrs : Forall attr_wf (attributes m);
  sw_ordinary : Forall ordinary (attributes m) }.

Lemma raws_bytes_bound rs :
  Forall (λ r, 0 ≤ attr_type r < 65536) rs → Z.of_nat (length (raws_bytes rs)) < 65536 → Forall raw_wf rs.
Proof.
  induction 1 as [|r rs Hr _ IH]; intros Hl; [constructor|].
  change (raws_bytes (r :: rs)) with (raw_to_bytes r ++ raws_bytes rs) in Hl. rewrite length_app, length_raw in Hl.
  pose proof (padded_bounds (length (value r))). constructor; [split; [done|lia]|apply IH; lia].
Qed.

Lemma raws_of_wf m : stun_wf m → Z.of_nat (length (stun_body m)) < 65536 → Forall raw_wf (raws_of m).
Proof.
  intros [_ Ha _] Hl. apply raws_bytes_bound; [|by rewrite <-stun_body_raws]. apply Forall_fmap.
  eapply Forall_impl; [exact Ha|]. intros a. apply attr_raw_type.
Qed.

Lemma ordinary_type t m :
  stun_wf m → t = TMessageIntegrity ∨ t = TFingerprint → Forall (λ r, attr_type r ≠ attr_u16 t) (raws_of m).
Proof.
  intros [_ Ha Ho] Ht. apply Forall_fmap, Forall_forall. intros a Hin. rewrite Forall_forall in Ha, Ho.
  specialize (Ha _ Hin). specialize (Ho _ Hin). cbn.
  destruct a as [| | | | | | | | | | | | | | | | | | | | |ty v]; try done; try by destruct Ht as [-> | ->].
  cbn [attr_wf attr_value_to_raw attr_type] in Ha |- *. intros ->. destruct Ha as [_ Ha]. rewrite attr_type_roundtrip in Ha.
  destruct Ht as [-> | ->]; by destruct Ha.
Qed.

Lemma raws_values m tid :
  tid = transaction_id m → stun_wf m → (λ r, raw_to_attr_value r tid) <$> raws_of m = attributes m.
Proof.
  intros -> [Ht Ha _]. unfold raws_of. rewrite <-list_fmap_compose. rewrite <-(list_fmap_id (attributes m)) at 2.
  apply list_fmap_ext. intros i a Hi. cbn. apply attribute_roundtrip; [|done].
  rewrite Forall_forall in Ha. apply Ha. by apply list_elem_of_lookup_2 in Hi.
Qed.

Lemma first_of_app {A} (f : StunAttrValue → option A) mt c tid l1 l2 :
  Forall (λ a, f a = None) l1 → first_of f (mkStun mt c tid (l1 ++ l2)) = first_of f (mkStun mt c tid l2).
Proof.
  unfold first_of. cbn [attributes]. induction 1 as [|a l1 Ha _ IH]; [done|]. cbn [app omap list_omap]. by rewrite Ha.
Qed.

(** The fuel of the attribute loop is enough: more changes nothing. *)
Lemma parse_attributes_fuel tid data f1 f2 :
  (length data ≤ f1)%nat → (length data ≤ f2)%nat →
  parse_attributes f1 tid data = parse_attributes f2 tid data ∧ returns (parse_attributes f1 tid data).
Proof.
  revert data f2. induction f1 as [|f1 IH]; intros data f2 H1 H2.
  { destruct data; [|cbn in H1; lia]. by destruct f2; split; [|eexists| |eexists]. }
  destruct data as [|b data]; [by destruct f2; split; [|eexists| |eexists]|].
  destruct f2 as [|f2]; [cbn in H2; lia|]. cbn [parse_attributes].
  assert (Hp : ∃ r, raw_parse (b :: data) = Done r
    ∧ match r with Ok (_, n) => (4 ≤ n ≤ length (b :: data))%nat | Err _ => True end).
  { unfold raw_parse. destruct (Nat.ltb_spec (length (b :: data)) 4); [by eexists|].
    destruct (byte_at_returns (b :: data) 0) as [a0 ->]; [lia|]. destruct (byte_at_returns (b :: data) 1) as [a1 ->]; [lia|].
    destruct (byte_at_returns (b :: data) 2) as [l0 ->]; [lia|]. destruct (byte_at_returns (b :: data) 3) as [l1 ->]; [lia|].
    cbn [outcome_bind]. set (n := Z.to_nat (be_of [l0; l1])).
    destruct (Nat.ltb_spec (length (b :: data)) (4 + n)); [by eexists|]. unfold bytes_range.
    rewrite (proj2 (Nat.leb_le 4 (4 + n))), (proj2 (Nat.leb_le (4 + n) (length (b :: data)))) by lia. cbn [andb outcome_bind].
    eexists. split; [done|]. cbv beta iota. lia. }
  destruct Hp as (r & -> & Hr). cbn [outcome_bind]. destruct r as [[raw n]|]; [|split; [done|by eexists]].
  unfold bytes_from. rewrite (proj2 (Nat.leb_le n _)) by lia. cbn [outcome_bind].
  destruct (IH (drop n (b :: data)) f2) as [E [res Hres]]; [rewrite length_drop; cbn in *; lia..|].
  rewrite <-E, Hres. cbn [outcome_bind]. split; [done|by eexists].
Qed.

(** Nothing received makes the parser panic or run for ever. *)
Theorem stun_parse_returns (data : bytes) : returns (stun_parse data).
Proof.
  unfold stun_parse. destruct (Nat.ltb_spec (length data) HEADER_SIZE) as [|Hl]; [by eexists|].
  assert (Hr : ∀ a b, (a ≤ b)%nat → (b ≤ length data)%nat → bytes_range data a b = Done (take (b - a) (drop a data))).
  { intros a b Hab Hb. unfold bytes_range. by rewrite (proj2 (Nat.leb_le a b)), (proj2 (Nat.leb_le b _)). }
  unfold HEADER_SIZE in *. destruct (byte_at_returns data 0) as [d0 ->]; [lia|]. cbn [outcome_bind].
  destruct (Z.land d0 0xC0 =? 0); cbn [negb]; [|by eexists].
  rewrite !Hr by lia. cbn [outcome_bind]. destruct (_ =? MAGIC_COOKIE); cbn [negb]; [|by eexists].
  destruct (decode_message_type _) as [[mt|] c]; [|by eexists].
  destruct (Nat.ltb_spec (length data) (20 + Z.to_nat (be_of (take (4 - 2) (drop 2 data))))); [by eexists|].
  rewrite Hr by lia. cbn [outcome_bind]. match goal with |- context[parse_attributes ?n ?t ?d] =>
    destruct (parse_attributes_fuel t d n n) as [_ [res ->]]; [lia..|] end. by eexists.
Qed.

Lemma is_stun_frame m c len tid body :
  length tid = 12%nat → is_stun_message (frame (encode_message_type m c) len tid body) = true.
Proof.
  intros Ht. unfold is_stun_message, frame. change (be_bytes 4 MAGIC_COOKIE) with [33; 18; 164; 66].
  rewrite !be_bytes_2. cbn [app drop take length]. rewrite length_app, Ht. by destruct m, c.
Qed.

(** The message as it is read back from the octets with both checks. *)
Definition with_checks (m : StunMessage) (mi : bytes) (fp : Z) : StunMessage :=
  mkStun (s_method m) (class m) (transaction_id m) (attributes m ++ [MessageIntegrity mi; Fingerprint fp]).

Lemma checked_roundtrip `{StunCrypto} (m : StunMessage) (key : bytes) :
  crypto_wf → stun_wf m → Z.of_nat (length (stun_body m)) + 32 < 65536 →
  ∃ buf mi fp,
    to_bytes_with_integrity_and_fingerprint m key = Done buf ∧ is_stun_message buf = true
    ∧ stun_parse buf = Done (Ok (with_checks m mi fp))
    ∧ verify_integrity (with_checks m mi fp) buf key = Done (Ok tt)
    ∧ verify_fingerprint (with_checks m mi fp) buf = Done (Ok tt).
Proof.
  intros Hc Hw Hl. pose proof Hw as [Ht Ha Ho]. pose proof (raws_of_wf m Hw ltac:(lia)) as Hrs.
  pose proof (stun_body_raws m) as Hb.
  destruct (with_integrity_frame m key Hc Ht ltac:(lia)) as [Hi Hil]. cbn zeta in Hi, Hil.
  set (ty := encode_message_type (s_method m) (class m)) in *. set (tid := transaction_id m) in *.
  set (mi := integrity_raw key ty tid (stun_body m)) in *.
  destruct (append_fingerprint_frame ty (Z.of_nat (length (stun_body m ++ raw_to_bytes mi))) tid
    (stun_body m ++ raw_to_bytes mi) Ht ltac:(lia)) as [Hf Hfl]. cbn zeta in Hf, Hfl.
  set (fp := fingerprint_raw ty tid (stun_body m ++ raw_to_bytes mi)) in *.
  assert (Hbody : (stun_body m ++ raw_to_bytes mi) ++ raw_to_bytes fp = raws_bytes (raws_of m ++ [mi; fp])).
  { by rewrite raws_bytes_app, raws_bytes_cons, raws_bytes_one, <-Hb, <-app_assoc. }
  assert (Hmi : raw_wf mi) by by apply integrity_raw_wf. assert (Hfp : raw_wf fp) by apply fingerprint_raw_wf.
  assert (Hmm : Forall raw_wf (raws_of m ++ [mi])) by (apply Forall_app; by rewrite Forall_singleton).
  assert (Hmf : Forall raw_wf (raws_of m ++ [mi; fp])) by (apply Forall_app; by rewrite Forall_cons, Forall_singleton).
  assert (Hfv : 0 ≤ compute_fingerprint (frame ty (Z.of_nat (length (stun_body m ++ raw_to_bytes mi)) + 8) tid
    (stun_body m ++ raw_to_bytes mi)) < 2 ^ 32) by (apply (lxor_range 32); [lia|apply Hc|done]).
  eexists _, (value mi), (be_of (value fp)). split.
  { unfold to_bytes_with_integrity_and_fingerprint. rewrite Hi. cbn [outcome_bind]. exact Hf. }
  unfold with_checks. rewrite Hbody in Hfl |- *. split; [by apply is_stun_frame|]. split; [|split].
  - pose proof (stun_parse_frame (s_method m) (class m) tid (raws_of m ++ [mi; fp])) as P. fold ty in P.
    rewrite P by (done || lia).
    rewrite fmap_app, raws_values, !fmap_cons, fmap_nil by done. unfold mi at 1, fp at 1.
    by rewrite integrity_attr, fingerprint_attr.
  - assert (E : raws_bytes (raws_of m ++ [mi; fp]) = stun_body m ++ raw_to_bytes mi ++ raw_to_bytes fp)
      by (by rewrite <-Hbody, <-app_assoc).
    rewrite E. unfold mi. rewrite Hb. apply verify_integrity_frame; try done.
    + apply ordinary_type; [done|by left].
    + rewrite <-Hb. fold mi. rewrite <-E. lia.
    + rewrite <-Hb. fold mi. unfold integrity_value. rewrite first_of_app; [done|].
      eapply Forall_impl; [exact Ho|]. by intros [].
  - assert (E : raws_bytes (raws_of m ++ [mi; fp]) = (stun_body m ++ raw_to_bytes mi) ++ raw_to_bytes fp ++ [])
      by (by rewrite <-Hbody, app_nil_r).
    assert (Eb : stun_body m ++ raw_to_bytes mi = raws_bytes (raws_of m ++ [mi]))
      by (by rewrite raws_bytes_app, raws_bytes_one, <-Hb).
    rewrite E. unfold fp. rewrite Eb. apply verify_fingerprint_frame; try done.
    + apply Forall_app. split; [apply ordinary_type; [done|by right]|]. by constructor.
    + rewrite <-Eb. fold fp. rewrite <-E. lia.
    + rewrite <-Eb. fold fp. unfold fingerprint_value. rewrite first_of_app; [done|].
      eapply Forall_impl; [exact Ho|]. by intros [].
Qed.

(** ** Theorems *)

(** C25. What is built is read back and passes both checks.  A message whose
    attributes are in range, at most 65 503 octets of them, parses back from its
    octets; with MESSAGE-INTEGRITY and FINGERPRINT added it is a STUN message that
    parses to the same attributes and these two, and both checks accept it, the
    first one under the key it was built with. *)
Theorem stun_build_parse `{StunCrypto} (m : StunMessage) (key : bytes) :
  crypto_wf → stun_wf m → Z.of_nat (length (stun_body m)) + 32 < 65536 →
  stun_parse (to_bytes m) = Done (Ok m)
  ∧ ∃ buf mi fp,
      to_bytes_with_integrity_and_fingerprint m key = Done buf
      ∧ let m' := mkStun (s_method m) (class m) (transaction_id m)
                    (attributes m ++ [MessageIntegrity mi; Fingerprint fp]) in
        stun_parse buf = Done (Ok m')
        ∧ verify_integrity m' buf key = Done (Ok tt) ∧ verify_fingerprint m' buf = Done (Ok tt).
Proof.
  intros Hc Hw Hl. split.
  - pose proof (stun_body_raws m) as Hb. pose proof (raws_of_wf m Hw ltac:(lia)). destruct Hw as [Ht Ha Ho].
    rewrite to_bytes_frame, Hb. rewrite stun_parse_frame by (done || (rewrite <-Hb; lia)). rewrite raws_values by done.
    by destruct m.
  - destruct (checked_roundtrip m key Hc Hw Hl) as (buf & mi & fp & E & _ & P & V & F). by exists buf, mi, fp.
Qed.

(** Integrity does not cover the tail.  To an authenticated message anyone can
    append an attribute, with the length field adjusted: the parser returns the
    attribute with the others, and the check of the integrity still accepts the
    message. *)
Theorem integrity_ignores_the_tail `{StunCrypto} (m : StunMessage) (key : bytes) (extra : StunAttrValue) :
  crypto_wf → stun_wf m → attr_wf extra →
  let raw := attr_value_to_raw extra (transaction_id m) in
  Z.of_nat (length (stun_body m)) + 24 + Z.of_nat (length (raw_to_bytes raw)) < 65536 →
  ∃ buf buf' mi,
    to_bytes_with_integrity m key = Done buf ∧ append_attribute raw buf = Done buf'
    ∧ let m' := mkStun (s_method m) (class m) (transaction_id m) (attributes m ++ [MessageIntegrity mi; extra]) in
      stun_parse buf' = Done (Ok m') ∧ verify_integrity m' buf' key = Done (Ok tt).
Proof.
  intros Hc Hw Hx raw Hl. pose proof Hw as [Ht Ha Ho]. pose proof (raws_of_wf m Hw ltac:(lia)) as Hrs.
  pose proof (stun_body_raws m) as Hb. destruct (with_integrity_frame m key Hc Ht ltac:(lia)) as [Hi Hil].
  cbn zeta in Hi, Hil. set (ty := encode_message_type (s_method m) (class m)) in *.
  set (tid := transaction_id m) in *. set (mi := integrity_raw key ty tid (stun_body m)) in *.
  assert (Hbody : (stun_body m ++ raw_to_bytes mi) ++ raw_to_bytes raw = raws_bytes (raws_of m ++ [mi; raw]))
    by (by rewrite raws_bytes_app, raws_bytes_cons, raws_bytes_one, <-Hb, <-app_assoc).
  assert (Hlen : Z.of_nat (length (raws_bytes (raws_of m ++ [mi; raw]))) < 65536)
    by (rewrite <-Hbody, length_app; lia).
  assert (Hraw : raw_wf raw).
  { split; [by apply attr_raw_type|]. pose proof (length_raw raw). pose proof (padded_bounds (length (value raw))). lia. }
  assert (Hall : Forall raw_wf (raws_of m ++ [mi; raw])).
  { apply Forall_app. rewrite Forall_cons, Forall_singleton. split; [done|]. split; [by apply integrity_raw_wf|done]. }
  eexists _, _, (value mi). split; [exact Hi|]. split.
  { apply append_attribute_frame; [done|]. by rewrite Hbody. }
  cbn zeta. rewrite Hbody. split.
  - pose proof (stun_parse_frame (s_method m) (class m) tid (raws_of m ++ [mi; raw])) as P. fold ty in P.
    rewrite P by done. rewrite fmap_app, raws_values, !fmap_cons, fmap_nil by done. unfold mi at 1, raw at 1.
    by rewrite integrity_attr, attribute_roundtrip.
  - assert (E : raws_bytes (raws_of m ++ [mi; raw]) = stun_body m ++ raw_to_bytes mi ++ raw_to_bytes raw)
      by (by rewrite <-Hbody, <-app_assoc).
    rewrite E. unfold mi. rewrite Hb. apply verify_integrity_frame; try done.
    + apply ordinary_type; [done|by left].
    + rewrite <-Hb. fold mi. by rewrite <-E.
    + rewrite <-Hb. fold mi. unfold integrity_value. rewrite first_of_app; [done|].
      eapply Forall_impl; [exact Ho|]. by intros [].
Qed.

(** ** Witnesses *)

Definition sample_crypto : StunCrypto :=
  {| hmac_sha1 := λ k d, replicate 19 (Z.of_nat (length k)) ++ [fold_right Z.add 0 d mod 256];
     crc32 := λ d, fold_right Z.add 0 d mod 2 ^ 32; md5_digest := λ d, d |}.

Lemma sample_crypto_wf : @crypto_wf sample_crypto.
Proof. split; [done|]. intros d. cbn. apply Z.mod_pos_bound. lia. Qed.

Definition sample_binding : StunMessage :=
  mkStun Binding StunRequest (replicate 12 7)
    [Username (lit "ab:cd"); Priority 1845501695; IceControlled 81985529216486895; XorMappedAddress (V4 3221225985, 32853)].

Lemma sample_binding_wf : stun_wf sample_binding.
Proof.
  split; [done| |]; repeat constructor; cbn; try lia; repeat (apply Forall_cons; split; [unfold is_scalar; cbn; lia|]); done.
Qed.

Lemma stun_build_parse_witness :
  ∃ buf mi fp,
    @to_bytes_with_integrity_and_fingerprint sample_crypto sample_binding [1; 2; 3] = Done buf
    ∧ stun_parse buf
      = Done (Ok (mkStun Binding StunRequest (replicate 12 7)
                    (attributes sample_binding ++ [MessageIntegrity mi; Fingerprint fp]))).
Proof.
  destruct (@stun_build_parse sample_crypto sample_binding [1; 2; 3] sample_crypto_wf sample_binding_wf)
    as (_ & buf & mi & fp & E & P & _); [by vm_compute|]. by exists buf, mi, fp.
Defined.

Lemma integrity_ignores_the_tail_witness :
  ∃ buf m', stun_parse buf = Done (Ok m') ∧ has_use_candidate sample_binding = false ∧ has_use_candidate m' = true
    ∧ @verify_integrity sample_crypto m' buf [1; 2; 3] = Done (Ok tt).
Proof.
  destruct (@integrity_ignores_the_tail sample_crypto sample_binding [1; 2; 3] UseCandidate sample_crypto_wf
    sample_binding_wf) as (buf & buf' & mi & _ & _ & P & V); [done|by vm_compute|].
  eexists buf', _. split; [exact P|]. by split; [|split].
Defined.
