(* ===== verification/Ice.v ===== *)
(** * Interactive connectivity establishment ([asterisk-sip/src/ice.rs],
      [asterisk-sip/src/rtp/ice_transport.rs])

    Candidates, candidate pairs, the agent with its check list, and the transport
    that exchanges STUN checks for it.  Random values (credentials, tie-breakers,
    transaction ids) are arguments; what a socket delivers, and whether a send
    succeeds, are arguments; TURN is the pair of addresses it allocates.

    The theorems: the priorities are those of RFC 8445 and both agents order the
    pairs alike; the check list is sorted, without repeated pairs, and complete;
    the checks end unless the peer keeps answering 487; and the order of the
    checks decides whether the controlled agent ever completes. *)

From Stdlib Require Import ZArith NArith Ascii String Sorting.Sorted.
From stdpp Require Import sorting.
From S2P Require Import Prelude RustStr Bytes Utf8 NetAddr Sdp SdpNegotiate Stun.
Local Open Scope Z_scope.
Local Open Scope list_scope.

(** ** Candidates *)

Definition TYPE_PREFERENCE_HOST : Z := 126.
Definition TYPE_PREFERENCE_PEER_REFLEXIVE : Z := 110.
Definition TYPE_PREFERENCE_SERVER_REFLEXIVE : Z := 100.
Definition TYPE_PREFERENCE_RELAY : Z := 0.
Definition MAX_CHECK_RETRANSMISSIONS : Z := 7.
Definition COMPONENT_RTP : Z := 1.
Definition COMPONENT_RTCP : Z := 2.

Definition type_preference (t : CandidateType) : Z :=
  match t with
  | CHost => TYPE_PREFERENCE_HOST
  | CServerReflexive => TYPE_PREFERENCE_SERVER_REFLEXIVE
  | CPeerReflexive => TYPE_PREFERENCE_PEER_REFLEXIVE
  | CRelay => TYPE_PREFERENCE_RELAY
  end.

Definition compute_priority (t : CandidateType) (local_preference component_id : Z) : Z :=
  Z.lor (Z.lor (Z.shiftl (type_preference t) 24) (Z.shiftl (Z.land local_preference 0xFFFF) 8))
    (wrap_u32 (256 - component_id)).

Definition ic_address (c : IceCandidate) : SocketAddr := (ic_ip c, ic_port c).

Definition candidate_at (letter : string) (t : CandidateType) (a : SocketAddr) (component priority : Z)
    (base : option SocketAddr) : IceCandidate :=
  mkCandidate (lit letter ++ show_ip a.1 ++ show_int component) component (lit "UDP") priority a.1 a.2 t
    (fst <$> base) (snd <$> base).

Definition new_host (a : SocketAddr) (component local_preference : Z) : IceCandidate :=
  candidate_at "H" CHost a component (compute_priority CHost local_preference component) None.
Definition new_srflx (mapped base : SocketAddr) (component local_preference : Z) : IceCandidate :=
  candidate_at "S" CServerReflexive mapped component (compute_priority CServerReflexive local_preference component) (Some base).
Definition new_prflx (a base : SocketAddr) (component priority : Z) : IceCandidate :=
  candidate_at "P" CPeerReflexive a component priority (Some base).
Definition new_relay (relayed mapped : SocketAddr) (component local_preference : Z) : IceCandidate :=
  candidate_at "R" CRelay relayed component (compute_priority CRelay local_preference component) (Some mapped).

(** ** Candidate pairs *)

Inductive PairState := Frozen | Waiting | InProgress | Succeeded | Failed.
Inductive IceRole := Controlling | Controlled.
Inductive IceMode := Full | Lite.
Inductive IceState := Idle | Gathering | Checking | IceCompleted | IceFailed.
Inductive NominationMode := Regular | Aggressive.

#[export] Instance PairState_eq_dec : EqDecision PairState.
Proof. solve_decision. Defined.
#[export] Instance IceRole_eq_dec : EqDecision IceRole.
Proof. solve_decision. Defined.
#[export] Instance IceState_eq_dec : EqDecision IceState.
Proof. solve_decision. Defined.
#[export] Instance NominationMode_eq_dec : EqDecision NominationMode.
Proof. solve_decision. Defined.

Record CandidatePair := mkPair {
  p_local : IceCandidate; p_remote : IceCandidate; p_priority : Z; p_state : PairState;
  nominated : bool; p_transaction_id : option bytes; retransmissions : Z }.

Definition set_pair_state (p : CandidatePair) (s : PairState) : CandidatePair :=
  mkPair (p_local p) (p_remote p) (p_priority p) s (nominated p) (p_transaction_id p) (retransmissions p).
Definition set_nominated (p : CandidatePair) : CandidatePair :=
  mkPair (p_local p) (p_remote p) (p_priority p) (p_state p) true (p_transaction_id p) (retransmissions p).
Definition set_in_progress (tid : bytes) (p : CandidatePair) : CandidatePair :=
  mkPair (p_local p) (p_remote p) (p_priority p) InProgress (nominated p) (Some tid) (retransmissions p).

(** In 64 bits. *)
Definition pair_priority (controlling_priority controlled_priority : Z) : Z :=
  let g := controlling_priority in
  let d := controlled_priority in
  let tie := if d <? g then 1 else 0 in
  wrap_u64 (2 ^ 32 * Z.min g d + 2 * Z.max g d + tie).

Definition new_pair (local remote : IceCandidate) (role : IceRole) : CandidatePair :=
  let (g, d) := match role with
                | Controlling => (ic_priority local, ic_priority remote)
                | Controlled => (ic_priority remote, ic_priority local)
                end in
  mkPair local remote (pair_priority g d) Frozen false None 0.

(** ** The agent *)

Record IceAgent := mkAgent {
  role : IceRole; ice_mode : IceMode; nomination : NominationMode;
  local_ufrag : str; local_pwd : str; remote_ufrag : str; remote_pwd : str;
  local_candidates : list IceCandidate; remote_candidates : list IceCandidate;
  check_list : list CandidatePair; ice_state : IceState; tie_breaker : Z; num_components : Z;
  nominated_pairs : gmap Z CandidatePair; valid_pairs : list CandidatePair }.

(** What [generate_ice_string] and the random generator return. *)
Record IceRandom := mkRandom { r_ufrag : str; r_pwd : str; r_tie : Z }.

Definition agent_new (rnd : IceRandom) (m : IceMode) (r : IceRole) (components : Z) : IceAgent :=
  mkAgent r m Aggressive (r_ufrag rnd) (r_pwd rnd) [] [] [] [] [] Idle (r_tie rnd) components ∅ [].
Definition agent_new_lite (rnd : IceRandom) (components : Z) : IceAgent :=
  mkAgent Controlled Lite Regular (r_ufrag rnd) (r_pwd rnd) [] [] [] [] [] Idle (r_tie rnd) components ∅ [].

Definition set_role (a : IceAgent) (r : IceRole) : IceAgent :=
  mkAgent r (ice_mode a) (nomination a) (local_ufrag a) (local_pwd a) (remote_ufrag a) (remote_pwd a)
    (local_candidates a) (remote_candidates a) (check_list a) (ice_state a) (tie_breaker a) (num_components a)
    (nominated_pairs a) (valid_pairs a).
Definition set_candidates (a : IceAgent) (locals remotes : list IceCandidate) : IceAgent :=
  mkAgent (role a) (ice_mode a) (nomination a) (local_ufrag a) (local_pwd a) (remote_ufrag a) (remote_pwd a)
    locals remotes (check_list a) (ice_state a) (tie_breaker a) (num_components a)
    (nominated_pairs a) (valid_pairs a).
Definition set_check_list (a : IceAgent) (l : list CandidatePair) : IceAgent :=
  mkAgent (role a) (ice_mode a) (nomination a) (local_ufrag a) (local_pwd a) (remote_ufrag a) (remote_pwd a)
    (local_candidates a) (remote_candidates a) l (ice_state a) (tie_breaker a) (num_components a)
    (nominated_pairs a) (valid_pairs a).
Definition set_ice_state (a : IceAgent) (s : IceState) : IceAgent :=
  mkAgent (role a) (ice_mode a) (nomination a) (local_ufrag a) (local_pwd a) (remote_ufrag a) (remote_pwd a)
    (local_candidates a) (remote_candidates a) (check_list a) s (tie_breaker a) (num_components a)
    (nominated_pairs a) (valid_pairs a).
Definition set_results (a : IceAgent) (noms : gmap Z CandidatePair) (valid : list CandidatePair) : IceAgent :=
  mkAgent (role a) (ice_mode a) (nomination a) (local_ufrag a) (local_pwd a) (remote_ufrag a) (remote_pwd a)
    (local_candidates a) (remote_candidates a) (check_list a) (ice_state a) (tie_breaker a) (num_components a)
    noms valid.

Definition restart (rnd : IceRandom) (a : IceAgent) : IceAgent :=
  mkAgent (role a) (ice_mode a) (nomination a) (r_ufrag rnd) (r_pwd rnd) (remote_ufrag a) (remote_pwd a)
    [] [] [] Idle (r_tie rnd) (num_components a) ∅ [].

Definition set_remote_credentials (rnd : IceRandom) (ufrag pwd : str) (a : IceAgent) : IceAgent :=
  let changed := negb (str_eqb (remote_ufrag a) ufrag) || negb (str_eqb (remote_pwd a) pwd) in
  let a := mkAgent (role a) (ice_mode a) (nomination a) (local_ufrag a) (local_pwd a) ufrag pwd
             (local_candidates a) (remote_candidates a) (check_list a) (ice_state a) (tie_breaker a)
             (num_components a) (nominated_pairs a) (valid_pairs a) in
  if changed && negb (bool_decide (ice_state a = Idle)) then restart rnd a else a.

Definition add_remote_candidate (c : IceCandidate) (a : IceAgent) : IceAgent :=
  if existsb (λ c', bool_decide (ic_address c' = ic_address c) && (component_id c' =? component_id c))
       (remote_candidates a)
  then a else set_candidates a (local_candidates a) (remote_candidates a ++ [c]).

Definition components_of (a : IceAgent) : list Z := seqZ 1 (num_components a).

Definition gather_host_candidates (local_addrs : list SocketAddr) (a : IceAgent) : IceAgent :=
  let a := set_ice_state a Gathering in
  let found := imap (λ idx addr, (λ c, new_host addr c (wrap_u32 (65535 - Z.of_nat idx))) <$> components_of a) local_addrs in
  set_candidates a (local_candidates a ++ concat found) (remote_candidates a).

(** The part of [gather_srflx_candidates] after the receive. *)
Definition gather_srflx_response (tid : bytes) (local_addr : SocketAddr) (component : Z) (data : bytes) (a : IceAgent)
    : outcome (StunResult IceAgent) :=
  let! r := stun_parse data in
  match r with
  | Err e => Done (Err e)
  | Ok response =>
      if negb (bool_decide (transaction_id response = tid)) then Done (Err EParse)
      else if negb (bool_decide (class response = SuccessResponse)) then Done (Err EParse)
      else Done (Ok match get_mapped_address response with
                    | Some mapped => set_candidates a (local_candidates a ++ [new_srflx mapped local_addr component 65535])
                                       (remote_candidates a)
                    | None => a
                    end)
  end.

Definition gather_relay_candidates (relayed mapped : SocketAddr) (component : Z) (a : IceAgent) : IceAgent :=
  set_candidates a (local_candidates a ++ [new_relay relayed mapped component 65535]) (remote_candidates a).

(** ** The check list *)

(** [sort_by_key] with [Reverse]: stable, the highest first. *)
Fixpoint insert_pair (p : CandidatePair) (l : list CandidatePair) : list CandidatePair :=
  match l with
  | [] => [p]
  | q :: l' => if p_priority q <=? p_priority p then p :: l else q :: insert_pair p l'
  end.
Definition sort_pairs (l : list CandidatePair) : list CandidatePair := foldr insert_pair [] l.

Definition compatible (local remote : IceCandidate) : bool :=
  (component_id local =? component_id remote) && eq_ignore_ascii_case (transport local) (transport remote)
  && Bool.eqb (is_ipv4 (ic_ip local)) (is_ipv4 (ic_ip remote)).

Definition all_pairs (r : IceRole) (locals remotes : list IceCandidate) : list CandidatePair :=
  locals ≫= λ local, (λ remote, new_pair local remote r) <$> List.filter (compatible local) remotes.

Definition pair_key (p : CandidatePair) : SocketAddr * SocketAddr * Z :=
  (ic_address (p_local p), ic_address (p_remote p), component_id (p_local p)).

Fixpoint prune (seen : list (SocketAddr * SocketAddr * Z)) (l : list CandidatePair) : list CandidatePair :=
  match l with
  | [] => []
  | p :: l' => if bool_decide (pair_key p ∈ seen) then prune seen l' else p :: prune (pair_key p :: seen) l'
  end.
Definition prune_check_list (l : list CandidatePair) : list CandidatePair := prune [] l.

Definition foundation_key (p : CandidatePair) : str := foundation (p_local p) ++ chr ":" :: foundation (p_remote p).

Fixpoint initial_states (seen : list str) (l : list CandidatePair) : list CandidatePair :=
  match l with
  | [] => []
  | p :: l' =>
      (if bool_decide (foundation_key p ∈ seen) then p else set_pair_state p Waiting)
      :: initial_states (foundation_key p :: seen) l'
  end.

Definition form_check_list (a : IceAgent) : IceAgent :=
  set_check_list a
    (initial_states [] (prune_check_list (sort_pairs (all_pairs (role a) (local_candidates a) (remote_candidates a))))).

Definition start_checking (a : IceAgent) : IceAgent :=
  if bool_decide (ice_state a = Gathering ∨ ice_state a = Idle)
  then set_ice_state (form_check_list a) Checking else a.

(** ** Checks *)

Definition ice_username (x y : str) : str := x ++ chr ":" :: y.

Definition build_check_request (tid : bytes) (a : IceAgent) (p : CandidatePair) : StunMessage :=
  mkStun Binding StunRequest tid
    ([Username (ice_username (remote_ufrag a) (local_ufrag a));
      Priority (compute_priority CPeerReflexive 65535 (component_id (p_local p)))]
     ++ match role a with
        | Controlling =>
            IceControlling (tie_breaker a) :: (if bool_decide (nomination a = Aggressive) then [UseCandidate] else [])
        | Controlled => [IceControlled (tie_breaker a)]
        end).

Definition update_state (a : IceAgent) : IceAgent :=
  if forallb (λ c, bool_decide (is_Some (nominated_pairs a !! c))) (components_of a)
  then set_ice_state a IceCompleted
  else
    let done p := bool_decide (p_state p = Succeeded ∨ p_state p = Failed) in
    if forallb done (check_list a) && negb (existsb (λ p, bool_decide (p_state p = Succeeded)) (check_list a))
    then set_ice_state a IceFailed else a.

(** The statements that nominate the pair at [idx]. *)
Definition nominate_at (idx : nat) (a : IceAgent) : IceAgent :=
  let a := set_check_list a (alter set_nominated idx (check_list a)) in
  match check_list a !! idx with
  | Some p => update_state (set_results a (<[component_id (p_local p) := p]> (nominated_pairs a)) (valid_pairs a))
  | None => a
  end.

Definition nominate (idx : nat) (a : IceAgent) : IceAgent :=
  match check_list a !! idx with
  | Some p => if bool_decide (p_state p = Succeeded) then nominate_at idx a else a
  | None => a
  end.

Definition position {A} (f : A → bool) (l : list A) : option nat := fst <$> list_find (λ x, Is_true (f x)) l.

Definition handle_triggered_check (source local_addr : SocketAddr) (request : StunMessage) (a : IceAgent)
    : IceAgent * option nat :=
  let existing := position (λ p, bool_decide (ic_address (p_remote p) = source)
                                 && bool_decide (ic_address (p_local p) = local_addr)) (check_list a) in
  match existing with
  | Some idx =>
      (set_check_list a (alter (λ p, if bool_decide (p_state p = Frozen) then set_pair_state p Waiting else p) idx
                           (check_list a)), Some idx)
  | None =>
      let component := from_option component_id COMPONENT_RTP
                         (List.find (λ c, bool_decide (ic_address c = local_addr)) (local_candidates a)) in
      let prflx_priority := from_option id (compute_priority CPeerReflexive 65535 component) (stun_priority request) in
      let remote := new_prflx source source component prflx_priority in
      let a := set_candidates a (local_candidates a) (remote_candidates a ++ [remote]) in
      match List.find (λ c, bool_decide (ic_address c = local_addr) && (component_id c =? component)) (local_candidates a) with
      | Some local =>
          (set_check_list a (check_list a ++ [set_pair_state (new_pair local remote (role a)) Waiting]),
           Some (length (check_list a)))
      | None => (a, None)
      end
  end.

(** The role conflict: the new role, and whether the answer is 487. *)
Definition conflict_controlling (request : StunMessage) (a : IceAgent) : IceAgent * bool :=
  match ice_controlling request with
  | Some remote_tb =>
      if bool_decide (role a = Controlling)
      then if remote_tb <=? tie_breaker a then (a, true) else (set_role a Controlled, false)
      else (a, false)
  | None => (a, false)
  end.
Definition conflict_controlled (request : StunMessage) (a : IceAgent) : IceAgent * bool :=
  match ice_controlled request with
  | Some remote_tb =>
      if bool_decide (role a = Controlled)
      then if remote_tb <=? tie_breaker a then (set_role a Controlling, false) else (a, true)
      else (a, false)
  | None => (a, false)
  end.

Definition process_incoming_check (request : StunMessage) (source local_addr : SocketAddr) (a : IceAgent)
    : IceAgent * StunMessage * option nat :=
  let tid := transaction_id request in
  let expected_username := ice_username (local_ufrag a) (remote_ufrag a) in
  if negb (bool_decide (stun_username request = Some expected_username))
  then (a, binding_error tid 401 (lit "Bad Username"), None)
  else
    let conflict := binding_error tid 487 (lit "Role Conflict") in
    let (a, refused) := conflict_controlling request a in
    if refused then (a, conflict, None)
    else
      let (a, refused) := conflict_controlled request a in
      if refused then (a, conflict, None)
      else
        let response := binding_response tid source in
        let (a, triggered_idx) := handle_triggered_check source local_addr request a in
        let a := match triggered_idx with
                 | Some idx => if has_use_candidate request then nominate idx a else a
                 | None => a
                 end in
        (a, response, triggered_idx).

Definition unfreeze_related (succeeded_idx : nat) (succeeded : CandidatePair) (a : IceAgent) : IceAgent :=
  set_check_list a
    (imap (λ i p, if bool_decide (i ≠ succeeded_idx ∧ p_state p = Frozen
                                  ∧ foundation (p_local p) = foundation (p_local succeeded))
                  then set_pair_state p Waiting else p) (check_list a)).

Definition other_role (r : IceRole) : IceRole := match r with Controlling => Controlled | Controlled => Controlling end.

Definition process_check_response (response : StunMessage) (idx : nat) (a : IceAgent) : IceAgent :=
  match check_list a !! idx with
  | None => a
  | Some old =>
      match class response with
      | SuccessResponse =>
          let pair := set_pair_state old Succeeded in
          let a := set_check_list a (<[idx := pair]> (check_list a)) in
          let a := set_results a (nominated_pairs a) (valid_pairs a ++ [pair]) in
          let a := match get_mapped_address response with
                   | Some mapped =>
                       if negb (bool_decide (mapped = ic_address (p_local pair)))
                          && negb (existsb (λ c, bool_decide (ic_address c = mapped)) (local_candidates a))
                       then set_candidates a
                              (local_candidates a
                               ++ [new_prflx mapped (ic_address (p_local pair)) (component_id (p_local pair))
                                     (ic_priority (p_local pair))])
                              (remote_candidates a)
                       else a
                   | None => a
                   end in
          let a := if bool_decide (nomination a = Aggressive ∧ role a = Controlling)
                   then set_results (set_check_list a (alter set_nominated idx (check_list a)))
                          (<[component_id (p_local pair) := pair]> (nominated_pairs a)) (valid_pairs a)
                   else a in
          update_state (unfreeze_related idx pair a)
      | ErrorResponse =>
          match error_code response with
          | Some (code, _) =>
              if code =? 487
              then set_check_list (set_role a (other_role (role a))) (<[idx := set_pair_state old Waiting]> (check_list a))
              else update_state (set_check_list a (<[idx := set_pair_state old Failed]> (check_list a)))
          | None => update_state (set_check_list a (<[idx := set_pair_state old Failed]> (check_list a)))
          end
      | StunRequest | Indication => a
      end
  end.

Definition next_check_pair (a : IceAgent) : IceAgent * option nat :=
  match position (λ p, bool_decide (p_state p = Waiting)) (check_list a) with
  | Some i => (a, Some i)
  | None =>
      match position (λ p, bool_decide (p_state p = Frozen)) (check_list a) with
      | Some i => (set_check_list a (alter (λ p, set_pair_state p Waiting) i (check_list a)), Some i)
      | None => (a, None)
      end
  end.

Definition mark_in_progress (idx : nat) (tid : bytes) (a : IceAgent) : IceAgent :=
  set_check_list a (alter (set_in_progress tid) idx (check_list a)).

Definition find_pair_by_transaction (tid : bytes) (a : IceAgent) : option nat :=
  position (λ p, bool_decide (p_transaction_id p = Some tid)) (check_list a).

Definition nominated_pair (component : Z) (a : IceAgent) : option CandidatePair := nominated_pairs a !! component.

(** [max_by_key]: the last of the greatest. *)
Definition max_pair (best : option CandidatePair) (p : CandidatePair) : option CandidatePair :=
  match best with
  | Some b => if p_priority p <? p_priority b then best else Some p
  | None => Some p
  end.
Definition best_valid_pair (component : Z) (a : IceAgent) : option CandidatePair :=
  foldl max_pair None (List.filter (λ p, component_id (p_local p) =? component) (valid_pairs a)).

(** ** The transport *)

(** A socket is the address it is bound to. *)
Record IceRtpTransport := mkTransport {
  agent : IceAgent; rtp_socket : option SocketAddr; rtcp_socket : option SocketAddr;
  stun_server : option SocketAddr; ice_enabled : bool; fallback_addr : option SocketAddr;
  active_remote_addr : option SocketAddr; active_remote_rtcp_addr : option SocketAddr }.

Definition set_agent (t : IceRtpTransport) (a : IceAgent) : IceRtpTransport :=
  mkTransport a (rtp_socket t) (rtcp_socket t) (stun_server t) (ice_enabled t) (fallback_addr t)
    (active_remote_addr t) (active_remote_rtcp_addr t).

Definition transport_new (rnd : IceRandom) (m : IceMode) (r : IceRole) : IceRtpTransport :=
  mkTransport (agent_new rnd m r 1) None None None true None None None.
Definition transport_new_with_rtcp (rnd : IceRandom) (m : IceMode) (r : IceRole) : IceRtpTransport :=
  mkTransport (agent_new rnd m r 2) None None None true None None None.

Definition disable_ice (t : IceRtpTransport) : IceRtpTransport :=
  mkTransport (agent t) (rtp_socket t) (rtcp_socket t) (stun_server t) false (fallback_addr t)
    (active_remote_addr t) (active_remote_rtcp_addr t).
Definition set_stun_server (s : SocketAddr) (t : IceRtpTransport) : IceRtpTransport :=
  mkTransport (agent t) (rtp_socket t) (rtcp_socket t) (Some s) (ice_enabled t) (fallback_addr t)
    (active_remote_addr t) (active_remote_rtcp_addr t).
Definition set_rtp_socket (s : SocketAddr) (t : IceRtpTransport) : IceRtpTransport :=
  mkTransport (agent t) (Some s) (rtcp_socket t) (stun_server t) (ice_enabled t) (fallback_addr t)
    (active_remote_addr t) (active_remote_rtcp_addr t).
Definition set_rtcp_socket (s : SocketAddr) (t : IceRtpTransport) : IceRtpTransport :=
  mkTransport (agent t) (rtp_socket t) (Some s) (stun_server t) (ice_enabled t) (fallback_addr t)
    (active_remote_addr t) (active_remote_rtcp_addr t).
Definition set_fallback_addr (s : SocketAddr) (t : IceRtpTransport) : IceRtpTransport :=
  mkTransport (agent t) (rtp_socket t) (rtcp_socket t) (stun_server t) (ice_enabled t) (Some s)
    (active_remote_addr t) (active_remote_rtcp_addr t).

Definition effective_remote_addr (t : IceRtpTransport) : option SocketAddr :=
  if ice_enabled t then from_option Some (fallback_addr t) (active_remote_addr t) else fallback_addr t.

(** [srflx] is the transaction id and the answer of the STUN server, [relay] what
    the TURN client allocated; a failure of either is only logged. *)
Definition gather_candidates (srflx : option (bytes * bytes)) (relay : option (SocketAddr * SocketAddr))
    (t : IceRtpTransport) : outcome IceRtpTransport :=
  if negb (ice_enabled t) then Done t
  else
    let a := match rtp_socket t with Some local => gather_host_candidates [local] (agent t) | None => agent t end in
    let a := match rtcp_socket t with
             | Some local => if 2 <=? num_components a
                             then set_candidates a (local_candidates a ++ [new_host local COMPONENT_RTCP 65535])
                                    (remote_candidates a)
                             else a
             | None => a
             end in
    let! a := match stun_server t, rtp_socket t, srflx with
              | Some _, Some local, Some (tid, data) =>
                  let! r := gather_srflx_response tid local COMPONENT_RTP data a in
                  Done (match r with Ok a' => a' | Err _ => a end)
              | _, _, _ => Done a
              end in
    Done (set_agent t match relay with
                      | Some (relayed, mapped) => gather_relay_candidates relayed mapped COMPONENT_RTP a
                      | None => a
                      end).

Definition start_checks (t : IceRtpTransport) : IceRtpTransport :=
  if negb (ice_enabled t) then t else set_agent t (start_checking (agent t)).

Definition apply_nominated_pair (t : IceRtpTransport) : IceRtpTransport :=
  let remote c := (λ p, ic_address (p_remote p)) <$> nominated_pair c (agent t) in
  mkTransport (agent t) (rtp_socket t) (rtcp_socket t) (stun_server t) (ice_enabled t) (fallback_addr t)
    (from_option Some (active_remote_addr t) (remote COMPONENT_RTP))
    (from_option Some (active_remote_rtcp_addr t) (remote COMPONENT_RTCP)).

Definition apply_if_completed (t : IceRtpTransport) : IceRtpTransport :=
  if bool_decide (ice_state (agent t) = IceCompleted) then apply_nominated_pair t else t.

(** What the wait of a check ends with. *)
Inductive Received := Datagram (data : bytes) | RecvError | Elapsed.

(** [None]: no check to send.  Otherwise the pair, the destination and the octets. *)
Definition Begun : Type := option (nat * SocketAddr * bytes).

Definition timed_out (p : CandidatePair) : CandidatePair :=
  let n := wrap_u32 (retransmissions p + 1) in
  mkPair (p_local p) (p_remote p) (p_priority p) (if MAX_CHECK_RETRANSMISSIONS <=? n then Failed else Waiting)
    (nominated p) (p_transaction_id p) n.

Section transport.
Context `{StunCrypto}.

(** [run_check_cycle] up to the send. *)
Definition check_begin (tid : bytes) (t : IceRtpTransport) : outcome (IceRtpTransport * Begun) :=
  if negb (ice_enabled t) || negb (bool_decide (ice_state (agent t) = Checking)) then Done (t, None)
  else
    match rtp_socket t with
    | None => Done (t, None)
    | Some _ =>
        let (a, next) := next_check_pair (agent t) in
        let t := set_agent t a in
        match next with
        | None => Done (t, None)
        | Some pair_idx =>
            match check_list a !! pair_idx with
            | None => Panic
            | Some p =>
                let! bytes := to_bytes_with_integrity_and_fingerprint (build_check_request tid a p)
                                (as_bytes (remote_pwd a)) in
                Done (t, Some (pair_idx, ic_address (p_remote p), bytes))
            end
        end
    end.

(** The rest of it, after a send that succeeded. *)
Definition check_end (tid : bytes) (pair_idx : nat) (received : Received) (t : IceRtpTransport)
    : outcome (IceRtpTransport * StunResult bool) :=
  let a := mark_in_progress pair_idx tid (agent t) in
  let finish a :=
    let t := apply_if_completed (set_agent t a) in
    Done (t, Ok (existsb (λ p, bool_decide (p_state p = Waiting ∨ p_state p = Frozen)) (check_list (agent t)))) in
  match received with
  | Datagram data =>
      if is_stun_message data
      then
        let! r := stun_parse data in
        match r with
        | Err e => Done (set_agent t a, Err e)
        | Ok response =>
            finish match find_pair_by_transaction (transaction_id response) a with
                   | Some idx => process_check_response response idx a
                   | None => a
                   end
        end
      else finish a
  | RecvError => finish (set_check_list a (alter (λ p, set_pair_state p Failed) pair_idx (check_list a)))
  | Elapsed => finish (set_check_list a (alter timed_out pair_idx (check_list a)))
  end.

Definition run_check_cycle (tid : bytes) (sent : bool) (received : Received) (t : IceRtpTransport)
    : outcome (IceRtpTransport * StunResult bool) :=
  let! (t, begun) := check_begin tid t in
  match begun with
  | None => Done (t, Ok false)
  | Some (pair_idx, _, _) => if sent then check_end tid pair_idx received t else Done (t, Err EIo)
  end.

(** The new state and what is sent, with its destination. *)
Definition process_incoming_stun (data : bytes) (source : SocketAddr) (t : IceRtpTransport)
    : outcome (IceRtpTransport * list (SocketAddr * bytes) * StunResult ()) :=
  if negb (ice_enabled t) then Done (t, [], Ok tt)
  else
    let! r := stun_parse data in
    match r with
    | Err e => Done (t, [], Err e)
    | Ok msg =>
        match class msg with
        | StunRequest =>
            let! v := verify_integrity msg data (as_bytes (local_pwd (agent t))) in
            match v with
            | Err _ => Done (t, [], Ok tt)
            | Ok _ =>
                match rtp_socket t with
                | None => Done (t, [], Ok tt)
                | Some local_addr =>
                    let '(a, response, _) := process_incoming_check msg source local_addr (agent t) in
                    let! bytes := to_bytes_with_integrity_and_fingerprint response (as_bytes (local_pwd a)) in
                    Done (apply_if_completed (set_agent t a), [(source, bytes)], Ok tt)
                end
            end
        | SuccessResponse | ErrorResponse =>
            Done (match find_pair_by_transaction (transaction_id msg) (agent t) with
                  | Some idx => apply_if_completed (set_agent t (process_check_response msg idx (agent t)))
                  | None => t
                  end, [], Ok tt)
        | Indication => Done (t, [], Ok tt)
        end
    end.
End transport.

Definition is_completed (t : IceRtpTransport) : bool :=
  negb (ice_enabled t) || bool_decide (ice_state (agent t) = IceCompleted).
Definition is_failed (t : IceRtpTransport) : bool := bool_decide (ice_state (agent t) = IceFailed).

(** ** Lemmas: priorities *)

Lemma compute_priority_rfc t lp c :
  0 ≤ lp < 65536 → 1 ≤ c ≤ 256 →
  compute_priority t lp c = 2 ^ 24 * type_preference t + 2 ^ 8 * lp + (256 - c) ∧ 0 ≤ compute_priority t lp c < 2 ^ 31.
Proof.
  intros Hl Hc. unfold compute_priority. change 0xFFFF with (Z.ones 16). rewrite Z.land_ones by lia.
  rewrite (Z.mod_small lp) by lia. unfold wrap_u32. rewrite (Z.mod_small (256 - c)) by lia.
  rewrite lor_shiftl_add by (rewrite ?Z.shiftl_mul_pow2; lia). rewrite Z.shiftl_mul_pow2 by lia.
  replace (type_preference t * 2 ^ 24 + lp * 2 ^ 8) with (Z.shiftl (type_preference t * 2 ^ 16 + lp) 8)
    by (rewrite Z.shiftl_mul_pow2; lia).
  rewrite lor_shiftl_add by lia. assert (0 ≤ type_preference t ≤ 126) by (by destruct t). lia.
Qed.

Definition pair_priority_rfc (g d : Z) : Z := 2 ^ 32 * Z.min g d + 2 * Z.max g d + (if d <? g then 1 else 0).

(** No overflow when one of the two priorities is below [2^31]. *)
Lemma pair_priority_exact g d :
  0 ≤ g < 2 ^ 32 → 0 ≤ d < 2 ^ 32 → g < 2 ^ 31 ∨ d < 2 ^ 31 → pair_priority g d = pair_priority_rfc g d.
Proof.
  intros Hg Hd H. unfold pair_priority, wrap_u64, pair_priority_rfc. cbv zeta. apply Z.mod_small.
  destruct (Z.ltb_spec d g); lia.
Qed.

(** The order of the pairs: the smaller priority decides, then the greater, then
    whether the controlling agent has the greater. *)
Definition pair_before (g d g' d' : Z) : Prop :=
  Z.min g d < Z.min g' d'
  ∨ (Z.min g d = Z.min g' d' ∧ (Z.max g d < Z.max g' d' ∨ (Z.max g d = Z.max g' d' ∧ g ≤ d ∧ d' < g'))).

Lemma pair_priority_order g d g' d' :
  0 ≤ g < 2 ^ 31 → 0 ≤ d < 2 ^ 31 → 0 ≤ g' < 2 ^ 31 → 0 ≤ d' < 2 ^ 31 →
  pair_priority g d < pair_priority g' d' ↔ pair_before g d g' d'.
Proof.
  intros. rewrite !pair_priority_exact by lia. unfold pair_priority_rfc, pair_before.
  destruct (Z.ltb_spec d g), (Z.ltb_spec d' g'); lia.
Qed.

(** ** Lemmas: the check list *)

Definition by_priority (p q : CandidatePair) : Prop := p_priority q ≤ p_priority p.

Lemma insert_pair_perm p l : insert_pair p l ≡ₚ p :: l.
Proof.
  induction l as [|q l IH]; [done|]. cbn. destruct (_ <=? _); [done|]. rewrite IH. apply Permutation_swap.
Qed.
Lemma sort_pairs_perm l : sort_pairs l ≡ₚ l.
Proof. induction l as [|p l IH]; [done|]. cbn. by rewrite insert_pair_perm, IH. Qed.

Lemma insert_pair_sorted p l : StronglySorted by_priority l → StronglySorted by_priority (insert_pair p l).
Proof.
  induction 1 as [|q l Hs IH Hf]; [by repeat constructor|]. cbn. unfold by_priority in *. destruct (Z.leb_spec (p_priority q) (p_priority p)).
  - constructor; [by constructor|]. constructor; [done|]. eapply Forall_impl; [exact Hf|]. cbn. lia.
  - constructor; [done|]. rewrite insert_pair_perm. constructor; [lia|done].
Qed.
Lemma sort_pairs_sorted l : StronglySorted by_priority (sort_pairs l).
Proof. induction l as [|p l IH]; [constructor|]. by apply insert_pair_sorted. Qed.

Lemma prune_sublist seen l : sublist (prune seen l) l.
Proof.
  revert seen. induction l as [|p l IH]; intros seen; [constructor|]. cbn.
  destruct (bool_decide _); by constructor.
Qed.

Lemma prune_keys seen l : NoDup (pair_key <$> prune seen l) ∧ Forall (λ p, pair_key p ∉ seen) (prune seen l).
Proof.
  revert seen. induction l as [|p l IH]; intros seen; [by split; constructor|]. cbn.
  case_bool_decide as Hp; [done|]. destruct (IH (pair_key p :: seen)) as [Hn Hf]. cbn. split.
  - constructor; [|done]. intros (q & Hq & Hin)%list_elem_of_fmap. rewrite Forall_forall in Hf.
    destruct (Hf q Hin). rewrite Hq. left.
  - constructor; [done|]. eapply Forall_impl; [exact Hf|]. cbn. intros q Hq Hin. apply Hq. by right.
Qed.

(** Of the pairs with a key the first is kept. *)
Lemma prune_keeps seen l p :
  StronglySorted by_priority l → p ∈ l → pair_key p ∉ seen →
  ∃ q, q ∈ prune seen l ∧ pair_key q = pair_key p ∧ by_priority q p.
Proof.
  intros Hs. revert seen. induction Hs as [|r l Hs IH Hf]; intros seen Hin Hseen; [by apply not_elem_of_nil in Hin|].
  cbn. apply elem_of_cons in Hin. destruct (decide (pair_key r = pair_key p)) as [E|Hne].
  - rewrite bool_decide_false by (by rewrite E). exists r. split; [left|]. split; [done|].
    destruct Hin as [->|Hin]; [unfold by_priority; lia|]. rewrite Forall_forall in Hf. by apply Hf.
  - destruct Hin as [->|Hin]; [done|]. case_bool_decide.
    + by apply IH.
    + destruct (IH (pair_key r :: seen) Hin) as (q & Hq & Hk); [by intros [?|?]%elem_of_cons|].
      exists q. split; [by right|done].
Qed.

(** [initial_states] only sets states, and the first of each foundation to [Waiting]. *)
Lemma initial_states_lookup seen l i p :
  initial_states seen l !! i = Some p →
  ∃ q, l !! i = Some q ∧ foundation_key p = foundation_key q
    ∧ ((p = set_pair_state q Waiting ∧ foundation_key q ∉ seen ++ (foundation_key <$> take i l))
       ∨ (p = q ∧ foundation_key q ∈ seen ++ (foundation_key <$> take i l))).
Proof.
  revert seen i. induction l as [|r l IH]; intros seen i; [done|]. destruct i as [|i]; cbn.
  - intros [= <-]. exists r. rewrite app_nil_r. case_bool_decide; (split; [done|]; split; [done|]); [by right|by left].
  - intros H. destruct (IH _ _ H) as (q & Hq & Hk & Hs). exists q. split; [done|]. split; [done|].
    assert (Hiff : foundation_key q ∈ seen ++ foundation_key r :: (foundation_key <$> take i l)
      ↔ foundation_key q ∈ (foundation_key r :: seen) ++ (foundation_key <$> take i l))
      by (rewrite !elem_of_app, !elem_of_cons; tauto).
    by rewrite Hiff.
Qed.

Definition core (p : CandidatePair) : IceCandidate * IceCandidate * Z := (p_local p, p_remote p, p_priority p).

Lemma initial_states_core seen l : core <$> initial_states seen l = core <$> l.
Proof.
  revert seen. induction l as [|p l IH]; intros seen; [done|]. cbn. rewrite IH. by case_bool_decide.
Qed.

Lemma all_pairs_spec r locals remotes p :
  p ∈ all_pairs r locals remotes ↔
  ∃ local remote, local ∈ locals ∧ remote ∈ remotes ∧ compatible local remote = true ∧ p = new_pair local remote r.
Proof.
  unfold all_pairs. rewrite list_elem_of_bind. split.
  - intros (local & (remote & -> & Hr)%list_elem_of_fmap & Hl). rewrite list_elem_of_In, filter_In, <-list_elem_of_In in Hr.
    destruct Hr. by exists local, remote.
  - intros (local & remote & Hl & Hr & Hc & ->). exists local. split; [|done]. apply list_elem_of_fmap.
    exists remote. split; [done|]. by rewrite list_elem_of_In, filter_In, <-list_elem_of_In.
Qed.

(** ** Lemmas: the two agents' lists *)

Definition mirror (p : CandidatePair) : CandidatePair :=
  mkPair (p_remote p) (p_local p) (p_priority p) (p_state p) (nominated p) (p_transaction_id p) (retransmissions p).

Lemma mirror_new_pair local remote r : mirror (new_pair local remote r) = new_pair remote local (other_role r).
Proof. by destruct r. Qed.

Lemma eq_ignore_ascii_case_sym x y : eq_ignore_ascii_case x y = eq_ignore_ascii_case y x.
Proof. unfold eq_ignore_ascii_case, str_eqb. apply bool_decide_ext. done. Qed.

Lemma compatible_sym c d : compatible c d = compatible d c.
Proof.
  unfold compatible. rewrite Z.eqb_sym, eq_ignore_ascii_case_sym. f_equal.
  by destruct (is_ipv4 (ic_ip c)), (is_ipv4 (ic_ip d)).
Qed.

Lemma bind_app_perm {A B} (f g : A → list B) (l : list A) : (l ≫= λ x, f x ++ g x) ≡ₚ (l ≫= f) ++ (l ≫= g).
Proof. induction l as [|x l IH]; [done|]. cbn. rewrite IH. solve_Permutation. Qed.

Lemma bind_swap {A B C} (f : A → B → list C) (l : list A) (k : list B) :
  (l ≫= λ x, k ≫= f x) ≡ₚ (k ≫= λ y, l ≫= λ x, f x y).
Proof.
  induction l as [|x l IH]; cbn; [by induction k|]. by rewrite bind_app_perm, IH.
Qed.

Lemma fmap_of_bind {A B C} (f : B → C) (g : A → list B) (l : list A) : f <$> (l ≫= g) = l ≫= λ x, f <$> g x.
Proof. induction l as [|x l IH]; [done|]. cbn. by rewrite fmap_app, IH. Qed.

Lemma filter_fmap_bind {A B} (c : A → bool) (f : A → B) (l : list A) :
  f <$> List.filter c l = l ≫= λ x, if c x then [f x] else [].
Proof. induction l as [|x l IH]; [done|]. cbn. rewrite <-IH. by destruct (c x). Qed.

Lemma all_pairs_mirror r L R L' R' :
  L ≡ₚ R' → R ≡ₚ L' → mirror <$> all_pairs r L R ≡ₚ all_pairs (other_role r) L' R'.
Proof.
  intros HL HR. unfold all_pairs. rewrite HL, <-HR. clear HL HR L L'.
  transitivity (R' ≫= λ local, R ≫= λ remote, if compatible local remote then [new_pair remote local (other_role r)] else []).
  { rewrite fmap_of_bind. apply (reflexive_eq (R:=(≡ₚ))), list_bind_ext; [|done]. intros c.
    rewrite <-list_fmap_compose, filter_fmap_bind. apply list_bind_ext; [|done]. intros d. cbn.
    by rewrite mirror_new_pair. }
  rewrite bind_swap. apply (reflexive_eq (R:=(≡ₚ))), list_bind_ext; [|done]. intros c. rewrite filter_fmap_bind.
  apply list_bind_ext; [|done]. intros d. by rewrite compatible_sym.
Qed.

Lemma sort_pairs_unique l k :
  l ≡ₚ k → StronglySorted by_priority l → StronglySorted by_priority k → NoDup (p_priority <$> l) → l = k.
Proof.
  intros Hp Hl Hk Hn. apply (StronglySorted_unique_strong by_priority); [|done..].
  intros p q Hin Hq H1 H2. rewrite <-Hp in Hq. apply list_elem_of_lookup in Hin as [i Hi], Hq as [j Hj].
  assert (i = j) as ->; [|congruence]. eapply NoDup_lookup; [exact Hn|..]; rewrite list_lookup_fmap.
  - by rewrite Hi.
  - rewrite Hj. cbn. f_equal. unfold by_priority in *. lia.
Qed.

Lemma fmap_sorted l : StronglySorted by_priority l → StronglySorted by_priority (mirror <$> l).
Proof. induction 1; cbn; constructor; [done|]. by apply Forall_fmap. Qed.

Definition swap_key (k : SocketAddr * SocketAddr * Z) : SocketAddr * SocketAddr * Z := (k.1.2, k.1.1, k.2).

Lemma swap_key_inj : Inj (=) (=) swap_key.
Proof. intros [[]] [[]] [= -> -> ->]. done. Qed.

Lemma prune_mirror seen l :
  Forall (λ p, component_id (p_local p) = component_id (p_remote p)) l →
  prune (swap_key <$> seen) (mirror <$> l) = mirror <$> prune seen l.
Proof.
  intros Hl. revert seen. induction Hl as [|p l Hp _ IH]; intros seen; [done|]. cbn.
  assert (E : pair_key (mirror p) = swap_key (pair_key p)) by (unfold pair_key, swap_key; cbn; by rewrite Hp).
  rewrite E. pose proof (list_elem_of_fmap_inj (Inj0:=swap_key_inj) swap_key seen (pair_key p)) as Hiff.
  rewrite (bool_decide_ext _ _ Hiff). case_bool_decide; [done|]. cbn. f_equal. apply (IH (pair_key p :: seen)).
Qed.

Lemma core_fmap {B} (f : CandidatePair → B) g (l k : list CandidatePair) :
  (∀ p, f p = g (core p)) → core <$> l = core <$> k → f <$> l = f <$> k.
Proof.
  intros Hf E. transitivity (g <$> (core <$> l)); [|rewrite E]; rewrite <-list_fmap_compose; by apply list_fmap_ext.
Qed.

Lemma sorted_priorities l : StronglySorted by_priority l ↔ StronglySorted (λ x y, y ≤ x) (p_priority <$> l).
Proof.
  split.
  - induction 1; cbn; constructor; [done|]. by apply Forall_fmap.
  - induction l as [|p l IH]; cbn; [constructor|]. intros [Hs Hf]%StronglySorted_inv. constructor; [by apply IH|].
    rewrite Forall_fmap in Hf. exact Hf.
Qed.

Lemma sorted_sublist l k : sublist l k → StronglySorted by_priority k → StronglySorted by_priority l.
Proof.
  induction 1 as [|p l k Hsub IH|p l k Hsub IH]; intros Hk; [constructor|..]; apply StronglySorted_inv in Hk as [Hs Hf].
  - constructor; [by apply IH|]. rewrite Forall_forall in Hf. apply Forall_forall. intros q Hq. apply Hf. by eapply elem_of_sublist.
  - by apply IH.
Qed.

(** ** Theorems: priorities and check lists *)

(** Priorities are those of RFC 8445.  With a local preference of 16 bits and a component
    from 1 to 256 a candidate's priority is the formula of section 5.1.2.1, below
    [2^31]; below that bound a pair's priority is the formula of section 6.1.2.3
    without overflow, it orders pairs by the smaller of the two priorities, then by
    the greater, then for the controlling agent, and both agents compute the same. *)
Theorem ice_priorities (t : CandidateType) (lp c g d g' d' : Z) (local remote : IceCandidate) :
  0 ≤ lp < 2 ^ 16 → 1 ≤ c ≤ 256 →
  0 ≤ g < 2 ^ 31 → 0 ≤ d < 2 ^ 31 → 0 ≤ g' < 2 ^ 31 → 0 ≤ d' < 2 ^ 31 →
  compute_priority t lp c = 2 ^ 24 * type_preference t + 2 ^ 8 * lp + (256 - c)
  ∧ 0 ≤ compute_priority t lp c < 2 ^ 31
  ∧ pair_priority g d = 2 ^ 32 * Z.min g d + 2 * Z.max g d + (if d <? g then 1 else 0)
  ∧ (pair_priority g d < pair_priority g' d' ↔ pair_before g d g' d')
  ∧ p_priority (new_pair local remote Controlling) = p_priority (new_pair remote local Controlled).
Proof.
  intros Hl Hc Hg Hd Hg' Hd'. destruct (compute_priority_rfc t lp c Hl Hc) as [E B]. split; [exact E|]. split; [exact B|].
  split; [apply pair_priority_exact; lia|]. split; [by apply pair_priority_order|done].
Qed.

(** The check list.  It is sorted by priority; no two pairs join the same addresses for
    the same component; every compatible local and remote candidate are joined by a
    pair of at least their priority, and every pair joins two such; and exactly the
    first pair of each foundation waits, the others are frozen. *)
Theorem check_list_formed (a : IceAgent) :
  let l := check_list (form_check_list a) in
  StronglySorted by_priority l ∧ NoDup (pair_key <$> l)
  ∧ (∀ local remote, local ∈ local_candidates a → remote ∈ remote_candidates a → compatible local remote = true →
       ∃ p, p ∈ l ∧ pair_key p = (ic_address local, ic_address remote, component_id local)
         ∧ p_priority (new_pair local remote (role a)) ≤ p_priority p)
  ∧ (∀ p, p ∈ l → ∃ local remote, local ∈ local_candidates a ∧ remote ∈ remote_candidates a
       ∧ compatible local remote = true ∧ core p = core (new_pair local remote (role a)))
  ∧ ∀ i p, l !! i = Some p →
      p_state p = (if bool_decide (foundation_key p ∈ foundation_key <$> take i l) then Frozen else Waiting).
Proof.
  set (ap := all_pairs (role a) (local_candidates a) (remote_candidates a)).
  set (k := prune_check_list (sort_pairs ap)). intros l. assert (El : l = initial_states [] k) by done.
  assert (Hcore : core <$> l = core <$> k) by (rewrite El; apply initial_states_core).
  pose proof (prune_sublist [] (sort_pairs ap)) as Hsub. fold (prune_check_list (sort_pairs ap)) in Hsub. fold k in Hsub.
  destruct (prune_keys [] (sort_pairs ap)) as [Hnd _]. fold (prune_check_list (sort_pairs ap)) in Hnd. fold k in Hnd.
  assert (Hin : ∀ p, p ∈ l → ∃ q, q ∈ k ∧ core p = core q).
  { intros p Hp. assert (Hc : core p ∈ core <$> k) by (rewrite <-Hcore; by apply list_elem_of_fmap_2).
    apply list_elem_of_fmap in Hc as (q & E & Hq). by exists q. }
  split; [|split; [|split; [|split]]].
  - apply sorted_priorities. rewrite (core_fmap p_priority snd l k) by done. apply sorted_priorities.
    eapply sorted_sublist, sort_pairs_sorted. exact Hsub.
  - rewrite (core_fmap pair_key (λ c, (ic_address c.1.1, ic_address c.1.2, component_id c.1.1)) l k) by done. exact Hnd.
  - intros local remote Hl Hr Hc. set (p := new_pair local remote (role a)).
    destruct (prune_keeps [] (sort_pairs ap) p) as (q & Hq & Hk & Hb); [apply sort_pairs_sorted| |by apply not_elem_of_nil|].
    { rewrite sort_pairs_perm. apply all_pairs_spec. by exists local, remote. }
    assert (Hc' : core q ∈ core <$> l) by (rewrite Hcore; by apply list_elem_of_fmap_2).
    apply list_elem_of_fmap in Hc' as (q' & E & Hq'). injection E as E1 E2 E3. exists q'. split; [done|].
    unfold pair_key in *. rewrite <-E1, <-E2, Hk. split; [by destruct (role a)|]. unfold by_priority in Hb. lia.
  - intros p Hp. destruct (Hin p Hp) as (q & Hq & E). apply (λ H, elem_of_sublist _ _ _ H Hsub) in Hq.
    rewrite sort_pairs_perm in Hq. apply all_pairs_spec in Hq as (local & remote & Hl & Hr & Hc & ->). by exists local, remote.
  - intros i p Hp. rewrite El in Hp. destruct (initial_states_lookup _ _ _ _ Hp) as (q & Hq & Hk & Hs).
    assert (Ef : foundation_key <$> take i l = foundation_key <$> take i k).
    { rewrite !fmap_take. f_equal.
      by apply (core_fmap _ (λ c, foundation c.1.1 ++ chr ":" :: foundation c.1.2)). }
    rewrite Ef, Hk. cbn [app] in Hs. destruct Hs as [[-> Hn]|[-> Hy]].
    + by rewrite bool_decide_false.
    + rewrite bool_decide_true by done. apply list_elem_of_lookup_2 in Hq. apply (λ H, elem_of_sublist _ _ _ H Hsub) in Hq.
      rewrite sort_pairs_perm in Hq. apply all_pairs_spec in Hq as (local & remote & _ & _ & _ & ->). by destruct (role a).
Qed.

(** The two agents check the same pairs in the same order.  When each has the
    candidates the other one gathered, in any order, the roles are opposite and no
    two pairs have the same priority, the check list of one is the check list of the
    other with the sides swapped. *)
Theorem check_lists_agree (a b : IceAgent) :
  role b = other_role (role a) →
  local_candidates a ≡ₚ remote_candidates b → remote_candidates a ≡ₚ local_candidates b →
  NoDup (p_priority <$> all_pairs (role a) (local_candidates a) (remote_candidates a)) →
  (λ p, (p_remote p, p_local p, p_priority p)) <$> check_list (form_check_list a)
  = (λ p, (p_local p, p_remote p, p_priority p)) <$> check_list (form_check_list b).
Proof.
  intros Hr HL HR Hn. unfold form_check_list. cbn [check_list set_check_list].
  set (pa := all_pairs (role a) _ _) in *. set (pb := all_pairs (role b) _ _).
  assert (Hp : mirror <$> pa ≡ₚ pb) by (unfold pb; rewrite Hr; by apply all_pairs_mirror).
  assert (Hs : mirror <$> sort_pairs pa = sort_pairs pb).
  { apply sort_pairs_unique.
    - by rewrite !sort_pairs_perm.
    - apply fmap_sorted, sort_pairs_sorted.
    - apply sort_pairs_sorted.
    - rewrite <-list_fmap_compose. change (p_priority ∘ mirror) with p_priority. by rewrite sort_pairs_perm. }
  rewrite (core_fmap (λ p, (p_remote p, p_local p, p_priority p)) (λ c, (c.1.2, c.1.1, c.2)) _ _ (λ _, eq_refl)
    (initial_states_core [] (prune_check_list (sort_pairs pa)))).
  etransitivity; [|symmetry; apply initial_states_core]. rewrite <-Hs. unfold prune_check_list.
  pose proof (prune_mirror [] (sort_pairs pa)) as Hm. rewrite fmap_nil in Hm. rewrite Hm.
  - rewrite <-list_fmap_compose. done.
  - apply Forall_forall. intros p Hin. rewrite sort_pairs_perm in Hin.
    apply all_pairs_spec in Hin as (l & r & _ & _ & Hc & ->). unfold compatible in Hc.
    apply andb_true_iff in Hc as [[Hc _]%andb_true_iff _]. apply Z.eqb_eq in Hc. by destruct (role a).
Qed.

(** ** Lemmas: the checks still to do *)

(** How often a pair can still be checked. *)
Definition weight (p : CandidatePair) : nat :=
  match p_state p with
  | Waiting | Frozen => Z.to_nat (Z.max 1 (MAX_CHECK_RETRANSMISSIONS - retransmissions p))
  | _ => 0
  end.
Definition potential (l : list CandidatePair) : nat := sum_list_with weight l.
Definition pair_ok (p : CandidatePair) : Prop := weight p ≠ 0%nat → 0 ≤ retransmissions p ≤ MAX_CHECK_RETRANSMISSIONS.

Lemma potential_alter f i l p :
  l !! i = Some p → (potential (alter f i l) + weight p = potential l + weight (f p))%nat.
Proof.
  unfold potential. revert i. induction l as [|q l IH]; intros i; [done|]. destruct i as [|i]; cbn.
  - intros [= ->]. lia.
  - intros H. specialize (IH _ H). change (list_alter f i l) with (alter f i l). lia.
Qed.

Lemma potential_insert i l p q : l !! i = Some p → (potential (<[i := q]> l) + weight p = potential l + weight q)%nat.
Proof. rewrite list_insert_alter. apply potential_alter. Qed.

Lemma potential_imap f l : (∀ i p, weight (f i p) = weight p) → potential (imap f l) = potential l.
Proof.
  intros Hf. unfold potential. revert f Hf. induction l as [|p l IH]; intros f Hf; [done|]. cbn. rewrite Hf. f_equal.
  apply (IH (f ∘ S)). intros i q. apply Hf.
Qed.

Lemma potential_bound l : Forall pair_ok l → (potential l ≤ 7 * length l)%nat.
Proof.
  unfold potential. induction 1 as [|p l Hp _ IH]; [done|]. cbn. assert (weight p ≤ 7)%nat; [|lia].
  destruct (decide (weight p = 0%nat)) as [->|Hne]; [lia|]. specialize (Hp Hne).
  unfold weight, MAX_CHECK_RETRANSMISSIONS in *. destruct (p_state p); lia.
Qed.

Lemma Forall_insert_weak {A} (P : A → Prop) i x l : Forall P l → P x → Forall P (<[i := x]> l).
Proof.
  intros Hl Hx. apply Forall_forall. intros y [j Hj]%list_elem_of_lookup. apply list_lookup_insert_Some in Hj.
  rewrite Forall_lookup in Hl. destruct Hj as [(_ & -> & _)|[_ Hj]]; [done|]. by eapply Hl.
Qed.

Lemma alter_none {A} (f : A → A) i (l : list A) : l !! i = None → alter f i l = l.
Proof. revert i. induction l as [|x l IH]; intros [|i] H; [done..|]. cbn. f_equal. by apply IH. Qed.

Lemma Forall_alter_weak {A} (P : A → Prop) f i l : Forall P l → (∀ x, l !! i = Some x → P (f x)) → Forall P (alter f i l).
Proof. intros Hl Hf. apply Forall_alter; [done|]. intros x Hx _. by apply Hf. Qed.

(** A list whose pairs are done with or have time left, and no more to do than [n]. *)
Definition at_most (n : nat) (l : list CandidatePair) : Prop := Forall pair_ok l ∧ (potential l ≤ n)%nat.

Lemma weightless_ok p : weight p = 0%nat → pair_ok p.
Proof. by intros H Hne. Qed.

Lemma at_most_insert n i l q : weight q = 0%nat → at_most n l → at_most n (<[i := q]> l).
Proof.
  intros Hq [Hf Hn]. split; [apply Forall_insert_weak; [done|by apply weightless_ok]|].
  destruct (l !! i) as [p|] eqn:Hi.
  - pose proof (potential_insert i l p q Hi). lia.
  - by rewrite list_insert_alter, alter_none.
Qed.

Lemma at_most_alter n f i l : (∀ p, weight (f p) = weight p ∧ retransmissions (f p) = retransmissions p) →
  at_most n l → at_most n (alter f i l).
Proof.
  intros Hw [Hf Hn]. split.
  - apply Forall_alter_weak; [done|]. intros p Hp. unfold pair_ok. destruct (Hw p) as [-> ->]. by eapply Forall_lookup in Hf.
  - destruct (l !! i) as [p|] eqn:Hi.
    + pose proof (potential_alter f i l p Hi). pose proof (Hw p). lia.
    + by rewrite alter_none.
Qed.

Lemma at_most_imap n f l :
  (∀ i p, weight (f i p) = weight p ∧ retransmissions (f i p) = retransmissions p) → at_most n l → at_most n (imap f l).
Proof.
  intros Hf [Hl Hn]. split.
  - apply Forall_lookup. intros i p Hp. rewrite list_lookup_imap in Hp. destruct (l !! i) as [q|] eqn:Hq; [|done].
    injection Hp as <-. unfold pair_ok. destruct (Hf i q) as [-> ->]. by eapply Forall_lookup in Hl.
  - rewrite potential_imap; [done|]. intros. apply Hf.
Qed.

Lemma update_state_list a : check_list (update_state a) = check_list a.
Proof. unfold update_state. destruct (forallb _ _); [done|]. by destruct (_ && _). Qed.

Lemma apply_if_completed_agent t : agent (apply_if_completed t) = agent t.
Proof. unfold apply_if_completed. by destruct (bool_decide _). Qed.

(** An error response that says 487. *)
Definition conflict_answer (m : StunMessage) : bool :=
  bool_decide (class m = ErrorResponse) && match error_code m with Some (c, _) => c =? 487 | None => false end.

Lemma response_at_most n m idx a :
  conflict_answer m = false → at_most n (check_list a) → at_most n (check_list (process_check_response m idx a)).
Proof.
  intros Hm Ha. unfold process_check_response. destruct (check_list a !! idx) as [old|] eqn:Hi; [|done].
  unfold conflict_answer in Hm. destruct (class m) eqn:Ec; try done.
  - clear Hm. rewrite update_state_list. unfold unfreeze_related. cbn [check_list set_check_list].
    apply at_most_imap; [intros i p; cbn beta; case_bool_decide as Hb; [|by split]; destruct Hb as (_ & Hs & _); (split; [|done]); unfold weight; cbn; by rewrite Hs|].
    assert (H1 : at_most n (<[idx := set_pair_state old Succeeded]> (check_list a))) by by apply at_most_insert.
    set (a1 := match get_mapped_address m with Some _ => _ | None => _ end).
    assert (E : check_list a1 = <[idx := set_pair_state old Succeeded]> (check_list a)).
    { unfold a1. destruct (get_mapped_address m); [|done]. by destruct (_ && _). }
    case_bool_decide; [|by rewrite E]. cbn [check_list set_check_list set_results]. rewrite E.
    by apply at_most_alter.
  - rewrite bool_decide_true in Hm by done. cbn [andb] in Hm. assert (H1 : at_most n (<[idx := set_pair_state old Failed]> (check_list a))) by by apply at_most_insert.
    destruct (error_code m) as [[c r]|]; [rewrite Hm|]; by rewrite update_state_list.
Qed.

(** ** Lemmas: one cycle *)

Lemma position_Some {A} (f : A → bool) l i : position f l = Some i → ∃ x, l !! i = Some x ∧ f x = true.
Proof.
  unfold position. intros ([j x] & Hf & ->)%fmap_Some. apply list_find_Some in Hf as (Hi & Hx & _).
  exists x. split; [done|]. by apply Is_true_true.
Qed.

Lemma position_None {A} (f : A → bool) l : position f l = None → Forall (λ x, f x = false) l.
Proof.
  unfold position. intros Hf%fmap_None. apply list_find_None in Hf. eapply Forall_impl; [exact Hf|]. cbn.
  intros x Hx. destruct (f x); [by destruct Hx|done].
Qed.

(** No pair is left to check. *)
Definition all_checked (l : list CandidatePair) : Prop := Forall (λ p, weight p = 0%nat) l.

Lemma next_check_pair_spec n a :
  at_most n (check_list a) →
  match next_check_pair a with
  | (a', Some idx) => ice_state a' = ice_state a ∧ at_most n (check_list a')
                      ∧ ∃ p, check_list a' !! idx = Some p ∧ p_state p = Waiting
  | (a', None) => a' = a ∧ all_checked (check_list a)
  end.
Proof.
  intros Ha. unfold next_check_pair. destruct (position _ (check_list a)) as [i|] eqn:E1.
  { apply position_Some in E1 as (p & Hp & Hs%bool_decide_eq_true). split; [done|]. split; [done|]. by exists p. }
  destruct (position _ (check_list a)) as [i|] eqn:E2 in |- *.
  - apply position_Some in E2 as (p & Hp & Hs%bool_decide_eq_true). split; [done|]. cbn [check_list set_check_list]. split.
    + destruct Ha as [Hf Hn]. assert (Hw : weight (set_pair_state p Waiting) = weight p) by (unfold weight; cbn; by rewrite Hs).
      split.
      * apply Forall_alter_weak; [done|]. intros q Hq. assert (q = p) as -> by congruence. unfold pair_ok. rewrite Hw.
        eapply Forall_lookup in Hf; [|exact Hp]. exact Hf.
      * pose proof (potential_alter (λ p, set_pair_state p Waiting) i _ p Hp). cbn beta in *. lia.
    + exists (set_pair_state p Waiting). split; [|done]. by rewrite list_lookup_alter_eq, Hp.
  - split; [done|]. apply position_None in E1, E2. apply Forall_forall. intros p Hp. rewrite Forall_forall in E1, E2.
    specialize (E1 p Hp). specialize (E2 p Hp). apply bool_decide_eq_false in E1, E2. unfold weight. by destruct (p_state p).
Qed.

Lemma all_checked_next a : all_checked (check_list a) → next_check_pair a = (a, None).
Proof.
  intros Hc. assert (Hn : ∀ s, s = Waiting ∨ s = Frozen → position (λ p, bool_decide (p_state p = s)) (check_list a) = None).
  { intros s Hs. destruct (position _ _) as [i|] eqn:E; [|done]. apply position_Some in E as (p & Hp & Hb%bool_decide_eq_true).
    eapply Forall_lookup in Hc; [|exact Hp]. unfold weight in Hc. rewrite Hb in Hc. destruct Hs as [-> | ->]; lia. }
  unfold next_check_pair. by rewrite !Hn by auto.
Qed.

(** A timeout costs the pair one of its checks. *)
Lemma timed_out_weight tid p :
  p_state p = Waiting → 0 ≤ retransmissions p ≤ 7 →
  let q := timed_out (set_in_progress tid p) in (weight q ≤ weight p - 1)%nat ∧ pair_ok q.
Proof.
  intros Hw Hr q. assert (Er : retransmissions q = retransmissions p + 1)
    by (unfold q, timed_out, wrap_u32; cbn; rewrite Z.mod_small; lia).
  assert (Es : p_state q = if 7 <=? retransmissions p + 1 then Failed else Waiting) by (rewrite <-Er; done).
  unfold pair_ok, weight. rewrite Hw, Er, Es. unfold MAX_CHECK_RETRANSMISSIONS.
  destruct (Z.leb_spec 7 (retransmissions p + 1)); split; lia.
Qed.

Section cycles.
Context `{StunCrypto}.

Definition idle (t : IceRtpTransport) : Prop := ∀ tid, check_begin tid t = Done (t, None).

Fixpoint run_cycles (evs : list (bytes * Received)) (t : IceRtpTransport) : outcome IceRtpTransport :=
  match evs with
  | [] => Done t
  | (tid, received) :: evs => let! (t, _) := run_check_cycle tid true received t in run_cycles evs t
  end.

(** No answer of 487. *)
Definition no_conflict (r : Received) : Prop :=
  match r with Datagram d => ∀ m, stun_parse d = Done (Ok m) → conflict_answer m = false | _ => True end.

Lemma idle_run t evs : idle t → run_cycles evs t = Done t.
Proof. intros Hi. induction evs as [|[tid r] evs IH]; [done|]. cbn. unfold run_check_cycle. by rewrite Hi. Qed.

Lemma set_length_returns len buf : (4 ≤ length buf)%nat → ∃ b, set_length len buf = Done b ∧ length b = length buf.
Proof.
  intros Hl. unfold set_length, bytes_to, bytes_from, bytes_range. rewrite !(proj2 (Nat.leb_le _ (length buf))) by lia.
  cbn [Nat.leb andb outcome_bind]. eexists. split; [done|]. rewrite !length_app, length_take, length_drop, length_be_bytes. lia.
Qed.

Lemma append_attribute_returns r buf :
  (4 ≤ length buf)%nat → ∃ b, append_attribute r buf = Done b ∧ (4 ≤ length b)%nat.
Proof.
  intros Hl. unfold append_attribute. destruct (set_length_returns (body_len (buf ++ raw_to_bytes r)) (buf ++ raw_to_bytes r))
    as (b & E & Hb); rewrite length_app in *; [lia|]. exists b. split; [done|lia].
Qed.

Lemma checked_bytes_return m key : returns (to_bytes_with_integrity_and_fingerprint m key).
Proof.
  unfold to_bytes_with_integrity_and_fingerprint, to_bytes_with_integrity.
  assert (H0 : (4 ≤ length (to_bytes m))%nat) by (unfold to_bytes; rewrite !length_app, !length_be_bytes; lia).
  destruct (set_length_returns ((body_len (to_bytes m) + 24) mod 65536) _ H0) as (b1 & -> & H1). cbn [outcome_bind].
  edestruct append_attribute_returns as (b2 & -> & H2); [by rewrite H1|]. cbn [outcome_bind]. unfold append_fingerprint.
  destruct (set_length_returns ((body_len b2 + 8) mod 65536) b2 H2) as (b3 & -> & H3). cbn [outcome_bind].
  edestruct append_attribute_returns as (b4 & -> & H4); [by rewrite H3|]. by eexists.
Qed.

(** A cycle has nothing to check, or leaves less to check. *)
Lemma cycle_progress n tid r t :
  no_conflict r → at_most n (check_list (agent t)) →
  idle t ∨ ∃ n' t' res, run_check_cycle tid true r t = Done (t', res) ∧ (n' < n)%nat ∧ at_most n' (check_list (agent t')).
Proof.
  intros Hr Ha. destruct (decide (ice_enabled t = true ∧ ice_state (agent t) = Checking ∧ is_Some (rtp_socket t)))
    as [(He & Hs & [sock Hsock])|Hno].
  2: { left. intros tid'. unfold check_begin. destruct (ice_enabled t); [|done]. cbn [negb orb]. case_bool_decide as Hs; [|done]. cbn [negb].
    destruct (rtp_socket t) eqn:E; [|done]. exfalso. apply Hno. split; [done|]. split; [done|]. by eexists. }
  pose proof (next_check_pair_spec n (agent t) Ha) as Hnext.
  destruct (next_check_pair (agent t)) as [a [idx|]] eqn:En.
  2: { left. intros tid'. unfold check_begin. rewrite He, bool_decide_true, Hsock, En by done. cbn.
    destruct Hnext as [-> _]. by destruct t. }
  right. destruct Hnext as (_ & Ha' & p & Hp & Hw). unfold run_check_cycle, check_begin.
  rewrite He, bool_decide_true, Hsock, En by done. cbn [negb orb]. rewrite Hp.
  destruct (checked_bytes_return (build_check_request tid a p) (as_bytes (remote_pwd a))) as [bs ->].
  cbn [outcome_bind]. unfold check_end. cbn [agent set_agent].
  set (b := mark_in_progress idx tid a). assert (Hb : check_list b = alter (set_in_progress tid) idx (check_list a)) by done.
  assert (Hpb : check_list b !! idx = Some (set_in_progress tid p)) by (rewrite Hb, list_lookup_alter_eq, Hp; done).
  assert (Hwp : (1 ≤ weight p)%nat) by (unfold weight; rewrite Hw; lia).
  assert (Hbn : at_most (n - weight p) (check_list b)).
  { rewrite Hb. destruct Ha' as [Hf Hn]. split; [apply Forall_alter_weak; [done|]; intros q _; by apply weightless_ok|].
    pose proof (potential_alter (set_in_progress tid) idx _ p Hp) as E. change (weight (set_in_progress tid p)) with 0%nat in E. lia. }
  assert (Hpn : (weight p ≤ n)%nat).
  { destruct Ha' as [_ Hn]. pose proof (potential_alter (set_in_progress tid) idx _ p Hp) as E.
    change (weight (set_in_progress tid p)) with 0%nat in E. lia. }
  assert (Hdone : ∀ c, at_most (n - weight p) (check_list c) → ∃ (n' : nat) t' res,
    Done (apply_if_completed (set_agent (set_agent t a) c), @Ok StunError _ (existsb (λ p, bool_decide (p_state p = Waiting ∨ p_state p = Frozen))
      (check_list (agent (apply_if_completed (set_agent (set_agent t a) c)))))) = Done (t', res)
    ∧ (n' < n)%nat ∧ at_most n' (check_list (agent t'))).
  { intros c Hc. eexists (n - weight p)%nat, _, _. split; [done|]. split; [lia|]. by rewrite apply_if_completed_agent. }
  destruct r as [data| |].
  - destruct (is_stun_message data); [|by apply Hdone]. destruct (stun_parse_returns data) as [res Hres].
    rewrite Hres. cbn [outcome_bind]. destruct res as [m|e].
    + apply Hdone. destruct (find_pair_by_transaction _ _) as [i|]; [|done]. apply response_at_most; [|done]. by apply Hr.
    + eexists (n - weight p)%nat, _, _. split; [done|]. split; [lia|done].
  - apply Hdone. cbn [check_list set_check_list].
    rewrite (list_alter_ext _ (λ _, set_pair_state (set_in_progress tid p) Failed) _ (check_list b)), <-list_insert_alter;
      [by apply at_most_insert| |done]. intros q Hq. by assert (q = set_in_progress tid p) as -> by congruence.
  - set (c := set_check_list b (alter timed_out idx (check_list b))).
    eexists (n - 1)%nat, _, _. split; [done|]. split; [lia|]. rewrite apply_if_completed_agent. cbn [agent set_agent].
    pose proof (potential_alter timed_out idx _ _ Hpb) as E. change (weight (set_in_progress tid p)) with 0%nat in E.
    assert (Hokp : pair_ok p) by (destruct Ha' as [Hf _]; by eapply Forall_lookup in Hf).
    specialize (Hokp ltac:(lia)). unfold MAX_CHECK_RETRANSMISSIONS in Hokp.
    assert (Ht : (weight (timed_out (set_in_progress tid p)) ≤ weight p - 1)%nat ∧ pair_ok (timed_out (set_in_progress tid p))).
    { by apply timed_out_weight. }
    destruct Hbn as [Hf Hn]. split; cbn [c check_list set_check_list].
    + apply Forall_alter_weak; [done|]. intros q Hq. assert (q = set_in_progress tid p) as -> by congruence. apply Ht.
    + lia.
Qed.

Lemma cycles_reach_idle evs n t :
  Forall (λ ev, no_conflict ev.2) evs → at_most n (check_list (agent t)) → (n ≤ length evs)%nat →
  ∃ t', run_cycles evs t = Done t' ∧ idle t'.
Proof.
  intros Hev. revert n t. induction Hev as [|[tid r] evs Hr _ IH]; intros n t Ha Hn.
  - destruct (cycle_progress n [] Elapsed t I Ha) as [Hi|(n' & _ & _ & _ & Hlt & _)]; [by exists t|]. cbn in Hn. lia.
  - destruct (cycle_progress n tid r t Hr Ha) as [Hi|(n' & t1 & res & E & Hlt & Ha1)].
    + exists t. split; [by apply idle_run|done].
    + cbn [run_cycles]. rewrite E. cbn [outcome_bind]. apply (IH n' t1 Ha1). cbn in Hn. lia.
Qed.

(** Not a datagram. *)
Definition silent (r : Received) : Prop := match r with Datagram _ => False | _ => True end.

Lemma silent_cycle tid r t t' res :
  silent r → run_check_cycle tid true r t = Done (t', res) → ice_state (agent t') = ice_state (agent t).
Proof.
  intros Hr. unfold run_check_cycle, check_begin.
  destruct (_ || _); [by intros [= <- _]|]. destruct (rtp_socket t); [|by intros [= <- _]].
  assert (Hn : ice_state (next_check_pair (agent t)).1 = ice_state (agent t)).
  { unfold next_check_pair. destruct (position _ _); [done|]. by destruct (position _ _). }
  destruct (next_check_pair (agent t)) as [a [idx|]]; [|by intros [= <- _]]. destruct (check_list a !! idx); [|done].
  destruct (checked_bytes_return (build_check_request tid a c) (as_bytes (remote_pwd a))) as [bs ->].
  cbn [outcome_bind]. unfold check_end. destruct r; [done|..]; intros [= <- _]; by rewrite apply_if_completed_agent.
Qed.

Lemma silent_run evs t t' :
  Forall (λ ev, silent ev.2) evs → run_cycles evs t = Done t' → ice_state (agent t') = ice_state (agent t).
Proof.
  intros Hev. revert t. induction Hev as [|[tid r] evs Hr _ IH]; intros t; cbn; [by intros [= ->]|].
  destruct (run_check_cycle tid true r t) as [[t1 res]|] eqn:E; [|done]. cbn. intros E2.
  rewrite (IH t1 E2). by eapply silent_cycle.
Qed.
End cycles.

(** ** Theorems: the checks *)

(** The checks end.  Whatever the socket delivers, except answers of 487, at most
    seven cycles for each pair of the check list leave the transport with nothing to
    check, and none of them panics. *)
Theorem check_cycles_end `{StunCrypto} (t : IceRtpTransport) (evs : list (bytes * Received)) :
  Forall (λ p, 0 ≤ retransmissions p ≤ MAX_CHECK_RETRANSMISSIONS) (check_list (agent t)) →
  Forall (λ ev, no_conflict ev.2) evs → (7 * length (check_list (agent t)) ≤ length evs)%nat →
  ∃ t', run_cycles evs t = Done t' ∧ ∀ tid, check_begin tid t' = Done (t', None).
Proof.
  intros Hr Hev Hn. eapply cycles_reach_idle; [done| |exact Hn].
  assert (Hok : Forall pair_ok (check_list (agent t))) by (eapply Forall_impl; [exact Hr|]; by intros p Hp _).
  split; [done|by apply potential_bound].
Qed.

(** When nothing is ever received the checks end and the agent stays in the state
    [Checking]: it has not completed and it has not failed. *)
Theorem unanswered_checks_never_fail `{StunCrypto} (t : IceRtpTransport) (evs : list (bytes * Received)) :
  ice_enabled t = true → ice_state (agent t) = Checking →
  Forall (λ p, 0 ≤ retransmissions p ≤ MAX_CHECK_RETRANSMISSIONS) (check_list (agent t)) →
  Forall (λ ev, silent ev.2) evs → (7 * length (check_list (agent t)) ≤ length evs)%nat →
  ∃ t', run_cycles evs t = Done t' ∧ (∀ tid, check_begin tid t' = Done (t', None)) ∧ ice_state (agent t') = Checking.
Proof.
  intros He Hs Hr Hev Hn. destruct (cycles_reach_idle evs (7 * length (check_list (agent t))) t) as (t' & E & Hi); [| |done|].
  - eapply Forall_impl; [exact Hev|]. intros [tid []]; done.
  - assert (Hok : Forall pair_ok (check_list (agent t))) by (eapply Forall_impl; [exact Hr|]; by intros p Hp _).
    split; [done|by apply potential_bound].
  - exists t'. split; [done|]. split; [done|]. rewrite <-Hs. by eapply silent_run.
Qed.

(** ** Two agents that check each other *)

(** What an agent drew and the address its socket is bound to. *)
Record Peer := mkPeer { pr_random : IceRandom; pr_addr : SocketAddr }.

Definition peer_host (p : Peer) : IceCandidate := new_host (pr_addr p) COMPONENT_RTP 65535.

(** A transport with one socket that knows the credentials and the host candidate of its peer. *)
Definition endpoint (r : IceRole) (me peer : Peer) : outcome IceRtpTransport :=
  let t := set_rtp_socket (pr_addr me) (transport_new (pr_random me) Full r) in
  let a := set_remote_credentials (pr_random me) (r_ufrag (pr_random peer)) (r_pwd (pr_random peer)) (agent t) in
  let! t := gather_candidates None None (set_agent t a) in
  Done (start_checks (set_agent t (add_remote_candidate (peer_host peer) (agent t)))).

Section exchange.
Context `{StunCrypto}.

(** A check of [x] that reaches [y], and the answer that comes back. *)
Definition exchange (tid : bytes) (x y : IceRtpTransport) : outcome (IceRtpTransport * IceRtpTransport) :=
  let! (x, begun) := check_begin tid x in
  match begun, rtp_socket x with
  | Some (idx, _, request), Some source =>
      let! r := process_incoming_stun request source y in
      let '(y, replies, _) := r in
      let received := match replies with (_, reply) :: _ => Datagram reply | [] => Elapsed end in
      let! (x, _) := check_end tid idx received x in
      Done (x, y)
  | _, _ => Done (x, y)
  end.

Lemma exchange_steps tid x y sx sy p ay' response o ax' :
  crypto_wf →
  ice_enabled x = true → ice_enabled y = true → rtp_socket x = Some sx → rtp_socket y = Some sy →
  ice_state (agent x) = Checking → next_check_pair (agent x) = (agent x, Some 0%nat) → check_list (agent x) !! 0%nat = Some p →
  remote_pwd (agent x) = local_pwd (agent y) → local_pwd ay' = local_pwd (agent y) →
  let request := build_check_request tid (agent x) p in
  stun_wf request → Z.of_nat (length (stun_body request)) + 32 < 65536 →
  stun_wf response → Z.of_nat (length (stun_body response)) + 32 < 65536 →
  (∀ mi fp, process_incoming_check (with_checks request mi fp) sx sy (agent y) = (ay', response, o)) →
  find_pair_by_transaction (transaction_id response) (mark_in_progress 0 tid (agent x)) = Some 0%nat →
  (∀ mi fp, process_check_response (with_checks response mi fp) 0 (mark_in_progress 0 tid (agent x)) = ax') →
  exchange tid x y = Done (apply_if_completed (set_agent x ax'), apply_if_completed (set_agent y ay')).
Proof.
  intros Hc Hex Hey Hsx Hsy Hst Hn Hp Hk Hk' request Hw1 Hb1 Hw2 Hb2 Hreq Hf Hres.
  destruct (checked_roundtrip request (as_bytes (remote_pwd (agent x))) Hc Hw1 Hb1) as (b1 & mi1 & fp1 & E1 & _ & P1 & V1 & _).
  destruct (checked_roundtrip response (as_bytes (local_pwd (agent y))) Hc Hw2 Hb2) as (b2 & mi2 & fp2 & E2 & I2 & P2 & _).
  unfold exchange, check_begin. rewrite Hex, Hst, bool_decide_true, Hsx, Hn by done. cbn [negb orb]. rewrite Hp.
  fold request. rewrite E1. cbn [outcome_bind]. assert (Exx : set_agent x (agent x) = x) by by destruct x. rewrite Exx, Hsx.
  unfold process_incoming_stun. rewrite Hey. cbn [negb]. rewrite P1. cbn [outcome_bind].
  change (class (with_checks request mi1 fp1)) with StunRequest. cbn iota. rewrite <-Hk, V1. cbn [outcome_bind].
  rewrite Hsy, Hreq, Hk', E2. cbn [outcome_bind]. unfold check_end. rewrite I2, P2. cbn [outcome_bind].
  change (transaction_id (with_checks response mi2 fp2)) with (transaction_id response). by rewrite Hf, Hres.
Qed.
End exchange.

Definition peer_wf (p : Peer) : Prop :=
  Forall is_scalar (r_ufrag (pr_random p)) ∧ (length (r_ufrag (pr_random p)) ≤ 256)%nat
  ∧ 0 ≤ r_tie (pr_random p) < 2 ^ 64 ∧ addr_wf (pr_addr p).

(** The agent of [me] with its one pair. *)
Definition peer_agent (r : IceRole) (me peer : Peer) (pr : CandidatePair) (s : IceState)
    (noms : gmap Z CandidatePair) (valid : list CandidatePair) : IceAgent :=
  mkAgent r Full Aggressive (r_ufrag (pr_random me)) (r_pwd (pr_random me)) (r_ufrag (pr_random peer))
    (r_pwd (pr_random peer)) [peer_host me] [peer_host peer] [pr] s (r_tie (pr_random me)) 1 noms valid.
Definition peer_transport (me : Peer) (a : IceAgent) (active : option SocketAddr) : IceRtpTransport :=
  mkTransport a (Some (pr_addr me)) None None true None active None.

Definition peer_pair (r : IceRole) (me peer : Peer) : CandidatePair := new_pair (peer_host me) (peer_host peer) r.

Lemma endpoint_start r me peer :
  is_ipv4 (pr_addr me).1 = is_ipv4 (pr_addr peer).1 →
  endpoint r me peer
  = Done (peer_transport me (peer_agent r me peer (set_pair_state (peer_pair r me peer) Waiting) Checking ∅ []) None).
Proof.
  intros Hip. unfold endpoint, gather_candidates. cbn [ice_enabled set_agent set_rtp_socket transport_new negb rtp_socket rtcp_socket stun_server outcome_bind].
  f_equal. unfold start_checks. cbn [ice_enabled set_agent negb agent set_rtp_socket transport_new].
  assert (Hs : set_remote_credentials (pr_random me) (r_ufrag (pr_random peer)) (r_pwd (pr_random peer))
    (agent_new (pr_random me) Full r 1)
    = mkAgent r Full Aggressive (r_ufrag (pr_random me)) (r_pwd (pr_random me)) (r_ufrag (pr_random peer))
        (r_pwd (pr_random peer)) [] [] [] Idle (r_tie (pr_random me)) 1 ∅ []).
  { unfold set_remote_credentials. cbn [ice_state agent_new]. by rewrite andb_false_r. }
  rewrite Hs. clear Hs. unfold peer_transport, set_agent. cbn [rtp_socket rtcp_socket stun_server ice_enabled fallback_addr active_remote_addr active_remote_rtcp_addr].
  assert (Hc : compatible (peer_host me) (peer_host peer) = true).
  { unfold compatible, peer_host, new_host, candidate_at. cbn [component_id transport ic_ip]. rewrite Hip, Z.eqb_refl, eqb_reflx.
    by vm_compute. }
  transitivity (peer_transport me (start_checking (mkAgent r Full Aggressive (r_ufrag (pr_random me)) (r_pwd (pr_random me))
    (r_ufrag (pr_random peer)) (r_pwd (pr_random peer)) [peer_host me] [peer_host peer] [] Gathering (r_tie (pr_random me)) 1 ∅ [])) None);
    [reflexivity|].
  unfold peer_transport. f_equal. unfold start_checking, form_check_list, all_pairs.
  cbn [mbind list_bind local_candidates remote_candidates List.filter]. by rewrite Hc.
Qed.

Lemma raws_bytes_length rs :
  (length (raws_bytes rs) ≤ sum_list_with (λ r, 7 + length (value r)) rs)%nat.
Proof.
  induction rs as [|r rs IH]; [done|]. rewrite raws_bytes_cons, length_app, length_raw. cbn [sum_list_with].
  pose proof (padded_bounds (length (value r))). lia.
Qed.

(** A check of a peer and an answer to one are well formed and short. *)
Lemma peer_request_wf tid r me peer pr s n v :
  peer_wf me → peer_wf peer → length tid = 12%nat → component_id (p_local pr) = 1 →
  let m := build_check_request tid (peer_agent r me peer pr s n v) pr in
  stun_wf m ∧ Z.of_nat (length (stun_body m)) + 32 < 65536.
Proof.
  intros (Hu & Hl & Ht & _) (Hu' & Hl' & _ & _) Htid Hc m. unfold m, build_check_request, peer_agent.
  cbn [role remote_ufrag local_ufrag tie_breaker nomination]. rewrite Hc, bool_decide_true by done.
  assert (Hname : Forall is_scalar (ice_username (r_ufrag (pr_random peer)) (r_ufrag (pr_random me)))).
  { apply Forall_app. split; [done|]. constructor; [left; by vm_compute|done]. }
  assert (Hprio : 0 ≤ compute_priority CPeerReflexive 65535 1 < 2 ^ 32) by by vm_compute.
  assert (Hlen : (length (as_bytes (ice_username (r_ufrag (pr_random peer)) (r_ufrag (pr_random me)))) ≤ 2052)%nat).
  { etransitivity; [apply as_bytes_length|]. unfold ice_username. rewrite length_app. cbn [length]. lia. }
  split.
  - split; [done|destruct r; repeat (constructor; [done|]); constructor|destruct r; by repeat constructor].
  - rewrite stun_body_raws. match goal with |- context[raws_of ?m'] => pose proof (raws_bytes_length (raws_of m')) as Hb;
      set (k := length (raws_bytes (raws_of m'))) in * end. unfold raws_of in Hb. cbn [attributes transaction_id app] in Hb.
    destruct r; rewrite !fmap_cons, fmap_nil in Hb; cbn [sum_list_with attr_value_to_raw value] in Hb;
      rewrite ?length_be_bytes in Hb; cbn [length] in Hb; lia.
Qed.

Lemma peer_response_wf tid a :
  length tid = 12%nat → addr_wf a →
  stun_wf (binding_response tid a) ∧ Z.of_nat (length (stun_body (binding_response tid a))) + 32 < 65536.
Proof.
  intros Ht Ha. split; [split; [done|by apply Forall_singleton|by apply Forall_singleton]|]. rewrite stun_body_raws.
  pose proof (raws_bytes_length (raws_of (binding_response tid a))) as Hb.
  assert (Hl : (length (encode_xor_address a tid) ≤ 20)%nat).
  { unfold encode_xor_address. cbn [app length]. rewrite length_app, length_be_bytes.
    destruct a.1; rewrite ?length_xor_bytes, !length_be_bytes; lia. }
  change (raws_of (binding_response tid a)) with [attr_value_to_raw (XorMappedAddress a) tid] in *.
  cbn [sum_list_with attr_value_to_raw value] in Hb. cbn [attr_value_to_raw]. lia.
Qed.

Lemma ic_address_host p : ic_address (peer_host p) = pr_addr p.
Proof. unfold ic_address, peer_host, new_host, candidate_at. cbn. by destruct (pr_addr p). Qed.

(** A check that arrives: the pair is found, and nominated if the request says so
    and the pair has already succeeded. *)
Lemma incoming_check_peer tid r me peer px py pri st nom t k s n v n' v' s' mi fp :
  let pair := mkPair (peer_host me) (peer_host peer) pri st nom t k in
  let a := peer_agent r me peer pair s n v in
  st ≠ Frozen →
  process_incoming_check
    (with_checks (build_check_request tid (peer_agent (other_role r) peer me px s' n' v') py) mi fp)
    (pr_addr peer) (pr_addr me) a
  = ((if bool_decide (r = Controlled ∧ st = Succeeded) then nominate_at 0 a else a),
     binding_response tid (pr_addr peer), Some 0%nat).
Proof.
  intros pair a Hst. set (m := with_checks _ mi fp).
  assert (Htrig : handle_triggered_check (pr_addr peer) (pr_addr me) m a = (a, Some 0%nat)).
  { unfold handle_triggered_check, a, peer_agent. cbn [check_list]. unfold position. cbn [list_find].
    cbn [pair p_remote p_local]. rewrite !ic_address_host, decide_True by (by rewrite !bool_decide_true).
    cbn [fmap option_fmap option_map fst]. f_equal. unfold set_check_list. cbn. f_equal. by rewrite bool_decide_false. }
  assert (Hname : stun_username m = Some (ice_username (local_ufrag a) (remote_ufrag a))) by done.
  assert (E1 : conflict_controlling m a = (a, false)) by by destruct r.
  assert (E2 : conflict_controlled m a = (a, false)) by by destruct r.
  assert (Hu : has_use_candidate m = bool_decide (r = Controlled)) by by destruct r.
  unfold process_incoming_check. rewrite bool_decide_true by done. cbn [negb]. rewrite E1, E2, Htrig, Hu.
  change (transaction_id m) with tid. f_equal. f_equal. case_bool_decide as Hr.
  - unfold nominate. change (check_list a !! 0%nat) with (Some pair). cbn iota. change (p_state pair) with st.
    case_bool_decide; [rewrite bool_decide_true|rewrite bool_decide_false]; naive_solver.
  - rewrite bool_decide_false; naive_solver.
Qed.

Lemma update_state_pwd a : local_pwd (update_state a) = local_pwd a.
Proof. unfold update_state. destruct (forallb _ _); [done|]. by destruct (_ && _). Qed.

Lemma update_state_role a : role (update_state a) = role a.
Proof. unfold update_state. destruct (forallb _ _); [done|]. by destruct (_ && _). Qed.

(** The answer to the check of a waiting pair, and what it leaves. *)
Lemma answered_check_peer tid r me peer pri nom t k mi fp :
  let pair := mkPair (peer_host me) (peer_host peer) pri Succeeded nom (Some tid) k in
  process_check_response (with_checks (binding_response tid (pr_addr me)) mi fp) 0
    (mark_in_progress 0 tid (peer_agent r me peer (mkPair (peer_host me) (peer_host peer) pri Waiting nom t k) Checking ∅ []))
  = match r with
    | Controlling => peer_agent r me peer (set_nominated pair) IceCompleted {[1 := pair]} [pair]
    | Controlled => peer_agent r me peer pair Checking ∅ [pair]
    end.
Proof.
  intros pair. set (m := with_checks _ mi fp). unfold process_check_response.
  change (check_list (mark_in_progress _ _ _) !! 0%nat)
    with (Some (mkPair (peer_host me) (peer_host peer) pri InProgress nom (Some tid) k)). cbn iota.
  change (class m) with SuccessResponse. cbn iota.
  change (get_mapped_address m) with (Some (pr_addr me)). cbn iota.
  change (set_pair_state (mkPair (peer_host me) (peer_host peer) pri InProgress nom (Some tid) k) Succeeded) with pair.
  change (p_local pair) with (peer_host me). rewrite ic_address_host, (bool_decide_true (_ = _)) by done. cbn [negb andb].
  destruct r.
  - rewrite bool_decide_true by done. unfold unfreeze_related.
    transitivity (update_state (peer_agent Controlling me peer (set_nominated pair) Checking {[1 := pair]} [pair])); [by f_equal|].
    unfold update_state. cbn [nominated_pairs components_of num_components peer_agent].
    done.
  - rewrite bool_decide_false by (by intros [_ ?]). unfold unfreeze_related.
    transitivity (update_state (peer_agent Controlled me peer pair Checking ∅ [pair])); [by f_equal|].
    done.
Qed.

(** The endpoint whose check is answered, and its peer. *)
Lemma exchange_peers `{StunCrypto} tid r p q pri t k pri' st' nom' t' k' s' n' v' act act' :
  crypto_wf → peer_wf p → peer_wf q → length tid = 12%nat → st' ≠ Frozen →
  let a' := peer_agent (other_role r) q p (mkPair (peer_host q) (peer_host p) pri' st' nom' t' k') s' n' v' in
  let pair := mkPair (peer_host p) (peer_host q) pri Succeeded false (Some tid) k in
  exchange tid
    (peer_transport p (peer_agent r p q (mkPair (peer_host p) (peer_host q) pri Waiting false t k) Checking ∅ []) act)
    (peer_transport q a' act')
  = Done (apply_if_completed (peer_transport p
            match r with
            | Controlling => peer_agent r p q (set_nominated pair) IceCompleted {[1 := pair]} [pair]
            | Controlled => peer_agent r p q pair Checking ∅ [pair]
            end act),
          apply_if_completed (peer_transport q
            (if bool_decide (other_role r = Controlled ∧ st' = Succeeded) then nominate_at 0 a' else a') act')).
Proof.
  intros Hc Hp Hq Ht Hst a' pair. set (px := mkPair (peer_host p) (peer_host q) pri Waiting false t k).
  set (a := peer_agent r p q px Checking ∅ []).
  destruct (peer_request_wf tid r p q px Checking ∅ [] Hp Hq Ht eq_refl) as [Hw1 Hb1].
  destruct (peer_response_wf tid (pr_addr p) Ht) as [Hw2 Hb2]; [apply Hp|].
  apply (exchange_steps tid (peer_transport p a act) (peer_transport q a' act') (pr_addr p) (pr_addr q) px
    (if bool_decide (other_role r = Controlled ∧ st' = Succeeded) then nominate_at 0 a' else a')
    (binding_response tid (pr_addr p)) (Some 0%nat)
    match r with
    | Controlling => peer_agent r p q (set_nominated pair) IceCompleted {[1 := pair]} [pair]
    | Controlled => peer_agent r p q pair Checking ∅ [pair]
    end); try done.
  - case_bool_decide; [|done]. unfold nominate_at. cbn. by rewrite update_state_pwd.
  - intros mi fp. pose proof (incoming_check_peer tid (other_role r) q p px px pri' st' nom' t' k' s' n' v' ∅ [] Checking mi fp Hst) as E.
    assert (Er : other_role (other_role r) = r) by by destruct r. rewrite Er in E. exact E.
  - unfold find_pair_by_transaction, position. cbn. rewrite decide_True by (by rewrite bool_decide_true). done.
  - intros mi fp. apply answered_check_peer.
Qed.

Lemma completed_remote t p q :
  ice_enabled t = true → ice_state (agent t) = IceCompleted → nominated_pairs (agent t) !! 1 = Some p →
  p_remote p = peer_host q → effective_remote_addr (apply_if_completed t) = Some (pr_addr q).
Proof.
  intros He Hs Hn Hq. unfold apply_if_completed, effective_remote_addr. rewrite bool_decide_true by done.
  unfold apply_nominated_pair, nominated_pair, COMPONENT_RTP. cbn [ice_enabled active_remote_addr]. rewrite He, Hn. cbn.
  by rewrite Hq, ic_address_host.
Qed.

(** The order of the checks decides.  Two agents with a host candidate each, whose
    checks and answers are all delivered: when the controlled agent's check is
    answered first both complete, and each sends to the other's address.  When the
    controlling agent's check comes first, the controlling agent completes and the
    controlled agent never does: neither has a check left to send, and the
    controlled one has no address to send to. *)
Theorem ice_order_decides `{StunCrypto} (p q : Peer) (tid1 tid2 : bytes) :
  crypto_wf → peer_wf p → peer_wf q → is_ipv4 (pr_addr p).1 = is_ipv4 (pr_addr q).1 →
  length tid1 = 12%nat → length tid2 = 12%nat →
  ∃ x y, endpoint Controlling p q = Done x ∧ endpoint Controlled q p = Done y
    ∧ (∃ x1 y1 x2 y2, exchange tid1 y x = Done (y1, x1) ∧ exchange tid2 x1 y1 = Done (x2, y2)
         ∧ is_completed x2 = true ∧ is_completed y2 = true
         ∧ effective_remote_addr x2 = Some (pr_addr q) ∧ effective_remote_addr y2 = Some (pr_addr p))
    ∧ (∃ x1 y1 x2 y2, exchange tid1 x y = Done (x1, y1) ∧ exchange tid2 y1 x1 = Done (y2, x2)
         ∧ is_completed x2 = true ∧ effective_remote_addr x2 = Some (pr_addr q)
         ∧ is_completed y2 = false ∧ effective_remote_addr y2 = None
         ∧ ∀ tid, check_begin tid x2 = Done (x2, None) ∧ check_begin tid y2 = Done (y2, None)).
Proof.
  intros Hc Hp Hq Hip H1 H2. eexists _, _. split; [by apply endpoint_start|]. split; [by apply endpoint_start|].
  unfold peer_pair, new_pair. cbn [set_pair_state p_local p_remote p_priority p_state nominated p_transaction_id retransmissions].
  set (pri := pair_priority _ _). split.
  - eexists _, _, _, _. split; [apply (exchange_peers tid1 Controlled q p); done|].
    rewrite bool_decide_false by (by intros [? _]). cbn [other_role].
    split; [apply (exchange_peers tid2 Controlling p q); done|]. rewrite bool_decide_true by done.
    split; [done|]. split; [done|]. split.
    + by eapply completed_remote.
    + by eapply completed_remote.
  - eexists _, _, _, _. split; [apply (exchange_peers tid1 Controlling p q); done|].
    rewrite bool_decide_false by (by intros [_ ?]). cbn [other_role].
    split; [apply (exchange_peers tid2 Controlled q p); done|].
    split; [done|]. split; [|split; [done|split; [done|done]]].
    by eapply completed_remote.
Qed.

(** Checks that cross keep a role conflict.  Two controlling agents check each other
    at once; the agent with the smaller tie-breaker becomes controlled when the
    other's check arrives, and controlling again when its own check is answered
    with 487. *)
Theorem crossing_checks_keep_conflict (p q : Peer) (tid1 tid2 : bytes) :
  r_tie (pr_random q) < r_tie (pr_random p) →
  let waiting p q := set_pair_state (peer_pair Controlling p q) Waiting in
  let x := mark_in_progress 0 tid1 (peer_agent Controlling p q (waiting p q) Checking ∅ []) in
  let y := mark_in_progress 0 tid2 (peer_agent Controlling q p (waiting q p) Checking ∅ []) in
  let '(y1, answer_x, _) := process_incoming_check (build_check_request tid1 x (waiting p q)) (pr_addr p) (pr_addr q) y in
  let '(x1, answer_y, _) := process_incoming_check (build_check_request tid2 y (waiting q p)) (pr_addr q) (pr_addr p) x in
  role y1 = Controlled ∧ role (process_check_response answer_y 0 y1) = Controlling
  ∧ role (process_check_response answer_x 0 x1) = Controlling.
Proof.
  intros Ht waiting x y.
  set (ry := build_check_request tid2 y (waiting q p)). set (rx := build_check_request tid1 x (waiting p q)).
  assert (Ex : process_incoming_check ry (pr_addr q) (pr_addr p) x = (x, binding_error tid2 487 (lit "Role Conflict"), None)).
  { unfold process_incoming_check. rewrite bool_decide_true by done. cbn [negb].
    assert (E : conflict_controlling ry x = (x, true)); [|by rewrite E].
    unfold conflict_controlling. change (ice_controlling ry) with (Some (r_tie (pr_random q))). cbn iota.
    rewrite bool_decide_true by done. change (tie_breaker x) with (r_tie (pr_random p)).
    by rewrite (proj2 (Z.leb_le _ _)) by lia. }
  assert (Ey : process_incoming_check rx (pr_addr p) (pr_addr q) y
    = (set_role y Controlled, binding_response tid1 (pr_addr p), Some 0%nat)).
  { unfold process_incoming_check. rewrite bool_decide_true by done. cbn [negb].
    assert (E : conflict_controlling rx y = (set_role y Controlled, false)).
    { unfold conflict_controlling. change (ice_controlling rx) with (Some (r_tie (pr_random p))). cbn iota.
      rewrite bool_decide_true by done. change (tie_breaker y) with (r_tie (pr_random q)).
      by rewrite (proj2 (Z.leb_gt _ _)) by lia. }
    rewrite E. cbv beta iota zeta. change (conflict_controlled rx (set_role y Controlled)) with (set_role y Controlled, false).
    cbv beta iota zeta.
    assert (Ht' : handle_triggered_check (pr_addr p) (pr_addr q) rx (set_role y Controlled) = (set_role y Controlled, Some 0%nat)).
    { unfold handle_triggered_check, position. cbn -[bool_decide]. rewrite !ic_address_host, decide_True by (by rewrite !bool_decide_true).
      cbn. done. }
    rewrite Ht'. done. }
  rewrite Ey, Ex. split; [done|]. split; [done|]. unfold process_check_response.
  change (check_list x !! 0%nat) with (Some (set_in_progress tid1 (waiting p q))). cbn iota.
  change (class (binding_response tid1 (pr_addr p))) with SuccessResponse. cbn iota.
  rewrite update_state_role. unfold unfreeze_related. change (get_mapped_address _) with (Some (pr_addr p)). cbn iota.
  change (p_local (set_pair_state (set_in_progress tid1 (waiting p q)) Succeeded)) with (peer_host p).
  rewrite ic_address_host, (bool_decide_true (_ = _)) by done. done.
Qed.

(** An agent that has gathered before it learns the credentials of the peer, as an
    offerer does, restarts: the candidates it offered are gone, the credentials it
    offered are replaced, and the check list it forms is empty. *)
Theorem late_credentials_restart (rnd rnd' : IceRandom) (m : IceMode) (r : IceRole) (n : Z) (addrs : list SocketAddr)
    (ufrag pwd : str) (remotes : list IceCandidate) :
  ufrag ≠ [] →
  let a := set_remote_credentials rnd' ufrag pwd (gather_host_candidates addrs (agent_new rnd m r n)) in
  local_candidates a = [] ∧ local_ufrag a = r_ufrag rnd' ∧ local_pwd a = r_pwd rnd'
  ∧ check_list (start_checking (foldr add_remote_candidate a remotes)) = [].
Proof.
  intros Hu a. assert (Ea : a = restart rnd' (mkAgent r m Aggressive (r_ufrag rnd) (r_pwd rnd) ufrag pwd
    (local_candidates (gather_host_candidates addrs (agent_new rnd m r n))) [] [] Gathering (r_tie rnd) n ∅ [])).
  { unfold a, set_remote_credentials. cbn [remote_ufrag gather_host_candidates set_candidates set_ice_state agent_new].
    assert (E : str_eqb [] ufrag = false) by (unfold str_eqb; rewrite bool_decide_false; [done|by intros <-]).
    rewrite E. cbn [negb orb]. by rewrite bool_decide_false. }
  rewrite Ea. do 3 (split; [done|]). set (b := restart _ _).
  assert (Hb : ∀ c, local_candidates c = [] → check_list c = [] → check_list (start_checking c) = []).
  { intros c Hl Hc. unfold start_checking. case_bool_decide; [|done]. unfold form_check_list. cbn. by rewrite Hl. }
  assert (Hf : local_candidates (foldr add_remote_candidate b remotes) = [] ∧ check_list (foldr add_remote_candidate b remotes) = []).
  { induction remotes as [|c cs IH]; [done|]. cbn [foldr]. unfold add_remote_candidate at 1 3. by destruct (existsb _ _). }
  destruct Hf. by apply Hb.
Qed.

(** ** Witnesses *)

Definition sample_peer (ufrag : string) (tie : Z) (last_octet : Z) : Peer :=
  mkPeer (mkRandom (lit ufrag) (lit "aaaaaaaaaaaaaaaaaaaaaa") tie) (V4 (3232235776 + last_octet), 5000).

Lemma sample_peer_wf ufrag tie last_octet :
  Forall is_scalar (lit ufrag) → (length (lit ufrag) ≤ 256)%nat → 0 ≤ tie < 2 ^ 64 → 0 ≤ last_octet < 256 →
  peer_wf (sample_peer ufrag tie last_octet).
Proof. intros Hs Hl Ht Ho. split; [done|]. split; [done|]. split; [done|]. split; cbn; lia. Qed.

Lemma ice_priorities_witness : compute_priority CHost 65535 1 = 2 ^ 24 * type_preference CHost + 2 ^ 8 * 65535 + 255.
Proof.
  apply (ice_priorities CHost 65535 1 2130706431 1694498815 2130706431 2130706431
    (new_host (V4 1, 1) 1 65535) (new_host (V4 2, 2) 1 65535)); lia.
Defined.

(** Two agents with two candidates each. *)
Definition sample_local : list IceCandidate := [new_host (V4 1, 1000) 1 65535; new_srflx (V4 9, 1001) (V4 1, 1000) 1 65535].
Definition sample_remote : list IceCandidate := [new_host (V4 2, 2000) 1 65535; new_srflx (V4 8, 2001) (V4 2, 2000) 1 65534].
Definition sample_agent (r : IceRole) (locals remotes : list IceCandidate) : IceAgent :=
  set_candidates (agent_new (mkRandom (lit "abcd") (lit "x") 1) Full r 1) locals remotes.

Lemma check_lists_agree_witness :
  (λ p, (p_remote p, p_local p, p_priority p))
    <$> check_list (form_check_list (sample_agent Controlling sample_local sample_remote))
  = (λ p, (p_local p, p_remote p, p_priority p))
    <$> check_list (form_check_list (sample_agent Controlled (reverse sample_remote) sample_local)).
Proof.
  apply (check_lists_agree (sample_agent Controlling sample_local sample_remote)
           (sample_agent Controlled (reverse sample_remote) sample_local)); [done|done| |].
  - symmetry. apply reverse_Permutation.
  - apply (bool_decide_unpack _). by vm_compute.
Defined.

(** One pair, seven timeouts. *)
Definition sample_transport : IceRtpTransport :=
  peer_transport (sample_peer "abcd" 1 1)
    (peer_agent Controlling (sample_peer "abcd" 1 1) (sample_peer "efgh" 2 2)
       (set_pair_state (peer_pair Controlling (sample_peer "abcd" 1 1) (sample_peer "efgh" 2 2)) Waiting) Checking ∅ []) None.

Lemma check_cycles_end_witness :
  ∃ t', @run_cycles sample_crypto (replicate 7 (replicate 12 5, Elapsed)) sample_transport = Done t'
    ∧ @check_begin sample_crypto [] t' = Done (t', None).
Proof.
  destruct (@check_cycles_end sample_crypto sample_transport (replicate 7 (replicate 12 5, Elapsed))) as (t' & E & I).
  - by repeat constructor.
  - by repeat constructor.
  - by vm_compute.
  - exists t'. split; [exact E|apply I].
Defined.

Lemma ice_order_decides_witness :
  ∃ x y x1 y1 x2 y2,
    endpoint Controlling (sample_peer "abcd" 1 1) (sample_peer "efgh" 2 2) = Done x
    ∧ endpoint Controlled (sample_peer "efgh" 2 2) (sample_peer "abcd" 1 1) = Done y
    ∧ @exchange sample_crypto (replicate 12 5) x y = Done (x1, y1)
    ∧ @exchange sample_crypto (replicate 12 6) y1 x1 = Done (y2, x2) ∧ is_completed x2 = true ∧ is_completed y2 = false.
Proof.
  destruct (@ice_order_decides sample_crypto (sample_peer "abcd" 1 1) (sample_peer "efgh" 2 2) (replicate 12 5) (replicate 12 6))
    as (x & y & Ex & Ey & _ & x1 & y1 & x2 & y2 & E1 & E2 & Hx & _ & Hy & _).
  - apply sample_crypto_wf.
  - apply sample_peer_wf; [by repeat (constructor; [by left|])|cbn; lia|done|done].
  - apply sample_peer_wf; [by repeat (constructor; [by left|])|cbn; lia|done|done].
  - done.
  - done.
  - done.
  - exists x, y, x1, y1, x2, y2. do 5 (split; [assumption|]). assumption.
Defined.
