(* ===== verification/PbxConfig.v ===== *)
(** * The dialplan loader ([asterisk-core/src/pbx/pbx_config.rs])

    [extensions.conf] is read line by line into the [Dialplan] the execution loop
    looks locations up in.

    The theorems: loading returns on every text; and a dialplan that is written
    out, in any of the ways its priorities can be written, is the dialplan that
    is loaded. *)

From Stdlib Require Import ZArith NArith Ascii String.
From S2P Require Import Prelude RustStr HashMap Dialplan.
Local Open Scope Z_scope.
Local Open Scope list_scope.

Record LoadResult := mkResult {
  n_contexts : Z; n_extensions : Z; n_priorities : Z; n_includes : Z; warnings : list str }.

(** ** Lines *)

Definition parse_priority (x : str) : outcome (option (Z * option str)) :=
  if eq_ignore_ascii_case x (lit "n") then Done (Some (-1, None))
  else if eq_ignore_ascii_case x (lit "hint") then Done (Some (-2, None))
  else
    match find_char (chr "(") x with
    | Some paren_pos =>
        let! prio_part := slice_to x paren_pos in
        let! label_part := slice_from x (paren_pos + 1)%N in
        let label := trim_end_char (chr ")") label_part in
        if eq_ignore_ascii_case prio_part (lit "n") then Done (Some (-1, Some label))
        else Done (prio ← parse_i32 prio_part; Some (prio, Some label))
    | None => Done (prio ← parse_i32 x; Some (prio, None))
    end.

Definition parse_application (x : str) : outcome (str * str) :=
  match find_char (chr "(") x with
  | Some paren_pos =>
      let! app := slice_to x paren_pos in
      let! data := slice_from x (paren_pos + 1)%N in
      Done (trim app, trim_end_char (chr ")") data)
  | None => Done (trim x, [])
  end.

(** What an [exten =>] or [same =>] line says of a priority. *)
Definition Step : Type := Z * option str * str * str.

Definition parse_same_line (line : str) : outcome (option Step) :=
  match splitn 2 (chr ",") line with
  | [prio_str; app_str] =>
      let! p := parse_priority (trim prio_str) in
      match p with
      | None => Done None
      | Some (priority, label) =>
          let! (app, data) := parse_application (trim app_str) in
          Done (Some (priority, label, app, data))
      end
  | _ => Done None
  end.

Definition parse_exten_line (line : str) : outcome (option (str * Step)) :=
  match splitn 2 (chr ",") line with
  | [pattern; rest] =>
      let! s := parse_same_line rest in
      Done (s ← s; Some (trim pattern, s))
  | _ => Done None
  end.

(** ** The loader *)

Record LoadState := mkLoad {
  dialplan : Dialplan; result_of : LoadResult; current_context : option str;
  next_prio : gmap (str * str) Z; last_exten : option str }.

Definition load_init : LoadState := mkLoad dp_new (mkResult 0 0 0 0 []) None ∅ None.

Definition warn (text : str) (st : LoadState) : LoadState :=
  let r := result_of st in
  mkLoad (dialplan st) (mkResult (n_contexts r) (n_extensions r) (n_priorities r) (n_includes r) (warnings r ++ [text]))
    (current_context st) (next_prio st) (last_exten st).

(** The rest of the line after a keyword and [=>], or [=]. *)
Definition directive (keyword line : str) : option str :=
  let after op := rest ← strip_prefix keyword line; strip_prefix op (trim_start rest) in
  match after (lit "=>") with Some rest => Some rest | None => after (lit "=") end.

Definition next_after (prios : gmap (str * str) Z) (key : str * str) : Z := i32_succ (default 0 (prios !! key)).

(** The number of a priority, and the numbers to go on from. *)
Definition number_priority (key : str * str) (priority : Z) (prios : gmap (str * str) Z) : Z * gmap (str * str) Z :=
  if priority =? -1 then (next_after prios key, <[key := next_after prios key]> prios)
  else if 0 <? priority then (priority, <[key := priority]> prios)
  else (priority, prios).

(** [get_context_mut(ctx_name).unwrap()] *)
Definition add_step (ctx_name pattern : str) (s : Step) (st : LoadState) : outcome LoadState :=
  let '(priority, label, app, data) := s in
  let (priority, prios) := number_priority (ctx_name, pattern) priority (next_prio st) in
  let prio := mkPriority priority app data label in
  match get_context (dialplan st) ctx_name with
  | None => Panic
  | Some ctx =>
      let r := result_of st in
      let '(ctx, extensions) :=
        match extensions ctx !! pattern with
        | Some ext => (mkContext (Dialplan.ctx_name ctx) (<[pattern := add_priority ext prio]> (extensions ctx)) (includes ctx),
                       n_extensions r)
        | None => (ctx_add_extension ctx (add_priority (ext_new pattern) prio), n_extensions r + 1)
        end in
      Done (mkLoad (mkDialplan (<[ctx_name := ctx]> (contexts (dialplan st))))
              (mkResult (n_contexts r) extensions (n_priorities r + 1) (n_includes r) (warnings r))
              (current_context st) prios (last_exten st))
  end.

Definition enter_context (name : str) (st : LoadState) : LoadState :=
  let r := result_of st in
  let known := bool_decide (is_Some (contexts (dialplan st) !! name)) in
  mkLoad (if known then dialplan st else add_context (dialplan st) (ctx_new name))
    (if known then r else mkResult (n_contexts r + 1) (n_extensions r) (n_priorities r) (n_includes r) (warnings r))
    (Some name) (next_prio st) None.

Definition set_last_exten (pattern : str) (st : LoadState) : LoadState :=
  mkLoad (dialplan st) (result_of st) (current_context st) (next_prio st) (Some pattern).

Definition include_line (ctx_name data : str) (st : LoadState) : LoadState :=
  match get_context (dialplan st) ctx_name with
  | None => st
  | Some ctx =>
      let r := result_of st in
      mkLoad (mkDialplan (<[ctx_name := add_include ctx (trim data)]> (contexts (dialplan st))))
        (mkResult (n_contexts r) (n_extensions r) (n_priorities r) (n_includes r + 1) (warnings r))
        (current_context st) (next_prio st) (last_exten st)
  end.

Definition line_no (n : Z) : str := lit "Line " ++ show_int n.

Definition directive_line (n : Z) (ctx_name line : str) (st : LoadState) : outcome LoadState :=
  match directive (lit "exten") line with
  | Some exten_data =>
      let! r := parse_exten_line (trim exten_data) in
      match r with
      | Some (pattern, s) =>
          let! st := add_step ctx_name pattern s st in
          Done (set_last_exten pattern st)
      | None => Done (warn (line_no n ++ lit ": invalid exten => line: " ++ trim exten_data) st)
      end
  | None =>
      match directive (lit "same") line with
      | Some same_data =>
          match last_exten st with
          | None => Done (warn (line_no n ++ lit ": same => without preceding exten =>") st)
          | Some pattern =>
              let! r := parse_same_line (trim same_data) in
              match r with
              | Some s => add_step ctx_name pattern s st
              | None => Done (warn (line_no n ++ lit ": invalid same => line: " ++ trim same_data) st)
              end
          end
      | None =>
          match directive (lit "include") line with
          | Some include_data => Done (include_line ctx_name include_data st)
          | None => Done st
          end
      end
  end.

Definition load_line (n : Z) (raw_line : str) (st : LoadState) : outcome LoadState :=
  let line := trim raw_line in
  if bool_decide (line = []) || starts_with (lit ";") line || starts_with (lit "#") line then Done st
  else
    let! line := match find_char (chr ";") line with
                 | Some pos => let! x := slice_to line pos in Done (trim x)
                 | None => Done line
                 end in
    if starts_with (lit "[") line && bool_decide (is_Some (strip_suffix (lit "]") line))
    then
      let! name := slice line 1 (len line - 1) in
      Done (enter_context name st)
    else
      match current_context st with
      | None => Done (warn (line_no n ++ lit ": directive outside of any context") st)
      | Some ctx_name => directive_line n ctx_name line st
      end.

Fixpoint load_lines (n : Z) (ls : list str) (st : LoadState) : outcome LoadState :=
  match ls with
  | [] => Done st
  | l :: ls => let! st := load_line n l st in load_lines (n + 1) ls st
  end.

Definition load_extensions_conf (content : str) : outcome (Dialplan * LoadResult) :=
  let! st := load_lines 1 (lines content) load_init in
  Done (dialplan st, result_of st).

(** ** Lemmas: loading returns *)

Lemma parse_priority_returns x : returns (parse_priority x).
Proof.
  unfold parse_priority. repeat case_match; try (by eexists).
  edestruct find_char_slices as (a & b & _ & _ & _ & -> & ->); [done|done|]. cbn. case_match; by eexists.
Qed.

Lemma parse_application_returns x : returns (parse_application x).
Proof.
  unfold parse_application. case_match; [|by eexists].
  edestruct find_char_slices as (a & b & _ & _ & _ & -> & ->); [done|done|]. by eexists.
Qed.

Lemma parse_same_line_returns x : returns (parse_same_line x).
Proof.
  unfold parse_same_line. repeat case_match; try (by eexists).
  destruct (parse_priority_returns (trim l)) as [[[p lab]|] ->]; [|by eexists]. cbn.
  destruct (parse_application_returns (trim l1)) as [[ap d] ->]. by eexists.
Qed.

Lemma parse_exten_line_returns x : returns (parse_exten_line x).
Proof.
  unfold parse_exten_line. repeat case_match; try (by eexists).
  destruct (parse_same_line_returns l1) as [s ->]. by eexists.
Qed.

(** The context lines are added to is in the dialplan. *)
Definition entered (st : LoadState) : Prop :=
  ∀ name, current_context st = Some name → is_Some (contexts (dialplan st) !! name).

Lemma add_step_entered ctx_name pattern s st :
  entered st → current_context st = Some ctx_name →
  ∃ st', add_step ctx_name pattern s st = Done st' ∧ entered st' ∧ current_context st' = Some ctx_name.
Proof.
  intros He Hc. destruct (He _ Hc) as [ctx Hctx]. unfold add_step, get_context. destruct s as [[[p lab] ap] d].
  destruct (number_priority _ _ _) as [p' prios]. rewrite Hctx.
  destruct (extensions ctx !! pattern); eexists; (split; [done|]); (split; [|done]); intros name Hn; cbn in *;
    assert (name = ctx_name) as -> by congruence; rewrite lookup_insert_eq; by eexists.
Qed.

Lemma bracketed line :
  starts_with (lit "[") line = true → is_Some (strip_suffix (lit "]") line) →
  ∃ x, line = chr "[" :: x ++ lit "]" ∧ slice line 1 (len line - 1) = Done x.
Proof.
  intros [y ->]%starts_with_true [z Hz]. unfold strip_suffix in Hz. apply fmap_Some in Hz as (w & Hw & ->).
  apply strip_prefix_Some in Hw. apply (f_equal reverse) in Hw. rewrite reverse_involutive, reverse_app in Hw.
  change (reverse (reverse (lit "]"))) with (lit "]") in Hw. destruct (reverse w) as [|c v]; [done|].
  injection Hw as Hc Hy. change (lit "[") with [chr "["] in *. exists v. subst y. split; [done|].
  pose proof (slice_between (chr "[") (chr "]") v [] eq_refl) as E.
  assert (El : (len ([chr "["] ++ v ++ lit "]") - 1 = 1 + len v)%N) by (rewrite !len_app; cbn; lia).
  rewrite El. exact E.
Qed.

Lemma load_line_entered n line st : entered st → ∃ st', load_line n line st = Done st' ∧ entered st'.
Proof.
  intros He. unfold load_line. destruct (_ || _); [by exists st|].
  assert (Hl : returns match find_char (chr ";") (trim line) with
    | Some pos => let! x := slice_to (trim line) pos in Done (trim x) | None => Done (trim line) end).
  { case_match; [|by eexists]. edestruct find_char_slices as (a & b & _ & _ & _ & -> & _); [done|done|]. by eexists. }
  destruct Hl as [l ->]. cbn [outcome_bind].
  destruct (starts_with (lit "[") l && bool_decide (is_Some (strip_suffix (lit "]") l))) eqn:Hb.
  { apply andb_true_iff in Hb as [H1 H2%bool_decide_eq_true]. destruct (bracketed l H1 H2) as (x & _ & ->).
    eexists. split; [done|]. intros name [= <-]. cbn. case_bool_decide as Hk; [done|].
    cbn. rewrite lookup_insert_eq. by eexists. }
  destruct (current_context st) as [name|] eqn:Hc; [|eexists; split; [done|exact He]].
  unfold directive_line. destruct (directive (lit "exten") l).
  { destruct (parse_exten_line_returns (trim l0)) as [[[p s]|] ->]; cbn.
    - destruct (add_step_entered name p s st He Hc) as (st' & -> & He' & _). by eexists.
    - eexists. split; [done|]. exact He. }
  destruct (directive (lit "same") l).
  { destruct (last_exten st); [|eexists; split; [done|exact He]].
    destruct (parse_same_line_returns (trim l0)) as [[s|] ->]; cbn.
    - destruct (add_step_entered name l1 s st He Hc) as (st' & -> & He' & _). by eexists.
    - eexists. split; [done|]. exact He. }
  destruct (directive (lit "include") l); [|by eexists]. eexists. split; [done|]. unfold include_line, get_context.
  destruct (He _ Hc) as [ctx Hctx]. rewrite Hctx. intros name' Hn. cbn in *. assert (name' = name) as -> by congruence.
  rewrite lookup_insert_eq. by eexists.
Qed.

Lemma load_lines_returns n ls st : entered st → returns (load_lines n ls st).
Proof.
  revert n st. induction ls as [|l ls IH]; intros n st He; [by eexists|]. cbn.
  destruct (load_line_entered n l st He) as (st' & -> & He'). cbn. by apply IH.
Qed.

(** Loading returns on every text: no line, however malformed, makes it panic. *)
Theorem load_always_returns (content : str) : returns (load_extensions_conf content).
Proof.
  unfold load_extensions_conf. destruct (load_lines_returns 1 (lines content) load_init) as [st ->]; [by intros ?|].
  by eexists.
Qed.

(** ** A dialplan as it is written *)

(** A priority: [st_same] writes it with [same =>], [st_number] writes its number
    and not [n]. *)
Record StepText := mkStep {
  st_label : option str; st_app : str; st_args : option str; st_same : bool; st_number : bool }.
Record ExtText := mkExtText { et_pattern : str; et_steps : list StepText }.
Record CtxText := mkCtxText { ct_name : str; ct_includes : list str; ct_extens : list ExtText }.

Definition print_priority (n : Z) (s : StepText) : str :=
  (if st_number s then show_int n else lit "n")
  ++ match st_label s with Some l => lit "(" ++ l ++ lit ")" | None => [] end.
Definition print_app (s : StepText) : str :=
  st_app s ++ match st_args s with Some a => lit "(" ++ a ++ lit ")" | None => [] end.

Definition step_line (pattern : str) (n : Z) (s : StepText) : str :=
  (if st_same s then lit "same => " else lit "exten => " ++ pattern ++ lit ",")
  ++ print_priority n s ++ lit "," ++ print_app s.

Definition ext_lines (e : ExtText) : list str :=
  imap (λ i s, step_line (et_pattern e) (Z.of_nat i + 1) s) (et_steps e).
Definition ctx_lines (c : CtxText) : list str :=
  (lit "[" ++ ct_name c ++ lit "]") :: ((λ i, lit "include => " ++ i) <$> ct_includes c) ++ (ct_extens c ≫= ext_lines).
Definition render (cs : list CtxText) : str := concat ((λ l, l ++ [10%N]) <$> (cs ≫= ctx_lines)).

(** ** What it means *)

(** A text without the closing parentheses it ends with. *)
Fixpoint open_part (x : str) : str :=
  match x with
  | [] => []
  | ch :: y => match open_part y with [] => if bool_decide (ch = chr ")") then [] else [ch] | z => ch :: z end
  end.

Definition step_priority (n : Z) (s : StepText) : Priority :=
  mkPriority n (st_app s) (open_part (default [] (st_args s))) (open_part <$> st_label s).
Definition numbered (steps : list StepText) : list (Z * Priority) :=
  imap (λ i s, (Z.of_nat i + 1, step_priority (Z.of_nat i + 1) s)) steps.
Definition ext_of (e : ExtText) : Extension := mkExtension (et_pattern e) None (list_to_map (numbered (et_steps e))).
Definition ctx_of (c : CtxText) : Context :=
  mkContext (ct_name c) (list_to_map ((λ e, (et_pattern e, ext_of e)) <$> ct_extens c)) (ct_includes c).
Definition dialplan_of (cs : list CtxText) : Dialplan := mkDialplan (list_to_map ((λ c, (ct_name c, ctx_of c)) <$> cs)).

Definition count {A B} (f : A → list B) (l : list A) : Z := Z.of_nat (length (l ≫= f)).
Definition counts_of (cs : list CtxText) : LoadResult :=
  mkResult (Z.of_nat (length cs)) (count ct_extens cs) (count et_steps (cs ≫= ct_extens)) (count ct_includes cs) [].

(** ** What can be written *)

Definition clean (x : str) : Prop := (10%N ∉ x) ∧ (chr ";" ∉ x).
Definition word (x : str) : Prop := clean x ∧ x ≠ [] ∧ trimmed x = true.

Record step_wf (s : StepText) : Prop := {
  sw_app : word (st_app s) ∧ (chr "(" ∉ st_app s);
  sw_args : ∀ a, st_args s = Some a → clean a;
  sw_label : ∀ l, st_label s = Some l → clean l ∧ (chr "," ∉ l) }.

(** The first priority of an extension cannot be written with [same =>]. *)
Record ext_wf (e : ExtText) : Prop := {
  ew_pattern : word (et_pattern e) ∧ (chr "," ∉ et_pattern e);
  ew_steps : Forall step_wf (et_steps e) ∧ Z.of_nat (length (et_steps e)) < 2 ^ 31;
  ew_first : ∃ s ss, et_steps e = s :: ss ∧ st_same s = false }.

Record ctx_wf (c : CtxText) : Prop := {
  cw_name : clean (ct_name c);
  cw_includes : Forall word (ct_includes c);
  cw_extens : Forall ext_wf (ct_extens c) ∧ NoDup (et_pattern <$> ct_extens c) }.

Definition file_wf (cs : list CtxText) : Prop := Forall ctx_wf cs ∧ NoDup (ct_name <$> cs).

(** ** Lemmas: one line *)

Lemma open_part_open x : last x ≠ Some (chr ")") → open_part x = x.
Proof.
  induction x as [|ch x IH]; [done|]. cbn. destruct x as [|c2 x].
  - intros Hl. cbn. rewrite bool_decide_false; [done|]. by intros ->.
  - intros Hl. rewrite IH by done. done.
Qed.

Lemma open_part_app x y : open_part y = [] → open_part (x ++ y) = open_part x.
Proof. intros Hy. induction x as [|ch x IH]; [done|]. cbn. by rewrite IH. Qed.

Lemma open_part_close x : open_part (x ++ lit ")") = open_part x.
Proof. by apply open_part_app. Qed.

Lemma trim_end_char_close x : trim_end_char (chr ")") x = open_part x.
Proof.
  unfold trim_end_char. induction x as [|ch x IH] using rev_ind; [done|]. destruct (decide (ch = chr ")")) as [->|Hne].
  - rewrite trim_end_by_app by done. rewrite IH. symmetry. exact (open_part_close x).
  - rewrite trim_end_by_snoc by by apply N.eqb_neq. rewrite open_part_open; [done|]. rewrite last_snoc. congruence.
Qed.

Lemma find_paren a b : (chr "(" ∉ a) →
  find_char (chr "(") (a ++ lit "(" ++ b) = Some (len a)
  ∧ slice_to (a ++ lit "(" ++ b) (len a) = Done a ∧ slice_from (a ++ lit "(" ++ b) (len a + 1)%N = Done b.
Proof.
  intros Ha. assert (E : find_char (chr "(") (a ++ lit "(" ++ b) = Some (len a)).
  { apply find_char_Some. by exists a, b. }
  destruct (find_char_slices _ _ _ E eq_refl) as (a' & b' & Ex & _ & Hl & -> & ->).
  assert (a' = a ∧ b' = b) as [-> ->]; [|done].
  pose proof (split_at_app a (lit "(" ++ b)) as S1. pose proof (split_at_app a' (chr "(" :: b')) as S2.
  rewrite <-Hl, <-Ex, S1 in S2. by injection S2.
Qed.

Lemma show_int_cons n : 0 ≤ n → ∃ d ds, show_int n = d :: ds ∧ is_ascii_digit d = true.
Proof.
  intros Hn. destruct (show_int n) as [|d ds] eqn:E.
  - unfold show_int in E. destruct (Z.ltb_spec n 0); [lia|]. destruct (show_nonneg_spec n Hn) as (d & ds & E' & _). congruence.
  - exists d, ds. split; [done|]. apply (elem_of_show_int n); [done|]. rewrite E. by left.
Qed.

Lemma parse_print_priority n s :
  step_wf s → 0 ≤ n < 2 ^ 31 →
  parse_priority (print_priority n s) = Done (Some (if st_number s then n else -1, open_part <$> st_label s)).
Proof.
  intros [_ _ Hlab] Hn. unfold print_priority, parse_priority.
  assert (Hdig : ∀ ch, ch ∈ show_int n → is_ascii_digit ch = true) by (intros ch; apply elem_of_show_int; lia).
  assert (Hpar : chr "(" ∉ show_int n) by (intros Hin%Hdig; done).
  assert (Hnn : ∀ w x, hd 0%N (to_ascii_lowercase w) = chr "n" ∨ hd 0%N (to_ascii_lowercase w) = chr "h" →
    eq_ignore_ascii_case (show_int n ++ x) w = false).
  { intros w x Hw. unfold eq_ignore_ascii_case, str_eqb. apply bool_decide_eq_false_2. intros E.
    destruct (show_int_cons n) as (ch & r & Er & Hd); [lia|]. rewrite Er in E. apply digit_bounds in Hd.
    rewrite <-E in Hw. cbn in Hw. unfold to_ascii_lower in Hw. destruct (is_ascii_upper ch); destruct Hw as [Hw|Hw]; cbn in Hw; lia. }
  destruct (st_label s) as [l|] eqn:El.
  - cbn [fmap option_fmap option_map]. destruct (st_number s).
    + rewrite !Hnn by (by (left + right)). destruct (find_paren (show_int n) (l ++ lit ")") Hpar) as (-> & -> & ->).
      cbn [outcome_bind]. rewrite trim_end_char_close, open_part_close. pose proof (Hnn (lit "n") [] ltac:(by left)) as E.
      rewrite app_nil_r in E. rewrite E. by rewrite parse_i32_show.
    + destruct (find_paren (lit "n") (l ++ lit ")")) as (-> & -> & ->); [apply (bool_decide_unpack _); by vm_compute|].
      cbn [outcome_bind]. rewrite trim_end_char_close, open_part_close.
      assert (E1 : eq_ignore_ascii_case (lit "n" ++ lit "(" ++ l ++ lit ")") (lit "n") = false) by done.
      assert (E2 : eq_ignore_ascii_case (lit "n" ++ lit "(" ++ l ++ lit ")") (lit "hint") = false) by done.
      rewrite E1, E2. done.
  - rewrite app_nil_r. destruct (st_number s); [|done].
    pose proof (Hnn (lit "n") [] ltac:(by left)) as E1. pose proof (Hnn (lit "hint") [] ltac:(by right)) as E2.
    rewrite app_nil_r in E1, E2. rewrite E1, E2. apply find_char_None in Hpar as ->. by rewrite parse_i32_show.
Qed.

Lemma parse_print_app s : step_wf s → parse_application (print_app s) = Done (st_app s, open_part (default [] (st_args s))).
Proof.
  intros [[[_ [_ Ht]] Hp] Ha _]. unfold print_app, parse_application. destruct (st_args s) as [a|].
  - destruct (find_paren (st_app s) (a ++ lit ")") Hp) as (-> & -> & ->). cbn [outcome_bind].
    by rewrite trim_end_char_close, open_part_close, trim_trimmed.
  - rewrite app_nil_r. apply find_char_None in Hp as ->. by rewrite trim_trimmed.
Qed.

Definition keyword (k : str) : Prop := k = lit "exten" ∨ k = lit "same" ∨ k = lit "include".

Lemma trim_padded_1 x : trimmed x = true → trim (32%N :: x) = x.
Proof. intros Hx. pose proof (trim_padded [32%N] x [] eq_refl eq_refl Hx) as E. by rewrite app_nil_r in E. Qed.

(** A line with a keyword in a context. *)
Lemma load_keyword n k d name st :
  keyword k → d ≠ [] → trimmed d = true → (chr ";" ∉ d) → current_context st = Some name →
  load_line n (k ++ lit " => " ++ d) st = directive_line n name (k ++ lit " => " ++ d) st.
Proof.
  intros Hk Hd Ht Hs Hc. set (l := k ++ lit " => " ++ d). unfold load_line.
  assert (Etrim : trim l = l).
  { apply trim_trimmed. unfold l. apply trimmed_app; [by destruct Hk as [-> |[-> | ->]]|done| |done].
    by destruct Hk as [-> |[-> | ->]]. }
  assert (Hsemi : find_char (chr ";") l = None).
  { apply find_char_None. unfold l. rewrite !elem_of_app. intros [H|[H|H]]; [|by vm_compute in H; set_solver|done].
    destruct Hk as [-> |[-> | ->]]; revert H; apply (bool_decide_unpack _); by vm_compute. }
  rewrite Etrim. assert (E : bool_decide (l = []) || starts_with (lit ";") l || starts_with (lit "#") l = false)
    by (by destruct Hk as [-> |[-> | ->]]). rewrite E, Hsemi. cbn [outcome_bind].
  assert (E2 : starts_with (lit "[") l && bool_decide (is_Some (strip_suffix (lit "]") l)) = false)
    by (by destruct Hk as [-> |[-> | ->]]). by rewrite E2, Hc.
Qed.

Lemma directive_keyword k k' d :
  keyword k → keyword k' → directive k' (k ++ lit " => " ++ d) = if decide (k = k') then Some (32%N :: d) else None.
Proof. intros [-> |[-> | ->]] [-> |[-> | ->]]; done. Qed.

Lemma clean_app x y : clean x → clean y → clean (x ++ y).
Proof. unfold clean. intros [? ?] [? ?]. rewrite !elem_of_app. tauto. Qed.

Lemma clean_digits n : 0 ≤ n → clean (show_int n).
Proof. intros Hn. split; intros Hin%(elem_of_show_int n); done. Qed.

Ltac clean_lit := split; apply (bool_decide_unpack _); by vm_compute.

Lemma print_priority_clean n s : step_wf s → 0 ≤ n → clean (print_priority n s) ∧ (chr "," ∉ print_priority n s)
  ∧ print_priority n s ≠ [] ∧ trimmed (print_priority n s) = true.
Proof.
  intros [_ _ Hlab] Hn. unfold print_priority.
  assert (Hp : clean (if st_number s then show_int n else lit "n") ∧ (chr "," ∉ (if st_number s then show_int n else lit "n"))
    ∧ (if st_number s then show_int n else lit "n") ≠ [] ∧ trimmed (if st_number s then show_int n else lit "n") = true).
  { destruct (st_number s).
    - split; [by apply clean_digits|]. split; [intros Hin%(elem_of_show_int n); done|]. split.
      + by destruct (show_int_cons n Hn) as (d & ds & -> & _).
      + apply trimmed_no_ws. intros ch Hin%(elem_of_show_int n); [|done]. by apply digit_not_whitespace.
    - split; [clean_lit|]. split; [apply (bool_decide_unpack _); by vm_compute|done]. }
  destruct Hp as (Hp1 & Hp2 & Hp3 & Hp4). destruct (st_label s) as [l|]; [|by rewrite app_nil_r].
  destruct (Hlab l eq_refl) as [Hl Hc]. split; [|split; [|split]].
  - apply clean_app; [done|]. apply clean_app; [clean_lit|]. apply clean_app; [done|clean_lit].
  - rewrite !elem_of_app. intros [H|[H|[H|H]]]; [done| |done|];
      revert H; apply (bool_decide_unpack _); by vm_compute.
  - by destruct (if st_number s then _ else _).
  - pose proof (trimmed_app _ (lit "(" ++ l) (lit ")") Hp3 ltac:(done) Hp4 eq_refl) as E. by rewrite <-app_assoc in E.
Qed.

Lemma print_app_word s : step_wf s → word (print_app s).
Proof.
  intros [[(Hc & Hne & Ht) _] Ha _]. unfold print_app. destruct (st_args s) as [a|]; [|by rewrite app_nil_r].
  pose proof (Ha a eq_refl) as Hca. split; [|split].
  - apply clean_app; [done|]. apply clean_app; [clean_lit|]. apply clean_app; [done|clean_lit].
  - by destruct (st_app s).
  - pose proof (trimmed_app _ (lit "(" ++ a) (lit ")") Hne ltac:(done) Ht eq_refl) as E. by rewrite <-app_assoc in E.
Qed.

(** The part of a line that [same =>] has, and what is read from it. *)
Lemma same_part n s :
  step_wf s → 0 ≤ n < 2 ^ 31 →
  let d := print_priority n s ++ lit "," ++ print_app s in
  word d ∧ parse_same_line d = Done (Some (if st_number s then n else -1, open_part <$> st_label s, st_app s, open_part (default [] (st_args s)))).
Proof.
  intros Hs Hn d. destruct (print_priority_clean n s Hs ltac:(lia)) as (Hp1 & Hp2 & Hp3 & Hp4).
  destruct (print_app_word s Hs) as (Ha1 & Ha2 & Ha3). split.
  - split; [|split].
    + apply clean_app; [done|]. apply clean_app; [clean_lit|done].
    + unfold d. by destruct (print_priority n s).
    + by apply trimmed_app.
  - unfold parse_same_line, d. cbn [splitn].
    change (print_priority n s ++ lit "," ++ print_app s) with (print_priority n s ++ chr "," :: print_app s).
    rewrite (proj2 (split_once_Some (chr ",") _ _ _) (conj eq_refl Hp2)). rewrite !trim_trimmed by done.
    rewrite parse_print_priority by done. cbn [outcome_bind]. by rewrite parse_print_app.
Qed.

Lemma exten_part pattern n s :
  word pattern → (chr "," ∉ pattern) → step_wf s → 0 ≤ n < 2 ^ 31 →
  let d := pattern ++ lit "," ++ print_priority n s ++ lit "," ++ print_app s in
  word d ∧ parse_exten_line d
    = Done (Some (pattern, (if st_number s then n else -1, open_part <$> st_label s, st_app s, open_part (default [] (st_args s))))).
Proof.
  intros (Hc & Hne & Ht) Hcomma Hs Hn d. destruct (same_part n s Hs Hn) as [(Hd1 & Hd2 & Hd3) Hparse]. split.
  - split; [|split].
    + apply clean_app; [done|]. apply clean_app; [clean_lit|done].
    + unfold d. by destruct pattern.
    + by apply trimmed_app.
  - unfold parse_exten_line, d. cbn [splitn].
    change (pattern ++ lit "," ++ print_priority n s ++ lit "," ++ print_app s)
      with (pattern ++ chr "," :: (print_priority n s ++ lit "," ++ print_app s)).
    rewrite (proj2 (split_once_Some (chr ",") _ _ _) (conj eq_refl Hcomma)).
    rewrite Hparse. cbn. by rewrite trim_trimmed.
Qed.

(** ** Lemmas: one extension *)

Definition add_counts (extens prios incls : Z) (r : LoadResult) : LoadResult :=
  mkResult (n_contexts r) (n_extensions r + extens) (n_priorities r + prios) (n_includes r + incls) (warnings r).

Definition with_extension (ctx : Context) (pattern : str) (e : Extension) : Context :=
  mkContext (Dialplan.ctx_name ctx) (<[pattern := e]> (extensions ctx)) (includes ctx).

(** The state after lines of one extension: the extension, and how many were new. *)
Definition loaded (name : str) (ctx : Context) (pattern : str) (e : Extension) (k extens prios : Z) (st : LoadState) : LoadState :=
  mkLoad (mkDialplan (<[name := with_extension ctx pattern e]> (contexts (dialplan st))))
    (add_counts extens prios 0 (result_of st)) (current_context st) (<[(name, pattern) := k]> (next_prio st)) (Some pattern).

Lemma add_counts_0 r : add_counts 0 0 0 r = r.
Proof. destruct r. unfold add_counts. cbn. f_equal; lia. Qed.

Lemma step_loaded n name pattern k s st ctx :
  word pattern → (chr "," ∉ pattern) → step_wf s → 0 < k < 2 ^ 31 →
  current_context st = Some name → contexts (dialplan st) !! name = Some ctx →
  (st_same s = true → last_exten st = Some pattern) →
  default 0 (next_prio st !! (name, pattern)) = k - 1 →
  load_line n (step_line pattern k s) st
  = Done (loaded name ctx pattern (add_priority (default (ext_new pattern) (extensions ctx !! pattern)) (step_priority k s)) k
            (match extensions ctx !! pattern with Some _ => 0 | None => 1 end) 1 st).
Proof.
  intros Hp Hcomma Hs Hk Hc Hctx Hlast Hprev.
  assert (Hadd : ∀ st', dialplan st' = dialplan st → result_of st' = result_of st → current_context st' = current_context st →
    next_prio st' = next_prio st →
    add_step name pattern (if st_number s then k else -1, open_part <$> st_label s, st_app s, open_part (default [] (st_args s))) st'
    = Done (mkLoad (mkDialplan (<[name := with_extension ctx pattern
              (add_priority (default (ext_new pattern) (extensions ctx !! pattern)) (step_priority k s))]> (contexts (dialplan st))))
              (add_counts (match extensions ctx !! pattern with Some _ => 0 | None => 1 end) 1 0 (result_of st))
              (current_context st) (<[(name, pattern) := k]> (next_prio st)) (last_exten st'))).
  { intros st' E1 E2 E3 E4. unfold add_step.
    assert (En : number_priority (name, pattern) (if st_number s then k else -1) (next_prio st')
      = (k, <[(name, pattern) := k]> (next_prio st))).
    { unfold number_priority, next_after. rewrite E4. destruct (st_number s).
      - destruct (Z.eqb_spec k (-1)); [lia|]. by destruct (Z.ltb_spec 0 k); [|lia].
      - cbn [Z.eqb Pos.eqb]. rewrite Hprev. unfold i32_succ.
        replace ((k - 1 + 1 + 2 ^ 31) mod 2 ^ 32 - 2 ^ 31) with k; [done|]. rewrite Z.mod_small; lia. }
    rewrite En. unfold get_context. rewrite E1, Hctx, E2, E3. unfold add_counts.
    destruct (extensions ctx !! pattern) as [ext|]; cbn [default from_option id]; do 2 f_equal;
      cbn; rewrite ?Z.add_0_r; done. }
  unfold step_line. destruct (st_same s) eqn:Esame.
  - destruct (same_part k s Hs ltac:(lia)) as [(Hcl & Hne & Ht) Hparse].
    pose proof (load_keyword n (lit "same") (print_priority k s ++ lit "," ++ print_app s) name st) as E.
    change (lit "same" ++ lit " => " ++ ?d) with (lit "same => " ++ d) in E. rewrite E; try done; [|by right; left|by apply Hcl].
    unfold directive_line. change (lit "same => " ++ ?d) with (lit "same" ++ lit " => " ++ d).
    rewrite !directive_keyword by (unfold keyword; tauto). rewrite decide_False, decide_True by done.
    rewrite (Hlast eq_refl), trim_padded_1, Hparse by done. cbn [outcome_bind]. rewrite Hadd by done.
    unfold loaded. by rewrite Hlast.
  - destruct (exten_part pattern k s Hp Hcomma Hs ltac:(lia)) as [(Hcl & Hne & Ht) Hparse].
    rewrite <-!app_assoc.
    pose proof (load_keyword n (lit "exten") (pattern ++ lit "," ++ print_priority k s ++ lit "," ++ print_app s) name st) as E.
    change (lit "exten" ++ lit " => " ++ ?d) with (lit "exten => " ++ d) in E. rewrite E; try done; [|by left|by apply Hcl].
    unfold directive_line. change (lit "exten => " ++ ?d) with (lit "exten" ++ lit " => " ++ d).
    rewrite !directive_keyword by (unfold keyword; tauto). rewrite decide_True by done.
    rewrite trim_padded_1, Hparse by done. cbn [outcome_bind]. rewrite Hadd by done. done.
Qed.

Lemma numbered_snoc ss s : numbered (ss ++ [s])
  = numbered ss ++ [(Z.of_nat (length ss) + 1, step_priority (Z.of_nat (length ss) + 1) s)].
Proof. unfold numbered. rewrite imap_app. cbn. by rewrite Nat.add_0_r. Qed.

Lemma numbered_fresh ss k : Z.of_nat (length ss) < k → k ∉ (numbered ss).*1.
Proof.
  intros Hk ([k' p] & -> & Hin)%list_elem_of_fmap. apply list_elem_of_lookup in Hin as [i Hi]. unfold numbered in Hi.
  rewrite list_lookup_imap in Hi. apply fmap_Some in Hi as (s & Hs & [= -> ->]). apply lookup_lt_Some in Hs. cbn in Hk. lia.
Qed.

Definition partial (pattern : str) (ss : list StepText) : Extension := mkExtension pattern None (list_to_map (numbered ss)).

Lemma partial_step pattern ss s :
  add_priority (partial pattern ss) (step_priority (Z.of_nat (length ss) + 1) s) = partial pattern (ss ++ [s]).
Proof.
  unfold add_priority, partial. cbn. f_equal. rewrite numbered_snoc, list_to_map_snoc; [done|]. apply numbered_fresh. lia.
Qed.

Lemma loaded_again name ctx pattern e k x p st e' k' p' :
  loaded name (with_extension ctx pattern e) pattern e' k' 0 p' (loaded name ctx pattern e k x p st)
  = loaded name ctx pattern e' k' x (p + p') st.
Proof.
  unfold loaded, with_extension. cbn. rewrite !insert_insert_eq. f_equal. unfold add_counts. cbn. f_equal; lia.
Qed.

Lemma steps_loaded name pattern ss :
  word pattern → (chr "," ∉ pattern) → Forall step_wf ss →
  ∀ done n st ctx x p,
  Z.of_nat (length done + length ss) < 2 ^ 31 → current_context st = Some name →
  load_lines n (imap (λ i s, step_line pattern (Z.of_nat (length done + i) + 1) s) ss)
    (loaded name ctx pattern (partial pattern done) (Z.of_nat (length done)) x p st)
  = Done (loaded name ctx pattern (partial pattern (done ++ ss)) (Z.of_nat (length (done ++ ss))) x (p + Z.of_nat (length ss)) st).
Proof.
  intros Hp Hcomma Hss. induction Hss as [|s ss Hs _ IH]; intros done n st ctx x p Hlen Hc.
  - cbn. by rewrite app_nil_r, Z.add_0_r.
  - cbn [imap load_lines]. rewrite Nat.add_0_r.
    rewrite (step_loaded n name pattern _ s _ (with_extension ctx pattern (partial pattern done))); try done.
    + cbn [outcome_bind with_extension extensions]. rewrite lookup_insert_eq. cbn [default from_option id].
      rewrite partial_step. fold (with_extension ctx pattern (partial pattern done)). rewrite loaded_again.
      specialize (IH (done ++ [s]) (n + 1) st ctx x (p + 1)). rewrite length_app in IH. cbn [length] in IH, Hlen.
      replace (Z.of_nat (length done) + 1) with (Z.of_nat (length done + 1)) by lia.
      etransitivity; [|etransitivity; [apply IH; [lia|done]|]].
      * f_equal. apply imap_ext. intros i s' _. cbn. f_equal. lia.
      * rewrite <-app_assoc. cbn [length]. do 2 f_equal. lia.
    + cbn [length] in Hlen. lia.
    + cbn. by rewrite lookup_insert_eq.
    + cbn. rewrite lookup_insert_eq. cbn. lia.
Qed.

Lemma ext_loaded name e n st ctx :
  ext_wf e → current_context st = Some name → contexts (dialplan st) !! name = Some ctx →
  extensions ctx !! et_pattern e = None → next_prio st !! (name, et_pattern e) = None →
  load_lines n (ext_lines e) st
  = Done (loaded name ctx (et_pattern e) (ext_of e) (Z.of_nat (length (et_steps e))) 1 (Z.of_nat (length (et_steps e))) st).
Proof.
  intros [[Hp Hcomma] [Hss Hlen] (s & ss & Es & Hfirst)] Hc Hctx Hx Hn. unfold ext_lines, ext_of. rewrite Es in *.
  apply Forall_cons in Hss as [Hs Hss]. cbn [imap load_lines].
  rewrite (step_loaded n name (et_pattern e) _ s st ctx); [|done|done|done|lia|done|done|by rewrite Hfirst|by rewrite Hn].
  rewrite Hx. cbn [outcome_bind default from_option id].
  assert (E : add_priority (ext_new (et_pattern e)) (step_priority (Z.of_nat 0 + 1) s) = partial (et_pattern e) [s]) by done.
  rewrite E. pose proof (steps_loaded name (et_pattern e) ss Hp Hcomma Hss [s] (n + 1) st ctx 1 1) as Hl.
  cbn [length] in Hlen. etransitivity; [|etransitivity; [apply Hl; [cbn [length]; lia|done]|]].
  - f_equal.
  - cbn [length Datatypes.app]. unfold partial. do 2 f_equal. lia.
Qed.

(** ** Lemmas: contexts and files *)

Lemma load_lines_app n a b st :
  load_lines n (a ++ b) st = (let! st := load_lines n a st in load_lines (n + Z.of_nat (length a)) b st).
Proof.
  revert n st. induction a as [|l a IH]; intros n st; cbn; [by rewrite Z.add_0_r|].
  destruct (load_line n l st) as [st'|]; [|done]. cbn. rewrite IH. destruct (load_lines (n + 1) a st'); [|done]. cbn.
  f_equal. lia.
Qed.

(** Numbers are only kept for extensions that are in the dialplan. *)
Definition prios_known (st : LoadState) : Prop :=
  ∀ c p, is_Some (next_prio st !! (c, p)) →
    ∃ ctx, contexts (dialplan st) !! c = Some ctx ∧ is_Some (extensions ctx !! p).

Lemma loaded_known name ctx pattern e k x p st :
  contexts (dialplan st) !! name = Some ctx → prios_known st → prios_known (loaded name ctx pattern e k x p st).
Proof.
  intros Hctx Hinv c q Hq. cbn in *. destruct (decide (c = name)) as [->|Hne].
  - exists (with_extension ctx pattern e). split; [by rewrite lookup_insert_eq|]. cbn.
    destruct (decide (q = pattern)) as [->|Hqp]; [rewrite lookup_insert_eq; by eexists|].
    rewrite lookup_insert_ne by congruence. rewrite lookup_insert_ne in Hq by congruence.
    destruct (Hinv _ _ Hq) as (ctx' & Hc' & Hs). congruence.
  - rewrite lookup_insert_ne in Hq by congruence. destruct (Hinv _ _ Hq) as (ctx' & Hc' & Hs). exists ctx'.
    by rewrite lookup_insert_ne by done.
Qed.

Definition ext_map (es : list ExtText) : gmap str Extension := list_to_map ((λ e, (et_pattern e, ext_of e)) <$> es).

Lemma ext_map_snoc es e : et_pattern e ∉ et_pattern <$> es → ext_map (es ++ [e]) = <[et_pattern e := ext_of e]> (ext_map es).
Proof.
  intros He. unfold ext_map. rewrite fmap_app. cbn. apply list_to_map_snoc. rewrite <-list_fmap_compose. exact He.
Qed.

Lemma ext_map_fresh es p : p ∉ et_pattern <$> es → ext_map es !! p = None.
Proof. intros Hp. apply not_elem_of_list_to_map. by rewrite <-list_fmap_compose. Qed.

Lemma extens_loaded name es : Forall ext_wf es → ∀ done n st cn incl,
  NoDup (et_pattern <$> done ++ es) → current_context st = Some name →
  contexts (dialplan st) !! name = Some (mkContext cn (ext_map done) incl) → prios_known st →
  ∃ st', load_lines n (es ≫= ext_lines) st = Done st'
    ∧ contexts (dialplan st') = <[name := mkContext cn (ext_map (done ++ es)) incl]> (contexts (dialplan st))
    ∧ result_of st' = add_counts (Z.of_nat (length es)) (Z.of_nat (length (es ≫= et_steps))) 0 (result_of st)
    ∧ current_context st' = Some name ∧ prios_known st'.
Proof.
  induction 1 as [|e es He _ IH]; intros done n st cn incl Hnd Hc Hctx Hinv.
  - exists st. split; [done|]. rewrite app_nil_r, insert_id by done. by rewrite add_counts_0.
  - assert (Hfresh : et_pattern e ∉ et_pattern <$> done).
    { rewrite fmap_app, fmap_cons in Hnd. apply NoDup_app in Hnd as (_ & Hd & _). intros Hin. apply (Hd _ Hin). by left. }
    cbn [mbind list_bind]. rewrite load_lines_app, (ext_loaded name e n st _ He Hc Hctx); [|by apply ext_map_fresh|].
    2: { destruct (next_prio st !! (name, et_pattern e)) as [k|] eqn:Ek; [|done].
      destruct (Hinv name (et_pattern e)) as (ctx & Hctx' & [e' He']); [by eexists|]. rewrite Hctx in Hctx'.
      injection Hctx' as <-. cbn in He'. by rewrite ext_map_fresh in He'. }
    cbn [outcome_bind]. set (st1 := loaded _ _ _ _ _ _ _ _).
    edestruct (IH (done ++ [e]) (n + Z.of_nat (length (ext_lines e))) st1 cn incl) as (st' & E & H1 & H2 & H3 & H4).
    + by rewrite <-app_assoc.
    + done.
    + unfold st1. cbn. rewrite lookup_insert_eq. f_equal. unfold with_extension. cbn. by rewrite ext_map_snoc.
    + by apply loaded_known.
    + exists st'. split; [exact E|]. rewrite H1, H2. cbn. rewrite insert_insert_eq, <-app_assoc.
      split; [done|]. split; [|done]. unfold add_counts. cbn. rewrite length_app. f_equal; lia.
Qed.

Lemma includes_loaded name incs : Forall word incs → ∀ n st ctx,
  current_context st = Some name → contexts (dialplan st) !! name = Some ctx →
  load_lines n ((λ i, lit "include => " ++ i) <$> incs) st
  = Done (mkLoad (mkDialplan (<[name := mkContext (Dialplan.ctx_name ctx) (extensions ctx) (includes ctx ++ incs)]> (contexts (dialplan st))))
            (add_counts 0 0 (Z.of_nat (length incs)) (result_of st)) (current_context st) (next_prio st) (last_exten st)).
Proof.
  induction 1 as [|i incs (Hcl & Hne & Ht) _ IH]; intros n st ctx Hc Hctx.
  - cbn. rewrite app_nil_r. rewrite insert_id by (by destruct ctx). rewrite add_counts_0. by destruct st as [[]].
  - rewrite fmap_cons. cbn [load_lines].
    pose proof (load_keyword n (lit "include") i name st) as E.
    change (lit "include" ++ lit " => " ++ i) with (lit "include => " ++ i) in E.
    rewrite E; [|by right; right|done|done|by apply Hcl|done]. unfold directive_line.
    change (lit "include => " ++ i) with (lit "include" ++ lit " => " ++ i).
    rewrite !directive_keyword by (unfold keyword; tauto). rewrite !decide_False, decide_True by done.
    cbn [outcome_bind]. unfold include_line, get_context. rewrite Hctx, trim_padded_1 by done.
    erewrite IH; [|done|cbn; by rewrite lookup_insert_eq]. cbn. rewrite insert_insert_eq, <-app_assoc.
    do 2 f_equal. unfold add_counts. cbn. f_equal; lia.
Qed.

Lemma header_loaded n name st :
  clean name → contexts (dialplan st) !! name = None →
  load_line n (lit "[" ++ name ++ lit "]") st
  = Done (mkLoad (mkDialplan (<[name := ctx_new name]> (contexts (dialplan st))))
            (mkResult (n_contexts (result_of st) + 1) (n_extensions (result_of st)) (n_priorities (result_of st))
               (n_includes (result_of st)) (warnings (result_of st)))
            (Some name) (next_prio st) None).
Proof.
  intros [_ Hs] Hn. set (l := lit "[" ++ name ++ lit "]"). unfold load_line.
  assert (Etrim : trim l = l) by (by apply trim_trimmed, trimmed_app).
  assert (Hsemi : find_char (chr ";") l = None).
  { apply find_char_None. unfold l. rewrite !elem_of_app. intros [H|[H|H]]; [|done|];
      revert H; apply (bool_decide_unpack _); by vm_compute. }
  rewrite Etrim. assert (E : bool_decide (l = []) || starts_with (lit ";") l || starts_with (lit "#") l = false) by done.
  rewrite E, Hsemi. cbn [outcome_bind].
  assert (E2 : starts_with (lit "[") l = true) by (apply starts_with_true; by eexists).
  assert (E3 : strip_suffix (lit "]") l = Some (lit "[" ++ name)) by (unfold l; rewrite app_assoc; apply strip_suffix_app).
  rewrite E2, bool_decide_true by (rewrite E3; by eexists). cbn [andb].
  destruct (bracketed l E2) as (x & Ex & ->); [rewrite E3; by eexists|]. cbn [outcome_bind].
  assert (x = name) as ->.
  { unfold l in Ex. injection Ex as Ex. by apply (inj (λ y, y ++ lit "]")) in Ex. }
  unfold enter_context. by rewrite bool_decide_false by (rewrite Hn; by intros []).
Qed.

Lemma ctx_loaded c n st :
  ctx_wf c → contexts (dialplan st) !! ct_name c = None → prios_known st →
  ∃ st', load_lines n (ctx_lines c) st = Done st'
    ∧ contexts (dialplan st') = <[ct_name c := ctx_of c]> (contexts (dialplan st))
    ∧ result_of st' = mkResult (n_contexts (result_of st) + 1) (n_extensions (result_of st) + Z.of_nat (length (ct_extens c)))
        (n_priorities (result_of st) + Z.of_nat (length (ct_extens c ≫= et_steps)))
        (n_includes (result_of st) + Z.of_nat (length (ct_includes c))) (warnings (result_of st))
    ∧ prios_known st'.
Proof.
  intros [Hname Hincl [Hex Hnd]] Hn Hinv. unfold ctx_lines. cbn [load_lines]. rewrite header_loaded by done.
  cbn [outcome_bind]. set (st1 := mkLoad _ _ _ _ _). rewrite load_lines_app.
  rewrite (includes_loaded (ct_name c) _ Hincl _ st1 (ctx_new (ct_name c))); [|done|by apply lookup_insert_eq].
  cbn [outcome_bind]. set (st2 := mkLoad _ _ _ _ _).
  destruct (extens_loaded (ct_name c) (ct_extens c) Hex [] (n + 1 + Z.of_nat (length ((λ i, lit "include => " ++ i) <$> ct_includes c)))
    st2 (ct_name c) (ct_includes c)) as (st' & E & H1 & H2 & _ & H4).
  - done.
  - done.
  - unfold st2. cbn. by rewrite lookup_insert_eq.
  - intros cn p Hp. unfold st2 in *. cbn in *. destruct (Hinv cn p Hp) as (ctx & Hctx & Hs). exists ctx. split; [|done].
    rewrite !lookup_insert_ne; [done|congruence..].
  - exists st'. split; [exact E|]. rewrite H1, H2. unfold st2, st1. cbn. rewrite !insert_insert_eq.
    split; [done|]. split; [|done]. unfold add_counts. cbn. f_equal; lia.
Qed.

Definition ctx_map (cs : list CtxText) : gmap str Context := list_to_map ((λ c, (ct_name c, ctx_of c)) <$> cs).

Lemma file_loaded cs : Forall ctx_wf cs → ∀ done n st,
  NoDup (ct_name <$> done ++ cs) → contexts (dialplan st) = ctx_map done → prios_known st →
  result_of st = counts_of done →
  ∃ st', load_lines n (cs ≫= ctx_lines) st = Done st' ∧ dialplan st' = dialplan_of (done ++ cs) ∧ result_of st' = counts_of (done ++ cs).
Proof.
  induction 1 as [|c cs Hc _ IH]; intros done n st Hnd Hdp Hinv Hr.
  - exists st. rewrite app_nil_r. split; [done|]. split; [|done]. destruct (dialplan st). cbn in Hdp. by rewrite Hdp.
  - assert (Hfresh : ct_name c ∉ ct_name <$> done).
    { rewrite fmap_app, fmap_cons in Hnd. apply NoDup_app in Hnd as (_ & Hd & _). intros Hin. apply (Hd (ct_name c)); [|by left].
      exact Hin. }
    cbn [mbind list_bind]. rewrite load_lines_app.
    destruct (ctx_loaded c n st Hc) as (st1 & -> & H1 & H2 & H3); [|done|].
    { rewrite Hdp. apply not_elem_of_list_to_map. by rewrite <-list_fmap_compose. }
    cbn [outcome_bind]. destruct (IH (done ++ [c]) (n + Z.of_nat (length (ctx_lines c))) st1) as (st' & E & E1 & E2).
    + by rewrite <-app_assoc.
    + rewrite H1, Hdp. unfold ctx_map. rewrite fmap_app. cbn. symmetry. apply list_to_map_snoc. by rewrite <-list_fmap_compose.
    + done.
    + rewrite H2, Hr. unfold counts_of, count. cbn. rewrite !bind_app, !length_app. cbn. rewrite !app_nil_r.
      f_equal; lia.
    + exists st'. rewrite <-app_assoc in E1, E2. done.
Qed.

(** ** Theorem *)

Lemma ctx_lines_ok c : ctx_wf c → Forall (λ l, (10%N ∉ l) ∧ last l ≠ Some 13%N) (ctx_lines c).
Proof.
  assert (Hword : ∀ k x, word x → clean k → (10%N ∉ k ++ x) ∧ last (k ++ x) ≠ Some 13%N).
  { intros k x (Hcl & Hne & Ht) Hk. split; [by apply clean_app|]. destruct x as [|ch x _] using rev_ind; [done|].
    rewrite app_assoc, last_snoc. intros [= ->]. unfold trimmed in Ht.
    destruct (x ++ [13%N]) as [|c0 x0] eqn:E; [by destruct x|]. rewrite <-E, last_snoc in Ht.
    by rewrite andb_false_r in Ht. }
  intros [Hname Hincl [Hex _]]. unfold ctx_lines. constructor; [|apply Forall_app; split].
  - split; [by apply clean_app; [clean_lit|apply clean_app; [|clean_lit]]|]. by rewrite app_assoc, last_snoc.
  - apply Forall_fmap. eapply Forall_impl; [exact Hincl|]. intros i Hi. apply Hword; [done|clean_lit].
  - apply Forall_bind. eapply Forall_impl; [exact Hex|]. intros e [[Hp Hcomma] [Hss Hlen] _].
    apply Forall_lookup. intros i l Hl. unfold ext_lines in Hl. rewrite list_lookup_imap in Hl.
    apply fmap_Some in Hl as (s & Hs & ->). eapply Forall_lookup in Hss; [|exact Hs].
    apply lookup_lt_Some in Hs. destruct (same_part (Z.of_nat i + 1) s Hss ltac:(lia)) as [Hw _].
    unfold step_line. destruct (st_same s); apply Hword; try done; [clean_lit|].
    apply clean_app; [clean_lit|]. apply clean_app; [apply Hp|clean_lit].
Qed.

(** C19. What is written is what is loaded.  A dialplan whose contexts have distinct
    names, and whose extensions have distinct patterns in their context, is loaded without a
    warning: every context with its includes in order, every extension with its priorities
    numbered from one, labels, application names and arguments; whether priorities are
    written with [n] or their number, with [exten =>] or [same =>].  Arguments and labels
    are any text without a semicolon or a line break (a label: without a comma), and of them
    all is loaded but the closing parentheses they end with: those the loader drops
    ([Dial(SIP/x,30,M(f))] has the arguments [SIP/x,30,M(f]). *)
Theorem load_rendered_dialplan (cs : list CtxText) :
  file_wf cs → load_extensions_conf (render cs) = Done (dialplan_of cs, counts_of cs).
Proof.
  intros [Hcs Hnd]. unfold load_extensions_conf, render. rewrite lines_of_render.
  - destruct (file_loaded cs Hcs [] 1 load_init) as (st & E & E1 & E2); try done.
    + intros c p [v Hv]. change (next_prio load_init) with (∅ : gmap (str * str) Z) in Hv. by rewrite lookup_empty in Hv.
    + rewrite E. cbn [outcome_bind]. by rewrite E1, E2.
  - apply Forall_bind. eapply Forall_impl; [exact Hcs|]. intros c. apply ctx_lines_ok.
Qed.

(** The arguments of an application lose every closing parenthesis they end with. *)
Example closing_parentheses_lost :
  parse_application (lit "Dial(SIP/x,30,M(f))") = Done (lit "Dial", lit "SIP/x,30,M(f").
Proof. by vm_compute. Qed.

(** A header that is not a bare name in brackets, such as that of a template, is
    ignored: the lines after it go to the context before it. *)
Example template_header_ignored :
  load_extensions_conf (lit "[a]" ++ [10%N] ++ lit "[b](!)" ++ [10%N] ++ lit "exten => 1,1,Answer()" ++ [10%N])
  = Done (dialplan_of [mkCtxText (lit "a") [] [mkExtText (lit "1") [mkStep None (lit "Answer") (Some []) false true]]],
          mkResult 1 1 1 0 []).
Proof. by vm_compute. Qed.

(** ** Witness *)

Definition sample_dialplan : list CtxText :=
  [mkCtxText (lit "default") [lit "internal"]
     [mkExtText (lit "_1XX")
        [mkStep (Some (lit "start")) (lit "Answer") None false true;
         mkStep None (lit "Set") (Some (lit "CDR(x)=${EXTEN}, y")) true false;
         mkStep (Some (lit "end")) (lit "Hangup") (Some []) false false]];
   mkCtxText (lit "internal") [] [mkExtText (lit "200") [mkStep None (lit "Dial") (Some (lit "SIP/200,30,M(f)")) false false]]].

Lemma sample_dialplan_wf : file_wf sample_dialplan.
Proof.
  assert (Hw : ∀ x, bool_decide ((10%N ∉ x) ∧ (chr ";" ∉ x) ∧ x ≠ [] ∧ trimmed x = true) = true → word x)
    by (intros x (H1 & H2 & H3 & H4)%bool_decide_eq_true; done).
  assert (Hu : ∀ x, bool_decide ((10%N ∉ x) ∧ (chr ";" ∉ x)) = true → clean x)
    by (intros x (H1 & H2)%bool_decide_eq_true; done).
  assert (Hs : ∀ s, word (st_app s) → bool_decide (chr "(" ∉ st_app s) = true → clean (default [] (st_args s)) →
    clean (default [] (st_label s)) → bool_decide (chr "," ∉ default [] (st_label s)) = true → step_wf s).
  { intros [lab ap ar b1 b2] H1 H2%bool_decide_eq_true H3 H4 H5%bool_decide_eq_true; split; cbn in *.
    - done.
    - by intros a ->.
    - by intros l ->. }
  assert (He : ∀ p s ss, word p → bool_decide (chr "," ∉ p) = true → Forall step_wf (s :: ss) →
    Z.of_nat (length (s :: ss)) < 2 ^ 31 → st_same s = false → ext_wf (mkExtText p (s :: ss))).
  { intros p s ss H1 H2%bool_decide_eq_true H3 H4 H5. split; [done|done|]. by exists s, ss. }
  assert (Hst : ∀ l a ar b1 b2, word a → bool_decide (chr "(" ∉ a) = true → clean (default [] ar) →
    clean (default [] l) → bool_decide (chr "," ∉ default [] l) = true → step_wf (mkStep l a ar b1 b2))
    by (intros; by apply Hs).
  unfold file_wf, sample_dialplan. rewrite Forall_cons, Forall_singleton. split; [split|].
  - split; [by apply Hu|apply Forall_singleton; by apply Hw|].
    split; [apply Forall_singleton|apply (bool_decide_unpack _); by vm_compute].
    apply He; [by apply Hw|done| |done|done]. rewrite !Forall_cons. split; [|split; [|split; [|done]]];
      (apply Hst; [by apply Hw|done|by apply Hu|by apply Hu|done]).
  - split; [by apply Hu|done|]. split; [apply Forall_singleton|apply (bool_decide_unpack _); by vm_compute].
    apply He; [by apply Hw|done| |done|done]. rewrite Forall_singleton.
    apply Hst; [by apply Hw|done|by apply Hu|by apply Hu|done].
  - apply (bool_decide_unpack _). by vm_compute.
Qed.

Lemma load_rendered_dialplan_witness :
  load_extensions_conf (render sample_dialplan) = Done (dialplan_of sample_dialplan, mkResult 2 2 4 1 [])
  ∧ length (lines (render sample_dialplan)) = 7%nat.
Proof. split; [apply (load_rendered_dialplan sample_dialplan), sample_dialplan_wf|by vm_compute]. Defined.
