(* ===== verification/Path.v ===== *)
(** * Rust's [std::path::Path] on Unix

    A path is its text.  [path_join], [parent] and [is_absolute] follow the
    Standard Library; [components] is what a path names.  Shared by the code that
    opens files relative to other files. *)

From Stdlib Require Import NArith Ascii String.
From S2P Require Import Prelude RustStr.
Local Open Scope N_scope.
Local Open Scope list_scope.

Definition is_absolute (p : str) : bool := starts_with (lit "/") p.

(** [Path::join]: an absolute path replaces the base. *)
Definition path_join (base p : str) : str :=
  if is_absolute p then p
  else if bool_decide (base = []) || bool_decide (last base = Some (chr "/")) then base ++ p
  else base ++ lit "/" ++ p.

(** [Components::include_cur_dir]: a leading [.] is a component. *)
Definition include_cur_dir (p : str) : bool :=
  match p with
  | ch :: rest =>
      (ch =? chr ".") && match rest with [] => true | ch' :: _ => ch' =? chr "/" end
  | [] => false
  end.

Definition len_before_body (p : str) : nat := if is_absolute p || include_cur_dir p then 1 else 0.

(** Empty components and [.] are skipped. *)
Definition no_component (x : str) : bool := bool_decide (x = []) || bool_decide (x = lit ".").

(** [Components::parse_next_component_back]: the last component and the text before it. *)
Definition last_piece (body : str) : str * str :=
  match rsplit_once (chr "/") body with Some (rest, x) => (x, rest) | None => (body, []) end.

(** [Components::trim_right] *)
Fixpoint trim_right (fuel : nat) (body : str) : str :=
  match fuel with
  | O => body
  | S fuel =>
      if bool_decide (body = []) then body
      else if no_component (last_piece body).1 then trim_right fuel (last_piece body).2 else body
  end.

(** [Path::parent]: the path without its last component; none for a root or an empty path. *)
Definition parent (p : str) : option str :=
  let pre := take (len_before_body p) p in
  let body := trim_right (length p) (drop (len_before_body p) p) in
  if bool_decide (body = []) then if is_absolute p || bool_decide (pre = []) then None else Some []
  else Some (pre ++ trim_right (length p) (last_piece body).2).

(** ** What a path names *)

Definition components (p : str) : list str := filter (λ x, no_component x = false) (split (chr "/") p).

(** A path whose text ends in a slash or in [.] names a directory. *)
Definition names_directory (p : str) : bool := no_component (default [] (last (split (chr "/") p))).

(** [p] is in or below the directory [base], without going through a parent
    directory. *)
Definition under (base p : str) : Prop :=
  is_absolute p = is_absolute base ∧ ∃ rest, components p = components base ++ rest ∧ (lit ".." ∉ rest).

(** ** Lemmas *)

Lemma split_snoc_piece ch a x : ch ∉ x → split ch (a ++ ch :: x) = split ch a ++ [x].
Proof.
  intros Hx. induction a as [|ch' a IH]; cbn [Datatypes.app split].
  - by rewrite N.eqb_refl, split_no_sep.
  - rewrite IH. destruct (ch' =? ch); [done|]. destruct (split ch a) as [|p ps] eqn:E; [by apply split_nonempty in E|done].
Qed.

Lemma split_app_sep ch a b : split ch (a ++ ch :: b) = split ch a ++ split ch b.
Proof.
  induction a as [|ch' a IH]; cbn [Datatypes.app split]; [by rewrite N.eqb_refl|].
  rewrite IH. destruct (ch' =? ch); [done|]. destruct (split ch a) as [|p ps] eqn:E; [by apply split_nonempty in E|done].
Qed.

Lemma rsplit_once_Some ch x a b : rsplit_once ch x = Some (a, b) → x = a ++ ch :: b ∧ ch ∉ b.
Proof.
  revert a. induction x as [|ch' x IH]; intros a; cbn; [done|].
  destruct (rsplit_once ch x) as [[a' b']|] eqn:E.
  - intros [= <- <-]. destruct (IH a' eq_refl) as [-> ?]. done.
  - destruct (N.eqb_spec ch' ch) as [->|]; [|done]. intros [= <- <-]. split; [done|]. by apply rsplit_once_None.
Qed.

(** The pieces of a text, from the last piece. *)
Lemma last_piece_split body x rest :
  last_piece body = (x, rest) →
  (split (chr "/") body = split (chr "/") rest ++ [x] ∧ body = rest ++ chr "/" :: x)
  ∨ (split (chr "/") body = [x] ∧ rest = [] ∧ body = x).
Proof.
  unfold last_piece. destruct (rsplit_once _ body) as [[a b]|] eqn:E; intros [= <- <-].
  - apply rsplit_once_Some in E as [-> Hb]. left. split; [|done]. by apply split_snoc_piece.
  - right. apply rsplit_once_None in E. split; [|done]. by apply split_no_sep.
Qed.

Lemma components_nil : components [] = [].
Proof. done. Qed.

Lemma filter_piece x : filter (λ x, no_component x = false) [x] = if no_component x then [] else [x].
Proof.
  destruct (no_component x) eqn:E; [rewrite filter_cons_False|rewrite filter_cons_True by done]; try done.
  by rewrite E.
Qed.

Lemma components_last_piece body :
  components body = components (last_piece body).2
    ++ (if no_component (last_piece body).1 then [] else [(last_piece body).1]).
Proof.
  unfold components. destruct (last_piece body) as [x rest] eqn:E.
  apply last_piece_split in E as [[-> _]|(-> & -> & _)]; cbn [fst snd].
  - by rewrite filter_app, filter_piece.
  - by rewrite filter_piece.
Qed.

Lemma last_piece_shorter body : body ≠ [] → (length (last_piece body).2 < length body)%nat.
Proof.
  intros Hb. destruct (last_piece body) as [x rest] eqn:E. apply last_piece_split in E as [[_ ->]|(_ & -> & _)]; cbn.
  - rewrite length_app. cbn. lia.
  - destruct body; [done|]. cbn. lia.
Qed.

Lemma trim_right_spec fuel body :
  (length body ≤ fuel)%nat →
  components (trim_right fuel body) = components body
  ∧ (trim_right fuel body = [] ∨ no_component (last_piece (trim_right fuel body)).1 = false).
Proof.
  revert body. induction fuel as [|fuel IH]; intros body Hf; cbn [trim_right].
  { destruct body; [|cbn in Hf; lia]. split; [done|by left]. }
  case_bool_decide as Hb; [split; [done|by left]|]. destruct (no_component (last_piece body).1) eqn:Ex.
  - pose proof (last_piece_shorter body Hb). destruct (IH (last_piece body).2 ltac:(lia)) as [IH1 IH2]. split; [|done].
    rewrite IH1, (components_last_piece body), Ex. by rewrite app_nil_r.
  - split; [done|by right].
Qed.

Lemma components_cons_sep x : components (chr "/" :: x) = components x.
Proof. done. Qed.

Lemma components_app_sep a b : components (a ++ chr "/" :: b) = components a ++ components b.
Proof. unfold components. by rewrite split_app_sep, filter_app. Qed.

(** The text before the body holds no component. *)
Lemma components_body p : components p = components (drop (len_before_body p) p).
Proof.
  unfold len_before_body. destruct (is_absolute p) eqn:Ha; cbn [orb].
  { apply starts_with_true in Ha as [y ->]. done. }
  destruct p as [|ch p]; [done|]. cbn [include_cur_dir].
  destruct (N.eqb_spec ch (chr ".")) as [->|]; cbn [andb]; [|done]. destruct p as [|ch p]; [done|].
  destruct (N.eqb_spec ch (chr "/")) as [->|]; [|done]. done.
Qed.

Lemma is_absolute_app a b : a ≠ [] → is_absolute (a ++ b) = is_absolute a.
Proof.
  intros Ha. destruct a as [|ch a]; [done|]. unfold is_absolute, starts_with.
  cbn [Datatypes.app strip_prefix]. by destruct (chr "/" =? ch).
Qed.

Lemma components_join base p :
  is_absolute p = false → components (path_join base p) = components base ++ components p
    ∧ is_absolute (path_join base p) = is_absolute base.
Proof.
  intros Hp. unfold path_join. rewrite Hp. case_bool_decide as Hb; cbn [orb]; [by subst base|].
  case_bool_decide as Hl.
  - split; [|by apply is_absolute_app]. apply last_Some in Hl as [b ->]. rewrite <-app_assoc. cbn [Datatypes.app].
    rewrite components_app_sep, (components_app_sep b []), components_nil, app_nil_r. done.
  - split; [apply components_app_sep|by apply is_absolute_app].
Qed.

Lemma last_split_join base p :
  is_absolute p = false → last (split (chr "/") (path_join base p)) = last (split (chr "/") p).
Proof.
  intros Hp. assert (Hne : split (chr "/") p ≠ []) by apply split_nonempty.
  assert (Hlast : ∀ l, last (l ++ split (chr "/") p) = last (split (chr "/") p)).
  { intros l. destruct (split (chr "/") p) as [|a ps _] using rev_ind; [done|]. by rewrite app_assoc, !last_snoc. }
  unfold path_join. rewrite Hp. case_bool_decide as Hb; cbn [orb]; [by subst base|]. case_bool_decide as Hl; cbn [orb].
  - apply last_Some in Hl as [b ->]. rewrite <-app_assoc. cbn [Datatypes.app]. by rewrite split_app_sep.
  - change (lit "/" ++ p) with (chr "/" :: p). by rewrite split_app_sep.
Qed.

Lemma last_piece_prefix body : (last_piece body).2 `prefix_of` body.
Proof.
  destruct (last_piece body) as [x rest] eqn:E. apply last_piece_split in E as [[_ ->]|(_ & -> & _)]; cbn;
    [by eexists|apply prefix_nil].
Qed.

Lemma trim_right_prefix fuel body : trim_right fuel body `prefix_of` body.
Proof.
  revert body. induction fuel as [|fuel IH]; intros body; cbn; [done|]. case_bool_decide; [done|].
  case_match; [|done]. etransitivity; [apply IH|apply last_piece_prefix].
Qed.

(** A prefix of the body behind what is before the body. *)
Lemma before_body p b :
  b `prefix_of` drop (len_before_body p) p →
  components (take (len_before_body p) p ++ b) = components b
  ∧ is_absolute (take (len_before_body p) p ++ b) = is_absolute p.
Proof.
  intros [z Hz]. unfold len_before_body in *. destruct (is_absolute p) eqn:Ha; cbn [orb] in *.
  { apply starts_with_true in Ha as [y ->]. by split. }
  destruct (include_cur_dir p) eqn:Hd.
  - destruct p as [|ch p]; [done|]. cbn in Hd. apply andb_true_iff in Hd as [->%N.eqb_eq Hd].
    change (p = b ++ z) in Hz. change (take 1 (chr "." :: p)) with (lit "."). split; [|done].
    destruct b as [|ch' b]; [done|]. rewrite Hz in Hd. cbn in Hd. apply N.eqb_eq in Hd as ->. done.
  - change (p = b ++ z) in Hz. split; [done|]. rewrite Hz in Ha |- *. destruct b as [|ch b]; [done|]. by rewrite is_absolute_app in Ha.
Qed.

(** The parent of a path has its components but the last, and the same root. *)
Lemma parent_spec p :
  components p ≠ [] →
  ∃ d x, parent p = Some d ∧ components p = components d ++ [x] ∧ is_absolute d = is_absolute p.
Proof.
  intros Hc. unfold parent. pose proof (trim_right_prefix (length p) (drop (len_before_body p) p)) as Hpre.
  destruct (trim_right_spec (length p) (drop (len_before_body p) p)) as [H1 H2]; [rewrite length_drop; lia|].
  set (body := trim_right _ _) in *. rewrite <-components_body in H1.
  rewrite bool_decide_false by (intros E; rewrite E in H1; by rewrite <-H1 in Hc).
  destruct H2 as [E|Hx]; [by rewrite E in H1; rewrite <-H1 in Hc|].
  pose proof (components_last_piece body) as Hb. rewrite Hx, H1 in Hb.
  pose proof (last_piece_prefix body) as Hpre'. set (rest := (last_piece body).2) in *.
  assert (Hlen : (length rest ≤ length p)%nat).
  { apply prefix_length in Hpre, Hpre'. rewrite length_drop in Hpre. lia. }
  destruct (trim_right_spec (length p) rest Hlen) as [H3 _].
  destruct (before_body p (trim_right (length p) rest)) as [H4 H5].
  { etransitivity; [apply trim_right_prefix|]. by etransitivity. }
  eexists _, _. split; [done|]. rewrite H4, H5, H3. split; [exact Hb|done].
Qed.

Lemma no_component_of_filter x p : x ∈ components p → x ∈ split (chr "/") p.
Proof. unfold components. rewrite list_elem_of_filter. tauto. Qed.

(** A text without [..] has no parent directory among its components. *)
Lemma components_plain p : contains (lit "..") p = false → lit ".." ∉ components p.
Proof.
  intros Hp Hin%no_component_of_filter. apply bool_decide_eq_false in Hp. apply Hp.
  rewrite <-(join_split (chr "/") p). revert Hin. generalize (split (chr "/") p) as ps.
  assert (Hfind : ∀ a b, is_Some (find (lit "..") (a ++ lit ".." ++ b))).
  { induction a as [|ch a IH]; intros b; [by exists 0|]. destruct (IH b) as [i Hi].
    change ((ch :: a) ++ lit ".." ++ b) with (ch :: (a ++ lit ".." ++ b)). unfold find. fold find.
    case_match; [by eexists|]. rewrite Hi. by eexists. }
  intros ps Hin. apply list_elem_of_split in Hin as (l1 & l2 & ->). induction l1 as [|q l1 IH].
  - destruct l2 as [|q l2]; [by exists 0|]. exact (Hfind [] (chr "/" :: join (chr "/") (q :: l2))).
  - cbn [Datatypes.app]. assert (E : ∃ z, l1 ++ lit ".." :: l2 = z ∧ z ≠ []) by (eexists; split; [done|by destruct l1]).
    destruct E as (z & Ez & Hz). rewrite Ez in *. destruct z as [|r z]; [done|]. rewrite join_cons.
    destruct IH as [i Hi]. apply find_Some in Hi as (a & b & -> & _).
    replace (q ++ chr "/" :: a ++ lit ".." ++ b) with ((q ++ chr "/" :: a) ++ lit ".." ++ b) by by rewrite <-app_assoc.
    apply Hfind.
Qed.

Lemma under_refl base : under base base.
Proof. split; [done|]. exists []. rewrite app_nil_r. split; [done|]. apply not_elem_of_nil. Qed.

(** A relative path without [..], joined to a directory under [base], is under [base]. *)
Lemma under_join base d p :
  under base d → is_absolute p = false → contains (lit "..") p = false → under base (path_join d p).
Proof.
  intros (Ha & rest & Hr & Hn) Hp Hc. destruct (components_join d p Hp) as [H1 H2]. split; [by rewrite H2|].
  exists (rest ++ components p). rewrite H1, Hr, app_assoc. split; [done|].
  rewrite elem_of_app. intros [?|?]; [done|]. by eapply components_plain.
Qed.

(** The directory of a file that is joined so is under [base] too. *)
Lemma under_parent base d p :
  under base d → is_absolute p = false → contains (lit "..") p = false →
  names_directory (path_join d p) = false → under base (default d (parent (path_join d p))).
Proof.
  intros (Ha & rest & Hr & Hn) Hp Hc Hd. destruct (components_join d p Hp) as [H1 H2].
  unfold names_directory in Hd. rewrite last_split_join in Hd by done.
  assert (E : ∃ ps x, split (chr "/") p = ps ++ [x] ∧ no_component x = false).
  { destruct (split (chr "/") p) as [|x ps _] using rev_ind; [done|]. rewrite last_snoc in Hd. by eexists _, _. }
  destruct E as (ps & x & E & Hx).
  assert (Ec : components p = filter (λ x, no_component x = false) ps ++ [x]).
  { unfold components. rewrite E, filter_app, filter_piece. by rewrite Hx. }
  destruct (parent_spec (path_join d p)) as (d' & y & -> & Hy & Hroot).
  { rewrite H1, Ec, app_assoc. intros E0. by apply app_nil in E0 as [_ ?]. }
  cbn. rewrite H1, Ec, app_assoc in Hy. apply app_inj_tail in Hy as [Hy <-]. split; [congruence|].
  eexists. rewrite <-Hy, Hr, <-app_assoc. split; [reflexivity|]. rewrite elem_of_app. intros [?|Hin]; [done|].
  apply (components_plain p Hc). rewrite Ec. apply elem_of_app. by left.
Qed.

Example parents :
  parent <$> [lit "/etc/asterisk/sip.conf"; lit "sip.conf"; lit "./sip.conf"; lit "a/./b//."; lit "/"; lit "."; lit "a//b/../c"]
  = [Some (lit "/etc/asterisk"); Some []; Some (lit "."); Some (lit "a"); None; Some []; Some (lit "a//b/..")].
Proof. by vm_compute. Qed.
