(* ===== verification/Config.v ===== *)
(** * Configuration files ([asterisk-config/src/lib.rs])

    A configuration file is a list of categories of variables; categories can
    inherit from templates, and files can include files.  The file system is an
    argument: the text of a path, or none when it cannot be read.

    The theorems: loading returns whatever the files hold; it reads no file outside
    the directory of the first one; and what is written in a file is what is found
    in it. *)

From Stdlib Require Import ZArith NArith Ascii String.
From S2P Require Import Prelude RustStr Path.
Local Open Scope Z_scope.
Local Open Scope list_scope.

(** ** Data *)

(** The [io::Error] of [FileRead] is left out. *)
Inductive ConfigError :=
  | FileRead (path : str)
  | ParseError (file : str) (line : Z) (message : str)
  | IncludeNotFound (path : str)
  | TemplateNotFound (name : str)
  | CategoryNotFound (name : str)
  | VariableNotFound (name : str).

Record ConfVar := mkVar {
  v_name : str; v_value : str; v_file : str; v_lineno : Z; is_object : bool; v_inherited : bool }.

Record Category := mkCategory {
  c_name : str; is_template : bool; variables : list ConfVar; template_name : option str;
  c_file : str; c_lineno : Z }.

Record AsteriskConfig := mkConfig {
  filename : str; categories : list Category; category_index : gmap str (list nat) }.

(** ** Lookups *)

Definition named (name : str) (v : ConfVar) : bool := eq_ignore_ascii_case (v_name v) name.

(** The first element that satisfies a test: [Iterator::find]. *)
Definition first {A} (f : A → bool) (l : list A) : option A := head (filter (λ x, f x = true) l).

Definition cat_get_variable (c : Category) (name : str) : option str := v_value <$> first (named name) (variables c).
Definition get_all_variables (c : Category) (name : str) : list str :=
  v_value <$> filter (λ v, named name v = true) (variables c).

(** Names whose lowercase form has not been seen. *)
Fixpoint unseen `{UnicodeCase} (seen : gset str) (names : list str) : list str :=
  match names with
  | [] => []
  | n :: names =>
      if decide (to_lowercase n ∈ seen) then unseen seen names
      else n :: unseen ({[ to_lowercase n ]} ∪ seen) names
  end.

Definition variable_names `{UnicodeCase} (c : Category) : list str := unseen ∅ (v_name <$> variables c).
Definition category_names `{UnicodeCase} (cfg : AsteriskConfig) : list str := unseen ∅ (c_name <$> categories cfg).

(** [self.categories[idx]] *)
Definition category_at (cfg : AsteriskConfig) (idx : nat) : outcome Category :=
  match categories cfg !! idx with Some c => Done c | None => Panic end.

Definition get_category `{UnicodeCase} (cfg : AsteriskConfig) (name : str) : outcome (option Category) :=
  match category_index cfg !! to_lowercase name ≫= head with
  | Some idx => let! c := category_at cfg idx in Done (Some c)
  | None => Done None
  end.

Fixpoint categories_at (cfg : AsteriskConfig) (idxs : list nat) : outcome (list Category) :=
  match idxs with
  | [] => Done []
  | i :: idxs => let! c := category_at cfg i in let! cs := categories_at cfg idxs in Done (c :: cs)
  end.

Definition get_categories_by_name `{UnicodeCase} (cfg : AsteriskConfig) (name : str) : outcome (list Category) :=
  categories_at cfg (default [] (category_index cfg !! to_lowercase name)).

Definition conf_get_variable `{UnicodeCase} (cfg : AsteriskConfig) (category variable : str) : outcome (option str) :=
  let! c := get_category cfg category in
  Done (c ← c; cat_get_variable c variable).

(** ** Lines *)

(** The end of the text before a comment.  The code looks at the octets of the
    line; quotes, backslashes and semicolons are octets of no other character. *)
Fixpoint comment_start (in_quotes : bool) (prev : option char) (i : N) (x : str) : option N :=
  match x with
  | [] => None
  | ch :: x =>
      let next := (i + len_utf8 ch)%N in
      if (ch =? 34)%N then comment_start (negb in_quotes) (Some ch) next x
      else if (ch =? chr ";")%N && negb in_quotes then
        if bool_decide (prev = Some (chr "\")) then comment_start in_quotes (Some ch) next x else Some i
      else comment_start in_quotes (Some ch) next x
  end.

Definition strip_inline_comment (line : str) : outcome str :=
  match comment_start false None 0 line with Some i => slice_to line i | None => Done line end.

(** [replace("\\;", ";")] *)
Fixpoint unescape (x : str) : str :=
  match x with
  | [] => []
  | ch :: x' =>
      match x' with
      | ch' :: x'' => if (ch =? chr "\")%N && (ch' =? chr ";")%N then chr ";" :: unescape x'' else ch :: unescape x'
      | [] => [ch]
      end
  end.

(** [trim_matches] *)
Definition trim_matches (ch : char) (x : str) : str := trim_end_char ch (trim_start_by (N.eqb ch) x).

Definition modifier_of (modifier : str) : bool * option str :=
  if bool_decide (modifier = lit "!") then (true, None)
  else if bool_decide (modifier = []) then (false, None)
  else
    let parts := trim <$> split (chr ",") modifier in
    let first_template := default [] (head parts) in
    (bool_decide (lit "!" ∈ parts), if bool_decide (first_template = lit "!") then None else Some first_template).

Definition parse_category_header (line filename : str) (lineno : Z)
    : outcome (result ConfigError (str * bool * option str)) :=
  let line := trim line in
  match find_char (chr "]") line with
  | None => Done (Err (ParseError filename lineno (lit "missing closing ']' in category header: " ++ line)))
  | Some close_bracket =>
      let! name := slice line 1 close_bracket in
      let name := trim name in
      if bool_decide (name = []) then Done (Err (ParseError filename lineno (lit "empty category name")))
      else
        let! after_bracket := slice_from line (close_bracket + 1)%N in
        match strip_prefix (lit "(") (trim after_bracket) with
        | None => Done (Ok (name, false, None))
        | Some rest =>
            match find_char (chr ")") rest with
            | None => Done (Err (ParseError filename lineno (lit "missing closing ')' in category modifier")))
            | Some close_paren =>
                let! modifier := slice_to rest close_paren in
                let (is_template, template_name) := modifier_of (trim modifier) in
                Done (Ok (name, is_template, template_name))
            end
        end
  end.

Definition assignment (line : str) (pos width : N) (object : bool) (filename : str) (lineno : Z)
    : outcome (result ConfigError (str * str * bool)) :=
  let! name := slice_to line pos in
  let! value := slice_from line (pos + width)%N in
  let name := trim name in
  let value := unescape (trim value) in
  if bool_decide (name = []) then Done (Err (ParseError filename lineno (lit "empty variable name")))
  else Done (Ok (name, value, object)).

Definition parse_variable (line filename : str) (lineno : Z) : outcome (result ConfigError (str * str * bool)) :=
  match find (lit "=>") line with
  | Some pos => assignment line pos 2 true filename lineno
  | None =>
      match find_char (chr "=") line with
      | Some pos => assignment line pos 1 false filename lineno
      | None => Done (Err (ParseError filename lineno (lit "could not parse line as variable assignment: " ++ line)))
      end
  end.

(** ** The parser *)

Definition MAX_INCLUDE_DEPTH : Z := 16.

Definition push_category (cat : option Category) (cfg : AsteriskConfig) : AsteriskConfig :=
  match cat with
  | Some cat => mkConfig (filename cfg) (categories cfg ++ [cat]) (category_index cfg)
  | None => cfg
  end.

Definition push_variable (v : ConfVar) (cat : Category) : Category :=
  mkCategory (c_name cat) (is_template cat) (variables cat ++ [v]) (template_name cat) (c_file cat) (c_lineno cat).

(** What parses the text of an included file: text, file name, directory. *)
Definition Include : Type := str → str → str → AsteriskConfig → outcome (result ConfigError AsteriskConfig).

Definition FileSystem : Type := str → option str.

Definition include_directive (fs : FileSystem) (rec : Include) (file base_dir : str) (lineno : Z) (line : str)
    (cfg : AsteriskConfig) : outcome (result ConfigError AsteriskConfig) :=
  match strip_prefix (lit "#include") line with
  | None => Panic
  | Some rest =>
      let include_path := trim_matches (chr ">") (trim_matches (chr "<") (trim_matches 34 (trim rest))) in
      if bool_decide (include_path = []) then Done (Err (ParseError file lineno (lit "empty #include path")))
      else if contains (lit "..") include_path then
        Done (Err (ParseError file lineno (lit "#include path contains '..': " ++ include_path)))
      else if is_absolute include_path then
        Done (Err (ParseError file lineno (lit "#include with absolute path rejected for security: " ++ include_path)))
      else
        let full_path := path_join base_dir include_path in
        match fs full_path with
        | None => Done (Err (IncludeNotFound full_path))
        | Some include_content => rec include_content full_path (default base_dir (parent full_path)) cfg
        end
  end.

(** One line: the category that is open, and the configuration. *)
Definition FileState : Type := option Category * AsteriskConfig.

Definition parse_config_line (fs : FileSystem) (rec : Include) (file base_dir : str) (lineno : Z) (raw_line : str)
    (st : FileState) : outcome (result ConfigError FileState) :=
  let '(current_category, cfg) := st in
  let line := trim raw_line in
  if bool_decide (line = []) || starts_with (lit ";") line || starts_with (lit "//") line then Done (Ok st)
  else
    let! line := strip_inline_comment line in
    let line := trim line in
    if bool_decide (line = []) then Done (Ok st)
    else if starts_with (lit "#include") line then
      let!? cfg := include_directive fs rec file base_dir lineno line (push_category current_category cfg) in
      Done (Ok (None, cfg))
    else if starts_with (lit "#exec") line then Done (Ok st)
    else if starts_with (lit "[") line then
      let cfg := push_category current_category cfg in
      let!? (name, is_template, template_name) := parse_category_header line file lineno in
      Done (Ok (Some (mkCategory name is_template [] template_name file lineno), cfg))
    else
      match current_category with
      | None => Done (Ok st)
      | Some cat =>
          let!? (name, value, is_object) := parse_variable line file lineno in
          Done (Ok (Some (push_variable (mkVar name value file lineno is_object false) cat), cfg))
      end.

Fixpoint parse_lines (fs : FileSystem) (rec : Include) (file base_dir : str) (lineno : Z) (ls : list str)
    (st : FileState) : outcome (result ConfigError FileState) :=
  match ls with
  | [] => Done (Ok st)
  | l :: ls =>
      let!? st := parse_config_line fs rec file base_dir lineno l st in
      parse_lines fs rec file base_dir (lineno + 1) ls st
  end.

(** No fuel counts as a panic: a parse that returns has enough. *)
Fixpoint parse_content_inner (fuel : nat) (fs : FileSystem) (depth : Z) (content file base_dir : str)
    (cfg : AsteriskConfig) : outcome (result ConfigError AsteriskConfig) :=
  if MAX_INCLUDE_DEPTH <? depth then
    Done (Err (ParseError file 0 (lit "#include depth exceeds maximum (" ++ show_int MAX_INCLUDE_DEPTH ++ lit ") -- possible cycle")))
  else
    match fuel with
    | O => Panic
    | S fuel =>
        let!? (current_category, cfg) :=
          parse_lines fs (parse_content_inner fuel fs (depth + 1)) file base_dir 1 (lines content) (None, cfg) in
        Done (Ok (push_category current_category cfg))
    end.

Definition parse_content (fs : FileSystem) : Include := parse_content_inner 17 fs 0.

(** ** Loading *)

Definition index_add `{UnicodeCase} (idx : nat) (cat : Category) (index : gmap str (list nat)) : gmap str (list nat) :=
  <[to_lowercase (c_name cat) := default [] (index !! to_lowercase (c_name cat)) ++ [idx]]> index.

Definition rebuild_index `{UnicodeCase} (cfg : AsteriskConfig) : AsteriskConfig :=
  mkConfig (filename cfg) (categories cfg)
    (foldl (λ m ic, index_add ic.1 ic.2 m) ∅ (imap (λ i c, (i, c)) (categories cfg))).

(** The variables of every template; of templates of one name the last is kept. *)
Definition template_vars `{UnicodeCase} (cs : list Category) : gmap str (list ConfVar) :=
  foldl (λ m c, <[to_lowercase (c_name c) := variables c]> m) ∅ (filter (λ c, is_template c = true) cs).

Definition as_inherited (v : ConfVar) : ConfVar :=
  mkVar (v_name v) (v_value v) (v_file v) (v_lineno v) (is_object v) true.

Definition apply_template `{UnicodeCase} (templates : gmap str (list ConfVar)) (cat : Category) : Category :=
  match template_name cat with
  | None => cat
  | Some tmpl_name =>
      match templates !! to_lowercase tmpl_name with
      | None => cat
      | Some vars =>
          mkCategory (c_name cat) (is_template cat) ((as_inherited <$> vars) ++ variables cat) (template_name cat)
            (c_file cat) (c_lineno cat)
      end
  end.

Definition apply_templates `{UnicodeCase} (cfg : AsteriskConfig) : AsteriskConfig :=
  mkConfig (filename cfg) (apply_template (template_vars (categories cfg)) <$> categories cfg) (category_index cfg).

Definition load `{UnicodeCase} (fs : FileSystem) (path : str) : outcome (result ConfigError AsteriskConfig) :=
  match fs path with
  | None => Done (Err (FileRead path))
  | Some content =>
      let!? cfg := parse_content fs content path (default (lit ".") (parent path)) (mkConfig path [] ∅) in
      Done (Ok (apply_templates (rebuild_index cfg)))
  end.

Definition from_str `{UnicodeCase} (fs : FileSystem) (content filename : str) : outcome (result ConfigError AsteriskConfig) :=
  let!? cfg := parse_content fs content filename (lit ".") (mkConfig filename [] ∅) in
  Done (Ok (apply_templates (rebuild_index cfg))).

(** ** Lemmas: loading returns *)

Lemma comment_start_prefix q prev i x j :
  comment_start q prev i x = Some j → ∃ a b, x = a ++ b ∧ j = (i + len a)%N.
Proof.
  revert q prev i. induction x as [|ch x IH]; intros q prev i; cbn [comment_start]; [done|].
  assert (Hrec : ∀ q' prev', comment_start q' prev' (i + len_utf8 ch) x = Some j → ∃ a b, ch :: x = a ++ b ∧ j = (i + len a)%N).
  { intros q' prev' (a & b & -> & ->)%IH. exists (ch :: a), b. split; [done|]. cbn [len]. lia. }
  repeat case_match; try apply Hrec. intros [= <-]. exists [], (ch :: x). split; [done|]. cbn. lia.
Qed.

Lemma strip_inline_comment_returns x : returns (strip_inline_comment x).
Proof.
  unfold strip_inline_comment. destruct (comment_start _ _ _ _) as [j|] eqn:E; [|by eexists].
  apply comment_start_prefix in E as (a & b & -> & ->). rewrite N.add_0_l, slice_to_app. by eexists.
Qed.

Lemma find_slices pat x i :
  find pat x = Some i → ∃ a b, x = a ++ pat ++ b ∧ slice_to x i = Done a ∧ slice_from x (i + len pat)%N = Done b.
Proof.
  intros (a & b & -> & <-)%find_Some. exists a, b. split; [done|]. split; [apply slice_to_app|].
  rewrite app_assoc, <-len_app. apply slice_from_app.
Qed.

Lemma assignment_returns line pos width object file n a b :
  slice_to line pos = Done a → slice_from line (pos + width)%N = Done b →
  returns (assignment line pos width object file n).
Proof. unfold assignment. intros -> ->. cbn [outcome_bind]. case_bool_decide; by eexists. Qed.

Lemma parse_variable_returns line file n : returns (parse_variable line file n).
Proof.
  unfold parse_variable. destruct (find _ line) as [i|] eqn:E.
  - apply find_slices in E as (a & b & _ & H1 & H2). by eapply assignment_returns.
  - destruct (find_char _ line) as [i|] eqn:E2; [|by eexists].
    destruct (find_char_slices _ _ _ E2 eq_refl) as (a & b & _ & _ & _ & H1 & H2). by eapply assignment_returns.
Qed.

Lemma parse_category_header_returns line file n :
  starts_with (lit "[") (trim line) = true → returns (parse_category_header line file n).
Proof.
  intros [y Hy]%starts_with_true. unfold parse_category_header. rewrite Hy.
  destruct (find_char (chr "]") (lit "[" ++ y)) as [i|] eqn:E; [|by eexists].
  destruct (find_char_slices _ _ _ E eq_refl) as (a & b & Ex & _ & Hl & H1 & H2).
  assert (Hs : ∃ z, slice (lit "[" ++ y) 1 i = Done z).
  { destruct a as [|ch a]; [done|]. injection Ex as <- ->. exists a. rewrite Hl.
    pose proof (slice_app (lit "[") a (chr "]" :: b)) as S. exact S. }
  destruct Hs as [z ->]. cbn [outcome_bind]. case_bool_decide; [by eexists|]. rewrite H2. cbn [outcome_bind].
  destruct (strip_prefix _ _) as [rest|]; [|by eexists].
  destruct (find_char _ rest) as [j|] eqn:E2; [|by eexists].
  destruct (find_char_slices _ _ _ E2 eq_refl) as (a2 & b2 & _ & _ & _ & -> & _). cbn [outcome_bind].
  destruct (modifier_of _). by eexists.
Qed.

Lemma include_directive_returns fs rec file base n line cfg :
  starts_with (lit "#include") line = true → (∀ c f d g, returns (rec c f d g)) →
  returns (include_directive fs rec file base n line cfg).
Proof.
  intros [y ->]%starts_with_true Hrec. unfold include_directive. rewrite strip_prefix_app.
  repeat case_match; try (by eexists). apply Hrec.
Qed.

Lemma parse_line_returns fs rec file base n line st :
  (∀ c f d g, returns (rec c f d g)) → returns (parse_config_line fs rec file base n line st).
Proof.
  intros Hrec. unfold parse_config_line. destruct st as [cur cfg]. destruct (_ || _); [by eexists|].
  destruct (strip_inline_comment_returns (trim line)) as [l ->]. cbn [outcome_bind].
  case_bool_decide; [by eexists|]. destruct (starts_with (lit "#include") (trim l)) eqn:E1.
  { apply returns_try; [by apply include_directive_returns|by eexists]. }
  destruct (starts_with (lit "#exec") _); [by eexists|].
  destruct (starts_with (lit "[") (trim l)) eqn:E2.
  { apply returns_try; [|intros [[? ?] ?] _; by eexists]. apply parse_category_header_returns. by rewrite trim_idemp. }
  destruct cur; [|by eexists]. apply returns_try; [apply parse_variable_returns|]. intros [[? ?] ?] _. by eexists.
Qed.

Lemma parse_lines_returns fs rec file base n ls st :
  (∀ c f d g, returns (rec c f d g)) → returns (parse_lines fs rec file base n ls st).
Proof.
  intros Hrec. revert n st. induction ls as [|l ls IH]; intros n st; [by eexists|]. cbn [parse_lines].
  apply returns_try; [by apply parse_line_returns|]. intros st' _. apply IH.
Qed.

Lemma parse_content_inner_returns fuel fs depth c f d cfg :
  MAX_INCLUDE_DEPTH < Z.of_nat fuel + depth → returns (parse_content_inner fuel fs depth c f d cfg).
Proof.
  revert depth c f d cfg. induction fuel as [|fuel IH]; intros depth c f d cfg Hd; cbn [parse_content_inner].
  - destruct (Z.ltb_spec MAX_INCLUDE_DEPTH depth); [by eexists|lia].
  - destruct (_ <? _); [by eexists|]. apply returns_try; [|intros [? ?] _; by eexists].
    apply parse_lines_returns. intros. apply IH. lia.
Qed.

Lemma load_returns `{UnicodeCase} fs path : returns (load fs path).
Proof.
  unfold load. case_match; [|by eexists]. apply returns_try; [|intros ? _; by eexists].
  by apply parse_content_inner_returns.
Qed.

(** ** Lemmas: the files that are read *)

(** Reading a path whose text names a directory fails. *)
Definition reads_files_only (fs : FileSystem) : Prop := ∀ p, names_directory p = true → fs p = None.

Section confined.
Context (base : str) (fs1 fs2 : FileSystem).
Context (Hfiles : reads_files_only fs1) (Hagree : ∀ p, under base p → fs1 p = fs2 p).

Definition same_below (r1 r2 : Include) : Prop := ∀ c f d cfg, under base d → r1 c f d cfg = r2 c f d cfg.

Lemma include_directive_confined r1 r2 file d n line cfg :
  same_below r1 r2 → under base d → include_directive fs1 r1 file d n line cfg = include_directive fs2 r2 file d n line cfg.
Proof using Hfiles Hagree.
  intros Hr Hd. unfold include_directive. destruct (strip_prefix _ _); [|done]. case_bool_decide; [done|].
  set (p := trim_matches _ _). destruct (contains (lit "..") p) eqn:Hc; [done|]. destruct (is_absolute p) eqn:Ha; [done|].
  rewrite <-Hagree by (by apply under_join). destruct (fs1 (path_join d p)) eqn:E; [|done]. apply Hr.
  apply under_parent; [done..|]. destruct (names_directory _) eqn:Hn; [|done]. by rewrite (Hfiles _ Hn) in E.
Qed.

Lemma parse_lines_confined r1 r2 file d n ls st :
  same_below r1 r2 → under base d → parse_lines fs1 r1 file d n ls st = parse_lines fs2 r2 file d n ls st.
Proof using Hfiles Hagree.
  intros Hr Hd. revert n st. induction ls as [|l ls IH]; intros n st; [done|]. cbn [parse_lines].
  assert (E : parse_config_line fs1 r1 file d n l st = parse_config_line fs2 r2 file d n l st).
  { unfold parse_config_line. destruct st as [cur cfg]. destruct (_ || _); [done|].
    destruct (strip_inline_comment _); [|done]. cbn [outcome_bind]. by rewrite (include_directive_confined r1 r2 _ _ _ _ _ Hr Hd). }
  rewrite E. unfold try_bind. destruct (parse_config_line fs2 r2 file d n l st) as [[st'|]|]; cbn; [apply IH|done..].
Qed.

Lemma parse_content_inner_confined fuel depth :
  same_below (parse_content_inner fuel fs1 depth) (parse_content_inner fuel fs2 depth).
Proof using Hfiles Hagree.
  revert depth. induction fuel as [|fuel IH]; intros depth c f d cfg Hd; [done|]. cbn [parse_content_inner].
  by rewrite (parse_lines_confined _ _ f d 1 (lines c) (None, cfg) (IH (depth + 1)) Hd).
Qed.
End confined.

(** ** A configuration as it is written *)

Record VarText := mkVarText { vt_name : str; vt_value : str; vt_object : bool }.
Record CatText := mkCatText { ct_name : str; ct_template : bool; ct_parent : option str; ct_vars : list VarText }.

Definition escape (x : str) : str := x ≫= λ ch, if (ch =? chr ";")%N then lit "\;" else [ch].

Definition var_line (v : VarText) : str := vt_name v ++ (if vt_object v then lit " => " else lit " = ") ++ escape (vt_value v).

Definition modifier_text (c : CatText) : str :=
  match ct_parent c, ct_template c with
  | None, false => []
  | None, true => lit "(!)"
  | Some t, false => lit "(" ++ t ++ lit ")"
  | Some t, true => lit "(" ++ t ++ lit ",!)"
  end.

Definition cat_lines (c : CatText) : list str := (lit "[" ++ ct_name c ++ lit "]" ++ modifier_text c) :: (var_line <$> ct_vars c).
Definition render_config (cs : list CatText) : str := concat ((λ l, l ++ [10%N]) <$> (cs ≫= cat_lines)).

(** ** What it means *)

Definition var_of (file : str) (n : Z) (v : VarText) : ConfVar := mkVar (vt_name v) (vt_value v) file n (vt_object v) false.

Definition cat_of (file : str) (n : Z) (c : CatText) : Category :=
  mkCategory (ct_name c) (ct_template c) (imap (λ i v, var_of file (n + 1 + Z.of_nat i) v) (ct_vars c)) (ct_parent c) file n.

(** The categories of a file, the first at line [n]. *)
Fixpoint cats_of (file : str) (n : Z) (cs : list CatText) : list Category :=
  match cs with
  | [] => []
  | c :: cs => cat_of file n c :: cats_of file (n + 1 + Z.of_nat (length (ct_vars c))) cs
  end.

Definition same_name `{UnicodeCase} (a b : str) : bool := str_eqb (to_lowercase a) (to_lowercase b).

(** The last template of a name. *)
Definition template_named `{UnicodeCase} (name : str) (cs : list CatText) : option CatText :=
  last (filter (λ c, ct_template c && same_name (ct_name c) name = true) cs).

(** The variables of a category: those of its template, then its own. *)
Definition effective_vars `{UnicodeCase} (cs : list CatText) (c : CatText) : list VarText :=
  default [] (t ← ct_parent c; ct_vars <$> template_named t cs) ++ ct_vars c.

(** The value of a variable in the first category of a name. *)
Definition value_in `{UnicodeCase} (cs : list CatText) (category variable : str) : option str :=
  c ← first (λ c, same_name (ct_name c) category) cs;
  vt_value <$> first (λ v, eq_ignore_ascii_case (vt_name v) variable) (effective_vars cs c).

(** ** What can be written *)

Definition word (x : str) : Prop := x ≠ [] ∧ trimmed x = true ∧ (10%N ∉ x) ∧ (chr ";" ∉ x).

Record var_wf (v : VarText) : Prop := {
  vw_name : word (vt_name v) ∧ (chr "=" ∉ vt_name v);
  vw_start : Forall (λ p, starts_with p (vt_name v) = false) [lit "//"; lit "#include"; lit "#exec"; lit "["];
  vw_value : trimmed (vt_value v) = true ∧ (10%N ∉ vt_value v);
  vw_arrow : vt_object v = false → contains (lit "=>") (vt_value v) = false }.

Record cat_wf (c : CatText) : Prop := {
  cw_name : word (ct_name c) ∧ (chr "]" ∉ ct_name c);
  cw_parent : ∀ t, ct_parent c = Some t → word t ∧ (chr "," ∉ t) ∧ (chr ")" ∉ t) ∧ t ≠ lit "!";
  cw_vars : Forall var_wf (ct_vars c) }.

(** ** Lemmas: one line *)

Lemma unescape_escape x : unescape (escape x) = x.
Proof.
  induction x as [|ch x IH]; [done|]. unfold escape. rewrite bind_cons. fold (escape x).
  destruct (N.eqb_spec ch (chr ";")) as [->|Hne]; [cbn; by rewrite IH|]. cbn [Datatypes.app].
  destruct (escape x) as [|ch' y] eqn:E.
  - cbn. by rewrite <-IH.
  - cbn [unescape]. assert (Hch : (ch' =? chr ";")%N = false).
    { destruct x as [|c0 x]; [done|]. unfold escape in E. rewrite bind_cons in E. destruct (N.eqb_spec c0 (chr ";")) as [->|].
      - by injection E as <- _.
      - injection E as <- _. by apply N.eqb_neq. }
    rewrite Hch, andb_false_r, <-IH. done.
Qed.

Lemma comment_start_clean a x :
  (chr ";" ∉ a) → (∀ q prev i, comment_start q prev i x = None) → ∀ q prev i, comment_start q prev i (a ++ x) = None.
Proof.
  intros Ha Hx. induction a as [|ch a IH]; intros q prev i; [apply Hx|]. cbn [Datatypes.app comment_start].
  apply not_elem_of_cons in Ha as [Hne Ha]. destruct (ch =? 34)%N; [by apply IH|].
  destruct (N.eqb_spec ch (chr ";")) as [->|]; [done|]. by apply IH.
Qed.

Lemma comment_start_escape x q prev i : comment_start q prev i (escape x) = None.
Proof.
  revert q prev i. induction x as [|ch x IH]; intros q prev i; [done|]. unfold escape. rewrite bind_cons. fold (escape x).
  destruct (N.eqb_spec ch (chr ";")) as [->|Hne].
  - cbn. destruct q; cbn; apply IH.
  - apply comment_start_clean; [|apply IH]. set_solver.
Qed.

Lemma strip_nothing x : (∀ q prev i, comment_start q prev i x = None) → strip_inline_comment x = Done x.
Proof. intros E. unfold strip_inline_comment. by rewrite E. Qed.

Lemma last_escape x : last (escape x) = last x.
Proof.
  destruct x as [|c x _] using rev_ind; [done|]. unfold escape. rewrite bind_app. cbn. rewrite app_nil_r, last_snoc.
  destruct (N.eqb_spec c (chr ";")) as [->|]; [|by rewrite last_snoc].
  change (lit "\;") with ([chr "\"] ++ [chr ";"]). by rewrite app_assoc, last_snoc.
Qed.

Lemma trimmed_escape x : trimmed x = true → trimmed (escape x) = true.
Proof.
  destruct x as [|ch x]; [done|]. unfold trimmed at 1. intros [H1 H2]%andb_true_iff. pose proof (last_escape (ch :: x)) as Hl.
  revert Hl. unfold escape. rewrite bind_cons. fold (escape x).
  destruct (N.eqb_spec ch (chr ";")) as [->|]; cbn [Datatypes.app]; intros Hl; unfold trimmed; by rewrite Hl, ?H1, H2.
Qed.

Lemma elem_of_escape ch x : ch ∈ escape x → ch = chr "\" ∨ ch ∈ x.
Proof. unfold escape. rewrite list_elem_of_bind. intros (c & Hc & Hin). cbn in Hc. destruct (N.eqb_spec c (chr ";")); set_solver. Qed.

(** No [=>]. *)
Fixpoint no_arrow (x : str) : bool :=
  match x with
  | [] => true
  | ch :: x => negb ((ch =? chr "=")%N && bool_decide (head x = Some (chr ">"))) && no_arrow x
  end.

Lemma find_arrow x : find (lit "=>") x = None ↔ no_arrow x = true.
Proof.
  induction x as [|ch x IH]; [done|]. unfold find. fold find. cbn [no_arrow]. unfold starts_with. cbn [strip_prefix].
  rewrite N.eqb_sym. destruct (N.eqb_spec (chr "=") ch) as [<-|Hne].
  - destruct x as [|ch' x]; [done|]. cbn [head]. destruct (N.eqb_spec (chr ">") ch') as [<-|Hne].
    + cbn. split; [|done]. rewrite bool_decide_true by (by eexists). done.
    + rewrite (bool_decide_false (Some ch' = _)) by congruence. cbn [andb negb]. rewrite bool_decide_false by (by intros []).
      rewrite fmap_None. apply IH.
  - assert (E : (ch =? chr "=")%N = false) by (by apply N.eqb_neq). rewrite ?E. cbn [andb negb].
    rewrite bool_decide_false by (by intros []). rewrite fmap_None. apply IH.
Qed.

Lemma no_arrow_app a x : (chr "=" ∉ a) → no_arrow (a ++ x) = no_arrow x.
Proof.
  intros Ha. induction a as [|ch a IH]; [done|]. apply not_elem_of_cons in Ha as [Hne Ha]. cbn [Datatypes.app no_arrow].
  assert (E : (ch =? chr "=")%N = false) by (by apply N.eqb_neq). rewrite E. by apply IH.
Qed.

Lemma no_arrow_escape x : no_arrow x = true → no_arrow (escape x) = true.
Proof.
  induction x as [|ch x IH]; [done|]. cbn [no_arrow]. intros [H1%negb_true_iff H2]%andb_true_iff.
  unfold escape. rewrite bind_cons. fold (escape x). destruct (N.eqb_spec ch (chr ";")) as [->|].
  - rewrite no_arrow_app by (apply (bool_decide_unpack _); by vm_compute). by apply IH.
  - cbn [Datatypes.app no_arrow]. rewrite IH, andb_true_r by done. apply negb_true_iff. apply andb_false_iff in H1 as [H1|H1].
    + by rewrite H1.
    + apply andb_false_iff. right. apply bool_decide_eq_false. apply bool_decide_eq_false in H1. intros E. apply H1.
      destruct x as [|c x]; [done|]. unfold escape in E. rewrite bind_cons in E. destruct (N.eqb_spec c (chr ";")); [done|exact E].
Qed.

Lemma word_var_line v : var_wf v →
  ∃ a e, var_line v = a ++ e ∧ a = vt_name v ++ (if vt_object v then lit " => " else lit " = ")
    ∧ (chr ";" ∉ a) ∧ e = escape (vt_value v).
Proof.
  intros [[(Hn & Ht & H10 & Hs) Heq] _ [Hv Hv10] _]. eexists _, _. split; [unfold var_line; apply app_assoc|]. split; [done|].
  split; [|done]. rewrite elem_of_app. intros [?|Hin]; [done|].
  revert Hin. destruct (vt_object v); apply (bool_decide_unpack _); by vm_compute.
Qed.

(** ** Lemmas: lines of a category *)

Lemma trim_space x : trimmed x = true → trim (32%N :: x) = x.
Proof. intros Hx. pose proof (trim_padded [32%N] x [] eq_refl eq_refl Hx) as E. by rewrite app_nil_r in E. Qed.

Lemma trim_spaced x : trimmed x = true → trim (x ++ [32%N]) = x.
Proof. by apply (trim_padded [] x [32%N]). Qed.

Lemma find_arrow_app a e : (chr "=" ∉ a) → find (lit "=>") (a ++ lit "=>" ++ e) = Some (len a).
Proof.
  intros Ha. induction a as [|ch a IH]; [done|]. apply not_elem_of_cons in Ha as [Hne Ha].
  change ((ch :: a) ++ lit "=>" ++ e) with (ch :: (a ++ lit "=>" ++ e)). unfold find. fold find. rewrite IH by done.
  unfold starts_with. cbn [strip_prefix]. by destruct (N.eqb_spec (chr "=") ch).
Qed.

(** What is left of the line of a variable when it is trimmed. *)
Definition var_text (v : VarText) : str :=
  vt_name v ++ (if vt_object v then lit " =>" else lit " =") ++ (if decide (vt_value v = []) then [] else 32%N :: escape (vt_value v)).

Lemma parse_var_text v file n :
  var_wf v → parse_variable (var_text v) file n = Done (Ok (vt_name v, vt_value v, vt_object v)).
Proof.
  intros [[(Hn & Ht & H10 & Hs) Heq] _ [Hv _] Harrow]. unfold var_text. set (nm := vt_name v) in *.
  set (e := if decide (vt_value v = []) then [] else 32%N :: escape (vt_value v)).
  assert (Heq' : (chr "=" ∉ nm ++ [32%N])) by set_solver.
  assert (He : unescape (trim e) = vt_value v).
  { unfold e. case_decide as Hv0; [by rewrite Hv0|]. by rewrite trim_space, unescape_escape by by apply trimmed_escape. }
  assert (Hres : ∀ op width, len op = width →
    assignment ((nm ++ [32%N]) ++ op ++ e) (len (nm ++ [32%N])) width (vt_object v) file n
    = Done (Ok (nm, vt_value v, vt_object v))).
  { intros op width <-. unfold assignment. rewrite slice_to_app, app_assoc, <-len_app, slice_from_app. cbn [outcome_bind].
    rewrite trim_spaced, He by done. by rewrite bool_decide_false. }
  unfold parse_variable. destruct (vt_object v).
  - change (lit " =>" ++ e) with ([32%N] ++ lit "=>" ++ e). rewrite (app_assoc nm), find_arrow_app by done. by apply Hres.
  - change (lit " =" ++ e) with ([32%N] ++ lit "=" ++ e). rewrite (app_assoc nm).
    assert (E1 : find (lit "=>") ((nm ++ [32%N]) ++ lit "=" ++ e) = None).
    { apply find_arrow. rewrite no_arrow_app by done. specialize (Harrow eq_refl). apply bool_decide_eq_false in Harrow.
      rewrite <-eq_None_not_Some, find_arrow in Harrow. unfold e. case_decide; [done|]. cbn. by apply no_arrow_escape. }
    assert (E2 : find_char (chr "=") ((nm ++ [32%N]) ++ lit "=" ++ e) = Some (len (nm ++ [32%N])))
      by (apply find_char_Some; by exists (nm ++ [32%N]), e).
    rewrite E1, E2. by apply Hres.
Qed.

Lemma trim_var_line v : var_wf v → trim (var_line v) = var_text v.
Proof.
  intros [[(Hn & Ht & _) _] _ [Hv _] _]. unfold var_line, var_text. case_decide as E.
  - rewrite E. cbn [escape mbind list_bind]. rewrite !app_nil_r.
    replace (vt_name v ++ (if vt_object v then lit " => " else lit " = "))
      with ((vt_name v ++ (if vt_object v then lit " =>" else lit " =")) ++ [32%N]) by (rewrite <-app_assoc; by destruct (vt_object v)).
    apply trim_spaced. rewrite <-(app_nil_l (if vt_object v then _ else _)).
    destruct (vt_object v); [apply (trimmed_app _ [32%N] (lit "=>"))|apply (trimmed_app _ [32%N] (lit "="))]; done.
  - replace (if vt_object v then lit " =>" else lit " =") with (if vt_object v then lit " =>" else lit " =") by done.
    replace ((if vt_object v then lit " =>" else lit " =") ++ 32%N :: escape (vt_value v))
      with ((if vt_object v then lit " => " else lit " = ") ++ escape (vt_value v)) by (by destruct (vt_object v)).
    apply trim_trimmed. apply trimmed_app; [done| |done|by apply trimmed_escape].
    intros E0. apply E. rewrite <-(unescape_escape (vt_value v)), E0. done.
Qed.

Lemma var_text_no_comment v q prev i : var_wf v → comment_start q prev i (var_text v) = None.
Proof.
  intros [[(Hn & Ht & H10 & Hs) Heq] _ _ _]. unfold var_text. rewrite app_assoc. apply comment_start_clean.
  - rewrite elem_of_app. intros [?|Hin]; [done|]. revert Hin. destruct (vt_object v); apply (bool_decide_unpack _); by vm_compute.
  - case_decide; [done|]. intros q' prev' i'. cbn. apply comment_start_escape.
Qed.

Lemma starts_with_snoc p a ch x : starts_with p a = false → ch ∉ p → starts_with p (a ++ ch :: x) = false.
Proof.
  unfold starts_with. intros Ha%bool_decide_eq_false Hp. apply bool_decide_eq_false. intros Hc. apply Ha. clear Ha.
  revert a Hc. induction p as [|c p IH]; intros a Hc; [by eexists|]. apply not_elem_of_cons in Hp as [Hne Hp].
  destruct a as [|c' a]; cbn in *.
  - destruct (N.eqb_spec c ch); [congruence|by destruct Hc].
  - destruct (c =? c')%N; [|done]. by apply IH.
Qed.

Lemma starts_with_var_text p v :
  starts_with p (vt_name v) = false → 32%N ∉ p → starts_with p (var_text v) = false.
Proof.
  intros Hp Hsp. unfold var_text.
  assert (E : ∃ y, (if vt_object v then lit " =>" else lit " =") = 32%N :: y) by (destruct (vt_object v); by eexists).
  destruct E as [y ->]. cbn [Datatypes.app]. by apply starts_with_snoc.
Qed.

Lemma starts_with_char ch x : ch ∉ x → starts_with [ch] x = false.
Proof.
  intros Hx. apply bool_decide_eq_false. destruct x as [|c x]; [by intros []|]. cbn.
  destruct (N.eqb_spec ch c); [set_solver|by intros []].
Qed.

Lemma parse_line_var fs rec file d n v cat cfg :
  var_wf v →
  parse_config_line fs rec file d n (var_line v) (Some cat, cfg) = Done (Ok (Some (push_variable (var_of file n v) cat), cfg)).
Proof.
  intros Hv. pose proof Hv as [[(Hn & Ht & H10 & Hs) _] Hstart _ _]. rewrite !Forall_cons in Hstart. destruct Hstart as (S1 & S2 & S3 & S4 & _).
  assert (Hsp : ∀ p, starts_with p (vt_name v) = false → bool_decide (32%N ∉ p) = true → starts_with p (var_text v) = false)
    by (intros p H1 H2%bool_decide_eq_true; by apply starts_with_var_text).
  assert (Hne : bool_decide (var_text v = []) = false) by (unfold var_text; by destruct (vt_name v)).
  unfold parse_config_line. rewrite trim_var_line, Hne by done.
  rewrite (Hsp (lit ";")), (Hsp (lit "//")); [|done..|by apply starts_with_char|done]. cbn [orb].
  rewrite strip_nothing by (intros; by apply var_text_no_comment). cbn [outcome_bind].
  rewrite <-(trim_var_line v), trim_idemp, trim_var_line, Hne by done.
  rewrite (Hsp (lit "#include")), (Hsp (lit "#exec")), (Hsp (lit "[")) by done.
  by rewrite parse_var_text.
Qed.

Lemma parse_lines_vars fs rec file d vs : Forall var_wf vs → ∀ n cat cfg,
  parse_lines fs rec file d n (var_line <$> vs) (Some cat, cfg)
  = Done (Ok (Some (mkCategory (c_name cat) (is_template cat) (variables cat ++ imap (λ i v, var_of file (n + Z.of_nat i) v) vs)
                      (template_name cat) (c_file cat) (c_lineno cat)), cfg)).
Proof.
  induction 1 as [|v vs Hv _ IH]; intros n cat cfg.
  - cbn. rewrite app_nil_r. by destruct cat.
  - rewrite fmap_cons. cbn [parse_lines]. rewrite parse_line_var by done. unfold try_bind. cbn [outcome_bind].
    rewrite IH. cbn [push_variable c_name is_template variables template_name c_file c_lineno imap]. rewrite <-app_assoc, Z.add_0_r.
    cbn [Datatypes.app]. do 7 f_equal. apply imap_ext. intros i w _. cbn. f_equal. lia.
Qed.

(** ** Lemmas: headers *)

Definition header_text (c : CatText) : str := lit "[" ++ ct_name c ++ lit "]" ++ modifier_text c.

Lemma modifier_read c : cat_wf c →
  match strip_prefix (lit "(") (trim (modifier_text c)) with
  | None => ct_template c = false ∧ ct_parent c = None
  | Some rest => ∃ m, find_char (chr ")") rest = Some (len m) ∧ slice_to rest (len m) = Done m
                      ∧ modifier_of (trim m) = (ct_template c, ct_parent c)
  end.
Proof.
  intros [_ Hp _]. unfold modifier_text.
  assert (Hread : ∀ m, (chr ")" ∉ m) → trimmed (lit "(" ++ m ++ lit ")") = true ∧
    find_char (chr ")") (m ++ lit ")") = Some (len m) ∧ slice_to (m ++ lit ")") (len m) = Done m).
  { intros m Hm. split; [by apply trimmed_app|]. split; [apply find_char_Some; by exists m, []|apply slice_to_app]. }
  destruct (ct_parent c) as [t|] eqn:Et.
  - destruct (Hp t eq_refl) as ((Hne & Ht & _) & Hcomma & Hparen & Hbang). destruct (ct_template c).
    + change (lit ",!)") with (lit ",!" ++ lit ")"). rewrite (app_assoc t).
      destruct (Hread (t ++ lit ",!")) as (H1 & H2 & H3); [rewrite elem_of_app; intros [?|Hin]; [done|];
        revert Hin; apply (bool_decide_unpack _); by vm_compute|].
      rewrite trim_trimmed, strip_prefix_app by done. exists (t ++ lit ",!"). split; [done|]. split; [done|].
      rewrite trim_trimmed by (apply (trimmed_app t [chr ","] (lit "!")); done). unfold modifier_of.
      rewrite !bool_decide_false by (intros E; apply (f_equal length) in E; rewrite length_app in E; destruct t; cbn in E; done || lia).
      rewrite split_app by done. cbn [fmap list_fmap head default from_option split]. cbn. rewrite (trim_trimmed t) by done.
      rewrite bool_decide_true by (right; left). by rewrite bool_decide_false.
    + destruct (Hread t Hparen) as (H1 & H2 & H3). rewrite trim_trimmed, strip_prefix_app by done. exists t.
      split; [done|]. split; [done|]. rewrite trim_trimmed by done. unfold modifier_of. rewrite !bool_decide_false by done.
      rewrite split_no_sep by done. cbn. rewrite (trim_trimmed t), !bool_decide_false; [done|done| |done].
      intros E. apply Hbang. set_solver.
  - destruct (ct_template c); [|done]. exists (lit "!"). done.
Qed.

Lemma modifier_trimmed c : cat_wf c → trimmed (lit "]" ++ modifier_text c) = true ∧ (chr ";" ∉ modifier_text c) ∧ (10%N ∉ modifier_text c).
Proof.
  intros [_ Hp _]. unfold modifier_text. destruct (ct_parent c) as [t|]; [|destruct (ct_template c)].
  - destruct (Hp t eq_refl) as ((_ & _ & H1 & H2) & _). destruct (ct_template c).
    + split; [|split; rewrite !elem_of_app; (intros [Hin|[?|Hin]]; [|done|]);
        revert Hin; apply (bool_decide_unpack _); by vm_compute].
      change (lit ",!)") with (lit ",!" ++ lit ")"). rewrite 2!(app_assoc _ _ (lit ")")). by apply trimmed_app.
    + split; [|split; rewrite !elem_of_app; (intros [Hin|[?|Hin]]; [|done|]);
        revert Hin; apply (bool_decide_unpack _); by vm_compute].
      rewrite (app_assoc _ _ (lit ")")). by apply trimmed_app.
  - split; [done|]. split; apply (bool_decide_unpack _); by vm_compute.
  - split; [done|]. split; apply (bool_decide_unpack _); by vm_compute.
Qed.

Lemma header_trimmed c : cat_wf c → trimmed (header_text c) = true ∧ (chr ";" ∉ header_text c) ∧ (10%N ∉ header_text c).
Proof.
  intros Hc. destruct (modifier_trimmed c Hc) as (H1 & H2 & H3). pose proof Hc as [[(_ & _ & H10 & Hs) _] _ _].
  unfold header_text. split; [apply (trimmed_app (lit "[") (ct_name c) (lit "]" ++ modifier_text c)); done|].
  split; set_solver.
Qed.

Lemma parse_header c file n : cat_wf c →
  parse_category_header (header_text c) file n = Done (Ok (ct_name c, ct_template c, ct_parent c)).
Proof.
  intros Hc. destruct (header_trimmed c Hc) as (Ht & _). pose proof Hc as [[(Hne & Htn & _) Hb] _ _].
  pose proof (modifier_read c Hc) as Hm. unfold parse_category_header. rewrite trim_trimmed by done.
  assert (Hb' : (chr "]" ∉ lit "[" ++ ct_name c)) by set_solver.
  assert (E : find_char (chr "]") (header_text c) = Some (len (lit "[" ++ ct_name c))).
  { apply find_char_Some. exists (lit "[" ++ ct_name c), (modifier_text c). split; [|done].
    unfold header_text. by rewrite <-app_assoc. }
  rewrite E. assert (Es : slice (header_text c) 1 (len (lit "[" ++ ct_name c)) = Done (ct_name c)).
  { unfold header_text. pose proof (slice_app (lit "[") (ct_name c) (lit "]" ++ modifier_text c)) as S. by rewrite len_app. }
  rewrite Es. cbn [outcome_bind]. rewrite trim_trimmed, bool_decide_false by done.
  assert (Ea : slice_from (header_text c) (len (lit "[" ++ ct_name c) + 1)%N = Done (modifier_text c)).
  { unfold header_text. change 1%N with (len (lit "]")). rewrite <-len_app, !app_assoc.
    apply (slice_from_app ((lit "[" ++ ct_name c) ++ lit "]")). }
  rewrite Ea. cbn [outcome_bind]. destruct (strip_prefix _ _) as [rest|]; [|by destruct Hm as [-> ->]].
  destruct Hm as (m & -> & -> & Em). cbn [outcome_bind]. by rewrite Em.
Qed.

Lemma parse_line_header fs rec file d n c cur cfg :
  cat_wf c →
  parse_config_line fs rec file d n (header_text c) (cur, cfg)
  = Done (Ok (Some (mkCategory (ct_name c) (ct_template c) [] (ct_parent c) file n), push_category cur cfg)).
Proof.
  intros Hc. destruct (header_trimmed c Hc) as (Ht & Hs & _). unfold parse_config_line. rewrite trim_trimmed by done.
  assert (E : bool_decide (header_text c = []) || starts_with (lit ";") (header_text c) || starts_with (lit "//") (header_text c) = false)
    by done.
  rewrite E, strip_nothing.
  2: { intros q prev i. rewrite <-(app_nil_r (header_text c)). by apply comment_start_clean. }
  cbn [outcome_bind]. rewrite trim_trimmed by done. change (bool_decide (header_text c = [])) with false.
  change (starts_with (lit "#include") (header_text c)) with false. change (starts_with (lit "#exec") (header_text c)) with false.
  assert (E2 : starts_with (lit "[") (header_text c) = true) by (apply starts_with_true; by eexists). rewrite E2.
  by rewrite parse_header.
Qed.

(** ** Lemmas: files *)

Lemma parse_lines_app fs rec file d a b : ∀ n st,
  parse_lines fs rec file d n (a ++ b) st
  = try_bind (parse_lines fs rec file d n a st) (λ st', parse_lines fs rec file d (n + Z.of_nat (length a)) b st').
Proof.
  induction a as [|l a IH]; intros n st; [cbn; by rewrite Z.add_0_r|]. cbn [Datatypes.app parse_lines].
  unfold try_bind in *. destruct (parse_config_line fs rec file d n l st) as [[st'|]|]; cbn [outcome_bind]; [|done..].
  rewrite IH. destruct (parse_lines fs rec file d (n + 1) a st') as [[st2|]|]; cbn [outcome_bind length]; [|done..].
  f_equal. lia.
Qed.

Lemma parse_lines_cats fs rec file d cs : Forall cat_wf cs → ∀ n cur cfg, ∃ cur' cfg',
  parse_lines fs rec file d n (cs ≫= cat_lines) (cur, cfg) = Done (Ok (cur', cfg'))
  ∧ push_category cur' cfg' = mkConfig (filename cfg) (categories (push_category cur cfg) ++ cats_of file n cs) (category_index cfg).
Proof.
  induction 1 as [|c cs Hc _ IH]; intros n cur cfg.
  - exists cur, cfg. split; [done|]. cbn. rewrite app_nil_r. destruct cur, cfg; done.
  - rewrite bind_cons, parse_lines_app. unfold cat_lines at 1. cbn [parse_lines]. fold (header_text c).
    rewrite parse_line_header by done. unfold try_bind. cbn [outcome_bind].
    rewrite parse_lines_vars by apply Hc. cbn [outcome_bind c_name is_template variables template_name c_file c_lineno].
    rewrite app_nil_l. fold (cat_of file n c).
    destruct (IH (n + Z.of_nat (length (cat_lines c))) (Some (cat_of file n c)) (push_category cur cfg)) as (cur' & cfg' & E & E2).
    exists cur', cfg'. split; [exact E|]. rewrite E2.
    assert (El : n + Z.of_nat (length (cat_lines c)) = n + 1 + Z.of_nat (length (ct_vars c)))
      by (unfold cat_lines; cbn [length]; rewrite length_fmap; lia).
    rewrite El. cbn [cats_of push_category categories filename category_index]. rewrite <-app_assoc. by destruct cur.
Qed.

Lemma cat_lines_ok c : cat_wf c → Forall (λ l, (10%N ∉ l) ∧ last l ≠ Some 13%N) (cat_lines c).
Proof.
  intros Hc. assert (Hlast : ∀ x, trimmed x = true → last x ≠ Some 13%N).
  { intros x Hx Hl. destruct x as [|ch x]; [done|]. unfold trimmed in Hx. rewrite Hl, andb_false_r in Hx. done. }
  unfold cat_lines. constructor.
  - destruct (header_trimmed c Hc) as (H1 & _ & H3). split; [exact H3|by apply Hlast].
  - apply Forall_fmap. eapply Forall_impl; [apply Hc|]. intros v [[(Hn & Ht & H10 & _) _] _ [Hv Hv10] _]. cbn. split.
    + unfold var_line. rewrite !elem_of_app. intros [?|[Hin|[?|?]%elem_of_escape]]; [done| |done|done].
      revert Hin. destruct (vt_object v); apply (bool_decide_unpack _); by vm_compute.
    + unfold var_line. destruct (vt_value v) as [|ch x] eqn:Ev.
      * cbn. rewrite app_nil_r. destruct (vt_object v);
          [change (lit " => ") with (lit " =>" ++ lit " ")|change (lit " = ") with (lit " =" ++ lit " ")]; by rewrite app_assoc, last_snoc.
      * rewrite app_assoc, <-Ev. assert (Hne : last (escape (vt_value v)) ≠ None) by (rewrite last_escape, Ev; intros E0; apply last_None in E0; discriminate).
        rewrite last_app. destruct (last (escape (vt_value v))) as [c0|] eqn:El; [|done]. rewrite <-El, last_escape, Ev. by apply Hlast.
Qed.

Lemma parse_written fs file d cs cfg : Forall cat_wf cs →
  parse_content fs (render_config cs) file d cfg
  = Done (Ok (mkConfig (filename cfg) (categories cfg ++ cats_of file 1 cs) (category_index cfg))).
Proof.
  intros Hcs. unfold parse_content. generalize 16%nat as fuel. intros fuel. cbn [parse_content_inner]. change (MAX_INCLUDE_DEPTH <? 0) with false. cbv iota.
  unfold render_config. rewrite lines_of_render.
  - destruct (parse_lines_cats fs (parse_content_inner fuel fs (0 + 1)) file d cs Hcs 1 None cfg) as (cur & cfg' & E & E2).
    rewrite E. unfold try_bind. cbn [outcome_bind]. by rewrite E2.
  - apply Forall_bind. eapply Forall_impl; [exact Hcs|]. intros c. apply cat_lines_ok.
Qed.

(** ** Lemmas: the index *)

Lemma Forall2_filter_bool {A B} (R : A → B → Prop) (f : A → bool) (g : B → bool) l k :
  Forall2 R l k → (∀ x y, R x y → f x = g y) → Forall2 R (filter (λ x, f x = true) l) (filter (λ y, g y = true) k).
Proof.
  intros HR Hfg. induction HR as [|x y l k Hxy _ IH]; [done|]. destruct (f x) eqn:E.
  - rewrite !filter_cons_True by (done || by rewrite <-(Hfg x y)). by constructor.
  - rewrite !filter_cons_False by (by rewrite <-?(Hfg x y), E). done.
Qed.

Lemma first_Forall2 {A B} (R : A → B → Prop) (f : A → bool) (g : B → bool) l k :
  Forall2 R l k → (∀ x y, R x y → f x = g y) → option_Forall2 R (first f l) (first g k).
Proof. intros HR Hfg. unfold first. destruct (Forall2_filter_bool R f g l k HR Hfg); by constructor. Qed.

Lemma last_Forall2 {A B} (R : A → B → Prop) l k : Forall2 R l k → option_Forall2 R (last l) (last k).
Proof.
  intros HR. destruct l as [|x l _] using rev_ind; [by inv HR; constructor|].
  apply Forall2_app_inv_l in HR as (k1 & k2 & _ & Hk & ->). inv Hk as [|? y ? ? Hxy Hk']. inv Hk'. rewrite !last_snoc. by constructor.
Qed.

Section index.
Context `{UnicodeCase}.
Implicit Types cs : list Category.

Fixpoint numbered {A} (m : nat) (l : list A) : list (nat * A) :=
  match l with [] => [] | x :: l => (m, x) :: numbered (S m) l end.

Lemma imap_numbered {A} (l : list A) m : imap (λ i x, ((m + i)%nat, x)) l = numbered m l.
Proof.
  revert m. induction l as [|x l IH]; intros m; [done|]. cbn [imap numbered]. rewrite Nat.add_0_r, <-IH. f_equal.
  apply imap_ext. intros i y _. cbn. f_equal. lia.
Qed.

Definition of_key (key : str) (c : Category) : bool := str_eqb (to_lowercase (c_name c)) key.

(** The places of the categories of a key. *)
Definition places (key : str) cs : list nat := fst <$> filter (λ ic, of_key key ic.2 = true) (numbered 0 cs).

Lemma index_lookup cs key :
  foldl (λ m ic, index_add ic.1 ic.2 m) ∅ (imap (λ i c, (i, c)) cs) !! key
  = match places key cs with [] => None | l => Some l end.
Proof.
  unfold places. assert (imap (λ i c, (i, c)) cs = numbered 0 cs) as -> by apply (imap_numbered cs 0). generalize (numbered 0 cs) as l. intros l. induction l as [|[i c] l IH] using rev_ind; [apply lookup_empty|].
  rewrite foldl_snoc, filter_app, fmap_app. unfold index_add at 1. cbn [fst snd].
  destruct (decide (to_lowercase (c_name c) = key)) as [<-|Hne].
  - rewrite lookup_insert_eq, IH, (filter_cons_True _ (i, c)) by (by apply str_eqb_true). cbn.
    by destruct (fst <$> filter _ l) as [|j js].
  - rewrite lookup_insert_ne, IH, (filter_cons_False _ (i, c)) by (done || by (unfold of_key; rewrite str_eqb_true)). cbn. by rewrite app_nil_r.
Qed.

Lemma categories_at_places cfg key :
  categories_at cfg (places key (categories cfg))
  = Done (filter (λ c, of_key key c = true) (categories cfg)).
Proof.
  assert (Hat : ∀ l, Forall (λ ic, categories cfg !! ic.1 = Some ic.2) l → categories_at cfg (fst <$> l) = Done (snd <$> l)).
  { induction 1 as [|[i c] l Hic _ IH]; [done|]. cbn [fmap list_fmap categories_at fst]. unfold category_at.
    cbn [fst snd] in Hic. rewrite Hic. cbn [outcome_bind]. fold (fst <$> l). by rewrite IH. }
  unfold places. rewrite Hat.
  - clear Hat. f_equal. generalize 0%nat as m. induction (categories cfg) as [|c cs IH]; intros m; [done|]. cbn [numbered].
    destruct (of_key key c) eqn:Ek.
    + rewrite !filter_cons_True by done. rewrite fmap_cons. by rewrite IH.
    + rewrite !filter_cons_False by (cbn [snd]; by rewrite Ek). apply IH.
  - apply Forall_forall. intros [i c] [_ Hin]%list_elem_of_filter. rewrite <-(imap_numbered (categories cfg) 0) in Hin.
    apply list_elem_of_lookup in Hin as [j Hj]. rewrite list_lookup_imap in Hj. by apply fmap_Some in Hj as (c' & Hc' & [= -> ->]).
Qed.

(** A configuration whose index is that of its categories. *)
Definition indexed (cfg : AsteriskConfig) : Prop :=
  ∀ key, category_index cfg !! key = match places key (categories cfg) with [] => None | l => Some l end.

Lemma indexed_lookup cfg name : indexed cfg →
  get_categories_by_name cfg name = Done (filter (λ c, same_name (c_name c) name = true) (categories cfg))
  ∧ get_category cfg name = Done (first (λ c, same_name (c_name c) name) (categories cfg)).
Proof.
  intros Hi. pose proof (categories_at_places cfg (to_lowercase name)) as Hp.
  unfold of_key in Hp. unfold get_categories_by_name, get_category, first, same_name. rewrite Hi.
  destruct (places _ _) as [|i l] eqn:E; cbn [default from_option id mbind option_bind head].
  - split; [exact Hp|]. cbn in Hp. by injection Hp as <-.
  - split; [exact Hp|]. cbn [categories_at] in Hp. destruct (category_at cfg i) as [c|]; [|done]. cbn in *.
    destruct (categories_at cfg l); [|done]. cbn in Hp. by injection Hp as <-.
Qed.

Lemma apply_templates_indexed cfg : indexed (apply_templates (rebuild_index cfg)).
Proof.
  intros key. unfold apply_templates, rebuild_index. cbn [category_index categories]. rewrite index_lookup.
  assert (E : ∀ (f : Category → Category) cs, (∀ c, c_name (f c) = c_name c) → places key (f <$> cs) = places key cs).
  { intros f cs Hf. unfold places. generalize 0%nat as m. induction cs as [|c cs IH]; intros m; [done|].
    rewrite fmap_cons. cbn [numbered]. assert (Ek : of_key key (f c) = of_key key c) by (unfold of_key; by rewrite Hf).
    destruct (of_key key c) eqn:Ec.
    - rewrite !filter_cons_True by done. rewrite !fmap_cons. by rewrite IH.
    - rewrite !filter_cons_False by (cbn [snd]; congruence). apply IH. }
  rewrite E; [done|]. intros c. unfold apply_template. by repeat case_match.
Qed.
(** ** Lemmas: templates and values *)

Lemma template_vars_lookup cs key :
  template_vars cs !! key = variables <$> last (filter (λ c, is_template c && of_key key c = true) cs).
Proof.
  unfold template_vars. induction cs as [|c cs IH] using rev_ind; [apply lookup_empty|]. rewrite !filter_app.
  destruct (is_template c) eqn:Et.
  - rewrite (filter_cons_True _ c) by done. change (filter (λ c, is_template c = true) []) with ([] : list Category). rewrite foldl_snoc.
    destruct (of_key key c) eqn:Ek.
    + rewrite (filter_cons_True (λ c, is_template c && of_key key c = true) c) by (by rewrite Et, Ek).
      change (filter (λ c, is_template c && of_key key c = true) []) with ([] : list Category). rewrite last_snoc.
      apply str_eqb_true in Ek as <-. by rewrite lookup_insert_eq.
    + rewrite (filter_cons_False (λ c, is_template c && of_key key c = true) c) by (by rewrite Et, Ek).
      change (filter (λ c, is_template c && of_key key c = true) []) with ([] : list Category). rewrite app_nil_r.
      apply str_eqb_false in Ek. by rewrite lookup_insert_ne.
  - rewrite (filter_cons_False _ c) by (by rewrite Et).
    rewrite (filter_cons_False (λ c, is_template c && of_key key c = true) c) by (by rewrite Et). cbn. rewrite !app_nil_r. exact IH.
Qed.

(** What a variable and a category say of their text. *)
Definition var_says (v : ConfVar) (t : VarText) : Prop := v_name v = vt_name t ∧ v_value v = vt_value t.

Definition cat_says (c : Category) (t : CatText) : Prop :=
  c_name c = ct_name t ∧ is_template c = ct_template t ∧ template_name c = ct_parent t ∧ Forall2 var_says (variables c) (ct_vars t).

Lemma cats_say file n ts : Forall2 cat_says (cats_of file n ts) ts.
Proof.
  revert n. induction ts as [|t ts IH]; intros n; [done|]. cbn [cats_of]. constructor; [|apply IH]. split; [done|]. split; [done|].
  split; [done|]. cbn. apply Forall2_same_length_lookup. split; [by rewrite length_imap|]. intros i v w Hv Hw.
  rewrite list_lookup_imap, Hw in Hv. by injection Hv as <-.
Qed.

Lemma applied_vars cs ts c t :
  Forall2 cat_says cs ts → cat_says c t → Forall2 var_says (variables (apply_template (template_vars cs) c)) (effective_vars ts t).
Proof.
  intros Hcs (Hn & Ht & Hp & Hv). unfold apply_template, effective_vars. rewrite Hp.
  destruct (ct_parent t) as [p|]; [|exact Hv]. cbn [mbind option_bind]. rewrite template_vars_lookup. unfold template_named.
  assert (Hl : option_Forall2 cat_says (last (filter (λ c, is_template c && of_key (to_lowercase p) c = true) cs))
                 (last (filter (λ c, ct_template c && same_name (ct_name c) p = true) ts))).
  { apply last_Forall2, Forall2_filter_bool; [done|]. intros x y (Hx & Hy & _).
    unfold of_key, same_name. by rewrite Hx, Hy. }
  destruct Hl as [x y (_ & _ & _ & Hxy)|]; cbn; [|exact Hv]. apply Forall2_app; [|exact Hv].
  apply Forall2_fmap_l. exact Hxy.
Qed.

Lemma apply_template_name m c : c_name (apply_template m c) = c_name c.
Proof. unfold apply_template. by repeat case_match. Qed.

Lemma written_values cs ts cfg :
  indexed cfg → categories cfg = apply_template (template_vars cs) <$> cs → Forall2 cat_says cs ts →
  ∀ category variable, conf_get_variable cfg category variable = Done (value_in ts category variable).
Proof.
  intros Hi Hc Hsays category variable. unfold conf_get_variable, value_in. rewrite (proj2 (indexed_lookup cfg category Hi)), Hc.
  cbn [outcome_bind]. f_equal.
  set (R := λ c t, c_name c = ct_name t ∧ Forall2 var_says (variables c) (effective_vars ts t)).
  assert (HR : Forall2 R (apply_template (template_vars cs) <$> cs) ts).
  { apply Forall2_fmap_l. eapply Forall2_impl; [exact Hsays|]. intros c t Hct. split; [|by apply applied_vars].
    rewrite apply_template_name. apply Hct. }
  destruct (first_Forall2 R (λ c, same_name (c_name c) category) (λ c, same_name (ct_name c) category) _ _ HR) as [c t [_ Hv]|].
  { by intros x y [-> _]. }
  - cbn [mbind option_bind]. unfold cat_get_variable.
    destruct (first_Forall2 var_says (named variable) (λ v, eq_ignore_ascii_case (vt_name v) variable) _ _ Hv) as [x y [_ Hxy]|]; cbn.
    + intros x y [Hx _]. unfold named. by rewrite Hx.
    + by rewrite Hxy.
    + done.
  - done.
Qed.

(** ** Theorems *)

(** C39. What is written is what is found.  A file of categories that inherit from
    templates, printed with its comments escaped, loads, and its categories are the
    written ones, with their variables in order after those of the template they
    name, with the file and the line each stands on; a variable is looked up in
    the first category of its name, among the variables of the last template of
    the category's parent and then among its own; every category of a name is found. *)
Theorem written_config_found (fs : FileSystem) (path : str) (ts : list CatText) :
  Forall cat_wf ts → fs path = Some (render_config ts) →
  ∃ cfg, load fs path = Done (Ok cfg)
    ∧ categories cfg = apply_template (template_vars (cats_of path 1 ts)) <$> cats_of path 1 ts
    ∧ (∀ name, get_categories_by_name cfg name = Done (filter (λ c, same_name (c_name c) name = true) (categories cfg)))
    ∧ ∀ category variable, conf_get_variable cfg category variable = Done (value_in ts category variable).
Proof.
  intros Hts Hfs. unfold load. rewrite Hfs, parse_written by done. unfold try_bind. cbn [outcome_bind]. eexists. split; [done|].
  cbn [categories]. rewrite app_nil_l. split; [done|]. set (cfg := apply_templates _).
  assert (Hi : indexed cfg) by apply apply_templates_indexed. split; [intros name; by apply indexed_lookup|].
  apply (written_values (cats_of path 1 ts)); [done|done|apply cats_say].
Qed.

(** C24. Loading a file returns, whatever the files hold and however they include
    each other, and it does not depend on files outside the directory of the first
    file: two file systems that agree on the file and on the paths under its
    directory load the same configuration or fail in the same way. *)
Theorem includes_stay_inside (fs1 fs2 : FileSystem) (path : str) :
  reads_files_only fs1 → fs1 path = fs2 path →
  (∀ p, under (default (lit ".") (parent path)) p → fs1 p = fs2 p) →
  returns (load fs1 path) ∧ load fs1 path = load fs2 path.
Proof.
  intros Hf Hpath Hagree. split; [apply load_returns|]. unfold load. rewrite <-Hpath. destruct (fs1 path) as [content|]; [|done].
  unfold parse_content.
  by rewrite (parse_content_inner_confined _ fs1 fs2 Hf Hagree 17 0 content path _ (mkConfig path [] ∅) (under_refl _)).
Qed.

End index.

(** ** What the code does besides *)

(** A value a template gives is found before the one the category gives. *)
Theorem inherited_value_wins `{UnicodeCase} (m : gmap str (list ConfVar)) (c : Category) (t name value : str) (vars : list ConfVar) :
  template_name c = Some t → m !! to_lowercase t = Some vars →
  v_value <$> first (named name) vars = Some value →
  cat_get_variable (apply_template m c) name = Some value.
Proof.
  intros Ht Hm Hv. unfold apply_template, cat_get_variable. rewrite Ht, Hm. cbn [variables]. unfold first in *.
  rewrite filter_app. assert (E : filter (λ x, named name x = true) (as_inherited <$> vars)
    = as_inherited <$> filter (λ x, named name x = true) vars).
  { clear. induction vars as [|v vs IH]; [done|]. rewrite fmap_cons. destruct (named name v) eqn:En.
    - rewrite !filter_cons_True by done. by rewrite fmap_cons, IH.
    - rewrite !filter_cons_False by (change (named name (as_inherited v)) with (named name v); by rewrite En). exact IH. }
  rewrite E. destruct (filter _ vars) as [|v vs]; [done|]. exact Hv.
Qed.

Section examples.
#[local] Instance examples_case : UnicodeCase := λ x, x.

Definition nl : str := [10%N].

Definition sample_config : list CatText :=
  [mkCatText (lit "phone") true None [mkVarText (lit "type") (lit "friend") false; mkVarText (lit "host") [] false];
   mkCatText (lit "General") false None [mkVarText (lit "exten") (lit "1,1,Set(a=>b;c)") true];
   mkCatText (lit "alice") true (Some (lit "Phone")) [mkVarText (lit "secret") (lit "x;y=\;z") false; mkVarText (lit "TYPE") (lit "peer") false]].

Lemma sample_config_wf : Forall cat_wf sample_config.
Proof.
  assert (Hw : ∀ x, bool_decide (x ≠ [] ∧ trimmed x = true ∧ (10%N ∉ x) ∧ (chr ";" ∉ x)) = true → word x)
    by (intros x Hx%bool_decide_eq_true; exact Hx).
  assert (Hv : ∀ n v b, word n → bool_decide ((chr "=" ∉ n) ∧ trimmed v = true ∧ (10%N ∉ v)) = true →
    forallb (λ p, negb (starts_with p n)) [lit "//"; lit "#include"; lit "#exec"; lit "["] = true →
    b || negb (contains (lit "=>") v) = true → var_wf (mkVarText n v b)).
  { intros n v b H1 (H2 & H3 & H4)%bool_decide_eq_true H5 H6. split; cbn [vt_name vt_value vt_object]; [done| |done|].
    - cbn in H5. rewrite !andb_true_iff, !negb_true_iff in H5. rewrite !Forall_cons. naive_solver.
    - intros ->. by apply negb_true_iff in H6. }
  assert (Hc : ∀ n b p vs, word n → bool_decide (chr "]" ∉ n) = true → word (default (lit "t") p) →
    bool_decide ((chr "," ∉ default [] p) ∧ (chr ")" ∉ default [] p) ∧ default [] p ≠ lit "!") = true →
    Forall var_wf vs → cat_wf (mkCatText n b p vs)).
  { intros n b p vs H1 H2%bool_decide_eq_true H3 H4%bool_decide_eq_true H5. split; cbn; [done| |done]. by intros t ->. }
  unfold sample_config. rewrite !Forall_cons. split; [|split; [|split; [|done]]];
    (apply Hc; [by apply Hw|done|by apply Hw|apply bool_decide_eq_true; apply (bool_decide_unpack _); by vm_compute|]);
    rewrite ?Forall_cons; repeat split; try done; (apply Hv; [by apply Hw|by vm_compute|by vm_compute|by vm_compute]).
Qed.

Lemma written_config_found_witness :
  ∃ cfg, load (λ p, if decide (p = lit "a.conf") then Some (render_config sample_config) else None) (lit "a.conf") = Done (Ok cfg)
    ∧ conf_get_variable cfg (lit "ALICE") (lit "type") = Done (Some (lit "friend"))
    ∧ conf_get_variable cfg (lit "alice") (lit "Secret") = Done (Some (lit "x;y=\;z")).
Proof.
  destruct (written_config_found (λ p, if decide (p = lit "a.conf") then Some (render_config sample_config) else None)
    (lit "a.conf") sample_config sample_config_wf ltac:(cbv beta; by rewrite decide_True)) as (cfg & Hl & _ & _ & Hv).
  exists cfg. split; [exact Hl|]. split; rewrite Hv; by vm_compute.
Defined.

(** Two file systems that differ in a file elsewhere. *)
Definition fs_with (passwd : str) : FileSystem := λ p,
  if decide (p = lit "/etc/ast/a.conf") then Some (lit "[a]" ++ nl ++ lit "#include sub/b.conf" ++ nl)
  else if decide (p = lit "/etc/ast/sub/b.conf") then Some (lit "[b]" ++ nl ++ lit "#include /etc/passwd" ++ nl)
  else if decide (p = lit "/etc/passwd") then Some passwd else None.

Lemma includes_stay_inside_witness :
  returns (load (fs_with (lit "root:x")) (lit "/etc/ast/a.conf"))
  ∧ load (fs_with (lit "root:x")) (lit "/etc/ast/a.conf") = load (fs_with []) (lit "/etc/ast/a.conf").
Proof.
  apply includes_stay_inside.
  - intros p Hp. unfold fs_with. repeat case_decide; try done; subst p; by vm_compute in Hp.
  - reflexivity.
  - intros p [_ (rest & Hr & _)]. unfold fs_with. repeat case_decide; try done. subst p.
    change (default (lit ".") (parent (lit "/etc/ast/a.conf"))) with (lit "/etc/ast") in Hr. by vm_compute in Hr.
Defined.

(** Variables after an included file are dropped until the next header, and so are
    those of the included file before its first header. *)
Example variables_after_include_dropped :
  (cfg ← result_ok <$> (match load (λ p, if decide (p = lit "a") then Some (lit "[a]" ++ nl ++ lit "x = 1" ++ nl ++ lit "#include b" ++ nl ++ lit "y = 2" ++ nl)
                              else if decide (p = lit "b") then Some (lit "z = 3" ++ nl) else None) (lit "a")
                   with Done r => Some r | Panic => None end);
   cfg ← cfg; Some ((λ c, v_name <$> variables c) <$> categories cfg)) = Some [[lit "x"]].
Proof. by vm_compute. Qed.

(** A template does not hand on what it inherits itself. *)
Example templates_one_level :
  (match from_str (λ _, None) (lit "[a](!)" ++ nl ++ lit "x = 1" ++ nl ++ lit "[b](!,a)" ++ nl ++ lit "[c](a,!)" ++ nl ++ lit "[d](c)" ++ nl) [] with
   | Done (Ok cfg) => (λ c, (c_name c, v_name <$> variables c)) <$> categories cfg
   | _ => []
   end) = [(lit "a", [lit "x"]); (lit "b", []); (lit "c", [lit "x"]); (lit "d", [])].
Proof. by vm_compute. Qed.

(** A file that includes itself fails to load. *)
Example include_cycle_refused :
  load (λ _, Some (lit "#include a" ++ nl)) (lit "a")
  = Done (Err (ParseError (lit "a") 0 (lit "#include depth exceeds maximum (16) -- possible cycle"))).
Proof. by vm_compute. Qed.
End examples.
