(* ===== verification/Bridge.v ===== *)
(** * Bridges ([asterisk-core/src/bridge/])

    Bridge membership and lifecycle (mod.rs), the technologies that route frames
    (implementations.rs), the DTMF features (builtin_features.rs) and the event
    loop of a bridged channel (event_loop.rs).  Objects behind an [Arc<Mutex<_>>]
    are values passed by the operations that lock them; the critical sections of
    the event loop are the steps of [loop_step].

    The theorems: a two-party call delivers to each side exactly what the other
    says, in order, under every interleaving - what that is, [to_hear] says, which
    uses none of the code's filters; membership stays consistent over
    any sequence of joins, departures and dissolutions; an event loop ends with its
    own hangup frame and with nothing else; and what the feature codes need. *)

From Stdlib Require Import ZArith NArith Ascii String.
From S2P Require Import Prelude RustStr Types Channel.
Local Open Scope Z_scope.
Local Open Scope list_scope.

(** ** Bridges *)

Inductive AsteriskError :=
  | EInternal (m : str) | ENotFound (m : str) | EInvalidArgument (m : str) | ENotSupported (m : str)
  | EIo | EAlreadyExists (m : str) | ETimeout (m : str) | EHangup (m : str) | EParse (m : str).

Inductive VideoMode := VmNone | VmSingleSource | VmTalkerSource | VmSfu.
Inductive BridgeChannelState := Waiting | Joined | Suspended | Leaving.

#[export] Instance BridgeChannelState_eq_dec : EqDecision BridgeChannelState.
Proof. solve_decision. Defined.

Record BridgeChannel := mkBc { channel_id : str; channel_name : str; bc_state : BridgeChannelState; bc_features : Z }.

Definition bridge_channel_new (id name : str) : BridgeChannel := mkBc id name Waiting 0.
Definition set_bc_state (s : BridgeChannelState) (bc : BridgeChannel) : BridgeChannel :=
  mkBc (channel_id bc) (channel_name bc) s (bc_features bc).

Record Bridge := mkBridge {
  bridge_uid : str; bridge_name : str; technology : str; members : list BridgeChannel; flags : Z;
  video_mode : VideoMode; dissolved : bool; bridge_cause : Z; num_active : nat }.

Definition DISSOLVE_HANGUP : Z := Z.shiftl 1 0.
Definition DISSOLVE_EMPTY : Z := Z.shiftl 1 1.
Definition contains_flag (fs f : Z) : bool := Z.land fs f =? f.

(** [id] is the fresh UUID. *)
Definition bridge_with_flags (id name : str) (fs : Z) : Bridge := mkBridge id name [] [] fs VmNone false 0 0.
Definition bridge_new (id name : str) : Bridge := bridge_with_flags id name 0.

Definition set_members (b : Bridge) (ms : list BridgeChannel) (n : nat) : Bridge :=
  mkBridge (bridge_uid b) (bridge_name b) (technology b) ms (flags b) (video_mode b) (dissolved b) (bridge_cause b) n.
Definition set_dissolved (b : Bridge) : Bridge :=
  mkBridge (bridge_uid b) (bridge_name b) (technology b) (members b) (flags b) (video_mode b) true (bridge_cause b) (num_active b).
Definition set_technology (b : Bridge) (t : str) : Bridge :=
  mkBridge (bridge_uid b) (bridge_name b) t (members b) (flags b) (video_mode b) (dissolved b) (bridge_cause b) (num_active b).

Definition has_channel (b : Bridge) (id : str) : bool := existsb (λ bc, str_eqb (channel_id bc) id) (members b).

Definition add_channel (id name : str) (b : Bridge) : Bridge :=
  if has_channel b id then b
  else
    let ms := members b ++ [set_bc_state Joined (bridge_channel_new id name)] in
    set_members b ms (length ms).

Definition remove_channel (id : str) (b : Bridge) : Bridge * bool :=
  let ms := filter (λ bc, negb (str_eqb (channel_id bc) id) = true) (members b) in
  if (length ms <? length (members b))%nat then (set_members b ms (length ms), true) else (b, false).

Record BridgeSnapshot := mkSnapshot {
  sn_uid : str; sn_name : str; sn_technology : str; sn_num : nat; sn_ids : list str; sn_video : VideoMode }.
Definition bridge_snapshot (b : Bridge) : BridgeSnapshot :=
  mkSnapshot (bridge_uid b) (bridge_name b) (technology b) (length (members b)) (channel_id <$> members b) (video_mode b).

(** ** Technologies *)

(** Frames routed to a channel of a bridge and not taken yet: [SIMPLE_BRIDGE_ROUTING]. *)
Abbreviation Routing := (gmap str (gmap str (list Frame))) (only parsing).

(** A method may change the bridge and the global routing, whether it fails or not. *)
Definition TechMethod : Type := Bridge → Routing → Bridge * Routing * option AsteriskError.

Record BridgeTechnology := mkTech {
  tech_name : str;
  tech_preference : Z;
  tech_create : TechMethod;
  tech_start : TechMethod;
  tech_stop : TechMethod;
  tech_join : BridgeChannel → TechMethod;
  tech_leave : BridgeChannel → TechMethod;
  tech_write_frame : BridgeChannel → Frame → TechMethod }.

Definition tech_ok : TechMethod := λ b r, (b, r, None).

Definition simple_bridge_should_pass (f : Frame) : bool :=
  match f with
  | FVoice _ | FVideo _ | FDtmfBegin _ | FDtmfEnd _ _ | FText _ | FCng _ => true
  | FControl c _ => negb (bool_decide (c ∈ [CfHold; CfUnhold; CfHangup]))
  | _ => false
  end.

Definition pending (uid id : str) (r : Routing) : list Frame := default [] (default ∅ (r !! uid) !! id).

(** [get_simple_routing] creates the entry of the bridge when there is none. *)
Definition get_simple_routing (uid : str) (r : Routing) : Routing * gmap str (list Frame) :=
  let m := default ∅ (r !! uid) in (<[uid := m]> r, m).

Definition take_frames (uid id : str) (r : Routing) : Routing * list Frame :=
  let (r, m) := get_simple_routing uid r in (<[uid := delete id m]> r, default [] (m !! id)).

Definition push_to (from : str) (f : Frame) (m : gmap str (list Frame)) (bc : BridgeChannel) : gmap str (list Frame) :=
  if str_eqb (channel_id bc) from then m
  else <[channel_id bc := default [] (m !! channel_id bc) ++ [f]]> m.

Definition simple_write (from : BridgeChannel) (f : Frame) : TechMethod := λ b r,
  if simple_bridge_should_pass f then
    let (r, m) := get_simple_routing (bridge_uid b) r in
    (b, <[bridge_uid b := foldl (push_to (channel_id from) f) m (members b)]> r, None)
  else (b, r, None).

Definition SimpleBridge : BridgeTechnology := {|
  tech_name := lit "simple_bridge";
  tech_preference := 90;
  tech_create := tech_ok;
  tech_start := tech_ok;
  tech_stop := λ b r, (b, delete (bridge_uid b) r, None);
  tech_join := λ _ b r,
    (b, r, if (2 <? length (members b))%nat
           then Some (EInvalidArgument (lit "simple bridge supports at most 2 channels")) else None);
  tech_leave := λ _, tech_ok;
  tech_write_frame := simple_write |}.

(** The other two route nothing; what [HoldingBridge] announces goes nowhere. *)
Definition HoldingBridge : BridgeTechnology :=
  mkTech (lit "holding_bridge") 70 tech_ok tech_ok tech_ok (λ _, tech_ok) (λ _, tech_ok) (λ _ _, tech_ok).
Definition SoftmixBridge : BridgeTechnology :=
  mkTech (lit "softmix") 50 tech_ok tech_ok tech_ok (λ _, tech_ok) (λ _, tech_ok) (λ _ _, tech_ok).

(** ** Lifecycle *)

(** The ids under which bridges are registered: [BRIDGE_STORE]. *)
Abbreviation Store := (gset str) (only parsing).

(** A channel with the field that [Channel.v] leaves out. *)
Record BridgedChannel := mkBridged { chan : Channel; bridge_id : option str }.

Definition bridge_create (tech : BridgeTechnology) (id name : str) (store : Store) (r : Routing)
    : Store * Routing * result AsteriskError Bridge :=
  let '(b, r, e) := tech_create tech (bridge_new id name) r in
  match e with
  | Some e => (store, r, Err e)
  | None =>
      let b := set_technology b (tech_name tech) in
      if decide (bridge_uid b ∈ store) then
        (store, r, Err (EAlreadyExists (lit "Bridge " ++ bridge_uid b ++ lit " already exists")))
      else
        let store := {[ bridge_uid b ]} ∪ store in
        let '(b, r, e) := tech_start tech b r in
        (store, r, match e with Some e => Err e | None => Ok b end)
  end.

(** The three critical sections of [bridge_join]. *)
Definition join_check (b : Bridge) (c : BridgedChannel) : result AsteriskError (str * str * str) :=
  match bridge_id c with
  | Some _ => Err (EInvalidArgument (lit "Channel " ++ chan_name (chan c) ++ lit " is already in a bridge"))
  | None =>
      if dissolved b then Err (EInvalidArgument (lit "Bridge " ++ bridge_uid b ++ lit " is dissolved"))
      else Ok (unique_id (chan c), chan_name (chan c), bridge_uid b)
  end.

Definition join_add (tech : BridgeTechnology) (id name : str) (b : Bridge) (r : Routing)
    : Bridge * Routing * result AsteriskError BridgeChannel :=
  let bc := set_bc_state Joined (bridge_channel_new id name) in
  let '(b, r, e) := tech_join tech bc (add_channel id name b) r in
  (b, r, match e with Some e => Err e | None => Ok bc end).

Definition join_finish (uid : str) (c : BridgedChannel) : BridgedChannel := mkBridged (chan c) (Some uid).

(** The [BridgeChannel] that is returned is another object than the one in the bridge. *)
Definition bridge_join (tech : BridgeTechnology) (b : Bridge) (c : BridgedChannel) (r : Routing)
    : Bridge * BridgedChannel * Routing * result AsteriskError BridgeChannel :=
  match join_check b c with
  | Err e => (b, c, r, Err e)
  | Ok (id, name, uid) =>
      let '(b, r, res) := join_add tech id name b r in
      match res with
      | Err e => (b, c, r, Err e)
      | Ok bc => (b, join_finish uid c, r, Ok bc)
      end
  end.

Definition bridge_dissolve (tech : BridgeTechnology) (b : Bridge) (store : Store) (r : Routing) : Bridge * Store * Routing :=
  if dissolved b then (b, store, r)
  else
    let b := set_dissolved b in
    let b := set_members b (set_bc_state Leaving <$> members b) (num_active b) in
    let uid := bridge_uid b in
    let '(b, r, _) := tech_stop tech b r in
    (b, store ∖ {[ uid ]}, r).

Definition should_dissolve (b : Bridge) : bool :=
  if dissolved b then false
  else if contains_flag (flags b) DISSOLVE_EMPTY && (length (members b) =? 0)%nat then true
  else contains_flag (flags b) DISSOLVE_HANGUP && (length (members b) <? 2)%nat.

Definition bridge_leave (tech : BridgeTechnology) (b : Bridge) (bc : BridgeChannel) (c : BridgedChannel) (store : Store) (r : Routing)
    : Bridge * BridgeChannel * BridgedChannel * Store * Routing * option AsteriskError :=
  let '(b, r, e) := tech_leave tech bc b r in
  match e with
  | Some e => (b, bc, c, store, r, Some e)
  | None =>
      let b := (remove_channel (channel_id bc) b).1 in
      let c := mkBridged (chan c) None in
      let bc := set_bc_state Leaving bc in
      if should_dissolve b then
        let '(b, store, r) := bridge_dissolve tech b store r in (b, bc, c, store, r, None)
      else (b, bc, c, store, r, None)
  end.

(** ** DTMF features *)

Inductive FeatureActivation := ActCaller | ActCallee | ActBoth.
Inductive FeatureAction := BlindTransfer | AttendedTransfer | Disconnect | ParkCall | AutoMixMonitor | AutoMonitor.

Record DtmfFeature := mkFeature { f_code : str; f_name : str; f_activate_on : FeatureActivation; f_action : FeatureAction }.

Record BuiltinFeaturesConfig := mkFeatConfig {
  blind_transfer_code : str; attended_transfer_code : str; disconnect_code : str; park_code : str;
  automixmon_code : str; automon_code : str; feature_digit_timeout_ms : Z }.

Definition features_default : BuiltinFeaturesConfig := mkFeatConfig (lit "#") (lit "*") [] [] [] [] 1000.

Inductive DtmfFeatureResult := PassThrough | Collecting | Triggered (a : FeatureAction) | FTimeout.

Record BuiltinFeatures := mkFeatures { feat_list : list DtmfFeature; digit_buffers : gmap str str }.

Definition feature_if (code name : str) (on : FeatureActivation) (a : FeatureAction) : list DtmfFeature :=
  if bool_decide (code = []) then [] else [mkFeature code name on a].

Definition build_feature_list (c : BuiltinFeaturesConfig) : list DtmfFeature :=
  feature_if (blind_transfer_code c) (lit "Blind Transfer") ActBoth BlindTransfer
  ++ feature_if (attended_transfer_code c) (lit "Attended Transfer") ActBoth AttendedTransfer
  ++ feature_if (disconnect_code c) (lit "Disconnect") ActBoth Disconnect
  ++ feature_if (park_code c) (lit "Park Call") ActCaller ParkCall
  ++ feature_if (automixmon_code c) (lit "Auto MixMonitor") ActBoth AutoMixMonitor
  ++ feature_if (automon_code c) (lit "Auto Monitor") ActBoth AutoMonitor.

Definition features_with_config (c : BuiltinFeaturesConfig) : BuiltinFeatures := mkFeatures (build_feature_list c) ∅.
Definition features_new : BuiltinFeatures := features_with_config features_default.

Definition buffer_of (id : str) (fe : BuiltinFeatures) : str := default [] (digit_buffers fe !! id).
Definition clear_buffer (id : str) (fe : BuiltinFeatures) : BuiltinFeatures := mkFeatures (feat_list fe) (delete id (digit_buffers fe)).

Definition has_partial (buffer : str) (fs : list DtmfFeature) : bool := existsb (λ f, starts_with buffer (f_code f)) fs.

Definition process_dtmf (id : str) (digit : char) (fe : BuiltinFeatures) : DtmfFeatureResult * BuiltinFeatures :=
  let buffer := buffer_of id fe ++ [digit] in
  match list_find (λ f, str_eqb buffer (f_code f) = true) (feat_list fe) with
  | Some (_, f) => (Triggered (f_action f), clear_buffer id fe)
  | None =>
      if has_partial buffer (feat_list fe)
      then (Collecting, mkFeatures (feat_list fe) (<[id := buffer]> (digit_buffers fe)))
      else (PassThrough, clear_buffer id fe)
  end.

Definition check_timeout (id : str) (fe : BuiltinFeatures) : option str * BuiltinFeatures :=
  match digit_buffers fe !! id with
  | None => (None, fe)
  | Some buffer =>
      if bool_decide (buffer = []) then (None, fe)
      else (if has_partial buffer (feat_list fe) then Some buffer else None, clear_buffer id fe)
  end.

(** ** The event loop *)

Inductive FrameAction := FaContinue | FaLeave | FaWrite (f : Frame).

Definition should_pass_frame (f : Frame) : bool :=
  match f with
  | FVoice _ | FVideo _ | FDtmfBegin _ | FDtmfEnd _ _ | FText _ => true
  | FControl c _ => negb (bool_decide (c ∈ [CfHold; CfUnhold; CfHangup]))
  | FNull => false
  | FCng _ => true
  | _ => false
  end.

(** What becomes of a frame with a digit. *)
Definition digit_frame (f : Frame) (id : str) (digit : char) (fe : option BuiltinFeatures) : FrameAction * option BuiltinFeatures :=
  match fe with
  | None => (FaWrite f, None)
  | Some fe =>
      let (res, fe) := process_dtmf id digit fe in
      (match res with Triggered _ | Collecting => FaContinue | FTimeout | PassThrough => FaWrite f end, Some fe)
  end.

Definition process_frame (f : Frame) (id : str) (fe : option BuiltinFeatures) : FrameAction * option BuiltinFeatures :=
  match f with
  | FControl CfHangup _ => (FaLeave, fe)
  | FControl CfHold _ | FControl CfUnhold _ => (FaContinue, fe)
  | FDtmfEnd digit _ => digit_frame f id digit fe
  | FDtmfBegin digit => digit_frame f id digit fe
  | FNull => (FaContinue, fe)
  | _ => (if should_pass_frame f then FaWrite f else FaContinue, fe)
  end.

(** Where a task is between the locks it takes. *)
Inductive Pc := AtTop | AtDeliver | AtRead | AtProcess (f : Frame) | AtWrite (f : Frame) | AtRecheck | Exited.

Record Party := mkParty {
  p_chan : BridgedChannel; p_bc : BridgeChannel; p_features : option BuiltinFeatures; p_pc : Pc }.

Definition set_pc (p : Party) (pc : Pc) : Party := mkParty (p_chan p) (p_bc p) (p_features p) pc.
Definition with_chan (p : Party) (c : Channel) : Party := mkParty (mkBridged c (bridge_id (p_chan p))) (p_bc p) (p_features p) (p_pc p).

(** Leaving the loop clears the digits that were being collected. *)
Definition exit_loop (p : Party) : Party :=
  mkParty (p_chan p) (p_bc p) (clear_buffer (channel_id (p_bc p)) <$> p_features p) Exited.

(** One critical section of [bridge_channel_run]. *)
Definition loop_step (tech : BridgeTechnology) (b : Bridge) (r : Routing) (p : Party) : Bridge * Routing * Party :=
  let id := channel_id (p_bc p) in
  match p_pc p with
  | AtTop => (b, r, if decide (bc_state (p_bc p) = Leaving) then exit_loop p else set_pc p AtDeliver)
  | AtDeliver =>
      let (r, inbound) := take_frames (bridge_uid b) id r in
      (b, r, set_pc (with_chan p (foldl queue_write_frame (chan (p_chan p)) inbound)) AtRead)
  | AtRead =>
      let (f, c) := dequeue_frame (chan (p_chan p)) in
      (b, r, set_pc (with_chan p c) (match f with Some f => AtProcess f | None => AtTop end))
  | AtProcess f =>
      let (action, fe) := process_frame f id (p_features p) in
      let p := mkParty (p_chan p) (p_bc p) fe (p_pc p) in
      (b, r, match action with
             | FaLeave => exit_loop (mkParty (p_chan p) (set_bc_state Leaving (p_bc p)) fe (p_pc p))
             | FaContinue => set_pc p AtRecheck
             | FaWrite g => set_pc p (AtWrite g)
             end)
  | AtWrite g =>
      let '(b, r, _) := tech_write_frame tech (p_bc p) g b r in
      (b, r, set_pc p AtRecheck)
  | AtRecheck => (b, r, if decide (bc_state (p_bc p) = Leaving) then exit_loop p else set_pc p AtTop)
  | Exited => (b, r, p)
  end.

(** ** A two-party call

    Two loops over one bridge; what else happens is up to the drivers of the
    channels ([queue_frame], [dequeue_write_frame], [softhangup]) and to whoever
    dissolves the bridge. *)

Inductive Side := SideA | SideB.
#[export] Instance Side_eq_dec : EqDecision Side.
Proof. solve_decision. Defined.
Definition other (s : Side) : Side := match s with SideA => SideB | SideB => SideA end.

(** [got s]: the frames the driver of the channel has taken. *)
Record Call := mkCall {
  the_bridge : Bridge; store_of : Store; routing : Routing; party : Side → Party; got : Side → list Frame }.

Inductive Event := EvRun (s : Side) | EvQueue (s : Side) (f : Frame) | EvTake (s : Side) | EvSoft (s : Side) (cause : Z) | EvDissolve.

Definition set_side {A} (s : Side) (x : A) (m : Side → A) : Side → A := λ s', if decide (s' = s) then x else m s'.

Definition call_step (tech : BridgeTechnology) (k : Call) (e : Event) : Call :=
  match e with
  | EvRun s =>
      let '(b, r, p) := loop_step tech (the_bridge k) (routing k) (party k s) in
      mkCall b (store_of k) r (set_side s p (party k)) (got k)
  | EvQueue s f =>
      let p := party k s in
      mkCall (the_bridge k) (store_of k) (routing k) (set_side s (with_chan p (queue_frame (chan (p_chan p)) f)) (party k)) (got k)
  | EvSoft s cause =>
      let p := party k s in
      mkCall (the_bridge k) (store_of k) (routing k) (set_side s (with_chan p (softhangup (chan (p_chan p)) cause)) (party k)) (got k)
  | EvTake s =>
      let p := party k s in
      let (f, c) := dequeue_write_frame (chan (p_chan p)) in
      mkCall (the_bridge k) (store_of k) (routing k) (set_side s (with_chan p c) (party k))
        (set_side s (got k s ++ option_list f) (got k))
  | EvDissolve =>
      let '(b, store, r) := bridge_dissolve tech (the_bridge k) (store_of k) (routing k) in
      mkCall b store r (party k) (got k)
  end.

Definition call_run (tech : BridgeTechnology) (k : Call) (es : list Event) : Call := foldl (call_step tech) k es.

(** Two channels that join a fresh bridge; [None] if one is refused. *)
Definition call_start (id name : str) (ca cb : BridgedChannel) (fe : Side → option BuiltinFeatures) : option Call :=
  match bridge_create SimpleBridge id name ∅ ∅ with
  | (store, r, Ok b) =>
      match bridge_join SimpleBridge b ca r with
      | (b, ca, r, Ok bca) =>
          match bridge_join SimpleBridge b cb r with
          | (b, cb, r, Ok bcb) =>
              Some (mkCall b store r
                (λ s, match s with SideA => mkParty ca bca (fe SideA) AtTop | SideB => mkParty cb bcb (fe SideB) AtTop end) (λ _, []))
          | _ => None
          end
      | _ => None
      end
  | _ => None
  end.

(** ** What one side says *)

(** The state of a side: its features, or gone. *)
Definition Speech : Type := option (option BuiltinFeatures).

Definition say (id : str) (st : Speech) (f : Frame) : list Frame * Speech :=
  match st with
  | None => ([], None)
  | Some fe =>
      match process_frame f id fe with
      | (FaLeave, _) => ([], None)
      | (FaContinue, fe) => ([], Some fe)
      | (FaWrite g, fe) => (if simple_bridge_should_pass g then [g] else [], Some fe)
      end
  end.

Fixpoint said (id : str) (st : Speech) (fs : list Frame) : list Frame :=
  match fs with [] => [] | f :: fs => (say id st f).1 ++ said id (say id st f).2 fs end.
Fixpoint said_then (id : str) (st : Speech) (fs : list Frame) : Speech :=
  match fs with [] => st | f :: fs => said_then id (say id st f).2 fs end.

(** ** What the other side is to hear

    Independently of the code: sound, video, text, comfort noise and digits cross the
    bridge as they are, and so do the signals other than hold, unhold and hangup; the
    other kinds of frame do not.  A hangup ends what the side says. *)

Definition hangs_up (f : Frame) : Prop := match f with FControl c _ => c = CfHangup | _ => False end.
#[export] Instance hangs_up_dec f : Decision (hangs_up f).
Proof. destruct f; cbn; apply _. Defined.

Definition crosses (f : Frame) : Prop :=
  match f with
  | FVoice _ | FVideo _ | FText _ | FCng _ | FDtmfBegin _ | FDtmfEnd _ _ => True
  | FControl c _ => c ≠ CfHold ∧ c ≠ CfUnhold ∧ c ≠ CfHangup
  | FNull | FImage _ | FHtml _ _ | FModem _ _ | FRtcp _ | FBridgeAction _ => False
  end.
#[export] Instance crosses_dec f : Decision (crosses f).
Proof. destruct f; cbn; apply _. Defined.

Definition digit_of (f : Frame) : option char :=
  match f with FDtmfBegin d | FDtmfEnd d _ => Some d | _ => None end.

(** Where feature codes are configured, a digit continues those held back: when they are
    then a code, its feature is run and they are gone; when a code starts with them, they
    are held back; otherwise this digit crosses, and those held back are gone. *)
Fixpoint to_hear (codes : option (list str)) (held : str) (fs : list Frame) : list Frame :=
  match fs with
  | [] => []
  | f :: fs =>
      if decide (hangs_up f) then []
      else
        match codes, digit_of f with
        | Some cs, Some d =>
            if decide (held ++ [d] ∈ cs) then to_hear codes [] fs
            else if decide (Exists (λ c, held ++ [d] `prefix_of` c) cs) then to_hear codes (held ++ [d]) fs
            else f :: to_hear codes [] fs
        | _, _ => if decide (crosses f) then f :: to_hear codes held fs else to_hear codes held fs
        end
  end.

Definition codes_of (fe : option BuiltinFeatures) : option (list str) := (λ fe, f_code <$> feat_list fe) <$> fe.
Definition held_of (id : str) (fe : option BuiltinFeatures) : str := default [] (fe ≫= λ fe, digit_buffers fe !! id).

(** The frames a side's channel is given. *)
Definition frame_for (s : Side) (e : Event) : list Frame :=
  match e with
  | EvQueue s' f => if decide (s' = s) then [f] else []
  | EvSoft s' _ => if decide (s' = s) then [FNull] else []
  | _ => []
  end.
Definition frames_for (s : Side) (es : list Event) : list Frame := es ≫= frame_for s.

(** No event makes a queue drop its oldest frame, or dissolves the bridge. *)
Definition roomy (k : Call) (e : Event) : bool :=
  match e with
  | EvQueue s _ => (length (frame_queue (chan (p_chan (party k s)))) <? MAX_FRAME_QUEUE_SIZE)%nat
  | EvRun s =>
      match p_pc (party k s) with
      | AtDeliver => (length (write_queue (chan (p_chan (party k s))))
                      + length (pending (bridge_uid (the_bridge k)) (channel_id (p_bc (party k s))) (routing k)) <=? MAX_FRAME_QUEUE_SIZE)%nat
      | _ => true
      end
  | EvDissolve => false
  | _ => true
  end.
Fixpoint all_roomy (k : Call) (es : list Event) : bool :=
  match es with [] => true | e :: es => roomy k e && all_roomy (call_step SimpleBridge k e) es end.

(** Nothing is left to do for a frame of side [s]. *)
Definition all_delivered (s : Side) (k : Call) : bool :=
  bool_decide (frame_queue (chan (p_chan (party k s))) = [])
  && match p_pc (party k s) with AtProcess _ | AtWrite _ => false | _ => true end
  && bool_decide (pending (bridge_uid (the_bridge k)) (channel_id (p_bc (party k (other s)))) (routing k) = [])
  && bool_decide (write_queue (chan (p_chan (party k (other s)))) = []).

(** ** Lemmas: what is said is what is to be heard *)

Lemma find_code_spec (held : str) fs :
  match list_find (λ f, str_eqb held (f_code f) = true) fs with
  | Some _ => held ∈ f_code <$> fs | None => held ∉ f_code <$> fs end.
Proof.
  destruct (list_find _ fs) as [[i g]|] eqn:E.
  - apply list_find_Some in E as (Hi & Hg%str_eqb_true & _). apply list_elem_of_fmap. exists g. split; [done|].
    by eapply list_elem_of_lookup_2.
  - apply list_find_None in E. rewrite Forall_forall in E. intros (g & -> & Hg)%list_elem_of_fmap.
    apply (E g Hg). apply str_eqb_refl.
Qed.

Lemma has_partial_spec held fs : has_partial held fs = true ↔ Exists (λ c, held `prefix_of` c) (f_code <$> fs).
Proof.
  unfold has_partial. rewrite existsb_exists, Exists_exists. split.
  - intros (g & Hg%list_elem_of_In & [y Hy]%starts_with_true). exists (f_code g). split; [apply list_elem_of_fmap; by exists g|by exists y].
  - intros (c & (g & -> & Hg)%list_elem_of_fmap & [y Hy]). exists g. split; [by apply list_elem_of_In|].
    apply starts_with_true. by exists y.
Qed.

Lemma process_dtmf_spec id d fe :
  let held := buffer_of id fe ++ [d] in
  let cs := f_code <$> feat_list fe in
  let '(res, fe') := process_dtmf id d fe in
  feat_list fe' = feat_list fe
  ∧ if decide (held ∈ cs) then (∃ a, res = Triggered a) ∧ buffer_of id fe' = []
    else if decide (Exists (λ c, held `prefix_of` c) cs) then res = Collecting ∧ buffer_of id fe' = held
    else res = PassThrough ∧ buffer_of id fe' = [].
Proof.
  cbv zeta. unfold process_dtmf. pose proof (find_code_spec (buffer_of id fe ++ [d]) (feat_list fe)) as Hf.
  destruct (list_find _ _) as [[i g]|].
  - rewrite decide_True by done. split; [done|]. split; [by eexists|]. unfold buffer_of. cbn. by rewrite lookup_delete_eq.
  - pose proof (has_partial_spec (buffer_of id fe ++ [d]) (feat_list fe)) as Hp.
    destruct (has_partial _ _); (split; [done|]); destruct (decide (_ ∈ _)) as [Hin|_]; try done; case_decide as Hx.
    + split; [done|]. unfold buffer_of. cbn. by rewrite lookup_insert_eq.
    + destruct Hx. by apply Hp.
    + by apply Hp in Hx.
    + split; [done|]. unfold buffer_of. cbn. by rewrite lookup_delete_eq.
Qed.

Lemma said_digit id fe f d fs :
  digit_of f = Some d → process_frame f id fe = digit_frame f id d fe → simple_bridge_should_pass f = true →
  (∀ fe, said id (Some fe) fs = to_hear (codes_of fe) (held_of id fe) fs) →
  said id (Some fe) (f :: fs) = to_hear (codes_of fe) (held_of id fe) (f :: fs).
Proof.
  intros Hd Hp Hpass IH. assert (¬ hangs_up f ∧ crosses f) as [Hh Hc] by (destruct f; try discriminate Hd; split; cbn; tauto).
  cbn [said say to_hear]. rewrite Hp, Hd, (decide_False (P := hangs_up f)) by done. unfold digit_frame. destruct fe as [fe|].
  - pose proof (process_dtmf_spec id d fe) as Hs. destruct (process_dtmf id d fe) as [res fe']. destruct Hs as [Hl Hs].
    assert (codes_of (Some fe') = codes_of (Some fe)) as Hcs by (cbn; by rewrite Hl).
    change (codes_of (Some fe)) with (Some (f_code <$> feat_list fe)) in *. cbv beta iota.
    change (held_of id (Some fe)) with (buffer_of id fe). specialize (IH (Some fe')).
    change (held_of id (Some fe')) with (buffer_of id fe') in IH. rewrite Hcs in IH.
    destruct (decide (buffer_of id fe ++ [d] ∈ _)).
    { destruct Hs as [[a ->] Hb]. cbn [fst snd]. by rewrite IH, Hb. }
    destruct (decide (Exists _ _)); destruct Hs as [-> Hb]; cbn [fst snd]; rewrite ?Hpass, IH, Hb; done.
  - cbn [fst snd]. rewrite Hpass, decide_True by done. cbn [Datatypes.app]. by rewrite IH.
Qed.

Lemma said_gone id fs : said id None fs = [] ∧ said_then id None fs = None.
Proof. induction fs as [|f fs IH]; [done|]. exact IH. Qed.

Lemma said_spoken id fs : ∀ fe, said id (Some fe) fs = to_hear (codes_of fe) (held_of id fe) fs.
Proof.
  induction fs as [|f fs IH]; intros fe; [done|].
  destruct (digit_of f) as [d|] eqn:Ed.
  { by destruct f; try done; injection Ed as ->; apply (said_digit id fe _ d). }
  cbn [said say to_hear]. rewrite Ed. destruct f as [v|v|d|d n|c x| |x|x|n x|n|n x|x|x]; try done.
  3: { destruct (decide (c ∈ [CfHold; CfUnhold; CfHangup])) as [Hc|Hc].
    - apply elem_of_cons in Hc as [->|[->|[->|[]%not_elem_of_nil]%elem_of_cons]%elem_of_cons]; cbn.
      + rewrite IH. by destruct (codes_of fe).
      + rewrite IH. by destruct (codes_of fe).
      + by rewrite (proj1 (said_gone id fs)).
    - rewrite !not_elem_of_cons in Hc. destruct Hc as (H1 & H2 & H3 & _).
      rewrite (decide_False (P := hangs_up _)) by done.
      assert (simple_bridge_should_pass (FControl c x) = true) as Hp by (cbn; rewrite bool_decide_false; set_solver).
      assert (process_frame (FControl c x) id fe = (FaWrite (FControl c x), fe)) as ->.
      { destruct c; try done; vm_compute; reflexivity. }
      cbn [fst snd]. rewrite Hp, IH. destruct (codes_of fe); (rewrite decide_True by done); done. }
  all: cbn; rewrite ?IH; by destruct (codes_of fe).
Qed.

(** ** Lemmas: routing *)

Lemma pending_take uid id id' r :
  pending uid id' (take_frames uid id r).1 = (if decide (id' = id) then [] else pending uid id' r)
  ∧ (take_frames uid id r).2 = pending uid id r.
Proof.
  unfold take_frames, get_simple_routing. cbv beta iota zeta. unfold pending. cbn [fst snd]. split; [|done].
  rewrite lookup_insert_eq. cbn [default from_option Datatypes.id]. case_decide as E.
  - subst. by rewrite lookup_delete_eq.
  - by rewrite lookup_delete_ne.
Qed.

Lemma pushed from f ms : NoDup (channel_id <$> ms) → ∀ m id,
  default [] (foldl (push_to from f) m ms !! id)
  = default [] (m !! id) ++ (if decide ((id ∈ channel_id <$> ms) ∧ id ≠ from) then [f] else []).
Proof.
  induction ms as [|bc ms IH]; intros Hnd m id.
  - cbn. rewrite decide_False; [by rewrite app_nil_r|]. intros [Hin _]. by apply not_elem_of_nil in Hin.
  - rewrite fmap_cons in Hnd |- *. apply NoDup_cons in Hnd as [Hbc Hnd]. cbn [foldl]. rewrite IH by done. unfold push_to.
    destruct (str_eqb (channel_id bc) from) eqn:E.
    + apply str_eqb_true in E. f_equal. apply decide_ext. set_solver.
    + apply str_eqb_false in E. destruct (decide (id = channel_id bc)) as [->|Hne].
      * rewrite lookup_insert_eq. cbn [default from_option Datatypes.id]. rewrite decide_False by tauto.
        rewrite decide_True by set_solver. by rewrite app_nil_r.
      * rewrite lookup_insert_ne by done. f_equal. apply decide_ext. set_solver.
Qed.

Lemma pending_write b r from f id :
  NoDup (channel_id <$> members b) →
  let '(b', r', e) := simple_write from f b r in
  b' = b ∧ e = None
  ∧ pending (bridge_uid b) id r' = pending (bridge_uid b) id r
      ++ (if simple_bridge_should_pass f && bool_decide ((id ∈ channel_id <$> members b) ∧ id ≠ channel_id from) then [f] else []).
Proof.
  intros Hnd. unfold simple_write. destruct (simple_bridge_should_pass f); cbn [andb]; [|by rewrite app_nil_r].
  unfold get_simple_routing. split; [done|]. split; [done|]. unfold pending. rewrite lookup_insert_eq.
  cbn [default from_option Datatypes.id]. rewrite pushed by done. f_equal. apply decide_bool_decide.
Qed.

(** ** Lemmas: queues with room *)

Lemma push_bounded_room q f : (length q < MAX_FRAME_QUEUE_SIZE)%nat → push_bounded q f = q ++ [f].
Proof. intros Hq. unfold push_bounded. by destruct (Nat.leb_spec MAX_FRAME_QUEUE_SIZE (length q)); [lia|]. Qed.

Lemma queue_write_room fs : ∀ c, (length (write_queue c) + length fs ≤ MAX_FRAME_QUEUE_SIZE)%nat →
  write_queue (foldl queue_write_frame c fs) = write_queue c ++ fs.
Proof.
  induction fs as [|f fs IH]; intros c Hc; [by rewrite app_nil_r|]. cbn [foldl length] in *.
  assert (E : write_queue (queue_write_frame c f) = write_queue c ++ [f]) by (cbn; apply push_bounded_room; lia).
  rewrite IH; rewrite E; [by rewrite <-app_assoc|]. rewrite length_app. cbn. lia.
Qed.

Lemma queue_write_frame_queue fs : ∀ c, frame_queue (foldl queue_write_frame c fs) = frame_queue c.
Proof. induction fs as [|f fs IH]; intros c; [done|]. cbn [foldl]. by rewrite IH. Qed.

(** ** Lemmas: one direction of a call *)

Definition speech (p : Party) : Speech := match p_pc p with Exited => None | _ => Some (p_features p) end.
Definition backlog (p : Party) : list Frame :=
  match p_pc p with AtProcess f => [f] | _ => [] end ++ frame_queue (chan (p_chan p)).
Definition inflight (p : Party) : list Frame :=
  match p_pc p with AtWrite g => if simple_bridge_should_pass g then [g] else [] | _ => [] end.

(** What is under way from a party, before it is routed. *)
Definition upstream (p : Party) : list Frame := inflight p ++ said (channel_id (p_bc p)) (speech p) (backlog p).
Definition afterwards (p : Party) : Speech := said_then (channel_id (p_bc p)) (speech p) (backlog p).

(** A loop that runs has not been told to leave. *)
Definition alive (p : Party) : Prop := p_pc p ≠ Exited → bc_state (p_bc p) ≠ Leaving.

Lemma said_app id fs gs : ∀ st, said id st (fs ++ gs) = said id st fs ++ said id (said_then id st fs) gs
  ∧ said_then id st (fs ++ gs) = said_then id (said_then id st fs) gs.
Proof.
  induction fs as [|f fs IH]; intros st; [done|]. cbn [Datatypes.app said said_then]. destruct (IH (say id st f).2) as [-> ->].
  by rewrite app_assoc.
Qed.

Section loop.
Context (b : Bridge) (r : Routing) (Hnd : NoDup (channel_id <$> members b)).

(** A step of a loop, for what the loop sends to another member [id']. *)
Lemma loop_step_speaks p id' :
  alive p → id' ≠ channel_id (p_bc p) → id' ∈ channel_id <$> members b →
  let '(b', r', p') := loop_step SimpleBridge b r p in
  b' = b ∧ alive p' ∧ channel_id (p_bc p') = channel_id (p_bc p)
  ∧ pending (bridge_uid b) id' r' ++ upstream p' = pending (bridge_uid b) id' r ++ upstream p
  ∧ afterwards p' = afterwards p.
Proof using Hnd.
  intros Hal Hne Hin. destruct p as [[c bid] bc fe pc]. unfold alive in Hal. cbn [p_bc p_pc] in *. unfold loop_step.
  cbn [p_bc p_pc p_chan p_features chan bridge_id].
  destruct pc as [| | |f|g| |]; cbn [set_pc with_chan exit_loop p_chan p_bc p_features p_pc chan bridge_id].
  - rewrite decide_False by (by apply Hal). split; [done|]. split; [intros _; by apply Hal|]. done.
  - destruct (take_frames _ _ r) as [r' inb] eqn:E. pose proof (pending_take (bridge_uid b) (channel_id bc) id' r) as [H1 _].
    rewrite E in H1. cbn [fst] in H1. rewrite decide_False in H1 by done. rewrite H1. unfold upstream, afterwards, backlog, speech, inflight.
    cbn [set_pc with_chan p_chan p_bc p_features p_pc chan bridge_id]. rewrite queue_write_frame_queue.
    split; [done|]. split; [intros _; by apply Hal|]. done.
  - unfold dequeue_frame. destruct (frame_queue c) as [|f q] eqn:Eq; cbn [head tail];
      unfold upstream, afterwards, backlog, speech, inflight; cbn; rewrite Eq; (split; [done|]);
      (split; [intros _; by apply Hal|]); done.
  - unfold upstream, afterwards, backlog, speech, inflight. cbn [p_chan p_bc p_features p_pc chan Datatypes.app said said_then].
    assert (Esay : say (channel_id bc) (Some fe) f = match process_frame f (channel_id bc) fe with
      | (FaLeave, _) => ([], None) | (FaContinue, fe) => ([], Some fe)
      | (FaWrite g, fe) => (if simple_bridge_should_pass g then [g] else [], Some fe) end) by done.
    rewrite Esay. destruct (process_frame f (channel_id bc) fe) as [[| |g] fe'];
      cbn [set_pc exit_loop p_chan p_bc p_features p_pc chan channel_id set_bc_state fst snd Datatypes.app].
    + split; [done|]. split; [intros _; by apply Hal|]. done.
    + destruct (said_gone (channel_id bc) (frame_queue c)) as [-> ->]. split; [done|]. split; [by intros ?|]. done.
    + split; [done|]. split; [intros _; by apply Hal|]. done.
  - pose proof (pending_write b r bc g id' Hnd) as Hw. cbn [SimpleBridge tech_write_frame].
    destruct (simple_write bc g b r) as [[b' r'] e]. destruct Hw as (-> & _ & ->). rewrite bool_decide_true, andb_true_r by done.
    split; [done|]. split; [intros _; by apply Hal|]. split; [done|]. split; [|done]. unfold upstream, inflight. cbn. by rewrite <-app_assoc.
  - rewrite decide_False by (by apply Hal). split; [done|]. split; [intros _; by apply Hal|]. done.
  - done.
Qed.

(** A step of a loop, for what it has received. *)
Lemma loop_step_hears p :
  (p_pc p = AtDeliver → (length (write_queue (chan (p_chan p))) + length (pending (bridge_uid b) (channel_id (p_bc p)) r) ≤ MAX_FRAME_QUEUE_SIZE)%nat) →
  let '(_, r', p') := loop_step SimpleBridge b r p in
  write_queue (chan (p_chan p')) ++ pending (bridge_uid b) (channel_id (p_bc p)) r'
  = write_queue (chan (p_chan p)) ++ pending (bridge_uid b) (channel_id (p_bc p)) r.
Proof using Hnd.
  intros Hroom. destruct p as [[c bid] bc fe pc]. cbn [p_bc p_pc p_chan chan] in *. unfold loop_step.
  cbn [p_bc p_pc p_chan p_features chan bridge_id].
  destruct pc as [| | |f|g| |]; cbn [set_pc with_chan exit_loop p_chan p_bc p_features p_pc chan bridge_id].
  - by case_decide.
  - destruct (take_frames _ _ r) as [r' inb] eqn:E. pose proof (pending_take (bridge_uid b) (channel_id bc) (channel_id bc) r) as [H1 H2].
    rewrite E in H1, H2. cbn [fst snd] in H1, H2. rewrite decide_True in H1 by done. subst inb. rewrite H1. cbn.
    rewrite queue_write_room by by apply Hroom. by rewrite app_nil_r.
  - unfold dequeue_frame. done.
  - destruct (process_frame f (channel_id bc) fe) as [[| |g] fe']; done.
  - pose proof (pending_write b r bc g (channel_id bc) Hnd) as Hw. cbn [SimpleBridge tech_write_frame].
    destruct (simple_write bc g b r) as [[b' r'] e]. destruct Hw as (_ & _ & ->). rewrite bool_decide_false by tauto.
    rewrite andb_false_r. cbn. by rewrite app_nil_r.
  - by case_decide.
  - done.
Qed.
End loop.

Lemma set_side_eq {A} s (x : A) m : set_side s x m s = x.
Proof. unfold set_side. by rewrite decide_True. Qed.
Lemma set_side_ne {A} s s' (x : A) m : s' ≠ s → set_side s x m s' = m s'.
Proof. intros Hne. unfold set_side. by rewrite decide_False. Qed.
Lemma other_ne s : other s ≠ s.
Proof. by destruct s. Qed.
Lemma other_other s : other (other s) = s.
Proof. by destruct s. Qed.

Definition uid_of (k : Call) : str := bridge_uid (the_bridge k).
Definition id_of (k : Call) (s : Side) : str := channel_id (p_bc (party k s)).
Definition heard (k : Call) (s : Side) : list Frame :=
  got k s ++ write_queue (chan (p_chan (party k s))) ++ pending (uid_of k) (id_of k s) (routing k).

(** What [s] has said is with the other driver or on the way to it. *)
Definition direction (fe : Side → option BuiltinFeatures) (es : list Event) (k : Call) (s : Side) : Prop :=
  heard k (other s) ++ upstream (party k s) = said (id_of k s) (Some (fe s)) (frames_for s es)
  ∧ afterwards (party k s) = said_then (id_of k s) (Some (fe s)) (frames_for s es).

(** The bridge of a call between two channels. *)
Record call_ok (ids : Side → str) (k : Call) : Prop := {
  co_ids : ∀ s, id_of k s = ids s;
  co_differ : ids SideA ≠ ids SideB;
  co_members : channel_id <$> members (the_bridge k) = [ids SideA; ids SideB];
  co_alive : ∀ s, alive (party k s) }.

Lemma call_ok_members ids k s : call_ok ids k →
  NoDup (channel_id <$> members (the_bridge k)) ∧ id_of k (other s) ≠ id_of k s ∧ (id_of k (other s) ∈ channel_id <$> members (the_bridge k)).
Proof.
  intros [Hids Hne Hm _]. rewrite Hm, !Hids. split; [apply NoDup_cons; split; [set_solver|apply NoDup_singleton]|].
  destruct s; cbn; (split; [congruence|set_solver]).
Qed.

(** A party whose channel is given a frame. *)
Lemma upstream_given p c f :
  frame_queue c = frame_queue (chan (p_chan p)) ++ [f] →
  upstream (with_chan p c) = upstream p ++ said (channel_id (p_bc p)) (afterwards p) [f]
  ∧ afterwards (with_chan p c) = said_then (channel_id (p_bc p)) (afterwards p) [f].
Proof.
  intros Hq. unfold upstream, afterwards.
  assert (Eb : backlog (with_chan p c) = backlog p ++ [f]) by (unfold backlog; cbn; by rewrite Hq, app_assoc).
  rewrite Eb. change (speech (with_chan p c)) with (speech p). change (inflight (with_chan p c)) with (inflight p).
  change (p_bc (with_chan p c)) with (p_bc p). destruct (said_app (channel_id (p_bc p)) (backlog p) [f] (speech p)) as [-> ->].
  by rewrite app_assoc.
Qed.

Lemma upstream_same p c : frame_queue c = frame_queue (chan (p_chan p)) →
  upstream (with_chan p c) = upstream p ∧ afterwards (with_chan p c) = afterwards p.
Proof.
  intros Hq. unfold upstream, afterwards. assert (Eb : backlog (with_chan p c) = backlog p) by (unfold backlog; cbn; by rewrite Hq).
  by rewrite Eb.
Qed.

Lemma frames_for_snoc s es e : frames_for s (es ++ [e]) = frames_for s es ++ frame_for s e.
Proof. unfold frames_for. rewrite bind_app. cbn. by rewrite app_nil_r. Qed.

(** A frame that the channel of one side is given. *)
Lemma direction_given ids fe es k e s' c f :
  call_ok ids k → (∀ s, direction fe es k s) →
  (∀ s, frame_for s e = if decide (s' = s) then [f] else []) →
  frame_queue c = frame_queue (chan (p_chan (party k s'))) ++ [f] → write_queue c = write_queue (chan (p_chan (party k s'))) →
  let k' := mkCall (the_bridge k) (store_of k) (routing k) (set_side s' (with_chan (party k s') c) (party k)) (got k) in
  call_ok ids k' ∧ ∀ s, direction fe (es ++ [e]) k' s.
Proof.
  intros [Hids Hne Hm Hal] Hdir Hfor Hq Hw k'.
  assert (Hid : ∀ s, id_of k' s = id_of k s).
  { intros s. unfold id_of, k'. cbn. destruct (decide (s = s')) as [->|?]; [by rewrite set_side_eq|by rewrite set_side_ne]. }
  split.
  { split; [intros s; by rewrite Hid|done|done|]. intros s. unfold k'. cbn.
    destruct (decide (s = s')) as [->|?]; [rewrite set_side_eq; apply (Hal s')|rewrite set_side_ne by done; apply Hal]. }
  intros s. destruct (Hdir s) as [H1 H2]. unfold direction. rewrite frames_for_snoc, Hfor, Hid.
  assert (Hh : heard k' (other s) = heard k (other s)).
  { unfold heard. rewrite Hid. unfold k'. cbn. destruct (decide (other s = s')) as [<-|?].
    - rewrite set_side_eq. cbn. by rewrite Hw.
    - by rewrite set_side_ne. }
  rewrite Hh. unfold k'. cbn [party]. case_decide as E.
  - subst s'. rewrite set_side_eq. destruct (upstream_given (party k s) c f Hq) as [-> ->].
    rewrite app_assoc, H1, H2. fold (id_of k s).
    by destruct (said_app (id_of k s) (frames_for s es) [f] (Some (fe s))) as [-> ->].
  - rewrite set_side_ne by congruence. rewrite app_nil_r. done.
Qed.

Lemma direction_run ids fe es k s' :
  call_ok ids k → (∀ s, direction fe es k s) → roomy k (EvRun s') = true →
  call_ok ids (call_step SimpleBridge k (EvRun s')) ∧ ∀ s, direction fe (es ++ [EvRun s']) (call_step SimpleBridge k (EvRun s')) s.
Proof.
  intros Hok Hdir Hroom. pose proof Hok as [Hids Hne Hm Hal]. destruct (call_ok_members ids k s' Hok) as (Hnd & Hother & Hin).
  pose proof (loop_step_speaks (the_bridge k) (routing k) Hnd (party k s') (id_of k (other s')) (Hal s') Hother Hin) as Hsp.
  pose proof (loop_step_hears (the_bridge k) (routing k) Hnd (party k s')) as Hh.
  cbn [call_step]. destruct (loop_step SimpleBridge (the_bridge k) (routing k) (party k s')) as [[b r] p].
  destruct Hsp as (-> & Halp & Hidp & Hup & Haft).
  specialize (Hh ltac:(intros E; cbn in Hroom; rewrite E in Hroom; by apply Nat.leb_le in Hroom)).
  set (k' := mkCall _ _ _ _ _). assert (Hid : ∀ s, id_of k' s = id_of k s).
  { intros s. unfold id_of, k'. cbn. destruct (decide (s = s')) as [->|?]; [by rewrite set_side_eq|by rewrite set_side_ne]. }
  split.
  { split; [intros s; by rewrite Hid|done|done|]. intros s. unfold k'. cbn.
    destruct (decide (s = s')) as [->|?]; [by rewrite set_side_eq|rewrite set_side_ne by done; apply Hal]. }
  intros s. destruct (Hdir s) as [H1 H2]. unfold direction. rewrite frames_for_snoc, Hid. cbn [frame_for]. rewrite app_nil_r.
  destruct (decide (s = s')) as [->|Hs].
  - unfold heard. rewrite Hid. unfold k'. cbn [party got routing the_bridge uid_of]. rewrite set_side_eq, set_side_ne by apply other_ne.
    rewrite Haft. split; [|done]. rewrite <-H1. unfold heard, uid_of in *. rewrite <-!app_assoc. do 2 f_equal. exact Hup.
  - assert (E : other s = s') by (destruct s, s'; done). unfold heard. rewrite Hid, E. unfold k'. cbn [party got routing the_bridge].
    rewrite set_side_eq, set_side_ne by done. split; [|done]. rewrite <-H1. unfold heard, uid_of, id_of in *. rewrite E.
    f_equal. f_equal. exact Hh.
Qed.

Lemma direction_take ids fe es k s' :
  call_ok ids k → (∀ s, direction fe es k s) →
  call_ok ids (call_step SimpleBridge k (EvTake s')) ∧ ∀ s, direction fe (es ++ [EvTake s']) (call_step SimpleBridge k (EvTake s')) s.
Proof.
  intros [Hids Hne Hm Hal] Hdir. cbn [call_step dequeue_write_frame]. set (c := set_write_queue _ _). set (k' := mkCall _ _ _ _ _).
  assert (Hid : ∀ s, id_of k' s = id_of k s).
  { intros s. unfold id_of, k'. cbn. destruct (decide (s = s')) as [->|?]; [by rewrite set_side_eq|by rewrite set_side_ne]. }
  split.
  { split; [intros s; by rewrite Hid|done|done|]. intros s. unfold k'. cbn.
    destruct (decide (s = s')) as [->|?]; [rewrite set_side_eq; apply (Hal s')|rewrite set_side_ne by done; apply Hal]. }
  intros s. destruct (Hdir s) as [H1 H2]. unfold direction. rewrite frames_for_snoc, Hid. cbn [frame_for]. rewrite app_nil_r, <-H1, <-H2.
  assert (Hh : heard k' (other s) = heard k (other s)).
  { unfold heard. rewrite Hid. unfold k'. cbn [party got routing the_bridge uid_of]. destruct (decide (other s = s')) as [<-|?].
    - rewrite !set_side_eq. cbn. rewrite <-app_assoc. f_equal. by destruct (write_queue _).
    - by rewrite !set_side_ne. }
  rewrite Hh. unfold k'. cbn [party]. destruct (decide (s = s')) as [->|?].
  - rewrite set_side_eq. by destruct (upstream_same (party k s') c eq_refl) as [-> ->].
  - by rewrite set_side_ne.
Qed.

Lemma direction_step ids fe es k e :
  call_ok ids k → (∀ s, direction fe es k s) → roomy k e = true →
  call_ok ids (call_step SimpleBridge k e) ∧ ∀ s, direction fe (es ++ [e]) (call_step SimpleBridge k e) s.
Proof.
  intros Hok Hdir Hroom. destruct e as [s|s f|s|s cause|].
  - by apply direction_run.
  - cbn [call_step]. apply (direction_given _ _ _ _ _ _ _ f); try done. cbn. apply push_bounded_room. by apply Nat.ltb_lt.
  - by apply direction_take.
  - cbn [call_step]. by apply (direction_given _ _ _ _ _ _ _ FNull).
  - done.
Qed.

Lemma direction_all ids fe es : ∀ es0 k,
  call_ok ids k → (∀ s, direction fe es0 k s) → all_roomy k es = true →
  call_ok ids (call_run SimpleBridge k es) ∧ ∀ s, direction fe (es0 ++ es) (call_run SimpleBridge k es) s.
Proof.
  induction es as [|e es IH]; intros es0 k Hok Hdir Hroom; [by rewrite app_nil_r|].
  cbn [all_roomy] in Hroom. apply andb_true_iff in Hroom as [Hr Hrs].
  destruct (direction_step ids fe es0 k e Hok Hdir Hr) as [Hok' Hdir'].
  specialize (IH (es0 ++ [e]) _ Hok' Hdir' Hrs). by rewrite <-app_assoc in IH.
Qed.

Lemma call_started id name ca cb fe :
  bridge_id ca = None → bridge_id cb = None → unique_id (chan ca) ≠ unique_id (chan cb) →
  write_queue (chan ca) = [] → write_queue (chan cb) = [] → frame_queue (chan ca) = [] → frame_queue (chan cb) = [] →
  ∃ k, call_start id name ca cb fe = Some k
    ∧ call_ok (λ s, match s with SideA => unique_id (chan ca) | SideB => unique_id (chan cb) end) k
    ∧ ∀ s, direction fe [] k s.
Proof.
  destruct ca as [ca ba], cb as [cb bb]. cbn [bridge_id chan]. intros -> -> Hne Hwa Hwb Hfa Hfb.
  assert (Es : call_start id name (mkBridged ca None) (mkBridged cb None) fe
    = Some (mkCall (set_members (set_technology (bridge_new id name) (lit "simple_bridge"))
                      [mkBc (unique_id ca) (chan_name ca) Joined 0; mkBc (unique_id cb) (chan_name cb) Joined 0] 2) ({[id]} ∪ ∅) ∅
              (λ s, match s with
                    | SideA => mkParty (mkBridged ca (Some id)) (mkBc (unique_id ca) (chan_name ca) Joined 0) (fe SideA) AtTop
                    | SideB => mkParty (mkBridged cb (Some id)) (mkBc (unique_id cb) (chan_name cb) Joined 0) (fe SideB) AtTop end) (λ _, []))).
  { unfold call_start, bridge_create. cbn [SimpleBridge tech_create tech_ok tech_start tech_name]. rewrite decide_False by set_solver.
    unfold bridge_join at 1, join_check. cbn [bridge_id chan]. unfold join_add, add_channel, has_channel.
    cbn [bridge_new bridge_with_flags set_technology members dissolved existsb SimpleBridge tech_join set_members length].
    unfold bridge_join, join_check, join_add, add_channel, has_channel. cbn -[str_eqb].
    apply str_eqb_false in Hne. rewrite Hne. done. }
  eexists. split; [exact Es|]. split.
  - split; [by intros []|done|done|]. intros [] _; done.
  - assert (Hp : ∀ uid x, pending uid x ∅ = []) by (intros; unfold pending; by rewrite lookup_empty).
    intros []; (split; [|]); unfold heard, afterwards, upstream, backlog, uid_of, id_of;
      cbn [party got routing the_bridge other p_chan p_pc chan p_bc speech inflight]; rewrite ?Hp, ?Hwa, ?Hwb, ?Hfa, ?Hfb; done.
Qed.

(** ** Theorems *)


(** A hangup frame. *)
Definition is_hangup (f : Frame) : bool := match f with FControl CfHangup _ => true | _ => false end.

Lemma process_frame_leaves f id fe : (process_frame f id fe).1 = FaLeave ↔ is_hangup f = true.
Proof.
  assert (Hd : ∀ d, (digit_frame f id d fe).1 ≠ FaLeave).
  { intros d. unfold digit_frame. destruct fe as [fe|]; [|done]. destruct (process_dtmf id d fe) as [[] ?]; done. }
  destruct f as [v|v|d|d n|c x| |x|x|n x|n|n x|x|x]; cbn; try (by split); try (split; [intros E; by apply Hd in E|done]).
  destruct c; cbn; by split.
Qed.

(** The event loop of a channel ends with a hangup frame of that channel and
    with nothing else: while none is queued on its channel it goes on, whatever the
    technology does, also after the bridge is dissolved, the other side has
    left, or the channel was asked to hang up. *)
Theorem loop_ends_with_hangup_only (tech : BridgeTechnology) (k : Call) (es : list Event) (s : Side) :
  p_pc (party k s) ≠ Exited → bc_state (p_bc (party k s)) ≠ Leaving →
  Forall (λ f, is_hangup f = false) (backlog (party k s) ++ frames_for s es) →
  p_pc (party (call_run tech k es) s) ≠ Exited.
Proof.
  revert k. induction es as [|e es IH]; intros k Hpc Hst Hno; [exact Hpc|].
  change (frames_for s (e :: es)) with (frame_for s e ++ frames_for s es) in Hno.
  cbn [call_run foldl]. change (foldl (call_step tech) ?k es) with (call_run tech k es).
  assert (Hgoal : p_pc (party (call_step tech k e) s) ≠ Exited ∧ bc_state (p_bc (party (call_step tech k e) s)) ≠ Leaving
    ∧ Forall (λ f, is_hangup f = false) (backlog (party (call_step tech k e) s) ++ frames_for s es)); [|naive_solver].
  clear IH. rewrite app_assoc, Forall_app in Hno. destruct Hno as [Hno Hnext]. setoid_rewrite Forall_app.
  assert (Hset : ∀ s' p, (s' = s → p_pc p ≠ Exited ∧ bc_state (p_bc p) ≠ Leaving ∧ Forall (λ f, is_hangup f = false) (backlog p)) →
    Forall (λ f, is_hangup f = false) (backlog (party k s)) →
    p_pc (set_side s' p (party k) s) ≠ Exited ∧ bc_state (p_bc (set_side s' p (party k) s)) ≠ Leaving
    ∧ Forall (λ f, is_hangup f = false) (backlog (set_side s' p (party k) s)) ∧ Forall (λ f, is_hangup f = false) (frames_for s es)).
  { intros s' p Hp Hb. destruct (decide (s' = s)) as [->|]; [rewrite set_side_eq|rewrite set_side_ne by done]; naive_solver. }
  apply Forall_app in Hno as [Hb Hf]. destruct e as [s'|s' f|s'|s' cause|]; cbn [call_step].
  - destruct (loop_step tech (the_bridge k) (routing k) (party k s')) as [[b r] p] eqn:E. apply Hset; [|done]. intros ->.
    unfold loop_step in E. destruct (party k s) as [[c bid] bc fe pc]. cbn in Hpc, Hst, E, Hb. unfold backlog in Hb. cbn in Hb.
    destruct pc as [| | |f|g| |]; cbn in E.
    + rewrite decide_False in E by done. by injection E as <- <- <-.
    + injection E as <- <- <-. unfold backlog. cbn. by rewrite queue_write_frame_queue.
    + destruct (frame_queue c) as [|f q] eqn:Eq; injection E as <- <- <-; unfold backlog; cbn; rewrite ?Eq; done.
    + pose proof (process_frame_leaves f (channel_id bc) fe) as Hl. apply Forall_cons in Hb as [Hf' Hb].
      destruct (process_frame f (channel_id bc) fe) as [[| |g] fe']; cbn in Hl; injection E as <- <- <-; [done| |done].
      rewrite (proj1 Hl eq_refl) in Hf'. done.
    + destruct (tech_write_frame _ _ _ _ _) as [[b' r'] e']. by injection E as <- <- <-.
    + rewrite decide_False in E by done. by injection E as <- <- <-.
    + done.
  - apply Hset; [|done]. intros ->. cbn [frame_for] in Hf. rewrite decide_True in Hf by done. apply Forall_cons in Hf as [Hf _].
    split; [done|]. split; [done|]. unfold backlog in *. apply Forall_app in Hb as [Hb1 Hb2]. apply Forall_app. split; [exact Hb1|].
    change (Forall (λ f, is_hangup f = false) (push_bounded (frame_queue (chan (p_chan (party k s)))) f)).
    unfold push_bounded. apply Forall_app. split; [|by apply Forall_singleton].
    destruct (_ <=? _)%nat; [by destruct Hb2|exact Hb2].
  - apply Hset; [|done]. intros ->. done.
  - apply Hset; [|done]. intros ->. split; [done|]. split; [done|]. unfold backlog in *. cbn. rewrite app_assoc. apply Forall_app.
    split; [done|by apply Forall_singleton].
  - destruct (bridge_dissolve _ _ _ _) as [[b st] r]. cbn. naive_solver.
Qed.

(** ** Membership *)

(** A technology that leaves the members to the core. *)
Definition keeps (m : TechMethod) : Prop := ∀ b r, (m b r).1.1 = b.
Record tech_keeps (t : BridgeTechnology) : Prop := {
  tk_stop : keeps (tech_stop t); tk_join : ∀ bc, keeps (tech_join t bc); tk_leave : ∀ bc, keeps (tech_leave t bc) }.

Lemma simple_keeps : tech_keeps SimpleBridge.
Proof. split; [by intros b r|by intros bc b r|by intros bc b r]. Qed.

Inductive BridgeOp := OpJoin (c : BridgedChannel) | OpLeave (bc : BridgeChannel) (c : BridgedChannel) | OpDissolve.

Definition bridge_op (t : BridgeTechnology) (st : Bridge * Store * Routing) (o : BridgeOp) : Bridge * Store * Routing :=
  let '(b, store, r) := st in
  match o with
  | OpJoin c => let '(b, _, r, _) := bridge_join t b c r in (b, store, r)
  | OpLeave bc c => let '(b, _, _, store, r, _) := bridge_leave t b bc c store r in (b, store, r)
  | OpDissolve => bridge_dissolve t b store r
  end.

(** A registered bridge has distinct members, all counted; a dissolved one is not
    registered, and has told all its members to leave. *)
Record bridge_wf (b : Bridge) (store : Store) : Prop := {
  bw_distinct : NoDup (channel_id <$> members b);
  bw_counted : num_active b = length (members b);
  bw_registered : (bridge_uid b ∈ store) ↔ dissolved b = false;
  bw_leaving : dissolved b = true → Forall (λ bc, bc_state bc = Leaving) (members b) }.

Lemma add_channel_spec id name b :
  ((id ∈ channel_id <$> members b) ∧ add_channel id name b = b)
  ∨ ((id ∉ channel_id <$> members b) ∧ members (add_channel id name b) = members b ++ [mkBc id name Joined 0]
     ∧ num_active (add_channel id name b) = S (length (members b)) ∧ dissolved (add_channel id name b) = dissolved b
     ∧ bridge_uid (add_channel id name b) = bridge_uid b).
Proof.
  unfold add_channel, has_channel. destruct (existsb _ _) eqn:E.
  - left. apply existsb_exists in E as (bc & Hin & Heq%str_eqb_true). split; [|done]. subst id. apply list_elem_of_fmap_2, list_elem_of_In, Hin.
  - right. split.
    + intros (bc & -> & Hin)%list_elem_of_fmap. apply not_true_iff_false in E. apply E. apply existsb_exists. exists bc.
      split; [by apply list_elem_of_In|by apply str_eqb_true].
    + cbn. rewrite length_app. cbn. split; [done|]. split; [lia|done].
Qed.

Lemma filter_all (f : BridgeChannel → bool) l :
  (length l ≤ length (filter (λ x, f x = true) l))%nat → filter (λ x, f x = true) l = l.
Proof.
  induction l as [|x l IH]; intros Hl; [done|]. destruct (f x) eqn:E.
  - rewrite filter_cons_True in Hl |- * by done. cbn in Hl. rewrite IH by lia. done.
  - rewrite filter_cons_False in Hl by (by rewrite E). pose proof (length_filter (λ x, f x = true) l). cbn in Hl. lia.
Qed.

Lemma remove_channel_spec id b :
  let b' := (remove_channel id b).1 in
  members b' = filter (λ bc, negb (str_eqb (channel_id bc) id) = true) (members b)
  ∧ (num_active b = length (members b) → num_active b' = length (members b')) ∧ dissolved b' = dissolved b ∧ bridge_uid b' = bridge_uid b
  ∧ flags b' = flags b.
Proof.
  unfold remove_channel. cbv zeta.
  destruct (Nat.ltb_spec (length (filter (λ bc, negb (str_eqb (channel_id bc) id) = true) (members b))) (length (members b))) as [Hl|Hl]; [done|].
  cbn [fst]. split; [|done]. by rewrite filter_all.
Qed.

Lemma dissolve_wf t b store r :
  tech_keeps t → bridge_wf b store →
  let '(b', store', _) := bridge_dissolve t b store r in
  bridge_wf b' store' ∧ dissolved b' = true ∧ channel_id <$> members b' = channel_id <$> members b.
Proof.
  intros [Hstop _ _] Hwf. unfold bridge_dissolve. destruct (dissolved b) eqn:Ed; [done|].
  set (b1 := set_members _ _ _). pose proof (Hstop b1 r) as Hk. destruct (tech_stop t b1 r) as [[b2 r2] e]. cbn in Hk. subst b2.
  destruct Hwf as [H1 H2 H3 H4].
  assert (Eid : channel_id <$> members b1 = channel_id <$> members b) by (unfold b1; cbn; rewrite <-list_fmap_compose; by apply list_fmap_ext).
  split; [|done]. split.
  - by rewrite Eid.
  - unfold b1. cbn. by rewrite length_fmap.
  - change (dissolved b1) with true. change (bridge_uid b1) with (bridge_uid b). split; [set_solver|done].
  - intros _. unfold b1. cbn. apply Forall_fmap, Forall_true. by intros.
Qed.

Lemma join_wf t b c store r :
  tech_keeps t → bridge_wf b store → let '(b', _, _, _) := bridge_join t b c r in bridge_wf b' store.
Proof.
  intros [_ Hjoin _] Hwf. unfold bridge_join, join_check. destruct (bridge_id c); [done|]. destruct (dissolved b) eqn:Ed; [done|].
  unfold join_add. set (id := unique_id (chan c)). set (name := chan_name (chan c)).
  pose proof (Hjoin (set_bc_state Joined (bridge_channel_new id name)) (add_channel id name b) r) as Hk.
  destruct (tech_join t _ _ r) as [[b2 r2] e]. cbn in Hk. subst b2. assert (Hwf' : bridge_wf (add_channel id name b) store).
  { destruct Hwf as [H1 H2 H3 H4]. destruct (add_channel_spec id name b) as [[_ ->]|(Hid & Hm & Hn & Hd & Hu)]; [done|]. split.
    - rewrite Hm, fmap_app. apply NoDup_app. split; [done|]. split; [|apply NoDup_singleton]. set_solver.
    - rewrite Hm, Hn, length_app. cbn. lia.
    - by rewrite Hd, Hu.
    - rewrite Hd, Ed. done. }
  by destruct e.
Qed.

Lemma leave_wf t b bc c store r :
  tech_keeps t → bridge_wf b store →
  let '(b', _, _, store', _, e) := bridge_leave t b bc c store r in
  bridge_wf b' store' ∧ (e = None → (channel_id bc ∉ channel_id <$> members b')).
Proof.
  intros Ht Hwf. unfold bridge_leave. pose proof (tk_leave _ Ht bc b r) as Hk. destruct (tech_leave t bc b r) as [[b1 r1] e].
  cbn in Hk. subst b1. destruct e; [done|]. destruct (remove_channel_spec (channel_id bc) b) as (Hm & Hn & Hd & Hu & _).
  set (b2 := (remove_channel (channel_id bc) b).1) in *.
  assert (Hout : channel_id bc ∉ channel_id <$> members b2).
  { rewrite Hm. intros (x & Heq & [Hx _]%list_elem_of_filter)%list_elem_of_fmap. apply negb_true_iff, str_eqb_false in Hx. done. }
  assert (Hwf2 : bridge_wf b2 store).
  { destruct Hwf as [H1 H2 H3 H4]. split; [|by apply Hn|by rewrite Hd, Hu|].
    - rewrite Hm. eapply sublist_NoDup; [exact H1|]. apply fmap_sublist, sublist_filter.
    - rewrite Hd, Hm. intros E. specialize (H4 E). rewrite Forall_forall in H4 |- *. intros x [_ Hx]%list_elem_of_filter. by apply H4. }
  destruct (should_dissolve b2); [|done]. pose proof (dissolve_wf t b2 store r1 Ht Hwf2) as Hdis.
  destruct (bridge_dissolve t b2 store r1) as [[b3 store3] r3]. destruct Hdis as (H1 & _ & H3). split; [done|]. intros _. by rewrite H3.
Qed.

(** Membership stays consistent.  Whatever channels join and leave a bridge and
    whenever it is dissolved, its members are distinct and all counted, it is
    registered exactly until it is dissolved, and a dissolved bridge has told all
    its members to leave; a join is then refused, a channel that leaves is no member,
    and a bridge that is left to fewer than two channels, if it is to dissolve on
    hangup, is dissolved. *)
Theorem bridge_stays_consistent (t : BridgeTechnology) (id name : str) (fs : Z) (ops : list BridgeOp) (r0 : Routing) :
  tech_keeps t →
  let '(b, store, r) := foldl (bridge_op t) (bridge_with_flags id name fs, {[ id ]}, r0) ops in
  bridge_wf b store
  ∧ (∀ c, dissolved b = true → ∃ e, bridge_join t b c r = (b, c, r, Err e))
  ∧ (∀ bc c b' bc' c' store' r', bridge_leave t b bc c store r = (b', bc', c', store', r', None) →
       (channel_id bc ∉ channel_id <$> members b') ∧ bridge_id c' = None ∧ bc_state bc' = Leaving
       ∧ (contains_flag (flags b) DISSOLVE_HANGUP = true → (length (members b') < 2)%nat → dissolved b' = true)).
Proof.
  intros Ht. assert (Hwf : let '(b, store, r) := foldl (bridge_op t) (bridge_with_flags id name fs, {[ id ]}, r0) ops in bridge_wf b store).
  { assert (Hgen : ∀ b store r, bridge_wf b store → let '(b, store, r) := foldl (bridge_op t) (b, store, r) ops in bridge_wf b store).
    { induction ops as [|o ops IH]; intros b store r Hwf; [done|]. cbn [foldl]. destruct o as [c|bc c|]; cbn [bridge_op].
      - pose proof (join_wf t b c store r Ht Hwf). destruct (bridge_join t b c r) as [[[b' c'] r'] res]. by apply IH.
      - pose proof (leave_wf t b bc c store r Ht Hwf). destruct (bridge_leave t b bc c store r) as [[[[[b' bc'] c'] s'] r'] e]. apply IH, H.
      - pose proof (dissolve_wf t b store r Ht Hwf). destruct (bridge_dissolve t b store r) as [[b' s'] r']. apply IH, H. }
    apply Hgen. split; [apply NoDup_nil_2|done|cbn; set_solver|done]. }
  destruct (foldl _ _ ops) as [[b store] r]. split; [exact Hwf|]. split.
  - intros c Hd. unfold bridge_join, join_check. rewrite Hd. destruct (bridge_id c); by eexists.
  - intros bc c b' bc' c' store' r' Hl. pose proof (leave_wf t b bc c store r Ht Hwf) as Hlw. rewrite Hl in Hlw.
    destruct Hlw as [_ Hout]. split; [by apply Hout|]. unfold bridge_leave in Hl. pose proof (tk_leave _ Ht bc b r) as Hk.
    destruct (tech_leave t bc b r) as [[b1 r1] e]. cbn in Hk. subst b1. destruct e; [done|].
    destruct (remove_channel_spec (channel_id bc) b) as (Hm & Hn & Hd & Hu & Hfl). set (b2 := (remove_channel (channel_id bc) b).1) in *.
    destruct (should_dissolve b2) eqn:Es.
    + pose proof (dissolve_wf t b2 store r1 Ht) as Hdis. destruct (bridge_dissolve t b2 store r1) as [[b3 store3] r3] eqn:Eb.
      injection Hl as <- <- <- <- <-. split; [done|]. split; [done|]. intros _ _. unfold bridge_dissolve in Eb.
      unfold should_dissolve in Es. destruct (dissolved b2) eqn:E2; [done|]. pose proof (tk_stop _ Ht) as Hst.
      specialize (Hst (set_members (set_dissolved b2) (set_bc_state Leaving <$> members (set_dissolved b2)) (num_active (set_dissolved b2))) r1).
      destruct (tech_stop t _ r1) as [[b4 r4] e4]. cbn in Hst. injection Eb as <- <- <-. by rewrite Hst.
    + injection Hl as <- <- <- <- <-. split; [done|]. split; [done|]. intros Hfh Hlt. unfold should_dissolve in Es.
      destruct (dissolved b2) eqn:E2; [done|]. rewrite Hfl, Hfh in Es. apply Nat.ltb_lt in Hlt. rewrite Hlt in Es. cbn in Es.
      by destruct (_ && _) in Es.
Qed.

(** ** Feature codes *)

Fixpoint dtmf_results (id : str) (fe : BuiltinFeatures) (ds : str) : list DtmfFeatureResult :=
  match ds with
  | [] => []
  | d :: ds => let (res, fe) := process_dtmf id d fe in res :: dtmf_results id fe ds
  end.

Lemma find_code_None (buffer : str) l :
  (∀ g, g ∈ l → f_code g ≠ buffer) → list_find (λ f, str_eqb buffer (f_code f) = true) l = None.
Proof.
  intros Hl. apply list_find_None, Forall_forall. intros g Hg E%str_eqb_true. by apply (Hl g).
Qed.

Lemma dial_code id f (l : list DtmfFeature) :
  f ∈ l → (∀ g, g ∈ l → f_code g `prefix_of` f_code f → g = f) →
  ∀ q p bufs, f_code f = p ++ q → q ≠ [] → default [] (bufs !! id) = p →
  dtmf_results id (mkFeatures l bufs) q = replicate (pred (length q)) Collecting ++ [Triggered (f_action f)].
Proof.
  intros Hf Huniq. induction q as [|d q IH]; intros p bufs Hcode Hq Hp; [done|]. cbn [dtmf_results]. unfold process_dtmf, buffer_of.
  cbn [digit_buffers feat_list]. rewrite Hp. destruct q as [|d' q].
  - destruct (list_find _ l) as [[i g]|] eqn:E.
    + apply list_find_Some in E as (Hi & Hg%str_eqb_true & _). rewrite (Huniq g); [done|by eapply list_elem_of_lookup_2|].
      rewrite Hcode, <-Hg. done.
    + apply list_find_None in E. rewrite Forall_forall in E. specialize (E f Hf). rewrite Hcode in E. by rewrite str_eqb_refl in E.
  - rewrite find_code_None.
    2: { intros g Hg E. assert (g = f) as -> by (apply Huniq; [done|]; rewrite Hcode, E; exists (d' :: q); by rewrite <-app_assoc).
      rewrite E in Hcode. apply (f_equal length) in Hcode. rewrite !length_app in Hcode. cbn in Hcode. lia. }
    assert (Hpart : has_partial (p ++ [d]) l = true).
    { unfold has_partial. apply existsb_exists. exists f. split; [by apply list_elem_of_In|].
      apply starts_with_true. exists (d' :: q). by rewrite Hcode, <-app_assoc. }
    rewrite Hpart. specialize (IH (p ++ [d]) (<[id := p ++ [d]]> bufs)). rewrite IH; [done|by rewrite <-app_assoc|done|].
    by rewrite lookup_insert_eq.
Qed.

(** A feature code that is dialled, one frame for each digit, triggers its
    action with the last digit, when no other code is a prefix of it.  But the event
    loop counts the beginning and the end of a digit as two: with both frames of
    every digit, no code that starts with two different digits is ever
    recognised, whatever is dialled. *)
Theorem feature_codes (id : str) (l : list DtmfFeature) (bufs : gmap str str) :
  default [] (bufs !! id) = [] →
  (∀ f, f ∈ l → f_code f ≠ [] → (∀ g, g ∈ l → f_code g `prefix_of` f_code f → g = f) →
     dtmf_results id (mkFeatures l bufs) (f_code f) = replicate (pred (length (f_code f))) Collecting ++ [Triggered (f_action f)])
  ∧ ((∀ f, f ∈ l → ∃ a b rest, f_code f = a :: b :: rest ∧ a ≠ b) →
     ∀ dialled a, Triggered a ∉ dtmf_results id (mkFeatures l bufs) (dialled ≫= λ d, [d; d])).
Proof.
  intros Hb. split; [intros f Hf Hne Hu; by apply (dial_code id f l Hf Hu (f_code f) [])|]. intros Hl dialled a.
  revert bufs Hb. induction dialled as [|d ds IH]; intros bufs Hb; [apply not_elem_of_nil|].
  rewrite bind_cons. cbn [Datatypes.app dtmf_results].
  assert (Hone : process_dtmf id d (mkFeatures l bufs)
    = if has_partial [d] l then (Collecting, mkFeatures l (<[id := [d]]> bufs)) else (PassThrough, mkFeatures l (delete id bufs))).
  { unfold process_dtmf, buffer_of. cbn [digit_buffers feat_list]. rewrite Hb, find_code_None; [done|].
    intros g Hg E. destruct (Hl g Hg) as (x & y & z & E' & _). cbn in E. congruence. }
  assert (Hclear : ∀ bufs', default [] (delete id bufs' !! id) = ([] : str)) by (intros; by rewrite lookup_delete_eq).
  rewrite Hone. destruct (has_partial [d] l) eqn:Ep.
  - assert (Htwo : process_dtmf id d (mkFeatures l (<[id := [d]]> bufs)) = (PassThrough, mkFeatures l (delete id (<[id := [d]]> bufs)))).
    { unfold process_dtmf, buffer_of. cbn [digit_buffers feat_list]. rewrite lookup_insert_eq. cbn [default from_option Datatypes.id].
      rewrite find_code_None.
      - destruct (has_partial ([d] ++ [d]) l) eqn:E; [|done]. apply existsb_exists in E as (g & Hg%list_elem_of_In & [y Hy]%starts_with_true).
        destruct (Hl g Hg) as (x & z & rest & E' & Hne). rewrite E' in Hy. injection Hy as -> -> _. done.
      - intros g Hg E. destruct (Hl g Hg) as (x & z & rest & E' & Hne). rewrite E' in E. injection E as -> -> _. done. }
    rewrite Htwo. rewrite !not_elem_of_cons. split; [done|]. split; [done|]. by apply IH.
  - assert (Hagain : process_dtmf id d (mkFeatures l (delete id bufs)) = (PassThrough, mkFeatures l (delete id (delete id bufs)))).
    { unfold process_dtmf, buffer_of. cbn [digit_buffers feat_list]. rewrite Hclear, find_code_None.
      - cbn [Datatypes.app]. by rewrite Ep.
      - intros g Hg E. destruct (Hl g Hg) as (x & y & z & E' & _). cbn in E. congruence. }
    rewrite Hagain. rewrite !not_elem_of_cons. split; [done|]. split; [done|]. by apply IH.
Qed.

(** ** Examples and witnesses *)

(** A channel that a simple bridge refuses stays among its members, and frames are
    kept for it that nobody takes. *)
Example refused_channel_stays :
  let join b id := bridge_join SimpleBridge b (mkBridged (channel_new id id) None) ∅ in
  let '(b, _, _, _) := join (bridge_new (lit "br") []) (lit "a") in
  let '(b, _, _, _) := join b (lit "b") in
  let '(b, c, _, res) := join b (lit "c") in
  channel_id <$> members b = [lit "a"; lit "b"; lit "c"] ∧ bridge_id c = None
  ∧ res = Err (EInvalidArgument (lit "simple bridge supports at most 2 channels")).
Proof. by vm_compute. Qed.

Definition fresh_channel (id : str) : BridgedChannel := mkBridged (channel_new id id) None.

Definition sample_voice : VoiceFrame := mkVoice 0 4 [255; 127; 0; 128] 0 1 0 None.

(** Digit 5 is no code; the code #, of the blind transfer, is held back. *)
Definition sample_events : list Event :=
  let turn s := replicate 6 (EvRun s) in
  [EvQueue SideA (FVoice sample_voice); EvQueue SideA (FControl CfHold []); EvQueue SideB (FText (lit "ho")); EvQueue SideA (FDtmfEnd (chr "5") 100);
   EvQueue SideA (FDtmfEnd (chr "#") 100)]
  ++ turn SideA ++ turn SideB ++ turn SideA ++ turn SideA ++ turn SideA ++ turn SideB ++ [EvTake SideB; EvTake SideB; EvTake SideB; EvTake SideA].


(** The bridge is dissolved, the other side has hung up, the channel was asked to
    hang up: the loop goes on. *)
Lemma loop_ends_with_hangup_only_witness :
  ∃ k, call_start (lit "br") [] (fresh_channel (lit "a")) (fresh_channel (lit "b")) (λ _, None) = Some k
    ∧ p_pc (party (call_run SimpleBridge k ([EvDissolve; EvQueue SideB (FControl CfHangup []); EvSoft SideA 32]
                                            ++ replicate 8 (EvRun SideA) ++ replicate 6 (EvRun SideB))) SideA) ≠ Exited.
Proof.
  eexists. split; [reflexivity|]. apply loop_ends_with_hangup_only; [done|done|].
  match goal with |- Forall _ ?l => let v := eval vm_compute in l in change l with v end.
  repeat (apply Forall_cons; split; [reflexivity|]). apply Forall_nil; exact I.
Defined.

Lemma bridge_stays_consistent_witness :
  let '(b, store, r) := foldl (bridge_op SimpleBridge) (bridge_with_flags (lit "br") [] 3, {[ lit "br" ]}, ∅)
    [OpJoin (fresh_channel (lit "a")); OpJoin (fresh_channel (lit "b")); OpLeave (mkBc (lit "a") (lit "a") Joined 0) (fresh_channel (lit "a"))] in
  bridge_wf b store ∧ dissolved b = true.
Proof.
  pose proof (bridge_stays_consistent SimpleBridge (lit "br") [] 3
    [OpJoin (fresh_channel (lit "a")); OpJoin (fresh_channel (lit "b")); OpLeave (mkBc (lit "a") (lit "a") Joined 0) (fresh_channel (lit "a"))] ∅ simple_keeps) as H.
  assert (E : dissolved (foldl (bridge_op SimpleBridge) (bridge_with_flags (lit "br") [] 3, {[ lit "br" ]}, ∅)
    [OpJoin (fresh_channel (lit "a")); OpJoin (fresh_channel (lit "b")); OpLeave (mkBc (lit "a") (lit "a") Joined 0) (fresh_channel (lit "a"))]).1.1 = true) by (by vm_compute).
  destruct (foldl _ _ _) as [[b store] r]. by split; [apply H|].
Defined.

Lemma feature_codes_witness :
  dtmf_results (lit "a") (mkFeatures [mkFeature (lit "*1") [] ActBoth ParkCall] ∅) (lit "*1") = [Collecting; Triggered ParkCall]
  ∧ ∀ a, Triggered a ∉ dtmf_results (lit "a") (mkFeatures [mkFeature (lit "*1") [] ActBoth ParkCall] ∅) (lit "*1" ≫= λ d, [d; d]).
Proof.
  destruct (feature_codes (lit "a") [mkFeature (lit "*1") [] ActBoth ParkCall] ∅ ltac:(by rewrite lookup_empty)) as [H1 H2]. split.
  - apply (H1 (mkFeature (lit "*1") [] ActBoth ParkCall)); [by left|done|]. intros g Hg _. set_solver.
  - intros a. apply H2. intros f Hf. exists (chr "*"), (chr "1"), []. assert (f = mkFeature (lit "*1") [] ActBoth ParkCall) as -> by set_solver.
    done.
Defined.
