(* ===== verification/Cdr.v ===== *)
(** * Call detail records ([asterisk-cdr/src/lib.rs], [engine.rs])

    The record of a call leg, and the engine that builds it from the events of a
    channel.  Every handler takes the time it reads from the wall clock, in
    milliseconds since the Unix epoch, as [now]; the clock may go back.  The
    backends are an interface: each logs into a state of the world [W] and may
    fail.

    [engine_keeps_call_log] says what the records are without the engine: each
    hangup yields the record of its own channel's events since the channel was
    created, whatever other channels did in between; and every backend is handed each
    of the records that are [to_log], which are read off the configuration. *)

From Stdlib Require Import NArith ZArith Ascii String.
From S2P Require Import Prelude RustStr.
Local Open Scope Z_scope.
Local Open Scope list_scope.

(** ** Records *)

Inductive CdrDisposition := NoAnswer | Busy | Answered | Congestion | Failed.
#[export] Instance CdrDisposition_eq_dec : EqDecision CdrDisposition.
Proof. solve_decision. Defined.

Inductive AmaFlags := Omit | Billing | Documentation | Default.
#[export] Instance AmaFlags_eq_dec : EqDecision AmaFlags.
Proof. solve_decision. Defined.

Definition disposition_as_str (d : CdrDisposition) : str :=
  match d with
  | NoAnswer => lit "NO ANSWER"
  | Busy => lit "BUSY"
  | Answered => lit "ANSWERED"
  | Congestion => lit "CONGESTION"
  | Failed => lit "FAILED"
  end.

Definition disposition_from_str_name `{UnicodeUpper} (s : str) : CdrDisposition :=
  let u := to_uppercase s in
  if str_eqb u (lit "ANSWERED") then Answered
  else if str_eqb u (lit "BUSY") then Busy
  else if str_eqb u (lit "NO ANSWER") || str_eqb u (lit "NOANSWER") then NoAnswer
  else if str_eqb u (lit "CONGESTION") then Congestion
  else if str_eqb u (lit "FAILED") then Failed
  else NoAnswer.

Definition disposition_as_int (d : CdrDisposition) : Z :=
  match d with NoAnswer => 0 | Busy => 1 | Answered => 2 | Congestion => 3 | Failed => 4 end.

Definition ama_as_str (f : AmaFlags) : str :=
  match f with
  | Omit => lit "OMIT"
  | Billing => lit "BILLING"
  | Documentation => lit "DOCUMENTATION"
  | Default => lit "DEFAULT"
  end.

Definition ama_from_str_name `{UnicodeUpper} (s : str) : AmaFlags :=
  let u := to_uppercase s in
  if str_eqb u (lit "OMIT") || str_eqb u (lit "1") then Omit
  else if str_eqb u (lit "BILLING") || str_eqb u (lit "BILL") || str_eqb u (lit "2") then Billing
  else if str_eqb u (lit "DOCUMENTATION") || str_eqb u (lit "DOC") || str_eqb u (lit "3")
  then Documentation
  else Default.

Definition ama_as_int (f : AmaFlags) : Z :=
  match f with Omit => 1 | Billing => 2 | Documentation => 3 | Default => 0 end.

Record Cdr := mkCdr {
  account_code : str;
  src : str;
  dst : str;
  dst_context : str;
  caller_id : str;
  channel : str;
  dst_channel : str;
  last_app : str;
  last_data : str;
  start : Z;
  answer : option Z;
  end_ : Z;
  duration : Z;
  billsec : Z;
  disposition : CdrDisposition;
  ama_flags : AmaFlags;
  peer_account : str;
  unique_id : str;
  linked_id : str;
  user_field : str;
  sequence : Z;
  variables : gmap str str;
}.

#[export] Instance Cdr_eq_dec : EqDecision Cdr.
Proof. solve_decision. Defined.

(** [Cdr::new] *)
Definition cdr_new (now : Z) (chan uid : str) : Cdr :=
  {| account_code := []; src := []; dst := []; dst_context := []; caller_id := [];
     channel := chan; dst_channel := []; last_app := []; last_data := [];
     start := now; answer := None; end_ := now; duration := 0; billsec := 0;
     disposition := NoAnswer; ama_flags := Default; peer_account := [];
     unique_id := uid; linked_id := []; user_field := []; sequence := 0; variables := ∅ |}.

(** Assignments to fields. *)
Definition with_party (c : Cdr) (d dch app : str) : Cdr :=
  {| account_code := account_code c; src := src c; dst := d; dst_context := dst_context c;
     caller_id := caller_id c; channel := channel c; dst_channel := dch; last_app := app;
     last_data := last_data c; start := start c; answer := answer c; end_ := end_ c;
     duration := duration c; billsec := billsec c; disposition := disposition c;
     ama_flags := ama_flags c; peer_account := peer_account c; unique_id := unique_id c;
     linked_id := linked_id c; user_field := user_field c; sequence := sequence c;
     variables := variables c |}.
Definition with_app (c : Cdr) (app data : str) : Cdr :=
  {| account_code := account_code c; src := src c; dst := dst c; dst_context := dst_context c;
     caller_id := caller_id c; channel := channel c; dst_channel := dst_channel c; last_app := app;
     last_data := data; start := start c; answer := answer c; end_ := end_ c;
     duration := duration c; billsec := billsec c; disposition := disposition c;
     ama_flags := ama_flags c; peer_account := peer_account c; unique_id := unique_id c;
     linked_id := linked_id c; user_field := user_field c; sequence := sequence c;
     variables := variables c |}.
Definition with_outcome (c : Cdr) (a : option Z) (d : CdrDisposition) : Cdr :=
  {| account_code := account_code c; src := src c; dst := dst c; dst_context := dst_context c;
     caller_id := caller_id c; channel := channel c; dst_channel := dst_channel c;
     last_app := last_app c; last_data := last_data c; start := start c; answer := a;
     end_ := end_ c; duration := duration c; billsec := billsec c; disposition := d;
     ama_flags := ama_flags c; peer_account := peer_account c; unique_id := unique_id c;
     linked_id := linked_id c; user_field := user_field c; sequence := sequence c;
     variables := variables c |}.
Definition with_end (c : Cdr) (e d b : Z) : Cdr :=
  {| account_code := account_code c; src := src c; dst := dst c; dst_context := dst_context c;
     caller_id := caller_id c; channel := channel c; dst_channel := dst_channel c;
     last_app := last_app c; last_data := last_data c; start := start c; answer := answer c;
     end_ := e; duration := d; billsec := b; disposition := disposition c;
     ama_flags := ama_flags c; peer_account := peer_account c; unique_id := unique_id c;
     linked_id := linked_id c; user_field := user_field c; sequence := sequence c;
     variables := variables c |}.
Definition with_variables (c : Cdr) (vs : gmap str str) : Cdr :=
  {| account_code := account_code c; src := src c; dst := dst c; dst_context := dst_context c;
     caller_id := caller_id c; channel := channel c; dst_channel := dst_channel c;
     last_app := last_app c; last_data := last_data c; start := start c; answer := answer c;
     end_ := end_ c; duration := duration c; billsec := billsec c; disposition := disposition c;
     ama_flags := ama_flags c; peer_account := peer_account c; unique_id := unique_id c;
     linked_id := linked_id c; user_field := user_field c; sequence := sequence c;
     variables := vs |}.

(** [end.duration_since(start).map(|d| d.as_secs() as i64).unwrap_or(0)]: zero
    when the clock went back. *)
Definition seconds_between (s e : Z) : Z := if s <=? e then (e - s) / 1000 else 0.

Definition mark_answered (now : Z) (c : Cdr) : Cdr := with_outcome c (Some now) Answered.

Definition finalize (now : Z) (c : Cdr) : Cdr :=
  with_end c now (seconds_between (start c) now)
    (match answer c with Some a => seconds_between a now | None => 0 end).

Definition cdr_set_variable (c : Cdr) (name value : str) : Cdr :=
  with_variables c (<[name := value]> (variables c)).
Definition cdr_get_variable (c : Cdr) (name : str) : option str := variables c !! name.

Definition summary (c : Cdr) : str :=
  src c ++ lit " -> " ++ dst c ++ lit " via " ++ channel c ++ lit " ("
    ++ disposition_as_str (disposition c) ++ lit ", " ++ show_int (duration c) ++ lit "s/"
    ++ show_int (billsec c) ++ lit "s)".

(** Errors of the backends; an I/O error carries nothing the engine reads. *)
Inductive CdrError := CdrIo | CdrBackendError (msg : str) | CdrInvalidState (msg : str).
#[export] Instance CdrError_eq_dec : EqDecision CdrError.
Proof. solve_decision. Defined.

(** ** The engine *)

Inductive CdrState := Single | Dial | Bridge | Finalized.

Definition state_as_str (x : CdrState) : str :=
  match x with
  | Single => lit "Single"
  | Dial => lit "Dial"
  | Bridge => lit "Bridge"
  | Finalized => lit "Finalized"
  end.

Record ActiveCdr := mkActive { cdr : Cdr; state : CdrState }.

Record CdrConfig := {
  enabled : bool;
  log_unanswered : bool;
  log_congestion : bool;
  end_before_h_exten : bool;
  initiated_seconds : bool;
  channel_default_enabled : bool;
}.

Definition default_config : CdrConfig :=
  {| enabled := true; log_unanswered := false; log_congestion := false;
     end_before_h_exten := true; initiated_seconds := false; channel_default_enabled := true |}.

Section engine.
Context {W : Type}.

(** The trait [CdrBackend]. *)
Record CdrBackend := {
  backend_name : str;
  backend_log : Cdr → W → result CdrError unit * W;
}.

Record CdrEngine := mkEngine {
  config : CdrConfig;
  active_cdrs : gmap str ActiveCdr;
  backends : list CdrBackend;
  next_sequence : Z;
  total_processed : Z;
}.

Definition with_config (c : CdrConfig) : CdrEngine :=
  {| config := c; active_cdrs := ∅; backends := []; next_sequence := 1; total_processed := 0 |}.

Definition set_config (e : CdrEngine) (c : CdrConfig) : CdrEngine :=
  mkEngine c (active_cdrs e) (backends e) (next_sequence e) (total_processed e).
Definition set_active (e : CdrEngine) (m : gmap str ActiveCdr) : CdrEngine :=
  mkEngine (config e) m (backends e) (next_sequence e) (total_processed e).
Definition register_backend (e : CdrEngine) (b : CdrBackend) : CdrEngine :=
  mkEngine (config e) (active_cdrs e) (backends e ++ [b]) (next_sequence e) (total_processed e).

(** [if let Some(entry) = active.get_mut(uid)] *)
Definition update_entry (e : CdrEngine) (uid : str) (f : ActiveCdr → ActiveCdr) : CdrEngine :=
  set_active e (alter f uid (active_cdrs e)).

Definition channel_created (e : CdrEngine) (now : Z) (uid name cid s ctx : str) : CdrEngine :=
  if negb (enabled (config e)) then e
  else
    let c := cdr_new now name uid in
    let c :=
      {| account_code := account_code c; src := s; dst := dst c; dst_context := ctx;
         caller_id := cid; channel := channel c; dst_channel := dst_channel c;
         last_app := last_app c; last_data := last_data c; start := start c; answer := answer c;
         end_ := end_ c; duration := duration c; billsec := billsec c;
         disposition := disposition c; ama_flags := ama_flags c; peer_account := peer_account c;
         unique_id := unique_id c; linked_id := uid; user_field := user_field c;
         sequence := next_sequence e; variables := variables c |} in
    mkEngine (config e) (<[uid := mkActive c Single]> (active_cdrs e)) (backends e)
      (wrap_u64 (next_sequence e + 1)) (total_processed e).

Definition dial_begin (e : CdrEngine) (uid callee d : str) : CdrEngine :=
  if negb (enabled (config e)) then e
  else update_entry e uid (λ a, mkActive (with_party (cdr a) d callee (lit "Dial")) Dial).

Definition channel_answered (e : CdrEngine) (now : Z) (uid : str) : CdrEngine :=
  if negb (enabled (config e)) then e
  else update_entry e uid (λ a, mkActive (mark_answered now (cdr a)) (state a)).

Definition bridge_enter (e : CdrEngine) (uid bridge peer : str) : CdrEngine :=
  if negb (enabled (config e)) then e
  else update_entry e uid (λ a,
    let c := cdr a in
    mkActive (if bool_decide (dst_channel c = []) then with_party c (dst c) peer (last_app c) else c)
      Bridge).

Definition bridge_leave (e : CdrEngine) (uid bridge : str) : CdrEngine := e.

Definition update_app (e : CdrEngine) (uid app data : str) : CdrEngine :=
  update_entry e uid (λ a, mkActive (with_app (cdr a) app data) (state a)).

Definition set_variable (e : CdrEngine) (uid name value : str) : CdrEngine :=
  update_entry e uid (λ a, mkActive (cdr_set_variable (cdr a) name value) (state a)).

Definition get_variable (e : CdrEngine) (uid name : str) : option str :=
  a ← active_cdrs e !! uid; cdr_get_variable (cdr a) name.

(** Whether the configuration wants a record. *)
Definition wanted (cfg : CdrConfig) (c : Cdr) : bool :=
  if negb (log_unanswered cfg) && bool_decide (disposition c = NoAnswer) then false
  else negb (negb (log_congestion cfg) && bool_decide (disposition c = Congestion)).

(** Every backend gets the record; the failure of one is only logged. *)
Definition log_all (bs : list CdrBackend) (c : Cdr) (w : W) : W :=
  foldl (λ w b, (backend_log b c w).2) w bs.

Definition dispatch_cdr (e : CdrEngine) (w : W) (c : Cdr) : CdrEngine * W :=
  if wanted (config e) c
  then (mkEngine (config e) (active_cdrs e) (backends e) (next_sequence e)
          (wrap_u64 (total_processed e + 1)),
        log_all (backends e) c w)
  else (e, w).

Definition cause_disposition (cause : Z) : CdrDisposition :=
  if cause =? 17 then Busy
  else if (cause =? 34) || (cause =? 42) then Congestion
  else NoAnswer.

(** The record as it is dispatched. *)
Definition hang_up (now : Z) (cause : Z) (app data : str) (c : Cdr) : Cdr :=
  let c := with_app c (if bool_decide (app = []) then last_app c else app)
                      (if bool_decide (data = []) then last_data c else data) in
  let c := if bool_decide (disposition c = Answered) then c
           else with_outcome c (answer c) (cause_disposition cause) in
  finalize now c.

Definition channel_hangup (e : CdrEngine) (w : W) (now : Z) (uid : str) (cause : Z) (app data : str)
    : CdrEngine * W :=
  if negb (enabled (config e)) then (e, w)
  else
    match active_cdrs e !! uid with
    | None => (e, w)
    | Some a =>
        dispatch_cdr (set_active e (delete uid (active_cdrs e))) w (hang_up now cause app data (cdr a))
    end.

Definition active_count (e : CdrEngine) : nat := size (active_cdrs e).
Definition backend_names (e : CdrEngine) : list str := backend_name <$> backends e.

(** ** Runs *)

Inductive cdr_event :=
  | Created (name cid s ctx : str)
  | DialBegin (callee d : str)
  | Answer
  | BridgeEnter (bridge peer : str)
  | BridgeLeave (bridge : str)
  | UpdateApp (app data : str)
  | SetVariable (name value : str)
  | Hangup (cause : Z) (app data : str).

(** An event of a channel at a time. *)
Record timed := At { time : Z; uid_of : str; event : cdr_event }.

Definition engine_step (ew : CdrEngine * W) (x : timed) : CdrEngine * W :=
  let '(e, w) := ew in
  let uid := uid_of x in
  match event x with
  | Created name cid s ctx => (channel_created e (time x) uid name cid s ctx, w)
  | DialBegin callee d => (dial_begin e uid callee d, w)
  | Answer => (channel_answered e (time x) uid, w)
  | BridgeEnter b p => (bridge_enter e uid b p, w)
  | BridgeLeave b => (bridge_leave e uid b, w)
  | UpdateApp app data => (update_app e uid app data, w)
  | SetVariable n v => (set_variable e uid n v, w)
  | Hangup cause app data => channel_hangup e w (time x) uid cause app data
  end.

Definition engine_run (e : CdrEngine) (w : W) (tr : list timed) : CdrEngine * W :=
  foldl engine_step (e, w) tr.
End engine.
Arguments CdrBackend : clear implicits.
Arguments CdrEngine : clear implicits.

(** ** The call log, without the engine

    [back_to_creation uid past []] looks back, from the latest event, for the
    creation of the channel [uid]: what came before it, the creation, and the
    channel's own events since.  None when the channel was hung up since or was
    never created. *)

Fixpoint back_to_creation (uid : str) (past mid : list timed)
    : option (list timed * timed * list timed) :=
  match past with
  | [] => None
  | x :: past' =>
      if bool_decide (uid_of x = uid) then
        match event x with
        | Created _ _ _ _ => Some (past', x, mid)
        | Hangup _ _ _ => None
        | _ => back_to_creation uid past' (x :: mid)
        end
      else back_to_creation uid past' mid
  end.

(** The latest of some kind of event. *)
Definition latest {A} (f : timed → option A) (mid : list timed) : option A := last (omap f mid).

Definition is_created (x : timed) : bool :=
  match event x with Created _ _ _ _ => true | _ => false end.
(** How many channels were created. *)
Fixpoint creations (past : list timed) : Z :=
  match past with [] => 0 | x :: past' => (if is_created x then 1 else 0) + creations past' end.
Definition dialled (x : timed) : option (str * str) :=
  match event x with DialBegin callee d => Some (callee, d) | _ => None end.
Definition answered (x : timed) : option Z :=
  match event x with Answer => Some (time x) | _ => None end.
Definition app_run (x : timed) : option str :=
  match event x with
  | DialBegin _ _ => Some (lit "Dial") | UpdateApp app _ => Some app | _ => None
  end.
Definition app_data (x : timed) : option str :=
  match event x with UpdateApp _ data => Some data | _ => None end.
Definition assigned (x : timed) : option (str * str) :=
  match event x with SetVariable n v => Some (n, v) | _ => None end.
Definition moved (x : timed) : option CdrState :=
  match event x with DialBegin _ _ => Some Dial | BridgeEnter _ _ => Some Bridge | _ => None end.

(** Who the channel is talking to: the channel dialled last or, while that has no
    name, the first named peer in a bridge since. *)
Fixpoint talking_to (to : str) (mid : list timed) : str :=
  match mid with
  | [] => to
  | x :: mid' =>
      match event x with
      | DialBegin callee _ => talking_to callee mid'
      | BridgeEnter _ peer => talking_to (if bool_decide (to = []) then peer else to) mid'
      | _ => talking_to to mid'
      end
  end.

(** The record of a channel that has not hung up yet. *)
Definition open_record (call : list timed * timed * list timed) : Cdr :=
  let '(before, created, mid) := call in
  let '(name, cid, s, ctx) :=
    match event created with Created n c s x => (n, c, s, x) | _ => ([], [], [], []) end in
  {| account_code := []; src := s; dst := default [] (snd <$> latest dialled mid);
     dst_context := ctx; caller_id := cid; channel := name; dst_channel := talking_to [] mid;
     last_app := default [] (latest app_run mid); last_data := default [] (latest app_data mid);
     start := time created; answer := latest answered mid; end_ := time created;
     duration := 0; billsec := 0;
     disposition := match latest answered mid with Some _ => Answered | None => NoAnswer end;
     ama_flags := Default; peer_account := []; unique_id := uid_of created;
     linked_id := uid_of created; user_field := [];
     sequence := wrap_u64 (1 + creations before);
     variables := foldl (λ vs nv, <[nv.1 := nv.2]> vs) ∅ (omap assigned mid) |}.

(** Whole seconds from one instant to another; none when the clock went back. *)
Definition whole_seconds (s e : Z) : Z := Z.max 0 (e - s) / 1000.

(** How a call ended that was not answered: cause 17 is busy, 34 and 42 are congestion. *)
Definition unanswered_as (cause : Z) : CdrDisposition :=
  if decide (cause = 17) then Busy else if decide (cause ∈ [34; 42]) then Congestion else NoAnswer.

(** The record of a channel that hung up at [now]; an empty name of application or empty
    data leave the last ones. *)
Definition final_record (now cause : Z) (app data : str) (call : list timed * timed * list timed) : Cdr :=
  let o := open_record call in
  {| account_code := account_code o; src := src o; dst := dst o; dst_context := dst_context o;
     caller_id := caller_id o; channel := channel o; dst_channel := dst_channel o;
     last_app := if decide (app = []) then last_app o else app;
     last_data := if decide (data = []) then last_data o else data;
     start := start o; answer := answer o; end_ := now;
     duration := whole_seconds (start o) now;
     billsec := match answer o with Some a => whole_seconds a now | None => 0 end;
     disposition := match answer o with Some _ => Answered | None => unanswered_as cause end;
     ama_flags := ama_flags o; peer_account := peer_account o; unique_id := unique_id o;
     linked_id := linked_id o; user_field := user_field o; sequence := sequence o; variables := variables o |}.

(** The record a hangup closes. *)
Definition closed_record (past : list timed) (x : timed) : option Cdr :=
  match event x with
  | Hangup cause app data => final_record (time x) cause app data <$> back_to_creation (uid_of x) past []
  | _ => None
  end.

Fixpoint call_log (past tr : list timed) : list Cdr :=
  match tr with
  | [] => []
  | x :: tr' => option_list (closed_record past x) ++ call_log (x :: past) tr'
  end.

(** The records that are to be logged: of unanswered calls, and of those that met
    congestion, only where the configuration says so. *)
Definition to_log (cfg : CdrConfig) (c : Cdr) : Prop :=
  (disposition c = NoAnswer → log_unanswered cfg = true)
  ∧ (disposition c = Congestion → log_congestion cfg = true).
#[export] Instance to_log_dec cfg c : Decision (to_log cfg c).
Proof. unfold to_log. apply _. Defined.

(** [offered c bs w w']: each of the backends gets the record, one after the other,
    whatever those before it answer; the world goes from [w] to [w']. *)
Inductive offered {W} (c : Cdr) : list (CdrBackend W) → W → W → Prop :=
  | offered_none w : offered c [] w w
  | offered_one b bs w r w1 w2 :
      backend_log b c w = (r, w1) → offered c bs w1 w2 → offered c (b :: bs) w w2.

(** All of them get each of the records in turn. *)
Inductive handed_out {W} (bs : list (CdrBackend W)) : list Cdr → W → W → Prop :=
  | handed_out_none w : handed_out bs [] w w
  | handed_out_one c cs w w1 w2 : offered c bs w w1 → handed_out bs cs w1 w2 → handed_out bs (c :: cs) w w2.

(** ** The engine keeps the call log *)

Lemma log_all_offered {W} (bs : list (CdrBackend W)) c w : offered c bs w (log_all bs c w).
Proof.
  revert w. induction bs as [|b bs IH]; intros w; [constructor|]. unfold log_all. cbn [foldl].
  destruct (backend_log b c w) as [r w1] eqn:E. by apply (offered_one c b bs w r w1); [|apply IH].
Qed.

Lemma log_all_handed_out {W} (bs : list (CdrBackend W)) cs w : handed_out bs cs w (foldl (λ w c, log_all bs c w) w cs).
Proof.
  revert w. induction cs as [|c cs IH]; intros w; [constructor|]. cbn [foldl].
  by apply (handed_out_one bs c cs w (log_all bs c w)); [apply log_all_offered|apply IH].
Qed.

Lemma wanted_to_log cfg c : wanted cfg c = true ↔ to_log cfg c.
Proof.
  unfold wanted, to_log. destruct (log_unanswered cfg), (log_congestion cfg), (disposition c); cbn; naive_solver.
Qed.

Lemma filter_wanted cfg (cs : list Cdr) : filter (wanted cfg) cs = filter (to_log cfg) cs.
Proof. apply list_filter_iff. intros c. rewrite <-wanted_to_log. by destruct (wanted cfg c). Qed.

Lemma seconds_between_whole s e : seconds_between s e = whole_seconds s e.
Proof.
  unfold seconds_between, whole_seconds. destruct (Z.leb_spec s e); [by rewrite Z.max_r by lia|by rewrite Z.max_l by lia].
Qed.

Lemma cause_disposition_spec cause : cause_disposition cause = unanswered_as cause.
Proof.
  unfold cause_disposition, unanswered_as. repeat case_decide; repeat case_match;
    rewrite ?Z.eqb_eq, ?Z.eqb_neq, ?orb_true_iff, ?orb_false_iff in *; set_solver by lia.
Qed.

Lemma hang_up_final now cause app data call : hang_up now cause app data (open_record call) = final_record now cause app data call.
Proof.
  destruct call as [[b cr] mid]. unfold hang_up, final_record. rewrite <-cause_disposition_spec, <-!seconds_between_whole.
  unfold open_record. destruct (match event cr with Created n ci sr cx => _ | _ => _ end) as [[[? ?] ?] ?].
  destruct (latest answered mid); cbn; repeat case_bool_decide; repeat case_decide; try done; by rewrite <-seconds_between_whole.
Qed.

Lemma latest_snoc {A} (f : timed → option A) mid x :
  latest f (mid ++ [x]) = match f x with Some a => Some a | None => latest f mid end.
Proof.
  unfold latest. rewrite omap_app. cbn. destruct (f x); [by rewrite last_snoc|by rewrite app_nil_r].
Qed.

Lemma omap_snoc {A} (f : timed → option A) mid x :
  omap f (mid ++ [x]) = omap f mid ++ option_list (f x).
Proof. rewrite omap_app. cbn. by destruct (f x). Qed.

Lemma talking_to_snoc to mid x :
  talking_to to (mid ++ [x]) =
    match event x with
    | DialBegin callee _ => callee
    | BridgeEnter _ peer =>
        if bool_decide (talking_to to mid = []) then peer else talking_to to mid
    | _ => talking_to to mid
    end.
Proof.
  revert to. induction mid as [|y mid IH]; intros to; cbn.
  - by destruct (event x); cbn.
  - destruct (event y); apply IH.
Qed.

Lemma back_to_creation_mid uid past mid :
  back_to_creation uid past mid = (λ c, (c.1, c.2 ++ mid)) <$> back_to_creation uid past [].
Proof.
  revert mid. induction past as [|x past IH]; intros mid; cbn; [done|].
  rewrite (IH (x :: mid)), (IH [x]), (IH mid).
  destruct (bool_decide (uid_of x = uid)); [|done].
  destruct (event x); cbn; try done; destruct (back_to_creation uid past []) as [[[b c] m]|]; cbn; try done;
    by rewrite <-app_assoc.
Qed.

(** What an event of the channel itself does to its entry. *)
Definition entry_step (x : timed) (a : ActiveCdr) : ActiveCdr :=
  match event x with
  | DialBegin callee d => mkActive (with_party (cdr a) d callee (lit "Dial")) Dial
  | Answer => mkActive (mark_answered (time x) (cdr a)) (state a)
  | BridgeEnter _ peer =>
      mkActive (if bool_decide (dst_channel (cdr a) = [])
                then with_party (cdr a) (dst (cdr a)) peer (last_app (cdr a)) else cdr a) Bridge
  | UpdateApp app data => mkActive (with_app (cdr a) app data) (state a)
  | SetVariable n v => mkActive (cdr_set_variable (cdr a) n v) (state a)
  | _ => a
  end.

Definition open_entry (call : list timed * timed * list timed) : ActiveCdr :=
  mkActive (open_record call) (default Single (latest moved call.2)).

Lemma open_entry_snoc b c mid x : open_entry (b, c, mid ++ [x]) = entry_step x (open_entry (b, c, mid)).
Proof.
  unfold open_entry, open_record, entry_step. cbn [snd].
  rewrite !latest_snoc, omap_snoc, talking_to_snoc, foldl_app.
  unfold dialled, answered, app_run, app_data, assigned, moved.
  destruct (event c) as [n ci sr cx| | | | | | |], (event x); cbn; try done;
    by destruct (bool_decide (talking_to [] mid = [])).
Qed.

Section keeps.
Context {W : Type} (cfg : CdrConfig) (bs : list (CdrBackend W)).
Hypothesis Hon : enabled cfg = true.

(** The state of the engine after the events of [past], latest first. *)
Record keeps (past : list timed) (e : CdrEngine W) : Prop := {
  keeps_config : config e = cfg;
  keeps_backends : backends e = bs;
  keeps_sequence : next_sequence e = wrap_u64 (1 + creations past);
  keeps_active uid : active_cdrs e !! uid = open_entry <$> back_to_creation uid past [];
}.

Lemma keeps_new :
  keeps [] (foldl register_backend (with_config cfg) bs).
Proof.
  enough (∀ e, let e' := foldl register_backend e bs in
    config e' = config e ∧ backends e' = backends e ++ bs ∧ next_sequence e' = next_sequence e
    ∧ active_cdrs e' = active_cdrs e) as H.
  { destruct (H (with_config cfg)) as (H1 & H2 & H3 & H4). split; try done.
    intros uid. by rewrite H4. }
  induction bs as [|b bs' IH]; intros e; cbn; [by rewrite app_nil_r|].
  destruct (IH (register_backend e b)) as (-> & -> & -> & ->). cbn. by rewrite <-app_assoc.
Qed.

(** An event that only touches the entry of its channel. *)
Lemma keeps_update past e x :
  keeps past e →
  match event x with Created _ _ _ _ | Hangup _ _ _ => False | _ => True end →
  keeps (x :: past) (update_entry e (uid_of x) (entry_step x)).
Proof.
  intros [Hc Hb Hs Ha] Hx. split; cbn; [done|done| |].
  - unfold is_created. by destruct (event x).
  - intros uid. case_bool_decide as Hu.
    + subst uid. rewrite lookup_alter, Ha. rewrite decide_True by done.
      assert (∀ A (a b c : A), match event x with Created _ _ _ _ => a | Hangup _ _ _ => b | _ => c end = c) as E
        by (intros; by destruct (event x)).
      transitivity (open_entry <$> back_to_creation (uid_of x) past [x]); [|by destruct (event x)].
      rewrite (back_to_creation_mid _ _ [x]), <-!option_fmap_compose.
      destruct (back_to_creation (uid_of x) past []) as [[[b c] m]|]; [|done]. cbn.
      by rewrite open_entry_snoc.
    + rewrite lookup_alter_ne by done. apply Ha.
Qed.

Lemma alter_id_entry (e : CdrEngine W) uid : update_entry e uid (λ a, a) = e.
Proof.
  unfold update_entry, set_active. destruct e as [c m b n t]; cbn. f_equal.
  apply map_eq. intros i. rewrite lookup_alter. case_decide as Hi; [subst i|done]. by destruct (m !! uid).
Qed.

Lemma keeps_created past e x n ci sr cx :
  keeps past e → event x = Created n ci sr cx →
  keeps (x :: past) (channel_created e (time x) (uid_of x) n ci sr cx).
Proof.
  intros [Hc Hb Hs Ha] Hx. unfold channel_created. rewrite Hc, Hon. cbn [negb]. split; cbn; [done|done| |].
  - unfold is_created. rewrite Hx, Hs. unfold wrap_u64. rewrite Zplus_mod_idemp_l. f_equal. lia.
  - intros uid. rewrite Hx, lookup_insert. case_decide as Hu; [subst uid; rewrite bool_decide_true by done|rewrite bool_decide_false by done; apply Ha].
    cbn. unfold open_entry, open_record. cbn. by rewrite Hx, Hs.
Qed.

Lemma keeps_hangup past e w x cause app data e' w' :
  keeps past e → event x = Hangup cause app data →
  channel_hangup e w (time x) (uid_of x) cause app data = (e', w') →
  keeps (x :: past) e'
  ∧ w' = foldl (λ w c, log_all bs c w) w (filter (wanted cfg) (option_list (closed_record past x))).
Proof.
  intros [Hc Hb Hs Ha] Hx. unfold channel_hangup, closed_record. rewrite Hc, Hon, Hx. cbn [negb]. rewrite Ha.
  assert (∀ e1, config e1 = cfg → backends e1 = bs → next_sequence e1 = next_sequence e →
    active_cdrs e1 = delete (uid_of x) (active_cdrs e) → keeps (x :: past) e1) as Hk.
  { intros e1 H1 H2 H3 H4. split; [done|done| |].
    - rewrite H3. cbn. unfold is_created. by rewrite Hx.
    - intros uid. rewrite H4. cbn. rewrite Hx, lookup_delete. case_decide as Hu.
      + by rewrite bool_decide_true.
      + rewrite bool_decide_false by done. apply Ha. }
  destruct (back_to_creation (uid_of x) past []) as [call|] eqn:E; cbn.
  - unfold dispatch_cdr. cbn. rewrite Hc. fold (open_entry call). 
    change (cdr (open_entry call)) with (open_record call). rewrite hang_up_final.
    destruct (wanted cfg _) eqn:Ew; intros [= <- <-]; (split; [by apply Hk|]).
    + rewrite decide_True by done. by rewrite Hb.
    + by destruct (decide false).
  - intros [= <- <-]. split; [|done]. apply Hk; [done..|]. symmetry. apply delete_id. by rewrite Ha, E.
Qed.

Lemma keeps_step past e w x e' w' :
  keeps past e → engine_step (e, w) x = (e', w') →
  keeps (x :: past) e'
  ∧ w' = foldl (λ w c, log_all bs c w) w (filter (wanted cfg) (option_list (closed_record past x))).
Proof.
  intros Hk. pose proof (keeps_update past e x Hk) as Hu. unfold entry_step in Hu. unfold engine_step.
  destruct (event x) eqn:Ex; intros Hs; [| | | | | | |by eapply keeps_hangup].
  all: unfold dial_begin, channel_answered, bridge_enter, bridge_leave in Hs.
  all: rewrite ?(keeps_config _ _ Hk), ?Hon in Hs; cbn [negb] in Hs; injection Hs as <- <-.
  all: (split; [|unfold closed_record; by rewrite Ex]).
  - by apply keeps_created.
  - by apply Hu.
  - by apply Hu.
  - by apply Hu.
  - rewrite <-(alter_id_entry e (uid_of x)). by apply Hu.
  - by apply Hu.
  - by apply Hu.
Qed.

Lemma keeps_run past e w tr e' w' :
  keeps past e → engine_run e w tr = (e', w') →
  keeps (reverse tr ++ past) e'
  ∧ w' = foldl (λ w c, log_all bs c w) w (filter (wanted cfg) (call_log past tr)).
Proof.
  revert past e w. induction tr as [|x tr IH]; intros past e w Hk.
  - by intros [= <- <-].
  - change (engine_run e w (x :: tr)) with (foldl engine_step (engine_step (e, w) x) tr). cbn [call_log].
    destruct (engine_step (e, w) x) as [e1 w1] eqn:E. intros Hr.
    destruct (keeps_step _ _ _ _ _ _ Hk E) as [Hk1 ->]. destruct (IH _ _ _ Hk1 Hr) as [Hk2 ->].
    rewrite reverse_cons, <-app_assoc, filter_app, foldl_app. done.
Qed.
End keeps.

(** C34. The records are the call log.  With the engine enabled, whatever the order in
    which the channels' events arrive, every backend gets, in turn and whatever the others
    answer, the records of the hangups, in their order: all but those of unanswered calls
    and of congestion, and these too where the configuration asks for them.  Each record
    is made of the events of its own channel since its creation: who was dialled last, when
    it was answered last, what ran last, what was set, how it ended, and how many whole
    seconds passed.  Channels that have not hung up are the active ones, with the record
    of their events so far. *)
Theorem engine_keeps_call_log {W} (cfg : CdrConfig) (bs : list (CdrBackend W)) (w : W) (tr : list timed) :
  enabled cfg = true →
  let '(e, w') := engine_run (foldl register_backend (with_config cfg) bs) w tr in
  handed_out bs (filter (to_log cfg) (call_log [] tr)) w w'
  ∧ ∀ uid, active_cdrs e !! uid = open_entry <$> back_to_creation uid (reverse tr) [].
Proof.
  intros Hon. destruct (engine_run _ w tr) as [e w'] eqn:E.
  destruct (keeps_run cfg bs Hon [] _ w tr e w' (keeps_new cfg bs) E) as [[_ _ _ Ha] ->].
  rewrite app_nil_r in Ha. split; [|done]. rewrite filter_wanted. apply log_all_handed_out.
Qed.

(** ** What is billed *)

(** A trace of a clock that does not go back, after the instant [t]. *)
Fixpoint clock_from (t : Z) (tr : list timed) : Prop :=
  match tr with [] => True | x :: tr' => t ≤ time x ∧ clock_from (time x) tr' end.

Fixpoint clock_past (past : list timed) : Prop :=
  match past with
  | [] => True
  | x :: past' => Forall (λ y, time y ≤ time x) past' ∧ clock_past past'
  end.

Lemma clock_past_app t tr past :
  clock_past past → Forall (λ y, time y ≤ t) past → clock_from t tr → clock_past (reverse tr ++ past).
Proof.
  revert t past. induction tr as [|x tr IH]; intros t past Hp Ht Hc; [done|].
  destruct Hc as [Hx Hc]. rewrite reverse_cons, <-app_assoc. apply (IH (time x)); [|by constructor; [lia|eapply Forall_impl; [done|cbn; lia]]|done].
  split; [|done]. eapply Forall_impl; [done|]. cbn. lia.
Qed.

(** The events of the call lie between its creation and the instant [T]. *)
Lemma back_to_creation_times uid past mid b c m T :
  clock_past past → Forall (λ y, time y ≤ T) past →
  Forall (λ y, time y ≤ T ∧ Forall (λ z, time z ≤ time y) past) mid →
  back_to_creation uid past mid = Some (b, c, m) →
  time c ≤ T ∧ Forall (λ y, time c ≤ time y ≤ T) m.
Proof.
  revert mid. induction past as [|x past IH]; intros mid Hp HT Hm; cbn; [done|].
  destruct Hp as [Hx Hp]. apply Forall_cons in HT as [HxT HT].
  assert (Forall (λ y, time y ≤ T ∧ Forall (λ z, time z ≤ time y) past) mid) as Hm1.
  { eapply Forall_impl; [exact Hm|]. intros y [? Hy]. split; [done|]. by apply Forall_cons in Hy as [_ ?]. }
  assert (Forall (λ y, time y ≤ T ∧ Forall (λ z, time z ≤ time y) past) (x :: mid)) as Hm2 by by constructor.
  case_bool_decide; [|by apply IH]. destruct (event x); try (by apply IH); [|done].
  intros [= -> -> ->]. split; [done|]. eapply Forall_impl; [exact Hm|].
  intros y [? Hy]. apply Forall_cons in Hy as [? _]. lia.
Qed.

Lemma latest_answer_in mid a : latest answered mid = Some a → ∃ y, y ∈ mid ∧ time y = a.
Proof.
  unfold latest. intros H. apply last_Some_elem_of, list_elem_of_omap in H as (y & Hy & E).
  exists y. split; [done|]. unfold answered in E. destruct (event y); congruence.
Qed.

Lemma seconds_between_mono s a e : s ≤ a → a ≤ e → 0 ≤ seconds_between a e ≤ seconds_between s e.
Proof.
  intros. unfold seconds_between. rewrite !(proj2 (Z.leb_le _ _)) by lia.
  split; [apply Z.div_pos; lia|apply Z.div_le_mono; lia].
Qed.

(** What a record says of the time of its call. *)
Record billed (c : Cdr) : Prop := {
  billed_span : start c ≤ end_ c ∧ duration c = (end_ c - start c) / 1000;
  billed_answer : match answer c with
                  | Some a => start c ≤ a ≤ end_ c ∧ billsec c = (end_ c - a) / 1000
                              ∧ disposition c = Answered
                  | None => billsec c = 0 ∧ disposition c ∈ [NoAnswer; Busy; Congestion]
                  end;
  billed_bounds : 0 ≤ billsec c ≤ duration c;
}.

Lemma cause_disposition_cases cause : cause_disposition cause ∈ [NoAnswer; Busy; Congestion].
Proof. unfold cause_disposition. repeat case_match; set_solver. Qed.

Lemma hang_up_times now cause app data c :
  let c' := hang_up now cause app data c in
  start c' = start c ∧ answer c' = answer c ∧ end_ c' = now
  ∧ duration c' = seconds_between (start c) now
  ∧ billsec c' = match answer c with Some a => seconds_between a now | None => 0 end
  ∧ disposition c' = if bool_decide (disposition c = Answered) then Answered else cause_disposition cause.
Proof.
  unfold hang_up. change (disposition (with_app c _ _)) with (disposition c).
  case_bool_decide as Hd; cbn; by rewrite ?Hd.
Qed.

Lemma open_record_times b cr mid :
  let c := open_record (b, cr, mid) in
  start c = time cr ∧ answer c = latest answered mid
  ∧ disposition c = match latest answered mid with Some _ => Answered | None => NoAnswer end.
Proof.
  unfold open_record. by destruct (match event cr with Created n ci sr cx => _ | _ => _ end) as [[[? ?] ?] ?].
Qed.

Lemma closed_record_billed past x c :
  clock_past past → Forall (λ y, time y ≤ time x) past → closed_record past x = Some c → billed c.
Proof.
  intros Hp HT. unfold closed_record. destruct (event x) as [| | | | | | |cause app data]; try done.
  destruct (back_to_creation _ past []) as [[[b cr] mid]|] eqn:E; [|done]. intros [= <-].
  destruct (back_to_creation_times _ _ _ _ _ _ (time x) Hp HT ltac:(constructor) E) as [Hc Hm].
  destruct (open_record_times b cr mid) as (Hs & Ha & Hd). destruct (hang_up_times (time x) cause app data (open_record (b, cr, mid))) as (Hs' & Ha' & He & Hd' & Hb & Hdi).
  rewrite <-hang_up_final. set (c := hang_up _ _ _ _ _) in *. rewrite Hs in *. rewrite Ha in *. rewrite Hd in *. clear Hs Ha Hd.
  split; rewrite ?Hs', ?Ha', ?He, ?Hd', ?Hb, ?Hdi.
  - unfold seconds_between. by rewrite (proj2 (Z.leb_le _ _)).
  - destruct (latest answered mid) as [a|] eqn:Ea; [|split; [done|apply cause_disposition_cases]].
    apply latest_answer_in in Ea as (y & Hy & <-). rewrite Forall_forall in Hm. specialize (Hm y Hy).
    unfold seconds_between. rewrite (proj2 (Z.leb_le _ _)) by lia. done.
  - destruct (latest answered mid) as [a|] eqn:Ea.
    + apply latest_answer_in in Ea as (y & Hy & <-). rewrite Forall_forall in Hm. specialize (Hm y Hy).
      apply seconds_between_mono; lia.
    + split; [done|]. unfold seconds_between. rewrite (proj2 (Z.leb_le _ _)) by lia. apply Z.div_pos; lia.
Qed.

(** What is billed.  When the clock does not go back, every record covers its call
    from creation to hangup in whole seconds; it is ANSWERED exactly when the channel
    was answered, then billed from the answer to the end, and otherwise billed nothing;
    nobody is billed for more than the call lasted. *)
Theorem records_bill_the_call (t : Z) (tr : list timed) :
  clock_from t tr → Forall billed (call_log [] tr).
Proof.
  enough (∀ past, clock_past past → Forall (λ y, time y ≤ t) past → clock_from t tr → Forall billed (call_log past tr)) as H
    by (intros; by apply H).
  revert t. induction tr as [|x tr IH]; intros t past Hp HT Hc; [constructor|].
  destruct Hc as [Hx Hc]. cbn [call_log].
  assert (Forall (λ y, time y ≤ time x) past) as HT' by (eapply Forall_impl; [done|cbn; lia]).
  apply Forall_app. split.
  - destruct (closed_record past x) as [c|] eqn:E; constructor; [|constructor]. by eapply closed_record_billed.
  - apply (IH (time x)); [done| |done]. by constructor.
Qed.

(** A call that rings for two seconds and is answered for four, while another is busy. *)
Definition ring_and_talk : list timed :=
  [At 1000 (lit "u1") (Created (lit "SIP/alice") [] (lit "100") (lit "default"));
   At 1500 (lit "u2") (Created (lit "SIP/carol") [] (lit "300") (lit "default"));
   At 2000 (lit "u1") (DialBegin (lit "SIP/bob") (lit "200"));
   At 3000 (lit "u1") Answer;
   At 3100 (lit "u2") (Hangup 17 [] []);
   At 7000 (lit "u1") (Hangup 16 [] [])].

Lemma records_bill_the_call_witness :
  clock_from 0 ring_and_talk ∧ Forall billed (call_log [] ring_and_talk).
Proof.
  assert (clock_from 0 ring_and_talk) as Hc by (repeat split; cbn; lia).
  split; [exact Hc|exact (records_bill_the_call 0 ring_and_talk Hc)].
Defined.

Example ring_and_talk_records :
  (λ c, (channel c, duration c, billsec c, disposition c, sequence c)) <$> call_log [] ring_and_talk
  = [(lit "SIP/carol", 1, 0, Busy, 2); (lit "SIP/alice", 6, 4, Answered, 1)].
Proof. by vm_compute. Qed.

(** A backend that keeps the records it is given. *)
Definition keeper : CdrBackend (list Cdr) :=
  {| backend_name := lit "keeper"; backend_log c w := (Ok tt, w ++ [c]) |}.

(** One that refuses every record, and forgets. *)
Definition refuser : CdrBackend (list Cdr) :=
  {| backend_name := lit "refuser"; backend_log c w := (Err CdrIo, w) |}.

(** A busy call is logged; one that nobody answers is not; both backends that keep
    records get each, though one between them fails. *)
Definition two_and_one : list timed :=
  ring_and_talk ++ [At 8000 (lit "u3") (Created (lit "SIP/dave") [] (lit "400") (lit "default"));
                    At 9000 (lit "u3") (Hangup 16 [] [])].

Lemma engine_keeps_call_log_witness :
  let '(e, w') := engine_run (foldl register_backend (with_config default_config) [keeper; refuser; keeper]) [] two_and_one in
  channel <$> w' = [lit "SIP/carol"; lit "SIP/carol"; lit "SIP/alice"; lit "SIP/alice"]
  ∧ handed_out [keeper; refuser; keeper] (filter (to_log default_config) (call_log [] two_and_one)) [] w'
  ∧ ∀ uid, active_cdrs e !! uid = open_entry <$> back_to_creation uid (reverse two_and_one) [].
Proof.
  pose proof (engine_keeps_call_log default_config [keeper; refuser; keeper] [] two_and_one eq_refl) as H.
  assert (channel <$> (engine_run (foldl register_backend (with_config default_config) [keeper; refuser; keeper]) [] two_and_one).2
    = [lit "SIP/carol"; lit "SIP/carol"; lit "SIP/alice"; lit "SIP/alice"]) as Hw by (vm_compute; reflexivity).
  destruct (engine_run _ _ _) as [e w']. split; [exact Hw|exact H].
Defined.
