(* ===== verification/CdrBackends.v ===== *)
(** * Where call detail records go ([asterisk-cdr/src/csv_backend.rs], [cdr_custom.rs],
      [cdr_syslog.rs])

    The CSV backend with its calendar, and the backends that expand a template.
    Files are what the backends see of them: a file that refuses to be opened or
    written gives an I/O error, and otherwise a line is appended.  A file is named
    by the components of its path; links and [..] are not followed.

    A reader of comma-separated values (RFC 4180) gets from the master file what
    the engine put there; a template whose values hold no [$] means what it says. *)

From Stdlib Require Import NArith ZArith Ascii String.
From S2P Require Import Prelude RustStr Path Cdr.
Local Open Scope Z_scope.
Local Open Scope list_scope.

(** ** The calendar *)

Definition is_leap_year (year : Z) : bool :=
  ((year mod 4 =? 0) && negb (year mod 100 =? 0)) || (year mod 400 =? 0).

Definition days_in_year (year : Z) : Z := if is_leap_year year then 366 else 365.

(** The loop that takes whole years off; [fuel] is the number of turns. *)
Fixpoint year_loop (fuel : nat) (days year : Z) : Z * Z :=
  match fuel with
  | O => (year, days)
  | S fuel =>
      if days <? days_in_year year then (year, days)
      else year_loop fuel (days - days_in_year year) (year + 1)
  end.

Definition month_days (leap : bool) : list Z :=
  [31; if leap then 29 else 28; 31; 30; 31; 30; 31; 31; 30; 31; 30; 31].

(** The loop over the months, which stops in the month of the day. *)
Fixpoint month_loop (mds : list Z) (days month : Z) : Z * Z :=
  match mds with
  | [] => (month, days)
  | md :: mds' => if days <? md then (month, days) else month_loop mds' (days - md) (month + 1)
  end.

Definition days_to_date (days : Z) : Z * Z * Z :=
  let '(year, rest) := year_loop (S (Z.to_nat (days / 365))) days 1970 in
  let '(month, rest) := month_loop (month_days (is_leap_year year)) rest 1 in
  (year, month, rest + 1).

(** [{:0w}] *)
Definition show_padded (w : nat) (n : Z) : str :=
  replicate (w - length (show_int n)) (chr "0") ++ show_int n.

Definition format_system_time (t : Z) : str :=
  let total_secs := (if t <? 0 then 0 else t) / 1000 in
  let days := total_secs / 86400 in
  let remaining_secs := total_secs mod 86400 in
  let hours := remaining_secs / 3600 in
  let minutes := (remaining_secs mod 3600) / 60 in
  let seconds := remaining_secs mod 60 in
  let '(year, month, day) := days_to_date days in
  show_padded 4 year ++ lit "-" ++ show_padded 2 month ++ lit "-" ++ show_padded 2 day ++ lit " "
    ++ show_padded 2 hours ++ lit ":" ++ show_padded 2 minutes ++ lit ":" ++ show_padded 2 seconds.

(** ** Comma-separated values *)

Record CsvCdrConfig := {
  log_dir : str;
  master_file : str;
  use_gmt : bool;
  account_logs : bool;
  log_unique_id : bool;
  log_user_field : bool;
  new_cdr_columns : bool;
}.

Definition csv_default : CsvCdrConfig :=
  {| log_dir := lit "/var/log/asterisk/cdr-csv"; master_file := lit "Master.csv"; use_gmt := false;
     account_logs := true; log_unique_id := false; log_user_field := false;
     new_cdr_columns := false |}.

(** The double quote, which a string of this file cannot hold. *)
Definition QUOTE : char := 34%N.

Definition append_csv_string (buf s : str) : str :=
  buf ++ [QUOTE] ++ (s ≫= λ ch, if (ch =? QUOTE)%N then [QUOTE; ch] else [ch]) ++ [QUOTE] ++ lit ",".

Definition append_csv_int (buf : str) (n : Z) : str := buf ++ show_int n ++ lit ",".
Definition append_csv_date (buf : str) (t : Z) : str := append_csv_string buf (format_system_time t).
Definition append_csv_date_opt (buf : str) (t : option Z) : str :=
  match t with Some t => append_csv_date buf t | None => append_csv_string buf [] end.

(** [n as i64] *)
Definition as_i64 (n : Z) : Z := if n <? 2 ^ 63 then n else n - 2 ^ 64.

Definition format_csv (cfg : CsvCdrConfig) (c : Cdr) : str :=
  let buf := append_csv_string [] (account_code c) in
  let buf := append_csv_string buf (src c) in
  let buf := append_csv_string buf (dst c) in
  let buf := append_csv_string buf (dst_context c) in
  let buf := append_csv_string buf (caller_id c) in
  let buf := append_csv_string buf (channel c) in
  let buf := append_csv_string buf (dst_channel c) in
  let buf := append_csv_string buf (last_app c) in
  let buf := append_csv_string buf (last_data c) in
  let buf := append_csv_date buf (start c) in
  let buf := append_csv_date_opt buf (answer c) in
  let buf := append_csv_date buf (end_ c) in
  let buf := append_csv_int buf (duration c) in
  let buf := append_csv_int buf (billsec c) in
  let buf := append_csv_string buf (disposition_as_str (disposition c)) in
  let buf := append_csv_string buf (ama_as_str (ama_flags c)) in
  let buf := if log_unique_id cfg then append_csv_string buf (unique_id c) else buf in
  let buf := if log_user_field cfg then append_csv_string buf (user_field c) else buf in
  let buf :=
    if new_cdr_columns cfg
    then append_csv_int (append_csv_string (append_csv_string buf (peer_account c)) (linked_id c))
           (as_i64 (sequence c))
    else buf in
  let buf := if bool_decide (last buf = Some (chr ",")) then take (length buf - 1) buf else buf in
  buf ++ [10%N].

(** ** Files *)

(** What a path names. *)
Definition file_id : Type := bool * list str.
Definition file_of (p : str) : file_id := (is_absolute p, components p).

Record world := {
  files : gmap (bool * list str) str;
  refused : gset (bool * list str);
}.

(** [write_to_file]: create the directories, open for appending, write. *)
Definition write_to_file (path line : str) (w : world) : result CdrError unit * world :=
  let f := file_of path in
  if bool_decide (f ∈ refused w) then (Err CdrIo, w)
  else (Ok tt, {| files := <[f := default [] (files w !! f) ++ line]> (files w); refused := refused w |}).

Definition write_to_master (cfg : CsvCdrConfig) (line : str) : world → result CdrError unit * world :=
  write_to_file (path_join (log_dir cfg) (master_file cfg)) line.
Definition write_to_account (cfg : CsvCdrConfig) (account line : str)
    : world → result CdrError unit * world :=
  write_to_file (path_join (log_dir cfg) (account ++ lit ".csv")) line.

Definition csv_log (cfg : CsvCdrConfig) (c : Cdr) (w : world) : result CdrError unit * world :=
  let line := format_csv cfg c in
  match write_to_master cfg line w with
  | (Err e, w) => (Err e, w)
  | (Ok _, w) =>
      if account_logs cfg && negb (bool_decide (account_code c = []))
      then write_to_account cfg (account_code c) line w
      else (Ok tt, w)
  end.

Definition csv_backend (cfg : CsvCdrConfig) : CdrBackend world :=
  {| backend_name := lit "csv"; backend_log := csv_log cfg |}.

(** ** Templates *)

(** [str::replace] for a pattern that is not empty: occurrences from the left that
    do not overlap. [skip] counts the characters of an occurrence still to drop. *)
Fixpoint replace_from (skip : nat) (pat to x : str) : str :=
  match x with
  | [] => []
  | ch :: x' =>
      match skip with
      | S k => replace_from k pat to x'
      | O => if starts_with pat x then to ++ replace_from (length pat - 1) pat to x'
             else ch :: replace_from 0 pat to x'
      end
  end.
Definition str_replace (x pat to : str) : str := replace_from 0 pat to x.

(** The replacements of [cdr_custom.rs], in their order. *)
Definition custom_replacements (c : Cdr) : list (str * str) :=
  [(lit "${CDR(src)}", src c);
   (lit "${CDR(dst)}", dst c);
   (lit "${CDR(dcontext)}", dst_context c);
   (lit "${CDR(channel)}", channel c);
   (lit "${CDR(dstchannel)}", dst_channel c);
   (lit "${CDR(lastapp)}", last_app c);
   (lit "${CDR(lastdata)}", last_data c);
   (lit "${CDR(disposition)}", disposition_as_str (disposition c));
   (lit "${CDR(amaflags)}", ama_as_str (ama_flags c));
   (lit "${CDR(accountcode)}", account_code c);
   (lit "${CDR(uniqueid)}", unique_id c);
   (lit "${CDR(userfield)}", user_field c);
   (lit "${CDR(linkedid)}", linked_id c);
   (lit "${CDR(peeraccount)}", peer_account c);
   (lit "${CDR(clid)}", caller_id c)].

(** Those of [cdr_syslog.rs], which has no [peeraccount]. *)
Definition syslog_replacements (c : Cdr) : list (str * str) :=
  [(lit "${CDR(src)}", src c);
   (lit "${CDR(dst)}", dst c);
   (lit "${CDR(dcontext)}", dst_context c);
   (lit "${CDR(channel)}", channel c);
   (lit "${CDR(dstchannel)}", dst_channel c);
   (lit "${CDR(lastapp)}", last_app c);
   (lit "${CDR(lastdata)}", last_data c);
   (lit "${CDR(disposition)}", disposition_as_str (disposition c));
   (lit "${CDR(amaflags)}", ama_as_str (ama_flags c));
   (lit "${CDR(accountcode)}", account_code c);
   (lit "${CDR(uniqueid)}", unique_id c);
   (lit "${CDR(userfield)}", user_field c);
   (lit "${CDR(linkedid)}", linked_id c);
   (lit "${CDR(clid)}", caller_id c)].

Definition numeric_replacements (c : Cdr) : list (str * str) :=
  [(lit "${CDR(duration)}", show_int (duration c));
   (lit "${CDR(billsec)}", show_int (billsec c));
   (lit "${CDR(sequence)}", show_int (sequence c))].

Definition replace_all (template : str) (rs : list (str * str)) : str :=
  foldl (λ result r, str_replace result r.1 r.2) template rs.

Definition custom_expand_template (template : str) (c : Cdr) : str :=
  replace_all (replace_all template (custom_replacements c)) (numeric_replacements c).
Definition syslog_expand_template (template : str) (c : Cdr) : str :=
  replace_all (replace_all template (syslog_replacements c)) (numeric_replacements c).

Record CustomCdrOutput := { output_name : str; file_path : str; template : str }.

(** The first output that fails ends the loop. *)
Fixpoint custom_log (outputs : list CustomCdrOutput) (c : Cdr) (w : world)
    : result CdrError unit * world :=
  match outputs with
  | [] => (Ok tt, w)
  | o :: outputs' =>
      match write_to_file (file_path o) (custom_expand_template (template o) c ++ [10%N]) w with
      | (Ok _, w) => custom_log outputs' c w
      | (Err e, w) => (Err e, w)
      end
  end.

Definition custom_backend (outputs : list CustomCdrOutput) : CdrBackend world :=
  {| backend_name := lit "custom"; backend_log := custom_log outputs |}.

(** ** Reading comma-separated values (RFC 4180) *)

Inductive csv_state := FieldStart | Bare | InQuotes | AfterQuote.

(** The records of a text: [cur] is the field and [row] the record read so far. *)
Fixpoint csv_read (st : csv_state) (cur : str) (row : list str) (x : str) : list (list str) :=
  match x with
  | [] => []
  | ch :: x' =>
      let plain (st' : csv_state) :=
        if (ch =? chr ",")%N then csv_read FieldStart [] (row ++ [cur]) x'
        else if (ch =? 10)%N then (row ++ [cur]) :: csv_read FieldStart [] [] x'
        else csv_read st' (cur ++ [ch]) row x' in
      match st with
      | FieldStart => if (ch =? QUOTE)%N then csv_read InQuotes [] row x' else plain Bare
      | Bare => plain Bare
      | InQuotes => if (ch =? QUOTE)%N then csv_read AfterQuote cur row x'
                    else csv_read InQuotes (cur ++ [ch]) row x'
      | AfterQuote => if (ch =? QUOTE)%N then csv_read InQuotes (cur ++ [ch]) row x' else plain Bare
      end
  end.

Definition csv_records (x : str) : list (list str) := csv_read FieldStart [] [] x.

(** ** The calendar is right *)

#[local] Ltac Zify.zify_post_hook ::= Z.to_euclidean_division_equations.

(** Leap years up to the year [n], and days of the years from 1970 to before [y]. *)
Definition leap_years (n : Z) : Z := n / 4 - n / 100 + n / 400.
Definition days_before_year (y : Z) : Z := 365 * (y - 1970) + (leap_years (y - 1) - leap_years 1969).
Definition days_before_month (leap : bool) (m : Z) : Z :=
  foldr Z.add 0 (take (Z.to_nat (m - 1)) (month_days leap)).

(** The day of a date, from the first of January 1970. *)
Definition day_number (y m d : Z) : Z :=
  days_before_year y + days_before_month (is_leap_year y) m + (d - 1).

Definition valid_date (y m d : Z) : Prop :=
  1970 ≤ y ∧ ∃ md, month_days (is_leap_year y) !! Z.to_nat (m - 1) = Some md ∧ 1 ≤ m ∧ 1 ≤ d ≤ md.

Lemma days_before_next_year y : days_before_year (y + 1) = days_before_year y + days_in_year y.
Proof.
  unfold days_before_year, leap_years, days_in_year, is_leap_year.
  replace (y + 1 - 1) with y by lia.
  destruct (Z.eqb_spec (y mod 4) 0), (Z.eqb_spec (y mod 100) 0), (Z.eqb_spec (y mod 400) 0);
    cbn [andb orb negb]; lia.
Qed.

Lemma year_length_bounds y : 365 ≤ days_in_year y ≤ 366.
Proof. unfold days_in_year. destruct (is_leap_year y); lia. Qed.

Lemma year_loop_spec fuel days y :
  0 ≤ days < 365 * Z.of_nat fuel →
  let '(y', r) := year_loop fuel days y in
  y ≤ y' ∧ 0 ≤ r < days_in_year y' ∧ days_before_year y' + r = days_before_year y + days.
Proof.
  revert days y. induction fuel as [|fuel IH]; intros days y Hd; cbn [year_loop]; [lia|].
  pose proof (year_length_bounds y). destruct (Z.ltb_spec days (days_in_year y)); [lia|].
  specialize (IH (days - days_in_year y) (y + 1) ltac:(lia)).
  destruct (year_loop fuel _ _) as [y' r]. rewrite days_before_next_year in IH. lia.
Qed.

(** The month loop finds the month the day falls in. *)
Lemma month_loop_spec mds days m :
  0 ≤ days < foldr Z.add 0 mds →
  let '(m', r) := month_loop mds days m in
  ∃ i md, mds !! i = Some md ∧ m' = m + Z.of_nat i ∧ 0 ≤ r < md ∧ foldr Z.add 0 (take i mds) + r = days.
Proof.
  revert days m. induction mds as [|md mds IH]; intros days m Hd; cbn in *; [lia|].
  destruct (Z.ltb_spec days md).
  - exists 0%nat, md. cbn. split_and!; [done|lia..].
  - specialize (IH (days - md) (m + 1) ltac:(lia)). destruct (month_loop mds _ _) as [m' r].
    destruct IH as (i & md' & Hi & -> & Hr & Hs). exists (S i), md'. cbn. split_and!; [done|lia..].
Qed.

Lemma month_days_total y : foldr Z.add 0 (month_days (is_leap_year y)) = days_in_year y.
Proof. unfold days_in_year. by destruct (is_leap_year y). Qed.

(** [days_to_date] is the inverse of counting days. *)
Lemma days_to_date_spec days :
  0 ≤ days →
  let '(y, m, d) := days_to_date days in valid_date y m d ∧ day_number y m d = days.
Proof.
  intros Hd. unfold days_to_date. pose proof (year_loop_spec (S (Z.to_nat (days / 365))) days 1970 ltac:(lia)) as Hy.
  destruct (year_loop _ days 1970) as [y r]. destruct Hy as (Hy & Hr & Hsum).
  pose proof (month_loop_spec (month_days (is_leap_year y)) r 1 ltac:(by rewrite month_days_total)) as Hm.
  destruct (month_loop _ r 1) as [m r']. destruct Hm as (i & md & Hi & -> & Hr' & Hs).
  assert (Z.to_nat (1 + Z.of_nat i - 1) = i) as Ei by lia. split.
  - split; [done|]. exists md. rewrite Ei. split_and!; [done|lia..].
  - unfold day_number, days_before_month. rewrite Ei.
    assert (days_before_year 1970 = 0) by done. lia.
Qed.

(** ** Dates are read back *)

Definition read_number (x : str) : option Z := parse_nonempty x.

(** The seconds of a text [Y-M-D h:m:s]. *)
Definition read_date (x : str) : option Z :=
  match split (chr " ") x with
  | [d; t] =>
      match split (chr "-") d, split (chr ":") t with
      | [y; m; d], [hh; mm; ss] =>
          y ← read_number y; m ← read_number m; d ← read_number d;
          hh ← read_number hh; mm ← read_number mm; ss ← read_number ss;
          Some (day_number y m d * 86400 + hh * 3600 + mm * 60 + ss)
      | _, _ => None
      end
  | _ => None
  end.

Lemma parse_digits_zeros k x : parse_digits 0 (replicate k (chr "0") ++ x) = parse_digits 0 x.
Proof. induction k as [|k IH]; [done|]. rewrite <-IH. done. Qed.

Lemma show_padded_reads w n : 0 ≤ n → read_number (show_padded w n) = Some n.
Proof.
  intros Hn. unfold read_number, show_padded, show_int. destruct (Z.ltb_spec n 0); [lia|].
  destruct (show_nonneg_spec n Hn) as (d & ds & E & Hds & Hp). rewrite E.
  assert (∀ x, x ≠ [] → parse_nonempty x = parse_digits 0 x) as Hne by (by intros []).
  rewrite Hne by (by destruct (replicate _ _)). by rewrite parse_digits_zeros.
Qed.

Lemma show_padded_no_sep w n ch :
  0 ≤ n → is_ascii_digit ch = false → (ch ∉ show_padded w n).
Proof.
  intros Hn Hd. unfold show_padded. rewrite elem_of_app. intros [Hi|Hi].
  - apply elem_of_replicate in Hi as [-> _]. done.
  - by apply (show_int_no_sep n ch Hn Hd).
Qed.

Lemma split_three ch a b c :
  (ch ∉ a) → (ch ∉ b) → (ch ∉ c) → split ch (a ++ [ch] ++ b ++ [ch] ++ c) = [a; b; c].
Proof. intros. cbn [Datatypes.app]. rewrite !split_app by done. by rewrite split_no_sep. Qed.

Lemma date_reads_back t : 0 ≤ t → read_date (format_system_time t) = Some (t / 1000).
Proof.
  intros Ht. unfold format_system_time. rewrite (proj2 (Z.ltb_ge t 0)) by lia.
  set (secs := t / 1000). assert (0 ≤ secs) by (unfold secs; lia).
  pose proof (days_to_date_spec (secs / 86400) ltac:(lia)) as Hd.
  destruct (days_to_date _) as [[y m] d]. destruct Hd as [(Hy & md & _ & Hm & Hdd) Hn].
  set (hh := secs mod 86400 / 3600). set (mm := secs mod 86400 mod 3600 / 60). set (ss := secs mod 86400 mod 60).
  assert (0 ≤ hh) by (unfold hh; lia). assert (0 ≤ mm) by (unfold mm; lia). assert (0 ≤ ss) by (unfold ss; lia).
  assert (∀ w n ch, 0 ≤ n → is_ascii_digit ch = false → ch ∉ show_padded w n) as Hsep by apply show_padded_no_sep.
  unfold read_date.
  replace (show_padded 4 y ++ _) with
    ((show_padded 4 y ++ lit "-" ++ show_padded 2 m ++ lit "-" ++ show_padded 2 d)
      ++ chr " " :: (show_padded 2 hh ++ lit ":" ++ show_padded 2 mm ++ lit ":" ++ show_padded 2 ss))
    by (by rewrite <-!app_assoc).
  rewrite split_app, split_no_sep.
  2,3: rewrite !elem_of_app, !list_elem_of_singleton; intros Hi; destruct_or! Hi; try done; (eapply Hsep; [| |exact Hi]; [lia|done]).
  rewrite (split_three (chr "-")), (split_three (chr ":")) by (apply Hsep; [lia|done]).
  rewrite !show_padded_reads by lia. cbn. rewrite Hn. f_equal. unfold hh, mm, ss. lia.
Qed.

(** ** Records are read back *)

Inductive column := CText (s : str) | CNum (n : Z).
Definition column_value (x : column) : str := match x with CText s => s | CNum n => show_int n end.
Definition escape (s : str) : str := s ≫= λ ch, if (ch =? QUOTE)%N then [QUOTE; ch] else [ch].
Definition column_text (x : column) : str :=
  match x with CText s => [QUOTE] ++ escape s ++ [QUOTE] | CNum n => show_int n end.

Definition csv_columns (cfg : CsvCdrConfig) (c : Cdr) : list column :=
  [CText (account_code c); CText (src c); CText (dst c); CText (dst_context c); CText (caller_id c);
   CText (channel c); CText (dst_channel c); CText (last_app c); CText (last_data c);
   CText (format_system_time (start c)); CText (from_option format_system_time [] (answer c));
   CText (format_system_time (end_ c)); CNum (duration c); CNum (billsec c);
   CText (disposition_as_str (disposition c)); CText (ama_as_str (ama_flags c))]
  ++ (if log_unique_id cfg then [CText (unique_id c)] else [])
  ++ (if log_user_field cfg then [CText (user_field c)] else [])
  ++ (if new_cdr_columns cfg
      then [CText (peer_account c); CText (linked_id c); CNum (as_i64 (sequence c))] else []).

(** A line is its columns, separated by commas. *)
Definition columns_text (cols : list column) : str := cols ≫= λ x, column_text x ++ [chr ","].

Lemma append_column_string buf cols s :
  buf = columns_text cols → append_csv_string buf s = columns_text (cols ++ [CText s]).
Proof.
  intros ->. unfold append_csv_string, columns_text, column_text, escape.
  rewrite bind_app. cbn [mbind list_bind Datatypes.app]. by rewrite app_nil_r, <-!app_assoc.
Qed.

Lemma append_column_int buf cols n :
  buf = columns_text cols → append_csv_int buf n = columns_text (cols ++ [CNum n]).
Proof.
  intros ->. unfold append_csv_int, columns_text, column_text.
  rewrite bind_app. cbn [mbind list_bind]. by rewrite app_nil_r.
Qed.

Lemma columns_text_join x cols :
  columns_text (x :: cols) = join (chr ",") (column_text <$> x :: cols) ++ [chr ","].
Proof.
  revert x. induction cols as [|y cols IH]; intros x; [by cbn; rewrite app_nil_r|].
  change (columns_text (x :: y :: cols)) with ((column_text x ++ [chr ","]) ++ columns_text (y :: cols)).
  rewrite IH, !fmap_cons, join_cons, <-!app_assoc. done.
Qed.

Lemma format_csv_columns cfg c :
  format_csv cfg c = join (chr ",") (column_text <$> csv_columns cfg c) ++ [10%N].
Proof.
  unfold format_csv.
  match goal with |- context [if bool_decide (last ?b = _) then _ else _] => set (buf := b) end.
  assert (buf = columns_text (csv_columns cfg c)) as ->.
  { subst buf. unfold csv_columns. rewrite !app_assoc.
    assert (∀ buf cols, buf = columns_text cols →
      append_csv_date_opt buf (answer c) = columns_text (cols ++ [CText (from_option format_system_time [] (answer c))])) as Hopt.
    { intros buf cols Hb. destruct (answer c); by apply append_column_string. }
    change [CText (account_code c); CText (src c); CText (dst c); CText (dst_context c); CText (caller_id c);
   CText (channel c); CText (dst_channel c); CText (last_app c); CText (last_data c);
   CText (format_system_time (start c)); CText (from_option format_system_time [] (answer c));
   CText (format_system_time (end_ c)); CNum (duration c); CNum (billsec c);
   CText (disposition_as_str (disposition c)); CText (ama_as_str (ama_flags c))]
    with (([] ++ [CText (account_code c)]) ++ [CText (src c)] ++ [CText (dst c)] ++ [CText (dst_context c)] ++ [CText (caller_id c)]
   ++ [CText (channel c)] ++ [CText (dst_channel c)] ++ [CText (last_app c)] ++ [CText (last_data c)]
   ++ [CText (format_system_time (start c))] ++ [CText (from_option format_system_time [] (answer c))]
   ++ [CText (format_system_time (end_ c))] ++ [CNum (duration c)] ++ [CNum (billsec c)]
   ++ [CText (disposition_as_str (disposition c))] ++ [CText (ama_as_str (ama_flags c))]).
    rewrite !app_assoc.
    destruct (log_unique_id cfg), (log_user_field cfg), (new_cdr_columns cfg);
      rewrite ?app_nil_r, ?(app_assoc _ [_] [_; _]), ?(app_assoc _ [_] [_]);
      change [CText (peer_account c); CText (linked_id c); CNum (as_i64 (sequence c))]
        with ([CText (peer_account c)] ++ [CText (linked_id c)] ++ [CNum (as_i64 (sequence c))]);
      rewrite ?app_assoc;
      repeat first [apply append_column_int|apply append_column_string|apply Hopt]; done. }
  assert (∃ x cols, csv_columns cfg c = x :: cols) as (x & cols & ->) by (by eexists _, _).
  rewrite columns_text_join, last_snoc, bool_decide_true by done.
  rewrite length_app. cbn [length]. by rewrite Nat.add_sub, take_app_length.
Qed.

(** A column and the separator after it. *)
Definition sep_read (row : list str) (v : str) (sep : char) (x : str) : list (list str) :=
  if (sep =? chr ",")%N then csv_read FieldStart [] (row ++ [v]) x
  else (row ++ [v]) :: csv_records x.

Lemma read_quoted cur row s x :
  csv_read InQuotes cur row (escape s ++ QUOTE :: x) = csv_read AfterQuote (cur ++ s) row x.
Proof.
  revert cur. induction s as [|ch s IH]; intros cur; [by rewrite app_nil_r|].
  change (escape (ch :: s)) with ((if (ch =? QUOTE)%N then [QUOTE; ch] else [ch]) ++ escape s).
  destruct (N.eqb_spec ch QUOTE) as [->|Hch]; cbn [Datatypes.app csv_read].
  - change (QUOTE =? QUOTE)%N with true. cbn match. rewrite IH. by rewrite <-app_assoc.
  - rewrite (proj2 (N.eqb_neq ch QUOTE)) by done. rewrite IH. by rewrite <-app_assoc.
Qed.

Definition bare_char (ch : char) : bool :=
  negb ((ch =? chr ",") || (ch =? 10) || (ch =? QUOTE))%N.

Lemma read_bare cur row s x :
  forallb bare_char s = true → csv_read Bare cur row (s ++ x) = csv_read Bare (cur ++ s) row x.
Proof.
  revert cur. induction s as [|ch s IH]; intros cur; [by rewrite app_nil_r|].
  cbn [forallb]. intros [Hch Hs]%andb_true_iff. cbn [Datatypes.app csv_read].
  unfold bare_char in Hch. apply negb_true_iff in Hch. split_bools.
  repeat match goal with H : (_ =? _)%N = false |- _ => rewrite ?H; clear H end.
  rewrite IH by done. by rewrite <-app_assoc.
Qed.

Lemma show_int_bare n : show_int n ≠ [] ∧ forallb bare_char (show_int n) = true.
Proof.
  assert (∀ s, forallb is_ascii_digit s = true → forallb bare_char s = true) as Hd.
  { intros s. rewrite !forallb_elem. intros Hs ch Hch. specialize (Hs ch Hch). apply digit_bounds in Hs.
    unfold bare_char. by rewrite !(proj2 (N.eqb_neq ch _)) by (unfold QUOTE; lia). }
  unfold show_int. destruct (Z.ltb_spec n 0).
  - split; [done|]. destruct (show_nonneg_spec (- n) ltac:(lia)) as (d & ds & -> & Hds & _).
    change (forallb bare_char (45%N :: d :: ds)) with (bare_char 45%N && forallb bare_char (d :: ds)). by rewrite (Hd _ Hds).
  - destruct (show_nonneg_spec n ltac:(lia)) as (d & ds & -> & Hds & _). split; [done|by apply Hd].
Qed.

Lemma read_column row col sep x :
  sep = chr "," ∨ sep = 10%N →
  csv_read FieldStart [] row (column_text col ++ sep :: x) = sep_read row (column_value col) sep x.
Proof.
  intros Hsep. destruct col as [s|n]; cbn [column_text column_value].
  - rewrite <-!app_assoc. cbn [Datatypes.app csv_read]. rewrite N.eqb_refl, read_quoted.
    cbn [csv_read Datatypes.app]. unfold sep_read. by destruct Hsep as [->| ->].
  - destruct (show_int_bare n) as [Hne Hb]. destruct (show_int n) as [|ch s]; [done|].
    cbn [forallb] in Hb. apply andb_true_iff in Hb as [Hch Hs]. cbn [Datatypes.app csv_read].
    unfold bare_char in Hch. apply negb_true_iff in Hch. split_bools.
    repeat match goal with H : (ch =? _)%N = false |- _ => rewrite ?H; clear H end.
    rewrite read_bare by done. cbn [csv_read Datatypes.app]. unfold sep_read. by destruct Hsep as [->| ->].
Qed.

Lemma read_line row x cols rest :
  csv_read FieldStart [] row (join (chr ",") (column_text <$> x :: cols) ++ 10%N :: rest) =
    (row ++ (column_value <$> x :: cols)) :: csv_records rest.
Proof.
  revert row x. induction cols as [|y cols IH]; intros row x.
  - cbn [fmap list_fmap join]. rewrite read_column by auto. done.
  - rewrite (fmap_cons _ x), (fmap_cons _ y), join_cons, <-app_assoc. cbn [Datatypes.app].
    rewrite read_column by auto. unfold sep_read. rewrite N.eqb_refl, <-fmap_cons, IH.
    by rewrite <-app_assoc.
Qed.

(** What is written is what is read, line by line. *)
Lemma csv_reads_back cfg cs :
  csv_records (concat (format_csv cfg <$> cs)) = (λ c, column_value <$> csv_columns cfg c) <$> cs.
Proof.
  induction cs as [|c cs IH]; [done|]. rewrite !fmap_cons. cbn [concat].
  rewrite format_csv_columns, <-app_assoc. unfold csv_records at 1.
  assert (∃ x cols, csv_columns cfg c = x :: cols) as (x & cols & E) by (by eexists _, _).
  rewrite E. cbn [Datatypes.app]. by rewrite read_line, IH.
Qed.

Section decode.
Context `{UnicodeUpper}.

(** An optional column. *)
Definition pop (present : bool) (row : list str) : str * list str :=
  if present then match row with x :: row' => (x, row') | [] => ([], []) end else ([], row).

(** The record a row describes. *)
Definition decode_row (cfg : CsvCdrConfig) (row : list str) : option Cdr :=
  match row with
  | acc :: s :: d :: ctx :: cid :: ch :: dch :: app :: data :: st :: an :: en :: du :: bs :: di :: am :: rest =>
      let '(uid, rest) := pop (log_unique_id cfg) rest in
      let '(user, rest) := pop (log_user_field cfg) rest in
      let '(peer, rest) := pop (new_cdr_columns cfg) rest in
      let '(linked, rest) := pop (new_cdr_columns cfg) rest in
      let '(seq, rest) := pop (new_cdr_columns cfg) rest in
      st ← read_date st;
      an ← (if bool_decide (an = []) then Some None else Some <$> read_date an);
      en ← read_date en;
      du ← read_number du;
      bs ← read_number bs;
      Some {| account_code := acc; src := s; dst := d; dst_context := ctx; caller_id := cid;
              channel := ch; dst_channel := dch; last_app := app; last_data := data;
              start := st * 1000; answer := (λ a, a * 1000) <$> an; end_ := en * 1000;
              duration := du; billsec := bs; disposition := disposition_from_str_name di;
              ama_flags := ama_from_str_name am; peer_account := peer; unique_id := uid;
              linked_id := linked; user_field := user; sequence := default 0 (read_number seq);
              variables := ∅ |}
  | _ => None
  end.

(** What a CSV line says of a record: times in whole seconds, the optional
    columns the configuration asks for, no variables. *)
Definition logged (cfg : CsvCdrConfig) (c : Cdr) : Cdr :=
  {| account_code := account_code c; src := src c; dst := dst c; dst_context := dst_context c;
     caller_id := caller_id c; channel := channel c; dst_channel := dst_channel c;
     last_app := last_app c; last_data := last_data c; start := start c / 1000 * 1000;
     answer := (λ a, a / 1000 * 1000) <$> answer c; end_ := end_ c / 1000 * 1000;
     duration := duration c; billsec := billsec c; disposition := disposition c;
     ama_flags := ama_flags c;
     peer_account := if new_cdr_columns cfg then peer_account c else [];
     unique_id := if log_unique_id cfg then unique_id c else [];
     linked_id := if new_cdr_columns cfg then linked_id c else [];
     user_field := if log_user_field cfg then user_field c else [];
     sequence := if new_cdr_columns cfg then sequence c else 0; variables := ∅ |}.

(** Numbers in the range where printing loses nothing. *)
Record printable (c : Cdr) : Prop := {
  printable_start : 0 ≤ start c;
  printable_answer : 0 ≤ default 0 (answer c);
  printable_end : 0 ≤ end_ c;
  printable_duration : 0 ≤ duration c;
  printable_billsec : 0 ≤ billsec c;
  printable_sequence : 0 ≤ sequence c < 2 ^ 63;
}.

Lemma read_number_show n : 0 ≤ n → read_number (show_int n) = Some n.
Proof. intros Hn. by apply (show_padded_reads 0 n). Qed.

Lemma disposition_reads_back d : disposition_from_str_name (disposition_as_str d) = d.
Proof. by destruct d. Qed.
Lemma ama_reads_back f : ama_from_str_name (ama_as_str f) = f.
Proof. by destruct f. Qed.

Lemma format_system_time_nonempty t : format_system_time t ≠ [].
Proof.
  unfold format_system_time. destruct (days_to_date _) as [[y m] d]. unfold show_padded at 1.
  destruct (show_int_bare y) as [Hne _]. by destruct (replicate _ _), (show_int y).
Qed.

Lemma decode_logged cfg c :
  printable c → decode_row cfg (column_value <$> csv_columns cfg c) = Some (logged cfg c).
Proof.
  intros [Hs Ha He Hd Hb Hq]. unfold csv_columns. rewrite !fmap_app. cbn [fmap list_fmap Datatypes.app column_value decode_row].
  set (rest := (_ <$> _) ++ _).
  assert (pop (log_unique_id cfg) rest = (if log_unique_id cfg then unique_id c else [],
    (column_value <$> (if log_user_field cfg then [CText (user_field c)] else []))
    ++ (column_value <$> (if new_cdr_columns cfg then [CText (peer_account c); CText (linked_id c); CNum (as_i64 (sequence c))] else []))))
    as -> by (unfold rest; by destruct (log_unique_id cfg)).
  clear rest. rewrite date_reads_back, date_reads_back, !read_number_show by lia.
  assert ((if bool_decide (from_option format_system_time [] (answer c) = []) then Some None
           else Some <$> read_date (from_option format_system_time [] (answer c)))
          = Some ((λ a, a / 1000) <$> answer c)) as ->.
  { destruct (answer c) as [a|]; cbn; [|done].
    rewrite bool_decide_false by apply format_system_time_nonempty. by rewrite date_reads_back by (cbn in Ha; lia). }
  assert (as_i64 (sequence c) = sequence c) as -> by (unfold as_i64; destruct (Z.ltb_spec (sequence c) (2 ^ 63)); lia).
  rewrite disposition_reads_back, ama_reads_back. unfold logged.
  destruct (log_user_field cfg), (new_cdr_columns cfg); cbn [fmap list_fmap Datatypes.app pop column_value mbind option_bind option_fmap];
    rewrite ?read_number_show by lia; by destruct (answer c).
Qed.

(** The records of a file. *)
Definition read_csv (cfg : CsvCdrConfig) (x : str) : option (list Cdr) := mapM (decode_row cfg) (csv_records x).

Lemma read_csv_lines cfg cs :
  Forall printable cs → read_csv cfg (concat (format_csv cfg <$> cs)) = Some (logged cfg <$> cs).
Proof.
  intros Hcs. unfold read_csv. rewrite csv_reads_back.
  induction Hcs as [|c cs Hc _ IH]; [done|]. cbn [fmap list_fmap mapM].
  by rewrite decode_logged, IH.
Qed.

(** ** The master file *)

Definition master_id (cfg : CsvCdrConfig) : bool * list str := file_of (path_join (log_dir cfg) (master_file cfg)).

(** Records without an account code go to the master file only. *)
Lemma log_all_master cfg cs w :
  Forall (λ c, account_code c = []) cs → (master_id cfg ∉ refused w) →
  let w' := foldl (λ w c, log_all [csv_backend cfg] c w) w cs in
  default [] (files w' !! master_id cfg) = default [] (files w !! master_id cfg) ++ concat (format_csv cfg <$> cs).
Proof.
  revert w. induction cs as [|c cs IH]; intros w Hcs Hw; [by rewrite app_nil_r|].
  apply Forall_cons in Hcs as [Hc Hcs]. cbn [foldl].
  assert (log_all [csv_backend cfg] c w
    = {| files := <[master_id cfg := default [] (files w !! master_id cfg) ++ format_csv cfg c]> (files w); refused := refused w |}) as ->.
  { unfold log_all, csv_backend, csv_log, write_to_master, write_to_file. cbn [foldl backend_log].
    fold (master_id cfg). rewrite bool_decide_false by done. rewrite Hc. cbn. by rewrite andb_false_r. }
  rewrite IH by done. cbn [files fmap list_fmap concat]. rewrite lookup_insert_eq. cbn. by rewrite app_assoc.
Qed.

Lemma back_to_creation_in uid past mid b c m :
  back_to_creation uid past mid = Some (b, c, m) → c ∈ past ∧ (length b < length past)%nat.
Proof.
  revert mid. induction past as [|x past IH]; intros mid; cbn; [done|].
  assert (∀ mid, back_to_creation uid past mid = Some (b, c, m) → (c ∈ x :: past) ∧ (length b < S (length past))%nat) as H'.
  { intros mid' [? ?]%IH. split; [by constructor|lia]. }
  case_bool_decide; [|by apply H']. destruct (event x); try (by apply H'); [|done].
  intros [= -> -> ->]. split; [by left|lia].
Qed.

Lemma creations_bounds past : 0 ≤ creations past ≤ Z.of_nat (length past).
Proof. induction past as [|x past IH]; cbn [creations length]; [lia|]. destruct (is_created x); lia. Qed.

Lemma closed_record_shape past x c :
  closed_record past x = Some c →
  account_code c = [] ∧ 0 ≤ sequence c ≤ Z.of_nat (length past) + 1 ∧ ∃ y, y ∈ past ∧ start c = time y.
Proof.
  unfold closed_record. destruct (event x) as [| | | | | | |cause app data]; try done.
  destruct (back_to_creation _ past []) as [[[b cr] mid]|] eqn:E; [|done]. cbn [fmap option_fmap option_map compose].
  intros [= <-]. apply back_to_creation_in in E as [Hin Hlen].
  unfold final_record, open_record. destruct (match event cr with Created n ci sr cx => _ | _ => _ end) as [[[? ?] ?] ?]; cbn.
  all: split; [done|]; split; [|by exists cr].
  all: unfold wrap_u64; pose proof (creations_bounds b).
  all: pose proof (Z.mod_pos_bound (1 + creations b) (2 ^ 64) ltac:(lia)); pose proof (Z.mod_le (1 + creations b) (2 ^ 64)); lia.
Qed.
Lemma call_log_printable past tr t :
  0 ≤ t → clock_past past → Forall (λ y, 0 ≤ time y ≤ t) past → clock_from t tr →
  Z.of_nat (length past + length tr) < 2 ^ 63 - 1 →
  Forall (λ c, printable c ∧ account_code c = []) (call_log past tr).
Proof.
  revert past t. induction tr as [|x tr IH]; intros past t Ht Hp HT Hc Hlen; [constructor|]. destruct Hc as [Hx Hc].
  cbn [call_log length] in *. apply Forall_app. split.
  - destruct (closed_record past x) as [c|] eqn:E; constructor; [|constructor].
    destruct (closed_record_shape _ _ _ E) as (Hacc & Hq & y & Hy & Hs). split; [|done].
    destruct (closed_record_billed past x c Hp) as [[Hse Hd] Ha Hb]; [eapply Forall_impl; [exact HT|cbn; lia]|done|].
    rewrite Forall_forall in HT. specialize (HT y Hy).
    split; [lia| |lia|lia|lia|lia]. destruct (answer c); cbn; [|lia]. destruct Ha as (? & _). lia.
  - apply (IH (x :: past) (time x)); [lia| | |done|cbn [length]; lia].
    + split; [|done]. eapply Forall_impl; [exact HT|cbn; lia].
    + constructor; [lia|]. eapply Forall_impl; [exact HT|cbn; lia].
Qed.

(** C38. The master file is the call log.  An engine with the CSV backend, a writable
    master file that is new, and a clock that does not go back: after any run, the
    file read as comma-separated values has exactly the records of the call log that
    the configuration wants, in order, every name and application argument intact
    whatever quotes, commas or line breaks are in it, and every time to the second. *)
Theorem master_file_reads_as_call_log (cfg : CdrConfig) (csv : CsvCdrConfig) (t : Z) (tr : list timed)
    (r : gset (bool * list str)) :
  enabled cfg = true → 0 ≤ t → clock_from t tr → Z.of_nat (length tr) < 2 ^ 63 - 1 →
  (master_id csv ∉ r) →
  let '(_, w) := engine_run (foldl register_backend (with_config cfg) [csv_backend csv])
                   {| files := ∅; refused := r |} tr in
  read_csv csv (default [] (files w !! master_id csv)) = Some (logged csv <$> filter (to_log cfg) (call_log [] tr)).
Proof.
  intros Hon Ht Hc Hlen Hr. destruct (engine_run _ _ tr) as [e w] eqn:E.
  destruct (keeps_run cfg [csv_backend csv] Hon [] _ _ tr e w (keeps_new cfg _) E) as [_ ->].
  rewrite filter_wanted.
  pose proof (call_log_printable [] tr t Ht I ltac:(constructor) Hc Hlen) as Hlog.
  assert (Forall (λ c, printable c ∧ account_code c = []) (filter (to_log cfg) (call_log [] tr))) as Hw.
  { rewrite Forall_forall in Hlog |- *. intros c [_ Hin]%list_elem_of_filter. by apply Hlog. }
  rewrite log_all_master; [|by eapply Forall_impl; [exact Hw|intros c [_ ?]]|done].
  cbn [files]. rewrite lookup_empty. cbn [default Datatypes.app].
  apply read_csv_lines. eapply Forall_impl; [exact Hw|]. by intros c [? _].
Qed.
End decode.

(** ** What a template means

    A template is made of texts without [$] and of references [${CDR(name)}]. *)

Inductive piece := Lit (s : str) | Ref (name : str).

Definition placeholder (name : str) : str := lit "${CDR(" ++ name ++ lit ")}".
Definition piece_text (p : piece) : str := match p with Lit s => s | Ref n => placeholder n end.
Definition template_text (ps : list piece) : str := ps ≫= piece_text.

(** A reference stands for the value of its field, or for itself. *)
Definition denote (rs : list (str * str)) (p : piece) : str :=
  match p with
  | Lit s => s
  | Ref n => from_option snd (placeholder n) (List.find (λ r, str_eqb r.1 (placeholder n)) rs)
  end.

Definition plain_text (s : str) : Prop := chr "$" ∉ s.
Definition plain_piece (p : piece) : Prop :=
  match p with Lit s => plain_text s | Ref n => plain_text n ∧ (chr "}" ∉ n) end.

Lemma replace_skip pat to a x : replace_from (length a) pat to (a ++ x) = replace_from 0 pat to x.
Proof. induction a as [|ch a IH]; [by destruct x|]. exact IH. Qed.

Lemma starts_with_false_head ch pat ch' x : ch ≠ ch' → starts_with (ch :: pat) (ch' :: x) = false.
Proof.
  intros Hne. unfold starts_with. cbn [strip_prefix]. rewrite (proj2 (N.eqb_neq ch ch')) by done.
  apply bool_decide_eq_false. by intros [? ?].
Qed.

Lemma replace_plain n to s x :
  plain_text s → replace_from 0 (placeholder n) to (s ++ x) = s ++ replace_from 0 (placeholder n) to x.
Proof.
  unfold plain_text. induction s as [|ch s IH]; intros Hs; [done|]. apply not_elem_of_cons in Hs as [Hch Hs].
  cbn [Datatypes.app replace_from]. unfold placeholder at 1. cbn [Datatypes.app].
  rewrite starts_with_false_head by done. by rewrite IH.
Qed.

Lemma same_until (ch : char) (a b x y : str) : (ch ∉ a) → (ch ∉ b) → a ++ ch :: x = b ++ ch :: y → a = b.
Proof.
  revert b. induction a as [|c a IH]; intros [|c' b] Ha Hb E; [done|..]; cbn in E; simplify_eq.
  - exfalso. set_solver.
  - exfalso. set_solver.
  - f_equal. apply IH; set_solver.
Qed.

Lemma starts_with_placeholder n n' x :
  (chr "}" ∉ n) → (chr "}" ∉ n') → starts_with (placeholder n) (placeholder n' ++ x) = true → n = n'.
Proof.
  intros Hn Hn' [y Hy]%starts_with_true. unfold placeholder in Hy.
  rewrite <-!app_assoc in Hy. apply app_inv_head in Hy. cbn [Datatypes.app] in Hy.
  assert (n' ++ [chr ")"] = n ++ [chr ")"]) as E.
  { apply (same_until (chr "}") _ _ x y); [set_solver..|]. rewrite <-!app_assoc. exact Hy. }
  by apply app_inj_tail in E as [-> _].
Qed.

Definition reference_body (name : str) : str := lit "{CDR(" ++ name ++ lit ")}".

Lemma replace_at pat to ch x :
  replace_from 0 pat to (ch :: x) =
    if starts_with pat (ch :: x) then to ++ replace_from (length pat - 1) pat to x
    else ch :: replace_from 0 pat to x.
Proof. done. Qed.

Lemma replace_reference n to n' x :
  (chr "}" ∉ n) → plain_piece (Ref n') →
  replace_from 0 (placeholder n) to (placeholder n' ++ x)
    = (if str_eqb n n' then to else placeholder n') ++ replace_from 0 (placeholder n) to x.
Proof.
  intros Hn [Hp Hn'].
  change (placeholder n' ++ x) with (chr "$" :: (reference_body n' ++ x)).
  rewrite replace_at. change (chr "$" :: (reference_body n' ++ x)) with (placeholder n' ++ x).
  destruct (str_eqb n n') eqn:E.
  - apply str_eqb_true in E as <-.
    rewrite (proj2 (starts_with_true (placeholder n) (placeholder n ++ x))) by by exists x.
    f_equal. replace (length (placeholder n) - 1)%nat with (length (reference_body n)) by done.
    apply replace_skip.
  - destruct (starts_with (placeholder n) (placeholder n' ++ x)) eqn:Hs.
    { apply starts_with_placeholder in Hs as ->; [|done..]. by rewrite str_eqb_refl in E. }
    change (placeholder n' ++ replace_from 0 (placeholder n) to x)
      with (chr "$" :: reference_body n' ++ replace_from 0 (placeholder n) to x).
    f_equal. apply replace_plain. unfold plain_text, reference_body in *. cbn [Datatypes.app]. set_solver.
Qed.

Definition substitute_piece (r : str * str) (p : piece) : piece :=
  match p with Lit s => Lit s | Ref n => if str_eqb r.1 (placeholder n) then Lit r.2 else Ref n end.

Lemma placeholder_inj n n' : placeholder n = placeholder n' → n = n'.
Proof. unfold placeholder. intros E%app_inv_head. by apply app_inv_tail in E. Qed.

Lemma replace_template n to ps :
  (chr "}" ∉ n) → Forall plain_piece ps →
  str_replace (template_text ps) (placeholder n) to = template_text (substitute_piece (placeholder n, to) <$> ps).
Proof.
  intros Hn. unfold str_replace, template_text. induction 1 as [|p ps Hp _ IH]; [done|].
  rewrite fmap_cons. cbn [mbind list_bind]. rewrite <-IH. destruct p as [s|n']; cbn [piece_text substitute_piece fst snd].
  - by apply replace_plain.
  - rewrite replace_reference by done. destruct (str_eqb n n') eqn:E.
    + apply str_eqb_true in E as <-. by rewrite str_eqb_refl.
    + assert (str_eqb (placeholder n) (placeholder n') = false) as ->; [|done].
      apply str_eqb_false. intros E'%placeholder_inj. by apply str_eqb_false in E.
Qed.

(** A replacement of a reference by a value without [$]. *)
Definition plain_replacement (r : str * str) : Prop :=
  (∃ n, r.1 = placeholder n ∧ (chr "}" ∉ n)) ∧ plain_text r.2.

Lemma replace_all_denote rs ps :
  Forall plain_replacement rs → Forall plain_piece ps →
  replace_all (template_text ps) rs = concat (denote rs <$> ps).
Proof.
  unfold replace_all. intros Hrs. revert ps. induction Hrs as [|r rs [(n & Er & Hn) Hv] _ IH]; intros ps Hps.
  - unfold template_text. cbn [foldl]. induction Hps as [|p ps _ _ IHp]; [done|].
    rewrite fmap_cons. cbn [mbind list_bind concat]. rewrite <-IHp. by destruct p.
  - cbn [foldl]. rewrite Er, replace_template by done. rewrite IH.
    + f_equal. rewrite <-list_fmap_compose. apply list_fmap_ext. intros i p _. destruct p as [s|n']; [done|].
      cbn [compose substitute_piece denote fst snd List.find]. rewrite Er. by destruct (str_eqb (placeholder n) (placeholder n')).
    + apply Forall_fmap. eapply Forall_impl; [exact Hps|]. intros [s|n'] Hp; cbn; [done|]. by destruct (str_eqb _ _).
Qed.

Lemma numeric_replacements_plain c : Forall plain_replacement (numeric_replacements c).
Proof.
  assert (∀ n, plain_text (show_int n)) as Hi.
  { intros n Hin. unfold show_int in Hin. destruct (Z.ltb_spec n 0).
    - destruct (show_nonneg_spec (- n) ltac:(lia)) as (d & ds & E & Hds & _). rewrite E in Hin.
      apply elem_of_cons in Hin as [?|Hin]; [done|]. rewrite forallb_elem in Hds. by specialize (Hds _ Hin).
    - destruct (show_nonneg_spec n ltac:(lia)) as (d & ds & E & Hds & _). rewrite E in Hin.
      rewrite forallb_elem in Hds. by specialize (Hds _ Hin). }
  unfold numeric_replacements. repeat constructor; cbn [fst snd]; try apply Hi.
  - exists (lit "duration"). split; [done|]. by apply (bool_decide_unpack _); vm_compute.
  - exists (lit "billsec"). split; [done|]. by apply (bool_decide_unpack _); vm_compute.
  - exists (lit "sequence"). split; [done|]. by apply (bool_decide_unpack _); vm_compute.
Qed.

(** The texts a template may refer to. *)
Definition plain_cdr (c : Cdr) : Prop :=
  Forall plain_text
    [src c; dst c; dst_context c; channel c; dst_channel c; last_app c; last_data c; account_code c;
     unique_id c; user_field c; linked_id c; peer_account c; caller_id c].

Lemma custom_replacements_plain c : plain_cdr c → Forall plain_replacement (custom_replacements c).
Proof.
  unfold plain_cdr. rewrite !Forall_cons. intros (? & ? & ? & ? & ? & ? & ? & ? & ? & ? & ? & ? & ? & _).
  assert (plain_text (disposition_as_str (disposition c))) by (destruct (disposition c); by apply (bool_decide_unpack _); vm_compute).
  assert (plain_text (ama_as_str (ama_flags c))) by (destruct (ama_flags c); by apply (bool_decide_unpack _); vm_compute).
  unfold custom_replacements. repeat constructor; cbn [fst snd]; try done;
    match goal with |- ∃ n, ?x = _ ∧ _ => exists (take (length x - 8) (drop 6 x)) end;
    (split; [done|by apply (bool_decide_unpack _); vm_compute]).
Qed.

(** Every reference of a template is replaced by the value of its field, at once,
    when no value holds a [$]; text around them stays as it is. *)
Lemma custom_template_denotes c ps :
  plain_cdr c → Forall plain_piece ps →
  custom_expand_template (template_text ps) c
    = concat (denote (custom_replacements c ++ numeric_replacements c) <$> ps).
Proof.
  intros Hc Hps. unfold custom_expand_template.
  replace (replace_all (replace_all _ _) _) with
    (replace_all (template_text ps) (custom_replacements c ++ numeric_replacements c))
    by (unfold replace_all; by rewrite foldl_app).
  apply replace_all_denote; [|done]. apply Forall_app. split; [by apply custom_replacements_plain|apply numeric_replacements_plain].
Qed.

(** A value that holds a reference is expanded again: the caller's name decides
    what is logged. *)
Example value_expanded_again :
  custom_expand_template (lit "${CDR(lastapp)}")
    (with_app (cdr_new 0 (lit "SIP/a") []) (lit "${CDR(lastdata)}") (lit "secret")) = lit "secret".
Proof. by vm_compute. Qed.

(** An account code is a path: [..] leaves the directory of the logs. *)
Example account_code_leaves_directory :
  components (path_join (log_dir csv_default) (lit "../../../etc/cron.d/x" ++ lit ".csv"))
    = components (log_dir csv_default) ++ [lit ".."; lit ".."; lit ".."; lit "etc"; lit "cron.d"; lit "x.csv"].
Proof. by vm_compute. Qed.

(** Two calls at once: one is answered after two seconds, the other is refused with
    a cause of congestion, which is not logged. *)
Definition two_calls : list timed :=
  [At 1000 (lit "u1") (Created (lit "SIP/alice") (lit "Alice, A.") (lit "100") (lit "default"));
   At 1500 (lit "u2") (Created (lit "SIP/carol") [] (lit "300") (lit "default"));
   At 2000 (lit "u1") (DialBegin (lit "SIP/bob") (lit "200"));
   At 3000 (lit "u1") Answer;
   At 3100 (lit "u2") (Hangup 34 [] []);
   At 3200 (lit "u1") (UpdateApp (lit "Playback") (QUOTE :: lit "hello,world" ++ [10%N]));
   At 9999 (lit "u1") (Hangup 16 [] [])].

Definition csv_all : CsvCdrConfig :=
  {| log_dir := lit "/var/log"; master_file := lit "Master.csv"; use_gmt := true; account_logs := true;
     log_unique_id := true; log_user_field := true; new_cdr_columns := true |}.

Lemma master_file_reads_as_call_log_witness :
  clock_from 0 two_calls
  ∧ let '(_, w) := engine_run (foldl register_backend (with_config default_config) [csv_backend csv_all])
                   {| files := ∅; refused := ∅ |} two_calls in
    @read_csv (λ x, x) csv_all (default [] (files w !! master_id csv_all))
      = Some (logged csv_all <$> filter (to_log default_config) (call_log [] two_calls)).
Proof.
  assert (clock_from 0 two_calls) as Hc by (repeat split; cbn; lia). split; [exact Hc|].
  apply (@master_file_reads_as_call_log (λ x, x) default_config csv_all 0 two_calls ∅);
    [reflexivity|lia|exact Hc|vm_compute; reflexivity|apply not_elem_of_empty].
Defined.

(** The one record: nine seconds from 1970, seven of them billed. *)
Example two_calls_record :
  (λ c, (dst c, duration c, billsec c, disposition c, last_app c))
    <$> filter (to_log default_config) (call_log [] two_calls)
  = [(lit "200", 8, 6, Answered, lit "Playback")].
Proof. by vm_compute. Qed.
