(* ===== verification/AmiProtocol.v ===== *)
(** * The manager interface: messages ([asterisk-ami/src/protocol.rs], [events.rs])

    Actions, responses and events as the client sees them, and the categories that
    decide who may send and receive them.  Headers live in a [HashMap]; the order in
    which they are written, and which of two keys that differ in case is found
    first, is that of [HashOrder].

    [action_parse_serialize] and [event_parse_serialize] are the wire: what one side
    serializes the other parses back. *)

From Stdlib Require Import NArith ZArith Ascii String.
From S2P Require Import Prelude RustStr HashMap.
Local Open Scope Z_scope.
Local Open Scope list_scope.

Definition CRLF : str := [13%N; 10%N].

(** ** Categories ([events.rs]) *)

Definition EventCategory := Z.

Definition SYSTEM : EventCategory := 1.
Definition CALL : EventCategory := 2.
Definition LOG : EventCategory := 4.
Definition VERBOSE : EventCategory := 8.
Definition COMMAND : EventCategory := 16.
Definition AGENT : EventCategory := 32.
Definition USER : EventCategory := 64.
Definition CONFIG : EventCategory := 128.
Definition DTMF : EventCategory := 256.
Definition REPORTING : EventCategory := 512.
Definition CDR : EventCategory := 1024.
Definition DIALPLAN : EventCategory := 2048.
Definition SECURITY : EventCategory := 4096.
Definition ALL : EventCategory := 8191.
Definition NONE : EventCategory := 0.

Definition category_contains (s o : EventCategory) : bool := negb (Z.land s o =? 0).
Definition category_union (s o : EventCategory) : EventCategory := Z.lor s o.
Definition category_difference (s o : EventCategory) : EventCategory := Z.ldiff s o.

(** The names of single categories, in the order of their bits. *)
Definition category_names : list (EventCategory * str) :=
  [(SYSTEM, lit "system"); (CALL, lit "call"); (LOG, lit "log"); (VERBOSE, lit "verbose");
   (COMMAND, lit "command"); (AGENT, lit "agent"); (USER, lit "user"); (CONFIG, lit "config");
   (DTMF, lit "dtmf"); (REPORTING, lit "reporting"); (CDR, lit "cdr"); (DIALPLAN, lit "dialplan");
   (SECURITY, lit "security")].

Definition category_from_name `{UnicodeCase} (name : str) : option EventCategory :=
  let n := to_lowercase name in
  match List.find (λ cn, str_eqb cn.2 n) category_names with
  | Some cn => Some cn.1
  | None => if str_eqb n (lit "all") then Some ALL else None
  end.

Definition category_as_str (c : EventCategory) : str :=
  match List.find (λ cn, cn.1 =? c) category_names with
  | Some cn => cn.2
  | None => lit "unknown"
  end.

Definition category_parse_list `{UnicodeCase} (x : str) : EventCategory :=
  foldl (λ result name,
    match category_from_name (trim name) with
    | Some cat => category_union result cat
    | None => result
    end) NONE (split (chr ",") x).

(** The [Privilege] header of an event. *)
Definition category_to_privilege (c : EventCategory) : str :=
  let parts := (filter (λ cn, negb (Z.land c cn.1 =? 0)) category_names).*2 in
  match parts with
  | [] => lit "system,all"
  | _ => join (chr ",") parts ++ lit ",all"
  end.

(** ** Messages *)

Record AmiAction := { ac_name : str; ac_action_id : option str; ac_headers : gmap str str }.
Record AmiEvent := { ev_name : str; ev_category : EventCategory; ev_headers : gmap str str }.
Record AmiResponse := {
  rs_success : bool;
  rs_message : str;
  rs_action_id : option str;
  rs_headers : gmap str str;
  rs_output : list str;
  rs_response_value : option str;
  rs_followup_events : list AmiEvent;
}.

#[export] Instance AmiAction_eq_dec : EqDecision AmiAction.
Proof. solve_decision. Defined.
#[export] Instance AmiEvent_eq_dec : EqDecision AmiEvent.
Proof. solve_decision. Defined.
#[export] Instance AmiResponse_eq_dec : EqDecision AmiResponse.
Proof. solve_decision. Defined.

Definition action_new (name : str) : AmiAction :=
  {| ac_name := name; ac_action_id := None; ac_headers := ∅ |}.

Definition set_header (a : AmiAction) (key value : str) : AmiAction :=
  {| ac_name := ac_name a;
     ac_action_id := if eq_ignore_ascii_case key (lit "ActionID") then Some value else ac_action_id a;
     ac_headers := <[key := value]> (ac_headers a) |}.

(** A key and a value of a line; none for a line without a colon. *)
Definition header_of_line (line : str) : option (str * str) :=
  match split_once (chr ":") line with
  | Some (key, value) => Some (trim key, trim value)
  | None => None
  end.

(** The loop of [AmiAction::parse] over the lines. *)
Fixpoint action_lines (ls : list str) (action action_id : option str) (headers : gmap str str)
    : option str * option str * gmap str str :=
  match ls with
  | [] => (action, action_id, headers)
  | line :: ls' =>
      let line := trim_end_char 13%N line in
      if bool_decide (line = []) then (action, action_id, headers)
      else
        match header_of_line line with
        | Some (key, value) =>
            action_lines ls'
              (if eq_ignore_ascii_case key (lit "Action") then Some value else action)
              (if eq_ignore_ascii_case key (lit "ActionID") then Some value else action_id)
              (<[key := value]> headers)
        | None => action_lines ls' action action_id headers
        end
  end.

Definition action_parse (input : str) : option AmiAction :=
  let '(action, action_id, headers) := action_lines (lines input) None None ∅ in
  name ← action;
  Some {| ac_name := name; ac_action_id := action_id; ac_headers := headers |}.

Fixpoint event_lines (ls : list str) (event : option str) (headers : gmap str str)
    : option str * gmap str str :=
  match ls with
  | [] => (event, headers)
  | line :: ls' =>
      let line := trim_end_char 13%N line in
      if bool_decide (line = []) then (event, headers)
      else
        match header_of_line line with
        | Some (key, value) =>
            event_lines ls' (if eq_ignore_ascii_case key (lit "Event") then Some value else event)
              (<[key := value]> headers)
        | None => event_lines ls' event headers
        end
  end.

Definition event_parse (input : str) : option AmiEvent :=
  let '(event, headers) := event_lines (lines input) None ∅ in
  name ← event;
  Some {| ev_name := name; ev_category := 0; ev_headers := headers |}.

(** [read_message]: a complete message and its length in bytes. *)
Definition read_message (buffer : str) : option (str * N) :=
  match find (CRLF ++ CRLF) buffer with
  | Some pos =>
      match split_at buffer (pos + 4)%N with Some (m, _) => Some (m, (pos + 4)%N) | None => None end
  | None => None
  end.

(** A line of a message. *)
Definition header_line (key value : str) : str := key ++ lit ": " ++ value ++ CRLF.

Section order.
Context `{HashOrder}.

(** An exact key first, then the first that differs only in case. *)
Definition get_header (a : AmiAction) (key : str) : option str :=
  match ac_headers a !! key with
  | Some v => Some v
  | None => snd <$> List.find (λ kv, eq_ignore_ascii_case kv.1 key) (hash_iter (ac_headers a))
  end.

Definition header_lines (headers : list (str * str)) : str := headers ≫= λ kv, header_line kv.1 kv.2.

Definition action_serialize (a : AmiAction) : str :=
  header_line (lit "Action") (ac_name a)
  ++ header_lines (filter (λ kv, negb (eq_ignore_ascii_case kv.1 (lit "Action"))) (hash_iter (ac_headers a)))
  ++ CRLF.

Definition event_serialize (e : AmiEvent) : str :=
  header_line (lit "Event") (ev_name e)
  ++ header_line (lit "Privilege") (category_to_privilege (ev_category e))
  ++ header_lines (hash_iter (ev_headers e))
  ++ CRLF.

Definition response_serialize (r : AmiResponse) : str :=
  header_line (lit "Response")
    (match rs_response_value r with
     | Some custom => custom
     | None => if rs_success r then lit "Success" else lit "Error"
     end)
  ++ (match rs_action_id r with Some id => header_line (lit "ActionID") id | None => [] end)
  ++ (if bool_decide (rs_message r = []) then [] else header_line (lit "Message") (rs_message r))
  ++ header_lines (hash_iter (rs_headers r))
  ++ (if bool_decide (rs_output r = []) then []
      else lit "Output: follows" ++ CRLF ++ (rs_output r ≫= λ line, line ++ CRLF)
           ++ lit "--END COMMAND--" ++ CRLF)
  ++ CRLF
  ++ (rs_followup_events r ≫= event_serialize).
End order.

(** ** Responses and events, built *)

Definition response_success (message : str) : AmiResponse :=
  {| rs_success := true; rs_message := message; rs_action_id := None; rs_headers := ∅;
     rs_output := []; rs_response_value := None; rs_followup_events := [] |}.
Definition response_error (message : str) : AmiResponse :=
  {| rs_success := false; rs_message := message; rs_action_id := None; rs_headers := ∅;
     rs_output := []; rs_response_value := None; rs_followup_events := [] |}.
Definition with_response_value (r : AmiResponse) (value : str) : AmiResponse :=
  {| rs_success := rs_success r; rs_message := rs_message r; rs_action_id := rs_action_id r;
     rs_headers := rs_headers r; rs_output := rs_output r; rs_response_value := Some value;
     rs_followup_events := rs_followup_events r |}.
Definition with_followup_events (r : AmiResponse) (events : list AmiEvent) : AmiResponse :=
  {| rs_success := rs_success r; rs_message := rs_message r; rs_action_id := rs_action_id r;
     rs_headers := rs_headers r; rs_output := rs_output r; rs_response_value := rs_response_value r;
     rs_followup_events := events |}.
Definition add_followup_event (r : AmiResponse) (e : AmiEvent) : AmiResponse :=
  with_followup_events r (rs_followup_events r ++ [e]).
Definition with_action_id (r : AmiResponse) (id : option str) : AmiResponse :=
  {| rs_success := rs_success r; rs_message := rs_message r; rs_action_id := id;
     rs_headers := rs_headers r; rs_output := rs_output r; rs_response_value := rs_response_value r;
     rs_followup_events := rs_followup_events r |}.
Definition with_header (r : AmiResponse) (key value : str) : AmiResponse :=
  {| rs_success := rs_success r; rs_message := rs_message r; rs_action_id := rs_action_id r;
     rs_headers := <[key := value]> (rs_headers r); rs_output := rs_output r;
     rs_response_value := rs_response_value r; rs_followup_events := rs_followup_events r |}.
Definition with_output (r : AmiResponse) (ls : list str) : AmiResponse :=
  {| rs_success := rs_success r; rs_message := rs_message r; rs_action_id := rs_action_id r;
     rs_headers := rs_headers r; rs_output := ls; rs_response_value := rs_response_value r;
     rs_followup_events := rs_followup_events r |}.

Definition event_new (name : str) (c : EventCategory) : AmiEvent :=
  {| ev_name := name; ev_category := c; ev_headers := ∅ |}.
Definition event_with_header (e : AmiEvent) (key value : str) : AmiEvent :=
  {| ev_name := ev_name e; ev_category := ev_category e; ev_headers := <[key := value]> (ev_headers e) |}.
Definition event_add_headers (e : AmiEvent) (hs : list (str * str)) : AmiEvent :=
  foldl (λ e kv, event_with_header e kv.1 kv.2) e hs.
Definition new_with_headers (name : str) (hs : list (str * str)) : AmiEvent :=
  event_add_headers (event_new name 67) hs.
Definition new_with_headers_cat (name : str) (c : EventCategory) (hs : list (str * str)) : AmiEvent :=
  event_add_headers (event_new name c) hs.

(** [EventBuilder] *)
Definition new_channel (chan st desc num cname acc uid linked : str) : AmiEvent :=
  event_add_headers (event_new (lit "Newchannel") CALL)
    [(lit "Channel", chan); (lit "ChannelState", st); (lit "ChannelStateDesc", desc);
     (lit "CallerIDNum", num); (lit "CallerIDName", cname); (lit "AccountCode", acc);
     (lit "Uniqueid", uid); (lit "Linkedid", linked)].
Definition hangup_event (chan uid : str) (cause : Z) (txt : str) : AmiEvent :=
  event_add_headers (event_new (lit "Hangup") CALL)
    [(lit "Channel", chan); (lit "Uniqueid", uid); (lit "Cause", show_int cause); (lit "Cause-txt", txt)].
Definition new_state (chan st desc uid : str) : AmiEvent :=
  event_add_headers (event_new (lit "Newstate") CALL)
    [(lit "Channel", chan); (lit "ChannelState", st); (lit "ChannelStateDesc", desc); (lit "Uniqueid", uid)].
Definition dial_event (sub chan dest num cname uid dest_uid ds : str) : AmiEvent :=
  event_add_headers (event_new (lit "Dial") CALL)
    [(lit "SubEvent", sub); (lit "Channel", chan); (lit "Destination", dest); (lit "CallerIDNum", num);
     (lit "CallerIDName", cname); (lit "Uniqueid", uid); (lit "DestUniqueid", dest_uid); (lit "Dialstring", ds)].
Definition bridge_enter_event (buid btype chan uid : str) : AmiEvent :=
  event_add_headers (event_new (lit "BridgeEnter") CALL)
    [(lit "BridgeUniqueid", buid); (lit "BridgeType", btype); (lit "Channel", chan); (lit "Uniqueid", uid)].
Definition bridge_leave_event (buid chan uid : str) : AmiEvent :=
  event_add_headers (event_new (lit "BridgeLeave") CALL)
    [(lit "BridgeUniqueid", buid); (lit "Channel", chan); (lit "Uniqueid", uid)].
Definition dtmf_begin_event (chan uid : str) (digit : char) (dir : str) : AmiEvent :=
  event_add_headers (event_new (lit "DTMFBegin") DTMF)
    [(lit "Channel", chan); (lit "Uniqueid", uid); (lit "Digit", [digit]); (lit "Direction", dir)].
Definition dtmf_end_event (chan uid : str) (digit : char) (ms : Z) (dir : str) : AmiEvent :=
  event_add_headers (event_new (lit "DTMFEnd") DTMF)
    [(lit "Channel", chan); (lit "Uniqueid", uid); (lit "Digit", [digit]); (lit "DurationMs", show_int ms);
     (lit "Direction", dir)].
Definition var_set_event (chan uid var value : str) : AmiEvent :=
  event_add_headers (event_new (lit "VarSet") DIALPLAN)
    [(lit "Channel", chan); (lit "Uniqueid", uid); (lit "Variable", var); (lit "Value", value)].
Definition peer_status_event (ctype peer status : str) : AmiEvent :=
  event_add_headers (event_new (lit "PeerStatus") SYSTEM)
    [(lit "ChannelType", ctype); (lit "Peer", peer); (lit "PeerStatus", status)].
Definition queue_member_status_event (queue member intf : str) (status : Z) (paused : bool) : AmiEvent :=
  event_add_headers (event_new (lit "QueueMemberStatus") AGENT)
    [(lit "Queue", queue); (lit "MemberName", member); (lit "Interface", intf); (lit "Status", show_int status);
     (lit "Paused", if paused then lit "1" else lit "0")].
Definition fully_booted_event : AmiEvent :=
  event_add_headers (event_new (lit "FullyBooted") SYSTEM) [(lit "Status", lit "Fully Booted")].
Definition shutdown_event (restart : bool) : AmiEvent :=
  event_add_headers (event_new (lit "Shutdown") SYSTEM)
    [(lit "Shutdown", if restart then lit "Cleanly" else lit "Uncleanly");
     (lit "Restart", if restart then lit "True" else lit "False")].
Definition user_event `{HashOrder} (name : str) (hs : gmap str str) : AmiEvent :=
  event_add_headers (event_new (lit "UserEvent" ++ name) USER) (hash_iter hs).

(** ** Messages are read back *)

(** Texts a header can carry: no line break, no space at either end. *)
Definition line_text (s : str) : Prop := trimmed s = true ∧ (13%N ∉ s) ∧ (10%N ∉ s).
Definition header_ok (kv : str * str) : Prop := line_text kv.1 ∧ (chr ":" ∉ kv.1) ∧ line_text kv.2.

Lemma lines_crlf x rest : (13%N ∉ x) → (10%N ∉ x) → lines (x ++ CRLF ++ rest) = x :: lines rest.
Proof.
  intros Hr Hn. unfold lines.
  replace (x ++ CRLF ++ rest) with ((x ++ [13%N]) ++ 10%N :: rest) by (by rewrite <-app_assoc).
  rewrite split_app by set_solver.
  destruct (split 10 rest) as [|p ps] eqn:E; [by apply split_nonempty in E|].
  change (line_pieces ((x ++ [13%N]) :: p :: ps))
    with (default (x ++ [13%N]) (strip_suffix [13%N] (x ++ [13%N])) :: line_pieces (p :: ps)).
  by rewrite strip_suffix_app.
Qed.

Lemma header_of_line_ok kv : header_ok kv → header_of_line (kv.1 ++ lit ": " ++ kv.2) = Some kv.
Proof.
  destruct kv as [k v]. intros ([Hk _] & Hc & [Hv _]). unfold header_of_line. cbn [fst snd] in *.
  assert (split_once (chr ":") (k ++ lit ": " ++ v) = Some (k, chr " " :: v)) as ->.
  { apply split_once_Some. done. }
  rewrite (trim_trimmed k) by done. f_equal. f_equal.
  rewrite <-(app_nil_r v) at 1. by apply (trim_padded (lit " ") v []).
Qed.

Lemma header_text_ok kv : header_ok kv →
  let line := kv.1 ++ lit ": " ++ kv.2 in
  (13%N ∉ line) ∧ (10%N ∉ line) ∧ line ≠ [] ∧ trim_end_char 13%N line = line.
Proof.
  destruct kv as [k v]. intros ((_ & Hk1 & Hk2) & _ & (_ & Hv1 & Hv2)). cbn.
  assert (13%N ∉ k ++ 58%N :: 32%N :: v) by set_solver.
  split_and!; [done|set_solver|by destruct k|by apply trim_end_char_id].
Qed.

Lemma action_lines_header kv rest a i h :
  header_ok kv →
  action_lines (lines (header_line kv.1 kv.2 ++ rest)) a i h =
    action_lines (lines rest)
      (if eq_ignore_ascii_case kv.1 (lit "Action") then Some kv.2 else a)
      (if eq_ignore_ascii_case kv.1 (lit "ActionID") then Some kv.2 else i) (<[kv.1 := kv.2]> h).
Proof.
  intros Hkv. destruct (header_text_ok kv Hkv) as (H13 & H10 & Hne & Ht). 
  replace (header_line kv.1 kv.2 ++ rest) with ((kv.1 ++ lit ": " ++ kv.2) ++ CRLF ++ rest)
    by (unfold header_line; by rewrite <-!app_assoc).
  rewrite lines_crlf by done.
  cbn [action_lines]. rewrite Ht, bool_decide_false by done. rewrite header_of_line_ok by done. by destruct kv.
Qed.

Lemma event_lines_header kv rest ev h :
  header_ok kv →
  event_lines (lines (header_line kv.1 kv.2 ++ rest)) ev h =
    event_lines (lines rest) (if eq_ignore_ascii_case kv.1 (lit "Event") then Some kv.2 else ev) (<[kv.1 := kv.2]> h).
Proof.
  intros Hkv. destruct (header_text_ok kv Hkv) as (H13 & H10 & Hne & Ht). 
  replace (header_line kv.1 kv.2 ++ rest) with ((kv.1 ++ lit ": " ++ kv.2) ++ CRLF ++ rest)
    by (unfold header_line; by rewrite <-!app_assoc).
  rewrite lines_crlf by done.
  cbn [event_lines]. rewrite Ht, bool_decide_false by done. rewrite header_of_line_ok by done. by destruct kv.
Qed.

Definition insert_all (h : gmap str str) (hs : list (str * str)) : gmap str str :=
  foldl (λ m kv, <[kv.1 := kv.2]> m) h hs.
Definition last_value (key : str) (v : option str) (hs : list (str * str)) : option str :=
  foldl (λ v kv, if eq_ignore_ascii_case kv.1 key then Some kv.2 else v) v hs.

Lemma action_lines_headers hs rest a i h :
  Forall header_ok hs →
  action_lines (lines (header_lines hs ++ CRLF ++ rest)) a i h =
    (last_value (lit "Action") a hs, last_value (lit "ActionID") i hs, insert_all h hs).
Proof.
  intros Hhs. revert a i h. induction Hhs as [|kv hs Hkv _ IH]; intros a i h.
  - change (header_lines [] ++ CRLF ++ rest) with ([] ++ CRLF ++ rest). by rewrite lines_crlf by set_solver.
  - unfold header_lines in *. cbn [mbind list_bind]. rewrite <-app_assoc, action_lines_header by done. apply IH.
Qed.

Lemma event_lines_headers hs rest ev h :
  Forall header_ok hs →
  event_lines (lines (header_lines hs ++ CRLF ++ rest)) ev h = (last_value (lit "Event") ev hs, insert_all h hs).
Proof.
  intros Hhs. revert ev h. induction Hhs as [|kv hs Hkv _ IH]; intros ev h.
  - change (header_lines [] ++ CRLF ++ rest) with ([] ++ CRLF ++ rest). by rewrite lines_crlf by set_solver.
  - unfold header_lines in *. cbn [mbind list_bind]. rewrite <-app_assoc, event_lines_header by done. apply IH.
Qed.

Lemma insert_all_union h hs : NoDup hs.*1 → insert_all h hs = list_to_map hs ∪ h.
Proof.
  intros Hnd. rewrite <-(foldl_insert_to_map hs Hnd). clear Hnd. unfold insert_all.
  induction hs as [|kv hs IH] using rev_ind; [cbn; by rewrite map_empty_union|].
  by rewrite !foldl_snoc, IH, insert_union_l.
Qed.

Lemma last_value_none key v hs :
  Forall (λ kv, eq_ignore_ascii_case kv.1 key = false) hs → last_value key v hs = v.
Proof. unfold last_value. intros Hhs. revert v. induction Hhs as [|kv hs Hkv _ IH]; intros v; cbn; [done|]. by rewrite Hkv. Qed.

Lemma last_value_some key v hs w :
  last_value key v hs = Some w → v = Some w ∨ ∃ kv, kv ∈ hs ∧ eq_ignore_ascii_case kv.1 key = true ∧ kv.2 = w.
Proof.
  unfold last_value. induction hs as [|kv hs IH] using rev_ind; [by left|]. rewrite foldl_snoc.
  destruct (eq_ignore_ascii_case kv.1 key) eqn:E.
  - intros [= <-]. right. exists kv. set_solver.
  - intros Hl. destruct (IH Hl) as [|(kv' & ? & ?)]; [by left|]. right. exists kv'. set_solver.
Qed.

Lemma last_value_found key v hs kv :
  kv ∈ hs → eq_ignore_ascii_case kv.1 key = true → is_Some (last_value key v hs).
Proof.
  unfold last_value. intros Hin Hkv. induction hs as [|kv' hs IH] using rev_ind; [by apply elem_of_nil in Hin|].
  rewrite foldl_snoc. destruct (eq_ignore_ascii_case kv'.1 key) eqn:E; [by eexists|].
  apply elem_of_app in Hin as [Hin|Hin%list_elem_of_singleton]; [by apply IH|]. subst kv'. congruence.
Qed.

Section wire.
Context `{HashOrder}.

(** An action a client can send: texts of a line, no second Action header, and an
    action id exactly when there is a header for it. *)
Record action_ok (a : AmiAction) : Prop := {
  ok_name : line_text (ac_name a);
  ok_headers : map_Forall (λ k v, header_ok (k, v) ∧ eq_ignore_ascii_case k (lit "Action") = false) (ac_headers a);
  ok_id : match ac_action_id a with
          | Some v => ∃ k, eq_ignore_ascii_case k (lit "ActionID") = true ∧ ac_headers a !! k = Some v
                      ∧ ∀ k' v', eq_ignore_ascii_case k' (lit "ActionID") = true → ac_headers a !! k' = Some v' → v' = v
          | None => map_Forall (λ k v, eq_ignore_ascii_case k (lit "ActionID") = false) (ac_headers a)
          end;
}.

(** What the server makes of it: the name is among the headers. *)
Definition received (a : AmiAction) : AmiAction :=
  {| ac_name := ac_name a; ac_action_id := ac_action_id a;
     ac_headers := <[lit "Action" := ac_name a]> (ac_headers a) |}.

Lemma hash_iter_Forall {V} (P : str → V → Prop) (m : gmap str V) :
  map_Forall P m → Forall (λ kv, P kv.1 kv.2) (hash_iter m).
Proof. intros Hm. apply Forall_forall. intros [k v] Hkv. by apply Hm, elem_of_hash_iter. Qed.

Lemma filter_true_id {A} (f : A → bool) (l : list A) : Forall (λ x, f x = true) l → filter (λ x, f x) l = l.
Proof.
  induction 1 as [|x l Hx _ IH]; [done|]. rewrite filter_cons_True by (by rewrite Hx). by rewrite IH.
Qed.

Lemma action_parse_serialize a rest : action_ok a → action_parse (action_serialize a ++ rest) = Some (received a).
Proof.
  intros [Hn Hh Hid]. unfold action_parse, action_serialize.
  set (hs := hash_iter (ac_headers a)).
  assert (Forall (λ kv, header_ok kv ∧ eq_ignore_ascii_case kv.1 (lit "Action") = false) hs) as Hhs.
  { eapply Forall_impl; [by apply (hash_iter_Forall _ _ Hh)|]. by intros [k v]. }
  rewrite filter_true_id by (eapply Forall_impl; [exact Hhs|]; intros kv [_ E]; by rewrite E).
  rewrite <-!app_assoc.
  assert (header_ok (lit "Action", ac_name a)) as Hok by (split_and!; [..|done]; by apply (bool_decide_unpack _); vm_compute).
  rewrite (action_lines_header (lit "Action", ac_name a)) by done.
  rewrite action_lines_headers by (eapply Forall_impl; [exact Hhs|]; by intros kv [? _]).
  cbn [fst snd]. rewrite (last_value_none (lit "Action")) by (eapply Forall_impl; [exact Hhs|]; by intros kv [_ ?]).
  change (eq_ignore_ascii_case (lit "Action") (lit "Action")) with true.
  change (eq_ignore_ascii_case (lit "Action") (lit "ActionID")) with false. cbn [mbind option_bind].
  unfold received. do 2 f_equal.
  - destruct (ac_action_id a) as [w|].
    + destruct Hid as (k & Hk & Hin & Huniq).
      destruct (last_value_found (lit "ActionID") None hs (k, w)) as [v Hv]; [by apply elem_of_hash_iter|done|].
      rewrite Hv. f_equal. destruct (last_value_some _ _ _ _ Hv) as [|([k' v'] & Hin' & Hk' & <-)]; [done|].
      by apply (Huniq k' v'), elem_of_hash_iter.
    + apply last_value_none. eapply Forall_impl; [by apply (hash_iter_Forall _ _ Hid)|]. done.
  - rewrite insert_all_union by apply hash_iter_NoDup. unfold hs. rewrite hash_iter_to_map.
    rewrite insert_empty. symmetry. apply insert_union_singleton_r.
    destruct (ac_headers a !! lit "Action") as [v|] eqn:E; [|done]. by destruct (Hh _ _ E) as [_ ?].
Qed.

(** An event a client can read back; its category is only in the privilege. *)
Record event_ok (e : AmiEvent) : Prop := {
  ev_ok_name : line_text (ev_name e);
  ev_ok_headers : map_Forall (λ k v, header_ok (k, v) ∧ eq_ignore_ascii_case k (lit "Event") = false
                                     ∧ k ≠ lit "Privilege") (ev_headers e);
}.

Definition received_event (e : AmiEvent) : AmiEvent :=
  {| ev_name := ev_name e; ev_category := 0;
     ev_headers := <[lit "Event" := ev_name e]> (<[lit "Privilege" := category_to_privilege (ev_category e)]> (ev_headers e)) |}.

Lemma privilege_text c : line_text (category_to_privilege c).
Proof.
  assert (∀ x, (∀ ch, ch ∈ x → (97 ≤ Z.of_N ch ≤ 122) ∨ ch = chr ",") → line_text x) as Hx.
  { intros x Hx. split_and!.
    - apply trimmed_no_ws. intros ch Hch. unfold is_whitespace. destruct (Hx ch Hch) as [?| ->]; [|done].
      repeat (apply orb_false_iff; split); rewrite ?andb_false_iff, ?N.leb_gt, ?N.eqb_neq; lia.
    - intros Hch. destruct (Hx _ Hch); [lia|done].
    - intros Hch. destruct (Hx _ Hch); [lia|done]. }
  apply Hx. intros ch. unfold category_to_privilege.
  set (parts := (filter _ category_names).*2).
  assert (∀ p, p ∈ parts → ∀ ch, ch ∈ p → 97 ≤ Z.of_N ch ≤ 122) as Hp.
  { intros p [[c' n] [-> [_ Hin]%list_elem_of_filter]]%list_elem_of_fmap ch'. cbn.
    assert (Forall (λ cn, Forall (λ ch, 97 ≤ Z.of_N ch ≤ 122) cn.2) category_names) as Hn
      by (by apply (bool_decide_unpack _); vm_compute).
    rewrite Forall_forall in Hn. specialize (Hn _ Hin). rewrite Forall_forall in Hn. apply Hn. }
  assert (∀ s, bool_decide (Forall (λ ch, (97 ≤ Z.of_N ch ≤ 122) ∨ ch = chr ",") s) = true → ch ∈ s →
    (97 ≤ Z.of_N ch ≤ 122) ∨ ch = chr ",") as Hlit.
  { intros s Hs Hin. apply bool_decide_eq_true in Hs. rewrite Forall_forall in Hs. by apply Hs. }
  destruct parts as [|p ps] eqn:E; [by apply Hlit; vm_compute|].
  intros [Hj|Hl]%elem_of_app; [|revert Hl; by apply Hlit; vm_compute].
  apply elem_of_join in Hj as [->|(p' & Hin & Hch)]; [by right|]. left. by eapply Hp.
Qed.

(** Events, too, are read back. *)
Lemma event_parse_serialize e rest : event_ok e → event_parse (event_serialize e ++ rest) = Some (received_event e).
Proof.
  intros [Hn Hh]. unfold event_parse, event_serialize. set (hs := hash_iter (ev_headers e)).
  assert (Forall (λ kv, header_ok kv ∧ eq_ignore_ascii_case kv.1 (lit "Event") = false ∧ kv.1 ≠ lit "Privilege") hs) as Hhs.
  { eapply Forall_impl; [by apply (hash_iter_Forall _ _ Hh)|]. by intros [k v]. }
  rewrite <-!app_assoc.
  assert (header_ok (lit "Event", ev_name e)) as Hok by (split_and!; [..|done]; by apply (bool_decide_unpack _); vm_compute).
  assert (header_ok (lit "Privilege", category_to_privilege (ev_category e))) as Hok'
    by (split_and!; [..|apply privilege_text]; by apply (bool_decide_unpack _); vm_compute).
  rewrite (event_lines_header (lit "Event", ev_name e)) by done.
  rewrite (event_lines_header (lit "Privilege", category_to_privilege (ev_category e))) by done.
  rewrite event_lines_headers by (eapply Forall_impl; [exact Hhs|]; by intros kv [? _]).
  cbn [fst snd]. rewrite (last_value_none (lit "Event")) by (eapply Forall_impl; [exact Hhs|]; by intros kv (_ & ? & _)).
  change (eq_ignore_ascii_case (lit "Event") (lit "Event")) with true.
  change (eq_ignore_ascii_case (lit "Privilege") (lit "Event")) with false. cbn [mbind option_bind].
  unfold received_event. do 2 f_equal.
  rewrite insert_all_union by apply hash_iter_NoDup. unfold hs. rewrite hash_iter_to_map.
  apply map_eq. intros k. rewrite lookup_union, insert_empty, !lookup_insert, lookup_singleton.
  destruct (ev_headers e !! k) as [v|] eqn:E.
  - destruct (Hh _ _ E) as (_ & H1 & H2). assert (lit "Event" ≠ k) by (by intros <-). repeat case_decide; first [done|congruence].
  - repeat case_decide; first [done|congruence].
Qed.
End wire.
