(* ===== verification/Ami.v ===== *)
(** * The manager interface: users, sessions and actions ([asterisk-ami/src/auth.rs],
      [rate_limit.rs], [session.rs], [actions.rs])

    Who may do what.  A session logs in with a password or the answer to a
    challenge, under the limit on failed logins; [dispatch] runs the handler of an
    action only for who may run it.  The handlers that change the session are
    defined here; those that act on the rest of the system and never look at the
    session are the argument [other], on a state [W].

    A login is two steps of the limiter, the check and the record of its outcome:
    [handle_login] is the two in a row, [manager_step] has them apart, for the
    logins of all connections ([handle_login_is_a_run] relates them).

    Every handler takes what it reads from outside as an [env]: the users, the
    clock, and the challenge it would make.  The limiter and the state [W] are
    shared with other sessions, so a run of one session takes them anew at every
    step. *)

From Stdlib Require Import NArith ZArith Ascii String.
From S2P Require Import Prelude RustStr HashMap NetAddr AmiProtocol.
Local Open Scope Z_scope.
Local Open Scope list_scope.

(** ** Users ([auth.rs]) *)

Record AmiUser := {
  username : str;
  secret : str;
  user_read_perm : EventCategory;
  user_write_perm : EventCategory;
  display_connects : bool;
  allow_multiple_login : bool;
}.

Definition user_new (name sec : str) : AmiUser :=
  {| username := name; secret := sec; user_read_perm := ALL; user_write_perm := ALL;
     display_connects := true; allow_multiple_login := true |}.
Definition user_with_permissions (name sec : str) (r w : EventCategory) : AmiUser :=
  {| username := name; secret := sec; user_read_perm := r; user_write_perm := w;
     display_connects := true; allow_multiple_login := true |}.
Definition can_read (u : AmiUser) (c : EventCategory) : bool := category_contains (user_read_perm u) c.
Definition can_write (u : AmiUser) (c : EventCategory) : bool := category_contains (user_write_perm u) c.

Abbreviation UserRegistry := (gmap str AmiUser) (only parsing).
Definition add_user (r : UserRegistry) (u : AmiUser) : UserRegistry := <[username u := u]> r.
Definition remove_user (r : UserRegistry) (name : str) : bool * UserRegistry :=
  (bool_decide (is_Some (r !! name)), delete name r).
Definition find_user (r : UserRegistry) (name : str) : option AmiUser := r !! name.

(** The MD5 digest of the octets of a text, in lower-case hexadecimal. *)
Class Md5Hex := md5_of : str → str.

Definition verify_plaintext (u : AmiUser) (guess : str) : bool := str_eqb (secret u) guess.
Definition compute_md5_response `{Md5Hex} (challenge sec : str) : str := md5_of (challenge ++ sec).
Definition verify_md5_response `{Md5Hex} (challenge sec response : str) : bool :=
  str_eqb (compute_md5_response challenge sec) (to_ascii_lowercase response).

(** ** The limit on failed logins ([rate_limit.rs]) *)

Record LoginRateLimitConfig := {
  max_failures : Z;
  window : Z;
  block_duration : Z;
  limit_enabled : bool;
}.

Definition default_limit : LoginRateLimitConfig :=
  {| max_failures := 5; window := 60000; block_duration := 60000; limit_enabled := true |}.

Record Attempts := { failures : Z; window_start : Z; blocked_until : option Z }.

Record LoginRateLimiter := { limit_config : LoginRateLimitConfig; by_ip : gmap IpAddr Attempts }.

Definition limiter_with_config (c : LoginRateLimitConfig) : LoginRateLimiter :=
  {| limit_config := c; by_ip := ∅ |}.
Definition set_by_ip (l : LoginRateLimiter) (m : gmap IpAddr Attempts) : LoginRateLimiter :=
  {| limit_config := limit_config l; by_ip := m |}.

(** [check]: the time left when the source is blocked. *)
Definition limit_check (l : LoginRateLimiter) (now : Z) (ip : IpAddr) : result Z unit * LoginRateLimiter :=
  if negb (limit_enabled (limit_config l)) then (Ok tt, l)
  else
    match by_ip l !! ip with
    | Some entry =>
        match blocked_until entry with
        | Some until =>
            if now <? until then (Err (until - now), l)
            else (Ok tt, set_by_ip l (<[ip := {| failures := 0; window_start := now; blocked_until := None |}]> (by_ip l)))
        | None => (Ok tt, l)
        end
    | None => (Ok tt, l)
    end.

Definition record_failure (l : LoginRateLimiter) (now : Z) (ip : IpAddr) : LoginRateLimiter :=
  if negb (limit_enabled (limit_config l)) then l
  else
    let fresh := {| failures := 0; window_start := now; blocked_until := None |} in
    let entry := default fresh (by_ip l !! ip) in
    let entry := if window (limit_config l) <? Z.max 0 (now - window_start entry) then fresh else entry in
    let n := wrap_u32 (failures entry + 1) in
    let entry :=
      {| failures := n; window_start := window_start entry;
         blocked_until := if max_failures (limit_config l) <=? n
                          then Some (now + block_duration (limit_config l)) else blocked_until entry |} in
    set_by_ip l (<[ip := entry]> (by_ip l)).

Definition record_success (l : LoginRateLimiter) (ip : IpAddr) : LoginRateLimiter :=
  set_by_ip l (delete ip (by_ip l)).

Definition is_blocked (l : LoginRateLimiter) (now : Z) (ip : IpAddr) : bool :=
  match (limit_check l now ip).1 with Err _ => true | Ok _ => false end.

(** ** Sessions ([session.rs]) *)

Record AmiSession := {
  addr_ip : IpAddr;
  authenticated : bool;
  session_user : option str;
  read_perm : EventCategory;
  write_perm : EventCategory;
  event_filter : EventCategory;
  challenge : option str;
  events_enabled : bool;
}.

Definition session_new (ip : IpAddr) : AmiSession :=
  {| addr_ip := ip; authenticated := false; session_user := None; read_perm := NONE; write_perm := NONE;
     event_filter := ALL; challenge := None; events_enabled := true |}.

Definition authenticate (s : AmiSession) (u : AmiUser) : AmiSession :=
  {| addr_ip := addr_ip s; authenticated := true; session_user := Some (username u);
     read_perm := user_read_perm u; write_perm := user_write_perm u; event_filter := event_filter s;
     challenge := challenge s; events_enabled := events_enabled s |}.

Definition set_challenge (s : AmiSession) (c : option str) : AmiSession :=
  {| addr_ip := addr_ip s; authenticated := authenticated s; session_user := session_user s;
     read_perm := read_perm s; write_perm := write_perm s; event_filter := event_filter s;
     challenge := c; events_enabled := events_enabled s |}.

Definition log_off (s : AmiSession) : AmiSession :=
  {| addr_ip := addr_ip s; authenticated := false; session_user := None;
     read_perm := read_perm s; write_perm := write_perm s; event_filter := event_filter s;
     challenge := challenge s; events_enabled := events_enabled s |}.

Definition set_event_filter (s : AmiSession) (c : EventCategory) : AmiSession :=
  {| addr_ip := addr_ip s; authenticated := authenticated s; session_user := session_user s;
     read_perm := read_perm s; write_perm := write_perm s; event_filter := c;
     challenge := challenge s; events_enabled := events_enabled s |}.

Definition set_events_enabled (s : AmiSession) (b : bool) : AmiSession :=
  {| addr_ip := addr_ip s; authenticated := authenticated s; session_user := session_user s;
     read_perm := read_perm s; write_perm := write_perm s; event_filter := event_filter s;
     challenge := challenge s; events_enabled := b |}.

Definition should_receive_event (s : AmiSession) (e : AmiEvent) : bool :=
  if negb (authenticated s) || negb (events_enabled s) then false
  else category_contains (read_perm s) (ev_category e) && category_contains (event_filter s) (ev_category e).

(** ** Actions ([actions.rs]) *)

Inductive ActionAuthority := Preauth | ReadOnly | Write (c : EventCategory).
#[export] Instance ActionAuthority_eq_dec : EqDecision ActionAuthority.
Proof. unfold EqDecision, Decision, EventCategory. decide equality. apply Z.eq_dec. Defined.

(** The table of authorities, by groups of names. *)
Definition preauth_actions : list str := [lit "login"; lit "challenge"].
Definition command_actions : list str := [lit "command"].
Definition config_actions : list str := [lit "updateconfig"].
Definition system_actions : list str := [lit "originate"; lit "pjsipnotify"; lit "pjsipqualify"].
Definition agent_actions : list str := [lit "queueadd"; lit "queueremove"; lit "queuepause"].
Definition call_actions : list str :=
  [lit "redirect"; lit "hangup"; lit "bridge"; lit "park"; lit "setvar"; lit "atxfer"; lit "sendtext";
   lit "confbridgekick"; lit "confbridgemute"].
Definition readonly_actions : list str :=
  [lit "logoff"; lit "ping"; lit "events"; lit "corestatus"; lit "coresettings"; lit "coreshowchannels";
   lit "status"; lit "getconfig"; lit "getvar"; lit "listcategories"; lit "listcommands"; lit "rtpstats";
   lit "showdialplan"; lit "queuestatus"; lit "meetmelist"; lit "confbridgelist"; lit "waitfullybooted";
   lit "pjsipshowendpoints"; lit "pjsipshowendpoint"; lit "pjsipshowregistrationsinbound";
   lit "pjsipshowregistrationsoutbound"].

Definition action_authority (name : str) : option ActionAuthority :=
  if bool_decide (name ∈ preauth_actions) then Some Preauth
  else if bool_decide (name ∈ command_actions) then Some (Write COMMAND)
  else if bool_decide (name ∈ config_actions) then Some (Write CONFIG)
  else if bool_decide (name ∈ system_actions) then Some (Write SYSTEM)
  else if bool_decide (name ∈ agent_actions) then Some (Write AGENT)
  else if bool_decide (name ∈ call_actions) then Some (Write CALL)
  else if bool_decide (name ∈ readonly_actions) then Some ReadOnly
  else None.

(** What a handler reads from outside: the users, the monotonic clock, the time of
    day in seconds, and the random challenge it would make. *)
Record env := { users : UserRegistry; now : Z; unix_time : Z; new_challenge : str }.

Section handlers.
Context `{UnicodeCase, HashOrder, Md5Hex} {W : Type}.

(** What a handler changes. *)
Record ctx := mkCtx { session : AmiSession; limiter : LoginRateLimiter; outside : W }.

Definition set_session (c : ctx) (s : AmiSession) : ctx := mkCtx s (limiter c) (outside c).
Definition set_limiter (c : ctx) (l : LoginRateLimiter) : ctx := mkCtx (session c) l (outside c).

Definition ActionHandler : Type := env → AmiAction → ctx → AmiResponse * ctx.

(** A login refused for its credentials. *)
Definition login_failed (e : env) (c : ctx) (message : str) : AmiResponse * ctx :=
  (response_error message, set_limiter c (record_failure (limiter c) (now e) (addr_ip (session c)))).

Definition login_accepted (c : ctx) (u : AmiUser) : AmiResponse * ctx :=
  (response_success (lit "Authentication accepted"),
   mkCtx (authenticate (session c) u) (record_success (limiter c) (addr_ip (session c))) (outside c)).

(** What follows the check of the limiter: the login is judged and the limiter told. *)
Definition login_judge : ActionHandler := λ e action c,
  match get_header action (lit "Username") with
  | None => (response_error (lit "Username is required"), c)
  | Some name =>
      match find_user (users e) name with
      | None => login_failed e c (lit "Authentication failed")
      | Some user =>
          match get_header action (lit "Key") with
          | Some key =>
              match challenge (session c) with
              | Some ch =>
                  let c := set_session c (set_challenge (session c) None) in
                  if verify_md5_response ch (secret user) key then login_accepted c user
                  else login_failed e c (lit "Authentication failed")
              | None => login_failed e c (lit "No challenge sent")
              end
          | None =>
              match get_header action (lit "Secret") with
              | None => (response_error (lit "Secret is required"), c)
              | Some guess =>
                  if verify_plaintext user guess then login_accepted c user
                  else login_failed e c (lit "Authentication failed")
              end
          end
      end
  end.

(** The answer to a login of a source that is blocked. *)
Definition login_throttled : AmiResponse := response_error (lit "Login rate exceeded, try again later").

Definition handle_login : ActionHandler := λ e action c,
  match limit_check (limiter c) (now e) (addr_ip (session c)) with
  | (Err _, l) => (login_throttled, set_limiter c l)
  | (Ok _, l) => login_judge e action (set_limiter c l)
  end.

Definition handle_logoff : ActionHandler := λ e action c,
  (with_response_value (response_success (lit "Thanks for all the fish.")) (lit "Goodbye"),
   set_session c (log_off (session c))).

Definition handle_challenge : ActionHandler := λ e action c,
  let auth_type := default (lit "md5") (get_header action (lit "AuthType")) in
  if negb (eq_ignore_ascii_case auth_type (lit "md5"))
  then (response_error (lit "Must specify AuthType: md5"), c)
  else (with_header (response_success (lit "Challenge sent")) (lit "Challenge") (new_challenge e),
        set_session c (set_challenge (session c) (Some (new_challenge e)))).

Definition handle_ping : ActionHandler := λ e action c,
  (with_header (with_header (response_success (lit "Pong")) (lit "Ping") (lit "Pong"))
     (lit "Timestamp") (show_int (unix_time e)), c).

Definition handle_events : ActionHandler := λ e action c,
  match get_header action (lit "EventMask") with
  | None => (response_error (lit "EventMask is required"), c)
  | Some m =>
      let mask := to_lowercase m in
      let s := session c in
      let s :=
        if str_eqb mask (lit "off") then set_events_enabled s false
        else if str_eqb mask (lit "on") then set_event_filter (set_events_enabled s true) ALL
        else set_event_filter (set_events_enabled s true) (category_parse_list mask) in
      (response_success (lit "Events configured"), set_session c s)
  end.

Abbreviation ActionRegistry := (gmap str ActionHandler) (only parsing).

Definition register (r : ActionRegistry) (name : str) (h : ActionHandler) : ActionRegistry :=
  <[to_lowercase name := h]> r.

(** The handlers that never look at the session. *)
Definition other_handler (other : str → AmiAction → W → AmiResponse * W) (name : str) : ActionHandler :=
  λ e action c, let '(r, w) := other name action (outside c) in (r, mkCtx (session c) (limiter c) w).

(** The names in the order of [register_builtins]. *)
Definition builtin_names : list str :=
  [lit "login"; lit "logoff"; lit "challenge"; lit "ping"; lit "coreshowchannels"; lit "corestatus";
   lit "coresettings"; lit "originate"; lit "redirect"; lit "hangup"; lit "bridge"; lit "park";
   lit "command"; lit "events"; lit "getconfig"; lit "updateconfig"; lit "listcategories"; lit "status";
   lit "rtpstats"; lit "showdialplan"; lit "listcommands"; lit "queuestatus"; lit "queueadd";
   lit "queueremove"; lit "queuepause"; lit "getvar"; lit "setvar"; lit "pjsipshowendpoints";
   lit "pjsipshowendpoint"; lit "pjsipshowregistrationsinbound"; lit "pjsipshowregistrationsoutbound";
   lit "pjsipnotify"; lit "pjsipqualify"; lit "meetmelist"; lit "confbridgelist"; lit "confbridgekick";
   lit "confbridgemute"; lit "waitfullybooted"; lit "sendtext"; lit "atxfer"].

Definition builtin_handler (other : str → AmiAction → W → AmiResponse * W) (name : str) : ActionHandler :=
  if str_eqb name (lit "login") then handle_login
  else if str_eqb name (lit "logoff") then handle_logoff
  else if str_eqb name (lit "challenge") then handle_challenge
  else if str_eqb name (lit "ping") then handle_ping
  else if str_eqb name (lit "events") then handle_events
  else other_handler other name.

Definition register_builtins (other : str → AmiAction → W → AmiResponse * W) : ActionRegistry :=
  foldl (λ r name, register r name (builtin_handler other name)) ∅ builtin_names.

Definition dispatch (reg : ActionRegistry) : ActionHandler := λ e action c,
  let name := to_lowercase (ac_name action) in
  let authority := action_authority name in
  let denied := with_action_id (response_error (lit "Permission denied")) (ac_action_id action) in
  if negb (bool_decide (authority = Some Preauth)) && negb (authenticated (session c)) then (denied, c)
  else
    match authority with
    | Some (Write required) =>
        if negb (category_contains (write_perm (session c)) required) then (denied, c)
        else
          match reg !! name with
          | Some h => let '(r, c) := h e action c in (with_action_id r (ac_action_id action), c)
          | None => (with_action_id (response_error (lit "Invalid/unknown command: " ++ ac_name action))
                       (ac_action_id action), c)
          end
    | _ =>
        match reg !! name with
        | Some h =>
            match authority with
            | None => (denied, c)
            | Some _ => let '(r, c) := h e action c in (with_action_id r (ac_action_id action), c)
            end
        | None => (with_action_id (response_error (lit "Invalid/unknown command: " ++ ac_name action))
                     (ac_action_id action), c)
        end
    end.

(** ** One session among others *)

(** An action arrives when the environment is [input_env] and the shared parts are
    as the other sessions left them. *)
Record input := { input_env : env; input_action : AmiAction; input_limiter : LoginRateLimiter; input_outside : W }.

Definition input_ctx (s : AmiSession) (i : input) : ctx := mkCtx s (input_limiter i) (input_outside i).
Definition session_step (reg : ActionRegistry) (s : AmiSession) (i : input) : AmiSession :=
  session (dispatch reg (input_env i) (input_action i) (input_ctx s i)).2.
Definition session_run (reg : ActionRegistry) (s : AmiSession) (ins : list input) : AmiSession :=
  foldl (session_step reg) s ins.

(** ** Every action is mediated *)

(** Who may run an action. *)
Definition may_run (s : AmiSession) (name : str) : bool :=
  match action_authority name with
  | Some Preauth => true
  | Some ReadOnly => authenticated s
  | Some (Write required) => authenticated s && category_contains (write_perm s) required
  | None => false
  end.

Section sessions.
Variable other : str → AmiAction → W → AmiResponse * W.
Let reg := register_builtins other.

Lemma foldl_register_lookup (names : list str) (r : gmap str ActionHandler) name :
  Forall (λ n, to_lowercase n = n) names →
  foldl (λ r name, register r name (builtin_handler other name)) r names !! name
    = if bool_decide (name ∈ names) then Some (builtin_handler other name) else r !! name.
Proof.
  intros Hn. induction names as [|n names IH] using rev_ind; [done|].
  apply Forall_app in Hn as [Hn [Hlast _]%Forall_cons].
  rewrite foldl_snoc. unfold register at 1. rewrite Hlast, lookup_insert. destruct (decide (n = name)) as [->|Hd].
  - rewrite bool_decide_true; [done|]. set_solver.
  - rewrite IH by done. do 2 case_bool_decide; set_solver.
Qed.

Lemma builtins_lookup name :
  reg !! name = if bool_decide (name ∈ builtin_names) then Some (builtin_handler other name) else None.
Proof. unfold reg, register_builtins. rewrite foldl_register_lookup; [done|]. repeat constructor. Qed.

(** The names with an authority are the registered ones. *)
Lemma classified_names :
  preauth_actions ++ command_actions ++ config_actions ++ system_actions ++ agent_actions ++ call_actions
    ++ readonly_actions ≡ₚ builtin_names.
Proof. by apply (bool_decide_unpack _); vm_compute. Qed.

Lemma classified_iff name : is_Some (action_authority name) ↔ name ∈ builtin_names.
Proof.
  rewrite <-classified_names, !elem_of_app. unfold action_authority.
  repeat (case_bool_decide; [split; [tauto|by eexists]|]). split; [by intros [? ?]|tauto].
Qed.

Lemma action_id_with r id : rs_action_id (with_action_id r id) = id.
Proof. done. Qed.

(** C10. Complete mediation.  For every action and session: an action that the session
    may run (a login or a challenge, or authenticated and read-only, or authenticated
    with the write category of the action) is answered by its own handler; every other
    action changes nothing at all and is answered with an error, Permission denied, or
    an unknown command for a name that does not exist, the latter only after login; the
    answer always carries the id of the action. *)
Theorem dispatch_mediates (e : env) (a : AmiAction) (c : ctx) :
  let name := to_lowercase (ac_name a) in
  let '(r, c') := dispatch (register_builtins other) e a c in
  rs_action_id r = ac_action_id a
  ∧ if may_run (session c) name
    then ∃ r0, builtin_handler other name e a c = (r0, c') ∧ r = with_action_id r0 (ac_action_id a)
    else c' = c ∧ rs_success r = false ∧ rs_followup_events r = []
         ∧ rs_message r = if authenticated (session c) && negb (bool_decide (name ∈ builtin_names))
                          then lit "Invalid/unknown command: " ++ ac_name a
                          else lit "Permission denied".
Proof.
  cbv zeta. unfold dispatch. fold reg. rewrite builtins_lookup. unfold may_run.
  pose proof (classified_iff (to_lowercase (ac_name a))) as Hc.
  destruct (action_authority (to_lowercase (ac_name a))) as [auth|].
  - rewrite (bool_decide_true (_ ∈ builtin_names)) by by apply Hc.
    destruct auth as [| |req];
      [rewrite (bool_decide_true (Some Preauth = _)) by done
      |rewrite (bool_decide_false (Some ReadOnly = _)) by done
      |rewrite (bool_decide_false (Some (Write req) = _)) by done];
      destruct (authenticated (session c)); cbn [negb andb]; try done.
    all: try (destruct (category_contains _ _); cbn [negb]; [|done]).
    all: destruct (builtin_handler other _ e a c) as [r0 c0]; eauto.
  - assert (to_lowercase (ac_name a) ∉ builtin_names) by (intros Hin%Hc; by destruct Hin).
    rewrite (bool_decide_false (_ ∈ builtin_names)), (bool_decide_false (None = _)) by done.
    by destruct (authenticated (session c)).
Qed.

(** ** Only credentials authenticate *)

(** A login that presents the password of a configured user, or the answer to the
    challenge of the session, while its source is not blocked. *)
Record valid_login (e : env) (c : ctx) (a : AmiAction) (u : AmiUser) : Prop := {
  login_name : to_lowercase (ac_name a) = lit "login";
  login_unblocked : (limit_check (limiter c) (now e) (addr_ip (session c))).1 = Ok tt;
  login_user : ∃ n, get_header a (lit "Username") = Some n ∧ users e !! n = Some u;
  login_secret :
    match get_header a (lit "Key") with
    | Some key => ∃ ch, challenge (session c) = Some ch ∧ to_ascii_lowercase key = compute_md5_response ch (secret u)
    | None => get_header a (lit "Secret") = Some (secret u)
    end;
}.

(** What a session was granted. *)
Definition grant (s : AmiSession) : bool * option str * EventCategory * EventCategory :=
  (authenticated s, session_user s, read_perm s, write_perm s).

Definition granted_to (u : AmiUser) : bool * option str * EventCategory * EventCategory :=
  (true, Some (username u), user_read_perm u, user_write_perm u).

Lemma handle_login_cases e a c :
  to_lowercase (ac_name a) = lit "login" →
  let c' := (handle_login e a c).2 in
  (∃ u, valid_login e c a u ∧ grant (session c') = granted_to u
        ∧ challenge (session c') = match get_header a (lit "Key") with Some _ => None | None => challenge (session c) end)
  ∨ (grant (session c') = grant (session c)
     ∧ (challenge (session c') = None ∨ challenge (session c') = challenge (session c))).
Proof.
  intros Hn. unfold handle_login, login_judge.
  destruct (limit_check (limiter c) (now e) (addr_ip (session c))) as [[[]|t] l] eqn:El; [|right; cbn; auto].
  destruct (get_header a (lit "Username")) as [n|] eqn:Eu; [|right; cbn; auto].
  unfold find_user. destruct (users e !! n) as [u|] eqn:Euser; [|right; cbn; auto].
  assert (∀ P : Prop, (match get_header a (lit "Key") with
    | Some key => ∃ ch, challenge (session c) = Some ch ∧ to_ascii_lowercase key = compute_md5_response ch (secret u)
    | None => get_header a (lit "Secret") = Some (secret u) end) → (valid_login e c a u → P) → P) as Hv.
  { intros P Hs HP. apply HP. split; [done|by rewrite El|by exists n|done]. }
  destruct (get_header a (lit "Key")) as [key|].
  - cbn. destruct (challenge (session c)) as [ch|] eqn:Ech; [|right; cbn; auto].
    destruct (verify_md5_response ch (secret u) key) eqn:Ev; [|right; cbn; auto].
    left. exists u. unfold verify_md5_response in Ev. apply str_eqb_true in Ev. apply Hv; [eauto|]. done.
  - destruct (get_header a (lit "Secret")) as [guess|]; [|right; cbn; auto].
    destruct (verify_plaintext u guess) eqn:Ev; [|right; cbn; auto].
    left. exists u. apply str_eqb_true in Ev. apply Hv; [by rewrite Ev|]. done.
Qed.

(** One step of a session: a valid login grants what the user has; a logoff takes it
    away; a challenge is what was just made; nothing else changes any of these. *)
Lemma session_step_cases s i :
  let s' := session_step reg s i in
  let name := to_lowercase (ac_name (input_action i)) in
  (∃ u, valid_login (input_env i) (input_ctx s i) (input_action i) u ∧ grant s' = granted_to u
        ∧ challenge s' = match get_header (input_action i) (lit "Key") with Some _ => None | None => challenge s end)
  ∨ ((grant s' = grant s ∨ (name = lit "logoff" ∧ authenticated s' = false))
     ∧ (challenge s' = None ∨ challenge s' = challenge s
        ∨ (name = lit "challenge" ∧ challenge s' = Some (new_challenge (input_env i)))))
  .
Proof.
  cbv zeta. unfold session_step. pose proof (dispatch_mediates (input_env i) (input_action i) (input_ctx s i)) as Hd.
  fold reg in Hd. destruct (dispatch reg _ _ _) as [r c']. cbn [snd]. destruct Hd as [_ Hd].
  destruct (may_run _ _); [|destruct Hd as [-> _]; right; cbn; auto].
  destruct Hd as (r0 & Hh & _). unfold builtin_handler in Hh.
  destruct (str_eqb (to_lowercase (ac_name (input_action i))) (lit "login")) eqn:E1.
  { apply str_eqb_true in E1. pose proof (handle_login_cases (input_env i) (input_action i) (input_ctx s i) E1) as Hl.
    rewrite Hh in Hl. cbn [snd] in Hl. destruct Hl as [Hl|[? [?|?]]]; [by left|right; auto..]. }
  destruct (str_eqb _ (lit "logoff")) eqn:E2.
  { apply str_eqb_true in E2. unfold handle_logoff in Hh. injection Hh as <- <-. right. cbn. auto. }
  destruct (str_eqb _ (lit "challenge")) eqn:E3.
  { apply str_eqb_true in E3. unfold handle_challenge in Hh. destruct (negb _); injection Hh as <- <-; right; cbn; auto 6. }
  destruct (str_eqb _ (lit "ping")); [unfold handle_ping in Hh; injection Hh as <- <-; right; cbn; auto|].
  destruct (str_eqb _ (lit "events")).
  { unfold handle_events in Hh. destruct (get_header _ _) as [m|]; [|injection Hh as <- <-; right; cbn; auto].
    destruct (str_eqb (to_lowercase m) (lit "off")), (str_eqb (to_lowercase m) (lit "on"));
      injection Hh as <- <-; right; cbn; auto. }
  unfold other_handler in Hh. destruct (other _ _ _) as [r1 w1]. injection Hh as <- <-. right. cbn. auto.
Qed.

Lemma session_run_snoc s ins i : session_run reg s (ins ++ [i]) = session_step reg (session_run reg s ins) i.
Proof. unfold session_run. by rewrite foldl_snoc. Qed.

(** A challenge that is outstanding was made by a Challenge action and has been
    outstanding since. *)
Definition issued (s : AmiSession) (pre : list input) (ch : str) : Prop :=
  ∃ pre1 j mid, pre = pre1 ++ j :: mid
    ∧ to_lowercase (ac_name (input_action j)) = lit "challenge" ∧ ch = new_challenge (input_env j)
    ∧ ∀ m1 m2, mid = m1 ++ m2 → challenge (session_run reg s (pre1 ++ j :: m1)) = Some ch.

Lemma challenge_issued ip ins ch :
  challenge (session_run reg (session_new ip) ins) = Some ch → issued (session_new ip) ins ch.
Proof.
  induction ins as [|i ins IH] using rev_ind; [done|]. rewrite session_run_snoc. intros Hch.
  set (s := session_run reg (session_new ip) ins) in *.
  assert (challenge (session_step reg s i) = challenge s ∨
    (to_lowercase (ac_name (input_action i)) = lit "challenge" ∧ challenge (session_step reg s i) = Some (new_challenge (input_env i)))) as [E|[Hn E]].
  { destruct (session_step_cases s i) as [(u & _ & _ & E)|(_ & [E|[E|E]])]; try (by auto); try congruence.
    destruct (get_header _ _); [congruence|auto]. }
  - rewrite E in Hch. destruct (IH Hch) as (pre1 & j & mid & -> & Hj & -> & Hmid).
    exists pre1, j, (mid ++ [i]). split_and!; [by rewrite <-app_assoc|done|done|].
    intros m1 m2 Hm. destruct m2 as [|m m2 _] using rev_ind.
    + rewrite app_nil_r in Hm. subst m1. change (pre1 ++ j :: mid ++ [i]) with (pre1 ++ (j :: mid) ++ [i]).
      rewrite app_assoc, session_run_snoc. fold s. by rewrite E.
    + rewrite app_assoc in Hm. apply app_inj_tail in Hm as [Hm _]. by eapply Hmid.
  - exists ins, i, []. split_and!; [done|done|congruence|].
    intros m1 m2 Hm. symmetry in Hm. apply app_eq_nil in Hm as [-> ->]. by rewrite session_run_snoc.
Qed.

(** C40. Only credentials authenticate.  Whatever actions a connection sends, and
    whatever the other sessions do to the limiter and the rest of the system between
    them, a session that is authenticated was given its user and permissions by a
    login that presented the password of that user, or the answer to a challenge made
    for this session, outstanding ever since and gone with that login; and it has not
    logged off since. *)
Theorem authenticated_by_credentials (ip : IpAddr) (ins : list input) :
  let run := session_run (register_builtins other) (session_new ip) in
  authenticated (run ins) = true →
  ∃ pre i post u, ins = pre ++ i :: post
    ∧ valid_login (input_env i) (input_ctx (run pre) i) (input_action i) u
    ∧ grant (run ins) = granted_to u
    ∧ (∀ m1 m2, post = m1 ++ m2 → authenticated (run (pre ++ i :: m1)) = true)
    ∧ (get_header (input_action i) (lit "Key") ≠ None →
       (∃ ch, challenge (run pre) = Some ch ∧ issued (session_new ip) pre ch)
       ∧ challenge (run (pre ++ [i])) = None).
Proof.
  cbv zeta. fold reg. induction ins as [|i ins IH] using rev_ind; [done|]. rewrite session_run_snoc.
  set (s := session_run reg (session_new ip) ins) in *. intros Ha.
  destruct (session_step_cases s i) as [(u & Hv & Hg & Hch)|([Hg|[_ Hoff]] & _)]; [| |congruence].
  - exists ins, i, [], u. split_and!; [done|done|done| |].
    + intros m1 m2 Hm. symmetry in Hm. apply app_eq_nil in Hm as [-> ->]. rewrite session_run_snoc. exact Ha.
    + intros Hk. rewrite session_run_snoc. fold s. destruct Hv as [_ _ _ Hs].
      destruct (get_header _ (lit "Key")); [|done]. destruct Hs as (ch & Hc & _). split; [|done].
      exists ch. split; [done|]. by apply challenge_issued.
  - assert (authenticated s = true) as Hs by (unfold grant in Hg; congruence).
    destruct (IH Hs) as (pre & j & post & u & -> & Hv & Hgr & Hpost & Hkey).
    exists pre, j, (post ++ [i]), u. split_and!; [by rewrite <-app_assoc|done|congruence| |done].
    intros m1 m2 Hm. destruct m2 as [|m m2 _] using rev_ind.
    + rewrite app_nil_r in Hm. subst m1. change (pre ++ j :: post ++ [i]) with (pre ++ (j :: post) ++ [i]).
      by rewrite app_assoc, session_run_snoc.
    + rewrite app_assoc in Hm. apply app_inj_tail in Hm as [Hm _]. by eapply Hpost.
Qed.
End sessions.

(** ** Guesses are bounded

    Every connection runs its own login, and all of them share the limiter: the check of
    one and the failure it records later are two steps, between which other connections
    come.  A connection that was let through waits for its verdict and sends nothing
    else meanwhile.  Each of the two steps is one instant of the clock: the source reads it
    next to taking the entry of the limiter. *)

Record login := { login_session : AmiSession; login_action : AmiAction; login_outside : W }.

Definition login_ip (x : login) : IpAddr := addr_ip (login_session x).

(** The connection [id] sends a login at the instant [t]; it is judged in [e]. *)
Inductive login_event := Arrive (id : nat) (t : Z) (x : login) | Judge (id : nat) (e : env).

Definition event_time (ev : login_event) : Z := match ev with Arrive _ t _ => t | Judge _ e => now e end.

Record manager := { mg_limiter : LoginRateLimiter; mg_pending : gmap nat login }.

Definition manager_new (c : LoginRateLimitConfig) : manager :=
  {| mg_limiter := limiter_with_config c; mg_pending := ∅ |}.

Definition manager_step (m : manager) (ev : login_event) : option (IpAddr * AmiResponse) * manager :=
  match ev with
  | Arrive id t x =>
      match mg_pending m !! id with
      | Some _ => (None, m)
      | None =>
          match limit_check (mg_limiter m) t (login_ip x) with
          | (Err _, l) => (Some (login_ip x, login_throttled), {| mg_limiter := l; mg_pending := mg_pending m |})
          | (Ok _, l) => (None, {| mg_limiter := l; mg_pending := <[id := x]> (mg_pending m) |})
          end
      end
  | Judge id e =>
      match mg_pending m !! id with
      | None => (None, m)
      | Some x =>
          let '(r, c) := login_judge e (login_action x) (mkCtx (login_session x) (mg_limiter m) (login_outside x)) in
          (Some (login_ip x, r), {| mg_limiter := limiter c; mg_pending := delete id (mg_pending m) |})
      end
  end.

(** The answers of a run, with the sources they go to. *)
Fixpoint manager_run (m : manager) (evs : list login_event) : list (IpAddr * AmiResponse) * manager :=
  match evs with
  | [] => ([], m)
  | ev :: evs' =>
      let '(o, m) := manager_step m ev in
      let '(rs, m) := manager_run m evs' in (option_list o ++ rs, m)
  end.

(** An answer that tells the client its guess was wrong. *)
Definition is_guess (r : AmiResponse) : bool :=
  negb (rs_success r)
  && (str_eqb (rs_message r) (lit "Authentication failed") || str_eqb (rs_message r) (lit "No challenge sent")).

Definition guesses (ip : IpAddr) (rs : list (IpAddr * AmiResponse)) : Z :=
  Z.of_nat (length (filter (λ p, bool_decide (p.1 = ip) && is_guess p.2) rs)).

(** What a judgement does to the limiter. *)
Inductive verdict := Unjudged | Wrong | Accepted.
#[local] Instance verdict_eq_dec : EqDecision verdict.
Proof. solve_decision. Defined.
Definition judged (l : LoginRateLimiter) (t : Z) (ip : IpAddr) (v : verdict) : LoginRateLimiter :=
  match v with Unjudged => l | Wrong => record_failure l t ip | Accepted => record_success l ip end.

Lemma login_judge_cases e a c :
  let '(r, c') := login_judge e a c in
  ∃ v, limiter c' = judged (limiter c) (now e) (addr_ip (session c)) v
       ∧ is_guess r = bool_decide (v = Wrong) ∧ rs_success r = bool_decide (v = Accepted).
Proof.
  unfold login_judge.
  destruct (get_header a (lit "Username")) as [n|]; [|by exists Unjudged].
  destruct (find_user _ n) as [u|]; [|by exists Wrong].
  destruct (get_header a (lit "Key")) as [key|].
  - destruct (challenge _) as [ch|]; [|by exists Wrong].
    destruct (verify_md5_response _ _ _); [by exists Accepted|by exists Wrong].
  - destruct (get_header _ _) as [guess|]; [|by exists Unjudged].
    destruct (verify_plaintext _ _); [by exists Accepted|by exists Wrong].
Qed.

(** A login that is judged at once is the handler of the action. *)
Lemma handle_login_is_a_run e x l id :
  let '(r, c) := handle_login e (login_action x) (mkCtx (login_session x) l (login_outside x)) in
  let m := {| mg_limiter := l; mg_pending := ∅ |} in
  manager_run m [Arrive id (now e) x; Judge id e] = ([(login_ip x, r)], {| mg_limiter := limiter c; mg_pending := ∅ |}).
Proof.
  unfold handle_login. cbn [manager_run manager_step session limiter mg_pending mg_limiter]. rewrite lookup_empty.
  unfold login_ip. destruct (limit_check _ _ _) as [[[]|w] l1]; cbn [set_limiter mg_pending mg_limiter session outside].
  - rewrite lookup_insert_eq. destruct (login_judge _ _ _) as [r c]. by rewrite delete_insert_eq.
  - by rewrite lookup_empty.
Qed.
End handlers.
Arguments ctx : clear implicits.
Arguments input : clear implicits.
Arguments login : clear implicits.
Arguments login_event : clear implicits.
Arguments manager : clear implicits.

Section bound.
Context (cfg : LoginRateLimitConfig) (K : Z).
Hypothesis Hon : limit_enabled cfg = true.
Hypothesis HF : 1 ≤ max_failures cfg.
Hypothesis HK : 1 ≤ K.
Hypothesis Hmax : max_failures cfg + K - 1 ≤ u32_max.
Implicit Types (l : LoginRateLimiter) (t : Z) (ip : IpAddr).

(** What is true of the entry of a source at the instant [t], when [p] of its logins wait
    for their verdict. *)
Definition entry_ok (t p : Z) (entry : option Attempts) : Prop :=
  match entry with
  | None => True
  | Some a =>
      window_start a ≤ t ∧ 0 ≤ failures a
      ∧ match blocked_until a with
        | None => failures a < max_failures cfg
        | Some _ => max_failures cfg ≤ failures a ∧ failures a + p ≤ max_failures cfg + K - 1
        end
  end.

(** How many more guesses are possible between [t0] and [t1]. *)
Definition budget (t0 t1 p : Z) (entry : option Attempts) : Z :=
  let n := max_failures cfg in
  match entry with
  | None => n + K - 1
  | Some a =>
      match blocked_until a with
      | Some u =>
          if u <=? t1 then n + 2 * K - 2
          else if t0 <=? window_start a then p else if p =? 0 then 0 else p + n + K - 2
      | None => if t0 <=? window_start a then n - failures a + K - 1 else 2 * n - failures a + 2 * K - 3
      end
  end.

(** Splits the tests of the budget. *)
Ltac split_tests :=
  repeat match goal with
         | |- context [?a <=? ?b] => destruct (Z.leb_spec a b)
         | |- context [?a <? ?b] => destruct (Z.ltb_spec a b)
         | |- context [?a =? ?b] => destruct (Z.eqb_spec a b)
         end.

Lemma entry_ok_mono t t' p p' entry : t ≤ t' → p' ≤ p → entry_ok t p entry → entry_ok t' p' entry.
Proof.
  destruct entry as [a|]; [|done]. unfold entry_ok. intros ?? (? & ? & Hb). split_and!; [lia|done|].
  destruct (blocked_until a); lia.
Qed.

Lemma budget_bounds t t0 t1 p entry :
  entry_ok t p entry → 0 ≤ p ≤ K → 0 ≤ budget t0 t1 p entry ≤ 2 * max_failures cfg + 2 * K - 3.
Proof.
  destruct entry as [a|]; unfold entry_ok, budget; [|lia]. intros (_ & ? & Hf) Hp.
  destruct (blocked_until a) as [u|]; split_tests; lia.
Qed.

Lemma budget_waiting t0 t1 p p' entry : 0 ≤ p' ≤ p → budget t0 t1 p' entry ≤ budget t0 t1 p entry.
Proof.
  destruct entry as [a|]; unfold budget; [|lia]. intros Hp. destruct (blocked_until a) as [u|]; split_tests; lia.
Qed.

(** The check: a source that is let through has one more login waiting, and its budget
    is no larger. *)
Lemma check_budget l t ip r l1 t0 t1 p :
  limit_config l = cfg → entry_ok t p (by_ip l !! ip) → t0 ≤ t ≤ t1 → limit_check l t ip = (r, l1) →
  let p' := if r is Ok _ then p + 1 else p in
  limit_config l1 = cfg ∧ entry_ok t p' (by_ip l1 !! ip)
  ∧ (0 ≤ p → p' ≤ K → budget t0 t1 p' (by_ip l1 !! ip) ≤ budget t0 t1 p (by_ip l !! ip)).
Proof.
  intros Hcfg Hok Ht. unfold limit_check. rewrite Hcfg, Hon. cbn [negb].
  destruct (by_ip l !! ip) as [a|] eqn:Ea; [|intros [= <- <-]; rewrite Ea; unfold budget; split_and!; done || lia].
  unfold entry_ok in Hok. destruct (blocked_until a) as [u|] eqn:Eu.
  - destruct (Z.ltb_spec t u); intros [= <- <-].
    + rewrite Ea. unfold entry_ok. rewrite Eu. split_and!; try done; lia.
    + cbn [limit_config set_by_ip by_ip]. rewrite lookup_insert_eq.
      unfold entry_ok, budget. cbn [blocked_until window_start failures]. rewrite Eu.
      split_and!; [done|lia..|]. intros. split_tests; lia.
  - intros [= <- <-]. rewrite Ea. unfold entry_ok, budget. rewrite Eu. split_and!; done || lia.
Qed.

(** A recorded failure uses one guess up. *)
Lemma failure_budget l t ip t0 t1 p :
  limit_config l = cfg → entry_ok t p (by_ip l !! ip) → t0 ≤ t ≤ t1 → 1 ≤ p ≤ K →
  t1 - t0 ≤ window cfg → t1 - t0 < block_duration cfg →
  let l' := record_failure l t ip in
  limit_config l' = cfg ∧ entry_ok t (p - 1) (by_ip l' !! ip)
  ∧ budget t0 t1 (p - 1) (by_ip l' !! ip) + 1 ≤ budget t0 t1 p (by_ip l !! ip).
Proof.
  intros Hcfg Hok Ht Hp Hw Hb. unfold record_failure. rewrite Hcfg, Hon. cbn [negb].
  split; [done|]. cbn [by_ip set_by_ip]. rewrite lookup_insert_eq.
  assert (∀ f, 0 ≤ f < max_failures cfg + K - 1 → wrap_u32 (f + 1) = f + 1) as Hwrap.
  { intros f Hf. apply wrap_u32_id. unfold is_u32. lia. }
  destruct (by_ip l !! ip) as [a|]; cbn [default from_option Datatypes.id window_start failures blocked_until].
  - unfold entry_ok in Hok |- *. unfold budget.
    destruct (Z.ltb_spec (window cfg) (Z.max 0 (t - window_start a))); cbn [window_start failures blocked_until].
    + rewrite (Hwrap 0) by lia. destruct (blocked_until a) as [u|]; split_tests; split_and!; lia.
    + destruct (blocked_until a) as [u|]; rewrite (Hwrap (failures a)) by lia; split_tests; split_and!; lia.
  - unfold entry_ok, budget.
    assert ((if window cfg <? Z.max 0 (t - t) then {| failures := 0; window_start := t; blocked_until := None |}
      else {| failures := 0; window_start := t; blocked_until := None |})
      = {| failures := 0; window_start := t; blocked_until := None |}) as -> by by case_match.
    cbn [window_start failures blocked_until]. rewrite (Hwrap 0) by lia. split_tests; split_and!; lia.
Qed.

Lemma failure_other l t ip ip' : ip' ≠ ip → by_ip (record_failure l t ip) !! ip' = by_ip l !! ip'.
Proof.
  intros Hne. unfold record_failure. destruct (negb _); [done|]. cbn [by_ip set_by_ip]. by rewrite lookup_insert_ne.
Qed.

Lemma judged_other l t ip ip' v : ip' ≠ ip → by_ip (judged l t ip v) !! ip' = by_ip l !! ip'.
Proof. intros Hne. destruct v; cbn; [done|by apply failure_other|by rewrite lookup_delete_ne]. Qed.

Lemma judged_config l t ip v : limit_config (judged l t ip v) = limit_config l.
Proof. destruct v; cbn; [done| |done]. unfold record_failure. by destruct (negb _). Qed.

Lemma check_other l t ip ip' r l1 :
  limit_check l t ip = (r, l1) → ip' ≠ ip → by_ip l1 !! ip' = by_ip l !! ip' ∧ limit_config l1 = limit_config l.
Proof.
  intros E Hne. unfold limit_check in E. repeat case_match; simplify_eq/=; try done. by rewrite lookup_insert_ne.
Qed.

(** *** The logins that wait *)
Context `{UC : UnicodeCase, HO : HashOrder, MD : Md5Hex} {W : Type}.
Context (ip : IpAddr) (conns : gset nat).
Implicit Types (x : login W) (ev : login_event W) (m : manager W).

Definition waiting (pending : gmap nat (login W)) : Z :=
  Z.of_nat (size (filter (λ q, login_ip q.2 = ip) pending)).

Lemma waiting_insert pending id x :
  pending !! id = None →
  waiting (<[id := x]> pending) = waiting pending + if bool_decide (login_ip x = ip) then 1 else 0.
Proof.
  intros Hid. unfold waiting. case_bool_decide.
  - rewrite map_filter_insert_True by done. rewrite map_size_insert_None; [lia|]. rewrite map_lookup_filter, Hid. done.
  - rewrite map_filter_insert_False by done. rewrite delete_id by done. lia.
Qed.

Lemma waiting_delete pending id x :
  pending !! id = Some x →
  waiting (delete id pending) = waiting pending - if bool_decide (login_ip x = ip) then 1 else 0.
Proof.
  intros Hid. rewrite <- (insert_delete_id pending id x Hid) at 2.
  rewrite waiting_insert by apply lookup_delete_eq. lia.
Qed.

(** The connections of the source. *)
Definition within (pending : gmap nat (login W)) : Prop :=
  ∀ id x, pending !! id = Some x → login_ip x = ip → id ∈ conns.

Lemma waiting_bound pending : within pending → Z.of_nat (size conns) ≤ K → 0 ≤ waiting pending ≤ K.
Proof.
  intros Hin Hk. unfold waiting. split; [lia|]. rewrite <- size_dom.
  enough (size (dom (filter (λ q, login_ip q.2 = ip) pending)) ≤ size conns)%nat by lia.
  apply subseteq_size. intros id (x & Hx)%elem_of_dom. apply map_lookup_filter_Some in Hx as [Hx Hip]. by eapply Hin.
Qed.
Hypothesis Hconns : Z.of_nat (size conns) ≤ K.

(** Logins of the source come over its connections. *)
Definition over_conns ev : Prop := match ev with Arrive id _ x => login_ip x = ip → id ∈ conns | Judge _ _ => True end.

Definition manager_ok (t : Z) m : Prop :=
  limit_config (mg_limiter m) = cfg ∧ entry_ok t (waiting (mg_pending m)) (by_ip (mg_limiter m) !! ip)
  ∧ within (mg_pending m).

Definition manager_budget (t0 t1 : Z) m : Z := budget t0 t1 (waiting (mg_pending m)) (by_ip (mg_limiter m) !! ip).

(** No answer in [rs] lets the source in. *)
Definition shut_out (rs : list (IpAddr * AmiResponse)) : Prop := Forall (λ q, q.1 = ip → rs_success q.2 = false) rs.

Lemma guesses_one q : guesses ip (option_list (Some q)) = if bool_decide (q.1 = ip) && is_guess q.2 then 1 else 0.
Proof.
  change (option_list (Some q)) with [q]. unfold guesses. rewrite filter_cons. by destruct (_ && _).
Qed.

Lemma guesses_app rs1 rs2 : guesses ip (rs1 ++ rs2) = guesses ip rs1 + guesses ip rs2.
Proof. unfold guesses. rewrite filter_app, length_app. lia. Qed.

Lemma arrive_budget m id t x t0 t1 s :
  manager_ok s m → s ≤ t → t0 ≤ t ≤ t1 → over_conns (Arrive id t x) →
  let '(o, m') := manager_step m (Arrive id t x) in
  manager_ok t m' ∧ guesses ip (option_list o) + manager_budget t0 t1 m' ≤ manager_budget t0 t1 m.
Proof.
  intros (Hcfg & Hok & Hin) Hs Ht Hid. cbn [manager_step over_conns] in *.
  apply (entry_ok_mono _ t _ (waiting (mg_pending m))) in Hok; [|lia..]. unfold manager_budget.
  destruct (mg_pending m !! id) as [y|] eqn:Ep; [by repeat split|].
  destruct (limit_check _ t (login_ip x)) as [r l1] eqn:El.
  assert (within (<[id := x]> (mg_pending m))) as Hin1.
  { intros i y [[-> ->]|[_ Hy]]%lookup_insert_Some; [done|by apply (Hin i y)]. }
  pose proof (waiting_bound _ Hin Hconns) as Hb0. pose proof (waiting_bound _ Hin1 Hconns) as Hb1.
  pose proof (waiting_insert (mg_pending m) id x Ep) as Hwi.
  destruct (decide (login_ip x = ip)) as [Hip|Hip].
  - rewrite bool_decide_true in Hwi by done. rewrite Hip in *.
    pose proof (check_budget _ t ip r l1 t0 t1 _ Hcfg Hok Ht El) as (H1 & H2 & H3).
    destruct r as [[]|w]; cbn [mg_limiter mg_pending].
    + rewrite Hwi in Hb1 |- *. split; [by unfold manager_ok; cbn [mg_limiter mg_pending]; rewrite Hwi|].
      change (guesses ip (option_list None)) with 0. lia.
    + split; [by repeat split|]. rewrite guesses_one, andb_false_r. lia.
  - rewrite bool_decide_false in Hwi by done. rewrite Z.add_0_r in Hwi.
    destruct (check_other _ t _ ip r l1 El ltac:(done)) as [H1 H2].
    assert (guesses ip (option_list (if r is Ok _ then None else Some (login_ip x, login_throttled))) = 0) as Hg
      by (destruct r; [done|by rewrite guesses_one, andb_false_r]).
    destruct r as [[]|w]; cbn [mg_limiter mg_pending] in *; unfold manager_ok; cbn [mg_limiter mg_pending];
      rewrite ?Hwi, ?H1, ?H2; (split; [by repeat split|]); rewrite Hg; lia.
Qed.

Lemma judge_budget m id e t0 t1 s :
  manager_ok s m → s ≤ now e → t0 ≤ now e ≤ t1 → t1 - t0 ≤ window cfg → t1 - t0 < block_duration cfg →
  let '(o, m') := manager_step m (Judge id e) in
  manager_ok (now e) m'
  ∧ (shut_out (option_list o) → guesses ip (option_list o) + manager_budget t0 t1 m' ≤ manager_budget t0 t1 m).
Proof.
  intros (Hcfg & Hok & Hin) Hs Ht Hw Hb. cbn [manager_step].
  apply (entry_ok_mono _ (now e) _ (waiting (mg_pending m))) in Hok; [|lia..]. unfold manager_budget.
  destruct (mg_pending m !! id) as [x|] eqn:Ep; [|by repeat split].
  pose proof (login_judge_cases e (login_action x) (mkCtx (login_session x) (mg_limiter m) (login_outside x))) as Hc.
  destruct (login_judge _ _ _) as [r c]. destruct Hc as (v & Hl & Hg & Hsucc). cbn [limiter session] in Hl.
  change (addr_ip (login_session x)) with (login_ip x) in Hl.
  pose proof (waiting_bound _ Hin Hconns) as Hb0.
  assert (within (delete id (mg_pending m))) as Hin1.
  { intros i y [_ Hy]%lookup_delete_Some. by apply (Hin i y). }
  pose proof (waiting_bound _ Hin1 Hconns) as Hb1. pose proof (waiting_delete _ id x Ep) as Hwd.
  unfold manager_ok, shut_out. cbn [mg_limiter mg_pending]. rewrite Hwd in *.
  rewrite guesses_one. change (option_list (Some (login_ip x, r))) with [(login_ip x, r)]. rewrite Forall_singleton. cbn [fst snd]. rewrite Hg, Hsucc, Hl. clear Hg Hsucc Hl.
  destruct (decide (login_ip x = ip)) as [Hip|Hip].
  - rewrite bool_decide_true in * by done. rewrite Hip in *. destruct v; cbn [judged].
    + rewrite !bool_decide_false by done. split.
      { split_and!; [done| |done]. apply (entry_ok_mono (now e) _ (waiting (mg_pending m))); [lia|lia|done]. }
      intros _. pose proof (budget_waiting t0 t1 (waiting (mg_pending m)) (waiting (mg_pending m) - 1) (by_ip (mg_limiter m) !! ip)).
      cbn. lia.
    + rewrite (bool_decide_true (Wrong = Wrong)) by done.
      destruct (failure_budget _ _ ip t0 t1 _ Hcfg Hok Ht ltac:(lia) Hw Hb) as (H1 & H2 & H3).
      split; [done|]. intros _. cbn [andb]. lia.
    + split; [|intros Hno; specialize (Hno eq_refl); by rewrite bool_decide_true in Hno].
      cbn. rewrite lookup_delete_eq. done.
  - rewrite (bool_decide_false (login_ip x = ip)) in * by done. rewrite Z.sub_0_r in *.
    rewrite judged_other, judged_config by done. done.
Qed.

(** The steps of a clock that does not go back, after the instant [t]. *)
Fixpoint events_from (t : Z) (evs : list (login_event W)) : Prop :=
  match evs with [] => True | ev :: evs' => t ≤ event_time ev ∧ events_from (event_time ev) evs' end.

Fixpoint last_time (t : Z) (evs : list (login_event W)) : Z :=
  match evs with [] => t | ev :: evs' => last_time (event_time ev) evs' end.

Lemma events_from_app t xs ys : events_from t (xs ++ ys) → events_from t xs ∧ events_from (last_time t xs) ys.
Proof.
  revert t. induction xs as [|x xs IH]; intros t; [done|]. cbn. intros [? Hl]. destruct (IH _ Hl). done.
Qed.

Lemma manager_step_budget m ev t0 t1 s :
  manager_ok s m → s ≤ event_time ev → t0 ≤ event_time ev ≤ t1 → over_conns ev →
  t1 - t0 ≤ window cfg → t1 - t0 < block_duration cfg →
  let '(o, m') := manager_step m ev in
  manager_ok (event_time ev) m'
  ∧ (shut_out (option_list o) → guesses ip (option_list o) + manager_budget t0 t1 m' ≤ manager_budget t0 t1 m).
Proof.
  intros Hok Hs Ht Hov Hw Hb. destruct ev as [id t x|id e]; [|by apply (judge_budget m id e t0 t1 s)].
  pose proof (arrive_budget m id t x t0 t1 s Hok Hs Ht Hov) as Ha.
  destruct (manager_step m _) as [o m']. destruct Ha. done.
Qed.

Lemma manager_run_ok t m evs :
  0 ≤ window cfg → 0 < block_duration cfg → manager_ok t m → events_from t evs → Forall over_conns evs →
  manager_ok (last_time t evs) (manager_run m evs).2.
Proof.
  intros Hw Hb. revert t m. induction evs as [|ev evs IH]; intros t m Hm Hevs Hov; [done|].
  destruct Hevs as [He Hevs]. apply Forall_cons in Hov as [Ho Hov]. cbn.
  pose proof (manager_step_budget m ev (event_time ev) (event_time ev) t Hm He ltac:(lia) Ho ltac:(lia) ltac:(lia)) as Hst.
  destruct (manager_step m ev) as [o m1]. destruct Hst as [Hm1 _].
  specialize (IH (event_time ev) m1 Hm1 Hevs Hov). by destruct (manager_run m1 evs).
Qed.

Lemma manager_run_budget t m evs t0 t1 :
  t1 - t0 ≤ window cfg → t1 - t0 < block_duration cfg → manager_ok t m → events_from t evs → Forall over_conns evs →
  Forall (λ ev, t0 ≤ event_time ev ≤ t1) evs → shut_out (manager_run m evs).1 →
  guesses ip (manager_run m evs).1 ≤ manager_budget t0 t1 m.
Proof.
  intros Hw Hb. revert t m. induction evs as [|ev evs IH]; intros t m Hm Hevs Hov Hin Hno.
  - destruct Hm as (_ & Hok & Hm). pose proof (waiting_bound _ Hm Hconns) as Hwb.
    pose proof (budget_bounds t t0 t1 _ _ Hok Hwb). change (guesses ip (manager_run m []).1) with 0. unfold manager_budget. lia.
  - destruct Hevs as [He Hevs]. apply Forall_cons in Hin as [Hei Hin]. apply Forall_cons in Hov as [Ho Hov]. cbn in Hno |- *.
    pose proof (manager_step_budget m ev t0 t1 t Hm He Hei Ho Hw Hb) as Hst. destruct (manager_step m ev) as [o m1].
    destruct Hst as [Hm1 Hst]. specialize (IH (event_time ev) m1 Hm1 Hevs Hov Hin).
    destruct (manager_run m1 evs) as [rs m2]. cbn [fst] in *. apply Forall_app in Hno as [Hno1 Hno2].
    rewrite guesses_app. specialize (IH Hno2). specialize (Hst Hno1). lia.
Qed.
End bound.

Section guesses.
Context `{UC : UnicodeCase, HO : HashOrder, MD : Md5Hex} {W : Type} (cfg : LoginRateLimitConfig).

(** C15. Guesses are bounded.  However the logins of all connections interleave, the
    check of each a step before its verdict, over any stretch of time no longer than the
    window and shorter than a block, a source that uses at most K connections and does not
    log in successfully in it learns of at most 2 n - 1 + 2 (K - 1) wrong guesses, where n
    is the configured number of failures, whatever accounts it tries and however it
    spreads them. *)
Theorem login_guesses_bounded (ip : IpAddr) (conns : gset nat) (t t0 D : Z) (pre mid : list (login_event W)) :
  let n := max_failures cfg in
  let K := Z.of_nat (size conns) in
  limit_enabled cfg = true → 1 ≤ n → 1 ≤ K → n + K - 1 ≤ u32_max →
  0 ≤ D → D ≤ window cfg → D < block_duration cfg →
  events_from t (pre ++ mid) → Forall (over_conns ip conns) (pre ++ mid) →
  Forall (λ ev, t0 ≤ event_time ev ≤ t0 + D) mid →
  let m := (manager_run (manager_new cfg) pre).2 in
  shut_out ip (manager_run m mid).1 →
  guesses ip (manager_run m mid).1 ≤ 2 * n - 1 + 2 * (K - 1).
Proof.
  intros n K Hon HF HK Hmax Hpos HD Hb Hclock Hov Hin m Hno.
  destruct (events_from_app t pre mid Hclock) as [Hpre Hmid]. apply Forall_app in Hov as [Ho1 Ho2].
  assert (manager_ok cfg K ip conns (last_time t pre) m) as Hm.
  { apply manager_run_ok; try done; lia || (split_and!; [done|cbn; by rewrite lookup_empty|done]). }
  etransitivity.
  { apply (manager_run_budget cfg K Hon HF HK Hmax ip conns ltac:(lia) _ m mid t0 (t0 + D) ltac:(lia) ltac:(lia) Hm Hmid Ho2 Hin Hno). }
  destruct Hm as (_ & Hok & Hm). pose proof (waiting_bound K ip conns _ Hm ltac:(lia)) as Hwb.
  pose proof (budget_bounds cfg K ltac:(done) ltac:(done) _ t0 (t0 + D) _ _ Hok Hwb). unfold manager_budget. lia.
Qed.
End guesses.

(** ** Examples *)

#[local] Existing Instance key_order.
#[local] Instance example_case : UnicodeCase := λ x, x.
(** A digest that shows its argument, in lower case. *)
#[local] Instance example_md5 : Md5Hex := λ x, lit "md5:" ++ to_ascii_lowercase x.

Definition request (name : str) (hs : list (str * str)) : AmiAction :=
  foldl (λ a kv, set_header a kv.1 kv.2) (action_new name) hs.

Definition example_users : gmap str AmiUser :=
  add_user (add_user ∅ (user_new (lit "admin") (lit "s3cret")))
    (user_with_permissions (lit "monitor") (lit "look") CALL NONE).

Definition example_env (t : Z) : env :=
  {| users := example_users; now := t; unix_time := 0; new_challenge := lit "c0ffee" |}.

Definition example_limiter : LoginRateLimiter := limiter_with_config default_limit.

Definition sent (a : AmiAction) : input unit := {| input_env := example_env 0; input_action := a;
  input_limiter := example_limiter; input_outside := tt |}.

(** A handler that answers everything. *)
Definition answer_all (name : str) (a : AmiAction) (w : unit) : AmiResponse * unit := (response_success name, w).

(** A login with a challenge, then a command. *)
Definition example_session : list (input unit) :=
  [sent (request (lit "Challenge") [(lit "AuthType", lit "MD5")]);
   sent (request (lit "Login") [(lit "username", lit "admin"); (lit "Key", lit "MD5:c0ffees3cret")]);
   sent (request (lit "Command") [(lit "ActionID", lit "7"); (lit "Command", lit "core show channels")])].

Lemma authenticated_by_credentials_witness :
  let run := session_run (register_builtins answer_all) (session_new (V4 1)) in
  authenticated (run example_session) = true
  ∧ ∃ pre i post u, example_session = pre ++ i :: post
    ∧ valid_login (input_env i) (input_ctx (run pre) i) (input_action i) u
    ∧ grant (run example_session) = granted_to u
    ∧ (∀ m1 m2, post = m1 ++ m2 → authenticated (run (pre ++ i :: m1)) = true)
    ∧ (get_header (input_action i) (lit "Key") ≠ None →
       (∃ ch, challenge (run pre) = Some ch ∧ issued answer_all (session_new (V4 1)) pre ch)
       ∧ challenge (run (pre ++ [i])) = None).
Proof.
  assert (authenticated (session_run (register_builtins answer_all) (session_new (V4 1)) example_session) = true)
    as Ha by (vm_compute; reflexivity).
  split; [exact Ha|]. exact (authenticated_by_credentials answer_all (V4 1) example_session Ha).
Defined.

Definition wrong_guess : login unit :=
  {| login_session := session_new (V4 1);
     login_action := request (lit "Login") [(lit "Username", lit "admin"); (lit "Secret", lit "guess")];
     login_outside := tt |}.

Definition arrive (t : Z) (id : nat) : login_event unit := Arrive id t wrong_guess.
Definition judge (t : Z) (id : nat) : login_event unit := Judge id (example_env t).
(** A wrong guess judged at once. *)
Definition try_at (t : Z) (id : nat) : list (login_event unit) := [arrive t id; judge t id].

(** One early failure; then connection 2 is let through, and waits, while connection 1
    gets the source blocked; the verdict of connection 2 comes after the window. *)
Definition early_guess : list (login_event unit) := try_at 0 1.
Definition blocked_once : list (login_event unit) := arrive 59900 2 :: concat (replicate 4 (try_at 59900 1)).
Definition burst : list (login_event unit) :=
  blocked_once ++ judge 60100 2 :: concat (replicate 3 (try_at 60100 1))
    ++ [arrive 60100 1; arrive 60100 2; judge 60100 1; judge 60100 2] ++ try_at 60100 1.

Lemma login_guesses_bounded_witness :
  let m := (manager_run (manager_new default_limit) early_guess).2 in
  events_from 0 (early_guess ++ burst)
  ∧ guesses (V4 1) (manager_run m burst).1 ≤ 2 * max_failures default_limit - 1 + 2 * (2 - 1).
Proof.
  assert (events_from 0 (early_guess ++ burst)) as Hc by (repeat split; vm_compute; discriminate).
  assert (Forall (over_conns (V4 1) {[1%nat; 2%nat]}) (early_guess ++ burst)) as Ho.
  { repeat (apply Forall_cons; split; [cbn; try exact I; intros _; set_solver|]). apply Forall_nil. exact I. }
  assert (Forall (λ ev, 59900 ≤ event_time ev ≤ 59900 + 300) burst) as Hi
    by (repeat (apply Forall_cons; split; [cbn; lia|]); apply Forall_nil; exact I).
  assert (shut_out (V4 1) (manager_run (manager_run (manager_new default_limit) early_guess).2 burst).1) as Hs
    by (vm_compute; repeat constructor).
  split; [exact Hc|].
  exact (login_guesses_bounded default_limit (V4 1) {[1%nat; 2%nat]} 0 59900 300 early_guess burst eq_refl
    ltac:(vm_compute; discriminate) ltac:(vm_compute; discriminate) ltac:(vm_compute; discriminate) ltac:(lia)
    ltac:(vm_compute; discriminate) ltac:(vm_compute; reflexivity) Hc Ho Hi Hs).
Defined.

(** Ten guesses in two tenths of a second, though five are to block the source: the window
    starts anew at the first failure after it, and the late failure of connection 2 lifts
    the block that was to last a minute. *)
Example ten_guesses :
  let m := (manager_run (manager_new default_limit) early_guess).2 in
  guesses (V4 1) (manager_run m burst).1 = 10
  ∧ is_blocked (mg_limiter (manager_run m blocked_once).2) 60100 (V4 1) = true
  ∧ is_blocked (mg_limiter (manager_run m (blocked_once ++ [judge 60100 2])).2) 60100 (V4 1) = false.
Proof. by vm_compute. Qed.

(** One connection alone has eight. *)
Example eight_guesses :
  let m := (manager_run (manager_new default_limit) early_guess).2 in
  let burst := concat (replicate 3 (try_at 59900 1) ++ replicate 6 (try_at 60100 1)) in
  guesses (V4 1) (manager_run m burst).1 = 8.
Proof. by vm_compute. Qed.

(** One good login clears the failures of the source, whatever account they were for. *)
Example own_login_clears_failures :
  let good := {| login_session := session_new (V4 1);
     login_action := request (lit "Login") [(lit "Username", lit "monitor"); (lit "Secret", lit "look")];
     login_outside := tt |} : login unit in
  let round := concat (replicate 4 (try_at 1 1)) ++ [Arrive 1 1 good; judge 1 1] in
  guesses (V4 1) (manager_run (manager_new default_limit) (concat (replicate 10 round))).1 = 40.
Proof. by vm_compute. Qed.
