(* ===== verification/AmiServer.v ===== *)
(** * The manager interface: connections ([asterisk-ami/src/server.rs])

    The loop of a connection: lines of the stream, bounded before login, collected
    into a message, parsed and dispatched; and the count of connections that have
    not authenticated yet.  What a connection finds at its [k]th action, the
    environment, the limiter and the rest of the system, is given by [found k]: the
    other connections may have done anything in between.

    [stream_is_served] is the composition with [AmiProtocol] and [Ami]: the octets of
    a sequence of actions are served as that sequence, up to the first that ends the
    connection. *)

From Stdlib Require Import NArith ZArith Ascii String.
From S2P Require Import Prelude RustStr Path HashMap NetAddr Bytes Utf8 AmiProtocol Ami.
Local Open Scope Z_scope.
Local Open Scope list_scope.

#[local] Ltac Zify.zify_post_hook ::= Z.to_euclidean_division_equations.

Definition AMI_BANNER : str := lit "Asterisk Call Manager/1.1" ++ CRLF.
Definition MAX_AMI_MESSAGE_BYTES : N := 65536.
Definition MAX_AMI_LINE_BYTES : nat := Z.to_nat 8192.

(** [take(MAX_AMI_LINE_BYTES).read_until(10)]: up to a line feed, the cap, or the end
    of the stream; the octets read and those left. *)
Fixpoint read_line (cap : nat) (bs : bytes) : bytes * bytes :=
  match cap, bs with
  | O, _ => ([], bs)
  | _, [] => ([], [])
  | S cap, b :: bs' =>
      if b =? 10 then ([b], bs')
      else let '(line, rest) := read_line cap bs' in (b :: line, rest)
  end.

Section server.
Context `{UnicodeCase, HashOrder, Md5Hex} {W : Type}.

(** What a connection finds when it dispatches an action, and whether the client
    takes the answer in time. *)
Record finding := {
  found_env : env;
  found_limiter : LoginRateLimiter;
  found_outside : W;
  send_ok : bool;
}.

Definition input_of (f : finding) (a : AmiAction) : input W :=
  {| input_env := found_env f; input_action := a; input_limiter := found_limiter f; input_outside := found_outside f |}.

(** A connection between two turns of its loop. *)
Record conn := {
  conn_session : AmiSession;
  message_buf : str;
  slot_held : bool;
  dispatched : nat;
}.

Definition conn_new (ip : IpAddr) : conn :=
  {| conn_session := session_new ip; message_buf := []; slot_held := true; dispatched := 0 |}.

(** What arrives at a connection. *)
Inductive arrival :=
  | Line (bs : bytes)
  | DeadlinePassed
  | ReadFailed.

(** A turn goes on, or ends the connection; either way with what is sent. *)
Inductive turn :=
  | Goes (c : conn) (sent : list str)
  | Ends (c : conn) (sent : list str).

Definition with_buf (c : conn) (buf : str) : conn :=
  {| conn_session := conn_session c; message_buf := buf; slot_held := slot_held c; dispatched := dispatched c |}.
Definition with_session (c : conn) (s : AmiSession) : conn :=
  {| conn_session := s; message_buf := message_buf c; slot_held := slot_held c; dispatched := S (dispatched c) |}.

Definition plain_error (message : str) : str :=
  lit "Response: Error" ++ CRLF ++ lit "Message: " ++ message ++ CRLF ++ CRLF.

Variable reg : gmap str (@ActionHandler W).
Variable found : nat → finding.

(** A complete message: its action, if it has one, is dispatched and answered. *)
Definition serve_message (c : conn) (buf : str) : turn :=
  match action_parse buf with
  | None => Goes (with_buf c []) []
  | Some a =>
      let f := found (dispatched c) in
      let '(r, x) := dispatch reg (found_env f) a (input_ctx (conn_session c) (input_of f a)) in
      let c := with_session c (session x) in
      if negb (send_ok f) then Ends c []
      else if eq_ignore_ascii_case (ac_name a) (lit "Logoff") then Ends c [response_serialize r]
      else Goes (with_buf c []) [response_serialize r]
  end.

Definition serve (c : conn) (x : arrival) : turn :=
  let authed := authenticated (conn_session c) in
  match x with
  | ReadFailed => Ends c []
  | DeadlinePassed => if authed then Goes c [] else Ends c [plain_error (lit "Authentication timeout")]
  | Line [] => Ends c []
  | Line bs =>
      if negb authed && (MAX_AMI_LINE_BYTES =? length bs)%nat && negb (bool_decide (last bs = Some 10))
      then Ends c [plain_error (lit "Line too long")]
      else
        let buf := message_buf c ++ from_utf8_lossy bs in
        if negb authed && (MAX_AMI_MESSAGE_BYTES <? len buf)%N
        then Ends (with_buf c buf) [plain_error (lit "Message too long")]
        else if bool_decide (read_message buf = None) then Goes (with_buf c buf) []
        else serve_message c buf
  end.

(** The loop on a stream that ends. *)
Fixpoint serve_stream (fuel : nat) (c : conn) (bs : bytes) : bool * conn * list str :=
  match fuel with
  | O => (true, c, [])
  | S fuel =>
      let '(line, rest) := read_line MAX_AMI_LINE_BYTES bs in
      if bool_decide (line = []) then (true, c, [])
      else
        match serve c (Line line) with
        | Ends c sent => (false, c, sent)
        | Goes c sent => let '(more, c, sent') := serve_stream fuel c rest in (more, c, sent ++ sent')
        end
  end.

(** ** A stream of actions is served *)

Lemma read_line_feed line rest cap :
  Forall (λ b, b ≠ 10) line → (length line < cap)%nat →
  read_line cap (line ++ 10 :: rest) = (line ++ [10], rest).
Proof.
  intros Hl. revert cap. induction Hl as [|b line Hb _ IH]; intros [|cap] Hc; cbn in *; try lia; [done|].
  rewrite (proj2 (Z.eqb_neq b 10)) by done. by rewrite IH by lia.
Qed.

(** A line of an action on the wire. *)
Definition wire_line (x : str) : bytes := as_bytes (x ++ CRLF).

(** Texts whose octets fit on a line. *)
Definition fits (x : str) : Prop :=
  (10%N ∉ x) ∧ Forall is_scalar x ∧ (length (as_bytes x) + 2 ≤ MAX_AMI_LINE_BYTES)%nat.

Lemma as_bytes_app x y : as_bytes (x ++ y) = as_bytes x ++ as_bytes y.
Proof. unfold as_bytes. apply bind_app. Qed.

Lemma encode_no_feed ch : is_scalar ch → ch ≠ 10%N → Forall (λ b, b ≠ 10) (encode_char ch).
Proof.
  unfold encode_char, is_scalar. intros Hs Hne.
  repeat case_match; repeat constructor; repeat match goal with H : (_ <? _)%N = _ |- _ => first [apply N.ltb_lt in H|apply N.ltb_ge in H] end;
    try lia.
Qed.

Lemma wire_line_feed x : fits x → ∃ l, wire_line x = l ++ [10] ∧ Forall (λ b, b ≠ 10) l ∧ (length l < MAX_AMI_LINE_BYTES)%nat.
Proof.
  intros (H10 & Hs & Hlen). exists (as_bytes x ++ [13]). split_and!.
  - unfold wire_line. rewrite as_bytes_app, <-app_assoc. done.
  - apply Forall_app. split; [|by repeat constructor]. unfold as_bytes.
    clear Hlen. induction Hs as [|ch x Hch _ IH]; [constructor|]. cbn [mbind list_bind].
    apply Forall_app. split; [apply encode_no_feed; set_solver|apply IH; set_solver].
  - rewrite length_app. cbn [length]. lia.
Qed.

Lemma wire_line_read x rest : fits x → read_line MAX_AMI_LINE_BYTES (wire_line x ++ rest) = (wire_line x, rest).
Proof.
  intros Hx. destruct (wire_line_feed x Hx) as (l & -> & Hl & Hlen). rewrite <-app_assoc. by apply read_line_feed.
Qed.

Lemma wire_line_text x : fits x → from_utf8_lossy (wire_line x) = x ++ CRLF.
Proof.
  intros (_ & Hs & _). apply utf8_roundtrip. apply Forall_app. split; [done|].
  repeat constructor; by left.
Qed.

(** Lines on the wire. *)
Definition crlf_lines (ls : list str) : str := ls ≫= λ x, x ++ CRLF.
Definition plain_line (x : str) : Prop := x ≠ [] ∧ (13%N ∉ x) ∧ (10%N ∉ x).

Lemma crlf_lines_split ls p :
  Forall plain_line ls → p ∈ split 10 (crlf_lines ls) → p ≠ [13%N].
Proof.
  induction 1 as [|x ls (Hne & H13 & H10) _ IH]; cbn [crlf_lines mbind list_bind].
  - intros ->%list_elem_of_singleton. done.
  - replace ((x ++ CRLF) ++ (ls ≫= λ x, x ++ CRLF)) with ((x ++ [13%N]) ++ 10%N :: crlf_lines ls)
      by (by rewrite <-!app_assoc).
    rewrite split_app by set_solver. intros [->|Hp]%elem_of_cons; [|by apply IH].
    intros E. apply (app_inj_tail x []) in E as [-> _]. done.
Qed.

(** No message is complete before its blank line. *)
Lemma incomplete_message ls : Forall plain_line ls → read_message (crlf_lines ls) = None.
Proof.
  intros Hls. unfold read_message. destruct (find _ _) as [pos|] eqn:E; [|done]. exfalso.
  apply find_Some in E as (a & b & E & _).
  apply (crlf_lines_split ls [13%N] Hls); [|done]. rewrite E.
  replace (a ++ (CRLF ++ CRLF) ++ b) with ((a ++ [13%N]) ++ 10%N :: [13%N] ++ 10%N :: b) by (by rewrite <-!app_assoc).
  rewrite Path.split_app_sep, (split_app 10 [13%N]) by set_solver. set_solver.
Qed.

Lemma find_occurs pat a b : find pat (a ++ pat ++ b) ≠ None.
Proof.
  induction a as [|ch a IH].
  - cbn [Datatypes.app]. assert (starts_with pat (pat ++ b) = true) as E by (apply starts_with_true; by exists b).
    destruct (pat ++ b); cbn [find]; by rewrite E.
  - cbn [Datatypes.app find]. destruct (starts_with _ _); [done|]. by destruct (find pat (a ++ pat ++ b)).
Qed.

Lemma complete_message x ls : read_message (crlf_lines (ls ++ [x]) ++ CRLF) ≠ None.
Proof.
  unfold read_message.
  assert (crlf_lines (ls ++ [x]) ++ CRLF = (crlf_lines ls ++ x) ++ (CRLF ++ CRLF) ++ []) as ->.
  { unfold crlf_lines. rewrite bind_app. cbn [mbind list_bind]. by rewrite !app_nil_r, <-!app_assoc. }
  destruct (find (CRLF ++ CRLF) _) as [pos|] eqn:E; [|by apply find_occurs in E].
  apply find_Some in E as (a & b & -> & <-).
  replace (len a + 4)%N with (len (a ++ CRLF ++ CRLF)) by (rewrite len_app; done).
  replace (a ++ (CRLF ++ CRLF) ++ b) with ((a ++ CRLF ++ CRLF) ++ b) by (by rewrite <-!app_assoc).
  by rewrite split_at_app.
Qed.

(** A line that does not complete a message is kept. *)
Lemma serve_line_kept c ls x :
  message_buf c = crlf_lines ls → Forall plain_line (ls ++ [x]) → fits x →
  (len (crlf_lines (ls ++ [x])) <= MAX_AMI_MESSAGE_BYTES)%N →
  serve c (Line (wire_line x)) = Goes (with_buf c (crlf_lines (ls ++ [x]))) [].
Proof.
  intros Hbuf Hls Hx Hlen. unfold serve. destruct (wire_line_feed x Hx) as (l & El & _ & _).
  assert (wire_line x ≠ []) as Hne by (rewrite El; by destruct l). rewrite wire_line_text by done.
  assert (last (wire_line x) = Some 10) as Hlast by (rewrite El; apply last_snoc).
  destruct (wire_line x) as [|b bs]; [done|]. rewrite (bool_decide_true (last _ = _)) by done. cbn [negb]. rewrite andb_false_r.
  assert (crlf_lines (ls ++ [x]) = message_buf c ++ x ++ CRLF) as <-.
  { unfold crlf_lines in *. rewrite bind_app, Hbuf. cbn [mbind list_bind]. by rewrite app_nil_r. }
  rewrite (proj2 (N.ltb_ge _ _)) by done. rewrite andb_false_r.
  by rewrite incomplete_message.
Qed.

(** The blank line completes it. *)
Lemma serve_line_blank c ls x :
  message_buf c = crlf_lines (ls ++ [x]) →
  (len (crlf_lines (ls ++ [x]) ++ CRLF) <= MAX_AMI_MESSAGE_BYTES)%N →
  serve c (Line (wire_line [])) = serve_message c (crlf_lines (ls ++ [x]) ++ CRLF).
Proof.
  intros Hbuf Hlen. unfold serve. change (wire_line []) with [13; 10].
  change (from_utf8_lossy [13; 10]) with CRLF. rewrite (bool_decide_true (last [13; 10] = _)) by done. cbn [negb]. rewrite andb_false_r.
  rewrite Hbuf, (proj2 (N.ltb_ge _ _)) by done. rewrite andb_false_r.
  rewrite bool_decide_false by apply complete_message. done.
Qed.

(** The lines of an action. *)
Definition action_text (a : AmiAction) : list str :=
  (λ kv, kv.1 ++ lit ": " ++ kv.2)
    <$> (lit "Action", ac_name a) :: filter (λ kv, negb (eq_ignore_ascii_case kv.1 (lit "Action"))) (hash_iter (ac_headers a)).

Lemma header_lines_crlf hs : header_lines hs = crlf_lines ((λ kv, kv.1 ++ lit ": " ++ kv.2) <$> hs).
Proof.
  unfold header_lines, crlf_lines. induction hs as [|kv hs IH]; [done|]. rewrite fmap_cons. cbn [mbind list_bind].
  rewrite <-IH. unfold header_line. by rewrite <-!app_assoc.
Qed.

Lemma action_serialize_lines a : action_serialize a = crlf_lines (action_text a) ++ CRLF.
Proof.
  unfold action_serialize, action_text. rewrite <-header_lines_crlf. unfold header_lines at 2. cbn [mbind list_bind fst snd].
  by rewrite <-app_assoc.
Qed.

(** An action a client may send over a connection: its lines fit on a line, and it
    fits into a message. *)
Record servable (a : AmiAction) : Prop := {
  servable_ok : action_ok a;
  servable_fits : Forall fits (action_text a);
  servable_size : (len (action_serialize a) <= MAX_AMI_MESSAGE_BYTES)%N;
}.

Definition logs_off (a : AmiAction) : bool := eq_ignore_ascii_case (ac_name a) (lit "Logoff").

(** The [k]th action of the connection ends it: it logs off, or its answer is not taken. *)
Definition ends_conn (k : nat) (a : AmiAction) : bool := logs_off a || negb (send_ok (found k)).

(** Of a sequence of actions, those up to and with the first that ends the connection. *)
Fixpoint up_to_end (k : nat) (acts : list AmiAction) : list AmiAction :=
  match acts with [] => [] | a :: acts' => a :: (if ends_conn k a then [] else up_to_end (S k) acts') end.

(** None of them ends it. *)
Fixpoint stays (k : nat) (acts : list AmiAction) : bool :=
  match acts with [] => true | a :: acts' => negb (ends_conn k a) && stays (S k) acts' end.

(** Of the answers, those the client takes. *)
Fixpoint taken (k : nat) (rs : list AmiResponse) : list AmiResponse :=
  match rs with [] => [] | r :: rs' => (if send_ok (found k) then [r] else []) ++ taken (S k) rs' end.

Lemma action_text_plain a : action_ok a → Forall plain_line (action_text a).
Proof.
  intros [Hn Hh _]. unfold action_text. apply Forall_fmap.
  assert (∀ kv, header_ok kv → plain_line (kv.1 ++ lit ": " ++ kv.2)) as Hp.
  { intros kv Hkv. destruct (header_text_ok kv Hkv) as (? & ? & ? & _). done. }
  constructor.
  - apply Hp. split_and!; [..|done]; by apply (bool_decide_unpack _); vm_compute.
  - apply Forall_forall. intros [k v] [_ Hin]%list_elem_of_filter. apply Hp.
    apply elem_of_hash_iter in Hin. by destruct (Hh _ _ Hin).
Qed.

Definition lines_wire (ls : list str) : bytes := ls ≫= wire_line.

Lemma lines_wire_text ls : lines_wire ls = as_bytes (crlf_lines ls).
Proof.
  unfold lines_wire, crlf_lines. induction ls as [|x ls IH]; [done|]. cbn [mbind list_bind].
  rewrite as_bytes_app, <-IH. done.
Qed.

Lemma len_crlf_prefix ls ls' : (len (crlf_lines ls) <= len (crlf_lines (ls ++ ls')))%N.
Proof. unfold crlf_lines. rewrite bind_app, len_app. lia. Qed.

Lemma serve_lines fuel c done ls rest :
  message_buf c = crlf_lines done → Forall plain_line (done ++ ls) → Forall fits ls →
  (len (crlf_lines (done ++ ls)) <= MAX_AMI_MESSAGE_BYTES)%N →
  serve_stream (length ls + fuel) c (lines_wire ls ++ rest)
    = serve_stream fuel (with_buf c (crlf_lines (done ++ ls))) rest.
Proof.
  revert c done. induction ls as [|x ls IH]; intros c ds Hbuf Hp Hf Hlen.
  - rewrite app_nil_r. cbn [lines_wire mbind list_bind length Datatypes.app]. rewrite <-Hbuf. by destruct c.
  - apply Forall_cons in Hf as [Hx Hf]. cbn [lines_wire mbind list_bind length Nat.add]. fold (lines_wire ls).
    rewrite <-app_assoc. cbn [serve_stream]. rewrite wire_line_read by done.
    rewrite bool_decide_false.
    2:{ destruct (wire_line_feed x Hx) as (l & -> & _). by destruct l. }
    rewrite (app_assoc ds [x] ls : ds ++ x :: ls = (ds ++ [x]) ++ ls) in *.
    rewrite (serve_line_kept c ds x); [|done|by apply Forall_app in Hp as [? _]|done|].
    2:{ etransitivity; [apply (len_crlf_prefix _ ls)|done]. }
    rewrite (IH (with_buf c (crlf_lines (ds ++ [x]))) (ds ++ [x])); [|done..].
    cbn [with_buf]. by destruct (serve_stream fuel _ rest) as [[? ?] ?].
Qed.

(** What the session answers to a sequence of actions, and what becomes of it. *)
Fixpoint answers (k : nat) (s : AmiSession) (acts : list AmiAction) : list AmiResponse * AmiSession :=
  match acts with
  | [] => ([], s)
  | a :: acts' =>
      let i := input_of (found k) a in
      let '(r, x) := dispatch reg (input_env i) a (input_ctx s i) in
      let '(rs, s') := answers (S k) (session x) acts' in (r :: rs, s')
  end.

(** The session is the one a run of the same actions leaves. *)
Lemma answers_session k s acts :
  (answers k s acts).2 = session_run reg s (imap (λ i a, input_of (found (k + i)) a) acts).
Proof.
  revert k s. induction acts as [|a acts IH]; intros k s; [done|]. cbn [answers imap].
  rewrite Nat.add_0_r. unfold session_run. cbn [foldl]. unfold session_step at 2. cbn [input_action input_env input_of].
  destruct (dispatch reg _ a _) as [r x] eqn:E. cbn [snd]. specialize (IH (S k) (session x)).
  destruct (answers (S k) (session x) acts) as [rs s']. cbn [snd] in *. rewrite IH. unfold session_run. f_equal.
  apply imap_ext. intros i b _. cbn. by rewrite Nat.add_succ_r.
Qed.

Lemma serve_one_action fuel c a rest :
  servable a → message_buf c = [] →
  let k := dispatched c in
  let i := input_of (found k) (received a) in
  let '(r, x) := dispatch reg (input_env i) (received a) (input_ctx (conn_session c) i) in
  ∃ buf, serve_stream (length (action_text a) + S fuel) c (as_bytes (action_serialize a) ++ rest)
    = if ends_conn k a then (false, with_buf (with_session c (session x)) buf, response_serialize <$> taken k [r])
      else let '(more, c', sent) := serve_stream fuel (with_buf (with_session c (session x)) []) rest in
           (more, c', response_serialize r :: sent).
Proof.
  intros [Hok Hfits Hsize] Hbuf. cbn zeta. cbn [input_env input_of].
  destruct (dispatch reg _ (received a) _) as [r x] eqn:E.
  assert (∃ ls l, action_text a = ls ++ [l]) as (ls & l & El).
  { unfold action_text. destruct (exists_last (l := (λ kv : str * str, kv.1 ++ lit ": " ++ kv.2)
      <$> (lit "Action", ac_name a) :: filter (λ kv, negb (eq_ignore_ascii_case kv.1 (lit "Action"))) (hash_iter (ac_headers a)))) as (ls & l & ->); [done|eauto]. }
  rewrite action_serialize_lines in *. rewrite as_bytes_app, <-lines_wire_text, <-app_assoc.
  rewrite (serve_lines (S fuel) c [] (action_text a)); [|done|by apply action_text_plain|done|].
  2:{ etransitivity; [|exact Hsize]. rewrite len_app. cbn [Datatypes.app]. lia. }
  cbn [Datatypes.app]. rewrite El in *. cbn [serve_stream].
  change (as_bytes CRLF) with (wire_line []). rewrite wire_line_read by (split_and!; [set_solver|constructor|unfold MAX_AMI_LINE_BYTES; cbn [as_bytes mbind list_bind length]; lia]).
  rewrite bool_decide_false by done.
  rewrite (serve_line_blank (with_buf c (crlf_lines (ls ++ [l]))) ls l) by done.
  unfold serve_message. rewrite <-El, <-action_serialize_lines.
  rewrite <-(app_nil_r (action_serialize a)), action_parse_serialize by done. cbn [conn_session with_buf dispatched].
  rewrite E. unfold ends_conn, logs_off. cbn [ac_name received taken]. exists (crlf_lines (action_text a)).
  destruct (send_ok _); cbn [negb]; [|by rewrite orb_true_r].
  destruct (eq_ignore_ascii_case _ _); cbn [orb]; [done|]. by destruct (serve_stream fuel _ rest) as [[? ?] ?].
Qed.

Lemma read_line_end cap : read_line cap [] = ([], []).
Proof. by destruct cap. Qed.

Lemma serve_actions fuel c acts :
  Forall servable acts → message_buf c = [] →
  let k := dispatched c in
  let part := up_to_end k acts in
  let '(rs, s') := answers k (conn_session c) (received <$> part) in
  ∃ buf, serve_stream (sum_list ((λ a, S (length (action_text a))) <$> acts) + S fuel) c (as_bytes (acts ≫= action_serialize))
    = (stays k acts, {| conn_session := s'; message_buf := if stays k acts then [] else buf;
                        slot_held := slot_held c; dispatched := k + length part |},
       response_serialize <$> taken k rs).
Proof.
  intros Hacts Hbuf. revert c Hbuf. induction Hacts as [|a acts Ha _ IH]; intros c Hbuf.
  - cbn [answers up_to_end stays taken fmap list_fmap sum_list Nat.add].
    change (as_bytes ([] ≫= action_serialize)) with ([] : bytes). exists [].
    cbn [serve_stream]. rewrite read_line_end, bool_decide_true by done. cbn [length]. rewrite Nat.add_0_r, <-Hbuf. by destruct c.
  - cbn [up_to_end stays]. rewrite !fmap_cons. cbn [answers mbind list_bind sum_list length].
    rewrite as_bytes_app.
    pose proof (serve_one_action (sum_list ((λ a, S (length (action_text a))) <$> acts) + S fuel) c a
      (as_bytes (acts ≫= action_serialize)) Ha Hbuf) as H1'. cbn zeta in H1'.
    cbn [input_env input_of] in *. destruct (dispatch reg _ (received a) _) as [r x]. destruct H1' as [buf H1'].
    replace (S (length (action_text a)) + sum_list ((λ a, S (length (action_text a))) <$> acts) + S fuel)%nat
      with (length (action_text a) + S (sum_list ((λ a, S (length (action_text a))) <$> acts) + S fuel))%nat by lia.
    destruct (ends_conn (dispatched c) a) eqn:Ee; cbn [negb andb].
    + cbn [fmap list_fmap answers length]. exists buf. etransitivity; [exact H1'|]. do 2 f_equal.
      unfold with_buf, with_session. cbn. f_equal. lia.
    + specialize (IH (with_buf (with_session c (session x)) []) eq_refl). cbn [dispatched conn_session with_buf with_session] in IH.
      destruct (answers (S (dispatched c)) (session x) _) as [rs s']. destruct IH as [buf' IH]. exists buf'.
      etransitivity; [exact H1'|]. cbn [fmap list_fmap] in IH. rewrite IH. cbn [slot_held taken].
      assert (send_ok (found (dispatched c)) = true) as ->.
      { unfold ends_conn in Ee. apply orb_false_iff in Ee as [_ Ee]. by apply negb_false_iff. }
      cbn [length Datatypes.app fmap list_fmap]. do 3 f_equal. lia.
Qed.

Lemma stays_all k s acts :
  stays k acts = true →
  up_to_end k acts = acts ∧ taken k (answers k s (received <$> up_to_end k acts)).1 = (answers k s (received <$> up_to_end k acts)).1.
Proof.
  revert k s. induction acts as [|a acts IH]; intros k s; [done|]. cbn [stays up_to_end].
  rewrite andb_true_iff, negb_true_iff. intros [He Hst]. rewrite He, fmap_cons. cbn [answers].
  destruct (dispatch reg _ (received a) _) as [r x]. destruct (IH (S k) (session x) Hst) as [E1 E2].
  destruct (answers (S k) (session x) _) as [rs s']. cbn [fst taken] in *. rewrite E1, E2. split; [done|].
  unfold ends_conn in He. apply orb_false_iff in He as [_ He]. apply negb_false_iff in He. by rewrite He.
Qed.

Lemma wire_line_length x : (2 ≤ length (wire_line x))%nat.
Proof. unfold wire_line. rewrite as_bytes_app, length_app. change (length (as_bytes CRLF)) with 2%nat. lia. Qed.

Lemma enough_fuel acts :
  (sum_list ((λ a, S (length (action_text a))) <$> acts) ≤ length (as_bytes (acts ≫= action_serialize)))%nat.
Proof.
  induction acts as [|a acts IH]; [done|]. cbn [fmap list_fmap sum_list mbind list_bind]. unfold id in *.
  rewrite as_bytes_app, length_app.
  enough (S (length (action_text a)) ≤ length (as_bytes (action_serialize a)))%nat by lia.
  rewrite action_serialize_lines, as_bytes_app, length_app, <-lines_wire_text. change (length (as_bytes CRLF)) with 2%nat.
  enough (length (action_text a) ≤ length (lines_wire (action_text a)))%nat by lia.
  unfold lines_wire. induction (action_text a) as [|x ls IHl]; [done|]. cbn [mbind list_bind length].
  rewrite length_app. pose proof (wire_line_length x). lia.
Qed.

(** C30. The stream is served.  A client sends a sequence of well-formed actions as one
    stream of octets, each line of at most 8192 and each message of at most 65536 octets,
    before any deadline: whatever the other connections do in between, the actions are
    dispatched exactly once each, in order, as they were sent, up to and with the first
    that logs off or whose answer the client does not take, which ends the connection; each
    is answered in turn; the session is the one that run of actions leaves; and if none of
    them ends the connection, all are dispatched and nothing stays in the buffer. *)
Theorem stream_is_served (ip : IpAddr) (acts : list AmiAction) :
  Forall servable acts →
  let bs := as_bytes (acts ≫= action_serialize) in
  let part := up_to_end 0 acts in
  let '(rs, s') := answers 0 (session_new ip) (received <$> part) in
  s' = session_run reg (session_new ip) (imap (λ k a, input_of (found k) (received a)) part)
  ∧ ∃ c, serve_stream (S (length bs)) (conn_new ip) bs = (stays 0 acts, c, response_serialize <$> taken 0 rs)
         ∧ conn_session c = s' ∧ dispatched c = length part
         ∧ (stays 0 acts = true → part = acts ∧ taken 0 rs = rs ∧ message_buf c = []).
Proof.
  intros Hacts. cbn zeta. pose proof (answers_session 0 (session_new ip) (received <$> up_to_end 0 acts)) as Hs.
  pose proof (serve_actions (length (as_bytes (acts ≫= action_serialize)) - sum_list ((λ a, S (length (action_text a))) <$> acts))
    (conn_new ip) acts Hacts eq_refl) as Hr.
  cbn [dispatched conn_session conn_new] in Hr. pose proof (stays_all 0 (session_new ip) acts) as Hall.
  destruct (answers 0 _ _) as [rs s']. destruct Hr as [buf Hr]. split.
  - etransitivity; [exact Hs|]. rewrite imap_fmap. done.
  - pose proof (enough_fuel acts).
    replace (S (length (as_bytes (acts ≫= action_serialize)))) with
      (sum_list ((λ a, S (length (action_text a))) <$> acts)
       + S (length (as_bytes (acts ≫= action_serialize)) - sum_list ((λ a, S (length (action_text a))) <$> acts)))%nat by lia.
    eexists. split; [exact Hr|]. cbn. split; [done|]. split; [done|]. intros Hst. rewrite Hst. by destruct (Hall Hst).
Qed.

(** ** Memory before login *)

Lemma serve_slot c x : match serve c x with Goes c' _ | Ends c' _ => slot_held c' = slot_held c end.
Proof.
  unfold serve. destruct x as [[|b bs]| |]; [done| |by destruct (authenticated _)|done].
  destruct (_ && _); [done|]. destruct (_ && _); [done|]. destruct (bool_decide _); [done|].
  unfold serve_message. destruct (action_parse _) as [a|]; [|done].
  destruct (dispatch _ _ _ _) as [r x]. destruct (negb _); [done|]. by destruct (eq_ignore_ascii_case _ _).
Qed.

(** A connection that has not logged in keeps no more than a message. *)
Definition buffer_ok (c : conn) : Prop :=
  authenticated (conn_session c) = false → (len (message_buf c) <= MAX_AMI_MESSAGE_BYTES)%N.

Lemma serve_buffer c x c' sent : serve c x = Goes c' sent → buffer_ok c → buffer_ok c'.
Proof.
  unfold serve, buffer_ok. destruct x as [[|b bs]| |]; [done| | |done].
  2:{ destruct (authenticated (conn_session c)) eqn:E; [|done]. intros [= <- <-]. by rewrite E. }
  destruct (authenticated (conn_session c)) eqn:E; cbn [negb andb].
  - destruct (bool_decide _); [intros [= <- <-]; cbn; by rewrite E|].
    unfold serve_message. destruct (action_parse _) as [a|]; [|by intros [= <- <-]].
    destruct (dispatch _ _ _ _) as [r x]. destruct (negb _); [done|]. destruct (eq_ignore_ascii_case _ _); [done|].
    by intros [= <- <-].
  - destruct (_ && _); [done|]. destruct (N.ltb_spec MAX_AMI_MESSAGE_BYTES (len (message_buf c ++ from_utf8_lossy (b :: bs)))); [done|].
    destruct (bool_decide _); [by intros [= <- <-]|].
    unfold serve_message. destruct (action_parse _) as [a|]; [|by intros [= <- <-]].
    destruct (dispatch _ _ _ _) as [r x]. destruct (negb _); [done|]. destruct (eq_ignore_ascii_case _ _); [done|].
    by intros [= <- <-].
Qed.

Fixpoint serve_arrivals (c : conn) (xs : list arrival) : option conn :=
  match xs with
  | [] => Some c
  | x :: xs' => match serve c x with Goes c' _ => serve_arrivals c' xs' | Ends _ _ => None end
  end.

(** Whatever arrives, a client that has not logged in makes the server keep at most
    64 KiB for it. *)
Theorem preauth_memory_bounded (ip : IpAddr) (xs : list arrival) :
  match serve_arrivals (conn_new ip) xs with
  | Some c => authenticated (conn_session c) = false → (len (message_buf c) <= MAX_AMI_MESSAGE_BYTES)%N
  | None => True
  end.
Proof.
  enough (∀ c, buffer_ok c → match serve_arrivals c xs with Some c' => buffer_ok c' | None => True end) as Hc.
  { specialize (Hc (conn_new ip)). destruct (serve_arrivals _ xs); [|done]. apply Hc. by intros _. }
  induction xs as [|x xs IH]; intros c Hb; [done|]. cbn. destruct (serve c x) as [c' sent|] eqn:E; [|done].
  apply IH. by eapply serve_buffer.
Qed.
End server.

(** ** The connections of the server *)

Section connections.
Context `{UnicodeCase, HashOrder, Md5Hex} {W : Type}.

Inductive phase := Refusing | Serving (c : conn).
Record server := { unauth_sessions : Z; conns : gmap nat phase }.

(** The head of the loop gives the slot back once the session has logged in. *)
Definition release (c : conn) : conn :=
  {| conn_session := conn_session c; message_buf := message_buf c;
     slot_held := slot_held c && negb (authenticated (conn_session c)); dispatched := dispatched c |}.

Definition slots (p : phase) : Z := match p with Refusing => 1 | Serving c => if slot_held c then 1 else 0 end.

Variable other : str → AmiAction → W → AmiResponse * W.
Variable auth_limit : Z.
Let reg := register_builtins other.

(** One atomic step of the server: the counter is changed by [fetch_add] before the
    limit is looked at, and put back when the connection is refused. *)
Inductive server_step (s : server) : server → Prop :=
  | step_accept id ip :
      conns s !! id = None → auth_limit = 0 ∨ unauth_sessions s < auth_limit →
      server_step s {| unauth_sessions := unauth_sessions s + 1; conns := <[id := Serving (conn_new ip)]> (conns s) |}
  | step_full id :
      conns s !! id = None → 0 < auth_limit → auth_limit ≤ unauth_sessions s →
      server_step s {| unauth_sessions := unauth_sessions s + 1; conns := <[id := Refusing]> (conns s) |}
  | step_refuse id :
      conns s !! id = Some Refusing →
      server_step s {| unauth_sessions := unauth_sessions s - 1; conns := delete id (conns s) |}
  | step_banner_failed id ip :
      conns s !! id = Some (Serving (conn_new ip)) →
      server_step s {| unauth_sessions := unauth_sessions s - 1; conns := delete id (conns s) |}
  | step_goes id c x c' sent found :
      conns s !! id = Some (Serving c) → serve reg found c x = Goes c' sent →
      server_step s {| unauth_sessions := unauth_sessions s - (slots (Serving c') - slots (Serving (release c')));
                       conns := <[id := Serving (release c')]> (conns s) |}
  | step_ends id c x c' sent found :
      conns s !! id = Some (Serving c) → serve reg found c x = Ends c' sent →
      server_step s {| unauth_sessions := unauth_sessions s - slots (Serving c'); conns := delete id (conns s) |}.

Definition server_new : server := {| unauth_sessions := 0; conns := ∅ |}.

(** The slots and the connections that have not logged in. *)
Definition total (w : phase → Z) (m : gmap nat phase) : Z := map_fold (λ _ p n, w p + n) 0 m.
Definition held (p : phase) : Z := match p with Refusing => 0 | Serving c => if slot_held c then 1 else 0 end.
Definition anonymous (p : phase) : Z :=
  match p with Refusing => 0 | Serving c => if authenticated (conn_session c) then 0 else 1 end.

Lemma total_insert w m i p : m !! i = None → total w (<[i := p]> m) = w p + total w m.
Proof. intros Hi. unfold total. rewrite map_fold_insert_L; [done|intros; lia|done]. Qed.

Lemma total_delete w m i p : m !! i = Some p → total w m = w p + total w (delete i m).
Proof. intros Hi. rewrite <-(total_insert w _ i p) by apply lookup_delete_eq. by rewrite insert_delete_id. Qed.

Lemma total_update w m i p q : m !! i = Some p → total w (<[i := q]> m) = total w m - w p + w q.
Proof.
  intros Hi. rewrite (total_delete w m i p Hi). rewrite <-insert_delete_eq, total_insert by apply lookup_delete_eq. lia.
Qed.

Lemma total_le w w' m : (∀ i p, m !! i = Some p → w p ≤ w' p) → total w m ≤ total w' m.
Proof.
  induction m as [|i p m Hi IH] using map_ind; intros Hw; [done|]. rewrite !total_insert by done.
  pose proof (Hw i p (lookup_insert_eq _ _ _)).
  enough (total w m ≤ total w' m) by lia. apply IH. intros j q Hj. apply (Hw j). rewrite lookup_insert_ne; congruence.
Qed.

(** A connection without a slot has logged in. *)
Definition slot_or_login (c : conn) : Prop := slot_held c = true ∨ authenticated (conn_session c) = true.
Definition phase_ok (p : phase) : Prop := match p with Refusing => True | Serving c => slot_or_login c end.

Record server_ok (s : server) : Prop := {
  counted : unauth_sessions s = total slots (conns s);
  limited : 0 < auth_limit → total held (conns s) ≤ auth_limit;
  anonymous_hold : map_Forall (λ _, phase_ok) (conns s);
}.

(** No text outside ASCII is [logoff] in lower case: the name that logs off is the
    name that ends the connection. *)
Hypothesis lowercase_logoff : ∀ x, is_ascii x = false → unicode_lowercase x ≠ lit "logoff".

Lemma logoff_ends name : to_lowercase name = lit "logoff" → eq_ignore_ascii_case name (lit "Logoff") = true.
Proof.
  unfold to_lowercase. destruct (is_ascii name) eqn:E; [|by intros Hl%lowercase_logoff].
  intros Hl. unfold eq_ignore_ascii_case. rewrite Hl. by vm_compute.
Qed.

(** A connection that goes on is not logged out. *)
Lemma serve_stays_authenticated found c x c' sent :
  serve reg found c x = Goes c' sent → authenticated (conn_session c) = true → authenticated (conn_session c') = true.
Proof.
  unfold serve. intros E Ha. rewrite Ha in E. destruct x as [[|b bs]| |]; [done| |by injection E as <- _|done].
  cbn [negb andb] in E. destruct (bool_decide _); [by injection E as <- _|].
  unfold serve_message in E. destruct (action_parse _) as [a|]; [|by injection E as <- _].
  pose proof (session_step_cases other (conn_session c) (input_of (found (dispatched c)) a)) as Hs.
  unfold session_step in Hs. cbn [input_env input_action input_of] in Hs. fold reg in Hs.
  destruct (dispatch reg _ _ _) as [r c1]. cbn [snd] in Hs.
  destruct (negb _); [done|]. destruct (eq_ignore_ascii_case (ac_name a) _) eqn:El; [done|]. injection E as <- _. cbn.
  destruct Hs as [(u & _ & Hg & _)|[[Hg|[Hoff%logoff_ends _]] _]]; [by injection Hg| |congruence].
  unfold grant in Hg. congruence.
Qed.

Lemma released_ok c : slot_or_login c → slot_or_login (release c).
Proof. unfold slot_or_login, release. cbn. destruct (authenticated _); [by right|]. rewrite andb_true_r. tauto. Qed.

Lemma held_release c c' : slot_held c' = slot_held c → held (Serving (release c')) ≤ held (Serving c).
Proof. cbn. intros ->. destruct (slot_held c), (authenticated _); cbn; lia. Qed.

Lemma slots_held_nonneg p : 0 ≤ held p ≤ slots p.
Proof. destruct p as [|c]; cbn; [lia|]. destruct (slot_held c); lia. Qed.

(** A connection that goes away, whatever it held. *)
Lemma server_ok_gone s id p :
  server_ok s → conns s !! id = Some p →
  server_ok {| unauth_sessions := unauth_sessions s - slots p; conns := delete id (conns s) |}.
Proof.
  intros [Hc Hl Ha] Hid. split; cbn.
  - rewrite Hc, (total_delete _ _ _ _ Hid). lia.
  - intros Hlim. specialize (Hl Hlim). rewrite (total_delete _ _ _ _ Hid) in Hl. pose proof (slots_held_nonneg p). lia.
  - by apply map_Forall_delete.
Qed.

Lemma server_step_ok s s' : server_ok s → server_step s s' → server_ok s'.
Proof.
  intros Hok Hstep. pose proof Hok as [Hc Hl Ha].
  destruct Hstep as [id ip Hid Hfree|id Hid Hlim Hfull|id Hid|id ip Hid|id c x c' sent found Hid E|id c x c' sent found Hid E].
  - split; cbn.
    + rewrite total_insert, Hc by done. cbn. lia.
    + intros Hlim. rewrite total_insert by done. cbn.
      pose proof (total_le held slots (conns s) (λ i p _, proj2 (slots_held_nonneg p))). lia.
    + apply map_Forall_insert_2; [by left|done].
  - split; cbn.
    + rewrite total_insert, Hc by done. cbn. lia.
    + intros Hp. rewrite total_insert by done. cbn. specialize (Hl Hp). lia.
    + by apply map_Forall_insert_2.
  - by apply (server_ok_gone s id Refusing).
  - by apply (server_ok_gone s id (Serving (conn_new ip))).
  - pose proof (serve_slot reg found c x) as Hslot. rewrite E in Hslot. split; cbn.
    + rewrite Hc, (total_update _ _ _ _ _ Hid). cbn. rewrite Hslot. lia.
    + intros Hlim. specialize (Hl Hlim). rewrite (total_update _ _ _ _ _ Hid). pose proof (held_release c c' Hslot). lia.
    + apply map_Forall_insert_2; [|done]. apply released_ok. specialize (Ha _ _ Hid). cbn in Ha.
      destruct Ha as [Hh|Hh]; [left; congruence|right; by eapply serve_stays_authenticated].
  - pose proof (serve_slot reg found c x) as Hslot. rewrite E in Hslot.
    assert (slots (Serving c') = slots (Serving c)) as -> by (cbn; by rewrite Hslot).
    by apply server_ok_gone.
Qed.

(** The limit holds.  On every interleaving of connections that are accepted,
    refused, served, logged in and closed, the counter is exactly the number of slots
    that are held, none is lost or given back twice, and at most the configured number
    of connections that have not logged in is served. *)
Theorem unauthenticated_connections_bounded (s : server) :
  rtc server_step server_new s →
  unauth_sessions s = total slots (conns s)
  ∧ (conns s = ∅ → unauth_sessions s = 0)
  ∧ (0 < auth_limit → total anonymous (conns s) ≤ auth_limit).
Proof.
  intros Hs. assert (server_ok s) as [Hc Hl Ha].
  { assert (server_ok server_new) as Hnew by (split; [done|intros ?; by apply Z.lt_le_incl|apply map_Forall_empty]).
    clear -Hnew Hs lowercase_logoff. induction Hs as [s|s s1 s2 Hstep _ IH]; [done|]. apply IH. by eapply server_step_ok. }
  split_and!; [done|intros E; by rewrite Hc, E|]. intros Hlim. specialize (Hl Hlim). etransitivity; [|exact Hl].
  apply total_le. intros i [|c] Hi; cbn; [done|]. specialize (Ha _ _ Hi). cbn in Ha.
  destruct Ha as [-> | ->]; [destruct (authenticated _); lia|destruct (slot_held c); lia].
Qed.
End connections.

(** ** Examples *)

#[local] Existing Instance key_order.
#[local] Existing Instance example_case.
#[local] Existing Instance example_md5.

Definition example_finding (k : nat) : finding :=
  {| found_env := example_env (Z.of_nat k); found_limiter := example_limiter; found_outside := tt; send_ok := true |}.

(** A session without challenges: a ping that is refused, a login, a command, a logoff, and
    a ping nobody hears. *)
Definition example_actions : list AmiAction :=
  [request (lit "Ping") [(lit "ActionID", lit "1")];
   request (lit "Login") [(lit "Username", lit "admin"); (lit "Secret", lit "s3cret")];
   request (lit "Command") [(lit "ActionID", lit "2"); (lit "Command", lit "core show channels")];
   request (lit "Logoff") [];
   request (lit "Ping") []].

Example example_answers :
  rs_success <$> (answers (register_builtins answer_all) example_finding 0 (session_new (V4 1))
    (received <$> take 4 example_actions)).1 = [false; true; true; true].
Proof. by vm_compute. Qed.

#[local] Instance header_ok_dec kv : Decision (header_ok kv).
Proof. unfold header_ok, line_text. apply _. Defined.

(** [servable] for an action with the id [ActionID], by computation. *)
Definition servable_bool (a : AmiAction) : bool :=
  bool_decide (trimmed (ac_name a) = true ∧ (13%N ∉ ac_name a) ∧ (10%N ∉ ac_name a))
  && bool_decide (map_Forall (λ k v, header_ok (k, v) ∧ eq_ignore_ascii_case k (lit "Action") = false) (ac_headers a))
  && match ac_action_id a with
     | Some v => bool_decide (ac_headers a !! lit "ActionID" = Some v
                   ∧ map_Forall (λ k v', eq_ignore_ascii_case k (lit "ActionID") = true → v' = v) (ac_headers a))
     | None => bool_decide (map_Forall (λ k v, eq_ignore_ascii_case k (lit "ActionID") = false) (ac_headers a))
     end
  && bool_decide (Forall (λ x, (10%N ∉ x) ∧ Forall (λ ch, bool_decide (ch < 128)%N = true) x
                               ∧ (length (as_bytes x) + 2 ≤ MAX_AMI_LINE_BYTES)%nat) (action_text a))
  && bool_decide (len (action_serialize a) <= MAX_AMI_MESSAGE_BYTES)%N.

Lemma servable_by_bool a : servable_bool a = true → servable a.
Proof.
  unfold servable_bool. rewrite !andb_true_iff, !bool_decide_eq_true.
  intros ((((Hn & Hh) & Hid) & Hf) & Hs). split; [split; [exact Hn|exact Hh|]| |exact Hs].
  - destruct (ac_action_id a) as [v|]; apply bool_decide_eq_true in Hid; [|exact Hid]. destruct Hid as [Hv Hu]. exists (lit "ActionID").
    split_and!; [by vm_compute|done|]. intros k v' Hk Hv'. exact (Hu k v' Hv' Hk).
  - eapply Forall_impl; [exact Hf|]. intros x (Hx & Hc & Hlen). split_and!; [done| |done].
    eapply Forall_impl; [exact Hc|]. intros ch Hch%bool_decide_eq_true. unfold is_scalar. lia.
Qed.

Lemma example_servable : Forall servable example_actions.
Proof. repeat (apply Forall_cons; split; [apply servable_by_bool; by vm_compute|]). apply Forall_nil. done. Qed.

Lemma stream_is_served_witness :
  let bs := as_bytes (example_actions ≫= action_serialize) in
  let part := up_to_end example_finding 0 example_actions in
  part = take 4 example_actions
  ∧ let '(rs, s') := answers (register_builtins answer_all) example_finding 0 (session_new (V4 1)) (received <$> part) in
    s' = session_run (register_builtins answer_all) (session_new (V4 1)) (imap (λ k a, input_of (example_finding k) (received a)) part)
    ∧ ∃ c, serve_stream (register_builtins answer_all) example_finding (S (length bs)) (conn_new (V4 1)) bs
             = (stays example_finding 0 example_actions, c, response_serialize <$> taken example_finding 0 rs)
           ∧ conn_session c = s' ∧ dispatched c = length part
           ∧ (stays example_finding 0 example_actions = true →
              part = example_actions ∧ taken example_finding 0 rs = rs ∧ message_buf c = []).
Proof.
  cbv zeta. split; [reflexivity|].
  pose proof (stream_is_served (register_builtins answer_all) example_finding (V4 1) example_actions example_servable) as Hserved.
  cbv zeta in Hserved. exact Hserved.
Defined.

(** A blank line before an action makes the server drop the action: the message is
    complete at the end of the action, but starts with the blank line. *)
Example blank_line_drops_action :
  let ping := as_bytes (action_serialize (request (lit "Ping") [])) in
  let run bs := serve_stream (register_builtins answer_all) example_finding 20 (conn_new (V4 1)) bs in
  (run ping).2 ≠ [] ∧ (run ([13; 10] ++ ping)).2 = []
  ∧ message_buf (run ([13; 10] ++ ping)).1.2 = [] ∧ dispatched (run ([13; 10] ++ ping)).1.2 = 0%nat.
Proof. by vm_compute. Qed.
