(* ===== verification/CallQueue.v ===== *)
(** * Call queues ([asterisk-apps/src/queue.rs])

    Callers wait, members take calls.  A queue is changed under its lock by one
    operation at a time; each is a definition on [CallQueue].  The log, a global
    list, is passed as the entries an operation writes.

    [select_members_decides] says whom each strategy rings, [round_robin_serves]
    that none who stays ready is passed over for long, [queue_consistent] what every
    history of operations keeps. *)

From Stdlib Require Import NArith ZArith Ascii String Sorted.
From S2P Require Import Prelude RustStr F64.
Local Open Scope Z_scope.
Local Open Scope list_scope.

(** ** Data *)

Inductive QueueStrategy := RingAll | LeastRecent | FewestCalls | Random | RoundRobin | Linear.
#[export] Instance QueueStrategy_eq_dec : EqDecision QueueStrategy.
Proof. solve_decision. Defined.

Definition strategy_from_str_name `{UnicodeCase} (s : str) : QueueStrategy :=
  let x := to_lowercase s in
  if str_eqb x (lit "ringall") then RingAll
  else if str_eqb x (lit "leastrecent") then LeastRecent
  else if str_eqb x (lit "fewestcalls") then FewestCalls
  else if str_eqb x (lit "random") then Random
  else if str_eqb x (lit "roundrobin") || str_eqb x (lit "rrmemory") then RoundRobin
  else if str_eqb x (lit "linear") then Linear
  else RingAll.

Definition strategy_as_str (s : QueueStrategy) : str :=
  match s with
  | RingAll => lit "ringall" | LeastRecent => lit "leastrecent" | FewestCalls => lit "fewestcalls"
  | Random => lit "random" | RoundRobin => lit "roundrobin" | Linear => lit "linear"
  end.

Inductive MemberStatus := Available | Busy | Ringing | Unavailable | WrapUp.
#[export] Instance MemberStatus_eq_dec : EqDecision MemberStatus.
Proof. solve_decision. Defined.

(** Instants and durations are in milliseconds. *)
Record QueueMember := mkMember {
  interface : str;
  state_interface : option str;
  member_name : str;
  penalty : Z;
  paused : bool;
  pause_reason : option str;
  in_call : bool;
  calls_taken : Z;
  last_call_time : option Z;
  added_time : Z;
  status : MemberStatus;
  dynamic : bool;
  ring_in_use : bool;
  wrapup_time : option Z;
  wrapup_start : option Z;
}.

Definition member_new (now : Z) (intf name : str) (pen : Z) : QueueMember :=
  mkMember intf None name pen false None false 0 None now Available false false None None.

(** [Instant::elapsed]. *)
Definition since (now t : Z) : Z := Z.max 0 (now - t).
Definition as_secs (d : Z) : Z := d / 1000.

Definition is_available (now queue_wrapup : Z) (m : QueueMember) : bool :=
  if paused m || in_call m then false
  else
    match status m with
    | Available => true
    | WrapUp =>
        match wrapup_start m with
        | Some start => default queue_wrapup (wrapup_time m) <=? since now start
        | None => true
        end
    | _ => false
    end.

Definition set_status (m : QueueMember) (s : MemberStatus) : QueueMember :=
  mkMember (interface m) (state_interface m) (member_name m) (penalty m) (paused m) (pause_reason m) (in_call m)
    (calls_taken m) (last_call_time m) (added_time m) s (dynamic m) (ring_in_use m) (wrapup_time m) (wrapup_start m).

Definition begin_wrapup (now : Z) (m : QueueMember) : QueueMember :=
  mkMember (interface m) (state_interface m) (member_name m) (penalty m) (paused m) (pause_reason m) false
    (wrap_u64 (calls_taken m + 1)) (Some now) (added_time m) WrapUp (dynamic m) (ring_in_use m) (wrapup_time m) (Some now).

Definition check_wrapup_expired (now queue_wrapup : Z) (m : QueueMember) : bool * QueueMember :=
  if negb (bool_decide (status m = WrapUp)) then (false, m)
  else
    match wrapup_start m with
    | Some start =>
        if default queue_wrapup (wrapup_time m) <=? since now start
        then (true, mkMember (interface m) (state_interface m) (member_name m) (penalty m) (paused m) (pause_reason m)
                      (in_call m) (calls_taken m) (last_call_time m) (added_time m) Available (dynamic m)
                      (ring_in_use m) (wrapup_time m) None)
        else (false, m)
    | None => (false, m)
    end.

Definition set_paused (m : QueueMember) (p : bool) (reason : option str) : QueueMember :=
  mkMember (interface m) (state_interface m) (member_name m) (penalty m) p reason (in_call m)
    (calls_taken m) (last_call_time m) (added_time m) (status m) (dynamic m) (ring_in_use m) (wrapup_time m)
    (wrapup_start m).

Record QueueCaller := {
  channel_id : str;
  channel_name : str;
  position : Z;
  enter_time : Z;
  qc_name : option str;
  qc_number : option str;
  last_periodic_announce : option Z;
  last_position_announce : option Z;
}.

Definition set_position (c : QueueCaller) (p : Z) : QueueCaller :=
  {| channel_id := channel_id c; channel_name := channel_name c; position := p; enter_time := enter_time c;
     qc_name := qc_name c; qc_number := qc_number c; last_periodic_announce := last_periodic_announce c;
     last_position_announce := last_position_announce c |}.

Definition set_periodic (c : QueueCaller) (t : Z) : QueueCaller :=
  {| channel_id := channel_id c; channel_name := channel_name c; position := position c; enter_time := enter_time c;
     qc_name := qc_name c; qc_number := qc_number c; last_periodic_announce := Some t;
     last_position_announce := last_position_announce c |}.

Definition u32_MAX : Z := 2 ^ 32 - 1.

Record QueueRule := { min_wait_secs : Z; max_penalty : Z; min_penalty : Z; relative : bool }.

Definition evaluate_rules (rules : list QueueRule) (wait_secs : Z) : Z * Z :=
  foldl (λ '(mx, mn) rule,
    if min_wait_secs rule <=? wait_secs
    then (if max_penalty rule =? 0 then u32_MAX else max_penalty rule, min_penalty rule) else (mx, mn))
    (u32_MAX, 0) rules.

Record QueueAnnouncements := {
  periodic_announce_interval : Z;
  periodic_announce_files : list str;
  announce_position : bool;
  announce_position_min : Z;
  announce_position_max : Z;
  announce_holdtime : bool;
  announce_holdtime_min_secs : Z;
  join_sound : option str;
  leave_sound : option str;
  agent_announce : option str;
  report_holdtime : bool;
}.

Definition announcements_default : QueueAnnouncements :=
  {| periodic_announce_interval := 0; periodic_announce_files := [lit "queue-periodic-announce"];
     announce_position := false; announce_position_min := 0; announce_position_max := 0;
     announce_holdtime := false; announce_holdtime_min_secs := 0; join_sound := None; leave_sound := None;
     agent_announce := None; report_holdtime := false |}.

(** ** The log *)

Inductive QueueLogEvent :=
  | EnterQueue | Connect | CompleteCaller | CompleteAgent | Abandon | Transfer | RingNoAnswer | AddMember
  | RemoveMember | Pause | Unpause | ExitWithTimeout | ExitWithKey | Custom (s : str).

Definition log_event_as_str (e : QueueLogEvent) : str :=
  match e with
  | EnterQueue => lit "ENTERQUEUE" | Connect => lit "CONNECT" | CompleteCaller => lit "COMPLETECALLER"
  | CompleteAgent => lit "COMPLETEAGENT" | Abandon => lit "ABANDON" | Transfer => lit "TRANSFER"
  | RingNoAnswer => lit "RINGNOANSWER" | AddMember => lit "ADDMEMBER" | RemoveMember => lit "REMOVEMEMBER"
  | Pause => lit "PAUSE" | Unpause => lit "UNPAUSE" | ExitWithTimeout => lit "EXITTIMEOUT"
  | ExitWithKey => lit "EXITWITHKEY" | Custom s => s
  end.

(** The time of day, in seconds since 1970, and the instant. *)
Record clock := { wall : Z; inst : Z }.

Record QueueLogEntry := {
  timestamp : Z; call_id : str; log_queue : str; log_agent : str; log_event : QueueLogEvent; log_data : list str }.

Definition entry_new (t : clock) (id queue agent : str) (e : QueueLogEvent) (data : list str) : QueueLogEntry :=
  {| timestamp := wall t; call_id := id; log_queue := queue; log_agent := agent; log_event := e; log_data := data |}.

Definition format_line (e : QueueLogEntry) : str :=
  show_int (Z.max 0 (timestamp e)) ++ lit "|" ++ call_id e ++ lit "|" ++ log_queue e ++ lit "|" ++ log_agent e
    ++ lit "|" ++ log_event_as_str (log_event e) ++ lit "|" ++ join (chr "|") (log_data e).

(** ** The queue *)

(** The fields of a [CallQueue] that no operation writes. *)
Record QueueConfig := {
  q_name : str;
  strategy : QueueStrategy;
  member_timeout : Z;
  retry_interval : Z;
  max_wait_time : Z;
  max_callers : Z;
  wrap_up_time : Z;
  music_class : str;
  weight : Z;
  service_level : Z;
  announcements : QueueAnnouncements;
  default_rule : option str;
  persistent_members : bool;
  auto_pause : bool;
  queue_timeout : Z;
  join_empty : bool;
  leave_when_empty : bool;
  ring_timeout : Z;
}.

(** The others; [periodic_announce_index] is the one of the announcements. *)
Record CallQueue := mkQueue {
  config : QueueConfig;
  members : list QueueMember;
  callers : list QueueCaller;
  completed_calls : Z;
  abandoned_calls : Z;
  rr_index : nat;
  calls_within_sl : Z;
  total_holdtime_secs : Z;
  holdtime_call_count : Z;
  periodic_announce_index : nat;
}.

Definition queue_new (name : str) (s : QueueStrategy) : CallQueue :=
  mkQueue
    {| q_name := name; strategy := s; member_timeout := 15000; retry_interval := 5000; max_wait_time := 0;
       max_callers := 0; wrap_up_time := 0; music_class := lit "default"; weight := 0; service_level := 60000;
       announcements := announcements_default; default_rule := None; persistent_members := false;
       auto_pause := false; queue_timeout := 0; join_empty := true; leave_when_empty := false; ring_timeout := 15000 |}
    [] [] 0 0 0 0 0 0 0.

Definition set_members (q : CallQueue) (ms : list QueueMember) : CallQueue :=
  mkQueue (config q) ms (callers q) (completed_calls q) (abandoned_calls q) (rr_index q) (calls_within_sl q)
    (total_holdtime_secs q) (holdtime_call_count q) (periodic_announce_index q).
Definition set_callers (q : CallQueue) (cs : list QueueCaller) : CallQueue :=
  mkQueue (config q) (members q) cs (completed_calls q) (abandoned_calls q) (rr_index q) (calls_within_sl q)
    (total_holdtime_secs q) (holdtime_call_count q) (periodic_announce_index q).
Definition set_abandoned (q : CallQueue) (n : Z) : CallQueue :=
  mkQueue (config q) (members q) (callers q) (completed_calls q) n (rr_index q) (calls_within_sl q)
    (total_holdtime_secs q) (holdtime_call_count q) (periodic_announce_index q).
Definition set_rr_index (q : CallQueue) (i : nat) : CallQueue :=
  mkQueue (config q) (members q) (callers q) (completed_calls q) (abandoned_calls q) i (calls_within_sl q)
    (total_holdtime_secs q) (holdtime_call_count q) (periodic_announce_index q).
Definition set_announce_index (q : CallQueue) (i : nat) : CallQueue :=
  mkQueue (config q) (members q) (callers q) (completed_calls q) (abandoned_calls q) (rr_index q) (calls_within_sl q)
    (total_holdtime_secs q) (holdtime_call_count q) i.

Definition avg_holdtime_secs (q : CallQueue) : Z :=
  if holdtime_call_count q =? 0 then 0 else total_holdtime_secs q / holdtime_call_count q.

Definition service_level_perf (q : CallQueue) : f64 :=
  let total := wrap_u64 (completed_calls q + abandoned_calls q) in
  if total =? 0 then f64_of_Z 100
  else f64_mul (f64_div (f64_of_Z (calls_within_sl q)) (f64_of_Z total)) (f64_of_Z 100).

(** ** Choosing members *)

(** A stable sort, [slice::sort_by_key]. *)
Fixpoint insert_by_key {A} (key : A → Z) (x : A) (l : list A) : list A :=
  match l with
  | [] => [x]
  | y :: l' => if key x <=? key y then x :: l else y :: insert_by_key key x l'
  end.
Definition sort_by_key {A} (key : A → Z) (l : list A) : list A := foldr (insert_by_key key) [] l.

(** A field of the member at an index. *)
Definition at_index {B} (ms : list QueueMember) (f : QueueMember → B) (d : B) (i : nat) : B :=
  match ms !! i with Some m => f m | None => d end.

Definition penalty_of (ms : list QueueMember) : nat → Z := at_index ms penalty 0.

Fixpoint minimum (l : list Z) : Z :=
  match l with [] => 0 | [x] => x | x :: l' => Z.min x (minimum l') end.

Definition lowest_penalty_group (ms : list QueueMember) (available : list nat) : list nat :=
  let min_pen := minimum (penalty_of ms <$> available) in
  filter (λ i, penalty_of ms i = min_pen) available.

(** How long ago a member had its last call; for ever, if it had none. *)
Definition idle_time (now : Z) (m : QueueMember) : Z :=
  match last_call_time m with Some t => since now t | None => (2 ^ 64 - 1) * 1000 end.

(** The first index of a group at or after [start], around the list of [n] members. *)
Definition next_in_group (n start : nat) (group : list nat) : option nat :=
  snd <$> list_find (.∈ group) ((λ offset, ((start + offset) mod n)%nat) <$> seq 0 n).

Section select.
(** [SliceRandom::shuffle]. *)
Context (shuffle : list nat → list nat).

Definition available_members (now max_pen min_pen : Z) (q : CallQueue) : list nat :=
  (filter (λ im, is_available now (wrap_up_time (config q)) im.2 = true ∧ min_pen <= penalty im.2 ∧ penalty im.2 <= max_pen)
     (imap pair (members q))).*1.

Definition select_members_with_penalty (now max_pen min_pen : Z) (q : CallQueue) : list nat * CallQueue :=
  let q := set_members q ((λ m, (check_wrapup_expired now (wrap_up_time (config q)) m).2) <$> members q) in
  let available := available_members now max_pen min_pen q in
  let ms := members q in
  if bool_decide (available = []) then ([], q)
  else
    let group := lowest_penalty_group ms available in
    match strategy (config q) with
    | RingAll => (sort_by_key (penalty_of ms) available, q)
    | LeastRecent => (take 1 (sort_by_key (λ i, - at_index ms (idle_time now) 0 i) group), q)
    | FewestCalls => (take 1 (sort_by_key (at_index ms calls_taken 0) group), q)
    | Random => (take 1 (shuffle group), q)
    | RoundRobin =>
        if bool_decide (group = []) then ([], q)
        else
          match next_in_group (length ms) (rr_index q mod length ms)%nat group with
          | Some idx => ([idx], set_rr_index q (idx + 1)%nat)
          | None => ([], q)
          end
    | Linear => (take 1 group, q)
    end.

Definition select_members (now : Z) (q : CallQueue) : list nat * CallQueue :=
  select_members_with_penalty now u32_MAX 0 q.
End select.

(** ** Members *)

Definition has_member (q : CallQueue) (intf : str) : bool :=
  existsb (λ m, str_eqb (interface m) intf) (members q).

Definition add_member (t : clock) (intf name : str) (pen : Z) (q : CallQueue) : bool * CallQueue * list QueueLogEntry :=
  if has_member q intf then (false, q, [])
  else (true, set_members q (members q ++ [member_new (inst t) intf name pen]),
        [entry_new t (lit "NONE") (q_name (config q)) intf AddMember [show_int pen]]).

Definition dynamic_member (now : Z) (intf name : str) (pen : Z) (si : option str) (wt : option Z) : QueueMember :=
  mkMember intf si name pen false None false 0 None now Available true false wt None.

Definition add_dynamic_member (t : clock) (intf name : str) (pen : Z) (si : option str) (wt : option Z) (q : CallQueue)
    : bool * CallQueue * list QueueLogEntry :=
  if has_member q intf then (false, q, [])
  else (true, set_members q (members q ++ [dynamic_member (inst t) intf name pen si wt]),
        [entry_new t (lit "NONE") (q_name (config q)) intf AddMember [show_int pen]]).

Definition remove_member (t : clock) (intf : str) (q : CallQueue) : bool * CallQueue * list QueueLogEntry :=
  let ms := filter (λ m, interface m ≠ intf) (members q) in
  let removed := (length ms <? length (members q))%nat in
  (removed, set_members q ms,
   if removed then [entry_new t (lit "NONE") (q_name (config q)) intf RemoveMember []] else []).

(** The first member with the interface is changed. *)
Fixpoint update_member (intf : str) (f : QueueMember → QueueMember) (ms : list QueueMember) : option (list QueueMember) :=
  match ms with
  | [] => None
  | m :: ms' => if str_eqb (interface m) intf then Some (f m :: ms') else (m ::.) <$> update_member intf f ms'
  end.

Definition set_member_paused (t : clock) (intf : str) (p : bool) (reason : option str) (q : CallQueue)
    : bool * CallQueue * list QueueLogEntry :=
  match update_member intf (λ m, set_paused m p reason) (members q) with
  | Some ms => (true, set_members q ms,
      [entry_new t (lit "NONE") (q_name (config q)) intf (if p then Pause else Unpause) [default [] reason]])
  | None => (false, q, [])
  end.

Definition available_member_count (now : Z) (q : CallQueue) : nat :=
  length (filter (λ m, is_available now (wrap_up_time (config q)) m = true) (members q)).
Definition logged_in_count (q : CallQueue) : nat :=
  length (filter (λ m, status m ≠ Unavailable) (members q)).
Definition free_member_count (q : CallQueue) : nat :=
  length (filter (λ m, paused m = false ∧ (status m = Available ∨ status m = WrapUp)) (members q)).

(** [load_realtime_members]: those the backend has for the queue. *)
Definition load_realtime_members (loaded : list QueueMember) (q : CallQueue) : CallQueue :=
  foldl (λ q m, if has_member q (interface m) then q else set_members q (members q ++ [m])) q loaded.

(** ** Callers *)

Fixpoint renumber_from (i : Z) (cs : list QueueCaller) : list QueueCaller :=
  match cs with [] => [] | c :: cs' => set_position c i :: renumber_from (i + 1) cs' end.
Definition renumber_callers (q : CallQueue) : CallQueue := set_callers q (renumber_from 1 (callers q)).

Definition waiting (q : CallQueue) : Z := Z.of_nat (length (callers q)).

Definition enqueue_caller (c : QueueCaller) (q : CallQueue) : Z * CallQueue :=
  let pos := waiting q + 1 in (pos, set_callers q (callers q ++ [set_position c pos])).

Definition enqueue_caller_at (c : QueueCaller) (desired_pos : Z) (q : CallQueue) : Z * CallQueue :=
  let pos := if (desired_pos =? 0) || (waiting q + 1 <? desired_pos) then waiting q + 1 else desired_pos in
  let idx := Z.to_nat (pos - 1) in
  (pos, renumber_callers (set_callers q (take idx (callers q) ++ set_position c pos :: drop idx (callers q)))).

Definition dequeue_caller (q : CallQueue) : option QueueCaller * CallQueue :=
  (head (callers q), renumber_callers (set_callers q (tail (callers q)))).

Definition remove_caller (id : str) (q : CallQueue) : bool * CallQueue :=
  let cs := filter (λ c, channel_id c ≠ id) (callers q) in
  let removed := (length cs <? length (callers q))%nat in
  let q := set_callers q cs in
  (removed, if removed then renumber_callers (set_abandoned q (wrap_u64 (abandoned_calls q + 1))) else q).

(** ** Announcements *)

Definition check_periodic_announce (now : Z) (i : nat) (q : CallQueue) : option str * CallQueue :=
  let interval := periodic_announce_interval (announcements (config q)) in
  if interval =? 0 then (None, q)
  else
    match callers q !! i with
    | None => (None, q)
    | Some c =>
        let should_play :=
          match last_periodic_announce c with
          | Some last => interval <=? since now last
          | None => interval <=? since now (enter_time c)
          end in
        if should_play then
          let files := periodic_announce_files (announcements (config q)) in
          if bool_decide (files = []) then (None, q)
          else
            let idx := (periodic_announce_index q mod length files)%nat in
            (files !! idx, set_callers (set_announce_index q (idx + 1)%nat) (<[i := set_periodic c now]> (callers q)))
        else (None, q)
    end.

Definition position_announcement (i : nat) (q : CallQueue) : option str :=
  let a := announcements (config q) in
  if negb (announce_position a) then None
  else
    match callers q !! i with
    | None => None
    | Some c =>
        if (0 <? announce_position_min a) && (waiting q <? announce_position_min a) then None
        else if (0 <? announce_position_max a) && (announce_position_max a <? position c)
        then Some (lit "You are experiencing a high call volume.")
        else Some (lit "You are caller number " ++ show_int (position c) ++ lit ".")
    end.

Definition holdtime_announcement (q : CallQueue) : option str :=
  let a := announcements (config q) in
  if negb (announce_holdtime a) then None
  else
    let avg := avg_holdtime_secs q in
    if avg <? announce_holdtime_min_secs a then None
    else
      let minutes := wrap_u64 (avg + 30) / 60 in
      if minutes =? 0 then Some (lit "Your call should be answered shortly.")
      else if minutes =? 1 then Some (lit "The expected wait time is less than one minute.")
      else Some (lit "The expected wait time is approximately " ++ show_int minutes ++ lit " minutes.").

(** ** Ringing members *)

(** The loops of [attempt_connect] over the chosen indices. *)
Definition mark (idxs : list nat) (s : MemberStatus) (q : CallQueue) : CallQueue :=
  set_members q (foldl (λ ms i, alter (λ m, set_status m s) i ms) (members q) idxs).

(** ** Sorting *)

Section sorting.
Context {A : Type} (key : A → Z).

Lemma insert_by_key_perm x l : insert_by_key key x l ≡ₚ x :: l.
Proof.
  induction l as [|y l IH]; cbn; [done|]. destruct (key x <=? key y); [done|]. rewrite IH. apply Permutation_swap.
Qed.

Lemma sort_by_key_perm l : sort_by_key key l ≡ₚ l.
Proof. induction l as [|x l IH]; cbn; [done|]. by rewrite insert_by_key_perm, IH. Qed.

(** [before] is an order that the list is in already. *)
Context (before : A → A → Prop).
Definition sorted_by (x y : A) : Prop := key x < key y ∨ (key x = key y ∧ before x y).

Lemma insert_by_key_sorted x l :
  Forall (before x) l → StronglySorted sorted_by l → StronglySorted sorted_by (insert_by_key key x l).
Proof.
  intros Hx Hl. induction Hl as [|y l Hl IH Hy]; cbn; [by repeat constructor|].
  apply Forall_cons in Hx as [Hxy Hx]. destruct (Z.leb_spec (key x) (key y)).
  - constructor; [by constructor|]. constructor; [unfold sorted_by; destruct (Z.eq_dec (key x) (key y)); [right|left]; lia || done|].
    rewrite Forall_forall in *. intros z Hz. specialize (Hy z Hz). specialize (Hx z Hz). unfold sorted_by in *.
    destruct (Z.eq_dec (key x) (key z)); [by right|left; lia].
  - constructor; [by apply IH|]. rewrite insert_by_key_perm. constructor; [left; lia|done].
Qed.

Lemma sort_by_key_sorted l : StronglySorted before l → StronglySorted sorted_by (sort_by_key key l).
Proof.
  induction 1 as [|x l _ IH Hx]; cbn; [constructor|]. apply insert_by_key_sorted; [|done].
  change (foldr _ _ l) with (sort_by_key key l). by rewrite sort_by_key_perm.
Qed.

(** What is first after sorting is least. *)
Lemma sort_by_key_head l x : StronglySorted before l → head (sort_by_key key l) = Some x →
  x ∈ l ∧ ∀ y, y ∈ l → y = x ∨ sorted_by x y.
Proof.
  intros Hl%sort_by_key_sorted Hx. pose proof (sort_by_key_perm l) as Hp. destruct (sort_by_key key l) as [|z s]; [done|].
  injection Hx as ->. split; [rewrite <-Hp; set_solver|]. intros y. rewrite <-Hp. intros [->|Hy]%elem_of_cons; [by left|].
  right. apply StronglySorted_inv in Hl as [_ Hl]. rewrite Forall_forall in Hl. by apply Hl.
Qed.
End sorting.

Lemma sort_by_key_ext {A} (key key' : A → Z) l : (∀ x, key x = key' x) → sort_by_key key l = sort_by_key key' l.
Proof.
  intros E. induction l as [|x l IH]; [done|]. cbn. fold (sort_by_key key l) (sort_by_key key' l). rewrite IH. clear IH.
  induction (sort_by_key key' l) as [|y s IHs]; [done|]. cbn. by rewrite !E, IHs.
Qed.

(** ** Whom a strategy rings *)

(** Free for a call: neither paused nor in a call, and available or through with the
    time after a call. *)
Definition free (now queue_wrapup : Z) (m : QueueMember) : Prop :=
  paused m = false ∧ in_call m = false
  ∧ (status m = Available
     ∨ status m = WrapUp ∧ ∀ start, wrapup_start m = Some start → default queue_wrapup (wrapup_time m) ≤ since now start).

Lemma is_available_free now w m : is_available now w m = true ↔ free now w m.
Proof.
  unfold is_available, free. destruct (paused m), (in_call m); cbn; try naive_solver.
  destruct (status m); try naive_solver. destruct (wrapup_start m) as [t|]; [|naive_solver].
  rewrite Z.leb_le. naive_solver.
Qed.

Definition refreshed (now w : Z) (m : QueueMember) : QueueMember := (check_wrapup_expired now w m).2.

Lemma refreshed_cases now w m :
  refreshed now w m = m
  ∨ status m = WrapUp ∧ (∃ t, wrapup_start m = Some t ∧ default w (wrapup_time m) ≤ since now t)
    ∧ refreshed now w m = mkMember (interface m) (state_interface m) (member_name m) (penalty m) (paused m) (pause_reason m)
        (in_call m) (calls_taken m) (last_call_time m) (added_time m) Available (dynamic m) (ring_in_use m) (wrapup_time m) None.
Proof.
  unfold refreshed, check_wrapup_expired. case_bool_decide; cbn [negb]; [|by left].
  destruct (wrapup_start m) as [t|]; [|by left]. destruct (Z.leb_spec (default w (wrapup_time m)) (since now t)); [|by left].
  right. eauto.
Qed.

(** To put the end of the time after a call on record changes nothing that counts. *)
Lemma refreshed_same now w m :
  interface (refreshed now w m) = interface m ∧ penalty (refreshed now w m) = penalty m
  ∧ calls_taken (refreshed now w m) = calls_taken m ∧ last_call_time (refreshed now w m) = last_call_time m
  ∧ (free now w (refreshed now w m) ↔ free now w m).
Proof.
  destruct (refreshed_cases now w m) as [->|(Hs & (t & Ht & Hle) & ->)]; [done|]. split_and!; try done.
  unfold free. cbn. rewrite Hs. split; intros (? & ? & _); split_and!; auto.
  right. split; [done|]. intros start Hst. by rewrite Ht in Hst; injection Hst as <-.
Qed.

(** The members that may be rung. *)
Definition ready (now mx mn : Z) (q : CallQueue) (i : nat) : Prop :=
  ∃ m, members q !! i = Some m ∧ free now (wrap_up_time (config q)) m ∧ mn ≤ penalty m ≤ mx.

Lemma available_members_ready now mx mn q i : i ∈ available_members now mx mn q ↔ ready now mx mn q i.
Proof.
  unfold available_members, ready. rewrite list_elem_of_fmap. split.
  - intros ([j m] & -> & (Hf & Hm)%list_elem_of_filter). cbn in *.
    apply list_elem_of_lookup in Hm as [k Hk]. rewrite list_lookup_imap in Hk.
    destruct (members q !! k) as [m'|] eqn:E; [|done]. injection Hk as <- <-. exists m'.
    rewrite is_available_free in Hf. tauto.
  - intros (m & Hm & Hf & Hp). exists (i, m). split; [done|]. apply list_elem_of_filter. cbn.
    rewrite is_available_free. split; [tauto|]. apply list_elem_of_lookup. exists i.
    rewrite list_lookup_imap, Hm. done.
Qed.

Lemma StronglySorted_snoc {A} (R : A → A → Prop) l x :
  StronglySorted R l → Forall (λ y, R y x) l → StronglySorted R (l ++ [x]).
Proof.
  induction 1 as [|y l Hl IH Hy]; cbn; intros Hx; [by repeat constructor|].
  apply Forall_cons in Hx as [Hx Hx']. constructor; [by apply IH|]. apply Forall_app. by repeat constructor.
Qed.

Lemma StronglySorted_filter {A} (R : A → A → Prop) (P : A → Prop) `{∀ x, Decision (P x)} l :
  StronglySorted R l → StronglySorted R (filter P l).
Proof.
  induction 1 as [|y l Hl IH Hy]; [constructor|]. rewrite filter_cons. destruct (decide (P y)); [|done].
  constructor; [done|]. rewrite Forall_forall in *. intros z [_ Hz]%list_elem_of_filter. by apply Hy.
Qed.

Lemma available_members_sorted now mx mn q : StronglySorted lt (available_members now mx mn q).
Proof.
  enough (∀ (Q : nat * QueueMember → Prop) `{∀ x, Decision (Q x)} (ms : list QueueMember), StronglySorted lt (filter Q (imap pair ms)).*1)
    as Hs by (apply Hs).
  clear. intros Q HQ ms. induction ms as [|m ms IH] using rev_ind; [constructor|].
  rewrite imap_app, filter_app, fmap_app. cbn [imap]. rewrite filter_cons, filter_nil.
  destruct (decide _); [|by rewrite app_nil_r]. apply StronglySorted_snoc; [done|].
  apply Forall_forall. intros i ([j m'] & -> & [_ Hin]%list_elem_of_filter)%list_elem_of_fmap.
  apply list_elem_of_lookup in Hin as [k Hk]. rewrite list_lookup_imap in Hk. cbn.
  destruct (ms !! k) eqn:E; [|done]. injection Hk as -> _. apply lookup_lt_Some in E. lia.
Qed.

Lemma minimum_spec (l : list Z) : l ≠ [] → minimum l ∈ l ∧ ∀ x, x ∈ l → minimum l ≤ x.
Proof.
  induction l as [|x [|y l] IH]; [done|intros _; cbn; split; [set_solver|by intros ? ->%list_elem_of_singleton]|].
  intros _. destruct IH as [Hin Hle]; [done|]. change (minimum (x :: y :: l)) with (Z.min x (minimum (y :: l))). split.
  - destruct (Z.min_spec x (minimum (y :: l))) as [[_ ->]|[_ ->]]; [by left|by right].
  - intros z [->|Hz]%elem_of_cons; [lia|]. specialize (Hle z Hz). lia.
Qed.

Lemma lowest_penalty_group_spec ms l i :
  i ∈ lowest_penalty_group ms l ↔ i ∈ l ∧ ∀ j, j ∈ l → penalty_of ms i ≤ penalty_of ms j.
Proof.
  unfold lowest_penalty_group. rewrite list_elem_of_filter. destruct (decide (l = [])) as [->|Hne]; [set_solver|].
  destruct (minimum_spec (penalty_of ms <$> l)) as [Hin Hle]; [by destruct l|]. split.
  - intros [-> Hi]. split; [done|]. intros j Hj. by apply Hle, list_elem_of_fmap_2.
  - intros [Hi Hmin]. split; [|done]. apply Z.le_antisymm; [|by apply Hle, list_elem_of_fmap_2].
    apply list_elem_of_fmap in Hin as (j & -> & Hj). by apply Hmin.
Qed.

(** How many places after [start], around [n] places, [i] comes. *)
Definition distance (n start i : nat) : nat := ((i + (n - start mod n)) mod n)%nat.

Lemma next_in_group_spec n start group :
  (0 < n)%nat → (∀ i, i ∈ group → (i < n)%nat) →
  match next_in_group n (start mod n) group with
  | Some i => i ∈ group ∧ ∀ j, j ∈ group → (distance n start i ≤ distance n start j)%nat
  | None => group = []
  end.
Proof.
  intros Hn Hg. unfold next_in_group. set (s := (start mod n)%nat).
  assert (s < n)%nat as Hs by (apply Nat.mod_upper_bound; lia).
  assert (∀ j, (j < n)%nat → (distance n start j < n)%nat ∧ ((s + distance n start j) mod n)%nat = j) as Hd.
  { intros j Hj. unfold distance. fold s. split; [apply Nat.mod_upper_bound; lia|].
    rewrite Nat.Div0.add_mod_idemp_r. replace (s + (j + (n - s)))%nat with (j + 1 * n)%nat by lia.
    rewrite Nat.Div0.mod_add. by apply Nat.mod_small. }
  destruct (list_find _ _) as [[k i]|] eqn:E; cbn.
  - apply list_find_Some in E as (Hk & Hi & Hfirst). split; [done|]. intros j Hj.
    apply list_lookup_fmap_Some in Hk as (o & -> & [Ho Hlt]%lookup_seq). cbn in Ho. subst o.
    assert (distance n start ((s + k) mod n) = k) as ->.
    { unfold distance. fold s. rewrite Nat.Div0.add_mod_idemp_l.
      replace (s + k + (n - s))%nat with (k + 1 * n)%nat by lia. rewrite Nat.Div0.mod_add. by apply Nat.mod_small. }
    destruct (Nat.le_gt_cases k (distance n start j)); [done|]. exfalso.
    destruct (Hd j (Hg j Hj)) as [Hlt' Hj']. apply (Hfirst (distance n start j) j); [|done|done].
    rewrite list_lookup_fmap, lookup_seq_lt by done. cbn. by rewrite Hj'.
  - apply list_find_None in E. destruct group as [|j group]; [done|]. exfalso.
    destruct (Hd j (Hg j ltac:(set_solver))) as [Hlt' Hj'].
    rewrite Forall_fmap, Forall_forall in E. apply (E (distance n start j)); [apply elem_of_seq; lia|].
    cbn. rewrite Hj'. set_solver.
Qed.

(** The members that are ready, of the lowest penalty among these. *)
Definition first_choice (now mx mn : Z) (q : CallQueue) (i : nat) : Prop :=
  ready now mx mn q i ∧ ∀ j, ready now mx mn q j → penalty_of (members q) i ≤ penalty_of (members q) j.

(** The one among equals that a strategy prefers. *)
Definition preferred (now : Z) (q : CallQueue) (i j : nat) : Prop :=
  match strategy (config q) with
  | LeastRecent =>
      at_index (members q) (idle_time now) 0 j < at_index (members q) (idle_time now) 0 i
      ∨ (at_index (members q) (idle_time now) 0 j = at_index (members q) (idle_time now) 0 i ∧ (i ≤ j)%nat)
  | FewestCalls =>
      at_index (members q) calls_taken 0 i < at_index (members q) calls_taken 0 j
      ∨ (at_index (members q) calls_taken 0 i = at_index (members q) calls_taken 0 j ∧ (i ≤ j)%nat)
  | RoundRobin => (distance (length (members q)) (rr_index q) i ≤ distance (length (members q)) (rr_index q) j)%nat
  | Linear => (i ≤ j)%nat
  | RingAll | Random => True
  end.

(** The queue after a choice: ends of times after calls on record, and for
    [RoundRobin] where the next choice starts. *)
Definition after_choice (now : Z) (q : CallQueue) (sel : list nat) : CallQueue :=
  let q' := set_members q (refreshed now (wrap_up_time (config q)) <$> members q) in
  match strategy (config q), sel with
  | RoundRobin, i :: _ => set_rr_index q' (i + 1)
  | _, _ => q'
  end.

Lemma at_index_refreshed {B} now w ms (f : QueueMember → B) d i :
  (∀ m, f (refreshed now w m) = f m) → at_index (refreshed now w <$> ms) f d i = at_index ms f d i.
Proof. intros Hf. unfold at_index. rewrite list_lookup_fmap. destruct (ms !! i); cbn; [apply Hf|done]. Qed.

Lemma ready_refreshed now mx mn q i :
  ready now mx mn (set_members q (refreshed now (wrap_up_time (config q)) <$> members q)) i ↔ ready now mx mn q i.
Proof.
  unfold ready. cbn. rewrite list_lookup_fmap. split.
  - intros (m & Hm & Hf & Hp). destruct (members q !! i) as [m'|]; [|done]. injection Hm as <-.
    destruct (refreshed_same now (wrap_up_time (config q)) m') as (_ & E & _ & _ & Hfree). rewrite E, Hfree in *. eauto.
  - intros (m & -> & Hf & Hp). exists (refreshed now (wrap_up_time (config q)) m). split; [done|].
    destruct (refreshed_same now (wrap_up_time (config q)) m) as (_ & -> & _ & _ & ->). done.
Qed.

Lemma ready_bound now mx mn q i : ready now mx mn q i → (i < length (members q))%nat.
Proof. intros (m & Hm & _). by apply lookup_lt_Some in Hm. Qed.

(** Choosing the first of a sorted group. *)
Lemma take_one_sorted (key : nat → Z) group i :
  StronglySorted lt group → i ∈ take 1 (sort_by_key key group) →
  take 1 (sort_by_key key group) = [i] ∧ i ∈ group ∧ ∀ j, j ∈ group → key i < key j ∨ (key i = key j ∧ (i ≤ j)%nat).
Proof.
  intros Hs Hi. pose proof (sort_by_key_head key lt group) as Hh.
  destruct (sort_by_key key group) as [|x l]; cbn in Hi; [set_solver|]. apply list_elem_of_singleton in Hi as ->.
  destruct (Hh x Hs eq_refl) as [Hx Hmin]. split_and!; [done..|]. intros j Hj.
  destruct (Hmin j Hj) as [->|[?|[? ?]]]; [right; lia|by left|right; lia].
Qed.

Lemma take_one_nil {A} (l : list A) : take 1 l = [] → l = [].
Proof. by destruct l. Qed.

Section choice.
Context (shuffle : list nat → list nat) (shuffle_perm : ∀ l, shuffle l ≡ₚ l).
Context (now mx mn : Z) (q : CallQueue).

Let q1 := set_members q (refreshed now (wrap_up_time (config q)) <$> members q).
Let available := available_members now mx mn q1.
Let group := lowest_penalty_group (members q1) available.

Lemma available_ready i : i ∈ available ↔ ready now mx mn q i.
Proof. unfold available. rewrite available_members_ready. apply ready_refreshed. Qed.

Lemma refreshed_index {B} (f : QueueMember → B) d i :
  (∀ m, f (refreshed now (wrap_up_time (config q)) m) = f m) → at_index (members q1) f d i = at_index (members q) f d i.
Proof. apply at_index_refreshed. Qed.

Lemma refreshed_penalty i : penalty_of (members q1) i = penalty_of (members q) i.
Proof. apply refreshed_index. intros m. apply (refreshed_same now (wrap_up_time (config q)) m). Qed.

Lemma group_first_choice i : i ∈ group ↔ first_choice now mx mn q i.
Proof.
  unfold group, first_choice. rewrite lowest_penalty_group_spec, available_ready. apply and_iff_compat_l.
  split; intros Hm j Hj%available_ready; specialize (Hm j Hj); rewrite !refreshed_penalty in *; done.
Qed.

Lemma group_sorted : StronglySorted lt group.
Proof. apply StronglySorted_filter, available_members_sorted. Qed.

Lemma group_nonempty : available ≠ [] → group ≠ [].
Proof.
  intros Ha. destruct (minimum_spec (penalty_of (members q1) <$> available)) as [Hin Hle]; [by destruct available|].
  apply list_elem_of_fmap in Hin as (i & E & Hi). intros Hg. apply (not_elem_of_nil i). rewrite <-Hg.
  apply list_elem_of_filter. done.
Qed.

(** What a strategy may answer when some member is ready. *)
Definition choice_ok (sel : list nat) : Prop :=
  match strategy (config q) with
  | RingAll => (∀ i, i ∈ sel ↔ ready now mx mn q i)
               ∧ StronglySorted (sorted_by (penalty_of (members q)) lt) sel
  | _ => ∃ i, sel = [i] ∧ first_choice now mx mn q i ∧ ∀ j, first_choice now mx mn q j → preferred now q i j
  end.

Lemma one_of_sorted (key : nat → Z) :
  group ≠ [] → ∃ i, take 1 (sort_by_key key group) = [i] ∧ first_choice now mx mn q i
    ∧ ∀ j, first_choice now mx mn q j → key i < key j ∨ (key i = key j ∧ (i ≤ j)%nat).
Proof.
  intros Hne. pose proof (sort_by_key_perm key group) as Hp. destruct (sort_by_key key group) as [|i l] eqn:E.
  { by apply Permutation_nil_l in Hp. }
  exists i. destruct (take_one_sorted key group i group_sorted) as (H1 & H2 & H3); [rewrite E; by left|].
  rewrite E in H1. split_and!; [done|by apply group_first_choice|]. intros j Hj. by apply H3, group_first_choice.
Qed.

Lemma select_members_choice :
  let '(sel, q') := select_members_with_penalty shuffle now mx mn q in
  q' = after_choice now q sel ∧ if bool_decide (available = []) then sel = [] else choice_ok sel.
Proof.
  pose proof group_nonempty as Hg. pose proof group_sorted as Hs. pose proof group_first_choice as Hgf.
  pose proof (λ key Hne, one_of_sorted key Hne) as Hone. pose proof available_ready as Har.
  pose proof (available_members_sorted now mx mn q1 : StronglySorted lt available) as Has.
  unfold select_members_with_penalty. cbv zeta.
  change (set_members q ((λ m, (check_wrapup_expired now (wrap_up_time (config q)) m).2) <$> members q)) with q1.
  change (available_members now mx mn q1) with available. change (lowest_penalty_group (members q1) available) with group.
  clearbody group. clearbody available. unfold after_choice, choice_ok, preferred. fold q1.
  change (strategy (config q1)) with (strategy (config q)).
  destruct (bool_decide_reflect (available = [])) as [Ha|Ha]; [by destruct (strategy (config q))|].
  specialize (Hg Ha). destruct (strategy (config q)).
  - split; [done|]. split; [intros i; by rewrite sort_by_key_perm|].
    rewrite (sort_by_key_ext (penalty_of (members q1)) (penalty_of (members q))) by apply refreshed_penalty.
    by apply sort_by_key_sorted.
  - split; [done|]. destruct (Hone (λ i, - at_index (members q1) (idle_time now) 0 i) Hg) as (i & E & Hi & Hmin).
    exists i. split_and!; [done..|]. intros j Hj. specialize (Hmin j Hj).
    rewrite !(refreshed_index (idle_time now)) in Hmin by (intros m; unfold idle_time; destruct (refreshed_same now (wrap_up_time (config q)) m) as (_ & _ & _ & -> & _); done). lia.
  - split; [done|]. destruct (Hone (at_index (members q1) calls_taken 0) Hg) as (i & E & Hi & Hmin).
    exists i. split_and!; [done..|]. intros j Hj. specialize (Hmin j Hj).
    by rewrite !(refreshed_index calls_taken) in Hmin by (intros m; apply (refreshed_same now (wrap_up_time (config q)) m)).
  - split; [done|]. pose proof (shuffle_perm group) as Hp. destruct (shuffle group) as [|i l]; [by apply Permutation_nil_l in Hp|].
    exists i. split_and!; [done| |done]. apply Hgf. rewrite <-Hp. by left.
  - rewrite (bool_decide_false (group = [])) by done.
    assert (∀ i, i ∈ group → (i < length (members q1))%nat) as Hlt.
    { intros i [Hi _]%Hgf. apply ready_bound in Hi. cbn. by rewrite length_fmap. }
    assert (0 < length (members q1))%nat as Hpos by (destruct group as [|g ?]; [done|]; specialize (Hlt g ltac:(by left)); lia).
    pose proof (next_in_group_spec (length (members q1)) (rr_index q1) group Hpos Hlt) as Hn.
    destruct (next_in_group _ _ _) as [i|]; [|done]. split; [done|]. destruct Hn as [Hi Hmin].
    exists i. split_and!; [done|by apply Hgf|].
    intros j Hj%Hgf. specialize (Hmin j Hj). cbn in Hmin. by rewrite length_fmap in Hmin.
  - split; [done|]. destruct group as [|i l]; [done|]. exists i.
    split_and!; [done|apply Hgf; by left|]. intros j [->|Hj]%Hgf%elem_of_cons; [lia|]. apply StronglySorted_inv in Hs as [_ Hs].
    rewrite Forall_forall in Hs. specialize (Hs j Hj). lia.
Qed.
End choice.

(** C4. Whom a strategy rings.  Nobody exactly when no member is ready: free and within
    the penalties.  [RingAll] rings all that are, by penalty and then by place.  Every
    other strategy rings one member of the lowest penalty among the ready, the one it
    prefers: longest without a call, fewest calls, next in turn or first in the list,
    the earlier place among equals.  Nothing of the queue changes but what
    [after_choice] says. *)
Theorem select_members_decides (shuffle : list nat → list nat) (now mx mn : Z) (q : CallQueue) :
  (∀ l, shuffle l ≡ₚ l) →
  let '(sel, q') := select_members_with_penalty shuffle now mx mn q in
  q' = after_choice now q sel
  ∧ (sel = [] ↔ ∀ i, ¬ ready now mx mn q i)
  ∧ (sel ≠ [] → choice_ok now mx mn q sel).
Proof.
  intros Hsh. pose proof (select_members_choice shuffle Hsh now mx mn q) as Hc.
  pose proof (available_ready now mx mn q) as Ha.
  destruct (select_members_with_penalty _ _ _ _ _) as [sel q']. destruct Hc as [-> Hc]. split; [done|].
  destruct (bool_decide_reflect (available_members now mx mn (set_members q (refreshed now (wrap_up_time (config q)) <$> members q)) = [])) as [E|E].
  - rewrite E in Ha. subst sel. split; [|done]. split; [|done]. intros _ i Hi. by apply Ha, not_elem_of_nil in Hi.
  - split; [|done]. assert (∃ i, ready now mx mn q i) as [i Hi].
    { destruct (available_members _ _ _ _) as [|i l]; [done|]. exists i. apply Ha. by left. }
    split; [|intros Hn; by destruct (Hn i)]. intros ->. unfold choice_ok in Hc.
    destruct (strategy (config q)); try (by destruct Hc as (? & ? & _)).
    destruct Hc as [Hc _]. by apply Hc, not_elem_of_nil in Hi.
Qed.

(** ** Round robin is fair *)

Lemma distance_unique n t d i : (d < n)%nat → ((t + d) mod n)%nat = i → distance n t i = d.
Proof.
  intros Hd <-. unfold distance. pose proof (Nat.mod_upper_bound t n ltac:(lia)).
  rewrite Nat.Div0.add_mod_idemp_l. rewrite (Nat.div_mod_eq t n) at 1.
  replace (n * (t / n) + t mod n + d + (n - t mod n))%nat with (d + (t / n + 1) * n)%nat by lia.
  rewrite Nat.Div0.mod_add. by apply Nat.mod_small.
Qed.

Lemma distance_spec n t i : (i < n)%nat → (distance n t i < n)%nat ∧ ((t + distance n t i) mod n)%nat = i.
Proof.
  intros Hi. unfold distance. pose proof (Nat.mod_upper_bound t n ltac:(lia)).
  split; [apply Nat.mod_upper_bound; lia|]. rewrite Nat.Div0.add_mod_idemp_r.
  rewrite (Nat.div_mod_eq t n) at 1.
  replace (n * (t / n) + t mod n + (i + (n - t mod n)))%nat with (i + (t / n + 1) * n)%nat by lia.
  rewrite Nat.Div0.mod_add. by apply Nat.mod_small.
Qed.

(** Each choice of another member brings the turn nearer. *)
Lemma turn_nearer n t k i :
  (k < n)%nat → (i < n)%nat → k ≠ i → (distance n t k ≤ distance n t i)%nat →
  (distance n (k + 1) i < distance n t i)%nat.
Proof.
  intros Hk Hi Hne Hle. destruct (distance_spec n t k Hk) as [Hdk Ek], (distance_spec n t i Hi) as [Hdi Ei].
  assert (distance n t k ≠ distance n t i) by (intros E; rewrite E in Ek; congruence).
  rewrite (distance_unique n (k + 1) (distance n t i - distance n t k - 1) i); [lia|lia|].
  rewrite <-Ek at 1. rewrite <-Nat.add_assoc, Nat.Div0.add_mod_idemp_l.
  by replace (t + distance n t k + (1 + (distance n t i - distance n t k - 1)))%nat with (t + distance n t i)%nat by lia.
Qed.

(** The choices of all callers, one after the other; in between the members may have
    changed in any way. *)
Record round := { r_now : Z; r_max : Z; r_min : Z; r_members : list QueueMember }.

Fixpoint rounds_run (shuffle : list nat → list nat) (q : CallQueue) (rs : list round) : list nat :=
  match rs with
  | [] => []
  | r :: rs' =>
      let '(sel, q') := select_members_with_penalty shuffle (r_now r) (r_max r) (r_min r) (set_members q (r_members r)) in
      sel ++ rounds_run shuffle q' rs'
  end.

(** [i] could be chosen in the round. *)
Definition in_turn (n i : nat) (q : CallQueue) (r : round) : Prop :=
  length (r_members r) = n ∧ first_choice (r_now r) (r_max r) (r_min r) (set_members q (r_members r)) i.

Lemma in_turn_config n i q q' r : config q = config q' → in_turn n i q r → in_turn n i q' r.
Proof. unfold in_turn, first_choice, ready. cbn. by intros ->. Qed.

(** C26. Round robin is fair.  However the members change between the choices, as long as
    none joins or leaves, a member that could be chosen every time is chosen within as
    many choices as there are members. *)
Theorem round_robin_serves (shuffle : list nat → list nat) (n i : nat) (q : CallQueue) (rs : list round) :
  strategy (config q) = RoundRobin → (i < n)%nat → Forall (in_turn n i q) rs → (n ≤ length rs)%nat →
  i ∈ rounds_run shuffle q rs.
Proof.
  intros Hstr Hi Hrs Hlen.
  enough (∀ rs q, strategy (config q) = RoundRobin → Forall (in_turn n i q) rs →
    (distance n (rr_index q) i < length rs)%nat → i ∈ rounds_run shuffle q rs) as He.
  { apply He; [done..|]. destruct (distance_spec n (rr_index q) i Hi). lia. }
  clear -Hi. intros rs. induction rs as [|r rs IH]; intros q Hstr Hrs Hd; cbn [length] in Hd; [lia|].
  apply Forall_cons in Hrs as [[Hn Hf] Hrs]. cbn [rounds_run].
  pose proof (select_members_choice id (λ l, reflexivity l) (r_now r) (r_max r) (r_min r) (set_members q (r_members r))) as Hc.
  assert (select_members_with_penalty shuffle (r_now r) (r_max r) (r_min r) (set_members q (r_members r))
    = select_members_with_penalty id (r_now r) (r_max r) (r_min r) (set_members q (r_members r))) as ->.
  { unfold select_members_with_penalty. cbn. by rewrite Hstr. }
  pose proof (available_ready (r_now r) (r_max r) (r_min r) (set_members q (r_members r)) i) as Ha.
  destruct (select_members_with_penalty id _ _ _ _) as [sel q']. destruct Hc as [-> Hc].
  destruct (bool_decide_reflect (available_members (r_now r) (r_max r) (r_min r) (set_members (set_members q (r_members r))
    (refreshed (r_now r) (wrap_up_time (config (set_members q (r_members r)))) <$> members (set_members q (r_members r)))) = [])) as [E|E].
  { rewrite E in Ha. destruct Hf as [Hf _]. by apply Ha, not_elem_of_nil in Hf. }
  unfold choice_ok, preferred in Hc. cbn in Hc. rewrite Hstr in Hc. destruct Hc as (k & -> & Hk & Hpref).
  apply elem_of_app. destruct (decide (k = i)) as [->|Hne]; [left; by left|right].
  specialize (Hpref i Hf). rewrite Hn in Hpref. unfold after_choice. cbn. rewrite Hstr.
  assert (k < n)%nat as Hkn by (destruct Hk as [Hk _]; apply ready_bound in Hk; cbn in Hk; lia).
  pose proof (turn_nearer n (rr_index q) k i Hkn Hi Hne Hpref). apply IH; cbn; [done| |lia].
  eapply Forall_impl; [exact Hrs|]. intros r'. by apply in_turn_config.
Qed.

(** ** What every operation keeps *)

(** Callers are numbered from one in their order, and no two members have one
    interface. *)
Record consistent (q : CallQueue) : Prop := {
  numbered_callers : ∀ i c, callers q !! i = Some c → position c = Z.of_nat i + 1;
  distinct_members : NoDup (interface <$> members q);
}.

(** The operations, in any order. *)
Inductive queue_step (q : CallQueue) : CallQueue → Prop :=
  | step_enqueue c : queue_step q (enqueue_caller c q).2
  | step_enqueue_at c p : 0 ≤ p → queue_step q (enqueue_caller_at c p q).2
  | step_dequeue : queue_step q (dequeue_caller q).2
  | step_remove_caller id : queue_step q (remove_caller id q).2
  | step_announce now i : queue_step q (check_periodic_announce now i q).2
  | step_add t intf name pen : queue_step q (add_member t intf name pen q).1.2
  | step_add_dynamic t intf name pen si wt : queue_step q (add_dynamic_member t intf name pen si wt q).1.2
  | step_remove_member t intf : queue_step q (remove_member t intf q).1.2
  | step_pause t intf p reason : queue_step q (set_member_paused t intf p reason q).1.2
  | step_load loaded : queue_step q (load_realtime_members loaded q)
  | step_select shuffle now mx mn : (∀ l, shuffle l ≡ₚ l) → queue_step q (select_members_with_penalty shuffle now mx mn q).2
  | step_mark idxs s : queue_step q (mark idxs s q)
  | step_counters a b c d e : queue_step q (mkQueue (config q) (members q) (callers q) a b (rr_index q) c d e (periodic_announce_index q)).

Lemma renumber_from_length i cs : length (renumber_from i cs) = length cs.
Proof. revert i. induction cs as [|c cs IH]; intros i; cbn; [done|]. by rewrite IH. Qed.

Lemma renumber_from_lookup k cs i :
  renumber_from k cs !! i = (λ c, set_position c (k + Z.of_nat i)) <$> cs !! i.
Proof.
  revert k i. induction cs as [|c cs IH]; intros k [|i]; cbn; [done|done|by rewrite Z.add_0_r|].
  rewrite IH. f_equal. replace (k + 1 + Z.of_nat i) with (k + Z.of_nat (S i)) by lia. done.
Qed.

Lemma renumber_from_ids k cs : channel_id <$> renumber_from k cs = channel_id <$> cs.
Proof. revert k. induction cs as [|c cs IH]; intros k; cbn; [done|]. f_equal. apply IH. Qed.

Lemma renumbered q ms cs : members q = ms → NoDup (interface <$> ms) → consistent (renumber_callers (set_callers q cs)).
Proof.
  intros <- Hd. split; [|done]. intros i c. cbn. rewrite renumber_from_lookup.
  destruct (cs !! i); [|done]. intros [= <-]. cbn. lia.
Qed.

Lemma has_member_false q intf : has_member q intf = false → intf ∉ (interface <$> members q).
Proof.
  unfold has_member. intros E (m & -> & Hm)%list_elem_of_fmap. apply not_true_iff_false in E. apply E.
  apply existsb_exists. exists m. split; [by apply list_elem_of_In|by apply str_eqb_true].
Qed.

Lemma member_added q m : consistent q → has_member q (interface m) = false → consistent (set_members q (members q ++ [m])).
Proof.
  intros [Hn Hd] Hm%has_member_false. split; [done|]. cbn. rewrite fmap_app. apply NoDup_app. split_and!; [done| |].
  - intros x Hx ->%list_elem_of_singleton. done.
  - apply NoDup_singleton.
Qed.

Lemma update_member_interfaces intf f ms ms' :
  (∀ m, interface (f m) = interface m) → update_member intf f ms = Some ms' → interface <$> ms' = interface <$> ms.
Proof.
  intros Hf. revert ms'. induction ms as [|m ms IH]; intros ms'; cbn; [done|]. destruct (str_eqb _ _).
  - intros [= <-]. cbn. by rewrite Hf.
  - destruct (update_member intf f ms) as [l|]; [|done]. intros [= <-]. cbn. f_equal. by apply IH.
Qed.

Lemma mark_interfaces idxs s (ms : list QueueMember) :
  interface <$> foldl (λ ms i, alter (λ m, set_status m s) i ms) ms idxs = interface <$> ms.
Proof.
  revert ms. induction idxs as [|i idxs IH]; intros ms; [done|]. cbn [foldl]. rewrite IH.
  apply list_eq. intros j. rewrite !list_lookup_fmap, list_lookup_alter. case_decide; [subst|done]. by destruct (ms !! j).
Qed.

Lemma filter_length_id {A} (P : A → Prop) `{∀ x, Decision (P x)} l :
  (length l ≤ length (filter P l))%nat → filter P l = l.
Proof.
  induction l as [|x l IH]; [done|]. rewrite filter_cons. pose proof (length_filter P l). case_decide; cbn; [|lia].
  intros. f_equal. apply IH. lia.
Qed.

Lemma filter_Forall_id {A} (P : A → Prop) `{∀ x, Decision (P x)} l : Forall P l → filter P l = l.
Proof. induction 1 as [|x l Hx _ IH]; [done|]. by rewrite filter_cons_True, IH. Qed.

Lemma consistent_members q ms :
  consistent q → interface <$> ms = interface <$> members q → consistent (set_members q ms).
Proof. intros [Hn Hd] E. split; [done|]. cbn. by rewrite E. Qed.

Lemma queue_step_consistent q q' : consistent q → queue_step q q' → consistent q'.
Proof.
  intros Hq Hstep. pose proof Hq as [Hn Hd]. destruct Hstep.
  - split; [|done]. cbn. intros i c'. rewrite lookup_app_Some. intros [Hi|[Hlt Hi]]; [by apply Hn|].
    apply list_lookup_singleton_Some in Hi as [Hi <-]. unfold waiting. cbn. lia.
  - by eapply renumbered.
  - by eapply renumbered.
  - unfold remove_caller. cbv zeta. destruct (Nat.ltb_spec (length (filter (λ c, channel_id c ≠ id) (callers q))) (length (callers q))) as [Hlt|Hge]; cbn [snd].
    + by apply (renumbered (set_abandoned q (wrap_u64 (abandoned_calls q + 1))) (members q)).
    + apply filter_length_id in Hge. rewrite Hge. by destruct q.
  - unfold check_periodic_announce. destruct (_ =? 0); [done|]. destruct (callers q !! i) as [c|] eqn:Ec; [|done].
    destruct (match last_periodic_announce c with Some _ => _ | None => _ end); [|done].
    destruct (bool_decide _); [done|]. split; [|done]. cbn. intros j c'.
    destruct (decide (i = j)) as [<-|Hne].
    + rewrite list_lookup_insert_eq by by eapply lookup_lt_Some. intros [= <-]. cbn. by apply Hn.
    + rewrite list_lookup_insert_ne by done. apply Hn.
  - unfold add_member. destruct (has_member q intf) eqn:E; [done|]. by apply member_added.
  - unfold add_dynamic_member. destruct (has_member q intf) eqn:E; [done|]. by apply member_added.
  - split; [done|]. cbn. eapply sublist_NoDup; [exact Hd|]. apply fmap_sublist, sublist_filter.
  - unfold set_member_paused. destruct (update_member _ _ _) as [ms|] eqn:E; [|done]. cbn.
    apply consistent_members; [done|]. eapply update_member_interfaces; [|exact E]. done.
  - unfold load_realtime_members. revert q Hq Hn Hd. induction loaded as [|m loaded IH]; intros q Hq Hn Hd; [done|]. cbn.
    destruct (has_member q (interface m)) eqn:E; [by apply IH|].
    pose proof (member_added q m Hq E) as Hq'. pose proof Hq' as [??]. by apply IH.
  - pose proof (select_members_choice shuffle ltac:(done) now mx mn q) as Hc.
    destruct (select_members_with_penalty _ _ _ _ _) as [sel q']. destruct Hc as [-> _]. cbn [snd].
    assert (interface <$> (refreshed now (wrap_up_time (config q)) <$> members q) = interface <$> members q) as E.
    { rewrite <-list_fmap_compose. apply list_fmap_ext. intros ? m _. cbn.
      apply (refreshed_same now (wrap_up_time (config q)) m). }
    pose proof (consistent_members q _ Hq E) as Hq'. unfold after_choice.
    destruct (strategy (config q)); try done. destruct sel; [done|]. destruct Hq'. by split.
  - apply consistent_members; [done|]. apply mark_interfaces.
  - by split.
Qed.

Lemma queue_new_consistent name s : consistent (queue_new name s).
Proof. split; [done|]. constructor. Qed.

Definition line (q : CallQueue) : list str := channel_id <$> callers q.

Lemma line_enqueue c q : line (enqueue_caller c q).2 = line q ++ [channel_id c].
Proof. unfold line. cbn. by rewrite fmap_app. Qed.

Lemma line_enqueue_at c p q :
  0 ≤ p →
  let '(pos, q') := enqueue_caller_at c p q in
  let k := Z.to_nat (pos - 1) in
  pos = (if bool_decide (1 ≤ p ≤ waiting q + 1) then p else waiting q + 1)
  ∧ line q' = take k (line q) ++ channel_id c :: drop k (line q).
Proof.
  intros Hp. unfold enqueue_caller_at, line. cbn. rewrite renumber_from_ids, fmap_app, fmap_take. cbn. rewrite fmap_drop.
  split; [|done]. case_bool_decide as Hin.
  - rewrite (proj2 (Z.eqb_neq p 0)), (proj2 (Z.ltb_ge _ _)) by lia. done.
  - destruct (Z.eqb_spec p 0); [done|]. rewrite (proj2 (Z.ltb_lt _ _)) by lia. done.
Qed.

Lemma line_dequeue q :
  let '(c, q') := dequeue_caller q in channel_id <$> c = head (line q) ∧ line q' = tail (line q).
Proof. unfold dequeue_caller, line. cbn. rewrite renumber_from_ids. by destruct (callers q). Qed.

Lemma line_remove id q :
  let '(removed, q') := remove_caller id q in
  (removed = true ↔ id ∈ line q) ∧ line q' = filter (λ x, x ≠ id) (line q)
  ∧ abandoned_calls q' = (if removed then wrap_u64 (abandoned_calls q + 1) else abandoned_calls q).
Proof.
  unfold remove_caller, line. cbv zeta.
  assert (channel_id <$> filter (λ c, channel_id c ≠ id) (callers q) = filter (λ x, x ≠ id) (channel_id <$> callers q)) as E.
  { induction (callers q) as [|c cs IH]; [done|]. rewrite fmap_cons, !filter_cons. case_decide; cbn; by rewrite IH. }
  destruct (Nat.ltb_spec (length (filter (λ c, channel_id c ≠ id) (callers q))) (length (callers q))) as [Hlt|Hge]; cbn.
  - rewrite renumber_from_ids, E. split; [|done]. split; [|done]. intros _. destruct (decide (id ∈ channel_id <$> callers q)); [done|].
    exfalso. assert (filter (λ x, x ≠ id) (channel_id <$> callers q) = channel_id <$> callers q) as E'.
    { apply filter_Forall_id, Forall_forall. intros x Hx ->. done. }
    rewrite <-E in E'. apply (f_equal length) in E'. rewrite !length_fmap in E'. lia.
  - split; [|done]. split; [done|]. intros Hin. exfalso. apply filter_length_id in Hge. rewrite <-Hge, E in Hin.
    apply list_elem_of_filter in Hin as [? _]. done.
Qed.

(** The queue is a line.  After every history of operations the callers stand in a
    line and are numbered by their place; who joins gets the place asked for if there
    is one and the last one otherwise, who is taken is the first, and who leaves, and
    nobody else, is gone and counted; no member is in the queue twice. *)
Theorem queue_is_a_line (name : str) (s : QueueStrategy) (q : CallQueue) :
  rtc queue_step (queue_new name s) q →
  (∀ i c, callers q !! i = Some c → position c = Z.of_nat i + 1)
  ∧ NoDup (interface <$> members q)
  ∧ (∀ c, (enqueue_caller c q).1 = waiting q + 1 ∧ line (enqueue_caller c q).2 = line q ++ [channel_id c])
  ∧ (∀ c p, 0 ≤ p →
      let '(pos, q') := enqueue_caller_at c p q in
      let k := Z.to_nat (pos - 1) in
      pos = (if bool_decide (1 ≤ p ≤ waiting q + 1) then p else waiting q + 1)
      ∧ line q' = take k (line q) ++ channel_id c :: drop k (line q))
  ∧ (let '(c, q') := dequeue_caller q in channel_id <$> c = head (line q) ∧ line q' = tail (line q))
  ∧ ∀ id, let '(removed, q') := remove_caller id q in
      (removed = true ↔ id ∈ line q) ∧ line q' = filter (λ x, x ≠ id) (line q)
      ∧ abandoned_calls q' = (if removed then wrap_u64 (abandoned_calls q + 1) else abandoned_calls q).
Proof.
  intros Hq. assert (consistent q) as [Hn Hd].
  { pose proof (queue_new_consistent name s) as Hnew. induction Hq as [q|q q1 q2 Hstep _ IH]; [done|].
    apply IH. by eapply queue_step_consistent. }
  split_and!; [done|done| | |apply line_dequeue|intros id; apply line_remove].
  - intros c. split; [done|apply line_enqueue].
  - intros c p. apply line_enqueue_at.
Qed.

(** ** Examples *)

Definition example_time : clock := {| wall := 1700000000; inst := 0 |}.

(** Three members; the second has the lower penalty together with the third. *)
Definition example_queue (s : QueueStrategy) : CallQueue :=
  (add_member example_time (lit "SIP/erin") (lit "Erin") 1
    (add_member example_time (lit "SIP/bob") (lit "Bob") 1
      (add_member example_time (lit "SIP/alice") (lit "Alice") 2 (queue_new (lit "support") s)).1.2).1.2).1.2.

Example example_choices :
  (select_members id 0 (example_queue RingAll)).1 = [1; 2; 0]%nat
  ∧ (select_members id 0 (example_queue FewestCalls)).1 = [1]%nat
  ∧ (select_members id 0 (set_rr_index (example_queue RoundRobin) 2)).1 = [2]%nat.
Proof. by vm_compute. Qed.

Lemma select_members_decides_witness :
  let '(sel, q') := select_members_with_penalty (@rev nat) 0 u32_MAX 0 (example_queue Random) in
  q' = after_choice 0 (example_queue Random) sel
  ∧ (sel = [] ↔ ∀ i, ¬ ready 0 u32_MAX 0 (example_queue Random) i)
  ∧ (sel ≠ [] → choice_ok 0 u32_MAX 0 (example_queue Random) sel).
Proof.
  apply (select_members_decides (@rev nat) 0 u32_MAX 0 (example_queue Random)).
  intros l. symmetry. apply Permutation_rev.
Defined.

Definition example_round : round := {| r_now := 0; r_max := u32_MAX; r_min := 0; r_members := members (example_queue RoundRobin) |}.

Lemma example_in_turn : Forall (in_turn 3 1 (example_queue RoundRobin)) (replicate 3 example_round).
Proof.
  apply Forall_replicate. split; [done|].
  assert (∀ j, ready 0 u32_MAX 0 (set_members (example_queue RoundRobin) (r_members example_round)) j → (j < 3)%nat) as Hlt.
  { intros j Hj. by apply ready_bound in Hj. }
  split.
  - eexists. split; [reflexivity|]. split; [|split; vm_compute; discriminate]. split_and!; [done..|by left].
  - intros j Hj. specialize (Hlt j Hj). do 3 (destruct j as [|j]; [vm_compute; discriminate|]). lia.
Qed.

Lemma round_robin_serves_witness : 1%nat ∈ rounds_run id (example_queue RoundRobin) (replicate 3 example_round).
Proof.
  apply (round_robin_serves id 3 1 (example_queue RoundRobin) (replicate 3 example_round)).
  - reflexivity.
  - lia.
  - apply example_in_turn.
  - rewrite length_replicate. lia.
Defined.

Lemma queue_is_a_line_witness :
  NoDup (interface <$> members (example_queue Linear)).
Proof.
  refine (proj1 (proj2 (queue_is_a_line (lit "support") Linear (example_queue Linear) _))).
  eapply rtc_l; [apply (step_add _ example_time (lit "SIP/alice") (lit "Alice") 2)|].
  eapply rtc_l; [apply (step_add _ example_time (lit "SIP/bob") (lit "Bob") 1)|].
  eapply rtc_l; [apply (step_add _ example_time (lit "SIP/erin") (lit "Erin") 1)|]. apply rtc_refl.
Defined.
