(* ===== verification/QueueApp.v ===== *)
(** * The application Queue ([asterisk-apps/src/queue.rs])

    A caller joins a queue, waits in a loop for a member to ring, and leaves; the
    queues have names in a global registry.  The caller of [exec] holds its queue by
    reference: it keeps the object it joined when another one is registered under
    the name.  Other callers and the manager may change the queue wherever the loop
    has given the lock up for long: while members ring and while the caller sleeps.

    [queue_call_leaves] says what a call of the application comes to, and
    [queue_wait_ends] that it ends when a limit is set. *)

From Stdlib Require Import NArith ZArith Ascii String.
From S2P Require Import Prelude RustStr Types Channel PbxApps CallQueue.
Local Open Scope Z_scope.
Local Open Scope list_scope.

(** ** Results and options *)

Inductive ConnectResult := Connected | MemberBusy | MemberNoAnswer | CallerHangup.

Inductive QueueResult :=
  | Completed | QTimeout | Abandoned | JoinEmpty | LeaveEmpty | QError | QExitWithKey | QTransfer.
#[export] Instance QueueResult_eq_dec : EqDecision QueueResult.
Proof. solve_decision. Defined.

Definition as_status_var (r : QueueResult) : str :=
  match r with
  | Completed => lit "CONTINUE" | QTimeout => lit "TIMEOUT" | Abandoned => lit "ABANDON"
  | JoinEmpty => lit "JOINEMPTY" | LeaveEmpty => lit "LEAVEEMPTY" | QError => lit "FAILED"
  | QExitWithKey => lit "EXITWITHKEY" | QTransfer => lit "TRANSFER"
  end.

Record QueueOptions := {
  continue_on_hangup : bool; no_retry : bool; ring_instead_of_moh : bool; allow_callee_transfer : bool;
  allow_caller_transfer : bool; allow_callee_hangup : bool; allow_caller_hangup : bool;
  mark_answered_elsewhere : bool; moh_class : option str }.

(** A flag is set when its letter is somewhere in the text. *)
Definition options_parse (opts : str) : QueueOptions :=
  {| continue_on_hangup := contains_char (chr "c") opts;
     no_retry := contains_char (chr "n") opts;
     ring_instead_of_moh := contains_char (chr "r") opts;
     allow_callee_transfer := contains_char (chr "t") opts;
     allow_caller_transfer := contains_char (chr "T") opts;
     allow_callee_hangup := contains_char (chr "h") opts;
     allow_caller_hangup := contains_char (chr "H") opts;
     mark_answered_elsewhere := contains_char (chr "C") opts;
     moh_class := None |}.

Record QueueStatusVars := {
  queue_status : str; queue_name : str; queue_position : Z; queue_holdtime : Z; queue_completed : Z;
  queue_abandoned : Z; queue_wait : Z; answered_time : Z }.

Definition status_variables (v : QueueStatusVars) : list (str * str) :=
  [(lit "QUEUESTATUS", queue_status v); (lit "QUEUENAME", queue_name v);
   (lit "QUEUEPOSITION", show_int (queue_position v)); (lit "QUEUEHOLDTIME", show_int (queue_holdtime v));
   (lit "QUEUECOMPLETED", show_int (queue_completed v)); (lit "QUEUEABANDONED", show_int (queue_abandoned v));
   (lit "QUEUEWAIT", show_int (queue_wait v)); (lit "ANSWEREDTIME", show_int (answered_time v))].

Definition apply_to_channel (v : QueueStatusVars) (c : Channel) : Channel :=
  set_variables c (foldl (λ m kv, <[kv.1 := kv.2]> m) (variables c) (status_variables v)).

Definition set_status_vars (c : Channel) (q : CallQueue) (r : QueueResult) (wait_secs answered : Z) : Channel :=
  apply_to_channel
    {| queue_status := as_status_var r; queue_name := q_name (config q); queue_position := 0;
       queue_holdtime := avg_holdtime_secs q; queue_completed := completed_calls q;
       queue_abandoned := abandoned_calls q; queue_wait := wait_secs; answered_time := answered |} c.

(** ** The registry of queues *)

Record Queues := { by_name : gmap str nat; heap : gmap nat CallQueue; next_queue : nat }.

Definition queues_new : Queues := {| by_name := ∅; heap := ∅; next_queue := 0 |}.

Definition register_object (name : str) (q : CallQueue) (qs : Queues) : nat * Queues :=
  (next_queue qs, {| by_name := <[name := next_queue qs]> (by_name qs); heap := <[next_queue qs := q]> (heap qs);
                     next_queue := S (next_queue qs) |}).

Definition register_queue (name : str) (s : QueueStrategy) (qs : Queues) : nat * Queues :=
  register_object name (queue_new name s) qs.

Definition get_or_create_queue (name : str) (qs : Queues) : nat * Queues :=
  match by_name qs !! name with
  | Some o => (o, qs)
  | None => register_object name (queue_new name RingAll) qs
  end.

Definition store (o : nat) (q : CallQueue) (qs : Queues) : Queues :=
  {| by_name := by_name qs; heap := <[o := q]> (heap qs); next_queue := next_queue qs |}.

Definition queue_named (name : str) (qs : Queues) : option (nat * CallQueue) :=
  o ← by_name qs !! name; q ← heap qs !! o; Some (o, q).

(** An operation on the queue with a name, false if there is none. *)
Definition on_queue (name : str) (f : CallQueue → bool * CallQueue * list QueueLogEntry) (qs : Queues)
    : bool * Queues * list QueueLogEntry :=
  match queue_named name qs with
  | Some (o, q) => let '(b, q, log) := f q in (b, store o q qs, log)
  | None => (false, qs, [])
  end.

Definition app_add_member (t : clock) (name intf mname : str) (pen : Z) := on_queue name (add_member t intf mname pen).
Definition app_remove_member (t : clock) (name intf : str) := on_queue name (remove_member t intf).
Definition pause_member (t : clock) (name intf : str) (p : bool) := on_queue name (set_member_paused t intf p None).
Definition pause_member_with_reason (t : clock) (name intf : str) (p : bool) (reason : str) :=
  on_queue name (set_member_paused t intf p (Some reason)).
Definition queue_exists (name : str) (qs : Queues) : bool := bool_decide (is_Some (by_name qs !! name)).
Definition queue_stats (name : str) (qs : Queues) : option QueueStatusVars :=
  (λ oq : nat * CallQueue, let q := oq.2 in
     {| queue_status := []; queue_name := q_name (config q); queue_position := 0;
        queue_holdtime := avg_holdtime_secs q; queue_completed := completed_calls q;
        queue_abandoned := abandoned_calls q; queue_wait := 0; answered_time := 0 |}) <$> queue_named name qs.

Abbreviation QueueRules := (gmap str (list QueueRule)) (only parsing).
Definition register_rule (name : str) (rs : list QueueRule) (rules : QueueRules) : QueueRules := <[name := rs]> rules.

(** ** Waiting *)

(** What a caller meets: the time at which each turn of its loop begins, and what
    others do to the queue after it was let in, while members ring in a turn, and
    while it sleeps after a turn. *)
Record world := {
  join_time : clock;
  turn_time : nat → clock;
  leave_time : clock;
  joining : CallQueue → CallQueue;
  while_ringing : nat → CallQueue → CallQueue;
  while_asleep : nat → CallQueue → CallQueue;
}.

Definition attempt_connect (meanwhile : CallQueue → CallQueue) (idxs : list nat) (q : CallQueue) : ConnectResult * CallQueue :=
  if bool_decide (idxs = []) then (MemberNoAnswer, q)
  else (MemberNoAnswer, mark idxs Available (meanwhile (mark idxs Ringing q))).

Definition find_caller (id : str) (q : CallQueue) : option (nat * QueueCaller) :=
  list_find (λ c, channel_id c = id) (callers q).

Definition penalty_limits (rules : QueueRules) (rule_name : option str) (waited_secs : Z) (q : CallQueue) : Z * Z :=
  match rule_name with
  | Some rule => match rules !! rule with Some rs => evaluate_rules rs waited_secs | None => (u32_MAX, 0) end
  | None =>
      match default_rule (config q) with
      | Some rule => match rules !! rule with Some rs => evaluate_rules rs waited_secs | None => (u32_MAX, 0) end
      | None => (u32_MAX, 0)
      end
  end.

Definition complete_call (wait_time : Z) (q : CallQueue) : CallQueue :=
  mkQueue (config q) (members q) (callers q) (wrap_u64 (completed_calls q + 1)) (abandoned_calls q) (rr_index q)
    (if wait_time <=? service_level (config q) then wrap_u64 (calls_within_sl q + 1) else calls_within_sl q)
    (wrap_u64 (total_holdtime_secs q + as_secs wait_time)) (wrap_u64 (holdtime_call_count q + 1)) (periodic_announce_index q).

Definition all_unavailable (q : CallQueue) : bool :=
  forallb (λ m, bool_decide (status m = Unavailable) || paused m) (members q).

Section wait.
Context (shuffle : list nat → list nat) (rules : QueueRules) (w : world).
Context (channel : Channel) (queue_name : str) (timeout : Z) (rule_name : option str).

Definition waited (k : nat) : Z := since (inst (turn_time w k)) (inst (turn_time w 0)).

(** Announcements change only when the caller heard the last one. *)
Definition announce (now : Z) (q : CallQueue) : CallQueue :=
  match find_caller (unique_id channel) q with
  | Some (i, _) => (check_periodic_announce now i q).2
  | None => q
  end.

Fixpoint queue_wait_loop (fuel k : nat) (q : CallQueue) : option (QueueResult * CallQueue * list QueueLogEntry) :=
  match fuel with
  | O => None
  | S fuel =>
      let t := turn_time w k in
      if bool_decide (chan_state channel = CsDown) then
        let pos := match find_caller (unique_id channel) q with Some (_, c) => position c | None => 0 end in
        Some (Abandoned, q, [entry_new t (unique_id channel) queue_name (lit "NONE") Abandon
          [show_int pos; show_int pos; show_int (as_secs (waited k))]])
      else if negb (timeout =? 0) && (timeout <=? waited k) then Some (QTimeout, q, [])
      else if negb (max_wait_time (config q) =? 0) && (max_wait_time (config q) <=? waited k) then Some (QTimeout, q, [])
      else if leave_when_empty (config q) && all_unavailable q && negb (bool_decide (members q = []))
      then Some (LeaveEmpty, q, [])
      else
        let '(max_pen, min_pen) := penalty_limits rules rule_name (as_secs (waited k)) q in
        let '(selected, q) := select_members_with_penalty shuffle (inst t) max_pen min_pen q in
        if bool_decide (selected = []) then Some (QTimeout, while_asleep w k (announce (inst t) q), [])
        else
          let '(result, q) := attempt_connect (while_ringing w k) selected q in
          match result with
          | Connected =>
              Some (Completed, complete_call (waited k) q,
                [entry_new t (unique_id channel) queue_name (lit "agent") Connect
                   [show_int (as_secs (waited k)); lit "bridged_channel"; lit "0"]])
          | MemberBusy | MemberNoAnswer =>
              let entry := entry_new t (unique_id channel) queue_name (lit "agent") RingNoAnswer
                             [show_int (as_secs (ring_timeout (config q)))] in
              match queue_wait_loop fuel (S k) (while_asleep w k q) with
              | Some (r, q, log) => Some (r, q, entry :: log)
              | None => None
              end
          | CallerHangup => Some (Abandoned, q, [])
          end
  end.
End wait.

(** ** The application *)

(** Pieces of the argument text. *)
Definition arg (parts : list str) (i : nat) : option str := trim <$> parts !! i.

Definition non_empty (x : str) : option str := if bool_decide (x = []) then None else Some x.

Definition caller_new (now : Z) (c : Channel) : QueueCaller :=
  {| channel_id := unique_id c; channel_name := chan_name c; position := 0; enter_time := now;
     qc_name := non_empty (caller_name c); qc_number := non_empty (caller_number c);
     last_periodic_announce := None; last_position_announce := None |}.

(** A full queue or, where that is asked for, one without members is not joined. *)
Definition may_join (now : Z) (q : CallQueue) : bool :=
  negb ((0 <? max_callers (config q)) && (max_callers (config q) <=? waiting q))
  && negb (negb (join_empty (config q)) && (available_member_count now q =? 0)%nat && bool_decide (members q = [])).

Definition exec_result (r : QueueResult) : PbxExecResult :=
  match r with Abandoned => ExecHangup | QError => ExecFailed | _ => ExecSuccess end.

Definition exec (shuffle : list nat → list nat) (rules : QueueRules) (w : world) (fuel : nat)
    (channel : Channel) (args : str) (qs : Queues) : option (PbxExecResult * QueueResult * Channel * Queues * list QueueLogEntry) :=
  let parts := splitn 9 (chr ",") args in
  let name := default [] (arg parts 0) in
  if bool_decide (name = []) then Some (ExecFailed, QError, channel, qs, [])
  else
    let timeout := match arg parts 4 with Some t => 1000 * default 0 (parse_unsigned 64 t) | None => 0 end in
    let rule_name := x ← arg parts 7; non_empty x in
    let desired := p ← (x ← arg parts 8; parse_usize x); if 0 <? p then Some p else None in
    let '(o, qs) := get_or_create_queue name qs in
    let q := default (queue_new name RingAll) (heap qs !! o) in
    if negb (may_join (inst (join_time w)) q)
    then Some (ExecSuccess, JoinEmpty, set_status_vars channel q JoinEmpty 0 0, qs, [])
    else
      let caller := caller_new (inst (join_time w)) channel in
      let q := (match desired with Some p => enqueue_caller_at caller p (joining w q)
                                 | None => enqueue_caller caller (joining w q) end).2 in
      let entry := entry_new (join_time w) (unique_id channel) name (lit "NONE") EnterQueue [[]; caller_number channel] in
      match queue_wait_loop shuffle rules w channel name timeout rule_name fuel 0 q with
      | None => None
      | Some (r, q, log) =>
          let wait_secs := match find_caller (unique_id channel) q with
                           | Some (_, c) => as_secs (since (inst (leave_time w)) (enter_time c))
                           | None => 0 end in
          let q := (remove_caller (unique_id channel) q).2 in
          Some (exec_result r, r, set_status_vars channel q r wait_secs 0, store o q qs, entry :: log)
      end.

(** ** What others do *)

(** The rest of the system works with the operations of the queue. *)
Record world_ok (w : world) : Prop := {
  joining_ok : ∀ q, rtc queue_step q (joining w q);
  ringing_ok : ∀ k q, rtc queue_step q (while_ringing w k q);
  asleep_ok : ∀ k q, rtc queue_step q (while_asleep w k q);
}.

Lemma queue_steps_consistent q q' : rtc queue_step q q' → consistent q → consistent q'.
Proof. induction 1 as [|q q1 q2 Hstep _ IH]; [done|]. intros Hq. apply IH. by eapply queue_step_consistent. Qed.

Lemma select_config shuffle now mx mn q : config (select_members_with_penalty shuffle now mx mn q).2 = config q.
Proof.
  unfold select_members_with_penalty. cbv zeta. by repeat case_match.
Qed.

Lemma check_periodic_config now i q : config (check_periodic_announce now i q).2 = config q.
Proof.
  unfold check_periodic_announce. destruct (_ =? 0); [done|]. destruct (callers q !! i) as [c|]; [|done].
  destruct (match last_periodic_announce c with Some _ => _ | None => _ end); [|done]. by destruct (bool_decide _).
Qed.

Lemma queue_step_config q q' : queue_step q q' → config q' = config q.
Proof.
  destruct 1; try done.
  - unfold remove_caller. by destruct (_ <? _)%nat.
  - apply check_periodic_config.
  - unfold add_member. by destruct (has_member q intf).
  - unfold add_dynamic_member. by destruct (has_member q intf).
  - unfold set_member_paused. by destruct (update_member _ _ _).
  - unfold load_realtime_members. revert q. induction loaded as [|m loaded IH]; intros q; [done|]. cbn.
    destruct (has_member q _); by rewrite IH.
  - apply select_config.
Qed.

Lemma queue_steps_config q q' : rtc queue_step q q' → config q' = config q.
Proof. induction 1 as [|q q1 q2 Hstep _ IH]; [done|]. by rewrite IH, (queue_step_config q q1). Qed.

Section waiting.
Context (shuffle : list nat → list nat) (shuffle_perm : ∀ l, shuffle l ≡ₚ l).
Context (rules : gmap str (list QueueRule)) (w : world) (w_ok : world_ok w).
Context (channel : Channel) (name : str) (timeout : Z) (rule_name : option str).

Let loop := queue_wait_loop shuffle rules w channel name timeout rule_name.

(** A turn of the loop: it returns, nobody being connected, or rings and sleeps. *)
Inductive turn_result (k : nat) (q : CallQueue) : Type :=
  | Returns (r : QueueResult) (q' : CallQueue) (log : list QueueLogEntry)
      (Hr : r = QTimeout ∨ r = Abandoned ∨ r = LeaveEmpty) (Hq : rtc queue_step q q')
  | Rings (q' : CallQueue) (entry : QueueLogEntry) (Hq : rtc queue_step q q')
      (Hlimits : (timeout = 0 ∨ waited w k < timeout) ∧ (max_wait_time (config q) = 0 ∨ waited w k < max_wait_time (config q))).

Lemma wait_turn k q :
  { r | ∀ fuel, loop (S fuel) k q =
      match (r : turn_result k q) with
      | Returns _ _ res q' log _ _ => Some (res, q', log)
      | Rings _ _ q' entry _ _ =>
          match loop fuel (S k) q' with Some (r, q, log) => Some (r, q, entry :: log) | None => None end
      end }.
Proof.
  unfold loop. cbn [queue_wait_loop]. destruct (bool_decide _).
  { unshelve eexists (Returns _ _ _ _ _ _ _); [..|done]; auto; constructor. }
  destruct (negb (timeout =? 0) && (timeout <=? waited w k)) eqn:E1.
  { unshelve eexists (Returns _ _ _ _ _ _ _); [..|done]; auto; constructor. }
  destruct (negb (max_wait_time _ =? 0) && _) eqn:E2.
  { unshelve eexists (Returns _ _ _ _ _ _ _); [..|done]; auto; constructor. }
  destruct (_ && _ && _).
  { unshelve eexists (Returns _ _ _ _ _ _ _); [..|done]; auto; constructor. }
  destruct (penalty_limits _ _ _ _) as [mx mn].
  pose proof (step_select q shuffle (inst (turn_time w k)) mx mn shuffle_perm) as Hsel.
  destruct (select_members_with_penalty _ _ _ _ _) as [selected q1]. cbn [snd] in Hsel.
  unfold attempt_connect. destruct (bool_decide_reflect (selected = [])) as [->|Hne].
  - unshelve eexists (Returns _ _ _ _ _ _ _); [..|done]; [auto|].
    eapply rtc_l; [exact Hsel|]. etransitivity; [|apply (asleep_ok w w_ok)]. unfold announce.
    destruct (find_caller _ _) as [[i c]|]; [|done]. apply rtc_once, step_announce.
  - unshelve eexists (Rings _ _ _ _ _ _); [..|done].
    + eapply rtc_l; [exact Hsel|]. eapply rtc_l; [apply (step_mark _ selected Ringing)|].
      etransitivity; [apply (ringing_ok w w_ok k)|]. eapply rtc_l; [apply (step_mark _ selected Available)|].
      apply (asleep_ok w w_ok).
    + apply andb_false_iff in E1, E2. rewrite !negb_false_iff, !Z.eqb_eq, !Z.leb_gt in E1, E2. tauto.
Qed.

Lemma wait_loop_result fuel k q r q' log :
  loop fuel k q = Some (r, q', log) → (r = QTimeout ∨ r = Abandoned ∨ r = LeaveEmpty) ∧ rtc queue_step q q'.
Proof.
  revert k q r q' log. induction fuel as [|fuel IH]; intros k q r q' log; [done|].
  destruct (wait_turn k q) as [t Ht]. rewrite Ht. clear Ht. destruct t as [res q1 log1 Hres Hq|q1 entry Hq _].
  - intros [= <- <- <-]. done.
  - destruct (loop fuel (S k) q1) as [[[r2 q2] log2]|] eqn:E; [|done]. intros [= <- <- <-].
    apply IH in E as [Hr Hq2]. split; [done|]. by etransitivity.
Qed.
(** Enough turns for the shortest limit that is set. *)
Lemma wait_loop_returns cf limit fuel k q :
  config q = cf → 0 < retry_interval cf →
  (∀ k, inst (turn_time w k) + retry_interval cf ≤ inst (turn_time w (S k))) →
  (timeout ≠ 0 ∧ timeout ≤ limit) ∨ (max_wait_time cf ≠ 0 ∧ max_wait_time cf ≤ limit) →
  (0 < fuel)%nat → limit ≤ (Z.of_nat k + Z.of_nat fuel - 1) * retry_interval cf →
  is_Some (loop fuel k q).
Proof.
  intros Hcf Hretry Hclock Hlimit Hf Hk.
  assert (∀ k, Z.of_nat k * retry_interval cf ≤ waited w k) as Hw.
  { intros j. enough (Z.of_nat j * retry_interval cf ≤ inst (turn_time w j) - inst (turn_time w 0)) by (unfold waited, since; lia).
    induction j as [|j IH]; [lia|]. specialize (Hclock j). rewrite Nat2Z.inj_succ. lia. }
  revert k q Hcf Hk. induction fuel as [|fuel IH]; intros k q Hcf Hk; [lia|].
  destruct (wait_turn k q) as [t Ht]. rewrite Ht. clear Ht. destruct t as [res q1 log1 Hres Hq|q1 entry Hq Hlim]; [done|].
  rewrite Hcf in Hlim. specialize (Hw k). destruct fuel as [|fuel]; [lia|].
  destruct (IH ltac:(lia) (S k) q1) as [[[r q'] log] ->]; [by rewrite (queue_steps_config q q1)|lia|done].
Qed.
End waiting.

(** The wait ends.  When a limit is set, the time out of the call or the longest wait
    of the queue, and whatever others do meanwhile, the loop returns after no more
    turns than retries fit into the limit, two more at most. *)
Theorem queue_wait_ends (shuffle : list nat → list nat) (rules : gmap str (list QueueRule)) (w : world) (channel : Channel)
    (name : str) (timeout limit : Z) (rule_name : option str) (q : CallQueue) :
  (∀ l, shuffle l ≡ₚ l) → world_ok w →
  0 < retry_interval (config q) →
  (∀ k, inst (turn_time w k) + retry_interval (config q) ≤ inst (turn_time w (S k))) →
  0 ≤ limit → (timeout ≠ 0 ∧ timeout ≤ limit) ∨ (max_wait_time (config q) ≠ 0 ∧ max_wait_time (config q) ≤ limit) →
  is_Some (queue_wait_loop shuffle rules w channel name timeout rule_name
             (Z.to_nat (limit / retry_interval (config q)) + 2) 0 q).
Proof.
  intros Hsh Hw Hretry Hclock Hpos Hlimit.
  apply (wait_loop_returns shuffle Hsh rules w Hw channel name timeout rule_name (config q) limit); [done..|lia|].
  pose proof (Z.mul_div_le limit (retry_interval (config q)) Hretry).
  pose proof (Z.mul_succ_div_gt limit (retry_interval (config q)) Hretry).
  pose proof (Z.div_pos limit (retry_interval (config q)) Hpos Hretry). nia.
Qed.

(** The names of the variables. *)
Definition status_names : list str :=
  [lit "QUEUESTATUS"; lit "QUEUENAME"; lit "QUEUEPOSITION"; lit "QUEUEHOLDTIME"; lit "QUEUECOMPLETED";
   lit "QUEUEABANDONED"; lit "QUEUEWAIT"; lit "ANSWEREDTIME"].

Lemma set_status_vars_spec c q r a b :
  let c' := set_status_vars c q r a b in
  variables c' !! lit "QUEUESTATUS" = Some (as_status_var r)
  ∧ (∀ k, k ∉ status_names → variables c' !! k = variables c !! k)
  ∧ set_variables c' (variables c) = c.
Proof.
  unfold set_status_vars, apply_to_channel, status_variables. cbn [foldl fst snd]. split_and!.
  - cbn [variables set_variables]. rewrite !lookup_insert_ne by (by apply (bool_decide_unpack _); vm_compute).
    by rewrite lookup_insert_eq.
  - intros k Hk. cbn [variables set_variables]. unfold status_names in Hk. rewrite !not_elem_of_cons in Hk.
    destruct Hk as (?&?&?&?&?&?&?&?&_). rewrite !lookup_insert_ne by done. done.
  - by destruct c.
Qed.

Lemma get_or_create_named name qs : by_name (get_or_create_queue name qs).2 !! name = Some (get_or_create_queue name qs).1.
Proof.
  unfold get_or_create_queue. destruct (by_name qs !! name) as [o|] eqn:E; [done|]. cbn. apply lookup_insert_eq.
Qed.

Lemma remove_caller_line id q : id ∉ line (remove_caller id q).2.
Proof.
  pose proof (line_remove id q) as Hl. destruct (remove_caller id q) as [b q']. cbn [snd]. destruct Hl as (_ & -> & _).
  intros [? _]%list_elem_of_filter. done.
Qed.

(** What a call of the application comes to.  If it returns, no member was connected:
    the name was missing, the queue was not to be joined, the time was up, the caller
    was gone, or the members were.  The result of the application and [QUEUESTATUS] say
    which; of the channel only the status variables change.  A caller that joined is
    not in the queue any more, which is as consistent as before, and no other queue
    has changed. *)
Theorem queue_call_leaves (shuffle : list nat → list nat) (rules : gmap str (list QueueRule)) (w : world) (fuel : nat)
    (channel : Channel) (args : str) (qs : Queues) pr r channel' qs' log :
  (∀ l, shuffle l ≡ₚ l) → world_ok w →
  exec shuffle rules w fuel channel args qs = Some (pr, r, channel', qs', log) →
  let name := default [] (arg (splitn 9 (chr ",") args) 0) in
  let '(o, qs0) := get_or_create_queue name qs in
  let q0 := default (queue_new name RingAll) (heap qs0 !! o) in
  pr = exec_result r
  ∧ if bool_decide (name = []) then r = QError ∧ channel' = channel ∧ qs' = qs ∧ log = []
    else
      variables channel' !! lit "QUEUESTATUS" = Some (as_status_var r)
      ∧ (∀ k, k ∉ status_names → variables channel' !! k = variables channel !! k)
      ∧ set_variables channel' (variables channel) = channel
      ∧ if may_join (inst (join_time w)) q0
        then (r = QTimeout ∨ r = Abandoned ∨ r = LeaveEmpty)
             ∧ ∃ q', qs' = store o q' qs0 ∧ (unique_id channel ∉ line q') ∧ config q' = config q0 ∧ (consistent q0 → consistent q')
        else r = JoinEmpty ∧ qs' = qs0 ∧ log = [].
Proof.
  intros Hsh Hw He. cbv zeta. unfold exec in He. cbv zeta in He.
  set (name := default [] (arg (splitn 9 (chr ",") args) 0)) in *.
  destruct (get_or_create_queue name qs) as [o qs0].
  destruct (bool_decide_reflect (name = [])); [by injection He as <- <- <- <- <-|].
  set (q0 := default (queue_new name RingAll) (heap qs0 !! o)) in *.
  destruct (may_join (inst (join_time w)) q0); cbn [negb] in He.
  2:{ injection He as <- <- <- <- <-. split; [done|]. destruct (set_status_vars_spec channel q0 JoinEmpty 0 0) as (?&?&?). done. }
  set (q1 := (match _ ≫= _ with Some p => _ | None => _ end).2) in He.
  assert (rtc queue_step q0 q1) as Hq1.
  { etransitivity; [apply (joining_ok w Hw)|]. unfold q1. destruct (arg _ 8 ≫= parse_usize) as [p|]; cbn [mbind option_bind].
    - destruct (Z.ltb_spec 0 p); [|apply rtc_once, step_enqueue]. apply rtc_once, step_enqueue_at. lia.
    - apply rtc_once, step_enqueue. }
  clearbody q1. destruct (queue_wait_loop _ _ _ _ _ _ _ fuel 0 q1) as [[[r2 q2] log2]|] eqn:El; [|done].
  apply wait_loop_result in El as [Hr Hq2]; [|done..]. injection He as <- <- <- <- _. split; [done|].
  destruct (set_status_vars_spec channel (remove_caller (unique_id channel) q2).2 r2
    (match find_caller (unique_id channel) q2 with Some (_, c) => as_secs (since (inst (leave_time w)) (enter_time c)) | None => 0 end) 0) as (?&?&?).
  split_and!; [done..|]. assert (rtc queue_step q0 (remove_caller (unique_id channel) q2).2) as Hq.
  { etransitivity; [exact Hq1|]. etransitivity; [exact Hq2|]. apply rtc_once, step_remove_caller. }
  exists (remove_caller (unique_id channel) q2).2. split_and!; [done|apply remove_caller_line|by apply queue_steps_config|].
  by apply queue_steps_consistent.
Qed.

(** ** A wait without a limit *)

(** A member that is always there to be rung. *)
Definition always_ready (q : CallQueue) (i : nat) : Prop :=
  ∃ m, members q !! i = Some m ∧ paused m = false ∧ in_call m = false ∧ status m = Available ∧ 0 ≤ penalty m ≤ u32_MAX.

Lemma mark_lookup idxs s q i :
  members (mark idxs s q) !! i = (if bool_decide (i ∈ idxs) then (λ m, set_status m s) <$> members q !! i else members q !! i).
Proof.
  unfold mark. cbn. generalize (members q) as ms. induction idxs as [|j idxs IH]; intros ms; [done|].
  cbn [foldl]. rewrite IH, list_lookup_alter. destruct (decide (j = i)) as [->|Hne].
  - rewrite (bool_decide_true (i ∈ i :: idxs)) by set_solver. case_bool_decide; [|done]. by destruct (ms !! i).
  - do 2 case_bool_decide; [done|set_solver|set_solver|done].
Qed.

Lemma always_ready_rung idxs q i : always_ready q i → always_ready (mark idxs Available (mark idxs Ringing q)) i.
Proof.
  intros (m & Hm & Hp & Hc & Hs & Hpen). unfold always_ready. rewrite !mark_lookup, Hm. case_bool_decide; cbn; eauto 10.
Qed.

Lemma always_ready_chosen now q sel i : always_ready q i → always_ready (after_choice now q sel) i.
Proof.
  intros (m & Hm & Hp & Hc & Hs & Hpen). exists m. split_and!; [|done..|lia|lia].
  assert (refreshed now (wrap_up_time (config q)) m = m) as E.
  { destruct (refreshed_cases now (wrap_up_time (config q)) m) as [?|[? _]]; [done|congruence]. }
  unfold after_choice. destruct (strategy (config q)), sel; cbn; by rewrite list_lookup_fmap, Hm; cbn; rewrite E.
Qed.

(** Without a limit a caller waits for ever in a queue that has a member to ring:
    nobody answers, and that the caller hung up is not seen. *)
Theorem queue_wait_never_ends (shuffle : list nat → list nat) (rules : gmap str (list QueueRule)) (w : world) (channel : Channel)
    (name : str) (q : CallQueue) (i fuel k : nat) :
  (∀ l, shuffle l ≡ₚ l) → (∀ k q, while_ringing w k q = q) → (∀ k q, while_asleep w k q = q) →
  chan_state channel ≠ CsDown → max_wait_time (config q) = 0 → leave_when_empty (config q) = false →
  default_rule (config q) = None → always_ready q i →
  queue_wait_loop shuffle rules w channel name 0 None fuel k q = None.
Proof.
  intros Hsh Hring Hsleep Hup Hmax Hleave Hrule. revert k q Hmax Hleave Hrule.
  induction fuel as [|fuel IH]; intros k q Hmax Hleave Hrule Hi; [done|]. cbn [queue_wait_loop].
  rewrite (bool_decide_false (_ = CsDown)), Hmax, Hleave by done. cbn [negb Z.eqb andb]. unfold penalty_limits. rewrite Hrule.
  pose proof (select_members_decides shuffle (inst (turn_time w k)) u32_MAX 0 q Hsh) as Hd.
  pose proof (select_config shuffle (inst (turn_time w k)) u32_MAX 0 q) as Hc.
  destruct (select_members_with_penalty _ _ _ _ _) as [sel q1]. destruct Hd as (-> & Hnone & _). cbn [snd] in Hc.
  set (sel' := sel) in |- *. assert (sel ≠ []) as Hne.
  { intros Hn. apply (proj1 Hnone Hn i). destruct Hi as (m & Hm & Hp & Hca & Hs & Hpen). exists m.
    split_and!; [done| |lia..]. unfold free. auto. }
  unfold attempt_connect, sel'. rewrite !bool_decide_false by done. rewrite Hring, Hsleep.
  rewrite IH; [done|by cbn; rewrite Hc..|]. by apply always_ready_rung, always_ready_chosen.
Qed.

(** ** Examples *)

Definition example_clock (k : nat) : clock := {| wall := 1700000000; inst := 5000 * Z.of_nat k |}.
Definition example_world : world :=
  {| join_time := example_clock 0; turn_time := example_clock; leave_time := example_clock 20;
     joining := λ q, q; while_ringing := λ _ q, q; while_asleep := λ _ q, q |}.

Definition staffed (s : QueueStrategy) (names : list str) : CallQueue :=
  foldl (λ q n, (add_member (example_clock 0) n n 0 q).1.2) (queue_new (lit "support") s) names.

Definition support : CallQueue := staffed RingAll [lit "SIP/alice"; lit "SIP/bob"].
Definition support_queues : Queues := (register_object (lit "support") support queues_new).2.
Definition caller_channel : Channel := (set_state (channel_new (lit "id-1") (lit "SIP/carol")) CsUp).1.

Lemma example_world_ok : world_ok example_world.
Proof. by split. Qed.

(** The arguments of a call that waits at most twelve seconds. *)
Definition example_args : str := lit "support,n,,,12".

(** Three turns, at 0, 5 and 10 seconds; at 15 the time is up. *)
Example example_call :
  match exec id ∅ example_world 10 caller_channel example_args support_queues with
  | Some (pr, r, c, qs, log) =>
      pr = ExecSuccess ∧ r = QTimeout ∧ (log_event <$> log) = [EnterQueue; RingNoAnswer; RingNoAnswer; RingNoAnswer]
      ∧ variables c !! lit "QUEUEWAIT" = Some (lit "100")
      (* a caller whose time was up counts as one who gave up *)
      ∧ variables c !! lit "QUEUEABANDONED" = Some (lit "1")
  | None => False
  end.
Proof. by vm_compute. Qed.

Lemma queue_call_leaves_witness :
  ∃ pr r channel' qs' log,
    exec id ∅ example_world 10 caller_channel example_args support_queues = Some (pr, r, channel', qs', log)
    ∧ pr = exec_result r.
Proof.
  destruct (exec id ∅ example_world 10 caller_channel example_args support_queues) as [[[[[pr r] c] qs'] log]|] eqn:E;
    [|vm_compute in E; discriminate E].
  exists pr, r, c, qs', log. split; [reflexivity|].
  pose proof (queue_call_leaves id ∅ example_world 10 caller_channel example_args support_queues pr r c qs' log
    (λ l, reflexivity l) example_world_ok E) as Hc.
  cbv zeta in Hc. destruct (get_or_create_queue _ _) as [o qs0]. destruct Hc as [Hc _]. exact Hc.
Defined.

Lemma queue_wait_ends_witness :
  is_Some (queue_wait_loop id ∅ example_world caller_channel (lit "support") 12000 None (Z.to_nat (12000 / 5000) + 2) 0 support).
Proof.
  apply (queue_wait_ends id ∅ example_world caller_channel (lit "support") 12000 12000 None support
    (λ l, reflexivity l) example_world_ok).
  - reflexivity.
  - intros k. cbn [turn_time example_world example_clock inst]. change (retry_interval (config support)) with 5000. lia.
  - lia.
  - left. lia.
Defined.

(** Two callers that both looked before either joined: the queue for one holds two. *)
Example full_queue_joined :
  let small := set_callers support [] in
  let cf := config small in
  let small := mkQueue {| q_name := q_name cf; strategy := strategy cf; member_timeout := member_timeout cf;
      retry_interval := retry_interval cf; max_wait_time := max_wait_time cf; max_callers := 1; wrap_up_time := wrap_up_time cf;
      music_class := music_class cf; weight := weight cf; service_level := service_level cf; announcements := announcements cf;
      default_rule := default_rule cf; persistent_members := persistent_members cf; auto_pause := auto_pause cf;
      queue_timeout := queue_timeout cf; join_empty := join_empty cf; leave_when_empty := leave_when_empty cf;
      ring_timeout := ring_timeout cf |} (members small) [] 0 0 0 0 0 0 0 in
  let first := caller_new 0 caller_channel in
  let second := caller_new 0 (channel_new (lit "id-2") (lit "SIP/dave")) in
  may_join 0 small = true ∧ waiting (enqueue_caller second (enqueue_caller first small).2).2 = 2.
Proof. by vm_compute. Qed.

(** The indices of the members that ring are kept while the lock is free: when one
    leaves meanwhile, the status is put back to another, and the one that rang rings
    for ever. *)
Example wrong_member_reset :
  let leaves q := (remove_member (example_clock 0) (lit "SIP/alice") q).1.2 in
  status <$> members (attempt_connect leaves [1%nat] (staffed Linear [lit "SIP/alice"; lit "SIP/bob"; lit "SIP/erin"])).2
    = [Ringing; Available].
Proof. by vm_compute. Qed.
