(* ===== verification/Rtp.v ===== *)
(** * RTP sessions ([asterisk-sip/src/rtp/mod.rs])

    Packets, the numbering of what is sent, what is accepted of what arrives,
    telephone events, and the ports sessions are bound to.  A datagram is its octets
    and its source; the socket is what is sent and what arrives.

    [rtp_packet_roundtrip] is the wire, [rtp_ingress_guarded] what an outsider cannot
    do, [rtp_stream_is_heard] the composition of a sender and a receiver. *)

From Stdlib Require Import NArith ZArith Ascii String.
From S2P Require Import Prelude RustStr Types NetAddr Bytes.
Local Open Scope Z_scope.
Local Open Scope list_scope.

Abbreviation SocketAddr := (IpAddr * Z)%type (only parsing).

Definition RTP_HEADER_SIZE : nat := 12.
Definition RTP_MAX_MTU : nat := 1500.
Definition RTCP_PT_SR : Z := 200.
Definition RTCP_PT_RR : Z := 201.
Definition NO_DTMF_PAYLOAD_TYPE : Z := 255.
Definition DEFAULT_RTP_PORT_START : Z := 10000.
Definition DEFAULT_RTP_PORT_END : Z := 20000.
Definition DEFAULT_RTP_TIMEOUT_SECS : Z := 300.

Inductive RtpError :=
  | InvalidArgument (m : str)
  | ParseError (m : str)
  | AddrNotAvailable (m : str)
  | IoError.

(** ** Ports *)

(** [rtptimeout]: [None] is no limit. *)
Definition rtp_timeout_from_config (value : option str) : result RtpError (option Z) :=
  match value with
  | None => Ok (Some DEFAULT_RTP_TIMEOUT_SECS)
  | Some raw =>
      match parse_unsigned 64 (trim raw) with
      | None => Err (InvalidArgument (lit "rtptimeout must be a non-negative integer number of seconds, got '" ++ raw ++ lit "'"))
      | Some secs => Ok (if secs =? 0 then None else Some secs)
      end
  end.

Record RtpPortRange := { range_start : Z; range_end : Z }.

Definition range_new (first last : Z) : result RtpError RtpPortRange :=
  if (first =? 0) || (last =? 0) then Err (InvalidArgument (lit "RTP port range must not include port 0"))
  else if last <? first
  then Err (InvalidArgument (lit "RTP port range start " ++ show_int first ++ lit " exceeds end " ++ show_int last))
  else Ok {| range_start := first; range_end := last |}.

Definition parse_rtp_port (value : option str) (default_port : Z) (name : str) : result RtpError Z :=
  match value with
  | Some v =>
      match parse_u16 (trim v) with
      | Some p => Ok p
      | None => Err (InvalidArgument (name ++ lit " must be an integer from 1 through 65535, got '" ++ v ++ lit "'"))
      end
  | None => Ok default_port
  end.

(** The settings [rtpstart] and [rtpend]. *)
Definition range_from_config (rtpstart rtpend : option str) : result RtpError RtpPortRange :=
  let? first := parse_rtp_port rtpstart DEFAULT_RTP_PORT_START (lit "rtpstart") in
  let? last := parse_rtp_port rtpend DEFAULT_RTP_PORT_END (lit "rtpend") in
  range_new first last.

Definition capacity (r : RtpPortRange) : Z := range_end r - range_start r + 1.

(** What [UdpSocket::bind] says to a port. *)
Inductive bind_result := Bound | AddrInUse | BindError.

Record RtpPortAllocator := { range : RtpPortRange; next_offset : Z }.
Definition allocator_new (r : RtpPortRange) : RtpPortAllocator := {| range := r; next_offset := 0 |}.

(** The attempts that are left, from one of them on. *)
Fixpoint try_ports (bind : Z → bind_result) (r : RtpPortRange) (first : Z) (attempt : Z) (remaining : nat) : result RtpError Z :=
  match remaining with
  | O => Err (AddrNotAvailable (lit "RTP port range " ++ show_int (range_start r) ++ lit "-" ++ show_int (range_end r)
                                  ++ lit " exhausted"))
  | S remaining =>
      let port := range_start r + (first + attempt) mod capacity r in
      match bind port with
      | Bound => Ok port
      | AddrInUse => try_ports bind r first (attempt + 1) remaining
      | BindError => Err IoError
      end
  end.

Definition allocate (bind : Z → bind_result) (a : RtpPortAllocator) : result RtpError Z * RtpPortAllocator :=
  let first := next_offset a mod capacity (range a) in
  (try_ports bind (range a) first 0 (Z.to_nat (capacity (range a))),
   {| range := range a; next_offset := wrap_u32 (next_offset a + 1) |}).

(** ** Packets *)

Record RtpHeader := {
  version : Z; padding : bool; extension : bool; csrc_count : Z; marker : bool; h_payload_type : Z;
  h_sequence : Z; h_timestamp : Z; h_ssrc : Z }.

Definition header_parse (data : bytes) : outcome (result RtpError RtpHeader) :=
  if (length data <? RTP_HEADER_SIZE)%nat then Done (Err (ParseError (lit "RTP packet too short")))
  else
    let! b0 := byte_at data 0 in
    let v := Z.land (Z.shiftr b0 6) 3 in
    if negb (v =? 2) then Done (Err (ParseError (lit "Invalid RTP version: " ++ show_int v)))
    else
      let! b1 := byte_at data 1 in
      let! sq := bytes_range data 2 4 in
      let! ts := bytes_range data 4 8 in
      let! sc := bytes_range data 8 12 in
      Done (Ok {| version := v; padding := negb (Z.land b0 32 =? 0); extension := negb (Z.land b0 16 =? 0);
                  csrc_count := Z.land b0 15; marker := negb (Z.land b1 128 =? 0); h_payload_type := Z.land b1 127;
                  h_sequence := be_of sq; h_timestamp := be_of ts; h_ssrc := be_of sc |}).

Definition header_size (h : RtpHeader) : nat := RTP_HEADER_SIZE + Z.to_nat (csrc_count h) * 4.

Definition header_to_bytes (h : RtpHeader) : bytes :=
  [Z.lor (Z.lor (Z.lor (Z.shiftl (version h) 6 mod 256) (if padding h then 32 else 0)) (if extension h then 16 else 0))
     (Z.land (csrc_count h) 15);
   Z.lor (if marker h then 128 else 0) (Z.land (h_payload_type h) 127)]
  ++ be_bytes 2 (h_sequence h) ++ be_bytes 4 (h_timestamp h) ++ be_bytes 4 (h_ssrc h).

Definition build_rtp_packet (h : RtpHeader) (payload : bytes) : bytes := header_to_bytes h ++ payload.

(** Where the payload begins: after the sources and the extension. *)
Definition payload_offset (data : bytes) (h : RtpHeader) : outcome (result RtpError nat) :=
  let offset := header_size h in
  if (length data <? offset)%nat then Done (Err (ParseError (lit "RTP packet truncated")))
  else if extension h then
    if (length data <? offset + 4)%nat then Done (Err (ParseError (lit "RTP extension header truncated")))
    else
      let! words := bytes_range data (offset + 2) (offset + 4) in
      let offset := (offset + (4 + Z.to_nat (be_of words) * 4))%nat in
      if (length data <? offset)%nat then Done (Err (ParseError (lit "RTP extension truncated"))) else Done (Ok offset)
  else Done (Ok offset).

Definition parse_rtp_header (data : bytes) : outcome (result RtpError (RtpHeader * bytes)) :=
  let!? h := header_parse data in
  let!? offset := payload_offset data h in
  if padding h then
    match last data with
    | None => Done (Err (ParseError (lit "RTP padding missing")))
    | Some n =>
        let padding_len := Z.to_nat n in
        if (padding_len =? 0)%nat || (length data - offset <? padding_len)%nat
        then Done (Err (ParseError (lit "Invalid RTP padding length")))
        else let! payload := bytes_range data offset (length data - padding_len) in Done (Ok (h, payload))
    end
  else let! payload := bytes_range data offset (length data) in Done (Ok (h, payload)).

(** ** Telephone events *)

Record DtmfEvent := { event : Z; event_end : bool; volume : Z; duration : Z }.

Definition dtmf_to_bytes (e : DtmfEvent) : bytes :=
  [event e; Z.lor (if event_end e then 128 else 0) (Z.land (volume e) 63)] ++ be_bytes 2 (duration e).

Definition dtmf_from_bytes (data : bytes) : outcome (option DtmfEvent) :=
  if (length data <? 4)%nat then Done None
  else
    let! b0 := byte_at data 0 in
    let! b1 := byte_at data 1 in
    let! d := bytes_range data 2 4 in
    Done (Some {| event := b0; event_end := negb (Z.land b1 128 =? 0); volume := Z.land b1 63; duration := be_of d |}).

Definition event_to_digit (e : Z) : char :=
  if e <=? 9 then Z.to_N (48 + e)
  else if e =? 10 then chr "*" else if e =? 11 then chr "#" else if e =? 12 then chr "A" else if e =? 13 then chr "B"
  else if e =? 14 then chr "C" else if e =? 15 then chr "D" else chr "?".

Definition digit_to_event (d : char) : Z :=
  if is_ascii_digit d then Z.of_N d - 48
  else if (d =? chr "*")%N then 10
  else if (d =? chr "#")%N then 11
  else if (d =? chr "A")%N || (d =? chr "a")%N then 12
  else if (d =? chr "B")%N || (d =? chr "b")%N then 13
  else if (d =? chr "C")%N || (d =? chr "c")%N then 14
  else if (d =? chr "D")%N || (d =? chr "d")%N then 15
  else 0.

(** ** The session *)

Record RtpStats := {
  remote_addr : option SocketAddr;
  packets_sent : Z; packets_received : Z; octets_sent : Z; octets_received : Z;
  voice_frames_sent : Z; voice_frames_received : Z; dtmf_digits_sent : Z; dtmf_digits_received : Z;
  discarded_wrong_source : Z; discarded_wrong_payload_type : Z; discarded_malformed : Z; discarded_unstable_ssrc : Z }.

Definition stats_default : RtpStats :=
  {| remote_addr := None; packets_sent := 0; packets_received := 0; octets_sent := 0; octets_received := 0;
     voice_frames_sent := 0; voice_frames_received := 0; dtmf_digits_sent := 0; dtmf_digits_received := 0;
     discarded_wrong_source := 0; discarded_wrong_payload_type := 0; discarded_malformed := 0; discarded_unstable_ssrc := 0 |}.

Definition set_remote (a : option SocketAddr) (s : RtpStats) : RtpStats :=
  {| remote_addr := a; packets_sent := packets_sent s; packets_received := packets_received s;
     octets_sent := octets_sent s; octets_received := octets_received s;
     voice_frames_sent := voice_frames_sent s; voice_frames_received := voice_frames_received s;
     dtmf_digits_sent := dtmf_digits_sent s; dtmf_digits_received := dtmf_digits_received s;
     discarded_wrong_source := discarded_wrong_source s;
     discarded_wrong_payload_type := discarded_wrong_payload_type s;
     discarded_malformed := discarded_malformed s; discarded_unstable_ssrc := discarded_unstable_ssrc s |}.
Definition count_packet_sent (n : Z) (s : RtpStats) : RtpStats :=
  {| remote_addr := remote_addr s; packets_sent := wrap_u32 (packets_sent s + 1);
     packets_received := packets_received s; octets_sent := wrap_u32 (octets_sent s + n);
     octets_received := octets_received s; voice_frames_sent := voice_frames_sent s;
     voice_frames_received := voice_frames_received s; dtmf_digits_sent := dtmf_digits_sent s;
     dtmf_digits_received := dtmf_digits_received s; discarded_wrong_source := discarded_wrong_source s;
     discarded_wrong_payload_type := discarded_wrong_payload_type s;
     discarded_malformed := discarded_malformed s; discarded_unstable_ssrc := discarded_unstable_ssrc s |}.
Definition count_voice_sent (s : RtpStats) : RtpStats :=
  {| remote_addr := remote_addr s; packets_sent := packets_sent s; packets_received := packets_received s;
     octets_sent := octets_sent s; octets_received := octets_received s;
     voice_frames_sent := wrap_u64 (voice_frames_sent s + 1); voice_frames_received := voice_frames_received s;
     dtmf_digits_sent := dtmf_digits_sent s; dtmf_digits_received := dtmf_digits_received s;
     discarded_wrong_source := discarded_wrong_source s;
     discarded_wrong_payload_type := discarded_wrong_payload_type s;
     discarded_malformed := discarded_malformed s; discarded_unstable_ssrc := discarded_unstable_ssrc s |}.
Definition count_dtmf_sent (s : RtpStats) : RtpStats :=
  {| remote_addr := remote_addr s; packets_sent := packets_sent s; packets_received := packets_received s;
     octets_sent := octets_sent s; octets_received := octets_received s;
     voice_frames_sent := voice_frames_sent s; voice_frames_received := voice_frames_received s;
     dtmf_digits_sent := wrap_u64 (dtmf_digits_sent s + 1); dtmf_digits_received := dtmf_digits_received s;
     discarded_wrong_source := discarded_wrong_source s;
     discarded_wrong_payload_type := discarded_wrong_payload_type s;
     discarded_malformed := discarded_malformed s; discarded_unstable_ssrc := discarded_unstable_ssrc s |}.
Definition count_packet_received (n : Z) (s : RtpStats) : RtpStats :=
  {| remote_addr := remote_addr s; packets_sent := packets_sent s;
     packets_received := wrap_u32 (packets_received s + 1); octets_sent := octets_sent s;
     octets_received := wrap_u32 (octets_received s + n); voice_frames_sent := voice_frames_sent s;
     voice_frames_received := voice_frames_received s; dtmf_digits_sent := dtmf_digits_sent s;
     dtmf_digits_received := dtmf_digits_received s; discarded_wrong_source := discarded_wrong_source s;
     discarded_wrong_payload_type := discarded_wrong_payload_type s;
     discarded_malformed := discarded_malformed s; discarded_unstable_ssrc := discarded_unstable_ssrc s |}.
Definition count_voice_received (s : RtpStats) : RtpStats :=
  {| remote_addr := remote_addr s; packets_sent := packets_sent s; packets_received := packets_received s;
     octets_sent := octets_sent s; octets_received := octets_received s;
     voice_frames_sent := voice_frames_sent s; voice_frames_received := wrap_u64 (voice_frames_received s + 1);
     dtmf_digits_sent := dtmf_digits_sent s; dtmf_digits_received := dtmf_digits_received s;
     discarded_wrong_source := discarded_wrong_source s;
     discarded_wrong_payload_type := discarded_wrong_payload_type s;
     discarded_malformed := discarded_malformed s; discarded_unstable_ssrc := discarded_unstable_ssrc s |}.
Definition count_dtmf_received (s : RtpStats) : RtpStats :=
  {| remote_addr := remote_addr s; packets_sent := packets_sent s; packets_received := packets_received s;
     octets_sent := octets_sent s; octets_received := octets_received s;
     voice_frames_sent := voice_frames_sent s; voice_frames_received := voice_frames_received s;
     dtmf_digits_sent := dtmf_digits_sent s; dtmf_digits_received := wrap_u64 (dtmf_digits_received s + 1);
     discarded_wrong_source := discarded_wrong_source s;
     discarded_wrong_payload_type := discarded_wrong_payload_type s;
     discarded_malformed := discarded_malformed s; discarded_unstable_ssrc := discarded_unstable_ssrc s |}.
Definition count_wrong_source (s : RtpStats) : RtpStats :=
  {| remote_addr := remote_addr s; packets_sent := packets_sent s; packets_received := packets_received s;
     octets_sent := octets_sent s; octets_received := octets_received s;
     voice_frames_sent := voice_frames_sent s; voice_frames_received := voice_frames_received s;
     dtmf_digits_sent := dtmf_digits_sent s; dtmf_digits_received := dtmf_digits_received s;
     discarded_wrong_source := wrap_u64 (discarded_wrong_source s + 1);
     discarded_wrong_payload_type := discarded_wrong_payload_type s;
     discarded_malformed := discarded_malformed s; discarded_unstable_ssrc := discarded_unstable_ssrc s |}.
Definition count_wrong_payload_type (s : RtpStats) : RtpStats :=
  {| remote_addr := remote_addr s; packets_sent := packets_sent s; packets_received := packets_received s;
     octets_sent := octets_sent s; octets_received := octets_received s;
     voice_frames_sent := voice_frames_sent s; voice_frames_received := voice_frames_received s;
     dtmf_digits_sent := dtmf_digits_sent s; dtmf_digits_received := dtmf_digits_received s;
     discarded_wrong_source := discarded_wrong_source s;
     discarded_wrong_payload_type := wrap_u64 (discarded_wrong_payload_type s + 1);
     discarded_malformed := discarded_malformed s; discarded_unstable_ssrc := discarded_unstable_ssrc s |}.
Definition count_malformed (s : RtpStats) : RtpStats :=
  {| remote_addr := remote_addr s; packets_sent := packets_sent s; packets_received := packets_received s;
     octets_sent := octets_sent s; octets_received := octets_received s;
     voice_frames_sent := voice_frames_sent s; voice_frames_received := voice_frames_received s;
     dtmf_digits_sent := dtmf_digits_sent s; dtmf_digits_received := dtmf_digits_received s;
     discarded_wrong_source := discarded_wrong_source s;
     discarded_wrong_payload_type := discarded_wrong_payload_type s;
     discarded_malformed := wrap_u64 (discarded_malformed s + 1);
     discarded_unstable_ssrc := discarded_unstable_ssrc s |}.
Definition count_unstable_ssrc (s : RtpStats) : RtpStats :=
  {| remote_addr := remote_addr s; packets_sent := packets_sent s; packets_received := packets_received s;
     octets_sent := octets_sent s; octets_received := octets_received s;
     voice_frames_sent := voice_frames_sent s; voice_frames_received := voice_frames_received s;
     dtmf_digits_sent := dtmf_digits_sent s; dtmf_digits_received := dtmf_digits_received s;
     discarded_wrong_source := discarded_wrong_source s;
     discarded_wrong_payload_type := discarded_wrong_payload_type s;
     discarded_malformed := discarded_malformed s;
     discarded_unstable_ssrc := wrap_u64 (discarded_unstable_ssrc s + 1) |}.

(** [outbound_timing] is the pair of a source timing and the timing it was sent with;
    [last_inbound] an instant in milliseconds. *)
Record RtpSession := {
  local_ssrc : Z;
  inbound_ssrc : option Z;
  sequence : Z;
  timestamp : Z;
  payload_type : Z;
  dtmf_pt : Z;
  last_dtmf_end : option (Z * Z * Z);
  outbound_timing : option (RtpTiming * RtpTiming);
  samples_per_packet : Z;
  stats : RtpStats;
  last_inbound : Z }.

Definition session_bound (now ssrc : Z) : RtpSession :=
  {| local_ssrc := ssrc; inbound_ssrc := None; sequence := 0; timestamp := 0; payload_type := 0;
     dtmf_pt := NO_DTMF_PAYLOAD_TYPE; last_dtmf_end := None; outbound_timing := None; samples_per_packet := 160;
     stats := stats_default; last_inbound := now |}.

Definition with_stats (f : RtpStats → RtpStats) (s : RtpSession) : RtpSession :=
  {| local_ssrc := local_ssrc s; inbound_ssrc := inbound_ssrc s; sequence := sequence s;
     timestamp := timestamp s; payload_type := payload_type s; dtmf_pt := dtmf_pt s;
     last_dtmf_end := last_dtmf_end s; outbound_timing := outbound_timing s;
     samples_per_packet := samples_per_packet s; stats := f (stats s); last_inbound := last_inbound s |}.
Definition with_payload_types (pt dt : Z) (s : RtpSession) : RtpSession :=
  {| local_ssrc := local_ssrc s; inbound_ssrc := inbound_ssrc s; sequence := sequence s;
     timestamp := timestamp s; payload_type := pt; dtmf_pt := dt; last_dtmf_end := last_dtmf_end s;
     outbound_timing := outbound_timing s; samples_per_packet := samples_per_packet s; stats := stats s;
     last_inbound := last_inbound s |}.
Definition with_inbound_ssrc (x : option Z) (s : RtpSession) : RtpSession :=
  {| local_ssrc := local_ssrc s; inbound_ssrc := x; sequence := sequence s; timestamp := timestamp s;
     payload_type := payload_type s; dtmf_pt := dtmf_pt s; last_dtmf_end := last_dtmf_end s;
     outbound_timing := outbound_timing s; samples_per_packet := samples_per_packet s; stats := stats s;
     last_inbound := last_inbound s |}.
Definition with_last_dtmf_end (x : option (Z * Z * Z)) (s : RtpSession) : RtpSession :=
  {| local_ssrc := local_ssrc s; inbound_ssrc := inbound_ssrc s; sequence := sequence s;
     timestamp := timestamp s; payload_type := payload_type s; dtmf_pt := dtmf_pt s; last_dtmf_end := x;
     outbound_timing := outbound_timing s; samples_per_packet := samples_per_packet s; stats := stats s;
     last_inbound := last_inbound s |}.
Definition with_last_inbound (t : Z) (s : RtpSession) : RtpSession :=
  {| local_ssrc := local_ssrc s; inbound_ssrc := inbound_ssrc s; sequence := sequence s;
     timestamp := timestamp s; payload_type := payload_type s; dtmf_pt := dtmf_pt s;
     last_dtmf_end := last_dtmf_end s; outbound_timing := outbound_timing s;
     samples_per_packet := samples_per_packet s; stats := stats s; last_inbound := t |}.
Definition with_outgoing (seq ts : Z) (tm : option (RtpTiming * RtpTiming)) (s : RtpSession) : RtpSession :=
  {| local_ssrc := local_ssrc s; inbound_ssrc := inbound_ssrc s; sequence := seq; timestamp := ts;
     payload_type := payload_type s; dtmf_pt := dtmf_pt s; last_dtmf_end := last_dtmf_end s;
     outbound_timing := tm; samples_per_packet := samples_per_packet s; stats := stats s;
     last_inbound := last_inbound s |}.

Definition inbound_idle (now : Z) (s : RtpSession) : Z := Z.max 0 (now - last_inbound s).
Definition mark_inbound_active (now : Z) (s : RtpSession) : RtpSession := with_last_inbound now s.
Definition session_remote (s : RtpSession) : option SocketAddr := remote_addr (stats s).
Definition set_remote_addr (a : SocketAddr) (s : RtpSession) : RtpSession := with_stats (set_remote (Some a)) s.
Definition set_payload_type (pt : Z) (s : RtpSession) : RtpSession := with_payload_types (Z.land pt 127) (dtmf_pt s) s.
Definition dtmf_payload_type (s : RtpSession) : option Z :=
  if dtmf_pt s =? NO_DTMF_PAYLOAD_TYPE then None else Some (dtmf_pt s).
Definition set_dtmf_payload_type (pt : Z) (s : RtpSession) : RtpSession :=
  with_payload_types (payload_type s) (if pt <=? 127 then pt else NO_DTMF_PAYLOAD_TYPE) s.
Definition clear_dtmf_payload_type (s : RtpSession) : RtpSession :=
  with_payload_types (payload_type s) NO_DTMF_PAYLOAD_TYPE s.

(** ** Sending *)

Definition u16 (n : Z) : Z := n mod 2 ^ 16.
Definition u32 (n : Z) : Z := n mod 2 ^ 32.

Definition voice_header (s : RtpSession) (seq ts : Z) : RtpHeader :=
  {| version := 2; padding := false; extension := false; csrc_count := 0; marker := false;
     h_payload_type := payload_type s; h_sequence := seq; h_timestamp := ts; h_ssrc := local_ssrc s |}.

(** The numbers of the next voice packet.  A frame with the timing of its source keeps
    the distances of the source; any other follows the last. *)
Definition next_numbers (samples : Z) (source : option RtpTiming) (s : RtpSession) : Z * Z * RtpSession :=
  match source with
  | Some src =>
      let '(base, seq0, ts0) :=
        match outbound_timing s with
        | Some base => (base, sequence s, timestamp s)
        | None => ((src, mkRtpTiming (sequence s) (timestamp s)), u16 (sequence s + 1), u32 (timestamp s + samples))
        end in
      let seq := u16 (rt_sequence base.2 + u16 (rt_sequence src - rt_sequence base.1)) in
      let ts := u32 (rt_timestamp base.2 + u32 (rt_timestamp src - rt_timestamp base.1)) in
      (seq, ts, with_outgoing (u16 (seq + 1)) (u32 (ts + samples)) (Some base) s)
  | None =>
      (sequence s, timestamp s, with_outgoing (u16 (sequence s + 1)) (u32 (timestamp s + samples_per_packet s)) None s)
  end.

(** The result, and the packet that was sent. *)
Definition send_frame (send_ok : bool) (f : Frame) (s : RtpSession) : result RtpError unit * RtpSession * list bytes :=
  match f with
  | FVoice v =>
      match session_remote s with
      | None => (Err (InvalidArgument (lit "No remote address")), s, [])
      | Some _ =>
          let '(seq, ts, s) := next_numbers (v_samples v) (v_rtp_timing v) s in
          let packet := build_rtp_packet (voice_header s seq ts) (v_data v) in
          if negb send_ok then (Err IoError, s, [])
          else
            let s := with_stats (count_packet_sent (Z.of_nat (length (v_data v)))) s in
            (Ok tt, if bool_decide (v_data v = []) then s else with_stats count_voice_sent s, [packet])
      end
  | _ => (Ok tt, s, [])
  end.

(** The six packets of a digit: three while it is held, three times its end. *)
Definition dtmf_packets (s : RtpSession) (dt ev seq ts duration_samples : Z) : list bytes :=
  ((λ i, build_rtp_packet
     {| version := 2; padding := false; extension := false; csrc_count := 0; marker := (i =? 0);
        h_payload_type := dt; h_sequence := u16 (seq + i); h_timestamp := ts; h_ssrc := local_ssrc s |}
     (dtmf_to_bytes {| event := ev; event_end := false; volume := 10; duration := 160 * (i + 1) |})) <$> [0; 1; 2])
  ++ ((λ i, build_rtp_packet
     {| version := 2; padding := false; extension := false; csrc_count := 0; marker := false;
        h_payload_type := dt; h_sequence := u16 (seq + (3 + i)); h_timestamp := ts; h_ssrc := local_ssrc s |}
     (dtmf_to_bytes {| event := ev; event_end := true; volume := 10; duration := duration_samples |})) <$> [0; 1; 2]).

(** Packets are sent until one fails. *)
Fixpoint send_packets (send_ok : nat → bool) (i : nat) (ps : list bytes) (s : RtpSession) : bool * RtpSession * list bytes :=
  match ps with
  | [] => (true, s, [])
  | p :: ps' =>
      if negb (send_ok i) then (false, s, [])
      else
        let '(ok, s, sent) := send_packets send_ok (S i) ps' (with_stats (count_packet_sent 4) s) in (ok, s, p :: sent)
  end.

Definition send_dtmf (send_ok : nat → bool) (digit : char) (duration_samples : Z) (s : RtpSession)
    : result RtpError unit * RtpSession * list bytes :=
  match session_remote s, dtmf_payload_type s with
  | None, _ => (Err (InvalidArgument (lit "No remote address")), s, [])
  | _, None => (Err (InvalidArgument (lit "telephone-event was not negotiated")), s, [])
  | Some _, Some dt =>
      let start_seq := sequence s in
      let start_ts := timestamp s in
      let s := with_outgoing (u16 (start_seq + 1)) (timestamp s) None s in
      let '(ok, s, sent) :=
        send_packets send_ok 0 (dtmf_packets s dt (digit_to_event digit) start_seq start_ts duration_samples) s in
      if negb ok then (Err IoError, s, sent)
      else (Ok tt, with_stats count_dtmf_sent (with_outgoing (u16 (start_seq + 6)) (timestamp s) (outbound_timing s) s), sent)
  end.

(** ** Receiving *)

(** [is_rtcp_packet]: the second octet is the type of a report. *)
Definition RTCP_PT_RANGE_START : Z := 200.
Definition RTCP_PT_RANGE_END : Z := 213.
Definition is_rtcp_packet (data : bytes) : bool :=
  match data !! 1%nat with
  | Some pt => (RTCP_PT_RANGE_START <=? pt) && (pt <=? RTCP_PT_RANGE_END)
  | None => false
  end.

(** Only while no address is known. *)
Definition latch_remote (src : SocketAddr) (s : RtpSession) : bool * RtpSession :=
  match session_remote s with
  | Some _ => (false, s)
  | None => (true, with_stats (set_remote (Some src)) s)
  end.

Definition voice_frame (h : RtpHeader) (payload : bytes) : Frame :=
  let n := Z.of_nat (length payload) in
  FVoice (mkVoice (h_payload_type h) (if (h_payload_type h =? 0) || (h_payload_type h =? 8) then n else n / 2) payload 0
            (h_sequence h) 0 (Some (mkRtpTiming (h_sequence h) (h_timestamp h)))).

(** A datagram that passed every check of [recv_datagram]. *)
Definition accept (now : Z) (src : SocketAddr) (h : RtpHeader) (payload : bytes) (ev : option DtmfEvent) (s : RtpSession)
    : Frame * RtpSession :=
  let s := (latch_remote src s).2 in
  let s := with_stats (count_packet_received (Z.of_nat (length payload))) (with_last_inbound now s) in
  match ev with
  | Some e =>
      let digit := event_to_digit (event e) in
      if event_end e then
        let key := (h_ssrc h, h_timestamp h, event e) in
        if bool_decide (last_dtmf_end s = Some key) then (FNull, s)
        else (FDtmfEnd digit (duration e / 8), with_stats count_dtmf_received (with_last_dtmf_end (Some key) s))
      else (FDtmfBegin digit, s)
  | None => (voice_frame h payload, if bool_decide (payload = []) then s else with_stats count_voice_received s)
  end.

(** What is made of a datagram: a frame, or nothing if it is discarded. *)
Definition recv_datagram (now : Z) (src : SocketAddr) (datagram : bytes) (s : RtpSession) : outcome (option Frame * RtpSession) :=
  let packet := take RTP_MAX_MTU datagram in
  if is_rtcp_packet packet then Done (None, s)
  else if bool_decide (is_Some (session_remote s) ∧ session_remote s ≠ Some src)
  then Done (None, with_stats count_wrong_source s)
  else
    let! parsed := parse_rtp_header packet in
    match parsed with
    | Err _ => Done (None, with_stats count_malformed s)
    | Ok (h, payload) =>
        let is_dtmf := bool_decide (dtmf_payload_type s = Some (h_payload_type h)) in
        if negb (h_payload_type h =? payload_type s) && negb is_dtmf
        then Done (None, with_stats count_wrong_payload_type s)
        else
          let! ev := if is_dtmf then
                       let! e := dtmf_from_bytes payload in
                       Done (match e with Some e => if event e <=? 15 then Some (Some e) else None | None => None end)
                     else Done (Some None) in
          match ev with
          | None => Done (None, with_stats count_malformed s)
          | Some ev =>
              match inbound_ssrc s with
              | Some expected =>
                  if expected =? h_ssrc h
                  then let '(f, s) := accept now src h payload ev s in Done (Some f, s)
                  else Done (None, with_stats count_unstable_ssrc s)
              | None =>
                  let '(f, s) := accept now src h payload ev (with_inbound_ssrc (Some (h_ssrc h)) s) in Done (Some f, s)
              end
          end
    end.

(** [recv_frame]: the first datagram that is accepted; [None] waits for more. *)
Fixpoint recv_frame (arrivals : list (Z * SocketAddr * bytes)) (s : RtpSession)
    : outcome (option Frame * RtpSession * list (Z * SocketAddr * bytes)) :=
  match arrivals with
  | [] => Done (None, s, [])
  | (now, src, datagram) :: arrivals' =>
      let! fs := recv_datagram now src datagram s in
      match fs with
      | (Some f, s) => Done (Some f, s, arrivals')
      | (None, s) => recv_frame arrivals' s
      end
  end.

(** ** Reports *)

(** [send_sr] and [send_rr], the packets. *)
Definition sender_report (ssrc unix_secs subsec_nanos packet_count octet_count rtp_timestamp : Z) : bytes :=
  [128; RTCP_PT_SR] ++ be_bytes 2 6 ++ be_bytes 4 ssrc ++ be_bytes 4 (u32 (u32 unix_secs + 2208988800))
  ++ be_bytes 4 (u32 (Z.shiftl subsec_nanos 32 / 1000000000)) ++ be_bytes 4 rtp_timestamp ++ be_bytes 4 packet_count
  ++ be_bytes 4 octet_count.

Definition receiver_report (ssrc remote_ssrc fraction_lost cumulative_lost highest_seq jitter : Z) : bytes :=
  [129; RTCP_PT_RR] ++ be_bytes 2 7 ++ be_bytes 4 ssrc ++ be_bytes 4 remote_ssrc
  ++ [fraction_lost; Z.land (Z.shiftr cumulative_lost 16) 255; Z.land (Z.shiftr cumulative_lost 8) 255; Z.land cumulative_lost 255]
  ++ be_bytes 4 highest_seq ++ be_bytes 4 jitter ++ be_bytes 4 0 ++ be_bytes 4 0.

(** A socket shared with reports ([MuxedRtpSession::recv_muxed]). *)
Inductive MuxedPacket := MuxRtp (h : RtpHeader) (payload : bytes) | MuxRtcp (data : bytes).

Definition recv_muxed (mux_enabled : bool) (datagram : bytes) : outcome (result RtpError MuxedPacket) :=
  let buf := take RTP_MAX_MTU datagram in
  if mux_enabled && is_rtcp_packet buf then Done (Ok (MuxRtcp buf))
  else let!? hp := parse_rtp_header buf in Done (Ok (MuxRtp hp.1 hp.2)).

Definition sdp_offers_rtcp_mux (attributes : list (str * option str)) : bool :=
  existsb (λ a, str_eqb a.1 (lit "rtcp-mux")) attributes.
Definition rtcp_mux_negotiated (local remote : list (str * option str)) : bool :=
  sdp_offers_rtcp_mux local && sdp_offers_rtcp_mux remote.

(** ** Packets survive the wire *)

Record header_ok (h : RtpHeader) : Prop := {
  ok_version : version h = 2;
  ok_csrc : 0 ≤ csrc_count h < 16;
  ok_pt : 0 ≤ h_payload_type h < 128;
  ok_seq : 0 ≤ h_sequence h < 2 ^ 16;
  ok_ts : 0 ≤ h_timestamp h < 2 ^ 32;
  ok_ssrc : 0 ≤ h_ssrc h < 2 ^ 32;
}.

Lemma forall_range (n : nat) (P : Z → bool) :
  forallb P (Z.of_nat <$> seq 0 n) = true → ∀ x, 0 ≤ x < Z.of_nat n → P x = true.
Proof.
  rewrite forallb_forall. intros HP x Hx. apply HP, list_elem_of_In, list_elem_of_fmap. exists (Z.to_nat x).
  split; [lia|]. apply elem_of_seq. lia.
Qed.

(** The first octet. *)
Lemma first_octet p x c : 0 ≤ c < 16 →
  let b := Z.lor (Z.lor (Z.lor (Z.shiftl 2 6 mod 256) (if p : bool then 32 else 0)) (if x : bool then 16 else 0)) (Z.land c 15) in
  Z.land (Z.shiftr b 6) 3 = 2 ∧ negb (Z.land b 32 =? 0) = p ∧ negb (Z.land b 16 =? 0) = x ∧ Z.land b 15 = c ∧ 0 ≤ b < 256.
Proof.
  intros Hc. pose proof (forall_range 16 (λ c, forallb (λ p : bool, forallb (λ x : bool,
    let b := Z.lor (Z.lor (Z.lor (Z.shiftl 2 6 mod 256) (if p then 32 else 0)) (if x then 16 else 0)) (Z.land c 15) in
    (Z.land (Z.shiftr b 6) 3 =? 2) && Bool.eqb (negb (Z.land b 32 =? 0)) p && Bool.eqb (negb (Z.land b 16 =? 0)) x
    && (Z.land b 15 =? c) && (0 <=? b) && (b <? 256)) [true; false]) [true; false]) ltac:(by vm_compute) c Hc) as H.
  rewrite forallb_forall in H. specialize (H p ltac:(destruct p; cbn; auto)). rewrite forallb_forall in H.
  specialize (H x ltac:(destruct x; cbn; auto)). cbv zeta in *. rewrite !andb_true_iff, !Bool.eqb_true_iff in H. lia || (destruct H as (((((?&?)&?)&?)&?)&?); split_and!; lia || done).
Qed.

(** The second. *)
Lemma second_octet m pt : 0 ≤ pt < 128 →
  let b := Z.lor (if m : bool then 128 else 0) (Z.land pt 127) in
  negb (Z.land b 128 =? 0) = m ∧ Z.land b 127 = pt ∧ b = (if m then 128 else 0) + pt.
Proof.
  intros Hpt. pose proof (forall_range 128 (λ pt, forallb (λ m : bool,
    let b := Z.lor (if m then 128 else 0) (Z.land pt 127) in
    Bool.eqb (negb (Z.land b 128 =? 0)) m && (Z.land b 127 =? pt) && (b =? (if m then 128 else 0) + pt)) [true; false])
    ltac:(by vm_compute) pt Hpt) as H.
  rewrite forallb_forall in H. specialize (H m ltac:(destruct m; cbn; auto)). cbv zeta in *.
  rewrite !andb_true_iff, Bool.eqb_true_iff, !Z.eqb_eq in H. tauto.
Qed.

Lemma length_header h : length (header_to_bytes h) = 12%nat.
Proof. unfold header_to_bytes. cbn [Datatypes.app length]. by rewrite !length_app, !length_be_bytes. Qed.

Lemma bytes_range_at p q r i j :
  length p = i → (i + length q)%nat = j → bytes_range (p ++ q ++ r) i j = Done q.
Proof. intros <- <-. apply bytes_range_app. Qed.

Lemma header_parse_to_bytes h rest : header_ok h → header_parse (header_to_bytes h ++ rest) = Done (Ok h).
Proof.
  intros [Hv Hc Hp Hs Ht Hr]. unfold header_parse. rewrite length_app, length_header.
  rewrite (proj2 (Nat.ltb_ge _ _)) by (unfold RTP_HEADER_SIZE; lia).
  set (b0 := Z.lor (Z.lor (Z.lor (Z.shiftl (version h) 6 mod 256) (if padding h then 32 else 0)) (if extension h then 16 else 0))
     (Z.land (csrc_count h) 15)).
  set (b1 := Z.lor (if marker h then 128 else 0) (Z.land (h_payload_type h) 127)).
  set (sq := be_bytes 2 (h_sequence h)). set (ts := be_bytes 4 (h_timestamp h)). set (sc := be_bytes 4 (h_ssrc h)).
  assert (header_to_bytes h ++ rest = [b0; b1] ++ sq ++ ts ++ sc ++ rest) as ->
    by (unfold header_to_bytes; fold b0 b1 sq ts sc; by rewrite <-!app_assoc).
  change (byte_at ([b0; b1] ++ sq ++ ts ++ sc ++ rest) 0) with (Done b0).
  change (byte_at ([b0; b1] ++ sq ++ ts ++ sc ++ rest) 1) with (Done b1). cbn [outcome_bind].
  rewrite (bytes_range_at [b0; b1] sq (ts ++ sc ++ rest) 2 4) by (unfold sq; rewrite ?length_be_bytes; done).
  replace ([b0; b1] ++ sq ++ ts ++ sc ++ rest) with (([b0; b1] ++ sq) ++ ts ++ sc ++ rest) by (by rewrite <-!app_assoc).
  rewrite (bytes_range_at ([b0; b1] ++ sq) ts (sc ++ rest) 4 8) by (unfold sq, ts; rewrite ?length_app, ?length_be_bytes; done).
  replace (([b0; b1] ++ sq) ++ ts ++ sc ++ rest) with (([b0; b1] ++ sq ++ ts) ++ sc ++ rest) by (by rewrite <-!app_assoc).
  rewrite (bytes_range_at ([b0; b1] ++ sq ++ ts) sc rest 8 12)
    by (unfold sq, ts, sc; rewrite ?length_app, ?length_be_bytes; done).
  cbn [outcome_bind]. unfold sq, ts, sc. rewrite !be_bytes_of by done.
  destruct (first_octet (padding h) (extension h) (csrc_count h) Hc) as (E1 & E2 & E3 & E4 & _).
  rewrite <-Hv in E1 at 1. rewrite <-Hv in E2, E3, E4. fold b0 in E1, E2, E3, E4.
  destruct (second_octet (marker h) (h_payload_type h) Hp) as (E5 & E6 & _). fold b1 in E5, E6.
  rewrite E1, E2, E3, E4, E5, E6. cbn. clear -Hv. destruct h; cbn in *. by subst.
Qed.

(** A header without sources, extension or padding. *)
Definition plain_header (h : RtpHeader) : Prop :=
  header_ok h ∧ padding h = false ∧ extension h = false ∧ csrc_count h = 0.

Lemma rtp_packet_roundtrip (h : RtpHeader) (payload : bytes) :
  plain_header h → parse_rtp_header (build_rtp_packet h payload) = Done (Ok (h, payload)).
Proof.
  intros (Hok & Hp & Hx & Hc). unfold parse_rtp_header, build_rtp_packet. rewrite header_parse_to_bytes by done.
  cbn [try_bind outcome_bind]. unfold payload_offset, header_size. rewrite Hc, Hx, Hp, length_app, length_header.
  change (RTP_HEADER_SIZE + Z.to_nat 0 * 4)%nat with 12%nat. rewrite (proj2 (Nat.ltb_ge _ _)) by lia. cbn [try_bind outcome_bind].
  rewrite <-(app_nil_r payload) at 1. rewrite (bytes_range_at (header_to_bytes h) payload [] 12) by (rewrite ?length_header; lia). done.
Qed.

(** ** No packet makes the parser panic *)

Lemma range_returns p i j : (i ≤ j)%nat → (j ≤ length p)%nat → bytes_range p i j = Done (take (j - i) (drop i p)).
Proof. intros. unfold bytes_range. rewrite !(proj2 (Nat.leb_le _ _)) by done. done. Qed.

Lemma header_parse_returns data : returns (header_parse data).
Proof.
  unfold header_parse, RTP_HEADER_SIZE. destruct (Nat.ltb_spec (length data) 12); [auto with rust|].
  apply returns_bind; [auto with rust lia|intros b0 _]. 
  destruct (negb _); [auto with rust|]. apply returns_bind; [apply byte_at_returns; lia|intros b1 _].
  rewrite !range_returns by lia. cbn [outcome_bind]. auto with rust.
Qed.

(** Whatever arrives is parsed or refused, and the payload is a piece of the packet
    behind the header. *)
Lemma parse_rtp_header_total (data : bytes) :
  ∃ r, parse_rtp_header data = Done r
  ∧ match r with
    | Ok (h, payload) => ∃ front back, data = front ++ payload ++ back ∧ (RTP_HEADER_SIZE ≤ length front)%nat ∧ version h = 2
    | Err _ => True
    end.
Proof.
  unfold parse_rtp_header. destruct (header_parse_returns data) as [[h|e] Eh]; rewrite Eh; cbn [try_bind outcome_bind]; [|by eexists].
  assert (version h = 2) as Hv.
  { unfold header_parse in Eh. destruct (_ <? _)%nat; [done|]. apply outcome_bind_Done in Eh as (b0 & _ & Eh).
    destruct (Z.eqb_spec (Z.land (Z.shiftr b0 6) 3) 2) as [Ev|]; cbn [negb] in Eh; [|done].
    repeat (apply outcome_bind_Done in Eh as (? & _ & Eh)). injection Eh as <-. done. }
  assert (∃ r, payload_offset data h = Done r ∧ match r with Ok o => (12 ≤ o)%nat ∧ (o ≤ length data)%nat | Err _ => True end) as (r & -> & Hr).
  { unfold payload_offset, header_size, RTP_HEADER_SIZE. set (o := (12 + Z.to_nat (csrc_count h) * 4)%nat).
    destruct (Nat.ltb_spec (length data) o); [by eexists|]. destruct (extension h); [|eexists; split; [done|unfold o in *; lia]].
    destruct (Nat.ltb_spec (length data) (o + 4)); [by eexists|]. rewrite range_returns by lia. cbn [outcome_bind].
    destruct (Nat.ltb_spec (length data) (o + (4 + Z.to_nat (be_of (take (o + 4 - (o + 2)) (drop (o + 2) data))) * 4))); (eexists; split; [done|]); [done|unfold o in *; lia]. }
  cbn [try_bind outcome_bind]. destruct r as [o|e]; [|by eexists]. destruct Hr as [Hlo Hhi].
  assert (∀ j, (o ≤ j)%nat → (j ≤ length data)%nat →
    ∃ r : result RtpError (RtpHeader * bytes), (let! payload := bytes_range data o j in Done (Ok (h, payload))) = Done r
      ∧ match r with
        | Ok (h, payload) => ∃ front back, data = front ++ payload ++ back ∧ (RTP_HEADER_SIZE ≤ length front)%nat ∧ version h = 2
        | Err _ => True end) as Hpiece.
  { intros j Hoj Hj. rewrite range_returns by done. cbn [outcome_bind]. eexists. split; [done|].
    exists (take o data), (drop j data). split_and!; [|rewrite length_take; unfold RTP_HEADER_SIZE; lia|done].
    rewrite <-(take_drop o data) at 1. f_equal. rewrite <-(take_drop (j - o) (drop o data)) at 1. f_equal.
    rewrite drop_drop. f_equal. lia. }
  destruct (padding h); [|by apply Hpiece]. destruct (last data) as [n|]; [|by eexists].
  destruct (_ =? 0)%nat; cbn [orb]; [by eexists|]. destruct (Nat.ltb_spec (length data - o) (Z.to_nat n)); [by eexists|].
  apply Hpiece; lia.
Qed.

(** ** What is accepted of what arrives *)

Definition acceptable (src : SocketAddr) (packet : bytes) (s : RtpSession) (h : RtpHeader) (payload : bytes) : Prop :=
  is_rtcp_packet packet = false
  ∧ (session_remote s = None ∨ session_remote s = Some src)
  ∧ parse_rtp_header packet = Done (Ok (h, payload))
  ∧ (h_payload_type h = payload_type s ∨ dtmf_payload_type s = Some (h_payload_type h))
  ∧ (inbound_ssrc s = None ∨ inbound_ssrc s = Some (h_ssrc h)).

(** The parts of a session that decide what is accepted. *)
Definition gate (s : RtpSession) : option SocketAddr * option Z * Z := (session_remote s, inbound_ssrc s, last_inbound s).

Lemma latch_gate src s : gate (latch_remote src s).2 = (Some (default src (session_remote s)), inbound_ssrc s, last_inbound s).
Proof. unfold latch_remote, gate. destruct (session_remote s) as [r|] eqn:E; cbn; by rewrite ?E. Qed.

Lemma accept_gate now src h payload ev s :
  gate (accept now src h payload ev s).2 = (Some (default src (session_remote s)), inbound_ssrc s, now).
Proof.
  unfold accept. cbv zeta. set (s1 := with_stats _ _).
  assert (gate s1 = (Some (default src (session_remote s)), inbound_ssrc s, now)) as E.
  { pose proof (latch_gate src s) as El. unfold gate in *. injection El as E1 E2 _. unfold s1. cbn. rewrite E2. f_equal. f_equal.
    unfold session_remote in *. by cbn. }
  clearbody s1. destruct ev as [e|].
  - destruct (event_end e); [|exact E]. destruct (bool_decide _); [exact E|]. exact E.
  - destruct (bool_decide _); exact E.
Qed.

Lemma dtmf_from_bytes_returns data : returns (dtmf_from_bytes data).
Proof.
  unfold dtmf_from_bytes. destruct (Nat.ltb_spec (length data) 4); [auto with rust|].
  apply returns_bind; [apply byte_at_returns; lia|intros b0 _]. apply returns_bind; [apply byte_at_returns; lia|intros b1 _].
  rewrite range_returns by lia. cbn [outcome_bind]. auto with rust.
Qed.

#[local] Ltac discarded :=
  do 2 eexists; split; [reflexivity|]; right; eexists; split; [reflexivity|]; rewrite !elem_of_cons; auto 6.

(** Every datagram is decided: one that is discarded changes nothing of the session but
    one counter; one that is accepted comes from the known address, or makes its own the
    known one, with a negotiated type and the one source. *)
Lemma recv_datagram_decides now src datagram s :
  ∃ f s', recv_datagram now src datagram s = Done (f, s')
  ∧ match f with
    | None => s' = s ∨ ∃ count, s' = with_stats count s
                ∧ count ∈ [count_wrong_source; count_malformed; count_wrong_payload_type; count_unstable_ssrc]
    | Some _ => ∃ h payload, acceptable src (take RTP_MAX_MTU datagram) s h payload
                  ∧ gate s' = (Some src, Some (h_ssrc h), now)
    end.
Proof.
  unfold recv_datagram. cbv zeta. set (packet := take RTP_MAX_MTU datagram).
  destruct (is_rtcp_packet packet) eqn:Ertcp; [exists None, s; split; [done|by left]|].
  destruct (bool_decide_reflect (is_Some (session_remote s) ∧ session_remote s ≠ Some src)) as [Hsrc|Hsrc].
  { discarded. }
  destruct (parse_rtp_header_total packet) as (r & Er & _). rewrite Er. cbn [outcome_bind].
  destruct r as [[h payload]|e]; [|discarded].
  destruct (negb (h_payload_type h =? payload_type s) && negb (bool_decide (dtmf_payload_type s = Some (h_payload_type h)))) eqn:Ept.
  { discarded. }
  assert (h_payload_type h = payload_type s ∨ dtmf_payload_type s = Some (h_payload_type h)) as Hpt.
  { apply andb_false_iff in Ept as [E|E]; apply negb_false_iff in E; [left; by apply Z.eqb_eq|right; by apply bool_decide_eq_true in E]. }
  assert (∃ ev : option (option DtmfEvent),
    (if bool_decide (dtmf_payload_type s = Some (h_payload_type h)) then
       let! e := dtmf_from_bytes payload in
       Done (match e with Some e => if event e <=? 15 then Some (Some e) else None | None => None end)
     else Done (Some None)) = Done ev) as (ev & ->).
  { destruct (bool_decide _); [|by eexists]. destruct (dtmf_from_bytes_returns payload) as [e ->]. by eexists. }
  cbn [outcome_bind]. destruct ev as [ev|]; [|discarded].
  assert (session_remote s = None ∨ session_remote s = Some src) as Hremote.
  { destruct (session_remote s) as [r|]; [|by left]. right. destruct (decide (r = src)) as [->|]; [done|].
    exfalso. apply Hsrc. split; [by eexists|congruence]. }
  assert (default src (session_remote s) = src) as Hd by (by destruct Hremote as [-> | ->]).
  destruct (inbound_ssrc s) as [x|] eqn:Ei.
  - destruct (Z.eqb_spec x (h_ssrc h)) as [->|]; [|discarded].
    pose proof (accept_gate now src h payload ev s) as Eg. destruct (accept now src h payload ev s) as [f s'].
    exists (Some f), s'. split; [done|]. exists h, payload. split; [by split_and!; auto|]. cbn [snd] in Eg. by rewrite Eg, Hd, Ei.
  - pose proof (accept_gate now src h payload ev (with_inbound_ssrc (Some (h_ssrc h)) s)) as Eg.
    destruct (accept _ _ _ _ _ _) as [f s']. exists (Some f), s'. split; [done|]. exists h, payload.
    split; [by split_and!; auto|]. cbn [snd] in Eg. rewrite Eg. unfold session_remote in *. cbn. by rewrite Hd.
Qed.

(** ** A session and everybody else *)

(** What happens to a session: datagrams of anybody, what the negotiation sets, and
    what is sent. *)
Inductive rtp_input :=
  | Arrives (now : Z) (src : SocketAddr) (datagram : bytes)
  | SetPayloadType (pt : Z)
  | SetDtmfPayloadType (pt : Z)
  | ClearDtmfPayloadType
  | SetRemoteAddr (a : SocketAddr)
  | MarkActive (now : Z)
  | SendFrame (send_ok : bool) (f : Frame)
  | SendDtmf (send_ok : nat → bool) (digit : char) (duration_samples : Z).

(** A datagram that was accepted. *)
Record accepted := { acc_time : Z; acc_from : SocketAddr; acc_packet : bytes; acc_frame : Frame }.

Definition rtp_step (x : rtp_input) (s : RtpSession) : outcome (list accepted * RtpSession) :=
  match x with
  | Arrives now src datagram =>
      let! fs := recv_datagram now src datagram s in
      Done (match fs.1 with
            | Some f => [{| acc_time := now; acc_from := src; acc_packet := take RTP_MAX_MTU datagram; acc_frame := f |}]
            | None => [] end, fs.2)
  | SetPayloadType pt => Done ([], set_payload_type pt s)
  | SetDtmfPayloadType pt => Done ([], set_dtmf_payload_type pt s)
  | ClearDtmfPayloadType => Done ([], clear_dtmf_payload_type s)
  | SetRemoteAddr a => Done ([], set_remote_addr a s)
  | MarkActive now => Done ([], mark_inbound_active now s)
  | SendFrame ok f => Done ([], (send_frame ok f s).1.2)
  | SendDtmf ok digit d => Done ([], (send_dtmf ok digit d s).1.2)
  end.

Fixpoint rtp_run (xs : list rtp_input) (s : RtpSession) : outcome (list accepted * RtpSession) :=
  match xs with
  | [] => Done ([], s)
  | x :: xs' =>
      let! r := rtp_step x s in
      let! r' := rtp_run xs' r.2 in Done (r.1 ++ r'.1, r'.2)
  end.

(** Sending does not open the gate. *)
Lemma send_frame_gate ok f s : gate (send_frame ok f s).1.2 = gate s.
Proof.
  destruct f as [v| | | | | | | | | | | |]; try done. cbn. destruct (session_remote s) eqn:E; [|done].
  unfold next_numbers. destruct (v_rtp_timing v) as [t|].
  - destruct (outbound_timing s) as [b|]; destruct ok; cbn [negb fst snd]; try done; by destruct (bool_decide _).
  - destruct ok; cbn [negb fst snd]; try done. by destruct (bool_decide _).
Qed.

Lemma send_packets_gate ok i ps s : gate (send_packets ok i ps s).1.2 = gate s.
Proof.
  revert i s. induction ps as [|p ps IH]; intros i s; cbn; [done|]. destruct (ok i); cbn [negb]; [|done].
  specialize (IH (S i) (with_stats (count_packet_sent 4) s)). destruct (send_packets _ _ _ _) as [[? ?] ?]. exact IH.
Qed.

Lemma send_dtmf_gate ok digit d s : gate (send_dtmf ok digit d s).1.2 = gate s.
Proof.
  unfold send_dtmf. destruct (session_remote s); [|done]. destruct (dtmf_payload_type s) as [dt|]; [|done]. cbv zeta.
  pose proof (send_packets_gate ok 0 (dtmf_packets s dt (digit_to_event digit) (sequence s) (timestamp s) d)
    (with_outgoing (u16 (sequence s + 1)) (timestamp s) None s)) as Hg.
  destruct (send_packets _ _ _ _) as [[b s'] sent]. cbn [fst snd] in Hg. by destruct b.
Qed.

(** The part of the gate that stays: the source once it is known and, as long as the
    negotiation does not set it, the address; and the clock. *)
Definition is_set_remote (x : rtp_input) : bool := match x with SetRemoteAddr _ => true | _ => false end.
Definition marks (xs : list rtp_input) : list Z := omap (λ x, match x with MarkActive t => Some t | _ => None end) xs.

Record guarded (xs : list rtp_input) (acc : list accepted) (s s' : RtpSession) : Prop := {
  one_source : ∀ e, e ∈ acc → ∃ h payload, parse_rtp_header (acc_packet e) = Done (Ok (h, payload)) ∧ inbound_ssrc s' = Some (h_ssrc h);
  source_kept : ∀ x, inbound_ssrc s = Some x → inbound_ssrc s' = Some x;
  one_address : forallb (λ x, negb (is_set_remote x)) xs = true →
    (∀ e, e ∈ acc → session_remote s' = Some (acc_from e)) ∧ ∀ a, session_remote s = Some a → session_remote s' = Some a;
  alive : last_inbound s' ∈ last_inbound s :: marks xs ++ (acc_time <$> acc);
}.

Lemma guarded_quiet x s s' : gate s' = gate s → guarded [x] [] s s'.
Proof.
  unfold gate. intros [= E1 E2 E3]. split; [set_solver|congruence|intros _; split; [set_solver|congruence]|].
  rewrite E3. by left.
Qed.

Lemma rtp_step_guarded x s : ∃ acc s', rtp_step x s = Done (acc, s') ∧ guarded [x] acc s s'.
Proof.
  destruct x as [now src d|pt|pt| |a|t|ok f|ok digit n]; cbn [rtp_step]; try (do 2 eexists; split; [done|]).
  - destruct (recv_datagram_decides now src d s) as (f & s' & -> & Hd). cbn [outcome_bind fst snd]. do 2 eexists. split; [done|].
    destruct f as [f|].
    + destruct Hd as (h & payload & (_ & Hsrc & Hp & _ & Hssrc) & Hg). unfold gate in Hg. injection Hg as G1 G2 G3. split.
      * intros e ->%list_elem_of_singleton. eauto.
      * intros x Hx. rewrite Hx in Hssrc. destruct Hssrc as [?|E]; [done|]. by rewrite G2, E.
      * intros _. split; [by intros e ->%list_elem_of_singleton|]. intros a Ha. rewrite Ha in Hsrc.
        destruct Hsrc as [?|E]; [done|]. by rewrite G1, E.
      * rewrite G3. set_solver.
    + apply guarded_quiet. destruct Hd as [->|(count & -> & Hc)]; [done|].
      rewrite !elem_of_cons in Hc. by destruct Hc as [->|[->|[->|[->|?%not_elem_of_nil]]]].
  - by apply guarded_quiet.
  - by apply guarded_quiet.
  - by apply guarded_quiet.
  - split; [set_solver|done|done|by left].
  - split; [set_solver|done|intros _; split; [set_solver|done]|set_solver].
  - apply guarded_quiet, send_frame_gate.
  - apply guarded_quiet, send_dtmf_gate.
Qed.

Lemma guarded_trans xs ys acc acc' s s1 s2 :
  guarded xs acc s s1 → guarded ys acc' s1 s2 → guarded (xs ++ ys) (acc ++ acc') s s2.
Proof.
  intros [A1 A2 A3 A4] [B1 B2 B3 B4]. split.
  - intros e [He|He]%elem_of_app; [|by apply B1]. destruct (A1 e He) as (h & p & Hp & Hs). eauto.
  - eauto.
  - rewrite forallb_app, andb_true_iff. intros [Hx Hy]. destruct (A3 Hx) as [A5 A6], (B3 Hy) as [B5 B6]. split; [|eauto].
    intros e [He|He]%elem_of_app; [|by apply B5]. eauto.
  - unfold marks in *. rewrite omap_app, fmap_app, !elem_of_cons, !elem_of_app in *. clear -A4 B4.
    destruct B4 as [E|[B4|B4]]; [rewrite E; tauto|tauto..].
Qed.

Lemma rtp_run_guarded xs s : ∃ acc s', rtp_run xs s = Done (acc, s') ∧ guarded xs acc s s'.
Proof.
  revert s. induction xs as [|x xs IH]; intros s; cbn [rtp_run].
  - do 2 eexists. split; [done|]. split; [set_solver|done|intros _; split; [set_solver|done]|by left].
  - destruct (rtp_step_guarded x s) as (acc & s1 & -> & H1). cbn [outcome_bind fst snd].
    destruct (IH s1) as (acc' & s2 & -> & H2). cbn [outcome_bind fst snd]. do 2 eexists. split; [done|].
    by apply (guarded_trans [x] xs acc acc' s s1 s2).
Qed.

(** C21. Outsiders are kept out.  Whatever datagrams arrive from anybody, whatever is sent
    and negotiated in between, a session never panics; all datagrams it accepts are of
    one source; unless the negotiation moves the address, all come from one address,
    the first that was accepted; and only accepted datagrams, or the attachment of
    media, keep a call from being idle. *)
Theorem rtp_ingress_guarded (now0 ssrc : Z) (xs : list rtp_input) :
  ∃ acc s, rtp_run xs (session_bound now0 ssrc) = Done (acc, s)
  ∧ (∃ source, ∀ e, e ∈ acc → ∃ h payload, parse_rtp_header (acc_packet e) = Done (Ok (h, payload)) ∧ h_ssrc h = source)
  ∧ (forallb (λ x, negb (is_set_remote x)) xs = true → ∀ e e', e ∈ acc → e' ∈ acc → acc_from e = acc_from e')
  ∧ last_inbound s ∈ now0 :: marks xs ++ (acc_time <$> acc).
Proof.
  destruct (rtp_run_guarded xs (session_bound now0 ssrc)) as (acc & s & Hr & [H1 _ H3 H4]). exists acc, s. split_and!; [done| | |done].
  - exists (default 0 (inbound_ssrc s)). intros e He. destruct (H1 e He) as (h & p & Hp & Hs). exists h, p. by rewrite Hs.
  - intros Hx e e' He He'. destruct (H3 Hx) as [Hf _]. pose proof (Hf e He). pose proof (Hf e' He'). congruence.
Qed.

(** ** Ports are found *)

Definition range_ok (r : RtpPortRange) : Prop := 0 < range_start r ≤ range_end r ∧ range_end r < 65536.
Definition in_range (r : RtpPortRange) (p : Z) : Prop := range_start r ≤ p ≤ range_end r.

Lemma parse_rtp_port_ok v d name p : parse_rtp_port v d name = Ok p → 0 ≤ d < 65536 → 0 ≤ p < 65536.
Proof.
  unfold parse_rtp_port. destruct v as [v|]; [|by intros [= ->]].
  destruct (parse_u16 (trim v)) as [n|] eqn:E; [|done]. intros [= <-] _. by apply parse_unsigned_range in E.
Qed.

(** A configured range is one. *)
Lemma range_from_config_ok rtpstart rtpend r : range_from_config rtpstart rtpend = Ok r → range_ok r.
Proof.
  unfold range_from_config. intros (x & Hx & (y & Hy & E)%result_bind_Ok)%result_bind_Ok.
  apply parse_rtp_port_ok in Hx; [|unfold DEFAULT_RTP_PORT_START; lia].
  apply parse_rtp_port_ok in Hy; [|unfold DEFAULT_RTP_PORT_END; lia].
  unfold range_new in E. destruct (Z.eqb_spec x 0), (Z.eqb_spec y 0); try done. cbn [orb] in E.
  destruct (Z.ltb_spec y x); [done|]. injection E as <-. unfold range_ok. cbn. lia.
Qed.

Lemma try_ports_spec bind r first attempt n :
  range_ok r →
  match try_ports bind r first attempt n with
  | Ok p => in_range r p ∧ bind p = Bound
  | Err IoError => ∃ p, in_range r p ∧ bind p = BindError
  | Err (AddrNotAvailable _) =>
      ∀ k, attempt ≤ k < attempt + Z.of_nat n → bind (range_start r + (first + k) mod capacity r) = AddrInUse
  | Err _ => False
  end.
Proof.
  intros [Hr _]. revert attempt. induction n as [|n IH]; intros attempt; cbn [try_ports]; [intros k; lia|].
  set (port := range_start r + (first + attempt) mod capacity r).
  assert (in_range r port) as Hin.
  { unfold port, in_range, capacity in *. pose proof (Z.mod_pos_bound (first + attempt) (range_end r - range_start r + 1) ltac:(lia)). lia. }
  destruct (bind port) eqn:Eb; [done| |by exists port]. specialize (IH (attempt + 1)).
  destruct (try_ports _ _ _ _ _) as [p|[]]; try done. intros k Hk. destruct (decide (k = attempt)) as [->|]; [done|].
  apply IH. lia.
Qed.

(** Ports are found.  Whatever ports are taken and however often the allocator was
    asked before, it answers with a port of the range that could be bound; it says
    that the range is exhausted only when every port of it is in use; any other error
    is one of the system. *)
Theorem allocate_finds_port (bind : Z → bind_result) (a : RtpPortAllocator) :
  range_ok (range a) →
  match (allocate bind a).1 with
  | Ok p => in_range (range a) p ∧ bind p = Bound
  | Err IoError => ∃ p, in_range (range a) p ∧ bind p = BindError
  | Err (AddrNotAvailable _) => ∀ p, in_range (range a) p → bind p = AddrInUse
  | Err _ => False
  end.
Proof.
  intros Hr. unfold allocate. cbn [fst]. set (first := next_offset a mod capacity (range a)).
  pose proof (try_ports_spec bind (range a) first 0 (Z.to_nat (capacity (range a))) Hr) as Ht.
  destruct (try_ports _ _ _ _ _) as [p|[]]; try done. intros p Hp. destruct Hr as [Hr _].
  assert (0 < capacity (range a)) as Hc by (unfold capacity; lia).
  specialize (Ht ((p - range_start (range a) - first) mod capacity (range a))).
  rewrite Z.add_mod_idemp_r, Z2Nat.id in Ht by lia. replace (first + (p - range_start (range a) - first)) with (p - range_start (range a)) in Ht by lia.
  rewrite (Z.mod_small (p - range_start (range a))) in Ht by (unfold in_range, capacity in *; lia).
  replace (range_start (range a) + (p - range_start (range a))) with p in Ht by lia.
  apply Ht. pose proof (Z.mod_pos_bound (p - range_start (range a) - first) (capacity (range a)) Hc). lia.
Qed.

(** ** A stream is heard *)

Lemma is_rtcp_built h payload : header_ok h →
  is_rtcp_packet (build_rtp_packet h payload) = marker h && (72 <=? h_payload_type h) && (h_payload_type h <=? 85).
Proof.
  intros [_ _ Hpt _ _ _]. unfold is_rtcp_packet, build_rtp_packet, header_to_bytes.
  destruct (second_octet (marker h) (h_payload_type h) Hpt) as (_ & _ & E).
  set (b1 := Z.lor (if marker h then 128 else 0) (Z.land (h_payload_type h) 127)) in *. cbn [Datatypes.app lookup list_lookup].
  rewrite E. unfold RTCP_PT_RANGE_START, RTCP_PT_RANGE_END. destruct (marker h); cbn [andb];
    repeat match goal with |- context [?x <=? ?y] => destruct (Z.leb_spec x y) end; try done; lia.
Qed.

Lemma dtmf_bytes_roundtrip e : 0 ≤ volume e < 64 → 0 ≤ duration e < 2 ^ 16 → dtmf_from_bytes (dtmf_to_bytes e) = Done (Some e).
Proof.
  intros Hv Hd. unfold dtmf_from_bytes, dtmf_to_bytes. rewrite length_app, length_be_bytes. cbn [length Nat.add Nat.ltb Nat.leb].
  set (b1 := Z.lor (if event_end e then 128 else 0) (Z.land (volume e) 63)).
  change (byte_at ([event e; b1] ++ be_bytes 2 (duration e)) 0) with (Done (event e)).
  change (byte_at ([event e; b1] ++ be_bytes 2 (duration e)) 1) with (Done b1). cbn [outcome_bind].
  rewrite <-(app_nil_r (be_bytes 2 (duration e))).
  rewrite (bytes_range_at [event e; b1] (be_bytes 2 (duration e)) [] 2 4) by (rewrite ?length_be_bytes; done).
  cbn [outcome_bind]. rewrite be_bytes_of by done.
  pose proof (forall_range 64 (λ v, forallb (λ m : bool, let b := Z.lor (if m then 128 else 0) (Z.land v 63) in
    Bool.eqb (negb (Z.land b 128 =? 0)) m && (Z.land b 63 =? v)) [true; false]) ltac:(by vm_compute) (volume e) Hv) as H.
  rewrite forallb_forall in H. specialize (H (event_end e) ltac:(destruct (event_end e); cbn; auto)). cbv zeta in H. fold b1 in H.
  rewrite andb_true_iff, Bool.eqb_true_iff, Z.eqb_eq in H. destruct H as [-> ->]. by destruct e.
Qed.

Lemma digit_to_event_range d : 0 ≤ digit_to_event d ≤ 15.
Proof.
  unfold digit_to_event. destruct (is_ascii_digit d) eqn:E.
  - unfold is_ascii_digit in E. apply andb_true_iff in E as [E1 E2]. apply N.leb_le in E1, E2. lia.
  - repeat match goal with |- context [if ?b then _ else _] => destruct b end; lia.
Qed.

(** The digits a telephone has come back as they are, letters as capitals. *)
Lemma event_digit_roundtrip d :
  d ∈ lit "0123456789*#ABCD" → event_to_digit (digit_to_event d) = d.
Proof. intros Hd. repeat (apply elem_of_cons in Hd as [->|Hd]; [by vm_compute|]). by apply not_elem_of_nil in Hd. Qed.

(** A packet that passes every check. *)
Lemma recv_accepts now src h payload s ev :
  plain_header h → (length payload + 12 ≤ RTP_MAX_MTU)%nat →
  marker h && (72 <=? h_payload_type h) && (h_payload_type h <=? 85) = false →
  (session_remote s = None ∨ session_remote s = Some src) →
  (inbound_ssrc s = None ∨ inbound_ssrc s = Some (h_ssrc h)) →
  (if bool_decide (dtmf_payload_type s = Some (h_payload_type h))
   then ∃ e, ev = Some e ∧ dtmf_from_bytes payload = Done (Some e) ∧ event e ≤ 15
   else ev = None ∧ h_payload_type h = payload_type s) →
  recv_datagram now src (build_rtp_packet h payload) s
    = let '(f, s') := accept now src h payload ev (with_inbound_ssrc (Some (h_ssrc h)) s) in Done (Some f, s').
Proof.
  intros Hh Hlen Hrtcp Hsrc Hssrc Hev. unfold recv_datagram. cbv zeta.
  rewrite take_ge by (unfold build_rtp_packet; rewrite length_app, length_header; lia).
  rewrite is_rtcp_built, Hrtcp by apply Hh. rewrite bool_decide_false by (destruct Hsrc as [-> | ->]; [by intros [[? ?] _]|by intros [_ ?]]).
  rewrite rtp_packet_roundtrip by done. cbn [outcome_bind].
  assert (negb (h_payload_type h =? payload_type s) && negb (bool_decide (dtmf_payload_type s = Some (h_payload_type h))) = false) as ->.
  { destruct (bool_decide _); [by rewrite andb_false_r|]. destruct Hev as [_ ->]. by rewrite Z.eqb_refl. }
  assert ((if bool_decide (dtmf_payload_type s = Some (h_payload_type h)) then
       let! e := dtmf_from_bytes payload in
       Done (match e with Some e => if event e <=? 15 then Some (Some e) else None | None => None end)
     else Done (Some None)) = Done (Some ev)) as ->.
  { destruct (bool_decide _); [|by destruct Hev as [-> _]]. destruct Hev as (e & -> & -> & He). cbn [outcome_bind].
    by rewrite (proj2 (Z.leb_le _ _)). }
  cbn [outcome_bind]. destruct Hssrc as [E|E]; rewrite E; [done|]. rewrite Z.eqb_refl.
  assert (with_inbound_ssrc (Some (h_ssrc h)) s = s) as -> by (destruct s; cbn in *; by subst). done.
Qed.

(** What a caller hears. *)
Inductive heard := HVoice (codec : Z) (data : bytes) | HDigit (d : char).
Definition content (f : Frame) : list heard :=
  match f with FVoice v => [HVoice (v_codec_id v) (v_data v)] | FDtmfEnd d _ => [HDigit d] | _ => [] end.

(** What the other end says. *)
Inductive media := Voice (v : VoiceFrame) | Digit (d : char) (duration_samples : Z).

Definition media_ok (m : media) : Prop :=
  match m with Voice v => (length (v_data v) + 12 ≤ RTP_MAX_MTU)%nat | Digit _ n => 0 ≤ n < 2 ^ 16 end.

Definition say (m : media) (a : RtpSession) : result RtpError unit * RtpSession * list bytes :=
  match m with Voice v => send_frame true (FVoice v) a | Digit d n => send_dtmf (λ _, true) d n a end.

Fixpoint say_all (ms : list media) (a : RtpSession) : RtpSession * list bytes :=
  match ms with
  | [] => (a, [])
  | m :: ms' => let '(_, a, ps) := say m a in let '(a, ps') := say_all ms' a in (a, ps ++ ps')
  end.

(** Frames are received as long as there are datagrams. *)
Fixpoint hear_all (arrivals : list (Z * SocketAddr * bytes)) (b : RtpSession) : outcome (list Frame * RtpSession) :=
  match arrivals with
  | [] => Done ([], b)
  | (now, src, p) :: arrivals' =>
      let! r := recv_datagram now src p b in
      let! r' := hear_all arrivals' r.2 in Done (option_list r.1 ++ r'.1, r'.2)
  end.

Lemma hear_all_recv_frame arrivals b : hear_all arrivals b =
  let! r := recv_frame arrivals b in
  match r with
  | (Some f, b', arrivals') => let! r' := hear_all arrivals' b' in Done (f :: r'.1, r'.2)
  | (None, b', _) => Done ([], b')
  end.
Proof.
  revert b. induction arrivals as [|[[now src] p] arrivals IH]; intros b; cbn [hear_all recv_frame]; [done|].
  destruct (recv_datagram now src p b) as [[[f|] b']|]; cbn [outcome_bind fst snd option_list]; [done| |done].
  rewrite IH. destruct (recv_frame arrivals b') as [[[[f|] b2] rest]|]; cbn [outcome_bind]; [|done|done].
  by destruct (hear_all rest b2) as [[fs b3]|].
Qed.

(** What is to be heard: every voice frame, and every digit unless the digit before had
    the same number and time. *)
Fixpoint expected (last : option (Z * Z)) (ms : list media) (a : RtpSession) : list heard :=
  match ms with
  | [] => []
  | Voice v :: ms' => HVoice (payload_type a) (v_data v) :: expected last ms' (say (Voice v) a).1.2
  | Digit d n :: ms' =>
      let key := (timestamp a, digit_to_event d) in
      (if bool_decide (last = Some key) then [] else [HDigit (event_to_digit (digit_to_event d))])
      ++ expected (Some key) ms' (say (Digit d n) a).1.2
  end.

(** What was negotiated: the source of the sender, the type of voice and that of
    telephone events.  An event's type is not one that a marked packet of it would be
    taken for a report by. *)
Record negotiated (ssrc pt dt : Z) : Prop := {
  n_ssrc : 0 ≤ ssrc < 2 ^ 32;
  n_pt : 0 ≤ pt < 128;
  n_dt : 0 ≤ dt < 128 ∧ dt ≠ pt ∧ (dt < 72 ∨ 85 < dt);
}.

Record sending (ssrc pt dt : Z) (a : RtpSession) : Prop := {
  a_remote : is_Some (session_remote a);
  a_ssrc : local_ssrc a = ssrc;
  a_seq : 0 ≤ sequence a < 2 ^ 16;
  a_ts : 0 ≤ timestamp a < 2 ^ 32;
  a_pt : payload_type a = pt;
  a_dt : dtmf_payload_type a = Some dt;
}.

Record hearing (src : SocketAddr) (ssrc pt dt : Z) (last : option (Z * Z)) (b : RtpSession) : Prop := {
  b_remote : session_remote b = Some src;
  b_ssrc : inbound_ssrc b = None ∨ inbound_ssrc b = Some ssrc;
  b_pt : payload_type b = pt;
  b_dt : dtmf_payload_type b = Some dt;
  b_last : last_dtmf_end b = (λ k, (ssrc, k.1, k.2)) <$> last;
}.

Section stream.
Context (src : SocketAddr) (ssrc pt dt : Z) (Hn : negotiated ssrc pt dt).
#[local] Abbreviation hearing := (hearing src ssrc pt dt).
#[local] Abbreviation sending := (sending ssrc pt dt).

Lemma accept_hearing now h payload ev last b :
  hearing last b → h_ssrc h = ssrc →
  let '(f, b') := accept now src h payload ev (with_inbound_ssrc (Some (h_ssrc h)) b) in
  hearing (match ev with Some e => if event_end e then Some (h_timestamp h, event e) else last | None => last end) b'
  ∧ content f = match ev with
                | Some e => if event_end e then
                              if bool_decide (last = Some (h_timestamp h, event e)) then [] else [HDigit (event_to_digit (event e))]
                            else []
                | None => [HVoice (h_payload_type h) payload]
                end.
Proof.
  intros [B1 B2 B3 B4 B5] Hs. set (b0 := with_inbound_ssrc _ b).
  pose proof (accept_gate now src h payload ev b0) as Hg. unfold gate in Hg.
  assert (payload_type (accept now src h payload ev b0).2 = pt ∧ dtmf_payload_type (accept now src h payload ev b0).2 = Some dt
    ∧ last_dtmf_end (accept now src h payload ev b0).2
      = (λ k, (ssrc, k.1, k.2)) <$> (match ev with Some e => if event_end e then Some (h_timestamp h, event e) else last | None => last end)
    ∧ content (accept now src h payload ev b0).1 = match ev with
        | Some e => if event_end e then
                      if bool_decide (last = Some (h_timestamp h, event e)) then [] else [HDigit (event_to_digit (event e))]
                    else []
        | None => [HVoice (h_payload_type h) payload]
        end) as (E1 & E2 & E3 & E4).
  { clear Hg. unfold accept. cbv zeta. set (s1 := with_stats _ _).
    assert (payload_type s1 = pt ∧ dtmf_payload_type s1 = Some dt ∧ last_dtmf_end s1 = (λ k, (ssrc, k.1, k.2)) <$> last) as (F1 & F2 & F3).
    { unfold s1, latch_remote. destruct (session_remote b0); done. }
    clearbody s1. destruct ev as [e|]; [|by destruct (bool_decide (payload = []))].
    destruct (event_end e); [|done]. rewrite F3, Hs.
    destruct last as [[t v]|]; cbn [fmap option_fmap option_map fst snd].
    - destruct (decide ((t, v) = (h_timestamp h, event e))) as [[= -> ->]|Hne].
      + rewrite !bool_decide_true by done. done.
      + rewrite !bool_decide_false by congruence. done.
    - rewrite !bool_decide_false by done. done. }
  destruct (accept now src h payload ev b0) as [f b']. cbn [fst snd] in *. injection Hg as G1 G2 _.
  split; [|done]. split; [|right|done..].
  - rewrite G1. unfold session_remote in *. cbn. by rewrite B1.
  - rewrite G2. cbn. by rewrite Hs.
Qed.

Lemma hear_voice now h payload last b :
  hearing last b → plain_header h → marker h = false → h_payload_type h = pt → h_ssrc h = ssrc →
  (length payload + 12 ≤ RTP_MAX_MTU)%nat →
  ∃ f b', recv_datagram now src (build_rtp_packet h payload) b = Done (Some f, b')
    ∧ content f = [HVoice pt payload] ∧ hearing last b'.
Proof.
  intros Hb Hh Hm Hpt Hs Hlen. pose proof Hb as [B1 B2 B3 B4 _]. rewrite (recv_accepts now src h payload b None); try done.
  - pose proof (accept_hearing now h payload None last b Hb Hs) as Ha. destruct (accept _ _ _ _ _ _) as [f b'].
    exists f, b'. rewrite Hpt in Ha. tauto.
  - by rewrite Hm.
  - by right.
  - by rewrite Hs.
  - rewrite B4, Hpt, bool_decide_false; [done|]. intros [= E]. by destruct Hn as [_ _ (_ & ? & _)].
Qed.

Lemma hear_event now h e last b :
  hearing last b → plain_header h → h_payload_type h = dt → h_ssrc h = ssrc →
  0 ≤ event e ≤ 15 → 0 ≤ volume e < 64 → 0 ≤ duration e < 2 ^ 16 →
  ∃ f b', recv_datagram now src (build_rtp_packet h (dtmf_to_bytes e)) b = Done (Some f, b')
    ∧ content f = (if event_end e then
                     if bool_decide (last = Some (h_timestamp h, event e)) then [] else [HDigit (event_to_digit (event e))]
                   else [])
    ∧ hearing (if event_end e then Some (h_timestamp h, event e) else last) b'.
Proof.
  intros Hb Hh Hpt Hs He Hv Hd. pose proof Hb as [B1 B2 B3 B4 _].
  rewrite (recv_accepts now src h (dtmf_to_bytes e) b (Some e)); try done.
  - pose proof (accept_hearing now h (dtmf_to_bytes e) (Some e) last b Hb Hs) as Ha. destruct (accept _ _ _ _ _ _) as [f b'].
    exists f, b'. tauto.
  - unfold dtmf_to_bytes. rewrite length_app, length_be_bytes. cbn. unfold RTP_MAX_MTU. lia.
  - destruct Hn as [_ _ (_ & _ & Hr)]. rewrite Hpt. destruct (marker h); [|done]. cbn [andb].
    destruct (Z.leb_spec 72 dt), (Z.leb_spec dt 85); try done. lia.
  - by right.
  - by rewrite Hs.
  - rewrite B4, Hpt, bool_decide_true by done. exists e. split_and!; [done|by apply dtmf_bytes_roundtrip|lia].
Qed.

(** Packets are heard one after the other, none of them discarded. *)
Inductive are_heard : list bytes → option (Z * Z) → list heard → option (Z * Z) → Prop :=
  | heard_nil last : are_heard [] last [] last
  | heard_cons p ps last out last1 outs last2 :
      (∀ now b, hearing last b → ∃ f b', recv_datagram now src p b = Done (Some f, b') ∧ content f = out ∧ hearing last1 b') →
      are_heard ps last1 outs last2 → are_heard (p :: ps) last (out ++ outs) last2.

Lemma heard_silent p ps last last1 outs last2 :
  (∀ now b, hearing last b → ∃ f b', recv_datagram now src p b = Done (Some f, b') ∧ content f = [] ∧ hearing last1 b') →
  are_heard ps last1 outs last2 → are_heard (p :: ps) last outs last2.
Proof using Type. apply (heard_cons p ps last []). Qed.

Lemma heard_app ps last out last1 qs outs last2 :
  are_heard ps last out last1 → are_heard qs last1 outs last2 → are_heard (ps ++ qs) last (out ++ outs) last2.
Proof using Type. intros Hp Hq. induction Hp as [|p ps last out last1 outs' last2' Hp _ IH]; [done|]. rewrite <-app_assoc. by eapply heard_cons, IH. Qed.

(** What comes from anywhere else is discarded. *)
Lemma outsider_discarded now src' p last b : hearing last b → src' ≠ src →
  ∃ b', recv_datagram now src' p b = Done (None, b') ∧ hearing last b'.
Proof using Type.
  intros Hb Hne. pose proof (b_remote _ _ _ _ _ _ Hb) as Hr.
  destruct (recv_datagram_decides now src' p b) as ([f|] & b' & E & H); [|exists b'; split; [done|]].
  - destruct H as (h & payload & (_ & [Hs|Hs] & _) & _); congruence.
  - destruct H as [->|(count & -> & Hc)]; [done|]. rewrite !elem_of_cons in Hc.
    destruct Hb. by destruct Hc as [->|[->|[->|[->|?%not_elem_of_nil]]]]; split.
Qed.

Lemma heard_among arrivals last out last' b :
  are_heard (filter (λ x, x.1.2 = src) arrivals).*2 last out last' → hearing last b →
  ∃ fs b', hear_all arrivals b = Done (fs, b') ∧ length fs = length (filter (λ x, x.1.2 = src) arrivals)
    ∧ fs ≫= content = out ∧ hearing last' b'.
Proof using Type.
  revert last out b. induction arrivals as [|[[now src'] p] arrivals IH]; intros last out b Hh Hb; cbn [hear_all].
  - inversion Hh; subst. by exists [], b.
  - destruct (decide (src' = src)) as [->|Hne].
    + rewrite filter_cons_True in Hh |- * by done. inversion Hh as [|? ? ? o1 l1 o2 ? Hp Hps]; subst.
      destruct (Hp now b Hb) as (f & b1 & -> & <- & H1). destruct (IH l1 o2 b1 Hps H1) as (fs & b2 & E & Hl & <- & H2).
      cbn [outcome_bind snd]. rewrite E. cbn [outcome_bind fst snd option_list]. exists (f :: fs), b2.
      split_and!; [done|cbn; lia|done|done].
    + rewrite filter_cons_False in Hh |- * by done. destruct (outsider_discarded now src' p last b Hb Hne) as (b1 & -> & H1).
      cbn [outcome_bind snd]. destruct (IH last out b1 Hh H1) as (fs & b2 & E & Hl & Ho & H2). rewrite E. by exists fs, b2.
Qed.

Lemma u16_range n : 0 ≤ u16 n < 2 ^ 16.
Proof using Type. unfold u16. apply Z.mod_pos_bound. lia. Qed.
Lemma u32_range n : 0 ≤ u32 n < 2 ^ 32.
Proof using Type. unfold u32. apply Z.mod_pos_bound. lia. Qed.
#[local] Hint Resolve u16_range u32_range : core.

(** The numbers of a packet are in range, and what follows is as well. *)
Lemma next_numbers_sending samples source a :
  sending a → let '(seq, ts, a') := next_numbers samples source a in 0 ≤ seq < 2 ^ 16 ∧ 0 ≤ ts < 2 ^ 32 ∧ sending a'.
Proof using Type.
  intros [A1 A2 A3 A4 A5 A6]. unfold next_numbers. destruct source as [t|].
  - destruct (outbound_timing a) as [b|]; cbv zeta; split_and!; try apply u16_range; try apply u32_range;
      (split; cbn; auto using u16_range, u32_range).
  - split_and!; try apply A3; try apply A4. split; cbn; auto using u16_range, u32_range.
Qed.

Lemma say_voice v a : sending a →
  ∃ h a', say (Voice v) a = (Ok tt, a', [build_rtp_packet h (v_data v)])
    ∧ plain_header h ∧ marker h = false ∧ h_payload_type h = pt ∧ h_ssrc h = ssrc ∧ sending a'.
Proof using Hn.
  intros Ha. pose proof (next_numbers_sending (v_samples v) (v_rtp_timing v) a Ha) as Hnum. cbn [say send_frame].
  destruct (a_remote _ _ _ _ Ha) as [r ->]. destruct (next_numbers _ _ a) as [[sq ts] a1]. destruct Hnum as (Hsq & Hts & H1).
  cbn [negb]. do 2 eexists. split; [reflexivity|]. destruct H1 as [A1 A2 A3 A4 A5 A6], Hn. split_and!; cbn; try done; try congruence.
  - split; [|done]. split; cbn; try done; try lia; by rewrite ?A2, ?A5.
  - destruct (bool_decide _); split; done.
Qed.

Lemma send_packets_sending i ps a : sending a →
  ∃ a', send_packets (λ _, true) i ps a = (true, a', ps) ∧ sending a'.
Proof using Type.
  revert i a. induction ps as [|p ps IH]; intros i a Ha; cbn [send_packets negb]; [by exists a|].
  destruct (IH (S i) (with_stats (count_packet_sent 4) a)) as (a' & -> & H'); [|by exists a']. by destruct Ha; split.
Qed.

Lemma say_digit d n a : sending a →
  ∃ a', say (Digit d n) a = (Ok tt, a', dtmf_packets a dt (digit_to_event d) (sequence a) (timestamp a) n) ∧ sending a'.
Proof using Type.
  intros Ha. cbn [say]. unfold send_dtmf. destruct (a_remote _ _ _ _ Ha) as [r ->]. rewrite (a_dt _ _ _ _ Ha).
  set (a0 := with_outgoing _ _ _ a). assert (sending a0) as H0.
  { destruct Ha; split; cbn; auto using u16_range. }
  change (dtmf_packets a0) with (dtmf_packets a).
  destruct (send_packets_sending 0 (dtmf_packets a dt (digit_to_event d) (sequence a) (timestamp a) n) a0 H0) as (a1 & -> & H1).
  cbn [negb]. eexists. split; [done|]. destruct H1; split; cbn; auto using u16_range.
Qed.

(** A digit is heard once. *)
Lemma digit_heard d n a last : sending a → 0 ≤ n < 2 ^ 16 →
  let key := (timestamp a, digit_to_event d) in
  are_heard (dtmf_packets a dt (digit_to_event d) (sequence a) (timestamp a) n) last
    (if bool_decide (last = Some key) then [] else [HDigit (event_to_digit (digit_to_event d))]) (Some key).
Proof using Hn.
  intros Ha Hd key. pose proof (digit_to_event_range d) as He. unfold dtmf_packets. cbn [fmap list_fmap Datatypes.app].
  assert (∀ i seq (fin : bool) dur last, 0 ≤ dur < 2 ^ 16 → 0 ≤ seq < 2 ^ 16 → ∀ now b, hearing last b → ∃ f b',
    recv_datagram now src (build_rtp_packet
      {| version := 2; padding := false; extension := false; csrc_count := 0; marker := i : bool;
         h_payload_type := dt; h_sequence := seq; h_timestamp := timestamp a; h_ssrc := local_ssrc a |}
      (dtmf_to_bytes {| event := digit_to_event d; event_end := fin; volume := 10; duration := dur |})) b = Done (Some f, b')
    ∧ content f = (if fin then if bool_decide (last = Some key) then [] else [HDigit (event_to_digit (digit_to_event d))] else [])
    ∧ hearing (if fin then Some key else last) b') as Hone.
  { intros i sq fin dur l Hdur Hsq now b Hb. apply hear_event; cbn; try done; try lia; [|apply Ha].
    destruct Ha, Hn. split; [|done]. split; cbn; try done; lia. }
  rewrite <-(app_nil_r (if bool_decide (last = Some key) then _ else _)). pose proof u16_range as Hu.
  do 3 (apply (heard_silent _ _ _ last); [apply (Hone _ _ false); [lia|apply Hu]|]).
  apply (heard_cons _ _ _ _ (Some key)); [by apply (Hone _ _ true n last)|].
  do 2 (apply (heard_silent _ _ _ (Some key));
    [intros now b Hb; eapply (Hone _ _ true n (Some key) Hd (Hu _)) in Hb; rewrite bool_decide_true in Hb by done; exact Hb|]).
  apply heard_nil.
Qed.

Lemma stream_heard ms a last : sending a → Forall media_ok ms → ∃ last', are_heard (say_all ms a).2 last (expected last ms a) last'.
Proof using Hn.
  intros Ha Hms. revert a last Ha. induction Hms as [|m ms Hm Hms IH]; intros a last Ha; [exists last; apply heard_nil|].
  destruct m as [v|d n]; cbn [say_all expected media_ok] in *.
  - destruct (say_voice v a Ha) as (h & a' & E & Hh & Hmk & Hpt & Hs & Ha'). rewrite E. cbn [fst snd].
    destruct (IH a' last Ha') as [last' H']. destruct (say_all ms a') as [a2 ps]. cbn [fst snd] in *. exists last'.
    rewrite (a_pt _ _ _ _ Ha). apply (heard_cons _ _ _ [HVoice pt (v_data v)] last); [|done].
    intros now b Hb. by apply hear_voice.
  - destruct (say_digit d n a Ha) as (a' & E & Ha'). rewrite E. cbn [fst snd].
    destruct (IH a' (Some (timestamp a, digit_to_event d)) Ha') as [last' H']. destruct (say_all ms a') as [a2 ps].
    cbn [fst snd] in *. exists last'. by apply (heard_app _ _ _ (Some (timestamp a, digit_to_event d))); [apply digit_heard|].
Qed.
End stream.

(** C35. A stream is heard.  Between two sessions that negotiated, everything a sender says
    arrives: no packet of it is discarded, every voice frame comes out with its type and
    its octets, and every digit as one digit, in the order in which they were said,
    whatever anybody else sends in between.  Only a digit of the number and the time of
    the digit before is taken for its retransmission. *)
Theorem rtp_stream_is_heard (src : SocketAddr) (ssrc pt dt : Z) (a b : RtpSession) (last : option (Z * Z)) (ms : list media)
    (arrivals : list (Z * SocketAddr * bytes)) :
  negotiated ssrc pt dt → sending ssrc pt dt a → hearing src ssrc pt dt last b → Forall media_ok ms →
  (filter (λ x, x.1.2 = src) arrivals).*2 = (say_all ms a).2 →
  ∃ fs b', hear_all arrivals b = Done (fs, b') ∧ length fs = length (say_all ms a).2 ∧ fs ≫= content = expected last ms a.
Proof.
  intros Hn Ha Hb Hms Hx. destruct (stream_heard src ssrc pt dt Hn ms a last Ha Hms) as [last' Hh]. rewrite <-Hx in Hh |- *.
  destruct (heard_among src ssrc pt dt arrivals last _ last' b Hh Hb) as (fs & b' & E & Hl & Ho & _). exists fs, b'.
  by rewrite length_fmap.
Qed.

(** ** A call *)

Definition alice : SocketAddr := (V4 3221225985, 4000).
Definition bob : SocketAddr := (V4 3221225986, 5000).
Definition mallory : SocketAddr := (V4 3325256713, 6000).

Definition party (ssrc : Z) (peer : SocketAddr) : RtpSession :=
  set_dtmf_payload_type 101 (set_payload_type 8 (set_remote_addr peer (session_bound 0 ssrc))).
Definition alice_rtp := party 4294967295 bob.
Definition bob_rtp := party 7 alice.

Definition speech (data : bytes) : VoiceFrame := mkVoice 8 (Z.of_nat (length data)) data 0 0 0 None.
Definition call_says : list media := [Digit (chr "5") 1280; Voice (speech [1; 2; 3]); Digit (chr "5") 1280].
Definition call_sends := (say_all call_says alice_rtp).2.

(** What arrives: the stream, and the same packets from somebody else before it. *)
Definition call_arrivals : list (Z * SocketAddr * bytes) :=
  ((λ p, (20, mallory, p)) <$> call_sends) ++ ((λ p, (40, alice, p)) <$> call_sends).

Lemma rtp_stream_is_heard_witness :
  ∃ fs b', hear_all call_arrivals bob_rtp = Done (fs, b') ∧ length fs = length (say_all call_says alice_rtp).2
  ∧ fs ≫= content = expected None call_says alice_rtp.
Proof.
  apply (rtp_stream_is_heard alice 4294967295 8 101 alice_rtp bob_rtp None call_says call_arrivals).
  - split; lia.
  - split; vm_compute; try done. by eexists.
  - split; [reflexivity|by left|reflexivity..].
  - repeat constructor; cbn; unfold RTP_MAX_MTU; lia.
  - vm_compute. reflexivity.
Defined.

Example call_is_heard :
  expected None call_says alice_rtp = [HDigit (chr "5"); HVoice 8 [1; 2; 3]; HDigit (chr "5")].
Proof. vm_compute. reflexivity. Qed.

(** Sending a digit does not advance the time.  The same digit pressed again, with no
    voice in between, has the number and the time of the first, and is lost. *)
Example repeated_digit_is_lost :
  expected None [Digit (chr "5") 1280; Digit (chr "5") 1280] alice_rtp = [HDigit (chr "5")]
  ∧ length (say_all [Digit (chr "5") 1280; Digit (chr "5") 1280] alice_rtp).2 = 12%nat.
Proof. vm_compute. done. Qed.

(** One digit is three begins, one end and two null frames. *)
Example digit_begins_three_times :
  match hear_all ((λ p, (40, alice, p)) <$> (say_all [Digit (chr "5") 1280] alice_rtp).2) bob_rtp with
  | Done (fs, _) => fs = [FDtmfBegin (chr "5"); FDtmfBegin (chr "5"); FDtmfBegin (chr "5"); FDtmfEnd (chr "5") 160; FNull; FNull]
  | Panic => False
  end.
Proof. vm_compute. reflexivity. Qed.

(** A marked packet of a dynamic type that looks like a report is not heard. *)
Example marked_type_80_is_dropped :
  let h := {| version := 2; padding := false; extension := false; csrc_count := 0; marker := true; h_payload_type := 80;
              h_sequence := 1; h_timestamp := 0; h_ssrc := 9 |} in
  let b := set_payload_type 80 bob_rtp in
  recv_datagram 40 alice (build_rtp_packet h [1; 2; 3]) b = Done (None, b).
Proof. vm_compute. reflexivity. Qed.

(** A character that is no digit is sent as a zero. *)
Example no_digit_is_zero : digit_to_event (chr "x") = 0.
Proof. vm_compute. reflexivity. Qed.

Lemma allocate_finds_port_witness :
  let a := {| range := {| range_start := 10000; range_end := 10003 |}; next_offset := 2 |} in
  let bind p := if p <? 10003 then AddrInUse else Bound in
  range_ok (range a) ∧ (allocate bind a).1 = Ok 10003 ∧
  match (allocate bind a).1 with
  | Ok p => in_range (range a) p ∧ bind p = Bound
  | Err IoError => ∃ p, in_range (range a) p ∧ bind p = BindError
  | Err (AddrNotAvailable _) => ∀ p, in_range (range a) p → bind p = AddrInUse
  | Err _ => False
  end.
Proof.
  intros a bind. assert (range_ok (range a)) as H by (unfold range_ok; cbn; lia).
  split; [exact H|]. split; [vm_compute; reflexivity|]. exact (allocate_finds_port bind a H).
Defined.
