(* ===== verification/ConfMix.v ===== *)
(** * Conference audio ([asterisk-core/src/bridge/softmix.rs],
      [asterisk-apps/src/confbridge_mix.rs])

    The softmix core sums all contributions and gives each channel the sum without
    its own; the mixer of a conference queues what is read from each leg, mixes a
    frame of 20 ms per tick, and sends each leg its mix.

    A channel driver is known by the name of its technology.  The reader task of a leg
    is the source of the [Ingest] steps, the tick task that of the [Tick] steps.

    [mixer_is_mix_minus] is the refinement: over any run every listener gets the
    clamped sum of what the others say, as a meeting of [Attendee]s has it, whose
    steps ([meeting_step]) share no operation of the mixer. *)

From Stdlib Require Import NArith ZArith Ascii String.
From S2P Require Import Prelude RustStr HashMap Types G711 Adpcm Codecs.
Local Open Scope Z_scope.
Local Open Scope list_scope.

(** ** The softmix core *)

Definition DEFAULT_SOFTMIX_INTERVAL_MS : Z := 20.
Definition SOFTMIX_MIN_SAMPLE_RATE : Z := 8000.
Definition DEFAULT_INTERNAL_RATE : Z := 8000.

Definition softmix_samples (rate interval_ms : Z) : nat := Z.to_nat (rate * interval_ms / 1000).

Record SoftmixChannelData := { our_buf : list Z; have_audio : bool; sc_channel_name : str }.

Definition softmix_channel_new (name : str) (n : nat) : SoftmixChannelData :=
  {| our_buf := replicate n 0; have_audio := false; sc_channel_name := name |}.
Definition clear_channel (cd : SoftmixChannelData) : SoftmixChannelData :=
  {| our_buf := (λ _, 0) <$> our_buf cd; have_audio := false; sc_channel_name := sc_channel_name cd |}.

Record SoftmixData := {
  internal_rate : Z; mixing_interval_ms : Z;
  channel_buffers : gmap str SoftmixChannelData;
  num_samples : nat; sm_running : bool;
  output_frames : gmap str (list Z) }.

Definition softmix_new (rate interval_ms : Z) : SoftmixData :=
  {| internal_rate := rate; mixing_interval_ms := interval_ms; channel_buffers := ∅;
     num_samples := softmix_samples rate interval_ms; sm_running := false; output_frames := ∅ |}.

Definition with_buffers (bufs : gmap str SoftmixChannelData) (outs : gmap str (list Z)) (d : SoftmixData) : SoftmixData :=
  {| internal_rate := internal_rate d; mixing_interval_ms := mixing_interval_ms d; channel_buffers := bufs;
     num_samples := num_samples d; sm_running := sm_running d; output_frames := outs |}.
Definition with_running (r : bool) (d : SoftmixData) : SoftmixData :=
  {| internal_rate := internal_rate d; mixing_interval_ms := mixing_interval_ms d; channel_buffers := channel_buffers d;
     num_samples := num_samples d; sm_running := r; output_frames := output_frames d |}.

(** [clamp(i16::MIN, i16::MAX)] *)
Definition clamp_i16 (x : Z) : Z := Z.max (-32768) (Z.min 32767 x).

(** Step 1 of [mix]: one channel is added to the total. *)
Definition add_buffer (total : list Z) (cd : SoftmixChannelData) : list Z :=
  if have_audio cd
  then imap (λ i t, match our_buf cd !! i with Some x => wrap_i32 (t + x) | None => t end) total
  else total.
Definition total_mix (n : nat) (cds : list SoftmixChannelData) : list Z := foldl add_buffer (replicate n 0) cds.

Definition own_contribution (cd : SoftmixChannelData) (i : nat) : Z :=
  if have_audio cd then default 0 (our_buf cd !! i) else 0.

(** Step 2: the output of one channel. *)
Definition mix_output (total : list Z) (cd : SoftmixChannelData) : list Z :=
  imap (λ i t, clamp_i16 (wrap_i32 (t - own_contribution cd i))) total.

Definition mix `{HashOrder} (d : SoftmixData) : SoftmixData :=
  if decide (channel_buffers d = ∅) then d
  else
    let total := total_mix (num_samples d) (hash_values (channel_buffers d)) in
    with_buffers (clear_channel <$> channel_buffers d) (mix_output total <$> channel_buffers d) d.

(** The bridge technology. *)
Definition softmix_tech_with_params (rate interval_ms : Z) : SoftmixData :=
  softmix_new (Z.max rate SOFTMIX_MIN_SAMPLE_RATE) (if interval_ms =? 0 then DEFAULT_SOFTMIX_INTERVAL_MS else interval_ms).
Definition softmix_tech_new : SoftmixData := softmix_new DEFAULT_INTERNAL_RATE DEFAULT_SOFTMIX_INTERVAL_MS.
Definition softmix_start (d : SoftmixData) : SoftmixData := with_running true d.
Definition softmix_stop (d : SoftmixData) : SoftmixData := with_buffers ∅ ∅ (with_running false d).
Definition softmix_join (id name : str) (d : SoftmixData) : SoftmixData :=
  with_buffers (<[id := softmix_channel_new name (num_samples d)]> (channel_buffers d)) (output_frames d) d.
Definition softmix_leave (id : str) (d : SoftmixData) : SoftmixData :=
  with_buffers (delete id (channel_buffers d)) (delete id (output_frames d)) d.

(** Samples of little-endian octets; an odd octet at the end is dropped. *)
Fixpoint le_samples (data : list Z) : list Z :=
  match data with
  | lo :: hi :: data' => from_le_bytes lo hi :: le_samples data'
  | _ => []
  end.

(** What a channel says replaces the beginning of its buffer. *)
Definition overwrite (xs buf : list Z) : list Z := take (length buf) xs ++ drop (length xs) buf.

Definition softmix_write (id : str) (f : Frame) (d : SoftmixData) : SoftmixData :=
  match f with
  | FVoice v =>
      match channel_buffers d !! id with
      | Some cd =>
          let cd := {| our_buf := overwrite (le_samples (v_data v)) (our_buf cd); have_audio := true;
                       sc_channel_name := sc_channel_name cd |} in
          with_buffers (<[id := cd]> (channel_buffers d)) (output_frames d) d
      | None => d
      end
  | _ => d
  end.

(** One turn of the mixing task: [None] ends it. *)
Definition mixing_turn `{HashOrder} (d : SoftmixData) : option SoftmixData := if sm_running d then Some (mix d) else None.

Definition get_mixed_output (d : SoftmixData) (id : str) (codec_id : Z) : option Frame :=
  samples ← output_frames d !! id;
  if forallb (λ s, s =? 0) samples then None
  else Some (frame_voice codec_id (Z.of_nat (length samples)) (samples ≫= λ s, [s mod 256; s / 256 mod 256])).

(** ** The mixer of a conference *)

Definition MIX_RATE : Z := 8000.
Definition MIX_INTERVAL_MS : Z := 20.
Definition SAMPLES_PER_TICK : nat := 160.
Definition MAX_QUEUE_SAMPLES : nat := SAMPLES_PER_TICK * 10.

Inductive MixCodec := Ulaw | Alaw.
Definition mix_codec_from_id (codec_id : Z) : option MixCodec :=
  if codec_id =? 0 then Some Ulaw else if codec_id =? 8 then Some Alaw else None.
Definition mix_codec_id (c : MixCodec) : Z := match c with Ulaw => 0 | Alaw => 8 end.
Definition mix_decode (c : MixCodec) (byte : Z) : Z := match c with Ulaw => mulaw_to_linear byte | Alaw => alaw_to_linear byte end.
Definition mix_encode (c : MixCodec) (sample : Z) : Z :=
  match c with Ulaw => linear_to_mulaw_fast sample | Alaw => linear_to_alaw_fast sample end.

Record ParticipantState := {
  p_driver : str; queue : list Z; codec : option MixCodec; p_muted : bool; p_deaf : bool;
  warned_unmixable : bool; unmixable_frames : Z }.

Definition participant_new (driver : str) (c : option MixCodec) : ParticipantState :=
  {| p_driver := driver; queue := []; codec := c; p_muted := false; p_deaf := false; warned_unmixable := false;
     unmixable_frames := 0 |}.
Definition with_queue (q : list Z) (p : ParticipantState) : ParticipantState :=
  {| p_driver := p_driver p; queue := q; codec := codec p; p_muted := p_muted p; p_deaf := p_deaf p;
     warned_unmixable := warned_unmixable p; unmixable_frames := unmixable_frames p |}.
Definition with_codec (c : option MixCodec) (p : ParticipantState) : ParticipantState :=
  {| p_driver := p_driver p; queue := queue p; codec := c; p_muted := p_muted p; p_deaf := p_deaf p;
     warned_unmixable := warned_unmixable p; unmixable_frames := unmixable_frames p |}.
Definition with_flags (muted deaf : bool) (p : ParticipantState) : ParticipantState :=
  {| p_driver := p_driver p; queue := queue p; codec := codec p; p_muted := muted; p_deaf := deaf;
     warned_unmixable := warned_unmixable p; unmixable_frames := unmixable_frames p |}.
Definition count_unmixable (p : ParticipantState) : ParticipantState :=
  {| p_driver := p_driver p; queue := queue p; codec := codec p; p_muted := p_muted p; p_deaf := p_deaf p;
     warned_unmixable := true; unmixable_frames := wrap_u64 (unmixable_frames p + 1) |}.

Record ConferenceMixer := { cm_name : str; softmix : SoftmixData; parts : gmap str ParticipantState; cm_running : bool }.

Definition mixer_start (conf_name : str) : ConferenceMixer :=
  {| cm_name := conf_name; softmix := softmix_new MIX_RATE MIX_INTERVAL_MS; parts := ∅; cm_running := true |}.
Definition with_mix (d : SoftmixData) (ps : gmap str ParticipantState) (m : ConferenceMixer) : ConferenceMixer :=
  {| cm_name := cm_name m; softmix := d; parts := ps; cm_running := cm_running m |}.

(** [MixerInner::remove] *)
Definition mixer_remove (name : str) (m : ConferenceMixer) : ConferenceMixer :=
  with_mix (softmix_leave name (softmix m)) (delete name (parts m)) m.

(** [add_participant_with_driver], with the format the driver negotiated. *)
Definition add_participant_with_driver (name driver : str) (negotiated : option Z) (m : ConferenceMixer) : ConferenceMixer :=
  let m := mixer_remove name m in
  let d := softmix m in
  with_mix (with_buffers (<[name := softmix_channel_new name SAMPLES_PER_TICK]> (channel_buffers d)) (output_frames d) d)
           (<[name := participant_new driver (negotiated ≫= mix_codec_from_id)]> (parts m)) m.

(** [add_participant]: the technology is what the name has before the first slash. *)
Definition add_participant (registered : str → bool) (audio_format : str → str → option Z) (name : str) (m : ConferenceMixer)
    : ConferenceMixer :=
  let tech := match split_once (chr "/") name with Some (t, _) => t | None => name end in
  if registered tech then add_participant_with_driver name tech (audio_format tech name) m else m.

Definition update_part (name : str) (f : ParticipantState → ParticipantState) (m : ConferenceMixer) : ConferenceMixer :=
  with_mix (softmix m) (alter f name (parts m)) m.
Definition set_participant_flags (name : str) (muted deaf : bool) (m : ConferenceMixer) : ConferenceMixer :=
  update_part name (with_flags muted deaf) m.

(** The oldest samples of a queue that is too long are dropped. *)
Definition bound_queue (q : list Z) : list Z := drop (length q - MAX_QUEUE_SAMPLES) q.

Definition ingest_part (codec_id : Z) (payload : list Z) (p : ParticipantState) : ParticipantState :=
  match mix_codec_from_id codec_id with
  | None => count_unmixable p
  | Some frame_codec =>
      let p := match codec p with None => with_codec (Some frame_codec) p | Some _ => p end in
      with_queue (bound_queue (queue p ++ (mix_decode frame_codec <$> payload))) p
  end.
Definition ingest (name : str) (codec_id : Z) (payload : list Z) (m : ConferenceMixer) : ConferenceMixer :=
  update_part name (ingest_part codec_id payload) m.

(** The flags of [conference_participant_flags], by channel name: who is not in them has
    left. *)
Definition sync_flags `{HashOrder} (flags : gmap str (bool * bool)) (m : ConferenceMixer) : ConferenceMixer :=
  let stale := filter (λ name, flags !! name = None) (hash_iter (parts m)).*1 in
  let m := foldl (λ m name, mixer_remove name m) m stale in
  with_mix (softmix m)
    (map_imap (λ name p, Some (match flags !! name with Some (muted, deaf) => with_flags muted deaf p | None => p end)) (parts m)) m.

(** One frame of a participant goes from its queue to its buffer. *)
Definition load_buffer (p : ParticipantState) (cd : SoftmixChannelData) : SoftmixChannelData :=
  if p_muted p then cd
  else if (SAMPLES_PER_TICK <=? length (queue p))%nat
  then {| our_buf := overwrite (take SAMPLES_PER_TICK (queue p)) (our_buf cd); have_audio := true;
          sc_channel_name := sc_channel_name cd |}
  else cd.
Definition load_queue (p : ParticipantState) (cd : SoftmixChannelData) : ParticipantState :=
  if p_muted p then with_queue [] p
  else if (SAMPLES_PER_TICK <=? length (queue p))%nat
  then with_queue (drop (Nat.min SAMPLES_PER_TICK (length (our_buf cd))) (queue p)) p
  else p.
Definition load (d : SoftmixData) (ps : gmap str ParticipantState) : SoftmixData * gmap str ParticipantState :=
  (with_buffers
     (map_imap (λ name cd, Some (match ps !! name with Some p => load_buffer p cd | None => cd end)) (channel_buffers d))
     (output_frames d) d,
   map_imap (λ name p, Some (match channel_buffers d !! name with Some cd => load_queue p cd | None => p end)) ps).

(** What is written to a leg; a leg whose codec is not known gets nothing. *)
Definition encode_leg (d : SoftmixData) (name : str) (p : ParticipantState) : option (str * str * Frame) :=
  c ← codec p;
  let silence := replicate SAMPLES_PER_TICK (mix_encode c 0) in
  let payload := if p_deaf p then silence
                 else match output_frames d !! name with Some samples => mix_encode c <$> samples | None => silence end in
  Some (name, p_driver p, frame_voice (mix_codec_id c) (Z.of_nat SAMPLES_PER_TICK) payload).

Definition mix_tick `{HashOrder} (flags : option (gmap str (bool * bool))) (m : ConferenceMixer)
    : list (str * str * Frame) * ConferenceMixer :=
  let m := match flags with Some flags => sync_flags flags m | None => m end in
  let '(d, ps) := load (softmix m) (parts m) in
  let d := mix d in
  (omap (λ kv, encode_leg d kv.1 kv.2) (hash_iter ps), with_mix d ps m).

Definition mixer_shutdown (m : ConferenceMixer) : ConferenceMixer :=
  foldl (λ m name, mixer_remove name m)
    {| cm_name := cm_name m; softmix := softmix m; parts := parts m; cm_running := false |} (map_to_list (parts m)).*1.

(** ** The registry of mixers *)

Abbreviation Mixers := (gmap str ConferenceMixer) (only parsing).

Definition get_or_create_mixer (conf_name : str) (ms : Mixers) : ConferenceMixer * Mixers :=
  match ms !! conf_name with
  | Some m => if cm_running m then (m, ms) else let m := mixer_start conf_name in (m, <[conf_name := m]> ms)
  | None => let m := mixer_start conf_name in (m, <[conf_name := m]> ms)
  end.
Definition get_mixer (conf_name : str) (ms : Mixers) : option ConferenceMixer := ms !! conf_name.
Definition shutdown_mixer (conf_name : str) (ms : Mixers) : Mixers := delete conf_name ms.

(** ** Sums *)

Definition sumZ (l : list Z) : Z := foldr Z.add 0 l.
Definition map_sum {A} (f : A → Z) (m : gmap str A) : Z := sumZ (f <$> (map_to_list m).*2).

#[export] Instance sumZ_proper : Proper ((≡ₚ) ==> (=)) sumZ.
Proof. intros l l' H. unfold sumZ. induction H; cbn [foldr]; lia. Qed.

Lemma map_sum_delete {A} (f : A → Z) m k x : m !! k = Some x → map_sum f m = f x + map_sum f (delete k m).
Proof. intros Hk. unfold map_sum. by rewrite <-(map_to_list_delete m k x Hk). Qed.

Lemma sumZ_bound (l : list Z) lo hi : Forall (λ x, lo ≤ x ≤ hi) l → lo * Z.of_nat (length l) ≤ sumZ l ≤ hi * Z.of_nat (length l).
Proof. induction 1; cbn [sumZ foldr length]; unfold sumZ in *; lia. Qed.

Lemma map_sum_bound {A} (f : A → Z) m lo hi : (∀ k x, m !! k = Some x → lo ≤ f x ≤ hi) →
  lo * Z.of_nat (size m) ≤ map_sum f m ≤ hi * Z.of_nat (size m).
Proof.
  intros Hf. unfold map_sum. rewrite <-length_map_to_list, <-(length_fmap snd), <-(length_fmap f). apply sumZ_bound.
  apply Forall_fmap, Forall_fmap, Forall_forall. intros [k x] Hx%elem_of_map_to_list. by apply (Hf k).
Qed.

Lemma map_sum_fmap {A B} (g : A → B) (f : B → Z) m : map_sum f (g <$> m) = map_sum (f ∘ g) m.
Proof. unfold map_sum. rewrite map_to_list_fmap, <-!list_fmap_compose. done. Qed.

(** ** Mix-minus *)

Lemma add_buffer_lookup total cd i t : total !! i = Some t → - 2 ^ 31 ≤ t < 2 ^ 31 →
  add_buffer total cd !! i = Some (wrap_i32 (t + own_contribution cd i)).
Proof.
  intros Ht Hr. unfold add_buffer, own_contribution. destruct (have_audio cd); [|by rewrite Ht, Z.add_0_r, wrap_i32_id].
  rewrite list_lookup_imap, Ht. cbn. f_equal. destruct (our_buf cd !! i); [done|]. by rewrite Z.add_0_r, wrap_i32_id.
Qed.

Lemma wrap_i32_range x : - 2 ^ 31 ≤ wrap_i32 x < 2 ^ 31.
Proof. unfold wrap_i32. pose proof (Z.mod_pos_bound (x + 2 ^ 31) (2 ^ 32) ltac:(lia)). lia. Qed.

Lemma total_lookup cds total i t : total !! i = Some t → - 2 ^ 31 ≤ t < 2 ^ 31 →
  foldl add_buffer total cds !! i = Some (wrap_i32 (t + sumZ ((λ cd, own_contribution cd i) <$> cds))).
Proof.
  revert total t. induction cds as [|cd cds IH]; intros total t Ht Hr; cbn [foldl fmap list_fmap sumZ foldr].
  - by rewrite Z.add_0_r, wrap_i32_id.
  - rewrite (IH _ _ (add_buffer_lookup total cd i t Ht Hr) (wrap_i32_range _)), wrap_i32_add. do 2 f_equal. unfold sumZ. lia.
Qed.

Lemma length_total cds total : length (foldl add_buffer total cds) = length total.
Proof.
  revert total. induction cds as [|cd cds IH]; intros total; cbn; [done|]. rewrite IH. unfold add_buffer.
  destruct (have_audio cd); [|done]. by rewrite length_imap.
Qed.

Lemma clamp_wrap x : - 2 ^ 31 ≤ x < 2 ^ 31 → clamp_i16 (wrap_i32 x) = clamp_i16 x.
Proof. intros. by rewrite wrap_i32_id. Qed.

(** As many channels as the sum of 32 bits has room for. *)
Definition MAX_PARTIES : Z := 65536.

Section mixing.
Context {HO : HashOrder}.

(** What each channel gets: the sum of the others', in any order of the map. *)
Lemma mix_minus (d : SoftmixData) c cd :
  channel_buffers d !! c = Some cd →
  Z.of_nat (size (channel_buffers d)) ≤ MAX_PARTIES →
  (∀ k cd i, channel_buffers d !! k = Some cd → is_i16 (own_contribution cd i)) →
  output_frames (mix d) !! c
  = Some ((λ i, clamp_i16 (map_sum (λ cd, own_contribution cd i) (delete c (channel_buffers d)))) <$> seq 0 (num_samples d)).
Proof.
  intros Hc Hsize Hr. unfold mix. rewrite decide_False by (intros E; by rewrite E, lookup_empty in Hc).
  cbn [output_frames with_buffers]. rewrite lookup_fmap, Hc. cbn [fmap option_fmap option_map]. f_equal. unfold mix_output.
  apply list_eq. intros i. rewrite list_lookup_imap, list_lookup_fmap. destruct (decide (i < num_samples d)%nat) as [Hi|Hi].
  - rewrite lookup_seq_lt by done. unfold total_mix.
    rewrite (total_lookup _ _ _ 0) by (try apply lookup_replicate_2; lia || done). cbn. f_equal. rewrite Z.add_0_l.
    assert (sumZ ((λ cd, own_contribution cd i) <$> hash_values (channel_buffers d))
      = map_sum (λ cd, own_contribution cd i) (channel_buffers d)) as ->.
    { unfold map_sum, hash_values. by rewrite (hash_iter_perm (channel_buffers d)). }
    rewrite (map_sum_delete _ _ c cd Hc).
    set (own := own_contribution cd i). set (others := map_sum _ _).
    assert (-32768 * MAX_PARTIES ≤ others ≤ 32767 * MAX_PARTIES) as Ho.
    { pose proof (map_sum_bound (λ cd, own_contribution cd i) (delete c (channel_buffers d)) (-32768) 32767) as Hb.
      assert (size (delete c (channel_buffers d)) ≤ size (channel_buffers d))%nat as Hs by (apply map_subseteq_size, delete_subseteq).
      fold others in Hb. unfold MAX_PARTIES in *.
      assert (-32768 * Z.of_nat (size (delete c (channel_buffers d))) ≤ others ≤ 32767 * Z.of_nat (size (delete c (channel_buffers d)))); [|lia].
      apply Hb. intros k x Hk. pose proof (Hr k x i) as Hx. rewrite lookup_delete_Some in Hk. unfold is_i16 in Hx.
      specialize (Hx (proj2 Hk)). lia. }
    replace (wrap_i32 (own + others) - own) with (wrap_i32 (own + others) + - own) by lia. rewrite wrap_i32_add.
    replace (own + others + - own) with others by ring. apply clamp_wrap. unfold MAX_PARTIES in Ho. lia.
  - rewrite !lookup_ge_None_2; [done|rewrite length_seq; lia|].
    unfold total_mix. rewrite length_total, length_replicate. lia.
Qed.
End mixing.

(** ** The mixer refines a conference *)

(** What a party says in a tick: a whole frame or nothing. *)
Definition said (p : ParticipantState) : list Z :=
  if p_muted p then [] else if (SAMPLES_PER_TICK <=? length (queue p))%nat then take SAMPLES_PER_TICK (queue p) else [].
Definition says (i : nat) (p : ParticipantState) : Z := default 0 (said p !! i).

(** What a party hears: the others. *)
Definition hears (c : str) (ps : gmap str ParticipantState) : list Z :=
  (λ i, clamp_i16 (map_sum (says i) (delete c ps))) <$> seq 0 SAMPLES_PER_TICK.

Definition leg_frame (c : str) (p : ParticipantState) (ps : gmap str ParticipantState) : option (str * Frame) :=
  cd ← codec p;
  Some (p_driver p, frame_voice (mix_codec_id cd) (Z.of_nat SAMPLES_PER_TICK)
                      (mix_encode cd <$> (if p_deaf p then replicate SAMPLES_PER_TICK 0 else hears c ps))).

(** A party goes on. *)
Definition advance (p : ParticipantState) : ParticipantState :=
  if p_muted p then with_queue [] p
  else if (SAMPLES_PER_TICK <=? length (queue p))%nat then with_queue (drop SAMPLES_PER_TICK (queue p)) p else p.

Definition conference_sync (flags : option (gmap str (bool * bool))) (ps : gmap str ParticipantState) : gmap str ParticipantState :=
  match flags with
  | None => ps
  | Some flags => map_imap (λ name p, '(muted, deaf) ← flags !! name; Some (with_flags muted deaf p)) ps
  end.

Inductive mix_input :=
  | Join (name driver : str) (negotiated : option Z)
  | Part (name : str)
  | Flags (name : str) (muted deaf : bool)
  | Ingest (name : str) (codec_id : Z) (payload : list Z)
  | Tick (flags : option (gmap str (bool * bool))).

(** What the code does to its parties, and who gets what at each tick. *)
Definition conference_step (x : mix_input) (ps : gmap str ParticipantState) : list (gmap str (str * Frame)) * gmap str ParticipantState :=
  match x with
  | Join name driver negotiated => ([], <[name := participant_new driver (negotiated ≫= mix_codec_from_id)]> ps)
  | Part name => ([], delete name ps)
  | Flags name muted deaf => ([], alter (with_flags muted deaf) name ps)
  | Ingest name codec_id payload => ([], alter (ingest_part codec_id payload) name ps)
  | Tick flags => let ps := conference_sync flags ps in ([map_imap (λ c p, leg_frame c p ps) ps], advance <$> ps)
  end.

Fixpoint conference_run (xs : list mix_input) (ps : gmap str ParticipantState) : list (gmap str (str * Frame)) * gmap str ParticipantState :=
  match xs with
  | [] => ([], ps)
  | x :: xs' => let '(out, ps) := conference_step x ps in let '(outs, ps) := conference_run xs' ps in (out ++ outs, ps)
  end.

(** *** The meeting

    Independently of the code: the parties, and what they say and hear. *)

Record Attendee := { pt_driver : str; waiting : list Z; law : option MixCodec; muted : bool; deaf : bool }.

(** Codec 0 is mu-law, 8 is A-law; a frame of another is not understood. *)
Definition law_of (codec_id : Z) : option MixCodec := match codec_id with 0 => Some Ulaw | 8 => Some Alaw | _ => None end.
Definition heard_as (l : MixCodec) (octet : Z) : Z := match l with Ulaw => mulaw_to_linear octet | Alaw => alaw_to_linear octet end.
Definition written_as (l : MixCodec) (x : Z) : Z := match l with Ulaw => linear_to_mulaw_fast x | Alaw => linear_to_alaw_fast x end.
Definition voice (l : MixCodec) (xs : list Z) : Frame :=
  FVoice (mkVoice (match l with Ulaw => 0 | Alaw => 8 end) 160 (written_as l <$> xs) 0 (-1) 0 None).

Definition newcomer (driver : str) (l : option MixCodec) : Attendee :=
  {| pt_driver := driver; waiting := []; law := l; muted := false; deaf := false |}.
Definition flagged (m d : bool) (p : Attendee) : Attendee :=
  {| pt_driver := pt_driver p; waiting := waiting p; law := law p; muted := m; deaf := d |}.
Definition waits (xs : list Z) (p : Attendee) : Attendee :=
  {| pt_driver := pt_driver p; waiting := xs; law := law p; muted := muted p; deaf := deaf p |}.

(** The last [n] of a list. *)
Definition last_of (n : nat) (l : list Z) : list Z := reverse (take n (reverse l)).

(** A frame arrives: its octets wait behind those that wait already, the last 1600 of all;
    a party whose law is not known has that of the frame. *)
Definition arrives (codec_id : Z) (payload : list Z) (p : Attendee) : Attendee :=
  match law_of codec_id with
  | None => p
  | Some l =>
      {| pt_driver := pt_driver p; waiting := last_of 1600 (waiting p ++ (heard_as l <$> payload));
         law := match law p with Some l' => Some l' | None => Some l end; muted := muted p; deaf := deaf p |}
  end.

(** A party has its say with a whole frame, if it is not muted. *)
Definition has_say (p : Attendee) : bool := negb (muted p) && (160 <=? length (waiting p))%nat.
Definition utters (i : nat) (p : Attendee) : Z := if has_say p then default 0 (waiting p !! i) else 0.

(** The sum of the others at each of 160 samples, within 16 bits. *)
Definition others (c : str) (ps : gmap str Attendee) : list Z :=
  (λ i, Z.max (-32768) (Z.min 32767 (map_sum (utters i) (delete c ps)))) <$> seq 0 160.

Definition gets (c : str) (p : Attendee) (ps : gmap str Attendee) : option (str * Frame) :=
  l ← law p; Some (pt_driver p, voice l (if deaf p then replicate 160 0 else others c ps)).

Definition goes_on (p : Attendee) : Attendee :=
  if muted p then waits [] p else if has_say p then waits (drop 160 (waiting p)) p else p.

(** Who is not in the conference any more is gone; the others have its flags. *)
Definition attended (flags : option (gmap str (bool * bool))) (ps : gmap str Attendee) : gmap str Attendee :=
  match flags with
  | None => ps
  | Some flags => map_imap (λ name p, (λ md, flagged md.1 md.2 p) <$> flags !! name) ps
  end.

Definition meeting_step (x : mix_input) (ps : gmap str Attendee) : list (gmap str (str * Frame)) * gmap str Attendee :=
  match x with
  | Join name driver negotiated => ([], <[name := newcomer driver (negotiated ≫= law_of)]> ps)
  | Part name => ([], delete name ps)
  | Flags name m d => ([], alter (flagged m d) name ps)
  | Ingest name codec_id payload => ([], alter (arrives codec_id payload) name ps)
  | Tick flags => let ps := attended flags ps in ([map_imap (λ c p, gets c p ps) ps], goes_on <$> ps)
  end.

Fixpoint meeting_run (xs : list mix_input) (ps : gmap str Attendee) : list (gmap str (str * Frame)) * gmap str Attendee :=
  match xs with
  | [] => ([], ps)
  | x :: xs' => let '(out, ps) := meeting_step x ps in let '(outs, ps) := meeting_run xs' ps in (out ++ outs, ps)
  end.

Lemma map_sum_ext {A B} (f : A → Z) (g : B → Z) (m1 : gmap str A) (m2 : gmap str B) : f <$> m1 = g <$> m2 → map_sum f m1 = map_sum g m2.
Proof.
  intros E. transitivity (map_sum id (f <$> m1)); [by rewrite map_sum_fmap|]. rewrite E, map_sum_fmap. done.
Qed.

Lemma map_to_list_imap {A B} (f : str → A → option B) (m : gmap str A) :
  map_to_list (map_imap f m) ≡ₚ omap (λ kv, (kv.1,.) <$> f kv.1 kv.2) (map_to_list m).
Proof.
  induction m as [|k x m Hk IH] using map_ind; [by rewrite map_imap_empty, !map_to_list_empty|].
  rewrite map_imap_insert. assert (map_imap f m !! k = None) as Hn by (by rewrite map_lookup_imap, Hk).
  rewrite (map_to_list_insert m k x Hk). cbn [omap list_omap fst snd]. destruct (f k x) as [y|]; cbn [fmap option_fmap option_map].
  - by rewrite map_to_list_insert, IH.
  - by rewrite delete_id.
Qed.

(** The party of a participant. *)
Definition view (p : ParticipantState) : Attendee :=
  {| pt_driver := p_driver p; waiting := queue p; law := codec p; muted := p_muted p; deaf := p_deaf p |}.

Lemma law_of_spec codec_id : law_of codec_id = mix_codec_from_id codec_id.
Proof.
  unfold law_of, mix_codec_from_id. destruct (Z.eqb_spec codec_id 0) as [->|]; [done|].
  destruct (Z.eqb_spec codec_id 8) as [->|]; [done|].
  destruct codec_id as [|p|]; [done| |done]. do 4 (destruct p as [p|p|]; try done).
Qed.

Lemma last_of_spec n l : last_of n l = drop (length l - n) l.
Proof.
  unfold last_of. destruct (decide (n ≤ length l)%nat) as [Hn|Hn].
  - rewrite <-(take_drop (length l - n) l) at 1. rewrite reverse_app, take_app_le by (rewrite length_reverse, length_drop; lia).
    rewrite take_ge by (rewrite length_reverse, length_drop; lia). apply reverse_involutive.
  - rewrite take_ge by (rewrite length_reverse; lia). rewrite reverse_involutive. by replace (length l - n)%nat with 0%nat by lia.
Qed.

Lemma view_arrives codec_id payload p : view (ingest_part codec_id payload p) = arrives codec_id payload (view p).
Proof.
  unfold ingest_part, arrives. rewrite law_of_spec. destruct (mix_codec_from_id codec_id) as [c|]; [|done].
  unfold view. cbn [waiting queue with_queue]. rewrite last_of_spec.
  by destruct (codec p) eqn:E, c; cbn; rewrite ?E.
Qed.

Lemma view_utters i p : (i < 160)%nat → utters i (view p) = says i p.
Proof.
  intros Hi. unfold utters, has_say, says, said. cbn [muted waiting view]. change SAMPLES_PER_TICK with 160%nat.
  destruct (p_muted p); [done|]. cbn [negb andb]. destruct (_ <=? _)%nat; [|done]. by rewrite lookup_take_lt.
Qed.

Lemma view_others c ps : others c (view <$> ps) = hears c ps.
Proof.
  unfold others, hears. change SAMPLES_PER_TICK with 160%nat. apply list_fmap_ext.
  intros i x [-> Hi]%lookup_seq. unfold clamp_i16. do 2 f_equal. rewrite <-fmap_delete, map_sum_fmap.
  apply map_sum_ext, map_fmap_ext. intros k p _. by apply view_utters.
Qed.

Lemma view_gets c p ps : gets c (view p) (view <$> ps) = leg_frame c p ps.
Proof. unfold gets, leg_frame. rewrite view_others. cbn [law view]. by destruct (codec p) as [[]|]. Qed.

Lemma view_goes_on p : goes_on (view p) = view (advance p).
Proof.
  unfold goes_on, advance, has_say. cbn [muted waiting view]. change SAMPLES_PER_TICK with 160%nat.
  destruct (p_muted p) eqn:E; [done|]. cbn [negb andb]. by destruct (_ <=? _)%nat.
Qed.

Lemma view_attended flags ps : attended flags (view <$> ps) = view <$> conference_sync flags ps.
Proof.
  destruct flags as [flags|]; [|done]. cbn. apply map_eq. intros k. rewrite lookup_fmap, !map_lookup_imap, lookup_fmap.
  destruct (ps !! k); [|done]. cbn. by destruct (flags !! k) as [[]|].
Qed.

Lemma view_alter (f : ParticipantState → ParticipantState) (g : Attendee → Attendee) (name : str) (ps : gmap str ParticipantState) :
  (∀ p, view (f p) = g (view p)) → alter g name (view <$> ps) = view <$> alter f name ps.
Proof.
  intros Hfg. apply map_eq. intros k. destruct (decide (k = name)) as [->|Hne].
  - rewrite lookup_fmap, !lookup_alter_eq, lookup_fmap. destruct (ps !! name); [|done]. cbn. by rewrite Hfg.
  - by rewrite lookup_fmap, !lookup_alter_ne, lookup_fmap by done.
Qed.

Lemma meeting_step_view x ps :
  meeting_step x (view <$> ps) = ((conference_step x ps).1, view <$> (conference_step x ps).2).
Proof.
  destruct x as [name driver negotiated|name|name m d|name codec_id payload|flags]; cbn [meeting_step conference_step fst snd].
  - rewrite fmap_insert. do 3 f_equal. destruct negotiated as [n|]; [|done]. cbn. rewrite law_of_spec. done.
  - by rewrite fmap_delete.
  - f_equal. by apply view_alter.
  - f_equal. apply view_alter. intros p. apply view_arrives.
  - rewrite view_attended. set (qs := conference_sync flags ps). f_equal; [f_equal|].
    + apply map_eq. intros k. rewrite !map_lookup_imap, lookup_fmap. destruct (qs !! k); [|done]. cbn. apply view_gets.
    + rewrite <-!map_fmap_compose. apply map_fmap_ext. intros k p _. cbn. apply view_goes_on.
Qed.

Lemma meeting_run_view xs ps :
  meeting_run xs (view <$> ps) = ((conference_run xs ps).1, view <$> (conference_run xs ps).2).
Proof.
  revert ps. induction xs as [|x xs IH]; intros ps; [done|]. cbn [meeting_run conference_run]. rewrite meeting_step_view.
  destruct (conference_step x ps) as [out ps1]. cbn [fst snd]. rewrite IH. by destruct (conference_run xs ps1).
Qed.

(** Between two ticks the buffers are silent, one for each party. *)
Record mixer_wf (m : ConferenceMixer) : Prop := {
  wf_samples : num_samples (softmix m) = SAMPLES_PER_TICK;
  wf_buffers : ∀ name, is_Some (channel_buffers (softmix m) !! name) ↔ is_Some (parts m !! name);
  wf_silent : ∀ name cd, channel_buffers (softmix m) !! name = Some cd →
    our_buf cd = replicate SAMPLES_PER_TICK 0 ∧ have_audio cd = false;
  wf_queue : ∀ name p, parts m !! name = Some p → Forall is_i16 (queue p) ∧ (length (queue p) ≤ MAX_QUEUE_SAMPLES)%nat;
}.

Section refinement.
Context {HO : HashOrder}.

Definition mixer_step (x : mix_input) (m : ConferenceMixer) : list (list (str * str * Frame)) * ConferenceMixer :=
  match x with
  | Join name driver negotiated => ([], add_participant_with_driver name driver negotiated m)
  | Part name => ([], mixer_remove name m)
  | Flags name muted deaf => ([], set_participant_flags name muted deaf m)
  | Ingest name codec_id payload => ([], ingest name codec_id payload m)
  | Tick flags => let '(out, m) := mix_tick flags m in ([out], m)
  end.

Fixpoint mixer_run (xs : list mix_input) (m : ConferenceMixer) : list (list (str * str * Frame)) * ConferenceMixer :=
  match xs with
  | [] => ([], m)
  | x :: xs' => let '(out, m) := mixer_step x m in let '(outs, m) := mixer_run xs' m in (out ++ outs, m)
  end.

Lemma remove_all (l : list str) m :
  let m' := foldl (λ m name, mixer_remove name m) m l in
  num_samples (softmix m') = num_samples (softmix m)
  ∧ ∀ k, parts m' !! k = (if decide (k ∈ l) then None else parts m !! k)
       ∧ channel_buffers (softmix m') !! k = (if decide (k ∈ l) then None else channel_buffers (softmix m) !! k).
Proof.
  cbv zeta. revert m. induction l as [|name l IH]; intros m; [done|]. cbn [foldl]. destruct (IH (mixer_remove name m)) as [E H].
  split; [exact E|]. intros k. destruct (H k) as [Hp Hb]. rewrite Hp, Hb. cbn [mixer_remove with_mix parts softmix softmix_leave with_buffers channel_buffers].
  destruct (decide (k = name)) as [->|Hne].
  - rewrite !lookup_delete_eq. rewrite !(decide_True (P := name ∈ name :: l)) by set_solver. destruct (decide (name ∈ l)); done.
  - rewrite !lookup_delete_ne by done. destruct (decide (k ∈ l)); [by rewrite !decide_True by set_solver|].
    by rewrite !(decide_False (P := k ∈ name :: l)) by set_solver.
Qed.

Lemma sync_flags_spec flags m : mixer_wf m →
  mixer_wf (sync_flags flags m) ∧ parts (sync_flags flags m) = conference_sync (Some flags) (parts m).
Proof.
  intros [W1 W2 W3 W4]. unfold sync_flags. set (stale := filter _ _).
  assert (∀ k, k ∈ stale ↔ flags !! k = None ∧ is_Some (parts m !! k)) as Hst.
  { intros k. unfold stale. rewrite list_elem_of_filter, list_elem_of_fmap. split.
    - intros [Hf ([k' p] & -> & Hp)]. split; [done|]. apply elem_of_hash_iter in Hp. by eexists.
    - intros [Hf [p Hp]]. split; [done|]. exists (k, p). split; [done|]. by apply elem_of_hash_iter. }
  destruct (remove_all stale m) as [E H]. clearbody stale. set (m1 := foldl _ m stale) in *. clearbody m1.
  assert (conference_sync (Some flags) (parts m)
    = map_imap (λ name p, Some (match flags !! name with Some (mu, de) => with_flags mu de p | None => p end)) (parts m1)) as Hs.
  { apply map_eq. intros k. unfold conference_sync. rewrite !map_lookup_imap. destruct (H k) as [-> _].
    destruct (parts m !! k) as [p|] eqn:Ep; [|by destruct (decide _)]. destruct (flags !! k) as [[mu de]|] eqn:Ef; cbn.
    - rewrite decide_False by (rewrite Hst, Ef; by intros [? _]). done.
    - by rewrite decide_True by (rewrite Hst, Ep; eauto). }
  split; [|by rewrite Hs]. split; cbn [with_mix softmix parts].
  - by rewrite E.
  - intros k. rewrite map_lookup_imap. destruct (H k) as [-> ->]. destruct (decide _); [by rewrite !is_Some_alt|].
    rewrite W2. destruct (parts m !! k); cbn; rewrite !is_Some_alt; done.
  - intros k cd. destruct (H k) as [_ ->]. destruct (decide _); [done|]. apply W3.
  - intros k p'. rewrite map_lookup_imap. destruct (H k) as [-> _]. destruct (decide _); [done|].
    destruct (parts m !! k) as [p|] eqn:Ep; [|done]. cbn. intros [= <-]. destruct (W4 k p Ep). by destruct (flags !! k) as [[? ?]|].
Qed.

Lemma zeroed (l : list Z) : (λ _, 0) <$> l = replicate (length l) 0.
Proof. induction l as [|x l IH]; [done|]. cbn. by f_equal. Qed.

Lemma overwrite_all xs n : length xs = n → overwrite xs (replicate n 0) = xs.
Proof. intros E. unfold overwrite. rewrite length_replicate, drop_replicate, take_ge, E, Nat.sub_diag by lia. apply app_nil_r. Qed.

(** A silent buffer, loaded, is what the party says. *)
Lemma load_says p cd i : our_buf cd = replicate SAMPLES_PER_TICK 0 → have_audio cd = false →
  own_contribution (load_buffer p cd) i = says i p ∧ load_queue p cd = advance p.
Proof.
  intros Eb Eh. unfold load_buffer, load_queue, own_contribution, says, said, advance. destruct (p_muted p); [by rewrite Eh|].
  destruct (Nat.leb_spec SAMPLES_PER_TICK (length (queue p))); [|by rewrite Eh]. cbn [have_audio our_buf].
  rewrite Eb, overwrite_all, length_replicate, Nat.min_id by (rewrite length_take; lia). done.
Qed.

Lemma says_i16 i p : Forall is_i16 (queue p) → is_i16 (says i p).
Proof.
  intros Hq. unfold says, said. assert (is_i16 0) as H0 by done. destruct (p_muted p); [done|].
  destruct (_ <=? _)%nat; [|done]. destruct (take _ _ !! i) as [x|] eqn:E; [|done]. cbn. apply lookup_take_Some in E as [E _].
  rewrite Forall_lookup in Hq. eauto.
Qed.

Lemma load_spec m : mixer_wf m →
  let '(d, ps) := load (softmix m) (parts m) in
  ps = advance <$> parts m ∧ num_samples d = SAMPLES_PER_TICK
  ∧ ∀ name, channel_buffers d !! name = None ∧ parts m !! name = None
      ∨ ∃ cd p, channel_buffers d !! name = Some cd ∧ parts m !! name = Some p ∧ (∀ i, own_contribution cd i = says i p)
          ∧ length (our_buf cd) = SAMPLES_PER_TICK.
Proof.
  intros [W1 W2 W3 W4]. unfold load. split_and!; [|done|].
  - apply map_eq. intros k. rewrite map_lookup_imap, lookup_fmap. specialize (W2 k). destruct (parts m !! k) as [p|]; [|done]. cbn.
    destruct (channel_buffers (softmix m) !! k) as [cd|] eqn:Ec; [|by destruct (proj2 W2 ltac:(by eexists))].
    destruct (W3 k cd Ec). by rewrite (proj2 (load_says p cd 0 ltac:(done) ltac:(done))).
  - intros k. cbn [with_buffers channel_buffers]. rewrite map_lookup_imap. specialize (W2 k). specialize (W3 k). specialize (W4 k).
    destruct (channel_buffers (softmix m) !! k) as [cd|], (parts m !! k) as [p|]; cbn;
      [|by destruct (proj1 W2 ltac:(by eexists))|by destruct (proj2 W2 ltac:(by eexists))|by left].
    right. destruct (W3 cd eq_refl) as [Eb Eh]. do 2 eexists. split_and!; [done|done|intros i; by apply load_says|].
    unfold load_buffer. destruct (p_muted p); [by rewrite Eb, length_replicate|].
    destruct (Nat.leb_spec SAMPLES_PER_TICK (length (queue p))); [|by rewrite Eb, length_replicate]. cbn [our_buf].
    rewrite Eb, overwrite_all; rewrite length_take; lia.
Qed.

Lemma mix_spec d ps : num_samples d = SAMPLES_PER_TICK →
  (∀ name, channel_buffers d !! name = None ∧ ps !! name = None
      ∨ ∃ cd p, channel_buffers d !! name = Some cd ∧ ps !! name = Some p ∧ (∀ i, own_contribution cd i = says i p)
          ∧ length (our_buf cd) = SAMPLES_PER_TICK) →
  (∀ name p, ps !! name = Some p → Forall is_i16 (queue p)) → Z.of_nat (size ps) ≤ MAX_PARTIES →
  num_samples (mix d) = SAMPLES_PER_TICK
  ∧ ∀ name, (is_Some (channel_buffers (mix d) !! name) ↔ is_Some (ps !! name))
     ∧ (∀ cd, channel_buffers (mix d) !! name = Some cd → our_buf cd = replicate SAMPLES_PER_TICK 0 ∧ have_audio cd = false)
     ∧ (is_Some (ps !! name) → output_frames (mix d) !! name = Some (hears name ps)).
Proof.
  intros Hn Hd Hq Hs.
  assert (size (channel_buffers d) = size ps) as Hsize.
  { rewrite <-!(size_dom (D := gset str)). f_equal. apply set_eq. intros k. rewrite !elem_of_dom.
    destruct (Hd k) as [[-> ->]|(cd & p & -> & -> & _)]; [done|]. split; by eexists. }
  assert (∀ k cd i, channel_buffers d !! k = Some cd → is_i16 (own_contribution cd i)) as Hr.
  { intros k cd i Hk. destruct (Hd k) as [[E _]|(cd' & p & E & Ep & Ei & _)]; [congruence|].
    rewrite E in Hk. injection Hk as <-. rewrite Ei. eapply says_i16, Hq, Ep. }
  split; [unfold mix; by destruct (decide _)|]. intros name.
  assert (∀ k, channel_buffers (mix d) !! k = clear_channel <$> channel_buffers d !! k) as Hc.
  { intros k. unfold mix. destruct (decide _) as [->|]; [by rewrite lookup_empty|]. cbn. by rewrite lookup_fmap. }
  rewrite Hc. split_and!.
  - rewrite fmap_is_Some. destruct (Hd name) as [[-> ->]|(cd & p & -> & -> & _)]; [done|]. split; by eexists.
  - intros cd' Hcd. apply fmap_Some in Hcd as (cd & Hcd & ->). cbn [clear_channel our_buf have_audio]. split; [|done].
    destruct (Hd name) as [[E _]|(cd2 & p & E & _ & _ & El)]; [congruence|]. rewrite E in Hcd. injection Hcd as ->.
    rewrite <-El. apply zeroed.
  - intros [p Hp]. destruct (Hd name) as [[_ E]|(cd & p' & E & _ & _ & _)]; [congruence|].
    rewrite (mix_minus d name cd E) by (rewrite ?Hsize; done). rewrite Hn. f_equal. unfold hears. apply list_fmap_ext. intros _ i _.
    cbv beta. f_equal. apply map_sum_ext, map_eq. intros k. rewrite !lookup_fmap.
    destruct (decide (k = name)) as [->|]; [by rewrite !lookup_delete_eq|]. rewrite !lookup_delete_ne by done.
    destruct (Hd k) as [[-> ->]|(cd2 & p2 & -> & -> & Ei & _)]; [done|]. cbn. by rewrite Ei.
Qed.

Lemma encode_leg_spec d ps k p : output_frames d !! k = Some (hears k ps) →
  encode_leg d k (advance p) = (λ lf, (k, lf.1, lf.2)) <$> leg_frame k p ps.
Proof.
  intros Ho. unfold encode_leg, leg_frame. rewrite Ho.
  assert (codec (advance p) = codec p ∧ p_deaf (advance p) = p_deaf p ∧ p_driver (advance p) = p_driver p) as (-> & -> & ->).
  { unfold advance. destruct (p_muted p); [done|]. by destruct (_ <=? _)%nat. }
  destruct (codec p) as [c|]; [|done]. cbn [mbind option_bind fmap option_fmap option_map fst snd].
  destruct (p_deaf p); [|done]. by rewrite fmap_replicate.
Qed.

Lemma encode_legs d ps (l : list (str * ParticipantState)) :
  (∀ k p, ps !! k = Some p → output_frames d !! k = Some (hears k ps)) → (∀ kv, kv ∈ l → ps !! kv.1 = Some kv.2) →
  omap (λ kv, encode_leg d kv.1 kv.2) (prod_map id advance <$> l)
  = (λ kv, (kv.1, kv.2.1, kv.2.2)) <$> omap (λ kv, (kv.1,.) <$> leg_frame kv.1 kv.2 ps) l.
Proof.
  intros Ho. induction l as [|[k p] l IH]; intros Hl; [done|]. specialize (IH ltac:(intros kv Hkv; apply Hl; by right)).
  specialize (Hl (k, p) ltac:(by left)). cbn [fmap list_fmap omap list_omap prod_map fst snd] in *.
  rewrite (encode_leg_spec d ps) by eauto. unfold id. destruct (leg_frame k p ps) as [lf|]; cbn [fmap option_fmap option_map]; [|exact IH].
  cbn. f_equal. exact IH.
Qed.

(** A tick sends every leg what the conference says it hears. *)
Lemma tick_spec flags m : mixer_wf m → Z.of_nat (size (parts m)) ≤ MAX_PARTIES →
  let '(out, m') := mix_tick flags m in
  let ps := conference_sync flags (parts m) in
  out ≡ₚ (λ kv, (kv.1, kv.2.1, kv.2.2)) <$> map_to_list (map_imap (λ c p, leg_frame c p ps) ps)
  ∧ parts m' = advance <$> ps ∧ mixer_wf m'.
Proof.
  intros Hw Hs. unfold mix_tick. set (m1 := match flags with Some flags => sync_flags flags m | None => m end).
  assert (mixer_wf m1 ∧ parts m1 = conference_sync flags (parts m)) as [Hw1 Hp].
  { unfold m1. destruct flags as [flags|]; [by apply sync_flags_spec|done]. }
  assert (Z.of_nat (size (parts m1)) ≤ MAX_PARTIES) as Hs1.
  { rewrite Hp. etransitivity; [|exact Hs]. apply inj_le. rewrite <-!(size_dom (D := gset str)). apply subseteq_size. intros k.
    rewrite !elem_of_dom. destruct flags as [flags|]; [|done]. cbn. rewrite map_lookup_imap. by destruct (parts m !! k); [eexists|intros []]. }
  clearbody m1. rewrite <-Hp. clear Hp Hs Hw m. pose proof (load_spec m1 Hw1) as Hl. destruct (load (softmix m1) (parts m1)) as [d ps].
  destruct Hl as (-> & Hn & Hd). destruct Hw1 as [_ _ _ W4].
  destruct (mix_spec d (parts m1) Hn Hd (λ k p Hk, proj1 (W4 k p Hk)) Hs1) as [Hn' Hm]. cbn zeta. split_and!; [|done|].
  - rewrite map_to_list_imap, (hash_iter_perm (advance <$> parts m1)), map_to_list_fmap.
    rewrite (encode_legs (mix d) (parts m1)); [done|intros k p Hk; apply Hm; by rewrite Hk|intros [k p] Hk; by apply elem_of_map_to_list in Hk].
  - split; cbn [with_mix softmix parts].
    + done.
    + intros k. rewrite (proj1 (Hm k)), lookup_fmap, fmap_is_Some. done.
    + intros k. apply Hm.
    + intros k p' Hp'. rewrite lookup_fmap in Hp'. apply fmap_Some in Hp' as (p & Hp & ->). destruct (W4 k p Hp) as [Hi Hq].
      unfold advance. destruct (p_muted p); [split; [constructor|cbn; lia]|]. destruct (_ <=? _)%nat; [|done].
      cbn [queue with_queue]. split; [by apply Forall_drop|]. rewrite length_drop. lia.
Qed.

Lemma mix_decode_i16 c b : is_i16 (mix_decode c b).
Proof. destruct c; cbn [mix_decode]; [unfold mulaw_to_linear|unfold alaw_to_linear]; apply table_i16; by vm_compute. Qed.

Lemma bound_queue_spec q : Forall is_i16 q → Forall is_i16 (bound_queue q) ∧ (length (bound_queue q) ≤ MAX_QUEUE_SAMPLES)%nat.
Proof. intros Hq. unfold bound_queue. split; [by apply Forall_drop|]. rewrite length_drop. lia. Qed.

Lemma ingest_part_wf codec_id payload p :
  Forall is_i16 (queue p) ∧ (length (queue p) ≤ MAX_QUEUE_SAMPLES)%nat →
  Forall is_i16 (queue (ingest_part codec_id payload p)) ∧ (length (queue (ingest_part codec_id payload p)) ≤ MAX_QUEUE_SAMPLES)%nat.
Proof.
  intros [Hq Hl]. unfold ingest_part. destruct (mix_codec_from_id codec_id) as [c|]; [|done]. cbn [queue with_queue].
  apply bound_queue_spec. apply Forall_app. split; [by destruct (codec p)|]. apply Forall_fmap, Forall_forall. intros b _. apply mix_decode_i16.
Qed.

Lemma update_part_wf name f m : mixer_wf m →
  (∀ p, Forall is_i16 (queue p) ∧ (length (queue p) ≤ MAX_QUEUE_SAMPLES)%nat →
        Forall is_i16 (queue (f p)) ∧ (length (queue (f p)) ≤ MAX_QUEUE_SAMPLES)%nat) →
  mixer_wf (update_part name f m).
Proof.
  intros [W1 W2 W3 W4] Hf. split; cbn [update_part with_mix softmix parts]; [done| |done|].
  - intros k. rewrite W2. destruct (decide (k = name)) as [->|]; [|by rewrite lookup_alter_ne].
    by rewrite lookup_alter_eq, fmap_is_Some.
  - intros k p Hk. destruct (decide (k = name)) as [->|]; [|rewrite lookup_alter_ne in Hk by done; eauto].
    rewrite lookup_alter_eq in Hk. apply fmap_Some in Hk as (p0 & Hp & ->). eauto.
Qed.

Lemma mixer_remove_wf name m : mixer_wf m → mixer_wf (mixer_remove name m).
Proof.
  intros [W1 W2 W3 W4]. split; cbn [mixer_remove with_mix softmix parts softmix_leave with_buffers channel_buffers num_samples]; [done|..].
  - intros k. destruct (decide (k = name)) as [->|]; [by rewrite !lookup_delete_eq, !is_Some_alt|]. rewrite !lookup_delete_ne by done. apply W2.
  - intros k cd [_ Hk]%lookup_delete_Some. eauto.
  - intros k p [_ Hk]%lookup_delete_Some. eauto.
Qed.

Lemma add_participant_wf name driver negotiated m : mixer_wf m → mixer_wf (add_participant_with_driver name driver negotiated m).
Proof.
  intros Hw. unfold add_participant_with_driver. pose proof (mixer_remove_wf name m Hw) as H. set (m1 := mixer_remove name m) in *.
  clearbody m1. clear m Hw. destruct H as [W1 W2 W3 W4].
  split; cbn [with_mix softmix parts with_buffers channel_buffers num_samples]; [done|..]; intros k.
  - destruct (decide (k = name)) as [->|]; [rewrite !lookup_insert_eq; split; by eexists|]. rewrite !lookup_insert_ne by done. apply W2.
  - intros cd [[<- <-]|[_ Hk]]%lookup_insert_Some; eauto.
  - intros p [[<- <-]|[_ Hk]]%lookup_insert_Some; [split; [constructor|cbn; lia]|eauto].
Qed.

Definition sends (out : list (str * str * Frame)) (legs : gmap str (str * Frame)) : Prop :=
  out ≡ₚ (λ kv, (kv.1, kv.2.1, kv.2.2)) <$> map_to_list legs.
Definition joins (xs : list mix_input) : Z := sumZ ((λ x, match x with Join _ _ _ => 1 | _ => 0 end) <$> xs).

Lemma mixer_step_spec x m : mixer_wf m → Z.of_nat (size (parts m)) + joins [x] ≤ MAX_PARTIES →
  let '(out, m') := mixer_step x m in let '(legs, ps) := conference_step x (parts m) in
  Forall2 sends out legs ∧ parts m' = ps ∧ mixer_wf m' ∧ Z.of_nat (size ps) ≤ Z.of_nat (size (parts m)) + joins [x].
Proof.
  intros Hw Hs. unfold joins, sumZ in *. destruct x as [name driver negotiated|name|name muted deaf|name codec_id payload|flags];
    cbn [mixer_step conference_step fmap list_fmap foldr] in *.
  - split_and!; [done|cbn; by rewrite insert_delete_eq|by apply add_participant_wf|].
    rewrite map_size_insert. destruct (parts m !! name); cbn; lia.
  - split_and!; [done|done|by apply mixer_remove_wf|]. pose proof (map_subseteq_size _ _ (delete_subseteq (parts m) name)). lia.
  - split_and!; [done|done|by apply update_part_wf|]. rewrite <-!(size_dom (D := gset str)), dom_alter_L. lia.
  - split_and!; [done|done|by apply update_part_wf; [|intros p; apply ingest_part_wf]|].
    rewrite <-!(size_dom (D := gset str)), dom_alter_L. lia.
  - pose proof (tick_spec flags m Hw ltac:(lia)) as Ht. destruct (mix_tick flags m) as [out m']. cbv zeta in Ht.
    destruct Ht as (Hout & Hps & Hw'). split_and!; [by repeat constructor|done|done|].
    rewrite <-!(size_dom (D := gset str)), dom_fmap_L, Z.add_0_r. apply inj_le, subseteq_size. intros k. rewrite !elem_of_dom.
    destruct flags as [flags|]; [|done]. cbn. rewrite map_lookup_imap. by destruct (parts m !! k); [eexists|intros []].
Qed.

Lemma mixer_run_spec xs m : mixer_wf m → Z.of_nat (size (parts m)) + joins xs ≤ MAX_PARTIES →
  let '(outs, m') := mixer_run xs m in let '(legs, ps) := conference_run xs (parts m) in
  Forall2 sends outs legs ∧ parts m' = ps ∧ mixer_wf m'.
Proof.
  revert m. induction xs as [|x xs IH]; intros m Hw Hs; [done|]. cbn [mixer_run conference_run].
  assert (joins (x :: xs) = joins [x] + joins xs ∧ 0 ≤ joins xs) as [Hj H0].
  { unfold joins, sumZ. cbn [fmap list_fmap foldr]. split; [lia|]. clear. induction xs as [|x xs IH]; cbn; [lia|].
    unfold fmap in *. destruct x; cbn in *; lia. }
  pose proof (mixer_step_spec x m Hw ltac:(lia)) as Hx. destruct (mixer_step x m) as [out m1], (conference_step x (parts m)) as [legs ps].
  destruct Hx as (Hf & <- & Hw1 & Hs1). specialize (IH m1 Hw1 ltac:(lia)).
  destruct (mixer_run xs m1) as [outs m2], (conference_run xs (parts m1)) as [legs2 ps2]. destruct IH as (Hf2 & Hp2 & Hw2).
  split_and!; [by apply Forall2_app|done|done].
Qed.

Lemma mixer_start_wf name : mixer_wf (mixer_start name).
Proof.
  split; cbn [mixer_start softmix parts softmix_new num_samples channel_buffers].
  - vm_compute. reflexivity.
  - intros k. by rewrite !lookup_empty, !is_Some_alt.
  - intros k cd. by rewrite lookup_empty.
  - intros k p. by rewrite lookup_empty.
Qed.

(** C36. The mixer is mix-minus.  Whoever joins and leaves, whatever flags are set and
    whatever arrives from the legs in whatever order, with at most 65536 joins: the frames
    of every tick are, in some order, those of the meeting.  Each party whose law is known,
    negotiated or else that of its first frame, gets one frame of 20 ms, each sample in its
    law: of silence if it is deaf, else of the sum of what all the others say, clamped; a
    party whose law is not known gets nothing.  The octets of a frame from a party are
    decoded by the law the frame says and wait their turn, once each, the last 200 ms of
    them; at a tick a party says the next 160 samples that wait, if there are as many and
    it is not muted; a muted party loses them. *)
Theorem mixer_is_mix_minus (conf_name : str) (xs : list mix_input) :
  joins xs ≤ MAX_PARTIES →
  Forall2 sends (mixer_run xs (mixer_start conf_name)).1 (meeting_run xs ∅).1
  ∧ (∀ name p, (meeting_run xs ∅).2 !! name = Some p → (length (waiting p) ≤ 1600)%nat).
Proof.
  intros Hj. pose proof (mixer_run_spec xs (mixer_start conf_name) (mixer_start_wf conf_name)) as H.
  change (parts (mixer_start conf_name)) with (∅ : gmap str ParticipantState) in H. rewrite map_size_empty in H. specialize (H Hj).
  pose proof (meeting_run_view xs ∅) as Hv. rewrite fmap_empty in Hv. rewrite Hv. clear Hv.
  destruct (mixer_run _ _) as [outs m'], (conference_run xs ∅) as [legs ps]. destruct H as (Hf & <- & Hw).
  split; [done|]. intros name p. cbn [snd]. rewrite lookup_fmap. intros (q & Hq & ->)%fmap_Some. by apply (wf_queue _ Hw name q).
Qed.
End refinement.

(** ** Nothing that is said is lost *)

(** What a party contributes over a run, and what was read from its leg. *)
Fixpoint spoken (name : str) (xs : list mix_input) (ps : gmap str ParticipantState) : list Z :=
  match xs with
  | [] => []
  | x :: xs' =>
      match x with
      | Tick flags => from_option said [] (conference_sync flags ps !! name)
      | _ => []
      end ++ spoken name xs' (conference_step x ps).2
  end.
Definition fed (name : str) (xs : list mix_input) : list Z :=
  xs ≫= λ x, match x with
             | Ingest k codec_id payload =>
                 if str_eqb k name then match mix_codec_from_id codec_id with Some c => mix_decode c <$> payload | None => [] end else []
             | _ => []
             end.

(** The party stays, is not muted, and its queue, of [n] samples, does not overflow. *)
Fixpoint undisturbed (name : str) (xs : list mix_input) (n : nat) : bool :=
  match xs with
  | [] => true
  | x :: xs' =>
      match x with
      | Join k _ _ | Part k => negb (str_eqb k name) && undisturbed name xs' n
      | Flags k muted _ => negb (str_eqb k name && muted) && undisturbed name xs' n
      | Ingest k _ _ =>
          let n' := (n + length (fed name [x]))%nat in (n' <=? MAX_QUEUE_SAMPLES)%nat && undisturbed name xs' n'
      | Tick flags =>
          match flags with
          | None => true
          | Some flags => match flags !! name with Some (muted, _) => negb muted | None => false end
          end && undisturbed name xs' (if (SAMPLES_PER_TICK <=? n)%nat then n - SAMPLES_PER_TICK else n)%nat
      end
  end.

Lemma fed_cons name x xs : fed name (x :: xs) = fed name [x] ++ fed name xs.
Proof. unfold fed. cbn. by rewrite app_nil_r. Qed.

Lemma ingest_fed (name k : str) (codec_id : Z) (payload : list Z) (p : ParticipantState) (ps : gmap str ParticipantState) :
  ps !! name = Some p → p_muted p = false → (length (queue p) + length (fed name [Ingest k codec_id payload]) ≤ MAX_QUEUE_SAMPLES)%nat →
  ∃ p', alter (ingest_part codec_id payload) k ps !! name = Some p' ∧ p_muted p' = false
      ∧ queue p' = queue p ++ fed name [Ingest k codec_id payload].
Proof.
  intros Hp Hm Hl. unfold fed in *. cbn [mbind list_bind] in *. rewrite app_nil_r in *.
  destruct (str_eqb_spec k name) as [->|Hne].
  - rewrite lookup_alter_eq, Hp. cbn. eexists. split; [done|]. unfold ingest_part in *. destruct (mix_codec_from_id codec_id) as [c|].
    + split; [by destruct (codec p)|]. cbn [queue with_queue]. assert (queue (match codec p with None => with_codec (Some c) p | Some _ => p end) = queue p) as -> by (by destruct (codec p)).
      unfold bound_queue. rewrite length_app. by replace (_ - _)%nat with 0%nat by lia.
    + by rewrite app_nil_r.
  - rewrite lookup_alter_ne by done. exists p. by rewrite app_nil_r.
Qed.

Lemma advance_muted p : p_muted (advance p) = p_muted p.
Proof. unfold advance. destruct (p_muted p) eqn:E; [done|]. by destruct (_ <=? _)%nat. Qed.

(** What is read from the leg of a party that stays and is not muted is said, all of it,
    once and in order; what is not said yet is in the queue. *)
Theorem speech_is_carried (name : str) (xs : list mix_input) (ps : gmap str ParticipantState) (p : ParticipantState) :
  ps !! name = Some p → p_muted p = false → undisturbed name xs (length (queue p)) = true →
  ∃ p', (conference_run xs ps).2 !! name = Some p' ∧ spoken name xs ps ++ queue p' = queue p ++ fed name xs.
Proof.
  revert ps p. induction xs as [|x xs IH]; intros ps p Hp Hm Hu; [exists p; split; [done|]; by rewrite app_nil_r|].
  assert (∀ p1 out rest, out ++ queue p1 = queue p ++ fed name [x] → rest = (conference_step x ps).2 → rest !! name = Some p1 → p_muted p1 = false →
    undisturbed name xs (length (queue p1)) = true →
    ∃ p', (conference_run xs rest).2 !! name = Some p' ∧ (out ++ spoken name xs rest) ++ queue p' = queue p ++ fed name (x :: xs)) as Hnext.
  { intros p1 out rest Ho -> H1 Hm1 Hu1. destruct (IH _ p1 H1 Hm1 Hu1) as (p' & Hp' & Hq). exists p'. split; [done|].
    by rewrite <-app_assoc, Hq, app_assoc, Ho, (fed_cons name x xs), app_assoc. }
  cbn [conference_run spoken]. destruct (conference_step x ps) as [legs rest] eqn:Ex. cbn [snd] in *.
  assert ((let '(outs, ps0) := conference_run xs rest in (legs ++ outs, ps0)).2 = (conference_run xs rest).2) as ->
    by (by destruct (conference_run xs rest)).
  destruct x as [k driver negotiated|k|k muted deaf|k codec_id payload|flags]; cbn [conference_step undisturbed] in *.
  - apply andb_true_iff in Hu as [Hk Hu]. injection Ex as _ <-. destruct (str_eqb_spec k name) as [|Hne]; [done|].
    apply (Hnext p []); try done; [by rewrite app_nil_r|by rewrite lookup_insert_ne].
  - apply andb_true_iff in Hu as [Hk Hu]. injection Ex as _ <-. destruct (str_eqb_spec k name) as [|Hne]; [done|].
    apply (Hnext p []); try done; [by rewrite app_nil_r|by rewrite lookup_delete_ne].
  - apply andb_true_iff in Hu as [Hk Hu]. injection Ex as _ <-. destruct (str_eqb_spec k name) as [->|Hne].
    + destruct muted; [done|]. apply (Hnext (with_flags false deaf p) []); try done; [by rewrite app_nil_r|by rewrite lookup_alter_eq, Hp].
    + apply (Hnext p []); try done; [by rewrite app_nil_r|by rewrite lookup_alter_ne].
  - apply andb_true_iff in Hu as [Hl%Nat.leb_le Hu]. injection Ex as _ <-.
    destruct (ingest_fed name k codec_id payload p ps Hp Hm Hl) as (p1 & H1 & Hm1 & Hq1).
    apply (Hnext p1 []); try done. by rewrite Hq1, length_app.
  - apply andb_true_iff in Hu as [Hf Hu]. injection Ex as _ <-.
    assert (∃ p1, conference_sync flags ps !! name = Some p1 ∧ p_muted p1 = false ∧ queue p1 = queue p) as (p1 & H1 & Hm1 & Hq1).
    { destruct flags as [flags|]; [|by exists p]. cbn. rewrite map_lookup_imap, Hp. cbn. destruct (flags !! name) as [[[] de]|]; [done| |done].
      cbn. by eexists. }
    rewrite H1. cbn [from_option]. unfold said. rewrite Hm1, Hq1.
    apply (Hnext (advance p1)); [|done|by rewrite lookup_fmap, H1|by rewrite advance_muted|].
    + unfold advance. rewrite Hm1, Hq1. cbn [fed mbind list_bind]. rewrite app_nil_r.
      destruct (_ <=? _)%nat; [|done]. cbn [queue with_queue]. apply take_drop.
    + unfold advance. rewrite Hm1, Hq1. destruct (_ <=? _)%nat; cbn [queue with_queue]; [rewrite length_drop|rewrite Hq1]; done.
Qed.

(** Nobody hears himself. *)
Lemma hears_not_self c p ps : hears c (<[c := p]> ps) = hears c (delete c ps).
Proof. unfold hears. by rewrite delete_insert_eq, delete_delete_eq. Qed.

(** ** A conference of three *)

Definition ann : str := lit "SIP/ann".
Definition ben : str := lit "SIP/ben".
Definition cleo : str := lit "SIP/cleo".

(** Two legs in mu-law and one in A-law; ann and ben speak, cleo is deaf at the second tick;
    ann has said a third of a frame more, which waits. *)
Definition conversation : list mix_input :=
  [Join ann (lit "SIP") (Some 0); Join ben (lit "SIP") (Some 8); Join cleo (lit "SIP") None;
   Ingest cleo 0 [255]; Ingest ann 0 (replicate 213 (mix_encode Ulaw 20000)); Ingest ben 8 (replicate 160 (mix_encode Alaw 20000));
   Tick None; Flags cleo false true; Ingest ben 8 (replicate 160 (mix_encode Alaw (-500))); Tick None].

Definition first_octets (out : list (str * str * Frame)) : list (str * Z * list Z) :=
  (λ o, (o.1.1, match o.2 with FVoice v => v_codec_id v | _ => -1 end, match o.2 with FVoice v => take 1 (v_data v) | _ => [] end)) <$> out.

Example conversation_heard :
  first_octets <$> (mixer_run (HO := key_order) conversation (mixer_start (lit "sales"))).1
  = [[(cleo, 0, [mix_encode Ulaw 32767]);
      (ann, 0, [mix_encode Ulaw (mix_decode Alaw (mix_encode Alaw 20000))]);
      (ben, 8, [mix_encode Alaw (mix_decode Ulaw (mix_encode Ulaw 20000))])];
     [(cleo, 0, [mix_encode Ulaw 0]); (ann, 0, [mix_encode Ulaw (mix_decode Alaw (mix_encode Alaw (-500)))]);
      (ben, 8, [mix_encode Alaw 0])]].
Proof. vm_compute. reflexivity. Qed.

Lemma mixer_is_mix_minus_witness :
  joins conversation ≤ MAX_PARTIES
  ∧ Forall2 sends (mixer_run (HO := reverse_key_order) conversation (mixer_start (lit "sales"))).1 (meeting_run conversation ∅).1
  ∧ (∀ name p, (meeting_run conversation ∅).2 !! name = Some p → (length (waiting p) ≤ 1600)%nat).
Proof.
  assert (joins conversation ≤ MAX_PARTIES) as H by (vm_compute; discriminate).
  split; [exact H|]. exact (mixer_is_mix_minus (HO := reverse_key_order) (lit "sales") conversation H).
Defined.

Lemma speech_is_carried_witness :
  let ps : gmap str ParticipantState := {[ ann := participant_new (lit "SIP") (Some Ulaw); ben := participant_new (lit "SIP") (Some Alaw) ]} in
  let xs := drop 3 conversation in
  ∃ p', (conference_run xs ps).2 !! ann = Some p' ∧ spoken ann xs ps ++ queue p' = [] ++ fed ann xs.
Proof.
  intros ps xs. exact (speech_is_carried ann xs ps (participant_new (lit "SIP") (Some Ulaw)) ltac:(vm_compute; reflexivity)
    ltac:(vm_compute; reflexivity) ltac:(vm_compute; reflexivity)).
Defined.

(** A frame that is longer than the mixing interval loses its end. *)
Example long_frame_is_cut :
  let d := softmix_join (lit "1") ann (softmix_new 8000 20) in
  let f := frame_voice 1 240 (replicate 480 1) in
  match channel_buffers (softmix_write (lit "1") f d) !! lit "1" with Some cd => length (our_buf cd) = 160%nat | None => False end.
Proof. vm_compute. reflexivity. Qed.

(** Two frames in one interval: the first is lost. *)
Example second_frame_replaces :
  let d := softmix_join (lit "1") ann (softmix_join (lit "2") ben (softmix_new 8000 20)) in
  let f x := frame_voice 1 160 (replicate 320 x) in
  output_frames (mix (H := key_order) (softmix_write (lit "1") (f 2) (softmix_write (lit "1") (f 1) d))) !! lit "2"
  = output_frames (mix (H := key_order) (softmix_write (lit "1") (f 2) d)) !! lit "2".
Proof. vm_compute. reflexivity. Qed.
