(* ===== verification/ConfProfile.v ===== *)
(** * Conference profiles, menus and descriptions ([asterisk-apps/src/confbridge.rs])

    What [confbridge.conf] says of users, bridges and menus, the settings of a
    conference, and the session descriptions a conference sends when each participant
    is to get the video of all others.

    [user_profile_reads] shows that the order of the options does not matter,
    [menu_action_returns] that no menu makes the parser panic, and
    [sfu_types_distinct] that the payload types of an offer do not collide. *)

From Stdlib Require Import NArith ZArith Ascii String.
From S2P Require Import Prelude RustStr HashMap Sdp SdpNegotiate.
Local Open Scope Z_scope.
Local Open Scope list_scope.

(** ** Video modes and rates *)

Inductive ConferenceVideoMode := CvNone | CvFollowTalker | CvLastMarked | CvFirstMarked | CvSfu.
#[export] Instance ConferenceVideoMode_eq_dec : EqDecision ConferenceVideoMode.
Proof. solve_decision. Defined.

Inductive SampleRate := RateAuto | Rate8000 | Rate16000 | Rate32000 | Rate44100 | Rate48000.

Definition rate_as_u32 (r : SampleRate) : option Z :=
  match r with
  | RateAuto => None | Rate8000 => Some 8000 | Rate16000 => Some 16000 | Rate32000 => Some 32000
  | Rate44100 => Some 44100 | Rate48000 => Some 48000
  end.

Definition video_mode_as_str (m : ConferenceVideoMode) : str :=
  match m with
  | CvNone => lit "none" | CvFollowTalker => lit "follow_talker" | CvLastMarked => lit "last_marked"
  | CvFirstMarked => lit "first_marked" | CvSfu => lit "sfu"
  end.

Section config.
Context `{UnicodeCase}.

Definition video_mode_from_str_name (x : str) : ConferenceVideoMode :=
  let x := to_lowercase x in
  if str_eqb x (lit "none") then CvNone
  else if str_eqb x (lit "follow_talker") || str_eqb x (lit "follow-talker") then CvFollowTalker
  else if str_eqb x (lit "last_marked") || str_eqb x (lit "last-marked") then CvLastMarked
  else if str_eqb x (lit "first_marked") || str_eqb x (lit "first-marked") then CvFirstMarked
  else if str_eqb x (lit "sfu") then CvSfu
  else CvNone.

Definition rate_from_str_name (x : str) : SampleRate :=
  let x := to_lowercase x in
  if str_eqb x (lit "auto") then RateAuto
  else if str_eqb x (lit "8000") then Rate8000
  else if str_eqb x (lit "16000") then Rate16000
  else if str_eqb x (lit "32000") then Rate32000
  else if str_eqb x (lit "44100") then Rate44100
  else if str_eqb x (lit "48000") then Rate48000
  else RateAuto.

Definition is_true (value : str) : bool :=
  let v := to_lowercase value in
  str_eqb v (lit "yes") || str_eqb v (lit "true") || str_eqb v (lit "1") || str_eqb v (lit "on").

(** ** User profiles *)

Record UserProfile := mkUser {
  u_name : str; admin : bool; marked : bool; start_muted : bool; music_on_hold_when_empty : bool;
  announce_join_leave : bool; announce_user_count : bool; quiet : bool; wait_marked : bool; end_marked : bool;
  pin : option str; user_timeout : Z; dtmf_passthrough : bool; denoise : bool; talk_detection_events : bool;
  talker_optimization : bool; announce_user_count_threshold : Z }.

Definition user_default : UserProfile :=
  mkUser (lit "default_user") false false false false false false false false false None 0 false false false false 1.
Definition user_named (name : str) : UserProfile :=
  mkUser name false false false false false false false false false None 0 false false false false 1.

(** One option of a profile; an unknown one changes nothing. *)
Definition user_option (p : UserProfile) (kv : str * str) : UserProfile :=
  let 'mkUser n ad ma sm mo aj au qu wm em pi ti dp de td ta th := p in
  let '(key, value) := kv in
  let b := is_true value in
  if str_eqb key (lit "admin") then mkUser n b ma sm mo aj au qu wm em pi ti dp de td ta th
  else if str_eqb key (lit "marked") then mkUser n ad b sm mo aj au qu wm em pi ti dp de td ta th
  else if str_eqb key (lit "startmuted") then mkUser n ad ma b mo aj au qu wm em pi ti dp de td ta th
  else if str_eqb key (lit "music_on_hold_when_empty") then mkUser n ad ma sm b aj au qu wm em pi ti dp de td ta th
  else if str_eqb key (lit "announce_join_leave") then mkUser n ad ma sm mo b au qu wm em pi ti dp de td ta th
  else if str_eqb key (lit "announce_user_count") then mkUser n ad ma sm mo aj b qu wm em pi ti dp de td ta th
  else if str_eqb key (lit "quiet") then mkUser n ad ma sm mo aj au b wm em pi ti dp de td ta th
  else if str_eqb key (lit "wait_marked") then mkUser n ad ma sm mo aj au qu b em pi ti dp de td ta th
  else if str_eqb key (lit "end_marked") then mkUser n ad ma sm mo aj au qu wm b pi ti dp de td ta th
  else if str_eqb key (lit "pin") then
    mkUser n ad ma sm mo aj au qu wm em (if bool_decide (value = []) then pi else Some value) ti dp de td ta th
  else if str_eqb key (lit "timeout") then
    mkUser n ad ma sm mo aj au qu wm em pi (default ti (parse_unsigned 64 value)) dp de td ta th
  else if str_eqb key (lit "dtmf_passthrough") then mkUser n ad ma sm mo aj au qu wm em pi ti b de td ta th
  else if str_eqb key (lit "denoise") || str_eqb key (lit "dsp_drop_silence") then mkUser n ad ma sm mo aj au qu wm em pi ti dp b td ta th
  else if str_eqb key (lit "talk_detection_events") then mkUser n ad ma sm mo aj au qu wm em pi ti dp de b ta th
  else if str_eqb key (lit "talker_optimization") then mkUser n ad ma sm mo aj au qu wm em pi ti dp de td b th
  else p.

Definition user_from_config `{HashOrder} (name : str) (config : gmap str str) : UserProfile :=
  foldl user_option (user_named name) (hash_iter config).

(** What a profile is when there is none of the name: words in the name. *)
Definition parse_user_profile (profile : str) : UserProfile :=
  let lower := to_lowercase profile in
  let has w := contains w lower in
  mkUser (lit "default_user") (has (lit "admin")) (has (lit "marked")) (has (lit "muted")) false false false false (has (lit "wait_marked"))
    (has (lit "end_marked")) None 0 false false false false 1.

(** ** Bridge profiles *)

Record BridgeProfile := mkBridgeProfile {
  bp_name : str; bp_max_members : Z; bp_record_conference : bool; bp_record_file : option str;
  bp_internal_sample_rate : SampleRate; bp_mixing_interval : Z; bp_video_mode : ConferenceVideoMode;
  bp_sound_set : str; bp_language : str; bp_max_duration : Z; bp_music_on_hold_when_empty : bool;
  bp_music_class : str; bp_binaural_active : bool }.

Definition bridge_profile_named (name : str) : BridgeProfile :=
  mkBridgeProfile name 0 false None RateAuto 20 CvNone (lit "default") (lit "en") 0 false (lit "default") false.
Definition bridge_profile_default : BridgeProfile := bridge_profile_named (lit "default_bridge").

Definition validate_mixing_interval (ms : Z) : bool := (ms =? 10) || (ms =? 20) || (ms =? 40) || (ms =? 80).

Definition bridge_option (p : BridgeProfile) (kv : str * str) : BridgeProfile :=
  let 'mkBridgeProfile n mm rc rf sr mi vm ss la md mo mc bi := p in
  let '(key, value) := kv in
  if str_eqb key (lit "max_members") then mkBridgeProfile n (default mm (parse_u32 value)) rc rf sr mi vm ss la md mo mc bi
  else if str_eqb key (lit "record_conference") then mkBridgeProfile n mm (is_true value) rf sr mi vm ss la md mo mc bi
  else if str_eqb key (lit "record_file") then mkBridgeProfile n mm rc (Some value) sr mi vm ss la md mo mc bi
  else if str_eqb key (lit "internal_sample_rate") then mkBridgeProfile n mm rc rf (rate_from_str_name value) mi vm ss la md mo mc bi
  else if str_eqb key (lit "mixing_interval") then
    mkBridgeProfile n mm rc rf sr
      (match parse_u32 value with Some i => if validate_mixing_interval i then i else mi | None => mi end) vm ss la md mo mc bi
  else if str_eqb key (lit "video_mode") then mkBridgeProfile n mm rc rf sr mi (video_mode_from_str_name value) ss la md mo mc bi
  else if str_eqb key (lit "sound_set") || str_eqb key (lit "sounds") then mkBridgeProfile n mm rc rf sr mi vm value la md mo mc bi
  else if str_eqb key (lit "language") then mkBridgeProfile n mm rc rf sr mi vm ss value md mo mc bi
  else if str_eqb key (lit "max_duration") then mkBridgeProfile n mm rc rf sr mi vm ss la (default md (parse_unsigned 64 value)) mo mc bi
  else p.

Definition bridge_from_config `{HashOrder} (name : str) (config : gmap str str) : BridgeProfile :=
  foldl bridge_option (bridge_profile_named name) (hash_iter config).
End config.

(** ** Menus *)

Inductive MenuAction :=
  | ToggleMute | ToggleDeaf | IncreaseVolume | DecreaseVolume | AdminKickLast | AdminToggleLock | LeaveConference
  | AdminToggleMuteParticipants | SetAsSingleVideoSrc | ReleaseAsSingleVideoSrc | NoOp | Playback (file : str)
  | Dial (target : str) | AdminKickAll.

Definition ends_with (p x : str) : bool := bool_decide (is_Some (strip_suffix p x)).

Definition named_action (x : str) : option MenuAction :=
  let x_is := str_eqb x in
  if x_is (lit "toggle_mute") then Some ToggleMute
  else if x_is (lit "toggle_deaf") || x_is (lit "toggle_deaf_mute") then Some ToggleDeaf
  else if x_is (lit "increase_listening_volume") || x_is (lit "increase_volume") then Some IncreaseVolume
  else if x_is (lit "decrease_listening_volume") || x_is (lit "decrease_volume") then Some DecreaseVolume
  else if x_is (lit "admin_kick_last") then Some AdminKickLast
  else if x_is (lit "admin_toggle_lock") || x_is (lit "admin_toggle_conference_lock") then Some AdminToggleLock
  else if x_is (lit "leave_conference") then Some LeaveConference
  else if x_is (lit "admin_toggle_mute_participants") then Some AdminToggleMuteParticipants
  else if x_is (lit "set_as_single_video_src") then Some SetAsSingleVideoSrc
  else if x_is (lit "release_as_single_video_src") then Some ReleaseAsSingleVideoSrc
  else if x_is (lit "no_op") || x_is (lit "noop") then Some NoOp
  else if x_is (lit "admin_kick_all") then Some AdminKickAll
  else None.

Definition menu_action_from_str_name (x : str) : outcome (option MenuAction) :=
  let x := trim x in
  if starts_with (lit "playback(") x && ends_with (lit ")") x then
    let! file := slice x 9 (len x - 1) in Done (Some (Playback file))
  else if starts_with (lit "dialplan_exec(") x && ends_with (lit ")") x then
    let! target := slice x 14 (len x - 1) in Done (Some (Dial target))
  else Done (named_action x).

Record MenuEntry := { dtmf : str; actions : list MenuAction }.
Record ConfMenu := { menu_name : str; entries : list MenuEntry; dtmf_timeout_ms : Z }.

Definition menu_default : ConfMenu :=
  {| menu_name := lit "default_menu";
     entries := [ {| dtmf := lit "1"; actions := [ToggleMute] |}; {| dtmf := lit "2"; actions := [ToggleDeaf] |};
                  {| dtmf := lit "3"; actions := [IncreaseVolume] |}; {| dtmf := lit "4"; actions := [DecreaseVolume] |};
                  {| dtmf := lit "*1"; actions := [AdminToggleLock] |}; {| dtmf := lit "*2"; actions := [AdminKickLast] |};
                  {| dtmf := lit "*3"; actions := [AdminToggleMuteParticipants] |} ];
     dtmf_timeout_ms := 2000 |}.

Fixpoint parse_actions (xs : list str) : outcome (list MenuAction) :=
  match xs with
  | [] => Done []
  | x :: xs' =>
      let! a := menu_action_from_str_name (trim x) in
      let! rest := parse_actions xs' in Done (option_list a ++ rest)
  end.

Fixpoint parse_entries (config : list (str * str)) : outcome (list MenuEntry) :=
  match config with
  | [] => Done []
  | (digits, actions_str) :: config' =>
      if str_eqb digits (lit "type") || str_eqb digits (lit "template") then parse_entries config'
      else
        let! actions := parse_actions (split (chr ",") actions_str) in
        let! rest := parse_entries config' in
        Done (match actions with [] => rest | _ => {| dtmf := digits; actions := actions |} :: rest end)
  end.

Definition menu_from_config `{HashOrder} (name : str) (config : gmap str str) : outcome ConfMenu :=
  let! entries := parse_entries (hash_iter config) in
  Done {| menu_name := name; entries := entries; dtmf_timeout_ms := 2000 |}.

Definition find_entry (m : ConfMenu) (digits : str) : option MenuEntry := List.find (λ e, str_eqb (dtmf e) digits) (entries m).
Definition has_prefix (m : ConfMenu) (prefix : str) : bool :=
  existsb (λ e, starts_with prefix (dtmf e) && negb (str_eqb (dtmf e) prefix)) (entries m).

(** ** Settings *)

(** The sounds, which nothing plays, are left out. *)
Record ConferenceSettings := {
  max_members : Z; s_music_on_hold_when_empty : bool; music_class : str; s_announce_user_count : bool;
  s_announce_join_leave : bool; wait_for_marked : bool; end_when_marked_leaves : bool; bridge_profile : str;
  s_video_mode : ConferenceVideoMode; internal_sample_rate : SampleRate; mixing_interval : Z;
  record_conference : bool; record_file : option str }.

Definition settings_from_bridge_profile (bp : BridgeProfile) : ConferenceSettings :=
  {| max_members := bp_max_members bp; s_music_on_hold_when_empty := bp_music_on_hold_when_empty bp;
     music_class := bp_music_class bp; s_announce_user_count := false; s_announce_join_leave := false;
     wait_for_marked := false; end_when_marked_leaves := false; bridge_profile := bp_name bp;
     s_video_mode := bp_video_mode bp; internal_sample_rate := bp_internal_sample_rate bp;
     mixing_interval := bp_mixing_interval bp; record_conference := bp_record_conference bp;
     record_file := bp_record_file bp |}.

Definition with_video_mode (m : ConferenceVideoMode) (x : ConferenceSettings) : ConferenceSettings :=
  {| max_members := max_members x; s_music_on_hold_when_empty := s_music_on_hold_when_empty x;
     music_class := music_class x; s_announce_user_count := s_announce_user_count x;
     s_announce_join_leave := s_announce_join_leave x; wait_for_marked := wait_for_marked x;
     end_when_marked_leaves := end_when_marked_leaves x; bridge_profile := bridge_profile x;
     s_video_mode := m; internal_sample_rate := internal_sample_rate x;
     mixing_interval := mixing_interval x; record_conference := record_conference x;
     record_file := record_file x |}.

(** ** Video of everybody *)

Record VideoStreamInfo := { vs_payload_type : Z; codec_name : str; sample_rate : Z }.

(** The streams a description offers: one for each payload type with a mapping. *)
Definition stream_of (m : MediaDescription) (pt : Z) : option VideoStreamInfo :=
  rtpmap ← get_rtpmap m pt;
  '(_, codec) ← split_once (chr " ") rtpmap;
  let codec_parts := split (chr "/") codec in
  Some {| vs_payload_type := pt; codec_name := default [] (codec_parts !! 0%nat);
          sample_rate := default 90000 (codec_parts !! 1%nat ≫= parse_u32) |}.
Definition extract_video_streams (remote_sdp : option SessionDescription) : list VideoStreamInfo :=
  match remote_sdp with
  | None => []
  | Some sdp =>
      filter (λ m, str_eqb (media_type m) (lit "video") && (0 <? m_port m) = true) (media_descriptions sdp) ≫= λ m,
      omap (stream_of m) (formats m)
  end.

(** The next payload type of the pool that is not used. *)
Fixpoint next_free (fuel : nat) (used : gset Z) (pt : Z) : Z :=
  match fuel with
  | O => pt
  | S fuel => if bool_decide (pt ∈ used) && (pt <? 127) then next_free fuel used (pt + 1) else pt
  end.

Fixpoint assign_types (streams : list (VideoStreamInfo * bool)) (used : gset Z) (next_dynamic_pt : Z) : list Z :=
  match streams with
  | [] => []
  | (stream, _) :: streams' =>
      if (vs_payload_type stream <? 96) && negb (bool_decide (vs_payload_type stream ∈ used)) then
        vs_payload_type stream :: assign_types streams' ({[ vs_payload_type stream ]} ∪ used) next_dynamic_pt
      else
        let pt := next_free 128 used next_dynamic_pt in
        pt :: assign_types streams' ({[ pt ]} ∪ used) ((pt + 1) mod 256)
  end.

Definition used_types (sdp : SessionDescription) : gset Z := list_to_set (media_descriptions sdp ≫= formats).

Definition sfu_line (sd : VideoStreamInfo * bool) (pt : Z) : MediaDescription :=
  let '(stream, departed) := sd in
  mkMedia (lit "video") (if departed : bool then 0 else 4050) (lit "RTP/AVP") [pt] None
    ((lit "rtpmap", Some (show_int pt ++ lit " " ++ codec_name stream ++ lit "/" ++ show_int (sample_rate stream)))
       :: (if departed : bool then [] else [(lit "sendrecv", None)]))
    (if departed : bool then Inactive else SendRecv) None None false [] [].

Definition build_sfu_sdp (own_sdp : SessionDescription) (others : list (VideoStreamInfo * bool)) (local_addr : str) : SessionDescription :=
  mkSdp 0 (mkOrigin (lit "asterisk") (lit "1") (lit "1") (lit "IN") (lit "IP4") local_addr) (lit "Asterisk")
    (Some (mkConn (lit "IN") (lit "IP4") local_addr)) (0, 0)
    (media_descriptions own_sdp ++ zip_with sfu_line others (assign_types others (used_types own_sdp) 99)) [].

(** ** No menu makes the parser panic *)

Lemma ends_with_true p x : ends_with p x = true ↔ ∃ y, x = y ++ p.
Proof.
  unfold ends_with. rewrite bool_decide_eq_true. split.
  - intros [y Hy]. unfold strip_suffix in Hy. apply fmap_Some in Hy as (z & Hz & ->). apply strip_prefix_Some in Hz.
    exists (reverse z). by rewrite <-(reverse_involutive x), Hz, reverse_app, reverse_involutive.
  - intros [y ->]. rewrite strip_suffix_app. by eexists.
Qed.

(** A call [word(...)] is its word, its argument and its parenthesis. *)
Lemma action_bracketed (word x : str) :
  last word = Some (chr "(") → starts_with word x && ends_with (lit ")") x = true → ∃ arg, x = word ++ arg ++ lit ")".
Proof.
  intros Hw [(y & ->)%starts_with_true (z & Hz)%ends_with_true]%andb_true_iff.
  destruct (exists_last (l := y)) as (arg & c & ->).
  - intros ->. rewrite app_nil_r in Hz. rewrite Hz, last_app in Hw. by injection Hw.
  - rewrite app_assoc in Hz. apply app_inj_tail in Hz as [<- ->]. by exists arg.
Qed.

Lemma bracket_slice (word arg : str) :
  slice (word ++ arg ++ lit ")") (len word) (len (word ++ arg ++ lit ")") - 1) = Done arg.
Proof.
  rewrite !len_app. change (len (lit ")")) with 1%N. replace (len word + (len arg + 1) - 1)%N with (len word + len arg)%N by lia.
  apply slice_app.
Qed.

Lemma menu_action_returns x : returns (menu_action_from_str_name x).
Proof.
  unfold menu_action_from_str_name. set (y := trim x). clearbody y.
  destruct (starts_with (lit "playback(") y && ends_with (lit ")") y) eqn:E1.
  - apply action_bracketed in E1 as (arg & ->); [|done]. change 9%N with (len (lit "playback(")). rewrite bracket_slice. by eexists.
  - destruct (starts_with (lit "dialplan_exec(") y && ends_with (lit ")") y) eqn:E2; [|by eexists].
    apply action_bracketed in E2 as (arg & ->); [|done]. change 14%N with (len (lit "dialplan_exec(")). rewrite bracket_slice. by eexists.
Qed.

(** Every menu that can be written is read. *)
Theorem menu_from_config_returns `{HashOrder} (name : str) (config : gmap str str) : returns (menu_from_config name config).
Proof.
  unfold menu_from_config. apply returns_bind; [|auto with rust]. induction (hash_iter config) as [|[digits text] l IH]; [by eexists|].
  cbn [parse_entries]. destruct (str_eqb digits (lit "type") || str_eqb digits (lit "template")); [exact IH|]. apply returns_bind.
  - induction (split (chr ",") text) as [|x xs IHx]; [by eexists|]. cbn [parse_actions]. apply returns_bind; [apply menu_action_returns|].
    intros a _. apply returns_bind; [exact IHx|auto with rust].
  - intros acts _. apply returns_bind; [exact IH|auto with rust].
Qed.

(** ** Profiles are what is written *)

Section profiles.
Context `{UnicodeCase} {HO : HashOrder}.

Lemma foldl_reads {P B} (step : P → str * str → P) (proj : P → B) (key : str) (g : str → B → B) :
  (∀ p k v, proj (step p (k, v)) = if str_eqb k key then g v (proj p) else proj p) →
  ∀ config p, proj (foldl step p (hash_iter config)) = match config !! key with Some v => g v (proj p) | None => proj p end.
Proof.
  intros Hs config p.
  assert (∀ l p, NoDup l.*1 → proj (foldl step p l)
    = match (list_to_map l : gmap str str) !! key with Some v => g v (proj p) | None => proj p end) as Hl.
  { clear p. induction l as [|[k v] l IH]; intros p Hnd; [done|]. cbn [foldl fmap list_fmap fst] in *. apply NoDup_cons in Hnd as [Hk Hnd].
    rewrite IH, Hs by done. cbn [list_to_map foldr curry]. destruct (str_eqb_spec k key) as [->|Hne].
    - by rewrite lookup_insert_eq, (not_elem_of_list_to_map_1 _ _ Hk).
    - by rewrite lookup_insert_ne. }
  rewrite Hl by apply hash_iter_NoDup. assert ((list_to_map (hash_iter config) : gmap str str) = config) as ->; [|done].
  rewrite (list_to_map_proper _ (map_to_list config)); [apply list_to_map_to_list|apply hash_iter_NoDup|apply hash_iter_perm].
Qed.

(** One field follows one option: the option is found by going through the others. *)
#[local] Ltac follows key :=
  let k := fresh "k" in
  intros [] k ?; cbv [user_option]; destruct (str_eqb_spec k (lit key)) as [->|?]; [reflexivity|];
  repeat (match goal with |- context [str_eqb k ?w] => destruct (str_eqb_spec k w) as [->|?] end; [first [done|congruence]|]); done.
#[local] Ltac reads key :=
  rewrite (foldl_reads user_option _ (lit key) (λ v _, is_true v)); [by destruct (_ !! lit key)|follows key].

(** A user is what its profile says, whatever the order of the options; options that are
    not there, or whose number is not one, leave the default. *)
Theorem user_profile_reads (name : str) (config : gmap str str) :
  let p := user_from_config name config in
  let flag key := from_option is_true false (config !! lit key) in
  u_name p = name ∧ admin p = flag "admin"%string ∧ marked p = flag "marked"%string ∧ start_muted p = flag "startmuted"%string
  ∧ quiet p = flag "quiet"%string ∧ wait_marked p = flag "wait_marked"%string ∧ end_marked p = flag "end_marked"%string
  ∧ announce_join_leave p = flag "announce_join_leave"%string ∧ announce_user_count p = flag "announce_user_count"%string
  ∧ music_on_hold_when_empty p = flag "music_on_hold_when_empty"%string ∧ dtmf_passthrough p = flag "dtmf_passthrough"%string
  ∧ talk_detection_events p = flag "talk_detection_events"%string ∧ talker_optimization p = flag "talker_optimization"%string
  ∧ pin p = (v ← config !! lit "pin"; if bool_decide (v = []) then None else Some v)
  ∧ user_timeout p = default 0 (config !! lit "timeout" ≫= parse_unsigned 64).
Proof.
  intros p flag. unfold p, flag, user_from_config. clear p flag. split_and!.
  - assert (∀ l q, u_name (foldl user_option q l) = u_name q) as ->; [|done].
    induction l as [|[k v] l IH]; intros q; [done|]. cbn [foldl]. rewrite IH. destruct q. cbv [user_option].
    repeat match goal with |- context [if ?b then _ else _] => destruct b; [done|] end. done.
  - reads "admin"%string.
  - reads "marked"%string.
  - reads "startmuted"%string.
  - reads "quiet"%string.
  - reads "wait_marked"%string.
  - reads "end_marked"%string.
  - reads "announce_join_leave"%string.
  - reads "announce_user_count"%string.
  - reads "music_on_hold_when_empty"%string.
  - reads "dtmf_passthrough"%string.
  - reads "talk_detection_events"%string.
  - reads "talker_optimization"%string.
  - rewrite (foldl_reads user_option pin (lit "pin") (λ v old, if bool_decide (v = []) then old else Some v)); [|follows "pin"%string].
    by destruct (config !! lit "pin").
  - rewrite (foldl_reads user_option user_timeout (lit "timeout") (λ v old, default old (parse_unsigned 64 v))); [|follows "timeout"%string].
    by destruct (config !! lit "timeout").
Qed.
End profiles.

(** Two names of one option: which counts depends on the order. *)
Example denoise_depends_on_the_order :
  let uc : UnicodeCase := id in
  let config : gmap str str := {[ lit "denoise" := lit "yes"; lit "dsp_drop_silence" := lit "no" ]} in
  denoise (@user_from_config uc key_order (lit "u") config) ≠ denoise (@user_from_config uc reverse_key_order (lit "u") config).
Proof. vm_compute. discriminate. Qed.

(** ** The payload types of an offer *)

Definition free_types (used : gset Z) (from : Z) : list Z := filter (λ x, x ∉ used) (seqZ from (128 - from)).

Lemma next_free_spec fuel used pt :
  128 - pt ≤ Z.of_nat fuel → free_types used pt ≠ [] →
  let f := next_free fuel used pt in
  (f ∉ used) ∧ pt ≤ f ≤ 127 ∧ free_types used pt = f :: free_types used (f + 1).
Proof.
  revert pt. induction fuel as [|fuel IH]; intros pt Hf Hfree; cbn zeta.
  { unfold free_types in Hfree. by rewrite seqZ_nil in Hfree by lia. }
  assert (pt < 128) as Hpt by (destruct (decide (pt < 128)); [done|]; unfold free_types in Hfree; rewrite seqZ_nil in Hfree by lia; done).
  assert (free_types used pt = if bool_decide (pt ∈ used) then free_types used (pt + 1) else pt :: free_types used (pt + 1)) as E.
  { unfold free_types. rewrite seqZ_cons by lia. rewrite filter_cons. replace (Z.succ pt) with (pt + 1) by lia.
    replace (Z.pred (128 - pt)) with (128 - (pt + 1)) by lia. case_bool_decide; [by rewrite decide_False by (intros Hn; by apply Hn)|by rewrite decide_True]. }
  cbn [next_free]. rewrite E in Hfree |- *. case_bool_decide as Hu; cbn [andb]; [|split_and!; [done|lia|lia|done]].
  destruct (Z.ltb_spec pt 127); [|unfold free_types in Hfree; by rewrite seqZ_nil in Hfree by lia].
  destruct (IH (pt + 1) ltac:(lia) Hfree) as (? & ? & ?). split_and!; [done|lia|lia|done].
Qed.

Lemma filter_ext_in {A} (P Q : A → Prop) `{∀ x, Decision (P x), ∀ x, Decision (Q x)} (l : list A) :
  (∀ x, x ∈ l → P x ↔ Q x) → filter P l = filter Q l.
Proof.
  induction l as [|x l IH]; intros Hl; [done|]. rewrite !filter_cons, IH by (intros y Hy; apply Hl; by right).
  pose proof (Hl x ltac:(by left)). by destruct (decide (P x)), (decide (Q x)); try tauto.
Qed.

Lemma free_types_below used pt from : pt < from → free_types ({[ pt ]} ∪ used) from = free_types used from.
Proof. intros Hpt. unfold free_types. apply filter_ext_in. intros y [Hy _]%elem_of_seqZ. set_solver by lia. Qed.

(** The types given to the streams are new, each for one stream, as long as the pool
    lasts. *)
Lemma assign_types_distinct streams used next :
  Forall (λ sd, 0 ≤ vs_payload_type sd.1) streams → 96 ≤ next → (length streams ≤ length (free_types used next))%nat →
  let pts := assign_types streams used next in
  NoDup pts ∧ Forall (λ pt, (pt ∉ used) ∧ 0 ≤ pt ≤ 127) pts ∧ length pts = length streams.
Proof.
  revert used next. induction streams as [|[sd dep] streams IH]; intros used next Hp Hn Hl; cbn zeta; [by split_and!; constructor|].
  apply Forall_cons in Hp as [Hsd Hp]. cbn [assign_types length fst] in *.
  assert (∀ pt next', pt ∉ used → 0 ≤ pt ≤ 127 → 96 ≤ next' → pt < next' → (length streams ≤ length (free_types used next'))%nat →
    NoDup (pt :: assign_types streams ({[ pt ]} ∪ used) next')
    ∧ Forall (λ pt, (pt ∉ used) ∧ 0 ≤ pt ≤ 127) (pt :: assign_types streams ({[ pt ]} ∪ used) next')
    ∧ length (pt :: assign_types streams ({[ pt ]} ∪ used) next') = S (length streams)) as Hnext.
  { intros pt next' Hpt Hr Hn' Hlt Hl'. rewrite <-(free_types_below used pt) in Hl' by done.
    destruct (IH ({[ pt ]} ∪ used) next' Hp Hn' Hl') as (Hnd & Hall & Hlen). rewrite Forall_forall in Hall.
    split_and!; [apply NoDup_cons; split; [intros Hin; apply Hall in Hin; set_solver|done]|constructor; [done|]|cbn; lia].
    apply Forall_forall. intros x Hx. specialize (Hall x Hx). set_solver. }
  destruct (Z.ltb_spec (vs_payload_type sd) 96), (bool_decide_reflect (vs_payload_type sd ∈ used)) as [Hu|Hu]; cbn [andb negb];
    [|apply Hnext; [done|lia..]| |];
    (assert (free_types used next ≠ []) as Hne by (intros E; rewrite E in Hl; cbn [length] in Hl; lia);
     destruct (next_free_spec 128 used next ltac:(lia) Hne) as (Hf & Hr & E); set (f := next_free 128 used next) in *;
     rewrite (Z.mod_small (f + 1)) by lia; apply Hnext; [done|lia|lia|lia|rewrite E in Hl; cbn [length] in Hl; lia]).
Qed.

(** The lines of an offer to a participant: its own, then one for each stream of the
    others, with types that no other line of the offer has, as long as the types from
    99 to 127 that its own lines leave are as many as the streams. *)
Theorem sfu_types_distinct (own : SessionDescription) (others : list (VideoStreamInfo * bool)) (local_addr : str) :
  Forall (λ sd, 0 ≤ vs_payload_type sd.1) others → (length others ≤ length (free_types (used_types own) 99))%nat →
  ∃ pts, media_descriptions (build_sfu_sdp own others local_addr) = media_descriptions own ++ zip_with sfu_line others pts
  ∧ length pts = length others ∧ NoDup pts ∧ Forall (λ pt, 0 ≤ pt ≤ 127 ∧ Forall (λ m, pt ∉ formats m) (media_descriptions own)) pts.
Proof.
  intros Hp Hl. destruct (assign_types_distinct others (used_types own) 99 Hp ltac:(lia) Hl) as (Hnd & Hall & Hlen).
  exists (assign_types others (used_types own) 99). split_and!; [done|done|done|]. eapply Forall_impl; [exact Hall|].
  intros pt [Hu Hr]. split; [done|]. apply Forall_forall. intros m Hm Hf. apply Hu. unfold used_types.
  apply elem_of_list_to_set, list_elem_of_bind. by exists m.
Qed.

Definition stream (pt : Z) : VideoStreamInfo * bool :=
  ({| vs_payload_type := pt; codec_name := lit "H264"; sample_rate := 90000 |}, false).

Lemma sfu_types_distinct_witness :
  let others := stream <$> [34; 34; 96; 97] in
  let own := mkSdp 0 origin_default (lit "s") None (0, 0) [mkMedia (lit "video") 4000 (lit "RTP/AVP") [99; 100] None [] SendRecv None None false [] []] [] in
  (formats <$> drop 1 (media_descriptions (build_sfu_sdp own others (lit "192.0.2.1")))) = [[34]; [101]; [102]; [103]]
  ∧ ∃ pts, media_descriptions (build_sfu_sdp own others (lit "192.0.2.1")) = media_descriptions own ++ zip_with sfu_line others pts
    ∧ length pts = length others ∧ NoDup pts ∧ Forall (λ pt, 0 ≤ pt ≤ 127 ∧ Forall (λ m, pt ∉ formats m) (media_descriptions own)) pts.
Proof.
  intros others own. split; [vm_compute; reflexivity|]. apply (sfu_types_distinct own others (lit "192.0.2.1")).
  - repeat constructor; cbn; lia.
  - vm_compute. lia.
Defined.

(** When the pool is used up, types are given that are none: above 127. *)
Example too_many_streams :
  assign_types (stream <$> replicate 31 96) ∅ 99 !! 29%nat = Some 128.
Proof. vm_compute. reflexivity. Qed.
