(* ===== verification/ConfBridge.v ===== *)
(** * Conferences ([asterisk-apps/src/confbridge.rs])

    Named rooms that channels join and leave: who is in, who is muted or waits for a
    marked user, locks and limits, kicks, and the life of a room and of its mixer.

    A conference is an object that calls hold by reference; the registry maps names to
    objects.  A call holds the object it got when it entered ([conf_enter]), whatever the
    registry says later.  [conf_step] is one step of anything that happens: a call enters,
    is let in or refused ([may_join], the first lock of [join_conference]), comes in
    ([conf_add], the second) and hangs up ([leave_conference]); administrators, menus and
    the mixer's tick act in between, in any order.  What [join_conference] and
    [leave_conference] do after their last lock - the mixer, the registry - is in the same
    step as the lock.  The PIN is read and not asked for; sounds, recording files and the
    re-INVITEs' transport are not here.

    [conferences_consistent] is the invariant of every run; [conferences_end] says that
    nothing is left when all calls are over.  The examples show what the code does
    when calls interleave. *)

From Stdlib Require Import NArith ZArith Ascii String.
From S2P Require Import Prelude RustStr HashMap Sdp Types Channel PbxApps Bridge ConfMix ConfProfile.
Local Open Scope Z_scope.
Local Open Scope list_scope.

(** ** Data *)

Inductive ConfBridgeEvent :=
  | ConfbridgeStart (conference : str)
  | ConfbridgeEnd (conference : str)
  | ConfbridgeJoin (conference channel : str) (admin marked : bool)
  | ConfbridgeLeave (conference channel : str) (admin marked : bool)
  | ConfbridgeTalking (conference channel : str) (talking : bool)
  | ConfbridgeMute (conference channel : str)
  | ConfbridgeUnmute (conference channel : str).

Definition event_name (e : ConfBridgeEvent) : str :=
  match e with
  | ConfbridgeStart _ => lit "ConfbridgeStart" | ConfbridgeEnd _ => lit "ConfbridgeEnd"
  | ConfbridgeJoin _ _ _ _ => lit "ConfbridgeJoin" | ConfbridgeLeave _ _ _ _ => lit "ConfbridgeLeave"
  | ConfbridgeTalking _ _ _ => lit "ConfbridgeTalking" | ConfbridgeMute _ _ => lit "ConfbridgeMute"
  | ConfbridgeUnmute _ _ => lit "ConfbridgeUnmute"
  end.

Record ConferenceUser := mkConfUser {
  cu_channel_id : str; cu_channel_name : str; is_admin : bool; is_marked : bool; muted : bool; deaf : bool; talking : bool;
  waiting : bool; join_time : Z; cu_caller_name : option str; cu_caller_number : option str; volume_adjustment : Z;
  talking_volume_adjustment : Z; profile_name : str; cu_menu_name : str; sip_call_id : option str;
  video_streams : list VideoStreamInfo }.

Definition set_voice (m d w : bool) (v : Z) (u : ConferenceUser) : ConferenceUser :=
  let 'mkConfUser i n ad ma _ _ ta _ jt cn cm _ tv pn mn sc vs := u in mkConfUser i n ad ma m d ta w jt cn cm v tv pn mn sc vs.
Definition set_muted (m : bool) (u : ConferenceUser) : ConferenceUser := set_voice m (deaf u) (waiting u) (volume_adjustment u) u.
Definition set_deaf (d : bool) (u : ConferenceUser) : ConferenceUser := set_voice (muted u) d (waiting u) (volume_adjustment u) u.
Definition set_waiting (w m : bool) (u : ConferenceUser) : ConferenceUser := set_voice m (deaf u) w (volume_adjustment u) u.
Definition set_volume (v : Z) (u : ConferenceUser) : ConferenceUser := set_voice (muted u) (deaf u) (waiting u) v u.

Record Conference := mkConference {
  conf_name : str; bridge : Bridge; participants : gmap str ConferenceUser; settings : ConferenceSettings; locked : bool;
  all_muted : bool; conf_active : bool; marked_count : Z; last_joined : option str; recording : bool }.

Definition with_participants (ps : gmap str ConferenceUser) (b : Bridge) (c : Conference) : Conference :=
  mkConference (conf_name c) b ps (settings c) (locked c) (all_muted c) (conf_active c) (marked_count c) (last_joined c) (recording c).
Definition with_settings (x : ConferenceSettings) (c : Conference) : Conference :=
  mkConference (conf_name c) (bridge c) (participants c) x (locked c) (all_muted c) (conf_active c) (marked_count c) (last_joined c) (recording c).
Definition with_locked (l : bool) (c : Conference) : Conference :=
  mkConference (conf_name c) (bridge c) (participants c) (settings c) l (all_muted c) (conf_active c) (marked_count c) (last_joined c) (recording c).
Definition with_all_muted (m : bool) (c : Conference) : Conference :=
  mkConference (conf_name c) (bridge c) (participants c) (settings c) (locked c) m (conf_active c) (marked_count c) (last_joined c) (recording c).
Definition with_marked (active : bool) (n : Z) (c : Conference) : Conference :=
  mkConference (conf_name c) (bridge c) (participants c) (settings c) (locked c) (all_muted c) active n (last_joined c) (recording c).
Definition with_last_joined (l : option str) (c : Conference) : Conference :=
  mkConference (conf_name c) (bridge c) (participants c) (settings c) (locked c) (all_muted c) (conf_active c) (marked_count c) l (recording c).
Definition with_recording (r : bool) (c : Conference) : Conference :=
  mkConference (conf_name c) (bridge c) (participants c) (settings c) (locked c) (all_muted c) (conf_active c) (marked_count c) (last_joined c) r.

(** [id] is the fresh UUID of the bridge; those of the conference itself and its time of
    creation are not read. *)
Definition conference_new (id name : str) (x : ConferenceSettings) : Conference :=
  mkConference name (bridge_new id (lit "confbridge-" ++ name)) ∅ x false false false 0 None false.

Definition count_users (f : ConferenceUser → bool) (c : Conference) : nat := size (filter (λ ku, f ku.2 = true) (participants c)).
Definition admin_count : Conference → nat := count_users is_admin.
Definition marked_user_count : Conference → nat := count_users is_marked.
Definition waiting_count : Conference → nat := count_users waiting.
Definition active_count : Conference → nat := count_users (λ u, negb (waiting u)).

Inductive ConfBridgeResult := CbHangup | CbKicked | CbEndMarked | CbDtmf | CbTimeout | CbFailed.
Definition conf_result_as_str (r : ConfBridgeResult) : str :=
  match r with
  | CbHangup => lit "HANGUP" | CbKicked => lit "KICKED" | CbEndMarked => lit "ENDMARKED" | CbDtmf => lit "DTMF"
  | CbTimeout => lit "TIMEOUT" | CbFailed => lit "FAILED"
  end.

(** The registries, the objects that calls hold, the log of events and the mixers. *)
Record ConfWorld := {
  conferences : gmap str nat;
  objects : gmap nat Conference;
  next_object : nat;
  event_log : list ConfBridgeEvent;
  mixers : gmap str ConferenceMixer;
  user_profiles : gmap str UserProfile;
  bridge_profiles : gmap str BridgeProfile;
  menu_profiles : gmap str ConfMenu }.

Definition world_new : ConfWorld :=
  {| conferences := ∅; objects := ∅; next_object := 0; event_log := []; mixers := ∅; user_profiles := ∅; bridge_profiles := ∅;
     menu_profiles := ∅ |}.

Definition with_conferences (cs : gmap str nat) (ms : gmap str ConferenceMixer) (w : ConfWorld) : ConfWorld :=
  {| conferences := cs; objects := objects w; next_object := next_object w; event_log := event_log w; mixers := ms;
     user_profiles := user_profiles w; bridge_profiles := bridge_profiles w; menu_profiles := menu_profiles w |}.
Definition put_object (o : nat) (c : Conference) (w : ConfWorld) : ConfWorld :=
  {| conferences := conferences w; objects := <[o := c]> (objects w); next_object := next_object w; event_log := event_log w;
     mixers := mixers w; user_profiles := user_profiles w; bridge_profiles := bridge_profiles w; menu_profiles := menu_profiles w |}.
Definition emit_events (es : list ConfBridgeEvent) (w : ConfWorld) : ConfWorld :=
  {| conferences := conferences w; objects := objects w; next_object := next_object w; event_log := event_log w ++ es;
     mixers := mixers w; user_profiles := user_profiles w; bridge_profiles := bridge_profiles w; menu_profiles := menu_profiles w |}.

Definition register_user_profile (p : UserProfile) (w : ConfWorld) : ConfWorld :=
  {| conferences := conferences w; objects := objects w; next_object := next_object w; event_log := event_log w; mixers := mixers w;
     user_profiles := <[u_name p := p]> (user_profiles w); bridge_profiles := bridge_profiles w; menu_profiles := menu_profiles w |}.
Definition register_bridge_profile (p : BridgeProfile) (w : ConfWorld) : ConfWorld :=
  {| conferences := conferences w; objects := objects w; next_object := next_object w; event_log := event_log w; mixers := mixers w;
     user_profiles := user_profiles w; bridge_profiles := <[bp_name p := p]> (bridge_profiles w); menu_profiles := menu_profiles w |}.
Definition register_menu (m : ConfMenu) (w : ConfWorld) : ConfWorld :=
  {| conferences := conferences w; objects := objects w; next_object := next_object w; event_log := event_log w; mixers := mixers w;
     user_profiles := user_profiles w; bridge_profiles := bridge_profiles w;
     menu_profiles := <[ConfProfile.menu_name m := m]> (menu_profiles w) |}.

Section conference.
Context `{UnicodeCase} {HO : HashOrder}.

(** ** Entering *)

Definition profile_arg (parts : list str) (i : nat) (dflt : str) : str :=
  match parts !! i with
  | Some x => if bool_decide (trim x = []) then dflt else trim x
  | None => dflt
  end.

Definition get_or_create_conference (id name bridge_profile_name : str) (w : ConfWorld) : nat * ConfWorld :=
  match conferences w !! name with
  | Some o => (o, w)
  | None =>
      let bp := default bridge_profile_default (bridge_profiles w !! bridge_profile_name) in
      let o := next_object w in
      (o, {| conferences := <[name := o]> (conferences w);
             objects := <[o := conference_new id name (settings_from_bridge_profile bp)]> (objects w);
             next_object := S o; event_log := event_log w ++ [ConfbridgeStart name]; mixers := mixers w;
             user_profiles := user_profiles w; bridge_profiles := bridge_profiles w; menu_profiles := menu_profiles w |})
  end.

Definition conf_user (now : Z) (channel : Channel) (up : UserProfile) (profile menu : str) (sdp_of : str → option SessionDescription)
    : ConferenceUser :=
  let call_id := variables channel !! lit "__SIP_CALL_ID" in
  let non_empty x := if bool_decide (x = []) then None else Some x in
  mkConfUser (unique_id channel) (chan_name channel) (admin up) (marked up) (start_muted up) false false false now
    (non_empty (caller_name channel)) (non_empty (caller_number channel)) 0 0 profile menu call_id
    (extract_video_streams (call_id ≫= sdp_of)).

(** [exec] up to [join_conference]; the PIN of a profile is looked at and not asked for.
    [id] is the fresh UUID of a bridge, [sdp_of] what the other end of a call offered. *)
Definition conf_enter (id : str) (now : Z) (sdp_of : str → option SessionDescription) (channel : Channel) (args : str) (w : ConfWorld)
    : option (nat * str * ConferenceUser) * ConfWorld :=
  let parts := splitn 4 (chr ",") args in
  let name := trim (default [] (head parts)) in
  if bool_decide (name = []) then (None, w)
  else
    let bridge_profile_name := profile_arg parts 1 (lit "default_bridge") in
    let user_profile_name := profile_arg parts 2 (lit "default_user") in
    let menu := profile_arg parts 3 (lit "default_menu") in
    let up := match user_profiles w !! user_profile_name with Some p => p | None => parse_user_profile user_profile_name end in
    let '(o, w) := get_or_create_conference id name bridge_profile_name w in
    let w := match variables channel !! lit "CONFBRIDGE(bridge,video_mode)", objects w !! o with
             | Some vm, Some c => put_object o (with_settings (with_video_mode (video_mode_from_str_name vm) (settings c)) c) w
             | _, _ => w
             end in
    (Some (o, name, conf_user now channel up user_profile_name menu sdp_of), w).

(** The first lock of [join_conference]. *)
Definition may_join (u : ConferenceUser) (c : Conference) : bool :=
  negb (locked c && negb (is_admin u))
  && negb ((0 <? max_members (settings c)) && (max_members (settings c) <=? Z.of_nat (size (participants c)))).

Definition release_waiting (u : ConferenceUser) : ConferenceUser := if waiting u then set_waiting false false u else u.

(** Whether a user that comes waits for a marked one, and the user as it comes in. *)
Definition waits_for_marked (u : ConferenceUser) (c : Conference) : bool :=
  wait_for_marked (settings c) && (marked_count c =? 0) && negb (is_marked u).
Definition arriving (u : ConferenceUser) (c : Conference) : ConferenceUser :=
  let u1 := if waits_for_marked u c then set_waiting true true u else u in
  if all_muted c && negb (is_admin u) then set_muted true u1 else u1.

(** The second. *)
Definition add_user (u : ConferenceUser) (c : Conference) : Conference :=
  let id := cu_channel_id u in
  let c := with_last_joined (Some id)
             (with_participants (<[id := arriving u c]> (participants c)) (add_channel id (cu_channel_name u) (bridge c)) c) in
  if is_marked u then
    let n := marked_count c + 1 in
    if (n =? 1) && wait_for_marked (settings c)
    then with_marked true n (with_participants (release_waiting <$> participants c) (bridge c) c)
    else with_marked (conf_active c) n c
  else c.

(** ** Leaving *)

(** [max_by_key(join_time)]: the last of the greatest. *)
Definition newest (ps : gmap str ConferenceUser) : option str :=
  cu_channel_id <$> foldl (λ best u, match best with
                                     | Some b => if join_time b <=? join_time u then Some u else Some b
                                     | None => Some u end) None (hash_values ps).

Definition saturating_pred (n : Z) : Z := Z.max 0 (n - 1).

Definition drop_participant (id : str) (c : Conference) : Conference :=
  with_participants (delete id (participants c)) (remove_channel id (bridge c)).1 c.
Definition refresh_last (id : str) (c : Conference) : Conference :=
  if bool_decide (last_joined c = Some id) then with_last_joined (newest (participants c)) c else c.

(** The first lock of [leave_conference]; whether the conference is to end with its
    marked users. *)
Definition leave_participant (id : str) (c : Conference) : Conference * option ConferenceUser * bool :=
  let user := participants c !! id in
  let c := refresh_last id (drop_participant id c) in
  match user with
  | Some u =>
      if is_marked u then
        let n := saturating_pred (marked_count c) in
        let c := with_marked (conf_active c) n c in
        let c := if (n =? 0) && wait_for_marked (settings c)
                 then with_marked false n (with_participants (set_waiting true true <$> participants c) (bridge c) c) else c in
        (c, user, (n =? 0) && end_when_marked_leaves (settings c))
      else (c, user, false)
  | None => (c, user, false)
  end.

(** The second, when it is. *)
Definition kick_end_marked (c : Conference) : Conference :=
  let to_kick := (filter (λ ku, is_admin ku.2 = false) (hash_iter (participants c))).*1 in
  foldl (λ c id, drop_participant id c) c to_kick.

Definition leave_conference (o : nat) (id name : str) (w : ConfWorld) : ConfWorld :=
  match objects w !! o with
  | None => w
  | Some c =>
      let '(c1, user, end_marked) := leave_participant id c in
      let remaining := size (participants c1) in
      let w := match user with
               | Some u => emit_events [ConfbridgeLeave name (cu_channel_name u) (is_admin u) (is_marked u)] w
               | None => w end in
      let c2 := if end_marked then kick_end_marked c1 else c1 in
      let should_destroy := (remaining =? 0)%nat || (end_marked && (size (participants c2) =? 0)%nat) in
      let w := put_object o c2 w in
      let w := match user, get_mixer name (mixers w) with
               | Some u, Some m => with_conferences (conferences w) (<[name := mixer_remove (cu_channel_name u) m]> (mixers w)) w
               | _, _ => w end in
      if should_destroy
      then emit_events [ConfbridgeEnd name] (with_conferences (delete name (conferences w)) (shutdown_mixer name (mixers w)) w)
      else w
  end.

(** What the application says to the dialplan. *)
Definition conf_finish (r : ConfBridgeResult) (channel : Channel) : PbxExecResult * Channel :=
  (match r with CbHangup => ExecHangup | CbFailed => ExecFailed | _ => ExecSuccess end,
   set_variables channel (<[lit "CONFBRIDGE_RESULT" := conf_result_as_str r]> (variables channel))).

(** ** Administration *)

Definition on_conference {A} (name : str) (f : nat → Conference → option A * ConfWorld) (w : ConfWorld) : option A * ConfWorld :=
  match conferences w !! name with
  | Some o => match objects w !! o with Some c => f o c | None => (None, w) end
  | None => (None, w)
  end.

(** An operation on one participant: its new state, an answer and events. *)
Definition on_user {A} (name id : str) (f : ConferenceUser → ConferenceUser * A * list ConfBridgeEvent) (w : ConfWorld)
    : option A * ConfWorld :=
  on_conference name (λ o c,
    match participants c !! id with
    | Some u =>
        let '(u', a, es) := f u in
        (Some a, emit_events es (put_object o (with_participants (<[id := u']> (participants c)) (bridge c) c) w))
    | None => (None, w)
    end) w.

Definition mute_user (name id : str) : ConfWorld → option unit * ConfWorld :=
  on_user name id (λ u, (set_muted true u, tt, [ConfbridgeMute name (cu_channel_name u)])).
Definition unmute_user (name id : str) : ConfWorld → option unit * ConfWorld :=
  on_user name id (λ u, (set_muted false u, tt, [ConfbridgeUnmute name (cu_channel_name u)])).
Definition toggle_mute (name id : str) : ConfWorld → option bool * ConfWorld :=
  on_user name id (λ u,
    let m := negb (muted u) in
    (set_muted m u, m, [if m then ConfbridgeMute name (cu_channel_name u) else ConfbridgeUnmute name (cu_channel_name u)])).
Definition toggle_deaf (name id : str) : ConfWorld → option bool * ConfWorld :=
  on_user name id (λ u, (set_deaf (negb (deaf u)) u, negb (deaf u), [])).
Definition adjust_volume (name id : str) (delta : Z) : ConfWorld → option Z * ConfWorld :=
  on_user name id (λ u,
    let v := Z.max (-4) (Z.min 4 (wrap_i32 (volume_adjustment u + delta))) in (set_volume v u, v, [])).

(** A participant is taken out. *)
Definition kick_participant (name id : str) (c : Conference) : Conference * list ConfBridgeEvent * bool :=
  match participants c !! id with
  | Some u =>
      let c := drop_participant id c in
      (with_marked (conf_active c) (if is_marked u then saturating_pred (marked_count c) else marked_count c) c,
       [ConfbridgeLeave name (cu_channel_name u) (is_admin u) (is_marked u)], true)
  | None => (c, [], false)
  end.

Definition kick_user (name id : str) (w : ConfWorld) : bool * ConfWorld :=
  let '(r, w) := on_conference name (λ o c,
    let '(c', es, kicked) := kick_participant name id c in
    if kicked : bool then (Some tt, emit_events es (put_object o (refresh_last id c') w)) else (None, w)) w in
  (bool_decide (is_Some r), w).

Fixpoint kick_each (name : str) (ids : list str) (c : Conference) : Conference * list ConfBridgeEvent * nat :=
  match ids with
  | [] => (c, [], O)
  | id :: ids' =>
      let '(c, es, kicked) := kick_participant name id c in
      let '(c, es', n) := kick_each name ids' c in (c, es ++ es', if kicked : bool then S n else n)
  end.

Definition kick_all_participants (name : str) (w : ConfWorld) : nat * ConfWorld :=
  let '(r, w) := on_conference name (λ o c,
    let to_kick := (filter (λ ku, is_admin ku.2 = false) (hash_iter (participants c))).*1 in
    let '(c', es, n) := kick_each name to_kick c in
    (Some n, emit_events es (put_object o c' w))) w in
  (default O r, w).

Definition kick_last (name : str) (w : ConfWorld) : bool * ConfWorld :=
  let last_id := (on_conference name (λ o c,
    (id ← last_joined c; if decide (is_Some (participants c !! id)) then Some id else None, w)) w).1 in
  match last_id with
  | Some id =>
      let '(r, w) := kick_user name id w in
      (r, if r : bool
          then (on_conference name (λ o c, (Some tt, put_object o (with_last_joined (newest (participants c)) c) w)) w).2 else w)
  | None => (false, w)
  end.

Definition toggle_mute_participants (name : str) (w : ConfWorld) : option bool * ConfWorld :=
  on_conference name (λ o c,
    let m := negb (all_muted c) in
    (Some m, put_object o (with_participants ((λ u, if is_admin u then u else set_muted m u) <$> participants c) (bridge c)
                             (with_all_muted m c)) w)) w.

Definition set_lock (name : str) (l : Conference → bool) (w : ConfWorld) : option bool * ConfWorld :=
  on_conference name (λ o c, (Some (l c), put_object o (with_locked (l c) c) w)) w.
Definition lock_conference (name : str) : ConfWorld → option bool * ConfWorld := set_lock name (λ _, true).
Definition unlock_conference (name : str) : ConfWorld → option bool * ConfWorld := set_lock name (λ _, false).
Definition toggle_lock (name : str) : ConfWorld → option bool * ConfWorld := set_lock name (λ c, negb (locked c)).

Definition start_recording (name : str) (w : ConfWorld) : bool * ConfWorld :=
  let '(r, w) := on_conference name (λ o c, if recording c then (None, w) else (Some tt, put_object o (with_recording true c) w)) w in
  (bool_decide (is_Some r), w).
Definition stop_recording (name : str) (w : ConfWorld) : bool * ConfWorld :=
  let '(r, w) := on_conference name (λ o c, if recording c then (Some tt, put_object o (with_recording false c) w) else (None, w)) w in
  (bool_decide (is_Some r), w).

Definition execute_menu_action (name id : str) (a : MenuAction) (w : ConfWorld) : bool * ConfWorld :=
  let some {A} (r : option A * ConfWorld) := (bool_decide (is_Some r.1), r.2) in
  match a with
  | ToggleMute => some (toggle_mute name id w)
  | ToggleDeaf => some (toggle_deaf name id w)
  | IncreaseVolume => some (adjust_volume name id 1 w)
  | DecreaseVolume => some (adjust_volume name id (-1) w)
  | AdminKickLast => kick_last name w
  | AdminToggleLock => some (toggle_lock name w)
  | AdminToggleMuteParticipants => some (toggle_mute_participants name w)
  | AdminKickAll => let '(n, w) := kick_all_participants name w in ((0 <? n)%nat, w)
  | LeaveConference | NoOp | SetAsSingleVideoSrc | ReleaseAsSingleVideoSrc | Playback _ | Dial _ => (true, w)
  end.

(** ** What the mixer and the others are told *)

(** Waiting users are not heard; several users with one channel name are one. *)
Definition conference_participant_flags (name : str) (w : ConfWorld) : option (gmap str (bool * bool)) :=
  o ← conferences w !! name;
  c ← objects w !! o;
  Some (foldl (λ m u, <[cu_channel_name u := (muted u || waiting u, deaf u)]> m) ∅ (hash_values (participants c))).

Definition conference_tick (name : str) (w : ConfWorld) : list (str * str * Frame) * ConfWorld :=
  match mixers w !! name with
  | Some m =>
      if cm_running m then
        let '(out, m) := mix_tick (conference_participant_flags name w) m in
        (out, with_conferences (conferences w) (<[name := m]> (mixers w)) w)
      else ([], w)
  | None => ([], w)
  end.

(** [send_sfu_reinvites]: the offers, one for each participant with others to see. *)
Definition sfu_reinvites (local_sdp : str → option SessionDescription) (local_addr : str → option str)
    (departed : option str) (departed_streams : list VideoStreamInfo) (c : Conference) : list (str * SessionDescription) :=
  omap (λ u,
    call_id ← sip_call_id u;
    sdp ← local_sdp call_id;
    let others := (hash_values (participants c) ≫= λ v,
                     if str_eqb (cu_channel_id v) (cu_channel_id u) then [] else (λ s, (s, false)) <$> video_streams v)
                  ++ match departed with
                     | Some d => if str_eqb (cu_channel_id u) d then [] else (λ s, (s, true)) <$> departed_streams
                     | None => [] end in
    match others with
    | [] => None
    | _ => Some (call_id, build_sfu_sdp sdp others (default (lit "127.0.0.1") (local_addr call_id)))
    end) (hash_values (participants c)).
End conference.

(** ** Calls, administrators and time *)

Inductive call_stage := CallEntered | CallChecked | CallInside.
#[export] Instance call_stage_eq_dec : EqDecision call_stage.
Proof. solve_decision. Defined.

(** A call that is in the application: the object it holds and what it knows. *)
Record ConfCall := { call_object : nat; call_conf : str; call_user : ConferenceUser; stage : call_stage }.
Definition with_stage (x : call_stage) (k : ConfCall) : ConfCall :=
  {| call_object := call_object k; call_conf := call_conf k; call_user := call_user k; stage := x |}.

Inductive conf_input :=
  | CEnter (id : str) (now : Z) (sdp_of : str → option SessionDescription) (channel : Channel) (args : str)
  | CCheck (call : str)
  | CAdd (call : str)
  | CHangup (call : str)
  | CMute (name id : str) | CUnmute (name id : str)
  | CMenu (name id : str) (a : MenuAction)
  | CVolume (name id : str) (delta : Z)
  | CKick (name id : str) | CKickAll (name : str) | CKickLast (name : str)
  | CLock (name : str) | CUnlock (name : str)
  | CRecord (name : str) | CStopRecord (name : str)
  | CIngest (name leg : str) (codec_id : Z) (payload : list Z)
  | CTick (name : str)
  | CUserProfile (p : UserProfile) | CBridgeProfile (p : BridgeProfile) | CMenuProfile (m : ConfMenu).

Section machine.
Context `{UnicodeCase} {HO : HashOrder}.
Context (registered : str → bool) (audio_format : str → str → option Z).

(** The rest of [join_conference]: the user is in, the leg on the mixer. *)
Definition conf_add (k : ConfCall) (w : ConfWorld) : ConfWorld :=
  match objects w !! call_object k with
  | None => w
  | Some c =>
      let u := call_user k in
      let w := emit_events [ConfbridgeJoin (conf_name c) (cu_channel_name u) (is_admin u) (is_marked u)]
                 (put_object (call_object k) (add_user u c) w) in
      let '(m, ms) := get_or_create_mixer (conf_name c) (mixers w) in
      with_conferences (conferences w) (<[conf_name c := add_participant registered audio_format (cu_channel_name u) m]> ms) w
  end.

Definition on_mixer (name : str) (f : ConferenceMixer → ConferenceMixer) (w : ConfWorld) : ConfWorld :=
  with_conferences (conferences w) (alter f name (mixers w)) w.

Definition conf_step (x : conf_input) (st : ConfWorld * gmap str ConfCall) : ConfWorld * gmap str ConfCall :=
  let '(w, calls) := st in
  match x with
  | CEnter id now sdp_of channel args =>
      match calls !! unique_id channel with
      | Some _ => st
      | None =>
          match conf_enter id now sdp_of channel args w with
          | (Some (o, name, u), w) =>
              (w, <[unique_id channel := {| call_object := o; call_conf := name; call_user := u; stage := CallEntered |}]> calls)
          | (None, w) => (w, calls)
          end
      end
  | CCheck id =>
      match calls !! id with
      | Some k =>
          match objects w !! call_object k with
          | Some c =>
              if bool_decide (stage k = CallEntered) then
                if may_join (call_user k) c then (w, <[id := with_stage CallChecked k]> calls)
                else (leave_conference (call_object k) id (call_conf k) w, delete id calls)
              else st
          | None => st
          end
      | None => st
      end
  | CAdd id =>
      match calls !! id with
      | Some k => if bool_decide (stage k = CallChecked) then (conf_add k w, <[id := with_stage CallInside k]> calls) else st
      | None => st
      end
  | CHangup id =>
      match calls !! id with
      | Some k => if bool_decide (stage k = CallInside) then (leave_conference (call_object k) id (call_conf k) w, delete id calls) else st
      | None => st
      end
  | CMute name id => ((mute_user name id w).2, calls)
  | CUnmute name id => ((unmute_user name id w).2, calls)
  | CMenu name id a => ((execute_menu_action name id a w).2, calls)
  | CVolume name id delta => ((adjust_volume name id delta w).2, calls)
  | CKick name id => ((kick_user name id w).2, calls)
  | CKickAll name => ((kick_all_participants name w).2, calls)
  | CKickLast name => ((kick_last name w).2, calls)
  | CLock name => ((lock_conference name w).2, calls)
  | CUnlock name => ((unlock_conference name w).2, calls)
  | CRecord name => ((start_recording name w).2, calls)
  | CStopRecord name => ((stop_recording name w).2, calls)
  | CIngest name leg codec_id payload => (on_mixer name (ingest leg codec_id payload) w, calls)
  | CTick name => ((conference_tick name w).2, calls)
  | CUserProfile p => (register_user_profile p w, calls)
  | CBridgeProfile p => (register_bridge_profile p w, calls)
  | CMenuProfile m => (register_menu m w, calls)
  end.

Fixpoint conf_run (xs : list conf_input) (st : ConfWorld * gmap str ConfCall) : ConfWorld * gmap str ConfCall :=
  match xs with
  | [] => st
  | x :: xs' => conf_run xs' (conf_step x st)
  end.
End machine.

(** ** A conference is consistent *)

Definition marked_in (ps : gmap str ConferenceUser) : nat := size (filter (λ ku, is_marked ku.2 = true) ps).

(** The users are filed under their channels, the marked ones are counted, the bridge has
    the same members, and nobody waits while a marked user is there. *)
Record conf_ok (c : Conference) : Prop := {
  ok_filed : ∀ id u, participants c !! id = Some u → cu_channel_id u = id;
  ok_marked : marked_count c = Z.of_nat (marked_in (participants c));
  ok_bridge : ∀ id, has_channel (bridge c) id = true ↔ is_Some (participants c !! id);
  ok_waiting : ∀ id u, participants c !! id = Some u → waiting u = true → marked_count c = 0 ∧ wait_for_marked (settings c) = true;
}.

Lemma has_channel_add id name b x : has_channel (add_channel id name b) x = has_channel b x || str_eqb id x.
Proof.
  unfold add_channel. destruct (has_channel b id) eqn:E.
  - destruct (str_eqb_spec id x) as [->|]; [by rewrite E|by rewrite orb_false_r].
  - unfold has_channel. cbn [set_members members]. rewrite existsb_app. cbn [existsb]. by rewrite orb_false_r.
Qed.

Lemma has_channel_remove id b x : has_channel (remove_channel id b).1 x = has_channel b x && negb (str_eqb id x).
Proof.
  unfold has_channel. rewrite (proj1 (remove_channel_spec id b)). induction (members b) as [|bc l IH]; [done|].
  rewrite filter_cons. cbn [existsb]. destruct (str_eqb_spec (channel_id bc) id) as [E|Hne]; cbn [negb].
  - rewrite decide_False by done. rewrite IH, E. destruct (str_eqb id x); cbn; [by rewrite !andb_false_r|done].
  - rewrite decide_True by done. cbn [existsb]. rewrite IH. destruct (str_eqb_spec (channel_id bc) x) as [<-|]; [|done].
    cbn. destruct (str_eqb_spec id (channel_id bc)); [congruence|done].
Qed.

(** The counting of marked users. *)
Lemma marked_insert_new id u ps : ps !! id = None → marked_in (<[id := u]> ps) = ((if is_marked u then 1 else 0) + marked_in ps)%nat.
Proof.
  intros Hn. unfold marked_in. rewrite map_filter_insert. cbn [snd]. destruct (is_marked u) eqn:E.
  - rewrite decide_True by done. rewrite map_size_insert_None by (apply map_lookup_filter_None; by left). lia.
  - rewrite decide_False by done. by rewrite delete_id.
Qed.

Lemma marked_delete id u ps : ps !! id = Some u → marked_in ps = ((if is_marked u then 1 else 0) + marked_in (delete id ps))%nat.
Proof. intros Hu. rewrite <-(insert_delete_id ps id u Hu) at 1. apply marked_insert_new, lookup_delete_eq. Qed.

Lemma marked_update id u u' ps : ps !! id = Some u → is_marked u' = is_marked u → marked_in (<[id := u']> ps) = marked_in ps.
Proof.
  intros Hu E. rewrite <-(insert_delete_eq ps id u'), (marked_delete id u ps Hu), marked_insert_new by apply lookup_delete_eq. by rewrite E.
Qed.

Lemma marked_fmap f ps : (∀ u, is_marked (f u) = is_marked u) → marked_in (f <$> ps) = marked_in ps.
Proof.
  intros Hf. induction ps as [|id u ps Hn IH] using map_ind; [done|].
  rewrite fmap_insert, !marked_insert_new by (rewrite ?lookup_fmap, Hn; done). by rewrite IH, Hf.
Qed.

Lemma marked_none ps id u : marked_in ps = 0%nat → ps !! id = Some u → is_marked u = false.
Proof. intros Hm Hu. rewrite (marked_delete id u ps Hu) in Hm. by destruct (is_marked u). Qed.

(** What an operation may do to a conference in which calls are: it stays consistent,
    keeps its name and lets nobody in. *)
Record conf_sub (c c' : Conference) : Prop := {
  sub_ok : conf_ok c';
  sub_name : conf_name c' = conf_name c;
  sub_in : ∀ id, is_Some (participants c' !! id) → is_Some (participants c !! id);
}.

Lemma conf_sub_refl c : conf_ok c → conf_sub c c.
Proof. by split. Qed.
Lemma conf_sub_trans c c1 c2 : conf_sub c c1 → conf_sub c1 c2 → conf_sub c c2.
Proof. intros [_ N1 I1] [O2 N2 I2]. split; [done|congruence|eauto]. Qed.

(** Users are changed where they are. *)
Lemma conf_sub_update c id u u' : conf_ok c → participants c !! id = Some u →
  cu_channel_id u' = cu_channel_id u → is_marked u' = is_marked u → waiting u' = waiting u →
  conf_sub c (with_participants (<[id := u']> (participants c)) (bridge c) c).
Proof.
  intros [O1 O2 O3 O4] Hu Ei Em Ew. split; [split; cbn [with_participants participants marked_count bridge settings]|done|].
  - intros k v [[<- <-]|[_ Hv]]%lookup_insert_Some; [rewrite Ei; by apply O1|by apply O1].
  - by rewrite (marked_update id u).
  - intros k. rewrite O3, lookup_insert_is_Some. destruct (decide (id = k)) as [->|]; [rewrite Hu|]; naive_solver.
  - intros k v [[<- <-]|[_ Hv]]%lookup_insert_Some; [rewrite Ew|]; eauto.
  - intros k. cbn. rewrite lookup_insert_is_Some. intros [<-|[_ ?]]; [by eexists|done].
Qed.

Lemma conf_sub_fmap c f : conf_ok c → (∀ u, cu_channel_id (f u) = cu_channel_id u) → (∀ u, is_marked (f u) = is_marked u) →
  (∀ u, waiting (f u) = true → waiting u = true ∨ marked_count c = 0 ∧ wait_for_marked (settings c) = true) →
  conf_sub c (with_participants (f <$> participants c) (bridge c) c).
Proof.
  intros [O1 O2 O3 O4] Ei Em Ew. split; [split; cbn [with_participants participants marked_count bridge settings]|done|].
  - intros k v Hv. rewrite lookup_fmap in Hv. apply fmap_Some in Hv as (u & Hu & ->). rewrite Ei. eauto.
  - by rewrite marked_fmap.
  - intros k. by rewrite O3, lookup_fmap, fmap_is_Some.
  - intros k v Hv Hw. rewrite lookup_fmap in Hv. apply fmap_Some in Hv as (u & Hu & ->). destruct (Ew u Hw); eauto.
  - intros k. cbn. by rewrite lookup_fmap, fmap_is_Some.
Qed.

(** A participant is taken out, and counted out. *)
Definition counted (o : option ConferenceUser) (n : Z) : Z := match o with Some u => if is_marked u then saturating_pred n else n | None => n end.

Lemma conf_sub_drop c id : conf_ok c →
  conf_sub c (with_marked (conf_active c) (counted (participants c !! id) (marked_count c)) (drop_participant id c)).
Proof.
  intros [O1 O2 O3 O4]. split; [split; cbn [with_marked drop_participant with_participants participants marked_count bridge settings]|done|].
  - intros k v [_ Hv]%lookup_delete_Some. eauto.
  - rewrite O2. destruct (participants c !! id) as [u|] eqn:Eu; cbn [counted]; [|by rewrite delete_id].
    rewrite (marked_delete id u _ Eu). unfold saturating_pred. destruct (is_marked u); lia.
  - intros k. rewrite has_channel_remove, andb_true_iff, negb_true_iff, str_eqb_false, O3, lookup_delete_is_Some. tauto.
  - intros k v [Hne Hv]%lookup_delete_Some Hw. destruct (O4 k v Hv Hw) as [E W]. split; [|done]. rewrite E.
    destruct (participants c !! id) as [u|]; [|done]. cbn. by destruct (is_marked u).
  - intros k. cbn. rewrite lookup_delete_is_Some. tauto.
Qed.

Lemma with_marked_id c : with_marked (conf_active c) (marked_count c) c = c.
Proof. by destruct c. Qed.

Lemma conf_sub_same c c' : conf_ok c → conf_name c' = conf_name c → participants c' = participants c → bridge c' = bridge c →
  marked_count c' = marked_count c → wait_for_marked (settings c') = wait_for_marked (settings c) → conf_sub c c'.
Proof.
  intros [O1 O2 O3 O4] En Ep Eb Em Es. split; [split|done|by rewrite Ep]; rewrite ?Ep, ?Eb, ?Em, ?Es; done.
Qed.

Section consistent.
Context `{UnicodeCase} {HO : HashOrder}.

Lemma conf_sub_refresh c id : conf_ok c → conf_sub c (refresh_last id c).
Proof. intros Hc. unfold refresh_last. destruct (bool_decide _); [by apply conf_sub_same|by apply conf_sub_refl]. Qed.

Lemma set_voice_keeps m d w v u :
  cu_channel_id (set_voice m d w v u) = cu_channel_id u ∧ is_marked (set_voice m d w v u) = is_marked u ∧ waiting (set_voice m d w v u) = w.
Proof. by destruct u. Qed.

(** A participant that is no marked user, or none at all, is dropped. *)
Lemma conf_sub_drop_unmarked c id : conf_ok c → from_option is_marked false (participants c !! id) = false → conf_sub c (drop_participant id c).
Proof.
  intros Hc Hm. pose proof (conf_sub_drop c id Hc) as H1. assert (counted (participants c !! id) (marked_count c) = marked_count c) as E.
  { destruct (participants c !! id) as [u|]; [|done]. cbn in *. by rewrite Hm. }
  rewrite E in H1. exact H1.
Qed.

(** Everybody waits again. *)
Lemma conf_sub_wait c : conf_ok c → marked_count c = 0 → wait_for_marked (settings c) = true →
  conf_sub c (with_marked false (marked_count c) (with_participants (set_waiting true true <$> participants c) (bridge c) c)).
Proof.
  intros Hc Hm Hw.
  assert (conf_sub c (with_participants (set_waiting true true <$> participants c) (bridge c) c)) as H1.
  { apply conf_sub_fmap; [done|intros v; apply set_voice_keeps|intros v; apply set_voice_keeps|by right]. }
  eapply conf_sub_trans; [exact H1|]. apply conf_sub_same; [apply H1|done..].
Qed.

Lemma leave_participant_sub id c : conf_ok c →
  let '(c', user, ended) := leave_participant id c in
  conf_sub c c' ∧ participants c' !! id = None ∧ user = participants c !! id ∧ (ended = true → marked_count c' = 0).
Proof.
  intros Hc. unfold leave_participant. destruct (participants c !! id) as [u|] eqn:Eu.
  - pose proof (conf_sub_drop c id Hc) as Hd. rewrite Eu in Hd. cbn [counted] in Hd.
    destruct (is_marked u) eqn:Em.
    + set (c1 := refresh_last id (drop_participant id c)).
      assert (marked_count c1 = marked_count c) as Ec by (unfold c1, refresh_last; by destruct (bool_decide _)).
      set (n := saturating_pred (marked_count c1)). set (c2 := with_marked (conf_active c1) n c1).
      assert (conf_sub c c2) as H2.
      { eapply conf_sub_trans; [exact Hd|]. unfold c2, n. rewrite Ec. unfold c1, refresh_last.
        destruct (bool_decide _); apply conf_sub_same; try done; apply Hd. }
      assert (participants c2 !! id = None) as Hn by (unfold c2, c1, refresh_last; destruct (bool_decide _); apply lookup_delete_eq).
      assert (marked_count c2 = n) as E2 by done.
      destruct (Z.eqb_spec n 0) as [E0|]; cbn [andb]; [|split_and!; [done|done|done|done]].
      change (settings c2) with (settings c1). destruct (wait_for_marked (settings c1)) eqn:Ew.
      * split_and!; [|by change ((set_waiting true true <$> participants c2) !! id = None); rewrite lookup_fmap, Hn|done|done].
        eapply conf_sub_trans; [exact H2|]. rewrite <-E2. apply conf_sub_wait; [apply H2|by rewrite E2|exact Ew].
      * split_and!; [done|done|done|by rewrite E2].
    + split_and!; [|unfold refresh_last; destruct (bool_decide _); apply lookup_delete_eq|done|done].
      eapply conf_sub_trans; [apply (conf_sub_drop_unmarked c id Hc); by rewrite Eu|]. apply conf_sub_refresh.
      apply (conf_sub_drop_unmarked c id Hc). by rewrite Eu.
  - split_and!; [|unfold refresh_last; destruct (bool_decide _); apply lookup_delete_eq|done|done].
    eapply conf_sub_trans; [apply (conf_sub_drop_unmarked c id Hc); by rewrite Eu|]. apply conf_sub_refresh.
    apply (conf_sub_drop_unmarked c id Hc). by rewrite Eu.
Qed.

Lemma kick_participant_sub name id c : conf_ok c → conf_sub c (kick_participant name id c).1.1.
Proof.
  intros Hc. unfold kick_participant. pose proof (conf_sub_drop c id Hc) as Hd.
  destruct (participants c !! id) as [u|]; [|by apply conf_sub_refl]. cbn [fst counted] in *. exact Hd.
Qed.

Lemma kick_each_sub name ids c : conf_ok c → conf_sub c (kick_each name ids c).1.1.
Proof.
  revert c. induction ids as [|id ids IH]; intros c Hc; [by apply conf_sub_refl|]. cbn [kick_each].
  pose proof (kick_participant_sub name id c Hc) as H1. destruct (kick_participant name id c) as [[c1 es] kicked]. cbn [fst] in H1.
  pose proof (IH c1 (sub_ok _ _ H1)) as H2. destruct (kick_each name ids c1) as [[c2 es2] n]. cbn [fst] in *.
  by eapply conf_sub_trans.
Qed.

Lemma kick_end_marked_sub c : conf_ok c → marked_count c = 0 → conf_sub c (kick_end_marked c).
Proof.
  intros Hc Hm. unfold kick_end_marked. generalize ((filter (λ ku, is_admin ku.2 = false) (hash_iter (participants c))).*1).
  intros ids. revert c Hc Hm. induction ids as [|id ids IH]; intros c Hc Hm; [by apply conf_sub_refl|]. cbn [foldl].
  assert (conf_sub c (drop_participant id c)) as H1.
  { apply conf_sub_drop_unmarked; [done|]. destruct (participants c !! id) as [u|] eqn:Eu; [|done]. cbn.
    eapply marked_none; [|exact Eu]. pose proof (ok_marked _ Hc). lia. }
  eapply conf_sub_trans; [exact H1|]. apply IH; [apply H1|done].
Qed.

Lemma arriving_keeps u c : waiting u = false →
  cu_channel_id (arriving u c) = cu_channel_id u ∧ is_marked (arriving u c) = is_marked u ∧ waiting (arriving u c) = waits_for_marked u c.
Proof.
  intros Hw. unfold arriving. set (u1 := if waits_for_marked u c then set_waiting true true u else u).
  assert (cu_channel_id u1 = cu_channel_id u ∧ is_marked u1 = is_marked u ∧ waiting u1 = waits_for_marked u c) as (<- & <- & <-).
  { unfold u1. destruct (waits_for_marked u c); [|done]. apply set_voice_keeps. }
  clearbody u1. destruct (all_muted c && negb (is_admin u)); [|done]. apply set_voice_keeps.
Qed.

(** A user that is new comes in. *)
Lemma add_user_ok u c : conf_ok c → participants c !! cu_channel_id u = None → waiting u = false →
  conf_ok (add_user u c) ∧ conf_name (add_user u c) = conf_name c
  ∧ ∀ id, is_Some (participants (add_user u c) !! id) ↔ id = cu_channel_id u ∨ is_Some (participants c !! id).
Proof.
  intros [O1 O2 O3 O4] Hn Hw. unfold add_user. set (id := cu_channel_id u) in *.
  destruct (arriving_keeps u c Hw) as (E1 & E2 & E3). fold id in E1. set (u2 := arriving u c) in *. clearbody u2.
  set (c1 := with_last_joined (Some id) (with_participants (<[id := u2]> (participants c)) (add_channel id (cu_channel_name u) (bridge c)) c)).
  assert (participants c1 = <[id := u2]> (participants c)) as Ep by done.
  assert (∀ k, is_Some (participants c1 !! k) ↔ k = id ∨ is_Some (participants c !! k)) as Hin.
  { intros k. rewrite Ep, lookup_insert_is_Some. destruct (decide (id = k)) as [->|]; naive_solver. }
  assert (∀ k, has_channel (bridge c1) k = true ↔ is_Some (participants c1 !! k)) as Hb.
  { intros k. rewrite Hin. unfold c1. cbn [with_last_joined with_participants bridge]. rewrite has_channel_add, orb_true_iff, str_eqb_true, O3. naive_solver. }
  assert (∀ k v, participants c1 !! k = Some v → cu_channel_id v = k) as Hf.
  { intros k v. rewrite Ep. intros [[<- <-]|[_ Hv]]%lookup_insert_Some; eauto. }
  assert (marked_in (participants c1) = ((if is_marked u then 1 else 0) + marked_in (participants c))%nat) as Hm.
  { rewrite Ep, marked_insert_new, E2 by done. done. }
  destruct (is_marked u) eqn:Em.
  - assert (waits_for_marked u c = false) as Ewf by (unfold waits_for_marked; by rewrite Em, andb_false_r). rewrite Ewf in E3. set (n := marked_count c1 + 1).
    assert (n = Z.of_nat (marked_in (participants c1))) as En by (unfold n; change (marked_count c1) with (marked_count c); lia).
    destruct (Z.eqb_spec n 1) as [E0|E0]; cbn [andb]; [destruct (wait_for_marked (settings c1)) eqn:Ew|].
    + assert (∀ v, cu_channel_id (release_waiting v) = cu_channel_id v ∧ is_marked (release_waiting v) = is_marked v ∧ waiting (release_waiting v) = false) as Hr.
      { intros v. unfold release_waiting. destruct (waiting v) eqn:Ev; [apply set_voice_keeps|done]. }
      split_and!; [split; cbn [with_marked with_participants participants marked_count bridge settings]| done |].
      * intros k v Hv. rewrite lookup_fmap in Hv. apply fmap_Some in Hv as (v0 & Hv0 & ->). rewrite (proj1 (Hr v0)). eauto.
      * rewrite marked_fmap; [done|]. intros v. apply Hr.
      * intros k. by rewrite Hb, lookup_fmap, fmap_is_Some.
      * intros k v Hv Hwv. rewrite lookup_fmap in Hv. apply fmap_Some in Hv as (v0 & Hv0 & ->). by rewrite (proj2 (proj2 (Hr v0))) in Hwv.
      * intros k. cbn. by rewrite lookup_fmap, fmap_is_Some.
    + split_and!; [split; cbn [with_marked participants marked_count bridge settings]; try done|done|done].
      intros k v Hv Hwv. rewrite Ep in Hv. apply lookup_insert_Some in Hv as [[<- <-]|[_ Hv]]; [congruence|].
      destruct (O4 k v Hv Hwv) as [_ E]. change (wait_for_marked (settings c) = false) in Ew. congruence.
    + split_and!; [split; cbn [with_marked participants marked_count bridge settings]; try done|done|done].
      intros k v Hv Hwv. rewrite Ep in Hv. apply lookup_insert_Some in Hv as [[<- <-]|[_ Hv]]; [congruence|].
      destruct (O4 k v Hv Hwv) as [E _]. exfalso. apply E0. unfold n. change (marked_count c1) with (marked_count c). lia.
  - split_and!; [split; try done|done|done].
    + rewrite Hm. exact O2.
    + intros k v Hv Hwv. rewrite Ep in Hv. apply lookup_insert_Some in Hv as [[<- <-]|[_ Hv]]; [|eauto].
      rewrite E3 in Hwv. unfold waits_for_marked in Hwv. apply andb_true_iff in Hwv as [[Hw1 Hw2%Z.eqb_eq]%andb_true_iff _]. done.
Qed.
End consistent.

(** ** The world is consistent *)

Definition objects_ok (w : ConfWorld) : Prop := ∀ o c, objects w !! o = Some c → conf_ok c.

(** Steps that neither make nor end a conference and let nobody in. *)
Record quiet (w w' : ConfWorld) : Prop := {
  quiet_conferences : conferences w' = conferences w;
  quiet_next : next_object w' = next_object w;
  quiet_mixers : ∀ name, is_Some (mixers w' !! name) → is_Some (mixers w !! name);
  quiet_objects : ∀ o, match objects w !! o, objects w' !! o with
                       | Some c, Some c' => conf_sub c c'
                       | None, None => True
                       | _, _ => False end;
}.

Lemma quiet_refl w : objects_ok w → quiet w w.
Proof. intros Hw. split; try done. intros o. destruct (objects w !! o) as [c|] eqn:E; [|done]. by apply conf_sub_refl, (Hw o). Qed.

Lemma quiet_objects_ok w w' : quiet w w' → objects_ok w'.
Proof. intros [_ _ _ Hq] o c Hc. specialize (Hq o). rewrite Hc in Hq. destruct (objects w !! o); [apply Hq|done]. Qed.

Lemma quiet_trans w w1 w2 : quiet w w1 → quiet w1 w2 → quiet w w2.
Proof.
  intros [A1 A2 A3 A4] [B1 B2 B3 B4]. split; [congruence|congruence|eauto|]. intros o. specialize (A4 o). specialize (B4 o).
  destruct (objects w !! o), (objects w1 !! o), (objects w2 !! o); try done. by eapply conf_sub_trans.
Qed.

Lemma quiet_put w o c c' : objects_ok w → objects w !! o = Some c → conf_sub c c' → quiet w (put_object o c' w).
Proof.
  intros Hw Hc Hs. split; try done. intros k. cbn. destruct (decide (k = o)) as [->|Hne]; [by rewrite Hc, lookup_insert_eq|].
  rewrite lookup_insert_ne by done. destruct (objects w !! k) as [c0|] eqn:E; [|done]. by apply conf_sub_refl, (Hw k).
Qed.

Lemma quiet_emit w w' es : quiet w w' → quiet w (emit_events es w').
Proof. intros [A1 A2 A3 A4]. by split. Qed.

Lemma quiet_on_conference {A} name (f : nat → Conference → option A * ConfWorld) w : objects_ok w →
  (∀ o c, objects w !! o = Some c → quiet w (f o c).2) → quiet w (on_conference name f w).2.
Proof.
  intros Hw Hf. unfold on_conference. destruct (conferences w !! name) as [o|]; [|by apply quiet_refl].
  destruct (objects w !! o) as [c|] eqn:E; [eauto|by apply quiet_refl].
Qed.

Lemma quiet_on_user {A} name id (f : ConferenceUser → ConferenceUser * A * list ConfBridgeEvent) w : objects_ok w →
  (∀ u, cu_channel_id (f u).1.1 = cu_channel_id u ∧ is_marked (f u).1.1 = is_marked u ∧ waiting (f u).1.1 = waiting u) →
  quiet w (on_user name id f w).2.
Proof.
  intros Hw Hf. apply quiet_on_conference; [done|]. intros o c Hc. destruct (participants c !! id) as [u|] eqn:Eu; [|by apply quiet_refl].
  specialize (Hf u). destruct (f u) as [[u' a] es]. destruct Hf as (F1 & F2 & F3). apply quiet_emit, (quiet_put w o c); [done|done|].
  apply (conf_sub_update c id u u'); [by apply (Hw o)|done..].
Qed.

Section quiet_steps.
Context `{UnicodeCase} {HO : HashOrder}.

Lemma kick_user_quiet name id w : objects_ok w → quiet w (kick_user name id w).2.
Proof.
  intros Hw. unfold kick_user.
  match goal with |- context [on_conference name ?f w] => pose proof (quiet_on_conference name f w Hw) as Hq; destruct (on_conference name f w) as [r w'] end.
  apply Hq. intros o c Hc. pose proof (kick_participant_sub name id c (Hw o c Hc)) as Hs.
  destruct (kick_participant name id c) as [[c' es] kicked]. cbn [fst] in Hs. destruct kicked; [|by apply quiet_refl].
  apply quiet_emit, (quiet_put w o c); [done|done|]. eapply conf_sub_trans; [exact Hs|]. apply conf_sub_refresh, Hs.
Qed.

Lemma kick_all_quiet name w : objects_ok w → quiet w (kick_all_participants name w).2.
Proof.
  intros Hw. unfold kick_all_participants.
  match goal with |- context [on_conference name ?f w] => pose proof (quiet_on_conference name f w Hw) as Hq; destruct (on_conference name f w) as [r w'] end.
  apply Hq. intros o c Hc. match goal with |- context [kick_each name ?ids c] => pose proof (kick_each_sub name ids c (Hw o c Hc)) as Hs; destruct (kick_each name ids c) as [[c' es] n] end.
  by apply quiet_emit, (quiet_put w o c).
Qed.

Lemma kick_last_quiet name w : objects_ok w → quiet w (kick_last name w).2.
Proof.
  intros Hw. unfold kick_last. destruct (on_conference name _ w).1 as [id|]; [|by apply quiet_refl].
  pose proof (kick_user_quiet name id w Hw) as Hk. destruct (kick_user name id w) as [[] w']; [|exact Hk]. cbn [snd] in Hk |- *.
  eapply quiet_trans; [exact Hk|]. pose proof (quiet_objects_ok w w' Hk) as Hw'. apply quiet_on_conference; [done|]. intros o c Hc.
  apply (quiet_put w' o c); [done|done|]. apply conf_sub_same; try done. by apply (Hw' o).
Qed.

Lemma toggle_mute_participants_quiet name w : objects_ok w → quiet w (toggle_mute_participants name w).2.
Proof.
  intros Hw. apply quiet_on_conference; [done|]. intros o c Hc. apply (quiet_put w o c); [done|done|].
  set (m := negb (all_muted c)). set (f u := if is_admin u then u else set_muted m u).
  assert (∀ u, cu_channel_id (f u) = cu_channel_id u ∧ is_marked (f u) = is_marked u ∧ waiting (f u) = waiting u) as Hf.
  { intros u. unfold f. destruct (is_admin u); [done|]. apply set_voice_keeps. }
  pose proof (conf_sub_fmap c f (Hw o c Hc)) as Hs. assert (conf_sub c (with_participants (f <$> participants c) (bridge c) c)) as H1.
  { apply Hs; intros u; [apply Hf|apply Hf|]. left. by rewrite (proj2 (proj2 (Hf u))) in *. }
  eapply conf_sub_trans; [exact H1|]. apply conf_sub_same; try done. apply H1.
Qed.

Lemma same_object_quiet {A} name (f : nat → Conference → option A * ConfWorld) w : objects_ok w →
  (∀ o c, (f o c).2 = w ∨ ∃ c', (f o c).2 = put_object o c' w ∧ conf_name c' = conf_name c ∧ participants c' = participants c
     ∧ bridge c' = bridge c ∧ marked_count c' = marked_count c ∧ settings c' = settings c) → quiet w (on_conference name f w).2.
Proof.
  intros Hw Hf. apply quiet_on_conference; [done|]. intros o c Hc. destruct (Hf o c) as [->|(c' & -> & E1 & E2 & E3 & E4 & E5)]; [by apply quiet_refl|].
  apply (quiet_put w o c); [done|done|]. apply conf_sub_same; try done; [by apply (Hw o)|by rewrite E5].
Qed.

Lemma menu_quiet name id a w : objects_ok w → quiet w (execute_menu_action name id a w).2.
Proof.
  intros Hw.
  destruct a; cbn [execute_menu_action snd]; try (by apply quiet_refl).
  - apply quiet_on_user; [done|]. intros u. apply set_voice_keeps.
  - apply quiet_on_user; [done|]. intros u. apply set_voice_keeps.
  - apply quiet_on_user; [done|]. intros u. apply set_voice_keeps.
  - apply quiet_on_user; [done|]. intros u. apply set_voice_keeps.
  - by apply kick_last_quiet.
  - apply same_object_quiet; [done|]. intros o c. right. by eexists.
  - by apply toggle_mute_participants_quiet.
  - pose proof (kick_all_quiet name w Hw) as Hk. by destruct (kick_all_participants name w).
Qed.
Lemma recording_quiet name w : objects_ok w → quiet w (start_recording name w).2 ∧ quiet w (stop_recording name w).2.
Proof.
  intros Hw. unfold start_recording, stop_recording. split.
  - match goal with |- context [on_conference name ?f w] => pose proof (same_object_quiet name f w Hw) as Hq; destruct (on_conference name f w) as [r w'] end.
    apply Hq. intros o c. destruct (recording c); [by left|]. right. by eexists.
  - match goal with |- context [on_conference name ?f w] => pose proof (same_object_quiet name f w Hw) as Hq; destruct (on_conference name f w) as [r w'] end.
    apply Hq. intros o c. destruct (recording c); [right; by eexists|by left].
Qed.

Lemma tick_quiet name w : objects_ok w → quiet w (conference_tick name w).2.
Proof.
  intros Hw. unfold conference_tick. destruct (mixers w !! name) as [m|] eqn:E; [|by apply quiet_refl].
  destruct (cm_running m); [|by apply quiet_refl]. destruct (mix_tick _ m) as [out m']. destruct (quiet_refl w Hw) as [A1 A2 A3 A4].
  split; try done. intros k. cbn. rewrite lookup_insert_is_Some. intros [<-|[_ ?]]; [by rewrite E|done].
Qed.
End quiet_steps.

(** ** Every reachable state *)

(** The conferences are consistent; one that is registered is held by a call that entered
    it under that name; every participant is a call that is inside; and a mixer runs only
    for such calls. *)
Record world_ok (w : ConfWorld) (calls : gmap str ConfCall) : Prop := {
  wo_objects : ∀ o c, objects w !! o = Some c → conf_ok c ∧ (o < next_object w)%nat;
  wo_registered : ∀ name o, conferences w !! name = Some o → ∃ id k, calls !! id = Some k ∧ call_object k = o ∧ call_conf k = name;
  wo_calls : ∀ id k, calls !! id = Some k →
    (∃ c, objects w !! call_object k = Some c ∧ conf_name c = call_conf k) ∧ cu_channel_id (call_user k) = id ∧ waiting (call_user k) = false;
  wo_inside : ∀ o c id, objects w !! o = Some c → is_Some (participants c !! id) →
    ∃ k, calls !! id = Some k ∧ call_object k = o ∧ stage k = CallInside;
  wo_mixers : ∀ name, is_Some (mixers w !! name) → ∃ id k, calls !! id = Some k ∧ call_conf k = name ∧ stage k = CallInside;
}.

Lemma world_quiet w w' calls : world_ok w calls → quiet w w' → world_ok w' calls.
Proof.
  intros [W1 W2 W3 W4 W5] [Q1 Q2 Q3 Q4]. split.
  - intros o c Hc. specialize (Q4 o). rewrite Hc in Q4. destruct (objects w !! o) as [c0|] eqn:E; [|done]. rewrite Q2. split; [apply Q4|]. by apply (W1 o c0).
  - rewrite Q1. exact W2.
  - intros id k Hk. destruct (W3 id k Hk) as ((c & Hc & Hn) & Hi & Hw). split; [|done]. specialize (Q4 (call_object k)). rewrite Hc in Q4.
    destruct (objects w' !! call_object k) as [c'|]; [|done]. exists c'. split; [done|]. by rewrite (sub_name _ _ Q4).
  - intros o c' id Hc Hid. specialize (Q4 o). rewrite Hc in Q4. destruct (objects w !! o) as [c|] eqn:E; [|done].
    eapply W4; [exact E|]. by apply (sub_in _ _ Q4).
  - eauto.
Qed.

Lemma world_objects_ok w calls : world_ok w calls → objects_ok w.
Proof. intros Hw o c Hc. by apply (wo_objects _ _ Hw o c). Qed.

Lemma world_new_ok : world_ok world_new ∅.
Proof. split; cbn [world_new objects conferences mixers]; intros *; rewrite ?lookup_empty, ?is_Some_alt; done. Qed.

Section reachable.
Context `{UnicodeCase} {HO : HashOrder}.
Context (registered : str → bool) (audio_format : str → str → option Z).

(** What leaving comes to: the object without the call, and its name and mixer gone when
    nobody is left in it. *)
Lemma leave_shape o id name w c : objects w !! o = Some c → conf_ok c →
  ∃ c2 (destroyed : bool), let w' := leave_conference o id name w in
    conf_sub c c2 ∧ participants c2 !! id = None ∧ (destroyed = false → ∃ id2, is_Some (participants c2 !! id2))
    ∧ objects w' = <[o := c2]> (objects w) ∧ next_object w' = next_object w
    ∧ conferences w' = (if destroyed then delete name (conferences w) else conferences w)
    ∧ ∀ n, is_Some (mixers w' !! n) → is_Some (mixers w !! n) ∧ (destroyed = true → n ≠ name).
Proof.
  intros Ho Hc. unfold leave_conference. rewrite Ho. pose proof (leave_participant_sub id c Hc) as Hl.
  destruct (leave_participant id c) as [[c1 user] ended]. destruct Hl as (H1 & Hn1 & -> & Hm). cbv zeta.
  set (c2 := if ended then kick_end_marked c1 else c1).
  assert (conf_sub c1 c2) as H2.
  { unfold c2. destruct ended; [apply kick_end_marked_sub; [apply H1|by apply Hm]|apply conf_sub_refl, H1]. }
  set (destroy := (size (participants c1) =? 0)%nat || ended && (size (participants c2) =? 0)%nat).
  assert (participants c2 !! id = None) as Hn2.
  { destruct (participants c2 !! id) eqn:E; [|done]. destruct (sub_in _ _ H2 id ltac:(by rewrite E)) as [x Hx]. congruence. }
  assert (destroy = false → ∃ id2, is_Some (participants c2 !! id2)) as Hne.
  { intros [Hd1%Nat.eqb_neq Hd2]%orb_false_iff. assert (participants c2 ≠ ∅) as Hne.
    { intros E. unfold c2 in E. destruct ended; cbn in *; [unfold c2 in Hd2; by rewrite E, map_size_empty in Hd2|by rewrite E, map_size_empty in Hd1]. }
    apply map_choose in Hne as (id2 & u & Hu). exists id2. by rewrite Hu. }
  clearbody c2 destroy. exists c2, destroy.
  match goal with |- context [put_object o c2 ?x] => set (w1 := x) end.
  assert (objects w1 = objects w ∧ next_object w1 = next_object w ∧ conferences w1 = conferences w ∧ mixers w1 = mixers w) as (E1 & E2 & E3 & E4)
    by (unfold w1; by destruct (participants c !! id)). clearbody w1.
  match goal with |- context [emit_events [ConfbridgeEnd name] (with_conferences _ (shutdown_mixer name (mixers ?x)) _)] => set (w2 := x) end.
  assert (objects w2 = <[o := c2]> (objects w) ∧ next_object w2 = next_object w ∧ conferences w2 = conferences w
    ∧ ∀ n, is_Some (mixers w2 !! n) → is_Some (mixers w !! n)) as (F1 & F2 & F3 & F4).
  { unfold w2. destruct (participants c !! id) as [u|]; cbn [put_object mixers]; unfold get_mixer; rewrite E4; [destruct (mixers w !! name) as [m|] eqn:Em|];
      cbn [put_object with_conferences objects next_object conferences mixers]; rewrite ?E1, ?E2, ?E3, ?E4; split_and!; try done.
    intros n. rewrite lookup_insert_is_Some. intros [<-|[_ ?]]; [by rewrite Em|done]. }
  clearbody w2. split_and!; [by eapply conf_sub_trans|done|done|..]; destruct destroy;
    cbn [emit_events with_conferences objects next_object conferences mixers]; rewrite ?F1, ?F2, ?F3; try done; intros n.
  - unfold shutdown_mixer. rewrite lookup_delete_is_Some. intros [Hne' Hs]. split; [by apply F4|]. intros _. congruence.
  - intros Hs. split; [by apply F4|done].
Qed.

Lemma world_leave w calls id k : world_ok w calls → calls !! id = Some k →
  world_ok (leave_conference (call_object k) id (call_conf k) w) (delete id calls).
Proof.
  intros [W1 W2 W3 W4 W5] Hk. destruct (W3 id k Hk) as ((c & Hc & Hname) & _ & _).
  destruct (leave_shape (call_object k) id (call_conf k) w c Hc (proj1 (W1 _ _ Hc)))
    as (c2 & destroyed & Hsub & Hn2 & Hne & E1 & E2 & E3 & E4). cbv zeta in *.
  set (w' := leave_conference _ id _ w) in *. clearbody w'.
  (** Whoever is still inside holds the same object under the same name. *)
  assert (destroyed = false → ∃ id2 k2, delete id calls !! id2 = Some k2 ∧ call_object k2 = call_object k ∧ call_conf k2 = call_conf k ∧ stage k2 = CallInside) as Hother.
  { intros Hd. destruct (Hne Hd) as [id2 Hid2]. destruct (W4 _ c id2 Hc (sub_in _ _ Hsub id2 Hid2)) as (k2 & Hk2 & Eo & Es).
    exists id2, k2. split_and!; [|done| |done].
    - rewrite lookup_delete_ne; [done|]. intros ->. rewrite Hn2 in Hid2. by destruct Hid2.
    - destruct (W3 id2 k2 Hk2) as ((c' & Hc' & <-) & _). rewrite Eo, Hc in Hc'. injection Hc' as <-. done. }
  split.
  - intros o c' Ho. rewrite E1 in Ho. rewrite E2. apply lookup_insert_Some in Ho as [[<- <-]|[_ Ho]]; [|by apply W1].
    split; [apply Hsub|]. by apply (W1 _ c).
  - intros n o Hno. assert (conferences w !! n = Some o ∧ (destroyed = true → n ≠ call_conf k)) as [Hn Hd].
    { rewrite E3 in Hno. destruct destroyed; [|done]. by apply lookup_delete_Some in Hno as [? ?]. }
    destruct (W2 n o Hn) as (id0 & k0 & Hk0 & Eo & En). destruct (decide (id0 = id)) as [->|Hid].
    + rewrite Hk in Hk0. injection Hk0 as <-. destruct destroyed; [by destruct (Hd eq_refl)|].
      destruct (Hother eq_refl) as (id2 & k2 & Hk2 & Eo2 & En2 & _). exists id2, k2. split_and!; [done|congruence|congruence].
    + exists id0, k0. split_and!; [by rewrite lookup_delete_ne|done|done].
  - intros i k0 [Hid Hk0]%lookup_delete_Some. destruct (W3 i k0 Hk0) as ((c' & Hc' & Hn') & Hrest). split; [|done]. rewrite E1.
    destruct (decide (call_object k0 = call_object k)) as [Eo|Hne'].
    + exists c2. split; [by rewrite Eo, lookup_insert_eq|]. rewrite Eo, Hc in Hc'. injection Hc' as <-. by rewrite (sub_name _ _ Hsub).
    + exists c'. split; [by rewrite lookup_insert_ne|done].
  - intros o c' i Ho Hi. rewrite E1 in Ho. apply lookup_insert_Some in Ho as [[<- <-]|[Hne' Ho]].
    + destruct (W4 _ c i Hc (sub_in _ _ Hsub i Hi)) as (k0 & Hk0 & Eo & Es). exists k0. split_and!; [|done|done].
      rewrite lookup_delete_ne; [done|]. intros ->. rewrite Hn2 in Hi. by destruct Hi.
    + destruct (W4 o c' i Ho Hi) as (k0 & Hk0 & Eo & Es). exists k0. split_and!; [|done|done].
      rewrite lookup_delete_ne; [done|]. intros ->. congruence.
  - intros n Hn. destruct (E4 n Hn) as [Hn' Hd]. destruct (W5 n Hn') as (id0 & k0 & Hk0 & En & Es). destruct (decide (id0 = id)) as [->|Hid].
    + rewrite Hk in Hk0. injection Hk0 as <-. destruct destroyed; [by destruct (Hd eq_refl)|].
      destruct (Hother eq_refl) as (id2 & k2 & Hk2 & _ & En2 & Es2). exists id2, k2. split_and!; [done|congruence|done].
    + exists id0, k0. split_and!; [by rewrite lookup_delete_ne|done|done].
Qed.

(** A call's stage goes on. *)
Lemma world_stage w calls id k x : world_ok w calls → calls !! id = Some k → stage k ≠ CallInside → world_ok w (<[id := with_stage x k]> calls).
Proof.
  intros [W1 W2 W3 W4 W5] Hk Hs. split; [done|..].
  - intros n o Hn. destruct (W2 n o Hn) as (i & k0 & Hk0 & Eo & En). destruct (decide (i = id)) as [->|Hne].
    + rewrite Hk in Hk0. injection Hk0 as <-. exists id, (with_stage x k). by rewrite lookup_insert_eq.
    + exists i, k0. by rewrite lookup_insert_ne.
  - intros i k0 [[<- <-]|[_ Hk0]]%lookup_insert_Some; [by apply (W3 id k)|by apply W3].
  - intros o c i Ho Hi. destruct (W4 o c i Ho Hi) as (k0 & Hk0 & Eo & Es). exists k0. split_and!; [|done|done].
    rewrite lookup_insert_ne; [done|]. intros <-. congruence.
  - intros n Hn. destruct (W5 n Hn) as (i & k0 & Hk0 & En & Es). exists i, k0. split_and!; [|done|done].
    rewrite lookup_insert_ne; [done|]. intros <-. congruence.
Qed.

Lemma mixer_names name ms n : is_Some ((get_or_create_mixer name ms).2 !! n) → n = name ∨ is_Some (ms !! n).
Proof.
  unfold get_or_create_mixer. destruct (ms !! name) as [m|]; [destruct (cm_running m)|]; cbn [snd]; [by right|..];
    rewrite lookup_insert_is_Some; intros [->|[_ Hn]]; auto.
Qed.

Lemma world_add w calls id k : world_ok w calls → calls !! id = Some k → stage k = CallChecked →
  world_ok (conf_add registered audio_format k w) (<[id := with_stage CallInside k]> calls).
Proof.
  intros [W1 W2 W3 W4 W5] Hk Hs. destruct (W3 id k Hk) as ((c & Hc & Hname) & Hid & Hw). destruct (W1 _ _ Hc) as [Hok Hlt].
  assert (participants c !! cu_channel_id (call_user k) = None) as Hnew.
  { rewrite Hid. destruct (participants c !! id) eqn:E; [|done]. destruct (W4 _ c id Hc ltac:(by rewrite E)) as (k0 & Hk0 & _ & Hs0). congruence. }
  destruct (add_user_ok (call_user k) c Hok Hnew Hw) as (Hok' & Hn' & Hin). rewrite Hid in Hin. unfold conf_add. rewrite Hc. cbv zeta.
  set (c' := add_user (call_user k) c) in *. clearbody c'. set (k' := with_stage CallInside k).
  match goal with |- context [get_or_create_mixer (conf_name c) ?ms] => destruct (get_or_create_mixer (conf_name c) ms) as [m ms'] eqn:Em end.
  assert (∀ n, is_Some (<[conf_name c := add_participant registered audio_format (cu_channel_name (call_user k)) m]> ms' !! n) → n = conf_name c ∨ is_Some (mixers w !! n)) as Hm.
  { intros n. rewrite lookup_insert_is_Some. intros [<-|[_ Hs']]; [by left|]. change (mixers (emit_events _ _)) with (mixers w) in Em.
    apply (mixer_names (conf_name c) (mixers w) n). by rewrite Em. }
  split; cbn [with_conferences emit_events put_object objects next_object conferences mixers].
  - intros o c0 [[<- <-]|[_ Ho]]%lookup_insert_Some; [done|by apply W1].
  - intros n o Hn. destruct (W2 n o Hn) as (i & k0 & Hk0 & Eo & En). destruct (decide (i = id)) as [->|Hne].
    + rewrite Hk in Hk0. injection Hk0 as <-. exists id, k'. by rewrite lookup_insert_eq.
    + exists i, k0. by rewrite lookup_insert_ne.
  - intros i k0 Hk0. assert (∃ k1, calls !! i = Some k1 ∧ call_object k0 = call_object k1 ∧ call_conf k0 = call_conf k1 ∧ call_user k0 = call_user k1) as (k1 & Hk1 & -> & -> & ->).
    { apply lookup_insert_Some in Hk0 as [[<- <-]|[_ Hk0]]; [by exists k|by exists k0]. }
    destruct (W3 i k1 Hk1) as ((c0 & Hc0 & En) & Hrest). split; [|done]. destruct (decide (call_object k1 = call_object k)) as [Eo|Hne].
    + exists c'. rewrite Eo, Hc in Hc0. injection Hc0 as <-. by rewrite Eo, lookup_insert_eq, Hn'.
    + exists c0. by rewrite lookup_insert_ne.
  - intros o c0 i [[<- <-]|[Hne Ho]]%lookup_insert_Some Hi.
    + apply Hin in Hi as [->|Hi]; [exists k'; by rewrite lookup_insert_eq|]. destruct (W4 _ c i Hc Hi) as (k0 & Hk0 & Eo & Es).
      exists k0. split_and!; [|done|done]. rewrite lookup_insert_ne; [done|]. intros <-. congruence.
    + destruct (W4 o c0 i Ho Hi) as (k0 & Hk0 & Eo & Es). exists k0. split_and!; [|done|done].
      rewrite lookup_insert_ne; [done|]. intros <-. congruence.
  - intros n Hn. apply Hm in Hn as [->|Hn]; [exists id, k'; by rewrite lookup_insert_eq|]. destruct (W5 n Hn) as (i & k0 & Hk0 & En & Es).
    exists i, k0. split_and!; [|done|done]. rewrite lookup_insert_ne; [done|]. intros <-. congruence.
Qed.

(** A conference that is new is empty and consistent. *)
Lemma conference_new_ok id name x : conf_ok (conference_new id name x).
Proof. split; cbn; intros *; rewrite ?lookup_empty, ?is_Some_alt; done. Qed.

Lemma world_create w calls id name bp : world_ok w calls →
  let '(o, w') := get_or_create_conference id name bp w in
  ∀ (call : str) k, calls !! call = None → call_object k = o → call_conf k = name → cu_channel_id (call_user k) = call →
    waiting (call_user k) = false → world_ok w' (<[call := k]> calls).
Proof.
  intros [W1 W2 W3 W4 W5]. unfold get_or_create_conference. destruct (conferences w !! name) as [o|] eqn:En; intros call k Hcall Eo Ename Hid Hw.
  - destruct (W2 name o En) as (i0 & k0 & Hk0 & Eo0 & En0). split.
    + done.
    + intros n o' Hn. destruct (W2 n o' Hn) as (i & k1 & Hk1 & ? & ?). exists i, k1. split_and!; [|done|done]. rewrite lookup_insert_ne; [done|]. intros <-. congruence.
    + intros i k1 [[<- <-]|[_ Hk1]]%lookup_insert_Some; [|by apply W3]. split; [|done]. destruct (W3 i0 k0 Hk0) as (Hobj & _).
      by rewrite Eo, <-Eo0, Ename, <-En0.
    + intros o' c i Ho Hi. destruct (W4 o' c i Ho Hi) as (k1 & Hk1 & ? & ?). exists k1. split_and!; [|done|done]. rewrite lookup_insert_ne; [done|]. intros <-. congruence.
    + intros n Hn. destruct (W5 n Hn) as (i & k1 & Hk1 & ? & ?). exists i, k1. split_and!; [|done|done]. rewrite lookup_insert_ne; [done|]. intros <-. congruence.
  - assert (∀ o' c, objects w !! o' = Some c → o' ≠ next_object w) as Hold by (intros o' c Ho ->; pose proof (proj2 (W1 _ _ Ho)); lia).
    split; cbn [objects conferences next_object mixers].
    + intros o' c [[<- <-]|[_ Ho]]%lookup_insert_Some; [split; [apply conference_new_ok|lia]|]. destruct (W1 _ _ Ho). split; [done|lia].
    + intros n o' [[<- <-]|[_ Hn]]%lookup_insert_Some; [exists call, k; by rewrite lookup_insert_eq|].
      destruct (W2 n o' Hn) as (i & k1 & Hk1 & ? & ?). exists i, k1. split_and!; [|done|done]. rewrite lookup_insert_ne; [done|]. intros <-. congruence.
    + intros i k1 [[<- <-]|[_ Hk1]]%lookup_insert_Some.
      * split; [|done]. rewrite Eo, lookup_insert_eq. eexists. by rewrite Ename.
      * destruct (W3 i k1 Hk1) as ((c & Hc & Hn) & Hrest). split; [|done]. exists c. split; [|done]. rewrite lookup_insert_ne; [done|]. intros E. by eapply Hold.
    + intros o' c i [[<- <-]|[_ Ho]]%lookup_insert_Some Hi; [cbn in Hi; rewrite lookup_empty in Hi; by destruct Hi|].
      destruct (W4 o' c i Ho Hi) as (k1 & Hk1 & ? & ?). exists k1. split_and!; [|done|done]. rewrite lookup_insert_ne; [done|]. intros <-. congruence.
    + intros n Hn. destruct (W5 n Hn) as (i & k1 & Hk1 & ? & ?). exists i, k1. split_and!; [|done|done]. rewrite lookup_insert_ne; [done|]. intros <-. congruence.
Qed.

(** A call that enters holds the object registered under the name. *)
Lemma world_enter w calls id now sdp_of channel args : world_ok w calls → calls !! unique_id channel = None →
  match conf_enter id now sdp_of channel args w with
  | (Some (o, name, u), w') =>
      world_ok w' (<[unique_id channel := {| call_object := o; call_conf := name; call_user := u; stage := CallEntered |}]> calls)
  | (None, w') => w' = w
  end.
Proof.
  intros Hok Hnew. unfold conf_enter. cbv zeta. case_bool_decide; [done|].
  set (name := trim _). set (bpn := profile_arg _ 1 _).
  pose proof (world_create w calls id name bpn Hok) as Hc. destruct (get_or_create_conference id name bpn w) as [o w1].
  set (u := conf_user _ _ _ _ _ _). set (k := {| call_object := o; call_conf := name; call_user := u; stage := CallEntered |}).
  specialize (Hc (unique_id channel) k Hnew eq_refl eq_refl eq_refl eq_refl). eapply world_quiet; [exact Hc|].
  pose proof (world_objects_ok _ _ Hc) as Hobj. destruct (variables channel !! _) as [vm|]; [|by apply quiet_refl].
  destruct (objects w1 !! o) as [c|] eqn:E; [|by apply quiet_refl]. apply (quiet_put w1 o c); [done|done|].
  apply conf_sub_same; try done. by apply (Hobj o).
Qed.

Lemma on_mixer_quiet name f w : objects_ok w → quiet w (on_mixer name f w).
Proof. intros Hw. destruct (quiet_refl w Hw) as [Q1 Q2 Q3 Q4]. split; try done. intros n. cbn. by rewrite lookup_alter_is_Some. Qed.

Lemma world_step x w calls : world_ok w calls →
  let '(w', calls') := conf_step registered audio_format x (w, calls) in world_ok w' calls'.
Proof.
  intros Hok. pose proof (world_objects_ok _ _ Hok) as Ho. destruct x; cbn [conf_step].
  - destruct (calls !! unique_id channel) eqn:E; [done|].
    pose proof (world_enter w calls id now sdp_of channel args Hok E) as He.
    destruct (conf_enter id now sdp_of channel args w) as [[[[o name] u]|] w']; [done|by subst].
  - destruct (calls !! call) as [k|] eqn:Ek; [|done]. destruct (objects w !! call_object k) as [c|]; [|done].
    case_bool_decide as Es; [|done]. destruct (may_join _ c); [|by apply world_leave]. apply world_stage; [done|done|by rewrite Es].
  - destruct (calls !! call) as [k|] eqn:Ek; [|done]. case_bool_decide; [by apply world_add|done].
  - destruct (calls !! call) as [k|] eqn:Ek; [|done]. case_bool_decide; [by apply world_leave|done].
  - eapply world_quiet; [done|]. apply quiet_on_user; [done|]. intros u. apply set_voice_keeps.
  - eapply world_quiet; [done|]. apply quiet_on_user; [done|]. intros u. apply set_voice_keeps.
  - by eapply world_quiet, menu_quiet.
  - eapply world_quiet; [done|]. apply quiet_on_user; [done|]. intros u. apply set_voice_keeps.
  - by eapply world_quiet, kick_user_quiet.
  - by eapply world_quiet, kick_all_quiet.
  - by eapply world_quiet, kick_last_quiet.
  - eapply world_quiet; [done|]. apply same_object_quiet; [done|]. intros o c. right. by eexists.
  - eapply world_quiet; [done|]. apply same_object_quiet; [done|]. intros o c. right. by eexists.
  - by eapply world_quiet, recording_quiet.
  - by eapply world_quiet, recording_quiet.
  - by eapply world_quiet, on_mixer_quiet.
  - by eapply world_quiet, tick_quiet.
  - by destruct Hok.
  - by destruct Hok.
  - by destruct Hok.
Qed.

Lemma world_run xs w calls : world_ok w calls →
  let '(w', calls') := conf_run registered audio_format xs (w, calls) in world_ok w' calls'.
Proof.
  revert w calls. induction xs as [|x xs IH]; intros w calls Hok; [done|]. cbn [conf_run].
  pose proof (world_step x w calls Hok) as Hs. destruct (conf_step _ _ x (w, calls)) as [w' calls']. by apply IH.
Qed.

(** What is left when no call is in the application: no conference is registered, no mixer
    runs, and nobody is in any conference, one that lost its name before included. *)
Definition nothing_left (w : ConfWorld) : Prop :=
  conferences w = ∅ ∧ mixers w = ∅ ∧ ∀ o c, objects w !! o = Some c → participants c = ∅.

Lemma world_empty w : world_ok w ∅ → nothing_left w.
Proof.
  intros [_ W2 _ W4 W5]. split_and!.
  - apply map_empty. intros n. destruct (conferences w !! n) as [o|] eqn:E; [|done]. destruct (W2 n o E) as (i & k & Hk & _). by rewrite lookup_empty in Hk.
  - apply map_empty. intros n. destruct (mixers w !! n) as [m|] eqn:E; [|done]. destruct (W5 n ltac:(by rewrite E)) as (i & k & Hk & _). by rewrite lookup_empty in Hk.
  - intros o c Ho. apply map_empty. intros i. destruct (participants c !! i) as [u|] eqn:E; [|done].
    destruct (W4 o c i Ho ltac:(by rewrite E)) as (k & Hk & _). by rewrite lookup_empty in Hk.
Qed.

(** A call that is left alone comes in or is refused, and hangs up. *)
Definition call_ends (id : str) : list conf_input := [CCheck id; CAdd id; CHangup id].

Lemma call_ends_run id w calls : world_ok w calls → ∃ w', conf_run registered audio_format (call_ends id) (w, calls) = (w', delete id calls).
Proof.
  intros Hok. unfold call_ends. cbn [conf_run]. destruct (calls !! id) as [k|] eqn:Ek; cbn [conf_step]; rewrite !Ek.
  2: { cbn [conf_step]. rewrite !Ek. cbn [conf_step]. rewrite !Ek. exists w. by rewrite delete_id. }
  destruct (wo_calls _ _ Hok id k Ek) as ((c & Hc & _) & _). rewrite Hc. destruct (stage k) eqn:Es; cbn [bool_decide];
    repeat first [destruct (may_join _ c) | progress cbn [conf_step with_stage stage] | progress rewrite ?lookup_insert_eq, ?lookup_delete_eq, ?Ek, ?Es
      | rewrite bool_decide_true by done | rewrite bool_decide_false by done];
    eexists; by rewrite ?delete_insert_eq.
Qed.

Lemma conf_run_app xs ys st : conf_run registered audio_format (xs ++ ys) st = conf_run registered audio_format ys (conf_run registered audio_format xs st).
Proof. revert st. induction xs as [|x xs IH]; intros st; [done|]. apply IH. Qed.

Lemma calls_end_run ids w calls : world_ok w calls →
  ∃ w', conf_run registered audio_format (ids ≫= call_ends) (w, calls) = (w', foldl (λ m id, delete id m) calls ids).
Proof.
  revert w calls. induction ids as [|id ids IH]; intros w calls Hok; [by exists w|]. cbn [foldl mbind list_bind].
  rewrite conf_run_app. destruct (call_ends_run id w calls Hok) as [w1 E]. rewrite E. apply IH.
  pose proof (world_run (call_ends id) w calls Hok) as Hr. by rewrite E in Hr.
Qed.

Lemma lookup_foldl_delete (ids : list str) (m : gmap str ConfCall) (id : str) : foldl (λ m id, delete id m) m ids !! id = if bool_decide (id ∈ ids) then None else m !! id.
Proof.
  revert m. induction ids as [|x ids IH]; intros m; [done|]. cbn [foldl]. rewrite IH. destruct (decide (id = x)) as [->|Hne].
  - rewrite lookup_delete_eq, (bool_decide_true (x ∈ x :: ids)) by left. by case_bool_decide.
  - rewrite lookup_delete_ne by done. rewrite (bool_decide_ext (id ∈ x :: ids) (id ∈ ids)); [done|]. rewrite elem_of_cons. naive_solver.
Qed.

(** C12. Whatever calls do in whatever order - enter, be let in or refused, hang up, be
    kicked one by one or all together, be muted or wait, while administrators lock, record
    and change profiles and the mixers run - in every conference the users are filed under
    their own channels, [marked_count] is the number of marked users, the bridge has the
    same members, and nobody waits unless the conference waits for a marked user and none
    is there; every participant is a call that is inside; every conference that can be
    found by its name is held by a call that entered under the name; and a mixer runs only
    for a name under which a call is inside. *)
Theorem conferences_consistent w calls xs :
  world_ok w calls →
  let '(w', calls') := conf_run registered audio_format xs (w, calls) in world_ok w' calls'.
Proof. apply world_run. Qed.

(** C37. Whatever has happened, the calls that are in the application can all be let in
    or refused and hang up, in any order; and as soon as no call is in it, however that
    came about, no conference is registered, no mixer runs and nobody is left in any
    conference, the ones that were taken out of the registry before included. *)
Theorem conferences_end w calls xs :
  world_ok w calls →
  let '(w1, calls1) := conf_run registered audio_format xs (w, calls) in
  (calls1 = ∅ → nothing_left w1)
  ∧ ∀ ids, (∀ id, is_Some (calls1 !! id) → id ∈ ids) →
    let '(w2, calls2) := conf_run registered audio_format (ids ≫= call_ends) (w1, calls1) in calls2 = ∅ ∧ nothing_left w2.
Proof.
  intros Hok. pose proof (world_run xs w calls Hok) as Hr. destruct (conf_run _ _ xs (w, calls)) as [w1 calls1].
  split; [intros ->; by apply world_empty|]. intros ids Hids.
  destruct (calls_end_run ids w1 calls1 Hr) as [w2 E]. pose proof (world_run (ids ≫= call_ends) w1 calls1 Hr) as Hr2.
  rewrite E in Hr2 |- *. assert (foldl (λ m id, delete id m) calls1 ids = ∅) as E0.
  { apply map_empty. intros id. rewrite lookup_foldl_delete. case_bool_decide as Hi; [done|]. destruct (calls1 !! id) as [k|] eqn:Ek; [|done].
    destruct Hi. apply Hids. by rewrite Ek. }
  rewrite E0 in Hr2 |- *. split; [done|]. by apply world_empty.
Qed.
End reachable.

(** ** Examples *)

#[local] Existing Instance key_order.
#[local] Instance example_case : UnicodeCase := λ x, x.

Definition example_run (xs : list conf_input) (st : ConfWorld * gmap str ConfCall) : ConfWorld * gmap str ConfCall :=
  conf_run (λ _, true) (λ _ _, Some 0) xs st.
Definition caller (name : str) : Channel := channel_new name (lit "SIP/" ++ name).
Definition enters (name args : str) : conf_input := CEnter (lit "b-" ++ name) 0 (λ _, None) (caller name) args.
Definition comes (name args : str) : list conf_input := [enters name args; CCheck name; CAdd name].

(** The users of the conference a name stands for, and who of them is muted. *)
Definition in_room (name : str) (w : ConfWorld) : option (list (str * bool)) :=
  o ← conferences w !! name; c ← objects w !! o; Some (prod_map id muted <$> map_to_list (participants c)).
(** The legs of the mixer of a name. *)
Definition on_air (name : str) (w : ConfWorld) : option (list str) :=
  (λ m, (map_to_list (parts m)).*1) <$> mixers w !! name.

(** A room that waits for a marked user, and a call that has entered. *)
Definition waiting_settings : ConferenceSettings :=
  let s := settings_from_bridge_profile bridge_profile_default in
  {| max_members := 0; s_music_on_hold_when_empty := false; music_class := music_class s; s_announce_user_count := false;
     s_announce_join_leave := false; wait_for_marked := true; end_when_marked_leaves := false; bridge_profile := bridge_profile s;
     s_video_mode := s_video_mode s; internal_sample_rate := internal_sample_rate s; mixing_interval := mixing_interval s;
     record_conference := false; record_file := None |}.
Definition waiting_room : ConfWorld :=
  {| conferences := {[lit "room" := 0%nat]}; objects := {[0%nat := conference_new (lit "b") (lit "room") waiting_settings]};
     next_object := 1; event_log := []; mixers := ∅; user_profiles := ∅; bridge_profiles := ∅; menu_profiles := ∅ |}.
Definition waiting_calls : gmap str ConfCall :=
  {[lit "ann" := {| call_object := 0; call_conf := lit "room"; stage := CallEntered;
                    call_user := conf_user 0 (caller (lit "ann")) user_default [] [] (λ _, None) |}]}.

Lemma waiting_room_ok : world_ok waiting_room waiting_calls.
Proof.
  unfold waiting_calls. split; cbn [waiting_room objects conferences mixers next_object].
  - intros o c [<- <-]%lookup_singleton_Some. split; [apply conference_new_ok|lia].
  - intros n o [<- <-]%lookup_singleton_Some. exists (lit "ann"). eexists. split; [apply lookup_singleton_eq|done].
  - intros i k [<- <-]%lookup_singleton_Some. split; [|done]. eexists. split; [apply lookup_singleton_eq|done].
  - intros o c i [<- <-]%lookup_singleton_Some. cbn. rewrite lookup_empty. by intros [? ?].
  - intros n. rewrite lookup_empty. by intros [? ?].
Qed.

Lemma conferences_consistent_witness :
  let xs := [CCheck (lit "ann"); CAdd (lit "ann")] in
  in_room (lit "room") (example_run xs (waiting_room, waiting_calls)).1 = Some [(lit "ann", true)]
  ∧ in_room (lit "room") (example_run (xs ++ comes (lit "bob") (lit "room,,marked")) (waiting_room, waiting_calls)).1
    = Some [(lit "ann", false); (lit "bob", false)]
  ∧ let '(w, calls) := example_run (xs ++ comes (lit "bob") (lit "room,,marked")) (waiting_room, waiting_calls) in world_ok w calls.
Proof.
  intros xs. split; [vm_compute; reflexivity|]. split; [vm_compute; reflexivity|].
  exact (conferences_consistent (λ _, true) (λ _ _, Some 0) waiting_room waiting_calls (xs ++ comes (lit "bob") (lit "room,,marked")) waiting_room_ok).
Defined.

Lemma conferences_end_witness :
  let '(w1, calls1) := example_run (comes (lit "bob") (lit "room,,marked")) (waiting_room, waiting_calls) in
  (calls1 = ∅ → nothing_left w1)
  ∧ ∀ ids, (∀ id, is_Some (calls1 !! id) → id ∈ ids) →
    let '(w2, calls2) := example_run (ids ≫= call_ends) (w1, calls1) in calls2 = ∅ ∧ nothing_left w2.
Proof.
  exact (conferences_end (λ _, true) (λ _ _, Some 0) waiting_room waiting_calls (comes (lit "bob") (lit "room,,marked")) waiting_room_ok).
Defined.

(** Two calls come and go. *)
Example everybody_goes :
  let st := example_run (comes (lit "ann") (lit "room") ++ comes (lit "bob") (lit "room")) (world_new, ∅) in
  let st' := example_run ([lit "bob"; lit "ann"] ≫= call_ends) st in
  size (conferences st.1) = 1%nat ∧ size (mixers st.1) = 1%nat ∧ st'.2 = ∅ ∧ conferences st'.1 = ∅ ∧ mixers st'.1 = ∅.
Proof. by vm_compute. Qed.

(** [ann] and [bob] are kicked and [ann] hangs up: the conference ends.  [cat] opens a new
    one of the same name.  When [bob] hangs up too, it is [cat]'s conference that is taken
    out of the registry and [cat]'s mixer that is stopped. *)
Example late_leaver_ends_a_conference :
  let st := example_run (comes (lit "ann") (lit "room") ++ comes (lit "bob") (lit "room") ++ [CKickAll (lit "room"); CHangup (lit "ann")]
                         ++ comes (lit "cat") (lit "room")) (world_new, ∅) in
  let st' := example_run [CHangup (lit "bob")] st in
  in_room (lit "room") st.1 = Some [(lit "cat", false)] ∧ on_air (lit "room") st.1 = Some [lit "SIP/cat"]
  ∧ in_room (lit "room") st'.1 = None ∧ on_air (lit "room") st'.1 = None ∧ is_Some (st'.2 !! lit "cat").
Proof. vm_compute. split_and!; try done. by eexists. Qed.

(** [bob] has been let in but is not in yet when [ann], the last one, hangs up: [bob] comes
    into a conference that nobody finds any more, and [cat] into another of the same name.
    They are on the same mixer all the same. *)
Example two_conferences_of_a_name :
  let st := example_run (comes (lit "ann") (lit "room") ++ [enters (lit "bob") (lit "room"); CCheck (lit "bob"); CHangup (lit "ann"); CAdd (lit "bob")]
                         ++ comes (lit "cat") (lit "room")) (world_new, ∅) in
  in_room (lit "room") st.1 = Some [(lit "cat", false)] ∧ (call_object <$> st.2 !! lit "bob") = Some 0%nat
  ∧ (call_object <$> st.2 !! lit "cat") = Some 1%nat ∧ on_air (lit "room") st.1 = Some [lit "SIP/cat"; lit "SIP/bob"].
Proof. by vm_compute. Qed.

(** A conference for one: both are let in before either is in. *)
Example limit_is_exceeded :
  let bp := bridge_from_config (lit "small") {[lit "max_members" := lit "1"]} in
  let st := example_run ([CBridgeProfile bp; enters (lit "ann") (lit "room,small"); enters (lit "bob") (lit "room,small")]
                         ++ [CCheck (lit "ann"); CCheck (lit "bob"); CAdd (lit "ann"); CAdd (lit "bob")]) (world_new, ∅) in
  in_room (lit "room") st.1 = Some [(lit "ann", false); (lit "bob", false)].
Proof. by vm_compute. Qed.

(** Any participant's menu can silence the others and throw everybody out. *)
Example menu_is_for_everybody :
  let st := example_run (comes (lit "ann") (lit "room") ++ comes (lit "bob") (lit "room") ++ [CMenu (lit "room") (lit "bob") AdminToggleMuteParticipants]) (world_new, ∅) in
  in_room (lit "room") st.1 = Some [(lit "ann", true); (lit "bob", true)].
Proof. by vm_compute. Qed.

(** A user profile that says to wait for a marked user does not make anybody wait; and a
    user whose profile is named so, and not registered, is a marked user. *)
Example waiting_user_never_waits :
  let guest := user_from_config (lit "guest") {[lit "wait_marked" := lit "yes"]} in
  let st := example_run (CUserProfile guest :: comes (lit "ann") (lit "room,,guest")) (world_new, ∅) in
  wait_marked guest = true ∧ in_room (lit "room") st.1 = Some [(lit "ann", false)]
  ∧ marked (parse_user_profile (lit "wait_marked")) = true.
Proof. by vm_compute. Qed.
